(* ===== verification/_CoqProject ===== *)
-Q . S2P
Prelude.v
GoStrings.v
GoUtf8.v
GoPath.v
GoIO.v
GoSort.v
JsonStore.v
FrameId.v
Refs.v
Frames.v
Sha256.v
SnapHash.v
VshdProto.v
McpExec.v
McpText.v
McpJobs.v
ThunderProto.v
Chunking.v
Bloom.v
Tsc.v
Tsm.v
ChunkIndex.v
Indexer.v
Download.v
FileServer.v
Passwd.v
RefId.v
Portmap.v
McpFiles.v
SnapFiles.v
SnapQueue.v
SnapRecord.v
Nbd.v
Namespaces.v
Servers.v
Sessions.v
Policy.v
Login.v
RefsHandlers.v
HostFs.v
Footprint.v
Subvols.v
SubdirSnap.v
Docker.v
RootFs.v
Autorun.v
Syscalls.v
ContainerSetup.v
ContainerRules.v
Nsenter.v
CreateFrame.v
Travel.v
