(* ===== verification/Prelude.v ===== *)
(** * Thundersnap: a verification development

    Thundersnap keeps Linux work environments ("frames") as btrfs subvolumes,
    captures them as content-addressed snapshots ("snaps"), moves snapshots between
    machines chunk by chunk, and runs programs inside the frames. This library models
    the parts of the Go program that decide what is stored, what goes over the wire
    and who may touch what, and proves what makes them correct.

    ** Parts, and the files that model them

    - Generic files. [Prelude]: machine integers (values in [Z] with the wrap-around
      written out: [u16], [u32], [u64], [i64]), big- and little-endian codecs, Go slices
      with their bounds, the [outcome] type (a result, an error value or a run-time
      panic) and the tactics and hints all files share. [GoStrings], [GoUtf8], [GoPath],
      [GoIO], [GoSort]: the functions of Go's [strings], [strconv], [unicode/utf8],
      [path/filepath], [io] and [sort] packages the program calls, by their documented
      behaviour. [JsonStore]: a disk of files and directories with any system call
      failing, files replaced by rename, and the class [Json] of the values a JSON
      library reads back. [Sha256]: SHA-256, written out so that examples compute,
      behind the class [Digest], the only thing theorems know of it (collision freedom
      is a hypothesis where it is needed).
    - Snapshot format ([src/tsm/]). [Chunking]: the rolling checksum, the split search
      and the streaming chunker ([chunking.go]). [Tsc]: the list of chunks of a snapshot
      ([tsc.go]). [Tsm]: its manifest ([tsm.go], [types.go]). [Indexer]: from a walked
      tree to both files, incrementally against a parent ([indexer.go]). [Bloom],
      [ChunkIndex]: the index over the chunks of all local snapshots ([bloom.go],
      [chunkindex.go]). [Download]: fetching a snapshot from a peer, chunk by chunk
      ([download.go], [chunklookup.go]). [Passwd]: the account files of a container
      ([stripuids.go]).
    - Files and subvolumes of the host. [HostFs]: inodes, names, symbolic links and the
      calls of package [os]; [Footprint]: what each call leaves alone. [Subvols]: the
      [btrfs] command as [src/btrfsutil/] uses it. [SubdirSnap]: one directory of a
      subvolume as a snap ([src/snapsubdir/]).
    - Names and wire formats. [SnapHash]: snap IDs ([src/snaphash/]). [VshdProto]: the
      frames of a remote session ([src/vshdproto/]). [ThunderProto]: the CONNECT
      handshake ([src/thunderproto/]). [Nbd]: the network block device
      ([src/infiniblock/]).
    - Metadata stores. [FrameId]: what the program relies on of UUIDs
      ([src/frameid/]). [Refs]: named pointers to frames ([src/refs/refs.go]). [Frames]:
      frame metadata, histories and taints ([src/frames/frames.go], [metadata.go]).
    - The daemon ([src/cmd/thundersnapd/]). [SnapQueue]: the background queue of captures
      and its interleavings with forks and the worker ([snapqueue.go]). [SnapFiles]: the
      files of a snap, published, deleted and relinked. [SnapRecord]: the metadata calls
      of captures, forks and the worker on one disk. [FileServer]: what peers download
      ([main.go]), with HTTP ranges. [Portmap]: the portmapper and lock manager
      ([portmap.go]). [McpText], [McpFiles], [McpJobs]: the text helpers, the file tools
      and the job table of the tool server ([mcp.go], [mcp_jobs.go]); [McpExec]: the
      collection of a command's output ([src/mcpexec/collect.go]).
    - Frames in the daemon. [Docker]: images as snaps ([docker.go]). [RootFs]: the file
      system of a frame, assembled from its snaps ([rootfs.go]). [CreateFrame]: the
      request that makes a frame ([handleCreate] in [main.go]). [RefId]: the private
      state of a ref ([src/refid/]). [RefsHandlers]: the requests on refs and frames
      ([refs_handlers.go], [frames_handlers.go]). [Policy], [Login]: who a connection
      belongs to, what it may do and what session it gets ([policy.go], [main.go]).
      [Servers], [Autorun]: the servers that sessions share, and the commands that refs
      keep running ([main.go], [autorun.go]).
    - Sessions and containers. [Sessions]: how a request for a session travels from the
      client to the command, and how its input and output travel back
      ([session.go], [src/cmd/vshd/], [src/vshdsession/], [src/cmd/ts/]). [Namespaces]:
      the namespaces that sessions of a frame share ([src/containerns/]). [Syscalls]:
      programs over the kernel's calls and rules on their histories; [ContainerSetup]:
      the container commands as such programs ([container_setup.go]); [ContainerRules]:
      what they may do and when; [Nsenter]: entering a container ([nsenter.go]).
    - The client. [Travel]: [ts go], [ts frame] and [ts undo] ([src/cmd/ts/main.go]),
      against the class [Daemon] of what they ask, which the modelled handlers implement.

    The indexer chunks every file ([Chunking]), enters the chunks into a [Tsc] writer
    and the entries into a [Tsm] writer; the chunk index reads both back from every
    local snapshot ([Tsc.ParseTSC], [Tsm.ParseTSM]) and answers where a chunk can be
    read; the download asks it before it asks the peer, whose answers are those of
    [FileServer]. A capture goes through [SnapQueue], its files through [SnapFiles] and
    its metadata through [Frames] and [SnapRecord]. A new frame is recorded in [Frames],
    assembled by [RootFs] from copies that [Subvols] makes, its account files edited by
    [Passwd], and named by [Refs]; [CreateFrame] is that composition, and [Travel] is a
    client of it. A session is admitted by [Policy] and [Login], holds a reference on the
    tables of [Namespaces] and [Servers], enters through [Nsenter] a container that
    [ContainerSetup] made, and is framed by [VshdProto], which the job table reads too.

    ** What the theorems show

    - Round trips: manifests, chunk lists, snap IDs, session frames and their payloads
      are read back exactly as written, and the readers never panic on any bytes.
    - Chunking cuts data into non-empty bounded pieces that concatenate to it, at
      boundaries that depend neither on how the reader delivers the data nor, beyond
      the window, on what stands before them.
    - Indexing, then reading back, gives the tree; an incremental index equals a full
      one; a write that races with an index is noticed by the next.
    - The chunk index finds a chunk exactly when a local snapshot holds it, whatever
      its caches went through; what a download publishes has the digests its manifest
      names, and is published last; a download from a server that runs [FileServer]
      gives the server's snapshot.
    - Both ends of each protocol agree; the block device is refined to an array of
      bytes, its loops end, and no client reaches outside the export; the portmapper
      answers every well-formed call.
    - The stores are maps that no failing call tears; metadata written by captures,
      forks and the worker is not lost in any interleaving of those that lock; the
      queue publishes in order, drains, and reports each job once.
    - A frame made from snaps is exactly their composition, creating it changes nothing
      but what was asked for, and a streamed request does what a plain one does; the
      layers of an image are extracted to their overlay; a directory as a snap is exactly
      that directory.
    - Refs never point at a frame that a request of the handlers took away, and the
      private state of a ref survives every failing call but two looks at the disk;
      principals stay in the directories of their namespace; [ts go] enters what was
      named, made from the parts that were named.
    - A command reaches its frame unchanged through every program in between, and its
      input and output are delivered byte for byte. The tables that sessions share count
      them exactly. A container is changed only from inside its own namespaces, is
      announced only when complete, and what runs in it has lost the capabilities of a
      fixed list.
    - Tools: a file tool stays inside the frame whatever links stand in the way; a job
      is over exactly once, its log is reproduced by waits, a kill ends it; collected
      output is bounded, cut between characters, and says what was dropped.

    ** Conventions

    Definitions carry the names of the Go functions they translate; a definition for a
    part of a function (a loop, a condition) says so in the manifest's map. A function
    that can fail returns an [outcome]; one that changes state takes and returns it.
    Calls to the operating system are answered by an environment (which calls fail,
    what a read returns), over which theorems quantify. Loops whose recursion is not
    structural take fuel; each says where it is declared why its fuel is enough (the
    length of a stream, the size of a directory, the number of elements of a path), and
    lemmas prove that the out-of-fuel branch is never taken (the block device's loops
    are compared with relations that have no bound at all).

    Removing a tree recursively takes as fuel the number of names there are, which no path
    exceeds.

    Concurrency is modelled where the code is concurrent on purpose: the snap queue, the
    job table, the namespaces, the control servers and the autorun supervisors are step
    systems whose atomic steps are the code's critical sections, and their theorems hold
    for every interleaving. A program over system calls is compared with every answer the
    kernel may give, so what other processes do between two calls is included. A connection, a download and an
    index run are modelled one at a time; the caches of the chunk index are under one
    mutex in the code, so its operations are atomic steps.

    ** Not modelled

    - The daemon's start-up, listeners, HTTP plumbing, peers' discovery and proxies
      ([main.go], [src/thunderclient/], [src/tsm/peers.go]), the registration of the tools
      with their library ([mcp.go]), the printing commands of the client ([src/cmd/ts/]),
      and the processes of virtual machines ([src/thundersnap/], [src/thunderboot/]):
      sequences of calls to libraries and to the kernel, with no state of their own.
    - JSON, HTTP, SSH, NFS, SFTP, tailnet and registry libraries: parameters, or outside.
    - Logging, progress output, metrics, release and test tooling.
    - Floating-point sizing of the Bloom filter: two parameters. *)

From Stdlib Require Export ZArith Lia ZifyBool.
From Stdlib Require Export Strings.Byte.
From Stdlib Require Import Strings.String.
From stdpp Require Export base tactics numbers list gmap.
From stdpp Require Import strings.

Open Scope Z_scope.

(** Names of constants in the model are those of the Go source; the scope
    [go_scope] holds the notations the translated code uses. *)
Declare Scope go_scope.
Delimit Scope go_scope with go.

(** ** Automation *)

(** [go_len] collects the equations that push [length] through the model's
    list operations, [go_db] the lemmas that close routine range goals. *)
Create Rewrite HintDb go_len.
Create HintDb go_db.
Create Rewrite HintDb go_db.

#[export] Hint Rewrite @length_app @length_take @length_drop @length_replicate
  @length_fmap @length_nil @length_insert @length_seq : go_len.

(** Solve an arithmetic goal about lengths. *)
Ltac len_lia :=
  repeat (autorewrite with go_len in *; simpl length in *); try lia.

(** Split every boolean connective of the context and turn the comparisons of
    [Z] and [nat] into propositions. *)
Ltac reflect_bools :=
  repeat match goal with
  | H : _ && _ = true |- _ => apply andb_true_iff in H as [? ?]
  | H : _ || _ = false |- _ => apply orb_false_iff in H as [? ?]
  | H : negb _ = true |- _ => apply negb_true_iff in H
  | H : negb _ = false |- _ => apply negb_false_iff in H
  | H : (_ =? _)%Z = true |- _ => apply Z.eqb_eq in H
  | H : (_ =? _)%Z = false |- _ => apply Z.eqb_neq in H
  | H : (_ <? _)%Z = true |- _ => apply Z.ltb_lt in H
  | H : (_ <? _)%Z = false |- _ => apply Z.ltb_ge in H
  | H : (_ <=? _)%Z = true |- _ => apply Z.leb_le in H
  | H : (_ <=? _)%Z = false |- _ => apply Z.leb_gt in H
  | H : (_ >? _)%Z = _ |- _ => rewrite Z.gtb_ltb in H
  | H : (_ >=? _)%Z = _ |- _ => rewrite Z.geb_leb in H
  | H : (_ =? _)%nat = true |- _ => apply Nat.eqb_eq in H
  | H : (_ =? _)%nat = false |- _ => apply Nat.eqb_neq in H
  | H : (_ <? _)%nat = true |- _ => apply Nat.ltb_lt in H
  | H : (_ <? _)%nat = false |- _ => apply Nat.ltb_ge in H
  | H : (_ <=? _)%nat = true |- _ => apply Nat.leb_le in H
  | H : (_ <=? _)%nat = false |- _ => apply Nat.leb_gt in H
  | H : bool_decide _ = true |- _ => apply bool_decide_eq_true in H
  | H : bool_decide _ = false |- _ => apply bool_decide_eq_false in H
  end.

(** Evaluate the condition of an [if] in the goal with [lia]. *)
Ltac if_lia :=
  match goal with
  | |- context [if ?b then _ else _] =>
      first [ replace b with true by lia | replace b with false by lia ]
  end.

(** ** Outcomes: a Go call returns a value, returns an error or panics *)

Inductive outcome (E A : Type) :=
| Ret (a : A)
| Err (e : E)
| Panic.
Arguments Ret {E A} a.
Arguments Err {E A} e.
Arguments Panic {E A}.

#[export] Instance outcome_ret E : MRet (outcome E) := λ A a, Ret a.
#[export] Instance outcome_bind E : MBind (outcome E) := λ A B f m,
  match m with Ret a => f a | Err e => Err e | Panic => Panic end.
#[export] Instance outcome_fmap E : FMap (outcome E) := λ A B f m,
  match m with Ret a => Ret (f a) | Err e => Err e | Panic => Panic end.

(** [guard_err c e] is the early return [if c { return e }]. *)
Definition guard_err {E} (c : bool) (e : E) : outcome E unit :=
  if c then Err e else Ret tt.

(** A Go run-time check: an index or slice operation that is [None] panics. *)
Definition or_panic {E A} (o : option A) : outcome E A :=
  match o with Some a => Ret a | None => Panic end.

Definition or_err {E A} (o : option A) (e : E) : outcome E A :=
  match o with Some a => Ret a | None => Err e end.

(** A fallible call whose error is wrapped with [fmt.Errorf("...: %w", err)]. *)
Definition wrap_err {E F A} (f : E → F) (m : outcome E A) : outcome F A :=
  match m with Ret a => Ret a | Err e => Err (f e) | Panic => Panic end.

Definition is_ret {E A} (m : outcome E A) : bool :=
  match m with Ret _ => true | _ => false end.

Definition no_panic {E A} (m : outcome E A) : Prop := m ≠ Panic.

Lemma bind_ret_inv {E A B} (m : outcome E A) (f : A → outcome E B) b :
  m ≫= f = Ret b → ∃ a, m = Ret a ∧ f a = Ret b.
Proof. destruct m; simpl; naive_solver. Qed.

Lemma bind_err_inv {E A B} (m : outcome E A) (f : A → outcome E B) e :
  m ≫= f = Err e → m = Err e ∨ ∃ a, m = Ret a ∧ f a = Err e.
Proof. destruct m; simpl; naive_solver. Qed.

Lemma guard_err_err {E} c (e e' : E) : guard_err c e = Err e' → c = true ∧ e = e'.
Proof. destruct c; [|done]. by intros [= ->]. Qed.

Lemma wrap_err_err {E F A} (f : E → F) (m : outcome E A) e :
  wrap_err f m = Err e → ∃ e', m = Err e' ∧ f e' = e.
Proof. destruct m; simpl; naive_solver. Qed.

Lemma wrap_err_inv {E F A} (f : E → F) (o : outcome E A) a : wrap_err f o = Ret a → o = Ret a.
Proof. destruct o; cbn; congruence. Qed.

Lemma guard_err_ret {E} c (e : E) u : guard_err c e = Ret u → c = false.
Proof. by destruct c. Qed.

Lemma or_panic_ret {E A} (o : option A) a : or_panic (E := E) o = Ret a → o = Some a.
Proof. destruct o; [|done]. by intros [= ->]. Qed.

Lemma ret_bind {E A B} (a : A) (f : A → outcome E B) : Ret a ≫= f = f a.
Proof. done. Qed.

Lemma wrap_ret {E F A} (f : E → F) (a : A) : wrap_err f (Ret a) = Ret a.
Proof. done. Qed.

Lemma wrap_error {E F A} (f : E → F) e : wrap_err (A:=A) f (Err e) = Err (f e).
Proof. done. Qed.

Lemma err_bind {E A B} (e : E) (f : A → outcome E B) : Err e ≫= f = Err e.
Proof. done. Qed.

Lemma guard_false_bind {E B} c (e : E) (f : unit → outcome E B) :
  c = false → guard_err c e ≫= f = f tt.
Proof. by intros ->. Qed.

Lemma guard_true_bind {E B} c (e : E) (f : unit → outcome E B) :
  c = true → guard_err c e ≫= f = Err e.
Proof. by intros ->. Qed.

Lemma no_panic_bind {E A B} (m : outcome E A) (f : A → outcome E B) :
  no_panic m → (∀ a, m = Ret a → no_panic (f a)) → no_panic (m ≫= f).
Proof. unfold no_panic. destruct m; naive_solver. Qed.

Lemma no_panic_guard {E} c (e : E) : no_panic (guard_err c e).
Proof. by destruct c. Qed.

Lemma no_panic_or_panic {E A} (o : option A) :
  is_Some o → no_panic (or_panic (E:=E) o).
Proof. by intros [? ->]. Qed.

#[export] Hint Resolve no_panic_guard no_panic_or_panic : go_db.

(** Invert the success of a sequence of binds in the context. *)
Ltac inv_ret :=
  repeat match goal with
  | H : mret _ = Ret _ |- _ => unfold mret, outcome_ret in H
  | H : Ret _ = Ret _ |- _ => injection H as H; subst
  | H : Err _ = Ret _ |- _ => discriminate H
  | H : Panic = Ret _ |- _ => discriminate H
  | H : guard_err _ _ = Ret _ |- _ => apply guard_err_ret in H
  | H : _ ≫= _ = Ret _ |- _ =>
      apply bind_ret_inv in H as (? & ? & H); simpl in H
  | u : unit |- _ => destruct u
  end.

(** ** Machine integers: a [w]-bit integer is a [Z] with its wrap-around *)

Definition u8 (z : Z) : Z := z mod 2 ^ 8.
Definition u16 (z : Z) : Z := z mod 2 ^ 16.
Definition u32 (z : Z) : Z := z mod 2 ^ 32.
Definition u64 (z : Z) : Z := z mod 2 ^ 64.
Definition i32 (z : Z) : Z := (z + 2 ^ 31) mod 2 ^ 32 - 2 ^ 31.
Definition i64 (z : Z) : Z := (z + 2 ^ 63) mod 2 ^ 64 - 2 ^ 63.

Definition is_u8 (z : Z) : Prop := 0 ≤ z < 2 ^ 8.
Definition is_u16 (z : Z) : Prop := 0 ≤ z < 2 ^ 16.
Definition is_u32 (z : Z) : Prop := 0 ≤ z < 2 ^ 32.
Definition is_u64 (z : Z) : Prop := 0 ≤ z < 2 ^ 64.
Definition is_i32 (z : Z) : Prop := - 2 ^ 31 ≤ z < 2 ^ 31.
Definition is_i64 (z : Z) : Prop := - 2 ^ 63 ≤ z < 2 ^ 63.

Ltac unfold_ints :=
  unfold is_u8, is_u16, is_u32, is_u64, is_i32, is_i64,
    u8, u16, u32, u64, i32, i64 in *.

Lemma u16_id z : is_u16 z → u16 z = z.
Proof. unfold_ints. intros. by apply Z.mod_small. Qed.
Lemma u32_id z : is_u32 z → u32 z = z.
Proof. unfold_ints. intros. by apply Z.mod_small. Qed.
Lemma u64_id z : is_u64 z → u64 z = z.
Proof. unfold_ints. intros. by apply Z.mod_small. Qed.
Lemma u16_range z : is_u16 (u16 z).
Proof. unfold_ints. apply Z.mod_pos_bound. lia. Qed.
Lemma u32_range z : is_u32 (u32 z).
Proof. unfold_ints. apply Z.mod_pos_bound. lia. Qed.
Lemma u64_range z : is_u64 (u64 z).
Proof. unfold_ints. apply Z.mod_pos_bound. lia. Qed.
Lemma i32_range z : is_i32 (i32 z).
Proof.
  unfold_ints. pose proof (Z.mod_pos_bound (z + 2 ^ 31) (2 ^ 32)). lia.
Qed.
Lemma i64_id z : is_i64 z → i64 z = z.
Proof. unfold_ints. intros. rewrite Z.mod_small; lia. Qed.
Lemma i64_range z : is_i64 (i64 z).
Proof.
  unfold_ints. pose proof (Z.mod_pos_bound (z + 2 ^ 63) (2 ^ 64)). lia.
Qed.

#[export] Hint Resolve u16_range u32_range u64_range i32_range i64_range : go_db.

(** Converting a signed value to unsigned and back keeps it. *)
Lemma i64_u64 z : is_i64 z → i64 (u64 z) = z.
Proof.
  unfold_ints. intros. rewrite Zplus_mod_idemp_l, Z.mod_small; lia.
Qed.
Lemma i32_u32 z : is_i32 z → i32 (u32 z) = z.
Proof.
  unfold_ints. intros. rewrite Zplus_mod_idemp_l, Z.mod_small; lia.
Qed.
Lemma u64_i64 z : is_u64 z → u64 (i64 z) = z.
Proof.
  unfold_ints. intros. rewrite Zminus_mod_idemp_l, Z.mod_small; lia.
Qed.
Lemma u32_i32 z : is_u32 z → u32 (i32 z) = z.
Proof.
  unfold_ints. intros. rewrite Zminus_mod_idemp_l, Z.mod_small; lia.
Qed.

(** ** Bytes and Go strings *)

Abbreviation byte := Byte.byte.

(** A Go [string] and a [[]byte] value are both the list of their bytes. *)
Abbreviation gostring := (list byte).

Definition Z_of_byte (b : byte) : Z := Z.of_N (Byte.to_N b).
Definition byte_of_Z (z : Z) : byte :=
  default Byte.x00 (Byte.of_N (Z.to_N (z mod 256))).

#[export] Instance byte_inhabited : Inhabited byte := populate Byte.x00.
#[export] Instance byte_eq_dec : EqDecision byte := Byte.byte_eq_dec.

Lemma byte_range b : 0 ≤ Z_of_byte b < 256.
Proof.
  unfold Z_of_byte. pose proof (Byte.to_N_bounded b). lia.
Qed.

Lemma Z_of_byte_of_Z z : Z_of_byte (byte_of_Z z) = z mod 256.
Proof.
  unfold byte_of_Z, Z_of_byte. pose proof (Z.mod_pos_bound z 256 eq_refl).
  destruct (Byte.of_N (Z.to_N (z mod 256))) as [b|] eqn:Hb; simpl.
  - apply Byte.to_of_N in Hb. rewrite Hb. lia.
  - apply Byte.of_N_None_iff in Hb. lia.
Qed.

Lemma byte_of_Z_of_byte b : byte_of_Z (Z_of_byte b) = b.
Proof.
  unfold byte_of_Z. rewrite Z.mod_small by apply byte_range.
  unfold Z_of_byte. rewrite N2Z.id, Byte.of_to_N. done.
Qed.

#[export] Instance Z_of_byte_inj : Inj (=) (=) Z_of_byte.
Proof. intros a b H. rewrite <- (byte_of_Z_of_byte a), H. apply byte_of_Z_of_byte. Qed.

#[export] Instance byte_countable : Countable byte :=
  inj_countable' Byte.to_N (λ n, default Byte.x00 (Byte.of_N n))
    (λ b, f_equal (default Byte.x00) (Byte.of_to_N b)).

#[export] Hint Resolve byte_range : go_db.

(** A Go string literal. *)
Definition bs (s : string) : gostring := list_byte_of_string s.
Arguments bs !s%_string.

(** ** Big-endian integers ([encoding/binary.BigEndian]) *)

(** [binary.BigEndian.PutUintN]: the [n] bytes of [z mod 256^n]. *)
Fixpoint be_put (n : nat) (z : Z) : list byte :=
  match n with
  | O => []
  | S n' => byte_of_Z (z / 256 ^ Z.of_nat n') :: be_put n' z
  end.

(** [binary.BigEndian.UintN]. *)
Definition be_get (l : list byte) : Z :=
  fold_left (λ acc b, acc * 256 + Z_of_byte b) l 0.

Lemma length_be_put n z : length (be_put n z) = n.
Proof. induction n; simpl; lia. Qed.
#[export] Hint Rewrite length_be_put : go_len.

Lemma be_get_acc l acc :
  fold_left (λ acc b, acc * 256 + Z_of_byte b) l acc
  = acc * 256 ^ Z.of_nat (length l) + be_get l.
Proof.
  unfold be_get. revert acc. induction l as [|b l IH]; intros acc; simpl; [lia|].
  rewrite IH, (IH (0 * 256 + Z_of_byte b)).
  replace (Z.of_nat (S (length l))) with (Z.of_nat (length l) + 1) by lia.
  rewrite Z.pow_add_r by lia. lia.
Qed.

Lemma be_get_cons b l :
  be_get (b :: l) = Z_of_byte b * 256 ^ Z.of_nat (length l) + be_get l.
Proof. unfold be_get at 1. simpl. rewrite be_get_acc. lia. Qed.

Lemma be_get_range l : 0 ≤ be_get l < 256 ^ Z.of_nat (length l).
Proof.
  induction l as [|b l IH]; [done|].
  rewrite be_get_cons. simpl length.
  replace (Z.of_nat (S (length l))) with (Z.of_nat (length l) + 1) by lia.
  rewrite Z.pow_add_r by lia. pose proof (byte_range b). nia.
Qed.

Lemma be_get_put n z : be_get (be_put n z) = z mod 256 ^ Z.of_nat n.
Proof.
  induction n as [|n IH].
  { simpl. by rewrite Z.mod_1_r. }
  cbn [be_put]. rewrite be_get_cons, length_be_put, IH, Z_of_byte_of_Z.
  replace (Z.of_nat (S n)) with (Z.of_nat n + 1) by lia.
  rewrite Z.pow_add_r by lia. change (256 ^ 1) with 256.
  assert (0 < 256 ^ Z.of_nat n) by (apply Z.pow_pos_nonneg; lia).
  rewrite Z.rem_mul_r by lia. lia.
Qed.

(** The low [m] bytes do not depend on the part above [256^k], [m <= k]. *)
Lemma be_put_add_high m k x y :
  (m ≤ k)%nat → be_put m (x * 256 ^ Z.of_nat k + y) = be_put m y.
Proof.
  induction m as [|m IHm]; intros Hm; [done|].
  cbn [be_put]. rewrite IHm by lia. f_equal.
  apply Z_of_byte_inj. rewrite !Z_of_byte_of_Z.
  replace (Z.of_nat k) with (Z.of_nat m + 1 + (Z.of_nat k - Z.of_nat m - 1)) by lia.
  rewrite !Z.pow_add_r by lia. change (256 ^ 1) with 256.
  assert (0 < 256 ^ Z.of_nat m) by (apply Z.pow_pos_nonneg; lia).
  set (c := 256 ^ (Z.of_nat k - Z.of_nat m - 1)).
  replace (x * (256 ^ Z.of_nat m * 256 * c) + y)
    with ((x * c * 256) * 256 ^ Z.of_nat m + y) by ring.
  rewrite Z.div_add_l by lia.
  rewrite Z.add_comm, Z.mod_add by lia. done.
Qed.

Lemma be_put_get l : be_put (length l) (be_get l) = l.
Proof.
  induction l as [|b l IH]; [done|].
  cbn [length be_put]. rewrite be_get_cons.
  assert (0 < 256 ^ Z.of_nat (length l)) by (apply Z.pow_pos_nonneg; lia).
  pose proof (be_get_range l). f_equal.
  - rewrite Z.div_add_l by lia. rewrite Z.div_small by lia.
    rewrite Z.add_0_r. apply byte_of_Z_of_byte.
  - by rewrite be_put_add_high.
Qed.

Lemma be_put_get_n n l : length l = n → be_put n (be_get l) = l.
Proof. intros <-. apply be_put_get. Qed.

Lemma be_put_inj n z z' :
  0 ≤ z < 256 ^ Z.of_nat n → 0 ≤ z' < 256 ^ Z.of_nat n →
  be_put n z = be_put n z' → z = z'.
Proof.
  intros ?? H. apply (f_equal be_get) in H. rewrite !be_get_put in H.
  rewrite !Z.mod_small in H; lia.
Qed.

(** The fixed-width accessors of the source. *)
Definition put16 (z : Z) : list byte := be_put 2 z.
Definition put32 (z : Z) : list byte := be_put 4 z.
Definition put64 (z : Z) : list byte := be_put 8 z.

Lemma get_put16 z : be_get (put16 z) = u16 z.
Proof. apply be_get_put. Qed.
Lemma get_put32 z : be_get (put32 z) = u32 z.
Proof. apply be_get_put. Qed.
Lemma get_put64 z : be_get (put64 z) = u64 z.
Proof. apply be_get_put. Qed.
Lemma length_put16 z : length (put16 z) = 2%nat.
Proof. done. Qed.
Lemma length_put32 z : length (put32 z) = 4%nat.
Proof. done. Qed.
Lemma length_put64 z : length (put64 z) = 8%nat.
Proof. done. Qed.
#[export] Hint Rewrite length_put16 length_put32 length_put64 : go_len.
#[export] Hint Rewrite get_put16 get_put32 get_put64 : go_db.
#[global] Opaque put16 put32 put64.
Arguments be_put : simpl never.

(** ** Slices *)

(** The Go slice expression [l[a:b]] for [a <= b <= len(l)]; [None] is the
    run-time panic. *)
Definition go_slice {A} (l : list A) (a b : nat) : option (list A) :=
  if (a <=? b)%nat && (b <=? length l)%nat then Some (take (b - a) (drop a l)) else None.

Lemma go_slice_some {A} (l : list A) a b :
  (a ≤ b)%nat → (b ≤ length l)%nat → go_slice l a b = Some (take (b - a) (drop a l)).
Proof.
  intros. unfold go_slice.
  destruct (Nat.leb_spec a b), (Nat.leb_spec b (length l)); simpl; done || lia.
Qed.

Lemma go_slice_length {A} (l l' : list A) a b :
  go_slice l a b = Some l' → length l' = (b - a)%nat ∧ (a ≤ b ≤ length l)%nat.
Proof.
  unfold go_slice. destruct (Nat.leb_spec a b), (Nat.leb_spec b (length l)); simpl; try done.
  intros [= <-]. len_lia.
Qed.

(** Reading the field that starts right after a known prefix. *)
Lemma go_slice_app {A} (p m s : list A) a b :
  length p = a → b = (a + length m)%nat → go_slice (p ++ m ++ s) a b = Some m.
Proof.
  intros <- ->. rewrite go_slice_some by len_lia.
  rewrite drop_app_length.
  replace (length p + length m - length p)%nat with (length m) by lia.
  by rewrite take_app_length.
Qed.

Lemma slice_at (data p m s : list byte) a b :
  data = p ++ m ++ s → length p = a → b = (a + length m)%nat →
  go_slice data a b = Some m.
Proof. intros ->. apply go_slice_app. Qed.

(** A big-endian field of the data ([binary.BigEndian.UintN(data[a:b])]); the
    slice expression is checked. *)
Definition field {E} (data : list byte) (a b : nat) : outcome E Z :=
  be_get <$> or_panic (go_slice data a b).

Lemma field_at {E} data p m s a b :
  data = p ++ m ++ s → length p = a → b = (a + length m)%nat →
  field (E := E) data a b = Ret (be_get m).
Proof. intros -> Ha Hb. unfold field. by rewrite (go_slice_app p m s a b Ha Hb). Qed.

Lemma field_not_err {E} data a b (e : E) : field data a b ≠ Err e.
Proof. unfold field. by destruct (go_slice data a b). Qed.

Lemma field_no_panic {E} data a b :
  (a ≤ b ≤ length data)%nat → no_panic (field (E := E) data a b).
Proof. intros. unfold field. by rewrite go_slice_some by lia. Qed.

(** ** Options *)

(** For computations whose result is too large to look at. *)
Lemma is_some_default {A} (o : option A) (a : A) :
  match o with Some _ => true | None => false end = true → o = Some (default a o).
Proof. by destruct o. Qed.

(** ** Lists *)

Lemma lookup_total_app_lt {A} `{Inhabited A} (l1 l2 : list A) i :
  (i < length l1)%nat → (l1 ++ l2) !!! i = l1 !!! i.
Proof. intros. rewrite !list_lookup_total_alt. by rewrite lookup_app_l. Qed.

(** The list [f a; ...; f (a+n-1)] and its elements. *)
Lemma lookup_total_map_seq {A} `{Inhabited A} (f : nat → A) n i :
  (i < n)%nat → (f <$> seq 0 n) !!! i = f i.
Proof.
  intros. rewrite list_lookup_total_alt, list_lookup_fmap, lookup_seq_lt by lia. done.
Qed.

Lemma list_eq_total {A} `{!Inhabited A} (l1 l2 : list A) :
  length l1 = length l2 →
  (∀ i, (i < length l1)%nat → l1 !!! i = l2 !!! i) → l1 = l2.
Proof.
  intros Hl Heq. apply list_eq_same_length with (length l1); [done|done|].
  intros i x y Hi Hx Hy. apply list_lookup_total_correct in Hx, Hy.
  rewrite <- Hx, <- Hy. by apply Heq.
Qed.
