(* ===== verification/GoStrings.v ===== *)
(** * The parts of Go's [strings], [strconv] and [fmt] that the program uses

    A Go string is the list of its bytes; the functions below follow the
    documented behaviour of the standard library on such lists. *)

From Stdlib Require Import Strings.String.
From S2P Require Import Prelude.

(** ** [strings] *)

Definition HasPrefix (s p : gostring) : bool := bool_decide (take (length p) s = p).
Definition TrimPrefix (s p : gostring) : gostring :=
  if HasPrefix s p then drop (length p) s else s.

Definition HasSuffix (s p : gostring) : bool :=
  (length p <=? length s)%nat && bool_decide (drop (length s - length p) s = p).
Definition TrimSuffix (s p : gostring) : gostring :=
  if HasSuffix s p then take (length s - length p) s else s.

(** [strings.Split(s, sep)] for a one-byte separator. *)
Fixpoint Split (s : gostring) (sep : byte) : list gostring :=
  match s with
  | [] => [[]]
  | c :: s' =>
      if bool_decide (c = sep) then [] :: Split s' sep
      else match Split s' sep with
           | f :: fs => (c :: f) :: fs
           | [] => [[c]]
           end
  end.

(** [strings.Join(fields, sep)] for a one-byte separator. *)
Fixpoint Join (fields : list gostring) (sep : byte) : gostring :=
  match fields with
  | [] => []
  | [f] => f
  | f :: fs => f ++ sep :: Join fs sep
  end.

(** [strings.Contains]/[ContainsRune] for a single byte. *)
Definition ContainsByte (s : gostring) (c : byte) : bool := bool_decide (c ∈ s).

(** The UTF-8 encodings of the runes of [unicode.IsSpace]. *)
Definition space_runes : list gostring :=
  [ ["009"%byte]; ["010"%byte]; ["011"%byte]; ["012"%byte]; ["013"%byte]; [" "%byte];
    [Byte.xc2; Byte.x85]; [Byte.xc2; Byte.xa0]; [Byte.xe1; Byte.x9a; Byte.x80];
    [Byte.xe2; Byte.x80; Byte.x80]; [Byte.xe2; Byte.x80; Byte.x81];
    [Byte.xe2; Byte.x80; Byte.x82]; [Byte.xe2; Byte.x80; Byte.x83];
    [Byte.xe2; Byte.x80; Byte.x84]; [Byte.xe2; Byte.x80; Byte.x85];
    [Byte.xe2; Byte.x80; Byte.x86]; [Byte.xe2; Byte.x80; Byte.x87];
    [Byte.xe2; Byte.x80; Byte.x88]; [Byte.xe2; Byte.x80; Byte.x89];
    [Byte.xe2; Byte.x80; Byte.x8a]; [Byte.xe2; Byte.x80; Byte.xa8];
    [Byte.xe2; Byte.x80; Byte.xa9]; [Byte.xe2; Byte.x80; Byte.xaf];
    [Byte.xe2; Byte.x81; Byte.x9f]; [Byte.xe3; Byte.x80; Byte.x80] ].

(** Drop leading members of [runes], at most [fuel] of them ([length s] is
    enough: every member is non-empty). *)
Fixpoint trim_runes (runes : list gostring) (fuel : nat) (s : gostring) : gostring :=
  match fuel with
  | O => s
  | S fuel' =>
      match filter (λ r, HasPrefix s r = true) runes with
      | r :: _ => trim_runes runes fuel' (drop (length r) s)
      | [] => s
      end
  end.

Definition TrimSpaceLeft (s : gostring) : gostring := trim_runes space_runes (length s) s.
Definition TrimSpaceRight (s : gostring) : gostring :=
  reverse (trim_runes (reverse <$> space_runes) (length s) (reverse s)).
Definition TrimSpace (s : gostring) : gostring := TrimSpaceRight (TrimSpaceLeft s).

(** The byte-wise order of Go's [<] on strings and of [bytes.Compare]. *)
Fixpoint go_compare (a b : gostring) : comparison :=
  match a, b with
  | [], [] => Eq
  | [], _ :: _ => Lt
  | _ :: _, [] => Gt
  | x :: a', y :: b' =>
      match Z.compare (Z_of_byte x) (Z_of_byte y) with
      | Eq => go_compare a' b'
      | c => c
      end
  end.

Definition go_ltb (a b : gostring) : bool :=
  match go_compare a b with Lt => true | _ => false end.

(** ** [strconv] and [%d] *)

Definition digit_byte (d : Z) : byte := byte_of_Z (48 + d).

Fixpoint fmt_digits (fuel : nat) (n : Z) : gostring :=
  match fuel with
  | O => []
  | S fuel' =>
      if n <? 10 then [digit_byte n]
      else fmt_digits fuel' (n / 10) ++ [digit_byte (n mod 10)]
  end.

(** [%d] of a non-negative integer: [log2 n + 1] digits are enough. *)
Definition fmt_uint (n : Z) : gostring := fmt_digits (S (Z.to_nat (Z.log2 n))) n.

(** [%d] of any integer. *)
Definition fmt_int (n : Z) : gostring :=
  if n <? 0 then "-"%byte :: fmt_uint (- n) else fmt_uint n.

Definition byte_digit (b : byte) : option Z :=
  let z := Z_of_byte b in
  if (48 <=? z) && (z <=? 57) then Some (z - 48) else None.

Fixpoint parse_digits (acc : Z) (s : gostring) : option Z :=
  match s with
  | [] => Some acc
  | c :: s' => match byte_digit c with
               | Some d => parse_digits (acc * 10 + d) s'
               | None => None
               end
  end.

(** [strconv.ParseUint(s, 10, bits)]: [None] is [ErrSyntax] or [ErrRange]. *)
Definition ParseUint (s : gostring) (bits : Z) : option Z :=
  match s with
  | [] => None
  | _ => match parse_digits 0 s with
         | Some n => if n <? 2 ^ bits then Some n else None
         | None => None
         end
  end.

(** [strconv.Atoi] on a 64-bit platform. *)
Definition Atoi (s : gostring) : option Z :=
  let '(neg, ds) := match s with
    | c :: s' => if bool_decide (c = "-"%byte) then (true, s')
                 else if bool_decide (c = "+"%byte) then (false, s') else (false, s)
    | [] => (false, s)
    end in
  match ds with
  | [] => None
  | _ => match parse_digits 0 ds with
         | Some n => let v := if neg : bool then - n else n in
                     if (- 2 ^ 63 <=? v) && (v <? 2 ^ 63) then Some v else None
         | None => None
         end
  end.

(** ** Lemmas *)

Lemma HasPrefix_app p s : HasPrefix (p ++ s) p = true.
Proof. unfold HasPrefix. rewrite take_app_length. by apply bool_decide_eq_true_2. Qed.

Lemma HasPrefix_true s p : HasPrefix s p = true ↔ ∃ s', s = p ++ s'.
Proof.
  unfold HasPrefix. rewrite bool_decide_eq_true. split.
  - intros H. exists (drop (length p) s). rewrite <- H at 1. by rewrite take_drop.
  - intros [s' ->]. by rewrite take_app_length.
Qed.

Lemma TrimPrefix_app p s : TrimPrefix (p ++ s) p = s.
Proof. unfold TrimPrefix. by rewrite HasPrefix_app, drop_app_length. Qed.

Lemma HasSuffix_app s p : HasSuffix (s ++ p) p = true.
Proof.
  unfold HasSuffix. rewrite length_app. apply andb_true_iff. split.
  - apply Nat.leb_le. lia.
  - apply bool_decide_eq_true_2.
    replace (length s + length p - length p)%nat with (length s) by lia.
    apply drop_app_length.
Qed.

Lemma TrimSuffix_app s p : TrimSuffix (s ++ p) p = s.
Proof.
  unfold TrimSuffix. rewrite HasSuffix_app, length_app.
  replace (length s + length p - length p)%nat with (length s) by lia.
  apply take_app_length.
Qed.

Lemma HasSuffix_true s p : HasSuffix s p = true ↔ ∃ s', s = s' ++ p.
Proof.
  split.
  - unfold HasSuffix. intros [_ H%bool_decide_eq_true]%andb_true_iff.
    exists (take (length s - length p) s). rewrite <- H at 2. by rewrite take_drop.
  - intros [s' ->]. apply HasSuffix_app.
Qed.

Lemma Split_not_nil s sep : Split s sep ≠ [].
Proof. destruct s as [|c s]; simpl; [done|]. case_bool_decide; [done|]. by destruct (Split s sep). Qed.

Lemma Split_app_sep f s sep :
  sep ∉ f → Split (f ++ sep :: s) sep = f :: Split s sep.
Proof.
  induction f as [|c f IH]; intros Hf; simpl.
  - by rewrite bool_decide_eq_true_2.
  - apply not_elem_of_cons in Hf as [??].
    rewrite bool_decide_eq_false_2 by done. by rewrite IH.
Qed.

Lemma Split_no_sep f sep : sep ∉ f → Split f sep = [f].
Proof.
  induction f as [|c f IH]; intros Hf; simpl; [done|].
  apply not_elem_of_cons in Hf as [??].
  rewrite bool_decide_eq_false_2 by done. by rewrite IH.
Qed.

(** Splitting what was joined gives the fields back, when none holds the
    separator; joining what was split always gives the string back. *)
Lemma Split_Join fs sep :
  fs ≠ [] → Forall (λ f, sep ∉ f) fs → Split (Join fs sep) sep = fs.
Proof.
  intros Hne Hfs. induction Hfs as [|f fs Hf Hfs IH]; [done|].
  destruct fs as [|g fs]; [by apply Split_no_sep|].
  change (Join (f :: g :: fs) sep) with (f ++ sep :: Join (g :: fs) sep).
  rewrite Split_app_sep by done. by rewrite IH.
Qed.

Lemma Join_Split s sep : Join (Split s sep) sep = s.
Proof.
  induction s as [|c s IH]; [done|]. cbn [Split].
  pose proof (Split_not_nil s sep). destruct (Split s sep) as [|f fs]; [done|].
  case_bool_decide as Hc; [subst c|].
  - change (Join ([] :: f :: fs) sep) with (sep :: Join (f :: fs) sep). by rewrite IH.
  - rewrite <- IH. by destruct fs.
Qed.

Lemma Split_fields_no_sep s sep : Forall (λ f, sep ∉ f) (Split s sep).
Proof.
  induction s as [|c s IH]; simpl.
  { constructor; [apply not_elem_of_nil|done]. }
  case_bool_decide.
  { constructor; [apply not_elem_of_nil|done]. }
  destruct (Split s sep) as [|f fs].
  - constructor; [|done]. rewrite list_elem_of_singleton. congruence.
  - apply Forall_cons in IH as [??]. constructor; [|done].
    rewrite elem_of_cons. intros [?|?]; congruence.
Qed.

(** Trimming does nothing to a string that neither starts nor ends with a
    white-space rune. *)
Definition no_space_start (runes : list gostring) (s : gostring) : bool :=
  bool_decide (filter (λ r, HasPrefix s r = true) runes = []).

Lemma trim_runes_id runes fuel s :
  no_space_start runes s = true → trim_runes runes fuel s = s.
Proof.
  unfold no_space_start. intros H%bool_decide_eq_true.
  destruct fuel; simpl; [done|]. by rewrite H.
Qed.

(** *** Order *)

Lemma go_compare_refl a : go_compare a a = Eq.
Proof. induction a; simpl; [done|]. by rewrite Z.compare_refl. Qed.

Lemma go_compare_eq a b : go_compare a b = Eq ↔ a = b.
Proof.
  split; [|intros ->; apply go_compare_refl].
  revert b. induction a as [|x a IH]; intros [|y b]; simpl; try done.
  destruct (Z.compare_spec (Z_of_byte x) (Z_of_byte y)) as [H|H|H]; try done.
  intros Hc. apply Z_of_byte_inj in H as ->. f_equal. by apply IH.
Qed.

Lemma go_compare_antisym a b : go_compare b a = CompOpp (go_compare a b).
Proof.
  revert b. induction a as [|x a IH]; intros [|y b]; simpl; try done.
  rewrite (Z.compare_antisym (Z_of_byte x)).
  destruct (Z.compare (Z_of_byte x) (Z_of_byte y)); simpl; auto.
Qed.

Lemma go_ltb_irrefl a : go_ltb a a = false.
Proof. unfold go_ltb. by rewrite go_compare_refl. Qed.

Lemma go_ltb_trans a b c : go_ltb a b = true → go_ltb b c = true → go_ltb a c = true.
Proof.
  unfold go_ltb. revert b c.
  induction a as [|x a IH]; intros [|y b] [|z c]; simpl; try done.
  destruct (Z.compare_spec (Z_of_byte x) (Z_of_byte y)),
    (Z.compare_spec (Z_of_byte y) (Z_of_byte z)),
    (Z.compare_spec (Z_of_byte x) (Z_of_byte z)); intros; try done; try lia.
  by apply (IH b c).
Qed.

(** [<] is total: one of the two directions holds between different strings. *)
Lemma go_ltb_total a b : go_ltb a b = false → go_ltb b a = false → a = b.
Proof.
  unfold go_ltb. rewrite (go_compare_antisym a b).
  destruct (go_compare a b) eqn:H; simpl; try done.
  intros _ _. by apply go_compare_eq.
Qed.

Lemma go_ltb_asym a b : go_ltb a b = true → go_ltb b a = false.
Proof.
  unfold go_ltb. rewrite (go_compare_antisym a b). by destruct (go_compare a b).
Qed.

(** The reflexive order, as a relation: the one [sort] uses. *)
Definition go_le (a b : gostring) : Prop := go_ltb b a = false.
#[export] Instance go_le_dec a b : Decision (go_le a b).
Proof. unfold go_le. apply _. Defined.
#[export] Instance go_le_total : Total go_le.
Proof.
  intros a b. unfold go_le. destruct (go_ltb b a) eqn:H; [right|by left].
  by apply go_ltb_asym.
Qed.
#[export] Instance go_le_preorder : PreOrder go_le.
Proof.
  split.
  - intros a. apply go_ltb_irrefl.
  - intros a b c. unfold go_le. intros H1 H2.
    destruct (go_ltb c a) eqn:H3; [|done].
    destruct (go_ltb a b) eqn:H4.
    + by rewrite (go_ltb_trans c a b) in H2.
    + pose proof (go_ltb_total a b H4 H1). subst. congruence.
Qed.
#[export] Instance go_le_antisymm : AntiSymm (=) go_le.
Proof. intros a b H1 H2. by apply go_ltb_total. Qed.

(** *** Decimal numbers *)

Lemma byte_digit_digit_byte d : 0 ≤ d < 10 → byte_digit (digit_byte d) = Some d.
Proof.
  intros. unfold byte_digit, digit_byte. rewrite Z_of_byte_of_Z, Z.mod_small by lia.
  destruct (Z.leb_spec 48 (48 + d)), (Z.leb_spec (48 + d) 57); simpl; try lia.
  f_equal. lia.
Qed.

Lemma parse_digits_app acc s1 s2 :
  parse_digits acc (s1 ++ s2) =
  match parse_digits acc s1 with Some n => parse_digits n s2 | None => None end.
Proof.
  revert acc. induction s1 as [|c s1 IH]; intros acc; simpl; [done|].
  destruct (byte_digit c); [apply IH|done].
Qed.

Lemma fmt_digits_parse fuel n :
  0 ≤ n < 2 ^ Z.of_nat fuel → (0 < fuel)%nat →
  parse_digits 0 (fmt_digits fuel n) = Some n ∧ fmt_digits fuel n ≠ [].
Proof.
  revert n. induction fuel as [|fuel IH]; intros n Hn Hf; [lia|]. cbn [fmt_digits].
  destruct (Z.ltb_spec n 10).
  { split; [|done]. simpl. rewrite byte_digit_digit_byte by lia. done. }
  assert (0 < fuel)%nat.
  { destruct fuel; [|lia]. change (2 ^ Z.of_nat 1) with 2 in Hn. lia. }
  replace (Z.of_nat (S fuel)) with (Z.of_nat fuel + 1) in Hn by lia.
  rewrite Z.pow_add_r in Hn by lia.
  destruct (IH (n / 10)) as [Hp _]; [|done|].
  { split; [apply Z.div_pos; lia|]. apply Z.div_lt_upper_bound; lia. }
  split; [|by destruct (fmt_digits fuel (n / 10))].
  rewrite parse_digits_app, Hp. simpl.
  rewrite byte_digit_digit_byte by (apply Z.mod_pos_bound; lia).
  f_equal. rewrite (Z.div_mod n 10) at 3 by lia. lia.
Qed.

Lemma fmt_uint_parse n : 0 ≤ n → parse_digits 0 (fmt_uint n) = Some n ∧ fmt_uint n ≠ [].
Proof.
  intros Hn. apply fmt_digits_parse; [|lia].
  destruct (decide (n = 0)) as [->|]; [done|].
  pose proof (Z.log2_nonneg n). pose proof (Z.log2_spec n).
  replace (Z.of_nat (S (Z.to_nat (Z.log2 n)))) with (Z.succ (Z.log2 n)) by lia. lia.
Qed.

Lemma ParseUint_fmt n bits : 0 ≤ n < 2 ^ bits → ParseUint (fmt_uint n) bits = Some n.
Proof.
  intros [Hn Hb]. destruct (fmt_uint_parse n Hn) as [Hp Hne].
  unfold ParseUint. destruct (fmt_uint n); [done|]. rewrite Hp.
  by destruct (Z.ltb_spec n (2 ^ bits)); [|lia].
Qed.

(** The characters of a formatted number are digits. *)
Lemma fmt_digits_digit fuel n :
  0 ≤ n → Forall (λ c, is_Some (byte_digit c)) (fmt_digits fuel n).
Proof.
  revert n. induction fuel as [|fuel IH]; intros n Hn; simpl; [constructor|].
  destruct (Z.ltb_spec n 10).
  - constructor; [|done]. rewrite byte_digit_digit_byte by lia. eauto.
  - apply Forall_app. split; [apply IH, Z.div_pos; lia|].
    constructor; [|done].
    rewrite byte_digit_digit_byte by (apply Z.mod_pos_bound; lia). eauto.
Qed.

Lemma fmt_uint_digit n : 0 ≤ n → Forall (λ c, is_Some (byte_digit c)) (fmt_uint n).
Proof. apply fmt_digits_digit. Qed.

Lemma byte_digit_not (c : byte) (s : gostring) :
  byte_digit c = None → Forall (λ c, is_Some (byte_digit c)) s → c ∉ s.
Proof.
  intros Hc Hs Hin. rewrite Forall_forall in Hs.
  destruct (Hs c Hin). congruence.
Qed.

Lemma Atoi_fmt n : 0 ≤ n < 2 ^ 63 → Atoi (fmt_uint n) = Some n.
Proof.
  intros [Hn Hb]. destruct (fmt_uint_parse n Hn) as [Hp Hne].
  pose proof (fmt_uint_digit n Hn) as Hd.
  unfold Atoi. destruct (fmt_uint n) as [|c s]; [done|].
  apply Forall_cons in Hd as [[d Hc] _].
  rewrite !bool_decide_eq_false_2 by (intros ->; discriminate Hc).
  rewrite Hp.
  destruct (Z.leb_spec (- 2 ^ 63) n), (Z.ltb_spec n (2 ^ 63)); simpl; done || lia.
Qed.

(** *** White space *)

Lemma no_space_start_first (runes : list gostring) (c : byte) s :
  Forall (λ r, r !!! 0%nat ≠ c ∧ r ≠ []) runes → no_space_start runes (c :: s) = true.
Proof.
  intros H. unfold no_space_start. apply bool_decide_eq_true.
  induction H as [|r runes [Hc Hne] _ IH]; [done|].
  rewrite filter_cons_False; [done|].
  intros (s' & Hs)%HasPrefix_true. destruct r as [|b r]; [done|]. simpl in *. congruence.
Qed.

Definition is_space_byte (c : byte) : bool :=
  bool_decide (Exists (λ r : gostring, r !!! 0%nat = c) space_runes) ||
  bool_decide (Exists (λ r : gostring, r !!! 0%nat = c) (reverse <$> space_runes)).

Lemma digit_not_space c : is_Some (byte_digit c) → is_space_byte c = false.
Proof. destruct c; intros [d Hd]; first [discriminate Hd | reflexivity]. Qed.

(** A non-empty digit string is some bytes followed by a digit. *)
Lemma fmt_uint_last n : 0 ≤ n → ∃ s d, fmt_uint n = s ++ [d] ∧ is_Some (byte_digit d).
Proof.
  intros Hn. pose proof (fmt_uint_digit n Hn) as Hd.
  destruct (fmt_uint_parse n Hn) as [_ Hne].
  destruct (exists_last Hne) as (s & d & Heq). rewrite Heq in Hd |- *.
  apply Forall_app in Hd as [_ Hd]. rewrite Forall_singleton in Hd. by exists s, d.
Qed.

Lemma fmt_int_nonneg n : 0 ≤ n → fmt_int n = fmt_uint n.
Proof. intros. unfold fmt_int. by destruct (Z.ltb_spec n 0); [lia|]. Qed.

(** Bytes that are no part of white space at both ends. *)
Lemma TrimSpace_id s :
  Forall (λ c, is_space_byte c = false) s → TrimSpace s = s.
Proof.
  assert (∀ (runes : list gostring) c, Forall (λ r, r ≠ []) runes →
    ¬ Exists (λ r : gostring, r !!! 0%nat = c) runes → Forall (λ r, r !!! 0%nat ≠ c ∧ r ≠ []) runes) as Hall.
  { intros runes c Hne Hex. apply Forall_Exists_neg in Hex. apply Forall_and. by split. }
  assert (∀ (runes : list gostring) fuel l, Forall (λ r, r ≠ []) runes →
    Forall (λ c, ¬ Exists (λ r : gostring, r !!! 0%nat = c) runes) l → trim_runes runes fuel l = l) as Htrim.
  { intros runes fuel l Hne Hl. apply trim_runes_id. destruct l as [|c l].
    - unfold no_space_start. apply bool_decide_eq_true. clear Hl. induction Hne as [|r runes Hr _ IH]; [done|].
      rewrite filter_cons_False; [done|]. intros (s' & Hs)%HasPrefix_true. by destruct r.
    - apply no_space_start_first, Hall; [done|]. by apply Forall_cons in Hl as [? _]. }
  intros Hs. assert (Forall (λ c, ¬ Exists (λ r : gostring, r !!! 0%nat = c) space_runes) s ∧
    Forall (λ c, ¬ Exists (λ r : gostring, r !!! 0%nat = c) (reverse <$> space_runes)) s) as [H1 H2].
  { apply Forall_and. eapply Forall_impl; [exact Hs|]. intros c. unfold is_space_byte.
    intros [Hc Hd]%orb_false_iff. apply bool_decide_eq_false in Hc, Hd. by split. }
  unfold TrimSpace, TrimSpaceLeft. rewrite Htrim; [|by apply (bool_decide_unpack _)|done].
  unfold TrimSpaceRight. rewrite Htrim, reverse_involutive; [done|by apply (bool_decide_unpack _)|].
  apply Forall_forall. intros c Hc. rewrite elem_of_reverse in Hc. rewrite Forall_forall in H2. exact (H2 c Hc).
Qed.
