(* ===== verification/GoUtf8.v ===== *)
(** * UTF-8: the parts of Go's [unicode/utf8] and [strings] that the program uses

    A text is the list of its bytes.  [rune_width] is the table of
    [unicode/utf8]; decoding never yields code points here because the program
    only asks where the runes begin and end and whether they are well formed. *)

From S2P Require Import Prelude.

Definition in_range (lo hi : Z) (b : byte) : bool :=
  (lo <=? Z_of_byte b) && (Z_of_byte b <=? hi).

(** A continuation byte; every other byte starts a rune ([utf8.RuneStart]). *)
Definition is_cont (b : byte) : bool := in_range 0x80 0xBF b.
Definition RuneStart (b : byte) : bool := negb (is_cont b).
Definition is_ascii (b : byte) : bool := Z_of_byte b <? 0x80.

(** The width a leading byte announces and the range of the second byte. *)
Definition lead_info (b : byte) : option (nat * Z * Z) :=
  if in_range 0xC2 0xDF b then Some (2%nat, 0x80, 0xBF)
  else if in_range 0xE0 0xE0 b then Some (3%nat, 0xA0, 0xBF)
  else if in_range 0xED 0xED b then Some (3%nat, 0x80, 0x9F)
  else if in_range 0xE1 0xEF b then Some (3%nat, 0x80, 0xBF)
  else if in_range 0xF0 0xF0 b then Some (4%nat, 0x90, 0xBF)
  else if in_range 0xF1 0xF3 b then Some (4%nat, 0x80, 0xBF)
  else if in_range 0xF4 0xF4 b then Some (4%nat, 0x80, 0x8F)
  else None.

(** [utf8.DecodeRune(s)]: the width of the well-formed rune that [s] begins
    with, or [None] where Go returns [RuneError] with width at most 1. *)
Definition rune_width (s : gostring) : option nat :=
  match s with
  | [] => None
  | c :: s1 =>
      if is_ascii c then Some 1%nat
      else
        match lead_info c with
        | None => None
        | Some (n, lo, hi) =>
            match s1 with
            | [] => None
            | c1 :: s2 =>
                if negb (in_range lo hi c1) then None
                else if (n =? 2)%nat then Some 2%nat
                else if negb (forallb is_cont (take (n - 2) s2)) then None
                else if (length (take (n - 2) s2) <? n - 2)%nat then None
                else Some n
            end
        end
  end.

(** [strings.ToValidUTF8(s, "")]: the well-formed runes of [s], everything else
    removed; [length s] steps are enough. *)
Fixpoint to_valid (fuel : nat) (s : gostring) : gostring :=
  match fuel, s with
  | S fuel', c :: s' =>
      match rune_width s with
      | Some w => take w s ++ to_valid fuel' (drop w s)
      | None => to_valid fuel' s'
      end
  | _, _ => []
  end.

Definition ToValidUTF8 (s : gostring) : gostring := to_valid (length s) s.

(** [utf8.DecodeLastRune(p)]: go back at most three bytes to a byte that may
    start a rune, decode there, and check that the rune reaches the end. *)
Fixpoint scan_start (fuel : nat) (p : gostring) (start lim : Z) : Z :=
  match fuel with
  | O => start
  | S fuel' =>
      if start <? lim then start
      else if RuneStart (p !!! Z.to_nat start) then start
      else scan_start fuel' p (start - 1) lim
  end.

Definition DecodeLastRune (p : gostring) : option nat :=
  let n := Z.of_nat (length p) in
  if n =? 0 then None
  else if is_ascii (p !!! Z.to_nat (n - 1)) then Some 1%nat
  else
    let start := Z.max 0 (scan_start 4 p (n - 2) (Z.max 0 (n - 4))) in
    match rune_width (drop (Z.to_nat start) p) with
    | Some w => if start + Z.of_nat w =? n then Some w else None
    | None => None
    end.

(** The loop that takes a cut back to a rune boundary: the largest [k' <= k]
    such that [p[:k']] ends in a whole rune, or 0. *)
Fixpoint rune_cut (p : gostring) (k : nat) : nat :=
  match k with
  | O => O
  | S k' => match DecodeLastRune (take k p) with Some _ => k | None => rune_cut p k' end
  end.

(** ** Runes *)

(** The bytes of one rune, and texts made of whole runes. *)
Definition is_rune (r : gostring) : Prop := rune_width r = Some (length r).
Definition utf8_valid (s : gostring) : Prop := ∃ rs, s = concat rs ∧ Forall is_rune rs.

Lemma lead_info_range c n lo hi :
  lead_info c = Some (n, lo, hi) →
  (2 ≤ n ≤ 4)%nat ∧ 0x80 ≤ lo ∧ hi ≤ 0xBF ∧ is_cont c = false ∧ is_ascii c = false.
Proof.
  unfold lead_info, is_cont, is_ascii, in_range. intros H.
  repeat (case_match; [reflect_bools; simplify_eq; split_and!; lia|]). done.
Qed.

(** What a well-formed rune looks like. *)
Lemma rune_width_inv s w :
  rune_width s = Some w →
  ∃ c t, take w s = c :: t ∧ length t = (w - 1)%nat ∧ (w ≤ length s)%nat ∧ (1 ≤ w ≤ 4)%nat
    ∧ RuneStart c = true ∧ Forall (λ b, is_cont b = true) t ∧ (is_ascii c = true ↔ w = 1%nat).
Proof.
  destruct s as [|c s1]; [done|]. cbn [rune_width]. destruct (is_ascii c) eqn:Hc.
  { intros [= <-]. exists c, [].
    unfold RuneStart, is_cont, is_ascii, in_range in *. split_and!; try done; simpl; lia. }
  destruct (lead_info c) as [[[n lo] hi]|] eqn:Hl; [|done].
  apply lead_info_range in Hl as (Hn & Hlo & Hhi & Hcont & _).
  destruct s1 as [|c1 s2]; [done|].
  destruct (in_range lo hi c1) eqn:H1; [|done]. cbn [negb].
  assert (is_cont c1 = true) as Hc1 by (unfold is_cont, in_range in *; lia).
  destruct (Nat.eqb_spec n 2) as [->|Hn2].
  { intros [= <-]. exists c, [c1]. unfold RuneStart. rewrite Hcont.
    split_and!; try done; try (simpl; lia); try congruence. by apply Forall_singleton. }
  destruct (forallb is_cont (take (n - 2) s2)) eqn:Hf; [|done]. cbn [negb].
  destruct (Nat.ltb_spec (length (take (n - 2) s2)) (n - 2)); [done|]. intros [= <-].
  exists c, (c1 :: take (n - 2) s2). unfold RuneStart. rewrite Hcont.
  assert (n - 2 ≤ length s2)%nat by (revert H; len_lia).
  split_and!; try done; try (simpl; len_lia); try congruence.
  - replace n with (S (S (n - 2))) at 1 by lia. done.
  - apply Forall_cons; split; [done|]. apply Forall_forall. intros b Hb.
    rewrite forallb_forall in Hf. apply Hf. by apply list_elem_of_In.
Qed.

(** A rune is recognised whatever follows it. *)
Lemma rune_width_take s w t : rune_width s = Some w → rune_width (take w s ++ t) = Some w.
Proof.
  destruct s as [|c s1]; [done|]. cbn [rune_width]. destruct (is_ascii c) eqn:Hc.
  { intros [= <-]. cbn. by rewrite Hc. }
  destruct (lead_info c) as [[[n lo] hi]|] eqn:Hl; [|done].
  pose proof (lead_info_range _ _ _ _ Hl) as (Hn & _).
  destruct s1 as [|c1 s2]; [done|].
  destruct (in_range lo hi c1) eqn:H1; [|done]. cbn [negb].
  destruct (Nat.eqb_spec n 2) as [->|Hn2].
  { intros [= <-]. cbn. by rewrite Hc, Hl, H1. }
  destruct (forallb is_cont (take (n - 2) s2)) eqn:Hf; [|done]. cbn [negb].
  destruct (Nat.ltb_spec (length (take (n - 2) s2)) (n - 2)) as [|Hlen]; [done|]. intros [= <-].
  replace (take n (c :: c1 :: s2)) with (c :: c1 :: take (n - 2) s2)
    by (replace n with (S (S (n - 2))) at 2 by lia; done).
  cbn [app rune_width]. rewrite Hc, Hl, H1. cbn [negb].
  destruct (Nat.eqb_spec n 2); [done|].
  rewrite take_app_le, take_idemp, Hf by lia. cbn [negb].
  destruct (Nat.ltb_spec (length (take (n - 2) s2)) (n - 2)); [lia|done].
Qed.

Lemma rune_width_app s w t : rune_width s = Some w → rune_width (s ++ t) = Some w.
Proof.
  intros H. rewrite <- (take_drop w s), <- app_assoc. by apply rune_width_take.
Qed.

Lemma rune_width_rune s w : rune_width s = Some w → is_rune (take w s).
Proof.
  intros H. pose proof (rune_width_inv _ _ H) as (c & t & _ & _ & ? & _).
  unfold is_rune. rewrite length_take_le by done.
  rewrite <- (app_nil_r (take w s)). by apply rune_width_take.
Qed.

Lemma is_rune_app r t : is_rune r → rune_width (r ++ t) = Some (length r).
Proof. apply rune_width_app. Qed.

(** A rune neither begins before nor ends after a place where no
    continuation byte follows. *)
Lemma rune_width_stop s t w :
  s ≠ [] → match t with [] => true | b :: _ => RuneStart b end = true →
  rune_width (s ++ t) = Some w → rune_width s = Some w.
Proof.
  intros Hs Ht H. pose proof (rune_width_inv _ _ H) as (c & u & Htk & Hlu & Hle & Hw & Hc & Hu & _).
  destruct (decide (w ≤ length s)%nat) as [Hws|Hws].
  - rewrite take_app_le in Htk by done.
    rewrite <- (take_drop w s). apply rune_width_app.
    pose proof (rune_width_rune _ _ H) as Hr. unfold is_rune in Hr.
    rewrite take_app_le in Hr by done. rewrite Hr. f_equal. len_lia.
  - exfalso. destruct t as [|b t]; [rewrite app_nil_r in Hle; lia|].
    destruct s as [|c' s]; [done|]. cbn [app] in Htk.
    replace w with (S (w - 1)) in Htk by lia. cbn [take] in Htk.
    injection Htk as -> Htk. rewrite <- Htk in Hu.
    rewrite take_app_ge in Hu by (simpl in *; lia).
    apply Forall_app in Hu as [_ Hu].
    destruct (w - 1 - length s)%nat as [|k] eqn:Hk; [simpl in *; lia|].
    cbn [take] in Hu. apply Forall_cons in Hu as [Hb _].
    unfold RuneStart in Ht. by rewrite Hb in Ht.
Qed.

(** ** [ToValidUTF8] *)

Lemma to_valid_fuel f s : (length s ≤ f)%nat → to_valid f s = ToValidUTF8 s.
Proof.
  unfold ToValidUTF8. revert s.
  enough (∀ f g s, (length s ≤ f)%nat → (length s ≤ g)%nat → to_valid f s = to_valid g s) by auto.
  clear f. induction f as [|f IH]; intros g [|c s] Hf Hg; try (by destruct g); try (simpl in *; lia).
  destruct g as [|g]; [simpl in *; lia|]. cbn [to_valid].
  destruct (rune_width (c :: s)) as [w|] eqn:Hw; [|apply IH; simpl in *; lia].
  pose proof (rune_width_inv _ _ Hw) as (?&?&_&_&?&?&_).
  f_equal. apply IH; rewrite length_drop; simpl in *; lia.
Qed.

Lemma ToValidUTF8_rune s w :
  rune_width s = Some w → ToValidUTF8 s = take w s ++ ToValidUTF8 (drop w s).
Proof.
  intros Hw. destruct s as [|c s]; [done|]. unfold ToValidUTF8 at 1. cbn [length to_valid].
  rewrite Hw, to_valid_fuel; [done|]. pose proof (rune_width_inv _ _ Hw) as (?&?&_&_&_&?&_).
  rewrite length_drop. simpl. lia.
Qed.

Lemma ToValidUTF8_bad c s :
  rune_width (c :: s) = None → ToValidUTF8 (c :: s) = ToValidUTF8 s.
Proof. intros Hw. unfold ToValidUTF8 at 1. cbn [length to_valid]. by rewrite Hw. Qed.

Lemma ToValidUTF8_is_rune r s : is_rune r → ToValidUTF8 (r ++ s) = r ++ ToValidUTF8 s.
Proof.
  intros Hr. rewrite (ToValidUTF8_rune _ (length r)) by by apply is_rune_app.
  by rewrite take_app_length, drop_app_length.
Qed.

(** Induction along the runes and the bytes that are not part of any. *)
Lemma utf8_ind (P : gostring → Prop) :
  P [] →
  (∀ r s, is_rune r → P s → P (r ++ s)) →
  (∀ c s, rune_width (c :: s) = None → P s → P (c :: s)) →
  ∀ s, P s.
Proof.
  intros Hnil Hrune Hbad s. remember (length s) as n eqn:Hn. revert s Hn.
  induction (lt_wf n) as [n _ IH]; intros s ->.
  destruct (rune_width s) as [w|] eqn:Hw.
  - pose proof (rune_width_inv _ _ Hw) as (?&?&_&_&?&?&_).
    rewrite <- (take_drop w s). apply Hrune; [by apply rune_width_rune|].
    by apply (IH (length (drop w s))); [rewrite length_drop; lia|].
  - destruct s as [|c s]; [done|]. apply Hbad; [done|].
    by apply (IH (length s)); [simpl; lia|].
Qed.

Lemma utf8_valid_app s t : utf8_valid s → utf8_valid t → utf8_valid (s ++ t).
Proof.
  intros (rs & -> & Hrs) (rt & -> & Hrt). exists (rs ++ rt).
  rewrite concat_app. split; [done|]. by apply Forall_app.
Qed.

Lemma utf8_valid_rune r : is_rune r → utf8_valid r.
Proof. intros. exists [r]. split; [by rewrite concat_cons, app_nil_r|by apply Forall_singleton]. Qed.

Lemma utf8_valid_nil : utf8_valid [].
Proof. by exists []. Qed.

Lemma ToValidUTF8_valid s : utf8_valid (ToValidUTF8 s).
Proof.
  induction s as [|r s Hr IH|c s Hc IH] using utf8_ind.
  - apply utf8_valid_nil.
  - rewrite ToValidUTF8_is_rune by done. by apply utf8_valid_app; [apply utf8_valid_rune|].
  - by rewrite ToValidUTF8_bad.
Qed.

Lemma ToValidUTF8_id s : utf8_valid s → ToValidUTF8 s = s.
Proof.
  intros (rs & -> & Hrs). induction Hrs as [|r rs Hr _ IH]; [done|].
  rewrite concat_cons, ToValidUTF8_is_rune by done. by rewrite IH.
Qed.

Lemma ToValidUTF8_sublist s : ToValidUTF8 s `sublist_of` s.
Proof.
  induction s as [|r s Hr IH|c s Hc IH] using utf8_ind.
  - constructor.
  - rewrite ToValidUTF8_is_rune by done. by apply sublist_app.
  - rewrite ToValidUTF8_bad by done. by constructor.
Qed.

Lemma ToValidUTF8_length s : (length (ToValidUTF8 s) ≤ length s)%nat.
Proof. apply sublist_length, ToValidUTF8_sublist. Qed.

(** The cleaning may be done piece by piece when no piece begins with a
    continuation byte. *)
Definition no_cont_start (t : gostring) : bool :=
  match t with [] => true | b :: _ => RuneStart b end.

Lemma ToValidUTF8_app s t :
  no_cont_start t = true → ToValidUTF8 (s ++ t) = ToValidUTF8 s ++ ToValidUTF8 t.
Proof.
  intros Ht. induction s as [|r s Hr IH|c s Hc IH] using utf8_ind; [done| |].
  - rewrite <- app_assoc, !(ToValidUTF8_is_rune r) by done. by rewrite IH, app_assoc.
  - cbn [app]. rewrite (ToValidUTF8_bad c s), (ToValidUTF8_bad c (s ++ t)); [done| |done].
    destruct (rune_width (c :: s ++ t)) as [w|] eqn:Hw; [|done].
    apply (rune_width_stop (c :: s) t) in Hw; [congruence|done|done].
Qed.

(** ... or when the piece before ends in an ASCII byte. *)
Lemma is_ascii_rune c : is_ascii c = true → is_rune [c].
Proof. intros H. unfold is_rune. cbn. by rewrite H. Qed.

Lemma is_ascii_start c : is_ascii c = true → RuneStart c = true.
Proof. unfold is_ascii, RuneStart, is_cont, in_range. lia. Qed.

Lemma cont_not_ascii c : is_cont c = true → is_ascii c = false.
Proof. unfold is_ascii, is_cont, in_range. lia. Qed.

Lemma ToValidUTF8_app_ascii s c t :
  is_ascii c = true → ToValidUTF8 (s ++ [c] ++ t) = ToValidUTF8 (s ++ [c]) ++ ToValidUTF8 t.
Proof.
  intros Hc. rewrite ToValidUTF8_app by (cbn; by apply is_ascii_start).
  rewrite (ToValidUTF8_app s [c]) by (cbn; by apply is_ascii_start).
  rewrite <- app_assoc, ToValidUTF8_is_rune by by apply is_ascii_rune.
  do 2 f_equal. rewrite <- (app_nil_r [c]), ToValidUTF8_is_rune by by apply is_ascii_rune.
  done.
Qed.

(** ** Going back to a rune boundary *)

Lemma DecodeLastRune_sound p w :
  DecodeLastRune p = Some w → ∃ q r, p = q ++ r ∧ is_rune r ∧ length r = w.
Proof.
  unfold DecodeLastRune. destruct (Z.eqb_spec (Z.of_nat (length p)) 0); [done|].
  destruct p as [|b p _] using rev_ind; [done|]. rewrite length_app. cbn [length].
  destruct (is_ascii _) eqn:Ha.
  - intros [= <-]. exists p, [b]. split_and!; try done. apply is_ascii_rune.
    rewrite list_lookup_total_alt, lookup_app_r in Ha by lia.
    replace (Z.to_nat _ - length p)%nat with 0%nat in Ha by lia. done.
  - set (start := Z.max 0 _).
    destruct (rune_width (drop (Z.to_nat start) (p ++ [b]))) as [v|] eqn:Hv; [|done].
    destruct (Z.eqb_spec (start + Z.of_nat v) (Z.of_nat (length p + 1))) as [Hend|]; [|done].
    intros [= <-]. exists (take (Z.to_nat start) (p ++ [b])), (drop (Z.to_nat start) (p ++ [b])).
    rewrite take_drop. split; [done|].
    assert (length (drop (Z.to_nat start) (p ++ [b])) = v) as Hlen
      by (rewrite length_drop, length_app; simpl; lia).
    split; [|done]. unfold is_rune. by rewrite Hlen.
Qed.

(** The scan stops at the last byte that starts a rune. *)
Lemma scan_start_cont fuel q c t lim k :
  RuneStart c = true → Forall (λ b, is_cont b = true) t →
  lim ≤ Z.of_nat (length q) → (k ≤ length t)%nat → (k < fuel)%nat →
  scan_start fuel (q ++ c :: t) (Z.of_nat (length q + k)) lim = Z.of_nat (length q).
Proof.
  intros Hc Ht Hlim. revert k. induction fuel as [|fuel IH]; intros k Hk Hf; [lia|].
  cbn [scan_start]. destruct (Z.ltb_spec (Z.of_nat (length q + k)) lim); [lia|].
  rewrite Nat2Z.id, list_lookup_total_alt, lookup_app_r by lia.
  replace (length q + k - length q)%nat with k by lia. destruct k as [|k].
  - cbn. rewrite Hc. f_equal. lia.
  - change ((c :: t) !! S k) with (t !! k).
    destruct (lookup_lt_is_Some_2 t k) as [b Hb]; [lia|]. rewrite Hb. cbn [default from_option id].
    pose proof (Forall_lookup_1 _ _ _ _ Ht Hb) as Hcb. cbn in Hcb.
    unfold RuneStart. rewrite Hcb. cbn [negb].
    replace (Z.of_nat (length q + S k) - 1) with (Z.of_nat (length q + k)) by lia.
    apply IH; lia.
Qed.

Lemma is_rune_inv r :
  is_rune r → ∃ c t, r = c :: t ∧ (length t ≤ 3)%nat ∧ RuneStart c = true
    ∧ Forall (λ b, is_cont b = true) t ∧ (t ≠ [] → is_ascii c = false).
Proof.
  intros Hr. pose proof (rune_width_inv _ _ Hr) as (c & t & Htk & Hlt & _ & Hw & Hc & Ht & Ha).
  rewrite take_ge in Htk by done. exists c, t. split_and!; try done; [lia|].
  intros Hne. destruct (is_ascii c); [|done]. exfalso. apply Hne, nil_length_inv.
  assert (length r = 1%nat) by by apply Ha. lia.
Qed.

Lemma DecodeLastRune_rune q r : is_rune r → DecodeLastRune (q ++ r) = Some (length r).
Proof.
  intros Hr. pose proof (is_rune_inv _ Hr) as (c & t & -> & Hlt & Hc & Ht & Ha).
  unfold DecodeLastRune. rewrite length_app. cbn [length].
  destruct (Z.eqb_spec (Z.of_nat (length q + S (length t))) 0); [lia|].
  rewrite list_lookup_total_alt, lookup_app_r by lia.
  replace (Z.to_nat _ - length q)%nat with (length t) by lia.
  destruct t as [|b t _] using rev_ind.
  - cbn. assert (is_ascii c = true) as ->; [|done].
    apply (rune_width_inv [c] 1) in Hr as (c' & t' & [= <- <-] & _ & _ & _ & _ & _ & H).
    by apply H.
  - rewrite length_app in *. cbn [length] in *.
    replace (length t + 1)%nat with (S (length t)) by lia.
    change ((c :: t ++ [b]) !! S (length t)) with ((t ++ [b]) !! length t).
    rewrite list_lookup_middle by done. cbn [default from_option id].
    pose proof Ht as Ht'. apply Forall_app in Ht as [Ht [Hb _]%Forall_cons].
    rewrite (cont_not_ascii b Hb).
    replace (Z.of_nat _ - 2) with (Z.of_nat (length q + length t)) by lia.
    rewrite scan_start_cont by (done || len_lia || lia).
    rewrite Z.max_r, Nat2Z.id, drop_app_length by lia. rewrite Hr. cbn [length].
    rewrite length_app. cbn [length].
    destruct (Z.eqb_spec (Z.of_nat (length q) + Z.of_nat (S (length t + 1)))
      (Z.of_nat (length q + S (S (length t))))); [f_equal; lia|lia].
Qed.

Lemma rune_cut_spec p k :
  (rune_cut p k ≤ k)%nat ∧
  (rune_cut p k ≠ 0%nat → is_Some (DecodeLastRune (take (rune_cut p k) p))) ∧
  ∀ j, (rune_cut p k < j ≤ k)%nat → DecodeLastRune (take j p) = None.
Proof.
  induction k as [|k (IH1 & IH2 & IH3)]; cbn [rune_cut]; [split_and!; [lia|done|lia]|].
  destruct (DecodeLastRune (take (S k) p)) eqn:Hd.
  - split_and!; [lia|by rewrite Hd|lia].
  - split_and!; [lia|done|]. intros j Hj.
    destruct (decide (j = S k)) as [->|]; [done|]. apply IH3. lia.
Qed.

(** Where the runes of a valid text end. *)
Lemma concat_boundary (rs : list gostring) k :
  (k ≤ length (concat rs))%nat →
  ∃ rs1 r rs2, rs = rs1 ++ rs2 ∧ take k (concat rs) = concat rs1 ++ r ∧
    match rs2 with [] => r = [] | r2 :: _ => r `prefix_of` r2 ∧ (length r < length r2 ∨ r = [])%nat end.
Proof.
  revert k. induction rs as [|r0 rs IH]; intros k Hk.
  - exists [], [], []. by destruct k.
  - rewrite concat_cons in Hk |- *. rewrite length_app in Hk.
    destruct (decide (k < length r0)%nat).
    + exists [], (take k r0), (r0 :: rs). rewrite take_app_le by lia.
      split_and!; [done|done|apply prefix_take|left; len_lia].
    + destruct (IH (k - length r0)%nat) as (rs1 & r & rs2 & -> & Htk & Hr); [lia|].
      exists (r0 :: rs1), r, rs2. rewrite take_app_ge by lia. rewrite Htk, concat_cons, app_assoc.
      done.
Qed.

(** In a valid text a cut found by going back is a rune boundary, ... *)
Lemma utf8_valid_cut s k :
  utf8_valid s → (k ≤ length s)%nat → is_Some (DecodeLastRune (take k s)) → utf8_valid (take k s).
Proof.
  intros (rs & -> & Hrs) Hk [w Hw].
  apply DecodeLastRune_sound in Hw as (q & r' & Hq & Hr' & _).
  destruct (concat_boundary rs k Hk) as (rs1 & r & rs2 & -> & Htk & Hr). rewrite Htk in Hq |- *.
  apply Forall_app in Hrs as [Hrs1 Hrs2].
  destruct (decide (r = [])) as [->|Hne].
  { rewrite app_nil_r. by exists rs1. }
  exfalso. destruct rs2 as [|r2 rs2]; [done|]. destruct Hr as [[u Hu] [Hlen|]]; [|done].
  apply Forall_cons in Hrs2 as [Hr2 _].
  pose proof (is_rune_inv _ Hr2) as (c & t & -> & _ & Hc & Ht & _).
  destruct r as [|c' r]; [done|]. injection Hu as <- ->. apply Forall_app in Ht as [Ht _].
  pose proof (is_rune_inv _ Hr') as (d & v & -> & _ & Hd & Hv & _).
  destruct (app_eq_inv _ _ _ _ Hq) as [(e & He1 & He2)|(e & He1 & He2)].
  - (* the rune found begins at or before the incomplete one *)
    destruct e as [|e0 e]; simplify_eq/=.
    + (* it is the incomplete one *)
      pose proof (is_rune_app _ u Hr') as Hbad. unfold is_rune in Hr2.
      cbn [app] in Hbad. rewrite Hr2 in Hbad. injection Hbad. simpl in Hlen. lia.
    + apply Forall_app in Hv as [_ [Hv _]%Forall_cons]. unfold RuneStart in Hc. by rewrite Hv in Hc.
  - destruct e as [|e0 e]; simplify_eq/=.
    + pose proof (is_rune_app _ u Hr') as Hbad. unfold is_rune in Hr2.
      cbn [app] in Hbad. rewrite Hr2 in Hbad. injection Hbad. simpl in Hlen. lia.
    + apply Forall_app in Ht as [_ [Ht _]%Forall_cons]. unfold RuneStart in Hd. by rewrite Ht in Hd.
Qed.

(** ... and it gives up at most three bytes. *)
Lemma utf8_valid_cut_close s k :
  utf8_valid s → (k ≤ length s)%nat → (k ≤ rune_cut s k + 3)%nat ∧ utf8_valid (take (rune_cut s k) s).
Proof.
  intros Hs Hk. destruct (rune_cut_spec s k) as (Hle & Hsome & Hnone). split.
  - destruct Hs as (rs & -> & Hrs).
    destruct (concat_boundary rs k Hk) as (rs1 & r & rs2 & -> & Htk & Hr).
    apply Forall_app in Hrs as [Hrs1 Hrs2].
    assert (length r ≤ 3)%nat as Hr3.
    { destruct rs2 as [|r2 rs2]; [subst; simpl; lia|]. destruct Hr as [_ [Hl| ->]]; [|simpl; lia].
      apply Forall_cons in Hrs2 as [Hr2 _].
      pose proof (is_rune_inv _ Hr2) as (c & t & -> & ? & _). simpl in Hl. lia. }
    pose proof (f_equal length Htk) as Hlk. rewrite length_take_le, length_app in Hlk by done.
    destruct (decide (rune_cut (concat (rs1 ++ rs2)) k < length (concat rs1))%nat); [|lia].
    exfalso. specialize (Hnone (length (concat rs1)) ltac:(lia)).
    rewrite concat_app, take_app_length in Hnone.
    destruct rs1 as [|r1 rs1 _] using rev_ind; [simpl in *; lia|].
    rewrite concat_app, concat_cons in Hnone. cbn [concat] in Hnone.
    rewrite app_nil_r, DecodeLastRune_rune in Hnone; [done|].
    by apply Forall_app in Hrs1 as [_ [? _]%Forall_cons].
  - destruct (decide (rune_cut s k = 0%nat)) as [->|Hne]; [apply utf8_valid_nil|].
    apply utf8_valid_cut; [done|lia|auto].
Qed.
