(* ===== verification/GoPath.v ===== *)
(** * The parts of Go's [path/filepath] that the program uses

    [Clean], [Join] and [Dir] on slash-separated paths, after their documented
    rules: empty and [.] elements go, [..] takes the element before it along, and
    at the root it goes too. *)

From Stdlib Require Import Strings.String.
From S2P Require Import Prelude GoStrings.

Definition slash : byte := "/"%byte.
Definition dot : gostring := bs ".".
Definition dotdot : gostring := bs "..".

(** The extension: from the last dot of the last element, dot included. *)
Fixpoint ext_rev (p acc : gostring) : gostring :=
  match p with
  | [] => []
  | c :: p' =>
      if bool_decide (c = slash) then []
      else if bool_decide (c = "."%byte) then c :: acc else ext_rev p' (c :: acc)
  end.
Definition Ext (path : gostring) : gostring := ext_rev (rev path) [].

(** The elements kept so far, the last one first. *)
Fixpoint clean_elems (rooted : bool) (stack : list gostring) (elems : list gostring)
    : list gostring :=
  match elems with
  | [] => rev stack
  | e :: elems' =>
      if bool_decide (e = []) || bool_decide (e = dot) then clean_elems rooted stack elems'
      else if bool_decide (e = dotdot) then
        match stack with
        | top :: stack' =>
            if bool_decide (top = dotdot) then clean_elems rooted (e :: stack) elems'
            else clean_elems rooted stack' elems'
        | [] => if rooted then clean_elems rooted [] elems' else clean_elems rooted [e] elems'
        end
      else clean_elems rooted (e :: stack) elems'
  end.

Definition IsAbs (path : gostring) : bool := HasPrefix path [slash].

Definition Clean (path : gostring) : gostring :=
  let elems := clean_elems (IsAbs path) [] (Split path slash) in
  if IsAbs path then slash :: Join elems slash
  else match elems with [] => dot | _ => Join elems slash end.

(** [filepath.Join]: leading empty elements do not count. *)
Fixpoint JoinPaths (elems : list gostring) : gostring :=
  match elems with
  | [] => []
  | [] :: elems' => JoinPaths elems'
  | _ => Clean (Join elems slash)
  end.

Definition JoinPath (dir name : gostring) : gostring := JoinPaths [dir; name].

(** Everything up to the last slash. *)
Definition dir_part (path : gostring) : gostring :=
  match rev (Split path slash) with
  | [] | [_] => []
  | _ :: dirs => Join (rev dirs) slash ++ [slash]
  end.
Definition Dir (path : gostring) : gostring := Clean (dir_part path).

Example clean_examples :
  Clean (bs "a//b/./c/..") = bs "a/b" ∧ Clean (bs "/../a") = bs "/a" ∧
  Clean (bs "../../x") = bs "../../x" ∧ Clean (bs "a/..") = bs "." ∧ Clean [] = bs "." ∧
  JoinPath (bs "/snaps/S") (bs "../T") = bs "/snaps/T" ∧ JoinPath (bs "a") [] = bs "a" ∧
  Dir (bs "/a/b") = bs "/a" ∧ Dir (bs "a") = bs "." ∧ Dir (bs "/a/b/") = bs "/a/b".
Proof. by vm_compute. Qed.

(** ** Paths that are clean already *)

(** An element that names something below. *)
Definition proper (e : gostring) : Prop := e ≠ [] ∧ e ≠ dot ∧ e ≠ dotdot ∧ slash ∉ e.

Lemma clean_elems_proper rooted stack es :
  Forall proper es → clean_elems rooted stack es = rev stack ++ es.
Proof.
  intros Hes. revert stack. induction Hes as [|e es (He & Hd & Hdd & _) _ IH]; intros stack; cbn.
  { by rewrite app_nil_r. }
  rewrite !bool_decide_eq_false_2 by done. cbn. rewrite IH. cbn [rev]. by rewrite <- app_assoc.
Qed.

Lemma Split_join_proper es : Forall proper es → es ≠ [] → Split (Join es slash) slash = es.
Proof.
  intros Hes Hne. apply Split_Join; [done|].
  eapply Forall_impl; [exact Hes|]. by intros e (_ & _ & _ & ?).
Qed.

Lemma Split_slash p : Split (slash :: p) slash = [] :: Split p slash.
Proof. cbn [Split]. by rewrite bool_decide_eq_true_2. Qed.

Lemma Clean_slash p : Clean (slash :: p) = slash :: Join (clean_elems true [] (Split p slash)) slash.
Proof.
  assert (IsAbs (slash :: p) = true) as Habs.
  { unfold IsAbs. change (slash :: p) with ([slash] ++ p). apply HasPrefix_app. }
  unfold Clean. rewrite Habs, Split_slash. cbn [clean_elems].
  by rewrite bool_decide_eq_true_2.
Qed.

(** The absolute path of a list of elements. *)
Definition abs_path (es : list gostring) : gostring := slash :: Join es slash.

Lemma Clean_abs es : Forall proper es → Clean (abs_path es) = abs_path es.
Proof.
  intros Hes. unfold abs_path. rewrite Clean_slash. destruct es as [|e es]; [done|].
  rewrite Split_join_proper by done. by rewrite clean_elems_proper.
Qed.

Lemma Join_app es1 es2 sep :
  es1 ≠ [] → es2 ≠ [] → Join (es1 ++ es2) sep = Join es1 sep ++ sep :: Join es2 sep.
Proof.
  intros H1 H2. induction es1 as [|e es1 IH]; [done|]. destruct es1 as [|e' es1].
  - cbn [app Join]. by destruct es2.
  - cbn [app Join] in *. rewrite IH by done. by rewrite <- app_assoc.
Qed.

Lemma clean_elems_trailing rooted stack es :
  clean_elems rooted stack (es ++ [[]]) = clean_elems rooted stack es.
Proof.
  revert stack. induction es as [|e es IH]; intros stack; cbn [app clean_elems].
  - by rewrite bool_decide_eq_true_2.
  - repeat case_match; auto.
Qed.

Lemma Clean_trailing es :
  Forall proper es → es ≠ [] → Clean (abs_path es ++ [slash]) = abs_path es.
Proof.
  intros Hes Hne. unfold abs_path.
  assert ((slash :: Join es slash) ++ [slash] = slash :: Join (es ++ [[]]) slash) as ->.
  { rewrite Join_app by done. done. }
  rewrite Clean_slash.
  rewrite Split_Join; [|by destruct es|].
  - rewrite clean_elems_trailing. by rewrite clean_elems_proper.
  - apply Forall_app. split; [eapply Forall_impl; [exact Hes|]; by intros e (_ & _ & _ & ?)|].
    repeat constructor. apply not_elem_of_nil.
Qed.

(** Joining a relative path of proper elements to a directory goes below it. *)
Lemma JoinPath_proper dir es :
  Forall proper dir → Forall proper es → dir ≠ [] →
  JoinPath (abs_path dir) (Join es slash) = abs_path (dir ++ es).
Proof.
  intros Hd He Hne. unfold JoinPath, JoinPaths. cbn [abs_path]. fold (abs_path dir).
  destruct es as [|e es].
  - rewrite app_nil_r. by apply Clean_trailing.
  - rewrite <- (Clean_abs (dir ++ e :: es)) by (by apply Forall_app_2). f_equal. unfold abs_path.
    by rewrite (Join_app dir).
Qed.

(** The elements of a clean absolute path. *)
Lemma clean_elems_all_proper stack es :
  Forall proper stack → Forall (λ e, slash ∉ e) es → Forall proper (clean_elems true stack es).
Proof.
  intros Hs Hes. revert stack Hs. induction Hes as [|e es He _ IH]; intros stack Hs; cbn [clean_elems]; [by apply Forall_rev|].
  destruct (bool_decide (e = [])) eqn:H1; [by apply IH|]. destruct (bool_decide (e = dot)) eqn:H2; [by apply IH|].
  apply bool_decide_eq_false in H1, H2. cbn [orb]. case_bool_decide as H3.
  - destruct stack as [|top stack]; [by apply IH|]. apply Forall_cons in Hs as [Htop Hs].
    rewrite bool_decide_eq_false_2; [by apply IH|]. by destruct Htop as (_ & _ & ? & _).
  - apply IH. by apply Forall_cons_2.
Qed.

Definition url_elems (p : gostring) : list gostring := clean_elems true [] (Split p slash).

Lemma url_elems_proper p : Forall proper (url_elems p).
Proof. apply clean_elems_all_proper; [done|]. apply Split_fields_no_sep. Qed.

(** ** Telling paths apart *)

Lemma proper_name (s : gostring) : bool_decide (s ≠ [] ∧ s ≠ dot ∧ s ≠ dotdot ∧ slash ∉ s) = true → proper s.
Proof. by intros ?%bool_decide_eq_true_1. Qed.

Lemma abs_path_inj es1 es2 :
  Forall proper es1 → Forall proper es2 → es1 ≠ [] → es2 ≠ [] → abs_path es1 = abs_path es2 → es1 = es2.
Proof.
  intros H1 H2 Hn1 Hn2 [= Heq]. rewrite <- (Split_join_proper es1), <- (Split_join_proper es2) by done.
  by rewrite Heq.
Qed.

Lemma abs_path_app_inj dir e1 e2 :
  Forall proper dir → proper e1 → proper e2 → abs_path (dir ++ [e1]) = abs_path (dir ++ [e2]) → e1 = e2.
Proof.
  intros Hd H1 H2 Heq. apply abs_path_inj in Heq.
  - apply app_inv_head in Heq. by injection Heq.
  - apply Forall_app_2; [done|]. by apply Forall_cons_2; [|apply Forall_nil_2].
  - apply Forall_app_2; [done|]. by apply Forall_cons_2; [|apply Forall_nil_2].
  - by destruct dir.
  - by destruct dir.
Qed.

Lemma abs_path_snoc dir e : dir ≠ [] → abs_path (dir ++ [e]) = abs_path dir ++ slash :: e.
Proof. intros Hd. unfold abs_path. by rewrite Join_app. Qed.

Lemma JoinPath_one dir e :
  Forall proper dir → proper e → dir ≠ [] → JoinPath (abs_path dir) e = abs_path (dir ++ [e]).
Proof.
  intros Hd He Hne. rewrite <- (JoinPath_proper dir [e]); [done|done| |done].
  by apply Forall_cons_2; [|apply Forall_nil_2].
Qed.

Lemma Dir_abs dir e : Forall proper dir → dir ≠ [] → proper e → Dir (abs_path (dir ++ [e])) = abs_path dir.
Proof.
  intros Hd Hne He. unfold Dir, dir_part. unfold abs_path at 1. rewrite Split_slash, Split_join_proper.
  - cbn [rev]. rewrite rev_app_distr. cbn [rev app].
    destruct (rev dir ++ [[]]) as [|x l] eqn:Hrev; [by destruct (rev dir)|].
    rewrite <- Hrev, rev_app_distr, rev_involutive. cbn [rev app].
    rewrite <- (Clean_trailing dir) by done. f_equal. unfold abs_path. by destruct dir.
  - apply Forall_app_2; [done|]. by apply Forall_cons_2; [|apply Forall_nil_2].
  - by destruct dir.
Qed.

(** An extension behind a name without slashes. *)
Lemma ext_rev_app p q acc :
  slash ∉ p → "."%byte ∉ p → ext_rev (rev p ++ "."%byte :: q) acc = "."%byte :: p ++ acc.
Proof.
  revert acc. induction p as [|c p IH] using rev_ind; intros acc Hs Hd; cbn [rev app ext_rev].
  { rewrite bool_decide_eq_false_2 by done. by rewrite bool_decide_eq_true_2. }
  rewrite rev_app_distr. cbn [rev app ext_rev].
  apply not_elem_of_app in Hs as [Hs Hc]. apply not_elem_of_app in Hd as [Hd Hc'].
  rewrite bool_decide_eq_false_2 by (intros ->; by apply Hc, list_elem_of_singleton).
  rewrite bool_decide_eq_false_2 by (intros ->; by apply Hc', list_elem_of_singleton).
  rewrite IH by done. by rewrite <- app_assoc.
Qed.
Lemma Ext_app base e :
  slash ∉ e → "."%byte ∉ e → Ext (base ++ "."%byte :: e) = "."%byte :: e.
Proof.
  intros Hs Hd. unfold Ext. rewrite rev_app_distr. cbn [rev]. rewrite <- app_assoc. cbn [app].
  rewrite ext_rev_app by done. by rewrite app_nil_r.
Qed.
