(* ===== verification/GoIO.v ===== *)
(** * Byte streams: the readers and writers of Go's [io] and [bufio]

    A reader is the list of bytes it will still deliver before end of file; a
    writer is the list of bytes it has accepted together with the number of
    bytes it will still accept before it fails ([None]: it never fails). *)

From S2P Require Import Prelude.

Inductive io_error := EOF | ErrUnexpectedEOF | ErrWrite.

#[export] Instance io_error_eq_dec : EqDecision io_error.
Proof. solve_decision. Defined.

(** ** Readers *)

(** [io.ReadFull(r, buf)] with [len(buf) = n]: the bytes read and what is left. *)
Definition ReadFull (n : nat) (r : list byte) : outcome io_error (list byte * list byte) :=
  if (n <=? length r)%nat then Ret (take n r, drop n r)
  else match r with [] => Err EOF | _ => Err ErrUnexpectedEOF end.

(** [bufio.Reader.ReadString(delim)]: the line with its delimiter. *)
Fixpoint ReadString (delim : byte) (r : list byte) : outcome io_error (list byte * list byte) :=
  match r with
  | [] => Err EOF
  | c :: r' =>
      if bool_decide (c = delim) then Ret ([c], r')
      else '(line, rest) ← ReadString delim r'; Ret (c :: line, rest)
  end.

Lemma ReadFull_app n p r : length p = n → ReadFull n (p ++ r) = Ret (p, r).
Proof.
  intros <-. unfold ReadFull. rewrite length_app.
  destruct (Nat.leb_spec (length p) (length p + length r)); [|lia].
  by rewrite take_app_length, drop_app_length.
Qed.

Lemma ReadFull_short n r :
  (length r < n)%nat →
  ReadFull n r = Err (if bool_decide (r = []) then EOF else ErrUnexpectedEOF).
Proof.
  intros. unfold ReadFull. destruct (Nat.leb_spec n (length r)); [lia|]. by destruct r.
Qed.

Lemma ReadFull_ret n r p r' : ReadFull n r = Ret (p, r') → r = p ++ r' ∧ length p = n.
Proof.
  unfold ReadFull. destruct (Nat.leb_spec n (length r)); [|by destruct r].
  intros [= <- <-]. rewrite take_drop. split; [done|]. len_lia.
Qed.

Lemma ReadFull_no_panic n r : no_panic (ReadFull n r).
Proof. unfold ReadFull. destruct (_ <=? _)%nat; [done|]. by destruct r. Qed.

Lemma ReadString_app delim line rest :
  delim ∉ line →
  ReadString delim (line ++ delim :: rest) = Ret (line ++ [delim], rest).
Proof.
  induction line as [|c line IH]; intros H; cbn [ReadString app].
  - by rewrite bool_decide_eq_true_2.
  - apply not_elem_of_cons in H as [??].
    rewrite bool_decide_eq_false_2 by done. by rewrite IH.
Qed.

Lemma ReadString_no_panic delim r : no_panic (ReadString delim r).
Proof.
  induction r as [|c r IH]; [done|]. cbn [ReadString].
  case_bool_decide; [done|]. apply no_panic_bind; [done|]. by intros [??].
Qed.

(** ** Writers *)

Record writer := Writer { w_out : list byte; w_left : option nat }.

(** [w.Write(p)]: a short write reports an error. *)
Definition Write (w : writer) (p : list byte) : writer * option io_error :=
  match w_left w with
  | None => (Writer (w_out w ++ p) None, None)
  | Some k =>
      if (length p <=? k)%nat then (Writer (w_out w ++ p) (Some (k - length p)%nat), None)
      else (Writer (w_out w ++ take k p) (Some O), Some ErrWrite)
  end.

(** What a sequence of writes would leave behind: a failed write stops it. *)
Lemma Write_prefix w p w' e :
  Write w p = (w', e) →
  ∃ q, w_out w' = w_out w ++ q ∧ q `prefix_of` p ∧ (e = None → q = p).
Proof.
  unfold Write. destruct (w_left w) as [k|].
  - destruct (Nat.leb_spec (length p) k); intros [= <- <-]; simpl.
    + by exists p.
    + exists (take k p). split; [done|]. split; [apply prefix_take|done].
  - intros [= <- <-]. by exists p.
Qed.

(** ** Files *)

(** The files of a directory tree, by path. *)
Abbreviation fsys := (gmap gostring (list byte)).

(** Where the replacement of a file fails, if it does. *)
Inductive fs_fault := NoFault | FailCreate | FailWrite | FailClose | FailRename.

Definition tmp_suffix : gostring := [".";"t";"m";"p"]%byte.

(** The way the manifests are written: create [path.tmp], write and close it,
    rename it over [path]; the deferred [os.Remove] deletes the temporary file
    once it exists, whether the call succeeds or not. *)
Definition write_via_tmp (fault : fs_fault) (fs : fsys) (path : gostring) (data : list byte)
    : fsys * option io_error :=
  let tmp := path ++ tmp_suffix in
  match fault with
  | FailCreate => (fs, Some ErrWrite)
  | FailWrite | FailClose | FailRename => (delete tmp (<[tmp := data]> fs), Some ErrWrite)
  | NoFault => (delete tmp (<[path := data]> (delete tmp (<[tmp := data]> fs))), None)
  end.

(** Nobody sees a partial file: [path] holds its old contents or all of the new
    ones, and no other file but the temporary one changes. *)
Lemma write_via_tmp_atomic fault fs path data fs' e :
  write_via_tmp fault fs path data = (fs', e) →
  fs' !! path = match e with None => Some data | Some _ => fs !! path end ∧
  ∀ q, q ≠ path → q ≠ path ++ tmp_suffix → fs' !! q = fs !! q.
Proof.
  assert (path ≠ path ++ tmp_suffix) as Hp.
  { intros H. apply (f_equal length) in H. revert H. unfold tmp_suffix. len_lia. }
  assert (∀ (m : fsys) x, delete (path ++ tmp_suffix) (<[path ++ tmp_suffix := x]> m)
    = delete (path ++ tmp_suffix) m) as Hdi by (intros; apply delete_insert_eq).
  destruct fault; intros [= <- <-]; (split; [|intros q ??]);
    repeat first [rewrite lookup_delete_ne by congruence | rewrite lookup_insert_ne by congruence];
    try done.
  by rewrite lookup_insert_eq.
Qed.
