(* ===== verification/GoSort.v ===== *)
(** * Sorting and searching: Go's [sort.Search] and [sort.Slice]

    [sort.Search] is the library's own bisection, with its loop; [sort.Slice]
    returns a permutation sorted by the order it is given, here the stable one
    (the library leaves the order of equal elements open; the components that
    sort have distinct keys, or say what they assume). *)

From stdpp Require Export sorting.
From S2P Require Import Prelude GoStrings.

(** ** Bisection *)

Fixpoint search_loop (fuel : nat) (f : nat → bool) (i j : nat) : nat :=
  match fuel with
  | O => i
  | S fuel' =>
      if (i <? j)%nat then
        let h := ((i + j) / 2)%nat in
        if negb (f h) then search_loop fuel' f (h + 1) j else search_loop fuel' f i h
      else i
  end.

(** [sort.Search(n, f)]: the interval shrinks at each iteration. *)
Definition sort_search (n : nat) (f : nat → bool) : nat := search_loop n f 0 n.

(** Whatever [f] is, the bisection ends between the two ends, after a false and
    before a true. *)
Lemma search_loop_spec fuel f i j :
  (j - i ≤ fuel)%nat → (i ≤ j)%nat →
  let r := search_loop fuel f i j in
  (i ≤ r ≤ j)%nat ∧ (r = i ∨ f (r - 1)%nat = false) ∧ (r = j ∨ f r = true).
Proof.
  revert i j. induction fuel as [|fuel IH]; intros i j Hf Hij; cbn [search_loop].
  { assert (i = j) as -> by lia. auto. }
  destruct (i <? j)%nat eqn:Hlt; reflect_bools; [|assert (i = j) as -> by lia; auto].
  assert (i ≤ (i + j) / 2 < j)%nat.
  { split; [apply Nat.div_le_lower_bound; lia|apply Nat.Div0.div_lt_upper_bound; lia]. }
  destruct (f ((i + j) / 2)%nat) eqn:Hh; cbn [negb].
  - destruct (IH i ((i + j) / 2)%nat) as (? & Hl & Hr); [lia|lia|].
    split_and!; [lia|lia|done|]. destruct Hr as [->|]; auto.
  - destruct (IH ((i + j) / 2 + 1)%nat j) as (? & Hl & Hr); [lia|lia|].
    split_and!; [lia|lia| |done]. right. destruct Hl as [->|]; [|done].
    by rewrite Nat.add_sub.
Qed.

Lemma sort_search_le n f : (sort_search n f ≤ n)%nat.
Proof. unfold sort_search. destruct (search_loop_spec n f 0 n) as ((_ & ?) & _); [lia|lia|done]. Qed.

(** On a predicate that turns true once, it is the first position where it is. *)
Lemma sort_search_first n f :
  (∀ a b, (a ≤ b < n)%nat → f a = true → f b = true) →
  let r := sort_search n f in
  (r ≤ n)%nat ∧ (∀ k, (k < r)%nat → f k = false) ∧ (∀ k, (r ≤ k < n)%nat → f k = true).
Proof.
  intros Hm. unfold sort_search.
  destruct (search_loop_spec n f 0 n) as ((_ & ?) & Hl & Hr); [lia|lia|].
  set (r := search_loop n f 0 n) in *. cbn zeta. split_and!; [done| |].
  - intros k Hk. destruct Hl as [->|Hl]; [lia|].
    destruct (f k) eqn:Hfk; [|done]. rewrite (Hm k (r - 1)%nat) in Hl; [done|lia|done].
  - intros k Hk. destruct Hr as [->|Hr]; [lia|]. by apply (Hm r k).
Qed.

(** ** Looking a key up in a list sorted by key *)

Section keyed.
Context {A} `{!Inhabited A} (key : A → gostring).

Definition keys_le (x y : A) : Prop := go_le (key x) (key y).
#[export] Instance keys_le_dec x y : Decision (keys_le x y).
Proof. unfold keys_le. apply _. Defined.
#[export] Instance keys_le_total : Total keys_le.
Proof. intros x y. apply go_le_total. Qed.
#[export] Instance keys_le_trans : Transitive keys_le.
Proof. intros x y z. unfold keys_le. apply transitivity. Qed.

Definition sort_by_key (l : list A) : list A := merge_sort keys_le l.

Lemma sort_by_key_perm l : sort_by_key l ≡ₚ l.
Proof. apply merge_sort_Permutation. Qed.

Lemma sort_by_key_sorted l : StronglySorted keys_le (sort_by_key l).
Proof. apply StronglySorted_merge_sort; apply _. Qed.

Lemma sorted_lookup_le l i j x y :
  StronglySorted keys_le l → (i ≤ j)%nat → l !! i = Some x → l !! j = Some y →
  go_le (key x) (key y).
Proof.
  intros Hs. revert i j. induction Hs as [|z l Hs IH Hz]; intros [|i] [|j] Hij; try done.
  - intros [= ->] [= ->]. reflexivity.
  - intros [= ->] Hy. cbn in Hy. rewrite Forall_forall in Hz.
    apply Hz, list_elem_of_lookup. by exists j.
  - lia.
  - intros Hx Hy. apply (IH i j); [lia|done|done].
Qed.

(** The position [sort.Search] gives for [key >= k] holds the entry of key [k]
    when the list has one. *)
Lemma search_key_spec l k :
  StronglySorted keys_le l →
  let idx := sort_search (length l) (λ i, negb (go_ltb (key (l !!! i)) k)) in
  (∀ x, l !! idx = Some x → key x = k → x ∈ l) ∧
  (k ∈ key <$> l → ∃ x, l !! idx = Some x ∧ key x = k).
Proof.
  intros Hs. set (f := λ i, negb (go_ltb (key (l !!! i)) k)). cbn zeta.
  destruct (sort_search_first (length l) f) as (Hle & Hlt & Hge).
  { intros a b Hab Ha. unfold f in *. reflect_bools.
    destruct (lookup_lt_is_Some_2 l a) as [x Hx]; [lia|].
    destruct (lookup_lt_is_Some_2 l b) as [y Hy]; [lia|].
    rewrite (list_lookup_total_correct _ _ _ Hx) in Ha.
    rewrite (list_lookup_total_correct _ _ _ Hy).
    apply negb_true_iff. change (go_le k (key y)). transitivity (key x); [done|].
    apply (sorted_lookup_le l a b); [done|lia|done|done]. }
  split; [intros x Hx _; by eapply list_elem_of_lookup_2|].
  intros (z & -> & Hz)%list_elem_of_fmap. apply list_elem_of_lookup in Hz as [j Hj].
  pose proof (lookup_lt_Some _ _ _ Hj) as Hjl.
  set (idx := sort_search (length l) f) in *.
  assert (idx ≤ j)%nat as Hij.
  { destruct (decide (idx ≤ j)%nat) as [|Hn]; [done|].
    specialize (Hlt j ltac:(lia)). unfold f in Hlt.
    rewrite (list_lookup_total_correct _ _ _ Hj), go_ltb_irrefl in Hlt. done. }
  destruct (lookup_lt_is_Some_2 l idx) as [x Hx]; [lia|].
  exists x. split; [done|].
  specialize (Hge idx ltac:(lia)). unfold f in Hge.
  rewrite (list_lookup_total_correct _ _ _ Hx) in Hge. reflect_bools.
  apply (anti_symm go_le); [by apply (sorted_lookup_le l idx j x z)|done].
Qed.

(** When the keys are distinct, it is the entry of that key. *)
Lemma key_unique l x y : NoDup (key <$> l) → x ∈ l → y ∈ l → key x = key y → x = y.
Proof.
  intros Hn. induction l as [|z l IH]; [by intros ?%not_elem_of_nil|].
  cbn in Hn. apply NoDup_cons in Hn as [Hz Hn].
  intros [->|Hx]%elem_of_cons [->|Hy]%elem_of_cons Hk; [done| | |by apply IH].
  - destruct Hz. rewrite Hk. by apply list_elem_of_fmap_2.
  - destruct Hz. rewrite <- Hk. by apply list_elem_of_fmap_2.
Qed.

Lemma sort_by_key_nodup l : NoDup (key <$> l) → NoDup (key <$> sort_by_key l).
Proof. intros. by rewrite sort_by_key_perm. Qed.
End keyed.
