(* ===== verification/JsonStore.v ===== *)
(** * Metadata files: JSON values on a disk

    The calls of the [os] package the metadata stores make, on a disk of files and
    directories with any call failing, and the interface of the two JSON libraries.
    A store is a map from keys to values, one file per key. *)

From Stdlib Require Import Strings.String.
From S2P Require Import GoSort Prelude GoStrings GoPath.

(** ** Codecs ([encoding/json], [hujson]) *)

(** Values that [ok] accepts (strings in UTF-8, times of four-digit years) come back
    as they were marshalled; [standardize] is [hujson.Standardize]. *)
Class Json (A : Type) (ok : A → Prop) := {
  marshal : A → option (list byte);
  standardize : list byte → option (list byte);
  unmarshal : list byte → option A;
  json_law : ∀ a, ok a → ∃ data std,
    marshal a = Some data ∧ standardize data = Some std ∧ unmarshal std = Some a;
}.

(** ** The disk *)

Record disk := MkDisk { d_files : gmap gostring (list byte); d_dirs : gset gostring }.

Definition taken (d : disk) : gset gostring := dom (d_files d) ∪ d_dirs d.

(** The names of [os.CreateTemp]: a prefix and digits that make a new name. *)
Class TempNames := {
  temp_suffix : gset gostring → gostring → gostring;
  temp_fresh : ∀ names p, p ++ temp_suffix names p ∉ names;
  temp_digits : ∀ names p, Forall (λ c, is_Some (byte_digit c)) (temp_suffix names p);
  temp_nonempty : ∀ names p, temp_suffix names p ≠ [];
}.

(** Which step of replacing a file fails. *)
Inductive write_step := AtCreate | AtWrite (n : nat) | AtChmod | AtClose | AtRename.

(** What the operating system refuses during one operation of a store. *)
Record osenv := MkOs {
  mkdir_fails : gostring → bool;
  stat_fails : gostring → bool;
  read_fails : gostring → bool;
  remove_fails : gostring → bool;
  write_fails : option write_step;
  cleanup_fails : bool;
}.
Definition no_fault : osenv := MkOs (λ _, false) (λ _, false) (λ _, false) (λ _, false) None false.

Inductive store_error :=
| err_invalid | err_exists | err_not_found | err_nil_uuid | err_io | err_parse | err_unmarshal | err_marshal.

#[export] Instance store_error_eq_dec : EqDecision store_error.
Proof. solve_decision. Defined.

(** A path and the directories above it. *)
Fixpoint with_parents (seen rest : gostring) : list gostring :=
  match rest with
  | [] => [seen]
  | c :: rest' =>
      (if bool_decide (c = slash) && bool_decide (seen ≠ []) then [seen] else [])
      ++ with_parents (seen ++ [c]) rest'
  end.

Definition MkdirAll (env : osenv) (d : disk) (path : gostring) : disk * bool :=
  if mkdir_fails env path then (d, false)
  else (MkDisk (d_files d) (list_to_set (with_parents [] path) ∪ d_dirs d), true).

Inductive stat_result := StatOk | StatNotExist | StatErr.
Definition os_Stat (env : osenv) (d : disk) (path : gostring) : stat_result :=
  if stat_fails env path then StatErr
  else if bool_decide (path ∈ taken d) then StatOk else StatNotExist.

Inductive read_result := ReadOk (data : list byte) | ReadNotExist | ReadErr.
Definition os_ReadFile (env : osenv) (d : disk) (path : gostring) : read_result :=
  if read_fails env path then ReadErr
  else
    match d_files d !! path with
    | Some data => ReadOk data
    | None => if bool_decide (path ∈ d_dirs d) then ReadErr else ReadNotExist
    end.

(** Removing a file; a directory is only removed by the stores' callers. *)
Definition os_Remove (env : osenv) (d : disk) (path : gostring) : disk * stat_result :=
  if remove_fails env path then (d, StatErr)
  else
    match d_files d !! path with
    | Some _ => (MkDisk (delete path (d_files d)) (d_dirs d), StatOk)
    | None => (d, if bool_decide (path ∈ d_dirs d) then StatErr else StatNotExist)
    end.

(** The entries of a directory, sorted, each with whether it is a directory. *)
Definition entry_of (dir path : gostring) : option gostring :=
  if HasPrefix path (dir ++ [slash]) then
    let name := TrimPrefix path (dir ++ [slash]) in
    if bool_decide (name = []) || ContainsByte name slash then None else Some name
  else None.
Definition os_ReadDir (env : osenv) (d : disk) (dir : gostring) : outcome store_error (list (gostring * bool)) :=
  if read_fails env dir then Err err_io
  else if bool_decide (dir ∉ d_dirs d) then Err err_not_found
  else Ret (sort_by_key fst
    (((λ n, (n, false)) <$> omap (entry_of dir) (elements (dom (d_files d))))
     ++ ((λ n, (n, true)) <$> omap (entry_of dir) (elements (d_dirs d))))).

Definition jsonc : gostring := bs ".jsonc".

(** The stem of a metadata file. *)
Definition listed (entry : gostring * bool) : option gostring :=
  if snd entry then None
  else if bool_decide (Ext (fst entry) = jsonc) then Some (TrimSuffix (fst entry) jsonc) else None.

(** ** Replacing a file *)

Section temp.
Context `{TempNames}.

Definition temp_path (d : disk) (path prefix : gostring) : gostring :=
  let p := Dir path ++ slash :: prefix in p ++ temp_suffix (taken d) p.

(** What the disk is after the deferred removal of the temporary file. *)
Definition clean_up (env : osenv) (d : disk) (tmp : gostring) : disk :=
  if cleanup_fails env then d else MkDisk (delete tmp (d_files d)) (d_dirs d).
Definition put_file (d : disk) (path : gostring) (data : list byte) : disk :=
  MkDisk (<[path := data]> (d_files d)) (d_dirs d).

(** Write [data] to a new file beside [path], then rename it over [path]: the disks
    this goes through, and whether it succeeds. *)
Definition replace_file (env : osenv) (d : disk) (path prefix : gostring) (data : list byte)
    : list disk * disk * option store_error :=
  let tmp := temp_path d path prefix in
  let failed steps d' := (steps, clean_up env d' tmp, Some err_io) in
  if bool_decide (Dir path ∉ d_dirs d) then ([], d, Some err_io)
  else
    match write_fails env with
    | Some AtCreate => ([], d, Some err_io)
    | Some (AtWrite n) =>
        let d1 := put_file d tmp [] in let d2 := put_file d tmp (take n data) in failed [d1; d2] d2
    | Some AtChmod | Some AtClose | Some AtRename =>
        let d1 := put_file d tmp [] in let d2 := put_file d tmp data in failed [d1; d2] d2
    | None =>
        let d1 := put_file d tmp [] in
        let d2 := put_file d tmp data in
        if bool_decide (path ∈ d_dirs d) then failed [d1; d2] d2
        else
          let d3 := MkDisk (<[path := data]> (delete tmp (d_files d2))) (d_dirs d) in
          ([d1; d2], d3, None)
    end.

(** The value in a file. *)
Definition load {A ok} `{Json A ok} (env : osenv) (d : disk) (path : gostring) : outcome store_error A :=
  match os_ReadFile env d path with
  | ReadNotExist => Err err_not_found
  | ReadErr => Err err_io
  | ReadOk data =>
      std ← or_err (standardize data) err_parse;
      or_err (unmarshal std) err_unmarshal
  end.

(** Marshal and replace. *)
Definition save {A ok} `{Json A ok} (env : osenv) (d : disk) (path prefix : gostring) (a : A)
    : list disk * disk * option store_error :=
  match marshal a with
  | None => ([], d, Some err_marshal)
  | Some data => replace_file env d path prefix data
  end.

(** ** Readers see the old file or the new one *)

(** [d'] is [d], up to the temporary file, or [d] with the new contents. *)
Definition old_or_new (d d' : disk) (path tmp : gostring) (data : list byte) : Prop :=
  d_dirs d' = d_dirs d ∧
  ((∀ q, q ≠ tmp → d_files d' !! q = d_files d !! q) ∨
   (d_files d' !! path = Some data ∧ ∀ q, q ≠ path → d_files d' !! q = d_files d !! q)).

Lemma temp_path_new d path prefix : temp_path d path prefix ∉ taken d.
Proof. apply temp_fresh. Qed.

Lemma replace_file_steps env d path prefix data steps d' e :
  replace_file env d path prefix data = (steps, d', e) →
  let tmp := temp_path d path prefix in
  path ≠ tmp →
  Forall (λ x, d_dirs x = d_dirs d ∧ ∀ q, q ≠ tmp → d_files x !! q = d_files d !! q) steps ∧
  d_dirs d' = d_dirs d ∧
  match e with
  | None => ∀ q, d_files d' !! q = <[path := data]> (d_files d) !! q
  | Some _ => ∀ q, q ≠ tmp → d_files d' !! q = d_files d !! q
  end.
Proof.
  intros Hr tmp Hne. unfold replace_file in Hr. fold tmp in Hr.
  assert (∀ c x, d_dirs x = d_dirs d ∧ (∀ q, q ≠ tmp → d_files x !! q = d_files d !! q) →
    d_dirs (if c : bool then x else MkDisk (delete tmp (d_files x)) (d_dirs x)) = d_dirs d ∧
    ∀ q, q ≠ tmp → d_files (if c then x else MkDisk (delete tmp (d_files x)) (d_dirs x)) !! q = d_files d !! q)
    as Hclean.
  { intros [|] x [Hx1 Hx2]; split; try done. intros q Hq. cbn. rewrite lookup_delete_ne by done. by apply Hx2. }
  assert (∀ x, d_dirs (put_file d tmp x) = d_dirs d ∧
    ∀ q, q ≠ tmp → d_files (put_file d tmp x) !! q = d_files d !! q) as Hput.
  { intros x. split; [done|]. intros q Hq. cbn. by rewrite lookup_insert_ne. }
  case_bool_decide; [injection Hr as <- <- <-; by split; [apply Forall_nil_2|]|].
  assert (∀ x y, Forall (λ x, d_dirs x = d_dirs d ∧ ∀ q, q ≠ tmp → d_files x !! q = d_files d !! q)
    [put_file d tmp x; put_file d tmp y]) as Hsteps.
  { intros x y. apply Forall_cons_2; [apply Hput|apply Forall_cons_2; [apply Hput|apply Forall_nil_2]]. }
  destruct (write_fails env) as [[|n| | |]|]; [| | | | |case_bool_decide]; injection Hr as <- <- <-;
    try (split; [apply Forall_nil_2|done]); (split; [apply Hsteps|]);
    try (unfold clean_up; apply Hclean, Hput).
  split; [done|]. intros q. cbn [d_files put_file]. destruct (decide (q = path)) as [->|Hq].
  { by rewrite !lookup_insert_eq. }
  rewrite !lookup_insert_ne by done. destruct (decide (q = tmp)) as [->|Hq'].
  - rewrite lookup_delete_eq. symmetry. apply not_elem_of_dom. intros Hin.
    apply (temp_path_new d path prefix). unfold taken. set_solver.
  - rewrite lookup_delete_ne by done. by rewrite lookup_insert_ne.
Qed.

(** When no call fails, the file is replaced. *)
Lemma replace_file_ok d path prefix data :
  Dir path ∈ d_dirs d → path ∉ d_dirs d →
  ∃ steps d', replace_file no_fault d path prefix data = (steps, d', None).
Proof.
  intros Hd Hp. unfold replace_file. rewrite bool_decide_eq_false_2 by (intros Hn; by apply Hn).
  cbn [write_fails no_fault]. rewrite bool_decide_eq_false_2 by done. eauto.
Qed.
End temp.

(** ** A map of values on a disk *)

Section holds.
Context {K} `{Countable K} {A} {ok : A → Prop} `{!Json A ok}.
Variable path : K → gostring.
Variable key_ok : K → Prop.

(** The disk holds the value of every key of [m], and nothing for other keys. *)
Definition holds (d : disk) (m : gmap K A) : Prop :=
  (∀ k, key_ok k → path k ∉ d_dirs d ∧
     match m !! k with
     | Some a => ok a ∧ ∃ data std, d_files d !! path k = Some data ∧
                   standardize data = Some std ∧ unmarshal std = Some a
     | None => d_files d !! path k = None
     end) ∧
  (∀ k, is_Some (m !! k) → key_ok k).

(** Directories that are no key's file do not matter. *)
Lemma holds_dirs d m dirs :
  holds d m → (∀ k, key_ok k → path k ∉ dirs) → holds (MkDisk (d_files d) (dirs ∪ d_dirs d)) m.
Proof.
  intros [Hm Hk] Hn. split; [|done]. intros k Hk'. destruct (Hm k Hk') as [Hd Hv].
  split; [|done]. cbn [d_dirs]. specialize (Hn k Hk'). set_solver.
Qed.
Hypothesis path_inj : ∀ k1 k2, key_ok k1 → key_ok k2 → path k1 = path k2 → k1 = k2.

Lemma holds_load d m k :
  holds d m → key_ok k →
  load no_fault d (path k) = match m !! k with Some a => Ret a | None => Err err_not_found end.
Proof.
  intros [Hm _] Hk. destruct (Hm k Hk) as [Hd Hf]. unfold load, os_ReadFile. cbn [read_fails no_fault].
  destruct (m !! k) as [a|].
  - destruct Hf as (_ & data & std & -> & -> & Hu). cbn [or_err]. by rewrite ret_bind, Hu.
  - rewrite Hf. by rewrite bool_decide_eq_false_2.
Qed.

(** With failing calls a value is read, or an error that is not about the value. *)
Lemma holds_load_any env d m k :
  holds d m → key_ok k →
  load env d (path k) = match m !! k with Some a => Ret a | None => Err err_not_found end ∨
  load env d (path k) = Err err_io ∧ read_fails env (path k) = true.
Proof.
  intros Hm Hk. pose proof (holds_load d m k Hm Hk) as Hl. unfold load, os_ReadFile in *.
  cbn [read_fails no_fault] in Hl. destruct (read_fails env (path k)); [by right|by left].
Qed.

Lemma holds_taken d m k : holds d m → key_ok k → path k ∈ taken d ↔ is_Some (m !! k).
Proof.
  intros [Hm _] Hk. destruct (Hm k Hk) as [Hd Hf]. unfold taken. rewrite elem_of_union, elem_of_dom.
  destruct (m !! k) as [a|].
  - destruct Hf as (_ & data & std & -> & _). split; [by eauto|]. intros _. left. by eexists.
  - rewrite Hf. split; [|by intros [? ?]]. intros [[? ?]|Hin]; [done|]. by destruct (Hd Hin).
Qed.

(** Anything that leaves the files of all keys alone keeps the map. *)
Lemma holds_same d d' m :
  holds d m → d_dirs d' = d_dirs d →
  (∀ k, key_ok k → d_files d' !! path k = d_files d !! path k) → holds d' m.
Proof.
  intros [Hm Hk] Hd Hf. split; [|done]. intros k Hk'. rewrite Hd. destruct (Hm k Hk') as [Hn Hv].
  split; [done|]. by rewrite Hf.
Qed.

Lemma holds_insert d d' m k a data std :
  holds d m → key_ok k → ok a → standardize data = Some std → unmarshal std = Some a →
  d_dirs d' = d_dirs d → (∀ q, d_files d' !! q = <[path k := data]> (d_files d) !! q) →
  holds d' (<[k := a]> m).
Proof.
  intros [Hm Hk] Hkk Ha Hs Hu Hd Hf. split.
  - intros k' Hk'. rewrite Hd. destruct (Hm k' Hk') as [Hn Hv]. split; [done|].
    destruct (decide (k' = k)) as [->|Hne].
    + rewrite lookup_insert_eq. split; [done|]. exists data, std. by rewrite Hf, lookup_insert_eq.
    + rewrite lookup_insert_ne by done. rewrite Hf, lookup_insert_ne; [done|].
      intros Heq. by apply Hne, path_inj.
  - intros k' [x Hx]. destruct (decide (k' = k)) as [->|Hne]; [done|].
    rewrite lookup_insert_ne in Hx by done. eauto.
Qed.

Lemma holds_delete d m k :
  holds d m → key_ok k →
  holds (MkDisk (delete (path k) (d_files d)) (d_dirs d)) (delete k m).
Proof.
  intros [Hm Hk] Hkk. split; cbn [d_files d_dirs].
  - intros k' Hk'. destruct (Hm k' Hk') as [Hn Hv]. split; [done|].
    destruct (decide (k' = k)) as [->|Hne].
    + by rewrite !lookup_delete_eq.
    + rewrite !lookup_delete_ne; [done| |done]. intros Heq. by apply Hne, path_inj.
  - intros k' [x Hx%lookup_delete_Some]. destruct Hx as [_ Hx]. eauto.
Qed.

End holds.

(** ** Saving and updating values of a store

    The files of all keys lie in one directory, and temporary names are no key's file. *)

Section keyed.
Context {K} `{Countable K} {A} {ok : A → Prop} `{!Json A ok} `{TempNames}.
Variables (path prefix : K → gostring) (key_ok : K → Prop) (dir : gostring).
Hypothesis path_inj : ∀ k1 k2, key_ok k1 → key_ok k2 → path k1 = path k2 → k1 = k2.
Hypothesis path_dir : ∀ k, key_ok k → Dir (path k) = dir.
Hypothesis path_temp : ∀ d k k', key_ok k → key_ok k' → path k' ≠ temp_path d (path k) (prefix k).

Abbreviation held := (holds (ok := ok) path key_ok).

Lemma save_holds env d m k a steps d' e :
  held d m → key_ok k → ok a → save env d (path k) (prefix k) a = (steps, d', e) →
  Forall (λ x, held x m) steps ∧ d_dirs d' = d_dirs d ∧
  match e with
  | None => held d' (<[k := a]> m)
  | Some _ => held d' m ∧ (env = no_fault → dir ∉ d_dirs d)
  end.
Proof.
  intros Hm Hk Ha Hw. unfold save in Hw.
  destruct (json_law a Ha) as (data & std & Hd & Hs & Hu). rewrite Hd in Hw.
  set (tmp := temp_path d (path k) (prefix k)) in *.
  assert (∀ k', key_ok k' → path k' ≠ tmp) as Htmp by (intros k' Hk'; by apply path_temp).
  pose proof (replace_file_steps _ _ _ _ _ _ _ _ Hw (Htmp k Hk)) as (Hsteps & Hdirs & He). fold tmp in Hsteps, He.
  assert (∀ x, d_dirs x = d_dirs d ∧ (∀ q, q ≠ tmp → d_files x !! q = d_files d !! q) → held x m) as Hsame.
  { intros x [Hx1 Hx2]. apply (holds_same _ _ d); [done|done|]. intros k' Hk'. by apply Hx2, Htmp. }
  split; [by eapply Forall_impl|]. split; [done|].
  destruct e as [e|]; [|by apply (holds_insert _ _ path_inj d _ m k a data std)].
  split; [by apply Hsame|]. intros -> Hin.
  destruct (replace_file_ok d (path k) (prefix k) data) as (st & d1 & Hok).
  + by rewrite path_dir.
  + by apply Hm.
  + by rewrite Hok in Hw.
Qed.

(** Nothing is wrong that a working disk would not have. *)
Definition sound_disk (env : osenv) (d : disk) (m : gmap K A) : Prop :=
  env = no_fault ∧ (m ≠ ∅ → dir ∈ d_dirs d).

(** What writing operations may do: end as promised, or report a failure and change
    nothing; meanwhile readers see the old values. *)
Definition written_as (env : osenv) (d : disk) (m : gmap K A)
    (res : list disk * disk * option store_error) (promise : gmap K A * option store_error) : Prop :=
  let '(steps, d', e) := res in
  Forall (λ x, held x m) steps ∧
  ((e = promise.2 ∧ held d' promise.1) ∨ (e ≠ None ∧ held d' m ∧ ¬ sound_disk env d m)).

Lemma written_here env d m e m' : held d m → m' = m → written_as env d m ([], d, e) (m', e).
Proof. intros Hm ->. split; [apply Forall_nil_2|by left]. Qed.

Lemma written_io env d m e p : held d m → env ≠ no_fault → written_as env d m ([], d, Some e) p.
Proof. intros Hm He. split; [apply Forall_nil_2|right]. split; [done|]. split; [done|]. by intros [? _]. Qed.

(** Reading a value, changing it and writing it back. *)
Lemma update_written env d m k (f : A → A) :
  held d m → key_ok k → (∀ a, ok a → ok (f a)) →
  written_as env d m
    (match load env d (path k) with
     | Ret a => save env d (path k) (prefix k) (f a)
     | Err e => ([], d, Some e)
     | Panic => ([], d, Some err_io)
     end)
    (match m !! k with
     | Some a => (<[k := f a]> m, None) | None => (m, Some err_not_found)
     end).
Proof.
  intros Hm Hk Hf. destruct (holds_load_any _ _ env d m k Hm Hk) as [->|[-> He]].
  2: { apply written_io; [done|]. by intros ->. }
  destruct (m !! k) as [a|] eqn:Hr; [|by apply written_here].
  assert (ok a) as Ha by (destruct (proj1 Hm k Hk) as [_ Hv]; rewrite Hr in Hv; apply Hv).
  destruct (save env d (path k) (prefix k) (f a)) as [[steps d'] e] eqn:Hw.
  apply (save_holds env d m) in Hw as (Hsteps & _ & He); [|done|done|by apply Hf].
  split; [done|]. destruct e as [e|]; [right|by left]. destruct He as [He Hs].
  split; [done|]. split; [done|]. intros [-> Hd]. apply Hs; [done|]. apply Hd. by intros ->.
Qed.

(** Making the directory, then the value if there is none. *)
Lemma create_written env d m k a :
  held d m → key_ok k → ok a → stat_fails env (path k) = false →
  (∀ k', key_ok k' → path k' ∉ (list_to_set (with_parents [] dir) : gset gostring)) →
  dir ∈ with_parents [] dir →
  written_as env d m
    (let '(d1, made) := MkdirAll env d dir in
     if negb made then ([], d1, Some err_io)
     else
       match os_Stat env d1 (path k) with
       | StatOk => ([], d1, Some err_exists)
       | _ => let '(steps, d2, e) := save env d1 (path k) (prefix k) a in (d1 :: steps, d2, e)
       end)
    (match m !! k with Some _ => (m, Some err_exists) | None => (<[k := a]> m, None) end).
Proof.
  intros Hm Hk Ha Hstat Hpar Hlast. unfold MkdirAll.
  destruct (mkdir_fails env dir) eqn:Hmk; cbn [negb]; [by apply written_io; [|intros ->]|].
  set (d1 := MkDisk _ _). assert (held d1 m) as Hm1 by (by apply (holds_dirs _ _ d)).
  assert (dir ∈ d_dirs d1) as Hd1 by (by apply elem_of_union_l, elem_of_list_to_set).
  unfold os_Stat. rewrite Hstat. pose proof (holds_taken _ _ d1 m k Hm1 Hk) as Ht.
  case_bool_decide as Hin.
  { apply Ht in Hin as [r ->]. split; [apply Forall_nil_2|]. by left. }
  assert (m !! k = None) as -> by (apply eq_None_not_Some; tauto).
  destruct (save env d1 (path k) (prefix k) a) as [[steps d'] e] eqn:Hw.
  apply (save_holds env d1 m) in Hw as (Hsteps & _ & He); [|done..].
  split; [by apply Forall_cons_2|]. destruct e as [e|]; [right|by left]. destruct He as [He Hs].
  split; [done|]. split; [done|]. intros [-> _]. by apply Hs.
Qed.

Lemma remove_written env d m k :
  held d m → key_ok k →
  written_as env d m
    (match os_Remove env d (path k) with
     | (d', StatOk) => ([], d', None)
     | (d', StatNotExist) => ([], d', Some err_not_found)
     | (d', StatErr) => ([], d', Some err_io)
     end)
    (match m !! k with Some _ => (delete k m, None) | None => (m, Some err_not_found) end).
Proof.
  intros Hm Hk. unfold os_Remove.
  destruct (remove_fails env (path k)) eqn:Hrm; [by apply written_io; [|intros ->]|].
  pose proof (proj1 Hm k Hk) as [Hd Hv]. destruct (m !! k) as [r|] eqn:Hr.
  - destruct Hv as (_ & data & std & -> & _). split; [apply Forall_nil_2|]. left.
    split; [done|]. by apply (holds_delete _ _ path_inj).
  - rewrite Hv, bool_decide_eq_false_2 by done. by apply written_here.
Qed.
End keyed.

(** ** Listing a directory's metadata files *)

Lemma ext_rev_suffix p acc e : ext_rev p acc = e → e ≠ [] → ∃ q, rev p ++ acc = q ++ e.
Proof.
  revert acc. induction p as [|c p IH]; intros acc; cbn [ext_rev rev]; [by intros <-|].
  case_bool_decide; [by intros <-|]. case_bool_decide; intros He Hne.
  - subst. exists (rev p). by rewrite <- app_assoc.
  - apply IH in He as (q & Hq); [|done]. exists q. by rewrite <- app_assoc.
Qed.

Lemma Ext_jsonc n : Ext n = jsonc → n = TrimSuffix n jsonc ++ jsonc.
Proof.
  intros (q & Hq)%ext_rev_suffix; [|done]. rewrite rev_involutive, app_nil_r in Hq. subst n.
  by rewrite TrimSuffix_app.
Qed.
Lemma Ext_of_jsonc n : Ext (n ++ jsonc) = jsonc.
Proof. apply (Ext_app n (bs "jsonc")); by apply (bool_decide_unpack _). Qed.

Lemma listed_file n m : listed (n, false) = Some m ↔ n = m ++ jsonc.
Proof.
  unfold listed. cbn [fst snd]. case_bool_decide as He.
  - split; [intros [= <-]; by apply Ext_jsonc|intros ->; by rewrite TrimSuffix_app].
  - split; [done|]. intros ->. by rewrite Ext_of_jsonc in He.
Qed.

Lemma entry_of_spec dir path n : entry_of dir path = Some n ↔ path = dir ++ slash :: n ∧ n ≠ [] ∧ slash ∉ n.
Proof.
  unfold entry_of. replace (dir ++ slash :: n) with ((dir ++ [slash]) ++ n) by (by rewrite <- app_assoc).
  destruct (HasPrefix path (dir ++ [slash])) eqn:Hp.
  - apply HasPrefix_true in Hp as [q ->]. rewrite TrimPrefix_app. unfold ContainsByte.
    split.
    + destruct (_ || _) eqn:Hb; [done|]. intros [= ->]. apply orb_false_iff in Hb as [H1 H2].
      by apply bool_decide_eq_false in H1, H2.
    + intros (Heq & Hne & Hs). apply app_inv_head in Heq as ->. by rewrite !bool_decide_eq_false_2.
  - split; [done|]. intros (-> & _). by rewrite HasPrefix_app in Hp.
Qed.

Lemma NoDup_omap_inj {A B} (f : A → option B) l :
  (∀ x y b, f x = Some b → f y = Some b → x = y) → NoDup l → NoDup (omap f l).
Proof.
  intros Hf. induction 1 as [|x l Hx Hl IH]; cbn; [constructor|].
  destruct (f x) as [b|] eqn:Hb; [|done]. constructor; [|done].
  rewrite list_elem_of_omap. intros (y & Hy & Hyb). by rewrite (Hf x y b) in Hx.
Qed.

Lemma omap_pairs {A} (b : bool) (f : gostring * bool → option A) (l : list gostring) :
  omap f ((λ n, (n, b)) <$> l) = omap (λ n, f (n, b)) l.
Proof. induction l as [|x l IH]; [done|]. cbn. by rewrite <- IH. Qed.
Lemma omap_none {A B} (l : list A) : omap (λ _, None : option B) l = [].
Proof. by induction l. Qed.

(** A directory that exists is listed: the stems of its metadata files, each once. *)
Lemma listed_spec d dir :
  dir ∈ d_dirs d →
  ∃ entries, os_ReadDir no_fault d dir = Ret entries ∧ NoDup (omap listed entries) ∧
    ∀ n, n ∈ omap listed entries ↔ slash ∉ n ∧ is_Some (d_files d !! (dir ++ slash :: n ++ jsonc)).
Proof.
  intros Hd. unfold os_ReadDir. cbn [read_fails no_fault]. rewrite bool_decide_eq_false_2 by tauto.
  eexists. split; [done|].
  set (files := omap (entry_of dir) (elements (dom (d_files d)))).
  assert (omap listed (sort_by_key fst (((λ n, (n, false)) <$> files)
      ++ ((λ n, (n, true)) <$> omap (entry_of dir) (elements (d_dirs d)))))
    ≡ₚ omap (λ n, listed (n, false)) files) as Hperm.
  { rewrite sort_by_key_perm, omap_app. rewrite <- (app_nil_r (omap (λ n, _) files)). f_equiv.
    - by rewrite omap_pairs.
    - rewrite omap_pairs. cbn [listed snd]. by rewrite omap_none. }
  assert (∀ n, n ∈ files ↔ n ≠ [] ∧ slash ∉ n ∧ is_Some (d_files d !! (dir ++ slash :: n))) as Hfiles.
  { intros n. unfold files. rewrite list_elem_of_omap. split.
    - intros (p & Hp & Hn). rewrite elem_of_elements, elem_of_dom in Hp. apply entry_of_spec in Hn as (-> & ? & ?).
      by split_and!.
    - intros (Hne & Hs & Hf). exists (dir ++ slash :: n). rewrite elem_of_elements, elem_of_dom, entry_of_spec.
      by split_and!. }
  assert (NoDup files) as Hnd.
  { unfold files. apply (NoDup_omap_inj (entry_of dir)); [|apply NoDup_elements].
    intros p1 p2 n (-> & _)%entry_of_spec (-> & _)%entry_of_spec. done. }
  split.
  - rewrite Hperm. apply (NoDup_omap_inj (λ n, listed (n, false))); [|done].
    intros n1 n2 m ->%listed_file ->%listed_file. done.
  - intros n. rewrite Hperm, list_elem_of_omap. split.
    + intros (f & Hf & ->%listed_file). apply Hfiles in Hf as (_ & Hs & Hf).
      split; [|done]. intros Hin. apply Hs, elem_of_app. by left.
    + intros [Hs Hf]. exists (n ++ jsonc). split; [|by apply listed_file]. apply Hfiles.
      split; [by destruct n|]. split; [|done]. rewrite not_elem_of_app. split; [done|].
      by apply (bool_decide_unpack _).
Qed.

(** ** What a directory may come to hold *)

Lemma with_parents_length p seen rest :
  p ∈ with_parents seen rest → (length p ≤ length seen + length rest)%nat.
Proof.
  revert seen. induction rest as [|c rest IH]; intros seen; cbn [with_parents].
  { intros ->%list_elem_of_singleton. lia. }
  intros [Hp|Hp]%elem_of_app.
  - destruct (_ && _); [|by apply not_elem_of_nil in Hp]. apply list_elem_of_singleton in Hp as ->. lia.
  - apply IH in Hp. revert Hp. len_lia.
Qed.

Lemma with_parents_last seen rest : seen ++ rest ∈ with_parents seen rest.
Proof.
  revert seen. induction rest as [|c rest IH]; intros seen; cbn [with_parents].
  { rewrite app_nil_r. by apply list_elem_of_singleton. }
  apply elem_of_app. right. replace (seen ++ c :: rest) with ((seen ++ [c]) ++ rest) by (by rewrite <- app_assoc).
  apply IH.
Qed.

Section left_over.
Context `{TempNames}.

(** Writing a value changes no directory. *)
Lemma save_dirs {A ok} `{Json A ok} env d path prefix (a : A) :
  let '(_, d', _) := save env d path prefix a in d_dirs d' = d_dirs d.
Proof.
  unfold save. destruct (marshal a) as [data|]; [|done]. unfold replace_file, clean_up.
  case_bool_decide; [done|].
  destruct (write_fails env) as [[]|]; try case_bool_decide; try done; by destruct (cleanup_fails env).
Qed.

Lemma replaced_files env d path prefix data q :
  let '(_, d', _) := replace_file env d path prefix data in
  is_Some (d_files d' !! q) → is_Some (d_files d !! q) ∨ q = path ∨ q = temp_path d path prefix.
Proof.
  destruct (replace_file env d path prefix data) as [[steps d'] e] eqn:Hr.
  destruct (decide (path = temp_path d path prefix)) as [Heq|Hne].
  { unfold replace_file in Hr. rewrite <- Heq in Hr. intros Hq.
    destruct (decide (q = path)) as [->|Hq']; [by auto|]. left.
    repeat (case_bool_decide; simplify_eq; [done|] || idtac).
    destruct (write_fails env) as [[]|]; repeat case_bool_decide; simplify_eq; try done;
      revert Hq; unfold clean_up; try destruct (cleanup_fails env); cbn;
      by rewrite ?lookup_insert_ne, ?lookup_delete_ne, ?lookup_insert_ne by done. }
  apply replace_file_steps in Hr as (_ & _ & He); [|done]. intros Hq.
  destruct (decide (q = path)) as [->|Hq1]; [by auto|].
  destruct (decide (q = temp_path d path prefix)) as [->|Hq2]; [by auto|]. left.
  destruct e; [by rewrite <- He|]. by rewrite He, lookup_insert_ne in Hq.
Qed.

(** A temporary name has no stem: it ends with a digit. *)
Lemma temp_not_listed d path prefix dir n :
  temp_path d path prefix ≠ dir ++ slash :: n ++ jsonc.
Proof.
  unfold temp_path. set (p := Dir path ++ slash :: prefix). intros Heq%(f_equal last).
  pose proof (temp_digits (taken d) p) as Hd. pose proof (temp_nonempty (taken d) p) as Hne.
  destruct (temp_suffix (taken d) p) as [|c l _] using rev_ind; [done|].
  rewrite app_assoc, last_snoc in Heq.
  change (dir ++ slash :: n ++ jsonc) with (dir ++ (slash :: n) ++ bs ".json" ++ [Byte.x63]) in Heq.
  rewrite !app_assoc, last_snoc in Heq. injection Heq as ->.
  apply Forall_app in Hd as [_ Hd]. apply Forall_cons in Hd as [[x Hx] _]. vm_compute in Hx. done.
Qed.
End left_over.

(** ** Concrete instances

    A codec for any countable type and a choice of temporary names: the interfaces
    above can be kept. *)

Fixpoint pos_bits (p : positive) : list byte :=
  match p with xH => [] | xO p' => "0"%byte :: pos_bits p' | xI p' => "1"%byte :: pos_bits p' end.
Fixpoint bits_pos (l : list byte) : positive :=
  match l with
  | [] => xH
  | b :: l' => if bool_decide (b = "0"%byte) then xO (bits_pos l') else xI (bits_pos l')
  end.
Lemma bits_pos_bits p : bits_pos (pos_bits p) = p.
Proof. induction p as [p IH|p IH|]; cbn; [by rewrite IH..|done]. Qed.

#[refine] Definition countable_json {A} `{Countable A} (ok : A → Prop) : Json A ok := {|
  marshal a := Some (pos_bits (encode a));
  standardize data := Some data;
  unmarshal data := decode (bits_pos data);
|}.
Proof.
  intros a _. exists (pos_bits (encode a)), (pos_bits (encode a)). split; [done|]. split; [done|].
  by rewrite bits_pos_bits, decode_encode.
Defined.

Definition longest (names : gset gostring) : nat := foldr Nat.max 0%nat (length <$> elements names).
Lemma longest_ge names n : n ∈ names → (length n ≤ longest names)%nat.
Proof.
  intros Hn. apply elem_of_elements in Hn. unfold longest.
  induction (elements names) as [|x l IH]; [by apply not_elem_of_nil in Hn|].
  apply elem_of_cons in Hn as [->|Hn]; cbn; [lia|]. specialize (IH Hn). cbn in IH. lia.
Qed.

#[refine] Definition zero_names : TempNames := {|
  temp_suffix names p := replicate (S (longest names)) "0"%byte;
|}.
Proof.
  - intros names p Hin%longest_ge. rewrite length_app, length_replicate in Hin. lia.
  - intros names p. apply Forall_replicate. vm_compute. by eexists.
  - done.
Defined.
