(* ===== verification/FrameId.v ===== *)
(** * Frame identities ([src/frameid/frameid.go])

    A frame is named by a UUID; making, printing and parsing UUIDs is the business of
    a library, and this file says what the program relies on. *)

From Stdlib Require Import Strings.String.
From S2P Require Import Prelude GoStrings GoPath.

(** The sixteen bytes of a UUID. *)
Abbreviation ID := (list byte).

Definition Nil : ID := replicate 16 Byte.x00.
Definition IsZero (id : ID) : bool := bool_decide (id = Nil).

(** What [uuid.UUID.String] and [uuid.Parse] promise: a UUID is printed as a path
    element of hexadecimal digits and dashes, and read back. *)
Definition uuid_char (c : byte) : Prop := c ∈ bs "0123456789abcdef-".

Class UUIDs := {
  String_ : ID → gostring;
  Parse : gostring → option ID;
  Parse_String : ∀ u, length u = 16%nat → Parse (String_ u) = Some u;
  String_chars : ∀ u, length u = 16%nat → Forall uuid_char (String_ u);
  String_length : ∀ u, length u = 16%nat → length (String_ u) = 36%nat;
  Parse_length : ∀ s u, Parse s = Some u → length u = 16%nat;
}.

(** ** The usual textual form *)

Definition hex_digit (z : Z) : byte := bs "0123456789abcdef" !!! Z.to_nat z.
Definition hex_byte (b : byte) : gostring := [hex_digit (Z_of_byte b / 16); hex_digit (Z_of_byte b mod 16)].
Definition hex_value (c : byte) : option Z :=
  Z.of_nat <$> (fst <$> list_find (λ d, d = c) (bs "0123456789abcdef")).
Fixpoint unhex (s : gostring) : option (list byte) :=
  match s with
  | [] => Some []
  | a :: b :: s' =>
      x ← hex_value a; y ← hex_value b; r ← unhex s';
      Some (byte_of_Z (x * 16 + y) :: r)
  | _ => None
  end.

(** Eight digits, three groups of four, and twelve. *)
Definition group_of (u : ID) (a n : nat) : gostring := concat (hex_byte <$> take n (drop a u)).
Definition uuid_text (u : ID) : gostring :=
  let dash := bs "-" in
  group_of u 0 4 ++ dash ++ group_of u 4 2 ++ dash ++ group_of u 6 2 ++ dash ++ group_of u 8 2
    ++ dash ++ group_of u 10 6.
Definition uuid_parse (s : gostring) : option ID :=
  if (length s =? 36)%nat then
    u ← unhex (filter (λ c, c ≠ "-"%byte) s); if (length u =? 16)%nat then Some u else None
  else None.

Lemma hex_byte_dash b : filter (λ c, c ≠ "-"%byte) (hex_byte b) = hex_byte b.
Proof. by destruct b. Qed.

Lemma hex_bytes_dash l :
  filter (λ c, c ≠ "-"%byte) (concat (hex_byte <$> l)) = concat (hex_byte <$> l).
Proof.
  induction l as [|b l IH]; [done|]. rewrite fmap_cons. cbn [concat].
  by rewrite filter_app, hex_byte_dash, IH.
Qed.

Lemma unhex_hex l : unhex (concat (hex_byte <$> l)) = Some l.
Proof.
  induction l as [|b l IH]; [done|]. rewrite fmap_cons. cbn [concat].
  assert (∀ s r, unhex s = Some r → unhex (hex_byte b ++ s) = Some (b :: r)) as Hb.
  { intros s r Hs. destruct b; cbn [hex_byte app unhex]; rewrite Hs; reflexivity. }
  by apply Hb.
Qed.

Lemma length_hex l : length (concat (hex_byte <$> l)) = (2 * length l)%nat.
Proof. induction l as [|b l IH]; [done|]. rewrite fmap_cons. cbn [concat length app hex_byte]. lia. Qed.

Lemma hex_chars l : Forall uuid_char (concat (hex_byte <$> l)).
Proof.
  induction l as [|b l IH]; [apply Forall_nil_2|]. rewrite fmap_cons. cbn [concat].
  apply Forall_app_2; [|done].
  destruct b; apply (bool_decide_unpack _); vm_compute; exact I.
Qed.

Lemma length_uuid_text u : length u = 16%nat → length (uuid_text u) = 36%nat.
Proof.
  intros Hu. unfold uuid_text, group_of.
  by rewrite !length_app, !length_hex, !length_take, !length_drop, Hu.
Qed.

Lemma uuid_text_dash u :
  length u = 16%nat → filter (λ c, c ≠ "-"%byte) (uuid_text u) = concat (hex_byte <$> u).
Proof.
  intros Hu. unfold uuid_text, group_of. rewrite !filter_app, !hex_bytes_dash.
  assert (filter (λ c, c ≠ "-"%byte) (bs "-") = []) as -> by done. cbn [app].
  rewrite <- !concat_app, <- !fmap_app. do 16 (destruct u as [|? u]; [done|]). by destruct u.
Qed.

#[refine] Definition text_uuids : UUIDs := {| String_ := uuid_text; Parse := uuid_parse |}.
Proof.
  - intros u Hu. unfold uuid_parse. rewrite length_uuid_text, uuid_text_dash, unhex_hex by done. cbn. by rewrite Hu.
  - intros u Hu. unfold uuid_text, group_of.
    repeat apply Forall_app_2; try apply hex_chars; by apply (bool_decide_unpack _).
  - apply length_uuid_text.
  - intros s u. unfold uuid_parse. destruct (_ =? _)%nat; [|done]. destruct (unhex _) as [v|]; [|done]. cbn.
    destruct (Nat.eqb_spec (length v) 16); [|done]. by intros [= <-].
Defined.
