(* ===== verification/Refs.v ===== *)
(** * Refs: named pointers to frames ([src/refs/refs.go])

    One metadata file per ref under the namespace's directory. Every operation is the
    whole function of the source, on a disk with any call failing; operations that
    write also list the disks they go through, for whoever reads meanwhile. *)

From Stdlib Require Import Strings.String.
From S2P Require Import GoSort Prelude GoStrings GoPath JsonStore FrameId.

(** ** Names *)

Definition is_letter (c : byte) : bool :=
  let z := Z_of_byte c in ((65 <=? z) && (z <=? 90)) || ((97 <=? z) && (z <=? 122)).
Definition name_char (c : byte) : bool :=
  let z := Z_of_byte c in is_letter c || ((48 <=? z) && (z <=? 57)) || (z =? 95) || (z =? 45).

(** [^[A-Za-z][A-Za-z0-9_-]*$] *)
Definition validRefName (name : gostring) : bool :=
  match name with [] => false | c :: rest => is_letter c && forallb name_char rest end.

Definition ValidateName (name : gostring) : option store_error :=
  if bool_decide (name = []) then Some err_invalid
  else if (128 <? length name)%nat then Some err_invalid
  else if negb (validRefName name) then Some err_invalid
  else None.

Definition ValidateFrameName `{UUIDs} (name : gostring) : option store_error :=
  match Parse name with Some _ => None | None => ValidateName name end.

(** ** The store *)

Record ReflogEntry := MkReflogEntry { E_UUID : ID; E_Time : Z }.
Record Ref := MkRef { R_UUID : ID; Autorun : list gostring; Reflog : list ReflogEntry }.

Record Store := MkStore { stateDir : gostring; namespace : gostring }.
Definition NewStore (dir : gostring) : Store := MkStore dir [].
Definition NewNamespaceStore (dir ns : gostring) : Store := MkStore dir ns.

Definition refsDir (s : Store) : gostring :=
  if bool_decide (namespace s ≠ []) then JoinPaths [stateDir s; bs "refs"; namespace s]
  else JoinPaths [stateDir s; bs "refs"].
Definition refPath (s : Store) (name : gostring) : gostring := JoinPath (refsDir s) (name ++ jsonc).
Definition idDir (s : Store) (name : gostring) : gostring :=
  if bool_decide (namespace s ≠ []) then JoinPaths [stateDir s; bs "id"; namespace s; name]
  else JoinPaths [stateDir s; bs "id"; name].

(** What a ref must be like to survive JSON: text and times the codec takes. *)
Definition ref_ok (text_ok : gostring → Prop) (time_ok : Z → Prop) (r : Ref) : Prop :=
  Forall text_ok (Autorun r) ∧ Forall (λ e, time_ok (E_Time e)) (Reflog r).

Section store.
Context {text_ok : gostring → Prop} {time_ok : Z → Prop} `{Json Ref (ref_ok text_ok time_ok)} `{TempNames}.

(** The disks gone through, the disk at the end, and the error. *)
Abbreviation write_result := (list disk * disk * option store_error)%type.

Definition Refs_write (env : osenv) (s : Store) (d : disk) (name : gostring) (ref : Ref) : write_result :=
  save env d (refPath s name) (bs "." ++ name ++ bs ".jsonc.") ref.

Definition Create (env : osenv) (now : Z) (s : Store) (d : disk) (name : gostring) (uuid : ID) : write_result :=
  match ValidateName name with
  | Some e => ([], d, Some e)
  | None =>
      let '(d1, made) := MkdirAll env d (refsDir s) in
      if negb made then ([], d1, Some err_io)
      else
        match os_Stat env d1 (refPath s name) with
        | StatOk => ([], d1, Some err_exists)
        | _ =>
            let '(steps, d2, e) := Refs_write env s d1 name (MkRef uuid [] [MkReflogEntry uuid now]) in
            (d1 :: steps, d2, e)
        end
  end.

Definition Get (env : osenv) (s : Store) (d : disk) (name : gostring) : outcome store_error Ref :=
  match ValidateName name with
  | Some e => Err e
  | None => load env d (refPath s name)
  end.

Definition Move (env : osenv) (now : Z) (s : Store) (d : disk) (name : gostring) (newUUID : ID) : write_result :=
  match Get env s d name with
  | Ret ref => Refs_write env s d name (MkRef newUUID (Autorun ref) (MkReflogEntry newUUID now :: Reflog ref))
  | Err e => ([], d, Some e)
  | Panic => ([], d, Some err_io)
  end.

Definition Delete (env : osenv) (s : Store) (d : disk) (name : gostring) : write_result :=
  match ValidateName name with
  | Some e => ([], d, Some e)
  | None =>
      match os_Remove env d (refPath s name) with
      | (d', StatOk) => ([], d', None)
      | (d', StatNotExist) => ([], d', Some err_not_found)
      | (d', StatErr) => ([], d', Some err_io)
      end
  end.

Definition SetAutorun (env : osenv) (s : Store) (d : disk) (name : gostring) (argv : list gostring) : write_result :=
  match Get env s d name with
  | Ret ref => Refs_write env s d name (MkRef (R_UUID ref) argv (Reflog ref))
  | Err e => ([], d, Some e)
  | Panic => ([], d, Some err_io)
  end.

Definition List_ (env : osenv) (s : Store) (d : disk) : outcome store_error (list gostring) :=
  match os_ReadDir env d (refsDir s) with
  | Ret entries => Ret (omap listed entries)
  | Err err_not_found => Ret []
  | Err e => Err e
  | Panic => Panic
  end.

Definition Exists (env : osenv) (s : Store) (d : disk) (name : gostring) : bool :=
  match ValidateName name with
  | Some _ => false
  | None => match os_Stat env d (refPath s name) with StatOk => true | _ => false end
  end.

(** *** Identity directories *)

Definition IDDirExists (env : osenv) (s : Store) (d : disk) (name : gostring) : outcome store_error bool :=
  match ValidateName name with
  | Some e => Err e
  | None =>
      match os_ReadDir env d (idDir s name) with
      | Ret entries => Ret (0 <? length entries)%nat
      | Err err_not_found => Ret false
      | Err e => Err e
      | Panic => Panic
      end
  end.

Definition EnsureIDDir (env : osenv) (s : Store) (d : disk) (name : gostring) : disk * option store_error :=
  match ValidateName name with
  | Some e => (d, Some e)
  | None => let '(d', made) := MkdirAll env d (idDir s name) in (d', if made then None else Some err_io)
  end.

(** [os.RemoveAll]: the path and everything below it. *)
Definition below (path p : gostring) : Prop := p = path ∨ HasPrefix p (path ++ [slash]) = true.
#[export] Instance below_dec path p : Decision (below path p).
Proof. unfold below. apply _. Defined.
Definition RemoveAll (d : disk) (path : gostring) : disk :=
  MkDisk (filter (λ '(p, _), ¬ below path p) (d_files d)) (filter (λ p, ¬ below path p) (d_dirs d)).

Definition RemoveIDDir (env : osenv) (s : Store) (d : disk) (name : gostring) : disk * option store_error :=
  match ValidateName name with
  | Some e => (d, Some e)
  | None => if remove_fails env (idDir s name) then (d, Some err_io) else (RemoveAll d (idDir s name), None)
  end.

(** ** Running operations *)

Inductive ref_op :=
| OpCreate (name : gostring) (uuid : ID) | OpGet (name : gostring) | OpMove (name : gostring) (uuid : ID)
| OpDelete (name : gostring) | OpSetAutorun (name : gostring) (argv : list gostring) | OpExists (name : gostring).

Inductive ref_answer :=
| Done (e : option store_error) | Found (r : outcome store_error Ref) | YesNo (b : bool).

Definition op_name (op : ref_op) : gostring :=
  match op with
  | OpCreate n _ | OpGet n | OpMove n _ | OpDelete n | OpSetAutorun n _ | OpExists n => n
  end.

Definition run_op (env : osenv) (now : Z) (s : Store) (d : disk) (op : ref_op)
    : list disk * disk * ref_answer :=
  let done (r : write_result) := let '(steps, d', e) := r in (steps, d', Done e) in
  match op with
  | OpCreate name uuid => done (Create env now s d name uuid)
  | OpGet name => ([], d, Found (Get env s d name))
  | OpMove name uuid => done (Move env now s d name uuid)
  | OpDelete name => done (Delete env s d name)
  | OpSetAutorun name argv => done (SetAutorun env s d name argv)
  | OpExists name => ([], d, YesNo (Exists env s d name))
  end.

Fixpoint run_ops (s : Store) (d : disk) (ops : list (Z * ref_op)) : disk * list ref_answer :=
  match ops with
  | [] => (d, [])
  | (now, op) :: ops' =>
      let '(_, d1, a) := run_op no_fault now s d op in
      let '(d2, rest) := run_ops s d1 ops' in (d2, a :: rest)
  end.
End store.

(** ** What the store promises: a map from names to refs *)

Definition spec_valid (name : gostring) : bool := bool_decide (ValidateName name = None).

Definition spec_op (now : Z) (m : gmap gostring Ref) (op : ref_op) : gmap gostring Ref * ref_answer :=
  if negb (spec_valid (op_name op)) then
    (m, match op with
        | OpGet _ => Found (Err err_invalid) | OpExists _ => YesNo false | _ => Done (Some err_invalid)
        end)
  else
    match op, m !! op_name op with
    | OpCreate name uuid, None => (<[name := MkRef uuid [] [MkReflogEntry uuid now]]> m, Done None)
    | OpCreate _ _, Some _ => (m, Done (Some err_exists))
    | OpGet _, Some r => (m, Found (Ret r))
    | OpGet _, None => (m, Found (Err err_not_found))
    | OpMove name uuid, Some r =>
        (<[name := MkRef uuid (Autorun r) (MkReflogEntry uuid now :: Reflog r)]> m, Done None)
    | OpDelete name, Some _ => (delete name m, Done None)
    | OpSetAutorun name argv, Some r => (<[name := MkRef (R_UUID r) argv (Reflog r)]> m, Done None)
    | (OpMove _ _ | OpDelete _ | OpSetAutorun _ _), None => (m, Done (Some err_not_found))
    | OpExists _, o => (m, YesNo (bool_decide (is_Some o)))
    end.

Fixpoint spec_ops (m : gmap gostring Ref) (ops : list (Z * ref_op)) : gmap gostring Ref * list ref_answer :=
  match ops with
  | [] => (m, [])
  | (now, op) :: ops' =>
      let '(m1, a) := spec_op now m op in
      let '(m2, rest) := spec_ops m1 ops' in (m2, a :: rest)
  end.

(** ** Names make distinct files *)

Lemma valid_name name :
  ValidateName name = None → ∃ c rest, name = c :: rest ∧ is_letter c = true ∧ Forall (λ b, name_char b = true) rest.
Proof.
  unfold ValidateName. case_bool_decide; [done|]. destruct (128 <? length name)%nat; [done|].
  destruct name as [|c rest]; [done|]. cbn [validRefName].
  destruct (is_letter c && forallb name_char rest) eqn:Hv; [|done]. intros _.
  apply andb_true_iff in Hv as [Hc Hr]. exists c, rest. split; [done|]. split; [done|].
  apply Forall_forall. intros b Hb. rewrite forallb_forall in Hr. by apply Hr, list_elem_of_In.
Qed.

Lemma name_char_plain c : name_char c = true → c ≠ slash ∧ c ≠ "."%byte.
Proof. intros Hc. split; intros ->; vm_compute in Hc; done. Qed.
Lemma letter_char c : is_letter c = true → name_char c = true.
Proof. unfold name_char. by intros ->. Qed.

Lemma valid_name_plain name : ValidateName name = None → slash ∉ name ∧ "."%byte ∉ name ∧ name ≠ [].
Proof.
  intros (c & rest & -> & Hc & Hr)%valid_name. rewrite Forall_forall in Hr.
  assert (∀ x, x ∈ c :: rest → x ≠ slash ∧ x ≠ "."%byte) as Hall.
  { intros x [->|Hx]%elem_of_cons; apply name_char_plain; [by apply letter_char|by apply Hr]. }
  split_and!; [| |done]; intros Hin; by destruct (Hall _ Hin).
Qed.

Lemma file_name_proper name : slash ∉ name → name ≠ [] → proper (name ++ jsonc).
Proof.
  intros Hs Hne. assert (5 < length (name ++ jsonc))%nat as Hl.
  { rewrite length_app. destruct name; [done|]. cbn. lia. }
  split_and!; [by destruct name| | |]; [intros Heq; rewrite Heq in Hl; cbn in Hl; lia..|].
  rewrite not_elem_of_app. split; [done|]. by apply (bool_decide_unpack _).
Qed.

(** The namespace's directory has the elements [base]. *)
Record placed (s : Store) (base : list gostring) : Prop := {
  pl_dir : refsDir s = abs_path base;
  pl_proper : Forall proper base;
  pl_nonempty : base ≠ [];
}.

Lemma refs_element : proper (bs "refs").
Proof. by apply proper_name. Qed.

Lemma store_placed dir ns :
  Forall proper dir → dir ≠ [] → ns = [] ∨ proper ns →
  placed (MkStore (abs_path dir) ns) (dir ++ bs "refs" :: (if bool_decide (ns = []) then [] else [ns])).
Proof.
  intros Hd Hne Hns. pose proof refs_element as Hr.
  assert (Forall proper (bs "refs" :: (if bool_decide (ns = []) then [] else [ns]))) as Hp.
  { apply Forall_cons_2; [done|]. case_bool_decide; [apply Forall_nil_2|].
    destruct Hns; [done|]. by apply Forall_cons_2; [|apply Forall_nil_2]. }
  split; [|by apply Forall_app_2|by destruct dir].
  rewrite <- (JoinPath_proper dir) by done. unfold refsDir. cbn [namespace stateDir].
  by repeat case_bool_decide.
Qed.

Section files.
Variables (s : Store) (base : list gostring).
Hypothesis Hplaced : placed s base.

Lemma refPath_eq name : ValidateName name = None → refPath s name = abs_path (base ++ [name ++ jsonc]).
Proof.
  intros (Hs & _ & Hne)%valid_name_plain. destruct Hplaced as [Hd Hp Hb].
  unfold refPath. rewrite Hd. apply JoinPath_one; [done|by apply file_name_proper|done].
Qed.

Lemma refPath_snoc name : ValidateName name = None → refPath s name = refsDir s ++ slash :: name ++ jsonc.
Proof.
  intros Hn. rewrite refPath_eq by done. destruct Hplaced as [Hd Hp Hb]. by rewrite Hd, abs_path_snoc.
Qed.

Lemma refPath_inj n1 n2 :
  ValidateName n1 = None → ValidateName n2 = None → refPath s n1 = refPath s n2 → n1 = n2.
Proof.
  intros H1 H2. rewrite !refPath_snoc by done. intros Heq. apply app_inv_head in Heq.
  injection Heq as Heq. by apply app_inv_tail in Heq.
Qed.

Lemma refPath_dir name : ValidateName name = None → Dir (refPath s name) = refsDir s.
Proof.
  intros Hn. pose proof (valid_name_plain _ Hn) as (Hs & _ & Hne). destruct Hplaced as [Hd Hp Hb].
  rewrite refPath_eq, Hd by done. apply Dir_abs; [done|done|]. by apply file_name_proper.
Qed.

(** A temporary file is no ref's file, and has another extension. *)
Lemma temp_not_ref `{TempNames} d name name' :
  ValidateName name = None → ValidateName name' = None →
  refPath s name' ≠ temp_path d (refPath s name) (bs "." ++ name ++ bs ".jsonc.").
Proof.
  intros Hn Hn'. unfold temp_path. rewrite refPath_dir, refPath_snoc by done. rewrite <- app_assoc.
  intros Heq. apply app_inv_head in Heq. apply valid_name in Hn' as (c & rest & -> & Hc & _).
  injection Heq as -> _. vm_compute in Hc. done.
Qed.

Lemma refPath_not_parent name :
  ValidateName name = None → refPath s name ∉ (list_to_set (with_parents [] (refsDir s)) : gset gostring).
Proof.
  intros Hn. rewrite elem_of_list_to_set, refPath_snoc by done. intros Hin%with_parents_length.
  revert Hin. len_lia.
Qed.
End files.

(** ** The store is the map *)

Section store_proofs.
Context {text_ok : gostring → Prop} {time_ok : Z → Prop} `{Json Ref (ref_ok text_ok time_ok)} `{TempNames}.
Variables (s : Store) (base : list gostring).
Hypothesis Hplaced : placed s base.

Definition name_ok (n : gostring) : Prop := ValidateName n = None.

(** The disk holds the refs of [m]. *)
Definition on_disk (d : disk) (m : gmap gostring Ref) : Prop :=
  holds (ok := ref_ok text_ok time_ok) (refPath s) name_ok d m.

(** Every metadata file in the directory is some ref's. *)
Definition tidy (d : disk) : Prop :=
  ∀ n, slash ∉ n → is_Some (d_files d !! (refsDir s ++ slash :: n ++ jsonc)) → name_ok n.

Definition op_ok (op : ref_op) : Prop :=
  match op with OpSetAutorun _ argv => Forall text_ok argv | _ => True end.

(** An answer that says that it did not work. *)
Definition failed (a : ref_answer) : bool :=
  match a with
  | Done e => bool_decide (e ≠ None) | Found r => negb (is_ret r) | YesNo b => negb b
  end.

Lemma on_disk_ok d m name ref : on_disk d m → m !! name = Some ref → ref_ok text_ok time_ok ref.
Proof.
  intros [Hm Hk] Hr. assert (name_ok name) as Hn by (apply Hk; by eexists).
  destruct (Hm name Hn) as [_ Hv]. rewrite Hr in Hv. apply Hv.
Qed.

Lemma Get_any env d m name :
  on_disk d m → name_ok name →
  Get env s d name = match m !! name with Some r => Ret r | None => Err err_not_found end ∨
  Get env s d name = Err err_io ∧ env ≠ no_fault.
Proof.
  intros Hm Hn. unfold Get. rewrite Hn.
  destruct (holds_load_any _ _ env d m name Hm Hn) as [->|[-> Hf]]; [by left|right].
  split; [done|]. by intros ->.
Qed.

Lemma spec_valid_ok name : spec_valid name = bool_decide (name_ok name).
Proof. done. Qed.

(** What an operation may do: answer and change the map as promised, or report a failure
    and change nothing; meanwhile readers see the old map. *)
Definition as_promised (env : osenv) (d : disk) (m : gmap gostring Ref)
    (res : list disk * disk * ref_answer) (promise : gmap gostring Ref * ref_answer) : Prop :=
  let '(steps, d', a) := res in
  Forall (λ x, on_disk x m) steps ∧
  ((a = promise.2 ∧ on_disk d' promise.1) ∨
   (failed a = true ∧ on_disk d' m ∧ ¬ sound_disk (refsDir s) env d m)).

Lemma promised_here env d m a m' : on_disk d m → m' = m → as_promised env d m ([], d, a) (m', a).
Proof. intros Hm ->. split; [apply Forall_nil_2|by left]. Qed.

Lemma promised_io env d m a p :
  on_disk d m → failed a = true → env ≠ no_fault → as_promised env d m ([], d, a) p.
Proof. intros Hm Ha He. split; [apply Forall_nil_2|right]. split; [done|]. split; [done|]. by intros [? _]. Qed.

Lemma done_written env d m res p :
  written_as (ok := ref_ok text_ok time_ok) (refPath s) name_ok (refsDir s) env d m res p →
  as_promised env d m (let '(steps, d', e) := res in (steps, d', Done e)) (p.1, Done p.2).
Proof.
  destruct res as [[steps d'] e]. intros (Hsteps & [[-> Hm]|(He & Hm & Hno)]); (split; [done|]).
  - by left.
  - right. split; [|done]. cbn. by apply bool_decide_eq_true_2.
Qed.

Definition ref_prefix (name : gostring) : gostring := bs "." ++ name ++ bs ".jsonc.".

(** The laws of the generic store. *)
Local Ltac store_laws :=
  first [by apply (refPath_inj s base Hplaced) | by apply (refPath_dir s base Hplaced)
        | (intros; by apply (temp_not_ref s base Hplaced))].

Lemma update_promised env d m name (f : Ref → Ref) :
  on_disk d m → name_ok name → (∀ r, ref_ok text_ok time_ok r → ref_ok text_ok time_ok (f r)) →
  as_promised env d m
    (let '(steps, d', e) := match Get env s d name with
       | Ret ref => Refs_write env s d name (f ref)
       | Err e => ([], d, Some e)
       | Panic => ([], d, Some err_io)
       end in (steps, d', Done e))
    (match m !! name with
     | Some r => (<[name := f r]> m, Done None) | None => (m, Done (Some err_not_found))
     end).
Proof.
  intros Hm Hn Hf. unfold Get. rewrite Hn.
  pose proof (update_written (refPath s) ref_prefix name_ok (refsDir s) ltac:(store_laws) ltac:(store_laws)
    ltac:(store_laws) env d m name f Hm Hn Hf) as Hw%done_written.
  by destruct (m !! name).
Qed.

Lemma create_promised env now d m name uuid :
  on_disk d m → name_ok name → time_ok now → stat_fails env (refPath s name) = false →
  as_promised env d m (run_op env now s d (OpCreate name uuid)) (spec_op now m (OpCreate name uuid)).
Proof.
  intros Hm Hn Hnow Hstat. unfold spec_op. rewrite spec_valid_ok, bool_decide_eq_true_2 by done.
  cbn [negb op_name run_op]. unfold Create. rewrite Hn.
  assert (ref_ok text_ok time_ok (MkRef uuid [] [MkReflogEntry uuid now])) as Hr.
  { split; [apply Forall_nil_2|]. by apply Forall_cons_2; [|apply Forall_nil_2]. }
  pose proof (create_written (refPath s) ref_prefix name_ok (refsDir s) ltac:(store_laws) ltac:(store_laws)
    ltac:(store_laws) env d m name _ Hm Hn Hr Hstat ltac:(intros; by apply (refPath_not_parent s base))
    (with_parents_last [] (refsDir s))) as Hw%done_written.
  by destruct (m !! name).
Qed.

Lemma delete_promised env now d m name :
  on_disk d m → name_ok name →
  as_promised env d m (run_op env now s d (OpDelete name)) (spec_op now m (OpDelete name)).
Proof.
  intros Hm Hn. unfold spec_op. rewrite spec_valid_ok, bool_decide_eq_true_2 by done.
  cbn [negb op_name run_op]. unfold Delete. rewrite Hn.
  pose proof (remove_written (refPath s) name_ok (refsDir s) ltac:(store_laws) env d m name Hm Hn)
    as Hw%done_written.
  by destruct (m !! name).
Qed.

(** Every operation. *)
Lemma run_op_promised env now d m op :
  on_disk d m → op_ok op → time_ok now → stat_fails env (refPath s (op_name op)) = false →
  as_promised env d m (run_op env now s d op) (spec_op now m op).
Proof.
  intros Hm Hop Hnow Hstat. destruct (decide (name_ok (op_name op))) as [Hn|Hn]; last first.
  { unfold spec_op. rewrite spec_valid_ok, bool_decide_eq_false_2 by done. cbn [negb].
    assert (ValidateName (op_name op) = Some err_invalid) as Hv.
    { unfold name_ok in Hn. revert Hn. unfold ValidateName. by repeat case_match. }
    destruct op; cbn [run_op op_name] in *; unfold Create, Move, Delete, SetAutorun, Exists, Get; rewrite Hv;
      by apply promised_here. }
  destruct op as [name uuid|name|name uuid|name|name argv|name]; cbn [op_name] in *;
    [by apply create_promised| | |by apply delete_promised| |];
    unfold spec_op; rewrite spec_valid_ok, bool_decide_eq_true_2 by done; cbn [negb op_name run_op].
  - destruct (Get_any env d m name Hm Hn) as [->|[-> He]]; [|by apply promised_io].
    destruct (m !! name); by apply promised_here.
  - apply (update_promised env d m name (λ r, MkRef uuid (Autorun r) (MkReflogEntry uuid now :: Reflog r)));
      [done|done|]. intros r [H1 H2]. split; [done|]. by apply Forall_cons_2.
  - apply (update_promised env d m name (λ r, MkRef (R_UUID r) argv (Reflog r))); [done|done|].
    intros r [H1 H2]. by split.
  - unfold Exists, os_Stat. rewrite Hn, Hstat. pose proof (holds_taken _ _ d m name Hm Hn) as Ht.
    rewrite (bool_decide_ext _ _ Ht). case_bool_decide; by apply promised_here.
Qed.

(** *** The directory holds no other metadata file *)

(** An operation adds no other file than its ref's, up to a temporary one. *)
Lemma run_op_files env now d op q :
  let '(_, d', _) := run_op env now s d op in
  is_Some (d_files d' !! q) → is_Some (d_files d !! q) ∨
    (name_ok (op_name op) ∧ (q = refPath s (op_name op) ∨ ∃ d0 p, q = temp_path d0 (refPath s (op_name op)) p)).
Proof.
  assert (∀ d0 name r, name_ok name → let '(_, d', _) := Refs_write env s d0 name r in
    is_Some (d_files d' !! q) → is_Some (d_files d0 !! q) ∨
      (name_ok name ∧ (q = refPath s name ∨ ∃ d0 p, q = temp_path d0 (refPath s name) p))) as Hw.
  { intros d0 name r Hn. unfold Refs_write, save. destruct (marshal r) as [data|]; [|by left].
    pose proof (replaced_files env d0 (refPath s name) (bs "." ++ name ++ bs ".jsonc.") data q) as Hr.
    destruct (replace_file _ _ _ _ _) as [[steps d'] e]. intros [Hq|[Hq|Hq]]%Hr; eauto 10. }
  unfold name_ok in *.
  destruct op as [name uuid|name|name uuid|name|name argv|name]; cbn [run_op op_name]; try by left.
  - unfold Create. destruct (ValidateName name) eqn:Hn; [by left|]. unfold MkdirAll.
    destruct (mkdir_fails _ _); cbn [negb]; [by left|].
    destruct (os_Stat _ _ _); [by left|..]; specialize (Hw (MkDisk (d_files d)
      (list_to_set (with_parents [] (refsDir s)) ∪ d_dirs d)) name (MkRef uuid [] [MkReflogEntry uuid now]) Hn);
      rewrite Hn in Hw;
      destruct (Refs_write _ _ _ _ _) as [[steps d'] e]; exact Hw.
  - unfold Move, Get. destruct (ValidateName name) eqn:Hn; [by left|].
    destruct (load _ _ _) as [r|e|]; [|by left..].
    specialize (Hw d name (MkRef uuid (Autorun r) (MkReflogEntry uuid now :: Reflog r)) Hn). rewrite Hn in Hw.
    by destruct (Refs_write _ _ _ _ _) as [[steps d'] e].
  - unfold Delete, os_Remove. destruct (ValidateName name) eqn:Hn; [by left|].
    destruct (remove_fails _ _); [by left|]. destruct (d_files d !! refPath s name); [|case_bool_decide; by left].
    cbn [d_files]. intros [x [_ Hx]%lookup_delete_Some]. left. by eexists.
  - unfold SetAutorun, Get. destruct (ValidateName name) eqn:Hn; [by left|].
    destruct (load _ _ _) as [r|e|]; [|by left..].
    specialize (Hw d name (MkRef (R_UUID r) argv (Reflog r)) Hn). rewrite Hn in Hw.
    by destruct (Refs_write _ _ _ _ _) as [[steps d'] e].
Qed.

Lemma run_op_tidy env now d op :
  tidy d → let '(_, d', _) := run_op env now s d op in tidy d'.
Proof.
  intros Ht. pose proof (run_op_files env now d op) as Hf.
  destruct (run_op env now s d op) as [[steps d'] a]. intros n Hs [Hq|(Hn & [Hq|(d0 & p & Hq)])]%Hf.
  - by apply Ht.
  - rewrite (refPath_snoc s base) in Hq by done. apply app_inv_head in Hq. injection Hq as Hq.
    by apply app_inv_tail in Hq as ->.
  - symmetry in Hq. by apply temp_not_listed in Hq.
Qed.

(** The names of a tidy directory are those of the map. *)
Lemma List_names d m :
  on_disk d m → tidy d → (m ≠ ∅ → refsDir s ∈ d_dirs d) →
  ∃ names, List_ no_fault s d = Ret names ∧ NoDup names ∧ ∀ n, n ∈ names ↔ is_Some (m !! n).
Proof.
  intros Hm Ht Hd. unfold List_. destruct (decide (refsDir s ∈ d_dirs d)) as [Hin|Hin].
  - destruct (listed_spec d (refsDir s) Hin) as (entries & -> & Hnd & Hl). eexists. split; [done|].
    split; [done|]. intros n. rewrite Hl. split.
    + intros [Hs Hf]. pose proof (Ht n Hs Hf) as Hn. pose proof (proj1 Hm n Hn) as [_ Hv].
      rewrite (refPath_snoc s base) in Hv by done. destruct (m !! n); [by eexists|]. rewrite Hv in Hf. by destruct Hf.
    + intros [r Hr]. assert (name_ok n) as Hn by (apply Hm; by eexists).
      split; [by apply valid_name_plain|]. pose proof (proj1 Hm n Hn) as [_ Hv]. rewrite Hr in Hv.
      destruct Hv as (_ & data & std & Hf & _). rewrite (refPath_snoc s base) in Hf by done. by eexists.
  - unfold os_ReadDir. cbn [read_fails no_fault]. rewrite bool_decide_eq_true_2 by done.
    exists []. split; [done|]. split; [constructor|]. intros n.
    assert (m = ∅) as -> by (destruct (decide (m = ∅)) as [|Hne]; [done|by destruct (Hin (Hd Hne))]).
    rewrite lookup_empty. split; [by intros ?%not_elem_of_nil|by intros [? ?]].
Qed.

(** The directory exists once there is a ref. *)
Lemma write_dirs env d name r : let '(_, d', _) := Refs_write env s d name r in d_dirs d' = d_dirs d.
Proof. apply save_dirs. Qed.

Lemma run_op_dirs env now d op : let '(_, d', _) := run_op env now s d op in d_dirs d ⊆ d_dirs d'.
Proof.
  assert (∀ d0 name r, let '(_, d', _) := Refs_write env s d0 name r in d_dirs d0 ⊆ d_dirs d') as Hw.
  { intros d0 name r. pose proof (write_dirs env d0 name r) as Hd.
    destruct (Refs_write _ _ _ _ _) as [[? ?] ?]. by rewrite Hd. }
  destruct op as [name uuid|name|name uuid|name|name argv|name]; cbn [run_op]; try done.
  - unfold Create, MkdirAll. destruct (ValidateName name); [done|]. destruct (mkdir_fails _ _); cbn [negb]; [done|].
    destruct (os_Stat _ _ _); [cbn; set_solver|..];
      specialize (Hw (MkDisk (d_files d) (list_to_set (with_parents [] (refsDir s)) ∪ d_dirs d)) name
        (MkRef uuid [] [MkReflogEntry uuid now]));
      destruct (Refs_write _ _ _ _ _) as [[? ?] ?]; cbn [d_dirs] in Hw; set_solver.
  - unfold Move. destruct (Get _ _ _ _) as [r| |]; [|done..]. specialize (Hw d name
      (MkRef uuid (Autorun r) (MkReflogEntry uuid now :: Reflog r))).
    by destruct (Refs_write _ _ _ _ _) as [[? ?] ?].
  - unfold Delete, os_Remove. destruct (ValidateName name); [done|]. destruct (remove_fails _ _); [done|].
    destruct (d_files d !! _); [done|]. by case_bool_decide.
  - unfold SetAutorun. destruct (Get _ _ _ _) as [r| |]; [|done..].
    specialize (Hw d name (MkRef (R_UUID r) argv (Reflog r))). by destruct (Refs_write _ _ _ _ _) as [[? ?] ?].
Qed.

Lemma run_op_dir now d m op :
  (m ≠ ∅ → refsDir s ∈ d_dirs d) →
  let '(_, d', _) := run_op no_fault now s d op in (spec_op now m op).1 ≠ ∅ → refsDir s ∈ d_dirs d'.
Proof.
  intros Hd. pose proof (run_op_dirs no_fault now d op) as Hmono.
  destruct (decide (m = ∅)) as [->|Hne].
  2: { destruct (run_op _ _ _ _ _) as [[? d'] ?]. intros _. apply Hmono. by apply Hd. }
  destruct op as [name uuid|name|name uuid|name|name argv|name];
    try (destruct (run_op _ _ _ _ _) as [[? d'] ?]; unfold spec_op; cbn [op_name]; rewrite lookup_empty;
         by destruct (negb _)).
  cbn [run_op] in *. unfold spec_op. cbn [op_name]. rewrite spec_valid_ok. unfold Create in *.
  unfold name_ok. destruct (ValidateName name) eqn:Hn.
  { by rewrite bool_decide_eq_false_2. }
  unfold MkdirAll in *. cbn [mkdir_fails no_fault negb] in *.
  set (d1 := MkDisk _ _) in *. assert (refsDir s ∈ d_dirs d1) as Hin.
  { cbn [d_dirs d1]. apply elem_of_union_l, elem_of_list_to_set, (with_parents_last [] (refsDir s)). }
  destruct (os_Stat _ _ _); [by intros _|..];
    pose proof (write_dirs no_fault d1 name (MkRef uuid [] [MkReflogEntry uuid now])) as Hw;
    destruct (Refs_write _ _ _ _ _) as [[? ?] ?]; intros _; by rewrite Hw.
Qed.

(** *** Sequences of operations *)

Record store_inv (d : disk) (m : gmap gostring Ref) : Prop := {
  inv_map : on_disk d m;
  inv_tidy : tidy d;
  inv_dir : m ≠ ∅ → refsDir s ∈ d_dirs d;
}.

Lemma run_op_inv now d m op :
  store_inv d m → op_ok op → time_ok now →
  let '(_, d', a) := run_op no_fault now s d op in
  a = (spec_op now m op).2 ∧ store_inv d' (spec_op now m op).1.
Proof.
  intros [Hm Ht Hd] Hop Hnow. pose proof (run_op_promised no_fault now d m op Hm Hop Hnow eq_refl) as Hp.
  pose proof (run_op_tidy no_fault now d op Ht) as Ht'. pose proof (run_op_dir now d m op Hd) as Hd'.
  destruct (run_op no_fault now s d op) as [[steps d'] a]. destruct Hp as (_ & [[-> Hm']|(_ & _ & Hno)]).
  - split; [done|]. split; [done|exact Ht'|exact Hd'].
  - destruct Hno. by split.
Qed.

Lemma run_ops_inv ops : ∀ d m,
  store_inv d m → Forall (λ '(now, op), time_ok now ∧ op_ok op) ops →
  (run_ops s d ops).2 = (spec_ops m ops).2 ∧ store_inv (run_ops s d ops).1 (spec_ops m ops).1.
Proof.
  induction ops as [|[now op] ops IH]; intros d m Hi Hops; [by split|].
  apply Forall_cons in Hops as [[Hnow Hop] Hops]. cbn [run_ops spec_ops].
  pose proof (run_op_inv now d m op Hi Hop Hnow) as Hone.
  destruct (run_op no_fault now s d op) as [[steps d1] a]. destruct (spec_op now m op) as [m1 a'].
  destruct Hone as [-> Hi1]. destruct (IH d1 m1 Hi1 Hops) as [Ha Hi2].
  destruct (run_ops s d1 ops) as [d2 as1]. destruct (spec_ops m1 ops) as [m2 as2]. cbn [fst snd] in *.
  by rewrite Ha.
Qed.
End store_proofs.

(** The newest entry of a ref's log is where the ref points. *)
Definition logged_ref (r : Ref) : Prop := head (E_UUID <$> Reflog r) = Some (R_UUID r).

Lemma spec_op_logged now m op :
  map_Forall (λ _, logged_ref) m → map_Forall (λ _, logged_ref) (spec_op now m op).1.
Proof.
  intros Hm. unfold spec_op. destruct (negb _); [done|].
  destruct op as [name uuid|name|name uuid|name|name argv|name]; cbn [op_name];
    destruct (m !! name) as [r|] eqn:Hr; try done; cbn [fst].
  - by apply map_Forall_insert_2.
  - by apply map_Forall_insert_2.
  - by apply map_Forall_delete.
  - apply map_Forall_insert_2; [|done]. exact (Hm name r Hr).
Qed.

Lemma spec_ops_logged ops : ∀ m,
  map_Forall (λ _, logged_ref) m → map_Forall (λ _, logged_ref) (spec_ops m ops).1.
Proof.
  induction ops as [|[now op] ops IH]; intros m Hm; [done|]. cbn [spec_ops].
  pose proof (spec_op_logged now m op Hm) as H1. destruct (spec_op now m op) as [m1 a].
  specialize (IH m1 H1). by destruct (spec_ops m1 ops).
Qed.

(** the ref store is a map from names to refs. Starting from an empty disk, any
    sequence of operations in a namespace answers exactly as the map does and leaves a
    disk that holds it; listing gives the map's names, each once; and every ref points
    where the newest entry of its log says. *)
Theorem refs_store_is_map {text_ok time_ok} `{Json Ref (ref_ok text_ok time_ok)} `{TempNames}
    (dir : list gostring) (ns : gostring) (ops : list (Z * ref_op)) :
  Forall proper dir → dir ≠ [] → ns = [] ∨ proper ns →
  Forall (λ '(now, op), time_ok now ∧ op_ok (text_ok := text_ok) op) ops →
  let s := NewNamespaceStore (abs_path dir) ns in
  let '(d, answers) := run_ops s (MkDisk ∅ ∅) ops in
  let '(m, expected) := spec_ops ∅ ops in
  answers = expected ∧
  (∀ name, ValidateName name = None →
     Get no_fault s d name = match m !! name with Some r => Ret r | None => Err err_not_found end) ∧
  (∃ names, List_ no_fault s d = Ret names ∧ NoDup names ∧ ∀ n, n ∈ names ↔ is_Some (m !! n)) ∧
  map_Forall (λ _, logged_ref) m.
Proof.
  intros Hd Hne Hns Hops s. pose proof (store_placed dir ns Hd Hne Hns) as Hpl. fold s in Hpl.
  assert (store_inv (text_ok := text_ok) (time_ok := time_ok) s (MkDisk ∅ ∅) ∅) as Hi.
  { split; [split|..].
    - intros k _. rewrite !lookup_empty. split; [|done]. cbn. set_solver.
    - intros k [x Hx]. by rewrite lookup_empty in Hx.
    - intros n _ [x Hx]. cbn in Hx. by rewrite lookup_empty in Hx.
    - done. }
  destruct (run_ops_inv s _ Hpl ops _ _ Hi Hops) as [Ha Hi']. pose proof (spec_ops_logged ops ∅ (map_Forall_empty _)) as Hl.
  destruct (run_ops s (MkDisk ∅ ∅) ops) as [d answers]. destruct (spec_ops ∅ ops) as [m expected].
  cbn [fst snd] in *. destruct Hi' as [Hm Ht Hdir]. split; [done|]. split; [|split; [|done]].
  - intros name Hn. destruct (Get_any s no_fault d m name Hm Hn) as [Hg|[_ Hno]]; [exact Hg|done].
  - by apply (List_names s _ Hpl d m).
Qed.

(** no ref is torn. Whatever call fails during an operation, everybody who reads while
    it runs sees the refs of before; after it they are those the operation promises, or it
    reports a failure and they are those of before. Only the status call that [Create]
    and [Exists] make must not fail. *)
Theorem refs_never_torn {text_ok time_ok} `{Json Ref (ref_ok text_ok time_ok)} `{TempNames}
    (env : osenv) (now : Z) (s : Store) (base : list gostring) (d : disk) (m : gmap gostring Ref) (op : ref_op) :
  placed s base → on_disk (text_ok := text_ok) (time_ok := time_ok) s d m →
  op_ok (text_ok := text_ok) op → time_ok now → stat_fails env (refPath s (op_name op)) = false →
  let '(steps, d', a) := run_op env now s d op in
  Forall (λ x, on_disk (text_ok := text_ok) (time_ok := time_ok) s x m) steps ∧
  ((a = (spec_op now m op).2 ∧ on_disk (text_ok := text_ok) (time_ok := time_ok) s d' (spec_op now m op).1) ∨
   (failed a = true ∧ on_disk (text_ok := text_ok) (time_ok := time_ok) s d' m)).
Proof.
  intros Hpl Hm Hop Hnow Hs. pose proof (run_op_promised s base Hpl env now d m op Hm Hop Hnow Hs) as Hp.
  destruct (run_op env now s d op) as [[steps d'] a]. destruct Hp as (Hsteps & [?|(? & ? & _)]); auto.
Qed.

(** ** Concrete instances *)

#[export] Instance reflog_eq_dec : EqDecision ReflogEntry.
Proof. solve_decision. Defined.
#[export] Instance reflog_countable : Countable ReflogEntry.
Proof. apply (inj_countable' (λ e, (E_UUID e, E_Time e)) (λ '(u, t), MkReflogEntry u t)). by intros []. Defined.
#[export] Instance ref_eq_dec : EqDecision Ref.
Proof. solve_decision. Defined.
#[export] Instance ref_countable : Countable Ref.
Proof.
  apply (inj_countable' (λ r, (R_UUID r, Autorun r, Reflog r)) (λ '(u, a, l), MkRef u a l)). by intros [].
Defined.

Definition example_ids (b : byte) : ID := replicate 16 b.
Definition example_ops : list (Z * ref_op) :=
  [(1, OpCreate (bs "main") (example_ids Byte.x01)); (2, OpMove (bs "main") (example_ids Byte.x02));
   (3, OpCreate (bs "main") (example_ids Byte.x03)); (4, OpCreate (bs "../x") (example_ids Byte.x03));
   (5, OpCreate (bs "old") (example_ids Byte.x04)); (6, OpDelete (bs "old")); (7, OpDelete (bs "old"))].

Lemma example_refs_spec : (spec_ops ∅ example_ops).2
  = [Done None; Done None; Done (Some err_exists); Done (Some err_invalid); Done None; Done None;
     Done (Some err_not_found)].
Proof. vm_compute. reflexivity. Qed.

Lemma refs_store_is_map_witness :
  let json := countable_json (ref_ok (λ _, True) (λ _, True)) in
  let temp := zero_names in
  let s := NewNamespaceStore (abs_path [bs "data"]) (bs "alice@example.com") in
  let '(d, answers) := run_ops s (MkDisk ∅ ∅) example_ops in
  let '(m, expected) := spec_ops ∅ example_ops in
  answers = expected ∧
  (∀ name, ValidateName name = None →
     Get no_fault s d name = match m !! name with Some r => Ret r | None => Err err_not_found end) ∧
  (∃ names, List_ no_fault s d = Ret names ∧ NoDup names ∧ ∀ n, n ∈ names ↔ is_Some (m !! n)) ∧
  map_Forall (λ _, logged_ref) m.
Proof.
  intros json temp.
  apply (refs_store_is_map (text_ok := λ _, True) (time_ok := λ _, True) [bs "data"] (bs "alice@example.com") example_ops).
  - apply Forall_cons_2; [by apply proper_name|apply Forall_nil_2].
  - discriminate.
  - right. by apply proper_name.
  - repeat apply Forall_cons_2; try apply Forall_nil_2; by split.
Defined.

Lemma refs_never_torn_witness :
  let json := countable_json (ref_ok (λ _, True) (λ _, True)) in
  let temp := zero_names in
  let s := NewStore (abs_path [bs "data"]) in
  let full := MkOs (λ _, false) (λ _, false) (λ _, false) (λ _, false) (Some (AtWrite 3)) true in
  let op := OpCreate (bs "main") (example_ids Byte.x01) in
  let '(steps, d', a) := run_op full 1 s (MkDisk ∅ ∅) op in
  Forall (λ x, on_disk (text_ok := λ _, True) (time_ok := λ _, True) s x ∅) steps ∧
  ((a = (spec_op 1 ∅ op).2 ∧ on_disk (text_ok := λ _, True) (time_ok := λ _, True) s d' (spec_op 1 ∅ op).1) ∨
   (failed a = true ∧ on_disk (text_ok := λ _, True) (time_ok := λ _, True) s d' ∅)).
Proof.
  intros json temp s full op.
  apply (refs_never_torn (text_ok := λ _, True) (time_ok := λ _, True) full 1 s [bs "data"; bs "refs"] (MkDisk ∅ ∅) ∅ op).
  - apply (store_placed [bs "data"] []); [|discriminate|by left].
    apply Forall_cons_2; [by apply proper_name|apply Forall_nil_2].
  - split; [|intros k [x Hx]; by rewrite lookup_empty in Hx].
    intros k _. rewrite !lookup_empty. split; [apply not_elem_of_empty|done].
  - exact I.
  - exact I.
  - reflexivity.
Defined.

(** ** What the checks miss *)

(** A UUID whose first digit is a letter is a valid ref name: the two name spaces are not
    disjoint. *)
Lemma uuid_is_ref_name :
  let ids := text_uuids in
  let name := String_ (example_ids Byte.xab) in
  Parse name = Some (example_ids Byte.xab) ∧ ValidateName name = None.
Proof. vm_compute. by split. Qed.

(** When the status call fails, [Create] takes the ref for missing and replaces it. *)
Lemma create_replaces_on_stat_error {text_ok time_ok} `{Json Ref (ref_ok text_ok time_ok)} `{TempNames}
    s base d m name uuid now :
  placed s base → on_disk (text_ok := text_ok) (time_ok := time_ok) s d m → name_ok name → time_ok now →
  let env := MkOs (λ _, false) (λ _, true) (λ _, false) (λ _, false) None false in
  ∃ steps d', Create env now s d name uuid = (steps, d', None) ∧
    on_disk (text_ok := text_ok) (time_ok := time_ok) s d' (<[name := MkRef uuid [] [MkReflogEntry uuid now]]> m).
Proof.
  intros Hpl Hm Hn Ht env. unfold Create. rewrite Hn. unfold MkdirAll. cbn [mkdir_fails env negb].
  set (d1 := MkDisk _ _). unfold os_Stat. cbn [stat_fails env].
  assert (on_disk (text_ok := text_ok) (time_ok := time_ok) s d1 m) as Hm1.
  { apply (holds_dirs _ _ d); [done|]. intros k Hk. by apply (refPath_not_parent s base). }
  assert (ref_ok text_ok time_ok (MkRef uuid [] [MkReflogEntry uuid now])) as Hr.
  { split; [apply Forall_nil_2|]. by apply Forall_cons_2; [|apply Forall_nil_2]. }
  destruct (Refs_write env s d1 name (MkRef uuid [] [MkReflogEntry uuid now])) as [[steps d'] e] eqn:Hw.
  assert (e = None) as ->.
  { unfold Refs_write, save in Hw. destruct (json_law _ Hr) as (data & std & Hd & _).
    rewrite Hd in Hw. unfold replace_file in Hw. cbn [write_fails env] in Hw.
    rewrite bool_decide_eq_false_2 in Hw.
    2: { intros Hno. apply Hno. rewrite (refPath_dir s base) by done. cbn [d_dirs d1].
         apply elem_of_union_l, elem_of_list_to_set, (with_parents_last [] (refsDir s)). }
    rewrite bool_decide_eq_false_2 in Hw by (by apply Hm1). by injection Hw as _ _ <-. }
  apply (save_holds (refPath s) ref_prefix name_ok (refsDir s)) with (m := m) in Hw as (_ & _ & He);
    [by eauto|by apply (refPath_inj s base)|by apply (refPath_dir s base)| |done..].
  intros. by apply (temp_not_ref s base).
Qed.
