(* ===== verification/Frames.v ===== *)
(** * Frame metadata ([src/frames/frames.go], [src/cmd/thundersnapd/metadata.go])

    The store of frame metadata, keyed by UUID, and the operations on taints. Times are
    nanoseconds since Go's zero time. *)

From Stdlib Require Import Strings.String.
From S2P Require Import GoSort Prelude GoStrings GoPath JsonStore FrameId.

(** ** Frames *)

Record HistoryEntry := MkHistory { H_Snap : gostring; H_Time : Z; H_Message : gostring }.
Record Frame := MkFrame {
  Rootfs : gostring;
  F_Home : gostring;
  Work : gostring;
  Taints : list gostring;
  Isolation : gostring;
  History : list HistoryEntry;
  CreatedAt : Z;
}.

Definition set_taints (f : Frame) (ts : list gostring) : Frame :=
  MkFrame (Rootfs f) (F_Home f) (Work f) ts (Isolation f) (History f) (CreatedAt f).
Definition set_history (f : Frame) (h : list HistoryEntry) : Frame :=
  MkFrame (Rootfs f) (F_Home f) (Work f) (Taints f) (Isolation f) h (CreatedAt f).
Definition set_created (f : Frame) (t : Z) : Frame :=
  MkFrame (Rootfs f) (F_Home f) (Work f) (Taints f) (Isolation f) (History f) t.

Definition frame_ok (text_ok : gostring → Prop) (time_ok : Z → Prop) (f : Frame) : Prop :=
  text_ok (Rootfs f) ∧ text_ok (F_Home f) ∧ text_ok (Work f) ∧ Forall text_ok (Taints f) ∧
  text_ok (Isolation f) ∧ time_ok (CreatedAt f) ∧
  Forall (λ h, text_ok (H_Snap h) ∧ time_ok (H_Time h) ∧ text_ok (H_Message h)) (History f).

(** ** The store *)

Record Store := MkStore { stateDir : gostring; namespace : gostring }.
Definition NewStore (dir : gostring) : Store := MkStore dir [].
Definition NewNamespaceStore (dir ns : gostring) : Store := MkStore dir ns.

Definition fsDir (s : Store) : gostring :=
  if bool_decide (namespace s ≠ []) then JoinPaths [stateDir s; bs "fs"; namespace s]
  else JoinPaths [stateDir s; bs "fs"].

Section store.
Context `{UUIDs} `{TempNames} {text_ok : gostring → Prop} {time_ok : Z → Prop}
  `{Json Frame (frame_ok text_ok time_ok)}.

Definition framePath (s : Store) (uuid : ID) : gostring := JoinPath (fsDir s) (String_ uuid).
Definition metaPath (s : Store) (uuid : ID) : gostring := JoinPath (fsDir s) (String_ uuid ++ jsonc).

(** The disks gone through, the disk at the end, and the error. *)
Abbreviation write_result := (list disk * disk * option store_error)%type.

Definition Frames_write (env : osenv) (s : Store) (d : disk) (uuid : ID) (frame : Frame) : write_result :=
  save env d (metaPath s uuid) (bs "." ++ String_ uuid ++ bs ".jsonc.") frame.

(** [Create]; the caller's frame gets the creation time, too. *)
Definition Create (env : osenv) (now : Z) (s : Store) (d : disk) (uuid : ID) (frame : Frame) : write_result :=
  if IsZero uuid then ([], d, Some err_nil_uuid)
  else
    let '(d1, made) := MkdirAll env d (fsDir s) in
    if negb made then ([], d1, Some err_io)
    else
      match os_Stat env d1 (metaPath s uuid) with
      | StatOk => ([], d1, Some err_exists)
      | _ =>
          let frame := if CreatedAt frame =? 0 then set_created frame now else frame in
          let '(steps, d2, e) := Frames_write env s d1 uuid frame in (d1 :: steps, d2, e)
      end.

Definition Get (env : osenv) (s : Store) (d : disk) (uuid : ID) : outcome store_error Frame :=
  load env d (metaPath s uuid).

Definition Update (env : osenv) (s : Store) (d : disk) (uuid : ID) (frame : Frame) : write_result :=
  match os_Stat env d (metaPath s uuid) with
  | StatOk => Frames_write env s d uuid frame
  | StatNotExist => ([], d, Some err_not_found)
  | StatErr => ([], d, Some err_io)
  end.

Definition Delete (env : osenv) (s : Store) (d : disk) (uuid : ID) : write_result :=
  match os_Remove env d (metaPath s uuid) with
  | (d', StatOk) => ([], d', None)
  | (d', StatNotExist) => ([], d', Some err_not_found)
  | (d', StatErr) => ([], d', Some err_io)
  end.

Definition AddHistoryEntry (env : osenv) (now : Z) (s : Store) (d : disk) (uuid : ID) (snap message : gostring)
    : write_result :=
  match Get env s d uuid with
  | Ret frame => Frames_write env s d uuid (set_history frame (MkHistory snap now message :: History frame))
  | Err e => ([], d, Some e)
  | Panic => ([], d, Some err_io)
  end.

(** [sort.Strings]. *)
Definition sort_strings (l : list gostring) : list gostring := sort_by_key id l.

Definition AddTaint (env : osenv) (s : Store) (d : disk) (uuid : ID) (taint : gostring) : write_result :=
  match Get env s d uuid with
  | Ret frame =>
      if bool_decide (taint ∈ Taints frame) then ([], d, None)
      else Frames_write env s d uuid (set_taints frame (sort_strings (Taints frame ++ [taint])))
  | Err e => ([], d, Some e)
  | Panic => ([], d, Some err_io)
  end.

Definition List_ (env : osenv) (s : Store) (d : disk) : outcome store_error (list ID) :=
  match os_ReadDir env d (fsDir s) with
  | Ret entries => Ret (omap Parse (omap listed entries))
  | Err err_not_found => Ret []
  | Err e => Err e
  | Panic => Panic
  end.

Definition Exists (env : osenv) (s : Store) (d : disk) (uuid : ID) : bool :=
  match os_Stat env d (metaPath s uuid) with StatOk => true | _ => false end.
End store.

(** ** Taints *)

(** A Go map used as a set, iterated in any order and then sorted: the order of the
    iteration is [elements]'s here, and does not matter. *)
Definition UnionTaints (sets : list (list gostring)) : list gostring :=
  let seen := list_to_set (concat sets) : gset gostring in
  if bool_decide (seen = ∅) then [] else sort_strings (elements seen).

Definition IntersectTaints (a b : list gostring) : list gostring :=
  if bool_decide (a = []) || bool_decide (b = []) then []
  else
    let setB := list_to_set b : gset gostring in
    sort_strings (filter (λ t, t ∈ setB) a).

Fixpoint same_taints (a b : list gostring) : bool :=
  match a, b with
  | x :: a', y :: b' => if bool_decide (x = y) then same_taints a' b' else false
  | _, _ => true
  end.
Definition taintsEqual (a b : list gostring) : bool :=
  if negb (length a =? length b)%nat then false else same_taints a b.

(** ** Metadata of snaps ([metadata.go]) *)

Record SnapSource := MkSource { S_Type : gostring; S_Ref : gostring }.
Record SnapMeta := MkSnapMeta { Parent : gostring; S_Taints : list gostring; Source : option SnapSource }.

Definition meta_ok (text_ok : gostring → Prop) (m : SnapMeta) : Prop :=
  text_ok (Parent m) ∧ Forall text_ok (S_Taints m) ∧
  match Source m with Some s => text_ok (S_Type s) ∧ text_ok (S_Ref s) | None => True end.

Section meta.
Context {text_ok : gostring → Prop} `{!Json SnapMeta (meta_ok text_ok)}.

Definition snap_path (snapshotsDir snapID : gostring) : gostring := JoinPath snapshotsDir (snapID ++ jsonc).

(** A file that does not exist is no metadata, not an error. *)
Definition readSnapMeta (env : osenv) (d : disk) (snapshotsDir snapID : gostring)
    : outcome store_error (option SnapMeta) :=
  match load env d (snap_path snapshotsDir snapID) with
  | Ret m => Ret (Some m)
  | Err err_not_found => Ret None
  | Err e => Err e
  | Panic => Panic
  end.

(** Written in place: a failing write leaves a part of it. *)
Definition writeSnapMeta (env : osenv) (d : disk) (snapshotsDir snapID : gostring) (m : SnapMeta)
    : disk * option store_error :=
  match marshal m with
  | None => (d, Some err_marshal)
  | Some data =>
      match write_fails env with
      | Some AtCreate => (d, Some err_io)
      | Some (AtWrite n) => (put_file d (snap_path snapshotsDir snapID) (take n data), Some err_io)
      | Some AtClose => (put_file d (snap_path snapshotsDir snapID) data, Some err_io)
      | Some AtChmod | Some AtRename | None => (put_file d (snap_path snapshotsDir snapID) data, None)
      end
  end.

Definition getSnapTaints (env : osenv) (d : disk) (snapshotsDir snapID : gostring) : list gostring :=
  if bool_decide (snapID = []) then []
  else
    match readSnapMeta env d snapshotsDir snapID with
    | Ret (Some m) => S_Taints m
    | _ => []
    end.
End meta.

Section sidecar.
Context {text_ok : gostring → Prop} {time_ok : Z → Prop} `{!Json Frame (frame_ok text_ok time_ok)}.

Definition readFrameSidecar (env : osenv) (d : disk) (framePath : gostring) : outcome store_error (option Frame) :=
  match load env d (framePath ++ jsonc) with
  | Ret f => Ret (Some f)
  | Err err_not_found => Ret None
  | Err e => Err e
  | Panic => Panic
  end.

(** Through the file [.tmp] beside it. *)
Definition writeFrameSidecar (env : osenv) (d : disk) (framePath : gostring) (f : Frame)
    : disk * option store_error :=
  let path := framePath ++ jsonc in
  let tmp := path ++ bs ".tmp" in
  match marshal f with
  | None => (d, Some err_marshal)
  | Some data =>
      match write_fails env with
      | Some AtCreate => (d, Some err_io)
      | Some (AtWrite n) => (put_file d tmp (take n data), Some err_io)
      | Some AtClose => (put_file d tmp data, Some err_io)
      | Some AtRename =>
          (if cleanup_fails env then put_file d tmp data else MkDisk (delete tmp (d_files d)) (d_dirs d), Some err_io)
      | Some AtChmod | None => (MkDisk (<[path := data]> (delete tmp (d_files d))) (d_dirs d), None)
      end
  end.
End sidecar.

(** ** What taint lists are *)

(** Sorted and without duplicates. *)
Definition taint_list (l : list gostring) : Prop := StronglySorted go_le l ∧ NoDup l.

Lemma sort_strings_perm l : sort_strings l ≡ₚ l.
Proof. apply sort_by_key_perm. Qed.
Lemma sort_strings_sorted l : StronglySorted go_le (sort_strings l).
Proof. apply (sort_by_key_sorted id). Qed.
Lemma sort_strings_list l : NoDup l → taint_list (sort_strings l).
Proof. intros Hl. split; [apply sort_strings_sorted|]. by rewrite sort_strings_perm. Qed.

Lemma elem_of_concat {A} (ls : list (list A)) x : x ∈ concat ls ↔ ∃ l, l ∈ ls ∧ x ∈ l.
Proof.
  induction ls as [|l ls IH]; cbn [concat].
  - split; [by intros ?%not_elem_of_nil|]. by intros (l & ?%not_elem_of_nil & _).
  - rewrite elem_of_app, IH. split.
    + intros [Hx|(l' & Hl & Hx)]; [exists l|exists l']; rewrite elem_of_cons; auto.
    + intros (l' & [->|Hl]%elem_of_cons & Hx); [by left|]. right. eauto.
Qed.

Lemma UnionTaints_spec sets :
  taint_list (UnionTaints sets) ∧ ∀ t, t ∈ UnionTaints sets ↔ ∃ l, l ∈ sets ∧ t ∈ l.
Proof.
  unfold UnionTaints. case_bool_decide as He.
  - split; [split; constructor|]. intros t. rewrite <- elem_of_concat.
    split; [by intros ?%not_elem_of_nil|]. intros Ht. exfalso.
    assert (t ∈ (∅ : gset gostring)) as Hno; [|by apply not_elem_of_empty in Hno].
    rewrite <- He. by apply elem_of_list_to_set.
  - split; [apply sort_strings_list, NoDup_elements|]. intros t.
    by rewrite sort_strings_perm, elem_of_elements, elem_of_list_to_set, elem_of_concat.
Qed.

Lemma IntersectTaints_spec a b :
  (NoDup a → taint_list (IntersectTaints a b)) ∧ ∀ t, t ∈ IntersectTaints a b ↔ t ∈ a ∧ t ∈ b.
Proof.
  unfold IntersectTaints. destruct (bool_decide (a = []) || bool_decide (b = [])) eqn:He.
  - split; [intros _; split; constructor|]. intros t. split; [by intros ?%not_elem_of_nil|].
    intros [Ha Hb]. apply orb_true_iff in He as [->%bool_decide_eq_true | ->%bool_decide_eq_true];
      by apply not_elem_of_nil in Ha || apply not_elem_of_nil in Hb.
  - split.
    + intros Ha. apply sort_strings_list. by apply NoDup_filter.
    + intros t. rewrite sort_strings_perm, list_elem_of_filter, elem_of_list_to_set. tauto.
Qed.

Lemma same_taints_eq a b : length a = length b → same_taints a b = true ↔ a = b.
Proof.
  revert b. induction a as [|x a IH]; intros [|y b] Hl; try done. cbn [same_taints].
  injection Hl as Hl. case_bool_decide as Hxy.
  - subst. rewrite IH by done. split; [by intros ->|by intros [= ->]].
  - split; [done|]. by intros [= -> _].
Qed.

(** Two taint lists with the same members are equal. *)
Lemma taint_list_ext a b : taint_list a → taint_list b → (∀ t, t ∈ a ↔ t ∈ b) → a = b.
Proof.
  intros [Ha Hna] [Hb Hnb] Hab.
  apply (StronglySorted_unique go_le); [done|done|]. by apply NoDup_Permutation.
Qed.

(** C21: taints are sets. The union and the intersection of taint lists are sorted lists
    without duplicates that have exactly the members they should, in whatever order the
    maps are iterated; and comparing two such lists element by element decides whether
    they have the same members. *)
Theorem taints_are_sets (sets : list (list gostring)) (a b : list gostring) :
  taint_list (UnionTaints sets) ∧
  (∀ t, t ∈ UnionTaints sets ↔ ∃ l, l ∈ sets ∧ t ∈ l) ∧
  (NoDup a → taint_list (IntersectTaints a b)) ∧
  (∀ t, t ∈ IntersectTaints a b ↔ t ∈ a ∧ t ∈ b) ∧
  (taint_list a → taint_list b → taintsEqual a b = true ↔ ∀ t, t ∈ a ↔ t ∈ b).
Proof.
  destruct (UnionTaints_spec sets) as [H1 H2]. destruct (IntersectTaints_spec a b) as [H3 H4].
  split_and!; [done..|]. intros Ha Hb. unfold taintsEqual.
  destruct (length a =? length b)%nat eqn:Hl; cbn [negb].
  - apply Nat.eqb_eq in Hl. rewrite same_taints_eq by done. split; [by intros ->|].
    by apply taint_list_ext.
  - split; [done|]. intros Hab. rewrite (taint_list_ext a b Ha Hb Hab) in Hl.
    by rewrite Nat.eqb_refl in Hl.
Qed.

Lemma taints_are_sets_witness :
  taint_list (UnionTaints [[bs "pii"; bs "a"]; [bs "a"]]) ∧
  taint_list (IntersectTaints [bs "pii"; bs "a"] [bs "a"; bs "z"]) ∧
  taintsEqual [bs "a"; bs "pii"] (UnionTaints [[bs "pii"; bs "a"]; [bs "a"]]) = true.
Proof.
  destruct (taints_are_sets [[bs "pii"; bs "a"]; [bs "a"]] [bs "pii"; bs "a"] [bs "a"; bs "z"]) as (H1 & _ & H2 & _).
  split; [exact H1|]. split; [apply H2; by apply (bool_decide_unpack _)|vm_compute; reflexivity].
Defined.

(** ** The store is a map from UUIDs to frames *)

Inductive frame_op :=
| OpCreate (u : ID) (f : Frame) | OpUpdate (u : ID) (f : Frame) | OpDelete (u : ID)
| OpHistory (u : ID) (snap message : gostring) | OpTaint (u : ID) (taint : gostring).

Definition op_id (op : frame_op) : ID :=
  match op with
  | OpCreate u _ | OpUpdate u _ | OpDelete u | OpHistory u _ _ | OpTaint u _ => u
  end.

Definition add_taint (f : Frame) (t : gostring) : Frame :=
  if bool_decide (t ∈ Taints f) then f else set_taints f (sort_strings (Taints f ++ [t])).

Definition spec_op (now : Z) (m : gmap ID Frame) (op : frame_op) : gmap ID Frame * option store_error :=
  match op, m !! op_id op with
  | OpCreate u f, o =>
      if IsZero u then (m, Some err_nil_uuid)
      else
        match o with
        | Some _ => (m, Some err_exists)
        | None => (<[u := if CreatedAt f =? 0 then set_created f now else f]> m, None)
        end
  | OpUpdate u f, Some _ => (<[u := f]> m, None)
  | OpDelete u, Some _ => (delete u m, None)
  | OpHistory u snap msg, Some f => (<[u := set_history f (MkHistory snap now msg :: History f)]> m, None)
  | OpTaint u t, Some f => (<[u := add_taint f t]> m, None)
  | _, None => (m, Some err_not_found)
  end.

Fixpoint spec_ops (m : gmap ID Frame) (ops : list (Z * frame_op)) : gmap ID Frame * list (option store_error) :=
  match ops with
  | [] => (m, [])
  | (now, op) :: ops' =>
      let '(m1, a) := spec_op now m op in
      let '(m2, rest) := spec_ops m1 ops' in (m2, a :: rest)
  end.

Section store_proofs.
Context `{UUIDs} `{TempNames} {text_ok : gostring → Prop} {time_ok : Z → Prop}
  `{Json Frame (frame_ok text_ok time_ok)}.

Definition run_op (env : osenv) (now : Z) (s : Store) (d : disk) (op : frame_op) : list disk * disk * option store_error :=
  match op with
  | OpCreate u f => Create env now s d u f
  | OpUpdate u f => Update env s d u f
  | OpDelete u => Delete env s d u
  | OpHistory u snap msg => AddHistoryEntry env now s d u snap msg
  | OpTaint u t => AddTaint env s d u t
  end.

Fixpoint run_ops (s : Store) (d : disk) (ops : list (Z * frame_op)) : disk * list (option store_error) :=
  match ops with
  | [] => (d, [])
  | (now, op) :: ops' =>
      let '(_, d1, a) := run_op no_fault now s d op in
      let '(d2, rest) := run_ops s d1 ops' in (d2, a :: rest)
  end.

Definition id_ok (u : ID) : Prop := length u = 16%nat.
Definition op_ok (op : frame_op) : Prop :=
  id_ok (op_id op) ∧
  match op with
  | OpCreate _ f | OpUpdate _ f => frame_ok text_ok time_ok f
  | OpHistory _ snap msg => text_ok snap ∧ text_ok msg
  | OpTaint _ t => text_ok t
  | OpDelete _ => True
  end.

Lemma String_plain u : id_ok u → slash ∉ String_ u ∧ String_ u ≠ [] ∧ head (String_ u) ≠ Some "."%byte.
Proof.
  intros Hu. pose proof (String_chars u Hu) as Hc. pose proof (String_length u Hu) as Hl.
  rewrite Forall_forall in Hc. split_and!.
  - intros Hs%Hc. revert Hs. by apply (bool_decide_unpack _).
  - by destruct (String_ u).
  - destruct (String_ u) as [|c l]; [done|]. intros [= ->]. assert (uuid_char ".") as Hd by (apply Hc; by left).
    revert Hd. by apply (bool_decide_unpack _).
Qed.

Lemma String_inj u v : id_ok u → id_ok v → String_ u = String_ v → u = v.
Proof. intros Hu Hv Heq. pose proof (Parse_String u Hu) as Hp. rewrite Heq, Parse_String in Hp by done. congruence. Qed.

Section placed.
Variables (s : Store) (base : list gostring).
Hypothesis fs_dir : fsDir s = abs_path base.
Hypothesis fs_proper : Forall proper base.
Hypothesis fs_nonempty : base ≠ [].

Lemma meta_name_proper u : id_ok u → proper (String_ u ++ jsonc).
Proof.
  intros (Hs & Hne & _)%String_plain. assert (5 < length (String_ u ++ jsonc))%nat as Hl.
  { rewrite length_app. destruct (String_ u); [done|]. cbn. lia. }
  split_and!; [by destruct (String_ u)| | |]; [intros Heq; rewrite Heq in Hl; cbn in Hl; lia..|].
  rewrite not_elem_of_app. split; [done|]. by apply (bool_decide_unpack _).
Qed.

Lemma metaPath_snoc u : id_ok u → metaPath s u = fsDir s ++ slash :: String_ u ++ jsonc.
Proof.
  intros Hu. unfold metaPath. rewrite fs_dir, JoinPath_one by (try done; by apply meta_name_proper).
  by rewrite abs_path_snoc.
Qed.
Lemma metaPath_inj u v : id_ok u → id_ok v → metaPath s u = metaPath s v → u = v.
Proof.
  intros Hu Hv. rewrite !metaPath_snoc by done. intros Heq. apply app_inv_head in Heq. injection Heq as Heq.
  apply app_inv_tail in Heq. by apply String_inj.
Qed.
Lemma metaPath_dir u : id_ok u → Dir (metaPath s u) = fsDir s.
Proof.
  intros Hu. unfold metaPath. rewrite fs_dir, JoinPath_one by (try done; by apply meta_name_proper).
  apply Dir_abs; [done|done|by apply meta_name_proper].
Qed.
Definition meta_prefix (u : ID) : gostring := bs "." ++ String_ u ++ bs ".jsonc.".
Lemma temp_not_meta d u v : id_ok u → id_ok v → metaPath s v ≠ temp_path d (metaPath s u) (meta_prefix u).
Proof.
  intros Hu Hv. unfold temp_path. rewrite metaPath_dir, metaPath_snoc by done. rewrite <- app_assoc.
  intros Heq. apply app_inv_head in Heq. injection Heq as Heq. destruct (String_plain v Hv) as (_ & Hne & Hh).
  destruct (String_ v) as [|c l]; [done|]. by injection Heq as -> _.
Qed.
Lemma metaPath_not_parent u : id_ok u → metaPath s u ∉ (list_to_set (with_parents [] (fsDir s)) : gset gostring).
Proof.
  intros Hu. rewrite elem_of_list_to_set, metaPath_snoc by done. intros Hin%with_parents_length.
  revert Hin. len_lia.
Qed.

Definition on_disk (d : disk) (m : gmap ID Frame) : Prop := holds (ok := frame_ok text_ok time_ok) (metaPath s) id_ok d m.

Local Ltac store_laws := first [exact metaPath_inj | exact metaPath_dir | (intros; by apply temp_not_meta)].

Lemma set_created_ok f now :
  frame_ok text_ok time_ok f → time_ok now → frame_ok text_ok time_ok (if CreatedAt f =? 0 then set_created f now else f).
Proof. intros Hf Hnow. destruct (CreatedAt f =? 0); [|done]. unfold frame_ok in *. cbn. tauto. Qed.
Lemma add_taint_ok t f : text_ok t → frame_ok text_ok time_ok f → frame_ok text_ok time_ok (add_taint f t).
Proof.
  intros Ht Hf. unfold add_taint. case_bool_decide; [done|].
  destruct Hf as (O1 & O2 & O3 & O4 & O5 & O6 & O7). unfold frame_ok. cbn. split_and!; try done.
  rewrite sort_strings_perm. apply Forall_app_2; [done|]. by apply Forall_cons_2; [|apply Forall_nil_2].
Qed.
Lemma history_ok now snap msg f :
  time_ok now → text_ok snap → text_ok msg → frame_ok text_ok time_ok f →
  frame_ok text_ok time_ok (set_history f (MkHistory snap now msg :: History f)).
Proof.
  intros ??? (O1 & O2 & O3 & O4 & O5 & O6 & O7). unfold frame_ok. cbn. split_and!; try done.
  by apply Forall_cons_2.
Qed.

(** Adding a taint twice does nothing the second time. *)
Lemma taint_written env d m u t :
  on_disk d m → id_ok u → text_ok t →
  written_as (ok := frame_ok text_ok time_ok) (metaPath s) id_ok (fsDir s) env d m (AddTaint env s d u t)
    (match m !! u with Some f => (<[u := add_taint f t]> m, None) | None => (m, Some err_not_found) end).
Proof.
  intros Hm Hu Ht.
  pose proof (update_written (metaPath s) meta_prefix id_ok (fsDir s) ltac:(store_laws) ltac:(store_laws)
    ltac:(store_laws) env d m u (λ f, add_taint f t) Hm Hu (λ f, add_taint_ok t f Ht)) as Hw.
  unfold AddTaint, Get. destruct (load env d (metaPath s u)) as [f|e|] eqn:Hl; [|exact Hw..].
  destruct (decide (t ∈ Taints f)) as [Hin|Hin].
  - rewrite bool_decide_eq_true_2 by done.
    destruct (holds_load_any _ _ env d m u Hm Hu) as [Hg|[Hg _]]; rewrite Hl in Hg; [|done].
    destruct (m !! u) as [g|] eqn:Hr; [|done]. injection Hg as ->. apply written_here; [done|].
    unfold add_taint. rewrite bool_decide_eq_true_2 by done. by apply insert_id.
  - rewrite bool_decide_eq_false_2 by done. unfold add_taint in Hw at 1.
    by rewrite bool_decide_eq_false_2 in Hw.
Qed.

(** Every operation, whatever calls fail. *)
Lemma run_op_written env now d m op :
  on_disk d m → op_ok op → time_ok now → stat_fails env (metaPath s (op_id op)) = false →
  written_as (ok := frame_ok text_ok time_ok) (metaPath s) id_ok (fsDir s) env d m
    (run_op env now s d op) (spec_op now m op).
Proof.
  intros Hm [Hu Hop] Hnow Hstat.
  destruct op as [u f|u f|u|u snap msg|u t]; cbn [op_id run_op] in *; unfold spec_op; cbn [op_id].
  - unfold Create. destruct (IsZero u) eqn:Hz; [destruct (m !! u); by apply written_here|].
    pose proof (create_written (metaPath s) meta_prefix id_ok (fsDir s) ltac:(store_laws) ltac:(store_laws)
      ltac:(store_laws) env d m u _ Hm Hu (set_created_ok f now Hop Hnow) Hstat metaPath_not_parent
      (with_parents_last [] (fsDir s))) as Hw. exact Hw.
  - unfold Update, os_Stat. rewrite Hstat. pose proof (holds_taken _ _ d m u Hm Hu) as Ht.
    case_bool_decide as Hin.
    + apply Ht in Hin as [g Hg]. rewrite Hg. unfold Frames_write.
      destruct (save env d _ _ f) as [[steps d'] e] eqn:Hw.
      apply (save_holds (metaPath s) meta_prefix id_ok (fsDir s)) with (m := m) in Hw as (Hsteps & _ & He);
        [|store_laws..|done|done|done].
      split; [done|]. destruct e as [e|]; [right|by left]. destruct He as [He Hs].
      split; [done|]. split; [done|]. intros [-> Hd]. apply Hs; [done|]. apply Hd. by intros ->.
    + assert (m !! u = None) as -> by (apply eq_None_not_Some; tauto). by apply written_here.
  - unfold Delete. pose proof (remove_written (metaPath s) id_ok (fsDir s) ltac:(store_laws) env d m u Hm Hu) as Hw.
    destruct (m !! u); exact Hw.
  - destruct Hop as [Hs Hmsg].
    pose proof (update_written (metaPath s) meta_prefix id_ok (fsDir s) ltac:(store_laws) ltac:(store_laws)
      ltac:(store_laws) env d m u (λ f, set_history f (MkHistory snap now msg :: History f)) Hm Hu
      (λ f, history_ok now snap msg f Hnow Hs Hmsg)) as Hw. destruct (m !! u); exact Hw.
  - pose proof (taint_written env d m u t Hm Hu Hop) as Hw. destruct (m !! u); exact Hw.
Qed.

(** *** Sequences of operations *)

Lemma frame_op_dirs env now d op : let '(_, d', _) := run_op env now s d op in d_dirs d ⊆ d_dirs d'.
Proof.
  assert (∀ d0 u f, let '(_, d', _) := Frames_write env s d0 u f in d_dirs d0 ⊆ d_dirs d') as Hw.
  { intros d0 u f. pose proof (save_dirs env d0 (metaPath s u) (meta_prefix u) f) as Hd. unfold Frames_write, meta_prefix in *.
    destruct (save _ _ _ _ _) as [[? ?] ?]. by rewrite Hd. }
  destruct op as [u f|u f|u|u snap msg|u t]; cbn [run_op].
  - unfold Create, MkdirAll. destruct (IsZero u); [done|]. destruct (mkdir_fails _ _); cbn [negb]; [done|].
    destruct (os_Stat _ _ _); [cbn; set_solver|..];
      specialize (Hw (MkDisk (d_files d) (list_to_set (with_parents [] (fsDir s)) ∪ d_dirs d)) u
        (if CreatedAt f =? 0 then set_created f now else f));
      destruct (Frames_write _ _ _ _ _) as [[? ?] ?]; cbn [d_dirs] in Hw; set_solver.
  - unfold Update. destruct (os_Stat _ _ _); [apply Hw|done..].
  - unfold Delete, os_Remove. destruct (remove_fails _ _); [done|].
    destruct (d_files d !! _); [done|]. by case_bool_decide.
  - unfold AddHistoryEntry. destruct (Get _ _ _ _); [apply Hw|done..].
  - unfold AddTaint. destruct (Get _ _ _ _) as [f| |]; [|done..]. case_bool_decide; [done|apply Hw].
Qed.

Lemma frame_op_dir now d m op :
  (m ≠ ∅ → fsDir s ∈ d_dirs d) →
  let '(_, d', _) := run_op no_fault now s d op in (spec_op now m op).1 ≠ ∅ → fsDir s ∈ d_dirs d'.
Proof.
  intros Hd. pose proof (frame_op_dirs no_fault now d op) as Hmono.
  destruct (decide (m = ∅)) as [->|Hne].
  2: { destruct (run_op _ _ _ _ _) as [[? d'] ?]. intros _. by apply Hmono, Hd. }
  destruct op as [u f|u f|u|u snap msg|u t];
    try (destruct (run_op _ _ _ _ _) as [[? d'] ?]; unfold spec_op; cbn [op_id]; by rewrite lookup_empty).
  cbn [run_op] in *. unfold spec_op, Create. cbn [op_id]. rewrite lookup_empty. destruct (IsZero u); [done|].
  unfold MkdirAll. cbn [mkdir_fails no_fault negb]. set (d1 := MkDisk _ _).
  assert (fsDir s ∈ d_dirs d1) as Hin.
  { apply elem_of_union_l, elem_of_list_to_set, (with_parents_last [] (fsDir s)). }
  destruct (os_Stat _ _ _); [by intros _|..];
    pose proof (save_dirs no_fault d1 (metaPath s u) (meta_prefix u)
      (if CreatedAt f =? 0 then set_created f now else f)) as Hw; unfold Frames_write, meta_prefix in *;
    destruct (save _ _ _ _ _) as [[? ?] ?]; intros _; by rewrite Hw.
Qed.

Lemma run_ops_held ops : ∀ d m,
  on_disk d m → (m ≠ ∅ → fsDir s ∈ d_dirs d) → Forall (λ '(now, op), time_ok now ∧ op_ok op) ops →
  (run_ops s d ops).2 = (spec_ops m ops).2 ∧ on_disk (run_ops s d ops).1 (spec_ops m ops).1.
Proof.
  induction ops as [|[now op] ops IH]; intros d m Hm Hd Hops; [by split|].
  apply Forall_cons in Hops as [[Hnow Hop] Hops]. cbn [run_ops spec_ops].
  pose proof (run_op_written no_fault now d m op Hm Hop Hnow eq_refl) as Hw.
  pose proof (frame_op_dir now d m op Hd) as Hd1.
  destruct (run_op no_fault now s d op) as [[steps d1] a]. destruct (spec_op now m op) as [m1 a'].
  destruct Hw as (_ & [[-> Hm1]|(_ & _ & Hno)]); [|by destruct Hno].
  destruct (IH d1 m1 Hm1 Hd1 Hops) as [Ha Hm2].
  destruct (run_ops s d1 ops) as [d2 as1]. destruct (spec_ops m1 ops) as [m2 as2]. cbn [fst snd] in *. by rewrite Ha.
Qed.
End placed.

Lemma fs_placed dir ns :
  Forall proper dir → dir ≠ [] → ns = [] ∨ proper ns →
  let base := dir ++ bs "fs" :: (if bool_decide (ns = []) then [] else [ns]) in
  fsDir (MkStore (abs_path dir) ns) = abs_path base ∧ Forall proper base ∧ base ≠ [].
Proof.
  intros Hd Hne Hns base.
  assert (Forall proper (bs "fs" :: (if bool_decide (ns = []) then [] else [ns]))) as Hp.
  { apply Forall_cons_2; [by apply proper_name|]. case_bool_decide; [apply Forall_nil_2|].
    destruct Hns; [done|]. by apply Forall_cons_2; [|apply Forall_nil_2]. }
  split_and!; [|by apply Forall_app_2|by destruct dir].
  unfold base. rewrite <- (JoinPath_proper dir) by done. unfold fsDir. cbn [namespace stateDir].
  by repeat case_bool_decide.
Qed.
End store_proofs.

(** the frame store is a map from UUIDs to frames, and its operations are atomic. In a
    namespace on an empty disk, any sequence of creations, updates, deletions, history
    entries and taints answers as the map does, and every frame is then read as the map
    has it; and from any disk, whatever calls fail, an operation does what the map does
    or reports a failure and changes nothing, while readers see the frames of before. *)
Theorem frames_store_is_map `{UUIDs} `{TempNames} {text_ok time_ok} `{Json Frame (frame_ok text_ok time_ok)}
    (dir : list gostring) (ns : gostring) :
  Forall proper dir → dir ≠ [] → ns = [] ∨ proper ns →
  let s := NewNamespaceStore (abs_path dir) ns in
  let held := on_disk (text_ok := text_ok) (time_ok := time_ok) s in
  (∀ ops, Forall (λ '(now, op), time_ok now ∧ op_ok (text_ok := text_ok) (time_ok := time_ok) op) ops →
     let '(d, answers) := run_ops s (MkDisk ∅ ∅) ops in
     let '(m, expected) := spec_ops ∅ ops in
     answers = expected ∧
     ∀ u, length u = 16%nat →
       Get no_fault s d u = match m !! u with Some f => Ret f | None => Err err_not_found end) ∧
  (∀ env now d m op, held d m → op_ok (text_ok := text_ok) (time_ok := time_ok) op → time_ok now →
     stat_fails env (metaPath s (op_id op)) = false →
     let '(steps, d', e) := run_op env now s d op in
     Forall (λ x, held x m) steps ∧
     ((e = (spec_op now m op).2 ∧ held d' (spec_op now m op).1) ∨ (e ≠ None ∧ held d' m))).
Proof.
  intros Hd Hne Hns s held. destruct (fs_placed dir ns Hd Hne Hns) as (Hb & Hp & Hbn). fold s in Hb. split.
  - intros ops Hops. assert (held (MkDisk ∅ ∅) ∅) as Hm.
    { split; [|intros k [x Hx]; by rewrite lookup_empty in Hx].
      intros k _. rewrite !lookup_empty. split; [apply not_elem_of_empty|done]. }
    destruct (run_ops_held (text_ok := text_ok) (time_ok := time_ok) s _ Hb Hp Hbn ops (MkDisk ∅ ∅) ∅) as [Ha Hm']; [exact Hm|done|done|].
    destruct (run_ops s (MkDisk ∅ ∅) ops) as [d answers]. destruct (spec_ops ∅ ops) as [m expected].
    cbn [fst snd] in *. split; [done|]. intros u Hu. by apply (holds_load _ _ d m u Hm').
  - intros env now d m op Hm Hop Hnow Hstat.
    pose proof (run_op_written s _ Hb Hp Hbn env now d m op Hm Hop Hnow Hstat) as Hw.
    destruct (run_op env now s d op) as [[steps d'] e]. destruct Hw as (Hsteps & [?|(? & ? & _)]); auto.
Qed.

#[export] Instance history_eq_dec : EqDecision HistoryEntry.
Proof. solve_decision. Defined.
#[export] Instance history_countable : Countable HistoryEntry.
Proof. apply (inj_countable' (λ h, (H_Snap h, H_Time h, H_Message h)) (λ '(s, t, m), MkHistory s t m)). by intros []. Defined.
#[export] Instance frame_eq_dec : EqDecision Frame.
Proof. solve_decision. Defined.
#[export] Instance frame_countable : Countable Frame.
Proof.
  apply (inj_countable' (λ f, (Rootfs f, F_Home f, Work f, Taints f, Isolation f, History f, CreatedAt f))
    (λ '(r, h, w, t, i, l, c), MkFrame r h w t i l c)). by intros [].
Defined.

Definition example_id : ID := replicate 16 Byte.x07.
Definition example_frame : Frame := MkFrame (bs "root") [] [] [bs "b"] [] [] 0.
Definition example_ops : list (Z * frame_op) :=
  [(5, OpCreate example_id example_frame); (6, OpTaint example_id (bs "a")); (7, OpCreate Nil example_frame);
   (8, OpHistory example_id (bs "root2:nil:nil") []); (9, OpTaint example_id (bs "a"))].

Lemma example_frames_spec :
  let '(m, answers) := spec_ops ∅ example_ops in
  m !! example_id = Some (MkFrame (bs "root") [] [] [bs "a"; bs "b"] [] [MkHistory (bs "root2:nil:nil") 8 []] 5) ∧
  answers = [None; None; Some err_nil_uuid; None; None].
Proof. vm_compute. by split. Qed.

Lemma frames_store_is_map_witness :
  let ids := text_uuids in
  let temp := zero_names in
  let json := countable_json (frame_ok (λ _, True) (λ _, True)) in
  let s := NewNamespaceStore (abs_path [bs "data"]) (bs "shared") in
  let '(d, answers) := run_ops s (MkDisk ∅ ∅) example_ops in
  let '(m, expected) := spec_ops ∅ example_ops in
  answers = expected ∧
  ∀ u, length u = 16%nat →
    Get no_fault s d u = match m !! u with Some f => Ret f | None => Err err_not_found end.
Proof.
  intros ids temp json.
  destruct (frames_store_is_map (text_ok := λ _, True) (time_ok := λ _, True) [bs "data"] (bs "shared")) as [Hseq _].
  - apply Forall_cons_2; [by apply proper_name|apply Forall_nil_2].
  - discriminate.
  - right. by apply proper_name.
  - apply (Hseq example_ops). unfold example_ops.
    repeat apply Forall_cons_2; try apply Forall_nil_2;
      (split; [exact I|split; [reflexivity|]]); unfold frame_ok; cbn;
      repeat split; repeat (first [apply Forall_nil_2|apply Forall_cons_2; [exact I|]]).
Defined.
