(* ===== verification/Sha256.v ===== *)
(** * Digests: the interface the formats rely on, and SHA-256 itself

    Every component that hashes is proved against the class [Digest], which
    promises only that a digest has 32 bytes; [sha256_digest] is the instance of
    the program, Go's [crypto/sha256], written out so that the models compute. *)

From Stdlib Require Import Strings.String.
From S2P Require Import Prelude GoStrings.

Definition SHA256Size : nat := 32.

Class Digest := {
  sum256 : list byte → list byte;
  length_sum256 m : length (sum256 m) = SHA256Size;
}.

(** A digest for examples that do not look at it. *)
Definition zero_digest : Digest := {| sum256 := λ _, replicate 32 Byte.x00; length_sum256 := λ _, eq_refl |}.

#[export] Hint Rewrite @length_sum256 : go_len.

(** [BlobSHA256] of [src/tsm/types.go]: the git-blob framing "blob <size>\0". *)
Definition blob_frame (data : list byte) : list byte :=
  bs "blob " ++ fmt_int (Z.of_nat (length data)) ++ [Byte.x00] ++ data.

Definition BlobSHA256 `{Digest} (data : list byte) : list byte := sum256 (blob_frame data).

Lemma length_BlobSHA256 `{Digest} data : length (BlobSHA256 data) = SHA256Size.
Proof. apply length_sum256. Qed.
#[export] Hint Rewrite @length_BlobSHA256 : go_len.

(** Different data have different framings: the framing adds no collision. *)
Lemma blob_frame_inj d1 d2 : blob_frame d1 = blob_frame d2 → d1 = d2.
Proof.
  unfold blob_frame. intros H. apply (inj (app (bs "blob "))) in H.
  assert (∀ d : list byte, Byte.x00 ∉ fmt_int (Z.of_nat (length d))) as Hz.
  { intros d. unfold fmt_int. destruct (Z.ltb_spec (Z.of_nat (length d)) 0); [lia|].
    apply byte_digit_not; [done|]. apply fmt_uint_digit. lia. }
  assert (∀ (a1 b1 a2 b2 : list byte), Byte.x00 ∉ a1 → Byte.x00 ∉ a2 →
    a1 ++ [Byte.x00] ++ b1 = a2 ++ [Byte.x00] ++ b2 → b1 = b2) as Hsep.
  { induction a1 as [|x a1 IH]; intros b1 [|y a2] b2 H1 H2 Heq; simpl in Heq.
    - congruence.
    - injection Heq as <- _. by destruct H2; left.
    - injection Heq as -> _. by destruct H1; left.
    - injection Heq as <- Heq. apply not_elem_of_cons in H1 as [_ ?], H2 as [_ ?].
      by apply (IH b1 a2 b2). }
  by eapply Hsep in H.
Qed.

(** ** SHA-256 (FIPS 180-4), the standard library's [crypto/sha256] *)

Module SHA2.

Definition rotr (x n : Z) : Z := u32 (Z.lor (Z.shiftr x n) (Z.shiftl x (32 - n))).
Definition ch (x y z : Z) : Z := Z.lxor (Z.land x y) (Z.land (Z.lxor x 4294967295) z).
Definition maj (x y z : Z) : Z := Z.lxor (Z.lxor (Z.land x y) (Z.land x z)) (Z.land y z).
Definition bsig0 (x : Z) : Z := Z.lxor (Z.lxor (rotr x 2) (rotr x 13)) (rotr x 22).
Definition bsig1 (x : Z) : Z := Z.lxor (Z.lxor (rotr x 6) (rotr x 11)) (rotr x 25).
Definition ssig0 (x : Z) : Z := Z.lxor (Z.lxor (rotr x 7) (rotr x 18)) (Z.shiftr x 3).
Definition ssig1 (x : Z) : Z := Z.lxor (Z.lxor (rotr x 17) (rotr x 19)) (Z.shiftr x 10).

(** The constants of the standard are the first 32 fractional bits of the cube
    roots of the first 64 primes and of the square roots of the first eight. *)
Definition is_prime (n : nat) : bool :=
  forallb (λ d, negb (n mod d =? 0)%nat) (seq 2 (n - 2)).
Definition primes : list Z := Z.of_nat <$> filter is_prime (seq 2 310).

(** The integer cube root, bit by bit from [2^bit]. *)
Fixpoint cbrt_bits (bit : nat) (r n : Z) : Z :=
  match bit with
  | O => r
  | S bit' =>
      let r' := r + 2 ^ Z.of_nat bit' in
      cbrt_bits bit' (if r' * r' * r' <=? n then r' else r) n
  end.

Definition K : list Z := Eval vm_compute in (λ p, u32 (cbrt_bits 36 0 (p * 2 ^ 96))) <$> primes.
Definition H0 : list Z := Eval vm_compute in (λ p, u32 (Z.sqrt (p * 2 ^ 64))) <$> take 8 primes.

(** The message, one 1 bit, zeros, and the bit length on 64 bits. *)
Definition pad (m : list byte) : list byte :=
  let l := length m in
  let z := ((119 - l mod 64) mod 64)%nat in
  m ++ [Byte.x80] ++ replicate z Byte.x00 ++ put64 (8 * Z.of_nat l).

Fixpoint words (fuel : nat) (l : list byte) : list Z :=
  match fuel with
  | O => []
  | S f => be_get (take 4 l) :: words f (drop 4 l)
  end.

(** The message schedule, most recent word first. *)
Fixpoint extend (n : nat) (w : list Z) : list Z :=
  match n with
  | O => w
  | S n' => extend n'
      (u32 (ssig1 (w !!! 1%nat) + w !!! 6%nat + ssig0 (w !!! 14%nat) + w !!! 15%nat) :: w)
  end.

Definition round (s : list Z) (kw : Z * Z) : list Z :=
  match s with
  | [a; b; c; d; e; f; g; h] =>
      let t1 := h + bsig1 e + ch e f g + kw.1 + kw.2 in
      let t2 := bsig0 a + maj a b c in
      [u32 (t1 + t2); a; b; c; u32 (d + t1); e; f; g]
  | _ => s
  end.

Definition block (s : list Z) (b : list byte) : list Z :=
  let w := reverse (extend 48 (reverse (words 16 b))) in
  zip_with (λ x y, u32 (x + y)) s (fold_left round (zip K w) s).

Fixpoint blocks (fuel : nat) (s : list Z) (l : list byte) : list Z :=
  match fuel with
  | O => s
  | S f => blocks f (block s (take 64 l)) (drop 64 l)
  end.

Definition sha256 (m : list byte) : list byte :=
  let p := pad m in
  concat (put32 <$> blocks (length p / 64) H0 p).

Lemma length_round s kw : length s = 8%nat → length (round s kw) = 8%nat.
Proof.
  intros H. unfold round. do 8 (destruct s as [|? s]; [done|]). by destruct s.
Qed.

Lemma length_fold_round l s : length s = 8%nat → length (fold_left round l s) = 8%nat.
Proof.
  revert s. induction l as [|kw l IH]; intros s H; simpl; [done|].
  apply IH. by apply length_round.
Qed.

Lemma length_blocks fuel s l : length s = 8%nat → length (blocks fuel s l) = 8%nat.
Proof.
  revert s l. induction fuel as [|f IH]; intros s l H; simpl; [done|].
  apply IH. unfold block. rewrite length_zip_with, length_fold_round by done. lia.
Qed.

Lemma length_sha256 m : length (sha256 m) = SHA256Size.
Proof.
  unfold sha256. rewrite length_concat.
  pose proof (length_blocks (length (pad m) / 64) H0 (pad m) eq_refl) as Hl.
  destruct (blocks _ _ _) as [|? s]; [done|].
  do 7 (destruct s as [|? s]; [done|]). by destruct s.
Qed.

(** The test vector of the standard for "abc". *)
Example sha256_abc :
  sha256 (bs "abc") = be_put 32
    0xba7816bf8f01cfea414140de5dae2223b00361a396177a9cb410ff61f20015ad.
Proof. vm_compute. reflexivity. Qed.

End SHA2.

#[export] Instance sha256_digest : Digest :=
  {| sum256 := SHA2.sha256; length_sum256 := SHA2.length_sha256 |}.
