(* ===== verification/SnapHash.v ===== *)
(** * Snap IDs ([src/snaphash/snaphash.go])

    A snap ID is a SHA-256 digest written with a one-bit shifted base64url
    alphabet.  This file models [Encode] and [Decode] bit by bit and shows that
    they are exact inverses, that [Decode] accepts canonical strings only and
    that an encoded ID can never be mistaken for a command-line flag. *)

From Stdlib Require Import Strings.String.
From S2P Require Import Prelude.

(** [Size] and [EncodedSize]. *)
Definition Size : nat := 32.
Definition EncodedSize : nat := 43.

(** [type Hash [Size]byte]: its 32 bytes. *)
Abbreviation Hash := (list byte).
Definition is_hash (h : Hash) : Prop := length h = Size.

(** [var h Hash] *)
Definition zero_hash : Hash := replicate Size Byte.x00.

Inductive decode_error :=
| ErrInvalidLength (got : nat)
| ErrInvalidEncoding (c : byte) (pos : nat)
| ErrNonCanonicalPrepended
| ErrNonCanonicalPadding.

Definition getHashBit (h : Hash) (hashBit : nat) : bool :=
  let byteIdx := (hashBit / 8)%nat in
  let bitInByte := (7 - hashBit mod 8)%nat in
  Z.land (Z.shiftr (Z_of_byte (h !!! byteIdx)) (Z.of_nat bitInByte)) 1 =? 1.

Definition setHashBit (h : Hash) (hashBit : nat) : Hash :=
  let byteIdx := (hashBit / 8)%nat in
  let bitInByte := (7 - hashBit mod 8)%nat in
  <[ byteIdx := byte_of_Z (Z.lor (Z_of_byte (h !!! byteIdx))
                             (Z.shiftl 1 (Z.of_nat bitInByte))) ]> h.

Definition alphabet : gostring :=
  bs "ABCDEFGHIJKLMNOPQRSTUVWXYZabcdefghijklmnopqrstuvwxyz0123456789-_".

(** [encBitToHashBit]; [None] is [ok = false]. *)
Definition encBitToHashBit (encBit : nat) : option nat :=
  if (encBit =? 0)%nat || (257 <=? encBit)%nat then None else Some (encBit - 1)%nat.

(** The inner loop of [Encode]: the 6-bit value of character [i], most
    significant bit first. *)
Definition encode_val (h : Hash) (i : nat) : Z :=
  fold_left (λ val b,
    match encBitToHashBit (i * 6 + b) with
    | Some hashBit =>
        if getHashBit h hashBit
        then Z.lor val (Z.shiftl 1 (Z.of_nat (5 - b))) else val
    | None => val
    end) (seq 0 6) 0.

Definition Encode (h : Hash) : gostring :=
  (λ i, alphabet !!! Z.to_nat (encode_val h i)) <$> seq 0 EncodedSize.

(** [decodeChar]; [None] is [ok = false]. *)
Definition decodeChar (c : byte) : option Z :=
  let z := Z_of_byte c in
  if (65 <=? z) && (z <=? 90) then Some (z - 65)
  else if (97 <=? z) && (z <=? 122) then Some (z - 97 + 26)
  else if (48 <=? z) && (z <=? 57) then Some (z - 48 + 52)
  else if z =? 45 then Some 62
  else if z =? 95 then Some 63
  else None.

(** The loop of [Decode] that fills [vals] and stops at the first character
    outside the alphabet; [i] is the position of the head of [s]. *)
Fixpoint decode_vals (i : nat) (s : gostring) : outcome decode_error (list Z) :=
  match s with
  | [] => Ret []
  | c :: s' =>
      match decodeChar c with
      | None => Err (ErrInvalidEncoding c i)
      | Some v => vals ← decode_vals (S i) s'; Ret (v :: vals)
      end
  end.

(** The closure [encBitSet] of [Decode]. *)
Definition encBitSet (vals : list Z) (encBit : nat) : bool :=
  Z.land (Z.shiftr (vals !!! (encBit / 6)%nat) (Z.of_nat (5 - encBit mod 6))) 1 =? 1.

(** The last loop of [Decode]. *)
Definition decode_bits (vals : list Z) : Hash :=
  fold_left (λ h encBit,
    if encBitSet vals encBit
    then setHashBit h (default 0%nat (encBitToHashBit encBit)) else h)
    (seq 1 256) zero_hash.

Definition Decode (s : gostring) : outcome decode_error Hash :=
  guard_err (negb (length s =? EncodedSize)%nat) (ErrInvalidLength (length s));;
  vals ← decode_vals 0 s;
  guard_err (encBitSet vals 0) ErrNonCanonicalPrepended;;
  guard_err (encBitSet vals 257) ErrNonCanonicalPadding;;
  Ret (decode_bits vals).

(** [FromBytes] panics on a slice of the wrong length. *)
Definition FromBytes (b : list byte) : outcome decode_error Hash :=
  if negb (length b =? Size)%nat then Panic else Ret b.

(** [IsZero]: array equality with [Hash{}]. *)
Definition IsZero (h : Hash) : bool := bool_decide (h = zero_hash).

(** [MarshalText] and [UnmarshalText], the latter as a transformer of [*h]. *)
Definition MarshalText (h : Hash) : gostring := Encode h.
Definition UnmarshalText (h : Hash) (text : gostring) : Hash * option decode_error :=
  match Decode text with
  | Ret decoded => (decoded, None)
  | Err e => (h, Some e)
  | Panic => (h, None)
  end.

Arguments Encode : simpl never.
Arguments decode_bits : simpl never.

(** ** Bits of a value *)

Lemma land_1_testbit z k :
  0 ≤ k → (Z.land (Z.shiftr z k) 1 =? 1) = Z.testbit z k.
Proof.
  intros. change 1 with (Z.ones 1) at 1. rewrite Z.land_ones by lia.
  change (2 ^ 1) with 2. rewrite <- Z.bit0_mod, Z.shiftr_spec, Z.add_0_l by lia.
  by destruct (Z.testbit z k).
Qed.

Lemma getHashBit_testbit h i :
  getHashBit h i = Z.testbit (Z_of_byte (h !!! (i / 8)%nat)) (Z.of_nat (7 - i mod 8)).
Proof. unfold getHashBit. apply land_1_testbit. lia. Qed.

Lemma encBitSet_testbit vals i :
  encBitSet vals i = Z.testbit (vals !!! (i / 6)%nat) (Z.of_nat (5 - i mod 6)).
Proof. unfold encBitSet. apply land_1_testbit. lia. Qed.

(** A byte or-ed with a bit below 8 stays a byte. *)
Lemma lor_bit_range z k :
  0 ≤ z < 256 → 0 ≤ k < 8 → 0 ≤ Z.lor z (Z.shiftl 1 k) < 256.
Proof.
  intros Hz Hk. split; [rewrite Z.lor_nonneg, Z.shiftl_nonneg; lia|].
  rewrite Z.shiftl_1_l. destruct (decide (Z.lor z (2 ^ k) = 0)) as [->|]; [lia|].
  change 256 with (2 ^ 8). apply Z.log2_lt_pow2.
  { assert (0 ≤ Z.lor z (2 ^ k)) by (rewrite Z.lor_nonneg; lia). lia. }
  rewrite Z.log2_lor, Z.log2_pow2 by lia.
  assert (Z.log2 z < 8); [|lia].
  destruct (decide (z = 0)) as [->|]; [done|]. apply Z.log2_lt_pow2; lia.
Qed.

Lemma length_setHashBit h i : length (setHashBit h i) = length h.
Proof. apply length_insert. Qed.

Lemma getHashBit_setHashBit h i j :
  is_hash h → (i < 256)%nat → (j < 256)%nat →
  getHashBit (setHashBit h i) j = (i =? j)%nat || getHashBit h j.
Proof.
  intros Hh Hi Hj. rewrite !getHashBit_testbit. unfold setHashBit.
  unfold is_hash, Size in Hh.
  assert (i / 8 < 32)%nat by (apply Nat.Div0.div_lt_upper_bound; lia).
  destruct (decide (i / 8 = j / 8)%nat) as [Heq|Hne].
  - rewrite <- Heq, list_lookup_total_insert_eq by lia.
    rewrite Z_of_byte_of_Z, Z.mod_small
      by (apply lor_bit_range; [apply byte_range|lia]).
    rewrite Z.lor_spec, Z.shiftl_1_l, Z.pow2_bits_eqb by lia.
    rewrite orb_comm. f_equal.
    pose proof (Nat.div_mod_eq i 8). pose proof (Nat.div_mod_eq j 8).
    pose proof (Nat.mod_upper_bound i 8). pose proof (Nat.mod_upper_bound j 8).
    destruct (Nat.eqb_spec i j) as [->|]; [apply Z.eqb_eq; lia|apply Z.eqb_neq; lia].
  - rewrite list_lookup_total_insert_ne by done.
    destruct (Nat.eqb_spec i j) as [->|]; done.
Qed.

(** A hash is determined by its 256 bits. *)
Lemma hash_bits_eq h1 h2 :
  is_hash h1 → is_hash h2 →
  (∀ j, (j < 256)%nat → getHashBit h1 j = getHashBit h2 j) → h1 = h2.
Proof.
  unfold is_hash. intros H1 H2 Hbits. apply list_eq_total; [lia|].
  intros i Hi. rewrite H1 in Hi. unfold Size in *. apply Z_of_byte_inj.
  assert (∀ (h : Hash) k, 8 ≤ k → Z.testbit (Z_of_byte (h !!! i)) k = false) as Hhigh.
  { intros h k Hk. pose proof (byte_range (h !!! i)).
    destruct (decide (Z_of_byte (h !!! i) = 0)) as [->|]; [apply Z.bits_0|].
    apply Z.bits_above_log2; [lia|]. apply Z.log2_lt_pow2; [lia|].
    apply Z.lt_le_trans with (2 ^ 8); [lia|]. apply Z.pow_le_mono_r; lia. }
  apply Z.bits_inj'. intros k Hk. destruct (decide (8 ≤ k)).
  { by rewrite !Hhigh. }
  specialize (Hbits (i * 8 + (7 - Z.to_nat k))%nat ltac:(lia)).
  rewrite !getHashBit_testbit in Hbits.
  rewrite Nat.div_add_l, (Nat.div_small (7 - _)), Nat.add_0_r in Hbits by lia.
  rewrite Nat.add_comm, Nat.Div0.mod_add, Nat.mod_small in Hbits by lia.
  by replace (Z.of_nat (7 - (7 - Z.to_nat k))) with k in Hbits by lia.
Qed.

(** ** The encoder's 6-bit values *)

(** Bit [i] of the 258-bit stream. *)
Definition stream_bit (h : Hash) (i : nat) : bool :=
  match encBitToHashBit i with Some j => getHashBit h j | None => false end.

(** Six bits packed most significant first, as both loops do. *)
Definition pack6 (f : nat → bool) : Z :=
  fold_left (λ val b, if f b then Z.lor val (Z.shiftl 1 (Z.of_nat (5 - b))) else val)
    (seq 0 6) 0.

Lemma pack6_spec f :
  0 ≤ pack6 f < 64 ∧
  ∀ b, (b < 6)%nat → Z.testbit (pack6 f) (Z.of_nat (5 - b)) = f b.
Proof.
  assert (∀ b0 b1 b2 b3 b4 b5 : bool,
    let v := pack6 (λ i, nth i [b0; b1; b2; b3; b4; b5] false) in
    ((0 <=? v) && (v <? 64) &&
     forallb (λ b, Bool.eqb (Z.testbit v (Z.of_nat (5 - b))) (nth b [b0; b1; b2; b3; b4; b5] false)) (seq 0 6)) = true) as Hall
    by (intros [] [] [] [] [] []; vm_compute; reflexivity).
  assert (pack6 f = pack6 (λ i, nth i [f 0%nat; f 1%nat; f 2%nat; f 3%nat; f 4%nat; f 5%nat] false)) as Heq by reflexivity.
  specialize (Hall (f 0%nat) (f 1%nat) (f 2%nat) (f 3%nat) (f 4%nat) (f 5%nat)). cbv zeta in Hall. rewrite <- Heq in Hall.
  apply andb_true_iff in Hall as [[H1 H2]%andb_true_iff H3]. split; [lia|]. intros b Hb.
  rewrite forallb_forall in H3. specialize (H3 b ltac:(apply in_seq; lia)). apply eqb_prop in H3. rewrite H3.
  by do 6 (destruct b as [|b]; [done|]); lia.
Qed.

Lemma pack6_testbits v :
  0 ≤ v < 64 → pack6 (λ b, Z.testbit v (Z.of_nat (5 - b))) = v.
Proof.
  intros Hv. destruct (pack6_spec (λ b, Z.testbit v (Z.of_nat (5 - b)))) as [Hr Hs].
  assert (∀ x k, 0 ≤ x < 64 → 6 ≤ k → Z.testbit x k = false) as Hhigh.
  { intros x k Hx Hk. destruct (decide (x = 0)) as [->|]; [apply Z.bits_0|].
    apply Z.bits_above_log2; [lia|]. apply Z.log2_lt_pow2; [lia|].
    apply Z.lt_le_trans with (2 ^ 6); [lia|]. apply Z.pow_le_mono_r; lia. }
  apply Z.bits_inj'. intros k Hk. destruct (decide (6 ≤ k)).
  { by rewrite !Hhigh. }
  specialize (Hs (5 - Z.to_nat k)%nat ltac:(lia)).
  by replace (Z.of_nat (5 - (5 - Z.to_nat k))) with k in Hs by lia.
Qed.

Lemma encode_val_pack6 h i : encode_val h i = pack6 (λ b, stream_bit h (i * 6 + b)).
Proof.
  unfold encode_val, pack6, stream_bit. generalize (seq 0 6) 0. intros l.
  induction l as [|b l IH]; intros acc; simpl; [done|].
  rewrite IH. by destruct (encBitToHashBit _).
Qed.

Lemma encode_val_range h i : 0 ≤ encode_val h i < 64.
Proof. rewrite encode_val_pack6. apply pack6_spec. Qed.

Lemma encode_val_bit h i b :
  (b < 6)%nat →
  Z.testbit (encode_val h i) (Z.of_nat (5 - b)) = stream_bit h (i * 6 + b).
Proof.
  intros. rewrite encode_val_pack6.
  by apply (proj2 (pack6_spec (λ b, stream_bit h (i * 6 + b)))).
Qed.

(** ** The alphabet *)

Lemma alphabet_decodeChar v :
  0 ≤ v < 64 → decodeChar (alphabet !!! Z.to_nat v) = Some v.
Proof.
  intros Hv.
  assert (Forall (λ v, decodeChar (alphabet !!! Z.to_nat v) = Some v)
            (Z.of_nat <$> seq 0 64)) as Hall.
  { repeat constructor. }
  rewrite Forall_forall in Hall. apply Hall.
  apply list_elem_of_fmap. exists (Z.to_nat v). rewrite elem_of_seq. lia.
Qed.

Lemma decodeChar_alphabet c v :
  decodeChar c = Some v → 0 ≤ v < 64 ∧ alphabet !!! Z.to_nat v = c.
Proof.
  destruct c; intros H; vm_compute in H;
    first [discriminate H | injection H as <-; split; [lia|done]].
Qed.

Lemma decode_vals_alphabet vs i :
  Forall (λ v, 0 ≤ v < 64) vs →
  decode_vals i ((λ v, alphabet !!! Z.to_nat v) <$> vs) = Ret vs.
Proof.
  intros Hvs. revert i. induction Hvs as [|v vs Hv _ IH]; intros i; [done|].
  rewrite fmap_cons. cbn [decode_vals]. rewrite alphabet_decodeChar by done.
  by rewrite IH.
Qed.

Lemma decode_vals_ret s i vs :
  decode_vals i s = Ret vs →
  Forall (λ v, 0 ≤ v < 64) vs ∧ s = (λ v, alphabet !!! Z.to_nat v) <$> vs.
Proof.
  revert i vs. induction s as [|c s IH]; intros i vs; cbn [decode_vals].
  { intros [= <-]. by split. }
  destruct (decodeChar c) as [v|] eqn:Hc; [|done]. intros H. inv_ret.
  rename select (decode_vals _ _ = _) into Hvs.
  apply decodeChar_alphabet in Hc as [Hv <-]. apply IH in Hvs as [Hvs ->]. split; [by constructor|done].
Qed.

(** ** The decoder's bits *)

Lemma is_hash_zero : is_hash zero_hash.
Proof. done. Qed.

Lemma fold_setHashBit vals l h :
  is_hash h → Forall (λ e, 1 ≤ e ≤ 256)%nat l →
  let h' := fold_left (λ h encBit,
    if encBitSet vals encBit
    then setHashBit h (default 0%nat (encBitToHashBit encBit)) else h) l h in
  is_hash h' ∧ ∀ j, (j < 256)%nat →
    getHashBit h' j = getHashBit h j || (bool_decide (S j ∈ l) && encBitSet vals (S j)).
Proof.
  intros Hh Hl. revert h Hh. induction Hl as [|e l He Hl IH]; intros h Hh h'.
  { split; [done|]. intros j Hj. simpl. by rewrite orb_false_r. }
  subst h'. simpl.
  assert (encBitToHashBit e = Some (e - 1)%nat) as Hbit.
  { unfold encBitToHashBit. destruct (Nat.eqb_spec e 0), (Nat.leb_spec 257 e); done || lia. }
  rewrite Hbit. simpl.
  set (h1 := if encBitSet vals e then setHashBit h (e - 1) else h).
  assert (is_hash h1) as Hh1.
  { subst h1. unfold is_hash. destruct (encBitSet vals e); [by rewrite length_setHashBit|done]. }
  destruct (IH h1 Hh1) as [Hlen Hget]. split; [done|].
  intros j Hj. rewrite Hget by done. subst h1.
  destruct (decide (e = S j)) as [->|Hne].
  - rewrite (bool_decide_eq_true_2 (S j ∈ S j :: l)) by (constructor).
    destruct (encBitSet vals (S j)).
    + rewrite getHashBit_setHashBit by (done || lia).
      assert ((S j - 1 =? j)%nat = true) as -> by (apply Nat.eqb_eq; lia).
      simpl. by rewrite orb_true_r.
    + by rewrite !andb_false_r.
  - assert (bool_decide (S j ∈ e :: l) = bool_decide (S j ∈ l)) as ->.
    { apply bool_decide_ext. rewrite elem_of_cons.
      split; [intros [?|?]; congruence|by right]. }
    destruct (encBitSet vals e); [|done].
    rewrite getHashBit_setHashBit by (done || lia).
    replace (e - 1 =? j)%nat with false; [done|].
    symmetry. apply Nat.eqb_neq. lia.
Qed.

Lemma decode_bits_spec vals :
  is_hash (decode_bits vals) ∧
  ∀ j, (j < 256)%nat → getHashBit (decode_bits vals) j = encBitSet vals (S j).
Proof.
  destruct (fold_setHashBit vals (seq 1 256) zero_hash is_hash_zero) as [Hl Hg].
  { apply Forall_forall. intros e He. apply elem_of_seq in He. lia. }
  split; [exact Hl|]. intros j Hj. unfold decode_bits. rewrite Hg by done.
  rewrite bool_decide_eq_true_2 by (apply elem_of_seq; lia).
  replace (getHashBit zero_hash j) with false; [done|].
  rewrite getHashBit_testbit. unfold zero_hash. symmetry.
  rewrite lookup_total_replicate_2.
  - apply Z.bits_0.
  - apply Nat.Div0.div_lt_upper_bound. unfold Size. lia.
Qed.

(** ** Encode and Decode are inverse *)

Lemma length_Encode h : length (Encode h) = EncodedSize.
Proof. unfold Encode. by rewrite length_fmap, length_seq. Qed.
Lemma Encode_not_nil h : Encode h ≠ [].
Proof. intros Heq%(f_equal length). by rewrite length_Encode in Heq. Qed.

Lemma Encode_vals h :
  Encode h = (λ v, alphabet !!! Z.to_nat v) <$> (encode_val h <$> seq 0 EncodedSize).
Proof. unfold Encode. by rewrite <- list_fmap_compose. Qed.

Lemma encBitSet_encode h i :
  (i < 258)%nat → encBitSet (encode_val h <$> seq 0 EncodedSize) i = stream_bit h i.
Proof.
  intros Hi. rewrite encBitSet_testbit.
  pose proof (Nat.div_mod_eq i 6). pose proof (Nat.mod_upper_bound i 6).
  rewrite lookup_total_map_seq
    by (apply Nat.Div0.div_lt_upper_bound; unfold EncodedSize; lia).
  rewrite encode_val_bit by lia. f_equal. lia.
Qed.

Lemma Decode_Encode_hash h : is_hash h → Decode (Encode h) = Ret h.
Proof.
  intros Hh. unfold Decode.
  rewrite guard_false_bind by (by rewrite length_Encode).
  rewrite Encode_vals, decode_vals_alphabet, ret_bind.
  2:{ apply Forall_fmap, Forall_forall. intros i _. apply encode_val_range. }
  rewrite !guard_false_bind by (by rewrite encBitSet_encode by lia). f_equal.
  destruct (decode_bits_spec (encode_val h <$> seq 0 EncodedSize)) as [Hl Hg].
  apply hash_bits_eq; [done..|]. intros j Hj. rewrite Hg by done.
  rewrite encBitSet_encode by lia. unfold stream_bit, encBitToHashBit.
  destruct (Nat.leb_spec 257 (S j)); [lia|]. simpl. f_equal. lia.
Qed.

Lemma Decode_ret_Encode s h : Decode s = Ret h → is_hash h ∧ Encode h = s.
Proof.
  unfold Decode. intros H. inv_ret.
  rename select (decode_vals 0 s = Ret ?[v]) into Hvals.
  rename select (list Z) into vals.
  rename select (negb _ = false) into Hlen0. apply negb_false_iff, Nat.eqb_eq in Hlen0.
  apply decode_vals_ret in Hvals as [Hr Hs].
  destruct (decode_bits_spec vals) as [Hl Hg]. split; [done|].
  assert (length vals = EncodedSize) as Hlen.
  { rewrite Hs, length_fmap in Hlen0. done. }
  rewrite Encode_vals, Hs. f_equal.
  apply list_eq_total; [by rewrite length_fmap, length_seq|].
  rewrite length_fmap, length_seq. intros i Hi.
  rewrite lookup_total_map_seq by done.
  assert (0 ≤ vals !!! i < 64) as Hvi.
  { rewrite Forall_lookup in Hr. apply (Hr i).
    apply list_lookup_lookup_total_lt. lia. }
  rewrite <- (pack6_testbits (vals !!! i)) by done. rewrite encode_val_pack6.
  assert (∀ b, (b < 6)%nat → stream_bit (decode_bits vals) (i * 6 + b)
     = Z.testbit (vals !!! i) (Z.of_nat (5 - b))) as Hbits.
  { intros b Hb. unfold EncodedSize in Hi.
    assert (encBitSet vals (i * 6 + b) = Z.testbit (vals !!! i) (Z.of_nat (5 - b))) as <-.
    { rewrite encBitSet_testbit, Nat.div_add_l, Nat.div_small, Nat.add_0_r by lia.
      by rewrite Nat.add_comm, Nat.Div0.mod_add, Nat.mod_small by lia. }
    unfold stream_bit, encBitToHashBit.
    destruct (Nat.eqb_spec (i * 6 + b) 0) as [->|]; [simpl; congruence|].
    destruct (Nat.leb_spec 257 (i * 6 + b)); simpl.
    { replace (i * 6 + b)%nat with 257%nat by lia. congruence. }
    rewrite Hg by lia. f_equal. lia. }
  unfold pack6. simpl. rewrite !Hbits by lia. done.
Qed.

(** ** Properties *)

(** [Decode] accepts a string exactly when it is the encoding of a hash,
    and returns that hash: [Encode] and [Decode] are inverse bijections between
    32-byte hashes and canonical 43-character strings, so two different strings
    never name the same snap. *)
Theorem snap_id_codec_exact s h : Decode s = Ret h ↔ is_hash h ∧ s = Encode h.
Proof.
  split.
  - intros [Hh <-]%Decode_ret_Encode. done.
  - intros [Hh ->]. by apply Decode_Encode_hash.
Qed.

(** Every character of an encoded ID is a letter, a digit, a dash or an
    underscore. *)
Definition id_char (c : byte) : bool := bool_decide (is_Some (decodeChar c)).

(** An encoded snap ID always has 43 characters of the base64url alphabet
    (so it is one safe path component), and its first character is never a dash
    or an underscore, so it is never taken for a command-line flag. *)
Theorem snap_id_flag_safe h :
  length (Encode h) = EncodedSize ∧
  Forall (λ c, id_char c = true) (Encode h) ∧
  Encode h !!! 0%nat ≠ "-"%byte ∧ Encode h !!! 0%nat ≠ "_"%byte.
Proof.
  split; [apply length_Encode|]. split.
  { unfold Encode. apply Forall_fmap, Forall_forall. intros i _. simpl.
    unfold id_char. apply bool_decide_eq_true_2.
    rewrite alphabet_decodeChar by apply encode_val_range. eauto. }
  assert (decodeChar (Encode h !!! 0%nat) = Some (encode_val h 0)) as Hc.
  { unfold Encode. rewrite lookup_total_map_seq by (unfold EncodedSize; lia).
    apply alphabet_decodeChar, encode_val_range. }
  assert (encode_val h 0 < 32) as Hlt.
  { pose proof (encode_val_range h 0). pose proof (encode_val_bit h 0 0 ltac:(lia)) as Hb.
    change (stream_bit h (0 * 6 + 0)) with false in Hb.
    destruct (Z.ltb_spec (encode_val h 0) 32); [done|].
    rewrite Z.testbit_eqb in Hb by lia. apply Z.eqb_neq in Hb.
    change (2 ^ Z.of_nat (5 - 0)) with 32 in Hb.
    assert (encode_val h 0 / 32 = 1) as Hdiv by (Z.to_euclidean_division_equations; lia).
    rewrite Hdiv in Hb. done. }
  assert (decodeChar "-"%byte = Some 62 ∧ decodeChar "_"%byte = Some 63) as [H62 H63] by done.
  split; intros Heq; rewrite Heq, ?H62, ?H63 in Hc; injection Hc as Hc; lia.
Qed.

(** A failed [UnmarshalText] leaves the hash alone. *)
Lemma UnmarshalText_error h text e :
  Decode text = Err e → UnmarshalText h text = (h, Some e).
Proof. unfold UnmarshalText. by intros ->. Qed.

Lemma UnmarshalText_MarshalText h h' :
  is_hash h → UnmarshalText h' (MarshalText h) = (h, None).
Proof.
  intros. unfold UnmarshalText, MarshalText. by rewrite Decode_Encode_hash.
Qed.
