(* ===== verification/VshdProto.v ===== *)
(** * The TLV framing of a vshd session ([src/vshdproto/vshdproto.go])

    A frame is a type byte, a 32-bit big-endian payload length and the payload.
    The reader and writer are the byte streams of [GoIO]. *)

From S2P Require Import Prelude GoIO.

Definition FrameStdin : byte := Byte.x01.
Definition FrameStdout : byte := Byte.x02.
Definition FrameStderr : byte := Byte.x03.
Definition FrameWinsize : byte := Byte.x04.
Definition FrameExit : byte := Byte.x05.
Definition FrameSignal : byte := Byte.x06.

Definition maxFrameLen : Z := Z.shiftl 16 20.
Definition headerLen : nat := 5.

Inductive frame_error :=
| PayloadTooLarge (len : Z)
| FrameTooLong (len : Z)
| BadPayloadSize (len want : nat)
| FrameIO (e : io_error).

(** [WriteFrame(w, typ, payload)]: the writer afterwards and the error. *)
Definition WriteFrame (w : writer) (typ : byte) (payload : list byte)
    : writer * option frame_error :=
  if Z.of_nat (length payload) >? maxFrameLen
  then (w, Some (PayloadTooLarge (Z.of_nat (length payload))))
  else
    let hdr := typ :: put32 (u32 (Z.of_nat (length payload))) in
    match Write w hdr with
    | (w1, Some e) => (w1, Some (FrameIO e))
    | (w1, None) =>
        if (0 <? length payload)%nat then
          match Write w1 payload with
          | (w2, Some e) => (w2, Some (FrameIO e))
          | (w2, None) => (w2, None)
          end
        else (w1, None)
    end.

(** [ReadFrame(r)]: the type, the payload and the rest of the stream. *)
Definition ReadFrame (r : list byte) : outcome frame_error (byte * list byte * list byte) :=
  '(hdr, r1) ← wrap_err FrameIO (ReadFull headerLen r);
  let n := be_get (drop 1 hdr) in
  guard_err (n >? maxFrameLen) (FrameTooLong n);;
  if n =? 0 then Ret (hdr !!! 0%nat, [], r1)
  else
    match ReadFull (Z.to_nat n) r1 with
    | Err EOF => Err (FrameIO ErrUnexpectedEOF)
    | Err e => Err (FrameIO e)
    | Ret (payload, r2) => Ret (hdr !!! 0%nat, payload, r2)
    | Panic => Panic
    end.

(** [type Winsize struct]; the fields are [uint16]. *)
Record Winsize := { Rows : Z; Cols : Z; X : Z; Y : Z }.

Definition winsize_ok (ws : Winsize) : Prop :=
  is_u16 (Rows ws) ∧ is_u16 (Cols ws) ∧ is_u16 (X ws) ∧ is_u16 (Y ws).

Definition EncodeWinsize (ws : Winsize) : list byte :=
  put16 (Rows ws) ++ put16 (Cols ws) ++ put16 (X ws) ++ put16 (Y ws).

Definition DecodeWinsize (payload : list byte) : outcome frame_error Winsize :=
  guard_err (negb (length payload =? 8)%nat) (BadPayloadSize (length payload) 8);;
  Ret {| Rows := be_get (take 2 payload);
         Cols := be_get (take 2 (drop 2 payload));
         X := be_get (take 2 (drop 4 payload));
         Y := be_get (take 2 (drop 6 payload)) |}.

(** Exit codes and signal numbers are [int32]. *)
Definition EncodeExit (code : Z) : list byte := put32 (u32 code).

Definition DecodeExit (payload : list byte) : outcome frame_error Z :=
  guard_err (negb (length payload =? 4)%nat) (BadPayloadSize (length payload) 4);;
  Ret (i32 (be_get payload)).

Definition EncodeSignal (sig : Z) : list byte := EncodeExit sig.

Definition DecodeSignal (payload : list byte) : outcome frame_error Z :=
  guard_err (negb (length payload =? 4)%nat) (BadPayloadSize (length payload) 4);;
  Ret (i32 (be_get payload)).

(** ** Lemmas *)

(** The bytes of one frame on the wire. *)
Definition frame_bytes (typ : byte) (payload : list byte) : list byte :=
  typ :: put32 (Z.of_nat (length payload)) ++ payload.

Lemma length_frame_bytes typ payload :
  length (frame_bytes typ payload) = (headerLen + length payload)%nat.
Proof. unfold frame_bytes, headerLen. simpl. rewrite length_app, length_put32. lia. Qed.

Lemma payload_len_u32 payload :
  Z.of_nat (length payload) ≤ maxFrameLen → is_u32 (Z.of_nat (length (A:=byte) payload)).
Proof. unfold maxFrameLen. rewrite Z.shiftl_mul_pow2 by lia. unfold_ints. lia. Qed.

Lemma WriteFrame_ok w typ payload :
  Z.of_nat (length payload) ≤ maxFrameLen → w_left w = None →
  WriteFrame w typ payload = (Writer (w_out w ++ frame_bytes typ payload) None, None).
Proof.
  intros Hl Hw. unfold WriteFrame.
  destruct (Z.gtb_spec (Z.of_nat (length payload)) maxFrameLen); [lia|].
  rewrite u32_id by by apply payload_len_u32.
  unfold Write at 1. rewrite Hw. unfold frame_bytes.
  destruct (Nat.ltb_spec 0 (length payload)).
  - unfold Write. simpl. by rewrite <- app_assoc.
  - destruct payload; [by rewrite app_nil_r|simpl in *; lia].
Qed.

Lemma ReadFrame_frame_bytes typ payload rest :
  Z.of_nat (length payload) ≤ maxFrameLen →
  ReadFrame (frame_bytes typ payload ++ rest) = Ret (typ, payload, rest).
Proof.
  intros Hl. unfold ReadFrame, frame_bytes.
  replace ((typ :: put32 (Z.of_nat (length payload)) ++ payload) ++ rest)
    with ((typ :: put32 (Z.of_nat (length payload))) ++ payload ++ rest)
    by (simpl; by rewrite <- app_assoc).
  rewrite ReadFull_app by done. rewrite wrap_ret, ret_bind.
  cbn [skipn]. rewrite drop_0, get_put32, u32_id by by apply payload_len_u32.
  rewrite guard_false_bind by lia.
  destruct (Z.eqb_spec (Z.of_nat (length payload)) 0).
  - by destruct payload; [|simpl in *; lia].
  - rewrite Nat2Z.id, ReadFull_app by done. done.
Qed.

(** A stream that ends inside a frame. *)
Lemma ReadFrame_truncated typ payload p q :
  Z.of_nat (length payload) ≤ maxFrameLen →
  frame_bytes typ payload = p ++ q → q ≠ [] →
  ReadFrame p = Err (FrameIO (if bool_decide (p = []) then EOF else ErrUnexpectedEOF)).
Proof.
  intros Hl Hpq Hq. unfold ReadFrame.
  assert (length q ≠ 0)%nat by (by destruct q).
  pose proof (f_equal length Hpq) as Hlen.
  rewrite length_frame_bytes, length_app in Hlen.
  destruct (decide (length p < headerLen)%nat) as [Hshort|Hlong].
  { by rewrite ReadFull_short. }
  assert (∃ p', p = (typ :: put32 (Z.of_nat (length payload))) ++ p') as [p' ->].
  { exists (drop headerLen p). unfold frame_bytes in Hpq.
    apply (f_equal (take headerLen)) in Hpq.
    rewrite (take_app_le p) in Hpq by lia.
    rewrite <- (take_drop headerLen p) at 1. f_equal. rewrite <- Hpq.
    change (typ :: ?a ++ ?b) with ((typ :: a) ++ b).
    by rewrite take_app_length'. }
  rewrite ReadFull_app by done. rewrite wrap_ret, ret_bind. cbn [skipn].
  rewrite drop_0, get_put32, u32_id by by apply payload_len_u32.
  rewrite guard_false_bind by lia. rewrite length_app in Hlen, Hlong. simpl length in Hlen.
  rewrite length_put32 in Hlen.
  destruct (Z.eqb_spec (Z.of_nat (length payload)) 0); [unfold headerLen in *; lia|].
  rewrite Nat2Z.id, ReadFull_short by (unfold headerLen in *; lia).
  by case_bool_decide.
Qed.

Lemma ReadFrame_no_panic r : no_panic (ReadFrame r).
Proof.
  unfold ReadFrame, ReadFull. destruct (_ <=? _)%nat; [|by destruct r].
  rewrite wrap_ret, ret_bind. apply no_panic_bind; [apply no_panic_guard|].
  intros _ _. destruct (_ =? _); [done|].
  destruct (_ <=? _)%nat; [done|]. by destruct (drop headerLen r).
Qed.

(** ** Properties *)

(** A reader loop over the whole stream, as the session code runs it: read
    frames until the first error. *)
Fixpoint read_frames (fuel : nat) (r : list byte) : list (byte * list byte) * option frame_error :=
  match fuel with
  | O => ([], None)
  | S fuel' =>
      match ReadFrame r with
      | Ret (typ, payload, r') =>
          let '(fs, e) := read_frames fuel' r' in ((typ, payload) :: fs, e)
      | Err e => ([], Some e)
      | Panic => ([], None)
      end
  end.

Lemma read_frames_step fuel r typ payload r' :
  ReadFrame r = Ret (typ, payload, r') →
  read_frames (S fuel) r =
    (let '(fs, e) := read_frames fuel r' in ((typ, payload) :: fs, e)).
Proof. cbn [read_frames]. by intros ->. Qed.

(** Write a list of frames in order. *)
Definition write_frames (w : writer) (fs : list (byte * list byte)) : writer :=
  fold_left (λ w '(typ, payload), fst (WriteFrame w typ payload)) fs w.

Lemma write_frames_bytes w fs :
  w_left w = None →
  Forall (λ f, Z.of_nat (length f.2) ≤ maxFrameLen) fs →
  w_out (write_frames w fs) = w_out w ++ concat ((λ f, frame_bytes f.1 f.2) <$> fs).
Proof.
  intros Hw Hfs. revert w Hw. induction Hfs as [|[typ payload] fs Hf Hfs IH]; intros w Hw.
  { by rewrite app_nil_r. }
  cbn [write_frames fold_left]. rewrite WriteFrame_ok by done.
  unfold write_frames in IH. rewrite IH by done. simpl. by rewrite <- app_assoc.
Qed.

(** Framing is lossless: whatever frames the peer writes (each within the
    16 MiB limit), the reader gets exactly those frames, in order and with their
    boundaries, and then a clean [EOF]. *)
Theorem vshd_stream_roundtrip fs :
  Forall (λ f, Z.of_nat (length f.2) ≤ maxFrameLen) fs →
  read_frames (S (length fs)) (w_out (write_frames (Writer [] None) fs))
    = (fs, Some (FrameIO EOF)).
Proof.
  intros Hfs. rewrite write_frames_bytes by done. cbn [w_out app].
  induction Hfs as [|[typ payload] fs Hf Hfs IH]; [done|].
  rewrite fmap_cons. cbn [length concat fst snd].
  erewrite read_frames_step by (by apply ReadFrame_frame_bytes).
  by rewrite IH.
Qed.

Lemma vshd_stream_roundtrip_witness :
  let fs := [(FrameStdout, [Byte.x41; Byte.x42]); (FrameExit, EncodeExit (-1))] in
  Forall (λ f : byte * list byte, Z.of_nat (length f.2) ≤ maxFrameLen) fs ∧
  read_frames 3 (w_out (write_frames (Writer [] None) fs)) = (fs, Some (FrameIO EOF)).
Proof.
  split; [repeat constructor; done|].
  apply (vshd_stream_roundtrip [(FrameStdout, [Byte.x41; Byte.x42]); (FrameExit, EncodeExit (-1))]).
  repeat constructor; done.
Defined.

(** A stream cut inside a frame is never mistaken for a clean close or for a
    shorter frame: reading it reports [EOF] only when not a single byte of the
    frame had arrived and [ErrUnexpectedEOF] otherwise. *)
Theorem vshd_truncation_detected typ payload p q :
  Z.of_nat (length payload) ≤ maxFrameLen →
  w_out (fst (WriteFrame (Writer [] None) typ payload)) = p ++ q → q ≠ [] →
  ReadFrame p = Err (FrameIO (if bool_decide (p = []) then EOF else ErrUnexpectedEOF)).
Proof.
  intros Hl Hpq Hq. rewrite WriteFrame_ok in Hpq by done. cbn [fst w_out app] in Hpq.
  eapply ReadFrame_truncated; eauto.
Qed.

Lemma vshd_truncation_detected_witness :
  ReadFrame [FrameStdout; Byte.x00; Byte.x00; Byte.x00; Byte.x02; Byte.x41]
    = Err (FrameIO ErrUnexpectedEOF).
Proof.
  apply (vshd_truncation_detected FrameStdout [Byte.x41; Byte.x42]
    [FrameStdout; Byte.x00; Byte.x00; Byte.x00; Byte.x02; Byte.x41] [Byte.x42]); done.
Defined.

(** Payload codecs. *)
Lemma DecodeWinsize_Encode ws : winsize_ok ws → DecodeWinsize (EncodeWinsize ws) = Ret ws.
Proof.
  intros (?&?&?&?). unfold DecodeWinsize, EncodeWinsize.
  rewrite guard_false_bind by done.
  destruct ws as [a b c d]; simpl in *. do 2 f_equal;
    change (be_get (put16 a) = a) || change (be_get (put16 b) = b) ||
    change (be_get (put16 c) = c) || change (be_get (put16 d) = d);
    rewrite get_put16; by apply u16_id.
Qed.

Lemma DecodeExit_Encode code : is_i32 code → DecodeExit (EncodeExit code) = Ret code.
Proof.
  intros. unfold DecodeExit, EncodeExit. rewrite guard_false_bind by done.
  rewrite get_put32, (u32_id (u32 code)) by apply u32_range. by rewrite i32_u32.
Qed.

(** The fixed-size payloads survive the wire: a window size, an exit code
    and a signal number decode to the value encoded, negative numbers included,
    and a payload of any other length is rejected. *)
Theorem vshd_payload_codecs ws code payload :
  (winsize_ok ws → DecodeWinsize (EncodeWinsize ws) = Ret ws) ∧
  (is_i32 code → DecodeExit (EncodeExit code) = Ret code ∧
                 DecodeSignal (EncodeSignal code) = Ret code) ∧
  (length payload ≠ 8%nat → is_ret (DecodeWinsize payload) = false) ∧
  (length payload ≠ 4%nat → is_ret (DecodeExit payload) = false ∧
                            is_ret (DecodeSignal payload) = false).
Proof.
  split_and!.
  - apply DecodeWinsize_Encode.
  - intros. split; by apply DecodeExit_Encode.
  - intros Hl%Nat.eqb_neq. unfold DecodeWinsize. by rewrite Hl.
  - intros Hl%Nat.eqb_neq. unfold DecodeExit, DecodeSignal. by rewrite Hl.
Qed.
