(* ===== verification/McpExec.v ===== *)
(** * Collecting the output of a command ([src/mcpexec/collect.go])

    [CollectFrames] reads the vshd frames of a one-shot session, folds standard
    output and standard error into one text, caps it at 1 MiB on a rune boundary
    and removes what is not UTF-8. *)

From Stdlib Require Import Strings.String.
From S2P Require Import Prelude GoUtf8 GoStrings GoIO VshdProto.

Definition maxOutputSize : nat := Z.to_nat (Z.shiftl 1 20).

Definition newline : byte := "010"%byte.

Definition truncationMarker : gostring :=
  newline :: newline :: bs "... output truncated (exceeded 1 MiB) ...".

(** [type ExecResult struct]; the exit code is an [int32] widened to [int]. *)
Record ExecResult := { Output : gostring; ExitCode : Z; Truncated : bool }.

Definition finalizeOutput (s : gostring) : gostring := ToValidUTF8 s.

Definition is_output (typ : byte) : bool :=
  bool_decide (typ = FrameStdout) || bool_decide (typ = FrameStderr).

(** What is kept of the payload that runs over the cap. *)
Definition trim_payload (remaining : nat) (payload : gostring) : gostring :=
  if (0 <? remaining)%nat then take (rune_cut payload remaining) payload else [].

(** The loop of [CollectFrames]; a frame takes at least five bytes, so as many
    rounds as the stream has bytes, and one more, are enough. The branch that
    drops frames once [Truncated] is set is never reached: the loop returns in
    the same round that sets it. *)
Fixpoint collect (fuel : nat) (r : list byte) (output : gostring)
    : option (ExecResult * option frame_error) :=
  match fuel with
  | O => None
  | S fuel' =>
      match ReadFrame r with
      | Panic => None
      | Err e =>
          Some ({| Output := finalizeOutput output; ExitCode := 0; Truncated := false |},
                match e with
                | FrameIO EOF | FrameIO ErrUnexpectedEOF => None
                | _ => Some e
                end)
      | Ret (typ, payload, r') =>
          if is_output typ then
            if (maxOutputSize <? length output + length payload)%nat then
              let remaining := (maxOutputSize - length output)%nat in
              let output' := output ++ trim_payload remaining payload ++ truncationMarker in
              Some ({| Output := finalizeOutput output'; ExitCode := 0; Truncated := true |}, None)
            else collect fuel' r' (output ++ payload)
          else if bool_decide (typ = FrameExit) then
            Some ({| Output := finalizeOutput output;
                     ExitCode := match DecodeExit payload with Ret code => code | _ => 0 end;
                     Truncated := false |}, None)
          else collect fuel' r' output
      end
  end.

Definition CollectFrames (r : list byte) : option (ExecResult * option frame_error) :=
  collect (S (length r)) r [].

Definition FormatExit (result : ExecResult) : gostring :=
  if ExitCode result =? 0 then
    match Output result with
    | [] => bs "Exit code: 0 (no output)"
    | out => out
    end
  else bs "Exit code: " ++ fmt_int (ExitCode result) ++ [newline; newline] ++ Output result.

(** ** Specification *)

(** The frames of a session up to its end: the output frames before the first
    exit frame, and the exit code. *)
Fixpoint session_output (fs : list (byte * gostring)) : list gostring :=
  match fs with
  | [] => []
  | (typ, payload) :: fs' =>
      if is_output typ then payload :: session_output fs'
      else if bool_decide (typ = FrameExit) then []
      else session_output fs'
  end.

Fixpoint session_code (fs : list (byte * gostring)) : Z :=
  match fs with
  | [] => 0
  | (typ, payload) :: fs' =>
      if is_output typ then session_code fs'
      else if bool_decide (typ = FrameExit)
           then match DecodeExit payload with Ret code => code | _ => 0 end
           else session_code fs'
  end.

(** The longest run of whole frames and then of whole runes of the next frame
    that fits under the cap. *)
Fixpoint capped (room : nat) (outs : list gostring) : gostring :=
  match outs with
  | [] => []
  | p :: outs' =>
      if (length p <=? room)%nat then p ++ capped (room - length p) outs'
      else trim_payload room p
  end.

(** ** Lemmas *)

Lemma ReadFrame_rest r typ payload r' :
  ReadFrame r = Ret (typ, payload, r') → (length r' < length r)%nat.
Proof.
  unfold ReadFrame. intros H. apply bind_ret_inv in H as ([hdr r1] & Hh & H).
  apply wrap_err_inv, ReadFull_ret in Hh as [-> Hh].
  apply bind_ret_inv in H as (_ & _ & H). rewrite length_app, Hh. unfold headerLen.
  destruct (_ =? _); [injection H as <- <- <-; lia|].
  destruct (ReadFull _ r1) as [[p r2]|[]|] eqn:Hp; try done. injection H as <- <- <-.
  apply ReadFull_ret in Hp as [-> _]. rewrite length_app. lia.
Qed.

Lemma collect_total fuel r output : (length r < fuel)%nat → is_Some (collect fuel r output).
Proof.
  revert r output. induction fuel as [|fuel IH]; intros r output Hf; [lia|]. cbn [collect].
  pose proof (ReadFrame_no_panic r) as Hnp.
  destruct (ReadFrame r) as [[[typ payload] r']|e|] eqn:Hr; [|by eexists|done].
  apply ReadFrame_rest in Hr.
  destruct (is_output typ); [|case_bool_decide; [by eexists|apply IH; lia]].
  destruct (_ <? _)%nat; [by eexists|apply IH; lia].
Qed.

Lemma trim_payload_length room p : (length (trim_payload room p) ≤ room)%nat.
Proof.
  unfold trim_payload. destruct (Nat.ltb_spec 0 room); [|simpl; lia].
  pose proof (rune_cut_spec p room) as (? & _). len_lia.
Qed.

Lemma marker_start s : ToValidUTF8 (s ++ truncationMarker) = ToValidUTF8 s ++ truncationMarker.
Proof. rewrite ToValidUTF8_app by done. f_equal. Qed.

(** Whatever the stream holds, the result is well-formed text of bounded size. *)
Lemma collect_bounded fuel r output res e :
  collect fuel r output = Some (res, e) → (length output ≤ maxOutputSize)%nat →
  utf8_valid (Output res) ∧
  (length (Output res) ≤ maxOutputSize + (if Truncated res then length truncationMarker else 0))%nat.
Proof.
  revert r output. induction fuel as [|fuel IH]; intros r output H Hout; [done|]. cbn [collect] in H.
  destruct (ReadFrame r) as [[[typ payload] r']|e'|]; [| |done].
  - destruct (is_output typ).
    + destruct (Nat.ltb_spec maxOutputSize (length output + length payload)).
      * injection H as <- <-. cbn [Output Truncated]. unfold finalizeOutput.
        split; [apply ToValidUTF8_valid|].
        rewrite app_assoc, marker_start, length_app.
        pose proof (ToValidUTF8_length (output ++ trim_payload (maxOutputSize - length output) payload)) as Hl.
        pose proof (trim_payload_length (maxOutputSize - length output) payload).
        rewrite length_app in Hl. lia.
      * eapply IH; [done|]. rewrite length_app. lia.
    + case_bool_decide; [|by eapply IH]. injection H as <- <-. cbn [Output Truncated].
      split; [apply ToValidUTF8_valid|]. pose proof (ToValidUTF8_length output).
      unfold finalizeOutput. lia.
  - injection H as <- <-. cbn [Output Truncated].
    split; [apply ToValidUTF8_valid|]. pose proof (ToValidUTF8_length output).
    unfold finalizeOutput. lia.
Qed.

(** The stream of a list of frames, and the loop on it. *)
Definition stream (fs : list (byte * gostring)) : list byte :=
  concat ((λ f, frame_bytes f.1 f.2) <$> fs).

Lemma ReadFrame_stream f fs :
  Z.of_nat (length f.2) ≤ maxFrameLen → ReadFrame (stream (f :: fs)) = Ret (f.1, f.2, stream fs).
Proof.
  intros. unfold stream. rewrite fmap_cons, concat_cons. by apply ReadFrame_frame_bytes.
Qed.

Lemma stream_length fs : (length fs < S (length (stream fs)))%nat.
Proof.
  induction fs as [|[typ payload] fs IH]; [cbn; lia|].
  unfold stream in *. rewrite fmap_cons, concat_cons, length_app, length_frame_bytes.
  unfold headerLen. cbn [length]. lia.
Qed.

Lemma collect_stream fs fuel output :
  Forall (λ f, Z.of_nat (length f.2) ≤ maxFrameLen) fs →
  (length fs < fuel)%nat → (length output ≤ maxOutputSize)%nat →
  let outs := session_output fs in
  let cap := (maxOutputSize - length output)%nat in
  let fits := (length (concat outs) <=? cap)%nat in
  collect fuel (stream fs) output =
    Some ({| Output := if fits then ToValidUTF8 (output ++ concat outs)
                       else ToValidUTF8 (output ++ capped cap outs) ++ truncationMarker;
             ExitCode := if fits then session_code fs else 0;
             Truncated := negb fits |}, None).
Proof.
  intros Hfs. revert fuel output.
  induction Hfs as [|[typ payload] fs Hf _ IH]; intros fuel output Hfuel Hout.
  all: destruct fuel as [|fuel]; [cbn in Hfuel; lia|]; cbn [length] in Hfuel.
  { cbv zeta. cbn. by rewrite app_nil_r. }
  cbn [collect session_output session_code]. rewrite ReadFrame_stream by done. cbn [fst snd].
  destruct (is_output typ) eqn:Ht; cbv zeta.
  - rewrite concat_cons, length_app. cbn [capped].
    destruct (Nat.ltb_spec maxOutputSize (length output + length payload)).
    + destruct (Nat.leb_spec (length payload + length (concat (session_output fs)))
        (maxOutputSize - length output)); [lia|].
      destruct (Nat.leb_spec (length payload) (maxOutputSize - length output)); [lia|].
      unfold finalizeOutput. by rewrite app_assoc, marker_start.
    + destruct (Nat.leb_spec (length payload) (maxOutputSize - length output)); [|lia].
      rewrite IH by (rewrite ?length_app; lia). cbv zeta. rewrite length_app.
      replace (maxOutputSize - (length output + length payload))%nat
        with (maxOutputSize - length output - length payload)%nat by lia.
      rewrite !app_assoc. do 3 f_equal.
      all: repeat match goal with |- context [(?a <=? ?b)%nat] => destruct (Nat.leb_spec a b) end.
      all: done || lia.
  - case_bool_decide; [|apply IH; lia || done]. cbn [concat length].
    by rewrite app_nil_r.
Qed.

Lemma capped_prefix room outs :
  capped room outs `prefix_of` concat outs ∧ (length (capped room outs) ≤ room)%nat.
Proof.
  revert room. induction outs as [|p outs IH]; intros room; [split; [done|cbn; lia]|].
  cbn [capped]. rewrite concat_cons. destruct (Nat.leb_spec (length p) room).
  - destruct (IH (room - length p)%nat) as [Hp Hl]. split; [by apply prefix_app|].
    rewrite length_app. lia.
  - split; [|apply trim_payload_length]. unfold trim_payload.
    destruct (_ <? _)%nat; [|apply prefix_nil]. apply prefix_app_r, prefix_take.
Qed.

Lemma capped_valid room outs :
  Forall utf8_valid outs → (room < length (concat outs))%nat →
  utf8_valid (capped room outs) ∧ (room ≤ length (capped room outs) + 3)%nat.
Proof.
  intros Houts. revert room. induction Houts as [|p outs Hp _ IH]; intros room Hr; [cbn in Hr; lia|].
  cbn [capped]. rewrite concat_cons, length_app in Hr. destruct (Nat.leb_spec (length p) room).
  - destruct (IH (room - length p)%nat) as [Hv Hl]; [lia|]. split; [by apply utf8_valid_app|].
    rewrite length_app. lia.
  - unfold trim_payload. destruct (Nat.ltb_spec 0 room).
    + destruct (utf8_valid_cut_close p room) as [Hc Hv]; [done|lia|]. split; [done|].
      pose proof (rune_cut_spec p room) as (? & _). len_lia.
    + split; [apply utf8_valid_nil|cbn; lia].
Qed.

(** ** Properties *)

(** Every stream of bytes yields a result of well-formed UTF-8 of at most
    1 MiB and the marker. For a session that writes frames [fs]: output that fits
    is returned whole, less its malformed bytes, with the exit code of the first
    exit frame; output that does not fit is cut to a prefix followed by the
    marker, and when the frames hold whole runes the cut is a rune boundary and
    gives up at most three bytes of the cap. *)
Theorem collect_frames_output r fs :
  (∃ res e, CollectFrames r = Some (res, e) ∧ utf8_valid (Output res) ∧
     (length (Output res) ≤ maxOutputSize + length truncationMarker)%nat) ∧
  (Forall (λ f, Z.of_nat (length f.2) ≤ maxFrameLen) fs →
   let out := concat (session_output fs) in
   if (length out <=? maxOutputSize)%nat
   then CollectFrames (stream fs) =
          Some ({| Output := ToValidUTF8 out; ExitCode := session_code fs; Truncated := false |}, None)
   else ∃ kept, kept `prefix_of` out ∧ (length kept ≤ maxOutputSize)%nat ∧
        CollectFrames (stream fs) =
          Some ({| Output := ToValidUTF8 kept ++ truncationMarker; ExitCode := 0; Truncated := true |}, None) ∧
        (Forall utf8_valid (session_output fs) →
           ToValidUTF8 kept = kept ∧ (maxOutputSize ≤ length kept + 3)%nat)).
Proof.
  split.
  - destruct (collect_total (S (length r)) r []) as [[res e] Hc]; [lia|]. exists res, e.
    split; [done|]. apply collect_bounded in Hc as [Hv Hl]; [|cbn; lia]. split; [done|].
    destruct (Truncated res); lia.
  - intros Hfs. cbv zeta. unfold CollectFrames.
    rewrite (collect_stream fs) by (done || cbn; try lia; apply stream_length). cbv zeta.
    cbn [length app]. rewrite Nat.sub_0_r.
    destruct (Nat.leb_spec (length (concat (session_output fs))) maxOutputSize); [done|].
    destruct (capped_prefix maxOutputSize (session_output fs)) as [Hp Hl].
    exists (capped maxOutputSize (session_output fs)). split_and!; [done|done|done|].
    intros Hv. destruct (capped_valid maxOutputSize _ Hv) as [Hc Hr]; [done|].
    split; [by apply ToValidUTF8_id|done].
Qed.

Definition example_session : list (byte * gostring) :=
  [(FrameStdout, bs "ok"); (FrameStderr, Byte.xff :: bs "!"); (FrameExit, EncodeExit 3);
   (FrameStdout, bs "late")].

Lemma collect_frames_output_witness :
  Forall (λ f : byte * gostring, Z.of_nat (length f.2) ≤ maxFrameLen) example_session ∧
  CollectFrames (stream example_session) =
    Some ({| Output := bs "ok!"; ExitCode := 3; Truncated := false |}, None).
Proof.
  assert (Forall (λ f : byte * gostring, Z.of_nat (length f.2) ≤ maxFrameLen) example_session) as Hfs
    by (repeat constructor; vm_compute; discriminate).
  split; [exact Hfs|]. destruct (collect_frames_output [] example_session) as [_ H].
  specialize (H Hfs). revert H. vm_compute. intros H. exact H.
Defined.
