(* ===== verification/McpText.v ===== *)
(** * The text helpers of the MCP tools ([src/cmd/thundersnapd/mcp.go])

    Quoting for the shell, the program that views a file, the two ways to read
    the last lines of a file, and the cut at a number of bytes. *)

From Stdlib Require Import Strings.String.
From S2P Require Import Prelude GoUtf8 GoStrings GoIO.

(** ** Quoting *)

Definition squote : byte := "'"%byte.

(** [strings.ReplaceAll(s, old, new)] for a one-byte [old]. *)
Definition replace_byte (old : byte) (new : gostring) (s : gostring) : gostring :=
  concat ((λ c, if bool_decide (c = old) then new else [c]) <$> s).

Definition shellQuote (s : gostring) : gostring :=
  [squote] ++ replace_byte squote (bs "'\''") s ++ [squote].

(** ** The view command *)

(** A template: [~] stands for the double quote. *)
Definition tmpl (s : string) : gostring := replace_byte "~"%byte ["034"%byte] (bs s).

Inductive view_error := RangeBackwards (endLine startLine : Z) | RangeLength (n : nat).

Definition maxEndLine : Z := 99999999.

Definition view_range_lines (viewRange : list Z) : outcome view_error (Z * Z) :=
  match viewRange with
  | [] => Ret (1, maxEndLine)
  | [a; b] =>
      let startLine := if a <? 1 then 1 else a in
      let endLine := if b =? -1 then maxEndLine else b in
      if endLine <? startLine then Err (RangeBackwards endLine startLine)
      else Ret (startLine, endLine)
  | _ => Err (RangeLength (length viewRange))
  end.

Definition view_script (startLine endLine : Z) : gostring :=
  tmpl "
if [ -d ~$path~ ]; then
  find ~$path~ -maxdepth 2 -not -path '*/.*' -not -path '*/node_modules/*' | sort | head -200
elif [ -f ~$path~ ]; then
  case ~$path~ in
    *.jpg|*.jpeg|*.png|*.gif|*.webp|*.svg|*.bmp|*.ico) echo ~[Image: $(basename ~$path~), $(stat -c '%s' ~$path~) bytes]~ ;;
    *) awk 'NR>=" ++ fmt_int startLine ++ tmpl " && NR<=" ++ fmt_int endLine ++
  tmpl " {printf ~%6d\t%s\n~, NR, $0}' ~$path~ ;;
  esac
else
  echo ~Error: $path not found~ >&2; exit 1
fi".

Definition buildViewCommand (path : gostring) (viewRange : list Z) : outcome view_error gostring :=
  '(startLine, endLine) ← view_range_lines viewRange;
  Ret (bs "path=" ++ shellQuote path ++ view_script startLine endLine).

(** ** The last lines of a file *)

Definition nl : byte := "010"%byte.

(** Both scans go back from position [i], counting newlines, until they have
    seen [n] of them. *)
Fixpoint tail_start (content : gostring) (i : nat) (seen n : Z) : nat :=
  match i with
  | O => O
  | S i' =>
      if bool_decide (content !!! i' = nl) then
        if seen + 1 =? n then i else tail_start content i' (seen + 1) n
      else tail_start content i' seen n
  end.

Definition search_end (content : gostring) : nat :=
  let l := length content in
  if bool_decide (content !!! (l - 1)%nat = nl) then (l - 1)%nat else l.

Definition tailLines (content : gostring) (n : Z) : gostring :=
  if (n <=? 0) || (length content =? 0)%nat then []
  else ToValidUTF8 (drop (tail_start content (search_end content) 0 n) content).

(** The inner loop of [readTail] over one chunk: where the tail starts, or the
    number of newlines seen so far. *)
Fixpoint scan_chunk (buf : gostring) (i : nat) (haveNewlines n : Z) : nat + Z :=
  match i with
  | O => inr haveNewlines
  | S i' =>
      if bool_decide (buf !!! i' = nl) then
        if haveNewlines + 1 =? n then inl i else scan_chunk buf i' (haveNewlines + 1) n
      else scan_chunk buf i' haveNewlines n
  end.

(** The outer loop: [pos] rounds are enough, a chunk is never empty. *)
Fixpoint read_back (fuel : nat) (chunk : nat) (file : gostring) (pos : nat)
    (chunks : list gostring) (haveNewlines n : Z) : list gostring :=
  match fuel with
  | O => chunks
  | S fuel' =>
      if (pos =? 0)%nat then chunks
      else
        let read := Nat.min chunk pos in
        let pos' := (pos - read)%nat in
        let buf := take read (drop pos' file) in
        let scanEnd :=
          match chunks with
          | [] => search_end buf
          | _ => length buf
          end in
        match scan_chunk buf scanEnd haveNewlines n with
        | inl i => drop i buf :: chunks
        | inr have => read_back fuel' chunk file pos' (buf :: chunks) have n
        end
  end.

(** [readTail(hostPath, n)] with [tailReadChunk = chunk]; [file] is what opening
    the path gives. *)
Definition readTail (chunk : nat) (file : option gostring) (n : Z) : outcome io_error gostring :=
  if n <=? 0 then Ret []
  else
    match file with
    | None => Err ErrWrite
    | Some content =>
        if (length content =? 0)%nat then Ret []
        else Ret (ToValidUTF8 (concat (read_back (length content) chunk content (length content) [] 0 n)))
    end.

(** ** The cut *)

Definition truncateUTF8 (s : gostring) (limit : nat) (marker : gostring) : gostring :=
  if (length s <=? limit)%nat then s else take (rune_cut s limit) s ++ marker.

(** ** Specification: words of the shell *)

(** The word at the head of a line of shell text, read the way POSIX describes
    quoting: outside quotes a backslash protects the next character, a single
    quote opens a part that ends at the next single quote, and a blank, a newline
    or the end of the text ends the word. The other operators and expansions do
    not occur in the words of this program. *)
Fixpoint sh_word (quoted : bool) (s : gostring) : option (gostring * gostring) :=
  match s with
  | [] => if quoted then None else Some ([], [])
  | c :: s' =>
      if quoted then
        if bool_decide (c = squote) then sh_word false s'
        else '(w, r) ← sh_word true s'; Some (c :: w, r)
      else if bool_decide (c = squote) then sh_word true s'
      else if bool_decide (c = "\"%byte) then
        match s' with
        | [] => None
        | d :: s'' => '(w, r) ← sh_word false s''; Some (d :: w, r)
        end
      else if bool_decide (c = " "%byte) || bool_decide (c = nl) then Some ([], s)
      else '(w, r) ← sh_word false s'; Some (c :: w, r)
  end.

Definition ends_word (rest : gostring) : Prop :=
  match rest with [] => True | c :: _ => c = " "%byte ∨ c = nl end.

(** ** Lemmas *)

Lemma sh_word_end rest : ends_word rest → sh_word false rest = Some ([], rest).
Proof. destruct rest as [|c rest]; [done|]. cbn. by intros [-> | ->]. Qed.

Lemma sh_word_quoted s rest :
  ends_word rest →
  sh_word true (replace_byte squote (bs "'\''") s ++ [squote] ++ rest) = Some (s, rest).
Proof.
  intros Hrest. unfold replace_byte. induction s as [|c s IH].
  - cbn. by apply sh_word_end.
  - rewrite fmap_cons, concat_cons, <- app_assoc. case_bool_decide as Hc.
    + subst c. cbn -[app]. cbn [app sh_word]. cbn. cbn in IH. by rewrite IH.
    + cbn [app sh_word]. rewrite bool_decide_eq_false_2 by done. cbn [app] in IH. by rewrite IH.
Qed.

Lemma tail_start_le content i seen n : (tail_start content i seen n ≤ i)%nat.
Proof.
  revert seen. induction i as [|i IH]; intros seen; [done|]. cbn [tail_start].
  pose proof (IH seen). pose proof (IH (seen + 1)). repeat case_match; lia.
Qed.

(** The scan of a chunk is the scan of the file at the chunk's position. *)
Lemma scan_chunk_tail file pos buf rest i have n :
  drop pos file = buf ++ rest → (i ≤ length buf)%nat →
  tail_start file (pos + i) have n =
    match scan_chunk buf i have n with
    | inl j => pos + j
    | inr have' => tail_start file pos have' n
    end%nat.
Proof.
  intros Hd. revert have. induction i as [|i IH]; intros have Hi; [cbn; f_equal; lia|].
  rewrite Nat.add_succ_r. cbn [tail_start scan_chunk].
  assert (file !!! (pos + i)%nat = buf !!! i) as ->.
  { rewrite !list_lookup_total_alt, <- lookup_drop, Hd, lookup_app_l by lia. done. }
  rewrite !IH by lia. repeat case_match; lia || done.
Qed.

Lemma search_end_app file buf :
  buf ≠ [] → search_end (file ++ buf) = (length file + search_end buf)%nat.
Proof.
  intros Hb. assert (length buf ≠ 0%nat) by (by destruct buf). unfold search_end.
  rewrite length_app, !list_lookup_total_alt, lookup_app_r by lia.
  replace (length file + length buf - 1 - length file)%nat with (length buf - 1)%nat by lia.
  case_bool_decide; lia.
Qed.

Lemma search_end_le s : (search_end s ≤ length s)%nat.
Proof. unfold search_end. case_bool_decide; lia. Qed.

Lemma read_back_spec fuel chunk file pos chunks have n :
  (0 < chunk)%nat → (pos ≤ fuel)%nat → (pos ≤ length file)%nat →
  concat chunks = drop pos file → (chunks = [] → pos = length file) →
  (chunks = [] → have = 0) →
  concat (read_back fuel chunk file pos chunks have n) =
    drop (tail_start file (match chunks with [] => search_end file | _ => pos end) have n) file.
Proof.
  intros Hchunk. revert pos chunks have.
  induction fuel as [|fuel IH]; intros pos chunks have Hf Hpos Hc He Hh; cbn [read_back].
  { assert (pos = 0%nat) as -> by lia. destruct chunks; [|done].
    rewrite Hc. specialize (He eq_refl). by destruct file. }
  destruct (Nat.eqb_spec pos 0) as [->|Hp].
  { destruct chunks; [|done]. rewrite Hc. specialize (He eq_refl). by destruct file. }
  set (pos' := (pos - Nat.min chunk pos)%nat). set (buf := take (Nat.min chunk pos) (drop pos' file)).
  assert (length buf = Nat.min chunk pos) as Hbl by (unfold buf; len_lia).
  assert (drop pos' file = buf ++ drop pos file) as Hd.
  { unfold buf. rewrite <- (take_drop (Nat.min chunk pos) (drop pos' file)) at 1.
    rewrite drop_drop. do 2 f_equal. lia. }
  set (e := match chunks with [] => search_end buf | _ => length buf end).
  assert (e ≤ length buf)%nat by (unfold e; pose proof (search_end_le buf); destruct chunks; lia).
  assert (match chunks with [] => search_end file | _ => pos end = (pos' + e)%nat) as ->.
  { unfold e. destruct chunks as [|c0 chunks]; [|lia]. rewrite (He eq_refl), drop_all, app_nil_r in Hd.
    rewrite <- (take_drop pos' file) at 1. rewrite Hd, search_end_app, length_take_le; [done|lia|].
    intros Hb. rewrite Hb in Hbl. cbn in Hbl. lia. }
  rewrite (scan_chunk_tail file pos' buf (drop pos file)) by done.
  destruct (scan_chunk buf e have n) as [j|have'] eqn:Hs.
  - rewrite concat_cons, Hc. rewrite <- drop_drop, Hd, drop_app_le; [done|].
    pose proof (scan_chunk_tail file pos' buf (drop pos file) e have n Hd ltac:(done)) as Ht.
    rewrite Hs in Ht. pose proof (tail_start_le file (pos' + e) have n). lia.
  - rewrite IH; try done; try lia. by rewrite concat_cons, Hc, Hd.
Qed.

(** How many newlines a text holds. *)
Definition newlines (s : gostring) : Z := Z.of_nat (length (filter (λ c, c = nl) s)).

Lemma newlines_app s t : newlines (s ++ t) = newlines s + newlines t.
Proof. unfold newlines. rewrite filter_app, length_app. lia. Qed.

(** The tail starts at the beginning or after a newline, and holds [n - 1]
    newlines before its last line, or fewer at the beginning. *)
Lemma tail_start_spec content i seen n :
  (i ≤ length content)%nat → seen < n →
  let start := tail_start content i seen n in
  let inner := newlines (take (i - start) (drop start content)) in
  seen + inner < n ∧
  (start = 0%nat ∨ (content !! (start - 1)%nat = Some nl ∧ seen + inner = n - 1)).
Proof.
  revert seen. induction i as [|i IH]; intros seen Hi Hn; cbv zeta.
  { cbn [tail_start Nat.sub]. rewrite take_0. change (newlines []) with 0. split; [lia|by left]. }
  cbn [tail_start].
  destruct (lookup_lt_is_Some_2 content i) as [c Hc]; [lia|].
  rewrite list_lookup_total_alt, Hc. cbn [default from_option id].
  assert (∀ k, (k ≤ i)%nat → newlines (take (S i - k) (drop k content)) =
    newlines (take (i - k) (drop k content)) + (if bool_decide (c = nl) then 1 else 0)) as Hstep.
  { intros k Hk. replace (S i - k)%nat with (S (i - k)) by lia.
    erewrite take_S_r by (rewrite lookup_drop; replace (k + (i - k))%nat with i by lia; exact Hc).
    rewrite newlines_app. f_equal. unfold newlines. rewrite filter_cons.
    by case_bool_decide; case_decide. }
  case_bool_decide as Hnl.
  - subst c. destruct (Z.eqb_spec (seen + 1) n) as [Hlast|Hlast].
    + replace (S i - S i)%nat with 0%nat by lia. rewrite take_0. change (newlines []) with 0.
      split; [lia|]. right. rewrite Nat.sub_succ, Nat.sub_0_r. split; [done|lia].
    + specialize (IH (seen + 1) ltac:(lia) ltac:(lia)). cbv zeta in IH.
      pose proof (tail_start_le content i (seen + 1) n). rewrite Hstep by lia.
      destruct IH as [? [?|[? ?]]]; split; first [lia|by left|right; split; [done|lia]].
  - specialize (IH seen ltac:(lia) Hn). cbv zeta in IH. pose proof (tail_start_le content i seen n).
    rewrite Hstep by lia. by rewrite Z.add_0_r.
Qed.

(** ** Properties *)

(** Reading the end of a file backwards, chunk by chunk, gives exactly what
    the in-memory reference gives on the whole content, for every chunk size;
    and that is the cleaned text from a point that is the beginning of the file
    or follows a newline and leaves [n - 1] newlines before the last line. *)
Theorem read_tail_is_tail_lines chunk content n :
  (0 < chunk)%nat →
  readTail chunk (Some content) n = Ret (tailLines content n) ∧
  (0 < n → ∃ start, tailLines content n = ToValidUTF8 (drop start content) ∧
     let inner := newlines (take (search_end content - start) (drop start content)) in
     inner < n ∧ (start = 0%nat ∨ (content !! (start - 1)%nat = Some nl ∧ inner = n - 1))).
Proof.
  intros Hc. unfold readTail, tailLines. destruct (Z.leb_spec n 0); [split; [done|lia]|].
  cbn [orb]. destruct (Nat.eqb_spec (length content) 0) as [H0|H0].
  { apply nil_length_inv in H0 as ->. split; [done|]. intros ?. exists 0%nat. split; [done|]. cbv zeta. rewrite drop_nil, take_nil. change (newlines []) with 0. split; [lia|by left]. }
  split.
  - rewrite read_back_spec; try done. by rewrite drop_all.
  - intros _. exists (tail_start content (search_end content) 0 n). split; [done|].
    apply (tail_start_spec content (search_end content) 0 n); [apply search_end_le|done].
Qed.

Lemma read_tail_is_tail_lines_witness :
  (0 < 3)%nat ∧
  readTail 3 (Some (bs "a" ++ [nl] ++ bs "bcde" ++ [nl] ++ bs "f" ++ [nl])) 2
    = Ret (bs "bcde" ++ [nl] ++ bs "f" ++ [nl]).
Proof.
  split; [lia|].
  destruct (read_tail_is_tail_lines 3 (bs "a" ++ [nl] ++ bs "bcde" ++ [nl] ++ bs "f" ++ [nl]) 2)
    as [H _]; [lia|]. rewrite H. reflexivity.
Defined.

(** A path goes through the shell unchanged, whatever bytes it holds: the
    view command begins with the assignment of one word, that word is the path,
    and the script that follows is the same for every path. *)
Theorem view_command_quotes path path' viewRange cmd :
  buildViewCommand path viewRange = Ret cmd →
  ∃ word script, cmd = bs "path=" ++ word ∧ sh_word false word = Some (path, script) ∧
    buildViewCommand path' viewRange = Ret (bs "path=" ++ shellQuote path' ++ script).
Proof.
  unfold buildViewCommand. intros H. apply bind_ret_inv in H as ([a b] & Hr & [= <-]).
  exists (shellQuote path ++ view_script a b), (view_script a b). rewrite Hr. split_and!; [done| |done].
  unfold shellQuote. rewrite <- !app_assoc. cbn [app sh_word].
  apply sh_word_quoted. right. reflexivity.
Qed.

Definition nasty_path : gostring := bs "a'; rm -rf $HOME #".

Lemma view_command_quotes_witness :
  is_ret (buildViewCommand nasty_path [3; -1]) = true ∧
  ∃ word script, sh_word false word = Some (nasty_path, script).
Proof.
  split; [reflexivity|].
  destruct (view_command_quotes nasty_path [] [3; -1] _ eq_refl) as (w & sc & _ & Hw & _).
  by exists w, sc.
Defined.

(** A text cut to [limit] bytes is never more than [limit] bytes and the
    marker; well-formed text stays well formed and loses at most three bytes more
    than it must. *)
Theorem truncate_utf8_bounded s limit marker :
  (length s ≤ limit → truncateUTF8 s limit marker = s)%nat ∧
  (limit < length s →
   ∃ kept, truncateUTF8 s limit marker = kept ++ marker ∧ kept `prefix_of` s ∧ length kept ≤ limit ∧
     (utf8_valid s → utf8_valid kept ∧ limit ≤ length kept + 3))%nat.
Proof.
  unfold truncateUTF8. destruct (Nat.leb_spec (length s) limit); split; try done; try lia.
  intros _. exists (take (rune_cut s limit) s). pose proof (rune_cut_spec s limit) as (Hl & _).
  split_and!; [done|apply prefix_take|len_lia|].
  intros Hv. destruct (utf8_valid_cut_close s limit) as [Hc Hk]; [done|lia|]. split; [done|len_lia].
Qed.

Lemma truncate_utf8_bounded_witness :
  (4 < 5)%nat ∧
  truncateUTF8 (bs "ab" ++ [Byte.xe2; Byte.x82; Byte.xac]) 4 (bs "...") = bs "ab...".
Proof.
  split; [lia|].
  destruct (truncate_utf8_bounded (bs "ab" ++ [Byte.xe2; Byte.x82; Byte.xac]) 4 (bs "...")) as [_ H].
  destruct H as (kept & Hk & _); [cbn; lia|]. rewrite Hk, <- Hk. reflexivity.
Defined.
