(* ===== verification/McpJobs.v ===== *)
(** * Background jobs of the MCP server ([src/cmd/thundersnapd/mcp_jobs.go])

    Every conversation has a list of jobs behind one lock. A job is a shell command that
    runs in a frame; a goroutine per job collects its output into a log file and closes
    the job when the session ends. Calls launch jobs, list them, wait for output or for
    the end, signal and kill.

    The state below is what the lock protects together with the log files, the
    connections and the collectors; a step is one critical section, or one read from a
    connection with the write to the log that follows it. Times are nanoseconds. The
    counters of jobs and revisions are 64 bits wide in the code and unbounded here. *)

From Stdlib Require Import Strings.String.
From S2P Require Import GoSort Prelude GoUtf8 GoStrings GoPath GoIO Sha256 VshdProto McpText.

(** ** Jobs *)

Inductive mcpJobState := mcpJobRunning | mcpJobExited | mcpJobTimedOut | mcpJobKilled | mcpJobLost.

#[export] Instance mcpJobState_eq_dec : EqDecision mcpJobState.
Proof. solve_decision. Defined.

Record mcpJob := MkJob {
  label : gostring;
  command : gostring;
  workdir : gostring;
  unixUser : gostring;
  frame : gostring;
  combinedLog : gostring;
  state : mcpJobState;
  startedAt : Z;
  endedAt : option Z;
  exitCode : option Z;
  combinedBytes : Z;
  outputRevision : Z;
  endRevision : Z;
  conn : bool;                        (* the connection is not nil *)
  stopReason : option mcpJobState;
}.

Definition terminal (j : mcpJob) : bool :=
  bool_decide (state j = mcpJobExited) || bool_decide (state j = mcpJobTimedOut)
  || bool_decide (state j = mcpJobKilled) || bool_decide (state j = mcpJobLost).

(** The list of one conversation, without the channel that announces changes. *)
Record mcpJobList := MkList { jobs : gmap gostring mcpJob; nextID : Z; revision : Z }.

Definition newMCPJobList : mcpJobList := MkList ∅ 0 0.

Definition notifyLocked (l : mcpJobList) : mcpJobList := MkList (jobs l) (nextID l) (revision l + 1).

Definition set_job (l : mcpJobList) (id : gostring) (j : mcpJob) : mcpJobList :=
  MkList (<[id := j]> (jobs l)) (nextID l) (revision l).

(** ** Scopes *)

Inductive scope_error := NoUser | NoConversation.

(** [header] and [meta] are the conversation in the HTTP header and in the
    request's metadata, if they are there. *)
Definition mcpJobScopeFromRequest (user : gostring) (header meta : option gostring)
    : outcome scope_error (gostring * gostring) :=
  guard_err (bool_decide (user = [])) NoUser;;
  match header with
  | Some c =>
      if bool_decide (TrimSpace c ≠ []) then Ret (user, c)
      else
        match meta with
        | Some c' => if bool_decide (TrimSpace c' ≠ []) then Ret (user, c') else Err NoConversation
        | None => Err NoConversation
        end
  | None =>
      match meta with
      | Some c' => if bool_decide (TrimSpace c' ≠ []) then Ret (user, c') else Err NoConversation
      | None => Err NoConversation
      end
  end.

(** What the name of a conversation's log directory is the digest of. *)
Definition scope_preimage (key : gostring * gostring) : gostring := key.1 ++ [Byte.x00] ++ key.2.

Definition hex_digit (d : Z) : byte := byte_of_Z (if d <? 10 then 48 + d else 87 + d).
Definition hex_encode (s : list byte) : gostring :=
  concat ((λ b, [hex_digit (Z_of_byte b / 16); hex_digit (Z_of_byte b mod 16)]) <$> s).

Definition mcpJobScopeDir `{!Digest} (key : gostring * gostring) : gostring :=
  hex_encode (take 12 (sum256 (scope_preimage key))).

(** ** Timeouts *)

Definition second : Z := 1000000000.
Definition mcpJobDefaultHardTimeout : Z := 7200 * second.
Definition mcpJobMaxHardTimeout : Z := 7200 * second.
Definition mcpJobWaitDefaultTimeout : Z := 30 * second.
Definition mcpJobWaitMaxTimeout : Z := 60 * second.

(** [time.Duration(n) * time.Second] wraps at 64 bits. *)
Definition hard_timeout (n : Z) : Z :=
  if 0 <? n then
    let d := i64 (n * second) in
    if mcpJobMaxHardTimeout <? d then mcpJobMaxHardTimeout else d
  else mcpJobDefaultHardTimeout.

Definition wait_timeout (n : Z) : Z :=
  if 0 <? n then Z.min (i64 (n * second)) mcpJobWaitMaxTimeout else mcpJobWaitDefaultTimeout.

(** ** Job IDs and their directories *)

Definition job_id (n : Z) : gostring := bs "j" ++ fmt_uint n.

(** [createMCPJobLog]: count up until [mkdir] makes a new directory in the frame.
    [dirs] are the job directories that exist, by frame and name. *)
Fixpoint createMCPJobLog (fuel : nat) (n : Z) (dirs : gset (gostring * gostring)) (fr : gostring)
    : option (Z * gostring) :=
  match fuel with
  | O => None
  | S fuel' =>
      let n := n + 1 in
      if bool_decide ((fr, job_id n) ∈ dirs) then createMCPJobLog fuel' n dirs fr
      else Some (n, job_id n)
  end.

(** ** Selecting jobs *)

(** What [fmt.Sscanf(id, "j%d", &a)] leaves in [a]. *)
Definition job_number (id : gostring) : Z :=
  match id with
  | c :: ds => if bool_decide (c = "j"%byte) then default 0 (parse_digits 0 ds) else 0
  | [] => 0
  end.

Definition by_number (a b : gostring) : Prop := job_number a ≤ job_number b.
#[local] Instance by_number_dec a b : Decision (by_number a b).
Proof. unfold by_number. apply _. Defined.

Fixpoint select_ids (js : gmap gostring mcpJob) (seen : list gostring) (ids : list gostring)
    : outcome gostring (list (gostring * mcpJob)) :=
  match ids with
  | [] => Ret []
  | id :: ids' =>
      if bool_decide (id ∈ seen) then select_ids js seen ids'
      else
        match js !! id with
        | None => Err id
        | Some j => rest ← select_ids js (id :: seen) ids'; Ret ((id, j) :: rest)
        end
  end.

(** No IDs select every job, in the order they were launched in. *)
Definition selectJobsLocked (l : mcpJobList) (ids : list gostring)
    : outcome gostring (list (gostring * mcpJob)) :=
  let ids' := match ids with
              | [] => merge_sort by_number (map_to_list (jobs l)).*1
              | _ => ids
              end in
  select_ids (jobs l) [] ids'.

(** ** Stopping and collecting *)

(** [requestMCPJobStop]: the list, and whether the connection is closed. *)
Definition requestMCPJobStop (l : mcpJobList) (id : gostring) (reason : mcpJobState) : mcpJobList * bool :=
  match jobs l !! id with
  | None => (l, false)
  | Some j =>
      if terminal j || bool_decide (stopReason j ≠ None) then (l, false)
      else
        (notifyLocked (set_job l id
           (MkJob (label j) (command j) (workdir j) (unixUser j) (frame j) (combinedLog j) (state j)
              (startedAt j) (endedAt j) (exitCode j) (combinedBytes j) (outputRevision j) (endRevision j)
              (conn j) (Some reason))), conn j)
  end.

(** The sections of [collectMCPJob] under the lock: output counted, the exit code
    noted, the job closed. *)
Definition count_output (l : mcpJobList) (id : gostring) (n : Z) : mcpJobList :=
  match jobs l !! id with
  | None => l
  | Some j =>
      let l' := notifyLocked l in
      set_job l' id
        (MkJob (label j) (command j) (workdir j) (unixUser j) (frame j) (combinedLog j) (state j)
           (startedAt j) (endedAt j) (exitCode j) (combinedBytes j + n) (revision l') (endRevision j)
           (conn j) (stopReason j))
  end.

Definition record_exit (l : mcpJobList) (id : gostring) (payload : list byte) : mcpJobList :=
  match jobs l !! id, DecodeExit payload with
  | Some j, Ret code =>
      set_job l id
        (MkJob (label j) (command j) (workdir j) (unixUser j) (frame j) (combinedLog j) (state j)
           (startedAt j) (endedAt j) (Some code) (combinedBytes j) (outputRevision j) (endRevision j)
           (conn j) (stopReason j))
  | _, _ => l
  end.

Definition end_state (stop : option mcpJobState) (gotExit : bool) : mcpJobState :=
  match stop with Some r => r | None => if gotExit then mcpJobExited else mcpJobLost end.

Definition finish_job (l : mcpJobList) (id : gostring) (gotExit : bool) (now : Z) : mcpJobList :=
  match jobs l !! id with
  | None => l
  | Some j =>
      let l' := notifyLocked l in
      set_job l' id
        (MkJob (label j) (command j) (workdir j) (unixUser j) (frame j) (combinedLog j)
           (end_state (stopReason j) gotExit) (startedAt j) (Some now) (exitCode j) (combinedBytes j)
           (outputRevision j) (revision l') false (stopReason j))
  end.

(** ** The system *)

(** Where a collector is: before a read; after the write of a payload to the log;
    after reading the exit frame; at the end of its loop; gone. *)
Inductive collector := CRead | CWrote (payload : list byte) | CExit (payload : list byte) | CEnd (gotExit : bool) | CDone.

Record sys := MkSys {
  s_list : mcpJobList;
  s_dirs : gset (gostring * gostring);               (* job directories, by frame *)
  s_logs : gmap (gostring * gostring) (list byte);   (* the logs in them *)
  s_reserved : gmap gostring gostring;               (* IDs of launches on their way, and their frames *)
  s_collectors : gmap gostring collector;
  s_closed : gset gostring;                          (* connections closed by a stop *)
}.

Definition init (dirs : gset (gostring * gostring)) (logs : gmap (gostring * gostring) (list byte)) : sys :=
  MkSys newMCPJobList dirs logs ∅ ∅ ∅.

Definition with_list (s : sys) (l : mcpJobList) : sys :=
  MkSys l (s_dirs s) (s_logs s) (s_reserved s) (s_collectors s) (s_closed s).

Definition with_collector (s : sys) (id : gostring) (c : collector) : sys :=
  MkSys (s_list s) (s_dirs s) (s_logs s) (s_reserved s) (<[id := c]> (s_collectors s)) (s_closed s).

Definition new_job (label command workdir user fr log : gostring) (now : Z) : mcpJob :=
  MkJob label command workdir user fr log mcpJobRunning now None None 0 0 0 true None.

(** A launch has its directory ... *)
Definition do_reserve (s : sys) (fr : gostring) (n : Z) (id : gostring) : sys :=
  let l := s_list s in
  MkSys (MkList (jobs l) n (revision l)) ({[(fr, id)]} ∪ s_dirs s) (<[(fr, id) := []]> (s_logs s))
    (<[id := fr]> (s_reserved s)) (s_collectors s) (s_closed s).

(** ... and then its job, or it has failed to reach vshd. *)
Definition do_publish (s : sys) (id : gostring) (j : mcpJob) : sys :=
  MkSys (notifyLocked (set_job (s_list s) id j)) (s_dirs s) (s_logs s) (delete id (s_reserved s))
    (<[id := CRead]> (s_collectors s)) (s_closed s).

Definition do_abandon (s : sys) (id : gostring) : sys :=
  MkSys (s_list s) (s_dirs s) (s_logs s) (delete id (s_reserved s)) (s_collectors s) (s_closed s).

(** A stop is noted under the lock ... *)
Definition do_stop (s : sys) (id : gostring) (reason : mcpJobState) : sys :=
  with_list s (requestMCPJobStop (s_list s) id reason).1.

(** ... and whoever asked for it closes the connection after the lock. *)
Definition do_close (s : sys) (id : gostring) : sys :=
  MkSys (s_list s) (s_dirs s) (s_logs s) (s_reserved s) (s_collectors s) ({[id]} ∪ s_closed s).

(** An output frame has been read; [kept] is what the log took of it, since
    errors of the write are ignored. *)
Definition do_output (s : sys) (id fr : gostring) (payload kept : list byte) : sys :=
  MkSys (s_list s) (s_dirs s) (alter (λ log, log ++ kept) (fr, id) (s_logs s)) (s_reserved s)
    (<[id := CWrote payload]> (s_collectors s)) (s_closed s).

Definition do_count (s : sys) (id : gostring) (payload : list byte) : sys :=
  with_collector (with_list s (count_output (s_list s) id (Z.of_nat (length payload)))) id CRead.

Definition do_exit (s : sys) (id : gostring) (payload : list byte) : sys :=
  with_collector (with_list s (record_exit (s_list s) id payload)) id (CEnd true).

Definition do_finish (s : sys) (id : gostring) (gotExit : bool) (now : Z) : sys :=
  with_collector (with_list s (finish_job (s_list s) id gotExit now)) id CDone.

(** What a collector does next, and who makes a step: the collector of a job, who stops a
    job, or another call. *)
Inductive collector_move :=
| Output (payload kept : list byte) | Count | ReadExit (payload : list byte) | RecordExit | ReadError | Finish (now : Z).
Inductive actor := Collector (id : gostring) (m : collector_move) | Stop (id : gostring) (reason : mcpJobState) | Call.

(** [faulty]: writes to the log may fall short. A closed connection delivers
    nothing any more; an open one delivers anything, or breaks. *)
Inductive step (faulty : bool) : actor → sys → sys → Prop :=
| step_reserve s fr n id fuel :
    createMCPJobLog fuel (nextID (s_list s)) (s_dirs s) fr = Some (n, id) →
    step faulty Call s (do_reserve s fr n id)
| step_publish s id fr lab cmd wd user log now :
    s_reserved s !! id = Some fr →
    step faulty Call s (do_publish s id (new_job lab cmd wd user fr log now))
| step_abandon s id : step faulty Call s (do_abandon s id)
| step_stop s id reason :
    reason = mcpJobKilled ∨ reason = mcpJobTimedOut →
    step faulty (Stop id reason) s (do_stop s id reason)
| step_close s id j :
    jobs (s_list s) !! id = Some j → is_Some (stopReason j) →
    step faulty Call s (do_close s id)
| step_output s id j payload kept :
    s_collectors s !! id = Some CRead → id ∉ s_closed s → jobs (s_list s) !! id = Some j →
    kept `prefix_of` payload → (faulty = false → kept = payload) →
    step faulty (Collector id (Output payload kept)) s (do_output s id (frame j) payload kept)
| step_count s id payload :
    s_collectors s !! id = Some (CWrote payload) →
    step faulty (Collector id Count) s (do_count s id payload)
| step_read_exit s id payload :
    s_collectors s !! id = Some CRead → id ∉ s_closed s →
    step faulty (Collector id (ReadExit payload)) s (with_collector s id (CExit payload))
| step_exit s id payload :
    s_collectors s !! id = Some (CExit payload) →
    step faulty (Collector id RecordExit) s (do_exit s id payload)
| step_read_error s id :
    s_collectors s !! id = Some CRead →
    step faulty (Collector id ReadError) s (with_collector s id (CEnd false))
| step_finish s id gotExit now :
    s_collectors s !! id = Some (CEnd gotExit) →
    step faulty (Collector id (Finish now)) s (do_finish s id gotExit now).

Inductive run (faulty : bool) : sys → list actor → sys → Prop :=
| run_nil s : run faulty s [] s
| run_cons s a s' acts s'' : step faulty a s s' → run faulty s' acts s'' → run faulty s (a :: acts) s''.

(** ** Waiting *)

Definition mcpMaxViewOutput : nat := 16000.

Record mcpWaitJob := MkWait { w_job : gostring; w_offset : Z }.
Record mcpWaitStatus := MkStatus {
  ws_id : gostring; ws_state : mcpJobState; ws_exit : option Z; ws_output : gostring; ws_next : Z }.

Inductive job_error :=
| UnknownJob (id : gostring)
| BadOffset (offset : Z) (id : gostring) (size : Z)
| OpenLog (id : gostring)
| SignalJob (id : gostring).

Definition is_break (b : byte) : bool := bool_decide (b = nl) || bool_decide (b = "013"%byte).

(** The loop that looks for the end of the last whole line. *)
Fixpoint line_end (i end_ : nat) (data : list byte) : nat :=
  match data with
  | [] => end_
  | b :: data' => line_end (S i) (if is_break b then S i else end_) data'
  end.

(** The window of the log a wait looks at, and the part of it that it returns. *)
Definition wait_data (j : mcpJob) (log : list byte) (offset : Z) : list byte :=
  take mcpMaxViewOutput (take (Z.to_nat (combinedBytes j - offset)) (drop (Z.to_nat offset) log)).

Definition wait_slice (j : mcpJob) (log : list byte) (offset : Z) : list byte :=
  let data := wait_data j log offset in
  if terminal j then data else take (line_end 0 0 data) data.

(** One job of [waitStatuses]; [log] is what opening its log gives. *)
Definition wait_status (id : gostring) (j : mcpJob) (log : option (list byte)) (offset : Z)
    : outcome job_error mcpWaitStatus :=
  guard_err ((offset <? 0) || (combinedBytes j <? offset)) (BadOffset offset id (combinedBytes j));;
  log ← or_err log (OpenLog id);
  let slice := wait_slice j log offset in
  Ret (MkStatus id (state j) (exitCode j) (ToValidUTF8 slice) (offset + Z.of_nat (length slice))).

Definition request_offset (requested : list mcpWaitJob) (id : gostring) : Z :=
  default 0 (fold_left (λ m r, <[w_job r := w_offset r]> m) requested (∅ : gmap gostring Z) !! id).

Fixpoint waitStatuses (open : gostring → option (list byte)) (requested : list mcpWaitJob)
    (js : list (gostring * mcpJob)) : outcome job_error (list mcpWaitStatus) :=
  match js with
  | [] => Ret []
  | (id, j) :: js' =>
      st ← wait_status id j (open id) (request_offset requested id);
      rest ← waitStatuses open requested js';
      Ret (st :: rest)
  end.

(** ** The wait call *)

Inductive until := UOutput | UAnyExit | UAllExit.

Definition parse_until (s : gostring) : option until :=
  if bool_decide (s = []) then Some UAnyExit
  else if bool_decide (s = bs "output") then Some UOutput
  else if bool_decide (s = bs "any_exit") then Some UAnyExit
  else if bool_decide (s = bs "all_exit") then Some UAllExit
  else None.

(** [strings.ToUpper] as far as the names of signals go: the ASCII letters, and
    the two other letters whose upper case is ASCII. *)
Fixpoint to_upper (s : gostring) : gostring :=
  match s with
  | [] => []
  | c :: s1 =>
      match s1 with
      | d :: s2 =>
          if bool_decide (c = Byte.xc4 ∧ d = Byte.xb1) then "I"%byte :: to_upper s2
          else if bool_decide (c = Byte.xc5 ∧ d = Byte.xbf) then "S"%byte :: to_upper s2
          else (if in_range 97 122 c then byte_of_Z (Z_of_byte c - 32) else c) :: to_upper s1
      | [] => [if in_range 97 122 c then byte_of_Z (Z_of_byte c - 32) else c]
      end
  end.

Definition signals : gmap gostring Z :=
  list_to_map [(bs "HUP", 1); (bs "INT", 2); (bs "TERM", 15); (bs "USR1", 10); (bs "USR2", 12);
               (bs "STOP", 19); (bs "CONT", 18)].

(** The signal number, 0 for no signal. *)
Definition parseJobSignal (name : gostring) : option Z :=
  if bool_decide (name = []) then Some 0
  else signals !! TrimPrefix (to_upper name) (bs "SIG").

(** What the call sees at one of its turns: the list and the logs. *)
Record view := MkView { v_list : mcpJobList; v_open : gostring → option (list byte) }.

Inductive turn := TError (e : job_error) | TDone (sts : list mcpWaitStatus) | TAgain.

(** Every selected job that is not over is sent the signal; [refuses]: the
    write to its connection fails. *)
Fixpoint send_signals (refuses : gostring → bool) (js : list (gostring * mcpJob)) : list gostring * option job_error :=
  match js with
  | [] => ([], None)
  | (id, j) :: js' =>
      if terminal j then send_signals refuses js'
      else if conn j then
        if refuses id then ([], Some (SignalJob id))
        else let '(sent, e) := send_signals refuses js' in (id :: sent, e)
      else send_signals refuses js'
  end.

Definition satisfied (u : until) (js : list (gostring * mcpJob)) (sts : list mcpWaitStatus) : bool :=
  match u with
  | UOutput => existsb (λ st, bool_decide (ws_output st ≠ []) || bool_decide (ws_state st ≠ mcpJobRunning)) sts
  | UAnyExit => existsb (λ p, terminal p.2) js
  | UAllExit => forallb (λ p, terminal p.2) js
  end.

(** One turn of the loop: the jobs signalled in it and its outcome. *)
Definition wait_turn (u : until) (sig : Z) (refuses : gostring → bool) (requested : list mcpWaitJob)
    (v : view) (signalSent : bool) : list gostring * turn :=
  match selectJobsLocked (v_list v) (w_job <$> requested) with
  | Ret js =>
      let '(sent, err) := if negb (sig =? 0) && negb signalSent then send_signals refuses js else ([], None) in
      match err with
      | Some e => (sent, TError e)
      | None =>
          match waitStatuses (v_open v) requested js with
          | Ret sts => (sent, if satisfied u js sts then TDone sts else TAgain)
          | Err e => (sent, TError e)
          | Panic => (sent, TError (OpenLog []))
          end
      end
  | Err id => ([], TError (UnknownJob id))
  | Panic => ([], TError (UnknownJob []))
  end.

Inductive wait_result := WError (e : job_error) | WReason (sts : list mcpWaitStatus) | WTimeout (sts : list mcpWaitStatus).

(** The loop: [views] are the turns it gets before the timeout, [final] is what
    it sees then. The signals sent come first. *)
Fixpoint wait_loop (u : until) (sig : Z) (refuses : gostring → bool) (requested : list mcpWaitJob)
    (views : list view) (final : view) (signalSent : bool) : list gostring * wait_result :=
  match views with
  | [] =>
      ([], match selectJobsLocked (v_list final) (w_job <$> requested) with
           | Ret js =>
               match waitStatuses (v_open final) requested js with
               | Ret sts => WTimeout sts
               | Err e => WError e
               | Panic => WError (OpenLog [])
               end
           | Err id => WError (UnknownJob id)
           | Panic => WError (UnknownJob [])
           end)
  | v :: views' =>
      let '(sent, t) := wait_turn u sig refuses requested v signalSent in
      match t with
      | TError e => (sent, WError e)
      | TDone sts => (sent, WReason sts)
      | TAgain =>
          let '(sent', r) := wait_loop u sig refuses requested views' final (signalSent || negb (sig =? 0)) in
          (sent ++ sent', r)
      end
  end.

(** ** The kill call *)

Inductive kill_result := KRequired | KUnknown (id : gostring) | KDone (js : list (gostring * mcpJob)) | KCanceled.

Definition stop_all (l : mcpJobList) (js : list (gostring * mcpJob)) : mcpJobList :=
  fold_left (λ l p, fst (requestMCPJobStop l p.1 mcpJobKilled)) js l.

Fixpoint kill_loop (ids : list gostring) (views : list mcpJobList) : kill_result :=
  match views with
  | [] => KCanceled
  | l :: views' =>
      let js := omap (λ id, j ← jobs l !! id; Some (id, j)) ids in
      if forallb (λ p, terminal p.2) js then KDone js else kill_loop ids views'
  end.

(** ** The launch call *)

Inductive launch_error := CommandRequired | LaunchUser | WaitJobsGiven | NothingAsked.

(** The arguments of one launch: working directory and lifetime. *)
Definition launch_args (command workdir user : gostring) (hardTimeout : Z) : outcome launch_error (gostring * Z) :=
  guard_err (bool_decide (command = [])) CommandRequired;;
  let workdir := if bool_decide (workdir = []) then bs "/work" else workdir in
  guard_err (negb (bool_decide (user = bs "user")) && negb (bool_decide (user = bs "root"))) LaunchUser;;
  Ret (workdir, hard_timeout hardTimeout).

(** The command given to the shell. *)
Definition wrapped (workdir command : gostring) : gostring :=
  bs "cd " ++ shellQuote workdir ++ bs " && " ++ command.

(** What the [jobs] call does with its two parts. *)
Definition jobs_args (launches : nat) (wait : option (list mcpWaitJob)) : outcome launch_error unit :=
  guard_err ((launches =? 0)%nat && match wait with None => true | _ => false end) NothingAsked;;
  guard_err ((0 <? launches)%nat && match wait with Some (_ :: _) => true | _ => false end) WaitJobsGiven;;
  Ret tt.

(** The wait of a call that launched jobs is for those, from their beginning. *)
Definition wait_of_launch (launched : list gostring) (wait : list mcpWaitJob) : list mcpWaitJob :=
  match launched with [] => wait | _ => (λ id, MkWait id 0) <$> launched end.

(** ** The invariant *)

(** The bytes of the payload that the log has and the job does not count yet. *)
Definition uncounted (c : collector) : nat := match c with CWrote payload => length payload | _ => 0 end.

(** A job against its collector, its connection and its log. *)
Record ok_job (faulty : bool) (j : mcpJob) (c : collector) (closed : bool) (log : list byte) : Prop := {
  ok_running : c ≠ CDone → state j = mcpJobRunning;
  ok_over : c = CDone → terminal j = true ∧
    match stopReason j with Some r => state j = r | None => state j = mcpJobExited ∨ state j = mcpJobLost end;
  ok_conn : conn j = negb (terminal j);
  ok_ended : is_Some (endedAt j) ↔ terminal j = true;
  ok_stop : match stopReason j with Some r => r = mcpJobKilled ∨ r = mcpJobTimedOut | None => True end;
  ok_closed : closed = true → is_Some (stopReason j);
  ok_bytes : 0 ≤ combinedBytes j;
  ok_log : if faulty then Z.of_nat (length log) ≤ combinedBytes j + Z.of_nat (uncounted c)
           else Z.of_nat (length log) = combinedBytes j + Z.of_nat (uncounted c);
}.

Record inv (faulty : bool) (s : sys) : Prop := {
  inv_jobs : ∀ id j, jobs (s_list s) !! id = Some j →
    ∃ c log, s_collectors s !! id = Some c ∧ s_logs s !! (frame j, id) = Some log ∧
      ok_job faulty j c (bool_decide (id ∈ s_closed s)) log;
  inv_collectors : ∀ id c, s_collectors s !! id = Some c → is_Some (jobs (s_list s) !! id);
  inv_closed : ∀ id, id ∈ s_closed s → is_Some (jobs (s_list s) !! id);
  inv_reserved : ∀ id fr, s_reserved s !! id = Some fr →
    jobs (s_list s) !! id = None ∧ s_logs s !! (fr, id) = Some [];
  inv_ids : ∀ id, is_Some (jobs (s_list s) !! id) ∨ is_Some (s_reserved s !! id) →
    ∃ n, id = job_id n ∧ 0 ≤ n ≤ nextID (s_list s);
  inv_next : 0 ≤ nextID (s_list s);
}.

(** What never changes about a job, and what only grows. *)
Record job_grows (j j' : mcpJob) (log log' : list byte) : Prop := {
  grow_identity : label j' = label j ∧ command j' = command j ∧ workdir j' = workdir j ∧
    unixUser j' = unixUser j ∧ frame j' = frame j ∧ combinedLog j' = combinedLog j ∧ startedAt j' = startedAt j;
  grow_over : terminal j = true → j' = j ∧ log' = log;
  grow_stop : is_Some (stopReason j) → stopReason j' = stopReason j;
  grow_bytes : combinedBytes j ≤ combinedBytes j';
  grow_log : log `prefix_of` log';
}.

Definition evolves (s s' : sys) : Prop :=
  nextID (s_list s) ≤ nextID (s_list s') ∧
  ∀ id j log, jobs (s_list s) !! id = Some j → s_logs s !! (frame j, id) = Some log →
    ∃ j' log', jobs (s_list s') !! id = Some j' ∧ s_logs s' !! (frame j', id) = Some log' ∧
      job_grows j j' log log'.

Lemma job_grows_refl j log : job_grows j j log log.
Proof. by constructor. Qed.

Lemma job_grows_trans j1 j2 j3 log1 log2 log3 :
  job_grows j1 j2 log1 log2 → job_grows j2 j3 log2 log3 → job_grows j1 j3 log1 log3.
Proof.
  intros [A1 A2 A3 A4 A5] [B1 B2 B3 B4 B5].
  constructor; [intuition congruence| | |lia|by etrans].
  - intros Ht. destruct (A2 Ht) as [-> ->]. auto.
  - intros Hs. rewrite B3; [auto|]. by rewrite A3.
Qed.

Lemma evolves_refl s : evolves s s.
Proof. split; [lia|]. intros id j log Hj Hl. exists j, log. split_and!; [done|done|apply job_grows_refl]. Qed.

Lemma evolves_trans s1 s2 s3 : evolves s1 s2 → evolves s2 s3 → evolves s1 s3.
Proof.
  intros [An A] [Bn B]. split; [lia|]. intros id j log Hj Hl.
  destruct (A id j log Hj Hl) as (j' & log' & Hj' & Hl' & HA).
  destruct (B id j' log' Hj' Hl') as (j'' & log'' & Hj'' & Hl'' & HB).
  exists j'', log''. split_and!; [done|done|by eapply job_grows_trans].
Qed.

(** A step that concerns one job only. *)
Lemma inv_local faulty s s' id j j' c c' log log' :
  inv faulty s → jobs (s_list s) !! id = Some j → s_collectors s !! id = Some c →
  s_logs s !! (frame j, id) = Some log →
  jobs (s_list s') = <[id := j']> (jobs (s_list s)) → nextID (s_list s') = nextID (s_list s) →
  s_reserved s' = s_reserved s → s_collectors s' = <[id := c']> (s_collectors s) →
  s_logs s' = <[(frame j, id) := log']> (s_logs s) →
  (s_closed s' = s_closed s ∨ s_closed s' = {[id]} ∪ s_closed s) →
  ok_job faulty j' c' (bool_decide (id ∈ s_closed s')) log' → job_grows j j' log log' →
  inv faulty s' ∧ evolves s s'.
Proof.
  intros [I1 I2 I3 I4 I5 I6] Hj Hc Hlog Ej En Er Ec El Ecl Hok Hg.
  pose proof (grow_identity _ _ _ _ Hg) as (_ & _ & _ & _ & Hfr & _).
  assert (∀ k, k ≠ id → k ∈ s_closed s' ↔ k ∈ s_closed s) as Hcl
    by (intros k Hk; destruct Ecl as [-> | ->]; set_solver).
  split; [constructor|split; [lia|]].
  - intros k jk. rewrite Ej, Ec, El. destruct (decide (k = id)) as [->|Hk].
    + rewrite lookup_insert_eq. intros [= <-]. exists c', log'. rewrite lookup_insert_eq, Hfr, lookup_insert_eq. done.
    + rewrite !lookup_insert_ne by done. intros Hjk. destruct (I1 _ _ Hjk) as (ck & lk & ? & ? & ?).
      exists ck, lk. rewrite lookup_insert_ne by congruence.
      by rewrite (bool_decide_ext _ _ (Hcl k Hk)).
  - intros k ck. rewrite Ej, Ec. destruct (decide (k = id)) as [->|Hk].
    + rewrite !lookup_insert_eq. intros _. by eexists.
    + rewrite !lookup_insert_ne by done. apply I2.
  - intros k. rewrite Ej. destruct (decide (k = id)) as [->|Hk].
    + rewrite lookup_insert_eq. intros _. by eexists.
    + rewrite lookup_insert_ne by done. intros Hin%Hcl; auto.
  - intros k fr. rewrite Er, Ej, El. intros Hk. destruct (I4 _ _ Hk) as [Hn Hl].
    assert (k ≠ id) by congruence. rewrite !lookup_insert_ne by congruence. done.
  - intros k. rewrite Er, Ej, En. destruct (decide (k = id)) as [->|Hk].
    + intros _. apply I5. left. by eexists.
    + rewrite lookup_insert_ne by done. apply I5.
  - by rewrite En.
  - intros k jk lk Hjk Hlk. rewrite Ej, El. destruct (decide (k = id)) as [->|Hk].
    + rewrite Hj in Hjk. injection Hjk as <-. rewrite Hlog in Hlk. injection Hlk as <-.
      exists j', log'. rewrite !lookup_insert_eq, Hfr, lookup_insert_eq. done.
    + exists jk, lk. rewrite !lookup_insert_ne by congruence. split_and!; [done|done|apply job_grows_refl].
Qed.

(** *** IDs *)

Lemma job_id_inj n m : 0 ≤ n → 0 ≤ m → job_id n = job_id m → n = m.
Proof.
  intros Hn Hm [= H]. pose proof (fmt_uint_parse n Hn) as [Pn _]. pose proof (fmt_uint_parse m Hm) as [Pm _].
  congruence.
Qed.

Lemma job_number_id n : 0 ≤ n → job_number (job_id n) = n.
Proof. intros Hn. unfold job_number, job_id. change (bs "j" ++ fmt_uint n) with ("j"%byte :: fmt_uint n).
  cbv iota beta. rewrite bool_decide_eq_true_2 by done. by destruct (fmt_uint_parse n Hn) as [-> _].
Qed.

Lemma createMCPJobLog_spec fuel n dirs fr n' id :
  createMCPJobLog fuel n dirs fr = Some (n', id) →
  n < n' ∧ id = job_id n' ∧ (fr, id) ∉ dirs ∧ ∀ k, n < k < n' → (fr, job_id k) ∈ dirs.
Proof.
  revert n. induction fuel as [|fuel IH]; intros n H; [done|]. cbn [createMCPJobLog] in H.
  case_bool_decide as Hin.
  - apply IH in H as (Hn & -> & Hnin & Hall). split_and!; [lia|done|done|].
    intros k Hk. destruct (decide (k = n + 1)) as [->|]; [done|apply Hall; lia].
  - injection H as <- <-. split_and!; [lia|done|done|lia].
Qed.

(** Every directory passed over is one of those that exist. *)
Lemma createMCPJobLog_total fuel n dirs fr :
  0 ≤ n → (size dirs < fuel)%nat → is_Some (createMCPJobLog fuel n dirs fr).
Proof.
  intros Hn. revert n dirs Hn. enough (∀ n dirs (used : gset (gostring * gostring)),
    0 ≤ n → used ⊆ dirs → (∀ k, n < k → (fr, job_id k) ∉ used) → (size dirs < fuel + size used)%nat →
    is_Some (createMCPJobLog fuel n dirs fr)) as Hgen.
  { intros n dirs Hn Hs. apply (Hgen n dirs ∅); [done|set_solver|set_solver|rewrite size_empty; lia]. }
  induction fuel as [|fuel IH]; intros n dirs used Hn Hu Hf Hs.
  { pose proof (subseteq_size used dirs Hu). lia. }
  cbn [createMCPJobLog]. case_bool_decide as Hin; [|by eexists].
  apply (IH (n + 1) dirs ({[(fr, job_id (n + 1))]} ∪ used)); [lia|set_solver| |].
  - intros k Hk Hc. apply elem_of_union in Hc as [Hc%elem_of_singleton|Hc]; [|apply (Hf k); [lia|done]].
    assert (job_id k = job_id (n + 1)) as Hk' by congruence. apply job_id_inj in Hk'; lia.
  - rewrite size_union, size_singleton; [lia|]. apply disjoint_singleton_l, Hf. lia.
Qed.

(** *** The steps *)

Lemma running_not_terminal j : state j = mcpJobRunning → terminal j = false.
Proof. unfold terminal. by intros ->. Qed.

Lemma terminal_states j :
  terminal j = true ↔ state j ≠ mcpJobRunning.
Proof. unfold terminal. by destruct (state j). Qed.

Section Steps.
Variables (faulty : bool) (s : sys).
Hypothesis Hinv : inv faulty s.

Lemma collector_job id c :
  s_collectors s !! id = Some c →
  ∃ j log, jobs (s_list s) !! id = Some j ∧ s_logs s !! (frame j, id) = Some log ∧
    ok_job faulty j c (bool_decide (id ∈ s_closed s)) log.
Proof.
  intros Hc. destruct (inv_collectors _ _ Hinv _ _ Hc) as [j Hj].
  destruct (inv_jobs _ _ Hinv _ _ Hj) as (c' & log & Hc' & Hl & Hok).
  rewrite Hc in Hc'. injection Hc' as <-. by exists j, log.
Qed.

Lemma keep_log (logs : gmap (gostring * gostring) (list byte)) k log :
  logs !! k = Some log → logs = <[k := log]> logs.
Proof. intros. by rewrite insert_id. Qed.

Ltac keep_ok Hok := destruct Hok; constructor; cbn in *; try done; auto.

Lemma step_count_ok id payload :
  s_collectors s !! id = Some (CWrote payload) →
  inv faulty (do_count s id payload) ∧ evolves s (do_count s id payload).
Proof.
  intros Hc. destruct (collector_job _ _ Hc) as (j & log & Hj & Hl & Hok).
  unfold do_count, count_output. rewrite Hj.
  eapply (inv_local faulty s _ id j _ _ _ log log); try done; [by apply keep_log|by left| |].
  - destruct Hok. constructor; cbn in *; try done; [auto|lia|].
    destruct faulty; lia.
  - constructor; cbn; try done; [|lia]. intros Ht. destruct Hok. by rewrite running_not_terminal in Ht by auto.
Qed.

Lemma step_exit_ok id payload :
  s_collectors s !! id = Some (CExit payload) →
  inv faulty (do_exit s id payload) ∧ evolves s (do_exit s id payload).
Proof.
  intros Hc. destruct (collector_job _ _ Hc) as (j & log & Hj & Hl & Hok).
  assert (terminal j = false) as Hrun by (destruct Hok; by apply running_not_terminal; auto).
  unfold do_exit, record_exit. rewrite Hj. destruct (DecodeExit payload) as [code|e|].
  - eapply (inv_local faulty s _ id j _ _ _ log log); try done; [by apply keep_log|by left| |].
    + keep_ok Hok.
    + constructor; cbn; try done. by rewrite Hrun.
  - eapply (inv_local faulty s _ id j j _ _ log log); try done;
      [by rewrite insert_id|by apply keep_log|by left|keep_ok Hok].
  - eapply (inv_local faulty s _ id j j _ _ log log); try done;
      [by rewrite insert_id|by apply keep_log|by left|keep_ok Hok].
Qed.

Lemma step_finish_ok id gotExit now :
  s_collectors s !! id = Some (CEnd gotExit) →
  inv faulty (do_finish s id gotExit now) ∧ evolves s (do_finish s id gotExit now).
Proof.
  intros Hc. destruct (collector_job _ _ Hc) as (j & log & Hj & Hl & Hok).
  assert (terminal j = false) as Hrun by (destruct Hok; by apply running_not_terminal; auto).
  unfold do_finish, finish_job. rewrite Hj.
  eapply (inv_local faulty s _ id j _ _ _ log log); try done; [by apply keep_log|by left| |].
  - destruct Hok as [_ _ _ _ Hstop Hcl Hb Hlog].
    assert (end_state (stopReason j) gotExit ≠ mcpJobRunning) as Hns.
    { unfold end_state. destruct (stopReason j) as [r|]; [by destruct Hstop as [-> | ->]|by destruct gotExit]. }
    constructor; cbn; try done.
    + intros _. split; [by apply terminal_states|].
      unfold end_state. destruct (stopReason j); [done|]. destruct gotExit; auto.
    + apply eq_sym, negb_false_iff. by apply terminal_states.
    + split; [intros _; by apply terminal_states|by eexists].
  - constructor; cbn; try done. by rewrite Hrun.
Qed.

(** The collector moves on without the lock. *)
Lemma step_collector_ok id c c' :
  s_collectors s !! id = Some c → c ≠ CDone → c' ≠ CDone → uncounted c = uncounted c' →
  inv faulty (with_collector s id c') ∧ evolves s (with_collector s id c').
Proof.
  intros Hc Hd Hd' Hu. destruct (collector_job _ _ Hc) as (j & log & Hj & Hl & Hok).
  eapply (inv_local faulty s _ id j j _ _ log log); try done;
    [by rewrite insert_id|by apply keep_log|by left|].
  destruct Hok. constructor; try done; [auto|by rewrite <- Hu].
Qed.

Lemma step_output_ok id j payload kept :
  s_collectors s !! id = Some CRead → jobs (s_list s) !! id = Some j →
  kept `prefix_of` payload → (faulty = false → kept = payload) →
  inv faulty (do_output s id (frame j) payload kept) ∧ evolves s (do_output s id (frame j) payload kept).
Proof.
  intros Hc Hj Hk Hf. destruct (collector_job _ _ Hc) as (j' & log & Hj' & Hl & Hok).
  rewrite Hj in Hj'. injection Hj' as <-.
  eapply (inv_local faulty s _ id j j _ _ log (log ++ kept)); try done;
    [by rewrite insert_id| |by left| |].
  - cbn. apply map_eq. intros k. destruct (decide (k = (frame j, id))) as [->|].
    + by rewrite lookup_alter_eq, lookup_insert_eq, Hl.
    + by rewrite lookup_alter_ne, lookup_insert_ne by done.
  - destruct Hok. pose proof (prefix_length _ _ Hk). constructor; try done; [auto|].
    cbn in *. rewrite length_app. destruct faulty; [lia|]. rewrite Hf by done. lia.
  - constructor; try done; [|by eexists].
    intros Ht. destruct Hok. by rewrite running_not_terminal in Ht by auto.
Qed.

Lemma step_stop_ok id reason :
  reason = mcpJobKilled ∨ reason = mcpJobTimedOut →
  inv faulty (do_stop s id reason) ∧ evolves s (do_stop s id reason).
Proof.
  intros Hr. unfold do_stop, requestMCPJobStop.
  assert (inv faulty (with_list s (s_list s)) ∧ evolves s (with_list s (s_list s))) as Hnop
    by (destruct s; split; [done|apply evolves_refl]).
  destruct (jobs (s_list s) !! id) as [j|] eqn:Hj; [|done].
  destruct (terminal j || bool_decide (stopReason j ≠ None)) eqn:Hno; [done|clear Hnop].
  apply orb_false_iff in Hno as [Ht Hs%bool_decide_eq_false].
  apply dec_stable in Hs.
  destruct (inv_jobs _ _ Hinv _ _ Hj) as (c & log & Hc & Hl & Hok).
  eapply (inv_local faulty s _ id j _ c c log log); try done;
    [cbn; by rewrite insert_id|by apply keep_log|by left| |].
  - destruct Hok as [Hok1 Hok2 Hok3 Hok4 Hok5 Hok6 Hok7 Hok8]. constructor; cbn; try done.
    intros ->. destruct (Hok2 eq_refl). congruence.
  - constructor; cbn; try done; [by rewrite Ht|]. rewrite Hs. by intros [? ?].
Qed.

Lemma step_close_ok id j :
  jobs (s_list s) !! id = Some j → is_Some (stopReason j) →
  inv faulty (do_close s id) ∧ evolves s (do_close s id).
Proof.
  intros Hj Hs. destruct (inv_jobs _ _ Hinv _ _ Hj) as (c & log & Hc & Hl & Hok).
  eapply (inv_local faulty s _ id j j c c log log); try done;
    [cbn; by rewrite insert_id|cbn; by rewrite insert_id|by apply keep_log|by right|by destruct Hok].
Qed.

(** Launches make new jobs and leave the others alone. *)
Lemma step_reserve_ok fr n id fuel :
  createMCPJobLog fuel (nextID (s_list s)) (s_dirs s) fr = Some (n, id) →
  inv faulty (do_reserve s fr n id) ∧ evolves s (do_reserve s fr n id).
Proof.
  intros Hnew. apply createMCPJobLog_spec in Hnew as (Hn & -> & _ & _).
  destruct Hinv as [I1 I2 I3 I4 I5 I6].
  assert (∀ k, is_Some (jobs (s_list s) !! k) ∨ is_Some (s_reserved s !! k) → k ≠ job_id n) as Hfresh.
  { intros k Hk ->. destruct (I5 _ Hk) as (m & Hm & ?). apply job_id_inj in Hm; lia. }
  split; [constructor|split; [cbn; lia|]]; cbn [do_reserve s_list s_dirs s_logs s_reserved s_collectors s_closed jobs nextID].
  - intros k j Hj. destruct (I1 _ _ Hj) as (c & log & Hc & Hl & Hok). exists c, log.
    rewrite lookup_insert_ne; [done|]. intros [= _ Hk]. by apply (Hfresh k); [left; eexists|].
  - done.
  - done.
  - intros k fr' Hk. destruct (decide (k = job_id n)) as [->|Hne].
    + rewrite lookup_insert_eq in Hk. injection Hk as <-. rewrite lookup_insert_eq. split; [|done].
      apply eq_None_not_Some. intros Hs. by apply (Hfresh (job_id n)); [left|].
    + rewrite lookup_insert_ne in Hk by done. destruct (I4 _ _ Hk).
      rewrite lookup_insert_ne by congruence. done.
  - intros k Hk. destruct (decide (k = job_id n)) as [->|Hne]; [exists n; split; [done|lia]|].
    rewrite lookup_insert_ne in Hk by done. destruct (I5 _ Hk) as (m & ? & ?). exists m. split; [done|lia].
  - lia.
  - intros k j log Hj Hl. exists j, log. rewrite lookup_insert_ne; [split_and!; [done|done|apply job_grows_refl]|].
    intros [= _ Hk]. by apply (Hfresh k); [left; eexists|].
Qed.

Lemma step_publish_ok id fr lab cmd wd user log now :
  s_reserved s !! id = Some fr →
  let j := new_job lab cmd wd user fr log now in
  inv faulty (do_publish s id j) ∧ evolves s (do_publish s id j).
Proof.
  intros Hr j. destruct Hinv as [I1 I2 I3 I4 I5 I6]. destruct (I4 _ _ Hr) as [Hn Hl].
  assert (id ∉ s_closed s) as Hncl by (intros Hcl%I3; rewrite Hn in Hcl; by destruct Hcl).
  split; [constructor|split; [cbn; lia|]];
    cbn [do_publish notifyLocked set_job s_list s_dirs s_logs s_reserved s_collectors s_closed jobs nextID].
  - intros k jk. destruct (decide (k = id)) as [->|Hk].
    + rewrite !lookup_insert_eq. intros [= <-]. exists CRead, []. split_and!; [done|done|].
      rewrite bool_decide_eq_false_2 by done. constructor; cbn; try done; first [by destruct faulty|by split; intros []].
    + rewrite !lookup_insert_ne by done. apply I1.
  - intros k ck. destruct (decide (k = id)) as [->|Hk].
    + rewrite !lookup_insert_eq. intros _. by eexists.
    + rewrite !lookup_insert_ne by done. apply I2.
  - intros k Hk. destruct (decide (k = id)) as [->|Hne]; [done|]. rewrite lookup_insert_ne by done. auto.
  - intros k fr'. rewrite lookup_delete_Some. intros [Hk Hkr]. rewrite lookup_insert_ne by done. auto.
  - intros k Hk. apply I5. destruct (decide (k = id)) as [->|Hne]; [right; by eexists|].
    rewrite lookup_insert_ne, lookup_delete_ne in Hk by done. done.
  - done.
  - intros k jk lk Hjk Hlk. exists jk, lk. rewrite lookup_insert_ne by congruence.
    split_and!; [done|done|apply job_grows_refl].
Qed.

Lemma step_abandon_ok id : inv faulty (do_abandon s id) ∧ evolves s (do_abandon s id).
Proof.
  destruct Hinv as [I1 I2 I3 I4 I5 I6]. split; [constructor; try done|].
  - intros k fr. cbn. rewrite lookup_delete_Some. intros [_ ?]. auto.
  - intros k [Hk|[fr Hk]]; [auto|]. cbn in Hk. rewrite lookup_delete_Some in Hk. destruct Hk as [_ Hk]. apply I5. right. by exists fr.
  - split; [cbn; lia|]. intros k j log Hj Hl. exists j, log. split_and!; [done|done|apply job_grows_refl].
Qed.

End Steps.

Lemma sys_step_ok faulty s a s' : inv faulty s → step faulty a s s' → inv faulty s' ∧ evolves s s'.
Proof.
  intros Hinv Hstep. destruct Hstep.
  - by eapply step_reserve_ok.
  - by apply (step_publish_ok faulty s Hinv id fr).
  - by apply step_abandon_ok.
  - by apply step_stop_ok.
  - by eapply step_close_ok.
  - by apply step_output_ok.
  - by apply step_count_ok.
  - by eapply step_collector_ok.
  - by apply step_exit_ok.
  - by eapply step_collector_ok.
  - by apply step_finish_ok.
Qed.

Lemma inv_init faulty dirs logs : inv faulty (init dirs logs).
Proof.
  constructor; cbn; try done.
  intros id [[]|[]]; done.
Qed.

Lemma jobs_run_ok faulty s acts s' : run faulty s acts s' → inv faulty s → inv faulty s' ∧ evolves s s'.
Proof.
  induction 1 as [s|s a s1 acts s2 Hs _ IH]; intros Hinv; [split; [done|apply evolves_refl]|].
  destruct (sys_step_ok faulty s a s1 Hinv Hs) as [H1 He1]. destruct (IH H1) as [H2 He2].
  split; [done|by eapply evolves_trans].
Qed.

(** ** Waiting on a job while the system runs *)

(** One look: the job and the part of the log it saw, and what it returned. *)
Record look := MkLook { lk_job : mcpJob; lk_slice : list byte; lk_status : mcpWaitStatus }.

(** A client that waits on [id] again and again, each time from the offset the
    wait before gave, while the system moves in between. *)
Inductive waits (id : gostring) : sys → Z → list look → sys → Z → Prop :=
| waits_nil s offset : waits id s offset [] s offset
| waits_step s a s1 offset ws s2 offset2 :
    step false a s s1 → waits id s1 offset ws s2 offset2 → waits id s offset ws s2 offset2
| waits_look s offset j log st ws s2 offset2 :
    jobs (s_list s) !! id = Some j → s_logs s !! (frame j, id) = Some log →
    wait_status id j (Some log) offset = Ret st →
    waits id s (ws_next st) ws s2 offset2 →
    waits id s offset (MkLook j (wait_slice j log offset) st :: ws) s2 offset2.

Lemma line_end_spec i e data :
  (e ≤ i)%nat →
  let r := line_end i e data in
  (r = e ∨ (i < r ≤ i + length data ∧ ∃ b, data !! (r - 1 - i) = Some b ∧ is_break b = true))%nat.
Proof.
  revert i e. induction data as [|b data IH]; intros i e He; cbn [line_end length]; [by left|].
  destruct (IH (S i) (if is_break b then S i else e)) as [Hr|(Hr & b' & Hb & Hbr)].
  - case_match; lia.
  - cbv zeta. rewrite Hr. destruct (is_break b) eqn:Hb; [|by left]. right. split; [lia|].
    exists b. by replace (S i - 1 - i)%nat with 0%nat by lia.
  - right. split; [lia|]. exists b'. split; [|done].
    destruct (line_end (S i) _ data - 1 - i)%nat as [|k] eqn:Hk; [lia|].
    cbn. rewrite <- Hb. f_equal. lia.
Qed.

Definition ends_line (s : list byte) : Prop := s = [] ∨ ∃ t b, s = t ++ [b] ∧ is_break b = true.

Lemma take_line_end data : ends_line (take (line_end 0 0 data) data).
Proof.
  destruct (line_end_spec 0 0 data) as [->|(Hr & b & Hb & Hbr)]; [lia|by left|right].
  set (r := line_end 0 0 data) in *. exists (take (r - 1) data), b. split; [|done].
  replace r with (S (r - 1)) at 1 by lia. apply take_S_r. rewrite <- Hb. f_equal. lia.
Qed.

Lemma is_break_ascii b : is_break b = true → is_ascii b = true.
Proof. unfold is_break. rewrite orb_true_iff, !bool_decide_eq_true. by intros [-> | ->]. Qed.

Lemma ends_line_app s t : ends_line s → ToValidUTF8 (s ++ t) = ToValidUTF8 s ++ ToValidUTF8 t.
Proof.
  intros [->|(u & b & -> & Hb)]; [done|]. rewrite <- app_assoc.
  by apply ToValidUTF8_app_ascii, is_break_ascii.
Qed.

Lemma ends_line_snoc s t : ends_line s → ends_line t → ends_line (s ++ t).
Proof.
  intros Hs [->|(u & b & -> & Hb)]; [by rewrite app_nil_r|]. right. exists (s ++ u), b. by rewrite app_assoc.
Qed.

(** The slice a wait returns continues the log at the offset. *)
Lemma wait_slice_spec j log offset :
  0 ≤ offset ≤ combinedBytes j → combinedBytes j ≤ Z.of_nat (length log) →
  let slice := wait_slice j log offset in
  take (Z.to_nat (offset + Z.of_nat (length slice))) log = take (Z.to_nat offset) log ++ slice ∧
  offset + Z.of_nat (length slice) ≤ combinedBytes j ∧
  (terminal j = false → ends_line slice).
Proof.
  intros Ho Hl. cbv zeta.
  assert (∃ k, wait_slice j log offset = take k (drop (Z.to_nat offset) log) ∧
    Z.of_nat k ≤ combinedBytes j - offset) as (k & Hk & Hkl).
  { unfold wait_slice, wait_data. destruct (terminal j).
    - rewrite take_take. eexists. split; [done|]. lia.
    - rewrite !take_take. eexists. split; [done|]. lia. }
  rewrite Hk. rewrite length_take_le by (rewrite length_drop; lia).
  split_and!.
  - rewrite take_drop_commute, Z2Nat.inj_add, Nat2Z.id by lia.
    rewrite <- (take_drop (Z.to_nat offset) (take (Z.to_nat offset + k) log)) at 1.
    by rewrite take_take, Nat.min_l by lia.
  - lia.
  - intros Ht. rewrite <- Hk. unfold wait_slice. rewrite Ht. apply take_line_end.
Qed.

(** A client has the log up to its offset, and may go on cleaning piece by piece. *)
Definition caught_up (id : gostring) (s : sys) (offset : Z) (acc : list byte) : Prop :=
  0 ≤ offset ∧ (jobs (s_list s) !! id = None → offset = 0 ∧ acc = []) ∧
  ∀ j log, jobs (s_list s) !! id = Some j → s_logs s !! (frame j, id) = Some log →
    offset ≤ combinedBytes j ∧ acc = take (Z.to_nat offset) log.

Definition clean_cut (id : gostring) (s : sys) (offset : Z) (acc : list byte) : Prop :=
  ends_line acc ∨ ∃ j, jobs (s_list s) !! id = Some j ∧ terminal j = true ∧ offset = combinedBytes j.

Lemma inv_log_length faulty s id j :
  inv faulty s → faulty = false → jobs (s_list s) !! id = Some j →
  ∃ log, s_logs s !! (frame j, id) = Some log ∧ combinedBytes j ≤ Z.of_nat (length log) ∧ 0 ≤ combinedBytes j
    ∧ (terminal j = true → combinedBytes j = Z.of_nat (length log)).
Proof.
  intros Hinv -> Hj. destruct (inv_jobs _ _ Hinv _ _ Hj) as (c & log & Hc & Hl & [Hrun _ _ _ _ _ Hb Hlog]).
  exists log. split_and!; [done|lia|done|]. intros Ht.
  destruct c; try (cbn in Hlog; lia). rewrite running_not_terminal in Ht; [done|by apply Hrun].
Qed.

Lemma caught_up_step id s a s' offset acc :
  inv false s → step false a s s' → caught_up id s offset acc → caught_up id s' offset acc.
Proof.
  intros Hinv Hs (H0 & Hn & Hsome). destruct (sys_step_ok _ _ _ _ Hinv Hs) as [Hinv' [_ He]].
  destruct (jobs (s_list s) !! id) as [j|] eqn:Hj.
  - destruct (inv_log_length _ _ _ _ Hinv eq_refl Hj) as (log & Hl & Hlen & _).
    destruct (Hsome j log) as [Ho Ha]; [done|done|].
    destruct (He _ _ _ Hj Hl) as (j' & log' & Hj' & Hl' & [_ _ _ Hb [more ->]]).
    split_and!; [done|congruence|]. intros j2 log2 Hj2 Hl2.
    rewrite Hj' in Hj2. injection Hj2 as <-. rewrite Hl' in Hl2. injection Hl2 as <-.
    split; [lia|]. by rewrite take_app_le by lia.
  - destruct (Hn eq_refl) as [-> ->]. split_and!; [done|done|]. intros j2 log2 Hj2 _.
    destruct (inv_log_length _ _ _ _ Hinv' eq_refl Hj2) as (? & _ & _ & ? & _). by rewrite take_0.
Qed.

Lemma clean_cut_step id s a s' offset acc :
  inv false s → step false a s s' → clean_cut id s offset acc → clean_cut id s' offset acc.
Proof.
  intros Hinv Hs [Hc|(j & Hj & Ht & Ho)]; [by left|right].
  destruct (sys_step_ok _ _ _ _ Hinv Hs) as [_ [_ He]].
  destruct (inv_log_length _ _ _ _ Hinv eq_refl Hj) as (log & Hl & _).
  destruct (He _ _ _ Hj Hl) as (j' & log' & Hj' & _ & [_ Hov _ _ _]). destruct (Hov Ht) as [-> _].
  by exists j.
Qed.

(** What a look adds. *)
Lemma caught_up_look id s offset acc j log st :
  inv false s → caught_up id s offset acc →
  jobs (s_list s) !! id = Some j → s_logs s !! (frame j, id) = Some log →
  wait_status id j (Some log) offset = Ret st →
  let slice := wait_slice j log offset in
  caught_up id s (ws_next st) (acc ++ slice) ∧ ws_output st = ToValidUTF8 slice ∧
  (clean_cut id s offset acc → ToValidUTF8 (acc ++ slice) = ToValidUTF8 acc ++ ToValidUTF8 slice) ∧
  (clean_cut id s offset acc → (terminal j = true → ws_next st = combinedBytes j) →
   clean_cut id s (ws_next st) (acc ++ slice)).
Proof.
  intros Hinv (H0 & _ & Hsome) Hj Hl Hst. destruct (Hsome j log Hj Hl) as [Ho ->].
  destruct (inv_log_length _ _ _ _ Hinv eq_refl Hj) as (log' & Hl' & Hlen & _ & _).
  rewrite Hl in Hl'. injection Hl' as <-.
  unfold wait_status in Hst. cbn [or_err] in Hst.
  destruct (guard_err _ _) as [[]| |]; [|done|done]. rewrite !ret_bind in Hst. injection Hst as <-.
  cbn [ws_next ws_output]. cbv zeta.
  destruct (wait_slice_spec j log offset) as (Htk & Hb & Hlines); [done|done|].
  split_and!.
  - split_and!; [lia|congruence|].
    intros j2 log2 Hj2 Hl2. rewrite Hj in Hj2. injection Hj2 as <-. rewrite Hl in Hl2. injection Hl2 as <-.
    by rewrite Htk.
  - done.
  - intros [Hc|(j2 & Hj2 & Ht & Hend)]; [by apply ends_line_app|].
    rewrite Hj in Hj2. injection Hj2 as <-.
    assert (wait_slice j log offset = []) as -> by (apply nil_length_inv; lia).
    by rewrite app_nil_r, app_nil_r.
  - intros Hc Hfull. destruct (terminal j) eqn:Ht; [right; exists j; auto|left].
    destruct Hc as [Hc|(j2 & Hj2 & Ht2 & _)]; [|congruence].
    apply ends_line_snoc; auto.
Qed.

Lemma waits_ok id s offset ws s' offset' acc :
  waits id s offset ws s' offset' → inv false s → caught_up id s offset acc →
  let slices := concat (lk_slice <$> ws) in
  inv false s' ∧ caught_up id s' offset' (acc ++ slices) ∧
  Forall (λ w, ws_output (lk_status w) = ToValidUTF8 (lk_slice w)) ws ∧
  (clean_cut id s offset acc →
   Forall (λ w, terminal (lk_job w) = true → ws_next (lk_status w) = combinedBytes (lk_job w)) ws →
   ToValidUTF8 (acc ++ slices) = ToValidUTF8 acc ++ concat ((λ w, ws_output (lk_status w)) <$> ws)).
Proof.
  intros Hw. revert acc. induction Hw as [s offset|s a s1 offset ws s2 offset2 Hs _ IH
    |s offset j log st ws s2 offset2 Hj Hl Hst _ IH]; intros acc Hinv Hc; cbv zeta.
  - cbn. rewrite !app_nil_r. auto.
  - destruct (IH acc) as (H1 & H2 & H3 & H4).
    + by apply (sys_step_ok false s a s1).
    + by eapply caught_up_step.
    + split_and!; [done|done|done|]. intros Hcl Hf. apply H4; [by apply (clean_cut_step id s a s1)|done].
  - destruct (caught_up_look id s offset acc j log st Hinv Hc Hj Hl Hst) as (Hc' & Hout & Hcat & Hcut).
    destruct (IH _ Hinv Hc') as (H1 & H2 & H3 & H4). rewrite fmap_cons, concat_cons. cbn [lk_slice].
    rewrite app_assoc. split_and!; [done|done|by apply Forall_cons_2|].
    intros Hcl Hfull. apply Forall_cons in Hfull as [Hf Hfull]. cbn [lk_job lk_status] in Hf.
    rewrite fmap_cons, concat_cons, app_assoc. cbn [lk_status]. rewrite Hout, <- (Hcat Hcl). auto.
Qed.

(** ** Properties *)

(** *** How a job ended *)

Definition made_by (id : gostring) (a : actor) : bool :=
  match a with Collector i _ => bool_decide (i = id) | _ => false end.

(** Any other step leaves the collector where it is. *)
Lemma others_keep_collector faulty id s a s' c :
  inv faulty s → s_collectors s !! id = Some c → step faulty a s s' → made_by id a = false →
  s_collectors s' !! id = Some c ∧ s_closed s ⊆ s_closed s'.
Proof.
  intros Hinv Hc Hs Ha. destruct (inv_collectors _ _ Hinv _ _ Hc) as [j Hj].
  destruct Hs; cbn in Ha; try (apply bool_decide_eq_false in Ha); cbn; (split; [|set_solver]);
    try (rewrite lookup_insert_ne by congruence); try done.
  rewrite lookup_insert_ne; [done|]. intros ->.
  match goal with H : s_reserved s !! _ = Some _ |- _ => destruct (inv_reserved _ _ Hinv _ _ H) end. congruence.
Qed.

(** The exit frames that the collector of a job read. *)
Definition exit_frames (id : gostring) (acts : list actor) : list (list byte) :=
  omap (λ a, match a with Collector i (ReadExit p) => if bool_decide (i = id) then Some p else None | _ => None end) acts.
Definition exit_code (payload : list byte) : option Z := match DecodeExit payload with Ret code => Some code | _ => None end.

(** A job against what has happened. *)
Definition ended_by (id : gostring) (acts : list actor) (j : mcpJob) (c : collector) : Prop :=
  (∀ r, stopReason j = Some r → Stop id r ∈ acts) ∧
  match c with
  | CRead | CWrote _ | CEnd false => exit_frames id acts = [] ∧ exitCode j = None
  | CExit p => exit_frames id acts = [p] ∧ exitCode j = None
  | CEnd true => ∃ p, exit_frames id acts = [p] ∧ exitCode j = exit_code p
  | CDone =>
      (exit_frames id acts = [] ∧ exitCode j = None ∧ (stopReason j = None → state j = mcpJobLost)) ∨
      (∃ p, exit_frames id acts = [p] ∧ exitCode j = exit_code p ∧ (stopReason j = None → state j = mcpJobExited))
  end.
Definition told (acts : list actor) (s : sys) : Prop := ∀ id,
  match s_collectors s !! id with
  | None => exit_frames id acts = []
  | Some c => ∃ j, jobs (s_list s) !! id = Some j ∧ ended_by id acts j c
  end.

#[local] Arguments ended_by : simpl never.
Lemma exit_frames_snoc id acts a :
  exit_frames id (acts ++ [a]) = exit_frames id acts ++ exit_frames id [a].
Proof. apply omap_app. Qed.

Lemma exit_frames_other id a : made_by id a = false → exit_frames id [a] = [].
Proof. destruct a as [i []| |]; cbn; try done. by intros ->. Qed.

(** A job that a step does not concern. *)
Lemma ended_by_other id acts a j j' c : made_by id a = false → ended_by id acts j c →
  state j' = state j → exitCode j' = exitCode j →
  (stopReason j' = stopReason j ∨ ∃ r, terminal j = false ∧ stopReason j' = Some r ∧ a = Stop id r) →
  (c = CDone → terminal j = true) → ended_by id (acts ++ [a]) j' c.
Proof.
  intros Ha [Hr Hc] Hst Hex Hstop Hdone. split.
  - intros r Hr'. apply elem_of_app. destruct Hstop as [Hs|(r' & _ & Hs & ->)]; [left; apply Hr; congruence|].
    right. rewrite Hs in Hr'. injection Hr' as <-. by left.
  - rewrite exit_frames_snoc, (exit_frames_other id a Ha), app_nil_r, Hex.
    destruct c as [| | |[]|]; [done..|]. rewrite Hst.
    destruct Hstop as [->|(r & Ht & _)]; [done|]. specialize (Hdone eq_refl). congruence.
Qed.

(** A step of the job's collector. *)
Lemma ended_by_own id acts m j j' c c' : ended_by id acts j c → stopReason j' = stopReason j →
  (∀ frames, exit_frames id acts = frames → ended_by id acts j c →
     match c' with
     | CRead | CWrote _ | CEnd false => frames ++ exit_frames id [Collector id m] = [] ∧ exitCode j' = None
     | CExit p => frames ++ exit_frames id [Collector id m] = [p] ∧ exitCode j' = None
     | CEnd true => ∃ p, frames ++ exit_frames id [Collector id m] = [p] ∧ exitCode j' = exit_code p
     | CDone =>
         (frames ++ exit_frames id [Collector id m] = [] ∧ exitCode j' = None ∧ (stopReason j = None → state j' = mcpJobLost)) ∨
         (∃ p, frames ++ exit_frames id [Collector id m] = [p] ∧ exitCode j' = exit_code p ∧ (stopReason j = None → state j' = mcpJobExited))
     end) → ended_by id (acts ++ [Collector id m]) j' c'.
Proof.
  intros He Hs Hc. specialize (Hc _ eq_refl He). destruct He as [Hr _]. split.
  - intros r Hr'. apply elem_of_app. left. apply Hr. congruence.
  - rewrite exit_frames_snoc, Hs. exact Hc.
Qed.

Lemma others_keep_job faulty id s a s' j :
  inv faulty s → jobs (s_list s) !! id = Some j → step faulty a s s' → made_by id a = false →
  ∃ j', jobs (s_list s') !! id = Some j' ∧ state j' = state j ∧ exitCode j' = exitCode j ∧
    (stopReason j' = stopReason j ∨ ∃ r, terminal j = false ∧ stopReason j' = Some r ∧ a = Stop id r).
Proof.
  intros Hinv Hj Hs Ha.
  assert (Hsame : ∀ k j0, k ≠ id → <[k := j0]> (jobs (s_list s)) !! id = Some j) by (intros; by rewrite lookup_insert_ne).
  assert (Hdone : jobs (s_list s') !! id = Some j → ∃ j', jobs (s_list s') !! id = Some j' ∧ state j' = state j ∧ exitCode j' = exitCode j ∧
    (stopReason j' = stopReason j ∨ ∃ r, terminal j = false ∧ stopReason j' = Some r ∧ a = Stop id r)).
  { intros. exists j. split_and!; auto. }
  destruct Hs as [| |s k|s k reason Hreason| | |s k payload Hc| |s k payload Hc| |s k gotExit now Hc]; cbn in Ha;
    try (apply bool_decide_eq_false in Ha); try (apply Hdone; done).
  - apply Hdone. cbn. apply Hsame. intros ->.
    match goal with H : s_reserved s !! _ = Some _ |- _ => destruct (inv_reserved _ _ Hinv _ _ H) end. congruence.
  - unfold do_stop, requestMCPJobStop in *. destruct (decide (k = id)) as [->|Hne].
    + rewrite Hj in *. destruct (terminal j || _) eqn:Ht; [by apply Hdone|]. apply orb_false_iff in Ht as [Ht _].
      cbn. rewrite lookup_insert_eq. eexists. split; [done|]. cbn. split; [done|]. split; [done|]. right. eauto.
    + destruct (jobs (s_list s) !! k) as [jk|]; [|by apply Hdone]. destruct (terminal jk || _); [by apply Hdone|]. by apply Hdone, Hsame.
  - apply Hdone. unfold do_count, count_output. cbn. destruct (jobs (s_list s) !! k); [by apply Hsame|done].
  - apply Hdone. unfold do_exit, record_exit. cbn. destruct (jobs (s_list s) !! k); [|done].
    destruct (DecodeExit payload); [by apply Hsame|done..].
  - apply Hdone. unfold do_finish, finish_job. cbn. destruct (jobs (s_list s) !! k); [by apply Hsame|done].
Qed.

Lemma told_step faulty acts s a s' :
  inv faulty s → told acts s → step faulty a s s' → told (acts ++ [a]) s'.
Proof.
  intros Hinv Htold Hs id. specialize (Htold id). destruct (made_by id a) eqn:Ha.
  - destruct a as [i m| |]; try done. apply bool_decide_eq_true in Ha as ->.
    destruct (s_collectors s !! id) as [c|] eqn:Hc.
    2: { inversion Hs; subst; congruence. }
    destruct Htold as (j & Hj & He).
    inversion Hs; subst; match goal with H : s_collectors s !! id = Some _ |- _ => rewrite Hc in H; injection H as -> end; cbn;
      rewrite lookup_insert_eq.
    + exists j. split; [done|]. apply (ended_by_own id acts _ j j _ _ He eq_refl). intros frames <- [_ [-> ?]]. cbn. done.
    + unfold count_output. rewrite Hj. cbn. rewrite lookup_insert_eq. eexists. split; [done|].
      apply (ended_by_own id acts _ j _ _ _ He eq_refl). intros frames <- [_ [-> ?]]. cbn. done.
    + exists j. split; [done|]. apply (ended_by_own id acts _ j j _ _ He eq_refl). intros frames <- [_ [-> Hx]].
      cbn. by rewrite bool_decide_eq_true_2.
    + unfold record_exit. rewrite Hj. destruct He as [Hr [Hf Hx]]. unfold exit_code.
      destruct (DecodeExit payload) as [code|e|] eqn:Hd; cbn; rewrite ?lookup_insert_eq; eexists; (split; [done|]);
        (eapply (ended_by_own id acts _ j _ (CExit payload) (CEnd true)); [by split|done|]; intros frames <- _;
         rewrite Hf; exists payload; split; [done|]; unfold exit_code; by rewrite Hd).
    + exists j. split; [done|]. apply (ended_by_own id acts _ j j _ _ He eq_refl). intros frames <- [_ [-> ?]]. cbn. done.
    + unfold finish_job. rewrite Hj. cbn. rewrite lookup_insert_eq. eexists. split; [done|].
      eapply (ended_by_own id acts _ j _ _ CDone); [exact He|done|]. intros frames <- [_ Hx]. cbn [state exitCode stopReason].
      destruct gotExit.
      * destruct Hx as (p & -> & Hx). right. exists p. cbn. split_and!; [done..|]. unfold end_state. by intros ->.
      * destruct Hx as [-> Hx]. left. cbn. split_and!; [done..|]. unfold end_state. by intros ->.
  - destruct (s_collectors s !! id) as [c|] eqn:Hc.
    + destruct Htold as (j & Hj & He). destruct (others_keep_collector _ _ _ _ _ _ Hinv Hc Hs Ha) as [-> _].
      destruct (others_keep_job _ _ _ _ _ _ Hinv Hj Hs Ha) as (j' & Hj' & H1 & H2 & H3). exists j'. split; [done|].
      apply (ended_by_other id acts a j); try done. intros ->.
      destruct (inv_jobs _ _ Hinv _ _ Hj) as (c2 & log2 & Hc2 & _ & Hok2). rewrite Hc in Hc2. injection Hc2 as <-.
      by apply (ok_over _ _ _ _ _ Hok2 eq_refl).
    + assert (Hn : exit_frames id (acts ++ [a]) = []) by (by rewrite exit_frames_snoc, Htold, (exit_frames_other id a Ha)).
      destruct (s_collectors s' !! id) as [c'|] eqn:Hc'; [|done].
      destruct Hs as [| | | | | | | | | |]; cbn in Ha, Hc'; try congruence;
        try (apply bool_decide_eq_false in Ha; rewrite lookup_insert_ne in Hc' by congruence; congruence).
      destruct (decide (id0 = id)) as [->|Hne]; [|by rewrite lookup_insert_ne in Hc'; [congruence|done]].
      rewrite lookup_insert_eq in Hc'. injection Hc' as <-. cbn. rewrite lookup_insert_eq. eexists. split; [done|]. by split.
Qed.

Lemma run_told faulty s acts s' : run faulty s acts s' → ∀ before, inv faulty s → told before s → told (before ++ acts) s'.
Proof.
  induction 1 as [s|s a s1 acts s2 Hs _ IH]; intros before Hinv Ht; [by rewrite app_nil_r|].
  destruct (sys_step_ok _ _ _ _ Hinv Hs) as [Hinv1 _].
  change (a :: acts) with ([a] ++ acts). rewrite app_assoc. apply IH; [done|]. exact (told_step _ _ _ _ _ Hinv Ht Hs).
Qed.

Lemma told_init dirs logs : told [] (init dirs logs).
Proof. by intros id. Qed.

(** C14: Whatever the interleaving of launches, collectors, timers, kills and the closing of
    connections: a job keeps its identity and its log only grows; once it is over nothing
    about it changes; it is over exactly when it has no connection and has an end time; its
    last state is the reason somebody asked to stop it for, or, when nobody had, "exited" if
    its collector read an exit frame and "lost" if it did not; its exit code is the one of
    that frame, which is the only one read; and it counts exactly the bytes of its log when
    no write to the log falls short. *)
Theorem jobs_lifecycle faulty dirs logs acts s acts' s' :
  run faulty (init dirs logs) acts s → run faulty s acts' s' →
  ∀ id j, jobs (s_list s) !! id = Some j →
  ∃ log j' log', s_logs s !! (frame j, id) = Some log ∧
    jobs (s_list s') !! id = Some j' ∧ s_logs s' !! (frame j', id) = Some log' ∧
    job_grows j j' log log' ∧
    conn j = negb (terminal j) ∧ (is_Some (endedAt j) ↔ terminal j = true) ∧
    (terminal j = true →
       match stopReason j with
       | Some r => state j = r ∧ Stop id r ∈ acts
       | None => state j = match exit_frames id acts with [] => mcpJobLost | _ => mcpJobExited end
       end ∧
       (length (exit_frames id acts) ≤ 1)%nat ∧ exitCode j = (head (exit_frames id acts) ≫= exit_code) ∧
       (faulty = false → combinedBytes j = Z.of_nat (length log))).
Proof.
  intros H1 H2 id j Hj. destruct (jobs_run_ok _ _ _ _ H1 (inv_init _ _ _)) as [Hinv _].
  destruct (jobs_run_ok _ _ _ _ H2 Hinv) as [_ [_ He]].
  destruct (inv_jobs _ _ Hinv _ _ Hj) as (c & log & Hc & Hl & Hok).
  destruct (He _ _ _ Hj Hl) as (j' & log' & Hj' & Hl' & Hg).
  exists log, j', log'. split_and!; try done; try (by apply Hok).
  intros Ht. assert (c = CDone) as ->.
  { destruct c; try done; rewrite running_not_terminal in Ht; try done; by apply Hok. }
  pose proof (run_told _ _ _ _ H1 [] (inv_init _ _ _) (told_init dirs logs) id) as Htold. rewrite Hc in Htold. cbn [app] in Htold.
  destruct Htold as (j0 & Hj0 & Hr & Hend). rewrite Hj in Hj0. injection Hj0 as <-.
  destruct (ok_over _ _ _ _ _ Hok eq_refl) as [_ Ho]. split; [|split; [|split]].
  - destruct (stopReason j) as [r|]; [split; [done|by apply Hr]|].
    destruct Hend as [(-> & _ & Hs)|(p & -> & _ & Hs)]; by apply Hs.
  - destruct Hend as [(-> & _)|(p & -> & _)]; cbn; lia.
  - destruct Hend as [(-> & -> & _)|(p & -> & -> & _)]; done.
  - intros ->. destruct (inv_log_length _ _ _ _ Hinv eq_refl Hj) as (log2 & Hl2 & _ & _ & Hb).
    rewrite Hl in Hl2. injection Hl2 as <-. auto.
Qed.

(** C15: A client that starts at offset 0 and always waits from the offset it was
    given has, at any time, looked at the whole log up to its offset, in order and
    without gaps or repeats; and unless a wait on a finished job was cut at 16000
    bytes, the texts it was given, put together, are the cleaned log: no character
    is lost at a seam. *)
Theorem waits_reproduce_log dirs logs acts s id ws s' offset j log :
  run false (init dirs logs) acts s → jobs (s_list s) !! id = None →
  waits id s 0 ws s' offset →
  jobs (s_list s') !! id = Some j → s_logs s' !! (frame j, id) = Some log →
  0 ≤ offset ≤ combinedBytes j ∧
  concat (lk_slice <$> ws) = take (Z.to_nat offset) log ∧
  Forall (λ w, ws_output (lk_status w) = ToValidUTF8 (lk_slice w)) ws ∧
  (Forall (λ w, terminal (lk_job w) = true → ws_next (lk_status w) = combinedBytes (lk_job w)) ws →
   concat ((λ w, ws_output (lk_status w)) <$> ws) = ToValidUTF8 (take (Z.to_nat offset) log)).
Proof.
  intros Hrun Hnone Hw Hj Hl. destruct (jobs_run_ok _ _ _ _ Hrun (inv_init _ _ _)) as [Hinv _].
  assert (caught_up id s 0 []) as Hc by (split_and!; [done|done|congruence]).
  destruct (waits_ok id s 0 ws s' offset [] Hw Hinv Hc) as (_ & (H0 & _ & Hsome) & Hout & Hcat).
  destruct (Hsome j log Hj Hl) as [Hle Htk]. cbn [app] in Htk, Hcat. split_and!; try done.
  intros Hfull. rewrite <- Htk, Hcat; [done|by left; left|done].
Qed.

(** A launch always finds a log directory: it takes the first number after the
    last one whose directory does not exist in the frame, so that no log of an
    earlier daemon or of the frame's origin is ever written to. *)
Theorem job_log_fresh fuel n dirs fr :
  0 ≤ n → (size dirs < fuel)%nat →
  ∃ n', createMCPJobLog fuel n dirs fr = Some (n', job_id n') ∧ n < n' ∧ (fr, job_id n') ∉ dirs ∧
    ∀ k, n < k < n' → (fr, job_id k) ∈ dirs.
Proof.
  intros Hn Hf. destruct (createMCPJobLog_total fuel n dirs fr Hn Hf) as [[n' id] H].
  pose proof (createMCPJobLog_spec _ _ _ _ _ _ H) as (? & -> & ? & ?). by exists n'.
Qed.

Lemma job_log_fresh_witness :
  ∃ n', createMCPJobLog 3 0 {[(bs "f", bs "j1"); (bs "f", bs "j2")]} (bs "f") = Some (n', job_id n') ∧ n' = 3.
Proof.
  destruct (job_log_fresh 3 0 {[(bs "f", bs "j1"); (bs "f", bs "j2")]} (bs "f")) as (n' & H & _);
    [lia|vm_compute; lia|].
  exists n'. split; [exact H|]. revert H. vm_compute. congruence.
Defined.

(** *** Killing *)

(** The moves a collector has left once its connection is closed. *)
Definition moves_left (c : collector) : nat :=
  match c with CWrote _ => 3 | CRead | CExit _ => 2 | CEnd _ => 1 | CDone => 0 end.

Definition moves_of (id : gostring) (acts : list actor) : nat := length (filter (λ a, made_by id a = true) acts).

Definition stopping (id : gostring) (reason : mcpJobState) (k : nat) (s : sys) : Prop :=
  id ∈ s_closed s ∧ ∃ j c, jobs (s_list s) !! id = Some j ∧ s_collectors s !! id = Some c ∧
    stopReason j = Some reason ∧ (moves_left c + k ≤ 3)%nat.

Lemma stopping_moves id reason k s a s' :
  inv true s → stopping id reason k s → step true a s s' → made_by id a = true → stopping id reason (S k) s'.
Proof.
  intros Hinv (Hcl & j & c & Hj & Hc & Hr & Hk) Hs Ha.
  assert (∃ c', s_collectors s' !! id = Some c' ∧ (S (moves_left c') ≤ moves_left c)%nat ∧ s_closed s' = s_closed s)
    as (c' & Hc' & Hm & Hcl').
  { inversion Hs; subst; cbn in Ha; try done; apply bool_decide_eq_true in Ha; subst; try done;
      match goal with H : s_collectors s !! id = Some _ |- _ => rewrite Hc in H; injection H as -> end.
    all: eexists; split; [cbn; by rewrite lookup_insert_eq|]; split; [cbn; lia|done]. }
  destruct (sys_step_ok _ _ _ _ Hinv Hs) as [_ [_ He]].
  destruct (inv_jobs _ _ Hinv _ _ Hj) as (? & log & _ & Hl & _).
  destruct (He _ _ _ Hj Hl) as (j' & log' & Hj' & _ & [_ _ Hstop _ _]).
  split; [by rewrite Hcl'|]. exists j', c'. split_and!; [done|done| |lia].
  rewrite Hstop; [done|]. rewrite Hr. by eexists.
Qed.

Lemma stopping_others id reason k s a s' :
  inv true s → stopping id reason k s → step true a s s' → made_by id a = false → stopping id reason k s'.
Proof.
  intros Hinv (Hcl & j & c & Hj & Hc & Hr & Hk) Hs Ha.
  destruct (sys_step_ok _ _ _ _ Hinv Hs) as [_ [_ He]].
  destruct (inv_jobs _ _ Hinv _ _ Hj) as (? & log & _ & Hl & _).
  destruct (He _ _ _ Hj Hl) as (j' & log' & Hj' & _ & [_ _ Hstop _ _]).
  destruct (others_keep_collector _ _ _ _ _ _ Hinv Hc Hs Ha) as [Hc' Hcl'].
  split; [by apply Hcl'|]. exists j', c. split_and!; [done|done| |done]. rewrite Hstop; [done|]. rewrite Hr. by eexists.
Qed.

Lemma stopping_run id reason k s acts s' :
  run true s acts s' → inv true s → stopping id reason k s →
  inv true s' ∧ stopping id reason (k + moves_of id acts) s'.
Proof.
  intros Hrun. revert k. induction Hrun as [s|s a s1 acts s2 Hs _ IH]; intros k Hinv Hst.
  { unfold moves_of. cbn. by rewrite Nat.add_0_r. }
  destruct (sys_step_ok _ _ _ _ Hinv Hs) as [Hinv1 _].
  unfold moves_of. rewrite filter_cons. case_decide as Ha.
  - cbn [length]. rewrite Nat.add_succ_r.
    apply (IH (S k)); [done|exact (stopping_moves _ _ _ _ _ _ Hinv Hst Hs Ha)].
  - apply IH; [done|]. apply not_true_is_false in Ha. exact (stopping_others _ _ _ _ _ _ Hinv Hst Hs Ha).
Qed.

(** A stop that was noted stays. *)
Lemma stop_noted s id reason j :
  inv true s → jobs (s_list s) !! id = Some j → terminal j = false →
  ∃ j', jobs (s_list (do_stop s id reason)) !! id = Some j' ∧ stopReason j' = Some (default reason (stopReason j)).
Proof.
  intros Hinv Hj Ht. unfold do_stop, requestMCPJobStop. rewrite Hj, Ht. cbn [orb].
  destruct (stopReason j) as [r|] eqn:Hr.
  - rewrite bool_decide_eq_true_2 by done. cbn. by exists j.
  - rewrite bool_decide_eq_false_2 by naive_solver. cbn. eexists. by rewrite lookup_insert_eq.
Qed.

(** A kill ends its job: from the moment its connection is closed, whatever happens between
    the request and the closing, the collector has at most three moves left, can always make
    the next one, and when it has made them the job is over, killed (or timed out, when the
    timer was first). *)
Theorem kill_ends_job dirs logs acts s id j acts1 s1 acts' s' :
  run true (init dirs logs) acts s → jobs (s_list s) !! id = Some j → terminal j = false →
  run true (do_stop s id mcpJobKilled) acts1 s1 →
  run true (do_close s1 id) acts' s' →
  ∃ j' c, jobs (s_list s') !! id = Some j' ∧ s_collectors s' !! id = Some c ∧
    (moves_left c + moves_of id acts' ≤ 3)%nat ∧
    (c = CDone → state j' = default mcpJobKilled (stopReason j)) ∧
    (c ≠ CDone → ∃ m s'', step true (Collector id m) s' s'').
Proof.
  intros Hrun Hj Ht Hrun1 Hrun'. destruct (jobs_run_ok _ _ _ _ Hrun (inv_init _ _ _)) as [Hinv _].
  destruct (step_stop_ok true s Hinv id mcpJobKilled ltac:(by left)) as [Hinv0 _].
  destruct (stop_noted s id mcpJobKilled j Hinv Hj Ht) as (j0 & Hj0 & Hr0).
  destruct (inv_jobs _ _ Hinv0 _ _ Hj0) as (c0 & log0 & _ & Hl0 & _).
  destruct (jobs_run_ok _ _ _ _ Hrun1 Hinv0) as [Hinv1 [_ He]].
  destruct (He _ _ _ Hj0 Hl0) as (j1 & log1 & Hj1 & _ & [_ _ Hstop _ _]).
  assert (Hr1 : stopReason j1 = Some (default mcpJobKilled (stopReason j))).
  { rewrite Hstop; [done|]. rewrite Hr0. by eexists. }
  destruct (step_close_ok true s1 Hinv1 id j1 Hj1 ltac:(rewrite Hr1; by eexists)) as [Hinv2 _].
  destruct (inv_jobs _ _ Hinv1 _ _ Hj1) as (c & log & Hc & _ & _).
  assert (stopping id (default mcpJobKilled (stopReason j)) 0 (do_close s1 id)) as Hst.
  { split; [cbn; set_solver|]. exists j1, c. split_and!; [done..|]. destruct c; cbn; lia. }
  destruct (stopping_run _ _ _ _ _ _ Hrun' Hinv2 Hst) as [Hinv3 (Hcl & j' & c' & Hj' & Hc' & Hr & Hm)].
  exists j', c'. split_and!; [done|done|lia| |].
  - intros ->. destruct (inv_jobs _ _ Hinv3 _ _ Hj') as (c2 & log2 & Hc2 & _ & Hok2).
    rewrite Hc' in Hc2. injection Hc2 as <-. destruct (ok_over _ _ _ _ _ Hok2 eq_refl) as [_ Hs].
    by rewrite Hr in Hs.
  - intros Hne. destruct c'; try done; do 2 eexists.
    + by apply step_read_error.
    + by apply step_count.
    + by apply step_exit.
    + by apply (step_finish true s' id gotExit 0).
Qed.

(** *** The wait call *)

Lemma send_signals_spec refuses js :
  NoDup js.*1 →
  let sent := fst (send_signals refuses js) in
  NoDup sent ∧ ∀ id, id ∈ sent → ∃ j, (id, j) ∈ js ∧ terminal j = false.
Proof.
  induction js as [|[id j] js IH]; intros Hnd; [split; [constructor|by intros ? ?%not_elem_of_nil]|].
  rewrite fmap_cons in Hnd. apply NoDup_cons in Hnd as [Hnin Hnd]. destruct (IH Hnd) as [IH1 IH2].
  cbv zeta. cbn [send_signals].
  assert (∀ k, k ∈ (send_signals refuses js).1 → ∃ j0, (k, j0) ∈ (id, j) :: js ∧ terminal j0 = false) as Hlater.
  { intros k Hk. destruct (IH2 k Hk) as (j0 & Hin & Ht). exists j0. split; [by right|done]. }
  destruct (terminal j) eqn:Ht; [by split|]. destruct (conn j); [|by split].
  destruct (refuses id); [split; [constructor|by intros ? ?%not_elem_of_nil]|].
  destruct (send_signals refuses js) as [sent e]. cbn [fst] in *. split.
  - apply NoDup_cons. split; [|done]. intros Hin. destruct (IH2 id Hin) as (j0 & Hin0 & _).
    apply Hnin. apply list_elem_of_fmap. by exists (id, j0).
  - intros k [->|Hk]%elem_of_cons; [exists j; split; [by left|done]|auto].
Qed.

Lemma select_ids_spec js seen ids sel :
  select_ids js seen ids = Ret sel →
  NoDup sel.*1 ∧ (∀ id, id ∈ sel.*1 → id ∉ seen) ∧ (∀ id, id ∈ sel.*1 → id ∈ ids) ∧
  (∀ id, id ∈ ids → id ∈ seen ∨ id ∈ sel.*1) ∧ ∀ id j, (id, j) ∈ sel → js !! id = Some j.
Proof.
  revert seen sel. induction ids as [|id ids IH]; intros seen sel H; cbn [select_ids] in H.
  { injection H as <-. split_and!; [constructor|..]; by intros ? ?%not_elem_of_nil || (intros ? ? ?%not_elem_of_nil). }
  case_bool_decide as Hin.
  - apply IH in H as (H1 & H2 & H3 & H4 & H5). split_and!; try done.
    + intros k Hk. right. auto.
    + intros k [->|Hk]%elem_of_cons; [by left|auto].
  - destruct (js !! id) as [j|] eqn:Hj; [|done]. apply bind_ret_inv in H as (rest & H & [= <-]).
    apply IH in H as (H1 & H2 & H3 & H4 & H5). rewrite fmap_cons. cbn [fst]. split_and!.
    + apply NoDup_cons. split; [|done]. intros Hc. apply (H2 _ Hc). by left.
    + intros k [->|Hk]%elem_of_cons; [done|]. intros Hs. apply (H2 _ Hk). by right.
    + intros k [->|Hk]%elem_of_cons; [by left|right; auto].
    + intros k [->|Hk]%elem_of_cons; [right; by left|]. destruct (H4 _ Hk) as [[->|?]%elem_of_cons|?];
        [right; by left|by left|right; by right].
    + intros k jk [Heq|Hk]%elem_of_cons; [by simplify_eq|auto].
Qed.

Lemma select_spec l ids sel :
  selectJobsLocked l ids = Ret sel →
  NoDup sel.*1 ∧ (∀ id j, (id, j) ∈ sel → jobs l !! id = Some j) ∧
  ∀ id, id ∈ sel.*1 ↔ id ∈ match ids with [] => (map_to_list (jobs l)).*1 | _ => ids end.
Proof.
  intros H. apply select_ids_spec in H as (H1 & _ & H3 & H4 & H5). split_and!; [done|done|].
  intros id. split.
  - intros Hin%H3. destruct ids; [|done]. by rewrite merge_sort_Permutation in Hin.
  - intros Hin. destruct (H4 id) as [?%not_elem_of_nil|]; [|done|done].
    destruct ids; [|done]. by rewrite merge_sort_Permutation.
Qed.

Lemma wait_loop_no_signals u sig refuses requested views final :
  fst (wait_loop u sig refuses requested views final true) = [].
Proof.
  induction views as [|v views IH]; [done|]. cbn [wait_loop]. unfold wait_turn.
  rewrite andb_false_r. destruct (selectJobsLocked _ _) as [js|id|]; [|done|done].
  destruct (waitStatuses _ _ _) as [sts|e|]; [|done|done]. destruct (satisfied _ _ _); [done|].
  cbn [orb]. destruct (wait_loop _ _ _ _ _ _ _) as [sent r]. cbn in *. by rewrite IH.
Qed.

(** The jobs signalled in a turn. *)
Lemma wait_turn_signals u sig refuses requested v done_ :
  let sent := fst (wait_turn u sig refuses requested v done_) in
  NoDup sent ∧ ∀ id, id ∈ sent → sig ≠ 0 ∧ ∃ j, jobs (v_list v) !! id = Some j ∧ terminal j = false.
Proof.
  assert (NoDup ([] : list gostring) ∧ ∀ id, id ∈ ([] : list gostring) →
    sig ≠ 0 ∧ ∃ j, jobs (v_list v) !! id = Some j ∧ terminal j = false) as Hnil
    by (split; [constructor|by intros ? ?%not_elem_of_nil]).
  cbv zeta. unfold wait_turn. destruct (selectJobsLocked _ _) as [js|id|] eqn:Hsel; [|done|done].
  apply select_spec in Hsel as (Hnd & Hjs & _).
  destruct (negb (sig =? 0) && negb done_) eqn:Hsend.
  - apply andb_true_iff in Hsend as [Hsig _]. pose proof (send_signals_spec refuses js Hnd) as [H1 H2].
    destruct (send_signals refuses js) as [sent err]. cbn [fst] in H1, H2.
    assert (∀ t, fst (sent, t : turn) = sent) as _ by done.
    destruct err; [|destruct (waitStatuses _ _ _)]; cbn [fst]; (split; [done|]); intros k Hk;
      destruct (H2 k Hk) as (jk & Hin & Ht); (split; [lia|exists jk; auto]).
  - destruct (waitStatuses _ _ _); done.
Qed.

(** A wait signals every selected job that is not over at its first turn at most
    once, and no job later; it reports its condition only when the condition holds
    in the very view its statuses were taken from; and when it reports a timeout the
    condition held in none of its turns. *)
Theorem wait_call_sound u sig refuses requested views final sent r :
  wait_loop u sig refuses requested views final false = (sent, r) →
  (NoDup sent ∧ ∀ id, id ∈ sent → sig ≠ 0 ∧
     ∃ v j, head views = Some v ∧ jobs (v_list v) !! id = Some j ∧ terminal j = false) ∧
  match r with
  | WReason sts => ∃ v js, v ∈ views ∧ selectJobsLocked (v_list v) (w_job <$> requested) = Ret js ∧
      waitStatuses (v_open v) requested js = Ret sts ∧ satisfied u js sts = true
  | WTimeout sts => (∃ js, selectJobsLocked (v_list final) (w_job <$> requested) = Ret js ∧
      waitStatuses (v_open final) requested js = Ret sts) ∧
      ∀ v, v ∈ views → ∃ js sts', selectJobsLocked (v_list v) (w_job <$> requested) = Ret js ∧
        waitStatuses (v_open v) requested js = Ret sts' ∧ satisfied u js sts' = false
  | WError _ => True
  end.
Proof.
  intros H. split.
  - destruct views as [|v views].
    + injection H as <- _. split; [constructor|by intros ? ?%not_elem_of_nil].
    + pose proof (wait_turn_signals u sig refuses requested v false) as [Hnd Hin].
      cbn [wait_loop] in H. destruct (wait_turn _ _ _ _ _ _) as [sent0 t] eqn:Hturn. cbn [fst] in Hnd, Hin.
      assert (sent = sent0) as ->.
      { destruct t; [by injection H as <- _..|]. cbn [orb] in H.
        destruct (Z.eqb_spec sig 0) as [->|Hs]; cbn [negb] in H.
        - assert (∀ vs d, fst (wait_loop u 0 refuses requested vs final d) = []) as Hz.
          { clear. induction vs as [|v vs IH]; intros d; [done|]. cbn [wait_loop]. unfold wait_turn.
            cbn [Z.eqb negb andb]. destruct (selectJobsLocked _ _); [|done|done].
            destruct (waitStatuses _ _ _); [|done|done]. destruct (satisfied _ _ _); [done|].
            pose proof (IH (d || false)). destruct (wait_loop _ _ _ _ _ _ _). cbn in *. by subst. }
          pose proof (Hz views false) as Hz'. destruct (wait_loop _ _ _ _ _ _ _) as [s' r'].
          cbn in Hz'. subst s'. rewrite app_nil_r in H. by injection H.
        - pose proof (wait_loop_no_signals u sig refuses requested views final) as Hz.
          destruct (wait_loop _ _ _ _ _ _ _) as [s' r']. cbn in Hz. subst s'. rewrite app_nil_r in H.
          by injection H. }
      split; [done|]. intros id Hid. destruct (Hin id Hid) as (Hs & j & Hj & Ht).
      split; [done|]. by exists v, j.
  - clear -H. revert sent H. generalize false at 1 as d. induction views as [|v views IH]; intros d sent H.
    + cbn [wait_loop] in H. injection H as _ <-. destruct (selectJobsLocked _ _) as [js|id|]; [|done|done].
      destruct (waitStatuses _ _ _) as [sts|e|] eqn:Hw; [|done|done].
      split; [by exists js|by intros ? ?%not_elem_of_nil].
    + cbn [wait_loop] in H. destruct (wait_turn u sig refuses requested v d) as [s0 t] eqn:Ht.
      unfold wait_turn in Ht. destruct (selectJobsLocked (v_list v) _) as [js|id|] eqn:Hsel.
      2, 3: injection Ht as <- <-; injection H as _ <-; done.
      destruct (if negb (sig =? 0) && negb d then _ else _) as [sent0 err].
      destruct err; [injection Ht as <- <-; injection H as _ <-; done|].
      destruct (waitStatuses (v_open v) requested js) as [sts|e|] eqn:Hw.
      2, 3: injection Ht as <- <-; injection H as _ <-; done.
      destruct (satisfied u js sts) eqn:Hs; injection Ht as <- <-.
      * injection H as _ <-. exists v, js. split_and!; [by left|done|done|done].
      * destruct (wait_loop _ _ _ _ _ _ _) as [s1 r1] eqn:Hl. injection H as _ <-.
        specialize (IH _ _ Hl). destruct r1 as [e|sts1|sts1]; [done| |].
        -- destruct IH as (v1 & js1 & Hv & Hrest). exists v1, js1. split; [by right|done].
        -- destruct IH as [Hf Hv]. split; [done|]. intros v1 [->|Hv1]%elem_of_cons; [exists js, sts; split_and!; assumption|auto].
Qed.

(** ** Examples *)

(** A daemon that starts in a frame with the log of an earlier job. *)
Definition e_frame : gostring := bs "F".
Definition e_init : sys := init {[(e_frame, bs "j1")]} {[(e_frame, bs "j1") := bs "old"]}.
Definition e_id : gostring := bs "j2".
Definition e_job : mcpJob := new_job [] (bs "make") (bs "/work") (bs "user") e_frame (bs "/tmp/log") 5.
Definition e_published : sys := do_publish (do_reserve e_init e_frame 2 e_id) e_id e_job.
Definition e_text : list byte := bs "one" ++ [nl] ++ bs "tw".
Definition e_wrote : sys := do_output e_published e_id e_frame e_text e_text.
Definition e_counted : sys := do_count e_wrote e_id e_text.
Definition e_read : sys := with_collector e_counted e_id (CExit (EncodeExit 3)).
Definition e_exited : sys := do_exit e_read e_id (EncodeExit 3).
Definition e_over : sys := do_finish e_exited e_id true 9.

Definition is_job (p : mcpJob → bool) (s : sys) (id : gostring) : bool :=
  match jobs (s_list s) !! id with Some j => p j | None => false end.

Lemma run_published faulty : run faulty e_init [Call; Call] e_published.
Proof.
  eapply run_cons; [eapply (step_reserve faulty e_init e_frame 2 e_id 3); vm_compute; reflexivity|].
  eapply run_cons; [eapply (step_publish faulty _ e_id e_frame); vm_compute; reflexivity|].
  constructor.
Qed.

Lemma run_counted : run false e_published [Collector e_id (Output e_text e_text); Collector e_id Count] e_counted.
Proof.
  eapply run_cons; [eapply (step_output false e_published e_id e_job e_text e_text)|].
  - vm_compute. reflexivity.
  - apply (bool_decide_eq_true_1 (e_id ∉ s_closed e_published)). vm_compute. reflexivity.
  - vm_compute. reflexivity.
  - reflexivity.
  - reflexivity.
  - eapply run_cons; [eapply (step_count false e_wrote e_id e_text); vm_compute; reflexivity|]. constructor.
Qed.

Lemma run_over : run false e_counted [Collector e_id (ReadExit (EncodeExit 3)); Collector e_id RecordExit; Collector e_id (Finish 9)] e_over.
Proof.
  eapply run_cons; [eapply (step_read_exit false e_counted e_id (EncodeExit 3))|].
  - vm_compute. reflexivity.
  - apply (bool_decide_eq_true_1 (e_id ∉ s_closed e_counted)). vm_compute. reflexivity.
  - eapply run_cons; [eapply (step_exit false e_read e_id); vm_compute; reflexivity|].
    eapply run_cons; [eapply (step_finish false e_exited e_id true 9); vm_compute; reflexivity|]. constructor.
Qed.

Lemma jobs_run_app faulty s acts s1 acts' s2 : run faulty s acts s1 → run faulty s1 acts' s2 → run faulty s (acts ++ acts') s2.
Proof. induction 1 as [|? ? ? ? ? Hs _ IH]; [done|]. intros H. eapply run_cons; [exact Hs|auto]. Qed.

Definition e_done_job : mcpJob := default e_job (jobs (s_list e_over) !! e_id).

Lemma jobs_lifecycle_witness :
  jobs (s_list e_over) !! e_id = Some e_done_job ∧ state e_done_job = mcpJobExited ∧
  exitCode e_done_job = Some 3 ∧ conn e_done_job = negb (terminal e_done_job).
Proof.
  assert (jobs (s_list e_over) !! e_id = Some e_done_job) as Hj by (vm_compute; reflexivity).
  destruct (jobs_lifecycle false {[(e_frame, bs "j1")]} {[(e_frame, bs "j1") := bs "old"]}
    _ e_over [] e_over (jobs_run_app _ _ _ _ _ _ (run_published false) (jobs_run_app _ _ _ _ _ _ run_counted run_over))
    (run_nil _ _) e_id e_done_job Hj) as (log & j' & log' & _ & _ & _ & _ & Hconn & _ & Hend).
  destruct (Hend ltac:(vm_compute; reflexivity)) as (Hs & _ & Hx & _).
  split; [exact Hj|]. split; [|split; [exact Hx|exact Hconn]].
  assert (Hr : stopReason e_done_job = None) by (vm_compute; reflexivity). rewrite Hr in Hs. exact Hs.
Defined.

(** Two waits: one while the job runs, one after its end. *)
Definition e_counted_job : mcpJob := default e_job (jobs (s_list e_counted) !! e_id).
Definition e_status1 : mcpWaitStatus := MkStatus e_id mcpJobRunning None (bs "one" ++ [nl]) 4.
Definition e_status2 : mcpWaitStatus := MkStatus e_id mcpJobExited (Some 3) (bs "tw") 6.
Definition e_looks : list look :=
  [MkLook e_counted_job (wait_slice e_counted_job e_text 0) e_status1;
   MkLook e_done_job (wait_slice e_done_job e_text 4) e_status2].

Lemma run_waits faulty id s acts s1 offset ws s2 offset2 :
  faulty = false → run faulty s acts s1 → waits id s1 offset ws s2 offset2 → waits id s offset ws s2 offset2.
Proof. intros ->. induction 1 as [|? ? ? ? ? Hs _ IH]; [done|]. intros H. eapply waits_step; [exact Hs|auto]. Qed.

Lemma e_waits : waits e_id e_init 0 e_looks e_over 6.
Proof.
  eapply run_waits; [reflexivity|apply (jobs_run_app _ _ _ _ _ _ (run_published false) run_counted)|].
  eapply (waits_look e_id e_counted 0 e_counted_job e_text e_status1); [vm_compute; reflexivity..|].
  eapply run_waits; [reflexivity|apply run_over|].
  eapply (waits_look e_id e_over 4 e_done_job e_text e_status2); [vm_compute; reflexivity..|].
  apply waits_nil.
Qed.

Lemma waits_reproduce_log_witness :
  concat ((λ w, ws_output (lk_status w)) <$> e_looks) = ToValidUTF8 (take 6 e_text).
Proof.
  apply (waits_reproduce_log {[(e_frame, bs "j1")]} {[(e_frame, bs "j1") := bs "old"]} [] e_init e_id e_looks
    e_over 6 e_done_job e_text (run_nil _ _) eq_refl e_waits); try (vm_compute; reflexivity).
  apply Forall_cons_2; [intros Ht; vm_compute in Ht; discriminate|].
  apply Forall_cons_2; [intros _; vm_compute; reflexivity|apply Forall_nil_2].
Defined.

Lemma kill_ends_job_witness :
  let s' := do_close (do_stop e_published e_id mcpJobKilled) e_id in
  is_job (λ j, bool_decide (state j = mcpJobRunning)) e_published e_id = true ∧
  ∃ j' c, jobs (s_list s') !! e_id = Some j' ∧ s_collectors s' !! e_id = Some c ∧ (moves_left c ≤ 3)%nat.
Proof.
  intros s'. split; [vm_compute; reflexivity|].
  destruct (kill_ends_job {[(e_frame, bs "j1")]} {[(e_frame, bs "j1") := bs "old"]} _ e_published e_id e_job []
    (do_stop e_published e_id mcpJobKilled) [] s' (run_published true)) as (j' & c & Hj & Hc & Hm & _).
  - vm_compute. reflexivity.
  - vm_compute. reflexivity.
  - constructor.
  - constructor.
  - exists j', c. split; [exact Hj|]. split; [exact Hc|]. clear -Hm. cbn in Hm. lia.
Defined.

Definition e_view (s : sys) : view :=
  MkView (s_list s) (λ id, s_logs s !! (e_frame, id)).

Lemma wait_call_sound_witness :
  let '(sent, r) := wait_loop UAllExit 15 (λ _, false) [MkWait e_id 0] [e_view e_counted; e_view e_over]
    (e_view e_over) false in
  sent = [e_id] ∧ NoDup sent ∧ match r with WReason sts => sts = [MkStatus e_id mcpJobExited (Some 3) (bs "one" ++ [nl] ++ bs "tw") 6] | _ => False end.
Proof.
  destruct (wait_loop UAllExit 15 (λ _, false) [MkWait e_id 0] [e_view e_counted; e_view e_over]
    (e_view e_over) false) as [sent r] eqn:H.
  destruct (wait_call_sound _ _ _ _ _ _ _ _ H) as [[Hnd _] _].
  assert (sent = [e_id]) as Hsent by (apply (f_equal fst) in H; cbn [fst] in H; rewrite <- H; vm_compute; reflexivity).
  split; [exact Hsent|]. split; [exact Hnd|].
  apply (f_equal snd) in H. cbn [snd] in H. rewrite <- H. vm_compute. reflexivity.
Defined.

(** *** What the waits do not do *)

Definition plain_job (st : mcpJobState) (n : Z) : mcpJob :=
  MkJob [] [] [] [] e_frame [] st 0 None None n 0 0 true None.

(** A character of a finished job's log that lies across the limit of a wait is
    lost: it is in neither of the two texts. *)
Lemma limit_splits_characters :
  let log := replicate 15999 "a"%byte ++ [Byte.xc3; Byte.xa9] ++ bs "!" in
  let j := plain_job mcpJobExited 16002 in
  match wait_status e_id j (Some log) 0 with
  | Ret st1 =>
      match wait_status e_id j (Some log) (ws_next st1) with
      | Ret st2 => ws_next st1 = 16000 ∧ ws_next st2 = 16002 ∧
          bool_decide (ws_output st1 ++ ws_output st2 = replicate 15999 "a"%byte ++ bs "!") = true
      | _ => False
      end
  | _ => False
  end.
Proof. vm_compute. auto. Qed.

(** A running job whose next line is longer than the limit is never read past
    its beginning: every wait returns nothing and the same offset. *)
Lemma long_line_stalls_waits :
  let log := replicate 16000 "."%byte ++ [nl] in
  wait_status e_id (plain_job mcpJobRunning 16001) (Some log) 0 = Ret (MkStatus e_id mcpJobRunning None [] 0).
Proof. by vm_compute. Qed.

(** A lifetime of more than about 292 years wraps to a negative one: the job is
    stopped as soon as it starts. *)
Lemma hard_timeout_wraps : hard_timeout 9223372037 < 0 ∧ wait_timeout 9223372037 < 0.
Proof. by vm_compute. Qed.

Lemma hard_timeout_range n : n ≤ 9223372036 → 0 < hard_timeout n ≤ mcpJobMaxHardTimeout.
Proof.
  intros Hn. unfold hard_timeout, mcpJobMaxHardTimeout, mcpJobDefaultHardTimeout, second.
  destruct (Z.ltb_spec 0 n); [|lia]. rewrite i64_id by (unfold is_i64; lia).
  destruct (Z.ltb_spec (7200 * 1000000000) (n * 1000000000)); lia.
Qed.

(** Conversations of users without NUL bytes in their names have their own log
    directories, as far as the digest keeps them apart. *)
Lemma scope_preimage_inj k1 k2 :
  Byte.x00 ∉ k1.1 → Byte.x00 ∉ k2.1 → scope_preimage k1 = scope_preimage k2 → k1 = k2.
Proof.
  intros H1 H2 H. destruct k1 as [u1 c1], k2 as [u2 c2]. unfold scope_preimage in H. cbn in *.
  revert u2 H2 H. induction u1 as [|b u1 IH]; intros [|b' u2] H2 H; cbn in H.
  - by injection H as ->.
  - injection H as <- _. exfalso. apply H2. by left.
  - injection H as -> _. exfalso. apply H1. by left.
  - injection H as -> H. apply not_elem_of_cons in H1 as [_ H1], H2 as [_ H2].
    by injection (IH H1 u2 H2 H) as -> ->.
Qed.
