(* ===== verification/ThunderProto.v ===== *)
(** * The CONNECT handshake ([src/thunderproto/thunderproto.go])

    Client and server of the control protocol emulate the cloud-hypervisor vsock
    handshake: the client writes "CONNECT <port>\n" and waits for "OK ...\n".
    Both ends are modelled over the byte streams of [GoIO]; a connection's two
    directions are two independent streams. *)

From Stdlib Require Import Strings.String.
From S2P Require Import Prelude GoStrings GoIO.

Definition VshPort : Z := 5222.
Definition Port : Z := 5223.
Definition EnterPort : Z := 5224.

Definition nl : byte := "010"%byte.

Inductive handshake_error :=
| SendConnect (e : io_error)
| ReadResponse (e : io_error)
| HandshakeFailed (response : gostring)
| ReadHandshake (e : io_error)
| InvalidHandshake (line : gostring)
| InvalidPort (port : gostring).

(** [fmt.Fprintf(w, "CONNECT %d\n", port)] and the two replies. *)
Definition connect_line (port : Z) : gostring := bs "CONNECT " ++ fmt_int port ++ [nl].
Definition ok_line (port : Z) : gostring := bs "OK " ++ fmt_int port ++ [nl].
Definition error_line (msg : gostring) : gostring := bs "ERROR " ++ msg ++ [nl].

(** [WriteClientHandshakePort(w, r, port)]: the writer, and either the rest of
    the reply stream or the error. *)
Definition WriteClientHandshakePort (w : writer) (r : list byte) (port : Z)
    : writer * outcome handshake_error (list byte) :=
  match Write w (connect_line port) with
  | (w', Some e) => (w', Err (SendConnect e))
  | (w', None) =>
      (w', ('(line, rest) ← wrap_err ReadResponse (ReadString nl r);
            let response := TrimSpace line in
            guard_err (negb (HasPrefix response (bs "OK"))) (HandshakeFailed response);;
            Ret rest))
  end.

(** [WriteClientHandshake] is the same code with the port fixed to [Port]. *)
Definition WriteClientHandshake (w : writer) (r : list byte)
    : writer * outcome handshake_error (list byte) :=
  match Write w (connect_line Port) with
  | (w', Some e) => (w', Err (SendConnect e))
  | (w', None) =>
      (w', ('(line, rest) ← wrap_err ReadResponse (ReadString nl r);
            let response := TrimSpace line in
            guard_err (negb (HasPrefix response (bs "OK"))) (HandshakeFailed response);;
            Ret rest))
  end.

(** [ReadServerHandshake(w, r)]: write errors of the replies are ignored, as the
    source ignores the result of its [fmt.Fprintf] calls. *)
Definition ReadServerHandshake (w : writer) (r : list byte)
    : writer * outcome handshake_error (list byte) :=
  match ReadString nl r with
  | Err e => (w, Err (ReadHandshake e))
  | Panic => (w, Panic)
  | Ret (raw, rest) =>
      let line := TrimSpace raw in
      if negb (HasPrefix line (bs "CONNECT ")) then
        (fst (Write w (error_line (bs "invalid handshake"))), Err (InvalidHandshake line))
      else
        let portStr := TrimPrefix line (bs "CONNECT ") in
        match Atoi portStr with
        | Some port =>
            if port =? Port then (fst (Write w (ok_line port)), Ret rest)
            else (fst (Write w (error_line (bs "invalid port"))), Err (InvalidPort portStr))
        | None => (fst (Write w (error_line (bs "invalid port"))), Err (InvalidPort portStr))
        end
  end.

(** [ParseConnectLine(r)]. *)
Definition ParseConnectLine (r : list byte) : outcome handshake_error (Z * list byte) :=
  '(raw, rest) ← wrap_err ReadHandshake (ReadString nl r);
  let line := TrimSpace raw in
  guard_err (negb (HasPrefix line (bs "CONNECT "))) (InvalidHandshake line);;
  let portStr := TrimPrefix line (bs "CONNECT ") in
  port ← or_err (Atoi portStr) (InvalidPort portStr);
  Ret (port, rest).

Definition WriteOK (w : writer) (port : Z) : writer * option io_error := Write w (ok_line port).
Definition WriteError (w : writer) (msg : gostring) : writer * option io_error :=
  Write w (error_line msg).

(** ** Lemmas *)

(** [TrimSpace] of a line that starts with a letter and ends with a digit. *)
Lemma TrimSpace_clean (c d : byte) s :
  is_space_byte c = false → is_space_byte d = false →
  TrimSpace (c :: s ++ [d; nl]) = c :: s ++ [d].
Proof.
  unfold is_space_byte. intros [Hc _]%orb_false_iff [_ Hd]%orb_false_iff.
  apply bool_decide_eq_false in Hc, Hd.
  assert (∀ (runes : list gostring) c, Forall (λ r, r ≠ []) runes →
    ¬ Exists (λ r : gostring, r !!! 0%nat = c) runes →
    Forall (λ r, r !!! 0%nat ≠ c ∧ r ≠ []) runes) as Hall.
  { intros runes c' Hne Hex. apply Forall_Exists_neg in Hex.
    apply Forall_and. by split. }
  unfold TrimSpace, TrimSpaceLeft.
  rewrite trim_runes_id.
  2:{ apply no_space_start_first, Hall; [|done]. by repeat constructor. }
  unfold TrimSpaceRight.
  replace (reverse (c :: s ++ [d; nl])) with (nl :: d :: reverse (c :: s)).
  2:{ change (c :: s ++ [d; nl]) with ((c :: s) ++ [d; nl]).
      by rewrite reverse_app. }
  rewrite length_cons, length_app. cbn [length].
  replace (S (length s + 2)) with (S (S (S (length s)))) by lia.
  set (rest := d :: reverse (c :: s)).
  assert (trim_runes (reverse <$> space_runes) (S (S (S (length s)))) (nl :: rest) = rest) as ->.
  { change (trim_runes (reverse <$> space_runes) (S (S (length s))) rest = rest).
    apply trim_runes_id, no_space_start_first, Hall; [|done].
    by repeat constructor. }
  subst rest. rewrite reverse_cons, reverse_involutive. done.
Qed.

Lemma TrimSpace_line p n :
  (p ≠ [] ∧ is_space_byte (p !!! 0%nat) = false) → 0 ≤ n →
  TrimSpace (p ++ fmt_uint n ++ [nl]) = p ++ fmt_uint n.
Proof.
  intros [Hne Hc] Hn. destruct (fmt_uint_last n Hn) as (s & d & -> & Hd).
  destruct p as [|c p]; [done|].
  rewrite <- app_assoc.
  change ((c :: p) ++ s ++ [d] ++ [nl]) with (c :: p ++ s ++ [d; nl]).
  rewrite (app_assoc p s), TrimSpace_clean by auto using digit_not_space.
  simpl. by rewrite <- app_assoc.
Qed.

Lemma nl_not_digits n : 0 ≤ n → nl ∉ fmt_uint n.
Proof. intros. by apply byte_digit_not; [|apply fmt_uint_digit]. Qed.

Lemma ReadString_line (p : gostring) n rest :
  nl ∉ p → 0 ≤ n →
  ReadString nl ((p ++ fmt_uint n ++ [nl]) ++ rest) = Ret (p ++ fmt_uint n ++ [nl], rest).
Proof.
  intros Hp Hn. rewrite <- !app_assoc. change ([nl] ++ rest) with (nl :: rest).
  rewrite (app_assoc p), ReadString_app.
  - by rewrite <- app_assoc.
  - rewrite elem_of_app. intros [?|?]; [done|]. by apply (nl_not_digits n).
Qed.

Lemma connect_prefix_nl : (nl ∉ bs "CONNECT ") ∧ (nl ∉ bs "OK ").
Proof. split; apply (bool_decide_unpack _); vm_compute; exact I. Qed.

Lemma ParseConnectLine_connect_line port rest :
  0 ≤ port < 2 ^ 63 → ParseConnectLine (connect_line port ++ rest) = Ret (port, rest).
Proof.
  intros Hp. unfold ParseConnectLine, connect_line.
  rewrite fmt_int_nonneg, ReadString_line by (lia || apply connect_prefix_nl).
  rewrite wrap_ret, ret_bind. cbn beta iota.
  rewrite TrimSpace_line by (done || lia).
  rewrite HasPrefix_app, TrimPrefix_app, guard_false_bind by done.
  by rewrite Atoi_fmt by lia.
Qed.

Lemma ReadServerHandshake_connect w rest :
  ReadServerHandshake w (connect_line Port ++ rest) = (fst (Write w (ok_line Port)), Ret rest).
Proof.
  unfold ReadServerHandshake, connect_line.
  rewrite fmt_int_nonneg, ReadString_line by (done || apply connect_prefix_nl).
  rewrite TrimSpace_line by done.
  by rewrite HasPrefix_app, TrimPrefix_app, Atoi_fmt by done.
Qed.

Lemma client_accepts_ok w w' r port :
  0 ≤ port → Write w (connect_line Port) = (w', None) →
  WriteClientHandshake w (ok_line port ++ r) = (w', Ret r).
Proof.
  intros Hp Hw. unfold WriteClientHandshake. rewrite Hw. unfold ok_line.
  rewrite fmt_int_nonneg, ReadString_line by (done || apply connect_prefix_nl).
  rewrite wrap_ret, ret_bind. cbn beta iota.
  by rewrite TrimSpace_line by done.
Qed.

(** ** Properties *)

(** Client and server agree: what the client sends makes the server accept
    and reply, that reply makes the client accept, and the bytes either side
    sent after its handshake line ([early_c], [early_s]) are delivered to the
    protocol that follows, none lost to the handshake. *)
Theorem handshake_agreement early_c early_s :
  ∃ reply,
    ReadServerHandshake (Writer [] None)
      (w_out (fst (WriteClientHandshake (Writer [] None) [])) ++ early_c)
      = (Writer reply None, Ret early_c) ∧
    WriteClientHandshake (Writer [] None) (reply ++ early_s)
      = (Writer (connect_line Port) None, Ret early_s).
Proof.
  exists (ok_line Port). split.
  - change (w_out (fst (WriteClientHandshake (Writer [] None) []))) with (connect_line Port).
    apply ReadServerHandshake_connect.
  - by apply client_accepts_ok.
Qed.

(** The server replies with an error line and reports an error on every other
    port a client can ask for. *)
Lemma server_rejects_port w port rest :
  0 ≤ port < 2 ^ 63 → port ≠ Port →
  ReadServerHandshake w (connect_line port ++ rest)
    = (fst (Write w (error_line (bs "invalid port"))), Err (InvalidPort (fmt_uint port))).
Proof.
  intros Hp Hne. unfold ReadServerHandshake, connect_line.
  rewrite fmt_int_nonneg, ReadString_line by (lia || apply connect_prefix_nl).
  rewrite TrimSpace_line by (done || lia).
  rewrite HasPrefix_app, TrimPrefix_app, Atoi_fmt by done. simpl negb. cbn match.
  by destruct (Z.eqb_spec port Port).
Qed.

(** The dispatcher gets the port the client asked for, for every port, and
    the single-port server accepts that request exactly when the port is
    [Port] (5223), answering with an ERROR line otherwise. *)
Theorem handshake_port_dispatch port rest :
  0 ≤ port < 2 ^ 63 →
  let sent := w_out (fst (WriteClientHandshakePort (Writer [] None) [] port)) in
  ParseConnectLine (sent ++ rest) = Ret (port, rest) ∧
  (is_ret (snd (ReadServerHandshake (Writer [] None) (sent ++ rest))) = true ↔ port = Port) ∧
  (port ≠ Port → w_out (fst (ReadServerHandshake (Writer [] None) (sent ++ rest)))
                 = error_line (bs "invalid port")).
Proof.
  intros Hp sent.
  assert (sent = connect_line port) as -> by done.
  split; [by apply ParseConnectLine_connect_line|].
  destruct (decide (port = Port)) as [->|Hne].
  - rewrite ReadServerHandshake_connect. done.
  - rewrite server_rejects_port by done. split; [|done]. split; [done|].
    intros ->. done.
Qed.

Lemma handshake_port_dispatch_witness :
  ParseConnectLine (connect_line 5224 ++ bs "x") = Ret (5224, bs "x").
Proof. apply (handshake_port_dispatch 5224 (bs "x")). lia. Defined.
