(* ===== verification/Chunking.v ===== *)
(** * Content-defined chunking ([src/tsm/chunking.go])

    The bup rolling checksum, the search for a split point and the streaming
    chunker.  The reader is modelled by the data it delivers and the sizes of the
    reads it answers; the callback is any state transformer that may fail. *)

From S2P Require Import Prelude Sha256.

(** The constants of [src/tsm/types.go]. *)
Definition BUP_BLOBBITS : Z := 13.
Definition BUP_BLOBSIZE : Z := Z.shiftl 1 BUP_BLOBBITS.
Definition BUP_WINDOWBITS : Z := 7.
Definition BUP_WINDOWSIZE : nat := 64.
Definition BLOB_MAX : Z := 8192 * 4.
Definition BLOB_READ_SIZE : Z := 1024 * 1024.
Definition ROLLSUM_CHAR_OFFSET : Z := 31.
Definition FANOUT_BITS : Z := 4.

Lemma BUP_WINDOWSIZE_def : Z.of_nat BUP_WINDOWSIZE = Z.shiftl 1 (BUP_WINDOWBITS - 1).
Proof. done. Qed.

(** ** The rolling checksum *)

Record rollsum := Rollsum { s1 : Z; s2 : Z; window : list byte; wofs : nat }.

Definition reset : rollsum :=
  Rollsum (Z.of_nat BUP_WINDOWSIZE * ROLLSUM_CHAR_OFFSET)
          (Z.of_nat BUP_WINDOWSIZE * (Z.of_nat BUP_WINDOWSIZE - 1) * ROLLSUM_CHAR_OFFSET)
          (replicate BUP_WINDOWSIZE Byte.x00) 0.

(** [add(drop, add)]: [uint32] arithmetic with its wrap-around. *)
Definition add (r : rollsum) (drop add : byte) : rollsum :=
  let s1' := u32 (s1 r + u32 (Z_of_byte add - Z_of_byte drop)) in
  let s2' := u32 (s2 r + u32 (s1' - u32 (Z.of_nat BUP_WINDOWSIZE
                                        * u32 (Z_of_byte drop + ROLLSUM_CHAR_OFFSET)))) in
  Rollsum s1' s2' (window r) (wofs r).

Definition roll (r : rollsum) (ch : byte) : rollsum :=
  let r1 := add r (window r !!! wofs r) ch in
  Rollsum (s1 r1) (s2 r1) (<[wofs r := ch]> (window r)) ((wofs r + 1) mod BUP_WINDOWSIZE).

Definition digest (r : rollsum) : Z :=
  Z.lor (u32 (Z.shiftl (s1 r) 16)) (Z.land (s2 r) 65535).

(** The split condition: the low [BUP_BLOBBITS] bits of [s2] are all ones. *)
Definition split_here (r : rollsum) : bool :=
  Z.land (s2 r) (BUP_BLOBSIZE - 1) =? Z.land (u32 (Z.lnot 0)) (BUP_BLOBSIZE - 1).

(** [for (rsum>>1)&1 != 0 { bits++; rsum >>= 1 }]; 32 iterations are enough for a
    [uint32] ([count_bits_fuel]). *)
Fixpoint count_bits (fuel : nat) (rsum bits : Z) : Z :=
  match fuel with
  | O => bits
  | S fuel' =>
      if negb (Z.land (Z.shiftr rsum 1) 1 =? 0)
      then count_bits fuel' (Z.shiftr rsum 1) (bits + 1) else bits
  end.

Definition split_bits (r : rollsum) : Z :=
  count_bits 32 (Z.shiftr (digest r) BUP_BLOBBITS) BUP_BLOBBITS.

(** The loop of [findSplitPoint]; [count] bytes of the buffer are behind. *)
Fixpoint split_loop (r : rollsum) (count : nat) (buf : list byte) : nat * Z :=
  match buf with
  | [] => (0%nat, 0)
  | ch :: buf' =>
      let r' := roll r ch in
      if split_here r' then ((count + 1)%nat, split_bits r')
      else split_loop r' (count + 1) buf'
  end.

Definition findSplitPoint (buf : list byte) : nat * Z := split_loop reset 0 buf.

(** ** The reader *)

(** How a stream ends: [io.EOF] or a read error. *)
Inductive stream_end := StreamEOF | StreamErr.

(** [rd_sched] bounds the sizes of the successive reads (a missing entry means
    as much as fits); [rd_eager] says whether the last bytes come together with
    the end, which the contract of [io.Reader] allows. *)
Record reader := Reader {
  rd_data : list byte;
  rd_sched : list nat;
  rd_eager : bool;
  rd_end : stream_end;
}.

(** [r.Read(buf)] with [len(buf) = cap]. *)
Definition Read (r : reader) (cap : nat) : list byte * option stream_end * reader :=
  match rd_data r with
  | [] => ([], Some (rd_end r), r)
  | _ =>
      let k := match rd_sched r with [] => cap | n :: _ => Nat.min n cap end in
      let rest := drop k (rd_data r) in
      (take k (rd_data r),
       if rd_eager r && bool_decide (rest = []) then Some (rd_end r) else None,
       Reader rest (tail (rd_sched r)) (rd_eager r) (rd_end r))
  end.

(** ** The chunker *)

Inductive chunk_error (E : Type) := CallbackErr (e : E) | ReadErr | OutOfFuel.
Arguments CallbackErr {E} e.
Arguments ReadErr {E}.
Arguments OutOfFuel {E}.

Section chunker.
Context `{Digest} {S E : Type}.

(** [ChunkCallback]: the digest, the size and the level of one chunk. *)
Variable callback : S → list byte → Z → Z → outcome E S.

(** The size and the level of the next chunk of [data], the part of the buffer
    not yet consumed; [None] is the [break] that asks for more data. *)
Definition next_chunk (data : list byte) (eof : bool) : option (nat * Z) :=
  let '(ofs, bits) := findSplitPoint data in
  let remaining := Z.of_nat (length data) in
  if (0 <? ofs)%nat then
    if Z.of_nat ofs >? BLOB_MAX then Some (Z.to_nat BLOB_MAX, 0)
    else Some (ofs, (bits - BUP_BLOBBITS) / FANOUT_BITS)
  else if eof then Some (length data, 0)
  else if remaining >=? BLOB_MAX then Some (Z.to_nat BLOB_MAX, 0)
  else None.

(** The inner loop: emit the chunks of one buffer and return what is left.  Each
    iteration but the last consumes a byte, so [length data + 1] is enough. *)
Fixpoint chunk_buffer (fuel : nat) (st : S) (data : list byte) (eof : bool)
    : outcome (chunk_error E) (S * list byte) :=
  match fuel with
  | O => Err OutOfFuel
  | Datatypes.S fuel' =>
      match next_chunk data eof with
      | None => Ret (st, data)
      | Some (chunkSize, level) =>
          if (0 <? chunkSize)%nat then
            let chunk := take chunkSize data in
            st' ← wrap_err CallbackErr
              (callback st (BlobSHA256 chunk) (u32 (Z.of_nat chunkSize)) (u16 level));
            chunk_buffer fuel' st' (drop chunkSize data) eof
          else Ret (st, data)
      end
  end.

(** The outer loop and the final flush of [chunkStream], for a caller that
    passes no progress function. *)
Fixpoint chunk_loop (fuel : nat) (st : S) (r : reader) (leftover : list byte)
    : outcome (chunk_error E) S :=
  match fuel with
  | O => Err OutOfFuel
  | Datatypes.S fuel' =>
      let '(piece, err, r') :=
        Read r (Z.to_nat (BLOB_READ_SIZE - Z.of_nat (length leftover))) in
      '(st', leftover') ←
        (if (0 <? length piece)%nat then
           let data := leftover ++ piece in
           chunk_buffer (length data + 1) st data
             (match err with Some StreamEOF => true | _ => false end)
         else Ret (st, leftover));
      match err with
      | Some StreamEOF =>
          if (0 <? length leftover')%nat then
            wrap_err CallbackErr
              (callback st' (BlobSHA256 leftover') (u32 (Z.of_nat (length leftover'))) 0)
          else Ret st'
      | Some StreamErr => Err ReadErr
      | None => chunk_loop fuel' st' r' leftover'
      end
  end.

(** Every read consumes a schedule entry or a byte, so this many iterations
    reach the end of the stream. *)
Definition stream_fuel (r : reader) : nat := (length (rd_sched r) + length (rd_data r) + 2)%nat.

Definition chunkStream (st : S) (r : reader) : outcome (chunk_error E) S :=
  chunk_loop (stream_fuel r) st r [].

(** [ChunkReader] is [chunkStream]; [ChunkData] streams a buffer in memory,
    whose reader ([bytes.Reader]) answers as much as fits and reports the end
    separately. *)
Definition ChunkReader (st : S) (r : reader) : outcome (chunk_error E) S := chunkStream st r.
Definition ChunkData (st : S) (data : list byte) : outcome (chunk_error E) S :=
  chunkStream st (Reader data [] false StreamEOF).

(** ** The reference: chunks of the whole data, with no buffer *)

Definition ref_next (data : list byte) : nat * Z :=
  let '(ofs, bits) := findSplitPoint data in
  if (0 <? ofs)%nat && (Z.of_nat ofs <=? BLOB_MAX)
  then (ofs, (bits - BUP_BLOBBITS) / FANOUT_BITS)
  else (Nat.min (Z.to_nat BLOB_MAX) (length data), 0).

(** The chunks of [data] with their levels. *)
Fixpoint ref_chunks (fuel : nat) (data : list byte) : list (list byte * Z) :=
  match fuel, data with
  | O, _ | _, [] => []
  | Datatypes.S fuel', _ =>
      let '(n, level) := ref_next data in
      (take n data, level) :: ref_chunks fuel' (drop n data)
  end.

Definition chunks_of (data : list byte) : list (list byte * Z) :=
  ref_chunks (length data) data.

(** Call the callback on a list of chunks, stopping at the first error. *)
Fixpoint emit_all (st : S) (cs : list (list byte * Z)) : outcome (chunk_error E) S :=
  match cs with
  | [] => Ret st
  | (chunk, level) :: cs' =>
      st' ← wrap_err CallbackErr
        (callback st (BlobSHA256 chunk) (u32 (Z.of_nat (length chunk))) (u16 level));
      emit_all st' cs'
  end.

End chunker.

Lemma BLOB_MAX_val : BLOB_MAX = 32768.
Proof. done. Qed.
Lemma BLOB_READ_SIZE_val : BLOB_READ_SIZE = 1048576.
Proof. done. Qed.
#[global] Opaque BLOB_MAX BLOB_READ_SIZE.

(** ** The rolling checksum as a function of the window *)

(** The window from the oldest to the newest byte. *)
Definition unrolled (r : rollsum) : list byte := drop (wofs r) (window r) ++ take (wofs r) (window r).

Fixpoint byte_sum (l : list byte) : Z :=
  match l with [] => 0 | b :: l' => Z_of_byte b + byte_sum l' end.

(** The newest byte has weight 1, the one before it 2, and so on. *)
Fixpoint weighted_sum (l : list byte) : Z :=
  match l with [] => 0 | b :: l' => Z.of_nat (length l) * Z_of_byte b + weighted_sum l' end.

Definition window_s1 (w : list byte) : Z :=
  u32 (Z.of_nat BUP_WINDOWSIZE * ROLLSUM_CHAR_OFFSET + byte_sum w).
Definition window_s2 (w : list byte) : Z :=
  u32 (Z.of_nat BUP_WINDOWSIZE * (Z.of_nat BUP_WINDOWSIZE - 1) * ROLLSUM_CHAR_OFFSET
       + weighted_sum w).

(** The checksum state holds exactly the sums of its window. *)
Definition rollsum_ok (r : rollsum) : Prop :=
  length (window r) = BUP_WINDOWSIZE ∧ (wofs r < BUP_WINDOWSIZE)%nat ∧
  s1 r = window_s1 (unrolled r) ∧ s2 r = window_s2 (unrolled r).

Lemma byte_sum_snoc l b : byte_sum (l ++ [b]) = byte_sum l + Z_of_byte b.
Proof. induction l; simpl; lia. Qed.

Lemma weighted_sum_snoc l b :
  weighted_sum (l ++ [b]) = weighted_sum l + byte_sum l + Z_of_byte b.
Proof.
  induction l as [|x l IH]; [simpl; lia|].
  change ((x :: l) ++ [b]) with (x :: (l ++ [b])).
  cbn [weighted_sum byte_sum]. rewrite IH.
  replace (length (x :: l ++ [b])) with (length (x :: l) + 1)%nat by (simpl; len_lia). lia.
Qed.

Lemma byte_sum_zeros n : byte_sum (replicate n Byte.x00) = 0.
Proof. induction n; simpl; [done|]. rewrite IHn. done. Qed.
Lemma weighted_sum_zeros n : weighted_sum (replicate n Byte.x00) = 0.
Proof. induction n; cbn [replicate weighted_sum]; [done|]. rewrite IHn. change (Z_of_byte Byte.x00) with 0. lia. Qed.

Lemma reset_ok : rollsum_ok reset.
Proof.
  unfold rollsum_ok. split_and!; [done|simpl; unfold BUP_WINDOWSIZE; lia|done|done].
Qed.

(** One [roll] drops the oldest byte of the window and appends the new one. *)
Lemma roll_unrolled r ch d w :
  length (window r) = BUP_WINDOWSIZE → (wofs r < BUP_WINDOWSIZE)%nat →
  unrolled r = d :: w →
  window r !!! wofs r = d ∧ unrolled (roll r ch) = w ++ [ch].
Proof.
  unfold unrolled, roll. destruct r as [a b l k]; cbn [window wofs s1 s2 add].
  intros Hl Hk Hu.
  destruct (drop k l) as [|x t] eqn:Hd.
  { exfalso. apply (f_equal length) in Hd. revert Hd. len_lia. }
  simpl in Hu. injection Hu as -> <-.
  assert (l !! k = Some d) as Hlk.
  { rewrite <- (Nat.add_0_r k), <- lookup_drop, Hd. done. }
  split; [by apply list_lookup_total_correct|].
  assert (t = drop (Datatypes.S k) l) as Ht.
  { replace (Datatypes.S k) with (k + 1)%nat by lia.
    by rewrite <- drop_drop, Hd. }
  destruct (decide (k + 1 = BUP_WINDOWSIZE)%nat) as [Heq|Hne].
  - rewrite Heq, Nat.Div0.mod_same, drop_0, take_0, app_nil_r.
    rewrite Ht, drop_ge, app_nil_l by lia.
    rewrite insert_take_drop by lia. rewrite drop_ge by lia.
    done.
  - rewrite Nat.mod_small by lia.
    replace (k + 1)%nat with (Datatypes.S k) by lia.
    rewrite drop_insert_lt by lia. rewrite <- Ht, <- app_assoc. f_equal.
    rewrite insert_take_drop by lia.
    rewrite take_app, (take_ge (take k l)) by len_lia.
    by replace (Datatypes.S k - length (take k l))%nat with 1%nat by len_lia.
Qed.

Lemma add_s1_window d w ch :
  u32 (window_s1 (d :: w) + u32 (Z_of_byte ch - Z_of_byte d)) = window_s1 (w ++ [ch]).
Proof.
  unfold window_s1, u32. rewrite byte_sum_snoc. cbn [byte_sum].
  rewrite <- Zplus_mod. f_equal. lia.
Qed.

Lemma add_s2_window d w ch :
  length (d :: w) = BUP_WINDOWSIZE →
  u32 (window_s2 (d :: w)
       + u32 (window_s1 (w ++ [ch])
              - u32 (Z.of_nat BUP_WINDOWSIZE * u32 (Z_of_byte d + ROLLSUM_CHAR_OFFSET))))
  = window_s2 (w ++ [ch]).
Proof.
  intros Hl. unfold window_s1, window_s2, u32.
  rewrite weighted_sum_snoc, byte_sum_snoc. cbn [weighted_sum].
  rewrite Hl. change (Z.of_nat BUP_WINDOWSIZE) with 64.
  rewrite Zmult_mod_idemp_r, <- Zminus_mod, <- Zplus_mod. f_equal.
  unfold ROLLSUM_CHAR_OFFSET. lia.
Qed.

Lemma roll_ok r ch : rollsum_ok r → rollsum_ok (roll r ch).
Proof.
  intros (Hl & Hk & H1 & H2).
  destruct (unrolled r) as [|d w] eqn:Hu.
  { exfalso. apply (f_equal length) in Hu. unfold unrolled in Hu. revert Hu. len_lia. }
  destruct (roll_unrolled r ch d w Hl Hk Hu) as [Hd Hu'].
  assert (length (d :: w) = BUP_WINDOWSIZE) as Hlw.
  { rewrite <- Hu. unfold unrolled. len_lia. }
  unfold rollsum_ok. rewrite Hu'. unfold roll. cbn [window wofs s1 s2 add].
  rewrite length_insert, Hd, H1, H2, add_s1_window. split_and!; [done| |done|].
  - by apply Nat.mod_upper_bound.
  - by apply add_s2_window.
Qed.

(** The state after any input, and its window. *)
Definition roll_all (r : rollsum) (l : list byte) : rollsum := fold_left roll l r.

Lemma roll_all_ok r l : rollsum_ok r → rollsum_ok (roll_all r l).
Proof. revert r. induction l; intros r Hr; simpl; [done|]. by apply IHl, roll_ok. Qed.

Lemma roll_all_window r l :
  rollsum_ok r →
  unrolled (roll_all r l) = drop (length l) (unrolled r ++ l).
Proof.
  revert r. induction l as [|c l IH]; intros r Hr; simpl.
  { by rewrite app_nil_r, drop_0. }
  rewrite IH by by apply roll_ok. destruct Hr as (Hl & Hk & _).
  destruct (unrolled r) as [|d w] eqn:Hu.
  { exfalso. apply (f_equal length) in Hu. unfold unrolled in Hu. revert Hu. len_lia. }
  destruct (roll_unrolled r c d w Hl Hk Hu) as [_ ->]. simpl.
  by rewrite <- app_assoc.
Qed.

Lemma roll_all_app r l1 l2 : roll_all r (l1 ++ l2) = roll_all (roll_all r l1) l2.
Proof. apply fold_left_app. Qed.

(** After at least a window of input, the sums are those of the last 64 bytes. *)
Lemma roll_all_last l w :
  length w = BUP_WINDOWSIZE →
  s1 (roll_all reset (l ++ w)) = window_s1 w ∧ s2 (roll_all reset (l ++ w)) = window_s2 w.
Proof.
  intros Hw. pose proof (roll_all_ok reset l reset_ok) as Hr.
  rewrite roll_all_app.
  destruct (roll_all_ok (roll_all reset l) w Hr) as (_ & _ & H1 & H2).
  rewrite H1, H2, roll_all_window by done.
  rewrite drop_app_ge by (unfold unrolled; destruct Hr as (Hl & _); len_lia).
  replace (length w - length (unrolled (roll_all reset l)))%nat with 0%nat.
  { by rewrite drop_0. }
  unfold unrolled. destruct Hr as (Hl & _). len_lia.
Qed.

(** ** The search for a split point *)

Lemma split_loop_shift r c buf :
  split_loop r c buf
  = match split_loop r 0 buf with (O, b) => (O, b) | (n, b) => ((c + n)%nat, b) end.
Proof.
  assert (∀ r c d, split_loop r (c + d) buf
    = match split_loop r d buf with (O, b) => (O, b) | (n, b) => ((c + n)%nat, b) end) as Hgen.
  { clear. induction buf as [|b buf IH]; intros r c d; cbn [split_loop]; [done|].
    destruct (split_here (roll r b)).
    - replace (d + 1)%nat with (S d) by lia. f_equal. lia.
    - rewrite <- IH. f_equal. lia. }
  specialize (Hgen r c 0%nat). by rewrite Nat.add_0_r in Hgen.
Qed.

Lemma split_loop_cons r ch buf :
  split_loop r 0 (ch :: buf)
  = if split_here (roll r ch) then (1%nat, split_bits (roll r ch))
    else match split_loop (roll r ch) 0 buf with (O, b) => (O, b) | (n, b) => (S n, b) end.
Proof. cbn [split_loop]. destruct (split_here _); [done|]. apply (split_loop_shift _ 1). Qed.

(** A split found at [n] is a split of the state after [n] bytes, and no earlier
    position splits. *)
Lemma split_loop_some r buf n b :
  split_loop r 0 buf = (S n, b) →
  (n < length buf)%nat ∧ split_here (roll_all r (take (S n) buf)) = true ∧
  b = split_bits (roll_all r (take (S n) buf)) ∧
  ∀ k, (k < n)%nat → split_here (roll_all r (take (S k) buf)) = false.
Proof.
  revert r n. induction buf as [|ch buf IH]; intros r n; [done|].
  rewrite split_loop_cons. destruct (split_here (roll r ch)) eqn:Hs.
  - intros [= <- <-]. simpl. split_and!; [lia|done|done|lia].
  - destruct (split_loop (roll r ch) 0 buf) as [[|m] b'] eqn:Hl; [done|].
    intros [= <- <-]. destruct (IH _ _ Hl) as (? & ? & ? & Hn).
    split_and!; [simpl; lia|done|done|].
    intros [|k] Hk; [done|]. apply Hn. lia.
Qed.

Lemma split_loop_none r buf b :
  split_loop r 0 buf = (O, b) →
  b = 0 ∧ ∀ k, (k < length buf)%nat → split_here (roll_all r (take (S k) buf)) = false.
Proof.
  revert r. induction buf as [|ch buf IH]; intros r; [intros [= <-]; split; [done|simpl; lia]|].
  rewrite split_loop_cons. destruct (split_here (roll r ch)) eqn:Hs; [done|].
  destruct (split_loop (roll r ch) 0 buf) as [[|m] b'] eqn:Hl; [|done].
  intros [= <-]. destruct (IH _ Hl) as [-> Hn]. split; [done|].
  intros [|k] Hk; [done|]. apply Hn. simpl in Hk. lia.
Qed.

Lemma split_loop_app r p q :
  split_loop r 0 (p ++ q)
  = match split_loop r 0 p with
    | (O, _) => match split_loop (roll_all r p) 0 q with
                | (O, b) => (O, b) | (n, b) => ((length p + n)%nat, b) end
    | x => x
    end.
Proof.
  revert r. induction p as [|ch p IH]; intros r.
  { cbn [app split_loop roll_all fold_left length]. by destruct (split_loop r 0 q) as [[|n] b]. }
  change ((ch :: p) ++ q) with (ch :: (p ++ q)). rewrite !split_loop_cons.
  destruct (split_here (roll r ch)); [done|]. rewrite IH.
  destruct (split_loop (roll r ch) 0 p) as [[|n] b]; [|done].
  change (roll_all r (ch :: p)) with (roll_all (roll r ch) p).
  destruct (split_loop (roll_all (roll r ch) p) 0 q) as [[|m] b']; [done|].
  cbn [length]. by rewrite !Nat.add_succ_r, Nat.add_succ_l.
Qed.

Lemma findSplitPoint_le p n b : findSplitPoint p = (n, b) → (n ≤ length p)%nat.
Proof. destruct n; [lia|]. intros H. by apply split_loop_some in H as [? _]. Qed.

Lemma findSplitPoint_app p q :
  findSplitPoint (p ++ q)
  = match findSplitPoint p with
    | (O, _) => match split_loop (roll_all reset p) 0 q with
                | (O, b) => (O, b) | (n, b) => ((length p + n)%nat, b) end
    | x => x
    end.
Proof. apply split_loop_app. Qed.

(** ** The bit count and the level *)

Lemma count_bits_spec fuel k rsum b :
  0 ≤ rsum < 2 ^ Z.of_nat k → (k ≤ fuel)%nat →
  ∃ n, count_bits fuel rsum b = b + n ∧ 0 ≤ n ∧ n ≤ Z.max 0 (Z.of_nat k - 1) ∧
    (∀ i, 0 ≤ i < n → Z.testbit rsum (1 + i) = true) ∧ Z.testbit rsum (1 + n) = false.
Proof.
  revert k rsum b. induction fuel as [|fuel IH]; intros k rsum b Hr Hk; cbn [count_bits].
  { replace k with 0%nat in Hr by lia. replace rsum with 0 by (change (2 ^ Z.of_nat 0) with 1 in Hr; lia).
    exists 0. split_and!; [lia|lia|lia|lia|apply Z.testbit_0_l]. }
  assert (Z.land (Z.shiftr rsum 1) 1 = Z.b2z (Z.testbit rsum 1)) as ->.
  { rewrite Z.testbit_spec' by lia. change 1 with (Z.ones 1) at 2.
    rewrite Z.land_ones by lia. by rewrite Z.shiftr_div_pow2 by lia. }
  destruct (Z.testbit rsum 1) eqn:Hb; cbn [Z.b2z Z.eqb negb].
  - destruct k as [|[|k]].
    { replace rsum with 0 in Hb by (change (2 ^ Z.of_nat 0) with 1 in Hr; lia). done. }
    { change (2 ^ Z.of_nat 1) with 2 in Hr.
      assert (rsum = 0 ∨ rsum = 1) as [-> | ->] by lia; done. }
    destruct (IH (S k) (Z.shiftr rsum 1) (b + 1)) as (n & -> & Hn0 & Hn & Hall & Hend); [|lia|].
    { rewrite Z.shiftr_div_pow2 by lia. change (2 ^ 1) with 2.
      replace (Z.of_nat (S (S k))) with (Z.of_nat (S k) + 1) in Hr by lia.
      rewrite Z.pow_add_r in Hr by lia. change (2 ^ 1) with 2 in Hr. split.
      - apply Z.div_pos; lia.
      - apply Z.div_lt_upper_bound; lia. }
    exists (n + 1). split_and!; [lia|lia|lia| |].
    + intros i Hi. destruct (decide (i = 0)) as [->|]; [done|].
      specialize (Hall (i - 1)). rewrite Z.shiftr_spec in Hall by lia.
      replace (1 + (i - 1) + 1) with (1 + i) in Hall by lia. apply Hall. lia.
    + rewrite Z.shiftr_spec in Hend by lia.
      by replace (1 + (n + 1)) with (1 + n + 1) by lia.
  - exists 0. split_and!; [lia|lia|lia|lia|done].
Qed.

Lemma digest_range r : 0 ≤ digest r < 2 ^ 32.
Proof.
  unfold digest. assert (0 ≤ Z.land (s2 r) 65535 < 2 ^ 16) as Hl.
  { change 65535 with (Z.ones 16). rewrite Z.land_ones by lia. by apply Z.mod_pos_bound. }
  pose proof (u32_range (Z.shiftl (s1 r) 16)) as Hu. unfold is_u32 in Hu.
  assert (0 ≤ Z.lor (u32 (Z.shiftl (s1 r) 16)) (Z.land (s2 r) 65535)) by (apply Z.lor_nonneg; lia).
  split; [done|]. destruct (decide (Z.lor (u32 (Z.shiftl (s1 r) 16)) (Z.land (s2 r) 65535) = 0)) as [->|]; [done|].
  apply Z.log2_lt_pow2; [lia|]. rewrite Z.log2_lor by lia.
  apply Z.max_lub_lt.
  - destruct (decide (u32 (Z.shiftl (s1 r) 16) = 0)) as [->|]; [done|]. apply Z.log2_lt_pow2; lia.
  - destruct (decide (Z.land (s2 r) 65535 = 0)) as [->|]; [done|]. apply Z.log2_lt_pow2; lia.
Qed.

(** The count is 13 plus the number of ones above bit 13 of the digest. *)
Lemma split_bits_spec r :
  ∃ n, split_bits r = BUP_BLOBBITS + n ∧ 0 ≤ n ≤ 18 ∧
    (∀ i, 0 ≤ i < n → Z.testbit (digest r) (14 + i) = true) ∧
    Z.testbit (digest r) (14 + n) = false.
Proof.
  pose proof (digest_range r) as Hd.
  destruct (count_bits_spec 32 19 (Z.shiftr (digest r) BUP_BLOBBITS) BUP_BLOBBITS)
    as (n & Hn & Hn0 & Hn1 & Hall & Hend); [|lia|].
  { rewrite Z.shiftr_div_pow2 by done. split; [apply Z.div_pos; [lia|done]|].
    apply Z.div_lt_upper_bound; [done|]. change (2 ^ BUP_BLOBBITS * 2 ^ Z.of_nat 19) with (2 ^ 32). lia. }
  exists n. split_and!; [done|done|lia| |].
  - intros i Hi. specialize (Hall i Hi). rewrite Z.shiftr_spec in Hall by lia.
    unfold BUP_BLOBBITS in Hall. by replace (14 + i) with (1 + i + 13) by lia.
  - rewrite Z.shiftr_spec in Hend by lia. unfold BUP_BLOBBITS in Hend.
    by replace (14 + n) with (1 + n + 13) by lia.
Qed.

(** Levels are at most 4, far below the range of [uint16]. *)
Lemma split_level_range r : 0 ≤ (split_bits r - BUP_BLOBBITS) / FANOUT_BITS ≤ 4.
Proof.
  destruct (split_bits_spec r) as (n & -> & Hn & _).
  replace (BUP_BLOBBITS + n - BUP_BLOBBITS) with n by lia. unfold FANOUT_BITS.
  split; [apply Z.div_pos; lia|]. apply Z.lt_succ_r, Z.div_lt_upper_bound; lia.
Qed.

(** ** The chunks of the whole data *)

Lemma BLOB_MAX_nat : Z.of_nat (Z.to_nat BLOB_MAX) = 32768.
Proof. rewrite BLOB_MAX_val, Z2Nat.id; lia. Qed.

Lemma ref_next_range data n l :
  ref_next data = (n, l) → data ≠ [] →
  (0 < n ≤ length data)%nat ∧ Z.of_nat n ≤ BLOB_MAX ∧ 0 ≤ l ≤ 4.
Proof.
  unfold ref_next. destruct (findSplitPoint data) as [ofs bits] eqn:Hf. intros Hn Hd.
  assert (0 < length data)%nat by (destruct data; [by destruct Hd|simpl; lia]).
  pose proof BLOB_MAX_nat. pose proof BLOB_MAX_val.
  destruct ((0 <? ofs)%nat && (Z.of_nat ofs <=? BLOB_MAX)) eqn:Hc; injection Hn as <- <-; reflect_bools.
  - pose proof (findSplitPoint_le _ _ _ Hf).
    split_and!; [lia|lia|lia| |]; destruct ofs; try lia;
      apply split_loop_some in Hf as (_ & _ & -> & _); apply split_level_range.
  - split_and!; lia.
Qed.

Lemma ref_chunks_fuel f data :
  (length data ≤ f)%nat → ref_chunks f data = chunks_of data.
Proof.
  unfold chunks_of. remember (length data) as n eqn:Hn.
  assert (length data ≤ n)%nat as Hd by lia. clear Hn.
  revert n data Hd. induction f as [|f IH]; intros n data Hd Hf.
  { replace n with 0%nat by lia. done. }
  destruct data as [|b data]; [by destruct n|]. destruct n as [|n]; [simpl in Hd; lia|].
  cbn [ref_chunks]. destruct (ref_next (b :: data)) as [k l] eqn:Hr.
  apply ref_next_range in Hr as ((? & ?) & _); [|done].
  f_equal. cbn [length] in *. rewrite (IH n) by len_lia. done.
Qed.

Lemma chunks_of_cons data n l :
  data ≠ [] → ref_next data = (n, l) →
  chunks_of data = (take n data, l) :: chunks_of (drop n data).
Proof.
  intros Hd Hn. unfold chunks_of at 1.
  destruct data as [|b data]; [done|]. cbn [length ref_chunks]. rewrite Hn. f_equal.
  apply ref_chunks_fuel. apply ref_next_range in Hn as ((? & ?) & _); [|done]. len_lia.
Qed.

(** Induction on the chunks of some data. *)
Lemma chunks_ind (P : list byte → Prop) :
  P [] →
  (∀ data n l, data ≠ [] → ref_next data = (n, l) → P (drop n data) → P data) →
  ∀ data, P data.
Proof.
  intros H0 Hstep data. remember (length data) as k eqn:Hk.
  revert data Hk. induction (lt_wf k) as [k _ IH]. intros data ->.
  destruct (decide (data = [])) as [->|Hd]; [done|].
  destruct (ref_next data) as [n l] eqn:Hn.
  apply (Hstep data n l Hd Hn). apply (IH (length (drop n data))); [|done].
  apply ref_next_range in Hn as ((? & ?) & _); [|done]. len_lia.
Qed.

Definition chunk_ok (c : list byte * Z) : Prop :=
  0 < Z.of_nat (length c.1) ≤ BLOB_MAX ∧ 0 ≤ c.2 ≤ 4.

Lemma chunks_of_partition data :
  concat (chunks_of data).*1 = data ∧ Forall chunk_ok (chunks_of data).
Proof.
  induction data as [|data n l Hd Hn [IH1 IH2]] using chunks_ind; [done|].
  rewrite (chunks_of_cons data n l) by done. cbn [fmap list_fmap concat fst].
  rewrite IH1, take_drop. split; [done|]. constructor; [|done].
  apply ref_next_range in Hn as ((? & ?) & ? & ?); [|done].
  unfold chunk_ok. cbn [fst snd]. rewrite length_take. split; lia.
Qed.

(** ** The streaming chunker computes the chunks of the whole data *)

(** A chunk found in a partial buffer is the one the whole data has. *)
Lemma next_chunk_ref data rest n l :
  next_chunk data false = Some (n, l) →
  ref_next (data ++ rest) = (n, l) ∧ (0 < n ≤ length data)%nat.
Proof.
  unfold next_chunk, ref_next. rewrite findSplitPoint_app.
  pose proof BLOB_MAX_nat. pose proof BLOB_MAX_val.
  destruct (findSplitPoint data) as [[|ofs] bits] eqn:Hf.
  - cbn [Nat.ltb Nat.leb]. destruct (Z.of_nat (length data) >=? BLOB_MAX) eqn:Hc; [|done].
    intros [= <- <-]. reflect_bools. split; [|lia].
    replace (Nat.min (Z.to_nat BLOB_MAX) (length (data ++ rest))) with (Z.to_nat BLOB_MAX) by len_lia.
    destruct (split_loop (roll_all reset data) 0 rest) as [[|k] b]; [done|].
    assert (BLOB_MAX < Z.of_nat (length data + S k)) as Hgt by lia.
    apply Z.leb_gt in Hgt as ->.
    by rewrite andb_false_r.
  - pose proof (findSplitPoint_le _ _ _ Hf).
    replace (0 <? S ofs)%nat with true by done. rewrite andb_true_l.
    destruct (Z.of_nat (S ofs) >? BLOB_MAX) eqn:Hc; intros [= <- <-]; reflect_bools.
    + assert ((Z.of_nat (S ofs) <=? BLOB_MAX) = false) as -> by (apply Z.leb_gt; lia).
      replace (Nat.min (Z.to_nat BLOB_MAX) (length (data ++ rest))) with (Z.to_nat BLOB_MAX) by len_lia.
      split; [done|lia].
    + assert ((Z.of_nat (S ofs) <=? BLOB_MAX) = true) as -> by (apply Z.leb_le; lia). split; [done|lia].
Qed.

(** When the chunker asks for more data, what it holds is smaller than the cap
    and is the last chunk should the stream end there. *)
Lemma next_chunk_none data :
  next_chunk data false = None →
  Z.of_nat (length data) < BLOB_MAX ∧
  chunks_of data = match data with [] => [] | _ => [(data, 0)] end.
Proof.
  unfold next_chunk. destruct (findSplitPoint data) as [[|ofs] bits] eqn:Hf.
  - cbn [Nat.ltb Nat.leb]. destruct (Z.of_nat (length data) >=? BLOB_MAX) eqn:Hc; [done|].
    intros _. reflect_bools. split; [lia|].
    destruct data as [|b data]; [done|].
    rewrite (chunks_of_cons _ (length (b :: data)) 0); [|done|].
    + by rewrite firstn_all, skipn_all.
    + unfold ref_next. rewrite Hf. cbn [Nat.ltb Nat.leb andb].
      pose proof BLOB_MAX_nat. by rewrite Nat.min_r by lia.
  - replace (0 <? S ofs)%nat with true by done. by destruct (_ >? _).
Qed.

Section stream.
Context `{Digest} {St E : Type}.
Variable callback : St → list byte → Z → Z → outcome E St.

Lemma emit_all_app st cs1 cs2 :
  emit_all callback st (cs1 ++ cs2)
  = emit_all callback st cs1 ≫= λ st', emit_all callback st' cs2.
Proof.
  revert st. induction cs1 as [|[c l] cs1 IH]; intros st; [done|]. cbn [app emit_all].
  destruct (callback st (BlobSHA256 c) (u32 (Z.of_nat (length c))) (u16 l)); [|done|done].
  cbn [wrap_err]. rewrite !ret_bind. apply IH.
Qed.

(** One buffer: the emitted chunks are a prefix of those of the whole data,
    whatever follows. *)
Lemma chunk_buffer_no_panic fuel data eof : (∀ st sha size level, no_panic (callback st sha size level)) →
  ∀ st, no_panic (chunk_buffer callback fuel st data eof).
Proof.
  intros Hcb. revert data. induction fuel as [|fuel IH]; intros data st; cbn [chunk_buffer]; [done|].
  destruct (next_chunk data eof) as [[n l]|]; [|done]. destruct (0 <? n)%nat; [|done].
  apply no_panic_bind; [|intros st' _; apply IH].
  specialize (Hcb st (BlobSHA256 (take n data)) (u32 (Z.of_nat n)) (u16 l)). by destruct (callback _ _ _ _).
Qed.

(** Reading in chunks never panics, whatever the reader does, unless the callback does. *)
Lemma ChunkReader_no_panic r : (∀ st sha size level, no_panic (callback st sha size level)) →
  ∀ st, no_panic (ChunkReader callback st r).
Proof.
  intros Hcb. unfold ChunkReader, chunkStream. generalize (stream_fuel r) ([] : list byte). intros fuel. revert r.
  induction fuel as [|fuel IH]; intros r left st; cbn [chunk_loop]; [done|].
  destruct (Read r _) as [[piece err] r']. apply no_panic_bind.
  { destruct (0 <? length piece)%nat; [by apply chunk_buffer_no_panic|done]. }
  intros [st' left'] _. destruct err as [[]|]; [|done|apply IH].
  destruct (0 <? length left')%nat; [|done].
  specialize (Hcb st' (BlobSHA256 left') (u32 (Z.of_nat (length left'))) 0). by destruct (callback _ _ _ _).
Qed.

Lemma chunk_buffer_spec fuel data :
  (length data < fuel)%nat →
  ∃ cs left,
    (∀ st, chunk_buffer callback fuel st data false
      = (emit_all callback st cs ≫= λ st', Ret (st', left))) ∧
    next_chunk left false = None ∧
    ∀ rest, chunks_of (data ++ rest) = cs ++ chunks_of (left ++ rest).
Proof.
  revert data. induction fuel as [|fuel IH]; intros data Hf; [lia|].
  cbn [chunk_buffer]. destruct (next_chunk data false) as [[n l]|] eqn:Hn.
  2: { exists [], data. done. }
  destruct (next_chunk_ref data [] n l Hn) as [_ Hlen].
  replace (0 <? n)%nat with true by lia.
  destruct (IH (drop n data)) as (cs & left & Heq & Hl & Hr); [len_lia|].
  exists ((take n data, l) :: cs), left. split_and!; [|done|].
  - intros st. cbn [emit_all]. replace (length (take n data)) with n by len_lia.
    destruct (callback st _ _ _); [|done|done]. cbn [wrap_err]. rewrite !ret_bind. apply Heq.
  - intros rest. destruct (next_chunk_ref data rest n l Hn) as [Hrn _].
    rewrite (chunks_of_cons _ n l); [|by destruct data; [simpl in Hlen; lia|]|done].
    rewrite take_app_le, drop_app_le by lia. cbn [app]. by rewrite Hr.
Qed.

(** The end of the stream: the rest is the last chunk. *)
Lemma flush_spec st left :
  next_chunk left false = None →
  (if (0 <? length left)%nat
   then wrap_err CallbackErr
     (callback st (BlobSHA256 left) (u32 (Z.of_nat (length left))) 0) else Ret st)
  = emit_all callback st (chunks_of left).
Proof.
  intros Hl. apply next_chunk_none in Hl as [_ ->]. destruct left as [|b left]; [done|].
  cbn [emit_all]. change (u16 0) with 0. cbn [length Nat.ltb Nat.leb].
  by destruct (wrap_err _ _).
Qed.

(** What the stream ends with after the chunks of the data are emitted. *)
Definition finish (e : stream_end) (st : St) : outcome (chunk_error E) St :=
  match e with StreamEOF => Ret st | StreamErr => Err ReadErr end.

Lemma chunk_loop_spec fuel sched data left st :
  next_chunk left false = None →
  (length sched + length data < fuel)%nat →
  chunk_loop callback fuel st (Reader data sched false StreamEOF) left
  = emit_all callback st (chunks_of (left ++ data)).
Proof.
  revert sched data left st.
  induction fuel as [|fuel IH]; intros sched data left st Hl Hf; [lia|].
  cbn [chunk_loop]. unfold Read. cbn [rd_data rd_sched rd_eager rd_end andb].
  destruct data as [|b data].
  { cbn [length Nat.ltb Nat.leb]. rewrite ret_bind, app_nil_r. by apply flush_spec. }
  pose proof (next_chunk_none _ Hl) as [Hlt _].
  pose proof BLOB_MAX_val. pose proof BLOB_READ_SIZE_val.
  set (cap := Z.to_nat (BLOB_READ_SIZE - Z.of_nat (length left))).
  assert (0 < cap)%nat by (unfold cap; lia).
  set (k := match sched with [] => cap | n :: _ => Nat.min n cap end).
  assert (length (tail sched) + length (drop k (b :: data)) < fuel)%nat as Hf'.
  { unfold k. rewrite length_drop. destruct sched; cbn [tail length] in *; lia. }
  destruct (0 <? length (take k (b :: data)))%nat eqn:Hk.
  - destruct (chunk_buffer_spec (length (left ++ take k (b :: data)) + 1)
      (left ++ take k (b :: data))) as (cs & left' & Heq & Hl' & Hr); [lia|].
    rewrite Heq.
    replace (chunks_of (left ++ b :: data)) with (cs ++ chunks_of (left' ++ drop k (b :: data)))
      by (by rewrite <- Hr, <- app_assoc, take_drop).
    rewrite emit_all_app.
    destruct (emit_all callback st cs); [|done|done]. rewrite !ret_bind. by apply IH.
  - rewrite ret_bind. reflect_bools.
    assert (k = 0)%nat as Hk0 by (rewrite length_take in Hk; simpl in Hk; lia).
    rewrite Hk0 in *. rewrite drop_0 in *. by apply IH.
Qed.

Lemma next_chunk_empty : next_chunk [] false = None.
Proof.
  unfold next_chunk. cbn [findSplitPoint split_loop Nat.ltb Nat.leb length].
  change (findSplitPoint []) with (0%nat, 0). cbn [Nat.ltb Nat.leb].
  pose proof BLOB_MAX_val. by replace (Z.of_nat 0 >=? BLOB_MAX) with false by lia.
Qed.

Lemma chunkStream_spec sched data st :
  chunkStream callback st (Reader data sched false StreamEOF)
  = emit_all callback st (chunks_of data).
Proof.
  unfold chunkStream, stream_fuel. cbn [rd_sched rd_data].
  rewrite chunk_loop_spec; [done|apply next_chunk_empty|lia].
Qed.
End stream.

(** ** Content-defined boundaries *)

(** What is decided about a prefix of the data is never revised: all of its
    chunks but the unfinished last one are chunks of every extension. *)
Lemma chunks_of_prefix p :
  ∃ cs left, chunks_of p = cs ++ match left with [] => [] | _ => [(left, 0)] end ∧
    Z.of_nat (length left) < BLOB_MAX ∧
    ∀ q, chunks_of (p ++ q) = cs ++ chunks_of (left ++ q).
Proof.
  destruct (chunk_buffer_spec (H := sha256_digest) (E := unit)
    (λ (st : unit) _ _ _, Ret st) (S (length p)) p)
    as (cs & left & _ & Hl & Hr); [lia|].
  apply next_chunk_none in Hl as [Hlt Hc]. exists cs, left. split_and!; [|done|done].
  rewrite <- (app_nil_r p), Hr, app_nil_r, Hc. done.
Qed.

Lemma split_here_window l1 l2 w :
  length w = BUP_WINDOWSIZE →
  split_here (roll_all reset (l1 ++ w)) = split_here (roll_all reset (l2 ++ w)) ∧
  split_bits (roll_all reset (l1 ++ w)) = split_bits (roll_all reset (l2 ++ w)).
Proof.
  intros Hw. destruct (roll_all_last l1 w Hw) as [H1 H2], (roll_all_last l2 w Hw) as [H3 H4].
  unfold split_here, split_bits, digest. by rewrite H1, H2, H3, H4.
Qed.

(** ** A run without split points *)

Lemma unrolled_zeros r k :
  rollsum_ok r → unrolled r = replicate BUP_WINDOWSIZE Byte.x00 →
  rollsum_ok (roll_all r (replicate k Byte.x00)) ∧
  unrolled (roll_all r (replicate k Byte.x00)) = replicate BUP_WINDOWSIZE Byte.x00.
Proof.
  intros Hr Hu. split; [by apply roll_all_ok|].
  rewrite roll_all_window, Hu by done.
  rewrite <- replicate_add, drop_replicate, length_replicate. f_equal. lia.
Qed.

Lemma zeros_never_split n : findSplitPoint (replicate n Byte.x00) = (0%nat, 0).
Proof.
  unfold findSplitPoint.
  assert (∀ r, rollsum_ok r → unrolled r = replicate BUP_WINDOWSIZE Byte.x00 →
    split_loop r 0 (replicate n Byte.x00) = (0%nat, 0)) as Hgen.
  { induction n as [|n IH]; intros r Hr Hu; [done|].
    cbn [replicate]. rewrite split_loop_cons.
    destruct (unrolled_zeros r 1 Hr Hu) as [Hr' Hu'].
    change (roll_all r (replicate 1 Byte.x00)) with (roll r Byte.x00) in Hr', Hu'.
    rewrite IH by done. destruct Hr' as (_ & _ & _ & H2).
    unfold split_here. rewrite H2, Hu'. done. }
  apply Hgen; [apply reset_ok|done].
Qed.

(** ** Properties *)

(** C8: the streaming chunker is exactly the chunking of the whole data,
    whatever sizes the reads return: it terminates, never runs out of loop
    iterations, and calls the callback on the same chunks in the same order with
    the digest, size and level of each, stopping at the first callback error.  So
    [ChunkData] and [ChunkReader] agree on every input. *)
Theorem chunking_read_independent `{Digest} {S E : Type}
    (callback : S → list byte → Z → Z → outcome E S) (st : S) sched data :
  ChunkReader callback st (Reader data sched false StreamEOF)
    = emit_all callback st (chunks_of data) ∧
  ChunkData callback st data = emit_all callback st (chunks_of data).
Proof. split; apply chunkStream_spec. Qed.

(** What the callback is told about one chunk: its digest, its size and its
    level. *)
Abbreviation report := (list byte * Z * Z)%type.

(** A report that is true of the bytes [chunk]: the real size, not a wrapped one. *)
Definition reports `{Digest} (chunk : list byte) (r : report) : Prop :=
  let '(sha, size, level) := r in
  sha = BlobSHA256 chunk ∧ size = Z.of_nat (length chunk) ∧ 1 ≤ size ≤ 32768 ∧ 0 ≤ level ≤ 4.

(** A callback is told one report after the other until it fails. *)
Fixpoint deliver {S E : Type} (callback : S → list byte → Z → Z → outcome E S) (st : S)
    (rs : list report) : outcome (chunk_error E) S :=
  match rs with
  | [] => Ret st
  | (sha, size, level) :: rs' =>
      match callback st sha size level with
      | Ret st' => deliver callback st' rs'
      | Err e => Err (CallbackErr e)
      | Panic => Panic
      end
  end.

Lemma deliver_emit_all `{Digest} {S E : Type} (callback : S → list byte → Z → Z → outcome E S) cs st :
  emit_all callback st cs
  = deliver callback st ((λ '(c, l), (BlobSHA256 c, u32 (Z.of_nat (length c)), u16 l)) <$> cs).
Proof.
  revert st. induction cs as [|[c l] cs IH]; intros st; [done|]. cbn [emit_all fmap list_fmap deliver].
  destruct (callback st _ _ _); cbn [wrap_err]; [|done..]. rewrite ret_bind. apply IH.
Qed.

Lemma chunk_ok_reports `{Digest} c l :
  chunk_ok (c, l) → reports c (BlobSHA256 c, u32 (Z.of_nat (length c)), u16 l).
Proof.
  intros [Hc Hl]. cbn [fst snd] in *. pose proof BLOB_MAX_val.
  rewrite u32_id by (unfold is_u32; lia). rewrite u16_id by (unfold is_u16; lia).
  unfold reports. split_and!; first [reflexivity|lia].
Qed.


(** boundaries are content-defined: whether a position of a chunk splits, and
    the level there, depend on the last 64 bytes only once 64 bytes of the chunk
    have been read; and appending to a file keeps all its chunks but the last,
    which is shorter than the cap. *)
Theorem chunk_boundaries_content_defined :
  (∀ l1 l2 w, length w = BUP_WINDOWSIZE →
    split_here (roll_all reset (l1 ++ w)) = split_here (roll_all reset (l2 ++ w)) ∧
    split_bits (roll_all reset (l1 ++ w)) = split_bits (roll_all reset (l2 ++ w))) ∧
  (∀ p, ∃ cs left,
    chunks_of p = cs ++ match left with [] => [] | _ => [(left, 0)] end ∧
    Z.of_nat (length left) < BLOB_MAX ∧
    ∀ q, chunks_of (p ++ q) = cs ++ chunks_of (left ++ q)).
Proof. split; [apply split_here_window|apply chunks_of_prefix]. Qed.

(** The cap on the chunk size does not hold for a reader that returns its last
    bytes together with [io.EOF], as [io.Reader] allows: a run of zeros that
    arrives in one read is emitted as one chunk, however long. *)
Theorem eager_reader_one_chunk `{Digest} {S E : Type}
    (callback : S → list byte → Z → Z → outcome E S) (st : S) n
    (Hn : (0 < n)%nat) (Hcap : Z.of_nat n ≤ BLOB_READ_SIZE) :
  ChunkReader callback st (Reader (replicate n Byte.x00) [] true StreamEOF)
    = wrap_err CallbackErr
        (callback st (BlobSHA256 (replicate n Byte.x00)) (u32 (Z.of_nat n)) 0).
Proof.
  unfold ChunkReader, chunkStream, stream_fuel. cbn [rd_sched rd_data length].
  rewrite (Nat.add_comm _ 2). cbn [Nat.add chunk_loop].
  unfold Read. cbn [rd_data rd_sched rd_eager rd_end length].
  replace (BLOB_READ_SIZE - Z.of_nat 0) with BLOB_READ_SIZE by lia.
  set (cap := Z.to_nat BLOB_READ_SIZE).
  assert (n ≤ cap)%nat by (unfold cap; lia). clearbody cap.
  destruct n as [|n]; [lia|]. cbn [replicate].
  change (Byte.x00 :: replicate n Byte.x00) with (replicate (Datatypes.S n) Byte.x00).
  rewrite drop_ge, take_ge by len_lia. rewrite length_replicate.
  cbn [andb app Nat.ltb Nat.leb].
  rewrite bool_decide_eq_true_2 by done. rewrite length_replicate, Nat.add_1_r.
  cbn [chunk_buffer]. unfold next_chunk. rewrite zeros_never_split. cbn [Nat.ltb Nat.leb].
  rewrite length_replicate. cbn [Nat.ltb Nat.leb].
  rewrite drop_ge, take_ge by len_lia.
  change (u16 0) with 0.
  destruct (callback st _ _ _) as [st'|e|]; [|done|done].
  cbn [wrap_err]. rewrite !ret_bind. cbn [chunk_buffer]. unfold next_chunk.
  change (findSplitPoint []) with (0%nat, 0). cbn [Nat.ltb Nat.leb length].
  rewrite ret_bind. done.
Qed.

Lemma eager_reader_one_chunk_witness :
  ChunkReader (H := sha256_digest) (E := unit)
    (λ st _ n _, Ret (st ++ [n])) [] (Reader (replicate (Z.to_nat 40000) Byte.x00) [] true StreamEOF)
  = Ret [40000] ∧ BLOB_MAX < 40000.
Proof.
  split; [|by rewrite BLOB_MAX_val].
  rewrite (eager_reader_one_chunk (H := sha256_digest) (E := unit) (λ st _ n _, Ret (st ++ [n])) []
    (Z.to_nat 40000)).
  - cbn [wrap_err app]. by rewrite Z2Nat.id by lia.
  - lia.
  - rewrite BLOB_READ_SIZE_val. lia.
Defined.
