(* ===== verification/Bloom.v ===== *)
(** * The Bloom filter of the chunk index ([src/tsm/bloom.go])

    A packed bit array probed at [k] positions derived from the first sixteen
    bytes of a chunk's digest.  The two floating-point formulas that size it are
    arguments of [newBloomFilter]: no theorem depends on their values. *)

From S2P Require Import Prelude Sha256.

Record bloomFilter := BloomFilter {
  bits : list Z;      (* the [uint64] words *)
  bitsLen : Z;
  k : nat;
}.

(** [float_m n] is [math.Ceil(-n*ln(fp)/ln2^2)] and [float_k m n] is
    [math.Ceil(ln2*m/n)]; the clamping and the rounding to words are the code's. *)
Definition newBloomFilter (float_m : Z → Z) (float_k : Z → Z → Z) (n : Z) : bloomFilter :=
  if n =? 0 then BloomFilter [] 0 0
  else
    let m := if float_m n <? 64 then 64 else float_m n in
    let k := if float_k m n <? 1 then 1 else float_k m n in
    let bitsLen := u64 m in
    let rem := bitsLen mod 64 in
    let bitsLen := if negb (rem =? 0) then u64 (bitsLen + (64 - rem)) else bitsLen in
    BloomFilter (replicate (Z.to_nat (bitsLen / 64)) 0) bitsLen (Z.to_nat k).

Definition bloomHashes (sha : list byte) : Z * Z :=
  let h1 := be_get (take 8 sha) in
  let h2 := be_get (take 8 (drop 8 sha)) in
  (h1, if h2 =? 0 then 1 else h2).

(** The probe position of round [i], in [uint64] arithmetic. *)
Definition probe (b : bloomFilter) (sha : list byte) (i : nat) : Z :=
  let '(h1, h2) := bloomHashes sha in
  u64 (h1 + u64 (Z.of_nat i * h2)) mod bitsLen b.

(** One iteration of the loop of [add]; the index is checked. *)
Definition set_bit (bits : list Z) (pos : Z) : outcome unit (list Z) :=
  w ← or_panic (bits !! Z.to_nat (pos / 64));
  Ret (<[Z.to_nat (pos / 64) := Z.lor w (u64 (Z.shiftl 1 (pos mod 64)))]> bits).

Fixpoint add_loop (b : bloomFilter) (sha : list byte) (bits : list Z) (rounds : list nat)
    : outcome unit (list Z) :=
  match rounds with
  | [] => Ret bits
  | i :: rounds' => bits' ← set_bit bits (probe b sha i); add_loop b sha bits' rounds'
  end.

Definition add (b : bloomFilter) (sha : list byte) : outcome unit bloomFilter :=
  if bitsLen b =? 0 then Ret b
  else
    bits' ← add_loop b sha (bits b) (seq 0 (k b));
    Ret (BloomFilter bits' (bitsLen b) (k b)).

Fixpoint test_loop (b : bloomFilter) (sha : list byte) (rounds : list nat) : outcome unit bool :=
  match rounds with
  | [] => Ret true
  | i :: rounds' =>
      let pos := probe b sha i in
      w ← or_panic (bits b !! Z.to_nat (pos / 64));
      if Z.land w (u64 (Z.shiftl 1 (pos mod 64))) =? 0 then Ret false
      else test_loop b sha rounds'
  end.

Definition test (b : bloomFilter) (sha : list byte) : outcome unit bool :=
  if bitsLen b =? 0 then Ret false else test_loop b sha (seq 0 (k b)).

(** ** The filter as a set of bits *)

(** The array has as many words as the length says. *)
Definition bloom_ok (b : bloomFilter) : Prop :=
  bitsLen b = 64 * Z.of_nat (length (bits b)) ∧ Forall is_u64 (bits b).

Definition bit_at (bits : list Z) (pos : Z) : bool :=
  Z.testbit (default 0 (bits !! Z.to_nat (pos / 64))) (pos mod 64).

Lemma one_bit e : 0 ≤ e < 64 → u64 (Z.shiftl 1 e) = 2 ^ e.
Proof.
  intros He. rewrite Z.shiftl_1_l. apply u64_id. unfold is_u64.
  pose proof (Z.pow_lt_mono_r 2 e 64). split; [apply Z.pow_nonneg; lia|lia].
Qed.

Lemma land_bit w e : 0 ≤ e → (Z.land w (2 ^ e) =? 0) = negb (Z.testbit w e).
Proof.
  intros He. destruct (Z.testbit w e) eqn:Hb; cbn [negb].
  - apply Z.eqb_neq. intros H0.
    assert (Z.testbit (Z.land w (2 ^ e)) e = true) as Ht.
    { by rewrite Z.land_spec, Hb, Z.pow2_bits_true. }
    by rewrite H0, Z.testbit_0_l in Ht.
  - apply Z.eqb_eq, Z.bits_inj. intros i. rewrite Z.land_spec, Z.testbit_0_l.
    destruct (decide (i = e)) as [->|]; [by rewrite Hb|].
    by rewrite Z.pow2_bits_false, andb_false_r.
Qed.

Lemma lor_u64 w e : is_u64 w → 0 ≤ e < 64 → is_u64 (Z.lor w (2 ^ e)).
Proof.
  unfold is_u64. intros Hw He. assert (0 < 2 ^ e) by (apply Z.pow_pos_nonneg; lia).
  assert (0 ≤ Z.lor w (2 ^ e)) by (apply Z.lor_nonneg; lia). split; [done|].
  destruct (decide (Z.lor w (2 ^ e) = 0)) as [->|]; [done|].
  apply Z.log2_lt_pow2; [lia|]. rewrite Z.log2_lor, Z.log2_pow2 by lia.
  apply Z.max_lub_lt; [|lia].
  destruct (decide (w = 0)) as [->|]; [done|]. apply Z.log2_lt_pow2; lia.
Qed.

Lemma probe_range b sha i : bloom_ok b → bitsLen b ≠ 0 → 0 ≤ probe b sha i < bitsLen b.
Proof.
  intros [Hl _] Hn. unfold probe. destruct (bloomHashes sha). apply Z.mod_pos_bound. lia.
Qed.

Section words.
Context (bs : list Z) (pos : Z) (Hpos : 0 ≤ pos < 64 * Z.of_nat (length bs)).

Lemma word_in_range : is_Some (bs !! Z.to_nat (pos / 64)).
Proof.
  apply lookup_lt_is_Some_2. pose proof (Z.div_lt_upper_bound pos 64 (Z.of_nat (length bs))).
  pose proof (Z.div_pos pos 64). lia.
Qed.

Lemma set_bit_spec :
  Forall is_u64 bs →
  ∃ bs', set_bit bs pos = Ret bs' ∧ length bs' = length bs ∧ Forall is_u64 bs' ∧
    bit_at bs' pos = true ∧ ∀ q, bit_at bs q = true → bit_at bs' q = true.
Proof.
  intros Hw. destruct word_in_range as [w Hlk]. unfold set_bit. rewrite Hlk.
  cbn [or_panic]. rewrite ret_bind.
  pose proof (Z.mod_pos_bound pos 64 eq_refl) as Hm. rewrite one_bit by done.
  pose proof (lookup_lt_Some _ _ _ Hlk).
  eexists. split; [done|]. split_and!.
  - apply length_insert.
  - apply Forall_insert; [done|]. apply lor_u64; [|done]. by eapply Forall_lookup_1.
  - unfold bit_at. rewrite list_lookup_insert_eq by done. cbn [from_option id].
    rewrite Z.lor_spec, Z.pow2_bits_true by lia. apply orb_true_r.
  - intros q. unfold bit_at. destruct (decide (Z.to_nat (pos / 64) = Z.to_nat (q / 64))) as [Heq|Hne].
    + rewrite <- Heq, list_lookup_insert_eq, Hlk by done. cbn [from_option id]. rewrite Z.lor_spec. by intros ->.
    + by rewrite list_lookup_insert_ne.
Qed.
End words.

Lemma add_loop_spec b sha bs rounds :
  bloom_ok b → bitsLen b ≠ 0 → length bs = length (bits b) → Forall is_u64 bs →
  ∃ bs', add_loop b sha bs rounds = Ret bs' ∧ length bs' = length bs ∧ Forall is_u64 bs' ∧
    (∀ i, i ∈ rounds → bit_at bs' (probe b sha i) = true) ∧
    ∀ q, bit_at bs q = true → bit_at bs' q = true.
Proof.
  intros Hok Hn. revert bs. induction rounds as [|i rounds IH]; intros bs Hl Hw; cbn [add_loop].
  { exists bs. split_and!; try done. by intros ? ?%not_elem_of_nil. }
  destruct (set_bit_spec bs (probe b sha i)) as (bs1 & -> & Hl1 & Hw1 & Hb1 & Hm1); [|done|].
  { pose proof (probe_range b sha i Hok Hn). destruct Hok as [? _]. lia. }
  rewrite ret_bind. destruct (IH bs1) as (bs2 & -> & Hl2 & Hw2 & Hb2 & Hm2); [lia|done|].
  exists bs2. split_and!; [done|lia|done| |auto].
  intros j [->|Hj]%elem_of_cons; auto.
Qed.

Lemma test_loop_spec b sha rounds :
  bloom_ok b → bitsLen b ≠ 0 →
  test_loop b sha rounds = Ret (forallb (λ i, bit_at (bits b) (probe b sha i)) rounds).
Proof.
  intros Hok Hn. induction rounds as [|i rounds IH]; cbn [test_loop forallb]; [done|].
  pose proof (probe_range b sha i Hok Hn) as Hp. destruct Hok as [Hl Hw].
  destruct (word_in_range (bits b) (probe b sha i)) as [w Hlk]; [lia|].
  unfold bit_at at 1. rewrite Hlk. cbn [or_panic]. rewrite ret_bind. simpl default.
  pose proof (Z.mod_pos_bound (probe b sha i) 64 eq_refl).
  rewrite one_bit, land_bit by lia.
  destruct (Z.testbit w _); cbn [negb andb]; [apply IH|done].
Qed.

(** [test] is the conjunction of the probed bits. *)
Lemma test_spec b sha :
  bloom_ok b →
  test b sha = Ret (negb (bitsLen b =? 0) &&
    forallb (λ i, bit_at (bits b) (probe b sha i)) (seq 0 (k b))).
Proof.
  intros Hok. unfold test. destruct (bitsLen b =? 0) eqn:H0; [done|]. reflect_bools.
  by apply test_loop_spec.
Qed.

(** [add] sets the bits of its key and clears none. *)
Lemma add_spec b sha :
  bloom_ok b →
  ∃ b', add b sha = Ret b' ∧ bloom_ok b' ∧ bitsLen b' = bitsLen b ∧ k b' = k b ∧
    (bitsLen b ≠ 0 → test b' sha = Ret true) ∧
    ∀ s, test b s = Ret true → test b' s = Ret true.
Proof.
  intros Hok. unfold add. destruct (bitsLen b =? 0) eqn:H0; reflect_bools.
  { exists b. done. }
  destruct (add_loop_spec b sha (bits b) (seq 0 (k b)) Hok H0 eq_refl) as
    (bs & -> & Hl & Hw & Hb & Hm); [apply Hok|].
  rewrite ret_bind. exists (BloomFilter bs (bitsLen b) (k b)).
  assert (bloom_ok (BloomFilter bs (bitsLen b) (k b))) as Hok'.
  { split; [|done]. cbn [bitsLen bits]. rewrite Hl. apply Hok. }
  assert (∀ s i, probe (BloomFilter bs (bitsLen b) (k b)) s i = probe b s i) as Hp by done.
  split_and!; try done.
  - intros _. rewrite test_spec by done. f_equal. cbn [bitsLen k bits].
    apply andb_true_iff. split; [by apply negb_true_iff, Z.eqb_neq|].
    apply forallb_forall. intros i Hi. rewrite Hp. apply Hb. by apply list_elem_of_In.
  - intros s. rewrite !test_spec by done. intros [= Ht]. f_equal.
    cbn [bitsLen k bits]. apply andb_true_iff in Ht as [-> Ht]. cbn [andb].
    apply forallb_forall. intros i Hi. rewrite Hp. apply Hm.
    by eapply forallb_forall in Ht.
Qed.

(** The keys added one after the other. *)
Fixpoint add_all (b : bloomFilter) (keys : list (list byte)) : outcome unit bloomFilter :=
  match keys with
  | [] => Ret b
  | s :: keys' => b' ← add b s; add_all b' keys'
  end.

Lemma add_all_spec b keys :
  bloom_ok b → ∃ b', add_all b keys = Ret b' ∧ bloom_ok b' ∧ bitsLen b' = bitsLen b ∧
    (∀ s, bitsLen b ≠ 0 → s ∈ keys → test b' s = Ret true) ∧
    ∀ s, test b s = Ret true → test b' s = Ret true.
Proof.
  revert b. induction keys as [|s keys IH]; intros b Hok; cbn [add_all].
  { exists b. split_and!; try done. by intros ?? ?%not_elem_of_nil. }
  destruct (add_spec b s Hok) as (b1 & -> & Hok1 & Hl1 & _ & Ht1 & Hm1). rewrite ret_bind.
  destruct (IH b1 Hok1) as (b2 & -> & Hok2 & Hl2 & Ht2 & Hm2).
  exists b2. split_and!; [done|done|congruence| |auto].
  intros s' Hn [->|Hs]%elem_of_cons; [auto|]. apply Ht2; [congruence|done].
Qed.

Lemma newBloomFilter_ok fm fk n : bloom_ok (newBloomFilter fm fk n).
Proof.
  unfold newBloomFilter. destruct (n =? 0); [done|]. split.
  - cbn [bitsLen bits]. rewrite length_replicate.
    set (m := if fm n <? 64 then 64 else fm n).
    pose proof (u64_range m) as Hm. unfold is_u64 in Hm.
    set (l := if negb (u64 m mod 64 =? 0) then u64 (u64 m + (64 - u64 m mod 64)) else u64 m).
    assert (l mod 64 = 0 ∧ 0 ≤ l) as [Hl ?].
    { unfold l. destruct (u64 m mod 64 =? 0) eqn:Hr; cbn [negb]; reflect_bools; [lia|].
      split; [|apply u64_range]. unfold u64 at 1.
      change (2 ^ 64) with (64 * 2 ^ 58). rewrite Z.rem_mul_r by lia.
      rewrite Z.add_mod_idemp_l by lia.
      replace (64 * (((u64 m + (64 - u64 m mod 64)) / 64) mod 2 ^ 58))
        with ((((u64 m + (64 - u64 m mod 64)) / 64) mod 2 ^ 58) * 64) by lia.
      rewrite Z.mod_add by lia.
      pose proof (Z.div_mod (u64 m) 64).
      replace (u64 m + (64 - u64 m mod 64)) with ((u64 m / 64 + 1) * 64) by lia.
      apply Z_mod_mult. }
    pose proof (Z.div_mod l 64). pose proof (Z.div_pos l 64). lia.
  - cbn [bits]. apply Forall_replicate. done.
Qed.

(** A filter sized for some keys has bits, unless the size overflows. *)
Lemma newBloomFilter_bits fm fk n :
  n ≠ 0 → fm n < 2 ^ 63 → bitsLen (newBloomFilter fm fk n) ≠ 0.
Proof.
  intros Hn Hm. unfold newBloomFilter. destruct (Z.eqb_spec n 0); [done|]. cbn [bitsLen].
  set (m := if fm n <? 64 then 64 else fm n).
  assert (64 ≤ m < 2 ^ 63) as Hm' by (unfold m; destruct (Z.ltb_spec (fm n) 64); lia).
  rewrite (u64_id m) by (unfold is_u64; lia).
  pose proof (Z.mod_pos_bound m 64 eq_refl).
  destruct (m mod 64 =? 0); cbn [negb]; [lia|]. rewrite u64_id; [lia|]. unfold is_u64. lia.
Qed.

(** the filter has no false negative: whatever sizes the floating-point
    formulas give, adding keys never indexes outside the bit array, and every key
    added to a non-empty filter tests positive afterwards, so a negative answer
    proves absence.  The filter sized for no key at all rejects every key. *)
Theorem bloom_no_false_negative fm fk n keys :
  (∃ b, add_all (newBloomFilter fm fk n) keys = Ret b ∧
    (∀ s, is_ret (test b s) = true) ∧
    ∀ s, test b s = Ret false → bitsLen b = 0 ∨ s ∉ keys) ∧
  ∀ s, test (newBloomFilter fm fk 0) s = Ret false.
Proof.
  split; [|done].
  destruct (add_all_spec (newBloomFilter fm fk n) keys (newBloomFilter_ok fm fk n))
    as (b & -> & Hok & Hl & Hin & _).
  exists b. split_and!; [done|intros s; by rewrite test_spec|].
  intros s Ht. destruct (decide (bitsLen b = 0)) as [|Hn]; [by left|right].
  intros Hs. rewrite Hin in Ht; [done|congruence|done].
Qed.
