(* ===== verification/Tsc.v ===== *)
(** * The chunk list of a snapshot ([src/tsm/tsc.go])

    The writer that collects and deduplicates chunks, the sorted file it writes
    and the reader that parses it back.  A digest is the list of its 32 bytes. *)

From Stdlib Require Import Strings.String.
From S2P Require Import GoSort Prelude GoStrings GoIO Sha256.

Definition TSCMagic : gostring := bs "TSC" ++ [Byte.x03].
Definition TSCHeaderSize : nat := 64.
Definition TSCFooterSize : nat := 32.
Definition TSCEntrySize : nat := 40.

Record TSCEntry := MkTSCEntry {
  SHA256 : list byte;
  Size : Z;     (* [uint32] *)
  Level : Z;    (* [uint16] *)
  Flags : Z;    (* [uint16] *)
}.

#[export] Instance TSCEntry_eq_dec : EqDecision TSCEntry.
Proof. solve_decision. Defined.
#[export] Instance TSCEntry_inhabited : Inhabited TSCEntry := populate (MkTSCEntry [] 0 0 0).

(** ** The writer *)

Record TSCWriter := MkTSCWriter {
  chunks : list TSCEntry;
  chunkMap : gmap (list byte) Z;
  totalSize : Z;
}.

Definition NewTSCWriter : TSCWriter := MkTSCWriter [] ∅ 0.

Definition AddChunk (w : TSCWriter) (sha : list byte) (size level flags : Z) : Z * TSCWriter :=
  match chunkMap w !! sha with
  | Some idx => (idx, w)
  | None =>
      let idx := u32 (Z.of_nat (length (chunks w))) in
      (idx, MkTSCWriter (chunks w ++ [MkTSCEntry sha size level flags])
              (<[sha := idx]> (chunkMap w)) (u64 (totalSize w + size)))
  end.

Definition ChunkCount (w : TSCWriter) : Z := u64 (Z.of_nat (length (chunks w))).
Definition TotalChunkSize (w : TSCWriter) : Z := totalSize w.

Definition GetChunkIndex (w : TSCWriter) (sha : list byte) : Z :=
  match chunkMap w !! sha with Some idx => idx | None => -1 end.

(** [sortChunks]: the entries by digest, and where each original one went. *)
Definition sorted_indices (l : list TSCEntry) : list nat :=
  sort_by_key (λ i, SHA256 (l !!! i)) (seq 0 (length l)).

Fixpoint index_map (sorted : nat) (indices : list nat) (m : list Z) : list Z :=
  match indices with
  | [] => m
  | origIdx :: rest => index_map (sorted + 1) rest (<[origIdx := u32 (Z.of_nat sorted)]> m)
  end.

Definition sortChunks (w : TSCWriter) : list TSCEntry * list Z :=
  let indices := sorted_indices (chunks w) in
  ((λ i, chunks w !!! i) <$> indices,
   index_map 0 indices (replicate (length (chunks w)) 0)).

(** ** The file *)

Definition entry_bytes (e : TSCEntry) : list byte :=
  take 32 (SHA256 e) ++ put32 (Size e) ++ put16 (Level e) ++ put16 (Flags e).

Definition tsc_header (count total : Z) : list byte :=
  TSCMagic ++ put32 0 ++ put64 count ++ put64 total ++ put32 0 ++ put32 0
    ++ replicate 32 Byte.x00.

Definition tsc_content (count total : Z) (entries : list TSCEntry) : list byte :=
  tsc_header count total ++ concat (entry_bytes <$> entries).

Section tsc.
Context `{Digest}.

(** [Write]: the new file system and either an error or the file's digest and
    the index mapping. *)
Definition Write (fault : fs_fault) (fs : fsys) (w : TSCWriter) (path : gostring)
    : fsys * outcome io_error (list byte * list Z) :=
  let '(entries, indexMap) := sortChunks w in
  let content := tsc_content (u64 (Z.of_nat (length entries))) (totalSize w) entries in
  let fileSHA := sum256 content in
  match write_via_tmp fault fs path (content ++ fileSHA) with
  | (fs', None) => (fs', Ret (fileSHA, indexMap))
  | (fs', Some e) => (fs', Err e)
  end.

(** ** The reader *)

Record TSCHeader := MkTSCHeader {
  h_Magic : list byte;
  h_Flags : Z;
  h_ChunkCount : Z;
  h_TotalChunkSize : Z;
  h_SlabCount : Z;
  h_SlabTableOffset : Z;
}.

Record TSCReader := MkTSCReader {
  Header : TSCHeader;
  Entries : list TSCEntry;
  fileSHA256 : list byte;
}.

Inductive tsc_error :=
| tsc_too_short | tsc_bad_magic | tsc_checksum_mismatch | tsc_count_mismatch.

Definition parse_entry (data : list byte) (offset : nat) : outcome tsc_error TSCEntry :=
  sha ← or_panic (go_slice data offset (offset + 32));
  size ← field data (offset + 32) (offset + 36);
  level ← field data (offset + 36) (offset + 38);
  flags ← field data (offset + 38) (offset + 40);
  Ret (MkTSCEntry sha size level flags).

Fixpoint parse_entries (data : list byte) (offset n : nat) : outcome tsc_error (list TSCEntry) :=
  match n with
  | O => Ret []
  | S n' =>
      e ← parse_entry data offset;
      es ← parse_entries data (offset + TSCEntrySize) n';
      Ret (e :: es)
  end.

Definition ParseTSC (data : list byte) : outcome tsc_error TSCReader :=
  _ ← guard_err (length data <? TSCHeaderSize + TSCFooterSize)%nat tsc_too_short;
  magic ← or_panic (go_slice data 0 4);
  _ ← guard_err (negb (bool_decide (magic = TSCMagic))) tsc_bad_magic;
  footerSHA ← or_panic (go_slice data (length data - TSCFooterSize) (length data));
  contentData ← or_panic (go_slice data 0 (length data - TSCFooterSize));
  let computedSHA := sum256 contentData in
  _ ← guard_err (negb (bool_decide (computedSHA = footerSHA))) tsc_checksum_mismatch;
  flags ← field data 4 8;
  count ← field data 8 16;
  total ← field data 16 24;
  slabs ← field data 24 28;
  slabOffset ← field data 28 32;
  let expectedEntries := ((length contentData - TSCHeaderSize) / TSCEntrySize)%nat in
  _ ← guard_err (negb (u64 (Z.of_nat expectedEntries) =? count)) tsc_count_mismatch;
  entries ← parse_entries data TSCHeaderSize (Z.to_nat count);
  Ret (MkTSCReader (MkTSCHeader magic flags count total slabs slabOffset) entries computedSHA).

Definition LookupChunk (r : TSCReader) (sha : list byte) : option TSCEntry :=
  let idx := sort_search (length (Entries r))
    (λ i, negb (go_ltb (SHA256 (Entries r !!! i)) sha)) in
  match Entries r !! idx with
  | Some e => if bool_decide (SHA256 e = sha) then Some e else None
  | None => None
  end.

End tsc.

(** ** The writer's invariant *)

Definition entry_ok (e : TSCEntry) : Prop :=
  length (SHA256 e) = 32%nat ∧ is_u32 (Size e) ∧ is_u16 (Level e) ∧ is_u16 (Flags e).

Definition size_sum (l : list TSCEntry) : Z := foldr (λ e acc, Size e + acc) 0 l.

(** The map is the inverse of the list, no digest occurs twice, and the total is
    the sum of the sizes. *)
Record writer_ok (w : TSCWriter) : Prop := {
  ok_entries : Forall entry_ok (chunks w);
  ok_count : Z.of_nat (length (chunks w)) ≤ 2 ^ 32;
  ok_map : ∀ sha i, chunkMap w !! sha = Some i ↔
    0 ≤ i ∧ SHA256 <$> chunks w !! Z.to_nat i = Some sha;
  ok_total : totalSize w = u64 (size_sum (chunks w));
}.

Lemma size_sum_snoc l e : size_sum (l ++ [e]) = size_sum l + Size e.
Proof. unfold size_sum. induction l as [|x l IH]; cbn [foldr app]; lia. Qed.

Lemma NewTSCWriter_ok : writer_ok NewTSCWriter.
Proof.
  split; cbn [chunks chunkMap totalSize NewTSCWriter]; [done|done| |done].
  intros sha i. rewrite lookup_empty, lookup_nil. naive_solver.
Qed.

Lemma map_none_fresh w sha :
  writer_ok w → chunkMap w !! sha = None → sha ∉ SHA256 <$> chunks w.
Proof.
  intros Hok Hn Hin. apply list_elem_of_lookup in Hin as [i Hi].
  rewrite list_lookup_fmap in Hi.
  assert (chunkMap w !! sha = Some (Z.of_nat i)) as Hc.
  { apply (ok_map _ Hok). rewrite Nat2Z.id. split; [lia|done]. }
  congruence.
Qed.

Lemma writer_nodup w : writer_ok w → NoDup (SHA256 <$> chunks w).
Proof.
  intros Hok. apply NoDup_alt. intros i j sha Hi Hj. rewrite list_lookup_fmap in Hi, Hj.
  assert (∀ i, SHA256 <$> chunks w !! i = Some sha → chunkMap w !! sha = Some (Z.of_nat i)) as Hc.
  { intros k' Hk. apply (ok_map _ Hok). rewrite Nat2Z.id. split; [lia|done]. }
  apply Hc in Hi, Hj. rewrite Hi in Hj. injection Hj. lia.
Qed.

(** [AddChunk] keeps the invariant and returns an index where the digest is. *)
Lemma AddChunk_ok w sha size level flags idx w' :
  writer_ok w → entry_ok (MkTSCEntry sha size level flags) →
  Z.of_nat (length (chunks w)) < 2 ^ 32 →
  AddChunk w sha size level flags = (idx, w') →
  writer_ok w' ∧ 0 ≤ idx ∧ SHA256 <$> chunks w' !! Z.to_nat idx = Some sha ∧
  chunks w `prefix_of` chunks w' ∧
  (sha ∈ SHA256 <$> chunks w → w' = w).
Proof.
  intros Hok He Hlen. unfold AddChunk. destruct (chunkMap w !! sha) as [i|] eqn:Hm.
  - intros [= <- <-]. apply (ok_map _ Hok) in Hm as [??]. split_and!; done.
  - rewrite u32_id by (unfold is_u32; lia). intros [= <- <-].
    pose proof (map_none_fresh _ _ Hok Hm) as Hf. cbn [chunks].
    split_and!; [|lia| |by eexists|done].
    2: { rewrite Nat2Z.id, lookup_app_r, Nat.sub_diag by lia. done. }
    split; cbn [chunks chunkMap totalSize].
    + apply Forall_app. split; [apply Hok|]. by constructor.
    + rewrite length_app. cbn [length]. lia.
    + intros s i. destruct (decide (s = sha)) as [->|Hs].
      * rewrite lookup_insert_eq. split.
        { intros [= <-]. rewrite Nat2Z.id, lookup_app_r, Nat.sub_diag by lia. split; [lia|done]. }
        intros [Hi Hl]. f_equal.
        destruct (decide (Z.to_nat i < length (chunks w))%nat).
        { rewrite lookup_app_l in Hl by done. destruct Hf.
          apply list_elem_of_lookup. exists (Z.to_nat i). by rewrite list_lookup_fmap. }
        rewrite lookup_app_r in Hl by lia.
        destruct (Z.to_nat i - length (chunks w))%nat eqn:Hd; [lia|done].
      * rewrite lookup_insert_ne by congruence. rewrite (ok_map _ Hok).
        apply and_iff_compat_l.
        destruct (decide (Z.to_nat i < length (chunks w))%nat).
        { by rewrite lookup_app_l. }
        rewrite (lookup_ge_None_2 (chunks w)), lookup_app_r by lia.
        split; [done|]. intros Hl.
        destruct (Z.to_nat i - length (chunks w))%nat; [|done].
        cbn in Hl. congruence.
    + rewrite size_sum_snoc, (ok_total _ Hok). unfold u64. by rewrite Zplus_mod_idemp_l.
Qed.

(** ** Sorting *)

Lemma sorted_indices_perm l : sorted_indices l ≡ₚ seq 0 (length l).
Proof. apply sort_by_key_perm. Qed.

Lemma sorted_indices_lt l i : i ∈ sorted_indices l → (i < length l)%nat.
Proof. rewrite sorted_indices_perm, elem_of_seq. lia. Qed.

Lemma sorted_indices_nodup l : NoDup (sorted_indices l).
Proof. rewrite sorted_indices_perm. apply NoDup_seq. Qed.

Lemma length_sorted_indices l : length (sorted_indices l) = length l.
Proof. rewrite sorted_indices_perm. apply length_seq. Qed.

Lemma fmap_total_seq (l : list TSCEntry) : (λ i, l !!! i) <$> seq 0 (length l) = l.
Proof.
  apply list_eq. intros i. rewrite list_lookup_fmap.
  destruct (decide (i < length l)%nat).
  - rewrite lookup_seq_lt by done. cbn. symmetry. by apply list_lookup_lookup_total_lt.
  - rewrite !lookup_ge_None_2; [done|lia|]. rewrite length_seq. lia.
Qed.

Lemma sorted_entries_perm w : (sortChunks w).1 ≡ₚ chunks w.
Proof.
  cbn [sortChunks fst]. rewrite sorted_indices_perm. by rewrite fmap_total_seq.
Qed.

Lemma StronglySorted_map {A B} (R : B → B → Prop) (f : A → B) (l : list A) :
  StronglySorted (λ x y, R (f x) (f y)) l → StronglySorted R (f <$> l).
Proof.
  induction 1 as [|x l _ IH Hx]; cbn; constructor; [done|]. by apply Forall_fmap.
Qed.

Lemma sorted_entries_sorted w : StronglySorted (keys_le SHA256) (sortChunks w).1.
Proof.
  cbn [sortChunks fst]. apply StronglySorted_map.
  apply (sort_by_key_sorted (λ i, SHA256 (chunks w !!! i))).
Qed.

Lemma length_index_map s is_ m : length (index_map s is_ m) = length m.
Proof.
  revert s m. induction is_ as [|i is_ IH]; intros s m; cbn [index_map]; [done|].
  by rewrite IH, length_insert.
Qed.

Lemma index_map_other s is_ m i : i ∉ is_ → index_map s is_ m !! i = m !! i.
Proof.
  revert s m. induction is_ as [|j is_ IH]; intros s m; cbn [index_map]; [done|].
  intros [??]%not_elem_of_cons. rewrite IH by done. by rewrite list_lookup_insert_ne.
Qed.

Lemma index_map_lookup s is_ m j i :
  NoDup is_ → (∀ i, i ∈ is_ → (i < length m)%nat) → is_ !! j = Some i →
  index_map s is_ m !! i = Some (u32 (Z.of_nat (s + j))).
Proof.
  revert s m j. induction is_ as [|i0 is_ IH]; intros s m j Hn Hlt; [done|].
  apply NoDup_cons in Hn as [Hni Hn]. cbn [index_map].
  destruct j as [|j]; cbn [lookup list_lookup].
  - intros [= ->]. rewrite index_map_other by done.
    rewrite list_lookup_insert_eq by (apply Hlt; by left). by rewrite Nat.add_0_r.
  - intros Hj. rewrite (IH (s + 1)%nat _ j); [f_equal; f_equal; lia|done| |done].
    intros i' Hi'. rewrite length_insert. apply Hlt. by right.
Qed.

(** The mapping sends the position of a chunk to its position in the file. *)
Lemma index_map_ok w i e :
  Z.of_nat (length (chunks w)) ≤ 2 ^ 32 → chunks w !! i = Some e →
  ∃ j, (sortChunks w).2 !! i = Some (Z.of_nat j) ∧ (sortChunks w).1 !! j = Some e.
Proof.
  intros Hlen Hi. pose proof (lookup_lt_Some _ _ _ Hi) as Hil.
  assert (i ∈ sorted_indices (chunks w)) as Hin.
  { rewrite sorted_indices_perm, elem_of_seq. lia. }
  apply list_elem_of_lookup in Hin as [j Hj]. exists j. cbn [sortChunks fst snd].
  pose proof (lookup_lt_Some _ _ _ Hj) as Hjl. rewrite length_sorted_indices in Hjl.
  split.
  - rewrite (index_map_lookup 0 _ _ j i); [|apply sorted_indices_nodup| |done].
    + rewrite u32_id; [done|]. unfold is_u32. lia.
    + intros i' Hi'. rewrite length_replicate. by apply sorted_indices_lt.
  - rewrite list_lookup_fmap, Hj. cbn. by rewrite (list_lookup_total_correct _ _ _ Hi).
Qed.

Lemma sorted_map_u32 w : Forall is_u32 (sortChunks w).2.
Proof.
  cbn [sortChunks snd].
  assert (∀ l s m, Forall is_u32 m → Forall is_u32 (index_map s l m)) as Hgen.
  { induction l as [|i l IH]; intros s m Hm; cbn [index_map]; [done|].
    apply IH. apply Forall_insert; [done|apply u32_range]. }
  apply Hgen. apply Forall_replicate. unfold is_u32. lia.
Qed.

(** ** Parsing *)

Lemma length_entry_bytes e : entry_ok e → length (entry_bytes e) = TSCEntrySize.
Proof. intros (? & _). unfold entry_bytes, TSCEntrySize. len_lia. Qed.

Lemma parse_entry_bytes p e s :
  entry_ok e → parse_entry (p ++ entry_bytes e ++ s) (length p) = Ret e.
Proof.
  intros (Hsha & Hsize & Hlevel & Hflags). destruct e as [sha size level flags].
  cbn [SHA256 Size Level Flags] in *. unfold parse_entry, entry_bytes.
  cbn [SHA256 Size Level Flags]. rewrite take_ge by lia.
  rewrite (slice_at _ p sha (put32 size ++ put16 level ++ put16 flags ++ s));
    [|by rewrite <- !app_assoc|done|by rewrite Hsha].
  cbn [or_panic]. rewrite ret_bind.
  rewrite (field_at _ (p ++ sha) (put32 size) (put16 level ++ put16 flags ++ s)
    (length p + 32) (length p + 36)) by first [by rewrite <- !app_assoc|len_lia].
  rewrite ret_bind.
  rewrite (field_at _ (p ++ sha ++ put32 size) (put16 level) (put16 flags ++ s)
    (length p + 36) (length p + 38)) by first [by rewrite <- !app_assoc|len_lia].
  rewrite ret_bind.
  rewrite (field_at _ (p ++ sha ++ put32 size ++ put16 level) (put16 flags) s
    (length p + 38) (length p + 40)) by first [by rewrite <- !app_assoc|len_lia].
  rewrite ret_bind, get_put32, !get_put16.
  by rewrite u32_id, !u16_id.
Qed.

Lemma parse_entries_bytes p es s :
  Forall entry_ok es →
  parse_entries (p ++ concat (entry_bytes <$> es) ++ s) (length p) (length es) = Ret es.
Proof.
  intros Hes. revert p. induction Hes as [|e es He Hes IH]; intros p; [done|].
  cbn [fmap list_fmap concat length parse_entries]. rewrite <- app_assoc.
  rewrite parse_entry_bytes by done. rewrite ret_bind.
  replace (length p + TSCEntrySize)%nat with (length (p ++ entry_bytes e))
    by (rewrite length_app, (length_entry_bytes e) by done; done).
  rewrite (app_assoc p). by rewrite IH, ret_bind.
Qed.

Lemma length_entries es :
  Forall entry_ok es →
  length (concat (entry_bytes <$> es)) = (length es * TSCEntrySize)%nat.
Proof.
  induction 1 as [|e es He Hes IH]; [done|]. cbn [fmap list_fmap concat length].
  rewrite length_app, length_entry_bytes, IH by done. lia.
Qed.

Lemma length_tsc_header count total : length (tsc_header count total) = TSCHeaderSize.
Proof. unfold tsc_header, TSCHeaderSize, TSCMagic. len_lia. Qed.

Section parse.
Context `{Digest}.

Lemma ParseTSC_content count total es :
  Forall entry_ok es → count = Z.of_nat (length es) → is_u64 count → is_u64 total →
  ParseTSC (tsc_content count total es ++ sum256 (tsc_content count total es))
  = Ret (MkTSCReader (MkTSCHeader TSCMagic 0 count total 0 0) es
           (sum256 (tsc_content count total es))).
Proof.
  intros Hes Hcount Hc Ht. pose proof (length_tsc_header count total) as Hh.
  unfold tsc_content at 1. set (body := concat (entry_bytes <$> es)).
  set (foot := sum256 (tsc_content count total es)).
  set (data := (tsc_header count total ++ body) ++ foot).
  assert (length foot = 32)%nat as Hfoot by apply length_sum256.
  assert (length body = length es * 40)%nat as Hbody by (by apply length_entries).
  assert (length data = 64 + length body + 32)%nat as Hdata.
  { unfold data. rewrite !length_app, Hh, Hfoot. done. }
  unfold ParseTSC. rewrite guard_false_bind.
  2: { apply Nat.ltb_ge. rewrite Hdata. unfold TSCHeaderSize, TSCFooterSize. lia. }
  assert (∀ p m q a b, tsc_header count total = p ++ m ++ q →
    length p = a → b = (a + length m)%nat → go_slice data a b = Some m) as Hf.
  { intros p m q a b He. apply (slice_at _ p m (q ++ body ++ foot)).
    unfold data. rewrite He. by rewrite <- !app_assoc. }
  unfold field.
  rewrite (Hf [] TSCMagic _ 0%nat 4%nat eq_refl) by done. cbn [or_panic]. rewrite ret_bind.
  rewrite guard_false_bind by (by rewrite bool_decide_eq_true_2).
  rewrite (slice_at data (tsc_header count total ++ body) foot []
    (length data - TSCFooterSize) (length data));
    [|by rewrite app_nil_r|rewrite length_app, Hh, Hdata; unfold TSCHeaderSize, TSCFooterSize; lia
     |rewrite Hdata, Hfoot; unfold TSCFooterSize; lia].
  cbn [or_panic]. rewrite ret_bind.
  rewrite (slice_at data [] (tsc_header count total ++ body) foot
    0 (length data - TSCFooterSize));
    [|done|done|rewrite Hdata, length_app, Hh; unfold TSCHeaderSize, TSCFooterSize; cbn; lia].
  cbn [or_panic]. rewrite ret_bind.
  rewrite guard_false_bind by (by rewrite bool_decide_eq_true_2).
  rewrite (Hf TSCMagic (put32 0) _ 4%nat 8%nat eq_refl) by done.
  rewrite (Hf (TSCMagic ++ put32 0) (put64 count)
    (put64 total ++ put32 0 ++ put32 0 ++ replicate 32 Byte.x00) 8%nat 16%nat) by done.
  rewrite (Hf (TSCMagic ++ put32 0 ++ put64 count) (put64 total)
    (put32 0 ++ put32 0 ++ replicate 32 Byte.x00) 16%nat 24%nat) by done.
  rewrite (Hf (TSCMagic ++ put32 0 ++ put64 count ++ put64 total) (put32 0)
    (put32 0 ++ replicate 32 Byte.x00) 24%nat 28%nat) by done.
  rewrite (Hf (TSCMagic ++ put32 0 ++ put64 count ++ put64 total ++ put32 0) (put32 0)
    (replicate 32 Byte.x00) 28%nat 32%nat) by done.
  cbn [or_panic fmap outcome_fmap]. rewrite !ret_bind.
  rewrite !get_put64, get_put32, !u64_id by done.
  rewrite guard_false_bind.
  2: { rewrite length_app, Hh, Hbody. apply negb_false_iff, Z.eqb_eq.
       unfold TSCHeaderSize, TSCEntrySize.
       replace (64 + length es * 40 - 64)%nat with (length es * 40)%nat by lia.
       rewrite Nat.div_mul by lia. rewrite <- Hcount. by apply u64_id. }
  subst count. rewrite Nat2Z.id, <- Hh. unfold data, body. rewrite <- app_assoc.
  by rewrite parse_entries_bytes, ret_bind.
Qed.

Lemma parse_entries_no_panic data offset n :
  (offset + n * TSCEntrySize ≤ length data)%nat → no_panic (parse_entries data offset n).
Proof.
  unfold TSCEntrySize. revert offset. induction n as [|n IH]; intros offset Hl; [done|].
  cbn [parse_entries]. apply no_panic_bind.
  - unfold parse_entry, field. rewrite !go_slice_some by lia. done.
  - intros e _. apply no_panic_bind; [apply IH; unfold TSCEntrySize; lia|done].
Qed.

Lemma ParseTSC_no_panic data : no_panic (ParseTSC data).
Proof.
  unfold ParseTSC. apply no_panic_bind; [apply no_panic_guard|]. intros [] Hlen.
  apply guard_err_ret in Hlen. reflect_bools.
  unfold TSCHeaderSize, TSCFooterSize in Hlen. unfold field.
  unfold TSCFooterSize.
  rewrite !go_slice_some by lia. cbn [or_panic fmap outcome_fmap]. rewrite ret_bind.
  apply no_panic_bind; [apply no_panic_guard|]. intros _ _. rewrite !ret_bind.
  apply no_panic_bind; [apply no_panic_guard|]. intros _ _.
  apply no_panic_bind; [apply no_panic_guard|]. intros [] Hc.
  apply guard_err_ret in Hc. reflect_bools.
  set (count := be_get (take (16 - 8) (drop 8 data))) in *.
  apply no_panic_bind; [|done]. apply parse_entries_no_panic.
  rewrite length_take, drop_0 in Hc. unfold TSCHeaderSize, TSCEntrySize in *.
  set (x := ((length data - 32 - 0) `min` length data - 64)%nat) in *.
  pose proof (Nat.Div0.mul_div_le x 40). unfold u64 in Hc.
  pose proof (Z.mod_le (Z.of_nat (x / 40)) (2 ^ 64)). lia.
Qed.

End parse.

(** ** Runs of the writer *)

Fixpoint add_all (w : TSCWriter) (l : list TSCEntry) : TSCWriter :=
  match l with
  | [] => w
  | e :: l' => add_all (AddChunk w (SHA256 e) (Size e) (Level e) (Flags e)).2 l'
  end.

Lemma AddChunk_length w sha size level flags :
  (length (chunks (AddChunk w sha size level flags).2) ≤ length (chunks w) + 1)%nat.
Proof.
  unfold AddChunk. destruct (_ !! _); cbn [snd chunks]; [lia|]. rewrite length_app. cbn. lia.
Qed.

Lemma AddChunk_keys w sha size level flags s :
  writer_ok w →
  s ∈ SHA256 <$> chunks (AddChunk w sha size level flags).2 ↔ s = sha ∨ s ∈ SHA256 <$> chunks w.
Proof.
  intros Hok. unfold AddChunk. destruct (chunkMap w !! sha) as [i|] eqn:Hm; cbn [snd chunks].
  - apply (ok_map _ Hok) in Hm as [_ Hi]. split; [by right|]. intros [->|?]; [|done].
    apply list_elem_of_lookup. exists (Z.to_nat i). by rewrite list_lookup_fmap.
  - rewrite fmap_app, elem_of_app. cbn. rewrite list_elem_of_singleton. tauto.
Qed.

Lemma add_all_ok w l :
  writer_ok w → Forall entry_ok l →
  Z.of_nat (length (chunks w) + length l) ≤ 2 ^ 32 →
  writer_ok (add_all w l) ∧
  ∀ s, s ∈ SHA256 <$> chunks (add_all w l) ↔ s ∈ SHA256 <$> chunks w ∨ s ∈ SHA256 <$> l.
Proof.
  intros Hok Hl. revert w Hok. induction Hl as [|e l He Hl IH]; intros w Hok Hlen; cbn [add_all].
  { split; [done|]. intros s. cbn. rewrite elem_of_nil. tauto. }
  cbn [length] in Hlen.
  pose proof (AddChunk_length w (SHA256 e) (Size e) (Level e) (Flags e)) as Hl1.
  pose proof (λ s, AddChunk_keys w (SHA256 e) (Size e) (Level e) (Flags e) s Hok) as Hk.
  destruct (AddChunk w _ _ _ _) as [idx w'] eqn:Ha. cbn [snd] in *.
  assert (writer_ok w') as Hok'.
  { destruct e. eapply AddChunk_ok in Ha; [apply Ha|done|done|lia]. }
  destruct (IH w' Hok') as [Hok2 Hk2]; [lia|]. split; [done|].
  intros s. rewrite Hk2, Hk. cbn. rewrite elem_of_cons. tauto.
Qed.

(** A lookup in a sorted list without duplicates is membership. *)
Lemma LookupChunk_sorted (r : TSCReader) sha :
  StronglySorted (keys_le SHA256) (Entries r) → NoDup (SHA256 <$> Entries r) →
  (∀ e, e ∈ Entries r → SHA256 e = sha → LookupChunk r sha = Some e) ∧
  (sha ∉ SHA256 <$> Entries r → LookupChunk r sha = None).
Proof.
  intros Hs Hn. unfold LookupChunk.
  destruct (search_key_spec SHA256 (Entries r) sha Hs) as [Hin Hfind].
  set (idx := sort_search _ _) in *. split.
  - intros e He Hk. destruct Hfind as (x & Hx & Hkx).
    { rewrite <- Hk. by apply list_elem_of_fmap_2. }
    rewrite Hx, bool_decide_eq_true_2 by done. f_equal.
    apply (key_unique SHA256 (Entries r)); [done|by apply Hin|done|congruence].
  - intros Hnot. destruct (Entries r !! idx) as [x|] eqn:Hx; [|done].
    case_bool_decide as Hk; [|done]. destruct Hnot. rewrite <- Hk.
    apply list_elem_of_fmap_2. by eapply list_elem_of_lookup_2.
Qed.

Lemma sorted_entries_ok w : writer_ok w → Forall entry_ok (sortChunks w).1.
Proof. intros Hok. rewrite sorted_entries_perm. apply Hok. Qed.

Section write.
Context `{Digest}.

(** What a successful [Write] leaves at its path. *)
Lemma Write_file fs w path :
  writer_ok w →
  let content := tsc_content (Z.of_nat (length (chunks w))) (totalSize w) (sortChunks w).1 in
  ∃ fs', Write NoFault fs w path = (fs', Ret (sum256 content, (sortChunks w).2)) ∧
    fs' !! path = Some (content ++ sum256 content) ∧
    ParseTSC (content ++ sum256 content)
      = Ret (MkTSCReader (MkTSCHeader TSCMagic 0 (Z.of_nat (length (chunks w))) (totalSize w) 0 0)
               (sortChunks w).1 (sum256 content)).
Proof.
  intros Hok. pose proof (ok_count _ Hok). pose proof (sorted_entries_perm w) as Hp.
  apply Permutation_length in Hp. unfold Write.
  destruct (sortChunks w) as [entries indexMap] eqn:Hs. cbn [fst snd] in *.
  assert (u64 (Z.of_nat (length entries)) = Z.of_nat (length (chunks w))) as ->.
  { rewrite Hp. apply u64_id. unfold is_u64. lia. }
  cbn zeta. set (content := tsc_content _ _ _).
  destruct (write_via_tmp NoFault fs path (content ++ sum256 content)) as [fs' e] eqn:Hw.
  pose proof (write_via_tmp_atomic _ _ _ _ _ _ Hw) as [Hpath _].
  injection Hw as <- <-. eexists. split; [done|]. split; [done|].
  apply ParseTSC_content.
  - pose proof (sorted_entries_ok w Hok) as Hf. by rewrite Hs in Hf.
  - by rewrite Hp.
  - unfold is_u64. lia.
  - rewrite (ok_total _ Hok). apply u64_range.
Qed.
End write.

(** ** Properties *)

(** the writer deduplicates: after any sequence of [AddChunk] calls within the
    range of the 32-bit indices, the list holds exactly the digests that were
    added, each once; the map answers with the position of a digest, or -1 when it
    was never added; and the total is the sum of the sizes of the distinct chunks
    in [uint64] arithmetic. *)
Theorem tsc_writer_deduplicates (l : list TSCEntry)
    (Hl : Forall entry_ok l) (Hlen : Z.of_nat (length l) ≤ 2 ^ 32) :
  let w := add_all NewTSCWriter l in
  NoDup (SHA256 <$> chunks w) ∧
  (∀ s, s ∈ SHA256 <$> chunks w ↔ s ∈ SHA256 <$> l) ∧
  (∀ s, s ∉ SHA256 <$> l → GetChunkIndex w s = -1) ∧
  (∀ i e, chunks w !! i = Some e → GetChunkIndex w (SHA256 e) = Z.of_nat i) ∧
  TotalChunkSize w = u64 (size_sum (chunks w)).
Proof.
  destruct (add_all_ok NewTSCWriter l NewTSCWriter_ok Hl) as [Hok Hk]; [done|].
  cbn zeta. set (w := add_all NewTSCWriter l) in *.
  assert (∀ s, s ∈ SHA256 <$> chunks w ↔ s ∈ SHA256 <$> l) as Hkeys.
  { intros s. rewrite Hk. cbn. rewrite elem_of_nil. tauto. }
  unfold GetChunkIndex, TotalChunkSize. split_and!; [by apply writer_nodup|done| | |apply Hok].
  - intros s Hs. destruct (chunkMap w !! s) as [i|] eqn:Hm; [|done].
    apply (ok_map _ Hok) in Hm as [_ Hi]. destruct Hs. apply Hkeys.
    apply list_elem_of_lookup. exists (Z.to_nat i). by rewrite list_lookup_fmap.
  - intros i e He. replace (chunkMap w !! SHA256 e) with (Some (Z.of_nat i)); [done|].
    symmetry. apply (ok_map _ Hok). rewrite Nat2Z.id, He. split; [lia|done].
Qed.

Definition tsc_example : list TSCEntry :=
  [MkTSCEntry (replicate 32 "b"%byte) 10 1 0; MkTSCEntry (replicate 32 "a"%byte) 7 0 1;
   MkTSCEntry (replicate 32 "b"%byte) 10 1 0].

Lemma tsc_example_ok : Forall entry_ok tsc_example.
Proof. unfold tsc_example, entry_ok. repeat constructor; done. Qed.

Lemma tsc_writer_deduplicates_witness :
  length (chunks (add_all NewTSCWriter tsc_example)) = 2%nat ∧
  NoDup (SHA256 <$> chunks (add_all NewTSCWriter tsc_example)).
Proof.
  split; [done|]. apply (tsc_writer_deduplicates tsc_example); [apply tsc_example_ok|].
  vm_compute. discriminate.
Defined.

(** a chunk list that was written is read back: parsing the file a successful
    [Write] leaves at its path succeeds; the parsed digest is the one [Write]
    returned; the entries are the writer's, sorted by digest; the returned mapping
    sends the index of every chunk to its position in the file; and the binary
    search finds every chunk and nothing else. *)
Theorem tsc_write_read_back `{Digest} fs path (l : list TSCEntry)
    (Hl : Forall entry_ok l) (Hlen : Z.of_nat (length l) ≤ 2 ^ 32) :
  let w := add_all NewTSCWriter l in
  ∃ fs' sha indexMap data r,
    Write NoFault fs w path = (fs', Ret (sha, indexMap)) ∧ fs' !! path = Some data ∧
    ParseTSC data = Ret r ∧ fileSHA256 r = sha ∧
    Entries r ≡ₚ chunks w ∧ StronglySorted (keys_le SHA256) (Entries r) ∧
    (∀ i e, chunks w !! i = Some e →
       ∃ j, indexMap !! i = Some (Z.of_nat j) ∧ Entries r !! j = Some e) ∧
    (∀ e, e ∈ chunks w → LookupChunk r (SHA256 e) = Some e) ∧
    (∀ s, s ∉ SHA256 <$> l → LookupChunk r s = None).
Proof.
  destruct (add_all_ok NewTSCWriter l NewTSCWriter_ok Hl) as [Hok Hk]; [done|].
  cbn zeta. set (w := add_all NewTSCWriter l) in *.
  destruct (Write_file fs w path Hok) as (fs' & Hw & Hpath & Hparse).
  eexists fs', _, _, _, _. split_and!; [exact Hw|exact Hpath|exact Hparse|done| | | | |];
    cbn [Entries].
  - apply sorted_entries_perm.
  - apply sorted_entries_sorted.
  - intros i e. by apply index_map_ok, Hok.
  - intros e He. apply LookupChunk_sorted; cbn [Entries]; [apply sorted_entries_sorted| | |done].
    + rewrite sorted_entries_perm. by apply writer_nodup.
    + by rewrite sorted_entries_perm.
  - intros s Hs. apply LookupChunk_sorted; cbn [Entries]; [apply sorted_entries_sorted| |].
    + rewrite sorted_entries_perm. by apply writer_nodup.
    + rewrite sorted_entries_perm, Hk. cbn. rewrite elem_of_nil. tauto.
Qed.

Lemma tsc_write_read_back_witness :
  ∃ fs' sha indexMap data r,
    Write (H := sha256_digest) NoFault ∅ (add_all NewTSCWriter tsc_example) (bs "x.tsc")
      = (fs', Ret (sha, indexMap)) ∧
    fs' !! bs "x.tsc" = Some data ∧ ParseTSC (H := sha256_digest) data = Ret r ∧
    LookupChunk r (replicate 32 "a"%byte) = Some (MkTSCEntry (replicate 32 "a"%byte) 7 0 1).
Proof.
  destruct (tsc_write_read_back (H := sha256_digest) ∅ (bs "x.tsc") tsc_example)
    as (fs' & sha & indexMap & data & r & Hw & Hp & Hr & _ & _ & _ & _ & Hf & _).
  - apply tsc_example_ok.
  - vm_compute. discriminate.
  - exists fs', sha, indexMap, data, r. split_and!; [done|done|done|].
    apply (Hf (MkTSCEntry (replicate 32 "a"%byte) 7 0 1)). vm_compute. right. by left.
Defined.

(** parsing is safe on any bytes: it never panics; what it accepts ends in the
    digest of everything before it, which is the digest it reports; and a write
    that fails at any step leaves the previous chunk list in place. *)
Theorem tsc_parse_safe `{Digest} data :
  no_panic (ParseTSC data) ∧
  (∀ r, ParseTSC data = Ret r →
    data = take (length data - TSCFooterSize) data ++ fileSHA256 r ∧
    fileSHA256 r = sum256 (take (length data - TSCFooterSize) data)) ∧
  (∀ fault fs w path, fault ≠ NoFault →
    ∃ fs', Write fault fs w path = (fs', Err ErrWrite) ∧ fs' !! path = fs !! path).
Proof.
  split_and!; [apply ParseTSC_no_panic| |].
  - intros r Hr. unfold ParseTSC in Hr. inv_ret. reflect_bools.
    repeat match goal with Hx : or_panic _ = Ret _ |- _ =>
      apply or_panic_ret in Hx end.
    cbn [fileSHA256].
    rename select (go_slice data 0 _ = Some _) into Hc.
    rename select (go_slice data (length data - TSCFooterSize) _ = Some _) into Hf.
    unfold TSCHeaderSize, TSCFooterSize in *.
    rewrite go_slice_some in Hc by lia. rewrite go_slice_some in Hf by lia.
    injection Hc as <-. injection Hf as <-.
    rename select (sum256 _ = _) into Hs. rewrite Hs.
    rewrite drop_0, Nat.sub_0_r in *. split; [|done].
    rewrite <- (take_drop (length data - 32) data) at 1. f_equal.
    rewrite take_ge; [done|]. len_lia.
  - intros fault fs w path Hf. unfold Write. destruct (sortChunks w) as [entries im].
    destruct (write_via_tmp fault fs path _) as [fs' e] eqn:Hw. exists fs'.
    pose proof (write_via_tmp_atomic _ _ _ _ _ _ Hw) as [Hp _].
    destruct fault; [done|..]; injection Hw as <- <-; done.
Qed.
