(* ===== verification/Tsm.v ===== *)
(** * Snapshot manifests ([src/tsm/tsm.go])

    The manifest writer, its entry codec, the parser and the change-time patcher.
    A Go slice that is re-sliced past its length but within its capacity reads the
    bytes behind it: [decodeEntry] is therefore given the bytes from the start of
    the entry to the end of the file, and the entry's length. *)

From Stdlib Require Import Strings.String.
From S2P Require Import GoSort Prelude GoStrings GoIO Sha256 Tsc.

Definition TSMMagic : gostring := bs "TSM" ++ [Byte.x03].
Definition TSMHeaderSize : nat := 64.
Definition TSMFooterSize : nat := 64.

(** Entry types are the [uint8] values of the source. *)
Definition EntryTypeFile : Z := 0.
Definition EntryTypeDir : Z := 1.
Definition EntryTypeSymlink : Z := 2.
Definition EntryTypeHardlink : Z := 3.
Definition EntryTypeBlockDev : Z := 4.
Definition EntryTypeCharDev : Z := 5.
Definition EntryTypeFifo : Z := 6.
Definition EntryTypeSocket : Z := 7.

Definition EntryType_String (t : Z) : gostring :=
  if t =? EntryTypeFile then bs "file"
  else if t =? EntryTypeDir then bs "dir"
  else if t =? EntryTypeSymlink then bs "symlink"
  else if t =? EntryTypeHardlink then bs "hardlink"
  else if t =? EntryTypeBlockDev then bs "blockdev"
  else if t =? EntryTypeCharDev then bs "chardev"
  else if t =? EntryTypeFifo then bs "fifo"
  else if t =? EntryTypeSocket then bs "socket"
  else bs "unknown(" ++ fmt_int t ++ bs ")".

Definition is_device (t : Z) : bool := (t =? EntryTypeBlockDev) || (t =? EntryTypeCharDev).

Record TSMEntry := MkTSMEntry {
  Path : gostring;
  Type_ : Z;
  EFlags : Z;
  Mode : Z;
  UID : Z;
  GID : Z;
  ESize : Z;
  Mtime : Z;
  Ctime : Z;
  Atime : Z;
  ChunkStart : Z;
  EChunkCount : Z;
  ChunkRefs : list Z;
  LinkTarget : gostring;
  LinkIndex : Z;
  DevMajor : Z;
  DevMinor : Z;
}.

#[export] Instance TSMEntry_eq_dec : EqDecision TSMEntry.
Proof. solve_decision. Defined.
#[export] Instance TSMEntry_inhabited : Inhabited TSMEntry :=
  populate (MkTSMEntry [] 0 0 0 0 0 0 0 0 0 0 0 [] [] 0 0 0).

Definition set_ctime (e : TSMEntry) (c : Z) : TSMEntry :=
  MkTSMEntry (Path e) (Type_ e) (EFlags e) (Mode e) (UID e) (GID e) (ESize e) (Mtime e) c
    (Atime e) (ChunkStart e) (EChunkCount e) (ChunkRefs e) (LinkTarget e) (LinkIndex e)
    (DevMajor e) (DevMinor e).
Definition set_atime (e : TSMEntry) (a : Z) : TSMEntry :=
  MkTSMEntry (Path e) (Type_ e) (EFlags e) (Mode e) (UID e) (GID e) (ESize e) (Mtime e)
    (Ctime e) a (ChunkStart e) (EChunkCount e) (ChunkRefs e) (LinkTarget e) (LinkIndex e)
    (DevMajor e) (DevMinor e).
Definition set_chunks (e : TSMEntry) (start count : Z) (refs : list Z) : TSMEntry :=
  MkTSMEntry (Path e) (Type_ e) (EFlags e) (Mode e) (UID e) (GID e) (ESize e) (Mtime e)
    (Ctime e) (Atime e) start count refs (LinkTarget e) (LinkIndex e)
    (DevMajor e) (DevMinor e).

(** ** The entry codec *)

(** The type-specific tail of an entry. *)
Definition type_data (e : TSMEntry) : list byte :=
  if Type_ e =? EntryTypeSymlink then
    put16 (Z.of_nat (length (LinkTarget e))) ++ LinkTarget e
  else if Type_ e =? EntryTypeHardlink then put32 (LinkIndex e)
  else if is_device (Type_ e) then put32 (DevMajor e) ++ put32 (DevMinor e)
  else [].

Definition typeDataSize (e : TSMEntry) : nat :=
  if Type_ e =? EntryTypeSymlink then (2 + length (LinkTarget e))%nat
  else if Type_ e =? EntryTypeHardlink then 4%nat
  else if is_device (Type_ e) then 8%nat else 0%nat.

Definition entry_size (e : TSMEntry) : nat := (58 + length (Path e) + typeDataSize e)%nat.

(** The fields between the path and the type-specific data. *)
Definition entry_fields (e : TSMEntry) : list byte :=
  put16 (Z.lor (Type_ e) (EFlags e)) ++ put32 (Mode e) ++ put32 (UID e) ++ put32 (GID e)
    ++ put64 (ESize e) ++ put64 (u64 (Mtime e)) ++ put64 (u64 (Ctime e))
    ++ put64 (u64 (Atime e)) ++ put32 (ChunkStart e) ++ put32 (EChunkCount e).

Definition encodeEntry (e : TSMEntry) : list byte :=
  put16 (Z.of_nat (entry_size e)) ++ put16 (Z.of_nat (length (Path e))) ++ Path e
    ++ entry_fields e ++ type_data e.

Definition encodeEntryForHash (e : TSMEntry) : list byte :=
  encodeEntry (set_atime (set_ctime e 0) 0).

Inductive tsm_error :=
| tsm_too_short | tsm_bad_magic | tsm_unexpected_end (offset : nat)
| tsm_bad_entry_length (entryLen : Z) (offset : nat) | tsm_entry_beyond_file (offset : nat)
| tsm_entry_too_short | tsm_path_beyond_entry | tsm_symlink_too_short | tsm_target_beyond_entry
| tsm_hardlink_too_short | tsm_device_too_short | tsm_decoding (offset : nat) (e : tsm_error)
| tsm_table_size | tsm_checksum_mismatch | tsm_refs_out_of_range (path : gostring)
| tsm_path_beyond_content (offset : nat) | tsm_ctime_beyond_content (offset : nat)
| tsm_out_of_fuel.

(** The type-specific reads of [decodeEntry], at the end of the common fields. *)
Definition decode_tail (back : list byte) (len o : nat) (typ : Z)
    (entry : gostring → Z → Z → Z → TSMEntry) : outcome tsm_error TSMEntry :=
  if typ =? EntryTypeSymlink then
    _ ← guard_err (len <? o + 2)%nat tsm_symlink_too_short;
    targetLen' ← field back o (o + 2);
    let targetLen := Z.to_nat targetLen' in
    _ ← guard_err (len <? o + 2 + targetLen)%nat tsm_target_beyond_entry;
    target ← or_panic (go_slice back (o + 2) (o + 2 + targetLen));
    Ret (entry target 0 0 0)
  else if typ =? EntryTypeHardlink then
    _ ← guard_err (len <? o + 4)%nat tsm_hardlink_too_short;
    index ← field back o (o + 4);
    Ret (entry [] index 0 0)
  else if is_device typ then
    _ ← guard_err (len <? o + 8)%nat tsm_device_too_short;
    major ← field back o (o + 4);
    minor ← field back (o + 4) (o + 8);
    Ret (entry [] 0 major minor)
  else Ret (entry [] 0 0 0).

(** [decodeEntry(data)]: [back] is the memory from the start of the slice, of which
    the first [len] bytes are the slice. *)
Definition decodeEntry (back : list byte) (len : nat) : outcome tsm_error TSMEntry :=
  _ ← guard_err (len <? 58)%nat tsm_entry_too_short;
  pathLen' ← field back 2 4;
  let pathLen := Z.to_nat pathLen' in
  _ ← guard_err (len <? 4 + pathLen)%nat tsm_path_beyond_entry;
  path ← or_panic (go_slice back 4 (4 + pathLen));
  let o := (4 + pathLen)%nat in
  typeFlags ← field back o (o + 2);
  let typ := Z.land typeFlags 15 in
  let flags := Z.land typeFlags 65520 in
  mode ← field back (o + 2) (o + 6);
  uid ← field back (o + 6) (o + 10);
  gid ← field back (o + 10) (o + 14);
  size ← field back (o + 14) (o + 22);
  mtime ← field back (o + 22) (o + 30);
  ctime ← field back (o + 30) (o + 38);
  atime ← field back (o + 38) (o + 46);
  start ← field back (o + 46) (o + 50);
  count ← field back (o + 50) (o + 54);
  let o := (o + 54)%nat in
  let entry target index major minor :=
    MkTSMEntry path typ flags mode uid gid size (i64 mtime) (i64 ctime) (i64 atime)
      start count [] target index major minor in
  decode_tail back len o typ entry.

(** ** The writer *)

Record TSMWriter := MkTSMWriter {
  entries : list TSMEntry;
  fileCount : Z;
  wTotalSize : Z;
  wflags : Z;
  creationTime : Z;
  fsUUID : list byte;
}.

Definition NewTSMWriter (now : Z) : TSMWriter :=
  MkTSMWriter [] 0 0 0 now (replicate 8 Byte.x00).
Definition SetCreationTime (w : TSMWriter) (t : Z) : TSMWriter :=
  MkTSMWriter (entries w) (fileCount w) (wTotalSize w) (wflags w) t (fsUUID w).
Definition SetFSUUID (w : TSMWriter) (uuid : list byte) : TSMWriter :=
  MkTSMWriter (entries w) (fileCount w) (wTotalSize w) (wflags w) (creationTime w) uuid.

Definition AddEntry (w : TSMWriter) (e : TSMEntry) : TSMWriter :=
  MkTSMWriter (entries w ++ [e]) (u64 (fileCount w + 1))
    (if Type_ e =? EntryTypeFile then u64 (wTotalSize w + ESize e) else wTotalSize w)
    (wflags w) (creationTime w) (fsUUID w).

Definition EntryCount (w : TSMWriter) : Z := fileCount w.
Definition TotalSize (w : TSMWriter) : Z := wTotalSize w.

Definition sortEntries (l : list TSMEntry) : list TSMEntry := sort_by_key Path l.

(** The new index of a chunk; a missing map or entry keeps the old one. *)
Definition map_ref (indexMap : list Z) (origIdx : Z) : Z :=
  if (Z.to_nat origIdx <? length indexMap)%nat then indexMap !!! Z.to_nat origIdx else origIdx.

(** The chunk reference table: the entries with their [ChunkStart] assigned, and
    the table, [table] being what is filled already. *)
Fixpoint build_refs (indexMap : list Z) (table : list Z) (l : list TSMEntry)
    : list TSMEntry * list Z :=
  match l with
  | [] => ([], table)
  | e :: l' =>
      if (0 <? EChunkCount e) && (0 <? length (ChunkRefs e))%nat then
        let e' := set_chunks e (u32 (Z.of_nat (length table)))
                    (u32 (Z.of_nat (length (ChunkRefs e)))) (ChunkRefs e) in
        let '(rest, table') := build_refs indexMap (table ++ (map_ref indexMap <$> ChunkRefs e)) l' in
        (e' :: rest, table')
      else
        let '(rest, table') := build_refs indexMap table l' in (e :: rest, table')
  end.

Definition tsm_header (w : TSMWriter) (tscSHA : list byte) : list byte :=
  TSMMagic ++ put32 (wflags w) ++ put64 (fileCount w) ++ put64 (wTotalSize w)
    ++ take 8 tscSHA ++ put64 (u64 (creationTime w)) ++ take 8 (fsUUID w)
    ++ replicate 16 Byte.x00.

Definition table_bytes (table : list Z) : list byte := concat (put32 <$> table).

Section tsm.
Context `{Digest}.

(** What the digest is computed over: the file with the change and access times
    zeroed, up to the footer. *)
Definition hashed_content (header : list byte) (es : list TSMEntry) (table : list Z) : list byte :=
  header ++ concat (encodeEntryForHash <$> es) ++ table_bytes table.

Definition file_bytes (header : list byte) (es : list TSMEntry) (table : list Z)
    (tscSHA : list byte) : list byte :=
  header ++ concat (encodeEntry <$> es) ++ table_bytes table
    ++ sum256 (hashed_content header es table) ++ tscSHA.

(** [Write]: sorts the entries, assigns the chunk references and replaces the
    file; the writer keeps the sorted, assigned entries. *)
Definition Write (fault : fs_fault) (fs : fsys) (w : TSMWriter) (path : gostring)
    (tscSHA : list byte) (indexMap : list Z)
    : fsys * TSMWriter * outcome io_error (list byte) :=
  let '(es, table) := build_refs indexMap [] (sortEntries (entries w)) in
  let w' := MkTSMWriter es (fileCount w) (wTotalSize w) (wflags w) (creationTime w) (fsUUID w) in
  let header := tsm_header w tscSHA in
  match write_via_tmp fault fs path (file_bytes header es table tscSHA) with
  | (fs', None) => (fs', w', Ret (sum256 (hashed_content header es table)))
  | (fs', Some e) => (fs', w', Err e)
  end.

(** ** The reader *)

Record TSMHeader := MkTSMHeader {
  th_Magic : list byte;
  th_Flags : Z;
  th_FileCount : Z;
  th_TotalSize : Z;
  th_ChunkFileRef : list byte;
  th_CreationTime : Z;
  th_SourceFSUUID : list byte;
}.

Record TSMReader := MkTSMReader {
  rHeader : TSMHeader;
  rEntries : list TSMEntry;
  ChunkRefTable : list Z;
  rSHA256 : list byte;
  TSCSHA : list byte;
}.

(** The entry loop of [ParseTSM], [count] entries still to come; each entry is at
    least 58 bytes long, so the length of the data bounds the iterations. *)
Fixpoint parse_entries (fuel : nat) (data : list byte) (contentLen offset : nat) (count : Z)
    : outcome tsm_error (list TSMEntry * nat) :=
  match fuel with
  | O => Err tsm_out_of_fuel
  | S fuel' =>
      if 0 <? count then
        _ ← guard_err (contentLen <? offset + 2)%nat (tsm_unexpected_end offset);
        entryLen ← field data offset (offset + 2);
        _ ← guard_err (entryLen <? 58) (tsm_bad_entry_length entryLen offset);
        let entryLen := Z.to_nat entryLen in
        _ ← guard_err (contentLen <? offset + entryLen)%nat (tsm_entry_beyond_file offset);
        entry ← wrap_err (tsm_decoding offset) (decodeEntry (drop offset data) entryLen);
        '(es, end_) ← parse_entries fuel' data contentLen (offset + entryLen) (count - 1);
        Ret (entry :: es, end_)
      else Ret ([], offset)
  end.

Fixpoint parse_table (data : list byte) (offset n : nat) : outcome tsm_error (list Z) :=
  match n with
  | O => Ret []
  | S n' =>
      x ← field data offset (offset + 4);
      xs ← parse_table data (offset + 4) n';
      Ret (x :: xs)
  end.

(** The chunk references of each entry, out of the table. *)
Definition populate_entry (table : list Z) (e : TSMEntry) : outcome tsm_error TSMEntry :=
  if 0 <? EChunkCount e then
    let start := Z.to_nat (ChunkStart e) in
    let end_ := (start + Z.to_nat (EChunkCount e))%nat in
    _ ← guard_err (length table <? end_)%nat (tsm_refs_out_of_range (Path e));
    refs ← or_panic (go_slice table start end_);
    Ret (set_chunks e (ChunkStart e) (EChunkCount e) refs)
  else Ret e.

Fixpoint populate_entries (table : list Z) (es : list TSMEntry)
    : outcome tsm_error (list TSMEntry) :=
  match es with
  | [] => Ret []
  | e :: es' =>
      e' ← populate_entry table e;
      rest ← populate_entries table es';
      Ret (e' :: rest)
  end.

Definition ParseTSM (data : list byte) : outcome tsm_error TSMReader :=
  _ ← guard_err (length data <? TSMHeaderSize + TSMFooterSize)%nat tsm_too_short;
  magic ← or_panic (go_slice data 0 4);
  _ ← guard_err (negb (bool_decide (magic = TSMMagic))) tsm_bad_magic;
  footer ← or_panic (go_slice data (length data - TSMFooterSize) (length data));
  let contentLen := (length data - TSMFooterSize)%nat in
  tscSHA ← or_panic (go_slice footer 32 64);
  flags ← field data 4 8;
  count ← field data 8 16;
  total ← field data 16 24;
  ref ← or_panic (go_slice data 24 32);
  created ← field data 32 40;
  uuid ← or_panic (go_slice data 40 48);
  '(es, offset) ← parse_entries (length data) data contentLen TSMHeaderSize count;
  let chunkRefDataLen := (contentLen - offset)%nat in
  _ ← guard_err (negb (chunkRefDataLen mod 4 =? 0)%nat) tsm_table_size;
  table ← parse_table data offset (chunkRefDataLen / 4);
  header ← or_panic (go_slice data 0 TSMHeaderSize);
  let computedSHA := sum256 (hashed_content header es table) in
  sha ← or_panic (go_slice footer 0 32);
  _ ← guard_err (negb (bool_decide (computedSHA = sha))) tsm_checksum_mismatch;
  es' ← populate_entries table es;
  Ret (MkTSMReader (MkTSMHeader magic flags count total ref (i64 created) uuid)
         es' table computedSHA tscSHA).

(** ** Patching change times *)

(** [binary.BigEndian.PutUint64(out[a:a+8], v)]. *)
Definition put64_at (out : list byte) (a : nat) (v : Z) : outcome tsm_error (list byte) :=
  _ ← or_panic (go_slice out a (a + 8));
  Ret (take a out ++ put64 v ++ drop (a + 8) out).

Fixpoint patch_loop (fuel : nat) (tsmData : list byte) (contentLen offset : nat) (count : Z)
    (ctimes : gmap gostring Z) (out : list byte) : outcome tsm_error (list byte) :=
  match fuel with
  | O => Err tsm_out_of_fuel
  | S fuel' =>
      if 0 <? count then
        _ ← guard_err (contentLen <? offset + 4)%nat (tsm_unexpected_end offset);
        entryLen ← field tsmData offset (offset + 2);
        _ ← guard_err (entryLen <? 58) (tsm_bad_entry_length entryLen offset);
        let entryLen := Z.to_nat entryLen in
        _ ← guard_err (contentLen <? offset + entryLen)%nat (tsm_entry_beyond_file offset);
        pathLen ← field tsmData (offset + 2) (offset + 4);
        let pathLen := Z.to_nat pathLen in
        _ ← guard_err (contentLen <? offset + 4 + pathLen)%nat (tsm_path_beyond_content offset);
        path ← or_panic (go_slice tsmData (offset + 4) (offset + 4 + pathLen));
        out' ← (match ctimes !! path with
                | Some ctime =>
                    let ctimeOffset := (offset + 34 + pathLen)%nat in
                    _ ← guard_err (contentLen <? ctimeOffset + 8)%nat
                          (tsm_ctime_beyond_content offset);
                    put64_at out ctimeOffset (u64 ctime)
                | None => Ret out
                end);
        patch_loop fuel' tsmData contentLen (offset + entryLen) (count - 1) ctimes out'
      else Ret out
  end.

Definition PatchEntryCtimes (tsmData : list byte) (ctimes : gmap gostring Z)
    : outcome tsm_error (list byte) :=
  _ ← guard_err (length tsmData <? TSMHeaderSize + TSMFooterSize)%nat tsm_too_short;
  fileCount ← field tsmData 8 16;
  patch_loop (length tsmData) tsmData (length tsmData - TSMFooterSize) TSMHeaderSize
    fileCount ctimes tsmData.

(** ** Lookups *)

Definition LookupPath (r : TSMReader) (path : gostring) : option TSMEntry :=
  let idx := sort_search (length (rEntries r))
    (λ i, negb (go_ltb (Path (rEntries r !!! i)) path)) in
  match rEntries r !! idx with
  | Some e => if bool_decide (Path e = path) then Some e else None
  | None => None
  end.

(** [GetFileChunkSHAs]: a reference beyond the chunk list gives the zero digest. *)
Definition GetFileChunkSHAs (e : TSMEntry) (tsc : TSCReader) : list (list byte) :=
  if (EChunkCount e =? 0) || bool_decide (ChunkRefs e = []) then []
  else (λ tscIdx,
          if (Z.to_nat tscIdx <? length (Entries tsc))%nat
          then SHA256 (Entries tsc !!! Z.to_nat tscIdx)
          else replicate 32 Byte.x00) <$> ChunkRefs e.

End tsm.

(** ** The entry codec is a round trip *)

(** What the format can hold: the 16-bit lengths, the widths of the fields, a type
    in the low nibble and flags above it, and type-specific data only for the
    types that have them. *)
Record entry_ok (e : TSMEntry) : Prop := {
  eo_size : Z.of_nat (entry_size e) < 2 ^ 16;
  eo_type : 0 ≤ Type_ e < 16;
  eo_flags : is_u16 (EFlags e) ∧ Z.land (EFlags e) 15 = 0;
  eo_mode : is_u32 (Mode e);
  eo_uid : is_u32 (UID e);
  eo_gid : is_u32 (GID e);
  eo_esize : is_u64 (ESize e);
  eo_mtime : is_i64 (Mtime e);
  eo_ctime : is_i64 (Ctime e);
  eo_atime : is_i64 (Atime e);
  eo_start : is_u32 (ChunkStart e);
  eo_count : is_u32 (EChunkCount e);
  eo_target : Type_ e ≠ EntryTypeSymlink → LinkTarget e = [];
  eo_index : is_u32 (LinkIndex e) ∧ (Type_ e ≠ EntryTypeHardlink → LinkIndex e = 0);
  eo_dev : is_u32 (DevMajor e) ∧ is_u32 (DevMinor e) ∧
    (is_device (Type_ e) = false → DevMajor e = 0 ∧ DevMinor e = 0);
}.

Definition clear_refs (e : TSMEntry) : TSMEntry :=
  set_chunks e (ChunkStart e) (EChunkCount e) [].

(** Reading a field of data given piece by piece. *)
Lemma field_piece {E} (ps : list (list byte)) i m a b :
  ps !! i = Some m → length (concat (take i ps)) = a → b = (a + length m)%nat →
  field (E := E) (concat ps) a b = Ret (be_get m).
Proof.
  intros Hi Ha Hb.
  apply (field_at _ (concat (take i ps)) m (concat (drop (S i) ps))); [|done|done].
  rewrite <- (take_drop i ps) at 1. rewrite concat_app. f_equal.
  by rewrite (drop_S _ _ _ Hi).
Qed.

Lemma slice_piece (ps : list (list byte)) i m a b :
  ps !! i = Some m → length (concat (take i ps)) = a → b = (a + length m)%nat →
  go_slice (concat ps) a b = Some m.
Proof.
  intros Hi Ha Hb.
  apply (slice_at _ (concat (take i ps)) m (concat (drop (S i) ps))); [|done|done].
  rewrite <- (take_drop i ps) at 1. rewrite concat_app. f_equal.
  by rewrite (drop_S _ _ _ Hi).
Qed.

(** Side conditions of the two: the piece by computation, offsets by lengths. *)
Ltac piece := first [reflexivity | cbn [take concat]; len_lia].

Definition entry_pieces (e : TSMEntry) (tail : list (list byte)) : list (list byte) :=
  put16 (Z.of_nat (entry_size e)) :: put16 (Z.of_nat (length (Path e))) :: Path e
    :: put16 (Z.lor (Type_ e) (EFlags e)) :: put32 (Mode e) :: put32 (UID e) :: put32 (GID e)
    :: put64 (ESize e) :: put64 (u64 (Mtime e)) :: put64 (u64 (Ctime e))
    :: put64 (u64 (Atime e)) :: put32 (ChunkStart e) :: put32 (EChunkCount e) :: tail.

Lemma entry_pieces_concat e tail :
  concat (entry_pieces e (type_data e :: tail)) = encodeEntry e ++ concat tail.
Proof. unfold entry_pieces, encodeEntry, entry_fields. cbn [concat]. by rewrite <- !app_assoc. Qed.

Lemma length_type_data e : length (type_data e) = typeDataSize e.
Proof.
  unfold type_data, typeDataSize. destruct (Type_ e =? EntryTypeSymlink); [len_lia|].
  destruct (Type_ e =? EntryTypeHardlink); [len_lia|]. destruct (is_device _); len_lia.
Qed.

Lemma length_encodeEntry e : length (encodeEntry e) = entry_size e.
Proof.
  unfold encodeEntry, entry_fields, entry_size. rewrite <- length_type_data. len_lia.
Qed.

Lemma land_type t f : 0 ≤ t < 16 → Z.land f 15 = 0 → Z.land (Z.lor t f) 15 = t.
Proof.
  intros Ht Hf. rewrite Z.land_lor_distr_l, Hf, Z.lor_0_r.
  change 15 with (Z.ones 4). rewrite Z.land_ones by lia. by apply Z.mod_small.
Qed.

Lemma land_flags t f :
  0 ≤ t < 16 → is_u16 f → Z.land f 15 = 0 → Z.land (Z.lor t f) 65520 = f.
Proof.
  intros Ht Hf Hf0. rewrite Z.land_lor_distr_l.
  assert (Z.land t 65520 = 0) as ->.
  { assert (Z.land t 15 = t) as <-.
    { change 15 with (Z.ones 4). rewrite Z.land_ones by lia. by apply Z.mod_small. }
    rewrite <- Z.land_assoc. change (Z.land 15 65520) with 0. apply Z.land_0_r. }
  rewrite Z.lor_0_l.
  assert (Z.land f 65535 = f) as Hff.
  { change 65535 with (Z.ones 16). rewrite Z.land_ones by lia. by apply Z.mod_small. }
  change 65535 with (Z.lor 65520 15) in Hff.
  by rewrite Z.land_lor_distr_r, Hf0, Z.lor_0_r in Hff.
Qed.

Lemma lor_type_flags_u16 t f : 0 ≤ t < 16 → is_u16 f → is_u16 (Z.lor t f).
Proof.
  unfold is_u16. intros Ht Hf.
  assert (0 ≤ Z.lor t f) by (apply Z.lor_nonneg; lia). split; [done|].
  destruct (decide (Z.lor t f = 0)) as [->|]; [done|].
  apply Z.log2_lt_pow2; [lia|]. rewrite Z.log2_lor by lia. apply Z.max_lub_lt.
  - destruct (decide (t = 0)) as [->|]; [done|]. apply Z.log2_lt_pow2; lia.
  - destruct (decide (f = 0)) as [->|]; [done|]. apply Z.log2_lt_pow2; lia.
Qed.

Lemma decode_tail_ok e p s mk :
  entry_ok e →
  decode_tail (p ++ type_data e ++ s) (length p + typeDataSize e) (length p) (Type_ e) mk
  = Ret (mk (LinkTarget e) (LinkIndex e) (DevMajor e) (DevMinor e)).
Proof.
  intros [Hsz _ _ _ _ _ _ _ _ _ _ _ Htg [Hix Hix0] (Hmaj & Hmin & Hdev)].
  unfold decode_tail, typeDataSize, type_data.
  destruct (Type_ e =? EntryTypeSymlink) eqn:Hsym; reflect_bools.
  { unfold entry_size, typeDataSize in Hsz. rewrite Hsym in Hsz. cbn in Hsz.
    assert (Type_ e ≠ EntryTypeHardlink ∧ is_device (Type_ e) = false) as [Hh Hd]
      by (rewrite Hsym; done).
    rewrite Hix0 by done. destruct (Hdev Hd) as [-> ->].
    rewrite guard_false_bind by (apply Nat.ltb_ge; lia).
    rewrite (field_at _ p (put16 (Z.of_nat (length (LinkTarget e)))) (LinkTarget e ++ s)
      (length p) (length p + 2)) by first [by rewrite <- !app_assoc|len_lia].
    rewrite ret_bind, get_put16, u16_id, Nat2Z.id by (unfold is_u16; lia).
    rewrite guard_false_bind by (apply Nat.ltb_ge; lia).
    rewrite (slice_at _ (p ++ put16 (Z.of_nat (length (LinkTarget e)))) (LinkTarget e) s)
      by first [by rewrite <- !app_assoc|len_lia].
    done. }
  rewrite Htg by done.
  destruct (Type_ e =? EntryTypeHardlink) eqn:Hhl; reflect_bools.
  { assert (is_device (Type_ e) = false) as Hd by (rewrite Hhl; done).
    destruct (Hdev Hd) as [-> ->].
    rewrite guard_false_bind by (apply Nat.ltb_ge; lia).
    rewrite (field_at _ p (put32 (LinkIndex e)) s) by first [done|len_lia].
    by rewrite ret_bind, get_put32, u32_id. }
  rewrite Hix0 by done.
  destruct (is_device (Type_ e)) eqn:Hd.
  { rewrite guard_false_bind by (apply Nat.ltb_ge; lia).
    rewrite (field_at _ p (put32 (DevMajor e)) (put32 (DevMinor e) ++ s)
      (length p) (length p + 4)) by first [by rewrite <- !app_assoc|len_lia].
    rewrite (field_at _ (p ++ put32 (DevMajor e)) (put32 (DevMinor e)) s
      (length p + 4) (length p + 8)) by first [by rewrite <- !app_assoc|len_lia].
    by rewrite !ret_bind, !get_put32, !u32_id. }
  by destruct (Hdev eq_refl) as [-> ->].
Qed.

Lemma decode_encode e s :
  entry_ok e → decodeEntry (encodeEntry e ++ s) (entry_size e) = Ret (clear_refs e).
Proof.
  intros He. set (B := encodeEntry e ++ s).
  assert (B = concat (entry_pieces e [type_data e; s])) as HB.
  { unfold B. rewrite entry_pieces_concat. cbn [concat]. by rewrite app_nil_r. }
  pose proof (lor_type_flags_u16 _ _ (eo_type _ He) (proj1 (eo_flags _ He))) as Htf.
  pose proof (eo_size _ He) as Hsz.
  assert (is_u16 (Z.of_nat (length (Path e)))) as Hpl.
  { unfold is_u16, entry_size in *. lia. }
  unfold decodeEntry. rewrite HB.
  rewrite guard_false_bind by (apply Nat.ltb_ge; unfold entry_size; lia).
  rewrite (field_piece _ 1 (put16 (Z.of_nat (length (Path e)))) 2 4) by piece.
  rewrite ret_bind, get_put16, u16_id, Nat2Z.id by done.
  rewrite guard_false_bind by (apply Nat.ltb_ge; unfold entry_size; lia).
  rewrite (slice_piece _ 2 (Path e)) by piece.
  cbn [or_panic]. rewrite ret_bind.
  set (o := (4 + length (Path e))%nat).
  rewrite (field_piece _ 3 (put16 (Z.lor (Type_ e) (EFlags e))) o) by piece.
  rewrite (field_piece _ 4 (put32 (Mode e)) (o + 2) (o + 6)) by piece.
  rewrite (field_piece _ 5 (put32 (UID e)) (o + 6) (o + 10)) by piece.
  rewrite (field_piece _ 6 (put32 (GID e)) (o + 10) (o + 14)) by piece.
  rewrite (field_piece _ 7 (put64 (ESize e)) (o + 14) (o + 22)) by piece.
  rewrite (field_piece _ 8 (put64 (u64 (Mtime e))) (o + 22) (o + 30)) by piece.
  rewrite (field_piece _ 9 (put64 (u64 (Ctime e))) (o + 30) (o + 38)) by piece.
  rewrite (field_piece _ 10 (put64 (u64 (Atime e))) (o + 38) (o + 46)) by piece.
  rewrite (field_piece _ 11 (put32 (ChunkStart e)) (o + 46) (o + 50)) by piece.
  rewrite (field_piece _ 12 (put32 (EChunkCount e)) (o + 50) (o + 54)) by piece.
  rewrite !ret_bind, get_put16, !get_put64, !get_put32.
  rewrite (u16_id (Z.lor _ _)) by done.
  destruct (eo_flags _ He) as [Hfl Hfl0].
  rewrite (land_type _ _ (eo_type _ He) Hfl0), (land_flags _ _ (eo_type _ He) Hfl Hfl0).
  rewrite !(u64_id (u64 _)) by apply u64_range. rewrite !i64_u64 by apply He.
  rewrite !u32_id, u64_id by apply He.
  unfold o. replace (4 + length (Path e) + 54)%nat with (58 + length (Path e))%nat by lia.
  assert (concat (entry_pieces e [type_data e; s])
    = (put16 (Z.of_nat (entry_size e)) ++ put16 (Z.of_nat (length (Path e))) ++ Path e
        ++ entry_fields e) ++ type_data e ++ s) as ->.
  { rewrite <- HB. unfold B, encodeEntry. by rewrite <- !app_assoc. }
  set (p := put16 (Z.of_nat (entry_size e)) ++ _).
  assert (length p = 58 + length (Path e))%nat as Hp by (unfold p, entry_fields; len_lia).
  rewrite <- Hp. replace (entry_size e) with (length p + typeDataSize e)%nat
    by (rewrite Hp; done).
  by rewrite decode_tail_ok.
Qed.

(** ** No index is ever out of range *)

Lemma decode_tail_no_panic back len o typ mk :
  (len ≤ length back)%nat → no_panic (decode_tail back len o typ mk).
Proof.
  intros Hl. unfold decode_tail. repeat case_match; try done;
    (apply no_panic_bind; [apply no_panic_guard|]; intros [] Hg; apply guard_err_ret in Hg;
     reflect_bools; apply no_panic_bind; [apply field_no_panic; lia|]; intros x _).
  - apply no_panic_bind; [apply no_panic_guard|]. intros [] Hg'. apply guard_err_ret in Hg'.
    reflect_bools. rewrite go_slice_some by lia. done.
  - done.
  - apply no_panic_bind; [apply field_no_panic; lia|]. done.
Qed.

(** The memory behind an entry covers the fixed fields. *)
Lemma decode_no_panic back len : (len + 54 ≤ length back)%nat → no_panic (decodeEntry back len).
Proof.
  intros Hl. unfold decodeEntry.
  apply no_panic_bind; [apply no_panic_guard|]. intros [] Hg. apply guard_err_ret in Hg. reflect_bools.
  apply no_panic_bind; [apply field_no_panic; lia|]. intros pathLen _.
  apply no_panic_bind; [apply no_panic_guard|]. intros [] Hp. apply guard_err_ret in Hp. reflect_bools.
  rewrite go_slice_some by lia. cbn [or_panic]. rewrite ret_bind.
  do 10 (apply no_panic_bind; [apply field_no_panic; lia|]; intros ? _).
  apply decode_tail_no_panic. lia.
Qed.

Lemma no_panic_wrap {E F A} (f : E → F) (m : outcome E A) : no_panic m → no_panic (wrap_err f m).
Proof. by destruct m. Qed.

Lemma tsm_entries_no_panic fuel data contentLen offset count :
  (contentLen + 64 ≤ length data)%nat →
  no_panic (parse_entries fuel data contentLen offset count).
Proof.
  intros Hl. revert offset count. induction fuel as [|fuel IH]; intros offset count; [done|].
  cbn [parse_entries]. destruct (0 <? count); [|done].
  apply no_panic_bind; [apply no_panic_guard|]. intros [] Hg. apply guard_err_ret in Hg. reflect_bools.
  apply no_panic_bind; [apply field_no_panic; lia|]. intros entryLen _.
  apply no_panic_bind; [apply no_panic_guard|]. intros [] Hg'. apply guard_err_ret in Hg'.
  apply no_panic_bind; [apply no_panic_guard|]. intros [] Hp. apply guard_err_ret in Hp. reflect_bools.
  apply no_panic_bind; [apply no_panic_wrap, decode_no_panic; rewrite length_drop; lia|].
  intros e _. apply no_panic_bind; [apply IH|]. by intros [??].
Qed.

(** An entry consumes at least 58 bytes, so the loop never runs out of fuel. *)
Lemma parse_entries_fuel fuel data contentLen offset count :
  (offset ≤ contentLen)%nat → (contentLen - offset < fuel)%nat →
  parse_entries fuel data contentLen offset count ≠ Err tsm_out_of_fuel.
Proof.
  revert offset count. induction fuel as [|fuel IH]; intros offset count Ho Hf; [lia|].
  cbn [parse_entries]. destruct (0 <? count); [|done]. intros Herr.
  apply bind_err_inv in Herr as [[_ ?]%guard_err_err|([] & Hg & Herr)]; [done|].
  apply bind_err_inv in Herr as [?%field_not_err|(len & Hlen & Herr)]; [done|].
  apply bind_err_inv in Herr as [[_ ?]%guard_err_err|([] & Hg2 & Herr)]; [done|].
  apply bind_err_inv in Herr as [[_ ?]%guard_err_err|([] & Hg3 & Herr)]; [done|].
  apply guard_err_ret in Hg2, Hg3. reflect_bools.
  apply bind_err_inv in Herr as [(? & _ & ?)%wrap_err_err|(e & _ & Herr)]; [done|].
  apply bind_err_inv in Herr as [Herr|([??] & _ & ?)]; [|done].
  apply IH in Herr; [done|lia|lia].
Qed.

Lemma parse_table_no_panic data offset n :
  (offset + 4 * n ≤ length data)%nat → no_panic (parse_table data offset n).
Proof.
  revert offset. induction n as [|n IH]; intros offset Hl; [done|]. cbn [parse_table].
  apply no_panic_bind; [apply field_no_panic; lia|]. intros x _.
  apply no_panic_bind; [apply IH; lia|done].
Qed.

Lemma populate_no_panic table es : no_panic (populate_entries table es).
Proof.
  induction es as [|e es IH]; [done|]. cbn [populate_entries].
  apply no_panic_bind; [|intros ??; by apply no_panic_bind].
  unfold populate_entry. destruct (0 <? _); [|done].
  apply no_panic_bind; [apply no_panic_guard|]. intros [] Hg. apply guard_err_ret in Hg.
  reflect_bools. by rewrite go_slice_some by lia.
Qed.

(** The entry loop stops inside the content. *)
Lemma parse_entries_end fuel data contentLen offset count es o :
  (offset ≤ contentLen)%nat →
  parse_entries fuel data contentLen offset count = Ret (es, o) →
  (offset ≤ o ≤ contentLen)%nat.
Proof.
  revert offset count es o.
  induction fuel as [|fuel IH]; intros offset count es o Ho; [done|].
  cbn [parse_entries]. destruct (0 <? count); [|intros [= <- <-]; lia]. intros Hr. inv_ret.
  destruct x4 as [es' o']. inv_ret. reflect_bools.
  rename select (parse_entries _ _ _ _ _ = _) into Hp. apply IH in Hp; lia.
Qed.

Section parse.
Context `{Digest}.

Lemma ParseTSM_no_panic data : no_panic (ParseTSM data).
Proof.
  unfold ParseTSM. apply no_panic_bind; [apply no_panic_guard|]. intros [] Hlen.
  apply guard_err_ret in Hlen. reflect_bools.
  unfold TSMHeaderSize, TSMFooterSize in *. unfold field.
  rewrite !(go_slice_some data) by lia. cbn [or_panic fmap outcome_fmap]. rewrite ret_bind.
  apply no_panic_bind; [apply no_panic_guard|]. intros _ _. rewrite ret_bind.
  rewrite !go_slice_some by len_lia. cbn [or_panic]. rewrite !ret_bind.
  apply no_panic_bind; [apply tsm_entries_no_panic; lia|]. intros [es o] He.
  apply parse_entries_end in He; [|lia].
  apply no_panic_bind; [apply no_panic_guard|]. intros _ _.
  apply no_panic_bind; [|intros table _].
  { apply parse_table_no_panic. pose proof (Nat.Div0.mul_div_le (length data - 64 - o) 4). lia. }
  rewrite !ret_bind. apply no_panic_bind; [apply no_panic_guard|]. intros _ _.
  apply no_panic_bind; [apply populate_no_panic|done].
Qed.
End parse.

(** ** The file is a round trip *)

Lemma entry_size_ge e : (58 ≤ entry_size e)%nat.
Proof. unfold entry_size. lia. Qed.

Definition entries_len (es : list TSMEntry) : nat := length (concat (encodeEntry <$> es)).

Lemma entries_len_cons e es : entries_len (e :: es) = (entry_size e + entries_len es)%nat.
Proof. unfold entries_len. cbn. by rewrite length_app, length_encodeEntry. Qed.

(** The first two bytes of an encoded entry. *)
Lemma entry_len_field {E} e p s :
  entry_ok e →
  field (E := E) (p ++ encodeEntry e ++ s) (length p) (length p + 2)
  = Ret (Z.of_nat (entry_size e)).
Proof.
  intros He. unfold encodeEntry.
  rewrite (field_at _ p (put16 (Z.of_nat (entry_size e)))
    (put16 (Z.of_nat (length (Path e))) ++ Path e ++ entry_fields e ++ type_data e ++ s))
    by first [by rewrite <- !app_assoc|len_lia].
  rewrite get_put16, u16_id; [done|]. pose proof (eo_size _ He). unfold is_u16. lia.
Qed.

Lemma parse_entries_ok fuel p es s contentLen :
  Forall entry_ok es → (length es < fuel)%nat →
  (length p + entries_len es ≤ contentLen)%nat →
  parse_entries fuel (p ++ concat (encodeEntry <$> es) ++ s) contentLen (length p)
    (Z.of_nat (length es))
  = Ret (clear_refs <$> es, (length p + entries_len es)%nat).
Proof.
  intros Hes. revert fuel p. induction Hes as [|e es He Hes IH]; intros fuel p Hf Hl;
    (destruct fuel as [|fuel]; [simpl in Hf; lia|]); cbn [parse_entries].
  { cbn. by rewrite Nat.add_0_r. }
  rewrite entries_len_cons in Hl |- *. pose proof (entry_size_ge e).
  replace (0 <? Z.of_nat (length (e :: es))) with true by (cbn [length]; lia).
  cbn [fmap list_fmap concat]. rewrite <- app_assoc.
  rewrite guard_false_bind by (apply Nat.ltb_ge; lia).
  rewrite entry_len_field, ret_bind by done.
  rewrite guard_false_bind by (apply Z.ltb_ge; lia). rewrite Nat2Z.id.
  rewrite guard_false_bind by (apply Nat.ltb_ge; lia).
  rewrite drop_app_length, decode_encode by done. rewrite wrap_ret, ret_bind.
  replace (Z.of_nat (length (e :: es)) - 1) with (Z.of_nat (length es)) by (cbn [length]; lia).
  assert (length p + entry_size e = length (p ++ encodeEntry e))%nat as Hlp
    by (by rewrite length_app, length_encodeEntry).
  rewrite Hlp, (app_assoc p), IH, ret_bind; [|cbn [length] in Hf; lia|lia].
  by rewrite Nat.add_assoc, <- Hlp.
Qed.

Lemma length_table_bytes t : length (table_bytes t) = (4 * length t)%nat.
Proof.
  unfold table_bytes. induction t as [|x t IH]; [done|]. cbn [fmap list_fmap concat length].
  rewrite length_app, length_put32, IH. lia.
Qed.

Lemma parse_table_ok p t s :
  Forall is_u32 t → parse_table (p ++ table_bytes t ++ s) (length p) (length t) = Ret t.
Proof.
  intros Ht. revert p. induction Ht as [|x t Hx Ht IH]; intros p; [done|].
  unfold table_bytes in *. cbn [fmap list_fmap concat length parse_table]. rewrite <- app_assoc.
  rewrite (field_at _ p (put32 x) (concat (put32 <$> t) ++ s)) by first [done|len_lia].
  rewrite ret_bind, get_put32, u32_id by done.
  replace (length p + 4)%nat with (length (p ++ put32 x)) by len_lia.
  rewrite (app_assoc p). by rewrite IH, ret_bind.
Qed.

(** *** Chunk references *)

(** An entry with its references as they are read back. *)
Definition with_refs (indexMap : list Z) (e : TSMEntry) : TSMEntry :=
  set_chunks e (ChunkStart e) (EChunkCount e) (map_ref indexMap <$> ChunkRefs e).

(** The start is assigned by the writer; nothing else of an entry changes. *)
Definition forget_start (e : TSMEntry) : TSMEntry :=
  set_chunks e 0 (EChunkCount e) (ChunkRefs e).

Definition counts_ok (e : TSMEntry) : Prop := EChunkCount e = Z.of_nat (length (ChunkRefs e)).

Lemma build_refs_spec im t0 es es' t :
  build_refs im t0 es = (es', t) → Forall counts_ok es → Z.of_nat (length t) < 2 ^ 32 →
  t0 `prefix_of` t ∧ forget_start <$> es' = forget_start <$> es ∧ Forall counts_ok es' ∧
  (Forall entry_ok es → Forall entry_ok es') ∧
  ∀ t', t `prefix_of` t' → populate_entries t' (clear_refs <$> es') = Ret (with_refs im <$> es').
Proof.
  revert t0 es' t. induction es as [|e es IH]; intros t0 es' t.
  { intros [= <- <-] _ _. split_and!; done. }
  intros Hb Hc Hlen. apply Forall_cons in Hc as [He Hc]. cbn [build_refs] in Hb.
  unfold counts_ok in He. destruct ((0 <? EChunkCount e) && _) eqn:Hcond; reflect_bools.
  - destruct (build_refs im (t0 ++ _) es) as [rest t''] eqn:Hr. injection Hb as <- <-.
    destruct (IH _ _ _ Hr Hc Hlen) as (Hp & Hf & Hc' & Hok & Hpop).
    pose proof (prefix_length _ _ Hp) as Hpl. rewrite length_app, length_fmap in Hpl.
    set (start := u32 (Z.of_nat (length t0))). set (n := u32 (Z.of_nat (length (ChunkRefs e)))).
    assert (start = Z.of_nat (length t0)) as Hs by (apply u32_id; unfold is_u32; lia).
    assert (n = Z.of_nat (length (ChunkRefs e))) as Hn by (apply u32_id; unfold is_u32; lia).
    split_and!.
    + etrans; [|exact Hp]. by eexists.
    + cbn. rewrite Hf. f_equal. unfold forget_start. cbn. f_equal. lia.
    + constructor; [exact Hn|done].
    + intros Hes. apply Forall_cons in Hes as [[] Hes]. constructor; [|by apply Hok].
      split; try done; cbn; apply u32_range.
    + intros t' Hpre. cbn [fmap list_fmap populate_entries].
      unfold populate_entry at 1. cbn [clear_refs set_chunks ChunkStart EChunkCount Path].
      replace (0 <? n) with true by lia.
      destruct Hp as [r1 Hp], Hpre as [r2 Hpre].
      assert (t' = t0 ++ (map_ref im <$> ChunkRefs e) ++ r1 ++ r2) as Ht'
        by (rewrite Hpre, Hp; by rewrite <- !app_assoc).
      rewrite guard_false_bind.
      2: { apply Nat.ltb_ge. rewrite Ht'. rewrite Hs, Hn, !Nat2Z.id. len_lia. }
      rewrite Ht', (go_slice_app t0 (map_ref im <$> ChunkRefs e) (r1 ++ r2))
        by (rewrite ?Hs, ?Hn, ?Nat2Z.id; len_lia).
      cbn [or_panic]. rewrite !ret_bind, <- Ht', Hpop by (rewrite Hpre, Hp; by eexists).
      done.
  - destruct (build_refs im t0 es) as [rest t''] eqn:Hr. injection Hb as <- <-.
    destruct (IH _ _ _ Hr Hc Hlen) as (Hp & Hf & Hc' & Hok & Hpop).
    assert (ChunkRefs e = []) as Hnil.
    { destruct (ChunkRefs e); [done|]. cbn in *. rewrite He in Hcond. cbn in Hcond. lia. }
    split_and!; [done|cbn; by rewrite Hf|by constructor| |].
    + intros Hes. apply Forall_cons in Hes as [? Hes]. constructor; auto.
    + intros t' Hpre. cbn [fmap list_fmap populate_entries]. unfold populate_entry at 1.
      cbn [clear_refs set_chunks ChunkStart EChunkCount Path].
      rewrite He, Hnil. change (0 <? Z.of_nat (length (@nil Z))) with false. cbv match.
      rewrite ret_bind, Hpop, ret_bind by done. f_equal. f_equal.
      unfold with_refs, clear_refs. by rewrite Hnil.
Qed.

Lemma build_refs_u32 im t0 es es' t :
  build_refs im t0 es = (es', t) → Forall is_u32 im → Forall is_u32 t0 →
  Forall (λ e, Forall is_u32 (ChunkRefs e)) es → Forall is_u32 t.
Proof.
  intros Hb Him. revert t0 es' t Hb. induction es as [|e es IH]; intros t0 es' t Hb Ht0 Hes.
  { by injection Hb as <- <-. }
  apply Forall_cons in Hes as [He Hes]. cbn [build_refs] in Hb. destruct (_ && _).
  - destruct (build_refs im (t0 ++ _) es) as [rest t''] eqn:Hr. injection Hb as _ <-.
    eapply IH; [exact Hr| |done]. apply Forall_app. split; [done|]. apply Forall_fmap.
    eapply Forall_impl; [exact He|]. intros x Hx. unfold compose, map_ref.
    destruct (_ <? _)%nat eqn:Hlt; [|done]. reflect_bools.
    apply Forall_lookup_total_1; done.
  - destruct (build_refs im t0 es) as [rest t''] eqn:Hr. injection Hb as _ <-.
    by eapply IH.
Qed.

Lemma hash_clear_refs e : encodeEntryForHash (clear_refs e) = encodeEntryForHash e.
Proof. done. Qed.

Section roundtrip.
Context `{Digest}.

(** The header's fields, as they appear in the file. *)
Definition header_of (fl n tot : Z) (ref : list byte) (created : Z) (uuid : list byte) : list byte :=
  TSMMagic ++ put32 fl ++ put64 n ++ put64 tot ++ ref ++ put64 (u64 created) ++ uuid
    ++ replicate 16 Byte.x00.

Lemma length_header_of fl n tot ref created uuid :
  length ref = 8%nat → length uuid = 8%nat →
  length (header_of fl n tot ref created uuid) = TSMHeaderSize.
Proof. intros. unfold header_of, TSMHeaderSize, TSMMagic. len_lia. Qed.

Lemma ParseTSM_file fl n tot ref created uuid es table tsc es' :
  length ref = 8%nat → length uuid = 8%nat → length tsc = 32%nat →
  is_u32 fl → is_u64 tot → is_i64 created →
  n = Z.of_nat (length es) → is_u64 n →
  Forall entry_ok es → Forall is_u32 table →
  populate_entries table (clear_refs <$> es) = Ret es' →
  let h := header_of fl n tot ref created uuid in
  ParseTSM (file_bytes h es table tsc)
  = Ret (MkTSMReader (MkTSMHeader TSMMagic fl n tot ref created uuid) es' table
           (sum256 (hashed_content h es table)) tsc).
Proof.
  intros Href Huuid Htsc Hfl Htot Hcr Hn Hn64 Hes Htab Hpop h.
  pose proof (length_header_of fl n tot ref created uuid Href Huuid) as Hh. fold h in Hh.
  set (sha := sum256 (hashed_content h es table)).
  assert (length sha = 32)%nat as Hsha by apply length_sum256.
  set (body := concat (encodeEntry <$> es)).
  set (ps := [TSMMagic; put32 fl; put64 n; put64 tot; ref; put64 (u64 created); uuid;
    replicate 16 Byte.x00; body; table_bytes table; sha ++ tsc]).
  set (data := concat ps).
  assert (file_bytes h es table tsc = data) as ->.
  { unfold file_bytes, data, ps, h, header_of. cbn [concat]. rewrite <- !app_assoc.
    by rewrite app_nil_r. }
  assert (length data = 64 + length body + 4 * length table + 64)%nat as Hdata.
  { unfold data, ps. cbn [concat]. rewrite !length_app, length_table_bytes, Hsha, Htsc, Href, Huuid.
    len_lia. }
  pose proof (slice_piece ps) as HS. pose proof (@field_piece tsm_error ps) as HF.
  fold data in HS, HF.
  unfold ParseTSM. rewrite guard_false_bind.
  2: { apply Nat.ltb_ge. rewrite Hdata. unfold TSMHeaderSize, TSMFooterSize. lia. }
  rewrite (HS 0%nat TSMMagic 0%nat 4%nat) by first [reflexivity|done].
  cbn [or_panic]. rewrite ret_bind.
  rewrite guard_false_bind by (by rewrite bool_decide_eq_true_2).
  assert (length (concat (take 10 ps)) = length data - 64)%nat as Ht.
  { rewrite Hdata. unfold ps. cbn [take concat].
    rewrite !length_app, length_table_bytes, Href, Huuid. len_lia. }
  rewrite (HS 10%nat (sha ++ tsc) (length data - TSMFooterSize)%nat (length data));
    [|reflexivity|exact Ht|unfold TSMFooterSize; rewrite length_app; lia].
  cbn [or_panic]. rewrite ret_bind.
  rewrite (slice_at (sha ++ tsc) sha tsc [] 32 64) by first [by rewrite app_nil_r|lia].
  cbn [or_panic]. rewrite ret_bind.
  rewrite (HF 1%nat (put32 fl) 4%nat 8%nat) by first [reflexivity|done].
  rewrite (HF 2%nat (put64 n) 8%nat 16%nat) by first [reflexivity|done].
  rewrite (HF 3%nat (put64 tot) 16%nat 24%nat) by first [reflexivity|done].
  rewrite (HS 4%nat ref 24%nat 32%nat) by first [reflexivity|rewrite ?Href; done].
  rewrite (HF 5%nat (put64 (u64 created)) 32%nat 40%nat)
    by first [reflexivity|cbn [ps take concat]; unfold TSMMagic; len_lia].
  rewrite (HS 6%nat uuid 40%nat 48%nat)
    by first [reflexivity|cbn [ps take concat]; unfold TSMMagic; len_lia].
  cbn [or_panic]. rewrite !ret_bind. rewrite get_put32, !get_put64.
  rewrite (u32_id fl), (u64_id n), (u64_id tot), (u64_id (u64 created)), i64_u64
    by first [done|apply u64_range].
  assert (concat ps = h ++ body ++ table_bytes table ++ sha ++ tsc) as Hps.
  { unfold ps, h, header_of. cbn [concat]. rewrite <- !app_assoc. by rewrite app_nil_r. }
  fold data in Hps. rewrite Hps.
  assert (length (h ++ body ++ table_bytes table ++ sha ++ tsc) = length data) as Hld by (by rewrite Hps).
  rewrite Hld.
  assert (parse_entries (length data) (h ++ body ++ table_bytes table ++ sha ++ tsc)
    (length data - TSMFooterSize) TSMHeaderSize n
    = Ret (clear_refs <$> es, (length h + entries_len es)%nat)) as ->.
  { rewrite Hn, <- Hh. apply parse_entries_ok; [done| |].
    - rewrite Hdata. unfold body.
      assert (length es ≤ entries_len es)%nat; [|unfold entries_len in *; lia].
      clear. induction es as [|e es IH]; [done|]. rewrite entries_len_cons.
      pose proof (entry_size_ge e). cbn [length]. lia.
    - rewrite Hdata, Hh. unfold body, TSMHeaderSize, TSMFooterSize, entries_len. lia. }
  rewrite ret_bind.
  replace (length data - TSMFooterSize - (length h + entries_len es))%nat with (length table * 4)%nat.
  2: { rewrite Hdata, Hh. unfold body, TSMHeaderSize, TSMFooterSize, entries_len. lia. }
  rewrite guard_false_bind by (rewrite Nat.Div0.mod_mul; done).
  rewrite Nat.div_mul by lia.
  replace (length h + entries_len es)%nat with (length (h ++ body)) by (rewrite length_app; done).
  rewrite (app_assoc h). rewrite parse_table_ok by done. rewrite ret_bind.
  rewrite <- (app_assoc h).
  rewrite (slice_at _ [] h (body ++ table_bytes table ++ sha ++ tsc) 0 TSMHeaderSize) by done.
  cbn [or_panic]. rewrite ret_bind.
  assert (hashed_content h (clear_refs <$> es) table = hashed_content h es table) as ->.
  { unfold hashed_content. rewrite <- list_fmap_compose. done. }
  rewrite (slice_at (sha ++ tsc) [] sha tsc 0 32) by first [done|lia].
  cbn [or_panic]. rewrite ret_bind. fold sha.
  rewrite guard_false_bind by (by rewrite bool_decide_eq_true_2).
  by rewrite Hpop, ret_bind.
Qed.
End roundtrip.

(** ** Patching *)

(** What patching does to an entry. *)
Definition patch_entry (ctimes : gmap gostring Z) (e : TSMEntry) : TSMEntry :=
  match ctimes !! Path e with Some c => set_ctime e c | None => e end.

Lemma set_ctime_ok e c : entry_ok e → is_i64 c → entry_ok (set_ctime e c).
Proof. intros [] Hc. by split. Qed.

Lemma patch_entry_size ctimes e : entry_size (patch_entry ctimes e) = entry_size e.
Proof. unfold patch_entry. by destruct (_ !! _). Qed.

Lemma hash_patch ctimes e : encodeEntryForHash (patch_entry ctimes e) = encodeEntryForHash e.
Proof. unfold patch_entry. by destruct (_ !! _). Qed.

Lemma patch_clear_refs ctimes e : clear_refs (patch_entry ctimes e) = patch_entry ctimes (clear_refs e).
Proof. unfold patch_entry. cbn. by destruct (_ !! _). Qed.

Lemma put64_at_middle a m b n v :
  length a = n → length m = 8%nat → put64_at (a ++ m ++ b) n v = Ret (a ++ put64 v ++ b).
Proof.
  intros <- Hm. unfold put64_at. rewrite (go_slice_app a m b) by (rewrite ?Hm; done).
  cbn [or_panic]. rewrite ret_bind. f_equal.
  rewrite take_app_length. f_equal. f_equal.
  rewrite app_assoc. by rewrite drop_app_length' by len_lia.
Qed.

Lemma put_ctime e p s c :
  put64_at (p ++ encodeEntry e ++ s) (length p + 34 + length (Path e)) (u64 c)
  = Ret (p ++ encodeEntry (set_ctime e c) ++ s).
Proof.
  set (a := put16 (Z.of_nat (entry_size e)) ++ put16 (Z.of_nat (length (Path e))) ++ Path e
    ++ put16 (Z.lor (Type_ e) (EFlags e)) ++ put32 (Mode e) ++ put32 (UID e) ++ put32 (GID e)
    ++ put64 (ESize e) ++ put64 (u64 (Mtime e))).
  set (b := put64 (u64 (Atime e)) ++ put32 (ChunkStart e) ++ put32 (EChunkCount e) ++ type_data e ++ s).
  assert (∀ c, p ++ encodeEntry (set_ctime e c) ++ s = (p ++ a) ++ put64 (u64 c) ++ b) as Hsplit.
  { intros c'. unfold a, b, encodeEntry, entry_fields. cbn. by rewrite <- !app_assoc. }
  assert (e = set_ctime e (Ctime e)) as He by (by destruct e).
  rewrite He at 1. rewrite !Hsplit. apply put64_at_middle; [|len_lia].
  unfold a. len_lia.
Qed.

Lemma patch_loop_ok fuel p p' es s contentLen ctimes :
  Forall entry_ok es → (length es < fuel)%nat →
  (length p + entries_len es ≤ contentLen)%nat → length p' = length p →
  patch_loop fuel (p ++ concat (encodeEntry <$> es) ++ s) contentLen (length p)
    (Z.of_nat (length es)) ctimes (p' ++ concat (encodeEntry <$> es) ++ s)
  = Ret (p' ++ concat (encodeEntry <$> (patch_entry ctimes <$> es)) ++ s).
Proof.
  intros Hes. revert fuel p p'. induction Hes as [|e es He Hes IH]; intros fuel p p' Hf Hl Hp;
    (destruct fuel as [|fuel]; [simpl in Hf; lia|]); cbn [patch_loop]; [done|].
  rewrite entries_len_cons in Hl. pose proof (entry_size_ge e). pose proof (eo_size _ He) as Hsz.
  assert (58 + length (Path e) ≤ entry_size e)%nat by (unfold entry_size; lia).
  replace (0 <? Z.of_nat (length (e :: es))) with true by (cbn [length]; lia).
  cbn [fmap list_fmap concat]. rewrite <- !app_assoc.
  rewrite guard_false_bind by (apply Nat.ltb_ge; lia).
  rewrite entry_len_field, ret_bind by done.
  rewrite guard_false_bind by (apply Z.ltb_ge; lia). rewrite Nat2Z.id.
  rewrite guard_false_bind by (apply Nat.ltb_ge; lia).
  set (rest := concat (encodeEntry <$> es) ++ s).
  assert (∀ q, q ++ encodeEntry e ++ rest = (q ++ put16 (Z.of_nat (entry_size e)))
    ++ put16 (Z.of_nat (length (Path e))) ++ (Path e ++ entry_fields e ++ type_data e ++ rest)) as Hq.
  { intros q. unfold encodeEntry. by rewrite <- !app_assoc. }
  rewrite (field_at _ _ _ _ (length p + 2) (length p + 4) (Hq p)) by len_lia.
  rewrite ret_bind, get_put16, u16_id, Nat2Z.id by (unfold is_u16; lia).
  rewrite guard_false_bind by (apply Nat.ltb_ge; lia).
  rewrite (slice_at _ (p ++ put16 (Z.of_nat (entry_size e)) ++ put16 (Z.of_nat (length (Path e))))
    (Path e) (entry_fields e ++ type_data e ++ rest))
    by first [by rewrite Hq, <- !app_assoc|len_lia].
  cbn [or_panic]. rewrite ret_bind.
  assert (∃ m, length m = length (encodeEntry e) ∧ m = encodeEntry (patch_entry ctimes e) ∧
    match ctimes !! Path e with
    | Some ctime =>
        guard_err (contentLen <? length p + 34 + length (Path e) + 8)%nat
          (tsm_ctime_beyond_content (length p)) ≫= λ _,
        put64_at (p' ++ encodeEntry e ++ rest) (length p + 34 + length (Path e)) (u64 ctime)
    | None => Ret (p' ++ encodeEntry e ++ rest)
    end = Ret (p' ++ m ++ rest)) as (m & Hm & Hme & Hout).
  { eexists. split; [|split; [reflexivity|]].
    { by rewrite !length_encodeEntry, patch_entry_size. }
    unfold patch_entry. destruct (ctimes !! Path e) as [c|]; [|done].
    rewrite guard_false_bind by (apply Nat.ltb_ge; lia).
    rewrite <- Hp. apply put_ctime. }
  cbn zeta in Hout |- *. rewrite Hout, ret_bind.
  replace (Z.of_nat (length (e :: es)) - 1) with (Z.of_nat (length es)) by (cbn [length]; lia).
  rewrite length_encodeEntry in Hm.
  replace (length p + entry_size e)%nat with (length (p ++ encodeEntry e))
    by (by rewrite length_app, length_encodeEntry).
  unfold rest. rewrite (app_assoc p), (app_assoc p' m). rewrite IH.
  - by rewrite Hme, <- app_assoc.
  - cbn [length] in Hf. lia.
  - rewrite length_app, length_encodeEntry. lia.
  - rewrite !length_app, length_encodeEntry. lia.
Qed.

(** ** Runs of the writer *)

Definition add_entries (w : TSMWriter) (es : list TSMEntry) : TSMWriter := fold_left AddEntry es w.

Definition file_sizes (es : list TSMEntry) : Z :=
  foldr (λ e acc, (if Type_ e =? EntryTypeFile then ESize e else 0) + acc) 0 es.

Lemma file_sizes_app es1 es2 : file_sizes (es1 ++ es2) = file_sizes es1 + file_sizes es2.
Proof. unfold file_sizes. induction es1 as [|e es1 IH]; cbn [foldr app]; lia. Qed.

(** The counters are those of the entries, in [uint64] arithmetic. *)
Definition writer_ok (w : TSMWriter) : Prop :=
  fileCount w = u64 (Z.of_nat (length (entries w))) ∧ wTotalSize w = u64 (file_sizes (entries w)).

Lemma AddEntry_ok w e : writer_ok w → writer_ok (AddEntry w e).
Proof.
  intros [Hc Ht]. unfold writer_ok, AddEntry. cbn [entries fileCount wTotalSize].
  rewrite length_app, file_sizes_app, Hc, Ht. cbn [length].
  change (file_sizes [e]) with ((if Type_ e =? EntryTypeFile then ESize e else 0) + 0).
  unfold u64. split.
  - rewrite Zplus_mod_idemp_l. f_equal. lia.
  - destruct (Type_ e =? EntryTypeFile).
    + rewrite Zplus_mod_idemp_l. f_equal. lia.
    + f_equal. lia.
Qed.

Lemma add_entries_spec w es :
  writer_ok w →
  writer_ok (add_entries w es) ∧ entries (add_entries w es) = entries w ++ es ∧
  wflags (add_entries w es) = wflags w ∧ creationTime (add_entries w es) = creationTime w ∧
  fsUUID (add_entries w es) = fsUUID w.
Proof.
  unfold add_entries. revert w. induction es as [|e es IH]; intros w Hw; cbn [fold_left].
  { by rewrite app_nil_r. }
  destruct (IH (AddEntry w e) (AddEntry_ok _ _ Hw)) as (? & -> & -> & -> & ->).
  cbn [entries AddEntry wflags creationTime fsUUID]. by rewrite <- app_assoc.
Qed.

Lemma build_refs_length im t0 es es' t :
  build_refs im t0 es = (es', t) → Forall counts_ok es →
  length t = (length t0 + length (concat (ChunkRefs <$> es)))%nat.
Proof.
  revert t0 es' t. induction es as [|e es IH]; intros t0 es' t Hb Hc.
  { injection Hb as <- <-. cbn. lia. }
  apply Forall_cons in Hc as [He Hc]. cbn [build_refs fmap list_fmap concat] in *.
  destruct (_ && _) eqn:Hcond.
  - destruct (build_refs im (t0 ++ _) es) as [rest t''] eqn:Hr. injection Hb as _ <-.
    apply IH in Hr; [|done]. rewrite Hr. len_lia.
  - destruct (build_refs im t0 es) as [rest t''] eqn:Hr. injection Hb as _ <-.
    apply IH in Hr; [|done]. rewrite Hr, length_app. unfold counts_ok in He.
    destruct (ChunkRefs e); [cbn; lia|]. rewrite He in Hcond. cbn in Hcond. done.
Qed.

(** What a caller must hand to the writer for the file to be readable. *)
Record writable (es : list TSMEntry) (indexMap : list Z) (tscSHA uuid : list byte) (now : Z)
    : Prop := {
  wr_entries : Forall entry_ok es;
  wr_counts : Forall counts_ok es;
  wr_refs : Forall (λ e, Forall is_u32 (ChunkRefs e)) es;
  wr_table : Z.of_nat (length (concat (ChunkRefs <$> es))) < 2 ^ 32;
  wr_number : Z.of_nat (length es) < 2 ^ 64;
  wr_map : Forall is_u32 indexMap;
  wr_sha : length tscSHA = 32%nat;
  wr_uuid : length uuid = 8%nat;
  wr_now : is_i64 now;
}.

(** The writer after [SetFSUUID] and the [AddEntry] calls. *)
Definition filled (es : list TSMEntry) (uuid : list byte) (now : Z) : TSMWriter :=
  add_entries (SetFSUUID (NewTSMWriter now) uuid) es.

Section runs.
Context `{Digest}.

(** The parts of the written file. *)
Lemma Write_parts fs path es im tscSHA uuid now :
  writable es im tscSHA uuid now →
  ∃ fs' w' es' table h,
    Write NoFault fs (filled es uuid now) path tscSHA im
      = (fs', w', Ret (sum256 (hashed_content h es' table))) ∧
    fs' !! path = Some (file_bytes h es' table tscSHA) ∧
    h = header_of 0 (Z.of_nat (length es')) (u64 (file_sizes es)) (take 8 tscSHA) now uuid ∧
    length es' = length es ∧ Forall entry_ok es' ∧ Forall is_u32 table ∧
    populate_entries table (clear_refs <$> es') = Ret (with_refs im <$> es') ∧
    forget_start <$> es' = forget_start <$> sortEntries es.
Proof.
  intros Hw. destruct (add_entries_spec (SetFSUUID (NewTSMWriter now) uuid) es)
    as ([Hc Ht] & He & Hf & Hcr & Hu); [done|].
  fold (filled es uuid now) in *. cbn in He, Hf, Hcr, Hu. unfold Write. rewrite He.
  assert (sortEntries es ≡ₚ es) as Hperm by apply sort_by_key_perm.
  destruct (build_refs im [] (sortEntries es)) as [es' table] eqn:Hb.
  assert (Forall counts_ok (sortEntries es)) as Hcounts by (rewrite Hperm; apply Hw).
  pose proof (build_refs_length _ _ _ _ _ Hb Hcounts) as Hlen.
  assert (length (concat (ChunkRefs <$> sortEntries es)) = length (concat (ChunkRefs <$> es))) as Hcl.
  { apply Permutation_length. by rewrite Hperm. }
  pose proof (wr_table _ _ _ _ _ Hw) as Htab.
  destruct (build_refs_spec _ _ _ _ _ Hb Hcounts) as (_ & Hfs & _ & Hok & Hpop); [cbn in Hlen; lia|].
  assert (length es' = length es) as Hl.
  { apply (f_equal length) in Hfs. rewrite !length_fmap in Hfs. by rewrite Hfs, Hperm. }
  set (h := tsm_header (filled es uuid now) tscSHA).
  destruct (write_via_tmp NoFault fs path (file_bytes h es' table tscSHA)) as [fs' e] eqn:Hwr.
  pose proof (write_via_tmp_atomic _ _ _ _ _ _ Hwr) as [Hpath _]. injection Hwr as <- <-.
  eexists _, _, es', table, h. split_and!; [done|exact Hpath| |done| | |by apply Hpop|done].
  - unfold h, tsm_header, header_of. rewrite Hc, Ht, Hf, Hcr, Hu, He.
    rewrite (u64_id (Z.of_nat (length es))) by (unfold is_u64; pose proof (wr_number _ _ _ _ _ Hw); lia).
    rewrite (take_ge uuid) by (rewrite (wr_uuid _ _ _ _ _ Hw); done).
    rewrite Hl. done.
  - apply Hok. rewrite Hperm. apply Hw.
  - eapply build_refs_u32; [exact Hb|apply Hw|done|]. rewrite Hperm. apply Hw.
Qed.

Lemma populate_patch table es es' ctimes :
  populate_entries table es = Ret es' →
  populate_entries table (patch_entry ctimes <$> es) = Ret (patch_entry ctimes <$> es').
Proof.
  revert es'. induction es as [|e es IH]; intros es' Hp; cbn [populate_entries fmap list_fmap] in *.
  { by injection Hp as <-. }
  apply bind_ret_inv in Hp as (e' & He & Hp). apply bind_ret_inv in Hp as (rest & Hr & Hp).
  injection Hp as <-.
  assert (populate_entry table (patch_entry ctimes e) = Ret (patch_entry ctimes e')) as ->.
  { unfold populate_entry, patch_entry in *. destruct (0 <? EChunkCount e) eqn:Hc.
    - apply bind_ret_inv in He as ([] & Hg & He). apply bind_ret_inv in He as (refs & Hrefs & He).
      injection He as <-. cbn [set_chunks Path].
      destruct (ctimes !! Path e); cbn [set_ctime EChunkCount ChunkStart Path];
        by rewrite Hc, Hg, ret_bind, Hrefs, ret_bind.
    - injection He as <-. destruct (ctimes !! Path e); cbn [set_ctime EChunkCount]; by rewrite Hc. }
  by rewrite ret_bind, (IH rest), ret_bind.
Qed.

Lemma hashed_patch h es table ctimes :
  hashed_content h (patch_entry ctimes <$> es) table = hashed_content h es table.
Proof.
  unfold hashed_content. rewrite <- list_fmap_compose. f_equal. f_equal. f_equal.
  apply list_fmap_ext. intros i e _. apply hash_patch.
Qed.

(** Patching a written file is writing the patched entries. *)
Lemma Patch_file fl n tot ref created uuid es table tsc ctimes :
  length ref = 8%nat → length uuid = 8%nat → length tsc = 32%nat →
  n = Z.of_nat (length es) → is_u64 n → Forall entry_ok es →
  let h := header_of fl n tot ref created uuid in
  PatchEntryCtimes (file_bytes h es table tsc) ctimes
  = Ret (file_bytes h (patch_entry ctimes <$> es) table tsc).
Proof.
  intros Href Huuid Htsc Hn Hn64 Hes h.
  pose proof (length_header_of fl n tot ref created uuid Href Huuid) as Hh. fold h in Hh.
  unfold file_bytes. rewrite hashed_patch.
  set (sha := sum256 _). assert (length sha = 32)%nat as Hsha by apply length_sum256.
  set (s := table_bytes table ++ sha ++ tsc).
  assert (length (h ++ concat (encodeEntry <$> es) ++ s)
    = 64 + entries_len es + 4 * length table + 64)%nat as Hdata.
  { unfold s. rewrite !length_app, length_table_bytes, Hh, Hsha, Htsc.
    unfold entries_len, TSMHeaderSize. lia. }
  unfold PatchEntryCtimes. rewrite guard_false_bind.
  2: { apply Nat.ltb_ge. rewrite Hdata. unfold TSMHeaderSize, TSMFooterSize. lia. }
  rewrite (field_at _ (TSMMagic ++ put32 fl) (put64 n) (put64 tot ++ ref ++ put64 (u64 created)
    ++ uuid ++ replicate 16 Byte.x00 ++ concat (encodeEntry <$> es) ++ s) 8 16)
    by first [unfold h, header_of; by rewrite <- !app_assoc|done].
  rewrite ret_bind, get_put64, u64_id by done.
  rewrite Hn, <- Hh. apply patch_loop_ok; [done| | |done].
  - rewrite Hdata. assert (length es ≤ entries_len es)%nat; [|lia].
    clear. induction es as [|e es IH]; [done|]. rewrite entries_len_cons.
    pose proof (entry_size_ge e). cbn [length]. lia.
  - rewrite Hdata, Hh. unfold TSMHeaderSize, TSMFooterSize. lia.
Qed.

Lemma patch_entry_ok ctimes e :
  map_Forall (λ _ c, is_i64 c) ctimes → entry_ok e → entry_ok (patch_entry ctimes e).
Proof.
  intros Hc He. unfold patch_entry. destruct (ctimes !! Path e) as [c|] eqn:Hl; [|done].
  apply set_ctime_ok; [done|]. by apply (Hc (Path e)).
Qed.

(** A written file parses, and so does a patched one, with the same digest. *)
Lemma Write_parses fs path es im tscSHA uuid now :
  writable es im tscSHA uuid now →
  ∃ fs' w' es' table h,
    Write NoFault fs (filled es uuid now) path tscSHA im
      = (fs', w', Ret (sum256 (hashed_content h es' table))) ∧
    fs' !! path = Some (file_bytes h es' table tscSHA) ∧
    forget_start <$> es' = forget_start <$> sortEntries es ∧
    let hd := MkTSMHeader TSMMagic 0 (Z.of_nat (length es)) (u64 (file_sizes es))
                (take 8 tscSHA) now uuid in
    ParseTSM (file_bytes h es' table tscSHA)
      = Ret (MkTSMReader hd (with_refs im <$> es') table
               (sum256 (hashed_content h es' table)) tscSHA) ∧
    ∀ ctimes, map_Forall (λ _ c, is_i64 c) ctimes →
      PatchEntryCtimes (file_bytes h es' table tscSHA) ctimes
        = Ret (file_bytes h (patch_entry ctimes <$> es') table tscSHA) ∧
      ParseTSM (file_bytes h (patch_entry ctimes <$> es') table tscSHA)
        = Ret (MkTSMReader hd (patch_entry ctimes <$> (with_refs im <$> es')) table
                 (sum256 (hashed_content h es' table)) tscSHA).
Proof.
  intros Hw. destruct (Write_parts fs path es im tscSHA uuid now Hw)
    as (fs' & w' & es' & table & h & Hwr & Hp & Hh & Hl & Hok & Htab & Hpop & Hf).
  destruct Hw as [_ _ _ _ Hnum _ Hsha Huuid Hnow].
  assert (length (take 8 tscSHA) = 8%nat) as Href by len_lia.
  assert (is_u64 (Z.of_nat (length es'))) as Hn by (unfold is_u64; lia).
  pose proof (u64_range (file_sizes es)) as Htot.
  exists fs', w', es', table, h. split; [done|]. split; [done|]. split; [done|]. split.
  - subst h. rewrite <- Hl. by apply ParseTSM_file.
  - intros ctimes Hc. split; [subst h; by apply Patch_file|].
    rewrite <- (hashed_patch h es' table ctimes). subst h.
    pose proof (length_fmap (patch_entry ctimes) es') as Hlp.
    rewrite <- Hl, <- Hlp. apply ParseTSM_file; try done.
    + by rewrite Hlp.
    + apply Forall_fmap. eapply Forall_impl; [exact Hok|]. intros e. by apply patch_entry_ok.
    + assert (clear_refs <$> (patch_entry ctimes <$> es')
        = patch_entry ctimes <$> (clear_refs <$> es')) as ->.
      { rewrite <- !list_fmap_compose. apply list_fmap_ext. intros i e _. apply patch_clear_refs. }
      by apply populate_patch.
Qed.
End runs.

(** ** Looking entries up *)

Lemma LookupPath_sorted (r : TSMReader) p :
  StronglySorted (keys_le Path) (rEntries r) →
  (p ∉ Path <$> rEntries r → LookupPath r p = None) ∧
  (p ∈ Path <$> rEntries r → ∃ e, e ∈ rEntries r ∧ LookupPath r p = Some e ∧ Path e = p).
Proof.
  intros Hs. unfold LookupPath.
  destruct (search_key_spec Path (rEntries r) p Hs) as [Hin Hfind].
  set (idx := sort_search _ _) in *. split.
  - intros Hnot. destruct (rEntries r !! idx) as [x|] eqn:Hx; [|done].
    case_bool_decide as Hk; [|done]. destruct Hnot. rewrite <- Hk.
    apply list_elem_of_fmap_2. by eapply list_elem_of_lookup_2.
  - intros Hp. destruct (Hfind Hp) as (x & Hx & Hk). exists x. rewrite Hx.
    rewrite bool_decide_eq_true_2 by done. split_and!; [by apply Hin|done|done].
Qed.

Lemma sorted_by_paths (l1 l2 : list TSMEntry) :
  Path <$> l1 = Path <$> l2 → StronglySorted (keys_le Path) l2 → StronglySorted (keys_le Path) l1.
Proof.
  revert l2. induction l1 as [|x l1 IH]; intros [|y l2] Heq Hs; try done.
  cbn in Heq. injection Heq as Hxy Heq. apply StronglySorted_inv in Hs as [Hs Hy].
  constructor; [by eapply IH|]. apply Forall_forall. intros z Hz.
  assert (Path z ∈ Path <$> l2) as Hin by (rewrite <- Heq; by apply list_elem_of_fmap_2).
  apply list_elem_of_fmap in Hin as (z' & Hz' & Hin).
  rewrite Forall_forall in Hy. specialize (Hy _ Hin). unfold keys_le in *. by rewrite Hxy, Hz'.
Qed.

Lemma forget_start_map {A} (f : TSMEntry → A) (l1 l2 : list TSMEntry) :
  (∀ e, f (forget_start e) = f e) →
  forget_start <$> l1 = forget_start <$> l2 → f <$> l1 = f <$> l2.
Proof.
  intros Hf Heq. apply (f_equal (fmap f)) in Heq. rewrite <- !list_fmap_compose in Heq.
  rewrite !(list_fmap_ext (f ∘ forget_start) f) in Heq by (intros; apply Hf). done.
Qed.

Lemma read_back_paths im (es es' : list TSMEntry) :
  forget_start <$> es' = forget_start <$> sortEntries es →
  Path <$> (with_refs im <$> es') = Path <$> sortEntries es.
Proof.
  intros Hf. rewrite <- list_fmap_compose.
  rewrite (list_fmap_ext _ Path) by done. by apply forget_start_map.
Qed.

Lemma read_back_entries im (es es' : list TSMEntry) :
  forget_start <$> es' = forget_start <$> sortEntries es →
  forget_start <$> (with_refs im <$> es') = (λ e, forget_start (with_refs im e)) <$> sortEntries es.
Proof.
  intros Hf. rewrite <- list_fmap_compose.
  by apply (forget_start_map (λ e, forget_start (with_refs im e))).
Qed.

(** An entry read back is the one entry that was written with its path. *)
Lemma lookup_read_back im es es' r p e :
  rEntries r = with_refs im <$> es' →
  forget_start <$> es' = forget_start <$> sortEntries es →
  NoDup (Path <$> es) → e ∈ es → Path e = p →
  ∃ e', LookupPath r p = Some e' ∧ forget_start e' = forget_start (with_refs im e).
Proof.
  intros Hr Hf Hn He Hp.
  pose proof (read_back_paths im es es' Hf) as Hpaths. rewrite <- Hr in Hpaths.
  pose proof (read_back_entries im es es' Hf) as Hents. rewrite <- Hr in Hents.
  assert (StronglySorted (keys_le Path) (rEntries r)) as Hs.
  { eapply sorted_by_paths; [exact Hpaths|]. apply sort_by_key_sorted. }
  destruct (LookupPath_sorted r p Hs) as [_ Hsome]. destruct Hsome as (e' & Hin & Hl & He').
  { rewrite Hpaths, <- Hp. apply list_elem_of_fmap_2. unfold sortEntries. by rewrite sort_by_key_perm. }
  exists e'. split; [done|].
  assert (forget_start e' ∈ forget_start <$> rEntries r) as Hfe by (by apply list_elem_of_fmap_2).
  rewrite Hents in Hfe. apply list_elem_of_fmap in Hfe as (e0 & Heq & He0).
  unfold sortEntries in He0. rewrite sort_by_key_perm in He0. rewrite Heq.
  assert (e0 = e) as ->; [|done].
  apply (key_unique Path es); [done|done|done|].
  transitivity (Path (forget_start e')); [|cbn; congruence]. by rewrite Heq.
Qed.

(** ** Properties *)

(** C9: a manifest that was written is read back: parsing the file a successful
    [Write] leaves at its path succeeds and gives the entries in the order of
    their paths with every field as it was added, the chunk references translated
    by the index map, the totals, and the digest that [Write] returned; the binary
    search by path finds each entry and no path that was not added. *)
Theorem tsm_write_read_back `{Digest} fs path es im tscSHA uuid now
    (Hw : writable es im tscSHA uuid now) (Hn : NoDup (Path <$> es)) :
  ∃ fs' w' sha data r,
    Write NoFault fs (filled es uuid now) path tscSHA im = (fs', w', Ret sha) ∧
    fs' !! path = Some data ∧ ParseTSM data = Ret r ∧
    rSHA256 r = sha ∧ TSCSHA r = tscSHA ∧
    th_FileCount (rHeader r) = Z.of_nat (length es) ∧
    th_TotalSize (rHeader r) = u64 (file_sizes es) ∧ th_CreationTime (rHeader r) = now ∧
    forget_start <$> rEntries r = (λ e, forget_start (with_refs im e)) <$> sortEntries es ∧
    (∀ e, e ∈ es → ∃ e', LookupPath r (Path e) = Some e' ∧
       forget_start e' = forget_start (with_refs im e)) ∧
    ∀ p, p ∉ Path <$> es → LookupPath r p = None.
Proof.
  destruct (Write_parses fs path es im tscSHA uuid now Hw)
    as (fs' & w' & es' & table & h & Hwr & Hp & Hf & Hparse & _).
  eexists _, _, _, _, _. split; [exact Hwr|]. split; [exact Hp|]. split; [exact Hparse|].
  pose proof (read_back_paths im es es' Hf) as Hpaths.
  split_and!; [done|done|done|done|done|by apply read_back_entries| |].
  - intros e He. by eapply lookup_read_back.
  - intros p Hnot. apply LookupPath_sorted; cbn [rEntries].
    + eapply sorted_by_paths; [exact Hpaths|]. apply sort_by_key_sorted.
    + rewrite Hpaths. unfold sortEntries. by rewrite sort_by_key_perm.
Qed.

Definition tsm_example : list TSMEntry :=
  [MkTSMEntry (bs "b/file") 0 0 33188 1000 1000 17 5 6 7 0 2 [1; 0] [] 0 0 0;
   MkTSMEntry (bs "a") 2 0 41471 0 0 0 (-5) 6 7 0 0 [] (bs "b/file") 0 0 0;
   MkTSMEntry (bs "dev") 5 0 8630 0 0 0 5 6 7 0 0 [] [] 0 1 3].

Lemma tsm_example_ok : writable tsm_example [1; 0] (replicate 32 "t"%byte) (replicate 8 "u"%byte) 42.
Proof.
  split; try done.
  - repeat constructor; unfold is_u16, is_u32, is_u64, is_i64; cbn; lia || done.
  - repeat constructor.
  - repeat constructor; unfold is_u32; lia.
  - repeat constructor; unfold is_u32; lia.
Qed.

Lemma tsm_write_read_back_witness :
  ∃ fs' w' sha data r e,
    Write (H := sha256_digest) NoFault ∅ (filled tsm_example (replicate 8 "u"%byte) 42)
      (bs "x.tsm") (replicate 32 "t"%byte) [1; 0] = (fs', w', Ret sha) ∧
    fs' !! bs "x.tsm" = Some data ∧ ParseTSM (H := sha256_digest) data = Ret r ∧
    LookupPath r (bs "b/file") = Some e ∧ ChunkRefs e = [0; 1].
Proof.
  destruct (tsm_write_read_back (H := sha256_digest) ∅ (bs "x.tsm") tsm_example [1; 0]
    (replicate 32 "t"%byte) (replicate 8 "u"%byte) 42)
    as (fs' & w' & sha & data & r & Hw & Hp & Hr & _ & _ & _ & _ & _ & _ & Hl & _).
  - apply tsm_example_ok.
  - by apply (bool_decide_unpack _).
  - destruct (Hl _ (list_elem_of_here _ _)) as (e & He & Hfe).
    exists fs', w', sha, data, r, e. split; [exact Hw|]. split; [exact Hp|]. split; [exact Hr|]. split; [exact He|].
    transitivity (ChunkRefs (forget_start e)); [done|]. by rewrite Hfe.
Defined.

(** C39: change times are not part of a manifest's identity: replacing the change
    times of a written manifest succeeds, gives a file of the same length that
    parses to the same entries with the new change times for the paths that have
    one, and keeps the digest, so the snapshot ID. *)
Theorem tsm_patch_keeps_identity `{Digest} fs path es im tscSHA uuid now ctimes
    (Hw : writable es im tscSHA uuid now) (Hc : map_Forall (λ _ c, is_i64 c) ctimes) :
  ∃ fs' w' sha data r data' r',
    Write NoFault fs (filled es uuid now) path tscSHA im = (fs', w', Ret sha) ∧
    fs' !! path = Some data ∧ ParseTSM data = Ret r ∧
    PatchEntryCtimes data ctimes = Ret data' ∧ ParseTSM data' = Ret r' ∧
    length data' = length data ∧
    rSHA256 r = sha ∧ rSHA256 r' = sha ∧ rHeader r' = rHeader r ∧
    ChunkRefTable r' = ChunkRefTable r ∧
    rEntries r' = patch_entry ctimes <$> rEntries r.
Proof.
  destruct (Write_parses fs path es im tscSHA uuid now Hw)
    as (fs' & w' & es' & table & h & Hwr & Hp & Hf & Hparse & Hpatch).
  destruct (Hpatch ctimes Hc) as [Hpa Hpb].
  eexists _, _, _, _, _, _, _. split; [exact Hwr|]. split; [exact Hp|]. split; [exact Hparse|].
  split; [exact Hpa|]. split; [exact Hpb|]. split; [|done].
  unfold file_bytes. rewrite !length_app, !length_sum256.
  assert (length (concat (encodeEntry <$> (patch_entry ctimes <$> es')))
    = length (concat (encodeEntry <$> es'))) as ->; [|done].
  clear. induction es' as [|e es' IH]; [done|]. cbn [fmap list_fmap concat].
  by rewrite !length_app, IH, !length_encodeEntry, patch_entry_size.
Qed.

Lemma tsm_patch_keeps_identity_witness :
  ∃ fs' w' sha data r data' r',
    Write (H := sha256_digest) NoFault ∅ (filled tsm_example (replicate 8 "u"%byte) 42)
      (bs "x.tsm") (replicate 32 "t"%byte) [1; 0] = (fs', w', Ret sha) ∧
    fs' !! bs "x.tsm" = Some data ∧ ParseTSM (H := sha256_digest) data = Ret r ∧
    PatchEntryCtimes data {[bs "a" := 99]} = Ret data' ∧
    ParseTSM (H := sha256_digest) data' = Ret r' ∧ rSHA256 r' = rSHA256 r.
Proof.
  destruct (tsm_patch_keeps_identity (H := sha256_digest) ∅ (bs "x.tsm") tsm_example [1; 0]
    (replicate 32 "t"%byte) (replicate 8 "u"%byte) 42 {[bs "a" := 99]})
    as (fs' & w' & sha & data & r & data' & r' & Hw & Hp & Hr & Hpa & Hr' & _ & Hs & Hs' & _).
  - apply tsm_example_ok.
  - apply map_Forall_singleton. unfold is_i64. lia.
  - exists fs', w', sha, data, r, data', r'. repeat (split; [assumption|]).
    exact (eq_trans Hs' (eq_sym Hs)).
Defined.

(** ** Parsing arbitrary bytes *)

Lemma populate_keeps_hash table es es' :
  populate_entries table es = Ret es' →
  encodeEntryForHash <$> es' = encodeEntryForHash <$> es.
Proof.
  revert es'. induction es as [|e es IH]; intros es' Hp; cbn [populate_entries] in Hp.
  { by injection Hp as <-. }
  apply bind_ret_inv in Hp as (e' & He & Hp). apply bind_ret_inv in Hp as (rest & Hr & Hp).
  injection Hp as <-. cbn [fmap list_fmap].
  assert (encodeEntryForHash e' = encodeEntryForHash e) as ->.
  { unfold populate_entry in He. destruct (0 <? _); [|by injection He as <-].
    inv_ret. done. }
  f_equal. by apply IH.
Qed.

Lemma parse_table_not_err data o n e : parse_table data o n ≠ Err e.
Proof.
  revert o. induction n as [|n IH]; intros o; [done|]. cbn [parse_table]. intros Herr.
  apply bind_err_inv in Herr as [?%field_not_err|(x & _ & Herr)]; [done|].
  apply bind_err_inv in Herr as [?%IH|(y & _ & ?)]; done.
Qed.

Lemma populate_not_fuel table es : populate_entries table es ≠ Err tsm_out_of_fuel.
Proof.
  induction es as [|e es IH]; [done|]. cbn [populate_entries]. intros Herr.
  apply bind_err_inv in Herr as [Herr|(x & _ & Herr)].
  - unfold populate_entry in Herr. destruct (0 <? _); [|done].
    apply bind_err_inv in Herr as [[_ ?]%guard_err_err|([] & _ & Herr)]; [done|].
    destruct (go_slice _ _ _); done.
  - apply bind_err_inv in Herr as [?|(y & _ & ?)]; done.
Qed.

Lemma or_panic_not_err {E A} (o : option A) (e : E) : or_panic o ≠ Err e.
Proof. by destruct o. Qed.

Section total.
Context `{Digest}.

Lemma ParseTSM_fuel data : ParseTSM data ≠ Err tsm_out_of_fuel.
Proof.
  unfold ParseTSM. intros Herr.
  apply bind_err_inv in Herr as [[_ ?]%guard_err_err|([] & Hlen & Herr)]; [done|].
  apply guard_err_ret in Hlen. reflect_bools. unfold TSMHeaderSize, TSMFooterSize in Hlen.
  apply bind_err_inv in Herr as [?%or_panic_not_err|(? & _ & Herr)]; [done|].
  apply bind_err_inv in Herr as [[_ ?]%guard_err_err|([] & _ & Herr)]; [done|].
  do 2 (apply bind_err_inv in Herr as [?%or_panic_not_err|(? & _ & Herr)]; [done|]).
  do 3 (apply bind_err_inv in Herr as [?%field_not_err|(? & _ & Herr)]; [done|]).
  apply bind_err_inv in Herr as [?%or_panic_not_err|(? & _ & Herr)]; [done|].
  apply bind_err_inv in Herr as [?%field_not_err|(? & _ & Herr)]; [done|].
  apply bind_err_inv in Herr as [?%or_panic_not_err|(? & _ & Herr)]; [done|].
  apply bind_err_inv in Herr as [Herr|([es o] & _ & Herr)].
  { revert Herr. apply parse_entries_fuel; unfold TSMHeaderSize, TSMFooterSize; lia. }
  apply bind_err_inv in Herr as [[_ ?]%guard_err_err|([] & _ & Herr)]; [done|].
  apply bind_err_inv in Herr as [?%parse_table_not_err|(? & _ & Herr)]; [done|].
  do 2 (apply bind_err_inv in Herr as [?%or_panic_not_err|(? & _ & Herr)]; [done|]).
  apply bind_err_inv in Herr as [[_ ?]%guard_err_err|([] & _ & Herr)]; [done|].
  apply bind_err_inv in Herr as [?%populate_not_fuel|(? & _ & Herr)]; done.
Qed.

(** The digest a parsed manifest reports is the one in its footer and that of the
    entries it holds. *)
Lemma ParseTSM_digest data r :
  ParseTSM data = Ret r →
  rSHA256 r = sum256 (hashed_content (take TSMHeaderSize data) (rEntries r) (ChunkRefTable r)) ∧
  rSHA256 r = take 32 (drop (length data - TSMFooterSize) data).
Proof.
  intros Hr. unfold ParseTSM in Hr.
  apply bind_ret_inv in Hr as ([] & Hlen & Hr). apply guard_err_ret in Hlen. reflect_bools.
  unfold TSMHeaderSize, TSMFooterSize in Hlen.
  apply bind_ret_inv in Hr as (magic & _ & Hr).
  apply bind_ret_inv in Hr as ([] & _ & Hr).
  apply bind_ret_inv in Hr as (footer & Hf & Hr). apply or_panic_ret in Hf.
  do 7 apply bind_ret_inv in Hr as (? & _ & Hr).
  apply bind_ret_inv in Hr as ([es o] & _ & Hr).
  apply bind_ret_inv in Hr as ([] & _ & Hr).
  apply bind_ret_inv in Hr as (table & _ & Hr).
  apply bind_ret_inv in Hr as (h & Hh & Hr). apply or_panic_ret in Hh.
  apply bind_ret_inv in Hr as (sha & Hs & Hr). apply or_panic_ret in Hs.
  apply bind_ret_inv in Hr as ([] & Hg & Hr). apply guard_err_ret in Hg. reflect_bools.
  apply bind_ret_inv in Hr as (es' & Hpop & Hr). injection Hr as <-.
  cbn [rSHA256 rEntries ChunkRefTable].
  pose proof (go_slice_length _ _ _ _ Hf) as [Hfl _].
  unfold TSMHeaderSize, TSMFooterSize in *.
  rewrite go_slice_some in Hh, Hf, Hs by lia. injection Hh as <-. injection Hf as <-.
  injection Hs as <-. split.
  - unfold hashed_content. by rewrite (populate_keeps_hash _ _ _ Hpop).
  - rewrite Hg. change (take (32 - 0) (drop 0 ?x)) with (take 32 x).
    rewrite drop_0. f_equal. apply take_ge. len_lia.
Qed.
End total.

(** C18: parsing is safe on any bytes: it never panics, although entries are decoded
    by offsets taken from the data, and its entry loop always ends, although the
    number of entries is a 64-bit field of the header; a manifest that is accepted
    carries in its footer the digest of the entries it was decoded to.  The patcher
    does not run forever either. *)
Theorem tsm_parse_safe `{Digest} data :
  no_panic (ParseTSM data) ∧ ParseTSM data ≠ Err tsm_out_of_fuel ∧
  ∀ r, ParseTSM data = Ret r →
    rSHA256 r = sum256 (hashed_content (take TSMHeaderSize data) (rEntries r) (ChunkRefTable r)) ∧
    rSHA256 r = take 32 (drop (length data - TSMFooterSize) data).
Proof.
  split; [apply ParseTSM_no_panic|]. split; [apply ParseTSM_fuel|]. intros r. apply ParseTSM_digest.
Qed.

(** The minimum length check does not count the path: an entry of 58 bytes with a
    path of 54 bytes is accepted, and its fields are read from the bytes of the
    entries behind it. *)
Lemma decode_reads_past_entry :
  decodeEntry (put16 58 ++ put16 54 ++ replicate 54 "p"%byte ++ replicate 54 Byte.x01) 58
  = Ret (MkTSMEntry (replicate 54 "p"%byte) 1 256 16843009 16843009 16843009
           72340172838076673 72340172838076673 72340172838076673 72340172838076673
           16843009 16843009 [] [] 0 0 0).
Proof. vm_compute. reflexivity. Qed.

(** ** From entries to chunks *)

Lemma map_ref_in (im : list Z) i x : im !! Z.to_nat i = Some x → map_ref im i = x.
Proof.
  intros Hi. unfold map_ref. pose proof (lookup_lt_Some _ _ _ Hi).
  replace (Z.to_nat i <? length im)%nat with true by lia.
  by apply list_lookup_total_correct.
Qed.

(** The references of an entry read back resolve, in the chunk list read back, to
    the digests of the chunks they named when they were added. *)
Lemma resolve_read_back (wc : TSCWriter) es es' rd hd sha e :
  Tsc.writer_ok wc → rEntries rd = with_refs (sortChunks wc).2 <$> es' →
  forget_start <$> es' = forget_start <$> sortEntries es → NoDup (Path <$> es) →
  e ∈ es → counts_ok e →
  Forall (λ i, 0 ≤ i < Z.of_nat (length (chunks wc))) (ChunkRefs e) →
  ∃ e', LookupPath rd (Path e) = Some e' ∧ Type_ e' = Type_ e ∧ ESize e' = ESize e ∧
    LinkIndex e' = LinkIndex e ∧
    GetFileChunkSHAs e' (MkTSCReader hd (sortChunks wc).1 sha)
      = (λ i, SHA256 (chunks wc !!! Z.to_nat i)) <$> ChunkRefs e.
Proof.
  intros Hok Hrd Hf Hn He Hce Hrefs.
  destruct (lookup_read_back (sortChunks wc).2 es es' rd (Path e) e) as (e' & Hl' & Hfe);
    [done|exact Hf|exact Hn|exact He|done|].
  assert (∀ A (f : TSMEntry → A), (∀ x, f (forget_start x) = f x) → f e' = f (with_refs (sortChunks wc).2 e)) as Hfield.
  { intros A f Hfs. by rewrite <- (Hfs e'), Hfe, Hfs. }
  exists e'. split; [exact Hl'|]. split; [by apply (Hfield _ Type_)|].
  split; [by apply (Hfield _ ESize)|]. split; [by apply (Hfield _ LinkIndex)|].
  assert (ChunkRefs e' = map_ref (sortChunks wc).2 <$> ChunkRefs e) as Href
    by (by apply (Hfield _ ChunkRefs)).
  assert (EChunkCount e' = EChunkCount e) as Hcnt by (by apply (Hfield _ EChunkCount)).
  unfold GetFileChunkSHAs. rewrite Hcnt, Hce, Href. cbn [Entries].
  destruct (ChunkRefs e) as [|i0 refs] eqn:Hce'; [done|]. rewrite <- Hce' in *.
  replace (Z.of_nat (length (ChunkRefs e)) =? 0) with false by (rewrite Hce'; cbn [length]; lia).
  rewrite bool_decide_eq_false_2 by (rewrite Hce'; done). cbn [orb].
  rewrite <- list_fmap_compose. apply list_fmap_ext. intros j i Hi. unfold compose.
  rewrite Forall_forall in Hrefs. specialize (Hrefs i (list_elem_of_lookup_2 _ _ _ Hi)).
  destruct (lookup_lt_is_Some_2 (chunks wc) (Z.to_nat i)) as [c Hc]; [lia|].
  destruct (Tsc.index_map_ok wc _ c (Tsc.ok_count _ Hok) Hc) as (k & Hk & Hkc).
  rewrite (map_ref_in _ _ _ Hk), Nat2Z.id.
  pose proof (lookup_lt_Some _ _ _ Hkc).
  replace (k <? length (sortChunks wc).1)%nat with true by lia.
  by rewrite (list_lookup_total_correct _ _ _ Hkc), (list_lookup_total_correct _ _ _ Hc).
Qed.

(** C10: a snapshot's files resolve to their chunks: when the chunk list is written
    from the chunks added and the manifest with the index map that this write
    returned, then for every entry whose references are the indices [AddChunk]
    gave, looking its references up after reading both files back gives the digests
    of the chunks it was made of, in order. *)
Theorem manifest_resolves_chunks `{Digest} fs path es l tscSHA uuid now
    (Hl : Forall Tsc.entry_ok l) (Hlen : Z.of_nat (length l) ≤ 2 ^ 32)
    (Hw : writable es (sortChunks (Tsc.add_all NewTSCWriter l)).2 tscSHA uuid now)
    (Hn : NoDup (Path <$> es)) :
  let wc := Tsc.add_all NewTSCWriter l in
  ∃ fs1 fs2 sha im w' sha' cdata data cr r,
    Tsc.Write NoFault fs wc (path ++ bs ".tsc") = (fs1, Ret (sha, im)) ∧
    fs1 !! (path ++ bs ".tsc") = Some cdata ∧ ParseTSC cdata = Ret cr ∧
    Write NoFault fs1 (filled es uuid now) (path ++ bs ".tsm") tscSHA im = (fs2, w', Ret sha') ∧
    fs2 !! (path ++ bs ".tsm") = Some data ∧ ParseTSM data = Ret r ∧
    ∀ e, e ∈ es → Forall (λ i, 0 ≤ i < Z.of_nat (length (chunks wc))) (ChunkRefs e) →
      ∃ e', LookupPath r (Path e) = Some e' ∧
        GetFileChunkSHAs e' cr = (λ i, SHA256 (chunks wc !!! Z.to_nat i)) <$> ChunkRefs e.
Proof.
  destruct (Tsc.add_all_ok NewTSCWriter l NewTSCWriter_ok Hl) as [Hok _]; [done|].
  cbn zeta. set (wc := Tsc.add_all NewTSCWriter l) in *.
  destruct (Tsc.Write_file fs wc (path ++ bs ".tsc") Hok) as (fs1 & Hcw & Hcp & Hcparse).
  destruct (Write_parses fs1 (path ++ bs ".tsm") es _ tscSHA uuid now Hw)
    as (fs2 & w' & es' & table & h & Hwr & Hp & Hf & Hparse & _).
  set (rd := MkTSMReader _ _ _ _ _) in Hparse.
  eexists fs1, fs2, _, _, w', _, _, _, _, rd.
  split; [exact Hcw|]. split; [exact Hcp|]. split; [exact Hcparse|].
  split; [exact Hwr|]. split; [exact Hp|]. split; [exact Hparse|].
  intros e He Hrefs.
  destruct (resolve_read_back wc es es' rd
    (MkTSCHeader TSCMagic 0 (Z.of_nat (length (chunks wc))) (totalSize wc) 0 0)
    (sum256 (tsc_content (Z.of_nat (length (chunks wc))) (totalSize wc) (sortChunks wc).1)) e)
    as (e' & Hl' & _ & _ & _ & Hg); [done|done|done|done|done| |done|].
  { pose proof (wr_counts _ _ _ _ _ Hw) as Hc. rewrite Forall_forall in Hc. by apply Hc. }
  exists e'. split; [exact Hl'|exact Hg].
Qed.

Lemma manifest_resolves_chunks_witness :
  ∃ fs1 fs2 sha im w' sha' cdata data cr r e',
    Tsc.Write (H := sha256_digest) NoFault ∅ (Tsc.add_all NewTSCWriter tsc_example)
      (bs "s" ++ bs ".tsc") = (fs1, Ret (sha, im)) ∧
    fs1 !! (bs "s" ++ bs ".tsc") = Some cdata ∧
    ParseTSC (H := sha256_digest) cdata = Ret cr ∧
    Write (H := sha256_digest) NoFault fs1 (filled tsm_example (replicate 8 "u"%byte) 42)
      (bs "s" ++ bs ".tsm") (replicate 32 "t"%byte) im = (fs2, w', Ret sha') ∧
    fs2 !! (bs "s" ++ bs ".tsm") = Some data ∧ ParseTSM (H := sha256_digest) data = Ret r ∧
    LookupPath r (bs "b/file") = Some e' ∧
    GetFileChunkSHAs e' cr = [replicate 32 "a"%byte; replicate 32 "b"%byte].
Proof.
  destruct (manifest_resolves_chunks (H := sha256_digest) ∅ (bs "s") tsm_example tsc_example
    (replicate 32 "t"%byte) (replicate 8 "u"%byte) 42)
    as (fs1 & fs2 & sha & im & w' & sha' & cdata & data & cr & r & H1 & H2 & H3 & H4 & H5 & H6 & Hr).
  - apply tsc_example_ok.
  - vm_compute. discriminate.
  - replace (sortChunks (Tsc.add_all NewTSCWriter tsc_example)).2 with [1; 0]
      by (vm_compute; reflexivity).
    apply tsm_example_ok.
  - by apply (bool_decide_unpack _).
  - destruct (Hr _ (list_elem_of_here _ _)) as (e' & Hl & Hg).
    { apply (bool_decide_unpack _). vm_compute. exact I. }
    exists fs1, fs2, sha, im, w', sha', cdata, data, cr, r, e'.
    repeat (split; [assumption|]). rewrite Hg. vm_compute. reflexivity.
Defined.
