(* ===== verification/ChunkIndex.v ===== *)
(** * The index over the chunks of all local snapshots ([src/tsm/chunkindex.go])

    Lazy, LRU-capped views of the per-snapshot chunk lists, searched in
    most-recently-used order behind a Bloom filter and a negative cache.  The disk
    is a map from paths to file contents and a set of existing paths; it does not
    change while the index is used, which is what the code relies on (chunk lists
    are immutable once renamed into place). *)

From Stdlib Require Import Strings.String.
From S2P Require Import GoSort Prelude GoStrings GoPath GoIO Sha256 Tsc Tsm Bloom.

(** ** The disk *)

Record disk := Disk {
  d_files : gmap gostring (list byte);   (* what [os.ReadFile] returns *)
  d_exists : gset gostring;              (* what [os.Stat] finds *)
}.

(** ** Raw views of chunk lists *)

Record tscView := MkView {
  v_data : list byte;
  v_count : Z;
  entriesOff : nat;
  entrySize : nat;
}.

Inductive tsc_read_error :=
| tsc_not_found | tsc_short | tsc_magic | tsc_count_implausible | tsc_content_short
| tsc_count_inconsistent | tsc_checksum.

Definition checkTSCCountConsistent (count contentLen : Z) : outcome tsc_read_error unit :=
  _ ← guard_err (count >? 2 ^ 32) tsc_count_implausible;
  let entriesLen := contentLen - Z.of_nat TSCHeaderSize in
  _ ← guard_err (entriesLen <? 0) tsc_content_short;
  guard_err (negb (count * Z.of_nat TSCEntrySize =? entriesLen)) tsc_count_inconsistent.

(** [readTSCChunkCount]: the header only; [io.ReadFull] fails on a short file. *)
Definition readTSCChunkCount (d : disk) (path : gostring) : outcome tsc_read_error Z :=
  data ← or_err (d_files d !! path) tsc_not_found;
  hdr ← or_err (go_slice data 0 TSCHeaderSize) tsc_short;
  magic ← or_panic (go_slice hdr 0 4);
  _ ← guard_err (negb (bool_decide (magic = TSCMagic))) tsc_magic;
  count ← field hdr 8 16;
  _ ← checkTSCCountConsistent count (Z.of_nat (length data) - Z.of_nat TSCFooterSize);
  Ret count.

(** The structural checks shared by the two readers, and the content. *)
Definition readTSCContent (d : disk) (path : gostring) : outcome tsc_read_error (list byte) :=
  data ← or_err (d_files d !! path) tsc_not_found;
  _ ← guard_err (length data <? TSCHeaderSize + TSCFooterSize)%nat tsc_short;
  magic ← or_panic (go_slice data 0 4);
  _ ← guard_err (negb (bool_decide (magic = TSCMagic))) tsc_magic;
  count ← field data 8 16;
  _ ← checkTSCCountConsistent count (Z.of_nat (length data - TSCFooterSize));
  or_panic (go_slice data 0 (length data - TSCFooterSize)).

Definition readTSCContentValidated `{Digest} (d : disk) (path : gostring)
    : outcome tsc_read_error (list byte) :=
  data ← or_err (d_files d !! path) tsc_not_found;
  _ ← guard_err (length data <? TSCHeaderSize + TSCFooterSize)%nat tsc_short;
  magic ← or_panic (go_slice data 0 4);
  _ ← guard_err (negb (bool_decide (magic = TSCMagic))) tsc_magic;
  count ← field data 8 16;
  _ ← checkTSCCountConsistent count (Z.of_nat (length data - TSCFooterSize));
  footer ← or_panic (go_slice data (length data - TSCFooterSize) (length data));
  content ← or_panic (go_slice data 0 (length data - TSCFooterSize));
  _ ← guard_err (negb (bool_decide (sum256 content = footer))) tsc_checksum;
  Ret content.

Definition newTSCView (content : list byte) : option tscView :=
  if (length content <? TSCHeaderSize)%nat then None
  else Some (MkView content (i64 (be_get (take 8 (drop 8 content)))) TSCHeaderSize TSCEntrySize).

(** The digest at an entry's offset. *)
Definition view_sha (v : tscView) (off : nat) : list byte := take 32 (drop off (v_data v)).
Definition view_size (v : tscView) (off : nat) : Z := be_get (take 4 (drop (off + 32) (v_data v))).

Definition lookup (v : tscView) (sha : list byte) : option Z :=
  if v_count v =? 0 then None
  else
    let idx := sort_search (Z.to_nat (v_count v)) (λ i,
      let off := (entriesOff v + i * entrySize v)%nat in
      if (length (v_data v) <? off + 32)%nat then true
      else negb (go_ltb (view_sha v off) sha)) in
    if (Z.of_nat idx <? v_count v) then
      let off := (entriesOff v + idx * entrySize v)%nat in
      if (length (v_data v) <? off + TSCEntrySize)%nat then None
      else if bool_decide (view_sha v off = sha) then Some (view_size v off) else None
    else None.

Definition entryByIndex (v : tscView) (i : Z) : option (list byte * Z) :=
  if (i <? 0) || (i >=? v_count v) then None
  else
    let off := (entriesOff v + Z.to_nat i * entrySize v)%nat in
    if (length (v_data v) <? off + TSCEntrySize)%nat then None
    else Some (view_sha v off, view_size v off).

(** [streamTSCSHAs]: the digests handed to the callback, in order. *)
Fixpoint stream_loop (n : nat) (content : list byte) (off : nat) : list (list byte) :=
  match n with
  | O => []
  | S n' =>
      let end_ := (off + TSCEntrySize)%nat in
      if (length content <? end_)%nat then []
      else take 32 (drop off content) :: stream_loop n' content end_
  end.

(** The loop ends with the data, whatever the count, so the number of entries
    the data has room for bounds it. *)
Definition streamTSCSHAs (content : list byte) : list (list byte) :=
  if (length content <? TSCHeaderSize)%nat then []
  else
    let count := i64 (be_get (take 8 (drop 8 content))) in
    stream_loop (Nat.min (Z.to_nat count) (length content)) content TSCHeaderSize.

(** ** The index *)

Record chunkLoc := MkLoc { fileIdx : Z; offset : Z }.

Record snapIdx := MkSnap {
  snapID : gostring;
  snapDir : gostring;
  tscPath : gostring;
  tsmPath : gostring;
  s_tsc : option tscView;
  tscLoaded : bool;
  locMap : option (gmap (list byte) chunkLoc);
  locBuilt : bool;
  filePaths : list gostring;
}.

Record ChunkIndex := MkIndex {
  snaps : list snapIdx;                 (* most recently used first *)
  bloom : option bloomFilter;
  absentCache : option (gset (list byte));
  maxAbsentCache : Z;
  maxOpenTSC : nat;
  maxLocMaps : nat;
}.

Record ChunkLocation := MkLocation {
  cl_SHA256 : list byte;
  Filename : gostring;
  cl_Offset : Z;
  cl_Size : Z;
}.

#[export] Instance snapIdx_inhabited : Inhabited snapIdx :=
  populate (MkSnap [] [] [] [] None false None false []).

Definition set_tsc (s : snapIdx) (t : option tscView) (loaded : bool) : snapIdx :=
  MkSnap (snapID s) (snapDir s) (tscPath s) (tsmPath s) t loaded (locMap s) (locBuilt s)
    (filePaths s).
Definition set_loc (s : snapIdx) (m : option (gmap (list byte) chunkLoc)) (built : bool)
    (paths : list gostring) : snapIdx :=
  MkSnap (snapID s) (snapDir s) (tscPath s) (tsmPath s) (s_tsc s) (tscLoaded s) m built paths.
Definition set_snaps (ci : ChunkIndex) (l : list snapIdx) : ChunkIndex :=
  MkIndex l (bloom ci) (absentCache ci) (maxAbsentCache ci) (maxOpenTSC ci) (maxLocMaps ci).

(** *** Eviction *)

Definition tsc_held (s : snapIdx) : bool := tscLoaded s && bool_decide (is_Some (s_tsc s)).
Definition loc_held (s : snapIdx) : bool := locBuilt s && bool_decide (is_Some (locMap s)).

Fixpoint count_held (held : snapIdx → bool) (l : list snapIdx) : nat :=
  match l with [] => 0 | s :: l' => (if held s then 1 else 0) + count_held held l' end.

(** The last position other than [keep] that holds something. *)
Fixpoint find_victim (held : snapIdx → bool) (l : list snapIdx) (keep : nat) (j : nat) : option nat :=
  match j with
  | O => None
  | S j' =>
      if negb (j' =? keep)%nat && held (l !!! j') then Some j' else find_victim held l keep j'
  end.

(** The eviction loop: each iteration drops one buffer, so the number held bounds
    it. *)
Fixpoint evict (fuel : nat) (held : snapIdx → bool) (drop_ : snapIdx → snapIdx) (cap : nat)
    (keep : nat) (held_n : nat) (l : list snapIdx) : list snapIdx :=
  match fuel with
  | O => l
  | S fuel' =>
      if (cap <? held_n)%nat then
        match find_victim held l keep (length l) with
        | None => l
        | Some j => evict fuel' held drop_ cap keep (held_n - 1) (<[j := drop_ (l !!! j)]> l)
        end
      else l
  end.

Definition evictLRUTSCLocked (ci : ChunkIndex) (keep : nat) : ChunkIndex :=
  let n := count_held tsc_held (snaps ci) in
  set_snaps ci (evict n tsc_held (λ s, set_tsc s None false) (maxOpenTSC ci) keep n (snaps ci)).

Definition evictLRULocMapLocked (ci : ChunkIndex) (keep : nat) : ChunkIndex :=
  let n := count_held loc_held (snaps ci) in
  set_snaps ci (evict n loc_held (λ s, set_loc s None false []) (maxLocMaps ci) keep n (snaps ci)).

(** *** Loading *)

Definition loadTSCLocked (d : disk) (ci : ChunkIndex) (i : nat) : ChunkIndex :=
  let s := snaps ci !!! i in
  match readTSCContent d (tscPath s) with
  | Ret content =>
      evictLRUTSCLocked (set_snaps ci (<[i := set_tsc s (newTSCView content) true]> (snaps ci))) i
  | _ => set_snaps ci (<[i := set_tsc s None true]> (snaps ci))
  end.


(** The references of one file: each digest keeps its first location. *)
Fixpoint loc_refs (v : tscView) (fidx : Z) (refs : list Z) (off : Z)
    (m : gmap (list byte) chunkLoc) : gmap (list byte) chunkLoc :=
  match refs with
  | [] => m
  | tscIdx :: refs' =>
      match entryByIndex v tscIdx with
      | None => m
      | Some (sha, size) =>
          let m' := match m !! sha with
                    | Some _ => m
                    | None => <[sha := MkLoc fidx off]> m
                    end in
          loc_refs v fidx refs' (off + size) m'
      end
  end.

Fixpoint loc_entries (d : disk) (dir : gostring) (v : tscView) (es : list TSMEntry)
    (m : gmap (list byte) chunkLoc) (paths : list gostring)
    : gmap (list byte) chunkLoc * list gostring :=
  match es with
  | [] => (m, paths)
  | fe :: es' =>
      if negb (Type_ fe =? EntryTypeFile) || (EChunkCount fe =? 0) then
        loc_entries d dir v es' m paths
      else
        let fp := JoinPath dir (Path fe) in
        if bool_decide (fp ∉ d_exists d) then loc_entries d dir v es' m paths
        else
          loc_entries d dir v es' (loc_refs v (u32 (Z.of_nat (length paths))) (ChunkRefs fe) 0 m)
            (paths ++ [fp])
  end.

Section index.
Context `{Digest}.

Definition ReadTSM (d : disk) (path : gostring) : option TSMReader :=
  match d_files d !! path with
  | None => None
  | Some data => match ParseTSM data with Ret r => Some r | _ => None end
  end.

Definition buildLocMapLocked (d : disk) (ci : ChunkIndex) (i : nat) : ChunkIndex :=
  let s := snaps ci !!! i in
  let built := set_loc s (locMap s) true (filePaths s) in
  match s_tsc s with
  | None => set_snaps ci (<[i := built]> (snaps ci))
  | Some v =>
      match ReadTSM d (tsmPath s) with
      | None => set_snaps ci (<[i := built]> (snaps ci))
      | Some tsm =>
          let '(m, paths) := loc_entries d (snapDir s) v (rEntries tsm) ∅ [] in
          evictLRULocMapLocked
            (set_snaps ci (<[i := set_loc s (Some m) true paths]> (snaps ci))) i
      end
  end.

Definition moveToFrontLocked (ci : ChunkIndex) (i : nat) : ChunkIndex :=
  if (i =? 0)%nat then ci
  else
    let s := snaps ci !!! i in
    set_snaps ci (s :: take i (snaps ci) ++ drop (i + 1) (snaps ci)).

(** The search loop, over the positions from [i]. *)
Fixpoint find_loop (fuel : nat) (d : disk) (ci : ChunkIndex) (sha : list byte) (i : nat)
    : ChunkIndex * option ChunkLocation :=
  match fuel with
  | O => (ci, None)
  | S fuel' =>
      if (i <? length (snaps ci))%nat then
        let ci1 := if tscLoaded (snaps ci !!! i) then ci else loadTSCLocked d ci i in
        match s_tsc (snaps ci1 !!! i) with
        | None => find_loop fuel' d ci1 sha (i + 1)
        | Some v =>
            match lookup v sha with
            | None => find_loop fuel' d ci1 sha (i + 1)
            | Some size =>
                let ci2 := if locBuilt (snaps ci1 !!! i) then ci1 else buildLocMapLocked d ci1 i in
                let s := snaps ci2 !!! i in
                match locMap s ≫= (λ m, m !! sha) with
                | None => find_loop fuel' d ci2 sha (i + 1)
                | Some loc =>
                    (moveToFrontLocked ci2 i,
                     Some (MkLocation sha (filePaths s !!! Z.to_nat (fileIdx loc)) (offset loc) size))
                end
            end
        end
      else (ci, None)
  end.

(** A Bloom test that panics would be an index out of range; the invariant rules
    it out, and the default is the answer that continues. *)
Definition bloom_rejects (ci : ChunkIndex) (sha : list byte) : bool :=
  match bloom ci with
  | None => false
  | Some b => match test b sha with Ret r => negb r | _ => false end
  end.

Definition is_absent (ci : ChunkIndex) (sha : list byte) : bool :=
  match absentCache ci with None => false | Some c => bool_decide (sha ∈ c) end.

Definition remember_absent (ci : ChunkIndex) (sha : list byte) : ChunkIndex :=
  match absentCache ci with
  | None => ci
  | Some c =>
      if Z.of_nat (size c) <? maxAbsentCache ci then
        MkIndex (snaps ci) (bloom ci) (Some ({[sha]} ∪ c)) (maxAbsentCache ci) (maxOpenTSC ci)
          (maxLocMaps ci)
      else ci
  end.

Definition FindChunk (d : disk) (ci : ChunkIndex) (sha : list byte)
    : ChunkIndex * option ChunkLocation :=
  if bloom_rejects ci sha then (ci, None)
  else if is_absent ci sha then (ci, None)
  else
    match find_loop (length (snaps ci)) d ci sha 0 with
    | (ci', Some loc) => (ci', Some loc)
    | (ci', None) => (remember_absent ci' sha, None)
    end.

Definition SnapCount (ci : ChunkIndex) : nat := length (snaps ci).

(** *** Opening *)

Definition defaultMaxOpenTSC : nat := 16.
Definition defaultMaxLocMaps : nat := 8.
Definition defaultMaxAbsentCache : Z := Z.shiftl 1 20.

(** What [os.ReadDir] answers: the names with whether they are directories. *)
Inductive listing := DirMissing | DirError | DirEntries (l : list (gostring * bool)).

(** The first pass: the snapshots of the directory, and their chunk counts. *)
Fixpoint discover (d : disk) (snapsDir : gostring) (l : list (gostring * bool)) : list snapIdx * Z :=
  match l with
  | [] => ([], 0)
  | (name, isDir) :: l' =>
      let '(rest, total) := discover d snapsDir l' in
      let base := TrimSuffix name (bs ".tsc") in
      let tscPath := JoinPath snapsDir name in
      let tsmPath := JoinPath snapsDir (base ++ bs ".tsm") in
      let snapDir := JoinPath snapsDir base in
      if isDir || negb (HasSuffix name (bs ".tsc")) || HasSuffix base (bs ".tmp")
         || bool_decide (tsmPath ∉ d_exists d) || bool_decide (snapDir ∉ d_exists d)
      then (rest, total)
      else
        match readTSCChunkCount d tscPath with
        | Ret count =>
            (MkSnap base snapDir tscPath tsmPath None false None false [] :: rest,
             u64 (count + total))
        | _ => (rest, total)
        end
  end.

(** The second pass: drop the snapshots whose list does not validate, and collect
    the digests of the others. *)
Fixpoint validate (d : disk) (l : list snapIdx) : list snapIdx * list (list byte) :=
  match l with
  | [] => ([], [])
  | s :: l' =>
      let '(good, keys) := validate d l' in
      match readTSCContentValidated d (tscPath s) with
      | Ret content => (s :: good, streamTSCSHAs content ++ keys)
      | _ => (good, keys)
      end
  end.

Definition OpenChunkIndexWith (float_m : Z → Z) (float_k : Z → Z → Z) (d : disk)
    (snapsDir : gostring) (entries : listing) (openTSC locMaps : Z)
    : outcome unit ChunkIndex :=
  let openTSC := if openTSC <=? 0 then defaultMaxOpenTSC else Z.to_nat openTSC in
  let locMaps := if locMaps <=? 0 then defaultMaxLocMaps else Z.to_nat locMaps in
  match entries with
  | DirMissing => Ret (MkIndex [] None (Some ∅) defaultMaxAbsentCache openTSC locMaps)
  | DirError => Err tt
  | DirEntries l =>
      let '(found, totalChunks) := discover d snapsDir l in
      let '(good, keys) := validate d (sort_by_key snapID found) in
      bloom ← add_all (newBloomFilter float_m float_k totalChunks) keys;
      Ret (MkIndex good (Some bloom) (Some ∅) defaultMaxAbsentCache openTSC locMaps)
  end.

Definition OpenChunkIndex (float_m : Z → Z) (float_k : Z → Z → Z) (d : disk)
    (snapsDir : gostring) (entries : listing) : outcome unit ChunkIndex :=
  OpenChunkIndexWith float_m float_k d snapsDir entries 0 0.

End index.

(** ** Eviction keeps the caps and nothing else *)

(** A snapshot without its lazy state. *)
Definition cold (s : snapIdx) : snapIdx := set_loc (set_tsc s None false) None false [].

Section eviction.
Context (held : snapIdx → bool) (drop_ : snapIdx → snapIdx).
Hypothesis drop_free : ∀ s, held (drop_ s) = false.
Hypothesis drop_cold : ∀ s, cold (drop_ s) = cold s.

Lemma count_insert l j :
  (j < length l)%nat → held (l !!! j) = true →
  S (count_held held (<[j := drop_ (l !!! j)]> l)) = count_held held l.
Proof.
  revert j. induction l as [|s l IH]; intros [|j]; cbn [length]; try lia; intros Hj.
  - change ((s :: l) !!! 0%nat) with s. intros Hs.
    change (<[0%nat := drop_ s]> (s :: l)) with (drop_ s :: l). cbn [count_held].
    rewrite drop_free, Hs. lia.
  - change ((s :: l) !!! S j) with (l !!! j). intros Hs.
    change (<[S j := drop_ (l !!! j)]> (s :: l)) with (s :: <[j := drop_ (l !!! j)]> l).
    cbn [count_held]. specialize (IH j ltac:(lia) Hs). lia.
Qed.

Lemma find_victim_some l keep n j :
  find_victim held l keep n = Some j → (j < n)%nat ∧ j ≠ keep ∧ held (l !!! j) = true.
Proof.
  induction n as [|n IH]; cbn [find_victim]; [done|].
  destruct (negb (n =? keep)%nat && held (l !!! n)) eqn:Hc.
  - intros [= ->]. reflect_bools. split_and!; [lia|done|done].
  - intros Hf. apply IH in Hf as (? & ? & ?). split_and!; [lia|done|done].
Qed.

Lemma find_victim_none l keep n :
  find_victim held l keep n = None → ∀ j, (j < n)%nat → j ≠ keep → held (l !!! j) = false.
Proof.
  induction n as [|n IH]; cbn [find_victim]; [lia|].
  destruct (negb (n =? keep)%nat && held (l !!! n)) eqn:Hc; [done|].
  intros Hf j Hj Hk. destruct (decide (j = n)) as [->|]; [|apply IH; [done|lia|done]].
  apply andb_false_iff in Hc as [Hc|Hc]; [|done]. reflect_bools. done.
Qed.

Lemma count_only l keep :
  (∀ j, (j < length l)%nat → j ≠ keep → held (l !!! j) = false) → (count_held held l ≤ 1)%nat.
Proof.
  revert keep. induction l as [|s l IH]; intros keep Hk; cbn [count_held]; [lia|].
  destruct keep as [|keep].
  - assert (count_held held l = 0)%nat as ->; [|destruct (held s); lia].
    clear IH. assert (∀ j, (j < length l)%nat → held (l !!! j) = false) as Hl.
    { intros j Hj. apply (Hk (S j)); cbn [length]; lia. }
    clear Hk. induction l as [|x l IH]; cbn [count_held]; [done|].
    assert (held x = false) as -> by (apply (Hl 0%nat); cbn [length]; lia). apply IH. intros j Hj. apply (Hl (S j)).
    cbn [length]. lia.
  - assert (held s = false) as -> by (apply (Hk 0%nat); cbn [length]; lia). apply (IH keep). intros j Hj Hne.
    apply (Hk (S j)); cbn [length]; lia.
Qed.

(** The loop brings the number held under the cap, keeps [keep], and changes no
    snapshot's identity. *)
Lemma evict_spec fuel cap keep l P :
  (∀ s, P s → P (drop_ s)) →
  (count_held held l ≤ fuel)%nat → (1 ≤ cap)%nat → (keep < length l)%nat → Forall P l →
  let l' := evict fuel held drop_ cap keep (count_held held l) l in
  (count_held held l' ≤ cap)%nat ∧ l' !!! keep = l !!! keep ∧ cold <$> l' = cold <$> l ∧
  length l' = length l ∧ Forall P l'.
Proof.
  intros HP. revert l. induction fuel as [|fuel IH]; intros l Hf Hcap Hk Hl; cbn [evict]; cbn zeta.
  { split_and!; [lia|done..]. }
  destruct (cap <? count_held held l)%nat eqn:Hc; reflect_bools; [|done].
  destruct (find_victim held l keep (length l)) as [j|] eqn:Hv.
  - apply find_victim_some in Hv as (Hj & Hne & Hh).
    pose proof (count_insert l j Hj Hh) as Hcount.
    set (l1 := <[j := drop_ (l !!! j)]> l) in *.
    replace (count_held held l - 1)%nat with (count_held held l1) by lia.
    destruct (IH l1) as (H1 & H2 & H3 & H4 & H5); [lia|done|unfold l1; by rewrite length_insert| |].
    { unfold l1. apply Forall_insert; [done|]. apply HP.
      by apply Forall_lookup_total_1. }
    split_and!; [done| | | |done].
    + rewrite H2. unfold l1. by rewrite list_lookup_total_insert_ne.
    + rewrite H3. unfold l1. rewrite list_fmap_insert, drop_cold.
      apply list_insert_id. rewrite list_lookup_fmap.
      by rewrite (list_lookup_lookup_total_lt l j Hj).
    + rewrite H4. unfold l1. apply length_insert.
  - split_and!; [|done..].
    pose proof (count_only l keep (find_victim_none l keep (length l) Hv)). lia.
Qed.
End eviction.

(** ** What a lookup means: the first snapshot that has the chunk on disk *)

Section lookup.
Context `{Digest} (d : disk).

(** The view and the location map a snapshot's files give. *)
Definition snap_view (s : snapIdx) : option tscView :=
  match readTSCContent d (tscPath s) with Ret content => newTSCView content | _ => None end.

Definition snap_locs (s : snapIdx) : option (gmap (list byte) chunkLoc * list gostring) :=
  v ← snap_view s;
  tsm ← ReadTSM d (tsmPath s);
  Some (loc_entries d (snapDir s) v (rEntries tsm) ∅ []).

(** Where a snapshot has a chunk. *)
Definition resolve (s : snapIdx) (sha : list byte) : option ChunkLocation :=
  v ← snap_view s;
  size ← lookup v sha;
  '(m, paths) ← snap_locs s;
  loc ← m !! sha;
  Some (MkLocation sha (paths !!! Z.to_nat (fileIdx loc)) (offset loc) size).

(** The position of the first snapshot that has it. *)
Fixpoint first_hit (l : list snapIdx) (sha : list byte) : option (nat * ChunkLocation) :=
  match l with
  | [] => None
  | s :: l' =>
      match resolve s sha with
      | Some loc => Some (0%nat, loc)
      | None => '(i, loc) ← first_hit l' sha; Some (S i, loc)
      end
  end.

Definition to_front {A} `{Inhabited A} (i : nat) (l : list A) : list A :=
  if (i =? 0)%nat then l else (l !!! i) :: take i l ++ drop (i + 1) l.

(** What is loaded is what the files give. *)
Record snap_ok (s : snapIdx) : Prop := {
  sk_tsc : tscLoaded s = true → s_tsc s = snap_view s;
  sk_cold : locBuilt s = false → locMap s = None;
  sk_loc : locBuilt s = true → locMap s = fst <$> snap_locs s;
  sk_paths : locBuilt s = true → ∀ m p, snap_locs s = Some (m, p) → filePaths s = p;
}.

Lemma snap_ok_drop_tsc s : snap_ok s → snap_ok (set_tsc s None false).
Proof. intros []. by split. Qed.

Lemma snap_ok_drop_loc s : snap_ok s → snap_ok (set_loc s None false []).
Proof. intros []. by split. Qed.

Record index_ok (ci : ChunkIndex) : Prop := {
  ix_snaps : Forall snap_ok (snaps ci);
  ix_tsc_cap : (1 ≤ maxOpenTSC ci)%nat ∧ (count_held tsc_held (snaps ci) ≤ maxOpenTSC ci)%nat;
  ix_loc_cap : (1 ≤ maxLocMaps ci)%nat ∧ (count_held loc_held (snaps ci) ≤ maxLocMaps ci)%nat;
}.

Lemma count_held_insert_same held (l : list snapIdx) i s :
  (i < length l)%nat → held s = held (l !!! i) →
  count_held held (<[i := s]> l) = count_held held l.
Proof.
  revert i. induction l as [|x l IH]; intros [|i] Hi; cbn [length] in Hi; try lia.
  - change ((x :: l) !!! 0%nat) with x. change (<[0%nat := s]> (x :: l)) with (s :: l).
    cbn [count_held]. by intros ->.
  - change ((x :: l) !!! S i) with (l !!! i).
    change (<[S i := s]> (x :: l)) with (x :: <[i := s]> l). cbn [count_held]. intros Hh.
    rewrite (IH i); [done|lia|done].
Qed.

(** Changing a snapshot's state without loading or dropping anything. *)
Lemma insert_plain ci i s :
  index_ok ci → (i < length (snaps ci))%nat → snap_ok s → cold s = cold (snaps ci !!! i) →
  tsc_held s = tsc_held (snaps ci !!! i) → loc_held s = loc_held (snaps ci !!! i) →
  index_ok (set_snaps ci (<[i := s]> (snaps ci))) ∧
  cold <$> <[i := s]> (snaps ci) = cold <$> snaps ci ∧
  <[i := s]> (snaps ci) !!! i = s.
Proof.
  intros [Hs [Ht1 Ht2] [Hl1 Hl2]] Hi Hok Hc Ht Hl. split_and!.
  - split; cbn [snaps set_snaps maxOpenTSC maxLocMaps]; [by apply Forall_insert| |];
      (split; [done|]); rewrite count_held_insert_same; done.
  - rewrite list_fmap_insert. apply list_insert_id. rewrite list_lookup_fmap, Hc.
    by rewrite (list_lookup_lookup_total_lt _ i Hi).
  - by apply list_lookup_total_insert_eq.
Qed.

(** Replacing the state of a snapshot, then evicting down to the cap. *)
Lemma insert_evict held drop_ cap i s (l : list snapIdx) :
  (∀ x, held (drop_ x) = false) → (∀ x, cold (drop_ x) = cold x) →
  (∀ x, snap_ok x → snap_ok (drop_ x)) →
  (1 ≤ cap)%nat → (i < length l)%nat → Forall snap_ok l → snap_ok s → cold s = cold (l !!! i) →
  let l1 := <[i := s]> l in
  let n := count_held held l1 in
  let l' := evict n held drop_ cap i n l1 in
  (count_held held l' ≤ cap)%nat ∧ l' !!! i = s ∧ cold <$> l' = cold <$> l ∧ Forall snap_ok l'.
Proof.
  intros Hd Hc Hp Hcap Hi Hl Hs Hcold. cbn zeta.
  assert (i < length (<[i := s]> l))%nat as Hi' by (by rewrite length_insert).
  destruct (evict_spec held drop_ Hd Hc (count_held held (<[i := s]> l)) cap i (<[i := s]> l) snap_ok)
    as (H1 & H2 & H3 & _ & H5); [done|done|done|done|by apply Forall_insert|].
  split_and!; [done| | |done].
  - rewrite H2. by apply list_lookup_total_insert_eq.
  - rewrite H3, list_fmap_insert. apply list_insert_id.
    rewrite list_lookup_fmap, Hcold. by rewrite (list_lookup_lookup_total_lt l i Hi).
Qed.

(** Dropping one kind of buffer leaves the other kind's count. *)
Lemma count_evict_other held held' drop_ fuel cap keep n (l : list snapIdx) :
  (∀ x, held' (drop_ x) = held' x) →
  count_held held' (evict fuel held drop_ cap keep n l) = count_held held' l.
Proof.
  intros Hd. revert n l. induction fuel as [|fuel IH]; intros n l; cbn [evict]; [done|].
  destruct (cap <? n)%nat; [|done].
  destruct (find_victim held l keep (length l)) as [j|] eqn:Hv; [|done].
  rewrite IH. apply find_victim_some in Hv as (Hj & _ & _).
  by apply count_held_insert_same.
Qed.

(** Loading a list establishes its view and keeps the invariant. *)
Lemma load_ok ci i :
  index_ok ci → (i < length (snaps ci))%nat → tscLoaded (snaps ci !!! i) = false →
  let ci1 := loadTSCLocked d ci i in
  index_ok ci1 ∧ cold <$> snaps ci1 = cold <$> snaps ci ∧
  s_tsc (snaps ci1 !!! i) = snap_view (snaps ci !!! i) ∧
  ci1 = set_snaps ci (snaps ci1).
Proof.
  intros [Hs [Ht1 Ht2] [Hl1 Hl2]] Hi Hnl. cbn zeta. unfold loadTSCLocked.
  set (s := snaps ci !!! i).
  assert (snap_ok s) as [] by (by apply Forall_lookup_total_1).
  destruct (readTSCContent d (tscPath s)) as [content|e|] eqn:Hr.
  - set (s' := set_tsc s (newTSCView content) true).
    assert (snap_ok s') as Hs'.
    { split; try done. intros _. cbn. unfold snap_view. cbn. by rewrite Hr. }
    unfold evictLRUTSCLocked. cbn [snaps set_snaps maxOpenTSC maxLocMaps].
    destruct (insert_evict tsc_held (λ s, set_tsc s None false) (maxOpenTSC ci) i s' (snaps ci))
      as (Hc & Hsi & Hcold & Hok); try done; [by intros ? ?%snap_ok_drop_tsc|].
    split_and!; [|done| |done].
    + split; cbn [snaps set_snaps maxOpenTSC maxLocMaps]; [done|done|]. split; [done|].
      rewrite (count_evict_other _ loc_held) by done.
      rewrite count_held_insert_same; [done|done|]. done.
    + cbn [snaps set_snaps] in *. rewrite Hsi. cbn. unfold snap_view. by rewrite Hr.
  - destruct (insert_plain ci i (set_tsc s None true)) as (Hix & Hc & Hsi); try done.
    { split; try done. intros _. cbn. unfold snap_view. cbn. by rewrite Hr. }
    { unfold tsc_held. cbn. subst s. by rewrite Hnl. }
    split_and!; [done|done| |done]. cbn [snaps set_snaps]. rewrite Hsi. cbn.
    unfold snap_view. by rewrite Hr.
  - destruct (insert_plain ci i (set_tsc s None true)) as (Hix & Hc & Hsi); try done.
    { split; try done. intros _. cbn. unfold snap_view. cbn. by rewrite Hr. }
    { unfold tsc_held. cbn. subst s. by rewrite Hnl. }
    split_and!; [done|done| |done]. cbn [snaps set_snaps]. rewrite Hsi. cbn.
    unfold snap_view. by rewrite Hr.
Qed.

(** Building a location map establishes it and keeps the invariant. *)
Lemma build_ok ci i v :
  index_ok ci → (i < length (snaps ci))%nat → s_tsc (snaps ci !!! i) = Some v →
  snap_view (snaps ci !!! i) = Some v → locBuilt (snaps ci !!! i) = false →
  let ci1 := buildLocMapLocked d ci i in
  index_ok ci1 ∧ cold <$> snaps ci1 = cold <$> snaps ci ∧
  locMap (snaps ci1 !!! i) = fst <$> snap_locs (snaps ci !!! i) ∧
  (∀ m p, snap_locs (snaps ci !!! i) = Some (m, p) → filePaths (snaps ci1 !!! i) = p) ∧
  ci1 = set_snaps ci (snaps ci1).
Proof.
  intros Hix Hi Hv Hview Hnb. cbn zeta. unfold buildLocMapLocked. rewrite Hv.
  set (s := snaps ci !!! i) in *. destruct (ReadTSM d (tsmPath s)) as [tsm|] eqn:Hr.
  - destruct (loc_entries d (snapDir s) v (rEntries tsm) ∅ []) as [m p] eqn:Hl.
    assert (snap_locs s = Some (m, p)) as Hlocs.
    { unfold snap_locs. rewrite Hview. cbn. rewrite Hr. cbn. by rewrite Hl. }
    destruct Hix as [Hs [Ht1 Ht2] [Hl1 Hl2]].
    assert (snap_ok s) as [] by (by apply Forall_lookup_total_1).
    set (s' := set_loc s (Some m) true p).
    assert (snap_ok s') as Hs'.
    { split; try done; change (snap_locs s') with (snap_locs s); rewrite Hlocs; [done|].
      by intros _ ?? [= <- <-]. }
    unfold evictLRULocMapLocked. cbn [snaps set_snaps maxOpenTSC maxLocMaps].
    destruct (insert_evict loc_held (λ s, set_loc s None false []) (maxLocMaps ci) i s' (snaps ci))
      as (Hc & Hsi & Hcold & Hok); try done; [by intros ? ?%snap_ok_drop_loc|].
    split_and!; [|done| | |done].
    + split; cbn [snaps set_snaps maxOpenTSC maxLocMaps]; [done| |done]. split; [done|].
      rewrite (count_evict_other _ tsc_held) by done.
      rewrite count_held_insert_same; done.
    + cbn [snaps set_snaps] in *. rewrite Hsi, Hlocs. done.
    + intros m' p'. rewrite Hlocs. intros [= <- <-]. cbn [snaps set_snaps] in *. by rewrite Hsi.
  - assert (snap_locs s = None) as Hlocs.
    { unfold snap_locs. rewrite Hview. cbn. by rewrite Hr. }
    assert (snap_ok s) as [] by (apply Forall_lookup_total_1; [apply Hix|done]).
    set (s' := set_loc s (locMap s) true (filePaths s)).
    assert (snap_ok s') as Hs'.
    { split; try done; cbn; change (snap_locs s') with (snap_locs s); rewrite Hlocs; [|done].
      intros _. by apply sk_cold0. }
    assert (loc_held s' = loc_held s) as Hlh.
    { unfold loc_held. cbn. by rewrite Hnb, (sk_cold0 Hnb). }
    destruct (insert_plain ci i s' Hix Hi Hs' eq_refl eq_refl Hlh) as (Hix' & Hc & Hsi).
    split_and!; [done|done| | |done]; cbn [snaps set_snaps]; rewrite Hsi, Hlocs; [|done].
    by apply sk_cold0.
Qed.

Lemma resolve_cold s sha : resolve (cold s) sha = resolve s sha.
Proof. done. Qed.

Lemma first_hit_cold l l' sha :
  cold <$> l = cold <$> l' → first_hit l sha = first_hit l' sha.
Proof.
  revert l'. induction l as [|s l IH]; intros [|s' l'] Heq; try done.
  change (cold s :: (cold <$> l) = cold s' :: (cold <$> l')) in Heq.
  assert (cold s = cold s') as Hs by congruence.
  assert (cold <$> l = cold <$> l') as Hl by congruence. cbn [first_hit].
  assert (resolve s sha = resolve s' sha) as ->.
  { rewrite <- (resolve_cold s), <- (resolve_cold s'). by rewrite Hs. }
  by rewrite (IH l').
Qed.

Lemma to_front_fmap {A B} `{Inhabited A, Inhabited B} (f : A → B) i (l : list A) :
  (i < length l)%nat → f <$> to_front i l = to_front i (f <$> l).
Proof.
  intros Hi. unfold to_front. destruct (i =? 0)%nat; [done|].
  cbn. rewrite fmap_app, fmap_take, fmap_drop. f_equal. symmetry. by apply list_lookup_total_fmap.
Qed.

Lemma to_front_perm {A} `{Inhabited A} i (l : list A) : (i < length l)%nat → to_front i l ≡ₚ l.
Proof.
  intros Hi. unfold to_front. destruct (i =? 0)%nat; [done|].
  rewrite <- (take_drop i l) at 4.
  destruct (lookup_lt_is_Some_2 l i Hi) as [x Hx].
  rewrite (drop_S l x i Hx), (list_lookup_total_correct _ _ _ Hx), Nat.add_1_r.
  apply Permutation_middle.
Qed.

Lemma count_held_perm held l l' : l ≡ₚ l' → count_held held l = count_held held l'.
Proof. induction 1; cbn [count_held]; lia. Qed.

Lemma index_ok_move ci i :
  (i < length (snaps ci))%nat → index_ok ci → index_ok (moveToFrontLocked ci i).
Proof.
  intros Hi [Hs Ht Hl]. assert (snaps (moveToFrontLocked ci i) ≡ₚ snaps ci) as Hp.
  { pose proof (to_front_perm i (snaps ci) Hi) as Hp. unfold to_front in Hp.
    unfold moveToFrontLocked. by destruct (i =? 0)%nat. }
  assert (maxOpenTSC (moveToFrontLocked ci i) = maxOpenTSC ci ∧
    maxLocMaps (moveToFrontLocked ci i) = maxLocMaps ci) as [Hm1 Hm2].
  { unfold moveToFrontLocked. by destruct (i =? 0)%nat. }
  split; rewrite ?Hm1, ?Hm2, ?(count_held_perm _ _ _ Hp); [by rewrite Hp|done|done].
Qed.

(** What the loop has found from position [i] on, given what the files give. *)
Definition search_result (ci : ChunkIndex) (sha : list byte) (i : nat)
    (res : ChunkIndex * option ChunkLocation) : Prop :=
  let '(ci', r) := res in
  index_ok ci' ∧ ci' = set_snaps ci (snaps ci') ∧
  match first_hit (drop i (snaps ci)) sha with
  | None => r = None ∧ cold <$> snaps ci' = cold <$> snaps ci
  | Some (j, loc) => r = Some loc ∧ cold <$> snaps ci' = to_front (i + j) (cold <$> snaps ci)
  end.

(** Skipping a snapshot that does not have the chunk, after changing lazy state. *)
Lemma search_skip ci ci1 sha i res :
  (i < length (snaps ci))%nat → cold <$> snaps ci1 = cold <$> snaps ci →
  ci1 = set_snaps ci (snaps ci1) → resolve (snaps ci !!! i) sha = None →
  search_result ci1 sha (i + 1) res → search_result ci sha i res.
Proof.
  intros Hi Hc Hset Hres. unfold search_result. destruct res as [ci' r].
  destruct (lookup_lt_is_Some_2 (snaps ci) i Hi) as [s Hs].
  rewrite (drop_S _ _ _ Hs). rewrite (list_lookup_total_correct _ _ _ Hs) in Hres.
  cbn [first_hit]. rewrite Hres. rewrite Nat.add_1_r.
  assert (first_hit (drop (S i) (snaps ci1)) sha = first_hit (drop (S i) (snaps ci)) sha) as ->.
  { apply first_hit_cold. by rewrite !fmap_drop, Hc. }
  rewrite Hc. intros (Hok & Hst & Hm). split; [done|]. split.
  { rewrite Hst, Hset at 1. done. }
  destruct (first_hit (drop (S i) (snaps ci)) sha) as [[j loc]|]; cbn; [|done].
  by rewrite Nat.add_succ_r.
Qed.

Lemma cold_lookup (l l' : list snapIdx) i :
  cold <$> l = cold <$> l' → (i < length l)%nat → cold (l !!! i) = cold (l' !!! i) ∧ (i < length l')%nat.
Proof.
  intros Hc Hi. assert (length l = length l') as Hl.
  { apply (f_equal length) in Hc. by rewrite !length_fmap in Hc. }
  split; [|lia]. rewrite <- (list_lookup_total_fmap cold l i Hi), Hc.
  apply list_lookup_total_fmap. lia.
Qed.

Lemma snap_view_cold s : snap_view (cold s) = snap_view s.
Proof. done. Qed.
Lemma snap_locs_cold s : snap_locs (cold s) = snap_locs s.
Proof. done. Qed.

(** The two loading steps of an iteration. *)
Lemma ensure_tsc ci i :
  index_ok ci → (i < length (snaps ci))%nat →
  let ci1 := if tscLoaded (snaps ci !!! i) then ci else loadTSCLocked d ci i in
  index_ok ci1 ∧ cold <$> snaps ci1 = cold <$> snaps ci ∧
  s_tsc (snaps ci1 !!! i) = snap_view (snaps ci !!! i) ∧ ci1 = set_snaps ci (snaps ci1).
Proof.
  intros Hix Hi. cbn zeta. destruct (tscLoaded (snaps ci !!! i)) eqn:Hl.
  - assert (snap_ok (snaps ci !!! i)) as [] by (apply Forall_lookup_total_1; [apply Hix|done]).
    split_and!; auto. by destruct ci.
  - by apply load_ok.
Qed.

Lemma ensure_locs ci i v :
  index_ok ci → (i < length (snaps ci))%nat → s_tsc (snaps ci !!! i) = Some v →
  snap_view (snaps ci !!! i) = Some v →
  let ci1 := if locBuilt (snaps ci !!! i) then ci else buildLocMapLocked d ci i in
  index_ok ci1 ∧ cold <$> snaps ci1 = cold <$> snaps ci ∧
  locMap (snaps ci1 !!! i) = fst <$> snap_locs (snaps ci !!! i) ∧
  (∀ m p, snap_locs (snaps ci !!! i) = Some (m, p) → filePaths (snaps ci1 !!! i) = p) ∧
  ci1 = set_snaps ci (snaps ci1).
Proof.
  intros Hix Hi Hv Hview. cbn zeta. destruct (locBuilt (snaps ci !!! i)) eqn:Hl.
  - assert (snap_ok (snaps ci !!! i)) as [] by (apply Forall_lookup_total_1; [apply Hix|done]).
    split; [done|]. split; [done|]. split; [by apply sk_loc0|]. split; [by apply sk_paths0|]. by destruct ci.
  - by eapply build_ok.
Qed.

Lemma find_loop_spec fuel ci sha i :
  index_ok ci → (length (snaps ci) - i ≤ fuel)%nat →
  search_result ci sha i (find_loop fuel d ci sha i).
Proof.
  revert ci i. induction fuel as [|fuel IH]; intros ci i Hix Hf; cbn [find_loop].
  { unfold search_result. rewrite drop_ge by lia. cbn. split_and!; [done|by destruct ci|done|done]. }
  destruct (i <? length (snaps ci))%nat eqn:Hi; reflect_bools.
  2: { unfold search_result. rewrite drop_ge by lia. cbn. split_and!; [done|by destruct ci|done|done]. }
  destruct (ensure_tsc ci i Hix Hi) as (Hix1 & Hc1 & Hv1 & Hst1).
  set (ci1 := if tscLoaded _ then _ else _) in *.
  destruct (cold_lookup _ _ i (eq_sym Hc1) Hi) as [Hcs1 Hi1].
  assert (∀ ci2, cold <$> snaps ci2 = cold <$> snaps ci → index_ok ci2 →
    ci2 = set_snaps ci (snaps ci2) → resolve (snaps ci !!! i) sha = None →
    search_result ci sha i (find_loop fuel d ci2 sha (i + 1))) as Hskip.
  { intros ci2 Hc2 Hix2 Hst2 Hres. apply (search_skip ci ci2); try done. apply IH; [done|].
    apply (f_equal length) in Hc2. rewrite !length_fmap in Hc2. lia. }
  destruct (s_tsc (snaps ci1 !!! i)) as [v|] eqn:Hts.
  2: { apply Hskip; try done. unfold resolve. by rewrite <- Hv1. }
  destruct (lookup v sha) as [size|] eqn:Hlk.
  2: { apply Hskip; try done. unfold resolve. rewrite <- Hv1. cbn. by rewrite Hlk. }
  destruct (ensure_locs ci1 i v Hix1 Hi1 Hts) as (Hix2 & Hc2 & Hl2 & Hp2 & Hst2).
  { by rewrite <- snap_view_cold, <- Hcs1, snap_view_cold. }
  set (ci2 := if locBuilt _ then _ else _) in *.
  rewrite <- (snap_locs_cold (snaps ci1 !!! i)), <- Hcs1, snap_locs_cold in Hl2, Hp2.
  assert (ci2 = set_snaps ci (snaps ci2)) as Hst by (rewrite Hst2, Hst1; done).
  rewrite Hc1 in Hc2.
  destruct (locMap (snaps ci2 !!! i) ≫= λ m, m !! sha) as [loc|] eqn:Hloc.
  2: { apply Hskip; try done. unfold resolve. rewrite <- Hv1. cbn. rewrite Hlk. cbn.
       rewrite Hl2 in Hloc. destruct (snap_locs (snaps ci !!! i)) as [[m p]|]; [|done].
       cbn in Hloc |- *. by rewrite Hloc. }
  assert (resolve (snaps ci !!! i) sha
    = Some (MkLocation sha (filePaths (snaps ci2 !!! i) !!! Z.to_nat (fileIdx loc)) (offset loc) size)) as Hres.
  { unfold resolve. rewrite <- Hv1. cbn. rewrite Hlk. cbn. rewrite Hl2 in Hloc.
    destruct (snap_locs (snaps ci !!! i)) as [[m p]|] eqn:Hsl; [|done].
    cbn in Hloc |- *. rewrite Hloc. cbn. by rewrite (Hp2 _ _ eq_refl). }
  destruct (lookup_lt_is_Some_2 (snaps ci) i Hi) as [s Hs].
  assert (i < length (snaps ci2))%nat as Hi2.
  { apply (f_equal length) in Hc2. rewrite !length_fmap in Hc2. lia. }
  unfold search_result. rewrite (drop_S _ _ _ Hs). cbn [first_hit].
  rewrite (list_lookup_total_correct _ _ _ Hs) in Hres. rewrite Hres, Nat.add_0_r.
  split; [by apply index_ok_move|]. split; [|split; [done|]].
  - assert (∀ l, set_snaps ci2 l = set_snaps ci l) as Hss by (intros l; by rewrite Hst).
    unfold moveToFrontLocked. destruct (i =? 0)%nat; [done|]. by rewrite Hss.
  - rewrite <- Hc2, <- to_front_fmap by done. f_equal.
    unfold moveToFrontLocked, to_front. by destruct (i =? 0)%nat.
Qed.

(** *** Whole lookups *)

(** The filter never rejects, and the negative cache never holds, a chunk that
    some snapshot has. *)
Record index_inv (ci : ChunkIndex) : Prop := {
  iv_ok : index_ok ci;
  iv_bloom : ∀ s sha loc, s ∈ snaps ci → resolve s sha = Some loc → bloom_rejects ci sha = false;
  iv_absent : ∀ s sha, s ∈ snaps ci → is_absent ci sha = true → resolve s sha = None;
}.

Lemma first_hit_none l sha : first_hit l sha = None ↔ ∀ s, s ∈ l → resolve s sha = None.
Proof.
  induction l as [|s l IH]; cbn [first_hit].
  { split; [intros _ s ?%not_elem_of_nil|]; done. }
  destruct (resolve s sha) eqn:Hr.
  - split; [done|]. intros Hall. rewrite Hall in Hr; [done|by left].
  - destruct (first_hit l sha) as [[j loc]|]; cbn.
    + split; [done|]. intros Hall. exfalso. assert (Some (j, loc) = None) as Hn; [|done].
      apply IH. intros x Hx. apply Hall. by right.
    + split; [|done]. intros _ x [->|Hx]%elem_of_cons; [done|]. by apply IH.
Qed.

Lemma first_hit_some l sha j loc :
  first_hit l sha = Some (j, loc) →
  (j < length l)%nat ∧ resolve (l !!! j) sha = Some loc ∧
  ∀ i, (i < j)%nat → resolve (l !!! i) sha = None.
Proof.
  revert j. induction l as [|s l IH]; intros j; cbn [first_hit]; [done|].
  destruct (resolve s sha) eqn:Hr.
  - intros [= <- <-]. split_and!; [cbn; lia|done|lia].
  - destruct (first_hit l sha) as [[j' loc']|]; [|done]. cbn. intros [= <- <-].
    destruct (IH j' eq_refl) as (Hj & Hres & Hlt). split_and!; [cbn; lia|done|].
    intros [|i] Hi; [done|]. apply Hlt. lia.
Qed.

(** Snapshots keep their files, in some order. *)
Lemma cold_member (l l' : list snapIdx) s :
  cold <$> l ≡ₚ cold <$> l' → s ∈ l → ∃ s', s' ∈ l' ∧ cold s' = cold s.
Proof.
  intros Hp Hs. assert (cold s ∈ cold <$> l') as Hin.
  { rewrite <- Hp. by apply list_elem_of_fmap_2. }
  apply list_elem_of_fmap in Hin as (s' & Heq & Hs'). by exists s'.
Qed.

Lemma index_inv_keep ci ci' :
  index_inv ci → index_ok ci' → ci' = set_snaps ci (snaps ci') →
  cold <$> snaps ci' ≡ₚ cold <$> snaps ci → index_inv ci'.
Proof.
  intros [Hok Hb Ha] Hok' Hst Hp. split; [done| |].
  - intros s sha loc Hs Hr. destruct (cold_member _ _ _ Hp Hs) as (s' & Hs' & Hc).
    assert (bloom_rejects ci' sha = bloom_rejects ci sha) as -> by (rewrite Hst; done).
    apply (Hb s' sha loc Hs'). by rewrite <- resolve_cold, Hc, resolve_cold.
  - intros s sha Hs Hn. destruct (cold_member _ _ _ Hp Hs) as (s' & Hs' & Hc).
    assert (is_absent ci' sha = is_absent ci sha) as Heq by (rewrite Hst; done).
    rewrite Heq in Hn. rewrite <- resolve_cold, <- Hc, resolve_cold. by apply Ha.
Qed.

Lemma FindChunk_spec ci sha :
  index_inv ci →
  let '(ci', r) := FindChunk d ci sha in
  index_inv ci' ∧
  match first_hit (snaps ci) sha with
  | None => r = None ∧ cold <$> snaps ci' = cold <$> snaps ci
  | Some (j, loc) => r = Some loc ∧ cold <$> snaps ci' = to_front j (cold <$> snaps ci)
  end.
Proof.
  intros Hinv. unfold FindChunk.
  assert (∀ b, (b = true → first_hit (snaps ci) sha = None) → b = true →
    index_inv ci ∧ match first_hit (snaps ci) sha with
    | None => @None ChunkLocation = None ∧ cold <$> snaps ci = cold <$> snaps ci
    | Some (j, loc) => None = Some loc ∧ cold <$> snaps ci = to_front j (cold <$> snaps ci)
    end) as Hno.
  { intros b Hb Hb'. rewrite (Hb Hb'). done. }
  destruct (bloom_rejects ci sha) eqn:Hbl.
  { apply (Hno true); [|done]. intros _. apply first_hit_none. intros s Hs.
    destruct (resolve s sha) as [loc|] eqn:Hr; [|done].
    rewrite (iv_bloom _ Hinv s sha loc Hs Hr) in Hbl. done. }
  destruct (is_absent ci sha) eqn:Hab.
  { apply (Hno true); [|done]. intros _. apply first_hit_none. intros s Hs.
    by apply (iv_absent _ Hinv). }
  pose proof (find_loop_spec (length (snaps ci)) ci sha 0 (iv_ok _ Hinv) ltac:(lia)) as Hsr.
  destruct (find_loop (length (snaps ci)) d ci sha 0) as [ci' r]. unfold search_result in Hsr.
  rewrite drop_0 in Hsr. destruct Hsr as (Hok & Hst & Hm).
  destruct (first_hit (snaps ci) sha) as [[j loc]|] eqn:Hfh.
  - destruct Hm as [-> Hc]. split; [|done]. apply (index_inv_keep ci); try done.
    rewrite Hc. apply to_front_perm. rewrite length_fmap.
    by apply first_hit_some in Hfh as (? & _).
  - destruct Hm as [-> Hc].
    assert (index_inv ci') as Hinv' by (apply (index_inv_keep ci); try done; by rewrite Hc).
    assert (∀ s, s ∈ snaps ci' → resolve s sha = None) as Hnone.
    { intros s Hs. destruct (cold_member (snaps ci') (snaps ci) s) as (s' & Hs' & Hcs);
        [by rewrite Hc|done|].
      rewrite <- resolve_cold, <- Hcs, resolve_cold. by apply first_hit_none with (snaps ci). }
    unfold remember_absent. destruct (absentCache ci') as [c|] eqn:Hca; [|by split].
    destruct (_ <? _); [|by split]. split; [|done].
    destruct Hinv' as [Hok' Hb' Ha']. split; [by destruct Hok'|done|].
    intros s x Hs. unfold is_absent. cbn [absentCache]. intros Hx. reflect_bools.
    apply elem_of_union in Hx as [->%elem_of_singleton|Hx]; [by apply Hnone|].
    apply Ha'; [done|]. unfold is_absent. rewrite Hca. by apply bool_decide_eq_true_2.
Qed.

(** Any number of lookups. *)
Fixpoint find_all (ci : ChunkIndex) (shas : list (list byte)) : ChunkIndex :=
  match shas with [] => ci | s :: shas' => find_all (FindChunk d ci s).1 shas' end.

Lemma find_all_inv ci shas :
  index_inv ci → index_inv (find_all ci shas) ∧ cold <$> snaps (find_all ci shas) ≡ₚ cold <$> snaps ci.
Proof.
  revert ci. induction shas as [|s shas IH]; intros ci Hinv; cbn [find_all]; [done|].
  pose proof (FindChunk_spec ci s Hinv) as Hs.
  destruct (FindChunk d ci s) as [ci' r]. cbn [fst]. destruct Hs as [Hinv' Hm].
  destruct (IH ci' Hinv') as [? Hp]. split; [done|]. rewrite Hp.
  destruct (first_hit (snaps ci) s) as [[j loc]|] eqn:Hf; destruct Hm as [_ ->]; [|done].
  apply to_front_perm. rewrite length_fmap. by apply first_hit_some in Hf as (? & _).
Qed.
End lookup.

(** ** Opening the index *)

Lemma stream_loop_lookup n content off i :
  (i < n)%nat → (off + (i + 1) * TSCEntrySize ≤ length content)%nat →
  stream_loop n content off !! i = Some (take 32 (drop (off + i * TSCEntrySize) content)).
Proof.
  unfold TSCEntrySize. revert off i. induction n as [|n IH]; intros off i Hi Hl; [lia|].
  cbn [stream_loop]. unfold TSCEntrySize.
  assert ((length content <? off + 40)%nat = false) as -> by lia.
  destruct i as [|i]; [by rewrite Nat.add_0_r|].
  transitivity (stream_loop n content (off + 40) !! i); [done|].
  rewrite IH by lia. do 3 f_equal. lia.
Qed.

(** Every chunk a view finds was streamed into the filter. *)
Lemma lookup_streamed content v sha size :
  newTSCView content = Some v → lookup v sha = Some size →
  sha ∈ streamTSCSHAs content ∧ 0 < i64 (be_get (take 8 (drop 8 content))).
Proof.
  unfold newTSCView, streamTSCSHAs. destruct (length content <? TSCHeaderSize)%nat; [done|].
  intros [= <-]. unfold lookup. cbn [v_count v_data entriesOff entrySize].
  set (count := i64 _). destruct (count =? 0) eqn:Hc0; [done|].
  set (idx := sort_search _ _). destruct (Z.of_nat idx <? count) eqn:Hidx; [|done].
  destruct (length content <? _)%nat eqn:Hlen; [done|]. case_bool_decide as Hsha; [|done].
  intros _. reflect_bools. split; [|lia]. unfold view_sha in Hsha. cbn [v_data] in Hsha.
  apply list_elem_of_lookup. exists idx. rewrite stream_loop_lookup; [by rewrite Hsha| |].
  - unfold TSCEntrySize in *. lia.
  - unfold TSCEntrySize in *. lia.
Qed.

Section opening.
Context `{Digest} (d : disk).

Lemma validated_content path content :
  readTSCContentValidated d path = Ret content → readTSCContent d path = Ret content.
Proof.
  unfold readTSCContentValidated, readTSCContent.
  destruct (or_err (d_files d !! path) tsc_not_found) as [data|e|]; [|done|done].
  rewrite !ret_bind. destruct (guard_err _ tsc_short) as [[]|e|]; [|done|done]. rewrite !ret_bind.
  destruct (or_panic (go_slice data 0 4)) as [magic|e|]; [|done|done]. rewrite !ret_bind.
  destruct (guard_err _ tsc_magic) as [[]|e|]; [|done|done]. rewrite !ret_bind.
  destruct (field data 8 16) as [count|e|]; [|done|done]. rewrite !ret_bind.
  destruct (checkTSCCountConsistent _ _) as [[]|e|]; [|done|done]. rewrite !ret_bind.
  intros Hr. apply bind_ret_inv in Hr as (f & _ & Hr).
  apply bind_ret_inv in Hr as (c & Hc & Hr). apply bind_ret_inv in Hr as ([] & _ & Hr).
  injection Hr as <-. done.
Qed.

(** The header count read in the first pass is that of the content. *)
Lemma count_of_content path content :
  readTSCContent d path = Ret content →
  ∀ c, readTSCChunkCount d path = Ret c → c = be_get (take 8 (drop 8 content)).
Proof.
  unfold readTSCContent, readTSCChunkCount. intros Hr c Hc.
  apply bind_ret_inv in Hr as (data & Hd & Hr). rewrite Hd, ret_bind in Hc.
  apply bind_ret_inv in Hr as ([] & Hlen & Hr). apply guard_err_ret in Hlen. reflect_bools.
  unfold TSCHeaderSize, TSCFooterSize in *.
  apply bind_ret_inv in Hr as (? & _ & Hr). apply bind_ret_inv in Hr as ([] & _ & Hr).
  apply bind_ret_inv in Hr as (? & _ & Hr). apply bind_ret_inv in Hr as ([] & _ & Hr).
  apply or_panic_ret in Hr. rewrite go_slice_some in Hr by lia. injection Hr as <-.
  apply bind_ret_inv in Hc as (hdr & Hh & Hc).
  apply bind_ret_inv in Hc as (? & _ & Hc). apply bind_ret_inv in Hc as ([] & _ & Hc).
  apply bind_ret_inv in Hc as (count & Hf & Hc). apply bind_ret_inv in Hc as ([] & _ & Hc).
  injection Hc as <-. rewrite go_slice_some in Hh by lia. injection Hh as <-.
  unfold field in Hf. rewrite go_slice_some in Hf by len_lia. injection Hf as <-.
  rewrite !drop_0. f_equal. rewrite !skipn_firstn_comm, !take_take. f_equal. lia.
Qed.

Lemma count_range path c : readTSCChunkCount d path = Ret c → 0 ≤ c ≤ 2 ^ 32.
Proof.
  unfold readTSCChunkCount, checkTSCCountConsistent. intros Hc. inv_ret. reflect_bools.
  split; [|lia].
  match goal with Hx : field _ _ _ = Ret c |- _ => unfold field in Hx;
    destruct (go_slice _ 8 16); [injection Hx as <-; apply be_get_range|done] end.
Qed.

Lemma discover_spec dir l found total :
  discover d dir l = (found, total) → Z.of_nat (length l) < 2 ^ 31 →
  0 ≤ total ≤ Z.of_nat (length l) * 2 ^ 32 ∧
  ∀ s, s ∈ found → s = cold s ∧ ∃ c, readTSCChunkCount d (tscPath s) = Ret c ∧ c ≤ total.
Proof.
  revert found total. induction l as [|[name isDir] l IH]; intros found total.
  { intros [= <- <-] _. split; [cbn; lia|]. by intros s ?%not_elem_of_nil. }
  cbn [discover length]. destruct (discover d dir l) as [rest tot]. intros Heq Hlen.
  destruct (IH rest tot eq_refl) as [Ht Hall]; [lia|].
  assert ((rest, tot) = (found, total) → (0 ≤ total ≤ Z.of_nat (S (length l)) * 2 ^ 32 ∧
    ∀ s, s ∈ found → s = cold s ∧ ∃ c, readTSCChunkCount d (tscPath s) = Ret c ∧ c ≤ total)) as Hskip.
  { intros [= <- <-]. split; [lia|done]. }
  destruct (_ || _ || _ || _ || _); [by apply Hskip|].
  destruct (readTSCChunkCount d (JoinPath dir name)) as [c|e|] eqn:Hc; [|by apply Hskip..].
  injection Heq as <- <-. pose proof (count_range _ _ Hc).
  rewrite u64_id by (unfold is_u64; lia). split; [lia|].
  intros s [->|Hs]%elem_of_cons.
  - split; [done|]. exists c. split; [exact Hc|lia].
  - destruct (Hall s Hs) as (? & c' & ? & ?). split; [done|]. exists c'. split; [done|lia].
Qed.

Lemma validate_spec l good keys :
  validate d l = (good, keys) →
  ∀ s, s ∈ good → s ∈ l ∧ ∃ content, readTSCContent d (tscPath s) = Ret content ∧
    ∀ k, k ∈ streamTSCSHAs content → k ∈ keys.
Proof.
  revert good keys. induction l as [|s0 l IH]; intros good keys; cbn [validate].
  { intros [= <- <-] s ?%not_elem_of_nil. done. }
  destruct (validate d l) as [good' keys']. intros Heq s Hs.
  destruct (readTSCContentValidated d (tscPath s0)) as [content|e|] eqn:Hv;
    injection Heq as <- <-.
  - apply elem_of_cons in Hs as [->|Hs].
    + split; [by left|]. exists content. split; [by apply validated_content|].
      intros k Hk. apply elem_of_app. by left.
    + destruct (IH _ _ eq_refl s Hs) as (? & c & ? & Hk). split; [by right|].
      exists c. split; [done|]. intros k ?. apply elem_of_app. right. auto.
  - destruct (IH _ _ eq_refl s Hs) as (? & c & ? & Hk). split; [by right|]. by exists c.
  - destruct (IH _ _ eq_refl s Hs) as (? & c & ? & Hk). split; [by right|]. by exists c.
Qed.

Lemma count_held_cold held l :
  (∀ s, s ∈ l → held s = false) → count_held held l = 0%nat.
Proof.
  induction l as [|s l IH]; intros Hl; cbn [count_held]; [done|].
  rewrite (Hl s) by by left. apply IH. intros x Hx. apply Hl. by right.
Qed.

Lemma Open_inv fm fk dir l openTSC locMaps :
  (∀ n, fm n < 2 ^ 63) → Z.of_nat (length l) < 2 ^ 31 →
  ∃ ci, OpenChunkIndexWith fm fk d dir (DirEntries l) openTSC locMaps = Ret ci ∧ index_inv d ci.
Proof.
  intros Hfm Hlen. unfold OpenChunkIndexWith.
  destruct (discover d dir l) as [found total] eqn:Hd.
  destruct (discover_spec _ _ _ _ Hd Hlen) as [Htot Hfound].
  destruct (validate d (sort_by_key snapID found)) as [good keys] eqn:Hv.
  pose proof (validate_spec _ _ _ Hv) as Hgood.
  destruct (add_all_spec (newBloomFilter fm fk total) keys (newBloomFilter_ok fm fk total))
    as (b & -> & Hb & Hbl & Hin & _).
  rewrite ret_bind. eexists. split; [done|].
  assert (∀ s, s ∈ good → s = cold s ∧ ∃ c, readTSCChunkCount d (tscPath s) = Ret c ∧ c ≤ total) as Hall.
  { intros s Hs. apply Hfound. destruct (Hgood s Hs) as [Hs' _]. by rewrite sort_by_key_perm in Hs'. }
  split.
  - split; cbn [snaps maxOpenTSC maxLocMaps].
    + apply Forall_forall. intros s Hs. destruct (Hall s Hs) as [-> _]. by split.
    + rewrite count_held_cold by (intros s Hs; destruct (Hall s Hs) as [-> _]; done).
      unfold defaultMaxOpenTSC. destruct (openTSC <=? 0) eqn:?; reflect_bools; lia.
    + rewrite count_held_cold by (intros s Hs; destruct (Hall s Hs) as [-> _]; done).
      unfold defaultMaxLocMaps. destruct (locMaps <=? 0) eqn:?; reflect_bools; lia.
  - intros s sha loc Hs Hr. cbn [snaps] in Hs. unfold bloom_rejects. cbn [bloom].
    destruct (Hgood s Hs) as (_ & content & Hc & Hk). destruct (Hall s Hs) as (_ & c & Hcc & Hct).
    unfold resolve, snap_view in Hr. rewrite Hc in Hr.
    destruct (newTSCView content) as [v|] eqn:Hnv; [|done]. cbn in Hr.
    destruct (lookup v sha) as [size|] eqn:Hl; [|done].
    destruct (lookup_streamed _ _ _ _ Hnv Hl) as [Hst Hpos].
    rewrite (count_of_content _ _ Hc c Hcc) in Hct.
    assert (total ≠ 0) as Ht0.
    { intros ->. pose proof (be_get_range (take 8 (drop 8 content))).
      assert (be_get (take 8 (drop 8 content)) = 0) as Hz by lia. rewrite Hz in Hpos. done. }
    rewrite Hin; [done|by apply newBloomFilter_bits|by apply Hk].
  - intros s sha _. unfold is_absent. cbn [absentCache]. by rewrite bool_decide_eq_false_2.
Qed.
End opening.

(** ** Locations point into files that contain the chunk *)

(** The sum of the sizes of the first chunks of a file. *)
Fixpoint refs_size (v : tscView) (refs : list Z) : Z :=
  match refs with
  | [] => 0
  | i :: refs' => match entryByIndex v i with Some (_, size) => size | None => 0 end + refs_size v refs'
  end.

(** [loc] is where the manifest [es] has the chunk [sha] in a file on the disk. *)
Definition located (d : disk) (dir : gostring) (v : tscView) (es : list TSMEntry)
    (paths : list gostring) (sha : list byte) (loc : chunkLoc) : Prop :=
  ∃ fe j i size, fe ∈ es ∧ Type_ fe = EntryTypeFile ∧
    paths !! Z.to_nat (fileIdx loc) = Some (JoinPath dir (Path fe)) ∧
    JoinPath dir (Path fe) ∈ d_exists d ∧
    ChunkRefs fe !! j = Some i ∧ entryByIndex v i = Some (sha, size) ∧
    offset loc = refs_size v (take j (ChunkRefs fe)).

Lemma refs_size_snoc v refs i : refs_size v (refs ++ [i]) = refs_size v refs + refs_size v [i].
Proof. induction refs as [|x refs IH]; cbn [refs_size app]; [lia|]. rewrite IH. cbn [refs_size]. lia. Qed.

Lemma loc_refs_spec v fidx (done_ refs : list Z) off m sha loc :
  off = refs_size v done_ → loc_refs v fidx refs off m !! sha = Some loc →
  m !! sha = Some loc ∨
  (fileIdx loc = fidx ∧ ∃ j i size, (done_ ++ refs) !! j = Some i ∧
     entryByIndex v i = Some (sha, size) ∧ offset loc = refs_size v (take j (done_ ++ refs))).
Proof.
  revert done_ off m. induction refs as [|i refs IH]; intros done_ off m Hoff; cbn [loc_refs]; [by left|].
  destruct (entryByIndex v i) as [[sha' size]|] eqn:He; [|by left].
  intros Hl. apply (IH (done_ ++ [i])) in Hl.
  2: { rewrite refs_size_snoc, Hoff. cbn [refs_size]. rewrite He. lia. }
  rewrite <- app_assoc in Hl. destruct Hl as [Hl|Hl]; [|by right].
  destruct (m !! sha') as [l'|] eqn:Hm; [by left|].
  destruct (decide (sha' = sha)) as [->|Hne].
  - rewrite lookup_insert_eq in Hl. injection Hl as <-. right. split; [done|].
    exists (length done_), i, size. split_and!; [by apply list_lookup_middle|done|].
    cbn. by rewrite take_app_length.
  - rewrite lookup_insert_ne in Hl by done. by left.
Qed.

Lemma loc_entries_spec d dir v es0 es m paths m' paths' :
  loc_entries d dir v es m paths = (m', paths') →
  Z.of_nat (length paths + length es) < 2 ^ 32 → (∀ fe, fe ∈ es → fe ∈ es0) →
  (∀ sha loc, m !! sha = Some loc → located d dir v es0 paths sha loc) →
  ∀ sha loc, m' !! sha = Some loc → located d dir v es0 paths' sha loc.
Proof.
  revert m paths. induction es as [|fe es IH]; intros m paths Hl Hlen Hsub Hm; cbn [loc_entries] in Hl.
  { by injection Hl as <- <-. }
  assert (loc_entries d dir v es m paths = (m', paths') →
    ∀ sha loc, m' !! sha = Some loc → located d dir v es0 paths' sha loc) as Hskip.
  { intros Hl'. apply (IH m paths Hl'); [cbn [length] in Hlen; lia|intros; apply Hsub; by right|done]. }
  destruct (_ || _) eqn:Hty; [by apply Hskip|]. reflect_bools.
  case_bool_decide as Hex; [by apply Hskip|].
  eapply IH; [exact Hl| |intros; apply Hsub; by right|].
  { rewrite length_app. cbn [length] in *. lia. }
  intros sha loc Hloc. apply (loc_refs_spec v _ []) in Hloc; [|done].
  assert (∀ loc sha, located d dir v es0 paths sha loc →
    located d dir v es0 (paths ++ [JoinPath dir (Path fe)]) sha loc) as Hmono.
  { intros l x (f & j & i & z & Hf & Hft & Hp & Hrest). exists f, j, i, z.
    split; [exact Hf|]. split; [exact Hft|]. split; [by apply lookup_app_l_Some|exact Hrest]. }
  destruct Hloc as [Hloc|(Hfi & j & i & size & Hj & He & Hoff)]; [by apply Hmono, Hm|].
  exists fe, j, i, size. split_and!; try done.
  - apply Hsub. by left.
  - rewrite Hfi, u32_id by (unfold is_u32; cbn [length] in Hlen; lia).
    rewrite Nat2Z.id. by apply list_lookup_middle.
Qed.

(** ** What the directory holds *)

(** A chunk list that was written completely: the right size for its count, and its digest
    at the end. *)
Definition content_of `{Digest} (content data : list byte) : Prop :=
  data = content ++ sum256 content ∧ take 4 content = TSCMagic ∧
  let count := be_get (take 8 (drop 8 content)) in
  count ≤ 2 ^ 32 ∧ Z.of_nat (length content) = 64 + 40 * count.
Definition intact_list `{Digest} (data : list byte) : Prop := ∃ content, content_of content data.

(** The snapshots of a directory: a file [base.tsc] with an intact list, a file [base.tsm]
    and the tree [base], none of them a download in progress. *)
Record complete_snap `{Digest} (d : disk) (dir : gostring) (l : list (gostring * bool)) (base : gostring) : Prop := {
  cs_listed : (base ++ bs ".tsc", false) ∈ l;
  cs_done : ∀ b, base ≠ b ++ bs ".tmp";
  cs_manifest : JoinPath dir (base ++ bs ".tsm") ∈ d_exists d;
  cs_tree : JoinPath dir base ∈ d_exists d;
  cs_list : ∃ data, d_files d !! JoinPath dir (base ++ bs ".tsc") = Some data ∧ intact_list data;
}.
Definition named_snap (dir base : gostring) : snapIdx :=
  MkSnap base (JoinPath dir base) (JoinPath dir (base ++ bs ".tsc")) (JoinPath dir (base ++ bs ".tsm")) None false None false [].

Section complete.
Context `{Digest} (d : disk).

Lemma count_check count len :
  0 ≤ count →
  checkTSCCountConsistent count len = Ret tt ↔ count ≤ 2 ^ 32 ∧ len = 64 + 40 * count.
Proof.
  intros Hc. unfold checkTSCCountConsistent, guard_err, TSCHeaderSize, TSCEntrySize.
  destruct (count >? 2 ^ 32) eqn:H1; [split; [done|lia]|]. cbn.
  destruct (len - Z.of_nat 64 <? 0) eqn:H2; [split; [done|lia]|]. cbn.
  destruct (count * Z.of_nat 40 =? len - Z.of_nat 64) eqn:H3; cbn; (split; [|done || lia]); [|done].
  intros _. lia.
Qed.

Lemma header_fields (data : list byte) : (64 ≤ length data)%nat →
  go_slice data 0 TSCHeaderSize = Some (take 64 data) ∧
  go_slice data 0 4 = Some (take 4 data) ∧ go_slice (take 64 data) 0 4 = Some (take 4 data) ∧
  field (E := tsc_read_error) data 8 16 = Ret (be_get (take 8 (drop 8 data))) ∧
  field (E := tsc_read_error) (take 64 data) 8 16 = Ret (be_get (take 8 (drop 8 data))).
Proof.
  intros Hl. unfold field, TSCHeaderSize. rewrite !go_slice_some by len_lia. rewrite !drop_0.
  repeat split; [by rewrite take_take|].
  do 2 f_equal. rewrite !skipn_firstn_comm, !take_take. done.
Qed.

(** The readers accept exactly the intact lists. *)
Lemma validated_intact path content :
  readTSCContentValidated d path = Ret content →
  ∃ data, d_files d !! path = Some data ∧ intact_list data.
Proof.
  unfold readTSCContentValidated. destruct (d_files d !! path) as [data|]; [|done]. cbn [or_err]. rewrite ret_bind.
  unfold TSCHeaderSize, TSCFooterSize.
  destruct (guard_err _ tsc_short) as [[]|e|] eqn:Hlen; [|done..]. apply guard_err_ret in Hlen. reflect_bools.
  destruct (header_fields data ltac:(lia)) as (_ & -> & _ & Hf & _). cbn [or_panic]. rewrite !ret_bind.
  destruct (guard_err _ tsc_magic) as [[]|e|] eqn:Hm; [|done..]. apply guard_err_ret in Hm. reflect_bools.
  rewrite ret_bind, Hf, ret_bind.
  destruct (checkTSCCountConsistent _ _) as [[]|e|] eqn:Hc; [|done..]. rewrite ret_bind.
  apply count_check in Hc as [Hc1 Hc2]; [|apply be_get_range].
  rewrite !go_slice_some by lia. cbn [or_panic]. rewrite !ret_bind.
  destruct (guard_err _ tsc_checksum) as [[]|e|] eqn:Hs; [|done..]. apply guard_err_ret in Hs. reflect_bools.
  intros _. exists data. split; [done|]. exists (take (length data - 32) data). unfold content_of.
  rewrite drop_0, Nat.sub_0_r in Hs. rewrite Hs, take_take, skipn_firstn_comm, take_take, length_take.
  rewrite !Nat.min_l by lia. split; [|split; [done|split; [done|lia]]].
  rewrite (take_ge (drop _ _)) by len_lia. by rewrite take_drop.
Qed.

Lemma intact_validated path content data :
  d_files d !! path = Some data → content_of content data →
  readTSCContentValidated d path = Ret content ∧ ∃ c, readTSCChunkCount d path = Ret c.
Proof.
  intros Hd (-> & Hm & Hc & Hl).
  pose proof (be_get_range (take 8 (drop 8 content))) as Hr.
  assert (64 ≤ length content)%nat by lia.
  set (data := content ++ sum256 content) in *.
  assert (Hlen : length data = (length content + 32)%nat) by (unfold data; by rewrite length_app, length_sum256).
  assert (Ht : ∀ n, (n ≤ 64)%nat → take n data = take n content).
  { intros n Hn. unfold data. apply take_app_le. lia. }
  assert (Hcnt : take 8 (drop 8 data) = take 8 (drop 8 content)).
  { pose proof (Ht 16%nat ltac:(lia)) as Hx. apply (f_equal (drop 8)) in Hx. rewrite !skipn_firstn_comm in Hx. exact Hx. }
  destruct (header_fields data ltac:(lia)) as (H1 & H2 & H3 & H4 & H5).
  unfold readTSCContentValidated, readTSCChunkCount. rewrite Hd. cbn [or_err]. rewrite !ret_bind.
  unfold TSCFooterSize in *. unfold TSCHeaderSize in *. split.
  - assert ((length data <? 64 + 32)%nat = false) as -> by lia. cbn [guard_err]. rewrite ret_bind, H2. cbn [or_panic].
    rewrite ret_bind, (Ht 4%nat), Hm by lia. rewrite bool_decide_eq_true_2 by done. cbn [negb guard_err]. rewrite ret_bind, H4, ret_bind, Hcnt.
    rewrite (proj2 (count_check _ _ (proj1 Hr))) by lia. rewrite ret_bind, !go_slice_some by lia. cbn [or_panic]. rewrite !ret_bind.
    rewrite drop_0, Nat.sub_0_r, Hlen. unfold data.
    rewrite Nat.add_sub, take_app_length, drop_app_length, (take_ge (sum256 content)) by (rewrite length_sum256; unfold SHA256Size; lia).
    rewrite bool_decide_eq_true_2 by done. done.
  - rewrite H1. cbn [or_err]. rewrite ret_bind, H3. cbn [or_panic]. rewrite ret_bind, (Ht 4%nat), Hm by lia.
    rewrite bool_decide_eq_true_2 by done. cbn [negb guard_err]. rewrite ret_bind, H5, ret_bind, Hcnt.
    rewrite (proj2 (count_check _ _ (proj1 Hr))) by lia. rewrite ret_bind. by eexists.
Qed.

Lemma discover_elem dir l s :
  s ∈ (discover d dir l).1 ↔ ∃ base, s = named_snap dir base ∧ (base ++ bs ".tsc", false) ∈ l ∧
    HasSuffix base (bs ".tmp") = false ∧ JoinPath dir (base ++ bs ".tsm") ∈ d_exists d ∧
    JoinPath dir base ∈ d_exists d ∧ ∃ c, readTSCChunkCount d (JoinPath dir (base ++ bs ".tsc")) = Ret c.
Proof.
  induction l as [|[name isDir] l IH]; cbn [discover].
  { split; [by intros ?%not_elem_of_nil|]. by intros (? & _ & ?%not_elem_of_nil & _). }
  destruct (discover d dir l) as [rest total]. cbn [fst] in IH.
  assert (Hskip : (∀ base, name = base ++ bs ".tsc" → isDir = false → HasSuffix base (bs ".tmp") = false →
     JoinPath dir (base ++ bs ".tsm") ∈ d_exists d → JoinPath dir base ∈ d_exists d →
     ∀ c, readTSCChunkCount d (JoinPath dir (base ++ bs ".tsc")) ≠ Ret c) →
    s ∈ rest ↔ ∃ base, s = named_snap dir base ∧ (base ++ bs ".tsc", false) ∈ (name, isDir) :: l ∧
    HasSuffix base (bs ".tmp") = false ∧ JoinPath dir (base ++ bs ".tsm") ∈ d_exists d ∧
    JoinPath dir base ∈ d_exists d ∧ ∃ c, readTSCChunkCount d (JoinPath dir (base ++ bs ".tsc")) = Ret c).
  { intros Hno. rewrite IH. split.
    - intros (b & ? & Hin & Hrest). exists b. split; [done|]. split; [by right|done].
    - intros (b & -> & [Heq|Hin]%elem_of_cons & Hs & Hm & Ht & c & Hc).
      + injection Heq as <- <-. by destruct (Hno b eq_refl eq_refl Hs Hm Ht c).
      + exists b. eauto 10. }
  destruct (_ || _ || _ || _ || _) eqn:Hg.
  { apply Hskip. intros base -> -> Hs Hm Ht c Hc.
    rewrite TrimSuffix_app, HasSuffix_app, Hs in Hg. cbn [negb orb] in Hg.
    rewrite !bool_decide_eq_false_2 in Hg; [done|by intros Hn|by intros Hn]. }
  rewrite !orb_false_iff, negb_false_iff in Hg. destruct Hg as [[[[-> Hsuf] Htmp] Hm] Ht].
  apply HasSuffix_true in Hsuf as [base ->]. rewrite TrimSuffix_app in *.
  apply bool_decide_eq_false in Hm, Ht.
  destruct (readTSCChunkCount d (JoinPath dir (base ++ bs ".tsc"))) as [c|e|] eqn:Hc; cbn [fst].
  - rewrite elem_of_cons, IH. split.
    + intros [->|(b & ? & Hin & Hrest)].
      * exists base. split; [done|]. split; [by left|]. split; [done|]. split; [by apply dec_stable|]. split; [by apply dec_stable|]. by exists c.
      * exists b. split; [done|]. split; [by right|done].
    + intros (b & -> & [Heq|Hin]%elem_of_cons & Hrest).
      * left. injection Heq as Heq. apply app_inv_tail in Heq as ->. done.
      * right. by exists b.
  - apply Hskip. intros b Heq _ _ _ _ c Hc'. apply app_inv_tail in Heq as ->. by rewrite Hc in Hc'.
  - apply Hskip. intros b Heq _ _ _ _ c Hc'. apply app_inv_tail in Heq as ->. by rewrite Hc in Hc'.
Qed.

Lemma validate_elem l s :
  s ∈ (validate d l).1 ↔ s ∈ l ∧ ∃ content, readTSCContentValidated d (tscPath s) = Ret content.
Proof.
  induction l as [|s0 l IH]; cbn [validate].
  { split; [by intros ?%not_elem_of_nil|]. by intros [?%not_elem_of_nil _]. }
  destruct (validate d l) as [good keys]. cbn [fst] in IH.
  destruct (readTSCContentValidated d (tscPath s0)) as [c|e|] eqn:Hv; cbn [fst]; rewrite ?elem_of_cons, IH.
  - split; [intros [->|[? ?]]; [split; [by left|by exists c]|split; [by right|done]]|].
    intros [[->|?] ?]; [by left|by right].
  - split; [intros [? ?]; split; [by right|done]|]. intros [[->|?] [c Hc]]; [by rewrite Hv in Hc|eauto].
  - split; [intros [? ?]; split; [by right|done]|]. intros [[->|?] [c Hc]]; [by rewrite Hv in Hc|eauto].
Qed.

(** An opened index has the complete snapshots of its directory, and only those. *)
Lemma opened_complete fm fk dir l openTSC locMaps ci :
  OpenChunkIndexWith fm fk d dir (DirEntries l) openTSC locMaps = Ret ci →
  ∀ s, s ∈ snaps ci ↔ ∃ base, complete_snap d dir l base ∧ s = named_snap dir base.
Proof.
  unfold OpenChunkIndexWith. intros Ho s.
  pose proof (discover_elem dir l) as Hd. destruct (discover d dir l) as [found total]. cbn [fst] in Hd.
  pose proof (validate_elem (sort_by_key snapID found)) as Hv.
  destruct (validate d (sort_by_key snapID found)) as [good keys]. cbn [fst] in Hv.
  apply bind_ret_inv in Ho as (b & _ & Ho). injection Ho as <-. cbn [snaps]. rewrite Hv, sort_by_key_perm, Hd.
  split.
  - intros ((base & -> & Hl & Htmp & Hm & Ht & c & Hc) & content & Hval). exists base. split; [|done].
    split; [done| |done|done|by apply validated_intact in Hval].
    intros b0 ->. by rewrite HasSuffix_app in Htmp.
  - intros (base & [Hl Htmp Hm Ht (data & Hdata & content & Hi)] & ->).
    destruct (intact_validated _ _ _ Hdata Hi) as [Hval Hcnt]. split; [|by exists content]. exists base.
    split; [done|]. split; [done|]. split; [|done].
    destruct (HasSuffix base (bs ".tmp")) eqn:Hx; [|done]. apply HasSuffix_true in Hx as [b0 Hb]. by destruct (Htmp b0).
Qed.
End complete.

(** ** Which chunks a snapshot holds *)

(** A list whose digests ascend, as the writer leaves it. *)
Definition sorted_view (v : tscView) : Prop := ∀ i j x y,
  i < j → entryByIndex v i = Some x → entryByIndex v j = Some y → go_le x.1 y.1.

(** [sha] is among the references of a file, and nothing before it refers outside of the
    list. *)
Definition refers (v : tscView) (refs : list Z) (sha : list byte) : Prop := ∃ j i size,
  refs !! j = Some i ∧ entryByIndex v i = Some (sha, size) ∧
  ∀ k i', (k < j)%nat → refs !! k = Some i' → is_Some (entryByIndex v i').

(** A regular file of the manifest that is on the disk has the chunk. *)
Definition file_has (d : disk) (dir : gostring) (v : tscView) (sha : list byte) (fe : TSMEntry) : Prop :=
  Type_ fe = EntryTypeFile ∧ EChunkCount fe ≠ 0 ∧ JoinPath dir (Path fe) ∈ d_exists d ∧ refers v (ChunkRefs fe) sha.
Definition holds_chunk `{Digest} (d : disk) (s : snapIdx) (sha : list byte) : Prop := ∃ v tsm fe,
  snap_view d s = Some v ∧ ReadTSM d (tsmPath s) = Some tsm ∧ fe ∈ rEntries tsm ∧ file_has d (snapDir s) v sha fe.

Lemma refers_nil v sha : ¬ refers v [] sha.
Proof. by intros (j & i & z & Hj & _). Qed.

Lemma refers_cons v i refs sha :
  refers v (i :: refs) sha ↔ ∃ x, entryByIndex v i = Some x ∧ (x.1 = sha ∨ refers v refs sha).
Proof.
  split.
  - intros ([|j] & i' & z & Hj & He & Hall); cbn in Hj.
    + injection Hj as ->. exists (sha, z). eauto.
    + destruct (Hall 0%nat i) as [x Hx]; [lia|done|]. exists x. split; [done|]. right. exists j, i', z.
      split; [done|]. split; [done|]. intros k i2 Hk. apply (Hall (S k)). lia.
  - intros ([sha' z] & Hx & [<-|(j & i' & z' & Hj & He & Hall)]).
    + exists 0%nat, i, z. split; [done|]. split; [done|]. lia.
    + exists (S j), i', z'. split; [done|]. split; [done|]. intros [|k] i2 Hk Hl; [injection Hl as <-; eauto|].
      apply (Hall k); [lia|done].
Qed.

Lemma loc_refs_dom v fidx refs off m sha :
  is_Some (loc_refs v fidx refs off m !! sha) ↔ is_Some (m !! sha) ∨ refers v refs sha.
Proof.
  revert off m. induction refs as [|i refs IH]; intros off m; cbn [loc_refs].
  { split; [by left|]. intros [?|?%refers_nil]; done. }
  rewrite refers_cons. destruct (entryByIndex v i) as [[sha' size]|] eqn:He.
  2: { split; [by left|]. intros [?|(x & ? & _)]; done. }
  rewrite IH. destruct (decide (sha' = sha)) as [->|Hne].
  - split; [intros _; right; exists (sha, size); eauto|]. intros _. left.
    destruct (m !! sha) eqn:Hm; [by rewrite Hm|]. rewrite lookup_insert_eq. eauto.
  - assert (∀ l, match m !! sha' with Some _ => m | None => <[sha' := l]> m end !! sha = m !! sha) as ->.
    { intros l. destruct (m !! sha'); [done|]. by rewrite lookup_insert_ne. }
    split; [intros [?|?]; [by left|right; exists (sha', size); eauto]|].
    intros [?|([? ?] & [= <- <-] & [?|?])]; [by left|done|by right].
Qed.

Lemma loc_entries_dom d dir v es m paths sha :
  is_Some ((loc_entries d dir v es m paths).1 !! sha) ↔
  is_Some (m !! sha) ∨ ∃ fe, fe ∈ es ∧ file_has d dir v sha fe.
Proof.
  revert m paths. induction es as [|fe es IH]; intros m paths; cbn [loc_entries fst].
  { split; [by left|]. intros [?|(? & ?%not_elem_of_nil & _)]; done. }
  assert (Hcons : (∃ x, x ∈ fe :: es ∧ file_has d dir v sha x) ↔ file_has d dir v sha fe ∨ ∃ x, x ∈ es ∧ file_has d dir v sha x).
  { split; [intros (x & [->|Hx]%elem_of_cons & Hh); eauto|].
    intros [Hh|(x & Hx & Hh)]; [exists fe; split; [by left|done]|exists x; split; [by right|done]]. }
  rewrite Hcons. destruct (_ || _) eqn:Hty.
  { rewrite IH. split; [tauto|]. intros [?|[(H1 & H2 & _)|?]]; [by left| |by right].
    rewrite orb_true_iff, negb_true_iff in Hty. destruct Hty as [Hty|Hty]; lia. }
  rewrite orb_false_iff, negb_false_iff in Hty. destruct Hty as [Hty Hcnt].
  case_bool_decide as Hex.
  { rewrite IH. split; [tauto|]. intros [?|[(_ & _ & H3 & _)|?]]; [by left|done|by right]. }
  rewrite IH, loc_refs_dom. assert (file_has d dir v sha fe ↔ refers v (ChunkRefs fe) sha) as ->; [|tauto].
  unfold file_has. split; [by intros (_ & _ & _ & ?)|]. intros ?. split; [lia|]. split; [lia|]. done.
Qed.

(** The list of a complete snapshot has the entries its count says. *)
Definition full_view (v : tscView) : Prop :=
  0 ≤ v_count v ∧ entriesOff v = 64%nat ∧ entrySize v = 40%nat ∧ Z.of_nat (length (v_data v)) = 64 + 40 * v_count v.

Lemma entry_full v i : full_view v → 0 ≤ i < v_count v →
  entryByIndex v i = Some (view_sha v (64 + Z.to_nat i * 40), view_size v (64 + Z.to_nat i * 40)).
Proof.
  intros (H0 & H1 & H2 & H3) Hi. unfold entryByIndex, TSCEntrySize. rewrite H1, H2.
  assert ((i <? 0) || (i >=? v_count v) = false) as -> by lia.
  by assert ((length (v_data v) <? 64 + Z.to_nat i * 40 + 40)%nat = false) as -> by lia.
Qed.

Lemma lookup_sorted v i sha size :
  full_view v → sorted_view v → entryByIndex v i = Some (sha, size) → is_Some (lookup v sha).
Proof.
  intros Hf Hs He. assert (Hi : 0 ≤ i < v_count v).
  { unfold entryByIndex in He. destruct ((i <? 0) || (i >=? v_count v)) eqn:Hb; [done|]. lia. }
  pose proof Hf as (H0 & H1 & H2 & H3). unfold lookup, TSCEntrySize. rewrite H1, H2.
  assert ((v_count v =? 0) = false) as -> by lia.
  set (f := λ k : nat, if (length (v_data v) <? 64 + k * 40 + 32)%nat then true else negb (go_ltb (view_sha v (64 + k * 40)) sha)).
  assert (Hfk : ∀ k, (k < Z.to_nat (v_count v))%nat → f k = negb (go_ltb (view_sha v (64 + k * 40)) sha)).
  { intros k Hk. unfold f. by assert ((length (v_data v) <? 64 + k * 40 + 32)%nat = false) as -> by lia. }
  assert (Hle : ∀ a b, (a < b < Z.to_nat (v_count v))%nat → go_le (view_sha v (64 + a * 40)) (view_sha v (64 + b * 40))).
  { intros a b Hab. pose proof (entry_full v (Z.of_nat a) Hf ltac:(lia)) as Ha. pose proof (entry_full v (Z.of_nat b) Hf ltac:(lia)) as Hb.
    rewrite Nat2Z.id in Ha, Hb. by apply (Hs (Z.of_nat a) (Z.of_nat b) _ _ ltac:(lia) Ha Hb). }
  destruct (sort_search_first (Z.to_nat (v_count v)) f) as (Hr & Hlt & Hge).
  { intros a b Hab Ha. rewrite Hfk in Ha |- * by lia. destruct (decide (a = b)) as [->|Hne]; [done|].
    rewrite negb_true_iff in Ha |- *. change (go_le sha (view_sha v (64 + b * 40))).
    transitivity (view_sha v (64 + a * 40)); [done|]. apply Hle. lia. }
  pose proof (entry_full v i Hf Hi) as Hei. rewrite He in Hei.
  assert (Hsha : view_sha v (64 + Z.to_nat i * 40) = sha) by congruence. clear Hei.
  set (idx := sort_search (Z.to_nat (v_count v)) f) in *.
  assert (Hidx : (idx ≤ Z.to_nat i)%nat).
  { destruct (decide (idx ≤ Z.to_nat i)%nat); [done|]. specialize (Hlt (Z.to_nat i) ltac:(lia)).
    rewrite Hfk, Hsha, go_ltb_irrefl in Hlt by lia. done. }
  assert ((Z.of_nat idx <? v_count v) = true) as -> by lia.
  assert ((length (v_data v) <? 64 + idx * 40 + 40)%nat = false) as -> by lia.
  rewrite bool_decide_eq_true_2; [by eexists|].
  specialize (Hge idx ltac:(lia)). rewrite Hfk, negb_true_iff in Hge by lia.
  apply (anti_symm go_le); [|done]. rewrite <- Hsha.
  destruct (decide (idx = Z.to_nat i)) as [->|]; [by unfold go_le; apply go_ltb_irrefl|]. apply Hle. lia.
Qed.

Section holding.
Context `{Digest} (d : disk).

Lemma complete_full dir l base v :
  complete_snap d dir l base → snap_view d (named_snap dir base) = Some v → full_view v.
Proof.
  intros [_ _ _ _ (data & Hd & content & Hi)] Hv. destruct (intact_validated d _ _ _ Hd Hi) as [Hval _].
  destruct Hi as (_ & _ & Hc & Hl).
  unfold snap_view in Hv. cbn [tscPath named_snap] in Hv. rewrite (validated_content _ _ _ Hval) in Hv.
  unfold newTSCView in Hv. unfold TSCHeaderSize in Hv. pose proof (be_get_range (take 8 (drop 8 content))) as Hr.
  assert ((length content <? 64)%nat = false) as Hn by lia. rewrite Hn in Hv. injection Hv as <-.
  unfold full_view. cbn [v_count v_data entriesOff entrySize]. rewrite i64_id by (unfold is_i64; lia). split_and!; [lia|done|done|lia].
Qed.

Lemma resolve_holds s sha :
  (∀ v, snap_view d s = Some v → full_view v ∧ sorted_view v) →
  is_Some (resolve d s sha) ↔ holds_chunk d s sha.
Proof.
  intros Hok. unfold resolve, snap_locs, holds_chunk. destruct (snap_view d s) as [v|].
  2: { split; [intros [? ?]; done|]. by intros (? & ? & ? & ? & _). }
  destruct (Hok v eq_refl) as [Hf Hs]. cbn.
  destruct (ReadTSM d (tsmPath s)) as [tsm|].
  2: { split; [destruct (lookup v sha); intros [? ?]; done|]. by intros (? & ? & ? & _ & ? & _). }
  pose proof (loc_entries_dom d (snapDir s) v (rEntries tsm) ∅ [] sha) as Hdom.
  rewrite lookup_empty in Hdom. split.
  - intros Hr. destruct (lookup v sha) as [z|]; [|by destruct Hr]. cbn in Hr.
    destruct (loc_entries d (snapDir s) v (rEntries tsm) ∅ []) as [m paths]. cbn [fst] in Hdom.
    destruct (m !! sha) as [loc|]; [|by destruct Hr].
    destruct (proj1 Hdom ltac:(by eexists)) as [[? ?]|(fe & Hin & Hfe)]; [done|]. by exists v, tsm, fe.
  - intros (v' & tsm' & fe & [= <-] & [= <-] & Hin & Hfe).
    pose proof Hfe as (_ & _ & _ & j & i & z & _ & He & _). destruct (lookup_sorted v i sha z Hf Hs He) as [size ->]. cbn.
    destruct (loc_entries d (snapDir s) v (rEntries tsm) ∅ []) as [m paths]. cbn [fst] in Hdom.
    destruct (proj2 Hdom ltac:(right; by exists fe)) as [loc ->]. by eexists.
Qed.

Lemma found_snaps fm fk dir l openTSC locMaps ci0 ci :
  OpenChunkIndexWith fm fk d dir (DirEntries l) openTSC locMaps = Ret ci0 → cold <$> snaps ci ≡ₚ cold <$> snaps ci0 →
  ∀ s, s ∈ cold <$> snaps ci ↔ ∃ base, complete_snap d dir l base ∧ s = named_snap dir base.
Proof.
  intros Ho Hp s. rewrite Hp, list_elem_of_fmap. split.
  - intros (s0 & -> & (base & Hb & ->)%(opened_complete d _ _ _ _ _ _ _ Ho)). by exists base.
  - intros (base & Hb & ->). exists (named_snap dir base). split; [done|]. apply (opened_complete d _ _ _ _ _ _ _ Ho). by exists base.
Qed.

Lemma nothing_found dir l (sn : list snapIdx) sha :
  (∀ s, s ∈ cold <$> sn ↔ ∃ base, complete_snap d dir l base ∧ s = named_snap dir base) →
  first_hit d sn sha = None ↔ ∀ base, complete_snap d dir l base → resolve d (named_snap dir base) sha = None.
Proof.
  intros Hsn. rewrite first_hit_none. split.
  - intros Hall base Hb.
    assert (Hin : named_snap dir base ∈ cold <$> sn) by (apply Hsn; eauto).
    apply list_elem_of_fmap in Hin as (s & -> & Hs). rewrite resolve_cold. by apply Hall.
  - intros Hall s Hs. rewrite <- resolve_cold.
    destruct (proj1 (Hsn (cold s))) as (base & Hb & ->); [by apply list_elem_of_fmap_2|]. by apply Hall.
Qed.

Lemma some_found dir l sha (r : option ChunkLocation) :
  (∀ base v, complete_snap d dir l base → snap_view d (named_snap dir base) = Some v → sorted_view v) →
  (r = None ↔ ∀ base, complete_snap d dir l base → resolve d (named_snap dir base) sha = None) →
  (∀ loc, r = Some loc → ∃ base, complete_snap d dir l base ∧ resolve d (named_snap dir base) sha = Some loc) →
  is_Some r ↔ ∃ base, complete_snap d dir l base ∧ holds_chunk d (named_snap dir base) sha.
Proof.
  intros Hs Hr Hsome. assert (Hh : ∀ base, complete_snap d dir l base →
    is_Some (resolve d (named_snap dir base) sha) ↔ holds_chunk d (named_snap dir base) sha).
  { intros base Hb. apply resolve_holds. intros v Hv. split; [by apply (complete_full dir l base)|by apply (Hs base)]. }
  split.
  - intros [loc ->]. destruct (Hsome loc eq_refl) as (base & Hb & Hl). exists base. split; [done|]. apply Hh; [done|]. by exists loc.
  - intros (base & Hb & Hx). apply Hh in Hx as [loc Hl]; [|done]. destruct r as [x|]; [by exists x|].
    rewrite (proj1 Hr eq_refl base Hb) in Hl. done.
Qed.
End holding.

(** ** Properties *)

(** A small disk for the witness, under the digest that is always zero. *)

Definition small_disk : disk :=
  Disk {[ bs "s/a.tsc" := tsc_content 1 5 [MkTSCEntry (replicate 32 "c"%byte) 5 0 0] ++ replicate 32 Byte.x00;
          bs "s/a.tsm" := file_bytes (H := zero_digest)
            (header_of 0 1 5 (replicate 8 Byte.x00) 0 (replicate 8 Byte.x00))
            [MkTSMEntry (bs "f") 0 0 33188 0 0 5 0 0 0 0 1 [0] [] 0 0 0] [0] (replicate 32 Byte.x00) ]}
       {[ bs "s/a.tsm"; bs "s/a"; bs "s/a/f" ]}.

Definition small_snap : snapIdx :=
  MkSnap (bs "a") (bs "s/a") (bs "s/a.tsc") (bs "s/a.tsm") None false None false [].

(** C2: looking a chunk up is exact, whatever was looked up before: an index opened over
    an unchanging directory has the complete snapshots of the directory and only those, and
    the caches, the evictions and the Bloom filter never change an answer.  A chunk is found
    if and only if some complete snapshot has it on disk (where the lists are sorted, as the
    writer leaves them: in a regular file of its manifest that is there); the location is
    that of the first such snapshot in most-recently-used order, which moves to the front;
    and no more chunk lists and location maps are held than the caps allow. *)
Theorem find_chunk_exact `{Digest} fm fk d dir l openTSC locMaps queries sha
    (Hfm : ∀ n, fm n < 2 ^ 63) (Hlen : Z.of_nat (length l) < 2 ^ 31) :
  ∃ ci0, OpenChunkIndexWith fm fk d dir (DirEntries l) openTSC locMaps = Ret ci0 ∧
    let ci := find_all d ci0 queries in
    let '(ci', r) := FindChunk d ci sha in
    (∀ s, s ∈ cold <$> snaps ci ↔ ∃ base, complete_snap d dir l base ∧ s = named_snap dir base) ∧
    (r = None ↔ ∀ base, complete_snap d dir l base → resolve d (named_snap dir base) sha = None) ∧
    ((∀ base v, complete_snap d dir l base → snap_view d (named_snap dir base) = Some v → sorted_view v) →
     is_Some r ↔ ∃ base, complete_snap d dir l base ∧ holds_chunk d (named_snap dir base) sha) ∧
    (∀ loc, r = Some loc → ∃ j base, (j < length (snaps ci))%nat ∧
       complete_snap d dir l base ∧ cold (snaps ci !!! j) = named_snap dir base ∧
       resolve d (named_snap dir base) sha = Some loc ∧
       (∀ i, (i < j)%nat → resolve d (snaps ci !!! i) sha = None) ∧
       cold <$> snaps ci' = to_front j (cold <$> snaps ci)) ∧
    (count_held tsc_held (snaps ci') ≤ maxOpenTSC ci')%nat ∧
    (count_held loc_held (snaps ci') ≤ maxLocMaps ci')%nat.
Proof.
  destruct (Open_inv d fm fk dir l openTSC locMaps Hfm Hlen) as (ci0 & Hopen & Hinv).
  exists ci0. split; [done|]. cbn zeta.
  destruct (find_all_inv d ci0 queries Hinv) as [Hinv1 Hperm].
  set (ci := find_all d ci0 queries) in *.
  pose proof (FindChunk_spec d ci sha Hinv1) as Hf.
  destruct (FindChunk d ci sha) as [ci' r]. destruct Hf as [Hinv2 Hm].
  pose proof (found_snaps d fm fk dir l openTSC locMaps ci0 ci Hopen Hperm) as Hsn.
  assert (Hnone : r = None ↔ ∀ base, complete_snap d dir l base → resolve d (named_snap dir base) sha = None).
  { rewrite <- (nothing_found d dir l (snaps ci) sha Hsn).
    destruct (first_hit d (snaps ci) sha) as [[j loc]|]; destruct Hm as [-> _]; done. }
  assert (Hsome : ∀ loc, r = Some loc → ∃ j base, (j < length (snaps ci))%nat ∧
       complete_snap d dir l base ∧ cold (snaps ci !!! j) = named_snap dir base ∧
       resolve d (named_snap dir base) sha = Some loc ∧
       (∀ i, (i < j)%nat → resolve d (snaps ci !!! i) sha = None) ∧
       cold <$> snaps ci' = to_front j (cold <$> snaps ci)).
  { intros loc ->. destruct (first_hit d (snaps ci) sha) as [[j loc']|] eqn:Hfh;
      destruct Hm as [Heq Hc]; [|done].
    injection Heq as <-. apply first_hit_some in Hfh as (Hj & Hr & Hlt).
    destruct (proj1 (Hsn (cold (snaps ci !!! j)))) as (base & Hb & Hn).
    { apply list_elem_of_fmap_2, list_elem_of_lookup_total_2, Hj. }
    exists j, base. rewrite <- Hn, resolve_cold. done. }
  split; [exact Hsn|]. split; [exact Hnone|]. split; [|split; [exact Hsome|split; apply Hinv2]].
  intros Hsorted. apply (some_found d dir l sha r Hsorted Hnone). intros loc Hl.
  destruct (Hsome loc Hl) as (j & base & _ & Hb & _ & Hr & _). by exists base.
Qed.


Lemma find_chunk_exact_witness :
  let sha := replicate 32 "c"%byte in
  ∃ ci0 ci' loc, OpenChunkIndexWith (H := zero_digest) (λ n, Z.min (10 * n) (2 ^ 40)) (λ _ _, 7)
      small_disk (bs "s") (DirEntries [(bs "a.tsc", false)]) 0 0 = Ret ci0 ∧
    FindChunk (H := zero_digest) small_disk (find_all (H := zero_digest) small_disk ci0 [sha; replicate 32 "d"%byte]) sha = (ci', Some loc) ∧
    Filename loc = bs "s/a/f" ∧ cl_Offset loc = 0.
Proof.
  intros sha.
  destruct (find_chunk_exact (H := zero_digest) (λ n, Z.min (10 * n) (2 ^ 40)) (λ _ _, 7) small_disk (bs "s")
    [(bs "a.tsc", false)] 0 0 [sha; replicate 32 "d"%byte] sha ltac:(intros n; cbn beta; lia) ltac:(cbn; lia)) as (ci0 & Ho & Hf).
  exists ci0. cbn zeta in Hf. destruct (FindChunk (H := zero_digest) small_disk _ sha) as [ci' r].
  destruct Hf as (_ & Hnone & _ & Hsome & _).
  assert (Ha : complete_snap (H := zero_digest) small_disk (bs "s") [(bs "a.tsc", false)] (bs "a")).
  { split; [by left| |vm_compute; reflexivity|vm_compute; reflexivity|].
    - intros b Hb. apply (f_equal length) in Hb. rewrite length_app in Hb. cbn in Hb. lia.
    - eexists. split; [reflexivity|]. exists (tsc_content 1 5 [MkTSCEntry (replicate 32 "c"%byte) 5 0 0]).
      split; [reflexivity|]. split; [reflexivity|]. vm_compute. split; [discriminate|reflexivity]. }
  destruct r as [loc|]; [|exfalso; pose proof (proj1 Hnone eq_refl _ Ha) as Hx; vm_compute in Hx; discriminate Hx].
  exists ci', loc. split; [exact Ho|]. split; [reflexivity|].
  destruct (Hsome loc eq_refl) as (j & base & _ & [Hl _ _ _ _] & _ & Hr & _).
  apply list_elem_of_singleton in Hl. assert (base = bs "a") as ->.
  { apply (app_inv_tail (bs ".tsc")). by injection Hl. }
  vm_compute in Hr. injection Hr as <-. split; reflexivity.
Defined.

(** a location is right: the file it names is a regular file of the snapshot's
    manifest that exists on disk, the chunk list entry of one of its references is
    the chunk that was asked for, and the offset is the total size of the chunks
    before it. *)
Theorem chunk_location_sound `{Digest} d s sha loc v tsm
    (Hr : resolve d s sha = Some loc) (Hv : snap_view d s = Some v)
    (Ht : ReadTSM d (tsmPath s) = Some tsm) (Hn : Z.of_nat (length (rEntries tsm)) < 2 ^ 32) :
  cl_SHA256 loc = sha ∧
  ∃ fe j i size, fe ∈ rEntries tsm ∧ Type_ fe = EntryTypeFile ∧
    Filename loc = JoinPath (snapDir s) (Path fe) ∧ Filename loc ∈ d_exists d ∧
    ChunkRefs fe !! j = Some i ∧ entryByIndex v i = Some (sha, size) ∧
    cl_Offset loc = refs_size v (take j (ChunkRefs fe)).
Proof.
  unfold resolve, snap_locs in Hr. rewrite Hv in Hr. cbn in Hr.
  destruct (lookup v sha) as [sz|]; [|done]. cbn in Hr. rewrite Ht in Hr. cbn in Hr.
  destruct (loc_entries d (snapDir s) v (rEntries tsm) ∅ []) as [m paths] eqn:Hl. cbn in Hr.
  destruct (m !! sha) as [cl|] eqn:Hm; [|done]. cbn in Hr. injection Hr as <-.
  cbn [cl_SHA256 Filename cl_Offset]. split; [done|].
  destruct (loc_entries_spec _ _ _ (rEntries tsm) _ _ _ _ _ Hl) with (sha := sha) (loc := cl)
    as (fe & j & i & size & Hfe & Hty & Hp & Hex & Hj & He & Ho); try done.
  rewrite (list_lookup_total_correct _ _ _ Hp).
  exists fe, j, i, size. by split_and!.
Qed.

Lemma chunk_location_sound_witness :
  ∃ loc fe, resolve (H := zero_digest) small_disk small_snap (replicate 32 "c"%byte) = Some loc ∧
    Filename loc = JoinPath (bs "s/a") (Path fe) ∧ Path fe = bs "f" ∧ cl_Offset loc = 0.
Proof.
  destruct (resolve (H := zero_digest) small_disk small_snap (replicate 32 "c"%byte)) as [loc|] eqn:Hr;
    [|vm_compute in Hr; discriminate].
  destruct (snap_view small_disk small_snap) as [v|] eqn:Hv; [|vm_compute in Hv; discriminate].
  destruct (ReadTSM (H := zero_digest) small_disk (tsmPath small_snap)) as [tsm|] eqn:Ht;
    [|vm_compute in Ht; discriminate].
  assert (rEntries tsm = [MkTSMEntry (bs "f") 0 0 33188 0 0 5 0 0 0 0 1 [0] [] 0 0 0]) as He.
  { vm_compute in Ht. injection Ht as <-. reflexivity. }
  destruct (chunk_location_sound (H := zero_digest) small_disk small_snap _ loc v tsm Hr Hv Ht)
    as (_ & fe & j & i & size & Hfe & _ & Hf & _ & _ & _ & _).
  { rewrite He. reflexivity. }
  rewrite He in Hfe. apply list_elem_of_singleton in Hfe. subst fe.
  exists loc, (MkTSMEntry (bs "f") 0 0 33188 0 0 5 0 0 0 0 1 [0] [] 0 0 0).
  split; [reflexivity|]. split; [exact Hf|]. split; [reflexivity|].
  vm_compute in Hr. injection Hr as <-. reflexivity.
Defined.
