(* ===== verification/Indexer.v ===== *)
(** * Indexing a directory tree ([src/tsm/indexer.go])

    From the files of a tree to the chunk list and the manifest: entry types,
    hard links, chunking, incremental reuse of a parent snapshot's chunks and the
    guard against racy change times.  The walk of the tree is the input: the nodes
    in the order of their paths, with what [Lstat], [Readlink] and reading answer. *)

From Stdlib Require Import Strings.String.
From S2P Require Import GoSort Prelude GoStrings GoIO Sha256 Chunking Tsc Tsm.

(** ** Files as the operating system reports them *)

(** [os.FileMode] bits. *)
Definition ModeDir : Z := 2 ^ 31.
Definition ModeSymlink : Z := 2 ^ 27.
Definition ModeDevice : Z := 2 ^ 26.
Definition ModeNamedPipe : Z := 2 ^ 25.
Definition ModeSocket : Z := 2 ^ 24.
Definition ModeCharDevice : Z := 2 ^ 21.
Definition ModeIrregular : Z := 2 ^ 19.
Definition ModeType : Z :=
  ModeDir + ModeSymlink + ModeDevice + ModeNamedPipe + ModeSocket + ModeCharDevice + ModeIrregular.

Definition has_bits (mode bits : Z) : bool := negb (Z.land mode bits =? 0).
Definition IsDir (mode : Z) : bool := has_bits mode ModeDir.
Definition IsRegular (mode : Z) : bool := Z.land mode ModeType =? 0.

Record file_info := FileInfo {
  fi_mode : Z;
  fi_uid : Z;
  fi_gid : Z;
  fi_size : Z;
  fi_mtime : Z;
  fi_ctime : Z;
  fi_atime : Z;
  fi_nlink : Z;
  fi_dev : Z;
  fi_ino : Z;
  fi_rdev : Z;
}.

(** An error of the [os] package, or one wrapped with [fmt.Errorf]; [os.IsPermission]
    does not look through the wrapping. *)
Inductive os_error := PathErr (permission : bool) | WrappedErr (permission : bool).
Definition IsPermission (e : os_error) : bool :=
  match e with PathErr p => p | WrappedErr _ => false end.

Record node := Node {
  n_path : gostring;                        (* relative to the root *)
  n_stat : outcome os_error file_info;      (* [os.Lstat] *)
  n_link : outcome os_error gostring;       (* [os.Readlink] *)
  n_open : outcome os_error reader;         (* [os.Open], then the reads *)
}.

(** ** The indexer *)

Definition racyCtimeWindow : Z := 10 ^ 9.

(** Times are nanoseconds; [time.Time.Sub] saturates, which a comparison with the
    window does not see. *)
Definition racyAdjustedCtime (ctime referenceTime : Z) : Z :=
  if referenceTime - ctime <? racyCtimeWindow then i64 (ctime - 1) else ctime.

Record Indexer := MkIndexer {
  ParentTSM : option TSMReader;
  ParentTSC : option TSCReader;
  tsc : TSCWriter;
  tsm : TSMWriter;
  totalBytes : Z;
  indexStart : Z;
  unmodifiedEntries : Z;
  modifiedEntries : Z;
  hardlinks : gmap Z Z;
}.

Definition TSCEntryFlagZeroBlock : Z := 1.

Section indexer.
Context `{Digest}.

(** [unix.Major] and [unix.Minor] of the device number. *)
Variable Major Minor : Z → Z.

Definition ZeroBlockSHA : list byte := BlobSHA256 (replicate (Z.to_nat BLOB_MAX) Byte.x00).

Definition NewIndexer (ptsm : option TSMReader) (ptsc : option TSCReader) (now zeroTime : Z) : Indexer :=
  MkIndexer ptsm ptsc NewTSCWriter (SetCreationTime (NewTSMWriter now) zeroTime) 0 now 0 0 ∅.

Definition set_tscw (idx : Indexer) (w : TSCWriter) (total : Z) : Indexer :=
  MkIndexer (ParentTSM idx) (ParentTSC idx) w (tsm idx) total (indexStart idx)
    (unmodifiedEntries idx) (modifiedEntries idx) (hardlinks idx).
Definition set_tsmw (idx : Indexer) (w : TSMWriter) : Indexer :=
  MkIndexer (ParentTSM idx) (ParentTSC idx) (tsc idx) w (totalBytes idx) (indexStart idx)
    (unmodifiedEntries idx) (modifiedEntries idx) (hardlinks idx).
Definition set_hardlinks (idx : Indexer) (h : gmap Z Z) : Indexer :=
  MkIndexer (ParentTSM idx) (ParentTSC idx) (tsc idx) (tsm idx) (totalBytes idx) (indexStart idx)
    (unmodifiedEntries idx) (modifiedEntries idx) h.

(** [idx.unmodifiedEntries++] or [idx.modifiedEntries++]. *)
Definition count_entry (idx : Indexer) (unmodified : bool) : Indexer :=
  MkIndexer (ParentTSM idx) (ParentTSC idx) (tsc idx) (tsm idx) (totalBytes idx) (indexStart idx)
    (if unmodified then unmodifiedEntries idx + 1 else unmodifiedEntries idx)
    (if unmodified then modifiedEntries idx else modifiedEntries idx + 1) (hardlinks idx).

Definition isUnmodified (idx : Indexer) (e : TSMEntry) : bool :=
  match ParentTSM idx with
  | None => false
  | Some p =>
      match LookupPath p (Path e) with
      | None => false
      | Some parent => (Type_ parent =? Type_ e) && (Ctime parent =? Ctime e)
      end
  end.

(** The loop of [reuseParentChunks]: chunks added before a bad index stay added. *)
Fixpoint reuse_loop (ptsc : TSCReader) (refs : list Z) (w : TSCWriter) (total : Z)
    : TSCWriter * Z * option (list Z) :=
  match refs with
  | [] => (w, total, Some [])
  | tscIdx :: refs' =>
      if (length (Entries ptsc) <=? Z.to_nat tscIdx)%nat then (w, total, None)
      else
        let c := Entries ptsc !!! Z.to_nat tscIdx in
        let '(newIdx, w') := AddChunk w (SHA256 c) (Size c) (Level c) (Tsc.Flags c) in
        let '(w'', total', r) := reuse_loop ptsc refs' w' (i64 (total + Size c)) in
        (w'', total', match r with Some l => Some (newIdx :: l) | None => None end)
  end.

Definition reuseParentChunks (idx : Indexer) (e : TSMEntry) : Indexer * option (list Z) :=
  match ParentTSM idx, ParentTSC idx with
  | Some ptsm, Some ptsc =>
      match LookupPath ptsm (Path e) with
      | None => (idx, None)
      | Some parent =>
          if negb (Type_ parent =? EntryTypeFile) || negb (ESize parent =? ESize e)
             || negb (Ctime parent =? Ctime e)
          then (idx, None)
          else
            let '(w, total, r) := reuse_loop ptsc (ChunkRefs parent) (tsc idx) (totalBytes idx) in
            (set_tscw idx w total, r)
      end
  | _, _ => (idx, None)
  end.

(** The chunk callback of [processFileChunks], on the writer, the references so
    far and the total. *)
Definition chunk_callback (st : TSCWriter * list Z * Z) (sha : list byte) (size level : Z)
    : outcome os_error (TSCWriter * list Z * Z) :=
  let '(w, refs, total) := st in
  let flags := if bool_decide (sha = ZeroBlockSHA) then Z.lor 0 TSCEntryFlagZeroBlock else 0 in
  let '(chunkIdx, w') := AddChunk w sha size level flags in
  Ret (w', refs ++ [chunkIdx], i64 (total + size)).

(** Only opening can fail for lack of permission; a read error ends the whole run,
    so the state behind it is never used. *)
Definition processFileChunks (idx : Indexer) (n : node) (size : Z)
    : Indexer * outcome os_error (list Z) :=
  if size =? 0 then (idx, Ret [])
  else
    match n_open n with
    | Ret r =>
        match ChunkReader chunk_callback (tsc idx, [], totalBytes idx) r with
        | Ret (w, refs, total) => (set_tscw idx w total, Ret refs)
        | Err (CallbackErr e) => (idx, Err e)
        | Err _ => (idx, Err (PathErr false))
        | Panic => (idx, Panic)
        end
    | Err e => (idx, Err e)
    | Panic => (idx, Panic)
    end.

(** The entry's common fields; the root's times are zeroed. *)
Definition base_entry (relPath : gostring) (fi : file_info) : TSMEntry :=
  let root := bool_decide (relPath = []) in
  MkTSMEntry relPath 0 0 (u32 (fi_mode fi)) (fi_uid fi) (fi_gid fi) (u64 (fi_size fi))
    (if root then 0 else fi_mtime fi) (if root then 0 else fi_ctime fi)
    (if root then 0 else fi_atime fi) 0 0 [] [] 0 0 0.

Definition with_type (e : TSMEntry) (t : Z) : TSMEntry :=
  MkTSMEntry (Path e) t (EFlags e) (Mode e) (UID e) (GID e) (ESize e) (Mtime e) (Ctime e)
    (Atime e) (ChunkStart e) (EChunkCount e) (ChunkRefs e) (LinkTarget e) (LinkIndex e)
    (DevMajor e) (DevMinor e).
Definition with_link (e : TSMEntry) (i : Z) : TSMEntry :=
  MkTSMEntry (Path e) EntryTypeHardlink (EFlags e) (Mode e) (UID e) (GID e) (ESize e) (Mtime e)
    (Ctime e) (Atime e) (ChunkStart e) (EChunkCount e) (ChunkRefs e) (LinkTarget e) i
    (DevMajor e) (DevMinor e).
Definition with_target (e : TSMEntry) (target : gostring) : TSMEntry :=
  MkTSMEntry (Path e) EntryTypeSymlink (EFlags e) (Mode e) (UID e) (GID e)
    (u64 (Z.of_nat (length target))) (Mtime e) (Ctime e) (Atime e) (ChunkStart e)
    (EChunkCount e) (ChunkRefs e) target (LinkIndex e) (DevMajor e) (DevMinor e).
Definition with_dev (e : TSMEntry) (t major minor : Z) : TSMEntry :=
  MkTSMEntry (Path e) t (EFlags e) (Mode e) (UID e) (GID e) (ESize e) (Mtime e) (Ctime e)
    (Atime e) (ChunkStart e) (EChunkCount e) (ChunkRefs e) (LinkTarget e) (LinkIndex e)
    major minor.
(** [entry.ChunkRefs] and [entry.ChunkCount] of a regular file. *)
Definition with_chunks (e : TSMEntry) (refs : list Z) : TSMEntry :=
  set_chunks e (ChunkStart e) (u32 (Z.of_nat (length refs))) refs.

(** The hard link key [uint64(stat.Dev)<<32 | uint64(stat.Ino)]. *)
Definition hardlink_key (fi : file_info) : Z :=
  Z.lor (u64 (Z.shiftl (u64 (fi_dev fi)) 32)) (u64 (fi_ino fi)).

(** The regular file case, from the chunks on: reuse or read, then the guard. *)
Definition process_file (idx : Indexer) (n : node) (fi : file_info) (e : TSMEntry)
    : Indexer * outcome os_error (option TSMEntry) :=
  match reuseParentChunks idx e with
  | (idx', Some refs) =>
      (count_entry idx' true,
       Ret (Some (set_ctime (with_chunks e refs) (racyAdjustedCtime (Ctime e) (indexStart idx)))))
  | (idx', None) =>
      match processFileChunks idx' n (fi_size fi) with
      | (idx'', Ret refs) =>
          (count_entry idx'' false,
           Ret (Some (set_ctime (with_chunks e refs) (racyAdjustedCtime (Ctime e) (indexStart idx)))))
      | (idx'', Err err) => (idx'', Err err)
      | (idx'', Panic) => (idx'', Panic)
      end
  end.

Definition processEntry (idx : Indexer) (n : node) (fi : file_info) (entryIndex : Z)
    : Indexer * outcome os_error (option TSMEntry) :=
  let e := base_entry (n_path n) fi in
  let mode := fi_mode fi in
  let counted e := (count_entry idx (isUnmodified idx e), Ret (Some e)) in
  if IsDir mode then counted (with_type e EntryTypeDir)
  else if IsRegular mode then
    let e := with_type e EntryTypeFile in
    if fi_nlink fi >? 1 then
      let key := hardlink_key fi in
      match hardlinks idx !! key with
      | Some firstIdx => counted (with_link e firstIdx)
      | None => process_file (set_hardlinks idx (<[key := entryIndex]> (hardlinks idx))) n fi e
      end
    else process_file idx n fi e
  else if has_bits mode ModeSymlink then
    match n_link n with
    | Ret target => counted (with_target e target)
    | Err (PathErr p) | Err (WrappedErr p) => (idx, Err (WrappedErr p))
    | Panic => (idx, Panic)
    end
  else if has_bits mode ModeDevice then
    counted (with_dev e (if has_bits mode ModeCharDevice then EntryTypeCharDev else EntryTypeBlockDev)
               (Major (fi_rdev fi)) (Minor (fi_rdev fi)))
  else if has_bits mode ModeNamedPipe then counted (with_type e EntryTypeFifo)
  else (idx, Ret None).

(** The entry loop of [Index]. *)
Fixpoint index_loop (idx : Indexer) (nodes : list node) (entryIndex : Z)
    : outcome os_error Indexer :=
  match nodes with
  | [] => Ret idx
  | n :: nodes' =>
      match n_stat n with
      | Err err => if IsPermission err then index_loop idx nodes' entryIndex
                   else Err (WrappedErr (IsPermission err))
      | Panic => Panic
      | Ret fi =>
          match processEntry idx n fi entryIndex with
          | (idx', Err err) => if IsPermission err then index_loop idx' nodes' entryIndex
                               else Err (WrappedErr (IsPermission err))
          | (_, Panic) => Panic
          | (idx', Ret None) => index_loop idx' nodes' entryIndex
          | (idx', Ret (Some e)) =>
              index_loop (set_tsmw idx' (AddEntry (tsm idx') e)) nodes' (u32 (entryIndex + 1))
          end
      end
  end.

(** [Index]: the loop, then the two files. *)
Definition Index (fault1 fault2 : fs_fault) (fs : fsys) (idx : Indexer) (nodes : list node)
    (outBase : gostring) : fsys * outcome os_error (Indexer * list byte) :=
  match index_loop idx nodes 0 with
  | Err e => (fs, Err e)
  | Panic => (fs, Panic)
  | Ret idx' =>
      match Tsc.Write fault1 fs (tsc idx') (outBase ++ bs ".tsc") with
      | (fs1, Ret (tscSHA, indexMap)) =>
          match Tsm.Write fault2 fs1 (tsm idx') (outBase ++ bs ".tsm") tscSHA indexMap with
          | (fs2, w', Ret sha) => (fs2, Ret (set_tsmw idx' w', sha))
          | (fs2, _, _) => (fs2, Err (WrappedErr false))
          end
      | (fs1, _) => (fs1, Err (WrappedErr false))
      end
  end.

Record IndexerStats := MkStats {
  UnmodifiedEntries : Z;
  ModifiedEntries : Z;
  StatsChunkCount : Z;
  TotalBytes : Z;
}.
Definition Stats (idx : Indexer) : IndexerStats :=
  MkStats (unmodifiedEntries idx) (modifiedEntries idx) (ChunkCount (tsc idx)) (totalBytes idx).

End indexer.

(** ** Indexing does not panic *)

(** The operating system answers with a value or an error. *)
Definition calm (n : node) : bool :=
  match n_stat n, n_link n, n_open n with Panic, _, _ | _, Panic, _ | _, _, Panic => false | _, _, _ => true end.

Section calm.
Context `{Digest} (Major Minor : Z → Z) (zeroTime : Z).

Lemma process_file_no_panic idx n fi e : calm n = true → no_panic (process_file idx n fi e).2.
Proof.
  intros Hn. unfold process_file. destruct (reuseParentChunks idx e) as [idx' [refs|]]; [done|].
  unfold processFileChunks. destruct (fi_size fi =? 0); [done|].
  unfold calm in Hn. destruct (n_open n) as [r|x|]; [|done|by destruct (n_stat n), (n_link n)].
  pose proof (ChunkReader_no_panic chunk_callback r) as Hc.
  destruct (ChunkReader chunk_callback _ r) as [[[w refs] total]|[]|] eqn:Hr; try done.
  exfalso. eapply Hc; [|exact Hr]. intros [[w refs] total] sha size level. unfold chunk_callback.
  by destruct (AddChunk w _ _ _ _).
Qed.

Lemma processEntry_no_panic idx n fi i : calm n = true → no_panic (processEntry Major Minor idx n fi i).2.
Proof.
  intros Hn. unfold processEntry. destruct (IsDir _); [done|]. destruct (IsRegular _).
  { destruct (fi_nlink fi >? 1); [|by apply process_file_no_panic].
    destruct (hardlinks idx !! _); [done|by apply process_file_no_panic]. }
  destruct (has_bits _ ModeSymlink).
  { unfold calm in Hn. destruct (n_link n) as [t|[p|p]|]; [done..|by destruct (n_stat n)]. }
  destruct (has_bits _ ModeDevice); [done|]. by destruct (has_bits _ ModeNamedPipe).
Qed.

Lemma Index_no_panic fault1 fault2 fs idx nodes out :
  Forall (λ n, calm n = true) nodes → no_panic (Index Major Minor fault1 fault2 fs idx nodes out).2.
Proof.
  intros Hn. assert (Hl : ∀ i, no_panic (index_loop Major Minor idx nodes i)).
  { revert idx. induction Hn as [|n nodes Hc _ IH]; intros idx i; cbn [index_loop]; [done|].
    destruct (n_stat n) as [fi|x|] eqn:Hs; [|destruct (IsPermission x); [apply IH|done]|unfold calm in Hc; by rewrite Hs in Hc].
    pose proof (processEntry_no_panic idx n fi i Hc) as Hp.
    destruct (processEntry Major Minor idx n fi i) as [idx' [[e|]|x|]]; [apply IH|apply IH| |done].
    destruct (IsPermission x); [apply IH|done]. }
  unfold Index. specialize (Hl 0). destruct (index_loop _ _ idx nodes 0) as [idx'|x|]; [|done|done].
  destruct (Tsc.Write _ _ _ _) as [fs1 [[tscSHA m]|x|]]; [|done..].
  by destruct (Tsm.Write _ _ _ _ _ _) as [[fs2 w'] [sha|x|]].
Qed.
End calm.

(** ** Adding the chunks of a file *)

(** [AddChunk] over a list: the indices and the writer. *)
Fixpoint add_refs (w : TSCWriter) (l : list TSCEntry) : list Z * TSCWriter :=
  match l with
  | [] => ([], w)
  | c :: l' =>
      let '(i, w') := AddChunk w (SHA256 c) (Size c) (Level c) (Tsc.Flags c) in
      let '(is_, w'') := add_refs w' l' in
      (i :: is_, w'')
  end.

Lemma add_refs_ok w l :
  Tsc.writer_ok w → Forall Tsc.entry_ok l →
  Z.of_nat (length (chunks w) + length l) ≤ 2 ^ 32 →
  let '(refs, w') := add_refs w l in
  Tsc.writer_ok w' ∧ chunks w `prefix_of` chunks w' ∧
  (length (chunks w') ≤ length (chunks w) + length l)%nat ∧ length refs = length l ∧
  Forall (λ i, 0 ≤ i < Z.of_nat (length (chunks w'))) refs ∧
  (λ i, SHA256 (chunks w' !!! Z.to_nat i)) <$> refs = SHA256 <$> l.
Proof.
  intros Hok Hl. revert w Hok. induction Hl as [|c l Hc Hl IH]; intros w Hok Hlen; cbn [add_refs].
  { split_and!; try done. lia. }
  cbn [length] in Hlen.
  pose proof (AddChunk_length w (SHA256 c) (Size c) (Level c) (Tsc.Flags c)) as Hl1.
  destruct (AddChunk w _ _ _ _) as [i w1] eqn:Ha. cbn [snd] in Hl1.
  assert (Tsc.entry_ok (MkTSCEntry (SHA256 c) (Size c) (Level c) (Tsc.Flags c))) as Hc' by (by destruct c).
  destruct (AddChunk_ok _ _ _ _ _ _ _ Hok Hc' ltac:(lia) Ha) as (Hok1 & Hi & Hsha & Hp1 & _).
  specialize (IH w1 Hok1 ltac:(lia)). destruct (add_refs w1 l) as [refs w2].
  destruct IH as (Hok2 & Hp2 & Hl2 & Hlr & Hrefs & Hshas).
  destruct (chunks w1 !! Z.to_nat i) as [x|] eqn:Hx; [|done]. cbn in Hsha. injection Hsha as Hsha.
  pose proof (prefix_lookup_Some _ _ _ _ Hx Hp2) as Hx2. pose proof (lookup_lt_Some _ _ _ Hx2).
  split_and!; [done|by etrans|cbn [length]; lia|cbn [length]; lia| |].
  - constructor; [lia|done].
  - cbn [fmap list_fmap]. f_equal; [|exact Hshas].
    by rewrite (list_lookup_total_correct _ _ _ Hx2), Hsha.
Qed.

(** References stay right when more chunks are added. *)
Lemma refs_extend (l l' : list TSCEntry) refs :
  l `prefix_of` l' → Forall (λ i, 0 ≤ i < Z.of_nat (length l)) refs →
  Forall (λ i, 0 ≤ i < Z.of_nat (length l')) refs ∧
  (λ i, SHA256 (l' !!! Z.to_nat i)) <$> refs = (λ i, SHA256 (l !!! Z.to_nat i)) <$> refs.
Proof.
  intros Hp Hr. pose proof (prefix_length _ _ Hp). split.
  - eapply Forall_impl; [exact Hr|]. intros i. cbn. lia.
  - apply list_fmap_ext. intros j i Hi. rewrite Forall_forall in Hr.
    specialize (Hr i (list_elem_of_lookup_2 _ _ _ Hi)). cbn in Hr.
    destruct (lookup_lt_is_Some_2 l (Z.to_nat i)) as [x Hx]; [lia|].
    by rewrite (list_lookup_total_correct _ _ _ Hx),
      (list_lookup_total_correct _ _ _ (prefix_lookup_Some _ _ _ _ Hx Hp)).
Qed.

Section indexer.
Context `{Digest} (Major Minor : Z → Z).

(** The chunk list entry of a chunk of a file. *)
Definition chunk_entry (c : list byte * Z) : TSCEntry :=
  MkTSCEntry (BlobSHA256 c.1) (Z.of_nat (length c.1)) c.2
    (if bool_decide (BlobSHA256 c.1 = ZeroBlockSHA) then TSCEntryFlagZeroBlock else 0).

(** The chunks of a file whose size [Lstat] said to be [size]. *)
Definition file_entries (size : Z) (data : list byte) : list TSCEntry :=
  if size =? 0 then [] else chunk_entry <$> chunks_of data.

Lemma chunk_entry_ok c : chunk_ok c → Tsc.entry_ok (chunk_entry c).
Proof.
  intros [Hc Hl]. pose proof BLOB_MAX_val. unfold Tsc.entry_ok, chunk_entry. cbn [SHA256 Size Level Tsc.Flags].
  split_and!; [apply length_BlobSHA256|unfold is_u32; lia|unfold is_u16; lia|].
  unfold is_u16, TSCEntryFlagZeroBlock. destruct (bool_decide _); lia.
Qed.

Lemma file_entries_ok size data : Forall Tsc.entry_ok (file_entries size data).
Proof.
  unfold file_entries. destruct (size =? 0); [done|]. apply Forall_fmap.
  eapply Forall_impl; [apply chunks_of_partition|]. intros c. apply chunk_entry_ok.
Qed.

Lemma emit_callback w refs total cs :
  Forall chunk_ok cs →
  ∃ total', emit_all chunk_callback (w, refs, total) cs
    = Ret ((add_refs w (chunk_entry <$> cs)).2, refs ++ (add_refs w (chunk_entry <$> cs)).1, total').
Proof.
  intros Hcs. revert w refs total. induction Hcs as [|[c l] cs [Hc Hl] Hcs IH]; intros w refs total.
  { exists total. cbn. by rewrite app_nil_r. }
  pose proof BLOB_MAX_val. cbn [fst snd] in Hc, Hl.
  cbn [emit_all fmap list_fmap add_refs chunk_entry fst snd SHA256 Size Level Tsc.Flags].
  rewrite u32_id by (unfold is_u32; lia). rewrite u16_id by (unfold is_u16; lia).
  set (flags := if bool_decide (BlobSHA256 c = ZeroBlockSHA) then TSCEntryFlagZeroBlock else 0).
  assert (chunk_callback (w, refs, total) (BlobSHA256 c) (Z.of_nat (length c)) l
    = let '(i, w') := AddChunk w (BlobSHA256 c) (Z.of_nat (length c)) l flags in
      Ret (w', refs ++ [i], i64 (total + Z.of_nat (length c)))) as -> by done.
  destruct (AddChunk w _ _ _ _) as [i w1]. rewrite wrap_ret, ret_bind.
  destruct (IH w1 (refs ++ [i]) (i64 (total + Z.of_nat (length c)))) as [total' ->].
  destruct (add_refs w1 (chunk_entry <$> cs)) as [is_ w2]. cbn [fst snd].
  exists total'. by rewrite <- app_assoc.
Qed.

(** Reading a file adds its chunks. *)
Lemma processFileChunks_spec idx n size data sched :
  n_open n = Ret (Reader data sched false StreamEOF) →
  ∃ total, processFileChunks idx n size
    = (set_tscw idx (add_refs (tsc idx) (file_entries size data)).2 total,
       Ret (add_refs (tsc idx) (file_entries size data)).1).
Proof.
  intros Hopen. unfold processFileChunks, file_entries. destruct (size =? 0).
  { exists (totalBytes idx). cbn. by destruct idx. }
  rewrite Hopen. unfold ChunkReader. rewrite chunkStream_spec.
  destruct (emit_callback (tsc idx) [] (totalBytes idx) (chunks_of data)) as [total ->];
    [apply chunks_of_partition|].
  by exists total.
Qed.

(** Reusing a parent's chunks adds the same ones. *)
Lemma reuse_loop_spec ptsc refs w total :
  Forall (λ i, 0 ≤ i < Z.of_nat (length (Entries ptsc))) refs →
  ∃ total', reuse_loop ptsc refs w total
    = ((add_refs w ((λ i, Entries ptsc !!! Z.to_nat i) <$> refs)).2, total',
       Some (add_refs w ((λ i, Entries ptsc !!! Z.to_nat i) <$> refs)).1).
Proof.
  intros Hr. revert w total. induction Hr as [|i refs Hi Hr IH]; intros w total.
  { by exists total. }
  cbn [reuse_loop fmap list_fmap add_refs].
  assert ((length (Entries ptsc) <=? Z.to_nat i)%nat = false) as -> by lia.
  destruct (AddChunk w _ _ _ _) as [j w1].
  destruct (IH w1 (i64 (total + Size (Entries ptsc !!! Z.to_nat i)))) as [total' ->].
  destruct (add_refs w1 _) as [is_ w2]. by exists total'.
Qed.

(** ** Incremental indexing *)

(** The two indexers have produced the same so far. *)
Record same_output (idx1 idx2 : Indexer) : Prop := {
  so_tsc : tsc idx1 = tsc idx2;
  so_tsm : tsm idx1 = tsm idx2;
  so_links : hardlinks idx1 = hardlinks idx2;
  so_start : indexStart idx1 = indexStart idx2;
}.

(** The parent tells the truth about a file: when its entry has the file's size
    and change time, its references are the chunks of what the file holds now. *)
Definition faithful (ptsm : TSMReader) (ptsc : TSCReader) (n : node) : Prop :=
  ∀ fi parent, n_stat n = Ret fi → IsRegular (fi_mode fi) = true →
    LookupPath ptsm (n_path n) = Some parent →
    Type_ parent = EntryTypeFile → ESize parent = u64 (fi_size fi) →
    Ctime parent = Ctime (base_entry (n_path n) fi) →
    ∃ data sched, n_open n = Ret (Reader data sched false StreamEOF) ∧
      Forall (λ i, 0 ≤ i < Z.of_nat (length (Entries ptsc))) (ChunkRefs parent) ∧
      (λ i, Entries ptsc !!! Z.to_nat i) <$> ChunkRefs parent = file_entries (fi_size fi) data.

(** Same state, same outcome, but for the statistics. *)
Definition same_step (r1 r2 : Indexer * outcome os_error (option TSMEntry)) : Prop :=
  snd r1 = snd r2 ∧ same_output (fst r1) (fst r2).

Lemma same_output_count idx1 idx2 b1 b2 :
  same_output idx1 idx2 → same_output (count_entry idx1 b1) (count_entry idx2 b2).
Proof. by intros []. Qed.

(** What reading a file can answer: it cannot be opened, or its bytes come in reads
    of any sizes and then end-of-file by itself, as [os.File] does. *)
Definition readable (n : node) : Prop :=
  match n_open n with
  | Ret r => rd_eager r = false ∧ rd_end r = StreamEOF
  | Err _ => True
  | Panic => False
  end.

Lemma processFileChunks_same idx1 idx2 n size :
  same_output idx1 idx2 → readable n →
  snd (processFileChunks idx1 n size) = snd (processFileChunks idx2 n size) ∧
  same_output (fst (processFileChunks idx1 n size)) (fst (processFileChunks idx2 n size)).
Proof.
  intros Hs Hr. unfold readable in Hr. destruct (n_open n) as [[data sched eager en]|e|] eqn:Ho; [| |done].
  - cbn in Hr. destruct Hr as [-> ->]. destruct Hs as [H1 H2 H3 H4].
    destruct (processFileChunks_spec idx1 n size data sched Ho) as [t1 ->].
    destruct (processFileChunks_spec idx2 n size data sched Ho) as [t2 ->].
    cbn [fst snd]. rewrite H1. split; [done|]. by split.
  - unfold processFileChunks. rewrite Ho. by destruct (size =? 0).
Qed.

Lemma base_entry_fields rel fi :
  Path (base_entry rel fi) = rel ∧ ESize (base_entry rel fi) = u64 (fi_size fi).
Proof. done. Qed.

(** Reuse gives what reading gives. *)
Lemma reuse_same idx1 idx2 ptsm ptsc n fi refs idx1' :
  ParentTSM idx1 = Some ptsm → ParentTSC idx1 = Some ptsc → faithful ptsm ptsc n →
  n_stat n = Ret fi → IsRegular (fi_mode fi) = true → same_output idx1 idx2 →
  reuseParentChunks idx1 (with_type (base_entry (n_path n) fi) EntryTypeFile) = (idx1', Some refs) →
  ∃ idx2', processFileChunks idx2 n (fi_size fi) = (idx2', Ret refs) ∧ same_output idx1' idx2'.
Proof.
  intros Hp Hc Hfa Hst Hreg [H1 H2 H3 H4]. unfold reuseParentChunks. rewrite Hp, Hc.
  cbn [with_type Path ESize Ctime base_entry].
  destruct (LookupPath ptsm (n_path n)) as [parent|] eqn:Hl; [|done].
  destruct (_ || _ || _) eqn:Hcond; [done|]. reflect_bools.
  destruct (Hfa fi parent) as (data & sched & Ho & Hrange & Hrefs); try done.
  destruct (reuse_loop_spec ptsc (ChunkRefs parent) (tsc idx1) (totalBytes idx1) Hrange) as [t ->].
  rewrite Hrefs. intros [= <- <-].
  destruct (processFileChunks_spec idx2 n (fi_size fi) data sched Ho) as [t2 ->].
  rewrite H1. eexists. split; [done|]. by split.
Qed.

(** A failed reuse changes nothing when the parent is faithful. *)
Lemma reuse_none idx ptsm ptsc n fi idx' :
  ParentTSM idx = Some ptsm → ParentTSC idx = Some ptsc → faithful ptsm ptsc n →
  n_stat n = Ret fi → IsRegular (fi_mode fi) = true →
  reuseParentChunks idx (with_type (base_entry (n_path n) fi) EntryTypeFile) = (idx', None) →
  idx' = idx.
Proof.
  intros Hp Hc Hfa Hst Hreg. unfold reuseParentChunks. rewrite Hp, Hc.
  cbn [with_type Path ESize Ctime base_entry].
  destruct (LookupPath ptsm (n_path n)) as [parent|] eqn:Hl; [|by intros [= <-]].
  destruct (_ || _ || _) eqn:Hcond; [by intros [= <-]|]. reflect_bools.
  destruct (Hfa fi parent) as (data & sched & Ho & Hrange & Hrefs); try done.
  by destruct (reuse_loop_spec ptsc (ChunkRefs parent) (tsc idx) (totalBytes idx) Hrange) as [t ->].
Qed.

Lemma reuse_no_parent idx e : ParentTSM idx = None → reuseParentChunks idx e = (idx, None).
Proof. unfold reuseParentChunks. by intros ->. Qed.

Lemma process_file_same idx1 idx2 ptsm ptsc n fi :
  ParentTSM idx1 = Some ptsm → ParentTSC idx1 = Some ptsc → ParentTSM idx2 = None →
  faithful ptsm ptsc n → readable n → n_stat n = Ret fi → IsRegular (fi_mode fi) = true →
  same_output idx1 idx2 →
  let e := with_type (base_entry (n_path n) fi) EntryTypeFile in
  same_step (process_file idx1 n fi e) (process_file idx2 n fi e).
Proof.
  intros Hp Hc Hp2 Hfa Hrd Hst Hreg Hs. cbn zeta. unfold process_file.
  rewrite (reuse_no_parent idx2) by done.
  pose proof (so_start _ _ Hs) as Hstart.
  destruct (reuseParentChunks idx1 _) as [idx1' [refs|]] eqn:Hr.
  - destruct (reuse_same _ idx2 _ _ _ _ _ _ Hp Hc Hfa Hst Hreg Hs Hr) as (idx2' & -> & Hs').
    split; cbn [fst snd]; [by rewrite Hstart|]. by apply same_output_count.
  - rewrite (reuse_none _ _ _ _ _ _ Hp Hc Hfa Hst Hreg Hr).
    destruct (processFileChunks_same idx1 idx2 n (fi_size fi) Hs Hrd) as [Heq Hs'].
    destruct (processFileChunks idx1 n (fi_size fi)) as [i1 o1].
    destruct (processFileChunks idx2 n (fi_size fi)) as [i2 o2]. cbn [fst snd] in *. subst o2.
    destruct o1 as [refs|e|]; (split; cbn [fst snd]; [by rewrite ?Hstart|]); try done.
    by apply same_output_count.
Qed.

Lemma set_hardlinks_same idx1 idx2 h :
  same_output idx1 idx2 → same_output (set_hardlinks idx1 h) (set_hardlinks idx2 h).
Proof. intros []. by split. Qed.

Lemma processEntry_same idx1 idx2 ptsm ptsc n fi i :
  ParentTSM idx1 = Some ptsm → ParentTSC idx1 = Some ptsc → ParentTSM idx2 = None →
  faithful ptsm ptsc n → readable n → n_stat n = Ret fi → same_output idx1 idx2 →
  same_step (processEntry Major Minor idx1 n fi i) (processEntry Major Minor idx2 n fi i).
Proof.
  intros Hp Hc Hp2 Hfa Hrd Hst Hs. unfold processEntry.
  assert (∀ e, same_step (count_entry idx1 (isUnmodified idx1 e), Ret (Some e))
    (count_entry idx2 (isUnmodified idx2 e), Ret (Some e))) as Hcount.
  { intros e. split; [done|]. by apply same_output_count. }
  destruct (IsDir (fi_mode fi)); [apply Hcount|].
  destruct (IsRegular (fi_mode fi)) eqn:Hreg.
  - destruct (fi_nlink fi >? 1); [|by eapply process_file_same].
    rewrite (so_links _ _ Hs). destruct (hardlinks idx2 !! hardlink_key fi); [apply Hcount|].
    eapply process_file_same; try done. by apply set_hardlinks_same.
  - destruct (has_bits (fi_mode fi) ModeSymlink).
    { destruct (n_link n) as [t|[p|p]|]; [apply Hcount|done..]. }
    destruct (has_bits (fi_mode fi) ModeDevice); [apply Hcount|].
    destruct (has_bits (fi_mode fi) ModeNamedPipe); [apply Hcount|done].
Qed.

Lemma processEntry_parents idx n fi i :
  let idx' := (processEntry Major Minor idx n fi i).1 in
  ParentTSM idx' = ParentTSM idx ∧ ParentTSC idx' = ParentTSC idx ∧ tsm idx' = tsm idx ∧
  indexStart idx' = indexStart idx.
Proof.
  cbn zeta. unfold processEntry.
  destruct (IsDir _); [done|]. destruct (IsRegular _).
  - assert (∀ idx0 n fi e, let idx' := (process_file idx0 n fi e).1 in
      ParentTSM idx' = ParentTSM idx0 ∧ ParentTSC idx' = ParentTSC idx0 ∧ tsm idx' = tsm idx0 ∧
      indexStart idx' = indexStart idx0) as Hpf.
    { clear. intros idx n fi e. cbn zeta. unfold process_file.
      assert (∀ e, let i := (reuseParentChunks idx e).1 in
        ParentTSM i = ParentTSM idx ∧ ParentTSC i = ParentTSC idx ∧ tsm i = tsm idx ∧
        indexStart i = indexStart idx) as Hr.
      { intros e'. cbn zeta. unfold reuseParentChunks. repeat case_match; done. }
      specialize (Hr e). cbn zeta in Hr.
      destruct (reuseParentChunks idx e) as [idx1 [refs|]]; cbn [fst] in *; [done|].
      assert (∀ sz, let i := (processFileChunks idx1 n sz).1 in
        ParentTSM i = ParentTSM idx1 ∧ ParentTSC i = ParentTSC idx1 ∧ tsm i = tsm idx1 ∧
        indexStart i = indexStart idx1) as Hp.
      { intros sz. cbn zeta. unfold processFileChunks. repeat case_match; done. }
      specialize (Hp (fi_size fi)). cbn zeta in Hp.
      destruct Hr as (-> & -> & -> & ->) || destruct Hr as (<- & <- & <- & <-).
      destruct (processFileChunks idx1 n (fi_size fi)) as [idx2 [refs|e'|]]; cbn [fst] in *; done. }
    destruct (fi_nlink fi >? 1); [|apply Hpf].
    destruct (hardlinks idx !! _); [done|]. apply (Hpf (set_hardlinks idx _)).
  - destruct (has_bits _ ModeSymlink); [by destruct (n_link n) as [t|[p|p]|]|].
    destruct (has_bits _ ModeDevice); [done|]. by destruct (has_bits _ ModeNamedPipe).
Qed.

Lemma index_loop_same idx1 idx2 ptsm ptsc nodes i :
  ParentTSM idx1 = Some ptsm → ParentTSC idx1 = Some ptsc → ParentTSM idx2 = None →
  Forall (faithful ptsm ptsc) nodes → Forall readable nodes → same_output idx1 idx2 →
  match index_loop Major Minor idx1 nodes i, index_loop Major Minor idx2 nodes i with
  | Ret r1, Ret r2 => same_output r1 r2
  | Err e1, Err e2 => e1 = e2
  | Panic, Panic => True
  | _, _ => False
  end.
Proof.
  intros Hp Hc Hp2 Hfa. revert idx1 idx2 i Hp Hc Hp2.
  induction Hfa as [|n nodes Hn Hfa IH]; intros idx1 idx2 i Hp Hc Hp2 Hrd Hs; [done|].
  apply Forall_cons in Hrd as [Hr Hrd]. cbn [index_loop].
  destruct (n_stat n) as [fi|e|] eqn:Hst; [|destruct (IsPermission e); [by apply IH|done]|done].
  pose proof (processEntry_same _ _ _ _ _ _ i Hp Hc Hp2 Hn Hr Hst Hs) as [Ho Hs'].
  pose proof (processEntry_parents idx1 n fi i) as (Hp1' & Hc1' & Ht1' & _).
  pose proof (processEntry_parents idx2 n fi i) as (Hp2' & _ & Ht2' & _).
  destruct (processEntry Major Minor idx1 n fi i) as [j1 o1].
  destruct (processEntry Major Minor idx2 n fi i) as [j2 o2]. cbn [fst snd] in *. subst o2.
  rewrite Hp in Hp1'. rewrite Hc in Hc1'. rewrite Hp2 in Hp2'.
  destruct o1 as [[e|]|e|]; [|by apply IH|destruct (IsPermission e); [by apply IH|done]|done].
  apply IH; try done. destruct Hs' as [H1 H2 H3 H4]. split; cbn; try done. by rewrite H2.
Qed.

(** ** What a full index contains *)

(** A node the formats can hold. *)
Record node_ok (n : node) : Prop := {
  no_path : (length (n_path n) ≤ 4096)%nat;
  no_target : ∀ t, n_link n = Ret t → (length t ≤ 4096)%nat;
  no_readable : readable n;
  no_stat : ∀ fi, n_stat n = Ret fi →
    is_u32 (fi_uid fi) ∧ is_u32 (fi_gid fi) ∧ is_i64 (fi_mtime fi) ∧ is_i64 (fi_ctime fi) ∧
    is_i64 (fi_atime fi) ∧ is_u32 (Major (fi_rdev fi)) ∧ is_u32 (Minor (fi_rdev fi));
}.

(** The chunks a node can add. *)
Definition node_chunks (n : node) : nat :=
  match n_open n with Ret r => length (chunks_of (rd_data r)) | _ => 0 end.

(** An entry in the manifest being built: it fits the format, and its references
    are positions of the chunk list. *)
Definition entry_inv (w : TSCWriter) (e : TSMEntry) : Prop :=
  Tsm.entry_ok e ∧ counts_ok e ∧ Forall (λ i, 0 ≤ i < Z.of_nat (length (chunks w))) (ChunkRefs e).

Record build_inv (idx : Indexer) (budget : nat) : Prop := {
  bi_tsc : Tsc.writer_ok (tsc idx);
  bi_budget : Z.of_nat (length (chunks (tsc idx)) + budget) < 2 ^ 32;
  bi_entries : Forall (entry_inv (tsc idx)) (entries (tsm idx));
  bi_table : Z.of_nat (length (concat (ChunkRefs <$> entries (tsm idx))) + budget) < 2 ^ 32;
  bi_links : map_Forall (λ _ i, is_u32 i) (hardlinks idx);
}.

Lemma entry_inv_extend w w' e :
  chunks w `prefix_of` chunks w' → entry_inv w e → entry_inv w' e.
Proof.
  intros Hp (He & Hc & Hr). split; [done|]. split; [done|]. by eapply refs_extend.
Qed.

(** The fields every entry gets from [Lstat]. *)
Definition stat_fields_ok (e : TSMEntry) : Prop :=
  (length (Path e) ≤ 4096)%nat ∧ EFlags e = 0 ∧ is_u32 (Mode e) ∧ is_u32 (UID e) ∧ is_u32 (GID e) ∧
  is_u64 (ESize e) ∧ is_i64 (Mtime e) ∧ is_i64 (Ctime e) ∧ is_i64 (Atime e) ∧
  is_u32 (ChunkStart e) ∧ is_u32 (EChunkCount e).

Lemma base_entry_ok n fi :
  node_ok n → n_stat n = Ret fi → stat_fields_ok (base_entry (n_path n) fi).
Proof.
  intros [Hp _ _ Hs] Hst. destruct (Hs fi Hst) as (?&?&?&?&?&?&?).
  assert (∀ (b : bool) z, is_i64 z → is_i64 (if b then 0 else z)) as Hz.
  { intros [] z; [unfold is_i64; lia|done]. }
  unfold stat_fields_ok, base_entry. cbn.
  split_and!; try done; try apply u32_range; try apply u64_range; try (by apply Hz);
    unfold is_u32; lia.
Qed.

(** An entry is fit when its fields are and its type-specific data belong to its
    type. *)
Lemma fields_entry_ok e :
  stat_fields_ok e → 0 ≤ Type_ e < 16 → (length (LinkTarget e) ≤ 4096)%nat →
  (Type_ e ≠ EntryTypeSymlink → LinkTarget e = []) →
  is_u32 (LinkIndex e) ∧ (Type_ e ≠ EntryTypeHardlink → LinkIndex e = 0) →
  is_u32 (DevMajor e) ∧ is_u32 (DevMinor e) ∧
    (is_device (Type_ e) = false → DevMajor e = 0 ∧ DevMinor e = 0) →
  Tsm.entry_ok e.
Proof.
  intros (Hp & Hf & ?&?&?&?&?&?&?&?&?) Ht Htl Htg Hix Hdev. split; try done.
  - unfold entry_size, typeDataSize.
    destruct (Type_ e =? EntryTypeSymlink); [lia|]. destruct (Type_ e =? EntryTypeHardlink); [lia|].
    destruct (is_device _); lia.
  - rewrite Hf. split; [unfold is_u16; lia|done].
Qed.

Lemma zero_u32 : is_u32 0.
Proof. unfold is_u32. lia. Qed.

(** The entries without chunks: directories, links, devices and pipes. *)
Lemma plain_entry_inv idx n fi e :
  node_ok n → n_stat n = Ret fi →
  (e = with_type (base_entry (n_path n) fi) EntryTypeDir ∨
   (∃ i, is_u32 i ∧ e = with_link (with_type (base_entry (n_path n) fi) EntryTypeFile) i) ∨
   (∃ t, n_link n = Ret t ∧ e = with_target (base_entry (n_path n) fi) t) ∨
   (∃ t, (t = EntryTypeCharDev ∨ t = EntryTypeBlockDev) ∧
      e = with_dev (base_entry (n_path n) fi) t (Major (fi_rdev fi)) (Minor (fi_rdev fi))) ∨
   e = with_type (base_entry (n_path n) fi) EntryTypeFifo) →
  entry_inv (tsc idx) e.
Proof.
  intros Hn Hst Hcase. pose proof (base_entry_ok n fi Hn Hst) as Hb.
  pose proof zero_u32. destruct (no_stat _ Hn fi Hst) as (_ & _ & _ & _ & _ & Hmaj & Hmin).
  destruct Hcase as [->|[(i & Hi & ->)|[(t & Ht & ->)|[(t & Ht & ->)| ->]]]];
    (split; [|split; [done|by constructor]]); apply fields_entry_ok; try done; cbn;
    try (unfold EntryTypeDir, EntryTypeHardlink, EntryTypeSymlink, EntryTypeFifo; lia); try done.
  - destruct Hb as (?&?&?&?&?&?&?&?&?&?&?). unfold stat_fields_ok. cbn.
    split_and!; try done. apply u64_range.
  - by apply (no_target _ Hn).
  - destruct Ht as [-> | ->]; unfold EntryTypeCharDev, EntryTypeBlockDev; lia.
  - destruct Ht as [-> | ->]; done.
Qed.

(** The entry of a regular file, its chunks being the next ones added. *)
Definition file_entry (idx : Indexer) (n : node) (fi : file_info) (refs : list Z) : TSMEntry :=
  set_ctime (with_chunks (with_type (base_entry (n_path n) fi) EntryTypeFile) refs)
    (racyAdjustedCtime (Ctime (base_entry (n_path n) fi)) (indexStart idx)).

Lemma racy_range c start : is_i64 c → is_i64 (racyAdjustedCtime c start).
Proof. intros. unfold racyAdjustedCtime. destruct (_ <? _); [apply i64_range|done]. Qed.

Lemma file_entry_inv idx n fi data sched budget :
  node_ok n → n_stat n = Ret fi → n_open n = Ret (Reader data sched false StreamEOF) →
  Tsc.writer_ok (tsc idx) →
  Z.of_nat (length (chunks (tsc idx)) + (node_chunks n + budget)) < 2 ^ 32 →
  let '(refs, w) := add_refs (tsc idx) (file_entries (fi_size fi) data) in
  entry_inv w (file_entry idx n fi refs) ∧ Tsc.writer_ok w ∧ chunks (tsc idx) `prefix_of` chunks w ∧
  Z.of_nat (length (chunks w) + budget) < 2 ^ 32 ∧ (length refs ≤ node_chunks n)%nat ∧
  (λ i, SHA256 (chunks w !!! Z.to_nat i)) <$> refs = SHA256 <$> file_entries (fi_size fi) data.
Proof.
  intros Hn Hst Ho Hok Hb. unfold node_chunks in Hb |- *. rewrite Ho in Hb |- *. cbn [rd_data] in Hb |- *.
  assert (length (file_entries (fi_size fi) data) ≤ length (chunks_of data))%nat as Hfl.
  { unfold file_entries. destruct (fi_size fi =? 0); cbn [length]; [lia|]. by rewrite length_fmap. }
  pose proof (add_refs_ok (tsc idx) (file_entries (fi_size fi) data) Hok
    (file_entries_ok _ _) ltac:(lia)) as Ha.
  destruct (add_refs _ _) as [refs w]. destruct Ha as (Hok' & Hp & Hl & Hlr & Hrange & Hshas).
  pose proof (prefix_length _ _ Hp).
  split; [|split_and!; try done; lia].
  pose proof (base_entry_ok n fi Hn Hst) as (?&?&?&?&?&?&?& Hct &?&?&?).
  assert (u32 (Z.of_nat (length refs)) = Z.of_nat (length refs)) as Hu
    by (apply u32_id; unfold is_u32; lia).
  split; [|split; [exact Hu|exact Hrange]].
  pose proof zero_u32. apply fields_entry_ok; try done; cbn; try (unfold EntryTypeFile; lia); try done.
  unfold stat_fields_ok. cbn. split_and!; try done; [by apply racy_range|apply u32_range].
Qed.

(** *** One node *)

(** [e] is the entry of regular file [n] with its chunks in [w]. *)
Definition file_done (w : TSCWriter) (n : node) (fi : file_info) (data : list byte) (e : TSMEntry) : Prop :=
  Path e = n_path n ∧ Type_ e = EntryTypeFile ∧ ESize e = u64 (fi_size fi) ∧
  (λ i, SHA256 (chunks w !!! Z.to_nat i)) <$> ChunkRefs e = SHA256 <$> file_entries (fi_size fi) data.

Lemma process_file_inv idx n fi budget idx' o :
  ParentTSM idx = None → node_ok n → n_stat n = Ret fi → build_inv idx (node_chunks n + budget) →
  process_file idx n fi (with_type (base_entry (n_path n) fi) EntryTypeFile) = (idx', o) →
  chunks (tsc idx) `prefix_of` chunks (tsc idx') ∧ hardlinks idx' = hardlinks idx ∧
  build_inv idx' budget ∧
  (∀ e, o = Ret (Some e) → entry_inv (tsc idx') e ∧ (length (ChunkRefs e) ≤ node_chunks n)%nat ∧
     Path e = n_path n ∧
     ∀ data sched, n_open n = Ret (Reader data sched false StreamEOF) → file_done (tsc idx') n fi data e) ∧
  (o = Ret None → False).
Proof.
  intros Hp Hn Hst [Hok Hb He Ht Hl] Hpf. unfold process_file in Hpf.
  rewrite reuse_no_parent in Hpf by done.
  pose proof (no_readable _ Hn) as Hr. unfold readable in Hr.
  destruct (n_open n) as [[data sched eager en]|err|] eqn:Ho; [| |done].
  - cbn in Hr. destruct Hr as [-> ->].
    destruct (processFileChunks_spec idx n (fi_size fi) data sched Ho) as [total Hpc].
    rewrite Hpc in Hpf.
    pose proof (file_entry_inv idx n fi data sched budget Hn Hst Ho Hok Hb) as Hfe.
    destruct (add_refs (tsc idx) (file_entries (fi_size fi) data)) as [refs w].
    cbn [fst snd] in Hpf. injection Hpf as <- <-.
    destruct Hfe as (Hinv & Hok' & Hpre & Hb' & Hlr & Hshas).
    split; [exact Hpre|]. split; [done|]. split.
    { split; cbn; try done; [|lia]. eapply Forall_impl; [exact He|]. intros e. by apply entry_inv_extend. }
    split; [|done]. intros e [= <-]. split; [exact Hinv|]. split; [exact Hlr|]. split; [done|].
    intros data' sched' [= -> _]. by split_and!.
  - unfold processFileChunks in Hpf. rewrite Ho in Hpf.
    assert (build_inv idx budget) as Hbi by (split; try done; lia).
    assert (Z.of_nat (length (chunks (tsc idx))) < 2 ^ 32) as Hlen by lia.
    destruct (fi_size fi =? 0) eqn:Hz; injection Hpf as <- <-.
    + split; [done|]. split; [done|]. split; [by destruct Hbi|]. split; [|done].
      intros e [= <-]. split; [|split; [cbn; lia|done]].
      pose proof (base_entry_ok n fi Hn Hst) as (?&?&?&?&?&?&?& Hct &?&?&?).
      split; [|split; [done|by constructor]]. pose proof zero_u32.
      apply fields_entry_ok; try done; cbn; try (unfold EntryTypeFile; lia); try done.
      unfold stat_fields_ok. cbn. split_and!; try done; by apply racy_range.
    + done.
Qed.

Lemma build_inv_count idx b budget : build_inv idx budget → build_inv (count_entry idx b) budget.
Proof. by intros []. Qed.

Lemma build_inv_less idx b1 b2 : (b2 ≤ b1)%nat → build_inv idx b1 → build_inv idx b2.
Proof. intros ? []. split; try done; lia. Qed.

Lemma build_inv_link idx budget key i :
  is_u32 i → build_inv idx budget → build_inv (set_hardlinks idx (<[key := i]> (hardlinks idx))) budget.
Proof. intros Hi []. split; try done. cbn. by apply map_Forall_insert_2. Qed.

Lemma regular_not_dir mode : IsRegular mode = true → IsDir mode = false.
Proof.
  unfold IsRegular, IsDir, has_bits. intros Hr. reflect_bools. apply negb_false_iff, Z.eqb_eq.
  change ModeDir with (Z.land ModeType ModeDir). by rewrite Z.land_assoc, Hr.
Qed.

Lemma processEntry_inv idx n fi i budget idx' o :
  ParentTSM idx = None → node_ok n → n_stat n = Ret fi → is_u32 i →
  build_inv idx (node_chunks n + budget) →
  processEntry Major Minor idx n fi i = (idx', o) →
  chunks (tsc idx) `prefix_of` chunks (tsc idx') ∧ build_inv idx' budget ∧
  (∀ e, o = Ret (Some e) → entry_inv (tsc idx') e ∧ (length (ChunkRefs e) ≤ node_chunks n)%nat ∧
     Path e = n_path n ∧
     (IsRegular (fi_mode fi) = true → fi_nlink fi ≤ 1 → ∀ data sched,
        n_open n = Ret (Reader data sched false StreamEOF) → file_done (tsc idx') n fi data e)) ∧
  (o = Ret None → IsRegular (fi_mode fi) = false).
Proof.
  intros Hp Hn Hst Hi Hinv Hpe.
  assert (build_inv idx budget) as Hb by (eapply build_inv_less; [|exact Hinv]; lia).
  assert (∀ e b, (count_entry idx b, Ret (Some e)) = (idx', o) →
    entry_inv (tsc idx) e → ChunkRefs e = [] → Path e = n_path n →
    (IsRegular (fi_mode fi) = true → fi_nlink fi ≤ 1 → False) →
    chunks (tsc idx) `prefix_of` chunks (tsc idx') ∧ build_inv idx' budget ∧
    (∀ e, o = Ret (Some e) → entry_inv (tsc idx') e ∧ (length (ChunkRefs e) ≤ node_chunks n)%nat ∧
       Path e = n_path n ∧
       (IsRegular (fi_mode fi) = true → fi_nlink fi ≤ 1 → ∀ data sched,
          n_open n = Ret (Reader data sched false StreamEOF) → file_done (tsc idx') n fi data e)) ∧
    (o = Ret None → IsRegular (fi_mode fi) = false)) as Hplain.
  { intros e b [= <- <-] He Hrefs Hpath Hno. split; [done|]. split; [by apply build_inv_count|].
    split; [|done]. intros e' [= <-]. split; [exact He|]. rewrite Hrefs.
    split; [cbn; lia|]. split; [done|]. intros Hreg Hnl. by destruct (Hno Hreg Hnl). }
  unfold processEntry in Hpe. destruct (IsDir (fi_mode fi)) eqn:Hdir.
  { eapply Hplain; [exact Hpe| |done|done|].
    - eapply plain_entry_inv; [done|done|by left].
    - intros Hreg. apply regular_not_dir in Hreg. congruence. }
  destruct (IsRegular (fi_mode fi)) eqn:Hreg.
  - destruct (fi_nlink fi >? 1) eqn:Hnl.
    + destruct (hardlinks idx !! hardlink_key fi) as [j|] eqn:Hlk.
      * eapply Hplain; [exact Hpe| |done|done|intros; lia].
        eapply plain_entry_inv; [done|done|]. right; left. exists j. split; [|done].
        exact (bi_links _ _ Hinv _ _ Hlk).
      * eapply process_file_inv in Hpe; [|done..|by apply build_inv_link].
        destruct Hpe as (Hpre & _ & Hb' & He & Hno). split; [exact Hpre|]. split; [exact Hb'|].
        split; [|intros Ho; by destruct (Hno Ho)].
        intros e Ho. destruct (He e Ho) as (? & ? & ? & ?). by split_and!.
    + eapply process_file_inv in Hpe; [|done..].
      destruct Hpe as (Hpre & _ & Hb' & He & Hno). split; [exact Hpre|]. split; [exact Hb'|].
      split; [|intros Ho; by destruct (Hno Ho)].
      intros e Ho. destruct (He e Ho) as (? & ? & ? & ?). by split_and!.
  - destruct (has_bits (fi_mode fi) ModeSymlink).
    { destruct (n_link n) as [t|[p|p]|] eqn:Hlink;
        [|injection Hpe as <- <-; by split_and!|injection Hpe as <- <-; by split_and!
         |injection Hpe as <- <-; by split_and!].
      eapply Hplain; [exact Hpe| |done|done|done].
      eapply plain_entry_inv; [done|done|]. right; right; left. by exists t. }
    destruct (has_bits (fi_mode fi) ModeDevice).
    { eapply Hplain; [exact Hpe| |done|done|done].
      eapply plain_entry_inv; [done|done|]. right; right; right; left. eexists. split; [|done].
      destruct (has_bits _ _); auto. }
    destruct (has_bits (fi_mode fi) ModeNamedPipe).
    { eapply Hplain; [exact Hpe| |done|done|done].
      eapply plain_entry_inv; [done|done|]. by right; right; right; right. }
    injection Hpe as <- <-. by split_and!.
Qed.

(** *** The loop *)

(** A regular file that can be read is never skipped. *)
Lemma processEntry_reads idx n fi i data sched idx' err :
  ParentTSM idx = None → IsRegular (fi_mode fi) = true → fi_nlink fi ≤ 1 →
  n_open n = Ret (Reader data sched false StreamEOF) →
  processEntry Major Minor idx n fi i = (idx', Err err) → False.
Proof.
  intros Hp Hreg Hnl Ho. unfold processEntry. rewrite (regular_not_dir _ Hreg), Hreg.
  replace (fi_nlink fi >? 1) with false by lia. unfold process_file.
  rewrite reuse_no_parent by done.
  by destruct (processFileChunks_spec idx n (fi_size fi) data sched Ho) as [total ->].
Qed.

Lemma file_done_extend w w' n fi data e :
  chunks w `prefix_of` chunks w' → entry_inv w e → file_done w n fi data e → file_done w' n fi data e.
Proof.
  intros Hp (_ & _ & Hr) (? & ? & ? & Hs). destruct (refs_extend _ _ _ Hp Hr) as [_ Heq].
  split_and!; try done. by rewrite Heq.
Qed.

Lemma entries_AddEntry w e : entries (AddEntry w e) = entries w ++ [e].
Proof. done. Qed.

(** The file [n] is listed in [es], with its chunks. *)
Definition listed (w : TSCWriter) (es : list TSMEntry) (n : node) : Prop :=
  ∀ fi data sched, n_stat n = Ret fi → IsRegular (fi_mode fi) = true → fi_nlink fi ≤ 1 →
    n_open n = Ret (Reader data sched false StreamEOF) → ∃ e, e ∈ es ∧ file_done w n fi data e.

Lemma build_inv_add idx0 idx n e budget :
  build_inv idx0 (node_chunks n + budget) → tsm idx = tsm idx0 → build_inv idx budget →
  entry_inv (tsc idx) e → (length (ChunkRefs e) ≤ node_chunks n)%nat →
  build_inv (set_tsmw idx (AddEntry (tsm idx) e)) budget.
Proof.
  intros [_ _ _ Ht0 _] Heq [] He Hl. rewrite <- Heq in Ht0. split; try done; cbn [set_tsmw tsm];
    rewrite entries_AddEntry.
  - apply Forall_app. split; [done|]. by constructor.
  - rewrite fmap_app, concat_app. cbn [fmap list_fmap concat]. rewrite app_nil_r, length_app. lia.
Qed.

Lemma index_loop_inv nodes : ∀ idx i idx',
  ParentTSM idx = None → Forall node_ok nodes → is_u32 i →
  build_inv idx (sum_list (node_chunks <$> nodes)) →
  index_loop Major Minor idx nodes i = Ret idx' →
  ∃ new, build_inv idx' 0 ∧ tsm idx' = add_entries (tsm idx) new ∧
    chunks (tsc idx) `prefix_of` chunks (tsc idx') ∧
    Path <$> new `sublist_of` n_path <$> nodes ∧ Forall (listed (tsc idx') new) nodes.
Proof.
  induction nodes as [|n nodes IH]; intros idx i idx' Hp Hn Hi Hb Hl.
  { injection Hl as <-. exists []. by split_and!. }
  apply Forall_cons in Hn as [Hn Hns]. cbn [index_loop] in Hl. cbn [fmap list_fmap sum_list] in Hb.
  assert (∀ idx1 j, ParentTSM idx1 = None → is_u32 j → tsm idx1 = tsm idx →
    chunks (tsc idx) `prefix_of` chunks (tsc idx1) →
    build_inv idx1 (sum_list (node_chunks <$> nodes)) →
    (∀ w, listed w [] n) →
    index_loop Major Minor idx1 nodes j = Ret idx' →
    ∃ new, build_inv idx' 0 ∧ tsm idx' = add_entries (tsm idx) new ∧
      chunks (tsc idx) `prefix_of` chunks (tsc idx') ∧
      Path <$> new `sublist_of` n_path <$> n :: nodes ∧ Forall (listed (tsc idx') new) (n :: nodes))
    as Hskip.
  { intros idx1 j Hp1 Hj Ht1 Hpre Hb1 Hno Hl1.
    destruct (IH _ _ _ Hp1 Hns Hj Hb1 Hl1) as (new & Hb' & Ht' & Hpre' & Hsub & Hfiles).
    exists new. split; [done|]. split; [by rewrite <- Ht1|]. split; [by etrans|].
    split; [cbn; by apply sublist_cons|]. constructor; [|done].
    intros fi data sched ? ? ? Ho. by destruct (Hno (tsc idx') fi data sched) as (e & He & _);
      [..|apply elem_of_nil in He]. }
  assert (build_inv idx (sum_list (node_chunks <$> nodes))) as Hb0 by (eapply build_inv_less; [|exact Hb]; lia).
  destruct (n_stat n) as [fi|err|] eqn:Hst; [| |done].
  2: { destruct (IsPermission err); [|done]. eapply Hskip; [..|exact Hl]; try done.
       intros w fi data sched Hst'. congruence. }
  pose proof (processEntry_parents idx n fi i) as (Hp1 & _ & Ht1 & _).
  destruct (processEntry Major Minor idx n fi i) as [idx1 o] eqn:Hpe. cbn [fst] in Hp1, Ht1.
  rewrite Hp in Hp1.
  destruct (processEntry_inv _ _ _ _ _ _ _ Hp Hn Hst Hi Hb Hpe) as (Hpre & Hb1 & He & Hnone).
  destruct o as [[e|]|err|]; [| | |done].
  - destruct (He e eq_refl) as (Hinv & Hlr & Hpath & Hdone).
    destruct (IH (set_tsmw idx1 (AddEntry (tsm idx1) e)) _ _ Hp1 Hns (u32_range _)
      (build_inv_add _ _ _ _ _ Hb Ht1 Hb1 Hinv Hlr) Hl) as (new & Hb' & Ht' & Hpre' & Hsub & Hfiles).
    cbn [set_tsmw tsm tsc] in *.
    exists (e :: new). split; [done|]. split; [by rewrite Ht', Ht1|]. split; [by etrans|].
    split; [cbn; rewrite Hpath; by apply sublist_skip|]. constructor.
    + intros fi' data sched Hst' Hreg Hnl Ho. assert (fi' = fi) as -> by congruence.
      exists e. split; [by left|]. eapply file_done_extend; [done|done|by eapply Hdone].
    + eapply Forall_impl; [exact Hfiles|]. intros m Hm fi' data sched Hs' Hr' Hn' Ho'.
      destruct (Hm fi' data sched Hs' Hr' Hn' Ho') as (e' & He' & Hd). exists e'. split; [by right|done].
  - eapply Hskip; [..|exact Hl]; try done.
    intros w fi' data sched Hst' Hreg. assert (fi' = fi) as -> by congruence.
    rewrite (Hnone eq_refl) in Hreg. done.
  - destruct (IsPermission err) eqn:Hperm; [|done]. eapply Hskip; [..|exact Hl]; try done.
    intros w fi' data sched Hst' Hreg Hnl Ho. assert (fi' = fi) as -> by congruence.
    destruct (processEntry_reads _ _ _ _ _ _ _ _ Hp Hreg Hnl Ho Hpe).
Qed.
(** Every node can be read, but for lack of permission. *)
Record accessible (n : node) : Prop := {
  ac_stat : match n_stat n with Ret _ => True | Err e => IsPermission e = true | Panic => False end;
  ac_open : match n_open n with Ret _ => True | Err e => IsPermission e = true | Panic => False end;
  ac_link : ∀ fi, n_stat n = Ret fi → has_bits (fi_mode fi) ModeSymlink = true → ∃ t, n_link n = Ret t;
}.

Lemma process_file_total idx n fi e :
  ParentTSM idx = None → readable n → accessible n →
  match (process_file idx n fi e).2 with
  | Ret _ => True | Err err => IsPermission err = true | Panic => False
  end.
Proof.
  intros Hp Hr [_ Ha _]. unfold process_file. rewrite reuse_no_parent by done.
  unfold readable in Hr. destruct (n_open n) as [[data sched eager en]|err|] eqn:Ho; [| |done].
  - cbn in Hr. destruct Hr as [-> ->].
    by destruct (processFileChunks_spec idx n (fi_size fi) data sched Ho) as [total ->].
  - unfold processFileChunks. rewrite Ho. by destruct (fi_size fi =? 0).
Qed.

Lemma processEntry_total idx n fi i :
  ParentTSM idx = None → readable n → accessible n → n_stat n = Ret fi →
  match (processEntry Major Minor idx n fi i).2 with
  | Ret _ => True | Err err => IsPermission err = true | Panic => False
  end.
Proof.
  intros Hp Hr Ha Hst. unfold processEntry.
  destruct (IsDir (fi_mode fi)); [done|]. destruct (IsRegular (fi_mode fi)).
  - destruct (fi_nlink fi >? 1); [|by apply process_file_total].
    destruct (hardlinks idx !! hardlink_key fi); [done|by apply process_file_total].
  - destruct (has_bits (fi_mode fi) ModeSymlink) eqn:Hs.
    { by destruct (ac_link _ Ha fi Hst Hs) as [t ->]. }
    destruct (has_bits (fi_mode fi) ModeDevice); [done|].
    by destruct (has_bits (fi_mode fi) ModeNamedPipe).
Qed.

Lemma index_loop_total nodes : ∀ idx i,
  ParentTSM idx = None → Forall readable nodes → Forall accessible nodes →
  ∃ idx', index_loop Major Minor idx nodes i = Ret idx'.
Proof.
  induction nodes as [|n nodes IH]; intros idx i Hp Hr Ha; [by eexists|].
  apply Forall_cons in Hr as [Hr Hrs]. apply Forall_cons in Ha as [Ha Has]. cbn [index_loop].
  pose proof (ac_stat _ Ha) as Hs. destruct (n_stat n) as [fi|err|] eqn:Hst; [| |done].
  2: { rewrite Hs. by apply IH. }
  pose proof (processEntry_total idx n fi i Hp Hr Ha Hst) as Ht.
  pose proof (processEntry_parents idx n fi i) as (Hp1 & _).
  destruct (processEntry Major Minor idx n fi i) as [idx1 [[e|]|err|]]; cbn [fst snd] in *.
  - apply IH; cbn; try done. by rewrite Hp1.
  - apply IH; try done. by rewrite Hp1.
  - rewrite Ht. apply IH; try done. by rewrite Hp1.
  - done.
Qed.

(** *** The two files *)

Lemma Tsm_Write_others fault fs w path tscSHA im q :
  q ≠ path → q ≠ path ++ tmp_suffix →
  (Tsm.Write fault fs w path tscSHA im).1.1 !! q = fs !! q.
Proof.
  intros Hq1 Hq2. unfold Tsm.Write. destruct (build_refs im [] _) as [es table].
  destruct (write_via_tmp fault fs path _) as [fs' e] eqn:Hw.
  apply write_via_tmp_atomic in Hw as [_ Hw]. destruct e; cbn; by apply Hw.
Qed.

Lemma same_base (out a b : gostring) : out ++ a = out ++ b → a = b.
Proof. apply app_inv_head. Qed.

(** What the two files of a full index give a reader, entry by entry. *)
Lemma Index_files fs nodes out now zeroTime :
  Forall node_ok nodes → Forall accessible nodes → NoDup (n_path <$> nodes) →
  Z.of_nat (sum_list (node_chunks <$> nodes)) < 2 ^ 32 → Z.of_nat (length nodes) < 2 ^ 64 →
  is_i64 zeroTime →
  ∃ fs' idx' sha cdata data cr r,
    Index Major Minor NoFault NoFault fs (NewIndexer None None now zeroTime) nodes out
      = (fs', Ret (idx', sha)) ∧
    fs' !! (out ++ bs ".tsc") = Some cdata ∧ ParseTSC cdata = Ret cr ∧
    fs' !! (out ++ bs ".tsm") = Some data ∧ ParseTSM data = Ret r ∧
    rSHA256 r = sha ∧ TSCSHA r = fileSHA256 cr ∧
    Forall (λ n, ∀ fi d sched, n_stat n = Ret fi → IsRegular (fi_mode fi) = true → fi_nlink fi ≤ 1 →
      n_open n = Ret (Reader d sched false StreamEOF) →
      ∃ e, LookupPath r (n_path n) = Some e ∧ Type_ e = EntryTypeFile ∧ ESize e = u64 (fi_size fi) ∧
        GetFileChunkSHAs e cr = SHA256 <$> file_entries (fi_size fi) d) nodes.
Proof.
  intros Hn Ha Hnd Hc Hlen Hz. unfold Index.
  set (idx := NewIndexer None None now zeroTime).
  assert (Forall readable nodes) as Hr by (eapply Forall_impl; [exact Hn|]; intros ? []; done).
  destruct (index_loop_total nodes idx 0 eq_refl Hr Ha) as [idx1 Hl].
  assert (build_inv idx (sum_list (node_chunks <$> nodes))) as Hinv.
  { split; cbn; [apply NewTSCWriter_ok|lia|done|lia|done]. }
  destruct (index_loop_inv nodes idx 0 idx1 eq_refl Hn zero_u32 Hinv Hl)
    as (new & Hinv1 & Htsm & _ & Hsub & Hlisted).
  rewrite Hl. destruct Hinv1 as [Hok Hcl Hents Htab _].
  assert (tsm idx1 = filled new (replicate 8 Byte.x00) zeroTime) as Hfill by exact Htsm.
  assert (entries (tsm idx1) = new) as Hnew.
  { rewrite Hfill. unfold filled. by destruct (add_entries_spec
      (SetFSUUID (NewTSMWriter zeroTime) (replicate 8 Byte.x00)) new) as (_ & -> & _). }
  rewrite Hnew in Hents, Htab.
  destruct (Tsc.Write_file fs (tsc idx1) (out ++ bs ".tsc") Hok) as (fs1 & Hcw & Hcp & Hcparse).
  set (ccontent := tsc_content _ _ _) in *. rewrite Hcw, Hfill.
  assert (writable new (sortChunks (tsc idx1)).2 (sum256 ccontent) (replicate 8 Byte.x00) zeroTime) as Hw.
  { split.
    - eapply Forall_impl; [exact Hents|]. by intros e [].
    - eapply Forall_impl; [exact Hents|]. by intros e (_ & ? & _).
    - eapply Forall_impl; [exact Hents|]. intros e (_ & _ & He). eapply Forall_impl; [exact He|].
      intros i. unfold is_u32. cbn. lia.
    - lia.
    - apply sublist_length in Hsub. rewrite !length_fmap in Hsub. lia.
    - apply sorted_map_u32.
    - apply length_sum256.
    - apply length_replicate.
    - done. }
  destruct (Write_parses fs1 (out ++ bs ".tsm") new _ _ _ _ Hw)
    as (fs2 & w' & es' & table & h & Hwr & Hp & Hf & Hparse & _).
  pose proof (Tsm_Write_others NoFault fs1 (filled new (replicate 8 Byte.x00) zeroTime)
    (out ++ bs ".tsm") (sum256 ccontent) (sortChunks (tsc idx1)).2 (out ++ bs ".tsc")) as Hother.
  rewrite Hwr in Hother |- *. cbn [fst] in Hother.
  set (rd := MkTSMReader _ _ _ _ _) in Hparse.
  eexists fs2, _, _, _, _, _, rd. split; [reflexivity|].
  split. { rewrite Hother; [exact Hcp|by intros ?%same_base|rewrite <- app_assoc; by intros ?%same_base]. }
  split; [exact Hcparse|]. split; [exact Hp|]. split; [exact Hparse|].
  split; [reflexivity|]. split; [reflexivity|].
  rewrite Forall_forall in Hents. eapply Forall_impl; [exact Hlisted|].
  intros n Hn1 fi d sched Hst Hreg Hnl Ho.
  destruct (Hn1 fi d sched Hst Hreg Hnl Ho) as (e & He & Hpath & Ht & Hs & Hsh).
  destruct (Hents e He) as (_ & Hcnt & Hrange).
  destruct (resolve_read_back (tsc idx1) new es' rd
    (MkTSCHeader TSCMagic 0 (Z.of_nat (length (chunks (tsc idx1)))) (totalSize (tsc idx1)) 0 0)
    (sum256 ccontent) e) as (e' & Hl' & Ht' & Hs' & _ & Hg); try done.
  { eapply sublist_NoDup; [exact Hnd|exact Hsub]. }
  exists e'. rewrite <- Hpath. split; [exact Hl'|]. split; [congruence|]. split; [congruence|].
  by rewrite Hg.
Qed.
End indexer.

(** ** Properties *)

(** What is indexed can be restored, file by file. *)
Lemma index_restores `{Digest} Major Minor fs nodes out now zeroTime
    (Hn : Forall (node_ok Major Minor) nodes) (Ha : Forall accessible nodes)
    (Hd : NoDup (n_path <$> nodes)) (Hc : Z.of_nat (sum_list (node_chunks <$> nodes)) < 2 ^ 32)
    (Hl : Z.of_nat (length nodes) < 2 ^ 64) (Hz : is_i64 zeroTime) :
  ∃ fs' idx' sha cdata data cr r,
    Index Major Minor NoFault NoFault fs (NewIndexer None None now zeroTime) nodes out
      = (fs', Ret (idx', sha)) ∧
    fs' !! (out ++ bs ".tsc") = Some cdata ∧ ParseTSC cdata = Ret cr ∧
    fs' !! (out ++ bs ".tsm") = Some data ∧ ParseTSM data = Ret r ∧
    rSHA256 r = sha ∧ TSCSHA r = fileSHA256 cr ∧
    ∀ n fi contents sched, n ∈ nodes → n_stat n = Ret fi → IsRegular (fi_mode fi) = true →
      fi_nlink fi ≤ 1 → n_open n = Ret (Reader contents sched false StreamEOF) →
      ∃ e, LookupPath r (n_path n) = Some e ∧ Type_ e = EntryTypeFile ∧ ESize e = u64 (fi_size fi) ∧
        (fi_size fi = 0 → GetFileChunkSHAs e cr = []) ∧
        (fi_size fi ≠ 0 → ∃ pieces, concat pieces = contents ∧
           GetFileChunkSHAs e cr = BlobSHA256 <$> pieces).
Proof.
  destruct (Index_files Major Minor fs nodes out now zeroTime Hn Ha Hd Hc Hl Hz)
    as (fs' & idx' & sha & cdata & data & cr & r & H1 & H2 & H3 & H4 & H5 & H6 & H7 & Hf).
  exists fs', idx', sha, cdata, data, cr, r. repeat (split; [assumption|]).
  intros n fi d sched Hin Hst Hreg Hnl Ho. rewrite Forall_forall in Hf.
  destruct (Hf n Hin fi d sched Hst Hreg Hnl Ho) as (e & He & Ht & Hs & Hg).
  exists e. repeat (split; [assumption|]). rewrite Hg. unfold file_entries.
  destruct (Z.eqb_spec (fi_size fi) 0) as [Hz0|Hz0]; (split; [|intros ?]); try done.
  exists (chunks_of d).*1. split; [apply chunks_of_partition|].
  rewrite <- !list_fmap_compose. apply list_fmap_ext. intros i [c l] _. reflexivity.
Qed.

(** what is indexed can be restored: on nodes with distinct paths that can be
    read (files the operating system denies for lack of permission are left out), a
    full index succeeds; both its files parse, the manifest names the chunk list it
    goes with; and looking up the path of any regular file with one link gives an
    entry with its size, whose references resolve in the chunk list to the digests
    of pieces that together are the file's contents. *)
Theorem index_then_read `{Digest} Major Minor fs nodes out now zeroTime
    (Hn : Forall (node_ok Major Minor) nodes) (Ha : Forall accessible nodes)
    (Hd : NoDup (n_path <$> nodes)) (Hc : Z.of_nat (sum_list (node_chunks <$> nodes)) < 2 ^ 32)
    (Hl : Z.of_nat (length nodes) < 2 ^ 64) (Hz : is_i64 zeroTime) :
  ∃ fs' idx' sha cdata data cr r,
    Index Major Minor NoFault NoFault fs (NewIndexer None None now zeroTime) nodes out
      = (fs', Ret (idx', sha)) ∧
    fs' !! (out ++ bs ".tsc") = Some cdata ∧ ParseTSC cdata = Ret cr ∧
    fs' !! (out ++ bs ".tsm") = Some data ∧ ParseTSM data = Ret r ∧
    rSHA256 r = sha ∧ TSCSHA r = fileSHA256 cr ∧
    ∀ n fi contents sched, n ∈ nodes → n_stat n = Ret fi → IsRegular (fi_mode fi) = true →
      fi_nlink fi ≤ 1 → n_open n = Ret (Reader contents sched false StreamEOF) →
      ∃ e, LookupPath r (n_path n) = Some e ∧ Type_ e = EntryTypeFile ∧ ESize e = u64 (fi_size fi) ∧
        (fi_size fi = 0 → GetFileChunkSHAs e cr = []) ∧
        (fi_size fi ≠ 0 → ∃ pieces, concat pieces = contents ∧
           GetFileChunkSHAs e cr = BlobSHA256 <$> pieces).
Proof. by apply index_restores. Qed.

(** A tree of one directory and one file, for the examples. *)
Definition stat_of (mode size : Z) : file_info := FileInfo mode 0 0 size 5 6 7 1 1 12 0.
Definition example_nodes : list node :=
  [Node [] (Ret (stat_of ModeDir 4096)) (Err (PathErr false)) (Err (PathErr true));
   Node (bs "f") (Ret (stat_of 420 3)) (Err (PathErr false))
     (Ret (Reader (bs "abc") [2%nat] false StreamEOF));
   Node (bs "secret") (Err (PathErr true)) (Err (PathErr true)) (Err (PathErr true))].

Lemma example_nodes_ok : Forall (node_ok (λ _, 0) (λ _, 0)) example_nodes.
Proof.
  unfold example_nodes. repeat (apply Forall_cons; split); [..|by apply Forall_nil];
    (split; [cbn; lia|done|done|]); intros fi [= <-];
    repeat split; cbn; lia.
Qed.

Lemma example_accessible : Forall accessible example_nodes.
Proof.
  unfold example_nodes. repeat (apply Forall_cons; split); [..|by apply Forall_nil];
    (split; [done|done|]); intros fi [= <-]; vm_compute; discriminate.
Qed.

Lemma index_then_read_witness :
  ∃ fs' idx' sha cdata data cr r e pieces,
    Index (H := sha256_digest) (λ _, 0) (λ _, 0) NoFault NoFault ∅
      (NewIndexer None None 42 0) example_nodes (bs "s") = (fs', Ret (idx', sha)) ∧
    fs' !! (bs "s" ++ bs ".tsc") = Some cdata ∧ ParseTSC (H := sha256_digest) cdata = Ret cr ∧
    fs' !! (bs "s" ++ bs ".tsm") = Some data ∧ ParseTSM (H := sha256_digest) data = Ret r ∧
    LookupPath r (bs "f") = Some e ∧ concat pieces = bs "abc" ∧
    GetFileChunkSHAs e cr = BlobSHA256 (H := sha256_digest) <$> pieces.
Proof.
  destruct (index_then_read (H := sha256_digest) (λ _, 0) (λ _, 0) ∅ example_nodes (bs "s") 42 0)
    as (fs' & idx' & sha & cdata & data & cr & r & H1 & H2 & H3 & H4 & H5 & _ & _ & Hf).
  - apply example_nodes_ok.
  - apply example_accessible.
  - by apply (bool_decide_unpack _).
  - vm_compute. reflexivity.
  - reflexivity.
  - split; vm_compute; [discriminate|reflexivity].
  - destruct (Hf (Node (bs "f") (Ret (stat_of 420 3)) (Err (PathErr false))
      (Ret (Reader (bs "abc") [2%nat] false StreamEOF))) (stat_of 420 3) (bs "abc") [2%nat])
      as (e & He & _ & _ & _ & Hp).
    + right. left.
    + reflexivity.
    + reflexivity.
    + discriminate.
    + reflexivity.
    + destruct Hp as (pieces & Hcat & Hg); [discriminate|].
      exists fs', idx', sha, cdata, data, cr, r, e, pieces. repeat (split; [assumption|]). exact Hg.
Defined.

(** A faithful parent changes nothing. *)
Lemma index_incremental `{Digest} Major Minor fault1 fault2 fs ptsm ptsc nodes out now zeroTime
    (Hf : Forall (faithful ptsm ptsc) nodes) (Hr : Forall readable nodes) :
  let inc := Index Major Minor fault1 fault2 fs
    (NewIndexer (Some ptsm) (Some ptsc) now zeroTime) nodes out in
  let full := Index Major Minor fault1 fault2 fs (NewIndexer None None now zeroTime) nodes out in
  fst inc = fst full ∧
  match snd inc, snd full with
  | Ret (_, sha1), Ret (_, sha2) => sha1 = sha2
  | Err e1, Err e2 => e1 = e2
  | Panic, Panic => True
  | _, _ => False
  end.
Proof.
  cbn zeta. unfold Index.
  assert (same_output (NewIndexer (Some ptsm) (Some ptsc) now zeroTime)
    (NewIndexer None None now zeroTime)) as Hs0 by by split.
  pose proof (index_loop_same Major Minor (NewIndexer (Some ptsm) (Some ptsc) now zeroTime)
    (NewIndexer None None now zeroTime) ptsm ptsc nodes 0 eq_refl eq_refl eq_refl Hf Hr Hs0) as Hs.
  destruct (index_loop _ _ (NewIndexer (Some ptsm) _ _ _) nodes 0) as [i1|e1|],
    (index_loop _ _ (NewIndexer None _ _ _) nodes 0) as [i2|e2|]; try done.
  destruct Hs as [-> -> _ _].
  destruct (Tsc.Write fault1 fs (tsc i2) _) as [fs1 [[tscSHA im]|e|]]; [|done..].
  by destruct (Tsm.Write fault2 fs1 (tsm i2) _ tscSHA im) as [[fs2 w'] [sha|e|]].
Qed.

(** C1: incremental indexing changes nothing: with a parent snapshot that is
    faithful (where a file still has the size and change time the parent recorded,
    the parent's references are the chunks of what the file holds now), [Index]
    leaves the same files and answers with the same manifest digest, or the same
    error, as a full index of the same tree. *)
Theorem incremental_equals_full `{Digest} Major Minor fault1 fault2 fs ptsm ptsc nodes out now zeroTime
    (Hf : Forall (faithful ptsm ptsc) nodes) (Hr : Forall readable nodes) :
  let inc := Index Major Minor fault1 fault2 fs
    (NewIndexer (Some ptsm) (Some ptsc) now zeroTime) nodes out in
  let full := Index Major Minor fault1 fault2 fs (NewIndexer None None now zeroTime) nodes out in
  fst inc = fst full ∧
  match snd inc, snd full with
  | Ret (_, sha1), Ret (_, sha2) => sha1 = sha2
  | Err e1, Err e2 => e1 = e2
  | Panic, Panic => True
  | _, _ => False
  end.
Proof. by apply index_incremental. Qed.

(** The parent made of the example tree's only chunk. *)
Definition example_parent_tsm `{Digest} : TSMReader :=
  MkTSMReader (MkTSMHeader TSMMagic 0 1 3 [] 0 [])
    [set_chunks (with_type (base_entry (bs "f") (stat_of 420 3)) EntryTypeFile) 0 1 [0]] [0] [] [].
Definition example_parent_tsc `{Digest} : TSCReader :=
  MkTSCReader (MkTSCHeader TSCMagic 0 1 3 0 0) (file_entries 3 (bs "abc")) [].

Lemma example_faithful `{Digest} : Forall (faithful example_parent_tsm example_parent_tsc) example_nodes.
Proof.
  assert (length (file_entries 3 (bs "abc")) = 1%nat) as Hlen.
  { unfold file_entries. cbn [Z.eqb]. rewrite length_fmap. vm_compute. reflexivity. }
  unfold example_nodes. repeat (apply Forall_cons; split); [..|by apply Forall_nil];
    intros fi parent [= <-] Hreg Hl; [discriminate|].
  injection Hl as <-. intros _ _ _. exists (bs "abc"), [2%nat]. split; [reflexivity|].
  unfold example_parent_tsc. cbn [Entries ChunkRefs set_chunks fi_size stat_of].
  destruct (file_entries 3 (bs "abc")) as [|x [|y l]]; [discriminate| |discriminate].
  split; [|reflexivity]. apply Forall_cons. split; [cbn; lia|]. apply Forall_nil. exact I.
Qed.

Lemma example_readable : Forall readable example_nodes.
Proof.
  unfold example_nodes, readable. repeat (apply Forall_cons; split); [..|by apply Forall_nil];
    cbn; try exact I. split; reflexivity.
Qed.

Lemma incremental_equals_full_witness :
  let inc := Index (H := sha256_digest) (λ _, 0) (λ _, 0) NoFault NoFault ∅
    (NewIndexer (Some (example_parent_tsm (H := sha256_digest)))
       (Some (example_parent_tsc (H := sha256_digest))) 42 0) example_nodes (bs "s") in
  let full := Index (H := sha256_digest) (λ _, 0) (λ _, 0) NoFault NoFault ∅
    (NewIndexer None None 42 0) example_nodes (bs "s") in
  fst inc = fst full ∧
  match snd inc, snd full with
  | Ret (_, sha1), Ret (_, sha2) => sha1 = sha2
  | Err e1, Err e2 => e1 = e2
  | Panic, Panic => True
  | _, _ => False
  end.
Proof.
  exact (incremental_equals_full (H := sha256_digest) (λ _, 0) (λ _, 0) NoFault NoFault ∅
    (example_parent_tsm (H := sha256_digest)) (example_parent_tsc (H := sha256_digest))
    example_nodes (bs "s") 42 0 (example_faithful (H := sha256_digest)) example_readable).
Defined.

(** chunks are never reused across a write that the index raced with: let the
    parent entry be one a run started at [start] stored for a file whose change time
    it saw as [c]. If the file is written again at or after [start], by a clock
    whose change times lag the real time by less than the window (and never run
    backwards), the next run finds another change time and reads the file. *)
Theorem racy_write_is_noticed idx p path parent e c start
    (Hp : ParentTSM idx = Some p) (He : Path e = path) (Hl : LookupPath p path = Some parent)
    (Hc : -2 ^ 63 < c < 2 ^ 63) (Hs : Ctime parent = racyAdjustedCtime c start)
    (Hmono : c ≤ Ctime e) (Hlag : start - racyCtimeWindow < Ctime e) :
  reuseParentChunks idx e = (idx, None) ∧ isUnmodified idx e = false.
Proof.
  assert ((Ctime parent =? Ctime e) = false) as Hne.
  { rewrite Hs. unfold racyAdjustedCtime. destruct (start - c <? racyCtimeWindow) eqn:Hw.
    - rewrite i64_id by (unfold is_i64; lia). lia.
    - lia. }
  unfold reuseParentChunks, isUnmodified. rewrite Hp, He, Hl, Hne.
  split; [|by rewrite andb_false_r]. destruct (ParentTSC idx); [|done]. by rewrite orb_true_r.
Qed.

Lemma racy_write_is_noticed_witness :
  let e := set_ctime (with_type (base_entry (bs "f") (stat_of 420 3)) EntryTypeFile) 1000000000 in
  let parent := set_ctime e (racyAdjustedCtime 1000000000 1500000000) in
  let idx := NewIndexer (Some (MkTSMReader (MkTSMHeader TSMMagic 0 1 3 [] 0 []) [parent] [] [] []))
    (Some (example_parent_tsc (H := sha256_digest))) 42 0 in
  reuseParentChunks idx e = (idx, None).
Proof.
  intros e parent idx.
  refine (proj1 (racy_write_is_noticed idx _ (bs "f") parent e 1000000000 1500000000 _ _ _ _ _ _ _)).
  - reflexivity.
  - reflexivity.
  - vm_compute. reflexivity.
  - split; reflexivity.
  - reflexivity.
  - vm_compute. discriminate.
  - vm_compute. reflexivity.
Defined.

(** Two files of one device whose inode numbers are equal in the low bits of the
    device's shift get one key: inode [2^32] of device 0 is taken for inode 0 of
    device 1. *)
Lemma hardlink_key_collides :
  hardlink_key (FileInfo 0 0 0 0 0 0 0 2 0 (2 ^ 32 + 5) 0)
  = hardlink_key (FileInfo 0 0 0 0 0 0 0 2 1 5 0).
Proof. reflexivity. Qed.
