(* ===== verification/Download.v ===== *)
(** * Downloading a snapshot from a peer ([src/tsm/download.go], [src/tsm/chunklookup.go])

    The calls to the operating system and to the peer are the effects of a small
    monad: the world records them in order, keeps the contents of regular files by
    path, and asks an environment which calls fail and what the peer answers. *)

From Stdlib Require Import Strings.String.
From S2P Require Import GoSort Prelude GoStrings GoPath GoIO Sha256 Chunking Tsc Tsm Bloom ChunkIndex Indexer.

(** ** The world *)

(** The calls that change something, with their arguments. The three callbacks of
    [DownloadOptions] are calls too. *)
Inductive os_op :=
| OpCreate (path : gostring)
| OpTruncate (path : gostring) (size : Z)
| OpSeekCurrent (path : gostring) (by_ : Z)
| OpWrite (path : gostring) (data : list byte)
| OpWriteFile (path : gostring) (data : list byte) (perm : Z)
| OpMkdirAll (path : gostring) (perm : Z)
| OpRemove (path : gostring)
| OpRemoveAll (path : gostring)
| OpRename (old new : gostring)
| OpSymlink (target path : gostring)
| OpChmod (path : gostring) (mode : Z)
| OpChown (path : gostring) (uid gid : Z)
| OpLchown (path : gostring) (uid gid : Z)
| OpChtimes (path : gostring) (nanos : Z)
| OpCreateTargetDir (path parentStamp : gostring)
| OpCleanupTargetDir (path : gostring)
| OpPrepareForFiles (path : gostring) (fileList : list gostring).

(** An open file: its contents and the position of its descriptor. *)
Record ofile := OFile { o_data : list byte; o_pos : nat }.

Record http_request := Request { rq_url : gostring; rq_range : option (Z * Z) }.
Record http_reply := Reply { rp_status : Z; rp_body : outcome unit (list byte) }.

Record world := World {
  trace : list (os_op * bool);          (* oldest first, with their success *)
  requests : list http_request;
  files : gmap gostring ofile;
}.

Inductive dl_error :=
| dl_os (op : os_op) | dl_http | dl_status (code : Z) | dl_parse_tsm | dl_parse_tsc
| dl_invalid_ref (i : Z) | dl_mismatch (off : Z) | dl_unreadable | dl_unavailable (i : nat)
| dl_patch.

(** What the code finds around it: which calls fail, what the callbacks do to the
    files, what exists, the change time of a file, and the peer's answers. *)
Record env := Env {
  fails : world → os_op → bool;
  callback : os_op → gmap gostring ofile → gmap gostring ofile;
  stat_exists : world → gostring → bool;
  lstat_ctime : world → gostring → option Z;
  peer : world → http_request → outcome unit http_reply;
  read_local : world → gostring → option (list byte);
}.

Definition M (A : Type) : Type := world → world * outcome dl_error A.
Definition ret {A} (a : A) : M A := λ w, (w, Ret a).
Definition raise {A} (e : dl_error) : M A := λ w, (w, Err e).
Definition bind {A B} (m : M A) (f : A → M B) : M B :=
  λ w, match m w with
       | (w', Ret a) => f a w'
       | (w', Err e) => (w', Err e)
       | (w', Panic) => (w', Panic)
       end.
Notation "'let!' x := m 'in' k" := (bind m (λ x, k))
  (at level 200, x pattern, m at level 200, k at level 200) : go_scope.

(** A pure step, and a handler that runs when a step fails and then fails. *)
Definition lift {E A} (f : E → dl_error) (m : outcome E A) : M A := λ w, (w, wrap_err f m).
Definition on_error {A} (m : M A) (handler : M unit) : M A :=
  λ w, match m w with
       | (w', Err e) => ((handler w').1, Err e)
       | r => r
       end.

(** The effect of a successful call on the regular files. *)
Definition file_write (f : ofile) (data : list byte) : ofile :=
  let padded := o_data f ++ replicate (o_pos f - length (o_data f)) Byte.x00 in
  OFile (take (o_pos f) padded ++ data ++ drop (o_pos f + length data) padded)
    (o_pos f + length data).
Definition file_truncate (f : ofile) (size : nat) : ofile :=
  OFile (take size (o_data f ++ replicate (size - length (o_data f)) Byte.x00)) (o_pos f).
Definition file_seek (f : ofile) (by_ : Z) : ofile :=
  OFile (o_data f) (Z.to_nat (Z.of_nat (o_pos f) + by_)).

(** The name of a file after a directory above it (or itself) was renamed. *)
Definition renamed (old new k : gostring) : gostring :=
  if bool_decide (k = old) then new
  else if HasPrefix k (old ++ [slash]) then new ++ drop (length old) k else k.

Definition apply_op (e : env) (op : os_op) (m : gmap gostring ofile) : gmap gostring ofile :=
  match op with
  | OpCreate p => <[p := OFile [] 0]> m
  | OpTruncate p size => alter (λ f, file_truncate f (Z.to_nat size)) p m
  | OpSeekCurrent p n => alter (λ f, file_seek f n) p m
  | OpWrite p data => alter (λ f, file_write f data) p m
  | OpWriteFile p data _ => <[p := OFile data (length data)]> m
  | OpRemove p => delete p m
  | OpRemoveAll p =>
      filter (λ '(k, _), k ≠ p ∧ HasPrefix k (p ++ [slash]) = false) m
  | OpRename old new =>
      list_to_map ((λ '(k, f), (renamed old new k, f)) <$> map_to_list (delete new m))
  | OpSymlink _ p => delete p m
  | OpCreateTargetDir _ _ | OpCleanupTargetDir _ | OpPrepareForFiles _ _ => callback e op m
  | OpMkdirAll _ _ | OpChmod _ _ | OpChown _ _ _ | OpLchown _ _ _ | OpChtimes _ _ => m
  end.

(** A call to the operating system; a failed one changes nothing here. *)
Definition os (e : env) (op : os_op) : M unit :=
  λ w, if fails e w op
       then (World (trace w ++ [(op, false)]) (requests w) (files w), Err (dl_os op))
       else (World (trace w ++ [(op, true)]) (requests w) (apply_op e op (files w)), Ret tt).

(** The same, its error ignored. *)
Definition os_ (e : env) (op : os_op) : M unit := λ w, ((os e op w).1, Ret tt).

#[local] Open Scope go_scope.

Section download.
Context `{Digest}.
Variable e : env.

(** ** Chunks from local files ([chunklookup.go]) *)

(** [ReadData]: a negative offset cannot be sought; [io.ReadFull] wants all bytes. *)
Definition ReadData (loc : ChunkLocation) : M (list byte) :=
  λ w, match read_local e w (Filename loc) with
       | None => (w, Err dl_unreadable)
       | Some data =>
           let got := take (Z.to_nat (cl_Size loc)) (drop (Z.to_nat (cl_Offset loc)) data) in
           if (cl_Offset loc <? 0) || (Z.of_nat (length got) <? cl_Size loc)
           then (w, Err dl_unreadable) else (w, Ret got)
       end.

Definition VerifyAndRead (loc : ChunkLocation) : M (list byte) :=
  let! data := ReadData loc in
  if bool_decide (BlobSHA256 data = cl_SHA256 loc) then ret data else raise dl_unreadable.

(** ** HTTP *)

Definition StatusOK : Z := 200.
Definition StatusPartialContent : Z := 206.

(** One request, logged. *)
Definition client_do (r : http_request) : M http_reply :=
  λ w, (World (trace w) (requests w ++ [r]) (files w),
        wrap_err (λ _, dl_http) (peer e w r)).

Definition fetchFullFile (url : gostring) : M (list byte) :=
  let! resp := client_do (Request url None) in
  if negb (rp_status resp =? StatusOK) then raise (dl_status (rp_status resp))
  else lift (λ _, dl_http) (rp_body resp).

Record rangeSpec := RangeSpec { rs_offset : Z; rs_size : Z }.

Fixpoint fetchRanges (url : gostring) (ranges : list rangeSpec) : M (list (list byte)) :=
  match ranges with
  | [] => ret []
  | r :: ranges' =>
      let! resp := client_do (Request url
        (Some (rs_offset r, i64 (i64 (rs_offset r + rs_size r) - 1)))) in
      if negb (rp_status resp =? StatusOK) && negb (rp_status resp =? StatusPartialContent)
      then raise (dl_status (rp_status resp))
      else
        let! data := lift (λ _, dl_http) (rp_body resp) in
        let! rest := fetchRanges url ranges' in
        ret (data :: rest)
  end.

(** ** One file ([downloadFile]) *)

Record chunkInfo := MkInfo {
  ci_sha : list byte;
  ci_size : Z;
  remoteOffset : Z;
  localLoc : option ChunkLocation;
}.
#[export] Instance chunkInfo_inhabited : Inhabited chunkInfo := populate (MkInfo [] 0 0 None).

(** The loop over the references; the index moves its snapshots as it is asked. *)
Fixpoint build_chunks (d : disk) (ci : ChunkIndex) (tsc : TSCReader) (refs : list Z) (off : Z)
    : outcome dl_error (ChunkIndex * list chunkInfo) :=
  match refs with
  | [] => Ret (ci, [])
  | tscIdx :: refs' =>
      if (length (Entries tsc) <=? Z.to_nat tscIdx)%nat then Err (dl_invalid_ref tscIdx)
      else
        let c := Entries tsc !!! Z.to_nat tscIdx in
        let '(ci', loc) := FindChunk d ci (SHA256 c) in
        '(ci'', l) ← build_chunks d ci' tsc refs' (i64 (off + Size c));
        Ret (ci'', MkInfo (SHA256 c) (Size c) off loc :: l)
  end.

Definition zero_block (c : chunkInfo) : bool :=
  if ci_size c =? BLOB_MAX then bool_decide (ci_sha c = ZeroBlockSHA) else false.

(** The indices of the chunks to fetch. *)
Fixpoint remote_chunks (i : nat) (chunks : list chunkInfo) : list nat :=
  match chunks with
  | [] => []
  | c :: chunks' =>
      match localLoc c with
      | None => if zero_block c then remote_chunks (S i) chunks' else i :: remote_chunks (S i) chunks'
      | Some _ => remote_chunks (S i) chunks'
      end
  end.

Lemma zero_block_true c : zero_block c = true → ci_size c = BLOB_MAX ∧ ci_sha c = ZeroBlockSHA.
Proof.
  unfold zero_block. destruct (Z.eqb_spec (ci_size c) BLOB_MAX); [|done].
  intros Hs%bool_decide_eq_true_1. done.
Qed.

Definition range_of (c : chunkInfo) : rangeSpec := RangeSpec (remoteOffset c) (ci_size c).

(** The results of one batch, verified. *)
Fixpoint store_batch (chunks : list chunkInfo) (batch : list nat) (results : list (list byte))
    (m : gmap nat (list byte)) : outcome dl_error (gmap nat (list byte)) :=
  match batch, results with
  | idx :: batch', data :: results' =>
      let c := chunks !!! idx in
      if bool_decide (BlobSHA256 data = ci_sha c)
      then store_batch chunks batch' results' (<[idx := data]> m)
      else Err (dl_mismatch (remoteOffset c))
  | _, _ => Ret m
  end.

Definition batchSize : nat := 16.

(** The batches; every one takes at least one index, so as many as there are
    indices is fuel enough. *)
Fixpoint fetch_batches (fuel : nat) (url : gostring) (chunks : list chunkInfo) (remote : list nat)
    (m : gmap nat (list byte)) : M (gmap nat (list byte)) :=
  match fuel, remote with
  | S fuel', _ :: _ =>
      let batch := take batchSize remote in
      let! results := fetchRanges url ((λ idx, range_of (chunks !!! idx)) <$> batch) in
      let! m' := lift id (store_batch chunks batch results m) in
      fetch_batches fuel' url chunks (drop batchSize remote) m'
  | _, _ => ret m
  end.

(** The data of a chunk that is not a hole. *)
Definition chunk_data (url : gostring) (remoteData : gmap nat (list byte)) (i : nat) (c : chunkInfo)
    : M (list byte) :=
  match localLoc c with
  | Some loc =>
      λ w, match VerifyAndRead loc w with
           | (w', Ret data) => (w', Ret data)
           | (w', Panic) => (w', Panic)
           | (w', Err _) =>
               (let! fetched := fetchRanges url [range_of c] in
                match fetched with
                | [data] => if bool_decide (BlobSHA256 data = ci_sha c) then ret data
                            else raise dl_unreadable
                | _ => raise dl_unreadable
                end) w'
           end
  | None => match remoteData !! i with Some data => ret data | None => raise (dl_unavailable i) end
  end.

(** The write loop. *)
Fixpoint write_chunks (path url : gostring) (remoteData : gmap nat (list byte)) (i : nat)
    (chunks : list chunkInfo) : M unit :=
  match chunks with
  | [] => ret tt
  | c :: chunks' =>
      if zero_block c then
        let! _ := os e (OpSeekCurrent path (ci_size c)) in
        write_chunks path url remoteData (S i) chunks'
      else
        let! data := chunk_data url remoteData i c in
        let! _ := os e (OpWrite path data) in
        write_chunks path url remoteData (S i) chunks'
  end.

Definition downloadFile (d : disk) (ci : ChunkIndex) (outputPath url : gostring) (entry : TSMEntry)
    (tsc : TSCReader) : M ChunkIndex :=
  let! _ := os e (OpCreate outputPath) in
  let! _ := os e (OpTruncate outputPath (i64 (ESize entry))) in
  if EChunkCount entry =? 0 then ret ci
  else
    let! (ci', chunks) := lift id (build_chunks d ci tsc (ChunkRefs entry) 0) in
    let remote := remote_chunks 0 chunks in
    let! remoteData := fetch_batches (length remote) url chunks remote ∅ in
    let! _ := write_chunks outputPath url remoteData 0 chunks in
    ret ci'.

(** ** All files ([downloadFiles]) *)

Definition perm_0755 : Z := 493.
Definition perm_0644 : Z := 420.

Definition one_file (d : disk) (targetDir baseURL snapshotID : gostring) (downloadStart : Z)
    (tsc : TSCReader) (ci : ChunkIndex) (localCtimes : gmap gostring Z) (entry : TSMEntry)
    : M (ChunkIndex * gmap gostring Z) :=
  let outputPath := JoinPath targetDir (Path entry) in
  let tmpPath := outputPath ++ bs ".tmp" in
  let url := baseURL ++ bs "/bupdate/" ++ snapshotID ++ bs "/" ++ Path entry in
  let! _ := os e (OpMkdirAll (Dir outputPath) perm_0755) in
  let! ci' := on_error (downloadFile d ci tmpPath url entry tsc) (os_ e (OpRemove tmpPath)) in
  let! _ := os_ e (OpChmod tmpPath (Z.land (Mode entry) 4095)) in
  let! _ := os_ e (OpLchown tmpPath (UID entry) (GID entry)) in
  let! _ := os_ e (OpChtimes tmpPath (Mtime entry)) in
  let! _ := os e (OpRename tmpPath outputPath) in
  λ w, (w, Ret (ci', match lstat_ctime e w outputPath with
                     | Some c => <[Path entry := racyAdjustedCtime c downloadStart]> localCtimes
                     | None => localCtimes
                     end)).

Fixpoint downloadFiles (d : disk) (targetDir baseURL snapshotID : gostring) (downloadStart : Z)
    (tsc : TSCReader) (es : list TSMEntry) (ci : ChunkIndex) (localCtimes : gmap gostring Z)
    : M (gmap gostring Z) :=
  match es with
  | [] => ret localCtimes
  | entry :: es' =>
      if negb (Type_ entry =? EntryTypeFile)
      then downloadFiles d targetDir baseURL snapshotID downloadStart tsc es' ci localCtimes
      else
        let! (ci', localCtimes') :=
          one_file d targetDir baseURL snapshotID downloadStart tsc ci localCtimes entry in
        downloadFiles d targetDir baseURL snapshotID downloadStart tsc es' ci' localCtimes'
  end.

(** ** Directories and symlinks ([createNonFileEntries]) *)

(** [sort.Slice] by the length of the path; entries of one length may come in any
    order, the stable one here. *)
Definition path_shorter (a b : TSMEntry) : Prop := (length (Path a) ≤ length (Path b))%nat.
#[export] Instance path_shorter_dec : RelDecision path_shorter := λ a b, decide (_ ≤ _)%nat.
Definition by_path_length (es : list TSMEntry) : list TSMEntry := merge_sort path_shorter es.

Definition create_entry (targetDir : gostring) (entry : TSMEntry) : M unit :=
  let fullPath := JoinPath targetDir (Path entry) in
  if Type_ entry =? EntryTypeDir then
    let! _ := os e (OpMkdirAll fullPath (Z.land (Mode entry) 511)) in
    os_ e (OpChown fullPath (UID entry) (GID entry))
  else if Type_ entry =? EntryTypeSymlink then
    let! _ := os_ e (OpRemove fullPath) in
    let! _ := os e (OpSymlink (LinkTarget entry) fullPath) in
    os_ e (OpLchown fullPath (UID entry) (GID entry))
  else ret tt.

Fixpoint create_entries (targetDir : gostring) (es : list TSMEntry) : M unit :=
  match es with
  | [] => ret tt
  | entry :: es' =>
      let! _ := create_entry targetDir entry in
      create_entries targetDir es'
  end.

Definition createNonFileEntries (targetDir : gostring) (tsm : TSMReader) : M unit :=
  create_entries targetDir (by_path_length (rEntries tsm)).

(** ** [Download] *)

Record DownloadOptions := MkOptions {
  SnapshotID : gostring;
  SnapsDir : gostring;
  BaseURL : gostring;
  has_CreateTargetDir : bool;
  has_CleanupTargetDir : bool;
  has_PrepareForFiles : bool;
}.

Record DownloadResult := MkResult { SnapshotPath : gostring; AlreadyExists : bool }.

(** [filepath.Join(opts.SnapsDir, opts.SnapshotID)] *)
Definition snapshot_path (opts : DownloadOptions) : gostring :=
  JoinPath (SnapsDir opts) (SnapshotID opts).

Definition cleanup (opts : DownloadOptions) : M unit :=
  let p := snapshot_path opts in
  let! _ := os_ e (if has_CleanupTargetDir opts then OpCleanupTargetDir (p ++ bs ".tmp")
                   else OpRemoveAll (p ++ bs ".tmp")) in
  let! _ := os_ e (OpRemove (p ++ bs ".tsm.tmp")) in
  let! _ := os_ e (OpRemove (p ++ bs ".tsc.tmp")) in
  os_ e (OpRemove (p ++ bs ".stamp.tmp")).

(** The three metadata files. *)
Definition write_metadata (opts : DownloadOptions) (stampData tsmData tscData : list byte) : M unit :=
  let p := snapshot_path opts in
  let! _ := os e (OpWriteFile (p ++ bs ".stamp.tmp") stampData perm_0644) in
  let! _ := os e (OpWriteFile (p ++ bs ".tsm.tmp") tsmData perm_0644) in
  os e (OpWriteFile (p ++ bs ".tsc.tmp") tscData perm_0644).

(** The renames; only the first one's failure counts. *)
Definition publish (opts : DownloadOptions) : M unit :=
  let p := snapshot_path opts in
  let! _ := on_error (os e (OpRename (p ++ bs ".tmp") p)) (cleanup opts) in
  let! _ := os_ e (OpRename (p ++ bs ".stamp.tmp") (p ++ bs ".stamp")) in
  let! _ := os_ e (OpRename (p ++ bs ".tsm.tmp") (p ++ bs ".tsm")) in
  os_ e (OpRename (p ++ bs ".tsc.tmp") (p ++ bs ".tsc")).

(** Steps 5 to 9; whatever fails here is followed by the cleanup. *)
Definition fill_target (opts : DownloadOptions) (d : disk) (ci : ChunkIndex) (downloadStart : Z)
    (baseURL : gostring) (tsmReader : TSMReader) (tscReader : TSCReader)
    (stampData tsmData tscData : list byte) : M unit :=
  let p := snapshot_path opts in
  let! _ := if has_PrepareForFiles opts
            then os e (OpPrepareForFiles (p ++ bs ".tmp")
                   (Path <$> filter (λ x, Type_ x = EntryTypeFile) (rEntries tsmReader)))
            else ret tt in
  let! localCtimes := downloadFiles d (p ++ bs ".tmp") baseURL (SnapshotID opts) downloadStart
                        tscReader (rEntries tsmReader) ci ∅ in
  let! _ := createNonFileEntries (p ++ bs ".tmp") tsmReader in
  let! localTSMData := lift (λ _, dl_patch) (PatchEntryCtimes tsmData localCtimes) in
  write_metadata opts stampData localTSMData tscData.

(** [Download]. [open_index] is [OpenChunkIndex] on the snapshots' directory: its
    failure gives the empty index. *)
Definition Download (opts : DownloadOptions) (d : disk)
    (open_index : outcome unit ChunkIndex) (downloadStart : Z) : M DownloadResult :=
  λ w,
    let p := snapshot_path opts in
    if stat_exists e w p then (w, Ret (MkResult p true))
    else
      (let baseURL := TrimSuffix (BaseURL opts) (bs "/") in
       let base := baseURL ++ bs "/bupdate/" ++ SnapshotID opts in
       let! stampData := fetchFullFile (base ++ bs ".stamp") in
       let! tsmData := fetchFullFile (base ++ bs ".tsm") in
       let! tsmReader := lift (λ _, dl_parse_tsm) (ParseTSM tsmData) in
       let! tscData := fetchFullFile (base ++ bs ".tsc") in
       let! tscReader := lift (λ _, dl_parse_tsc) (ParseTSC tscData) in
       let! _ := os e (if has_CreateTargetDir opts
                       then OpCreateTargetDir (p ++ bs ".tmp") (TrimSpace stampData)
                       else OpMkdirAll (p ++ bs ".tmp") perm_0755) in
       let ci := match open_index with
                 | Ret ci => ci
                 | _ => MkIndex [] None None 0 0 0
                 end in
       let! _ := on_error (fill_target opts d ci downloadStart baseURL tsmReader tscReader
                             stampData tsmData tscData) (cleanup opts) in
       let! _ := publish opts in
       ret (MkResult p false)) w.

(** ** Running the monad *)

Lemma bind_ret_m {A B} (m : M A) (f : A → M B) w w' b :
  bind m f w = (w', Ret b) → ∃ w1 a, m w = (w1, Ret a) ∧ f a w1 = (w', Ret b).
Proof. unfold bind. destruct (m w) as [w1 [a|err|]]; naive_solver. Qed.

Lemma bind_run {A B} (m : M A) (f : A → M B) w w1 a :
  m w = (w1, Ret a) → bind m f w = f a w1.
Proof. unfold bind. by intros ->. Qed.

Lemma lift_ret {E A} (f : E → dl_error) (m : outcome E A) w w' a :
  lift f m w = (w', Ret a) → w' = w ∧ m = Ret a.
Proof. unfold lift. destruct m; cbn; naive_solver. Qed.

Lemma os_ret op w w' u :
  os e op w = (w', Ret u) → files w' = apply_op e op (files w).
Proof. unfold os. destruct (fails e w op); [done|]. by intros [= <-]. Qed.

(** What only reads: the files stay as they are. *)
Definition reads {A} (m : M A) : Prop := ∀ w, files (m w).1 = files w ∧ trace (m w).1 = trace w.

Lemma reads_ret {A} (a : A) : reads (ret a). Proof. done. Qed.
Lemma reads_raise {A} err : reads (raise (A := A) err). Proof. done. Qed.
Lemma reads_lift {E A} (f : E → dl_error) (m : outcome E A) : reads (lift f m). Proof. done. Qed.
Lemma reads_bind {A B} (m : M A) (f : A → M B) : reads m → (∀ a, reads (f a)) → reads (bind m f).
Proof.
  intros Hm Hf w. specialize (Hm w). unfold bind. destruct (m w) as [w1 [a|err|]]; cbn in *; [|done..].
  destruct (Hf a w1) as [-> ->]. done.
Qed.
Lemma reads_client r : reads (client_do r). Proof. done. Qed.

Lemma reads_fetchRanges url ranges : reads (fetchRanges url ranges).
Proof.
  induction ranges as [|r ranges IH]; cbn [fetchRanges]; [apply reads_ret|].
  apply reads_bind; [apply reads_client|]. intros resp. case_match; [apply reads_raise|].
  apply reads_bind; [apply reads_lift|]. intros data. apply reads_bind; [done|].
  intros rest. apply reads_ret.
Qed.

Lemma reads_VerifyAndRead loc : reads (VerifyAndRead loc).
Proof.
  unfold VerifyAndRead. apply reads_bind.
  - intros w. unfold ReadData. by repeat case_match.
  - intros data. case_match; [apply reads_ret|apply reads_raise].
Qed.

Lemma reads_chunk_data url m i c : reads (chunk_data url m i c).
Proof.
  unfold chunk_data. destruct (localLoc c) as [loc|].
  - intros w. pose proof (reads_VerifyAndRead loc w) as Hv.
    destruct (VerifyAndRead loc w) as [w1 [data|err|]]; cbn [fst] in *; [done| |done].
    assert (reads (let! fetched := fetchRanges url [range_of c] in
       match fetched with
       | [data] => if bool_decide (BlobSHA256 data = ci_sha c) then ret data else raise dl_unreadable
       | _ => raise dl_unreadable
       end)) as Hr.
    { apply reads_bind; [apply reads_fetchRanges|]. intros [|x [|y l]]; try apply reads_raise.
      case_match; [apply reads_ret|apply reads_raise]. }
    destruct (Hr w1) as [-> ->]. exact Hv.
  - destruct (m !! i); [apply reads_ret|apply reads_raise].
Qed.

Lemma reads_fetch_batches fuel url chunks remote m : reads (fetch_batches fuel url chunks remote m).
Proof.
  revert remote m. induction fuel as [|fuel IH]; intros remote m; cbn [fetch_batches]; [apply reads_ret|].
  destruct remote as [|i remote]; [apply reads_ret|].
  apply reads_bind; [apply reads_fetchRanges|]. intros results.
  apply reads_bind; [apply reads_lift|]. intros m'. apply IH.
Qed.

(** ** Only verified data is written *)

(** A location answers for the chunk it was looked up for. *)
Lemma find_loop_sha fuel d ci sha i ci' loc :
  find_loop fuel d ci sha i = (ci', Some loc) → cl_SHA256 loc = sha.
Proof.
  revert ci i. induction fuel as [|fuel IH]; intros ci i; cbn [find_loop]; [done|].
  destruct (i <? length (snaps ci))%nat; [|done].
  set (ci1 := if tscLoaded _ then _ else _). destruct (s_tsc (snaps ci1 !!! i)) as [v|]; [|apply IH].
  destruct (ChunkIndex.lookup v sha) as [size|]; [|apply IH].
  set (ci2 := if locBuilt _ then _ else _).
  destruct (locMap (snaps ci2 !!! i) ≫= _) as [l|]; [|apply IH]. by intros [= _ <-].
Qed.

Lemma FindChunk_sha d ci sha loc : (FindChunk d ci sha).2 = Some loc → cl_SHA256 loc = sha.
Proof.
  unfold FindChunk. destruct (bloom_rejects ci sha); [done|]. destruct (is_absent ci sha); [done|].
  destruct (find_loop _ d ci sha 0) as [ci' [l|]] eqn:Hf; [|done]. intros [= <-].
  by eapply find_loop_sha.
Qed.

Definition loc_sha_ok (c : chunkInfo) : Prop :=
  ∀ loc, localLoc c = Some loc → cl_SHA256 loc = ci_sha c.

(** The chunks of a file are the entries its references name. *)
Definition info_of (tsc : TSCReader) (i : Z) (c : chunkInfo) : Prop :=
  ∃ t, Entries tsc !! Z.to_nat i = Some t ∧ ci_sha c = SHA256 t ∧ ci_size c = Size t ∧ loc_sha_ok c.

Lemma build_chunks_spec d ci tsc refs off ci' l :
  build_chunks d ci tsc refs off = Ret (ci', l) → Forall2 (info_of tsc) refs l.
Proof.
  revert ci off ci' l. induction refs as [|i refs IH]; intros ci off ci' l; cbn [build_chunks].
  { intros [= <- <-]. constructor. }
  destruct (length (Entries tsc) <=? Z.to_nat i)%nat eqn:Hi; [done|].
  destruct (FindChunk d ci _) as [ci1 loc] eqn:Hfind. intros Hb.
  apply bind_ret_inv in Hb as ([ci2 l'] & Hb & [= <- <-]). apply IH in Hb.
  constructor; [|done]. destruct (lookup_lt_is_Some_2 (Entries tsc) (Z.to_nat i)) as [t Ht]; [lia|].
  exists t. rewrite (list_lookup_total_correct _ _ _ Ht) in Hfind |- *. split_and!; try done.
  intros l0 [= ->]. cbn [ci_sha]. eapply (FindChunk_sha d ci). by rewrite Hfind.
Qed.

Definition verified (chunks : list chunkInfo) (m : gmap nat (list byte)) : Prop :=
  ∀ i data, m !! i = Some data → BlobSHA256 data = ci_sha (chunks !!! i).

Lemma store_batch_verified chunks batch results m m' :
  store_batch chunks batch results m = Ret m' → verified chunks m → verified chunks m'.
Proof.
  revert results m. induction batch as [|i batch IH]; intros results m; cbn [store_batch].
  { by intros [= <-]. }
  destruct results as [|data results]; [by intros [= <-]|].
  case_bool_decide as Hs; [|done]. intros Hb Hv. eapply IH; [exact Hb|].
  intros j x Hj. destruct (decide (i = j)) as [<-|].
  - rewrite lookup_insert_eq in Hj. by injection Hj as <-.
  - rewrite lookup_insert_ne in Hj by done. by apply Hv.
Qed.

Lemma fetch_batches_verified fuel url chunks remote m w w' m' :
  fetch_batches fuel url chunks remote m w = (w', Ret m') → verified chunks m → verified chunks m'.
Proof.
  revert remote m w. induction fuel as [|fuel IH]; intros remote m w; cbn [fetch_batches].
  { by intros [= _ <-]. }
  destruct remote as [|i remote]; [by intros [= _ <-]|]. intros Hb Hv.
  apply bind_ret_m in Hb as (w1 & results & _ & Hb).
  apply bind_ret_m in Hb as (w2 & m1 & Hl & Hb). apply lift_ret in Hl as [_ Hl].
  eapply IH; [exact Hb|]. by eapply store_batch_verified.
Qed.

Lemma VerifyAndRead_ret loc w w' data :
  VerifyAndRead loc w = (w', Ret data) → BlobSHA256 data = cl_SHA256 loc.
Proof.
  unfold VerifyAndRead. intros Hb. apply bind_ret_m in Hb as (w1 & x & _ & Hb).
  case_bool_decide as Hs; [|done]. by injection Hb as _ <-.
Qed.

Lemma chunk_data_verified url chunks m i c w w' data :
  verified chunks m → chunks !! i = Some c → loc_sha_ok c →
  chunk_data url m i c w = (w', Ret data) → BlobSHA256 data = ci_sha c.
Proof.
  intros Hv Hc Hloc. unfold chunk_data. destruct (localLoc c) as [loc|] eqn:Hl.
  - destruct (VerifyAndRead loc w) as [w1 [x|err|]] eqn:Hvr; [| |done].
    + intros [= _ <-]. rewrite (VerifyAndRead_ret _ _ _ _ Hvr). by apply Hloc.
    + intros Hb. apply bind_ret_m in Hb as (w2 & [|x [|y l]] & _ & Hb); [done| |done].
      case_bool_decide; [|done]. by injection Hb as _ <-.
  - destruct (m !! i) as [x|] eqn:Hx; [|done]. intros [= _ <-]. rewrite (Hv _ _ Hx).
    by rewrite (list_lookup_total_correct _ _ _ Hc).
Qed.

(** What writing at the end of what was written so far does to a file that is all
    zeros behind it. *)
Definition zeros (n : nat) : list byte := replicate n Byte.x00.

Lemma length_zeros n : length (zeros n) = n.
Proof. apply length_replicate. Qed.

Lemma file_write_front f pre k data :
  o_data f = pre ++ zeros k → o_pos f = length pre → (length data ≤ k)%nat →
  o_data (file_write f data) = (pre ++ data) ++ zeros (k - length data) ∧
  o_pos (file_write f data) = length (pre ++ data).
Proof.
  intros Hd Hp Hk. unfold file_write. cbn [o_data o_pos]. rewrite Hd, Hp, !length_app.
  split; [|done]. rewrite length_zeros.
  replace (length pre - (length pre + k))%nat with 0%nat by lia. cbn [replicate]. rewrite app_nil_r.
  rewrite take_app_length, drop_app. rewrite drop_ge by lia.
  replace (length pre + length data - length pre)%nat with (length data) by lia.
  unfold zeros. rewrite drop_replicate. by rewrite <- app_assoc.
Qed.

Lemma file_seek_front f pre k n :
  o_data f = pre ++ zeros k → o_pos f = length pre → (n ≤ k)%nat →
  o_data (file_seek f (Z.of_nat n)) = (pre ++ zeros n) ++ zeros (k - n) ∧
  o_pos (file_seek f (Z.of_nat n)) = length (pre ++ zeros n).
Proof.
  intros Hd Hp Hk. unfold file_seek. cbn [o_data o_pos]. rewrite Hd, Hp, length_app, length_zeros.
  split; [|lia]. rewrite <- app_assoc. f_equal. unfold zeros. rewrite <- replicate_add. f_equal. lia.
Qed.

(** The write loop leaves pieces with the chunks' digests, one after the other. *)
Lemma write_chunks_pieces path url m chunks : ∀ i rest w w' f,
  verified chunks m → rest = drop i chunks → Forall loc_sha_ok rest →
  files w !! path = Some f →
  write_chunks path url m i rest w = (w', Ret tt) →
  ∃ f' pieces, files w' !! path = Some f' ∧
    Forall2 (λ c p, BlobSHA256 p = ci_sha c) rest pieces ∧
    ∀ pre, o_data f = pre ++ zeros (length (concat pieces)) → o_pos f = length pre →
      o_data f' = pre ++ concat pieces.
Proof.
  intros i rest. revert i. induction rest as [|c rest IH]; intros i w w' f Hv Hrest Hloc Hf; cbn [write_chunks].
  { intros [= <-]. exists f, []. split; [done|]. split; [constructor|]. intros pre Hd _. exact Hd. }
  apply Forall_cons in Hloc as [Hlc Hloc].
  assert (chunks !! i = Some c) as Hci.
  { rewrite <- (Nat.add_0_r i), <- lookup_drop, <- Hrest. done. }
  assert (rest = drop (S i) chunks) as Hrest'.
  { replace (S i) with (i + 1)%nat by lia. rewrite <- drop_drop, <- Hrest. done. }
  destruct (zero_block c) eqn:Hz.
  - intros Hb. apply bind_ret_m in Hb as (w1 & [] & Ho & Hb). apply os_ret in Ho. cbn [apply_op] in Ho.
    apply zero_block_true in Hz as [Hsz Hsha].
    assert (Z.of_nat (Z.to_nat BLOB_MAX) = BLOB_MAX) as Hbm by (apply Z2Nat.id; pose proof BLOB_MAX_val; lia).
    destruct (IH (S i) w1 w' (file_seek f (ci_size c)) Hv Hrest' Hloc) as (f' & ps & Hf' & Hps & Hd); [|exact Hb|].
    { rewrite Ho, lookup_alter_eq, Hf. done. }
    exists f', (zeros (Z.to_nat BLOB_MAX) :: ps). split; [done|]. split.
    { constructor; [|done]. rewrite Hsha. reflexivity. }
    intros pre Hpre Hpos. cbn [concat] in Hpre |- *. rewrite length_app, length_zeros in Hpre.
    destruct (file_seek_front f pre _ (Z.to_nat BLOB_MAX) Hpre Hpos) as [H1 H2]; [lia|].
    rewrite Hbm in H1, H2. rewrite app_assoc. apply Hd; rewrite Hsz; [|exact H2].
    rewrite H1. do 2 f_equal. lia.
  - intros Hb. apply bind_ret_m in Hb as (w1 & data & Hdat & Hb).
    apply bind_ret_m in Hb as (w2 & [] & Ho & Hb). apply os_ret in Ho. cbn [apply_op] in Ho.
    pose proof (chunk_data_verified _ _ _ _ _ _ _ _ Hv Hci Hlc Hdat) as Hsha.
    pose proof (proj1 (reads_chunk_data url m i c w)) as Hsame. rewrite Hdat in Hsame. cbn [fst] in Hsame.
    destruct (IH (S i) w2 w' (file_write f data) Hv Hrest' Hloc) as (f' & ps & Hf' & Hps & Hd); [|exact Hb|].
    { rewrite Ho, lookup_alter_eq, Hsame, Hf. done. }
    exists f', (data :: ps). split; [done|]. split; [by constructor|].
    intros pre Hpre Hpos. cbn [concat] in Hpre |- *. rewrite length_app in Hpre.
    destruct (file_write_front f pre _ data Hpre Hpos) as [H1 H2]; [lia|].
    rewrite app_assoc. apply Hd; [|exact H2]. rewrite H1. do 2 f_equal. lia.
Qed.
(** ** A peer that serves the file *)

Definition slice (contents : list byte) (off n : nat) : list byte := take n (drop off contents).

Definition serves (url : gostring) (contents : list byte) : Prop :=
  ∀ w off n, (0 < n)%nat → (off + n ≤ length contents)%nat →
    peer e w (Request url (Some (Z.of_nat off, Z.of_nat (off + n) - 1)))
    = Ret (Reply StatusPartialContent (Ret (slice contents off n))).

(** What can be read locally, and a run of zeros, is told from the file's pieces by
    its digest. *)
Definition collision_free (pieces : list (list byte)) : Prop :=
  ∀ p x, p ∈ pieces →
    (x = zeros (Z.to_nat BLOB_MAX) ∨
     ∃ w name data off n, read_local e w name = Some data ∧ x = slice data off n) →
    BlobSHA256 x = BlobSHA256 p → x = p.

(** A chunk of the file: its digest, its size and its place. *)
Record piece_info (contents : list byte) (c : chunkInfo) (p : list byte) : Prop := {
  pi_sha : ci_sha c = BlobSHA256 p;
  pi_size : ci_size c = Z.of_nat (length p);
  pi_nonempty : (0 < length p)%nat;
  pi_offset : 0 ≤ remoteOffset c;
  pi_inside : (Z.to_nat (remoteOffset c) + length p ≤ length contents)%nat;
  pi_slice : slice contents (Z.to_nat (remoteOffset c)) (length p) = p;
  pi_loc : loc_sha_ok c;
}.

(** The chunk list entry of a piece. *)
Definition piece_ref (tsc : TSCReader) (i : Z) (p : list byte) : Prop :=
  ∃ t, Entries tsc !! Z.to_nat i = Some t ∧ SHA256 t = BlobSHA256 p ∧
    Size t = Z.of_nat (length p) ∧ (0 < length p)%nat.

Lemma build_chunks_honest d tsc refs pieces : Forall2 (piece_ref tsc) refs pieces →
  ∀ pre ci, Z.of_nat (length (pre ++ concat pieces)) < 2 ^ 63 →
  ∃ ci' l, build_chunks d ci tsc refs (Z.of_nat (length pre)) = Ret (ci', l) ∧
    Forall2 (piece_info (pre ++ concat pieces)) l pieces.
Proof.
  induction 1 as [|i p refs pieces (t & Ht & Hsha & Hsz & Hp) Hrefs IH]; intros pre ci Hlen.
  { exists ci, []. split; [done|constructor]. }
  cbn [build_chunks concat] in *. pose proof (lookup_lt_Some _ _ _ Ht).
  replace (length (Entries tsc) <=? Z.to_nat i)%nat with false by lia.
  rewrite (list_lookup_total_correct _ _ _ Ht).
  destruct (FindChunk d ci (SHA256 t)) as [ci1 loc] eqn:Hf.
  rewrite app_assoc in Hlen |- *. destruct (IH (pre ++ p) ci1 Hlen) as (ci' & l & Hb & Hl).
  rewrite !length_app in Hlen.
  replace (i64 (Z.of_nat (length pre) + Size t)) with (Z.of_nat (length (pre ++ p))).
  2: { rewrite Hsz, length_app, i64_id by (unfold is_i64; lia). lia. }
  rewrite Hb, ret_bind. eexists ci', _. split; [reflexivity|]. constructor; [|exact Hl].
  split; cbn [ci_sha ci_size remoteOffset localLoc]; try done; rewrite ?Nat2Z.id.
  - lia.
  - rewrite !length_app. lia.
  - unfold slice. by rewrite <- app_assoc, drop_app_length, take_app_length.
  - intros l0 [= ->]. cbn [ci_sha]. eapply (FindChunk_sha d ci). by rewrite Hf.
Qed.

Lemma fetchRanges_honest url contents cs ps w :
  serves url contents → Forall2 (piece_info contents) cs ps → Z.of_nat (length contents) < 2 ^ 63 →
  ∃ w', fetchRanges url (range_of <$> cs) w = (w', Ret ps).
Proof.
  intros Hs Hcs Hlen. revert w. induction Hcs as [|c p cs ps Hc Hcs IH]; intros w; [by exists w|].
  destruct Hc as [Hsha Hsz Hne Hoff Hin Hsl Hloc].
  cbn [fmap list_fmap fetchRanges range_of rs_offset rs_size].
  assert (peer e w (Request url (Some (remoteOffset c, i64 (i64 (remoteOffset c + ci_size c) - 1))))
    = Ret (Reply StatusPartialContent (Ret p))) as Hpeer.
  { rewrite Hsz, !i64_id by (try rewrite i64_id; unfold is_i64; lia).
    replace (remoteOffset c) with (Z.of_nat (Z.to_nat (remoteOffset c))) at 1 by lia.
    replace (remoteOffset c + Z.of_nat (length p) - 1)
      with (Z.of_nat (Z.to_nat (remoteOffset c) + length p) - 1) by lia.
    rewrite Hs by lia. by rewrite Hsl. }
  unfold bind at 1, client_do. rewrite Hpeer, wrap_ret. cbn [rp_status rp_body].
  change (negb (StatusPartialContent =? StatusOK) && negb (StatusPartialContent =? StatusPartialContent))
    with false. cbv iota. unfold bind at 1, lift. rewrite wrap_ret.
  destruct (IH (World (trace w) (requests w ++ [Request url (Some (remoteOffset c, i64 (i64 (remoteOffset c + ci_size c) - 1)))]) (files w)))
    as [w' Hw']. unfold bind. rewrite Hw'. by exists w'.
Qed.

(** [m'] has the pieces that are in [m] and those at [idxs]. *)
Definition fetched (pieces : list (list byte)) (idxs : list nat) (m m' : gmap nat (list byte)) : Prop :=
  ∀ j, j ∈ idxs ∨ m !! j = Some (pieces !!! j) → m' !! j = Some (pieces !!! j).

Lemma store_batch_honest contents chunks pieces batch m :
  Forall2 (piece_info contents) chunks pieces → Forall (λ j, j < length chunks)%nat batch →
  ∃ m', store_batch chunks batch ((λ j, pieces !!! j) <$> batch) m = Ret m' ∧ fetched pieces batch m m'.
Proof.
  intros Hc Hb. revert m. induction Hb as [|j batch Hj Hb IH]; intros m.
  { exists m. split; [done|]. intros j [Hj|Hj]; [by apply elem_of_nil in Hj|done]. }
  cbn [fmap list_fmap store_batch].
  destruct (lookup_lt_is_Some_2 chunks j Hj) as [c Hcj].
  destruct (Forall2_lookup_l _ _ _ _ _ Hc Hcj) as (p & Hpj & Hpi).
  rewrite (list_lookup_total_correct _ _ _ Hcj), (list_lookup_total_correct _ _ _ Hpj).
  rewrite bool_decide_eq_true_2 by (symmetry; apply (pi_sha _ _ _ Hpi)).
  destruct (IH (<[j := p]> m)) as (m' & Hs & Hm'). exists m'. split; [exact Hs|].
  intros k Hk. apply Hm'. destruct (decide (k = j)) as [->|Hne].
  - right. by rewrite lookup_insert_eq, (list_lookup_total_correct _ _ _ Hpj).
  - rewrite lookup_insert_ne by done. rewrite elem_of_cons in Hk. naive_solver.
Qed.

Lemma fetch_batches_honest url contents chunks pieces fuel : ∀ remote m w,
  serves url contents → Forall2 (piece_info contents) chunks pieces →
  Z.of_nat (length contents) < 2 ^ 63 → Forall (λ j, j < length chunks)%nat remote →
  (length remote ≤ fuel)%nat →
  ∃ w' m', fetch_batches fuel url chunks remote m w = (w', Ret m') ∧ fetched pieces remote m m'.
Proof.
  induction fuel as [|fuel IH]; intros remote m w Hs Hc Hlen Hr Hfuel.
  { destruct remote; [|cbn in Hfuel; lia]. exists w, m. split; [done|].
    intros j [Hj|Hj]; [by apply elem_of_nil in Hj|done]. }
  destruct remote as [|i remote'] eqn:Hrem.
  { exists w, m. split; [done|]. intros j [Hj|Hj]; [by apply elem_of_nil in Hj|done]. }
  rewrite <- Hrem in *. assert (remote ≠ []) as Hne by (by rewrite Hrem).
  assert (fetch_batches (S fuel) url chunks remote m
    = let! results := fetchRanges url ((λ idx, range_of (chunks !!! idx)) <$> take batchSize remote) in
      let! m' := lift id (store_batch chunks (take batchSize remote) results m) in
      fetch_batches fuel url chunks (drop batchSize remote) m') as -> by (by rewrite Hrem).
  assert (Forall (λ j, j < length chunks)%nat (take batchSize remote)) as Hb by (by apply Forall_take).
  assert (Forall2 (piece_info contents) ((λ j, chunks !!! j) <$> take batchSize remote)
    ((λ j, pieces !!! j) <$> take batchSize remote)) as Hbp.
  { apply Forall2_fmap, Forall_Forall2_diag. eapply Forall_impl; [exact Hb|]. intros j Hj.
    destruct (lookup_lt_is_Some_2 chunks j Hj) as [c Hcj].
    destruct (Forall2_lookup_l _ _ _ _ _ Hc Hcj) as (p & Hpj & Hpi).
    by rewrite (list_lookup_total_correct _ _ _ Hcj), (list_lookup_total_correct _ _ _ Hpj). }
  destruct (fetchRanges_honest url contents _ _ w Hs Hbp Hlen) as [w1 Hw1].
  rewrite <- list_fmap_compose in Hw1. unfold compose in Hw1.
  destruct (store_batch_honest contents chunks pieces (take batchSize remote) m Hc Hb) as (m1 & Hst & Hm1).
  unfold bind at 1. rewrite Hw1. unfold bind at 1, lift. rewrite Hst, wrap_ret.
  destruct (IH (drop batchSize remote) m1 w1) as (w' & m' & Hw' & Hm'); try done.
  { by apply Forall_drop. }
  { rewrite length_drop. unfold batchSize. destruct remote; [done|]. cbn [length] in *. lia. }
  exists w', m'. split; [exact Hw'|]. intros j Hj. apply Hm'.
  destruct Hj as [Hj|Hj]; [|right; apply Hm1; by right].
  rewrite <- (take_drop batchSize remote) in Hj. apply elem_of_app in Hj as [Hj|Hj]; [|by left].
  right. apply Hm1. by left.
Qed.

Lemma remote_chunks_range i chunks :
  Forall (λ j, i ≤ j < i + length chunks)%nat (remote_chunks i chunks).
Proof.
  revert i. induction chunks as [|c chunks IH]; intros i; cbn [remote_chunks length]; [constructor|].
  assert (Forall (λ j, i ≤ j < i + S (length chunks))%nat (remote_chunks (S i) chunks)) as Hs.
  { eapply Forall_impl; [apply IH|]. cbn. lia. }
  destruct (localLoc c); [done|]. destruct (zero_block c); [done|]. constructor; [lia|done].
Qed.

Lemma remote_chunks_in i chunks j c :
  chunks !! j = Some c → localLoc c = None → zero_block c = false →
  (i + j)%nat ∈ remote_chunks i chunks.
Proof.
  revert i j. induction chunks as [|c' chunks IH]; intros i j Hj Hl Hz; [done|].
  cbn [remote_chunks]. destruct j as [|j].
  - injection Hj as ->. rewrite Hl, Hz, Nat.add_0_r. by left.
  - replace (i + S j)%nat with (S i + j)%nat by lia. pose proof (IH (S i) j Hj Hl Hz).
    destruct (localLoc c'); [done|]. destruct (zero_block c'); [done|]. by right.
Qed.

Lemma VerifyAndRead_result loc w :
  (∃ data name d off n, VerifyAndRead loc w = (w, Ret data) ∧ read_local e w name = Some d ∧
     data = slice d off n ∧ BlobSHA256 data = cl_SHA256 loc) ∨
  (∃ err, VerifyAndRead loc w = (w, Err err)).
Proof.
  unfold VerifyAndRead, bind, ReadData.
  destruct (read_local e w (Filename loc)) as [d|] eqn:Hr; [|by right; eexists].
  destruct (_ || _); [by right; eexists|].
  destruct (bool_decide (BlobSHA256 _ = cl_SHA256 loc)) eqn:Hb; [|by right; eexists].
  apply bool_decide_eq_true_1 in Hb. left. by eexists _, (Filename loc), d, _, _.
Qed.

Lemma chunk_data_honest url contents pieces m i c p w :
  serves url contents → collision_free pieces → Z.of_nat (length contents) < 2 ^ 63 →
  p ∈ pieces → piece_info contents c p →
  (localLoc c = None → m !! i = Some p) →
  ∃ w', chunk_data url m i c w = (w', Ret p).
Proof.
  intros Hs Hcf Hlen Hp Hpi Hm. unfold chunk_data.
  destruct (localLoc c) as [loc|] eqn:Hl; [|by rewrite Hm; [eexists|]].
  destruct (VerifyAndRead_result loc w) as [(data & name & d & off & n & -> & Hr & Hd & Hsha)|[err ->]].
  - exists w. do 2 f_equal. apply (Hcf p data Hp); [right; by eexists w, name, d, off, n|].
    rewrite Hsha. rewrite (pi_loc _ _ _ Hpi loc Hl). apply Hpi.
  - destruct (fetchRanges_honest url contents [c] [p] w Hs) as [w' Hw'];
      [by repeat constructor; apply Hpi|done|].
    exists w'. unfold bind. cbn [fmap list_fmap] in Hw'. rewrite Hw'.
    by rewrite bool_decide_eq_true_2 by (symmetry; apply (pi_sha _ _ _ Hpi)).
Qed.

Hypothesis never_fails : ∀ w op, fails e w op = false.

Lemma os_run op w : ∃ w', os e op w = (w', Ret tt) ∧ files w' = apply_op e op (files w).
Proof. unfold os. rewrite never_fails. by eexists. Qed.

Lemma write_chunks_honest path url contents pieces m rest ps :
  serves url contents → collision_free pieces → Z.of_nat (length contents) < 2 ^ 63 →
  Forall2 (piece_info contents) rest ps → (∀ p, p ∈ ps → p ∈ pieces) →
  ∀ i w f pre,
  (∀ j c, rest !! j = Some c → localLoc c = None → zero_block c = false →
     m !! (i + j)%nat = ps !! j) →
  files w !! path = Some f → o_data f = pre ++ zeros (length (concat ps)) → o_pos f = length pre →
  ∃ w' f', write_chunks path url m i rest w = (w', Ret tt) ∧ files w' !! path = Some f' ∧
    o_data f' = pre ++ concat ps.
Proof.
  intros Hs Hcf Hlen Hps. induction Hps as [|c p rest ps Hc Hrest IH]; intros Hin i w f pre Hm Hf Hd Hpos.
  { exists w, f. split; [done|]. split; [done|]. exact Hd. }
  cbn [write_chunks concat] in *. rewrite length_app in Hd.
  assert (∀ j c', rest !! j = Some c' → localLoc c' = None → zero_block c' = false →
    m !! (S i + j)%nat = ps !! j) as Hm'.
  { intros j c' Hj Hl Hz. replace (S i + j)%nat with (i + S j)%nat by lia. by apply (Hm (S j) c'). }
  assert (∀ q, q ∈ ps → q ∈ pieces) as Hin' by (intros q Hq; apply Hin; by right).
  assert (p ∈ pieces) as Hp by (apply Hin; by left).
  destruct (zero_block c) eqn:Hz.
  - destruct (zero_block_true _ Hz) as [Hsz Hsha].
    assert (zeros (Z.to_nat BLOB_MAX) = p) as Hzp.
    { apply (Hcf p _ Hp); [by left|]. rewrite <- (pi_sha _ _ _ Hc), Hsha. reflexivity. }
    destruct (os_run (OpSeekCurrent path (ci_size c)) w) as (w1 & Ho & Hf1). cbn [apply_op] in Hf1.
    destruct (file_seek_front f pre _ (length p) Hd Hpos) as [H1 H2]; [lia|].
    rewrite <- (pi_size _ _ _ Hc) in H1, H2.
    assert (zeros (length p) = p) as Hzl by (by rewrite <- Hzp at 1; rewrite length_zeros).
    rewrite Hzl in H1, H2.
    destruct (IH Hin' (S i) w1 (file_seek f (ci_size c)) (pre ++ p) Hm') as (w' & f' & Hw' & Hf' & Hd').
    { rewrite Hf1, lookup_alter_eq, Hf. done. }
    { rewrite H1. do 2 f_equal. lia. }
    { exact H2. }
    exists w', f'. rewrite (bind_run _ _ _ _ _ Ho). split; [exact Hw'|]. split; [done|].
    by rewrite Hd', <- app_assoc.
  - destruct (chunk_data_honest url contents pieces m i c p w Hs Hcf Hlen Hp Hc) as [w0 Hw0].
    { intros Hl. rewrite <- (Nat.add_0_r i). by apply (Hm 0%nat c). }
    pose proof (proj1 (reads_chunk_data url m i c w)) as Hsame. rewrite Hw0 in Hsame. cbn [fst] in Hsame.
    destruct (os_run (OpWrite path p) w0) as (w1 & Ho & Hf1). cbn [apply_op] in Hf1.
    destruct (file_write_front f pre _ p Hd Hpos) as [H1 H2]; [lia|].
    destruct (IH Hin' (S i) w1 (file_write f p) (pre ++ p) Hm') as (w' & f' & Hw' & Hf' & Hd').
    { rewrite Hf1, lookup_alter_eq, Hsame, Hf. done. }
    { rewrite H1. do 2 f_equal. lia. }
    { exact H2. }
    exists w', f'. rewrite (bind_run _ _ _ _ _ Hw0), (bind_run _ _ _ _ _ Ho).
    split; [exact Hw'|]. split; [done|]. by rewrite Hd', <- app_assoc.
Qed.
End download.

(** ** Which calls a step makes *)

(** [m] only makes calls that satisfy [P], whether they succeed or not. *)
Definition emits {A} (P : os_op → Prop) (m : M A) : Prop :=
  ∀ w, ∃ ops, trace (m w).1 = trace w ++ ops ∧ Forall (λ '(op, _), P op) ops.

Lemma emits_ret {A} P (a : A) : emits P (ret a).
Proof. intros w. exists []. by rewrite app_nil_r. Qed.
Lemma emits_raise {A} P err : emits P (raise (A := A) err).
Proof. intros w. exists []. by rewrite app_nil_r. Qed.
Lemma emits_reads {A} P (m : M A) : reads m → emits P m.
Proof. intros Hm w. exists []. destruct (Hm w) as [_ ->]. by rewrite app_nil_r. Qed.
Lemma emits_lift {E A} P (f : E → dl_error) (m : outcome E A) : emits P (lift f m).
Proof. apply emits_reads, reads_lift. Qed.
Lemma emits_os P e op : P op → emits P (os e op).
Proof.
  intros Hp w. unfold os. destruct (fails e w op); eexists [(op, _)]; cbn; (split; [done|]);
    by repeat constructor.
Qed.
Lemma emits_os_ P e op : P op → emits P (os_ e op).
Proof. intros Hp w. exact (emits_os P e op Hp w). Qed.
Lemma emits_bind {A B} P (m : M A) (f : A → M B) :
  emits P m → (∀ a, emits P (f a)) → emits P (bind m f).
Proof.
  intros Hm Hf w. destruct (Hm w) as (ops & Ht & Hops). unfold bind.
  destruct (m w) as [w1 [a|err|]]; cbn [fst] in *; [|by exists ops..].
  destruct (Hf a w1) as (ops' & Ht' & Hops'). exists (ops ++ ops'). rewrite Ht', Ht, app_assoc.
  split; [done|]. by apply Forall_app.
Qed.
Lemma emits_on_error {A} P (m : M A) h : emits P m → emits P h → emits P (on_error m h).
Proof.
  intros Hm Hh w. destruct (Hm w) as (ops & Ht & Hops). unfold on_error.
  destruct (m w) as [w1 [a|err|]]; cbn [fst] in *; [by exists ops| |by exists ops].
  destruct (Hh w1) as (ops' & Ht' & Hops'). exists (ops ++ ops'). rewrite Ht', Ht, app_assoc.
  split; [done|]. by apply Forall_app.
Qed.

(** The calls in a step, one after the other. *)
Ltac emits_tac :=
  repeat match goal with
  | |- emits _ (bind _ _) => apply emits_bind; [|intros ?]
  | |- emits _ (ret _) => apply emits_ret
  | |- emits _ (raise _) => apply emits_raise
  | |- emits _ (lift _ _) => apply emits_lift
  | |- emits _ (on_error _ _) => apply emits_on_error
  | |- emits _ (os _ _) => apply emits_os
  | |- emits _ (os_ _ _) => apply emits_os_
  | |- emits _ (if ?b then _ else _) => destruct b
  | |- emits _ (let '(_, _) := ?p in _) => destruct p
  end.

(** The paths a call changes. *)
Definition op_paths (op : os_op) : list gostring :=
  match op with
  | OpCreate p | OpTruncate p _ | OpSeekCurrent p _ | OpWrite p _ | OpWriteFile p _ _
  | OpMkdirAll p _ | OpRemove p | OpRemoveAll p | OpSymlink _ p | OpChmod p _ | OpChown p _ _
  | OpLchown p _ _ | OpChtimes p _ | OpCreateTargetDir p _ | OpCleanupTargetDir p
  | OpPrepareForFiles p _ => [p]
  | OpRename old new => [old; new]
  end.

(** The temporary names of a download, and what is below its temporary directory. *)
Definition below (dir q : gostring) : Prop :=
  ∃ rel, let o := JoinPath dir rel in q = o ∨ q = o ++ bs ".tmp" ∨ q = Dir o.
Definition staging (opts : DownloadOptions) (q : gostring) : Prop :=
  let p := snapshot_path opts in
  q = p ++ bs ".tmp" ∨ q = p ++ bs ".stamp.tmp" ∨ q = p ++ bs ".tsm.tmp" ∨ q = p ++ bs ".tsc.tmp" ∨
  below (p ++ bs ".tmp") q.
Definition staged (opts : DownloadOptions) (op : os_op) : Prop := Forall (staging opts) (op_paths op).

Section calls.
Context `{Digest}.
Variable e : env.
Variable dir : gostring.
Variable P : os_op → Prop.
Hypothesis P_below : ∀ op, Forall (below dir) (op_paths op) → P op.

Lemma emits_write_chunks path url m i chunks : below dir path → emits P (write_chunks e path url m i chunks).
Proof.
  intros Hb. revert i. induction chunks as [|c chunks IH]; intros i; cbn [write_chunks]; [apply emits_ret|].
  destruct (zero_block c).
  - emits_tac; [|apply IH]. apply P_below. by repeat constructor.
  - apply emits_bind; [apply emits_reads, reads_chunk_data|]. intros data.
    emits_tac; [|apply IH]. apply P_below. by repeat constructor.
Qed.

Lemma emits_one_file d baseURL id start tsc ci ct entry :
  emits P (one_file e d dir baseURL id start tsc ci ct entry).
Proof.
  assert (below dir (JoinPath dir (Path entry))) as H1 by (eexists; by left).
  assert (below dir (JoinPath dir (Path entry) ++ bs ".tmp")) as H2 by (eexists; right; by left).
  assert (below dir (Dir (JoinPath dir (Path entry)))) as H3 by (eexists; right; by right).
  unfold one_file, downloadFile. emits_tac; try (apply P_below; by repeat constructor).
  - apply emits_reads, reads_fetch_batches.
  - by apply emits_write_chunks.
  - intros w. exists []. by rewrite app_nil_r.
Qed.

Lemma emits_downloadFiles d baseURL id start tsc es ci ct :
  emits P (downloadFiles e d dir baseURL id start tsc es ci ct).
Proof.
  revert ci ct. induction es as [|entry es IH]; intros ci ct; cbn [downloadFiles]; [apply emits_ret|].
  destruct (negb _); [apply IH|]. apply emits_bind; [apply emits_one_file|]. intros [ci' ct']. apply IH.
Qed.

Lemma emits_createNonFileEntries tsm : emits P (createNonFileEntries e dir tsm).
Proof.
  unfold createNonFileEntries. generalize (by_path_length (rEntries tsm)) as es.
  induction es as [|entry es IH]; cbn [create_entries]; [apply emits_ret|].
  apply emits_bind; [|intros _; exact IH]. unfold create_entry.
  assert (below dir (JoinPath dir (Path entry))) as H1 by (eexists; by left).
  emits_tac; apply P_below; by repeat constructor.
Qed.
End calls.

Section publishing.
Context `{Digest}.
Variable e : env.
Variable opts : DownloadOptions.

Lemma below_staged op :
  Forall (below (snapshot_path opts ++ bs ".tmp")) (op_paths op) → staged opts op.
Proof. intros Hb. eapply Forall_impl; [exact Hb|]. intros q Hq. by do 4 right. Qed.

Ltac staged_tac :=
  try match goal with |- staged _ (if ?b then _ else _) => destruct b end;
  unfold staged; cbn [op_paths];
  repeat first [apply Forall_nil_2 | apply Forall_cons_2]; unfold staging; tauto.

Lemma emits_cleanup : emits (staged opts) (cleanup e opts).
Proof. unfold cleanup. emits_tac; staged_tac. Qed.

Lemma emits_fill d ci start baseURL tsm tsc stampData tsmData tscData :
  emits (staged opts) (fill_target e opts d ci start baseURL tsm tsc stampData tsmData tscData).
Proof.
  unfold fill_target, write_metadata. emits_tac; try staged_tac.
  - apply emits_downloadFiles, below_staged.
  - apply emits_createNonFileEntries, below_staged.
Qed.

(** The call that publishes a snapshot. *)
Definition final_rename : os_op :=
  let p := snapshot_path opts in OpRename (p ++ bs ".tmp") p.


Lemma os_ret_trace op w w' u :
  os e op w = (w', Ret u) → trace w' = trace w ++ [(op, true)].
Proof. unfold os. destruct (fails e w op); [done|]. by intros [= <-]. Qed.

(** The calls of a run, by its result: nothing when the snapshot exists; when the
    run fails, only calls on temporary names, and at most a failed final rename; and
    when it succeeds, the final rename and those of the metadata files come last,
    the manifest being the peer's with patched change times. *)
Definition published (ops : list (os_op * bool)) (r : outcome dl_error DownloadResult) : Prop :=
  let p := snapshot_path opts in
  match r with
  | Ret (MkResult q true) => q = p ∧ ops = []
  | Ret (MkResult q false) =>
      q = p ∧ ∃ ops1 b1 b2 b3,
        ops = ops1 ++ [(final_rename, true);
                       (OpRename (p ++ bs ".stamp.tmp") (p ++ bs ".stamp"), b1);
                       (OpRename (p ++ bs ".tsm.tmp") (p ++ bs ".tsm"), b2);
                       (OpRename (p ++ bs ".tsc.tmp") (p ++ bs ".tsc"), b3)] ∧
        Forall (λ '(op, _), staged opts op) ops1 ∧
        ∃ tsmData tsm ctimes localData,
          ParseTSM tsmData = Ret tsm ∧ PatchEntryCtimes tsmData ctimes = Ret localData ∧
          (OpWriteFile (p ++ bs ".tsm.tmp") localData perm_0644, true) ∈ ops1
  | Err _ => Forall (λ '(op, ok), staged opts op ∨ (op = final_rename ∧ ok = false)) ops
  | Panic => Forall (λ '(op, _), staged opts op) ops
  end.

Definition publishes (m : M DownloadResult) : Prop :=
  ∀ w, ∃ ops, trace (m w).1 = trace w ++ ops ∧ published ops (m w).2.

Lemma staged_err ops err : Forall (λ '(op, _), staged opts op) ops → published ops (Err err).
Proof. intros Hs. eapply Forall_impl; [exact Hs|]. intros [op ok]. by left. Qed.

Lemma published_app ops1 ops2 r :
  (∀ q, r ≠ Ret (MkResult q true)) → Forall (λ '(op, _), staged opts op) ops1 → published ops2 r →
  published (ops1 ++ ops2) r.
Proof.
  intros Hr H1 H2. unfold published in *. destruct r as [[q []]|err|].
  - by destruct (Hr q).
  - destruct H2 as (Hq & l & b1 & b2 & b3 & -> & Hl & x & r & c & y & Hx & Hy & Hin).
    split; [done|]. exists (ops1 ++ l), b1, b2, b3. rewrite app_assoc. split; [done|].
    split; [by apply Forall_app|]. exists x, r, c, y. split_and!; [done|done|].
    apply elem_of_app. by right.
  - apply Forall_app. split; [|done]. eapply Forall_impl; [exact H1|]. intros [op ok]. by left.
  - by apply Forall_app.
Qed.

Lemma publishes_bind {A} (m : M A) (f : A → M DownloadResult) :
  emits (staged opts) m → (∀ w a q, (f a w).2 ≠ Ret (MkResult q true)) →
  (∀ a, (∃ w w', m w = (w', Ret a)) → publishes (f a)) → publishes (bind m f).
Proof.
  intros Hm Hr Hf w. destruct (Hm w) as (ops & Ht & Hops). unfold bind.
  destruct (m w) as [w1 [a|err|]] eqn:Hmw; cbn [fst snd] in *.
  - destruct (Hf a ltac:(by eexists _, _) w1) as (ops' & Ht' & Hp). exists (ops ++ ops').
    rewrite Ht', Ht, app_assoc. split; [done|]. by apply published_app.
  - exists ops. split; [done|]. by apply staged_err.
  - by exists ops.
Qed.

(** Never the answer for an existing snapshot, from the first fetch on. *)
Lemma bind_never {A} (m : M A) (f : A → M DownloadResult) :
  (∀ w a q, (f a w).2 ≠ Ret (MkResult q true)) → ∀ w q, (bind m f w).2 ≠ Ret (MkResult q true).
Proof. intros Hf w q. unfold bind. destruct (m w) as [w1 [a|err|]]; [apply Hf|done..]. Qed.

Lemma publish_run w :
  ∃ ops, trace (publish e opts w).1 = trace w ++ ops ∧
    match (publish e opts w).2 with
    | Ret _ => let p := snapshot_path opts in ∃ b1 b2 b3,
        ops = [(final_rename, true);
               (OpRename (p ++ bs ".stamp.tmp") (p ++ bs ".stamp"), b1);
               (OpRename (p ++ bs ".tsm.tmp") (p ++ bs ".tsm"), b2);
               (OpRename (p ++ bs ".tsc.tmp") (p ++ bs ".tsc"), b3)]
    | Err _ => Forall (λ '(op, ok), staged opts op ∨ (op = final_rename ∧ ok = false)) ops
    | Panic => False
    end.
Proof.
  destruct (fails e w final_rename) eqn:Hf.
  - set (w1 := World (trace w ++ [(final_rename, false)]) (requests w) (files w)).
    assert (publish e opts w = ((cleanup e opts w1).1, Err (dl_os final_rename))) as ->.
    { unfold publish, bind at 1, on_error, os at 1. fold final_rename. by rewrite Hf. }
    destruct (emits_cleanup w1) as (ops & Ht & Hops). unfold w1 in Ht at 2. cbn [trace] in Ht.
    rewrite <- app_assoc in Ht. eexists. split; [exact Ht|]. cbn [snd app].
    apply Forall_cons. split; [by right|]. eapply Forall_impl; [exact Hops|]. intros [op ok]. by left.
  - unfold publish, bind, on_error, os_, os. fold final_rename. rewrite Hf. cbn [fst snd trace requests files].
    repeat (match goal with |- context [fails e ?w' ?op] => destruct (fails e w' op) end;
      cbn [fst snd trace requests files]);
      (eexists; split; [rewrite <- !app_assoc; cbn [app]; reflexivity|]; by do 3 eexists).
Qed.

Lemma publishes_tail d ci start baseURL tsm tsc stampData tsmData tscData :
  ParseTSM tsmData = Ret tsm →
  publishes (let! _ := on_error (fill_target e opts d ci start baseURL tsm tsc stampData tsmData tscData)
                        (cleanup e opts) in
             let! _ := publish e opts in ret (MkResult (snapshot_path opts) false)).
Proof.
  intros Hparse w. set (tail := λ _ : unit, bind _ _). set (m := on_error _ _).
  pose proof (emits_fill d ci start baseURL tsm tsc stampData tsmData tscData w) as (ops & Ht & Hops).
  destruct (fill_target e opts d ci start baseURL tsm tsc stampData tsmData tscData w)
    as [w1 [[]|err|]] eqn:Hfill; cbn [fst snd] in *.
  - assert (m w = (w1, Ret tt)) as Hm by (unfold m, on_error; by rewrite Hfill).
    rewrite (bind_run _ _ _ _ _ Hm). unfold tail.
    destruct (publish_run w1) as (ops2 & Ht2 & Hr).
    destruct (publish e opts w1) as [w2 [u|err|]] eqn:Hpub; cbn [fst snd] in *; [| |done].
    + rewrite (bind_run _ _ _ _ _ Hpub). destruct Hr as (b1 & b2 & b3 & ->). eexists.
      split; [unfold ret; cbn [fst]; by rewrite Ht2, Ht, <- app_assoc|].
      match goal with |- published ?l _ => change (published l (Ret (MkResult (snapshot_path opts) false))) end.
      unfold published. split; [done|]. exists ops, b1, b2, b3. split; [done|]. split; [done|].
      unfold fill_target in Hfill.
      apply bind_ret_m in Hfill as (v1 & u1 & H1 & Hfill).
      apply bind_ret_m in Hfill as (v2 & ct & H2 & Hfill).
      apply bind_ret_m in Hfill as (v3 & u3 & H3 & Hfill).
      apply bind_ret_m in Hfill as (v4 & localData & H4 & Hfill). apply lift_ret in H4 as [-> H4].
      exists tsmData, tsm, ct, localData. split; [done|]. split; [done|].
      unfold write_metadata in Hfill.
      apply bind_ret_m in Hfill as (v5 & u5 & H5 & Hfill). apply os_ret_trace in H5.
      apply bind_ret_m in Hfill as (v6 & u6 & H6 & Hfill). apply os_ret_trace in H6.
      apply os_ret_trace in Hfill.
      assert (∃ opsA, trace v3 = trace w ++ opsA) as [opsA HA].
      { assert (emits (staged opts) (if has_PrepareForFiles opts
            then os e (OpPrepareForFiles (snapshot_path opts ++ bs ".tmp")
                   (Path <$> filter (λ x, Type_ x = EntryTypeFile) (rEntries tsm)))
            else ret tt)) as He1 by (emits_tac; staged_tac).
        destruct (He1 w) as (o1 & Ho1 & _). rewrite H1 in Ho1.
        destruct (emits_downloadFiles e _ (staged opts) below_staged d baseURL (SnapshotID opts) start
          tsc (rEntries tsm) ci ∅ v1) as (o2 & Ho2 & _). rewrite H2 in Ho2.
        destruct (emits_createNonFileEntries e _ (staged opts) below_staged tsm v2) as (o3 & Ho3 & _).
        rewrite H3 in Ho3. cbn [fst] in *. exists (o1 ++ o2 ++ o3).
        by rewrite Ho3, Ho2, Ho1, <- !app_assoc. }
      rewrite Hfill, H6, H5, HA, <- !app_assoc in Ht. apply app_inv_head in Ht. rewrite <- Ht.
      apply elem_of_app. right. right. left.
    + assert (bind (publish e opts) (λ _, ret (MkResult (snapshot_path opts) false)) w1 = (w2, Err err)) as ->
        by (unfold bind; by rewrite Hpub).
      exists (ops ++ ops2). split; [cbn [fst]; by rewrite Ht2, Ht, app_assoc|]. apply Forall_app.
      split; [|done]. eapply Forall_impl; [exact Hops|]. intros [op ok]. by left.
  - assert (bind m tail w = ((cleanup e opts w1).1, Err err)) as ->
      by (unfold bind, m, on_error; by rewrite Hfill).
    destruct (emits_cleanup w1) as (ops2 & Ht2 & Hops2). exists (ops ++ ops2).
    split; [cbn [fst]; by rewrite Ht2, Ht, app_assoc|]. apply staged_err. by apply Forall_app.
  - assert (bind m tail w = (w1, Panic)) as -> by (unfold bind, m, on_error; by rewrite Hfill).
    by exists ops.
Qed.
End publishing.

(** ** Properties *)

(** only verified data reaches a file: whatever the peer answers, whatever the
    local files hold and whichever calls fail, if downloading a file succeeds then
    the file is made of pieces, one per chunk reference, each with the digest that
    the chunk list gives for the reference; when they add up to the manifest's size
    there is nothing else in it, and a file without chunks is all zeros. *)
Theorem download_file_verified `{Digest} e d ci path url entry tsc w w' ci'
    (Hsize : 0 ≤ ESize entry < 2 ^ 63)
    (Hrun : downloadFile e d ci path url entry tsc w = (w', Ret ci')) :
  ∃ f, files w' !! path = Some f ∧
    if EChunkCount entry =? 0 then o_data f = zeros (Z.to_nat (ESize entry))
    else ∃ pieces,
      Forall2 (λ i p, ∃ c, Entries tsc !! Z.to_nat i = Some c ∧ BlobSHA256 p = SHA256 c)
        (ChunkRefs entry) pieces ∧
      (Z.of_nat (length (concat pieces)) = ESize entry → o_data f = concat pieces).
Proof.
  unfold downloadFile in Hrun.
  apply bind_ret_m in Hrun as (w1 & [] & H1 & Hrun). apply os_ret in H1. cbn [apply_op] in H1.
  apply bind_ret_m in Hrun as (w2 & [] & H2 & Hrun). apply os_ret in H2. cbn [apply_op] in H2.
  rewrite i64_id in H2 by (unfold is_i64; lia).
  rewrite H1, alter_insert_eq in H2.
  set (f0 := file_truncate _ _) in H2.
  assert (o_data f0 = zeros (Z.to_nat (ESize entry)) ∧ o_pos f0 = 0%nat) as [Hf0 Hp0].
  { unfold f0, file_truncate. cbn [o_data o_pos app length]. rewrite Nat.sub_0_r.
    split; [|done]. rewrite take_ge; [done|]. by rewrite length_replicate. }
  assert (files w2 !! path = Some f0) as Hf by (by rewrite H2, lookup_insert_eq).
  destruct (EChunkCount entry =? 0) eqn:Hc.
  { injection Hrun as <- _. by exists f0. }
  apply bind_ret_m in Hrun as (w3 & [ci1 chunks] & Hb & Hrun). apply lift_ret in Hb as [-> Hb].
  apply build_chunks_spec in Hb.
  apply bind_ret_m in Hrun as (w4 & m & Hfb & Hrun).
  pose proof (proj1 (reads_fetch_batches e (length (remote_chunks 0 chunks)) url chunks
    (remote_chunks 0 chunks) ∅ w2)) as Hsame.
  rewrite Hfb in Hsame. cbn [fst] in Hsame.
  apply fetch_batches_verified in Hfb; [|by intros i data Hi].
  apply bind_ret_m in Hrun as (w5 & [] & Hw & Hrun). injection Hrun as <- _.
  assert (Forall loc_sha_ok chunks) as Hloc.
  { apply Forall_lookup_2. intros j c Hj. destruct (Forall2_lookup_r _ _ _ _ _ Hb Hj) as (i & _ & t & ?).
    tauto. }
  destruct (write_chunks_pieces e path url m chunks 0 chunks w4 w5 f0 Hfb eq_refl Hloc)
    as (f' & ps & Hf' & Hps & Hd); [by rewrite Hsame|exact Hw|].
  exists f'. split; [done|]. exists ps. split.
  - eapply Forall2_trans; [|exact Hb|exact Hps].
    intros i c p (t & Ht & Hs & _) Hp. exists t. split; [done|congruence].
  - intros Hlen. rewrite <- (app_nil_l (concat ps)). apply Hd; [|done].
    rewrite Hf0. cbn [app]. f_equal. lia.
Qed.

(** A file of one chunk, a peer that serves it, and a local copy that went bad. *)
Definition example_data : list byte := bs "abc".
Definition example_entry : TSMEntry :=
  set_chunks (with_type (base_entry (bs "f") (stat_of 420 3)) EntryTypeFile) 0 1 [0].
Definition example_tsc `{Digest} : TSCReader :=
  MkTSCReader (MkTSCHeader TSCMagic 0 1 3 0 0)
    [MkTSCEntry (BlobSHA256 example_data) 3 0 0] [].
Definition example_url : gostring := bs "http://p/bupdate/S/f".
Definition example_env : env :=
  {| fails := λ _ _, false; callback := λ _ m, m; stat_exists := λ _ _, false;
     lstat_ctime := λ _ _, None;
     peer := λ _ r, match rq_range r with
                    | Some (a, b) => Ret (Reply StatusPartialContent
                        (Ret (slice example_data (Z.to_nat a) (Z.to_nat (b - a + 1)))))
                    | None => Ret (Reply StatusOK (Ret example_data))
                    end;
     read_local := λ _ _, Some (bs "abd") |}.
Definition empty_index : ChunkIndex := MkIndex [] None None 0 0 0.

(** A digest that is the front of the message: enough to tell short blobs, and a
    short one from a long one, apart. *)
Definition front_digest : Digest :=
  {| sum256 := λ m, take 32 (m ++ replicate 32 Byte.x00);
     length_sum256 := λ m, eq_ind_r (λ n, n = 32%nat)
       (Nat.min_l 32 (length (m ++ replicate 32 Byte.x00))
          (eq_ind_r (λ n, 32 ≤ n)%nat (Nat.le_add_l 32 (length m)) (length_app m (replicate 32 Byte.x00))))
       (length_take (m ++ replicate 32 Byte.x00) 32) |}.

Lemma download_file_verified_witness :
  ∃ w' ci' f,
    downloadFile (H := front_digest) example_env (Disk ∅ ∅) empty_index (bs "f.tmp") example_url
      example_entry (example_tsc (H := front_digest)) (World [] [] ∅) = (w', Ret ci') ∧
    files w' !! bs "f.tmp" = Some f ∧ o_data f = example_data.
Proof.
  destruct (downloadFile (H := front_digest) example_env (Disk ∅ ∅) empty_index (bs "f.tmp") example_url
    example_entry (example_tsc (H := front_digest)) (World [] [] ∅)) as [w' r] eqn:Hrun.
  destruct r as [ci'|err|].
  - destruct (download_file_verified (H := front_digest) example_env (Disk ∅ ∅) empty_index (bs "f.tmp")
      example_url example_entry (example_tsc (H := front_digest)) (World [] [] ∅) w' ci')
      as (f & Hf & Hd); [split; [discriminate|reflexivity]|exact Hrun|].
    exists w', ci', f. split; [reflexivity|]. split; [exact Hf|].
    assert (files w' = files (downloadFile (H := front_digest) example_env (Disk ∅ ∅) empty_index
      (bs "f.tmp") example_url example_entry (example_tsc (H := front_digest)) (World [] [] ∅)).1) as Hfs
      by (rewrite Hrun; reflexivity).
    rewrite Hfs in Hf. vm_compute in Hf. injection Hf as <-. vm_compute. reflexivity.
  - exfalso. apply (f_equal (λ p, is_ret p.2)) in Hrun. vm_compute in Hrun. discriminate.
  - exfalso. apply (f_equal (λ p, is_ret p.2)) in Hrun. vm_compute in Hrun. discriminate.
Defined.

(** A file can be restored from an honest peer whatever the local snapshots
    hold: when the peer serves the file, the chunk list describes its pieces, no
    call fails, and nothing on the local disk collides with a piece, the download
    succeeds and leaves exactly the file, although stale, damaged or missing local
    copies may be picked and must be fetched again. *)
Theorem download_file_restores `{Digest} e d ci path url entry tsc w pieces
    (Hno : ∀ w op, fails e w op = false) (Hserves : serves e url (concat pieces))
    (Hrefs : Forall2 (piece_ref tsc) (ChunkRefs entry) pieces) (Hcount : EChunkCount entry ≠ 0)
    (Hsize : ESize entry = Z.of_nat (length (concat pieces))) (Hlen : ESize entry < 2 ^ 63)
    (Hcf : collision_free e pieces) :
  ∃ w' ci' f, downloadFile e d ci path url entry tsc w = (w', Ret ci') ∧
    files w' !! path = Some f ∧ o_data f = concat pieces.
Proof.
  unfold downloadFile.
  destruct (os_run e Hno (OpCreate path) w) as (w1 & H1 & Hf1).
  destruct (os_run e Hno (OpTruncate path (i64 (ESize entry))) w1) as (w2 & H2 & Hf2).
  rewrite (bind_run _ _ _ _ _ H1), (bind_run _ _ _ _ _ H2).
  cbn [apply_op] in Hf1, Hf2. rewrite i64_id in Hf2 by (unfold is_i64; lia).
  rewrite Hf1, alter_insert_eq in Hf2. set (f0 := file_truncate _ _) in Hf2.
  assert (o_data f0 = [] ++ zeros (length (concat pieces)) ∧ o_pos f0 = length (A := byte) [])
    as [Hf0 Hp0].
  { unfold f0, file_truncate. cbn [o_data o_pos app length]. rewrite Nat.sub_0_r.
    split; [|done]. rewrite take_ge by (by rewrite length_replicate). unfold zeros. f_equal. lia. }
  assert (files w2 !! path = Some f0) as Hf by (by rewrite Hf2, lookup_insert_eq).
  replace (EChunkCount entry =? 0) with false by lia.
  destruct (build_chunks_honest d tsc _ _ Hrefs [] ci) as (ci' & l & Hb & Hl); [cbn [app]; lia|].
  cbn [app length] in Hb, Hl. change (Z.of_nat 0) with 0 in Hb.
  unfold bind at 1, lift. rewrite Hb, wrap_ret.
  assert (Forall (λ j, j < length l)%nat (remote_chunks 0 l)) as Hr.
  { eapply Forall_impl; [apply remote_chunks_range|]. cbn. lia. }
  destruct (fetch_batches_honest e url _ l pieces (length (remote_chunks 0 l)) (remote_chunks 0 l) ∅ w2
    Hserves Hl ltac:(lia) Hr ltac:(lia)) as (w3 & m & Hm & Hgot).
  pose proof (proj1 (reads_fetch_batches e (length (remote_chunks 0 l)) url l
    (remote_chunks 0 l) ∅ w2)) as Hsame.
  rewrite Hm in Hsame. cbn [fst] in Hsame.
  destruct (write_chunks_honest e Hno path url (concat pieces) pieces m l pieces Hserves Hcf ltac:(lia) Hl
    (λ p Hp, Hp) 0%nat w3 f0 []) as (w4 & f' & Hw & Hf' & Hd).
  - intros j c Hj Hloc Hz. destruct (Forall2_lookup_l _ _ _ _ _ Hl Hj) as (p & Hp & _).
    rewrite Hp, (Hgot (0 + j)%nat); [by rewrite (list_lookup_total_correct _ _ _ Hp)|].
    left. by eapply remote_chunks_in.
  - by rewrite Hsame.
  - exact Hf0.
  - exact Hp0.
  - exists w4, ci', f'. rewrite (bind_run _ _ _ _ _ Hm), (bind_run _ _ _ _ _ Hw). by split_and!.
Qed.

Lemma example_serves : serves example_env example_url (concat [example_data]).
Proof.
  intros w off n Hn Hin. unfold example_env, peer. cbn [rq_range]. rewrite Nat2Z.id.
  replace (Z.to_nat (Z.of_nat (off + n) - 1 - Z.of_nat off + 1)) with n by lia. reflexivity.
Qed.

(** Nothing to be read locally, nor a run of zeros, has the digest of the data. *)
Lemma example_collision_free : collision_free (H := front_digest) example_env [example_data].
Proof.
  intros p x Hp Hx Hsha. apply list_elem_of_singleton in Hp as ->.
  destruct Hx as [->|(w & name & data & off & n & Hr & ->)].
  - exfalso. apply (f_equal (λ l, nth 6 l Byte.x00)) in Hsha. vm_compute in Hsha. discriminate.
  - cbn [example_env read_local] in Hr. injection Hr as <-. exfalso. revert Hsha.
    assert (∀ l, l ∈ [bs "abd"; bs "ab"; bs "a"; []; bs "bd"; bs "b"; bs "d"] →
      BlobSHA256 (H := front_digest) l ≠ BlobSHA256 (H := front_digest) example_data) as Hall.
    { apply Forall_forall. apply (bool_decide_unpack _). vm_compute. exact I. }
    apply Hall. unfold slice. change (bs "abd") with ["a"; "b"; "d"]%byte at 1.
    destruct off as [|[|[|off]]]; destruct n as [|[|[|[|n]]]];
      cbn [drop take]; rewrite ?drop_nil, ?take_nil;
      repeat first [apply list_elem_of_here | apply list_elem_of_further].
Qed.

Lemma download_file_restores_witness :
  ∃ w' ci' f,
    downloadFile (H := front_digest) example_env (Disk ∅ ∅) empty_index (bs "f.tmp") example_url
      example_entry (example_tsc (H := front_digest)) (World [] [] ∅) = (w', Ret ci') ∧
    files w' !! bs "f.tmp" = Some f ∧ o_data f = concat [example_data].
Proof.
  apply (download_file_restores (H := front_digest) example_env (Disk ∅ ∅) empty_index (bs "f.tmp")
    example_url example_entry (example_tsc (H := front_digest)) (World [] [] ∅) [example_data]).
  - reflexivity.
  - exact example_serves.
  - constructor; [|constructor]. eexists. split; [reflexivity|]. split; [reflexivity|].
    split; [reflexivity|]. cbn. lia.
  - discriminate.
  - reflexivity.
  - reflexivity.
  - exact example_collision_free.
Defined.

(** ** What the code gets wrong *)

(** A path of the manifest is not confined to the target directory. *)
Lemma download_path_escapes :
  JoinPath (bs "/snaps/S.tmp") (bs "../../etc/x") = bs "/etc/x".
Proof. by vm_compute. Qed.

(** Names of a multiply linked file after the first are not restored. *)
Lemma hardlinks_not_restored `{Digest} e d dir baseURL id start tsc entry es ci ct :
  Type_ entry = EntryTypeHardlink →
  create_entry e dir entry = ret tt ∧
  downloadFiles e d dir baseURL id start tsc (entry :: es) ci ct
  = downloadFiles e d dir baseURL id start tsc es ci ct.
Proof. intros Ht. unfold create_entry. cbn [downloadFiles]. by rewrite Ht. Qed.

(** The mode that is restored never has the set-user-ID, set-group-ID or sticky bit
    of a Go file mode (bits 23, 22 and 20). *)
Lemma chmod_drops_special mode :
  Z.land (Z.land mode 4095) (2 ^ 23 + 2 ^ 22 + 2 ^ 20) = 0.
Proof. rewrite <- Z.land_assoc. apply Z.land_0_r. Qed.

(** One step of a download that makes only calls on temporary names. *)
Ltac next_step Hret :=
  apply publishes_bind;
    [|intros; repeat (apply bind_never; intros); exact (Hret _ _)|intros ? [? [? ?Hstep]]].

(** a download publishes only what is complete: every call of a run that fails is
    on a temporary name of the snapshot or below its temporary directory, so nothing
    appears under the snapshot's own names; a run that succeeds has made all those
    calls before it renames the directory, the renames of the metadata files follow,
    and the manifest it leaves is a manifest that parsed, with only change times
    patched; and a snapshot that exists is left alone. *)
Theorem download_publishes_last `{Digest} e opts d open_index start w :
  ∃ ops, trace (Download e opts d open_index start w).1 = trace w ++ ops ∧
    published opts ops (Download e opts d open_index start w).2.
Proof.
  unfold Download. destruct (stat_exists e w (snapshot_path opts)).
  { exists []. by rewrite app_nil_r. }
  match goal with |- context [bind ?m ?f w] => assert (publishes opts (bind m f)) as Hp; [|exact (Hp w)] end.
  assert (∀ url, emits (staged opts) (fetchFullFile e url)) as Hfetch.
  { intros url. apply emits_reads. unfold fetchFullFile. apply reads_bind; [done|]. intros resp.
    case_match; [apply reads_raise|apply reads_lift]. }
  assert (∀ w q, (ret (MkResult (snapshot_path opts) false) w).2 ≠ Ret (MkResult q true)) as Hret by done.
  next_step Hret; [apply Hfetch|]. next_step Hret; [apply Hfetch|].
  next_step Hret; [apply emits_lift|]. apply lift_ret in Hstep1 as [_ Hparse].
  next_step Hret; [apply Hfetch|]. next_step Hret; [apply emits_lift|].
  next_step Hret.
  { apply emits_os. destruct (has_CreateTargetDir opts); unfold staged; cbn [op_paths];
      repeat constructor; by left. }
  apply publishes_tail. congruence.
Qed.
