(* ===== verification/FileServer.v ===== *)
(** * The file server for peers ([bupdateFileServer] in [src/cmd/thundersnapd/main.go])

    Other servers fetch manifests, chunk lists and pieces of files from below the snaps
    directory with range requests. This is the other end of [Download]; with [net/url]
    and [net/http]'s routing in between, a peer of the download is this server. *)

From Stdlib Require Import Strings.String.
From S2P Require Import GoSort Prelude GoStrings GoPath GoIO Sha256 Chunking Tsc Tsm Bloom ChunkIndex Indexer Download.

(** ** The file system *)

(** [IOther] is what cannot be opened, such as a socket. *)
Inductive inode := IFile (data : list byte) | ISymlink (target : gostring) | IDir | IOther.
Inductive errno := ENOENT | ENOTDIR | ELOOP | EOTHER.

(** By the elements of their absolute paths; the root is always a directory. *)
Abbreviation tree := (gmap (list gostring) inode).

(** Where a path leads: symbolic links are followed, the last element is not. [links] more
    of them may be followed. *)
Fixpoint walk (links : nat) (fs : tree) : list gostring → list gostring → outcome errno (list gostring) :=
  fix go (cur todo : list gostring) :=
    match todo with
    | [] => Ret cur
    | e :: rest =>
        if bool_decide (e = []) || bool_decide (e = dot) then go cur rest
        else if bool_decide (e = dotdot) then go (removelast cur) rest
        else
          match rest with
          | [] => Ret (cur ++ [e])
          | _ =>
              match fs !! (cur ++ [e]) with
              | None => Err ENOENT
              | Some IDir => go (cur ++ [e]) rest
              | Some (ISymlink target) =>
                  match links with
                  | O => Err ELOOP
                  | S links' => walk links' fs (if IsAbs target then [] else cur) (Split target slash ++ rest)
                  end
              | Some _ => Err ENOTDIR
              end
          end
    end.

(** [MAXSYMLINKS] of the kernel. *)
Definition max_links : nat := 40.

(** The tree has the names a file system may have: a look-up of a name no file system
    takes (a NUL byte, more than 255 bytes) is answered here with [ENOENT], where the
    kernel refuses it with an error that [ServeHTTP] reports as 500. *)
Definition Lstat (fs : tree) (path : gostring) : outcome errno inode :=
  p ← walk max_links fs [] (Split path slash);
  match p with
  | [] => Ret IDir
  | _ => or_err (fs !! p) ENOENT
  end.

(** ** Ranges *)

Inductive range_error := range_prefix | range_multiple | range_format | range_number | range_bounds.

Definition parseRangeHeader (header : gostring) (fileSize : Z) : outcome range_error (Z * Z) :=
  guard_err (negb (HasPrefix header (bs "bytes="))) range_prefix;;
  match Split (TrimPrefix header (bs "bytes=")) ","%byte with
  | [r] =>
      match Split (TrimSpace r) "-"%byte with
      | [p0; p1] =>
          let startStr := TrimSpace p0 in
          let endStr := TrimSpace p1 in
          '(start, end_) ←
            (if bool_decide (startStr = []) then
               if bool_decide (endStr = []) then Err range_format
               else
                 suffixLen ← or_err (Atoi endStr) range_number;
                 let start := i64 (fileSize - suffixLen) in
                 Ret (if start <? 0 then 0 else start, i64 (fileSize - 1))
             else
               start ← or_err (Atoi startStr) range_number;
               if bool_decide (endStr = []) then Ret (start, i64 (fileSize - 1))
               else (end_ ← or_err (Atoi endStr) range_number; Ret (start, end_)));
          guard_err ((start <? 0) || (fileSize <=? start)) range_bounds;;
          let end_ := if fileSize <=? end_ then i64 (fileSize - 1) else end_ in
          guard_err (end_ <? start) range_bounds;;
          Ret (start, end_)
      | _ => Err range_format
      end
  | _ => Err range_multiple
  end.

(** ** The handler *)

(** What the handler declares and writes. *)
Record response := MkResponse {
  r_status : Z;
  r_range : option (Z * Z * Z);      (* Content-Range: start, end, size *)
  r_length : option Z;               (* Content-Length *)
  r_body : list byte;
}.

Definition http_Error (msg : string) (code : Z) : response := MkResponse code None None (bs msg ++ [Byte.x0a]).

Definition StatusBadRequest : Z := 400.
Definition StatusForbidden : Z := 403.
Definition StatusNotFound : Z := 404.
Definition StatusRequestedRangeNotSatisfiable : Z := 416.
Definition StatusInternalServerError : Z := 500.

(** [content[start:end+1]]. *)
Definition serve_bytes (rangeHeader : gostring) (fileSize : Z) (content : list byte) (cut : Z → Z → outcome unit (list byte))
    : outcome unit response :=
  if bool_decide (rangeHeader = []) then Ret (MkResponse StatusOK None (Some fileSize) content)
  else
    match parseRangeHeader rangeHeader fileSize with
    | Ret (start, end_) =>
        let contentLength := i64 (i64 (end_ - start) + 1) in
        body ← cut start contentLength;
        Ret (MkResponse StatusPartialContent (Some (start, end_, fileSize)) (Some contentLength) body)
    | _ => Ret (http_Error "invalid range" StatusRequestedRangeNotSatisfiable)
    end.

(** The file is looked at in [fs] and opened in [fs']. *)
Definition ServeHTTP (fs fs' : tree) (root urlPath rangeHeader : gostring) : outcome unit response :=
  let cleanPath := Clean urlPath in
  if HasPrefix cleanPath dotdot then Ret (http_Error "invalid path" StatusBadRequest)
  else
    let fullPath := JoinPath root cleanPath in
    if negb (HasPrefix fullPath root) then Ret (http_Error "invalid path" StatusBadRequest)
    else
      match Lstat fs fullPath with
      | Err ENOENT => Ret (http_Error "not found" StatusNotFound)
      | Err _ => Ret (http_Error "error stating file" StatusInternalServerError)
      | Panic => Panic
      | Ret (IDir | IOther) => Ret (http_Error "not a regular file or symlink" StatusForbidden)
      | Ret (ISymlink _) =>
          match Lstat fs' fullPath with
          | Ret (ISymlink target) =>
              serve_bytes rangeHeader (Z.of_nat (length target)) target
                (λ start n, or_panic (go_slice target (Z.to_nat start) (Z.to_nat (start + n))))
          | _ => Ret (http_Error "error reading symlink" StatusInternalServerError)
          end
      | Ret (IFile data) =>
          let fileSize := Z.of_nat (length data) in
          match Lstat fs' fullPath with
          | Ret (ISymlink _) => Ret (http_Error "unexpected symlink" StatusForbidden)
          | Err ENOENT => Ret (http_Error "not found" StatusNotFound)
          | Ret (IFile data') =>
              serve_bytes rangeHeader fileSize data' (λ start n, Ret (take (Z.to_nat n) (drop (Z.to_nat start) data')))
          | Ret IDir => serve_bytes rangeHeader fileSize [] (λ _ _, Ret [])  (* opens, but cannot be read *)
          | _ => Ret (http_Error "error opening file" StatusInternalServerError)
          end
      end.

(** ** Between client and handler: [net/url], [net/http] *)

Definition hex_val (b : byte) : option Z :=
  let z := Z_of_byte b in
  if (48 <=? z) && (z <=? 57) then Some (z - 48)
  else if (97 <=? z) && (z <=? 102) then Some (z - 87)
  else if (65 <=? z) && (z <=? 70) then Some (z - 55)
  else None.

Fixpoint unescape (s : gostring) : option gostring :=
  match s with
  | [] => Some []
  | c :: s' =>
      if bool_decide (c = "%"%byte) then
        match s' with
        | h :: l :: s'' =>
            match hex_val h, hex_val l with
            | Some a, Some b => r ← unescape s''; Some (byte_of_Z (16 * a + b) :: r)
            | _, _ => None
            end
        | _ => None
        end
      else r ← unescape s'; Some (c :: r)
  end.

(** Up to the first [c]. *)
Fixpoint before (c : byte) (s : gostring) : gostring :=
  match s with
  | [] => []
  | x :: s' => if bool_decide (x = c) then [] else x :: before c s'
  end.
Definition after (c : byte) (s : gostring) : gostring := drop (S (length (before c s))) s.

Definition is_ctl (c : byte) : bool := (Z_of_byte c <? 32) || (Z_of_byte c =? 127).

(** The path of a URL that starts with [base], a scheme and an authority; [None] when
    [url.Parse] fails. *)
Definition url_path (base url : gostring) : option gostring :=
  if existsb is_ctl url then None
  else
    _ ← unescape (after "#"%byte url);
    unescape (before "?"%byte (before "#"%byte (TrimPrefix url base))).

(** [ServeMux] redirects to the clean path, and the client follows. *)
Definition mux_clean (path : gostring) : gostring :=
  let np := Clean path in
  if HasSuffix path [slash] && bool_decide (np ≠ [slash]) then np ++ [slash] else np.

(** The header of a range of [fetchRanges]. *)
Definition range_header (r : option (Z * Z)) : gostring :=
  match r with
  | None => []
  | Some (a, b) => bs "bytes=" ++ fmt_int a ++ "-"%byte :: fmt_int b
  end.

(** What arrives: no more than was declared, and an error if it is less. *)
Definition deliver (r : response) : http_reply :=
  Reply (r_status r)
    (match r_length r with
     | None => Ret (r_body r)
     | Some n => if Z.of_nat (length (r_body r)) <? n then Err tt else Ret (take (Z.to_nat n) (r_body r))
     end).

(** A server at [base]; [other] answers for its other paths. A panic closes the
    connection. *)
Definition server (fs fs' : tree) (root base : gostring) (other : gostring → http_reply)
    (r : http_request) : outcome unit http_reply :=
  match url_path base (rq_url r) with
  | None => Err tt
  | Some p =>
      let p := mux_clean p in
      if HasPrefix p (bs "/bupdate/") then
        match ServeHTTP fs fs' root (TrimPrefix p (bs "/bupdate")) (range_header (rq_range r)) with
        | Ret resp => Ret (deliver resp)
        | _ => Err tt
        end
      else Ret (other p)
  end.

(** ** Ranges *)

Lemma parse_range_inside header size a b :
  0 ≤ size < 2 ^ 63 → parseRangeHeader header size = Ret (a, b) → 0 ≤ a ≤ b ∧ b < size.
Proof.
  intros Hs. unfold parseRangeHeader.
  destruct (HasPrefix header _); cbn [negb guard_err]; [|done]. rewrite ret_bind.
  destruct (Split _ ","%byte) as [|r [|]]; [done| |done].
  destruct (Split _ "-"%byte) as [|p0 [|p1 [|]]]; [done|done| |done].
  match goal with |- context [mbind _ ?m] => destruct m as [[start end_]|x|] end; [|done..].
  rewrite ret_bind. destruct (start <? 0) eqn:H1; [done|]. destruct (size <=? start) eqn:H2; [done|].
  cbn [orb guard_err]. rewrite ret_bind.
  assert (i64 (size - 1) = size - 1) as -> by (apply i64_id; unfold is_i64; lia).
  destruct (size <=? end_) eqn:H3.
  - destruct (size - 1 <? start) eqn:H4; [done|]. cbn [guard_err]. rewrite ret_bind. intros [= <- <-]. lia.
  - destruct (end_ <? start) eqn:H4; [done|]. cbn [guard_err]. rewrite ret_bind. intros [= <- <-]. lia.
Qed.

Lemma fmt_uint_bytes n (P : byte → Prop) :
  0 ≤ n → (∀ c, is_Some (byte_digit c) → P c) → Forall P (fmt_uint n).
Proof. intros Hn HP. eapply Forall_impl; [by apply fmt_uint_digit|done]. Qed.

Lemma parse_range_header a b size :
  0 ≤ a ≤ b → b < size < 2 ^ 63 → parseRangeHeader (range_header (Some (a, b))) size = Ret (a, b).
Proof.
  intros Hab Hb. unfold parseRangeHeader, range_header. rewrite HasPrefix_app, TrimPrefix_app. cbn [negb guard_err].
  rewrite ret_bind, !fmt_int_nonneg by lia. destruct (fmt_uint_parse a) as [_ Hna]; [lia|]. destruct (fmt_uint_parse b) as [_ Hnb]; [lia|].
  assert (∀ n c, 0 ≤ n → byte_digit c = None → c ∉ fmt_uint n) as Hno by (intros; apply byte_digit_not; [done|by apply fmt_uint_digit]).
  assert (∀ n, 0 ≤ n → Forall (λ c, is_space_byte c = false) (fmt_uint n)) as Hsp by (intros; apply fmt_uint_bytes; [done|apply digit_not_space]).
  rewrite Split_no_sep.
  2:{ intros [Hin|[Heq|Hin]%elem_of_cons]%elem_of_app; [|discriminate Heq|]; revert Hin; apply Hno; done || lia. }
  rewrite TrimSpace_id.
  2:{ apply Forall_app_2; [apply Hsp; lia|]. apply Forall_cons_2; [reflexivity|apply Hsp; lia]. }
  rewrite Split_app_sep, (Split_no_sep (fmt_uint b)) by (apply Hno; done || lia).
  rewrite !TrimSpace_id by (apply Hsp; lia). rewrite !bool_decide_eq_false_2 by done.
  rewrite !Atoi_fmt by lia. cbn [or_err]. rewrite !ret_bind.
  destruct (Z.ltb_spec a 0), (Z.leb_spec size a); try lia. cbn [orb guard_err]. rewrite ret_bind.
  destruct (Z.leb_spec size b); [lia|]. destruct (Z.ltb_spec b a); [lia|]. cbn [guard_err]. by rewrite ret_bind.
Qed.

(** ** Paths *)

Lemma full_path dir p :
  Forall proper dir → dir ≠ [] → JoinPath (abs_path dir) (Clean (slash :: p)) = abs_path (dir ++ url_elems p).
Proof.
  intros Hd Hne. rewrite Clean_slash. fold (url_elems p). pose proof (url_elems_proper p) as Hp.
  destruct (url_elems p) as [|e es] eqn:Hes.
  - rewrite app_nil_r. unfold JoinPath, JoinPaths. cbn [abs_path Join]. fold (abs_path dir).
    unfold abs_path. change ((slash :: Join dir slash) ++ slash :: [slash]) with (slash :: (Join dir slash ++ [slash; slash])).
    rewrite Clean_slash. f_equal.
    replace (Join dir slash ++ [slash; slash]) with (Join (dir ++ [[]; []]) slash) by (by rewrite Join_app).
    rewrite Split_Join; [|by destruct dir|].
    + change (dir ++ [[]; []]) with (dir ++ [[]] ++ [[]]). rewrite app_assoc, !clean_elems_trailing, clean_elems_proper by done. done.
    + apply Forall_app_2; [eapply Forall_impl; [exact Hd|]; by intros x (_ & _ & _ & ?)|]. repeat constructor; apply not_elem_of_nil.
  - unfold JoinPath, JoinPaths. cbn [abs_path Join]. fold (abs_path dir). unfold abs_path at 1.
    change (Clean ((slash :: Join dir slash) ++ slash :: slash :: Join (e :: es) slash) = abs_path (dir ++ e :: es)).
    change ((slash :: Join dir slash) ++ slash :: slash :: Join (e :: es) slash)
      with (slash :: (Join dir slash ++ slash :: slash :: Join (e :: es) slash)).
    rewrite Clean_slash.
    replace (Join dir slash ++ slash :: slash :: Join (e :: es) slash) with (Join (dir ++ [] :: e :: es) slash) by (by rewrite Join_app).
    assert (∀ l, Forall proper l → Forall (λ f, slash ∉ f) l) as Hns
      by (intros l Hl; eapply Forall_impl; [exact Hl|]; by intros x (_ & _ & _ & ?)).
    rewrite Split_Join; [|by destruct dir|].
    + unfold abs_path. f_equal. f_equal. transitivity (clean_elems true [] (dir ++ e :: es)).
      * generalize ([] : list gostring) as st. induction dir as [|d dir IH]; intros st; [done|]. cbn [app clean_elems].
        apply Forall_cons in Hd as [(D1 & D2 & D3 & _) Hd]. rewrite !bool_decide_eq_false_2 by done. cbn [orb].
        destruct dir as [|d' dir]; [|by apply IH]. cbn [app clean_elems]. by rewrite bool_decide_eq_true_2.
      * by rewrite clean_elems_proper by (by apply Forall_app_2).
    + apply Forall_app_2; [by apply Hns|]. apply Forall_cons_2; [apply not_elem_of_nil|]. by apply Hns.
Qed.

(** No element but the last is a symbolic link. *)
Definition real_dirs (fs : tree) (path : list gostring) : Prop :=
  ∀ pre e post, path = pre ++ e :: post → pre ≠ [] → fs !! pre = Some IDir.

Lemma walk_cons links fs cur e rest :
  walk links fs cur (e :: rest) =
    if bool_decide (e = []) || bool_decide (e = dot) then walk links fs cur rest
    else if bool_decide (e = dotdot) then walk links fs (removelast cur) rest
    else match rest with
         | [] => Ret (cur ++ [e])
         | _ =>
             match fs !! (cur ++ [e]) with
             | None => Err ENOENT
             | Some IDir => walk links fs (cur ++ [e]) rest
             | Some (ISymlink target) =>
                 match links with
                 | O => Err ELOOP
                 | S links' => walk links' fs (if IsAbs target then [] else cur) (Split target slash ++ rest)
                 end
             | Some _ => Err ENOTDIR
             end
         end.
Proof. by destruct links. Qed.

Lemma walk_real links fs cur es :
  Forall proper es → real_dirs fs (cur ++ es) → walk links fs cur es = Ret (cur ++ es).
Proof.
  intros Hes. revert cur. induction Hes as [|e es (H1 & H2 & H3 & _) Hes IH]; intros cur Hr.
  { destruct links; cbn; by rewrite app_nil_r. }
  rewrite walk_cons, !bool_decide_eq_false_2 by done. cbn [orb]. destruct es as [|e' es]; [done|].
  rewrite (Hr (cur ++ [e]) e' es); [|by rewrite <- app_assoc|by destruct cur].
  replace (cur ++ e :: e' :: es) with ((cur ++ [e]) ++ e' :: es) by (by rewrite <- app_assoc).
  apply IH. by rewrite <- app_assoc.
Qed.

Lemma Lstat_real fs es :
  Forall proper es → es ≠ [] → real_dirs fs es → Lstat fs (abs_path es) = or_err (fs !! es) ENOENT.
Proof.
  intros Hes Hne Hr. unfold Lstat, abs_path. rewrite Split_slash, Split_join_proper by done.
  assert (walk max_links fs [] ([] :: es) = walk max_links fs [] es) as -> by reflexivity.
  rewrite (walk_real max_links fs [] es Hes Hr). rewrite ret_bind. by destruct es.
Qed.

(** *** Responses *)

(** A response of [content]: all of it, or a piece that lies inside, where it says. *)
Definition holds_piece (content : list byte) (rangeHeader : gostring) (resp : response) : Prop :=
  let size := Z.of_nat (length content) in
  if decide (rangeHeader = []) then resp = MkResponse StatusOK None (Some size) content
  else
    match parseRangeHeader rangeHeader size with
    | Ret (a, b) =>
        0 ≤ a ≤ b ∧ b < size ∧
        resp = MkResponse StatusPartialContent (Some (a, b, size)) (Some (b - a + 1))
                 (slice content (Z.to_nat a) (Z.to_nat (b - a + 1)))
    | _ => resp = http_Error "invalid range" StatusRequestedRangeNotSatisfiable
    end.

Lemma serve_bytes_piece content rangeHeader cut :
  Z.of_nat (length content) < 2 ^ 63 →
  (∀ a n, (a + n ≤ length content)%nat → cut (Z.of_nat a) (Z.of_nat n) = Ret (slice content a n)) →
  ∃ resp, serve_bytes rangeHeader (Z.of_nat (length content)) content cut = Ret resp ∧ holds_piece content rangeHeader resp.
Proof.
  intros Hlen Hcut. unfold serve_bytes, holds_piece. destruct (decide (rangeHeader = [])) as [Hr|Hr].
  { rewrite bool_decide_eq_true_2 by done. by eexists. }
  rewrite bool_decide_eq_false_2 by done.
  destruct (parseRangeHeader _ _) as [[a b]|x|] eqn:Hp; [|by eexists..].
  destruct (parse_range_inside _ _ _ _ (conj (Nat2Z.is_nonneg _) Hlen) Hp) as [Hab Hb].
  assert (i64 (i64 (b - a) + 1) = b - a + 1) as -> by (rewrite !i64_id by (try rewrite i64_id; unfold is_i64; lia); lia).
  pose proof (Hcut (Z.to_nat a) (Z.to_nat (b - a + 1))%nat ltac:(lia)) as Hc. rewrite !Z2Nat.id in Hc by lia.
  rewrite Hc, ret_bind. eexists. split; [done|]. split_and!; [lia..|done].
Qed.

Lemma go_slice_slice (l : list byte) a n : (a + n ≤ length l)%nat → go_slice l a (a + n) = Some (slice l a n).
Proof.
  intros Hn. unfold go_slice, slice. destruct (Nat.leb_spec a (a + n)), (Nat.leb_spec (a + n) (length l)); try lia.
  cbn. do 2 f_equal. lia.
Qed.

(** *** The handler *)

Definition small (fs : tree) : Prop :=
  ∀ path data, fs !! path = Some (IFile data) ∨ fs !! path = Some (ISymlink data) → Z.of_nat (length data) < 2 ^ 63.

Lemma Lstat_small fs path data :
  small fs → Lstat fs path = Ret (IFile data) ∨ Lstat fs path = Ret (ISymlink data) → Z.of_nat (length data) < 2 ^ 63.
Proof.
  intros Hs. unfold Lstat. destruct (walk _ _ _ _) as [p|x|]; rewrite ?ret_bind; [|by intros [?|?]..].
  destruct p as [|e p]; [by intros [?|?]|]. intros Hp. apply (Hs (e :: p)).
  destruct (fs !! (e :: p)); cbn in Hp; destruct Hp as [[= ->]|[= ->]]; auto.
Qed.

Lemma serve_bytes_no_panic rangeHeader size content cut :
  (∀ a b, parseRangeHeader rangeHeader size = Ret (a, b) → cut a (i64 (i64 (b - a) + 1)) ≠ Panic) →
  serve_bytes rangeHeader size content cut ≠ Panic.
Proof.
  intros Hc. unfold serve_bytes. case_bool_decide; [done|].
  destruct (parseRangeHeader _ _) as [[a b]|x|]; [|done..]. specialize (Hc a b eq_refl). by destruct (cut _ _).
Qed.

Lemma symlink_cut target rangeHeader a b :
  Z.of_nat (length target) < 2 ^ 63 → parseRangeHeader rangeHeader (Z.of_nat (length target)) = Ret (a, b) →
  @or_panic unit _ (go_slice (A := byte) target (Z.to_nat a) (Z.to_nat (a + i64 (i64 (b - a) + 1)))) ≠ Panic.
Proof.
  intros Hl Hp. destruct (parse_range_inside _ _ _ _ (conj (Nat2Z.is_nonneg _) Hl) Hp) as [Hab Hb].
  rewrite !i64_id by (try rewrite i64_id; unfold is_i64; lia). rewrite go_slice_some by lia. done.
Qed.

Lemma ServeHTTP_no_panic fs fs' root urlPath rangeHeader :
  small fs → small fs' → ServeHTTP fs fs' root urlPath rangeHeader ≠ Panic.
Proof.
  intros Hs Hs'. unfold ServeHTTP. destruct (HasPrefix _ _); [done|]. destruct (negb _); [done|].
  set (full := JoinPath root _).
  assert (∀ fs path, Lstat fs path ≠ Panic) as Hstat.
  { intros f path. unfold Lstat. assert (∀ n cur todo, walk n f cur todo ≠ Panic) as Hw.
    { clear. induction n as [|n IHn]; intros cur todo; revert cur; induction todo as [|e todo IH]; intros cur;
        try (by cbn); rewrite walk_cons; repeat case_match; try done; try apply IH; apply IHn. }
    specialize (Hw max_links [] (Split path slash)). destruct (walk _ _ _ _) as [p|x|]; [|done..].
    rewrite ret_bind. destruct p; [done|]. by destruct (f !! _). }
  pose proof (Hstat fs full) as H1. pose proof (Hstat fs' full) as H2.
  destruct (Lstat fs full) as [i|x|] eqn:Hl; [|by destruct x|done].
  destruct i as [data|target| |]; [| |done..].
  - destruct (Lstat fs' full) as [[data'|target'| |]|[]|]; try done; by apply serve_bytes_no_panic.
  - destruct (Lstat fs' full) as [[data'|target'| |]|[]|] eqn:Hl'; try done.
    apply serve_bytes_no_panic. intros a b Hp. eapply symlink_cut; [|exact Hp].
    apply (Lstat_small fs' full); [done|by right].
Qed.

(** What the handler answers for a path below directories that are no links. *)
Lemma ServeHTTP_exact dir fs p rangeHeader :
  Forall proper dir → dir ≠ [] → small fs → real_dirs fs (dir ++ url_elems p) →
  ∃ resp, ServeHTTP fs fs (abs_path dir) (slash :: p) rangeHeader = Ret resp ∧
    match fs !! (dir ++ url_elems p) with
    | Some (IFile data | ISymlink data) => holds_piece data rangeHeader resp
    | Some (IDir | IOther) => resp = http_Error "not a regular file or symlink" StatusForbidden
    | None => resp = http_Error "not found" StatusNotFound
    end.
Proof.
  intros Hd Hne Hs Hr. unfold ServeHTTP.
  assert (HasPrefix (Clean (slash :: p)) dotdot = false) as ->.
  { rewrite Clean_slash. unfold HasPrefix. apply bool_decide_eq_false_2. destruct (Join _ _) as [|? []]; discriminate. }
  rewrite full_path by done. set (es := dir ++ url_elems p) in *.
  assert (HasPrefix (abs_path es) (abs_path dir) = true) as ->.
  { apply HasPrefix_true. unfold es, abs_path. destruct (url_elems p) as [|e l] eqn:Hu.
    - exists []. by rewrite !app_nil_r.
    - eexists. rewrite Join_app by done. reflexivity. }
  cbn [negb]. assert (Forall proper es) as Hes by (apply Forall_app_2; [done|apply url_elems_proper]).
  rewrite Lstat_real by (done || by destruct dir). destruct (fs !! es) as [[data|target| |]|] eqn:Hf; cbn [or_err]; [..|by eexists].
  - apply serve_bytes_piece; [apply (Hs es); by left|]. intros a n Hn. by rewrite !Nat2Z.id.
  - apply serve_bytes_piece; [apply (Hs es); by right|]. intros a n Hn.
    replace (Z.of_nat a + Z.of_nat n) with (Z.of_nat (a + n)) by lia. rewrite !Nat2Z.id. by rewrite go_slice_slice.
  - by eexists.
  - by eexists.
Qed.

(** ** A server as the peer of a download *)

(** Bytes that a URL carries as they are. *)
Definition plain_byte (c : byte) : Prop := is_ctl c = false ∧ c ≠ "%"%byte ∧ c ≠ "?"%byte ∧ c ≠ "#"%byte.

Lemma unescape_plain s : Forall plain_byte s → unescape s = Some s.
Proof.
  induction 1 as [|c s (_ & Hc & _) _ IH]; [done|]. cbn [unescape]. rewrite bool_decide_eq_false_2 by done. by rewrite IH.
Qed.
Lemma before_absent c s : c ∉ s → before c s = s.
Proof.
  induction s as [|x s IH]; [done|]. intros [Hx Hs]%not_elem_of_cons. cbn [before].
  rewrite bool_decide_eq_false_2 by done. by rewrite IH.
Qed.
Lemma plain_absent s c : Forall plain_byte s → ¬ plain_byte c → c ∉ s.
Proof. intros Hs Hc Hin. rewrite Forall_forall in Hs. by apply Hc, Hs. Qed.

Lemma url_path_plain base p : Forall plain_byte (base ++ p) → url_path base (base ++ p) = Some p.
Proof.
  intros Hp. unfold url_path. assert (existsb is_ctl (base ++ p) = false) as ->.
  { apply not_true_is_false. intros (c & Hin & Hc)%existsb_exists. apply list_elem_of_In in Hin.
    rewrite Forall_forall in Hp. destruct (Hp c Hin) as [Hn _]. congruence. }
  assert ("#"%byte ∉ base ++ p) as Hh by (apply plain_absent; [done|by intros (_ & _ & _ & ?)]).
  unfold after. rewrite (before_absent _ _ Hh), drop_ge by lia. cbn [unescape mbind option_bind].
  rewrite TrimPrefix_app. apply Forall_app in Hp as [_ Hp].
  rewrite (before_absent "#"%byte p) by (apply plain_absent; [done|by intros (_ & _ & _ & ?)]).
  rewrite before_absent by (apply plain_absent; [done|by intros (_ & _ & ? & _)]).
  by apply unescape_plain.
Qed.

Lemma mux_clean_abs es : Forall proper es → es ≠ [] → mux_clean (abs_path es) = abs_path es.
Proof.
  intros Hes Hne. unfold mux_clean. rewrite Clean_abs by done.
  destruct (HasSuffix _ _) eqn:Hs; [|done]. exfalso. apply HasSuffix_true in Hs as [s' Hs'].
  destruct (exists_last Hne) as (pre & e & ->). apply Forall_app in Hes as [_ He]. rewrite Forall_singleton in He.
  destruct He as (Hnil & _ & _ & Hsl). destruct (exists_last Hnil) as (e' & c & ->).
  assert (∃ q, abs_path (pre ++ [e' ++ [c]]) = q ++ [c]) as [q Hq].
  { unfold abs_path. destruct pre as [|x pre]; [by exists (slash :: e')|]. rewrite Join_app by done. cbn [Join].
    exists (slash :: Join (x :: pre) slash ++ slash :: e'). cbn. by rewrite <- !app_assoc. }
  rewrite Hq in Hs'. apply app_inj_tail in Hs' as [_ ->]. apply Hsl. apply elem_of_app. right. by left.
Qed.

Lemma url_elems_join es : Forall proper es → es ≠ [] → url_elems (Join es slash) = es.
Proof. intros Hes Hne. unfold url_elems. rewrite Split_join_proper by done. by rewrite clean_elems_proper. Qed.

(** The server serves every regular file below its root. *)
Lemma server_serves e fs dir base other es data :
  (∀ w, peer e w = server fs fs (abs_path dir) base other) →
  Forall proper dir → dir ≠ [] → small fs → Forall proper es → es ≠ [] →
  real_dirs fs (dir ++ es) → fs !! (dir ++ es) = Some (IFile data) →
  Forall plain_byte (base ++ abs_path (bs "bupdate" :: es)) →
  serves e (base ++ abs_path (bs "bupdate" :: es)) data.
Proof.
  intros Hpeer Hd Hne Hs Hes Hesne Hr Hf Hplain w off n Hn Hin. rewrite Hpeer. unfold server. cbn [rq_url rq_range].
  assert (Forall proper (bs "bupdate" :: es)) as Hbes by (apply Forall_cons_2; [by apply proper_name|done]).
  rewrite url_path_plain, mux_clean_abs by done.
  assert (abs_path (bs "bupdate" :: es) = bs "/bupdate" ++ slash :: Join es slash) as Habs.
  { unfold abs_path. change (bs "bupdate" :: es) with ([bs "bupdate"] ++ es). by rewrite Join_app. }
  rewrite Habs. assert (HasPrefix (bs "/bupdate" ++ slash :: Join es slash) (bs "/bupdate/") = true) as ->.
  { apply HasPrefix_true. exists (Join es slash). reflexivity. }
  rewrite TrimPrefix_app. destruct (ServeHTTP_exact dir fs (Join es slash) (range_header (Some (Z.of_nat off, Z.of_nat (off + n) - 1))) Hd Hne Hs)
    as (resp & -> & Hresp); [by rewrite url_elems_join|].
  rewrite url_elems_join, Hf in Hresp by done. unfold holds_piece in Hresp.
  assert (Z.of_nat (length data) < 2 ^ 63) as Hlen by (apply (Hs (dir ++ es)); by left).
  rewrite decide_False in Hresp by discriminate. rewrite parse_range_header in Hresp by lia.
  destruct Hresp as (_ & _ & ->). unfold deliver. cbn [r_length r_body r_status].
  replace (Z.to_nat (Z.of_nat (off + n) - 1 - Z.of_nat off + 1)) with n by lia. rewrite Nat2Z.id.
  assert (length (slice data off n) = n) as Hsl by (unfold slice; len_lia).
  rewrite Hsl, take_ge by lia. destruct (Z.ltb_spec (Z.of_nat n) (Z.of_nat (off + n) - 1 - Z.of_nat off + 1)); [lia|done].
Qed.

(** ** Properties *)

(** C13: the file server serves what is below its directory, and exactly that. Every
    request is answered without a panic, whatever the file does between being looked at
    and being opened. For a request path that meets no symbolic link on its way, the
    element the path names below the root is answered with: all of a regular file (or
    the target of a link), or the piece that the range names, which lies inside, with its
    length and place declared; an invalid range is refused. *)
Theorem file_server_exact (dir : list gostring) (fs : tree) p rangeHeader :
  Forall proper dir → dir ≠ [] → small fs →
  (∀ fs' root urlPath, small fs' → ServeHTTP fs fs' root urlPath rangeHeader ≠ Panic) ∧
  let path := dir ++ url_elems p in
  Forall proper path ∧
  (real_dirs fs path →
   ∃ resp, ServeHTTP fs fs (abs_path dir) (slash :: p) rangeHeader = Ret resp ∧
     match fs !! path with
     | Some (IFile data | ISymlink data) => holds_piece data rangeHeader resp
     | Some (IDir | IOther) => resp = http_Error "not a regular file or symlink" StatusForbidden
     | None => resp = http_Error "not found" StatusNotFound
     end) ∧
  ∀ a b size, 0 ≤ a ≤ b → b < size < 2 ^ 63 → parseRangeHeader (range_header (Some (a, b))) size = Ret (a, b).
Proof.
  intros Hd Hne Hs. split; [|cbv zeta; split_and!].
  - intros fs' root urlPath Hs'. by apply ServeHTTP_no_panic.
  - apply Forall_app_2; [done|apply url_elems_proper].
  - intros Hr. by apply ServeHTTP_exact.
  - intros a b size Hab Hb. by apply parse_range_header.
Qed.

(** A snaps directory with one snap, and a file outside. *)
Definition example_tree : tree :=
  list_to_map [([bs "data"], IDir); ([bs "data"; bs "snaps"], IDir); ([bs "data"; bs "snaps"; bs "S"], IDir);
    ([bs "data"; bs "snaps"; bs "S"; bs "f"], IFile (bs "abc"));
    ([bs "data"; bs "snaps"; bs "S"; bs "link"], ISymlink (bs "/"));
    ([bs "etc"], IDir); ([bs "etc"; bs "shadow"], IFile (bs "root:secret"))].
Definition example_root : list gostring := [bs "data"; bs "snaps"].

Lemma example_root_proper : Forall proper example_root.
Proof. repeat (apply Forall_cons_2; [by apply proper_name|]). apply Forall_nil_2. Qed.
Lemma example_root_ne : example_root ≠ [].
Proof. discriminate. Qed.

Lemma small_map (fs : tree) :
  map_Forall (λ _ i, match i with IFile d | ISymlink d => Z.of_nat (length d) <? 2 ^ 63 | _ => true end = true) fs → small fs.
Proof. intros Hm path data [Hf|Hf]; specialize (Hm _ _ Hf); cbn in Hm; lia. Qed.

Lemma example_small : small example_tree.
Proof. apply small_map. apply (bool_decide_unpack _). vm_compute. exact I. Qed.

(** All the directories above a path. *)
Definition dirs_above (path : list gostring) : list (list gostring) :=
  (λ n, take n path) <$> seq 1 (length path - 1).
Lemma real_dirs_check (fs : tree) path :
  forallb (λ d, match fs !! d with Some IDir => true | _ => false end) (dirs_above path) = true → real_dirs fs path.
Proof.
  intros Hall pre e post -> Hpre. rewrite forallb_forall in Hall.
  assert (In pre (dirs_above (pre ++ e :: post))) as Hin.
  { apply list_elem_of_In. apply list_elem_of_fmap. exists (length pre). rewrite take_app_length. split; [done|].
    apply elem_of_seq. rewrite length_app. cbn [length]. destruct pre; [done|cbn [length]; lia]. }
  specialize (Hall _ Hin). by destruct (fs !! pre) as [[]|].
Qed.

Lemma file_server_exact_witness :
  ServeHTTP example_tree example_tree (abs_path example_root) (bs "/S/../S/f") (bs "bytes=1-") =
    Ret (MkResponse 206 (Some (1, 2, 3)) (Some 2) (bs "bc")).
Proof.
  destruct (file_server_exact example_root example_tree (bs "S/../S/f") (bs "bytes=1-") example_root_proper example_root_ne example_small)
    as (_ & _ & Hserve & _).
  destruct Hserve as (resp & Hs & Hresp); [apply real_dirs_check; vm_compute; reflexivity|].
  etrans; [exact Hs|]. f_equal.
  assert (example_tree !! (example_root ++ url_elems (bs "S/../S/f")) = Some (IFile (bs "abc"))) as Hf by (vm_compute; reflexivity).
  rewrite Hf in Hresp. unfold holds_piece in Hresp.
  assert (parseRangeHeader (bs "bytes=1-") (Z.of_nat (length (bs "abc"))) = Ret (1, 2)) as Hp by (vm_compute; reflexivity).
  rewrite decide_False in Hresp by discriminate. rewrite Hp in Hresp. destruct Hresp as (_ & _ & ->). reflexivity.
Defined.

(** C12: a file can be restored from another server, whatever the local snapshots hold.
    When the peer is the file server of a host that has the snap, the file's path has no
    character that a URL gives a meaning to, the chunk list describes the file's pieces,
    no local call fails and nothing on the local disk collides with a piece, then the
    download of the file succeeds and leaves exactly its contents, although stale, damaged
    or missing local copies may be picked and must be fetched again. *)
Theorem download_from_server `{Digest} e fs dir base other d ci path snap es entry tsc w pieces :
  let url := base ++ bs "/bupdate/" ++ snap ++ bs "/" ++ Join es slash in
  (∀ w, peer e w = server fs fs (abs_path dir) base other) → (∀ w op, fails e w op = false) →
  Forall proper dir → dir ≠ [] → proper snap → Forall proper es → es ≠ [] → Forall plain_byte url →
  small fs → real_dirs fs (dir ++ snap :: es) → fs !! (dir ++ snap :: es) = Some (IFile (concat pieces)) →
  Forall2 (piece_ref tsc) (ChunkRefs entry) pieces → EChunkCount entry ≠ 0 →
  ESize entry = Z.of_nat (length (concat pieces)) → collision_free e pieces →
  ∃ w' ci' f, downloadFile e d ci path url entry tsc w = (w', Ret ci') ∧
    files w' !! path = Some f ∧ o_data f = concat pieces.
Proof.
  intros url Hpeer Hno Hd Hne Hsnap Hes Hesne Hplain Hs Hr Hf Hrefs Hcount Hsize Hcf.
  assert (url = base ++ abs_path (bs "bupdate" :: snap :: es)) as Hurl.
  { unfold url. f_equal. unfold abs_path. change (bs "bupdate" :: snap :: es) with ([bs "bupdate"] ++ [snap] ++ es).
    rewrite Join_app, Join_app by done. reflexivity. }
  apply download_file_restores; try done.
  - rewrite Hurl in Hplain |- *. apply (server_serves e fs dir base other (snap :: es) (concat pieces)); try done.
    by apply Forall_cons_2.
  - rewrite Hsize. apply (Hs (dir ++ snap :: es)). by left.
Qed.

Definition no_other (_ : gostring) : http_reply := Reply StatusNotFound (Ret []).
Definition server_env : env :=
  {| fails := λ _ _, false; callback := λ _ m, m; stat_exists := λ _ _, false; lstat_ctime := λ _ _, None;
     peer := λ _, server example_tree example_tree (abs_path example_root) (bs "http://p") no_other;
     read_local := λ _ _, Some (bs "abd") |}.

Lemma download_from_server_witness :
  ∃ w' ci' f,
    downloadFile (H := front_digest) server_env (Disk ∅ ∅) empty_index (bs "f.tmp") example_url
      example_entry (example_tsc (H := front_digest)) (World [] [] ∅) = (w', Ret ci') ∧
    files w' !! bs "f.tmp" = Some f ∧ o_data f = bs "abc".
Proof.
  apply (download_from_server (H := front_digest) server_env example_tree example_root (bs "http://p") no_other
    (Disk ∅ ∅) empty_index (bs "f.tmp") (bs "S") [bs "f"] example_entry (example_tsc (H := front_digest)) (World [] [] ∅) [example_data]).
  - reflexivity.
  - reflexivity.
  - exact example_root_proper.
  - exact example_root_ne.
  - by apply proper_name.
  - apply Forall_cons_2; [by apply proper_name|apply Forall_nil_2].
  - discriminate.
  - apply (bool_decide_unpack _). vm_compute. exact I.
  - exact example_small.
  - apply real_dirs_check. vm_compute. reflexivity.
  - vm_compute. reflexivity.
  - constructor; [|constructor]. eexists. split; [reflexivity|]. split; [reflexivity|]. split; [reflexivity|]. cbn. lia.
  - discriminate.
  - reflexivity.
  - exact example_collision_free.
Defined.

(** ** What the code gets wrong *)

(** Only the last element of a path is kept from being followed: a link inside a snap,
    which any user of a frame can make, leads anywhere on the host. *)
Lemma file_server_follows_links :
  ServeHTTP example_tree example_tree (abs_path example_root) (bs "/S/link/etc/shadow") [] =
    Ret (MkResponse StatusOK None (Some 11) (bs "root:secret")).
Proof. vm_compute. reflexivity. Qed.

(** The client puts paths into URLs as they are, so that another file is asked for, or none. *)
Lemma urls_not_escaped :
  url_path (bs "http://p") (bs "http://p/bupdate/S/a?b") = Some (bs "/bupdate/S/a") ∧
  url_path (bs "http://p") (bs "http://p/bupdate/S/a#b") = Some (bs "/bupdate/S/a") ∧
  url_path (bs "http://p") (bs "http://p/bupdate/S/%41") = Some (bs "/bupdate/S/A") ∧
  url_path (bs "http://p") (bs "http://p/bupdate/S/100%") = None.
Proof. vm_compute. by split_and!. Qed.
