(* ===== verification/Passwd.v ===== *)
(** * The "user" account of a container ([src/tsm/stripuids.go])

    Reading and extending [/etc/passwd], [/etc/shadow] and [/etc/group] below a
    root directory, line by line as [bufio.Scanner] delivers them. *)

From Stdlib Require Import Strings.String.
From S2P Require Import Prelude GoStrings GoPath.

Definition newline : byte := "010"%byte.
Definition carriage : byte := "013"%byte.
Definition colon : byte := ":"%byte.

Definition ThundersnapUID : Z := 7575.
Definition ThundersnapGID : Z := 7575.

(** ** Lines *)

(** The scanner's buffer limit: a line of that length or more is [ErrTooLong]. *)
Definition maxLine : Z := 1024 * 1024.

Definition drop_cr (line : gostring) : gostring :=
  match rev line with
  | c :: l => if bool_decide (c = carriage) then rev l else line
  | [] => line
  end.

(** The raw lines: a last line without newline counts unless it is empty. *)
Definition raw_lines (data : list byte) : list gostring :=
  match rev (Split data newline) with
  | [] :: l => rev l
  | _ => Split data newline
  end.

(** The lines a scanner delivers, and whether it stops on one that is too long. *)
Fixpoint scan (raw : list gostring) : list gostring * bool :=
  match raw with
  | [] => ([], false)
  | line :: raw' =>
      if maxLine <=? Z.of_nat (length line) then ([], true)
      else let '(l, err) := scan raw' in (drop_cr line :: l, err)
  end.
Definition scan_lines (data : list byte) : list gostring * bool := scan (raw_lines data).

(** ** Entries *)

Record passwdEntry := MkPasswd {
  Username : gostring;
  Password : gostring;
  UID : Z;
  GID : Z;
  GECOS : gostring;
  Home : gostring;
  Shell : gostring;
}.

Definition is_comment (line : gostring) : bool :=
  bool_decide (line = []) || HasPrefix line (bs "#").

Definition parsePasswdEntry (line : gostring) : option passwdEntry :=
  if is_comment line then None
  else
    match Split line colon with
    | f0 :: f1 :: f2 :: f3 :: f4 :: f5 :: f6 :: _ =>
        match ParseUint f2 32, ParseUint f3 32 with
        | Some uid, Some gid => Some (MkPasswd f0 f1 (u32 uid) (u32 gid) f4 f5 f6)
        | _, _ => None
        end
    | _ => None
    end.

(** ** The container's files *)

(** The files below the root with their modes, the directories, and the faults of
    the calls on a path. *)
Record rootfs := MkRoot {
  r_files : gmap gostring (Z * list byte);
  r_dirs : gset gostring;
}.
Record faults := MkFaults {
  read_fault : gostring → bool;
  write_fault : gostring → bool;
  stat_fault : gostring → bool;
}.

Inductive pw_error := pw_read | pw_scan | pw_write | pw_stat.

Inductive read_result := ReadData (data : list byte) | ReadNotExist | ReadError.

Section files.
Variable ft : faults.

Definition ReadFile (fs : rootfs) (path : gostring) : read_result :=
  if read_fault ft path then ReadError
  else match r_files fs !! path with Some (_, data) => ReadData data | None => ReadNotExist end.

Definition exists_at (fs : rootfs) (path : gostring) : bool :=
  bool_decide (is_Some (r_files fs !! path)) || bool_decide (path ∈ r_dirs fs).

(** [atomicWriteFile]: through a temporary file and a rename, keeping the mode. *)
Definition atomicWriteFile (fs : rootfs) (path : gostring) (data : list byte) (defaultMode : Z)
    : rootfs * option pw_error :=
  let mode := match r_files fs !! path with Some (m, _) => m | None => defaultMode end in
  if write_fault ft path then (fs, Some pw_write)
  else (MkRoot (<[path := (mode, data)]> (r_files fs)) (r_dirs fs), None).

Definition unlines (lines : list gostring) : list byte := concat ((λ l, l ++ [newline]) <$> lines).

(** The new line goes behind the first line that [here] accepts, else to the end. *)
Fixpoint insert_after (here : gostring → bool) (new : gostring) (lines : list gostring)
    : list gostring :=
  match lines with
  | [] => [new]
  | l :: lines' => if here l then l :: new :: lines' else l :: insert_after here new lines'
  end.

(** *** [/etc/shadow] *)

Definition shadow_name (line : gostring) : option gostring :=
  if is_comment line then None else head (Split line colon).

Definition newShadowEntry : gostring := bs "user:!:0:0:99999:7:::".

Definition ensureUserInShadow (fs : rootfs) (root : gostring) : rootfs * option pw_error :=
  let path := JoinPaths [root; bs "etc"; bs "shadow"] in
  match ReadFile fs path with
  | ReadNotExist => (fs, None)
  | ReadError => (fs, Some pw_read)
  | ReadData data =>
      let '(lines, err) := scan_lines data in
      if (err : bool) then (fs, Some pw_scan)
      else if existsb (λ l, bool_decide (shadow_name l = Some (bs "user"))) lines then (fs, None)
      else atomicWriteFile fs path
             (unlines (insert_after (λ l, bool_decide (shadow_name l = Some (bs "root")))
                         newShadowEntry lines)) 416
  end.

(** *** [/etc/group] *)

Definition is_user_group (line : gostring) : bool :=
  if is_comment line then false
  else
    match Split line colon with
    | f0 :: _ :: f2 :: _ =>
        bool_decide (f0 = bs "user") ||
        match ParseUint f2 32 with Some gid => u32 gid =? ThundersnapGID | None => false end
    | _ => false
    end.

Definition newGroupEntry : gostring := bs "user:x:" ++ fmt_int ThundersnapGID ++ bs ":".

Definition ensureUserInGroup (fs : rootfs) (root : gostring) : rootfs * option pw_error :=
  let path := JoinPaths [root; bs "etc"; bs "group"] in
  match ReadFile fs path with
  | ReadNotExist => (fs, None)
  | ReadError => (fs, Some pw_read)
  | ReadData data =>
      let '(lines, err) := scan_lines data in
      if (err : bool) then (fs, Some pw_scan)
      else if existsb is_user_group lines then (fs, None)
      else atomicWriteFile fs path (unlines (lines ++ [newGroupEntry])) 420
  end.

(** *** [/etc/passwd] *)

Definition is_user (line : gostring) : bool :=
  match parsePasswdEntry line with Some p => bool_decide (Username p = bs "user") | None => false end.
Definition is_root (line : gostring) : bool :=
  match parsePasswdEntry line with Some p => UID p =? 0 | None => false end.

(** The home of the last line that names the user, if any. *)
Fixpoint user_home (lines : list gostring) (found : option gostring) : option gostring :=
  match lines with
  | [] => found
  | l :: lines' =>
      user_home lines'
        (match parsePasswdEntry l with
         | Some p => if bool_decide (Username p = bs "user") then Some (Home p) else found
         | None => found
         end)
  end.

Definition newPasswdEntry (shell : gostring) : gostring :=
  bs "user:x:" ++ fmt_int ThundersnapUID ++ bs ":" ++ fmt_int ThundersnapGID
    ++ bs ":user:/home:" ++ shell.

Definition pick_shell (fs : rootfs) (root : gostring) : gostring :=
  let bash := JoinPaths [root; bs "bin"; bs "bash"] in
  if negb (stat_fault ft bash) && exists_at fs bash then bs "/bin/bash" else bs "/bin/sh".

Definition EnsureUserInPasswd (fs : rootfs) (root : gostring) : rootfs * outcome pw_error gostring :=
  let path := JoinPaths [root; bs "etc"; bs "passwd"] in
  match ReadFile fs path with
  | ReadNotExist => (fs, Ret [])
  | ReadError => (fs, Err pw_read)
  | ReadData data =>
      let '(lines, err) := scan_lines data in
      if (err : bool) then (fs, Err pw_scan)
      else
        match user_home lines None with
        | Some home => (fs, Ret home)
        | None =>
            let out := unlines (insert_after is_root (newPasswdEntry (pick_shell fs root)) lines) in
            match atomicWriteFile fs path out 420 with
            | (fs1, Some e) => (fs1, Err e)
            | (fs1, None) =>
                match ensureUserInShadow fs1 root with
                | (fs2, Some e) => (fs2, Err e)
                | (fs2, None) =>
                    match ensureUserInGroup fs2 root with
                    | (fs3, Some e) => (fs3, Err e)
                    | (fs3, None) => (fs3, Ret (bs "/home"))
                    end
                end
            end
        end
  end.

(** *** Sudo *)

Definition sudoers_content : list byte :=
  bs "# Thundersnap: do not try to write the unavailable host audit log" ++ [newline]
  ++ bs "Defaults:user !log_allowed, !log_denied" ++ [newline]
  ++ bs "# Thundersnap: allow the user account passwordless sudo" ++ [newline]
  ++ bs "user ALL=(ALL) NOPASSWD: ALL" ++ [newline].

(** [os.WriteFile] keeps the mode of a file that exists. *)
Definition EnsureSudoers (fs : rootfs) (root : gostring) : rootfs * option pw_error :=
  let dir := JoinPaths [root; bs "etc"; bs "sudoers.d"] in
  if stat_fault ft dir then (fs, Some pw_stat)
  else if negb (exists_at fs dir) then (fs, None)
  else
    let path := JoinPaths [dir; bs "thundersnap-user"] in
    let mode := match r_files fs !! path with Some (m, _) => m | None => 288 end in
    if write_fault ft path then (fs, Some pw_write)
    else (MkRoot (<[path := (mode, sudoers_content)]> (r_files fs)) (r_dirs fs), None).

(** *** Looking a user up *)

Record UserInfo := MkUserInfo {
  ui_Username : gostring;
  ui_UID : Z;
  ui_GID : Z;
  ui_Home : gostring;
  ui_Shell : gostring;
}.

Fixpoint find_user (username : gostring) (lines : list gostring) : option UserInfo :=
  match lines with
  | [] => None
  | l :: lines' =>
      match parsePasswdEntry l with
      | Some p => if bool_decide (Username p = username)
                  then Some (MkUserInfo (Username p) (UID p) (GID p) (Home p) (Shell p))
                  else find_user username lines'
      | None => find_user username lines'
      end
  end.

(** The scanner's error is not looked at: the lines before it count. *)
Definition LookupUser (fs : rootfs) (root username : gostring) : option UserInfo :=
  match ReadFile fs (JoinPaths [root; bs "etc"; bs "passwd"]) with
  | ReadData data => find_user username (scan_lines data).1
  | _ => None
  end.
End files.

(** ** Lines survive being written *)

Lemma unlines_join lines : unlines lines = Join (lines ++ [[]]) newline.
Proof.
  induction lines as [|l lines IH]; [done|]. unfold unlines in *. cbn [fmap list_fmap concat app].
  rewrite IH. rewrite <- app_assoc. by destruct lines.
Qed.

Lemma raw_unlines lines :
  Forall (λ l, newline ∉ l) lines → raw_lines (unlines lines) = lines.
Proof.
  intros Hl. unfold raw_lines. rewrite unlines_join, Split_Join.
  - rewrite rev_app_distr. cbn [rev app]. by rewrite rev_involutive.
  - by destruct lines.
  - apply Forall_app. split; [done|]. repeat constructor. apply not_elem_of_nil.
Qed.

(** A line a scanner can deliver, without carriage returns. *)
Definition line_ok (l : gostring) : Prop :=
  newline ∉ l ∧ carriage ∉ l ∧ Z.of_nat (length l) < maxLine.

Lemma drop_cr_id l : carriage ∉ l → drop_cr l = l.
Proof.
  intros Hl. unfold drop_cr. destruct (rev l) as [|c r] eqn:Hr; [done|].
  rewrite bool_decide_eq_false_2; [done|]. intros ->. apply Hl.
  apply (f_equal (@rev _)) in Hr. rewrite rev_involutive in Hr. rewrite Hr. cbn [rev].
  apply elem_of_app. right. by left.
Qed.

Lemma scan_ok lines : Forall line_ok lines → scan lines = (lines, false).
Proof.
  induction 1 as [|l lines (_ & Hc & Hm) _ IH]; [done|]. cbn [scan].
  replace (maxLine <=? Z.of_nat (length l)) with false by lia. by rewrite IH, drop_cr_id.
Qed.

Lemma scan_unlines lines : Forall line_ok lines → scan_lines (unlines lines) = (lines, false).
Proof.
  intros Hl. unfold scan_lines. rewrite raw_unlines; [by apply scan_ok|].
  eapply Forall_impl; [exact Hl|]. by intros l [? _].
Qed.

Lemma scan_inv raw lines :
  scan raw = (lines, false) → Forall (λ l, newline ∉ l ∧ carriage ∉ l) raw → lines = raw ∧ Forall line_ok lines.
Proof.
  revert lines. induction raw as [|l raw IH]; intros lines; cbn [scan].
  { intros [= <-] _. by split. }
  destruct (maxLine <=? Z.of_nat (length l)) eqn:Hm; [done|].
  destruct (scan raw) as [ls err]. intros [= <- ->] Hr. apply Forall_cons in Hr as [[Hn Hc] Hr].
  destruct (IH ls eq_refl Hr) as [-> Hok]. rewrite drop_cr_id by done.
  split; [done|]. constructor; [|done]. split_and!; [done|done|lia].
Qed.

Lemma Split_elem (s f : gostring) sep c : f ∈ Split s sep → c ∈ f → c ∈ s.
Proof.
  revert f. induction s as [|x s IH]; intros f; cbn [Split].
  { intros ->%list_elem_of_singleton. by intros ?%elem_of_nil. }
  case_bool_decide.
  - intros [->|Hf]%elem_of_cons; [by intros ?%elem_of_nil|]. intros Hc. right. by eapply IH.
  - pose proof (Split_not_nil s sep). destruct (Split s sep) as [|g fs]; [done|].
    intros [->|Hf]%elem_of_cons.
    + intros [->|Hc]%elem_of_cons; [by left|]. right. apply (IH g); [by left|done].
    + intros Hc. right. apply (IH f); [by right|done].
Qed.

Lemma raw_lines_elem data f : f ∈ raw_lines data → f ∈ Split data newline.
Proof.
  unfold raw_lines. destruct (rev (Split data newline)) as [|[|c g] l] eqn:Hr; [done| |done].
  intros Hf. apply (f_equal (@rev _)) in Hr. rewrite rev_involutive in Hr. rewrite Hr. cbn [rev].
  apply elem_of_app. by left.
Qed.

(** What a scan of a file without carriage returns delivers. *)
Lemma scan_lines_ok data lines :
  scan_lines data = (lines, false) → carriage ∉ data → Forall line_ok lines.
Proof.
  intros Hs Hc. unfold scan_lines in Hs. apply scan_inv in Hs as [-> ?]; [done|].
  apply Forall_forall. intros f Hf%raw_lines_elem. split.
  - pose proof (Split_fields_no_sep data newline) as Hn. rewrite Forall_forall in Hn. by apply Hn.
  - intros Hcf. apply Hc. by eapply Split_elem.
Qed.

(** ** Inserting a line *)

Lemma insert_after_Forall (P : gostring → Prop) here new lines :
  P new → Forall P lines → Forall P (insert_after here new lines).
Proof.
  intros Hn. induction 1 as [|l lines Hl Hls IH]; cbn [insert_after]; [by constructor|].
  destruct (here l); by repeat constructor.
Qed.

Lemma insert_after_existsb (f : gostring → bool) here new lines :
  existsb f (insert_after here new lines) = existsb f lines || f new.
Proof.
  induction lines as [|l lines IH]; cbn [insert_after existsb]; [by rewrite orb_false_r|].
  destruct (here l); cbn [existsb].
  - rewrite <- orb_assoc. f_equal. apply orb_comm.
  - by rewrite IH, orb_assoc.
Qed.

Lemma user_home_found lines h : ∃ h', user_home lines (Some h) = Some h'.
Proof.
  revert h. induction lines as [|l lines IH]; intros h; cbn [user_home]; [by eexists|].
  destruct (parsePasswdEntry l) as [p|]; [|apply IH]. case_bool_decide; apply IH.
Qed.

Lemma user_home_none lines : user_home lines None = None → Forall (λ l, is_user l = false) lines.
Proof.
  induction lines as [|l lines IH]; [constructor|]. cbn [user_home]. unfold is_user at 1.
  destruct (parsePasswdEntry l) as [p|] eqn:Hp.
  - destruct (bool_decide (Username p = bs "user")) eqn:Hb.
    + destruct (user_home_found lines (Home p)) as [h ->]. done.
    + intros Hn. constructor; [|by apply IH]. by rewrite Hp.
  - intros Hn. constructor; [|by apply IH]. by rewrite Hp.
Qed.

Lemma user_home_skip lines found : Forall (λ l, is_user l = false) lines → user_home lines found = found.
Proof.
  intros Hl. revert found. induction Hl as [|l ls Hl Hls IH]; intros found; [done|]. cbn [user_home].
  unfold is_user in Hl. destruct (parsePasswdEntry l) as [p|]; [|apply IH]. rewrite Hl. apply IH.
Qed.

Lemma user_home_last l1 l l2 p found :
  parsePasswdEntry l = Some p → Username p = bs "user" → Forall (λ l, is_user l = false) l2 →
  user_home (l1 ++ l :: l2) found = Some (Home p).
Proof.
  intros Hp Hu Hl2. revert found. induction l1 as [|x l1 IH]; intros found; cbn [app user_home]; [|apply IH].
  rewrite Hp, bool_decide_eq_true_2 by done. by apply user_home_skip.
Qed.

Lemma user_home_insert here new h lines :
  user_home lines None = None → user_home [new] None = Some h →
  user_home (insert_after here new lines) None = Some h.
Proof.
  intros Hl Hn. apply user_home_none in Hl.
  induction Hl as [|l ls Hl Hls IH]; cbn [insert_after]; [done|].
  assert (∀ rest, user_home (l :: rest) None = user_home rest None) as Hl'.
  { intros rest. cbn [user_home]. unfold is_user in Hl. destruct (parsePasswdEntry l) as [p|]; [|done].
    by rewrite Hl. }
  destruct (here l); rewrite Hl'; [|done].
  cbn [user_home] in Hn |- *. rewrite Hn. clear IH Hl Hl'.
  induction Hls as [|l' ls' Hl Hls IH]; [done|]. cbn [user_home]. unfold is_user in Hl.
  destruct (parsePasswdEntry l') as [p|]; [|done]. by rewrite Hl.
Qed.

Lemma find_user_insert_other here new p username lines :
  parsePasswdEntry new = Some p → Username p ≠ username →
  find_user username (insert_after here new lines) = find_user username lines.
Proof.
  intros Hp Hne. assert (∀ rest, find_user username (new :: rest) = find_user username rest) as Hnew.
  { intros rest. cbn [find_user]. by rewrite Hp, bool_decide_eq_false_2. }
  induction lines as [|l lines IH]; cbn [insert_after]; [apply Hnew|].
  destruct (here l); cbn [find_user].
  - pose proof (Hnew lines) as Hn. cbn [find_user] in Hn. by rewrite Hn.
  - by rewrite IH.
Qed.

Lemma find_user_insert here new p lines :
  user_home lines None = None → parsePasswdEntry new = Some p → Username p = bs "user" →
  find_user (bs "user") (insert_after here new lines)
  = Some (MkUserInfo (Username p) (UID p) (GID p) (Home p) (Shell p)).
Proof.
  intros Hl Hp Hu. apply user_home_none in Hl.
  assert (∀ rest, find_user (bs "user") (new :: rest)
    = Some (MkUserInfo (Username p) (UID p) (GID p) (Home p) (Shell p))) as Hnew.
  { intros rest. cbn [find_user]. by rewrite Hp, bool_decide_eq_true_2. }
  induction Hl as [|l ls Hl Hls IH]; cbn [insert_after]; [apply Hnew|].
  assert (∀ rest, find_user (bs "user") (l :: rest) = find_user (bs "user") rest) as Hskip.
  { intros rest. cbn [find_user]. unfold is_user in Hl. destruct (parsePasswdEntry l) as [q|]; [|done].
    by rewrite Hl. }
  destruct (here l); rewrite Hskip; [apply Hnew|done].
Qed.

(** ** The three files *)

Definition etc_file (root name : gostring) : gostring := JoinPaths [root; bs "etc"; name].

Lemma etc_file_abs dir name :
  Forall proper dir → dir ≠ [] → proper name →
  etc_file (abs_path dir) name = abs_path (dir ++ [bs "etc"; name]).
Proof.
  intros Hd Hne Hn. rewrite <- (JoinPath_proper dir [bs "etc"; name]); [done|done| |done].
  apply Forall_cons_2; [by apply (bool_decide_unpack _)|]. by apply Forall_cons_2; [|apply Forall_nil_2].
Qed.

Lemma etc_file_ne dir a b :
  Forall proper dir → dir ≠ [] → proper a → proper b → a ≠ b →
  etc_file (abs_path dir) a ≠ etc_file (abs_path dir) b.
Proof.
  intros Hd Hne Ha Hb Hab Heq. rewrite !etc_file_abs in Heq by done.
  assert (proper (bs "etc")) as Hetc by (by apply proper_name).
  apply abs_path_inj in Heq.
  - apply app_inv_head in Heq. by injection Heq.
  - apply Forall_app_2; [done|]. by apply Forall_cons_2; [|apply Forall_cons_2; [|apply Forall_nil_2]].
  - apply Forall_app_2; [done|]. by apply Forall_cons_2; [|apply Forall_cons_2; [|apply Forall_nil_2]].
  - by destruct dir.
  - by destruct dir.
Qed.

Lemma account_files_ne dir :
  Forall proper dir → dir ≠ [] →
  etc_file (abs_path dir) (bs "passwd") ≠ etc_file (abs_path dir) (bs "shadow") ∧
  etc_file (abs_path dir) (bs "passwd") ≠ etc_file (abs_path dir) (bs "group") ∧
  etc_file (abs_path dir) (bs "shadow") ≠ etc_file (abs_path dir) (bs "group").
Proof. intros Hd Hne. split_and!; apply etc_file_ne; try done; by apply proper_name. Qed.

(** A file that is absent, or text a scanner takes, without carriage returns. *)
Definition readable (fs : rootfs) (path : gostring) : Prop :=
  ∀ mode data, r_files fs !! path = Some (mode, data) →
    carriage ∉ data ∧ (scan_lines data).2 = false.

Record quiet (ft : faults) : Prop := {
  q_read : ∀ p, read_fault ft p = false;
  q_write : ∀ p, write_fault ft p = false;
}.

(** A file that is absent or has the line already, and a step that sees to it. *)
Definition settled (has : gostring → bool) (path : gostring) (fs : rootfs) : Prop :=
  ∀ mode data, r_files fs !! path = Some (mode, data) →
    (scan_lines data).2 = false ∧ existsb has (scan_lines data).1 = true.

Record adds_line (has : gostring → bool) (path : gostring)
    (step : rootfs → rootfs * option pw_error) : Prop := {
  al_settled : ∀ fs, settled has path fs → step fs = (fs, None);
  al_adds : ∀ fs, readable fs path → ∃ fs', step fs = (fs', None) ∧ settled has path fs' ∧
    (∀ q, q ≠ path → r_files fs' !! q = r_files fs !! q) ∧
    fst <$> r_files fs' !! path = fst <$> r_files fs !! path;
}.

Lemma adds_line_intro ft has path step here new mode0 (build : list gostring → list gostring) :
  quiet ft → has new = true → line_ok new →
  (∀ lines, build lines = insert_after here new lines) →
  (∀ fs, step fs = match ReadFile ft fs path with
    | ReadNotExist => (fs, None)
    | ReadError => (fs, Some pw_read)
    | ReadData data =>
        let '(lines, err) := scan_lines data in
        if (err : bool) then (fs, Some pw_scan)
        else if existsb has lines then (fs, None)
        else atomicWriteFile ft fs path (unlines (build lines)) mode0
    end) →
  adds_line has path step.
Proof.
  intros [Hqr Hqw] Hnew Hok Hbuild Hstep.
  assert (∀ fs, settled has path fs → step fs = (fs, None)) as Hset.
  { intros fs Hs. rewrite Hstep. unfold ReadFile. rewrite Hqr.
    destruct (r_files fs !! path) as [[mode data]|] eqn:Hf; [|done].
    destruct (Hs _ _ Hf) as [He Hx]. destruct (scan_lines data) as [lines err]. cbn [fst snd] in *.
    by rewrite He, Hx. }
  split; [exact Hset|]. intros fs Hread.
  destruct (r_files fs !! path) as [[mode data]|] eqn:Hf.
  2: { exists fs. assert (settled has path fs) as Hs by (intros m d; by rewrite Hf).
       split; [by apply Hset|]. split_and!; try done. by rewrite Hf. }
  destruct (Hread _ _ Hf) as [Hc Hs]. destruct (scan_lines data) as [lines err] eqn:Hl.
  cbn [snd] in Hs. subst err.
  destruct (existsb has lines) eqn:Hex.
  { assert (settled has path fs) as Hst.
    { intros m d. rewrite Hf. intros [= <- <-]. by rewrite Hl. }
    exists fs. split; [by apply Hset|]. split_and!; try done. by rewrite Hf. }
  exists (MkRoot (<[path := (mode, unlines (insert_after here new lines))]> (r_files fs)) (r_dirs fs)).
  split.
  { rewrite Hstep. unfold ReadFile, atomicWriteFile. by rewrite Hqr, Hf, Hl, Hex, Hqw, Hbuild. }
  cbn [r_files]. split; [|split; [intros q Hq; by rewrite lookup_insert_ne|by rewrite lookup_insert_eq]].
  intros m d. cbn [r_files]. rewrite lookup_insert_eq. intros [= <- <-].
  rewrite scan_unlines; [|apply insert_after_Forall; [done|by eapply scan_lines_ok]].
  cbn [fst snd]. split; [done|]. by rewrite insert_after_existsb, Hnew, orb_true_r.
Qed.

Lemma insert_after_end new lines : insert_after (λ _, false) new lines = lines ++ [new].
Proof. induction lines as [|l lines IH]; [done|]. cbn. by rewrite IH. Qed.

Ltac line_ok_tac :=
  split; [by apply (bool_decide_unpack _)|split; [by apply (bool_decide_unpack _)|by vm_compute]].

Lemma shadow_adds ft root :
  quiet ft → adds_line (λ l, bool_decide (shadow_name l = Some (bs "user"))) (etc_file root (bs "shadow"))
    (λ fs, ensureUserInShadow ft fs root).
Proof.
  intros Hq. eapply (adds_line_intro ft _ _ _ (λ l, bool_decide (shadow_name l = Some (bs "root"))) newShadowEntry);
    [done|by vm_compute|line_ok_tac|done|done].
Qed.

Lemma group_adds ft root :
  quiet ft → adds_line is_user_group (etc_file root (bs "group")) (λ fs, ensureUserInGroup ft fs root).
Proof.
  intros Hq. eapply (adds_line_intro ft _ _ _ (λ _, false) newGroupEntry);
    [done|by vm_compute|line_ok_tac|intros lines; symmetry; apply insert_after_end|done].
Qed.

Lemma new_entry_parses shell :
  shell = bs "/bin/bash" ∨ shell = bs "/bin/sh" →
  parsePasswdEntry (newPasswdEntry shell)
    = Some (MkPasswd (bs "user") (bs "x") ThundersnapUID ThundersnapGID (bs "user") (bs "/home") shell) ∧
  line_ok (newPasswdEntry shell).
Proof. intros [-> | ->]; (split; [by vm_compute|line_ok_tac]). Qed.

Lemma pick_shell_cases ft fs root : pick_shell ft fs root = bs "/bin/bash" ∨ pick_shell ft fs root = bs "/bin/sh".
Proof. unfold pick_shell. destruct (_ && _); auto. Qed.

(** ** Properties *)

(** A step that changes one file and keeps its mode keeps all modes. *)
Lemma step_keeps_modes a fs fs' :
  (∀ q, q ≠ a → r_files fs' !! q = r_files fs !! q) →
  fst <$> r_files fs' !! a = fst <$> r_files fs !! a →
  ∀ q, fst <$> r_files fs' !! q = fst <$> r_files fs !! q.
Proof. intros Ho Hm q. destruct (decide (q = a)) as [->|Hq]; [done|]. by rewrite Ho. Qed.

(** a container gets its account: on a root whose files are text without
    carriage returns, when no call fails and no passwd line names "user",
    [EnsureUserInPasswd] succeeds; looking "user" up then gives UID and GID 7575 and
    the home it returned; every other name is looked up as before; [/etc/shadow] and
    [/etc/group], where they exist, have a line for the account; no other file and
    no mode changes; and doing it again changes nothing. *)
Theorem ensure_user_adds_account ft fs dir mode data
    (Hq : quiet ft) (Hd : Forall proper dir) (Hne : dir ≠ [])
    (Hp : r_files fs !! etc_file (abs_path dir) (bs "passwd") = Some (mode, data))
    (Hrp : readable fs (etc_file (abs_path dir) (bs "passwd")))
    (Hrs : readable fs (etc_file (abs_path dir) (bs "shadow")))
    (Hrg : readable fs (etc_file (abs_path dir) (bs "group")))
    (Hno : user_home (scan_lines data).1 None = None) :
  let root := abs_path dir in
  ∃ fs' shell, EnsureUserInPasswd ft fs root = (fs', Ret (bs "/home")) ∧
    LookupUser ft fs' root (bs "user")
      = Some (MkUserInfo (bs "user") ThundersnapUID ThundersnapGID (bs "/home") shell) ∧
    (∀ name, name ≠ bs "user" → LookupUser ft fs' root name = LookupUser ft fs root name) ∧
    EnsureUserInPasswd ft fs' root = (fs', Ret (bs "/home")) ∧
    ensureUserInShadow ft fs' root = (fs', None) ∧ ensureUserInGroup ft fs' root = (fs', None) ∧
    (∀ q, q ≠ etc_file root (bs "passwd") → q ≠ etc_file root (bs "shadow") →
       q ≠ etc_file root (bs "group") → r_files fs' !! q = r_files fs !! q) ∧
    (∀ q, fst <$> r_files fs' !! q = fst <$> r_files fs !! q).
Proof.
  cbn zeta. set (root := abs_path dir) in *.
  destruct (account_files_ne dir Hd Hne) as (Hps & Hpg & Hsg).
  destruct (Hrp _ _ Hp) as [Hc Hs]. destruct (scan_lines data) as [lines err] eqn:Hl.
  cbn [fst snd] in Hs, Hno. subst err. pose proof (scan_lines_ok _ _ Hl Hc) as Hlines.
  set (shell := pick_shell ft fs root).
  destruct (new_entry_parses shell (pick_shell_cases ft fs root)) as [Hparse Hok].
  set (new := insert_after is_root (newPasswdEntry shell) lines).
  assert (scan_lines (unlines new) = (new, false)) as Hscan.
  { apply scan_unlines. by apply insert_after_Forall. }
  set (fs1 := MkRoot (<[etc_file root (bs "passwd") := (mode, unlines new)]> (r_files fs)) (r_dirs fs)).
  pose proof (shadow_adds ft root Hq) as Hshadow. pose proof (group_adds ft root Hq) as Hgroup.
  assert (∀ q, q ≠ etc_file root (bs "passwd") → r_files fs1 !! q = r_files fs !! q) as Ho1.
  { intros q Hq1. unfold fs1. cbn [r_files]. by rewrite lookup_insert_ne. }
  destruct (al_adds _ _ _ Hshadow fs1) as (fs2 & H2 & Hs2 & Ho2 & Hm2).
  { intros m d Hf. rewrite Ho1 in Hf by done. by eapply Hrs. }
  destruct (al_adds _ _ _ Hgroup fs2) as (fs3 & H3 & Hs3 & Ho3 & Hm3).
  { intros m d Hf. rewrite Ho2, Ho1 in Hf by done. by eapply Hrg. }
  assert (r_files fs3 !! etc_file root (bs "passwd") = Some (mode, unlines new)) as Hp3.
  { rewrite Ho3, Ho2 by done. unfold fs1. cbn [r_files]. by rewrite lookup_insert_eq. }
  destruct Hq as [Hqr Hqw].
  exists fs3, shell. split_and!.
  - unfold EnsureUserInPasswd. fold (etc_file root (bs "passwd")). unfold ReadFile.
    rewrite Hqr, Hp, Hl, Hno. unfold atomicWriteFile. rewrite Hp, Hqw. fold shell new fs1.
    by rewrite H2, H3.
  - unfold LookupUser. fold (etc_file root (bs "passwd")). unfold ReadFile.
    rewrite Hqr, Hp3, Hscan. cbn [fst]. unfold new.
    by rewrite (find_user_insert _ _ _ _ Hno Hparse).
  - intros name Hname. unfold LookupUser. fold (etc_file root (bs "passwd")). unfold ReadFile.
    rewrite Hqr, Hp3, Hscan, Hp, Hl. cbn [fst]. unfold new.
    by rewrite (find_user_insert_other _ _ _ _ _ Hparse).
  - unfold EnsureUserInPasswd. fold (etc_file root (bs "passwd")). unfold ReadFile.
    rewrite Hqr, Hp3, Hscan. unfold new.
    rewrite (user_home_insert is_root (newPasswdEntry shell) (bs "/home")); [done|done|].
    cbn [user_home]. by rewrite Hparse.
  - apply (al_settled _ _ _ Hshadow). intros m d. rewrite Ho3 by done. apply Hs2.
  - by apply (al_settled _ _ _ Hgroup).
  - intros q ???. by rewrite Ho3, Ho2, Ho1.
  - intros q. rewrite (step_keeps_modes _ _ _ Ho3 Hm3), (step_keeps_modes _ _ _ Ho2 Hm2).
    apply (step_keeps_modes _ _ _ Ho1). unfold fs1. cbn [r_files]. by rewrite lookup_insert_eq, Hp.
Qed.

(** A container whose shadow file cannot be written the first time. *)
Definition example_fs : rootfs :=
  MkRoot {[ bs "/c/etc/passwd" := (420, bs "root:x:0:0:root:/root:/bin/sh" ++ [newline]);
            bs "/c/etc/shadow" := (416, bs "root:*:0:0:99999:7:::" ++ [newline]) ]} {[ bs "/c" ]}.
Definition no_faults : faults := MkFaults (λ _, false) (λ _, false) (λ _, false).

Lemma ensure_user_adds_account_witness :
  ∃ fs' shell, EnsureUserInPasswd no_faults example_fs (bs "/c") = (fs', Ret (bs "/home")) ∧
    LookupUser no_faults fs' (bs "/c") (bs "user")
      = Some (MkUserInfo (bs "user") 7575 7575 (bs "/home") shell).
Proof.
  destruct (ensure_user_adds_account no_faults example_fs [bs "c"] 420
    (bs "root:x:0:0:root:/root:/bin/sh" ++ [newline])) as (fs' & shell & H1 & H2 & _).
  - split; reflexivity.
  - apply Forall_cons_2; [by apply proper_name|apply Forall_nil_2].
  - discriminate.
  - vm_compute. reflexivity.
  - intros m d Hf. vm_compute in Hf. injection Hf as <- <-.
    split; [by apply (bool_decide_unpack _)|vm_compute; reflexivity].
  - intros m d Hf. vm_compute in Hf. injection Hf as <- <-.
    split; [by apply (bool_decide_unpack _)|vm_compute; reflexivity].
  - intros m d Hf. vm_compute in Hf. discriminate.
  - vm_compute. reflexivity.
  - exists fs', shell. split; [exact H1|exact H2].
Defined.

(** C19: a bad [/etc/passwd] is left alone: when it does not exist nothing happens and
    the home is empty; when it cannot be read or has a line of the scanner's limit or
    more nothing is written; and when a line names "user" already, nothing is written
    and the home is that of the last such line. *)
Theorem ensure_user_leaves_alone ft fs root fs' r
    (Hrun : EnsureUserInPasswd ft fs root = (fs', r)) :
  match ReadFile ft fs (etc_file root (bs "passwd")) with
  | ReadNotExist => fs' = fs ∧ r = Ret []
  | ReadError => fs' = fs ∧ r = Err pw_read
  | ReadData data =>
      ((scan_lines data).2 = true → fs' = fs ∧ r = Err pw_scan) ∧
      (∀ l1 l l2 p, scan_lines data = (l1 ++ l :: l2, false) → parsePasswdEntry l = Some p →
         Username p = bs "user" → Forall (λ x, is_user x = false) l2 → fs' = fs ∧ r = Ret (Home p))
  end.
Proof.
  unfold EnsureUserInPasswd in Hrun. fold (etc_file root (bs "passwd")) in Hrun.
  destruct (ReadFile ft fs (etc_file root (bs "passwd"))) as [data| |];
    [|by injection Hrun as <- <-|by injection Hrun as <- <-].
  destruct (scan_lines data) as [lines err] eqn:Hl. cbn [snd]. split.
  { intros ->. by injection Hrun as <- <-. }
  intros l1 l l2 p [= -> ->] Hp Hu Hl2.
  rewrite (user_home_last l1 l l2 p) in Hrun by done. by injection Hrun as <- <-.
Qed.

Lemma ensure_user_leaves_alone_witness :
  let fs := MkRoot {[ bs "/c/etc/passwd" := (420, bs "user:x:1:1:u:/u:/bin/sh" ++ [newline]) ]} ∅ in
  snd (EnsureUserInPasswd no_faults fs (bs "/c")) = Ret (bs "/u").
Proof.
  intros fs. destruct (EnsureUserInPasswd no_faults fs (bs "/c")) as [fs' r] eqn:Hrun.
  pose proof (ensure_user_leaves_alone no_faults fs (bs "/c") fs' r Hrun) as Hl.
  assert (ReadFile no_faults fs (etc_file (bs "/c") (bs "passwd"))
    = ReadData (bs "user:x:1:1:u:/u:/bin/sh" ++ [newline])) as Hr by (vm_compute; reflexivity).
  rewrite Hr in Hl. destruct Hl as [_ Hl].
  apply (Hl [] (bs "user:x:1:1:u:/u:/bin/sh") [] (MkPasswd (bs "user") (bs "x") 1 1 (bs "u") (bs "/u") (bs "/bin/sh"))).
  - vm_compute. reflexivity.
  - vm_compute. reflexivity.
  - reflexivity.
  - constructor.
Defined.

(** A failure behind the passwd file is never made good: the next call finds the
    account in passwd, reports success and leaves shadow without it. *)
Lemma shadow_failure_not_repaired :
  let shadow := bs "/c/etc/shadow" in
  let ft := MkFaults (λ _, false) (λ p, bool_decide (p = shadow)) (λ _, false) in
  let '(fs1, r1) := EnsureUserInPasswd ft example_fs (bs "/c") in
  let '(fs2, r2) := EnsureUserInPasswd no_faults fs1 (bs "/c") in
  r1 = Err pw_write ∧ r2 = Ret (bs "/home") ∧ r_files fs2 !! shadow = r_files example_fs !! shadow.
Proof. vm_compute. by split_and!. Qed.
