(* ===== verification/RefId.v ===== *)
(** * Identity subvolumes of refs ([src/refid/refid.go], [src/btrfsutil/btrfsutil.go])

    A frame has a subvolume [id], and below it one subvolume for every ref that points
    at the frame, with the private state of the ref. Every call may fail. *)

From Stdlib Require Import Strings.String.
From S2P Require Import GoSort Prelude GoStrings GoPath Passwd.

(** ** Subvolumes and directories *)

(** A directory: whether it is a subvolume, its owner and mode, and all that is in it
    apart from the directories of the tree themselves. *)
Record node := MkNode { n_subvol : bool; n_owner : Z; n_mode : Z; n_data : gostring }.
Abbreviation tree := (gmap gostring node).

(** The calls that fail, by path. *)
Record tree_env := MkTreeEnv {
  show_fails : gostring → bool;
  create_fails : gostring → bool;
  delete_fails : gostring → bool;
  rm_fails : gostring → bool;
  rename_fails : gostring → bool;
  chown_fails : gostring → bool;
  chmod_fails : gostring → bool;
}.
Definition calm : tree_env :=
  MkTreeEnv (λ _, false) (λ _, false) (λ _, false) (λ _, false) (λ _, false) (λ _, false) (λ _, false).

Inductive refid_error := ErrInvalidRefName | ErrBtrfs | ErrRemove | ErrRename | ErrChown | ErrChmod | ErrReadDir.

Section refid.
Context (env : tree_env).

(** An error of the command counts as no. *)
Definition IsSubvolume (t : tree) (p : gostring) : bool :=
  negb (show_fails env p) && match t !! p with Some n => n_subvol n | None => false end.

Definition CreateSubvol (t : tree) (p : gostring) : tree * option refid_error :=
  if create_fails env p || bool_decide (is_Some (t !! p)) || bool_decide (t !! Dir p = None) then (t, Some ErrBtrfs)
  else (<[p := MkNode true 0 493 []]> t, None).

Definition beneath (p q : gostring) : Prop := HasPrefix q (p ++ [slash]) = true.
#[export] Instance beneath_dec p q : Decision (beneath p q).
Proof. unfold beneath. apply _. Defined.

(** A subvolume with other subvolumes in it cannot be deleted. *)
Definition nested (t : tree) (p : gostring) : Prop := map_Exists (λ q n, beneath p q ∧ n_subvol n = true) t.
Definition prune (t : tree) (p : gostring) : tree := filter (λ '(q, _), q ≠ p ∧ ¬ beneath p q) t.
Definition DeleteSubvol (t : tree) (p : gostring) : tree * option refid_error :=
  if delete_fails env p || negb (match t !! p with Some n => n_subvol n | None => false end) || bool_decide (nested t p)
  then (t, Some ErrBtrfs) else (prune t p, None).

(** [os.RemoveAll] removes subvolumes like directories. *)
Definition RemoveAll (t : tree) (p : gostring) : tree * option refid_error :=
  if rm_fails env p then (t, Some ErrRemove) else (prune t p, None).

(** [os.Rename] of a subvolume onto a free name; what it holds goes along. *)
Definition Rename (t : tree) (src dst : gostring) : tree * option refid_error :=
  match t !! src with
  | Some n =>
      if rename_fails env src || bool_decide (is_Some (t !! dst)) || negb (n_subvol n) || bool_decide (t !! Dir dst = None)
      then (t, Some ErrRename)
      else (<[dst := n]> (delete src t), None)
  | None => (t, Some ErrRename)
  end.

(** [os.Chown] and [os.Chmod]. *)
Definition own (t : tree) (p : gostring) (owner mode : Z) : tree * option refid_error :=
  match t !! p with
  | Some n =>
      if chown_fails env p then (t, Some ErrChown)
      else
        let t1 := <[p := MkNode (n_subvol n) owner (n_mode n) (n_data n)]> t in
        if chmod_fails env p then (t1, Some ErrChmod)
        else (<[p := MkNode (n_subvol n) owner mode (n_data n)]> t1, None)
  | None => (t, Some ErrChown)
  end.

(** ** The package *)

Definition validateRefName (refName : gostring) : bool :=
  negb (bool_decide (refName = []) || bool_decide (refName = dot) || bool_decide (refName = dotdot))
  && negb (ContainsByte refName slash).

Definition idDirName : gostring := bs "id".
Definition IDDir (framePath : gostring) : gostring := JoinPath framePath idDirName.
Definition Path (framePath refName : gostring) : gostring := JoinPath (IDDir framePath) refName.

Definition configureIDDir (t : tree) (p : gostring) : tree * option refid_error := own t p 0 493.
Definition configureRefDir (t : tree) (p : gostring) : tree * option refid_error := own t p ThundersnapUID 448.

Definition removeIfPlainDir (t : tree) (p : gostring) : tree * option refid_error :=
  if IsSubvolume t p then (t, None)
  else if bool_decide (is_Some (t !! p)) then RemoveAll t p
  else (t, None).

(** The next step, unless there was an error. *)
Definition and_then (r : tree * option refid_error) (f : tree → tree * option refid_error) : tree * option refid_error :=
  match r with (t, Some e) => (t, Some e) | (t, None) => f t end.

(** A subvolume is made at the path, if there is none. *)
Definition make_subvol (t : tree) (p : gostring) : tree * option refid_error :=
  if IsSubvolume t p then (t, None)
  else and_then (removeIfPlainDir t p) (λ t, CreateSubvol t p).

Definition ensureIDSubvol (t : tree) (framePath : gostring) : tree * option refid_error :=
  let idPath := IDDir framePath in
  and_then (make_subvol t idPath) (λ t, configureIDDir t idPath).

Definition Ensure (t : tree) (framePath refName : gostring) : tree * option refid_error :=
  if negb (validateRefName refName) then (t, Some ErrInvalidRefName)
  else
    and_then (ensureIDSubvol t framePath) (λ t,
    let refPath := Path framePath refName in
    and_then (make_subvol t refPath) (λ t, configureRefDir t refPath)).

(** The place the identity moves to is cleared. *)
Definition clear (t : tree) (dst : gostring) : tree * option refid_error :=
  if IsSubvolume t dst then DeleteSubvol t dst else removeIfPlainDir t dst.

Definition Move (t : tree) (srcFramePath dstFramePath refName : gostring) : tree * option refid_error :=
  if negb (validateRefName refName) then (t, Some ErrInvalidRefName)
  else
    and_then (ensureIDSubvol t dstFramePath) (λ t,
    let src := Path srcFramePath refName in
    let dst := Path dstFramePath refName in
    if negb (IsSubvolume t src) then Ensure t dstFramePath refName
    else
      and_then (clear t dst) (λ t,
      and_then (Rename t src dst) (λ t, configureRefDir t dst))).

Definition Remove (t : tree) (framePath refName : gostring) : tree * option refid_error :=
  if negb (validateRefName refName) then (t, Some ErrInvalidRefName)
  else
    let refPath := Path framePath refName in
    if IsSubvolume t refPath then DeleteSubvol t refPath else RemoveAll t refPath.

(** [RepairOwnership]: the subvolumes below [id], in the order of their names. *)
Fixpoint repair (t : tree) (paths : list gostring) : tree * option refid_error :=
  match paths with
  | [] => (t, None)
  | p :: paths' => if IsSubvolume t p then and_then (configureRefDir t p) (λ t, repair t paths') else repair t paths'
  end.
Definition children (t : tree) (p : gostring) : list gostring :=
  sort_by_key id (filter (λ q, beneath p q ∧ ¬ slash ∈ drop (length p + 1) q) (map_to_list t).*1).
Definition RepairOwnership (t : tree) (framePath : gostring) : tree * option refid_error :=
  and_then (ensureIDSubvol t framePath) (λ t, repair t (children t (IDDir framePath))).
End refid.

(** ** Lemmas *)

(** What happens to a directory and below it leaves the others alone. *)
Definition outside (p q : gostring) : Prop := q ≠ p ∧ ¬ beneath p q.
Definition kept_outside (p : gostring) (t t' : tree) : Prop := ∀ q, outside p q → t' !! q = t !! q.
Definition kept_but (p : gostring) (t t' : tree) : Prop := ∀ q, q ≠ p → t' !! q = t !! q.
Definition shrinks (p : gostring) (t t' : tree) : Prop := ∀ q, q ≠ p → t' !! q = t !! q ∨ t' !! q = None.

(** The same subvolume with the same contents; owner and mode may differ. *)
Definition same_contents (x x' : node) : Prop := n_subvol x' = n_subvol x ∧ n_data x' = n_data x.

Lemma kept_but_outside p t t' : kept_but p t t' → kept_outside p t t'.
Proof. intros Hk q [Hq _]. by apply Hk. Qed.
Lemma kept_outside_trans p t1 t2 t3 : kept_outside p t1 t2 → kept_outside p t2 t3 → kept_outside p t1 t3.
Proof. intros H1 H2 q Hq. by rewrite H2, H1. Qed.

Lemma prune_lookup t p q : prune t p !! q = if bool_decide (outside p q) then t !! q else None.
Proof.
  unfold prune, outside. rewrite map_lookup_filter. destruct (t !! q) as [n|]; cbn; [|by destruct (bool_decide _)].
  destruct (decide (q ≠ p ∧ ¬ beneath p q)) as [Ho|Ho]; [rewrite bool_decide_eq_true_2 by done|rewrite bool_decide_eq_false_2 by done];
    case_guard; by try done.
Qed.
Lemma prune_shrinks t p : shrinks p t (prune t p).
Proof. intros q _. rewrite prune_lookup. case_bool_decide; auto. Qed.
Lemma shrinks_refl p t : shrinks p t t.
Proof. by left. Qed.
Lemma shrinks_but p t1 t2 t3 : shrinks p t1 t2 → kept_but p t2 t3 → shrinks p t1 t3.
Proof. intros H1 H2 q Hq. rewrite H2 by done. auto. Qed.
Lemma prune_kept t p : kept_outside p t (prune t p).
Proof. intros q Hq. by rewrite prune_lookup, bool_decide_eq_true_2. Qed.

Section steps.
Context (env : tree_env).

Lemma own_spec t p owner mode :
  let '(t', e) := own env t p owner mode in
  kept_but p t t' ∧
  (∀ x, t !! p = Some x → ∃ x', t' !! p = Some x' ∧ same_contents x x' ∧ (e = None → n_owner x' = owner ∧ n_mode x' = mode)) ∧
  (t !! p = None → t' = t ∧ e ≠ None).
Proof.
  unfold own, kept_but, same_contents. destruct (t !! p) as [x|] eqn:Hx; [|by split_and!].
  destruct (chown_fails env p).
  { split_and!; [done| |done]. intros y [= ->]. by exists y. }
  destruct (chmod_fails env p).
  - split_and!; [intros q Hq; by rewrite lookup_insert_ne| |done]. intros y [= ->].
    eexists. split; [apply lookup_insert_eq|]. by split.
  - split_and!; [intros q Hq; by rewrite !lookup_insert_ne| |done]. intros y [= ->].
    eexists. split; [apply lookup_insert_eq|]. by split.
Qed.

Lemma CreateSubvol_spec t p :
  let '(t', e) := CreateSubvol env t p in
  kept_but p t t' ∧ match e with
                    | None => t !! p = None ∧ t' !! p = Some (MkNode true 0 493 [])
                    | Some _ => t' = t
                    end.
Proof.
  unfold CreateSubvol. destruct (create_fails env p) eqn:Hc; [by split|]. cbn [orb].
  destruct (decide (is_Some (t !! p))) as [Hp|Hp]; [rewrite bool_decide_eq_true_2 by done; by split|].
  rewrite bool_decide_eq_false_2 by done. cbn [orb]. case_bool_decide; [by split|]. split; [intros q Hq; by rewrite lookup_insert_ne|]. rewrite lookup_insert_eq. split; [|done]. destruct (t !! p) as [x|]; [|done]. destruct Hp. by eexists.
Qed.

Lemma removeIfPlainDir_spec t p :
  let '(t', e) := removeIfPlainDir env t p in
  kept_outside p t t' ∧ shrinks p t t' ∧
  (show_fails env p = false → ∀ x, t !! p = Some x → n_subvol x = true → t' = t) ∧
  (show_fails env p = false → e = None → match t !! p with
                                         | Some x => if n_subvol x then t' = t else t' = prune t p
                                         | None => t' = t
                                         end).
Proof.
  pose proof (shrinks_refl p t) as Hr. pose proof (prune_shrinks t p) as Hps. pose proof (prune_kept t p) as Hpk.
  unfold removeIfPlainDir, IsSubvolume. destruct (show_fails env p); cbn [negb andb].
  - case_bool_decide; [|by split_and!]. unfold RemoveAll. by destruct (rm_fails env p); split_and!.
  - destruct (t !! p) as [x|] eqn:Hx.
    + destruct (n_subvol x) eqn:Hs; [by split_and!|]. rewrite bool_decide_eq_true_2 by by eexists. unfold RemoveAll.
      destruct (rm_fails env p); (split_and!; [done|done| |done]); intros _ y [= ->]; congruence.
    + rewrite bool_decide_eq_false_2 by by intros []. by split_and!.
Qed.

(** Making sure of a subvolume that shows: what was a subvolume stays as it is. *)
Lemma make_subvol_spec t p :
  show_fails env p = false →
  let '(t', e) := make_subvol env t p in
  kept_outside p t t' ∧ shrinks p t t' ∧ (∀ x, t !! p = Some x → n_subvol x = true → t' = t ∧ e = None) ∧
  (e = None → ∃ x, t' !! p = Some x ∧ n_subvol x = true ∧ (t !! p = Some x ∨ (n_data x = [] ∧ match t !! p with Some y => n_subvol y = false | None => True end))).
Proof.
  intros Hshow. unfold make_subvol. pose proof (removeIfPlainDir_spec t p) as Hr. unfold IsSubvolume in *.
  rewrite Hshow in *. cbn [negb andb] in *. destruct (t !! p) as [x|] eqn:Hx; [destruct (n_subvol x) eqn:Hs|].
  { split_and!; [done|apply shrinks_refl|intros y [= ->] _; by split|]. intros _. exists x. auto. }
  all: destruct (removeIfPlainDir env t p) as [t1 [e|]]; destruct Hr as (Hk & Hsh & _ & Hn); cbn [and_then];
    [split_and!; [done|done|intros y [= ->]; congruence|done]|]; specialize (Hn eq_refl eq_refl).
  all: pose proof (CreateSubvol_spec t1 p) as Hc; destruct (CreateSubvol env t1 p) as [t2 e]; destruct Hc as [Hk2 Hc];
    (split_and!; [by eapply kept_outside_trans; [|apply kept_but_outside]|by eapply shrinks_but|intros y [= ->]; congruence|]);
    intros ->; destruct Hc as [_ Hc]; eexists; split; [done|]; auto.
Qed.
End steps.

(** *** Frames and their identities *)

Section frames.
Context (dir : list gostring) (Hdir : Forall proper dir) (Hne : dir ≠ []).

Definition frame (a : gostring) : gostring := abs_path (dir ++ [a]).

Lemma more_proper es : Forall proper es → Forall proper (dir ++ es).
Proof. by apply Forall_app_2. Qed.

Lemma IDDir_eq a : proper a → IDDir (frame a) = abs_path (dir ++ [a; bs "id"]).
Proof.
  intros Ha. unfold IDDir, frame. rewrite JoinPath_one; [by rewrite <- app_assoc| |by apply proper_name|by destruct dir].
  apply more_proper. by apply Forall_cons_2; [|apply Forall_nil_2].
Qed.
Lemma Path_eq a n : proper a → proper n → Path (frame a) n = abs_path (dir ++ [a; bs "id"; n]).
Proof.
  intros Ha Hn. unfold Path. rewrite IDDir_eq by done. rewrite JoinPath_one; [by rewrite <- app_assoc| |done|by destruct dir].
  apply more_proper. apply Forall_cons_2; [done|]. apply Forall_cons_2; [by apply proper_name|apply Forall_nil_2].
Qed.

Lemma valid_name_proper n : validateRefName n = true → proper n.
Proof.
  unfold validateRefName. intros [H1 H2]%andb_true_iff. apply negb_true_iff in H1, H2.
  apply orb_false_iff in H1 as [H1 H3]. apply orb_false_iff in H1 as [H0 H1].
  apply bool_decide_eq_false in H0, H1, H3, H2. by split_and!.
Qed.

(** Below a directory are the paths that continue it. *)
Lemma beneath_abs base es : base ≠ [] → Forall proper base → Forall proper es → es ≠ [] →
  beneath (abs_path base) (abs_path es) ↔ ∃ e rest, es = base ++ e :: rest.
Proof.
  intros Hb0 Hb He He0. unfold beneath. rewrite HasPrefix_true. split.
  - intros [s Hs]. assert (Hsplit : Split (abs_path es) slash = Split (abs_path base ++ slash :: s) slash) by (by rewrite Hs, <- app_assoc).
    unfold abs_path in Hsplit. cbn [app] in Hsplit. rewrite !Split_slash, Split_join_proper in Hsplit by done.
    injection Hsplit as ->.
    assert (Hj : Split (Join base slash ++ slash :: s) slash = base ++ Split s slash).
    { clear - Hb Hb0. induction Hb as [|x l Hx Hl IH]; [done|]. destruct Hx as (_ & _ & _ & Hx).
      destruct l as [|y l]; [cbn [Join]; by rewrite Split_app_sep|].
      change (Join (x :: y :: l) slash) with (x ++ slash :: Join (y :: l) slash).
      rewrite <- app_assoc. cbn [app]. rewrite Split_app_sep by done. by rewrite IH. }
    rewrite Hj. pose proof (Split_not_nil s slash) as Hs0. destruct (Split s slash) as [|e rest]; [done|]. by exists e, rest.
  - intros (e & rest & ->). exists (Join (e :: rest) slash). unfold abs_path. by rewrite Join_app, <- app_assoc.
Qed.

Lemma elements3 a n : proper a → proper n → Forall proper (dir ++ [a; bs "id"; n]).
Proof.
  intros Ha Hn. apply more_proper. apply Forall_cons_2; [done|]. apply Forall_cons_2; [by apply proper_name|].
  by apply Forall_cons_2; [|apply Forall_nil_2].
Qed.
Lemma elements2 a : proper a → Forall proper (dir ++ [a; bs "id"]).
Proof.
  intros Ha. apply more_proper. apply Forall_cons_2; [done|]. by apply Forall_cons_2; [apply proper_name|apply Forall_nil_2].
Qed.
Lemma below_dir es : es ≠ [] → dir ++ es ≠ [].
Proof. by destruct dir. Qed.

(** The directories of frames and identities are all different, and do not contain each
    other except for the identities of a frame. *)
Lemma paths_differ a b n n' : proper a → proper b → proper n → proper n' →
  Path (frame a) n ≠ IDDir (frame b) ∧ (Path (frame a) n = Path (frame b) n' → a = b ∧ n = n') ∧
  ¬ beneath (Path (frame a) n) (Path (frame b) n') ∧ ¬ beneath (Path (frame a) n) (IDDir (frame b)) ∧
  (beneath (IDDir (frame a)) (Path (frame b) n) → a = b) ∧ ¬ beneath (IDDir (frame a)) (IDDir (frame b)).
Proof.
  intros Ha Hb Hn Hn'. pose proof (elements3 a n Ha Hn). pose proof (elements3 b n' Hb Hn').
  pose proof (elements3 b n Hb Hn). pose proof (elements2 a Ha). pose proof (elements2 b Hb).
  rewrite !IDDir_eq, !Path_eq by done. split_and!.
  - intros Heq%abs_path_inj; [|done|done|by apply below_dir|by apply below_dir]. by apply app_inv_head in Heq.
  - intros Heq%abs_path_inj; [|done|done|by apply below_dir|by apply below_dir]. apply app_inv_head in Heq. by injection Heq.
  - rewrite beneath_abs by (done || by apply below_dir). intros (e & rest & Heq).
    rewrite <- app_assoc in Heq. by apply app_inv_head in Heq.
  - rewrite beneath_abs by (done || by apply below_dir). intros (e & rest & Heq).
    rewrite <- app_assoc in Heq. by apply app_inv_head in Heq.
  - rewrite beneath_abs by (done || by apply below_dir). intros (e & rest & Heq).
    rewrite <- app_assoc in Heq. apply app_inv_head in Heq. by injection Heq.
  - rewrite beneath_abs by (done || by apply below_dir). intros (e & rest & Heq).
    rewrite <- app_assoc in Heq. by apply app_inv_head in Heq.
Qed.

(** Nothing is below a frame's [id] unless that is a subvolume, and the tree has nothing
    below an identity: a snapshot keeps no nested subvolumes. *)
Record ids_ok (t : tree) : Prop := {
  io_dir : ∀ a q, proper a → beneath (IDDir (frame a)) q → is_Some (t !! q) →
             ∃ x, t !! IDDir (frame a) = Some x ∧ n_subvol x = true;
  io_leaf : ∀ a n q, proper a → proper n → beneath (Path (frame a) n) q → t !! q = None;
}.

Section steps.
Context (env : tree_env).

Lemma ensure_id_spec t b :
  ids_ok t → proper b → show_fails env (IDDir (frame b)) = false →
  let '(t', e) := ensureIDSubvol env t (frame b) in
  kept_but (IDDir (frame b)) t t' ∧
  (∀ x, t !! IDDir (frame b) = Some x → n_subvol x = true → ∃ x', t' !! IDDir (frame b) = Some x' ∧ same_contents x x') ∧
  (e = None → ∃ x, t' !! IDDir (frame b) = Some x ∧ n_subvol x = true ∧ n_owner x = 0 ∧ n_mode x = 493).
Proof.
  intros Hok Hb Hshow. unfold ensureIDSubvol. set (p := IDDir (frame b)) in *.
  pose proof (make_subvol_spec env t p Hshow) as Hm. destruct (make_subvol env t p) as [t1 e1].
  destruct Hm as (Hk & Hsh & Hsame & Hnew).
  assert (Hk1 : kept_but p t t1).
  { intros q Hq. destruct (decide (beneath p q)) as [Hbq|Hbq]; [|by apply Hk].
    destruct (t !! q) as [x|] eqn:Hx; [|by destruct (Hsh q Hq) as [-> | ->]].
    destruct (io_dir t Hok b q Hb Hbq) as (y & Hy & Hs); [by eexists|].
    destruct (Hsame y Hy Hs) as [-> _]. done. }
  destruct e1 as [e1|]; cbn [and_then].
  { split_and!; [done| |done]. intros x Hx Hs. destruct (Hsame x Hx Hs) as [_ ?]. done. }
  destruct (Hnew eq_refl) as (x1 & Hx1 & Hs1 & Hold). unfold configureIDDir.
  pose proof (own_spec env t1 p 0 493) as Ho. destruct (own env t1 p 0 493) as [t2 e2]. destruct Ho as (Hk2 & Ho & _).
  destruct (Ho x1 Hx1) as (x2 & Hx2 & [Hs2 Hd2] & Hown). split_and!.
  - intros q Hq. by rewrite Hk2, Hk1.
  - intros x Hx Hs. destruct (Hsame x Hx Hs) as [-> _]. exists x2. split; [done|]. rewrite Hx in Hx1. by injection Hx1 as <-.
  - intros ->. exists x2. destruct (Hown eq_refl). by rewrite Hs2.
Qed.

(** Making sure of an identity: the one that is there stays, else there is a new one. *)
Lemma ensure_spec t b n :
  ids_ok t → proper b → validateRefName n = true →
  show_fails env (IDDir (frame b)) = false → show_fails env (Path (frame b) n) = false →
  let p := Path (frame b) n in
  let '(t', e) := Ensure env t (frame b) n in
  (∀ q, q ≠ IDDir (frame b) → q ≠ p → t' !! q = t !! q) ∧
  (∀ x, t !! p = Some x → n_subvol x = true → ∃ x', t' !! p = Some x' ∧ same_contents x x') ∧
  (e = None → t' !! p = Some (MkNode true ThundersnapUID 448
                 (match t !! p with Some x => if n_subvol x then n_data x else [] | None => [] end))).
Proof.
  intros Hok Hb Hv Hshow Hshow' p. pose proof (valid_name_proper n Hv) as Hn.
  destruct (paths_differ b b n n Hb Hb Hn Hn) as (Hpd & _ & _ & Hpn & _). fold p in Hpd, Hpn.
  unfold Ensure. rewrite Hv. cbn [negb].
  pose proof (ensure_id_spec t b Hok Hb Hshow) as He. destruct (ensureIDSubvol env t (frame b)) as [t1 [e1|]];
    destruct He as (Hk1 & _ & _); cbn [and_then].
  { split_and!; [intros q Hq _; by apply Hk1| |done]. intros x Hx _. exists x. rewrite Hk1 by done. by split. }
  fold p. pose proof (make_subvol_spec env t1 p Hshow') as Hm.
  destruct (make_subvol env t1 p) as [t2 e2]. destruct Hm as (Hk & Hsh & Hsame & Hnew).
  assert (Hp1 : t1 !! p = t !! p) by (by apply Hk1).
  assert (Hk2 : kept_but p t1 t2).
  { intros q Hq. destruct (decide (beneath p q)) as [Hbq|Hbq]; [|by apply Hk].
    assert (Hq1 : t1 !! q = None).
    { rewrite Hk1; [by apply (io_leaf t Hok b n)|]. by intros ->. }
    rewrite Hq1. by destruct (Hsh q Hq) as [-> | ->]. }
  destruct e2 as [e2|]; cbn [and_then].
  { split_and!; [intros q Hq1 Hq2; by rewrite Hk2, Hk1| |done]. intros x Hx Hs. rewrite <- Hp1 in Hx.
    by destruct (Hsame x Hx Hs). }
  destruct (Hnew eq_refl) as (x2 & Hx2 & Hs2 & Hold). unfold configureRefDir.
  pose proof (own_spec env t2 p ThundersnapUID 448) as Ho. destruct (own env t2 p ThundersnapUID 448) as [t3 e3].
  destruct Ho as (Hk3 & Ho & _). destruct (Ho x2 Hx2) as (x3 & Hx3 & [Hs3 Hd3] & Hown). split_and!.
  - intros q Hq1 Hq2. by rewrite Hk3, Hk2, Hk1.
  - intros x Hx Hs. rewrite <- Hp1 in Hx. destruct (Hsame x Hx Hs) as [-> _]. exists x3. split; [done|].
    rewrite Hx in Hx2. by injection Hx2 as <-.
  - intros ->. destruct (Hown eq_refl) as [Hu Hmode]. destruct x3 as [s3 u3 m3 d3]. cbn [n_subvol n_owner n_mode n_data] in *.
    rewrite Hx3, Hs3, Hs2, Hd3, Hu, Hmode, <- Hp1. do 2 f_equal. destruct Hold as [->|[-> Hold]]; [by rewrite Hs2|].
    destruct (t1 !! p) as [y|]; [by rewrite Hold|done].
Qed.

(** The tree stays in order when an [id] is made. *)
Lemma ids_ok_ensured t t' b :
  ids_ok t → proper b → kept_but (IDDir (frame b)) t t' →
  (∃ x, t' !! IDDir (frame b) = Some x ∧ n_subvol x = true) → ids_ok t'.
Proof.
  intros [Hd Hl] Hb Hk Hx. pose proof (proper_name (bs "x") ltac:(done)) as Hn. split.
  - intros a q Ha Hq Hsome. destruct (decide (a = b)) as [->|Hab]; [done|].
    destruct (paths_differ a b (bs "x") (bs "x") Ha Hb Hn Hn) as (_ & _ & _ & _ & _ & Hid).
    assert (Hne' : IDDir (frame a) ≠ IDDir (frame b)).
    { rewrite !IDDir_eq by done. intros Heq%abs_path_inj; [|by apply elements2|by apply elements2|by apply below_dir|by apply below_dir].
      apply app_inv_head in Heq. congruence. }
    rewrite Hk by done. rewrite Hk in Hsome by (by intros ->). by apply (Hd a q).
  - intros a n q Ha Hn' Hq. destruct (paths_differ a b n n Ha Hb Hn' Hn') as (_ & _ & _ & Hid & _).
    rewrite Hk by (by intros ->). by apply (Hl a n).
Qed.

Lemma prune_leaf t p : (∀ q, beneath p q → t !! q = None) → kept_but p t (prune t p).
Proof.
  intros Hl q Hq. rewrite prune_lookup. case_bool_decide as Ho; [done|]. symmetry. apply Hl.
  unfold outside in Ho. destruct (decide (beneath p q)); tauto.
Qed.

Lemma clear_spec t dst :
  (∀ q, beneath dst q → t !! q = None) → show_fails env dst = false →
  let '(t', e) := clear env t dst in kept_but dst t t' ∧ (e = None → t' !! dst = None).
Proof.
  intros Hl Hshow. unfold clear, DeleteSubvol, removeIfPlainDir, RemoveAll, IsSubvolume. rewrite Hshow.
  assert (Hp : prune t dst !! dst = None) by (rewrite prune_lookup, bool_decide_eq_false_2; [done|by intros []]).
  assert (Hk : kept_but dst t (prune t dst)) by (by apply prune_leaf).
  destruct (t !! dst) as [x|] eqn:Hx; cbn [negb andb]; [destruct (n_subvol x); cbn [negb andb]|].
  - by destruct (_ || _ || _).
  - rewrite bool_decide_eq_true_2 by by eexists. by destruct (rm_fails env dst).
  - rewrite bool_decide_eq_false_2 by by intros []. done.
Qed.

Lemma rename_spec t src dst x :
  t !! src = Some x → t !! dst = None →
  let '(t', e) := Rename env t src dst in
  match e with Some _ => t' = t | None => t' = <[dst := x]> (delete src t) end.
Proof.
  intros Hs Hd. unfold Rename. rewrite Hs. by destruct (_ || _ || _ || _).
Qed.

(** The move proper. *)
Lemma move_subvol t src dst x :
  src ≠ dst → (∀ q, beneath dst q → t !! q = None) → show_fails env dst = false → t !! src = Some x →
  let '(t', e) := and_then (clear env t dst) (λ t, and_then (Rename env t src dst) (λ t, configureRefDir env t dst)) in
  (∀ q, q ≠ src → q ≠ dst → t' !! q = t !! q) ∧
  (t' !! src = Some x ∨ t' !! src = None ∧ ∃ x', t' !! dst = Some x' ∧ same_contents x x') ∧
  (e = None → t' !! src = None ∧ t' !! dst = Some (MkNode (n_subvol x) ThundersnapUID 448 (n_data x))).
Proof.
  intros Hsd Hl Hshow Hx. pose proof (clear_spec t dst Hl Hshow) as Hc.
  destruct (clear env t dst) as [t1 [e1|]]; destruct Hc as [Hk1 Hd]; cbn [and_then].
  { split_and!; [intros; by apply Hk1|left; by rewrite Hk1|done]. }
  assert (Hx1 : t1 !! src = Some x) by (by rewrite Hk1). specialize (Hd eq_refl).
  pose proof (rename_spec t1 src dst x Hx1 Hd) as Hr. destruct (Rename env t1 src dst) as [t2 [e2|]]; subst t2; cbn [and_then].
  { split_and!; [intros; by apply Hk1|by left|done]. }
  unfold configureRefDir. set (t2 := <[dst := x]> (delete src t1)).
  assert (Hdst : t2 !! dst = Some x) by apply lookup_insert_eq.
  assert (Hsrc : t2 !! src = None) by (unfold t2; by rewrite lookup_insert_ne, lookup_delete_eq).
  pose proof (own_spec env t2 dst ThundersnapUID 448) as Ho. destruct (own env t2 dst _ _) as [t3 e3].
  destruct Ho as (Hk3 & Ho & _). destruct (Ho x Hdst) as (x' & Hx' & [Hs Hdat] & Hown). split_and!.
  - intros q H1 H2. rewrite Hk3 by done. unfold t2. rewrite lookup_insert_ne, lookup_delete_ne by done. by apply Hk1.
  - right. split; [by rewrite Hk3|]. exists x'. by split.
  - intros ->. destruct (Hown eq_refl) as [Hu Hm]. split; [by rewrite Hk3|]. destruct x' as [s' u' m' d'].
    cbn [n_subvol n_owner n_mode n_data] in *. by rewrite Hx', Hs, Hu, Hm, Hdat.
Qed.
End steps.
End frames.

(** ** Properties *)

(** C28: The identity of a ref follows it and is not lost, as long as the two
    looks at the new frame's side ([id] and the place of the identity in it) answer;
    every other call may fail at any point, the look at the old identity included.
    While the ref moves from one frame to another, its private state is in the old
    frame as it was or in the new one; when the move succeeds and the old identity was
    seen, it is in the new frame, whole, and belongs to the frame's user alone; a ref
    that had no identity has one; and the identities of all other refs and everything
    else stay as they were. (Without the answers a failed look counts as no, and the
    identities there are wiped: [unreadable_id_is_wiped].) *)
Theorem identity_never_lost env dir t a b n :
  Forall proper dir → dir ≠ [] → proper a → proper b → a ≠ b → ids_ok dir t →
  show_fails env (IDDir (frame dir b)) = false → show_fails env (Path (frame dir b) n) = false →
  let src := Path (frame dir a) n in
  let dst := Path (frame dir b) n in
  let '(t', e) := Move env t (frame dir a) (frame dir b) n in
  (∀ q, q ≠ IDDir (frame dir b) → q ≠ src → q ≠ dst → t' !! q = t !! q) ∧
  (∀ x, t !! src = Some x → n_subvol x = true →
     (t' !! src = Some x ∨ t' !! src = None ∧ ∃ x', t' !! dst = Some x' ∧ same_contents x x') ∧
     (e = None → show_fails env src = false → t' !! src = None ∧ t' !! dst = Some (MkNode true ThundersnapUID 448 (n_data x)))) ∧
  (e = None → t !! src = None → ∃ data, t' !! dst = Some (MkNode true ThundersnapUID 448 data)).
Proof.
  intros Hdir Hne Ha Hb Hab Hok Hs1 Hs2 src dst. unfold Move. destruct (validateRefName n) eqn:Hv; cbn [negb].
  2: { split_and!; [done| |done]. intros x Hx _. split; [by left|done]. }
  pose proof (valid_name_proper n Hv) as Hn.
  destruct (paths_differ dir Hdir Hne a b n n Ha Hb Hn Hn) as (Hsd & Hsdst & Hns & _).
  destruct (paths_differ dir Hdir Hne b a n n Hb Ha Hn Hn) as (_ & _ & Hns' & _).
  destruct (paths_differ dir Hdir Hne b b n n Hb Hb Hn Hn) as (Hdd & _). fold src dst in Hsd, Hsdst, Hns, Hns', Hdd.
  assert (Hne_sd : src ≠ dst) by (intros Heq; by destruct (Hsdst Heq)).
  pose proof (ensure_id_spec dir env t b Hok Hb Hs1) as He.
  destruct (ensureIDSubvol env t (frame dir b)) as [t1 [e1|]]; destruct He as (Hk1 & _ & Hx1); cbn [and_then].
  { split_and!; [intros q Hq _ _; by apply Hk1| |done]. intros x Hx _. split; [left; by rewrite Hk1|done]. }
  cbn zeta. fold src dst. destruct (Hx1 eq_refl) as (y & Hy & Hsy & _).
  assert (Hok1 : ids_ok dir t1) by (apply (ids_ok_ensured dir Hdir Hne t t1 b); [done..|by exists y]).
  assert (Hsrc1 : t1 !! src = t !! src) by (by apply Hk1).
  destruct (IsSubvolume env t1 src) eqn:Hsub; cbn [negb].
  2: { pose proof (ensure_spec dir Hdir Hne env t1 b n Hok1 Hb Hv Hs1 Hs2) as Hens. fold dst in Hens.
       destruct (Ensure env t1 (frame dir b) n) as [t2 e2]. destruct Hens as (Hk2 & _ & Hnew).
       assert (Hsrc2 : t2 !! src = t !! src) by (rewrite (Hk2 src Hsd Hne_sd); exact Hsrc1). split_and!.
       - intros q Hq1 Hq2 Hq3. rewrite Hk2 by done. by apply Hk1.
       - intros x Hx Hsx. split; [left; by rewrite Hsrc2|]. intros _ Hshow. exfalso.
         unfold IsSubvolume in Hsub. by rewrite Hsrc1, Hx, Hshow, Hsx in Hsub.
       - intros -> _. eexists. by apply Hnew. }
  unfold IsSubvolume in Hsub. apply andb_true_iff in Hsub as [_ Hsub]. rewrite Hsrc1 in Hsub.
  destruct (t !! src) as [x|] eqn:Hx; [|done].
  pose proof (move_subvol env t1 src dst x Hne_sd ltac:(intros q; by apply (io_leaf dir t1 Hok1 b n)) Hs2 Hsrc1) as Hm.
  destruct (and_then (clear env t1 dst) _) as [t2 e2]. destruct Hm as (Hk2 & Hlost & Hdone). split_and!.
  - intros q Hq1 Hq2 Hq3. by rewrite Hk2, Hk1.
  - intros y' [= <-] _. split; [done|]. intros He _. destruct (Hdone He) as [H1 H2]. by rewrite <- Hsub.
  - intros _ ?. done.
Qed.

Definition example_tree : tree :=
  {[ bs "/a" := MkNode true 0 493 []; bs "/b" := MkNode true 0 493 [];
     bs "/a/id" := MkNode true 0 493 []; bs "/a/id/x" := MkNode true 0 448 (bs "key") ]}.

(** Two frames, the first with the identities of two refs. *)
Definition example_frames : tree :=
  {[ bs "/fs/a" := MkNode true 0 493 []; bs "/fs/b" := MkNode true 0 493 [];
     bs "/fs/a/id" := MkNode true 0 493 []; bs "/fs/a/id/x" := MkNode true 7575 448 (bs "key");
     bs "/fs/a/id/y" := MkNode true 7575 448 (bs "other") ]}.

(** The paths of the tree and their elements. *)
Definition example_elements : list (list gostring) :=
  [ [bs "fs"; bs "a"]; [bs "fs"; bs "b"]; [bs "fs"; bs "a"; bs "id"];
    [bs "fs"; bs "a"; bs "id"; bs "x"]; [bs "fs"; bs "a"; bs "id"; bs "y"] ].

Lemma example_frames_paths q : is_Some (example_frames !! q) → ∃ es, es ∈ example_elements ∧ q = abs_path es.
Proof.
  intros [x Hx]. assert (Hq : q ∈ abs_path <$> example_elements).
  { unfold example_frames in Hx. repeat (apply lookup_insert_Some in Hx as [[<- _]|[_ Hx]];
      [apply (bool_decide_eq_true_1 _); vm_compute; reflexivity|]).
    apply lookup_singleton_Some in Hx as [<- _]. apply (bool_decide_eq_true_1 _). vm_compute. reflexivity. }
  apply list_elem_of_fmap in Hq as (es & -> & Hes). by exists es.
Qed.

Lemma example_proper : Forall (Forall proper) example_elements.
Proof. unfold example_elements. repeat first [apply Forall_nil_2|apply Forall_cons_2|by apply proper_name]. Qed.

Lemma example_not_empty es : es ∈ example_elements → es ≠ [].
Proof. intros Hes ->. by apply (bool_decide_eq_true_2 _) in Hes. Qed.

Lemma example_ids_ok : ids_ok [bs "fs"] example_frames.
Proof.
  assert (Hdir : Forall proper [bs "fs"]) by (by apply Forall_cons_2; [apply proper_name|apply Forall_nil_2]).
  split.
  - intros a q Ha Hb (es & Hes & ->)%example_frames_paths.
    pose proof (proj1 (Forall_forall _ _) example_proper es Hes) as Hp.
    rewrite IDDir_eq in * by done. apply beneath_abs in Hb as (e & rest & ->); [|done|by apply elements2|done|by apply example_not_empty].
    unfold example_elements in Hes. cbn [app] in Hes.
    repeat (apply elem_of_cons in Hes as [Heq|Hes]; [try discriminate Heq; assert (a = bs "a") as -> by congruence; eexists; split; vm_compute; reflexivity|]).
    by apply elem_of_nil in Hes.
  - intros a n q Ha Hn Hb. destruct (example_frames !! q) as [x|] eqn:Hx; [|done]. exfalso.
    destruct (example_frames_paths q (mk_is_Some _ _ Hx)) as (es & Hes & ->).
    pose proof (proj1 (Forall_forall _ _) example_proper es Hes) as Hp.
    rewrite Path_eq in * by done. apply beneath_abs in Hb as (e & rest & ->); [|done|by apply elements3|done|].
    + unfold example_elements in Hes. cbn [app] in Hes.
      repeat (apply elem_of_cons in Hes as [Heq|Hes]; [discriminate Heq|]). by apply elem_of_nil in Hes.
    + by apply example_not_empty.
Qed.

(** The identity of [x] moves from [a] to [b], also when the new owner cannot be set. *)
Lemma identity_never_lost_witness :
  let dir := [bs "fs"] in
  let stuck := MkTreeEnv (λ _, false) (λ _, false) (λ _, false) (λ _, false) (λ _, false)
                 (λ p, bool_decide (p = bs "/fs/b/id/x")) (λ _, false) in
  let src := Path (frame dir (bs "a")) (bs "x") in
  let dst := Path (frame dir (bs "b")) (bs "x") in
  (let '(t', e) := Move calm example_frames (frame dir (bs "a")) (frame dir (bs "b")) (bs "x") in
   e = None ∧ t' !! src = None ∧ t' !! dst = Some (MkNode true 7575 448 (bs "key"))) ∧
  (let '(t', e) := Move stuck example_frames (frame dir (bs "a")) (frame dir (bs "b")) (bs "x") in
   e = Some ErrChown ∧ t' !! src = None ∧ ∃ x', t' !! dst = Some x' ∧ n_data x' = bs "key").
Proof.
  intros dir stuck src dst.
  assert (Hdir : Forall proper dir) by exact (Forall_cons_2 _ _ _ (proper_name (bs "fs") eq_refl) (Forall_nil_2 _)).
  assert (Hsrc : example_frames !! src = Some (MkNode true 7575 448 (bs "key"))) by (vm_compute; reflexivity).
  split.
  - destruct (Move calm example_frames (frame dir (bs "a")) (frame dir (bs "b")) (bs "x")) as [t' e] eqn:Hm.
    assert (He : e = None) by (apply (f_equal snd) in Hm; cbn [snd] in Hm; rewrite <- Hm; vm_compute; reflexivity).
    pose proof (identity_never_lost calm dir example_frames (bs "a") (bs "b") (bs "x") Hdir ltac:(discriminate)
      (proper_name (bs "a") eq_refl) (proper_name (bs "b") eq_refl) ltac:(discriminate) example_ids_ok eq_refl eq_refl) as H.
    cbv zeta in H. rewrite Hm in H. destruct H as (_ & H & _).
    destruct (H _ Hsrc eq_refl) as [_ Hdone]. exact (conj He (Hdone He eq_refl)).
  - destruct (Move stuck example_frames (frame dir (bs "a")) (frame dir (bs "b")) (bs "x")) as [t' e] eqn:Hm.
    assert (He : e = Some ErrChown) by (apply (f_equal snd) in Hm; cbn [snd] in Hm; rewrite <- Hm; vm_compute; reflexivity).
    assert (Hs' : t' !! src = None) by (apply (f_equal fst) in Hm; cbn [fst] in Hm; rewrite <- Hm; vm_compute; reflexivity).
    pose proof (identity_never_lost stuck dir example_frames (bs "a") (bs "b") (bs "x") Hdir ltac:(discriminate)
      (proper_name (bs "a") eq_refl) (proper_name (bs "b") eq_refl) ltac:(discriminate) example_ids_ok
      ltac:(vm_compute; reflexivity) ltac:(vm_compute; reflexivity)) as H.
    cbv zeta in H. rewrite Hm in H. destruct H as (_ & H & _). fold src dst in H.
    destruct (H _ Hsrc eq_refl) as [[Hkept|(_ & x' & Hx' & _ & Hdata)] _]; [congruence|].
    split; [exact He|]. split; [exact Hs'|]. exists x'. exact (conj Hx' Hdata).
Defined.

(** When a call cannot tell that [id] is a subvolume, it is removed with every identity
    in it. *)
Lemma unreadable_id_is_wiped :
  let env := MkTreeEnv (λ p, bool_decide (p = bs "/a/id")) (λ _, false) (λ _, false) (λ _, false) (λ _, false) (λ _, false) (λ _, false) in
  let '(t', e) := RepairOwnership env example_tree (bs "/a") in
  e = None ∧ t' !! bs "/a/id/x" = None.
Proof. vm_compute. by split. Qed.
