(* ===== verification/Portmap.v ===== *)
(** * The portmapper ([src/cmd/thundersnapd/portmap.go])

    A minimal rpcbind for NFS clients: over TCP with record marking and over UDP, it
    answers where NFS and MOUNT are served and grants every lock request. Offsets into
    a message are [uint32] values that the client's lengths are added to, and they wrap
    around as they do in the code; a slice outside of the message panics. *)

From Stdlib Require Import Strings.String.
From S2P Require Import Prelude GoStrings GoIO.

(** ** Numbers *)

Definition portmapProg : Z := 100000.
Definition mountProg : Z := 100005.
Definition nfsProg : Z := 100003.
Definition nlmProg : Z := 100021.
Definition nfsAclProg : Z := 100227.

Definition pmapProcNull : Z := 0.
Definition pmapProcGetport : Z := 3.

Record portmapServer := { nfsPort : Z; mountPort : Z }.

(** ** Messages *)

(** [body[a:b]] for [uint32] indices. *)
Definition slice32 (body : list byte) (a b : Z) : outcome unit (list byte) :=
  if (a <=? b) && (b <=? Z.of_nat (length body))
  then Ret (take (Z.to_nat (b - a)) (drop (Z.to_nat a) body)) else Panic.

Definition word (body : list byte) (a : Z) : outcome unit Z :=
  s ← slice32 body a (u32 (a + 4)); Ret (be_get s).

(** The offset behind an opaque of [len] bytes at [offset], with its padding. *)
Definition skip_opaque (offset len : Z) : Z :=
  let offset := u32 (offset + len) in
  if len mod 4 =? 0 then offset else u32 (offset + (4 - len mod 4)).

Definition short (body : list byte) (need : Z) : bool := u32 (Z.of_nat (length body)) <? need.

(** The offset of the arguments, behind the credentials and the verifier:
    [None] when the message is too short. *)
Definition skip_auth (body : list byte) : outcome unit (option Z) :=
  if Z.of_nat (length body) <? 8 then Ret None
  else
    credLen ← word body 4;
    let offset := skip_opaque 8 credLen in
    if short body (u32 (offset + 8)) then Ret None
    else
      verf ← slice32 body (u32 (offset + 4)) (u32 (offset + 8));
      Ret (Some (skip_opaque (u32 (offset + 8)) (be_get verf))).

(** An opaque or string at [offset]: its bytes. *)
Definition read_opaque (body : list byte) (offset : Z) : outcome unit (option (list byte)) :=
  if short body (u32 (offset + 4)) then Ret None
  else
    len ← word body offset;
    let offset := u32 (offset + 4) in
    if short body (u32 (offset + len)) then Ret None
    else (s ← slice32 body offset (u32 (offset + len)); Ret (Some s)).

(** An XDR opaque on the wire. *)
Definition padding (s : list byte) : nat := ((4 - length s mod 4) mod 4)%nat.
Definition xdr_opaque (s : list byte) : list byte :=
  put32 (u32 (Z.of_nat (length s))) ++ s ++ replicate (padding s) Byte.x00.

(** ** Replies *)

Definition accepted_header (xid stat : Z) : list byte :=
  put32 xid ++ put32 1 ++ put32 0 ++ put32 0 ++ put32 0 ++ put32 stat.

Definition makeNull (xid : Z) : list byte := accepted_header xid 0.
Definition makeProgUnavail (xid : Z) : list byte := accepted_header xid 1.
Definition makeReject (xid : Z) : list byte := put32 xid ++ put32 1 ++ put32 1 ++ put32 1 ++ put32 1.

(** ** The procedures *)

(** [fmt.Sprintf("0.0.0.0.%d.%d", port/256, port%256)]. *)
Definition universal_address (port : Z) : gostring :=
  bs "0.0.0.0." ++ fmt_uint (port / 256) ++ bs "." ++ fmt_uint (port mod 256).

Definition getaddr_answer (p : portmapServer) (reqProg : Z) (netid : gostring) : gostring :=
  let isTCP := bool_decide (netid = bs "tcp") || bool_decide (netid = bs "tcp6") in
  let isUDP := bool_decide (netid = bs "udp") || bool_decide (netid = bs "udp6") in
  if reqProg =? nfsProg then (if isTCP then universal_address (nfsPort p) else [])
  else if reqProg =? mountProg then (if isTCP then universal_address (mountPort p) else [])
  else if reqProg =? nlmProg then (if isTCP || isUDP then universal_address 111 else [])
  else [].

Definition makeGetaddrResponse (p : portmapServer) (xid : Z) (body : list byte) : outcome unit (list byte) :=
  a ← skip_auth body;
  match a with
  | None => Ret (makeReject xid)
  | Some offset =>
      if short body (u32 (offset + 8)) then Ret (makeReject xid)
      else
        reqProg ← word body offset;
        _ ← slice32 body (u32 (offset + 4)) (u32 (offset + 8));
        netid ← read_opaque body (u32 (offset + 8));
        match netid with
        | None => Ret (makeReject xid)
        | Some netid => Ret (accepted_header xid 0 ++ xdr_opaque (getaddr_answer p reqProg netid))
        end
  end.

Definition getport_answer (p : portmapServer) (reqProg reqProto : Z) : Z :=
  let isTCP := (reqProto =? 6) || negb (reqProto =? 17) in
  if reqProg =? nfsProg then (if isTCP then nfsPort p else 0)
  else if reqProg =? mountProg then (if isTCP then mountPort p else 0)
  else if reqProg =? nlmProg then 111
  else 0.

Definition makeGetportResponse (p : portmapServer) (xid : Z) (body : list byte) : outcome unit (list byte) :=
  a ← skip_auth body;
  match a with
  | None => Ret (makeReject xid)
  | Some offset =>
      if short body (u32 (offset + 16)) then Ret (makeReject xid)
      else
        reqProg ← word body offset;
        _ ← slice32 body (u32 (offset + 4)) (u32 (offset + 8));
        proto ← slice32 body (u32 (offset + 8)) (u32 (offset + 12));
        Ret (accepted_header xid 0 ++ put32 (getport_answer p reqProg (be_get proto)))
  end.

(** The lock manager: [nil] where the cookie cannot be found. *)
Definition extractCookie (body : list byte) : outcome unit (list byte) :=
  a ← skip_auth body;
  match a with
  | None => Ret []
  | Some offset => c ← read_opaque body offset; Ret (default [] c)
  end.

Definition nlm4Granted : Z := 0.

Definition makeNLMCallback (vers proc : Z) (cookie : list byte) : list byte :=
  put32 0x12345678 ++ put32 0 ++ put32 2 ++ put32 nlmProg ++ put32 vers ++ put32 proc ++
  put32 0 ++ put32 0 ++ put32 0 ++ put32 0 ++ xdr_opaque cookie ++ put32 nlm4Granted.

Definition makeNLMRes (xid : Z) (body : list byte) : outcome unit (list byte) :=
  a ← skip_auth body;
  match a with
  | None => Ret (makeNull xid)
  | Some offset =>
      c ← read_opaque body offset;
      match c with
      | None => Ret (makeNull xid)
      | Some cookie => Ret (accepted_header xid 0 ++ xdr_opaque cookie ++ put32 nlm4Granted)
      end
  end.

(** What a message leads to: the reply, and a call back to the client's port. *)
Record answer := MkAnswer { reply : option (list byte); callback : option (list byte) }.

Definition is_nlm_sync (proc : Z) : bool :=
  existsb (Z.eqb proc) [1; 2; 3; 4; 5; 20; 21; 22].
Definition is_nlm_async (proc : Z) : bool :=
  existsb (Z.eqb proc) [6; 7; 8; 9; 10].

(** [udp]: the message came over UDP, so that a call back is possible. *)
Definition handleNLM (udp : bool) (xid vers proc : Z) (body : list byte) : outcome unit answer :=
  if is_nlm_sync proc then (r ← makeNLMRes xid body; Ret (MkAnswer (Some r) None))
  else if is_nlm_async proc then
    cookie ← extractCookie body;
    Ret (MkAnswer (Some (makeNull xid))
           (if udp then Some (makeNLMCallback vers (u32 (proc + 5)) cookie) else None))
  else Ret (MkAnswer (Some (makeNull xid)) None).

Definition handleRPCMessage (p : portmapServer) (udp : bool) (msg : list byte) : outcome unit answer :=
  if (length msg <? 24)%nat then Ret (MkAnswer None None)
  else
    let field a := be_get (take 4 (drop a msg)) in
    let xid := field 0%nat in
    let body := drop 24 msg in
    if negb (field 4%nat =? 0) then Ret (MkAnswer None None)
    else
      let prog := field 12%nat in
      let vers := field 16%nat in
      let proc := field 20%nat in
      if prog =? nlmProg then handleNLM udp xid vers proc body
      else if negb (prog =? portmapProg) then Ret (MkAnswer (Some (makeReject xid)) None)
      else if proc =? pmapProcNull then Ret (MkAnswer (Some (makeNull xid)) None)
      else if proc =? pmapProcGetport then
        r ← (if 3 <=? vers then makeGetaddrResponse p xid body else makeGetportResponse p xid body);
        Ret (MkAnswer (Some r) None)
      else Ret (MkAnswer (Some (makeReject xid)) None).

(** ** The connections *)

Definition sendTCPFragment (data : list byte) : list byte :=
  put32 (Z.lor (u32 (Z.of_nat (length data))) 0x80000000) ++ data.

(** [handleTCPConn]: what it writes until the stream ends; every message takes at
    least four bytes. [Panic] is the end of the whole process. *)
Fixpoint handleTCPConn (fuel : nat) (p : portmapServer) (r : list byte) : outcome unit (list byte) :=
  match fuel with
  | O => Ret []
  | S fuel' =>
      match ReadFull 4 r with
      | Ret (hdr, r1) =>
          let fragLen := Z.land (be_get hdr) 0x7FFFFFFF in
          match ReadFull (Z.to_nat fragLen) r1 with
          | Ret (msg, r2) =>
              a ← handleRPCMessage p false msg;
              rest ← handleTCPConn fuel' p r2;
              Ret (match reply a with Some resp => sendTCPFragment resp | None => [] end ++ rest)
          | _ => Ret []
          end
      | _ => Ret []
      end
  end.

(** [handleUDPPacket]: the packets sent, the call back first. *)
Definition handleUDPPacket (p : portmapServer) (msg : list byte) : outcome unit (list (list byte)) :=
  a ← handleRPCMessage p true msg;
  Ret (option_list (callback a) ++ option_list (reply a)).

(** ** Lemmas: slices and lengths *)

Lemma slice32_app (p m q : list byte) a b :
  a = Z.of_nat (length p) → b = a + Z.of_nat (length m) → slice32 (p ++ m ++ q) a b = Ret m.
Proof.
  intros -> ->. unfold slice32. rewrite !length_app.
  destruct (Z.leb_spec (Z.of_nat (length p)) (Z.of_nat (length p) + Z.of_nat (length m))); [|lia].
  destruct (Z.leb_spec (Z.of_nat (length p) + Z.of_nat (length m))
    (Z.of_nat (length p + (length m + length q)))); [|lia]. cbn [andb].
  replace (Z.to_nat (_ - _)) with (length m) by lia. rewrite Nat2Z.id, drop_app_length.
  by rewrite take_app_length.
Qed.

Lemma word_app p z q a :
  a = Z.of_nat (length p) → a + 4 < 2 ^ 32 → is_u32 z → word (p ++ put32 z ++ q) a = Ret z.
Proof.
  intros Ha Hs Hz. unfold word. rewrite u32_id by (unfold is_u32; lia).
  rewrite (slice32_app p (put32 z) q) by (rewrite ?length_put32; lia). rewrite ret_bind, get_put32. by rewrite u32_id.
Qed.

Lemma padding_spec s : (padding s < 4)%nat ∧ (Z.of_nat (length s + padding s)) mod 4 = 0.
Proof.
  unfold padding. pose proof (Nat.mod_upper_bound (length s) 4 ltac:(lia)).
  pose proof (Nat.mod_upper_bound (4 - length s mod 4) 4 ltac:(lia)). split; [lia|].
  rewrite Nat2Z.inj_add, !Nat2Z.inj_mod, Nat2Z.inj_sub, Nat2Z.inj_mod by lia. change (Z.of_nat 4) with 4.
  Z.div_mod_to_equations. lia.
Qed.

Lemma length_xdr_opaque s : Z.of_nat (length (xdr_opaque s)) = 4 + Z.of_nat (length s) + Z.of_nat (padding s).
Proof. unfold xdr_opaque. rewrite !length_app, length_put32, length_replicate. lia. Qed.

Lemma xdr_opaque_aligned s : Z.of_nat (length (xdr_opaque s)) mod 4 = 0.
Proof.
  rewrite length_xdr_opaque. destruct (padding_spec s) as [_ H]. rewrite Nat2Z.inj_add in H.
  rewrite <- Z.add_assoc, <- (Z.add_mod_idemp_r 4), H by lia. done.
Qed.

Lemma skip_opaque_spec offset s :
  0 ≤ offset → offset + Z.of_nat (length s) + 4 < 2 ^ 32 →
  skip_opaque offset (Z.of_nat (length s)) = offset + Z.of_nat (length s) + Z.of_nat (padding s).
Proof.
  intros H0 Hs. unfold skip_opaque. rewrite (u32_id (offset + _)) by (unfold is_u32; lia).
  assert (Z.of_nat (padding s) = (4 - Z.of_nat (length s) mod 4) mod 4) as ->.
  { unfold padding. rewrite Nat2Z.inj_mod, Nat2Z.inj_sub, Nat2Z.inj_mod
      by (pose proof (Nat.mod_upper_bound (length s) 4); lia). done. }
  pose proof (Z.mod_pos_bound (Z.of_nat (length s)) 4 ltac:(lia)).
  destruct (Z.eqb_spec (Z.of_nat (length s) mod 4) 0) as [->|Hne].
  { change ((4 - 0) mod 4) with 0. lia. }
  rewrite (Z.mod_small (4 - Z.of_nat (length s) mod 4)) by lia.
  rewrite u32_id by (unfold is_u32; lia). lia.
Qed.

(** ** Calls as a client encodes them *)

Definition auth (flavor : Z) (s : list byte) : list byte := put32 flavor ++ xdr_opaque s.

Definition rpc_call (xid prog vers proc : Z) (cred verf args : list byte) : list byte :=
  put32 xid ++ put32 0 ++ put32 2 ++ put32 prog ++ put32 vers ++ put32 proc ++ cred ++ verf ++ args.

Lemma length_auth flavor s : Z.of_nat (length (auth flavor s)) = 8 + Z.of_nat (length s) + Z.of_nat (padding s).
Proof. unfold auth. rewrite length_app, length_put32, Nat2Z.inj_add, length_xdr_opaque. lia. Qed.

Lemma short_false body need :
  Z.of_nat (length body) < 2 ^ 32 → need ≤ Z.of_nat (length body) → short body need = false.
Proof. intros. unfold short. rewrite u32_id by (unfold is_u32; lia). lia. Qed.

Lemma skip_auth_call fc cred fv verf args :
  Z.of_nat (length (auth fc cred ++ auth fv verf ++ args)) < 2 ^ 31 →
  skip_auth (auth fc cred ++ auth fv verf ++ args) =
    Ret (Some (Z.of_nat (length (auth fc cred ++ auth fv verf)))).
Proof.
  intros Hlen. pose proof Hlen as Hl. rewrite !length_app, !Nat2Z.inj_add, !length_auth in Hl.
  unfold skip_auth. destruct (Z.ltb_spec (Z.of_nat (length (auth fc cred ++ auth fv verf ++ args))) 8) as [Hc|_].
  { rewrite !length_app, !Nat2Z.inj_add, !length_auth in Hc. lia. }
  assert (word (auth fc cred ++ auth fv verf ++ args) 4 = Ret (Z.of_nat (length cred))) as ->.
  { unfold auth at 1, xdr_opaque. rewrite <- !app_assoc.
    rewrite (word_app (put32 fc)); [by rewrite u32_id by (unfold is_u32; lia)|by rewrite length_put32|lia|apply u32_range]. }
  rewrite ret_bind. cbv zeta. rewrite skip_opaque_spec by lia.
  set (o1 := 8 + Z.of_nat (length cred) + Z.of_nat (padding cred)).
  assert (o1 = Z.of_nat (length (auth fc cred))) as Ho1 by (rewrite length_auth; unfold o1; lia).
  rewrite !(u32_id (o1 + _)) by (unfold is_u32, o1; lia).
  rewrite short_false by (rewrite ?length_app, ?Nat2Z.inj_add, ?length_auth; unfold o1; lia).
  assert (slice32 (auth fc cred ++ auth fv verf ++ args) (o1 + 4) (o1 + 8) = Ret (put32 (u32 (Z.of_nat (length verf))))) as ->.
  { unfold auth at 2, xdr_opaque. rewrite <- !app_assoc, (app_assoc (auth fc cred)).
    apply slice32_app; rewrite ?length_app, ?length_put32; lia. }
  rewrite ret_bind, get_put32, !u32_id by (unfold is_u32; lia || apply u32_range).
  rewrite skip_opaque_spec by (unfold o1; lia).
  do 2 f_equal. rewrite length_app, Nat2Z.inj_add, !length_auth. unfold o1. lia.
Qed.

Lemma read_opaque_call p s q :
  Z.of_nat (length (p ++ xdr_opaque s ++ q)) < 2 ^ 31 →
  read_opaque (p ++ xdr_opaque s ++ q) (Z.of_nat (length p)) = Ret (Some s).
Proof.
  intros Hlen. pose proof Hlen as Hl. rewrite !length_app, !Nat2Z.inj_add, length_xdr_opaque in Hl.
  unfold read_opaque. rewrite !(u32_id (Z.of_nat (length p) + 4)) by (unfold is_u32; lia).
  rewrite short_false by (rewrite ?length_app, ?Nat2Z.inj_add, ?length_xdr_opaque; lia).
  assert (word (p ++ xdr_opaque s ++ q) (Z.of_nat (length p)) = Ret (Z.of_nat (length s))) as ->.
  { unfold xdr_opaque. rewrite <- !app_assoc.
    rewrite (word_app p); [by rewrite u32_id by (unfold is_u32; lia)|done|lia|apply u32_range]. }
  rewrite ret_bind. cbv zeta. rewrite !(u32_id (_ + Z.of_nat (length s))) by (unfold is_u32; lia).
  rewrite short_false by (rewrite ?length_app, ?Nat2Z.inj_add, ?length_xdr_opaque; lia).
  unfold xdr_opaque. rewrite <- !app_assoc, (app_assoc p).
  rewrite (slice32_app _ s) by (rewrite ?length_app, ?length_put32; lia). by rewrite ret_bind.
Qed.

(** ** Lemmas: dispatch *)

Lemma field_is msg (p q : list byte) z a :
  is_u32 z → msg = p ++ put32 z ++ q → a = length p → be_get (take 4 (drop a msg)) = z.
Proof.
  intros Hz -> ->. rewrite drop_app_length, take_app_length' by by rewrite length_put32.
  rewrite get_put32. by apply u32_id.
Qed.

Local Ltac at_field msg :=
  first [ assumption | (unfold is_u32; lia) | by rewrite ?length_app, ?length_put32
        | reflexivity | unfold msg; by rewrite <- !app_assoc ].

Lemma handle_call p udp xid prog vers proc rest :
  is_u32 xid → is_u32 prog → is_u32 vers → is_u32 proc →
  handleRPCMessage p udp (rpc_call xid prog vers proc [] [] rest) =
    (if prog =? nlmProg then handleNLM udp xid vers proc rest
     else if negb (prog =? portmapProg) then Ret (MkAnswer (Some (makeReject xid)) None)
     else if proc =? pmapProcNull then Ret (MkAnswer (Some (makeNull xid)) None)
     else if proc =? pmapProcGetport then
       r ← (if 3 <=? vers then makeGetaddrResponse p xid rest else makeGetportResponse p xid rest);
       Ret (MkAnswer (Some r) None)
     else Ret (MkAnswer (Some (makeReject xid)) None)).
Proof.
  intros Hx Hp Hv Hc. unfold handleRPCMessage, rpc_call. cbn [app].
  destruct (Nat.ltb_spec (length (put32 xid ++ put32 0 ++ put32 2 ++ put32 prog ++ put32 vers ++ put32 proc ++ rest)) 24)
    as [Hl|_]; [rewrite !length_app, !length_put32 in Hl; lia|].
  set (msg := put32 xid ++ _).
  rewrite (field_is msg [] (put32 0 ++ put32 2 ++ put32 prog ++ put32 vers ++ put32 proc ++ rest) xid 0) by at_field msg.
  rewrite (field_is msg (put32 xid) (put32 2 ++ put32 prog ++ put32 vers ++ put32 proc ++ rest) 0 4) by at_field msg.
  rewrite (field_is msg (put32 xid ++ put32 0 ++ put32 2) (put32 vers ++ put32 proc ++ rest) prog 12) by at_field msg.
  rewrite (field_is msg (put32 xid ++ put32 0 ++ put32 2 ++ put32 prog) (put32 proc ++ rest) vers 16) by at_field msg.
  rewrite (field_is msg (put32 xid ++ put32 0 ++ put32 2 ++ put32 prog ++ put32 vers) rest proc 20) by at_field msg.
  assert (drop 24 msg = rest) as ->; [|done].
  unfold msg. rewrite !app_assoc. apply drop_app_length'. by rewrite !length_app, !length_put32.
Qed.

(** ** Properties *)

(** The queries of the two procedures, and a lock request. *)
Definition getport_args (prog vers proto : Z) : list byte :=
  put32 prog ++ put32 vers ++ put32 proto ++ put32 0.
Definition getaddr_args (prog vers : Z) (netid addr owner : gostring) : list byte :=
  put32 prog ++ put32 vers ++ xdr_opaque netid ++ xdr_opaque addr ++ xdr_opaque owner.

Lemma getport_call p xid fc cred fv verf prog vers proto :
  is_u32 prog → is_u32 proto →
  Z.of_nat (length (auth fc cred ++ auth fv verf ++ getport_args prog vers proto)) < 2 ^ 31 →
  makeGetportResponse p xid (auth fc cred ++ auth fv verf ++ getport_args prog vers proto) =
    Ret (accepted_header xid 0 ++ put32 (getport_answer p prog proto)).
Proof.
  intros Hp Hq Hlen. unfold makeGetportResponse. rewrite skip_auth_call, ret_bind by done. cbv iota.
  set (A := auth fc cred ++ auth fv verf) in *. rewrite app_assoc in Hlen |- *. fold A in Hlen |- *.
  set (o := Z.of_nat (length A)). unfold getport_args in *. rewrite !length_app, !length_put32 in Hlen.
  assert (∀ k, 0 ≤ k ≤ 16 → u32 (o + k) = o + k) as Hu by (intros; apply u32_id; unfold is_u32, o; lia).
  rewrite !Hu by lia.
  rewrite short_false by (rewrite ?length_app, ?length_put32; unfold o; lia).
  rewrite word_app by (unfold o; lia || done). rewrite ret_bind.
  rewrite (app_assoc A (put32 prog)).
  rewrite (slice32_app (A ++ put32 prog) (put32 vers) _ (o + 4))
    by (rewrite ?length_app, ?length_put32; unfold o; lia). rewrite ret_bind.
  rewrite (app_assoc _ (put32 vers)), (slice32_app ((A ++ put32 prog) ++ put32 vers) (put32 proto))
    by (rewrite ?length_app, ?length_put32; unfold o; lia).
  by rewrite ret_bind, get_put32, u32_id.
Qed.

Lemma getaddr_call p xid fc cred fv verf prog vers netid addr owner :
  is_u32 prog →
  Z.of_nat (length (auth fc cred ++ auth fv verf ++ getaddr_args prog vers netid addr owner)) < 2 ^ 31 →
  makeGetaddrResponse p xid (auth fc cred ++ auth fv verf ++ getaddr_args prog vers netid addr owner) =
    Ret (accepted_header xid 0 ++ xdr_opaque (getaddr_answer p prog netid)).
Proof.
  intros Hp Hlen. unfold makeGetaddrResponse. rewrite skip_auth_call, ret_bind by done. cbv iota.
  set (A := auth fc cred ++ auth fv verf) in *. rewrite app_assoc in Hlen |- *. fold A in Hlen |- *.
  set (o := Z.of_nat (length A)). unfold getaddr_args in *.
  set (q := xdr_opaque addr ++ xdr_opaque owner) in *.
  pose proof Hlen as Hl. rewrite !length_app, !length_put32 in Hl.
  assert (∀ k, 0 ≤ k ≤ 8 → u32 (o + k) = o + k) as Hu by (intros; apply u32_id; unfold is_u32, o; lia).
  rewrite !Hu by lia.
  rewrite short_false by (rewrite ?length_app, ?length_put32; unfold o; lia).
  rewrite word_app by (unfold o; lia || done). rewrite ret_bind.
  rewrite (app_assoc A (put32 prog)).
  rewrite (slice32_app (A ++ put32 prog) (put32 vers) _ (o + 4))
    by (rewrite ?length_app, ?length_put32; unfold o; lia). rewrite ret_bind.
  rewrite (app_assoc _ (put32 vers)).
  replace (o + 8) with (Z.of_nat (length ((A ++ put32 prog) ++ put32 vers)))
    by (rewrite ?length_app, ?length_put32; unfold o; lia).
  rewrite read_opaque_call; [by rewrite ret_bind|]. rewrite <- !app_assoc. exact Hlen.
Qed.

Lemma cookie_call fc cred fv verf cookie rest :
  Z.of_nat (length (auth fc cred ++ auth fv verf ++ xdr_opaque cookie ++ rest)) < 2 ^ 31 →
  let body := auth fc cred ++ auth fv verf ++ xdr_opaque cookie ++ rest in
  skip_auth body = Ret (Some (Z.of_nat (length (auth fc cred ++ auth fv verf)))) ∧
  read_opaque body (Z.of_nat (length (auth fc cred ++ auth fv verf))) = Ret (Some cookie).
Proof.
  intros Hlen body. split; [by apply skip_auth_call|]. unfold body. rewrite app_assoc in Hlen |- *.
  by apply read_opaque_call.
Qed.

(** Every well-formed call gets the answer of its procedure, however long its
    credentials are: the port or the address of the program that was asked for, and
    for the lock manager the granted status under the very cookie of the request,
    in the reply or, for the asynchronous procedures over UDP, in a call back to
    the procedure five numbers up. *)
Theorem portmap_answers p udp xid vers proc fc cred fv verf prog proto netid addr owner cookie rest :
  is_u32 xid → is_u32 vers → is_u32 proc → is_u32 prog → is_u32 proto →
  let A := auth fc cred in
  let V := auth fv verf in
  let call pg pr args := handleRPCMessage p udp (rpc_call xid pg vers pr A V args) in
  let fits args := Z.of_nat (length (A ++ V ++ args)) < 2 ^ 31 in
  let ok body := MkAnswer (Some (accepted_header xid 0 ++ body)) None in
  (vers < 3 → fits (getport_args prog vers proto) →
     call portmapProg pmapProcGetport (getport_args prog vers proto) = Ret (ok (put32 (getport_answer p prog proto)))) ∧
  (3 ≤ vers → fits (getaddr_args prog vers netid addr owner) →
     call portmapProg pmapProcGetport (getaddr_args prog vers netid addr owner) =
       Ret (ok (xdr_opaque (getaddr_answer p prog netid)))) ∧
  (is_nlm_sync proc = true → fits (xdr_opaque cookie ++ rest) →
     call nlmProg proc (xdr_opaque cookie ++ rest) = Ret (ok (xdr_opaque cookie ++ put32 nlm4Granted))) ∧
  (is_nlm_async proc = true → fits (xdr_opaque cookie ++ rest) →
     call nlmProg proc (xdr_opaque cookie ++ rest) =
       Ret (MkAnswer (Some (makeNull xid))
              (if udp then Some (makeNLMCallback vers (proc + 5) cookie) else None))).
Proof.
  intros Hx Hv Hc Hp Hq A V call fits ok.
  assert (∀ pg pr args, rpc_call xid pg vers pr A V args = rpc_call xid pg vers pr [] [] (A ++ V ++ args)) as Hshape
    by done.
  unfold call, fits, ok. rewrite !Hshape, !handle_call by (done || by unfold_ints). cbn -[makeGetaddrResponse makeGetportResponse
    handleNLM is_nlm_sync is_nlm_async Z.leb put32 auth accepted_header makeNLMCallback getport_args getaddr_args].
  split_and!.
  - intros Hlt Hf. destruct (Z.leb_spec 3 vers); [lia|]. unfold A, V in *. by rewrite getport_call, ret_bind.
  - intros Hge Hf. destruct (Z.leb_spec 3 vers); [|lia]. unfold A, V in *. by rewrite getaddr_call, ret_bind.
  - intros Hs Hf. unfold handleNLM, makeNLMRes. rewrite Hs.
    destruct (cookie_call fc cred fv verf cookie rest Hf) as [H1 H2]. unfold A, V. rewrite H1, ret_bind.
    cbv iota. by rewrite H2, !ret_bind.
  - intros Hs Hf. unfold handleNLM, extractCookie.
    assert (is_nlm_sync proc = false) as ->.
    { unfold is_nlm_async in Hs. apply existsb_exists in Hs as (k & Hk & ->%Z.eqb_eq).
      by repeat (destruct Hk as [<-|Hk]; [reflexivity|]). }
    rewrite Hs. destruct (cookie_call fc cred fv verf cookie rest Hf) as [H1 H2]. unfold A, V. rewrite H1, ret_bind.
    cbv iota. rewrite H2, !ret_bind. cbn [default from_option id].
    rewrite (u32_id (proc + 5)); [done|]. unfold is_nlm_async in Hs.
    apply existsb_exists in Hs as (k & Hk & ->%Z.eqb_eq). unfold is_u32.
    repeat (destruct Hk as [<-|Hk]; [lia|]). done.
Qed.

(** A client takes the port from the last two numbers of the address. *)
Lemma universal_address_port port :
  0 ≤ port < 65536 →
  Split (universal_address port) "."%byte =
    [bs "0"; bs "0"; bs "0"; bs "0"; fmt_uint (port / 256); fmt_uint (port mod 256)] ∧
  Atoi (fmt_uint (port / 256)) = Some (port / 256) ∧ Atoi (fmt_uint (port mod 256)) = Some (port mod 256) ∧
  port = port / 256 * 256 + port mod 256.
Proof.
  intros Hp. pose proof (Z.mod_pos_bound port 256 ltac:(lia)).
  assert (0 ≤ port / 256 < 256) by (split; [apply Z.div_pos; lia|apply Z.div_lt_upper_bound; lia]).
  assert (∀ n, 0 ≤ n → "."%byte ∉ fmt_uint n) as Hno by (intros n Hn; apply byte_digit_not; [done|by apply fmt_uint_digit]).
  split_and!; [|apply Atoi_fmt; lia|apply Atoi_fmt; lia|rewrite Z.mul_comm; by apply Z.div_mod].
  unfold universal_address.
  change (bs "0.0.0.0." ++ ?x) with
    (bs "0" ++ "."%byte :: bs "0" ++ "."%byte :: bs "0" ++ "."%byte :: bs "0" ++ "."%byte :: x).
  change (bs "." ++ ?x) with ("."%byte :: x).
  rewrite !(Split_app_sep (bs "0")) by (intros Hin; vm_compute in Hin; by inversion Hin as [|? ? ? Hn]; subst; inversion Hn).
  by rewrite Split_app_sep, Split_no_sep by (apply Hno; lia).
Qed.

(** *** Arbitrary messages *)

(** No word of the message, read at a multiple of four, is 2^30 or more: what the
    lengths in it have to satisfy for the sums not to wrap. *)
Definition small_words (body : list byte) : Prop :=
  ∀ k, be_get (take 4 (drop (4 * k) body)) < 2 ^ 30.

Section Safe.
Variable body : list byte.
Hypothesis Hlen : Z.of_nat (length body) < 2 ^ 30.
Hypothesis Hsmall : small_words body.

Lemma word_safe a :
  0 ≤ a → a mod 4 = 0 → a + 4 ≤ Z.of_nat (length body) →
  ∃ z, slice32 body a (a + 4) = Ret z ∧ 0 ≤ be_get z < 2 ^ 30.
Proof.
  intros Ha Hm Hl. unfold slice32.
  destruct (Z.leb_spec a (a + 4)); [|lia]. destruct (Z.leb_spec (a + 4) (Z.of_nat (length body))); [|lia].
  cbn [andb]. eexists. split; [done|]. split; [apply be_get_range|].
  replace (Z.to_nat (a + 4 - a)) with 4%nat by lia.
  replace (Z.to_nat a) with (4 * Z.to_nat (a / 4))%nat; [apply Hsmall|].
  apply Nat2Z.inj. rewrite Nat2Z.inj_mul, !Z2Nat.id by (try apply Z.div_pos; lia).
  rewrite (Z.div_mod a 4) at 2 by lia. lia.
Qed.

Lemma skip_opaque_safe offset len :
  0 ≤ offset → offset mod 4 = 0 → 0 ≤ len → offset + len + 4 < 2 ^ 32 →
  0 ≤ skip_opaque offset len < offset + len + 4 ∧ skip_opaque offset len mod 4 = 0.
Proof.
  intros Ho Hm Hl Hs. unfold skip_opaque. rewrite (u32_id (offset + len)) by (unfold is_u32; lia).
  pose proof (Z.mod_pos_bound len 4 ltac:(lia)). destruct (Z.eqb_spec (len mod 4) 0).
  - split; [lia|]. Z.div_mod_to_equations. lia.
  - rewrite u32_id by (unfold is_u32; lia). split; [lia|]. Z.div_mod_to_equations. lia.
Qed.

Lemma short_true_or need :
  0 ≤ need < 2 ^ 32 → short body need = true ∨ need ≤ Z.of_nat (length body).
Proof. intros. unfold short. rewrite u32_id by (unfold is_u32; lia). destruct (Z.ltb_spec (Z.of_nat (length body)) need); auto. Qed.

Lemma skip_auth_safe :
  ∃ r, skip_auth body = Ret r ∧ ∀ o, r = Some o → 0 ≤ o < 2 ^ 31 + 2 ^ 20 ∧ o mod 4 = 0.
Proof.
  unfold skip_auth. destruct (Z.ltb_spec (Z.of_nat (length body)) 8); [by exists None|].
  destruct (word_safe 4) as (z & Hz & Hr); [lia|done|lia|].
  unfold word. rewrite (u32_id (4 + 4)) by done. rewrite Hz, !ret_bind. cbv zeta.
  destruct (skip_opaque_safe 8 (be_get z)) as [Ho Hom]; [lia|done|lia|lia|].
  set (o := skip_opaque 8 (be_get z)) in *. rewrite !u32_id by (unfold is_u32; lia).
  destruct (short_true_or (o + 8)) as [->|Hle]; [lia|by exists None|].
  destruct (short body (o + 8)); [by exists None|].
  destruct (word_safe (o + 4)) as (v & Hv & Hvr); [lia|Z.div_mod_to_equations; lia|lia|].
  replace (o + 4 + 4) with (o + 8) in Hv by lia. rewrite Hv, ret_bind.
  eexists. split; [done|]. intros o' [= <-].
  destruct (skip_opaque_safe (o + 8) (be_get v)) as [? ?]; [lia|Z.div_mod_to_equations; lia|lia|lia|].
  split; [lia|done].
Qed.

Lemma read_opaque_safe o :
  0 ≤ o < 2 ^ 31 + 2 ^ 21 → o mod 4 = 0 → ∃ r, read_opaque body o = Ret r.
Proof.
  intros Ho Hm. unfold read_opaque. rewrite !(u32_id (o + 4)) by (unfold is_u32; lia).
  destruct (short_true_or (o + 4)) as [->|Hle]; [lia|by eexists|].
  destruct (short body (o + 4)); [by eexists|].
  destruct (word_safe o) as (z & Hz & Hr); [lia|done|lia|].
  unfold word. rewrite !(u32_id (o + 4)) by (unfold is_u32; lia). rewrite Hz, !ret_bind. cbv zeta.
  rewrite !u32_id by (unfold is_u32; lia).
  destruct (short_true_or (o + 4 + be_get z)) as [->|Hle2]; [lia|by eexists|].
  destruct (short body (o + 4 + be_get z)); [by eexists|]. unfold slice32.
  destruct (Z.leb_spec (o + 4) (o + 4 + be_get z)); [|lia].
  destruct (Z.leb_spec (o + 4 + be_get z) (Z.of_nat (length body))); [|lia]. by eexists.
Qed.
End Safe.

Local Ltac after_auth Hlen Hsmall o Ho Hom :=
  destruct (skip_auth_safe _ Hlen Hsmall) as (?r & -> & ?Hr); rewrite ret_bind;
  match goal with |- context [match ?r with Some _ => _ | None => _ end] =>
    destruct r as [o|]; [|done] end;
  match goal with H : ∀ o', Some _ = Some o' → _ |- _ => destruct (H o eq_refl) as [Ho Hom]; clear H end.

Lemma handle_safe p udp msg :
  Z.of_nat (length msg) < 2 ^ 30 → small_words (drop 24 msg) → no_panic (handleRPCMessage p udp msg).
Proof.
  intros Hl Hsmall. unfold handleRPCMessage. destruct (_ <? _)%nat; [done|]. cbv zeta.
  set (body := drop 24 msg) in *. assert (Z.of_nat (length body) < 2 ^ 30) as Hlen by (unfold body; rewrite length_drop; lia).
  clearbody body. destruct (negb _); [done|]. destruct (_ =? nlmProg).
  { unfold handleNLM. destruct (is_nlm_sync _).
    - apply no_panic_bind; [|done]. unfold makeNLMRes. after_auth Hlen Hsmall o Ho Hom.
      destruct (read_opaque_safe body Hlen Hsmall o) as [c ->]; [lia|done|]. rewrite ret_bind. by destruct c.
    - destruct (is_nlm_async _); [|done]. apply no_panic_bind; [|done]. unfold extractCookie.
      after_auth Hlen Hsmall o Ho Hom.
      destruct (read_opaque_safe body Hlen Hsmall o) as [c ->]; [lia|done|]. by rewrite ret_bind. }
  destruct (negb _); [done|]. destruct (_ =? pmapProcNull); [done|]. destruct (_ =? pmapProcGetport); [|done].
  apply no_panic_bind; [|done]. destruct (_ <=? _).
  - unfold makeGetaddrResponse. after_auth Hlen Hsmall o Ho Hom. rewrite !u32_id by (unfold is_u32; lia).
    destruct (short_true_or body Hlen (o + 8)) as [->|Hle]; [lia|done|]. destruct (short body (o + 8)); [done|].
    destruct (word_safe body Hsmall o) as (z & Hz & _); [lia|done|lia|].
    destruct (word_safe body Hsmall (o + 4)) as (y & Hy & _); [lia|Z.div_mod_to_equations; lia|lia|].
    unfold word. rewrite u32_id by (unfold is_u32; lia). rewrite Hz, !ret_bind.
    replace (o + 4 + 4) with (o + 8) in Hy by lia. rewrite Hy, ret_bind.
    destruct (read_opaque_safe body Hlen Hsmall (o + 8)) as [c ->]; [lia|Z.div_mod_to_equations; lia|].
    rewrite ret_bind. by destruct c.
  - unfold makeGetportResponse. after_auth Hlen Hsmall o Ho Hom. rewrite !u32_id by (unfold is_u32; lia).
    destruct (short_true_or body Hlen (o + 16)) as [->|Hle]; [lia|done|]. destruct (short body (o + 16)); [done|].
    destruct (word_safe body Hsmall o) as (z & Hz & _); [lia|done|lia|].
    destruct (word_safe body Hsmall (o + 4)) as (y & Hy & _); [lia|Z.div_mod_to_equations; lia|lia|].
    destruct (word_safe body Hsmall (o + 8)) as (x & Hx & _); [lia|Z.div_mod_to_equations; lia|lia|].
    unfold word. rewrite u32_id by (unfold is_u32; lia). rewrite Hz, !ret_bind.
    replace (o + 4 + 4) with (o + 8) in Hy by lia. rewrite Hy, ret_bind.
    replace (o + 8 + 4) with (o + 12) in Hx by lia. by rewrite Hx, ret_bind.
Qed.

Lemma slice32_not_err body a b e : slice32 body a b ≠ Err e.
Proof. unfold slice32. by destruct (_ && _). Qed.

(** The error type has no role here: every failure is a panic. *)
Ltac no_err :=
  repeat first
    [ done
    | progress intros *
    | match goal with
      | H : _ ≫= _ = Err _ |- _ => apply bind_err_inv in H as [H|(? & _ & H)]
      | H : slice32 _ _ _ = Err _ |- _ => by apply slice32_not_err in H
      | H : (if ?b then _ else _) = Err _ |- _ => destruct b
      | H : match ?o with Some _ => _ | None => _ end = Err _ |- _ => destruct o
      | H : word _ _ = Err _ |- _ => unfold word in H
      | H : skip_auth _ = Err _ |- _ => unfold skip_auth in H
      | H : read_opaque _ _ = Err _ |- _ => unfold read_opaque in H
      | H : makeNLMRes _ _ = Err _ |- _ => unfold makeNLMRes in H
      | H : extractCookie _ = Err _ |- _ => unfold extractCookie in H
      | H : makeGetaddrResponse _ _ _ = Err _ |- _ => unfold makeGetaddrResponse in H
      | H : makeGetportResponse _ _ _ = Err _ |- _ => unfold makeGetportResponse in H
      | H : handleNLM _ _ _ _ _ = Err _ |- _ => unfold handleNLM in H
      end
    | progress cbv zeta in * ].

Lemma handle_not_err p udp msg e : handleRPCMessage p udp msg ≠ Err e.
Proof. intros H. unfold handleRPCMessage in H. cbv zeta in H. no_err. Qed.

Lemma record_mark n : 0 ≤ n < 2 ^ 31 →
  Z.land (u32 (Z.lor (u32 n) 0x80000000)) 0x7FFFFFFF = n.
Proof.
  intros Hn. rewrite (u32_id n) by (unfold is_u32; lia). unfold u32.
  rewrite <- Z.land_ones, <- Z.land_assoc by lia.
  change (Z.land (Z.ones 32) 0x7FFFFFFF) with (Z.ones 31).
  rewrite Z.land_lor_distr_l. change (Z.land 0x80000000 (Z.ones 31)) with 0.
  rewrite Z.lor_0_r, Z.land_ones by lia. by apply Z.mod_small.
Qed.

Definition tcp_reply (a : answer) : list byte :=
  match reply a with Some resp => sendTCPFragment resp | None => [] end.

(** A TCP client whose messages hold no overlong lengths is answered message by
    message, in order and with record marks, until it closes the connection; no such
    message, over either transport and however malformed otherwise, makes the
    server panic. *)
Theorem portmap_serves p udp msgs :
  Forall (λ m, Z.of_nat (length m) < 2 ^ 30 ∧ small_words (drop 24 m)) msgs →
  Forall (λ m, no_panic (handleRPCMessage p udp m)) msgs ∧
  ∃ answers, Forall2 (λ m a, handleRPCMessage p false m = Ret a) msgs answers ∧
    handleTCPConn (S (length msgs)) p (concat (sendTCPFragment <$> msgs)) = Ret (concat (tcp_reply <$> answers)).
Proof.
  intros Hms. split; [eapply Forall_impl; [exact Hms|]; intros m [Hl Hs]; by apply handle_safe|].
  induction Hms as [|m msgs [Hl Hs] _ (answers & Ha & Hrun)]; [by exists []|].
  pose proof (handle_safe p false m Hl Hs) as Hnp.
  assert (∃ a, handleRPCMessage p false m = Ret a) as [a Hm].
  { destruct (handleRPCMessage p false m) as [a|[]|] eqn:Hm; [by exists a| |done].
    exfalso. by apply (handle_not_err p false m ()). }
  exists (a :: answers). split; [by constructor|].
  rewrite !fmap_cons, !concat_cons. cbn [length]. set (n := S (length msgs)) in *. cbn [handleTCPConn].
  unfold sendTCPFragment at 1. rewrite <- !app_assoc. rewrite (ReadFull_app 4) by by rewrite length_put32.
  cbv iota. rewrite get_put32, record_mark, Nat2Z.id by lia.
  rewrite ReadFull_app by done. by rewrite Hm, ret_bind, Hrun, ret_bind.
Qed.

Definition example_portmap : portmapServer := {| nfsPort := 2049; mountPort := 2049 |}.

Definition example_call (prog vers proc : Z) (args : list byte) : list byte :=
  rpc_call 7 prog vers proc (auth 1 (bs "machine")) (auth 0 []) args.

Lemma portmap_answers_witness :
  is_u32 7 ∧
  handleRPCMessage example_portmap true (example_call portmapProg 4 3 (getaddr_args nfsProg 4 (bs "tcp") [] (bs "me"))) =
    Ret (MkAnswer (Some (accepted_header 7 0 ++ xdr_opaque (bs "0.0.0.0.8.1"))) None).
Proof.
  split; [unfold is_u32; lia|].
  destruct (portmap_answers example_portmap true 7 4 3 1 (bs "machine") 0 [] nfsProg 6 (bs "tcp") [] (bs "me") [] [])
    as (_ & H & _); try (unfold is_u32, nfsProg; lia).
  apply H; [lia|]. vm_compute. reflexivity.
Defined.

Lemma portmap_serves_witness :
  let m := rpc_call 7 portmapProg 2 3 (auth 0 []) (auth 0 []) (getport_args nfsProg 3 6) in
  Z.of_nat (length m) < 2 ^ 30 ∧
  ∃ a, handleRPCMessage example_portmap false m = Ret a ∧
    handleTCPConn 2 example_portmap (concat (sendTCPFragment <$> [m])) = Ret (concat (tcp_reply <$> [a])).
Proof.
  set (m := rpc_call 7 portmapProg 2 3 (auth 0 []) (auth 0 []) (getport_args nfsProg 3 6)).
  assert (Z.of_nat (length m) < 2 ^ 30) as Hl by (vm_compute; reflexivity).
  assert (small_words (drop 24 m)) as Hs.
  { intros k. destruct (decide (k < 20)%nat) as [Hk|Hk].
    - do 20 (destruct k as [|k]; [vm_compute; reflexivity|]). lia.
    - rewrite drop_ge by (assert (length (drop 24 m) = 32)%nat as -> by (vm_compute; reflexivity); lia).
      vm_compute. reflexivity. }
  split; [exact Hl|].
  destruct (portmap_serves example_portmap false [m]) as (_ & answers & Ha & Hrun); [by apply Forall_cons_2, Forall_nil_2|].
  apply Forall2_cons_inv_l in Ha as (a & ? & Hm & Hnil & ->). apply Forall2_nil_inv_l in Hnil as ->.
  exists a. split; [exact Hm|exact Hrun].
Defined.

(** The sums of lengths wrap, the check passes, and the slice behind it panics,
    which ends the daemon: 32 bytes from any client, over TCP or UDP. *)
Definition poison : list byte :=
  put32 7 ++ put32 0 ++ put32 2 ++ put32 portmapProg ++ put32 2 ++ put32 3 ++ put32 0 ++ put32 0xFFFFFFF0.

Lemma portmap_wraps_and_panics :
  handleUDPPacket example_portmap poison = Panic ∧
  handleTCPConn 2 example_portmap (sendTCPFragment poison) = Panic.
Proof. by vm_compute. Qed.
