(* ===== verification/McpFiles.v ===== *)
(** * The file tools of the MCP server ([src/cmd/thundersnapd/mcp.go])

    [create_file] and [str_replace] write into a frame from the host, as root, below the
    frame's root directory. The frame's user owns what is in there and may have planted
    symbolic links, so every parent is opened with [O_NOFOLLOW], one element at a time. *)

From Stdlib Require Import Strings.String.
From S2P Require Import Prelude GoStrings GoPath GoIO Passwd.

(** ** The file system *)

Inductive kind := KFile (data : list byte) | KDir | KLink (target : gostring) | KOther.

(** An inode with its owner. *)
Record inode := Inode { i_kind : kind; i_uid : Z; i_gid : Z }.

(** By the elements of absolute paths. A directory descriptor is the path it
    was opened at; the open files of one call are not moved by others. *)
Abbreviation tree := (gmap (list gostring) inode).

Inductive errno := ENOENT | ENOTDIR | ELOOP | EISDIR | EEXIST | EOTHER.


#[export] Instance errno_eq_dec : EqDecision errno.
Proof. solve_decision. Defined.

(** What [openat(O_DIRECTORY|O_NOFOLLOW)] answers on a symbolic link: the code
    expects [ELOOP], some kernels say [ENOTDIR]. *)
Class Kernel := { link_errno : errno; link_errno_other : link_errno ≠ ENOENT }.

Section Files.
Context {K : Kernel}.

(** [unix.Openat(cur, c, O_RDONLY|O_DIRECTORY|O_NOFOLLOW)]. *)
Definition openat_dir (fs : tree) (cur : list gostring) (c : gostring) : outcome errno (list gostring) :=
  match fs !! (cur ++ [c]) with
  | None => Err ENOENT
  | Some (Inode KDir _ _) => Ret (cur ++ [c])
  | Some (Inode (KLink _) _ _) => Err link_errno
  | Some _ => Err ENOTDIR
  end.

(** [unix.Mkdirat]: the directory belongs to the daemon. *)
Definition mkdirat (fs : tree) (cur : list gostring) (c : gostring) : outcome errno tree :=
  match fs !! (cur ++ [c]) with
  | None => Ret (<[cur ++ [c] := Inode KDir 0 0]> fs)
  | Some _ => Err EEXIST
  end.

Definition fchown (fs : tree) (path : list gostring) (uid gid : Z) : tree :=
  alter (λ i, Inode (i_kind i) uid gid) path fs.

(** ** Parents *)

Inductive open_error :=
| PathEmpty
| OpenRoot
| MkdirFailed (c : gostring)
| OpenCreated (c : gostring)
| RefuseSymlink (c : gostring)
| OpenFailed (e : errno).

(** The state of the file system is threaded through; a failed call keeps the
    directories it has made. *)
Fixpoint open_parents (fs : tree) (cur : list gostring) (parents : list gostring)
    (createMissingDirs chownNewDirs : bool) (uid gid : Z) : tree * outcome open_error (list gostring) :=
  match parents with
  | [] => (fs, Ret cur)
  | c :: parents' =>
      match openat_dir fs cur c with
      | Ret fd => open_parents fs fd parents' createMissingDirs chownNewDirs uid gid
      | Err ENOENT =>
          if createMissingDirs then
            match mkdirat fs cur c with
            | Ret fs1 =>
                match openat_dir fs1 cur c with
                | Ret fd =>
                    let fs2 := if chownNewDirs then fchown fs1 fd uid gid else fs1 in
                    open_parents fs2 fd parents' createMissingDirs chownNewDirs uid gid
                | _ => (fs1, Err (OpenCreated c))
                end
            | _ => (fs, Err (MkdirFailed c))
            end
          else (fs, Err (OpenFailed ENOENT))
      | Err ELOOP => (fs, Err (RefuseSymlink c))
      | Err e => (fs, Err (OpenFailed e))
      | Panic => (fs, Panic)
      end
  end.

(** The elements of [rel]: what is left of the split once the empty ones go. *)
Definition rel_comps (rel : gostring) : list gostring := filter (λ c, c ≠ []) (Split rel slash).

Definition openParentUnderRoot (fs : tree) (root : list gostring) (rel : gostring)
    (createMissingDirs chownNewDirs : bool) (uid gid : Z)
    : tree * outcome open_error (list gostring * gostring) :=
  let filtered := rel_comps rel in
  match last filtered with
  | None => (fs, Err PathEmpty)
  | Some name =>
      let parents := removelast filtered in
      match fs !! root with
      | Some (Inode KDir _ _) =>
          let '(fs', r) := open_parents fs root parents createMissingDirs chownNewDirs uid gid in
          (fs', parent ← r; Ret (parent, name))
      | _ => (fs, Err OpenRoot)
      end
  end.

(** The in-frame path below the root. *)
Definition frame_rel (path : gostring) : gostring := TrimPrefix (Clean (slash :: path)) [slash].

(** ** The results of the tools *)

Inductive tool_result :=
| PathRequired | UserRequired | OldStrRequired | NoUser | Escapes
| ParentFailed (e : open_error)
| RefuseLink | IsDirectory | NotFound | OpenError
| StringNotFound | StringRepeated (count : nat)
| Created (n : nat) | Replaced | WriteError | TimedOut.

(** [filepath.Rel] of two cleaned absolute paths. *)
Fixpoint common_prefix (a b : list gostring) : nat :=
  match a, b with
  | x :: a', y :: b' => if bool_decide (x = y) then S (common_prefix a' b') else O
  | _, _ => O
  end.

Definition Rel (base targ : gostring) : gostring :=
  let b := rel_comps (Clean base) in
  let t := rel_comps (Clean targ) in
  let k := common_prefix b t in
  match replicate (length b - k) dotdot ++ drop k t with
  | [] => dot
  | es => Join es slash
  end.

Definition isWithinRootFS (path rootFS : gostring) : bool :=
  let rel := Rel rootFS path in
  negb (bool_decide (rel = dotdot)) && negb (HasPrefix rel (dotdot ++ [slash])).




#[export] Instance open_error_eq_dec : EqDecision open_error.
Proof. solve_decision. Defined.
#[export] Instance tool_result_eq_dec : EqDecision tool_result.
Proof. solve_decision. Defined.

Inductive unix_user := User | Root | NoSuchUser.

(** ** [create_file] *)

(** [unix.Openat(parentFd, name, O_WRONLY|O_CREAT|O_NOFOLLOW|O_TRUNC, 0644)]
    and the write. *)
Definition open_create (fs : tree) (path : list gostring) : outcome errno tree :=
  match fs !! path with
  | None => Ret (<[path := Inode (KFile []) 0 0]> fs)
  | Some (Inode (KFile _) u g) => Ret (<[path := Inode (KFile []) u g]> fs)
  | Some (Inode KDir _ _) => Err EISDIR
  | Some (Inode (KLink _) _ _) => Err ELOOP
  | Some (Inode KOther _ _) => Err EOTHER
  end.

(** One [write(2)]: the kernel takes what it has room for and reports how
    much; it fails only when it can take nothing. *)
Definition accepted (room : option nat) (data : list byte) : outcome errno (list byte) :=
  match room with
  | None => Ret data
  | Some n => if (n =? 0)%nat && (0 <? length data)%nat then Err EOTHER else Ret (take n data)
  end.

Definition on_data (f : list byte → list byte) (fs : tree) (path : list gostring) : tree :=
  alter (λ i, match i_kind i with
              | KFile old => Inode (KFile (f old)) (i_uid i) (i_gid i)
              | _ => i
              end) path fs.

(** Bytes written at the beginning of the file, and [ftruncate]. *)
Definition pwrite (fs : tree) (path : list gostring) (data : list byte) : tree :=
  on_data (λ old, data ++ drop (length data) old) fs path.

Definition ftruncate (fs : tree) (path : list gostring) (n : nat) : tree :=
  on_data (λ old, take n old ++ replicate (n - length old) Byte.x00) fs path.

(** The arguments are checked before the frame is resolved ... *)
Definition create_file_args (path : gostring) (user : unix_user) (mcpUser : gostring) : option tool_result :=
  if bool_decide (path = []) then Some PathRequired
  else if match user with NoSuchUser => true | _ => false end then Some UserRequired
  else if bool_decide (mcpUser = []) then Some NoUser
  else None.

(** ... and this is what follows, with the frame's root at [root]; [late]: the
    deadline has passed by the end. *)
Definition create_file (room : option nat) (late : bool) (fs : tree) (root : list gostring)
    (path : gostring) (is_user : bool) (file_text : list byte) : tree * tool_result :=
  let rel := frame_rel path in
  if negb (isWithinRootFS (JoinPath (abs_path root) rel) (abs_path root)) then (fs, Escapes)
  else
    let '(uid, gid) := if is_user then (ThundersnapUID, ThundersnapGID) else (0, 0) in
    match openParentUnderRoot fs root rel true is_user uid gid with
    | (fs1, Ret (parent, name)) =>
        let file := parent ++ [name] in
        match open_create fs1 file with
        | Ret fs2 =>
            match accepted room file_text with
            | Ret data =>
                let fs3 := pwrite fs2 file data in
                let fs4 := if is_user then fchown fs3 file uid gid else fs3 in
                (fs4, if late then TimedOut else Created (length file_text))
            | _ => (fs2, WriteError)
            end
        | Err ELOOP => (fs1, RefuseLink)
        | Err EISDIR => (fs1, IsDirectory)
        | _ => (fs1, OpenError)
        end
    | (fs1, Err e) => (fs1, ParentFailed e)
    | (fs1, Panic) => (fs1, OpenError)
    end.

(** ** [str_replace] *)

(** [bytes.Index(s, sep)] for a non-empty [sep]. *)
Fixpoint IndexOf (s sep : gostring) : option nat :=
  if HasPrefix s sep then Some 0%nat
  else match s with [] => None | _ :: s' => S <$> IndexOf s' sep end.

(** [bytes.Count(s, sep)]: occurrences that do not overlap, from the left. *)
Fixpoint count_from (fuel : nat) (s sep : gostring) : nat :=
  match fuel with
  | O => O
  | S fuel' =>
      match IndexOf s sep with
      | None => O
      | Some i => S (count_from fuel' (drop (i + length sep) s) sep)
      end
  end.

Definition Count (s sep : gostring) : nat := count_from (S (length s)) s sep.

(** [bytes.Replace(s, old, new, 1)]. *)
Definition Replace1 (s old new : gostring) : gostring :=
  match IndexOf s old with
  | None => s
  | Some i => take i s ++ new ++ drop (i + length old) s
  end.

Definition str_replace_args (path old_str mcpUser : gostring) : option tool_result :=
  if bool_decide (path = []) then Some PathRequired
  else if bool_decide (old_str = []) then Some OldStrRequired
  else if bool_decide (mcpUser = []) then Some NoUser
  else None.

Definition str_replace (room : option nat) (late : bool) (fs : tree) (root : list gostring)
    (path old_str new_str : gostring) : tree * tool_result :=
  let rel := frame_rel path in
  if negb (isWithinRootFS (JoinPath (abs_path root) rel) (abs_path root)) then (fs, Escapes)
  else
    match openParentUnderRoot fs root rel false false 0 0 with
    | (fs1, Ret (parent, name)) =>
        let file := parent ++ [name] in
        match i_kind <$> fs1 !! file with
        | None => (fs1, NotFound)
        | Some (KLink _) => (fs1, RefuseLink)
        | Some KDir => (fs1, IsDirectory)
        | Some KOther => (fs1, OpenError)
        | Some (KFile content) =>
            let count := Count content old_str in
            if (count =? 0)%nat then (fs1, StringNotFound)
            else if (1 <? count)%nat then (fs1, StringRepeated count)
            else
              let newContent := Replace1 content old_str new_str in
              match accepted room newContent with
              | Ret data =>
                  (ftruncate (pwrite fs1 file data) file (length newContent),
                   if late then TimedOut else Replaced)
              | _ => (fs1, WriteError)
              end
        end
    | (fs1, Err e) => (fs1, ParentFailed e)
    | (fs1, Panic) => (fs1, OpenError)
    end.

(** The handlers; [frame_root] resolves the frame and prepares its tree. *)
Definition mcpCreateFileToolHandler (frame_root : tree → outcome tool_result (tree * list gostring))
    (room : option nat) (late : bool) (fs : tree) (path : gostring) (user : unix_user)
    (mcpUser : gostring) (file_text : list byte) : tree * tool_result :=
  match create_file_args path user mcpUser with
  | Some r => (fs, r)
  | None =>
      match frame_root fs with
      | Ret (fs0, root) =>
          create_file room late fs0 root path (match user with User => true | _ => false end) file_text
      | Err r => (fs, r)
      | Panic => (fs, OpenError)
      end
  end.

Definition mcpStrReplaceToolHandler (frame_root : tree → outcome tool_result (tree * list gostring))
    (room : option nat) (late : bool) (fs : tree) (path old_str new_str mcpUser : gostring)
    : tree * tool_result :=
  match str_replace_args path old_str mcpUser with
  | Some r => (fs, r)
  | None =>
      match frame_root fs with
      | Ret (fs0, root) => str_replace room late fs0 root path old_str new_str
      | Err r => (fs, r)
      | Panic => (fs, OpenError)
      end
  end.

(** ** Lemmas: paths *)

Lemma filter_Forall_id {A} (P : A → Prop) `{∀ x, Decision (P x)} l : Forall P l → filter P l = l.
Proof. induction 1 as [|x l Hx _ IH]; [done|]. by rewrite filter_cons_True, IH. Qed.

Lemma frame_rel_comps path : rel_comps (frame_rel path) = url_elems path.
Proof.
  unfold frame_rel. rewrite Clean_slash. fold (url_elems path). change (slash :: ?x) with ([slash] ++ x).
  rewrite TrimPrefix_app. unfold rel_comps. pose proof (url_elems_proper path) as Hp.
  destruct (url_elems path) as [|e es]; [done|].
  rewrite Split_join_proper by done. apply filter_Forall_id.
  eapply Forall_impl; [exact Hp|]. by intros ? [? _].
Qed.

Lemma rel_comps_abs es : Forall proper es → rel_comps (Clean (abs_path es)) = es.
Proof.
  intros Hes. rewrite Clean_abs by done. unfold abs_path, rel_comps. rewrite Split_slash.
  destruct es as [|e es]; [done|]. rewrite Split_join_proper by done. rewrite filter_cons_False by (by intros []).
  apply filter_Forall_id. eapply Forall_impl; [exact Hes|]. by intros ? [? _].
Qed.

Lemma common_prefix_app a b : common_prefix a (a ++ b) = length a.
Proof. induction a as [|x a IH]; [by destruct b|]. cbn. by rewrite bool_decide_eq_true_2, IH. Qed.

(** A cleaned in-frame path never leaves the frame. *)
Lemma never_escapes root path :
  Forall proper root → root ≠ [] →
  isWithinRootFS (JoinPath (abs_path root) (frame_rel path)) (abs_path root) = true.
Proof.
  intros Hroot Hne. pose proof (url_elems_proper path) as Hp.
  assert (frame_rel path = Join (url_elems path) slash) as ->.
  { unfold frame_rel. rewrite Clean_slash. change (slash :: ?x) with ([slash] ++ x). by rewrite TrimPrefix_app. }
  rewrite JoinPath_proper by done. unfold isWithinRootFS, Rel.
  rewrite !rel_comps_abs by (by try apply Forall_app_2). rewrite common_prefix_app, Nat.sub_diag, drop_app_length.
  cbn [replicate app]. destruct (url_elems path) as [|e es]; [done|].
  apply andb_true_iff. apply Forall_cons in Hp as [(_ & _ & Hdd & Hs) _].
  assert (Join (e :: es) slash = e ∨ ∃ r, Join (e :: es) slash = e ++ slash :: r) as Hj
    by (destruct es; [by left|right; by eexists]).
  split; apply negb_true_iff.
  - apply bool_decide_eq_false_2. intros He. destruct Hj as [Hj|[r Hj]]; rewrite Hj in He; [done|].
    apply (f_equal (λ s, bool_decide (slash ∈ s))) in He. revert He.
    rewrite bool_decide_eq_true_2 by set_solver. vm_compute. done.
  - apply not_true_iff_false. intros [r' Hr]%HasPrefix_true.
    destruct Hj as [Hj|[r Hj]]; rewrite Hj in Hr.
    + apply Hs. rewrite Hr. set_solver.
    + rewrite <- app_assoc in Hr. apply (f_equal (λ s, Split s slash)) in Hr.
      rewrite !Split_app_sep in Hr by (done || (intros Hin; vm_compute in Hin; inversion Hin)).
      by injection Hr.
Qed.

(** ** Lemmas: parents *)

Definition is_dir (fs : tree) (path : list gostring) : Prop := i_kind <$> fs !! path = Some KDir.

(** The changes of [open_parents]: new directories on the way, nothing else. *)
Definition grows_dirs (fs fs' : tree) (cur ps : list gostring) : Prop :=
  ∀ q, fs' !! q = fs !! q ∨
       (fs !! q = None ∧ is_dir fs' q ∧ ∃ pre, pre ≠ [] ∧ pre `prefix_of` ps ∧ q = cur ++ pre).

Lemma openat_dir_inv fs cur c :
  match openat_dir fs cur c with
  | Ret fd => fd = cur ++ [c] ∧ is_dir fs fd
  | Err ENOENT => fs !! (cur ++ [c]) = None
  | Err _ => is_Some (fs !! (cur ++ [c]))
  | Panic => False
  end.
Proof.
  unfold openat_dir, is_dir. pose proof link_errno_other as Hk.
  destruct (fs !! (cur ++ [c])) as [[[] u g]|] eqn:Hq; try done.
  - rewrite Hq. done.
  - destruct link_errno; done.
Qed.

Lemma is_dir_fchown fs path uid gid q : is_dir (fchown fs path uid gid) q ↔ is_dir fs q.
Proof.
  unfold is_dir, fchown. destruct (decide (q = path)) as [->|].
  - rewrite lookup_alter_eq. by destruct (fs !! path).
  - by rewrite lookup_alter_ne.
Qed.

Lemma open_parents_spec cm ch uid gid ps fs cur fs' r :
  open_parents fs cur ps cm ch uid gid = (fs', r) →
  grows_dirs fs fs' cur ps ∧ (cm = false → fs' = fs) ∧
  match r with
  | Ret fd => fd = cur ++ ps ∧ ∀ pre, pre ≠ [] → pre `prefix_of` ps → is_dir fs' (cur ++ pre)
  | Err _ => True
  | Panic => False
  end.
Proof.
  revert fs cur. induction ps as [|c ps IH]; intros fs cur H; cbn [open_parents] in H.
  { injection H as <- <-. split_and!; [by intros q; left|done|by rewrite app_nil_r|].
    intros pre ? ?%prefix_nil_inv. done. }
  assert (∀ fs1, grows_dirs fs fs1 cur [c] → is_dir fs1 (cur ++ [c]) → (cm = false → fs1 = fs) →
    open_parents fs1 (cur ++ [c]) ps cm ch uid gid = (fs', r) →
    grows_dirs fs fs' cur (c :: ps) ∧ (cm = false → fs' = fs) ∧
    match r with
    | Ret fd => fd = cur ++ c :: ps ∧ ∀ pre, pre ≠ [] → pre `prefix_of` c :: ps → is_dir fs' (cur ++ pre)
    | Err _ => True
    | Panic => False
    end) as Hnext.
  { intros fs1 Hg1 Hd1 Hc1 H1. apply IH in H1 as (Hg & Hcm & Hr).
    assert (is_dir fs' (cur ++ [c])) as Hd.
    { destruct (Hg (cur ++ [c])) as [Heq|(_ & ? & _)]; [|done]. unfold is_dir. by rewrite Heq. }
    split_and!.
    - intros q. destruct (Hg q) as [Heq|(Hn & Hdq & pre & Hne & Hpre & ->)].
      + destruct (Hg1 q) as [Heq1|(Hn & Hdq & pre & Hne & Hpre & ->)]; [left; congruence|right].
        split_and!; [done|unfold is_dir in *; by rewrite Heq|].
        exists pre. split_and!; [done|by etrans; [exact Hpre|by eexists]|done].
      + right. destruct (Hg1 ((cur ++ [c]) ++ pre)) as [Heq1|(Hn1 & Hd1' & _)].
        * split_and!; [congruence|done|]. exists (c :: pre). rewrite <- app_assoc.
          split_and!; [done|by apply prefix_cons|done].
        * exfalso. unfold is_dir in Hd1'. by rewrite Hn in Hd1'.
    - intros Hf. rewrite (Hcm Hf). auto.
    - destruct r as [fd|e|]; [|done|done]. destruct Hr as [-> Hr]. split; [by rewrite <- app_assoc|].
      intros pre Hne Hpre. destruct pre as [|c' pre]; [done|].
      pose proof (prefix_cons_inv_1 _ _ _ _ Hpre) as ->. apply prefix_cons_inv_2 in Hpre.
      destruct (decide (pre = [])) as [->|Hp]; [done|].
      change (cur ++ c :: pre) with (cur ++ [c] ++ pre). rewrite app_assoc. auto. }
  pose proof (openat_dir_inv fs cur c) as Ho.
  destruct (openat_dir fs cur c) as [fd|e|]; [|destruct e|done].
  all: try (injection H as <- <-; split_and!; [by intros q; left|done|done]).
  - destruct Ho as [-> Hd]. apply (Hnext fs); try done. intros q. by left.
  - destruct cm; [|injection H as <- <-; split_and!; [by intros q; left|done|done]].
    unfold mkdirat in H. rewrite Ho in H.
    set (fs1 := <[cur ++ [c] := Inode KDir 0 0]> fs) in H.
    assert (openat_dir fs1 cur c = Ret (cur ++ [c])) as Hop
      by (unfold openat_dir, fs1; by rewrite lookup_insert_eq).
    rewrite Hop in H. set (fs2 := if ch then _ else _) in H.
    assert (is_dir fs2 (cur ++ [c])) as Hd2.
    { unfold fs2. destruct ch; [apply is_dir_fchown|]; unfold is_dir, fs1; by rewrite lookup_insert_eq. }
    apply (Hnext fs2); try done. intros q. destruct (decide (q = cur ++ [c])) as [->|Hq].
    + right. split_and!; [done|done|]. by exists [c].
    + left. unfold fs2, fs1, fchown. destruct ch; rewrite ?lookup_alter_ne, lookup_insert_ne by done; done.
Qed.

(** The parents are found without following a link, or the call fails. *)
Lemma open_parent_spec fs root path cm ch uid gid fs' r :
  openParentUnderRoot fs root (frame_rel path) cm ch uid gid = (fs', r) →
  let es := url_elems path in
  grows_dirs fs fs' root (removelast es) ∧ (cm = false → fs' = fs) ∧
  match r with
  | Ret (parent, name) =>
      es = removelast es ++ [name] ∧ parent = root ++ removelast es ∧ is_dir fs' root ∧
      ∀ pre, pre ≠ [] → pre `prefix_of` removelast es → is_dir fs' (root ++ pre)
  | Err _ => True
  | Panic => False
  end.
Proof.
  unfold openParentUnderRoot. rewrite frame_rel_comps. intros H. cbv zeta.
  assert (grows_dirs fs fs root (removelast (url_elems path))) as Hid by (intros q; by left).
  destruct (last (url_elems path)) as [name|] eqn:Hl; [|by injection H as <- <-].
  apply last_Some in Hl as [init Hl]. rewrite Hl, removelast_last in *.
  assert (is_dir fs root ∨ (fs, Err OpenRoot) = (fs', r)) as [Hroot|Hr].
  { unfold is_dir. destruct (fs !! root) as [[[] u g]|]; auto. }
  2: { by injection Hr as <- <-. }
  destruct (open_parents fs root init cm ch uid gid) as [fs1 r1] eqn:Hop.
  assert ((fs1, (parent ← r1; Ret (parent, name))) = (fs', r)) as [= <- <-].
  { unfold is_dir in Hroot. destruct (fs !! root) as [[[] u g]|]; done. }
  apply open_parents_spec in Hop as (Hg & Hcm & Hr). split_and!; [done|done|].
  destruct r1 as [fd|e|]; [|done|done]. destruct Hr as [-> Hr]. cbn. split_and!; try done.
  destruct (Hg root) as [Heq|(_ & ? & _)]; [|done]. unfold is_dir. by rewrite Heq.
Qed.

(** Who owns a file; a new one is the daemon's. *)
Definition owner (fs : tree) (path : list gostring) : Z * Z :=
  match fs !! path with Some i => (i_uid i, i_gid i) | None => (0, 0) end.

(** Edits of one file. *)
Lemma on_data_ne f fs path q : q ≠ path → on_data f fs path !! q = fs !! q.
Proof. intros. unfold on_data. by rewrite lookup_alter_ne. Qed.

Lemma on_data_eq f fs path data u g :
  fs !! path = Some (Inode (KFile data) u g) →
  on_data f fs path !! path = Some (Inode (KFile (f data)) u g).
Proof. intros H. unfold on_data. by rewrite lookup_alter_eq, H. Qed.

(** What the tree looks like after a call that touched the file [file] and made
    directories on the way to it. *)
Definition only_touches (fs fs' : tree) (root es : list gostring) : Prop :=
  ∀ q, q ≠ root ++ es → fs' !! q = fs !! q ∨
    (fs !! q = None ∧ is_dir fs' q ∧ ∃ pre, pre ≠ [] ∧ pre `prefix_of` removelast es ∧ q = root ++ pre).

Lemma snoc_not_prefix (pre init : list gostring) name :
  pre `prefix_of` init → pre ≠ init ++ [name].
Proof. intros [k ->] Heq. apply (f_equal length) in Heq. revert Heq. len_lia. Qed.

Lemma grows_not_file fs fs' root es :
  grows_dirs fs fs' root (removelast es) → fs' !! (root ++ es) = fs !! (root ++ es).
Proof.
  intros Hg. destruct (Hg (root ++ es)) as [?|(_ & _ & pre & Hne & Hpre & Heq%app_inv_head)]; [done|].
  exfalso. destruct es as [|e es _] using rev_ind; [by subst pre|].
  rewrite removelast_last in Hpre. by apply (snoc_not_prefix pre es e).
Qed.

Lemma grows_then_touches fs fs1 fs2 root init name :
  grows_dirs fs fs1 root init → (∀ q, q ≠ root ++ init ++ [name] → fs2 !! q = fs1 !! q) →
  only_touches fs fs2 root (init ++ [name]).
Proof.
  intros Hg H2 q Hq. rewrite removelast_last. rewrite H2 by done.
  destruct (Hg q) as [?|(Hn & Hd & Hp)]; [by left|right]. split_and!; [done| |done].
  unfold is_dir. by rewrite H2.
Qed.

Lemma open_create_spec fs path fs' :
  open_create fs path = Ret fs' →
  fs' !! path = Some (Inode (KFile []) (owner fs path).1 (owner fs path).2) ∧
  ∀ q, q ≠ path → fs' !! q = fs !! q.
Proof.
  unfold open_create, owner. intros H.
  destruct (fs !! path) as [[[] u g]|]; injection H as <- || done.
  all: split; [by rewrite lookup_insert_eq|intros q ?; by rewrite lookup_insert_ne].
Qed.

Lemma open_create_kind fs path fs' :
  open_create fs path = Ret fs' →
  match fs !! path with Some i => ∃ data, i_kind i = KFile data | None => True end.
Proof. unfold open_create. destruct (fs !! path) as [[[] u g]|]; intros H; [by eexists|done..]. Qed.

Lemma fchown_spec fs path i uid gid :
  fs !! path = Some i →
  fchown fs path uid gid !! path = Some (Inode (i_kind i) uid gid) ∧
  ∀ q, q ≠ path → fchown fs path uid gid !! q = fs !! q.
Proof.
  intros H. unfold fchown. split; [by rewrite lookup_alter_eq, H|]. intros q ?. by rewrite lookup_alter_ne.
Qed.

(** Writing the text and handing the file over. *)
Lemma write_spec fs path text u g (is_user : bool) uid gid :
  fs !! path = Some (Inode (KFile []) u g) →
  let fs' := (if is_user then fchown (pwrite fs path text) path uid gid else pwrite fs path text) in
  fs' !! path = Some (Inode (KFile text) (if is_user then uid else u) (if is_user then gid else g)) ∧
  ∀ q, q ≠ path → fs' !! q = fs !! q.
Proof.
  intros H. cbv zeta. pose proof (on_data_eq (λ old, text ++ drop (length text) old) _ _ _ _ _ H) as Hp.
  cbv beta in Hp. rewrite drop_nil, app_nil_r in Hp. destruct is_user.
  - destruct (fchown_spec _ _ _ uid gid Hp) as [H1 H2]. split; [exact H1|].
    intros q Hq. unfold pwrite. rewrite H2 by done. by apply on_data_ne.
  - split; [exact Hp|]. intros q Hq. by apply on_data_ne.
Qed.

(** The part of the text that fits on the disk. *)
Definition fits (room : option nat) (text : list byte) : list byte :=
  match room with None => text | Some n => take n text end.

Lemma accepted_spec room text :
  match accepted room text with
  | Ret data => data = fits room text
  | Err _ => text ≠ [] ∧ fits room text = []
  | Panic => False
  end.
Proof. destruct room as [[|n]|]; [|done..]. by destruct text. Qed.

(** What is found at the file's place afterwards. A file that was there keeps
    its owner when the call is made for root; for a file that was there and a
    call made for the frame's user the owner is one of the two. *)
Definition file_outcome (is_user : bool) (before : option inode) (room : option nat)
    (text : list byte) (after : option inode) (res : tool_result) : Prop :=
  match res with
  | Created _ | TimedOut =>
      ∃ u g, after = Some (Inode (KFile (fits room text)) u g) ∧
        (fits room text = text → res = TimedOut ∨ res = Created (length text)) ∧
        match before with
        | None => (u, g) = if is_user then (7575, 7575) else (0, 0)
        | Some i => (u, g) = (i_uid i, i_gid i) ∨ is_user = true ∧ (u, g) = (7575, 7575)
        end
  | WriteError =>
      (text ≠ [] ∧ fits room text = []) ∧
      after = Some (Inode (KFile []) (from_option i_uid 0 before) (from_option i_gid 0 before))
  | _ => after = before
  end.


(** ** Lemmas: occurrences *)

Lemma Index_some s sep i :
  IndexOf s sep = Some i →
  (∃ pre post, s = pre ++ sep ++ post ∧ length pre = i) ∧
  ∀ pre post, s = pre ++ sep ++ post → (i ≤ length pre)%nat.
Proof.
  revert i. induction s as [|c s IH]; intros i H; cbn [IndexOf] in H.
  - destruct (HasPrefix [] sep) eqn:Hp; [|done]. injection H as <-.
    apply HasPrefix_true in Hp as [post Hp]. split; [by exists [], post|lia].
  - destruct (HasPrefix (c :: s) sep) eqn:Hp.
    + injection H as <-. apply HasPrefix_true in Hp as [post Hp]. split; [by exists [], post|lia].
    + apply fmap_Some in H as (j & Hj & ->). apply IH in Hj as [(pre & post & -> & <-) Hmin].
      split; [by exists (c :: pre), post|]. intros pre' post' Heq.
      destruct pre' as [|d pre'].
      * exfalso. apply not_true_iff_false in Hp. apply Hp, HasPrefix_true. by exists post'.
      * injection Heq as <- Heq. apply Hmin in Heq. cbn. lia.
Qed.

Lemma Index_none s sep : IndexOf s sep = None → ∀ pre post, s ≠ pre ++ sep ++ post.
Proof.
  induction s as [|c s IH]; intros H pre post Heq; cbn [IndexOf] in H.
  - destruct (HasPrefix [] sep) eqn:Hp; [done|]. apply not_true_iff_false in Hp. apply Hp, HasPrefix_true.
    destruct pre; [by exists post|done].
  - destruct (HasPrefix (c :: s) sep) eqn:Hp; [done|]. apply fmap_None in H.
    destruct pre as [|d pre].
    + apply not_true_iff_false in Hp. apply Hp, HasPrefix_true. by exists post.
    + injection Heq as -> Heq. by eapply IH.
Qed.

Lemma Count_zero s sep : Count s sep = 0%nat → ∀ pre post, s ≠ pre ++ sep ++ post.
Proof. unfold Count. cbn [count_from]. destruct (IndexOf s sep) eqn:Hi; [done|]. intros _. by apply Index_none. Qed.

Lemma Count_one s sep :
  sep ≠ [] → Count s sep = 1%nat →
  ∃ pre post, s = pre ++ sep ++ post ∧ (∀ new, Replace1 s sep new = pre ++ new ++ post) ∧
    ∀ pre' post', s = pre' ++ sep ++ post' → (length pre ≤ length pre' < length pre + length sep)%nat.
Proof.
  intros Hsep. unfold Count. cbn [count_from]. destruct (IndexOf s sep) as [i|] eqn:Hi; [|done].
  intros [= Hrest]. pose proof Hi as Hi'. apply Index_some in Hi as [(pre & post & Hs & Hl) Hmin].
  exists pre, post. split_and!; [done| |].
  - intros new. unfold Replace1. rewrite Hi', <- Hl, Hs, take_app_length.
    rewrite <- drop_drop, drop_app_length, drop_app_length. done.
  - intros pre' post' Heq. split; [rewrite Hl; by eapply Hmin|].
    destruct (decide (length pre' < length pre + length sep)%nat) as [|Hge]; [done|]. exfalso.
    assert (IndexOf (drop (i + length sep) s) sep = None) as Hnone.
    { destruct (length s) as [|n] eqn:Hn; [apply nil_length_inv in Hn; subst s; by destruct pre, sep|].
      cbn [count_from] in Hrest. by destruct (IndexOf (drop (i + length sep) s) sep). }
    eapply (Index_none _ _ Hnone (drop (i + length sep) pre') post').
    rewrite Heq, drop_app_le by lia. done.
Qed.

(** The whole file is rewritten in place. *)
Lemma rewrite_spec fs path old u g data :
  fs !! path = Some (Inode (KFile old) u g) →
  ftruncate (pwrite fs path data) path (length data) = <[path := Inode (KFile data) u g]> fs.
Proof.
  intros H. apply map_eq. intros q. destruct (decide (q = path)) as [->|Hq].
  - pose proof (on_data_eq (λ o, data ++ drop (length data) o) _ _ _ _ _ H) as Hp.
    unfold ftruncate. erewrite on_data_eq by exact Hp. rewrite lookup_insert_eq. cbv beta.
    rewrite take_app_length, length_app.
    replace (length data - _)%nat with 0%nat by lia. cbn [replicate]. by rewrite app_nil_r.
  - unfold ftruncate, pwrite. rewrite !on_data_ne, lookup_insert_ne by done. done.
Qed.

(** A branch that reports something else and leaves the tree alone. *)
Local Ltac tree_untouched :=
  match goal with
  | H : (_, _) = (_, _) |- _ =>
      injection H as <- <-; split; [done|]; rewrite bool_decide_eq_false_2 by naive_solver; by split
  end.

(** A replacement happens exactly when the old text occurs in the file and
    only there (two occurrences that overlap count as one), replaces that
    occurrence and nothing else, byte for byte, keeps the owner, and changes no
    other file; in every other case, links and directories included, the tree is
    left as it was. *)
Theorem str_replace_exact late fs root path old_str new_str fs' res :
  Forall proper root → root ≠ [] → old_str ≠ [] →
  str_replace None late fs root path old_str new_str = (fs', res) →
  let file := root ++ url_elems path in
  res ≠ Escapes ∧
  if bool_decide (res = Replaced ∨ res = TimedOut) then
    ∃ pre post u g,
      fs !! file = Some (Inode (KFile (pre ++ old_str ++ post)) u g) ∧
      fs' = <[file := Inode (KFile (pre ++ new_str ++ post)) u g]> fs ∧
      (∀ pre' post', pre ++ old_str ++ post = pre' ++ old_str ++ post' →
         (length pre ≤ length pre' < length pre + length old_str)%nat) ∧
      ∀ p, p `prefix_of` removelast (url_elems path) → is_dir fs (root ++ p)
  else
    fs' = fs ∧
    (res = StringNotFound → ∃ content u g, fs !! file = Some (Inode (KFile content) u g) ∧
       ∀ pre post, content ≠ pre ++ old_str ++ post).
Proof.
  intros Hproper Hroot Hold H. cbv zeta. unfold str_replace in H. rewrite never_escapes in H by done.
  cbn [negb] in H.
  destruct (openParentUnderRoot fs root (frame_rel path) false false 0 0) as [fs1 r] eqn:Ho.
  apply open_parent_spec in Ho as (_ & Hsame & Hr). rewrite (Hsame eq_refl) in *. clear Hsame.
  destruct r as [[parent name]|e|]; [|by tree_untouched|done].
  destruct Hr as (Hes & -> & Hdr & Hdirs). rewrite <- app_assoc, <- Hes in H.
  destruct (fs !! (root ++ url_elems path)) as [[k u g]|] eqn:Hf;
    cbn [i_kind fmap option_fmap option_map] in H; [|by tree_untouched].
  destruct k as [content| |t|]; [|by tree_untouched..].
  destruct (Nat.eqb_spec (Count content old_str) 0) as [Hz|Hz].
  { injection H as <- <-. split; [done|]. rewrite bool_decide_eq_false_2 by naive_solver.
    split; [done|]. intros _. exists content, u, g. split; [done|]. by apply Count_zero. }
  destruct (Nat.ltb_spec 1 (Count content old_str)) as [Hm|Hm].
  { by tree_untouched. }
  cbn [accepted] in H. injection H as Hfs Hres. split; [by destruct late; subst res|].
  rewrite bool_decide_eq_true_2 by (destruct late; subst res; auto).
  destruct (Count_one content old_str Hold) as (pre & post & Hc & Hrep & Huniq); [lia|].
  exists pre, post, u, g. rewrite <- Hc. split_and!; [done| |exact Huniq|].
  - by rewrite <- Hfs, Hrep, (rewrite_spec fs _ content u g).
  - intros p Hp. destruct (decide (p = [])) as [->|]; [by rewrite app_nil_r|by apply Hdirs].
Qed.

End Files.

(** ** Examples *)

#[local] Instance linux : Kernel := { link_errno := ENOTDIR; link_errno_other := ltac:(discriminate) }.

Definition example_root : list gostring := [bs "frames"; bs "f"].

(** A frame with a file and with a link out of the frame. *)
Definition example_fs : tree :=
  list_to_map
    [ ([bs "frames"], Inode KDir 0 0);
      (example_root, Inode KDir 0 0);
      (example_root ++ [bs "notes"], Inode (KFile (bs "one two")) 0 0);
      (example_root ++ [bs "out"], Inode (KLink (bs "/etc")) 7575 7575);
      ([bs "etc"], Inode KDir 0 0) ].

Lemma example_root_ok : Forall proper example_root ∧ example_root ≠ [].
Proof. split; [|discriminate]. by apply Forall_cons_2, Forall_cons_2, Forall_nil_2; apply proper_name. Qed.


Lemma str_replace_exact_witness :
  let '(fs', res) := str_replace None false example_fs example_root (bs "../notes") (bs "two") (bs "three") in
  res = Replaced ∧ res ≠ Escapes ∧
  fs' !! (example_root ++ [bs "notes"]) = Some (Inode (KFile (bs "one three")) 0 0).
Proof.
  destruct (str_replace None false example_fs example_root (bs "../notes") (bs "two") (bs "three")) as [fs' res] eqn:H.
  destruct (str_replace_exact false example_fs example_root (bs "../notes") (bs "two") (bs "three") fs' res
    (proj1 example_root_ok) (proj2 example_root_ok) ltac:(discriminate) H) as [He _].
  split; [|split; [exact He|]].
  - apply (f_equal snd) in H. cbn [snd] in H. rewrite <- H. vm_compute. reflexivity.
  - apply (f_equal fst) in H. cbn [fst] in H. rewrite <- H. vm_compute. reflexivity.
Defined.

(** The comment on the handler says that an existing file keeps its owner; with
    [user=user] it does not. *)
Lemma create_file_takes_over :
  let '(fs', res) := create_file None false example_fs example_root (bs "/notes") true (bs "x") in
  res = Created 1 ∧ fs' !! (example_root ++ [bs "notes"]) = Some (Inode (KFile (bs "x")) 7575 7575).
Proof. by vm_compute. Qed.

(** When the disk fills up in the middle of the write, the call reports the whole
    text as created; a replacement leaves zero bytes at the end. *)
Lemma short_write_reported_whole :
  (let '(fs', res) := create_file (Some 2%nat) false example_fs example_root (bs "/new") false (bs "text") in
   res = Created 4 ∧ fs' !! (example_root ++ [bs "new"]) = Some (Inode (KFile (bs "te")) 0 0)) ∧
  (let '(fs', res) := str_replace (Some 5%nat) false example_fs example_root (bs "/notes") (bs "two") (bs "three") in
   res = Replaced ∧
   fs' !! (example_root ++ [bs "notes"]) = Some (Inode (KFile (bs "one two" ++ [Byte.x00; Byte.x00])) 0 0)).
Proof. by vm_compute. Qed.
