(* ===== verification/SnapFiles.v ===== *)
(** * Snaps on disk ([src/cmd/thundersnapd/snapqueue.go], [main.go], [rootfs.go])

    Capturing a subvolume, indexing the capture and publishing it under its content
    address, and deleting a snap. Subvolumes are behind an interface, the files beside
    them (stamps, manifests, metadata) are on the disk of [JsonStore]. *)

From Stdlib Require Import Strings.String.
From S2P Require Import GoSort Prelude GoStrings GoPath GoIO JsonStore FrameId Frames Sha256 SnapHash Chunking Tsc Tsm Indexer.

(** ** Subvolumes

    What the program asks of btrfs, and of the operating system about directories; each
    call may fail. Walking a captured subvolume gives the nodes the indexer sees. *)
Class Volumes (V : Type) := {
  vol_snapshot : V → gostring → gostring → bool → V * bool;
  vol_subtree : V → gostring → gostring → gostring → V * bool;
  vol_create : V → gostring → V * bool;
  vol_delete : V → gostring → V * bool;
  vol_is : V → gostring → bool;
  vol_stat : V → gostring → stat_result;
  vol_is_dir : V → gostring → bool;
  vol_readdir : V → gostring → option (list gostring);
  vol_rename : V → gostring → gostring → V * bool;
  vol_remove_all : V → gostring → V * bool;
  vol_chown : V → gostring → V * bool;
  vol_lexists : V → gostring → bool;
  vol_symlink : V → gostring → gostring → V;
  vol_walk : V → gostring → list node;
  vol_walk_calm : ∀ v p, Forall (λ n, calm n = true) (vol_walk v p);
}.

Definition isSubvolume `{Volumes V} (v : V) (path : gostring) : bool := vol_is v path.
(** An error counts as empty. *)
Definition isDirEmpty `{Volumes V} (v : V) (path : gostring) : bool :=
  match vol_readdir v path with Some entries => bool_decide (entries = []) | None => true end.

(** ** Stamps *)

Definition stamp : gostring := bs ".stamp".

(** Renaming a file over another. *)
Definition os_Rename (fails : bool) (d : disk) (src dst : gostring) : disk * bool :=
  match d_files d !! src with
  | Some data =>
      if fails || bool_decide (dst ∈ d_dirs d) then (d, false)
      else (MkDisk (<[dst := data]> (delete src (d_files d))) (d_dirs d), true)
  | None => (d, false)
  end.

Definition readStampFile (env : osenv) (d : disk) (path : gostring) : gostring :=
  match os_ReadFile env d (path ++ stamp) with ReadOk data => TrimSpace data | _ => [] end.

Definition writeStampFile (env : osenv) (d : disk) (path snapshotID : gostring) : disk * bool :=
  let stampPath := path ++ stamp in
  let tmpPath := stampPath ++ bs ".tmp" in
  let data := snapshotID ++ [Byte.x0a] in
  match write_fails env with
  | Some AtCreate => (d, false)
  | Some (AtWrite n) => (put_file d tmpPath (take n data), false)
  | Some AtClose => (put_file d tmpPath data, false)
  | Some AtRename => os_Rename true (put_file d tmpPath data) tmpPath stampPath
  | Some AtChmod | None => os_Rename false (put_file d tmpPath data) tmpPath stampPath
  end.

(** ** Directories and names *)

Definition deriveDataDirs (dataDir : gostring) : gostring * gostring :=
  (JoinPath dataDir (bs "fs"), JoinPath dataDir (bs "snaps")).

Definition backslash : byte := Byte.x5c.
Definition validSnapID (id : gostring) : bool :=
  if bool_decide (id = []) then true
  else if ContainsByte id slash || ContainsByte id backslash then false
  else if bool_decide (id = dot) || bool_decide (id = dotdot) then false
  else true.

(** Sixteen bytes of [crypto/rand] in hexadecimal. *)
Definition generateRandomID (rand : option (list byte)) : option gostring :=
  rand ← rand; Some (concat (hex_byte <$> rand)).

(** The snap ID of three components. *)
Definition or_nil (id : gostring) : gostring := if bool_decide (id = []) then bs "nil" else id.
Definition triplet (rootID homeID workID : gostring) : gostring :=
  rootID ++ bs ":" ++ or_nil homeID ++ bs ":" ++ or_nil workID.

(** ** Making a snap *)

Record world (V : Type) := MkWorld { w_disk : disk; w_vols : V }.
Arguments MkWorld {V}.
Arguments w_disk {V}.
Arguments w_vols {V}.
Definition set_disk {V} (w : world V) (d : disk) : world V := MkWorld d (w_vols w).
Definition set_vols {V} (w : world V) (v : V) : world V := MkWorld (w_disk w) v.

Inductive snap_error :=
| err_random | err_btrfs | err_stamp | err_index | err_read_manifest | err_rename
| err_subdir | err_not_subvolume.

#[export] Instance snap_error_eq_dec : EqDecision snap_error.
Proof. solve_decision. Defined.

(** What the operating system refuses while a capture is indexed. *)
Record index_env := MkIndexEnv {
  ie_os : osenv;                          (* reads, removals *)
  ie_stamp : osenv;                       (* writing the stamp *)
  ie_tsc : fs_fault;
  ie_tsm : fs_fault;
  ie_rename : gostring → bool;            (* by the file renamed *)
  ie_meta : osenv;                        (* writing the metadata *)
  ie_now : Z;
}.

Section snaps.
Context `{Digest} `{Volumes V} {text_ok : gostring → Prop} `{!Json SnapMeta (meta_ok text_ok)}.
Variables (Major Minor : Z → Z) (zeroTime : Z) (snapsDir : gostring).

(** The instant part: a snapshot under a temporary name. *)
Definition captureSubvol (rand : option (list byte)) (v : V) (source subdir : gostring)
    : V * outcome snap_error gostring :=
  match generateRandomID rand with
  | None => (v, Err err_random)
  | Some tmpID =>
      let tmpPath := JoinPath snapsDir (tmpID ++ bs ".tmp") in
      if bool_decide (subdir = []) then
        match vol_snapshot v source tmpPath true with
        | (v', true) => (v', Ret tmpPath)
        | (v', false) => (v', Err err_btrfs)
        end
      else
        match vol_subtree v source subdir tmpPath with
        | (v', true) => (v', Ret tmpPath)
        | (v', false) => ((vol_delete v' tmpPath).1, Err err_btrfs)
        end
  end.

Definition ReadTSM (env : osenv) (d : disk) (path : gostring) : outcome unit TSMReader :=
  match os_ReadFile env d path with
  | ReadOk data => wrap_err (λ _, tt) (ParseTSM data)
  | _ => Err tt
  end.
Definition ReadTSC (env : osenv) (d : disk) (path : gostring) : outcome unit TSCReader :=
  match os_ReadFile env d path with
  | ReadOk data => wrap_err (λ _, tt) (ParseTSC data)
  | _ => Err tt
  end.

(** Both manifests of the parent, or none. *)
Definition loadParentManifest (env : osenv) (d : disk) (parentStampID : gostring)
    : option (TSMReader * TSCReader) :=
  if bool_decide (parentStampID = []) then None
  else
    let base := JoinPath snapsDir parentStampID in
    match ReadTSM env d (base ++ bs ".tsm"), ReadTSC env d (base ++ bs ".tsc") with
    | Ret parentTSM, Ret parentTSC => Some (parentTSM, parentTSC)
    | _, _ => None
    end.

Definition cleanupTmp (env : osenv) (w : world V) (tmpPath : gostring) : world V :=
  let v := (vol_delete (w_vols w) tmpPath).1 in
  let d := (os_Remove env (w_disk w) (tmpPath ++ stamp)).1 in
  let d := (os_Remove env d (tmpPath ++ bs ".tsm")).1 in
  let d := (os_Remove env d (tmpPath ++ bs ".tsc")).1 in
  MkWorld d v.

(** A snap with this content is there already: its taints are intersected with those of
    the new capture. *)
Definition dedup_taints (e : index_env) (d : disk) (snapshotID : gostring) (taints : list gostring) : disk :=
  match readSnapMeta (ie_os e) d snapsDir snapshotID with
  | Ret (Some existingMeta) =>
      if bool_decide (taints = []) then d
      else
        let intersected := IntersectTaints (S_Taints existingMeta) taints in
        if taintsEqual (S_Taints existingMeta) intersected then d
        else (writeSnapMeta (ie_meta e) d snapsDir snapshotID
                (MkSnapMeta (Parent existingMeta) intersected (Source existingMeta))).1
  | _ => d
  end.

(** The files of the capture take their final names; only the subvolume's renaming can
    fail the snap. *)
Definition publish (e : index_env) (w : world V) (tmpPath finalPath snapshotID parentStampID : gostring)
    (taints : list gostring) : world V * outcome snap_error gostring :=
  match vol_rename (w_vols w) tmpPath finalPath with
  | (v, false) => (cleanupTmp (ie_os e) (set_vols w v) tmpPath, Err err_rename)
  | (v, true) =>
      let ren d ext := (os_Rename (ie_rename e (tmpPath ++ ext)) d (tmpPath ++ ext) (finalPath ++ ext)).1 in
      let d := ren (w_disk w) stamp in
      let d := ren d (bs ".tsm") in
      let d := ren d (bs ".tsc") in
      let d := (writeSnapMeta (ie_meta e) d snapsDir snapshotID (MkSnapMeta parentStampID taints None)).1 in
      (MkWorld d v, Ret snapshotID)
  end.

(** A list as a metadata file has it: an empty one is left out and read back as [nil]. *)
Definition stored_list (l : list gostring) : option (list gostring) := if bool_decide (l = []) then None else Some l.

(** [indexAndFinalizeSubvol]; [None] is a [nil] slice of taints. The indexer is told of a parent for a whole subvolume only. *)
Definition indexAndFinalizeSubvol (e : index_env) (w : world V) (tmpPath subdir parentStampID : gostring)
    (taints : option (list gostring)) : world V * outcome snap_error gostring :=
  let fail w err := (cleanupTmp (ie_os e) w tmpPath, Err err) in
  let '(d, stamped) := writeStampFile (ie_stamp e) (w_disk w) tmpPath parentStampID in
  let w := set_disk w d in
  if negb stamped then fail w err_stamp
  else
    let parent := if bool_decide (subdir = []) then loadParentManifest (ie_os e) d parentStampID else None in
    let idx := NewIndexer (fst <$> parent) (snd <$> parent) (ie_now e) zeroTime in
    let '(fs, r) := Index Major Minor (ie_tsc e) (ie_tsm e) (d_files d) idx (vol_walk (w_vols w) tmpPath) tmpPath in
    let w := set_disk w (MkDisk fs (d_dirs d)) in
    match r with
    | Panic => (w, Panic)
    | Err _ => fail w err_index
    | Ret _ =>
        match ReadTSM (ie_os e) (w_disk w) (tmpPath ++ bs ".tsm") with
        | Panic => (w, Panic)
        | Err _ => fail w err_read_manifest
        | Ret tsmReader =>
            let snapshotID := Encode (rSHA256 tsmReader) in
            let finalPath := JoinPath snapsDir snapshotID in
            let taints := match taints with None => getSnapTaints (ie_os e) (w_disk w) snapsDir parentStampID | Some ts => ts end in
            match vol_stat (w_vols w) finalPath with
            | StatOk =>
                let w := set_disk w (dedup_taints e (w_disk w) snapshotID taints) in
                (cleanupTmp (ie_os e) w tmpPath, Ret snapshotID)
            | _ => publish e w tmpPath finalPath snapshotID parentStampID taints
            end
        end
    end.

(** Capture and index in one call. *)
Definition createSnapshotWithTaintsSubdir (rand : option (list byte)) (e : index_env) (w : world V)
    (source subdir parentStampID : gostring) (taints : option (list gostring)) : world V * outcome snap_error gostring :=
  match captureSubvol rand (w_vols w) source subdir with
  | (v, Ret tmpPath) => indexAndFinalizeSubvol e (set_vols w v) tmpPath subdir parentStampID taints
  | (v, Err err) => (set_vols w v, Err err)
  | (v, Panic) => (set_vols w v, Panic)
  end.
Definition createSnapshotWithTaints (rand : option (list byte)) (e : index_env) (w : world V)
    (source parentStampID : gostring) (taints : option (list gostring)) : world V * outcome snap_error gostring :=
  createSnapshotWithTaintsSubdir rand e w source [] parentStampID taints.

(** ** Deleting a snap *)

(** One entry of the snaps directory: a child of [oldParent] becomes one of [newParent]. *)
Definition relink_one (env : osenv) (d : disk) (entry oldParent newParent : gostring) : disk :=
  if negb (HasSuffix entry jsonc) then d
  else
    let snapID := TrimSuffix entry jsonc in
    if bool_decide (snapID = oldParent) then d
    else
      match readSnapMeta env d snapsDir snapID with
      | Ret (Some meta) =>
          if bool_decide (Parent meta = oldParent)
          then (writeSnapMeta env d snapsDir snapID (MkSnapMeta newParent (S_Taints meta) (Source meta))).1
          else d
      | _ => d
      end.
Definition relinkSnapChildren (env : osenv) (d : disk) (oldParent newParent : gostring) : disk * bool :=
  match os_ReadDir env d snapsDir with
  | Ret entries => (foldl (λ d entry, relink_one env d (fst entry) oldParent newParent) d entries, true)
  | _ => (d, false)
  end.

Inductive http_status := StatusOK | StatusBadRequest | StatusNotFound | StatusInternalServerError.

(** The handler, after the request is decoded. *)
Definition handleDeleteSnap (env : osenv) (w : world V) (snapshotID : gostring) : world V * http_status :=
  if bool_decide (snapshotID = []) then (w, StatusBadRequest)
  else
    let snapPath := JoinPath snapsDir snapshotID in
    match vol_stat (w_vols w) snapPath with
    | StatNotExist => (w, StatusNotFound)
    | _ =>
        let deletedParent :=
          match readSnapMeta env (w_disk w) snapsDir snapshotID with Ret (Some m) => Parent m | _ => [] end in
        let d := (relinkSnapChildren env (w_disk w) snapshotID deletedParent).1 in
        match vol_delete (w_vols w) snapPath with
        | (v, false) => (MkWorld d v, StatusInternalServerError)
        | (v, true) =>
            let rm d ext := (os_Remove env d (snapPath ++ ext)).1 in
            let d := rm (rm (rm (rm d jsonc) stamp) (bs ".tsm")) (bs ".tsc") in
            (MkWorld d v, StatusOK)
        end
    end.
End snaps.

(** ** What the calls leave alone *)

(** Only files in [P] differ. *)
Definition only_files (P : gostring → Prop) (d d' : disk) : Prop :=
  d_dirs d' = d_dirs d ∧ ∀ p, ¬ P p → d_files d' !! p = d_files d !! p.

Lemma only_files_refl P d : only_files P d d.
Proof. done. Qed.
Lemma only_files_trans P d1 d2 d3 : only_files P d1 d2 → only_files P d2 d3 → only_files P d1 d3.
Proof. intros [H1 H2] [H3 H4]. split; [by rewrite H3|]. intros p Hp. by rewrite H4, H2. Qed.
Lemma only_files_weaken (P Q : gostring → Prop) d d' :
  (∀ p, P p → Q p) → only_files P d d' → only_files Q d d'.
Proof. intros HPQ [H1 H2]. split; [done|]. intros p Hp. apply H2. auto. Qed.

Lemma put_file_only (P : gostring → Prop) d p data : P p → only_files P d (put_file d p data).
Proof. intros Hp. split; [done|]. intros q Hq. cbn. rewrite lookup_insert_ne; [done|]. by intros ->. Qed.
Lemma os_Remove_only (P : gostring → Prop) env d p : P p → only_files P d (os_Remove env d p).1.
Proof.
  intros Hp. unfold os_Remove. destruct (remove_fails env p); [done|].
  destruct (d_files d !! p); [|done]. split; [done|]. intros q Hq. cbn. rewrite lookup_delete_ne; [done|]. by intros ->.
Qed.
Lemma os_Rename_only (P : gostring → Prop) fails d p q : P p → P q → only_files P d (os_Rename fails d p q).1.
Proof.
  intros Hp Hq. unfold os_Rename. destruct (d_files d !! p); [|done]. destruct (_ || _); [done|].
  split; [done|]. intros r Hr. cbn. rewrite lookup_insert_ne, lookup_delete_ne; [done|by intros ->..].
Qed.

(** The files of a snap or of a capture. *)
Definition snap_files (base p : gostring) : Prop :=
  p ∈ [base ++ stamp; (base ++ stamp) ++ bs ".tmp"; base ++ bs ".tsm"; (base ++ bs ".tsm") ++ bs ".tmp";
       base ++ bs ".tsc"; (base ++ bs ".tsc") ++ bs ".tmp"].

Definition manifest_files (base p : gostring) : Prop :=
  p ∈ [base ++ bs ".tsm"; (base ++ bs ".tsm") ++ bs ".tmp"; base ++ bs ".tsc"; (base ++ bs ".tsc") ++ bs ".tmp"].

#[export] Instance snap_files_dec base p : Decision (snap_files base p).
Proof. unfold snap_files. apply _. Defined.

Ltac snap_file := unfold snap_files; set_solver.

Lemma own_files base :
  snap_files base (base ++ stamp) ∧ snap_files base (base ++ bs ".tsm") ∧ snap_files base (base ++ bs ".tsc").
Proof. split_and!; snap_file. Qed.

Lemma writeStampFile_only env d path id : only_files (snap_files path) d (writeStampFile env d path id).1.
Proof.
  assert (∀ x, only_files (snap_files path) d (put_file d ((path ++ stamp) ++ bs ".tmp") x)) as Hput
    by (intros x; apply put_file_only; snap_file).
  assert (∀ f x, only_files (snap_files path) d
    (os_Rename f (put_file d ((path ++ stamp) ++ bs ".tmp") x) ((path ++ stamp) ++ bs ".tmp") (path ++ stamp)).1) as Hren.
  { intros f x. eapply only_files_trans; [apply Hput|]. apply os_Rename_only; snap_file. }
  unfold writeStampFile. destruct (write_fails env) as [[]|]; cbn [fst]; first [done | apply Hput | apply Hren].
Qed.

Lemma write_via_tmp_only fault (d : disk) path data :
  only_files (λ p, p = path ∨ p = path ++ bs ".tmp") d
    (MkDisk (write_via_tmp fault (d_files d) path data).1 (d_dirs d)).
Proof.
  split; [done|]. intros p Hp. destruct (write_via_tmp _ _ _ _) as [fs e] eqn:Hw.
  apply write_via_tmp_atomic in Hw as [_ Hw]. cbn. apply Hw; intros ->; apply Hp; auto.
Qed.

Lemma manifest_own out p :
  (p = out ++ bs ".tsm" ∨ p = (out ++ bs ".tsm") ++ bs ".tmp" → manifest_files out p) ∧
  (p = out ++ bs ".tsc" ∨ p = (out ++ bs ".tsc") ++ bs ".tmp" → manifest_files out p).
Proof. unfold manifest_files. set_solver. Qed.
Lemma manifest_snap out p : manifest_files out p → snap_files out p.
Proof. unfold manifest_files, snap_files. set_solver. Qed.

Section footprint.
Context `{Digest} `{Volumes V} {text_ok : gostring → Prop} `{!Json SnapMeta (meta_ok text_ok)}.
Variables (Major Minor : Z → Z) (zeroTime : Z) (snapsDir : gostring).

Lemma Index_manifests f1 f2 d idx nodes out :
  only_files (manifest_files out) d (MkDisk (Index Major Minor f1 f2 (d_files d) idx nodes out).1 (d_dirs d)).
Proof.
  unfold Index. destruct (index_loop _ _ _ _ _) as [idx'|e|]; [|done..].
  unfold Tsc.Write. destruct (sortChunks (tsc idx')) as [es im].
  pose proof (write_via_tmp_only f1 d (out ++ bs ".tsc")
    (tsc_content (u64 (Z.of_nat (length es))) (Tsc.totalSize (tsc idx')) es
     ++ sum256 (tsc_content (u64 (Z.of_nat (length es))) (Tsc.totalSize (tsc idx')) es))) as H1.
  apply (only_files_weaken _ (manifest_files out)) in H1; [|intros p; apply manifest_own].
  destruct (write_via_tmp f1 _ _ _) as [fs1 [e|]]; cbn [fst] in H1; [done|].
  unfold Tsm.Write. destruct (build_refs _ _ _) as [es' table].
  set (sha := sum256 _) in *.
  pose proof (write_via_tmp_only f2 (MkDisk fs1 (d_dirs d)) (out ++ bs ".tsm")
    (file_bytes (tsm_header (tsm idx') sha) es' table sha)) as H2. cbn [d_files d_dirs] in H2.
  apply (only_files_weaken _ (manifest_files out)) in H2; [|intros p; apply manifest_own].
  destruct (write_via_tmp f2 _ _ _) as [fs2 [e|]]; cbn [fst] in H2 |- *; by eapply only_files_trans.
Qed.

Lemma Index_only f1 f2 d idx nodes out :
  only_files (snap_files out) d (MkDisk (Index Major Minor f1 f2 (d_files d) idx nodes out).1 (d_dirs d)).
Proof. eapply only_files_weaken; [apply manifest_snap|apply Index_manifests]. Qed.

Lemma writeSnapMeta_only env d id m :
  only_files (λ p, p = snap_path snapsDir id) d (writeSnapMeta env d snapsDir id m).1.
Proof.
  unfold writeSnapMeta. destruct (marshal m) as [data|]; [|done].
  destruct (write_fails env) as [[]|]; cbn [fst]; first [done | by apply put_file_only].
Qed.

Lemma cleanupTmp_only env w tmpPath : only_files (snap_files tmpPath) (w_disk w) (w_disk (cleanupTmp env w tmpPath)).
Proof.
  unfold cleanupTmp. cbn [w_disk].
  eapply only_files_trans; [|apply os_Remove_only; apply own_files].
  eapply only_files_trans; [|apply os_Remove_only; apply own_files].
  apply os_Remove_only; apply own_files.
Qed.

(** The files the snap of an ID has, once published. *)
Definition published_files (id p : gostring) : Prop :=
  snap_files (JoinPath snapsDir id) p ∨ p = snap_path snapsDir id.

#[export] Instance published_files_dec id p : Decision (published_files id p).
Proof. unfold published_files. apply _. Defined.

Lemma publish_only e w tmpPath id parent taints :
  let '(w', r) := publish snapsDir e w tmpPath (JoinPath snapsDir id) id parent taints in
  match r with
  | Err _ => only_files (snap_files tmpPath) (w_disk w) (w_disk w')
  | Ret id' => id' = id ∧ only_files (λ p, snap_files tmpPath p ∨ published_files id p) (w_disk w) (w_disk w')
  | Panic => False
  end.
Proof.
  unfold publish. destruct (vol_rename _ _ _) as [v []].
  - split; [done|]. cbn [w_disk].
    eapply only_files_trans; [|eapply only_files_weaken; [|apply writeSnapMeta_only]; intros p ->; by right; right].
    repeat (eapply only_files_trans; [|apply os_Rename_only; [left; apply own_files|right; left; apply own_files]]). done.
  - eapply only_files_trans; [|apply cleanupTmp_only]. done.
Qed.

(** Indexing a capture may fail; it does not panic. *)
Lemma finalize_no_panic e w tmpPath subdir parent taints :
  no_panic (indexAndFinalizeSubvol Major Minor zeroTime snapsDir e w tmpPath subdir parent taints).2.
Proof.
  unfold indexAndFinalizeSubvol. destruct (writeStampFile _ _ _ _) as [d [|]]; [|done]. cbn [negb w_vols set_disk].
  pose proof (Index_no_panic Major Minor (ie_tsc e) (ie_tsm e)) as Hi.
  set (idx := NewIndexer _ _ _ _).
  specialize (Hi (d_files (w_disk (set_disk w d))) idx (vol_walk (w_vols w) tmpPath) tmpPath (vol_walk_calm _ _)).
  cbn [w_disk set_disk] in Hi |- *. destruct (Index _ _ _ _ _ _ _ _) as [fs [r|x|]]; [|done|done].
  assert (Ht : ∀ w p, no_panic (ReadTSM (ie_os e) w p)).
  { intros w0 p. unfold ReadTSM. destruct (os_ReadFile _ _ _) as [data| |]; [|done..].
    pose proof (ParseTSM_no_panic data) as Hp. by destruct (ParseTSM data). }
  specialize (Ht (w_disk (set_disk (set_disk w d) (MkDisk fs (d_dirs d)))) (tmpPath ++ bs ".tsm")).
  cbn [w_disk set_disk] in Ht |- *. destruct (ReadTSM _ _ _) as [rd|x|]; [|done|done].
  unfold publish. destruct (vol_stat _ _); [done|..]; by destruct (vol_rename _ _ _) as [v []].
Qed.

(** Indexing touches the capture's own files, and on success those of the ID it gives. *)
Lemma finalize_only e w tmpPath subdir parent taints :
  let '(w', r) := indexAndFinalizeSubvol Major Minor zeroTime snapsDir e w tmpPath subdir parent taints in
  match r with
  | Ret id => (∃ h, id = Encode h) ∧
              only_files (λ p, snap_files tmpPath p ∨ published_files id p) (w_disk w) (w_disk w')
  | Err _ | Panic => only_files (snap_files tmpPath) (w_disk w) (w_disk w')
  end.
Proof.
  unfold indexAndFinalizeSubvol.
  pose proof (writeStampFile_only (ie_stamp e) (w_disk w) tmpPath parent) as Hs.
  destruct (writeStampFile _ _ _ _) as [d [|]]; cbn [fst negb] in Hs |- *;
    [|eapply only_files_trans; [exact Hs|apply cleanupTmp_only]].
  set (idx := NewIndexer _ _ _ _). pose proof (Index_only (ie_tsc e) (ie_tsm e) d idx (vol_walk (w_vols w) tmpPath) tmpPath) as Hi.
  cbn [w_vols set_disk]. destruct (Index _ _ _ _ _ _ _ _) as [fs r]; cbn [fst] in Hi.
  set (w2 := set_disk (set_disk w d) _).
  assert (only_files (snap_files tmpPath) (w_disk w) (w_disk w2)) as H2 by (by eapply only_files_trans).
  destruct r as [x|x|]; [|eapply only_files_trans; [exact H2|apply cleanupTmp_only]|done].
  destruct (ReadTSM _ _ _) as [rd|x'|]; [|eapply only_files_trans; [exact H2|apply cleanupTmp_only]|done].
  set (id := Encode _). set (ts := match taints with None => getSnapTaints _ _ _ _ | Some ts => ts end).
  assert (∀ p, snap_files tmpPath p → snap_files tmpPath p ∨ published_files id p) as Hw by auto.
  destruct (vol_stat (w_vols w) (JoinPath snapsDir id)).
  - split; [by eexists|]. eapply only_files_trans; [by eapply only_files_weaken|].
    eapply only_files_trans; [|by eapply only_files_weaken; [|apply cleanupTmp_only]].
    cbn [w_disk set_disk]. unfold dedup_taints.
    destruct (readSnapMeta _ _ _ _) as [[m|]|x'|]; [|done..]. case_bool_decide; [done|].
    destruct (taintsEqual _ _); [done|]. eapply only_files_weaken; [|apply writeSnapMeta_only].
    intros p ->. by right; right.
  - pose proof (publish_only e w2 tmpPath id parent ts) as Hp.
    destruct (publish _ _ _ _ _ _ _ _) as [w' [id'|x'|]]; [|by eapply only_files_trans|done].
    destruct Hp as [-> Hp]. split; [by eexists|]. eapply only_files_trans; [by eapply only_files_weaken|done].
  - pose proof (publish_only e w2 tmpPath id parent ts) as Hp.
    destruct (publish _ _ _ _ _ _ _ _) as [w' [id'|x'|]]; [|by eapply only_files_trans|done].
    destruct Hp as [-> Hp]. split; [by eexists|]. eapply only_files_trans; [by eapply only_files_weaken|done].
Qed.
End footprint.

(** ** Names of snaps and captures *)

(** IDs and temporary names are path elements that differ before the first dot. *)
Definition dotless (n : gostring) : Prop := "."%byte ∉ n.

Lemma dotless_app_inj (a b x y : gostring) :
  dotless a → dotless b → a ++ "."%byte :: x = b ++ "."%byte :: y → a = b.
Proof.
  unfold dotless. revert b. induction a as [|c a IH]; intros [|c' b] Ha Hb; cbn [app].
  - done.
  - intros [= <- _]. exfalso. apply Hb. by left.
  - intros [= -> _]. exfalso. apply Ha. by left.
  - intros [= <- Heq]. f_equal. apply not_elem_of_cons in Ha as [_ Ha]. apply not_elem_of_cons in Hb as [_ Hb]. by apply IH.
Qed.

Lemma Encode_name h : dotless (Encode h) ∧ proper (Encode h).
Proof.
  destruct (snap_id_flag_safe h) as (Hl & Hc & _). rewrite Forall_forall in Hc.
  assert (∀ c, decodeChar c = None → c ∉ Encode h) as Hn.
  { intros c Hd Hin. specialize (Hc c Hin). unfold id_char in Hc. apply bool_decide_eq_true in Hc.
    rewrite Hd in Hc. by destruct Hc. }
  split; [by apply Hn|]. split_and!; [|intros Heq..|by apply Hn].
  - intros Heq. by rewrite Heq in Hl.
  - apply (Hn "."%byte); [done|]. rewrite Heq. by left.
  - apply (Hn "."%byte); [done|]. rewrite Heq. by left.
Qed.

(** A snap's name, which no capture has. *)
Definition snap_name (n : gostring) : Prop := dotless n ∧ proper n ∧ length n ≠ 32%nat.
Lemma Encode_snap_name h : snap_name (Encode h).
Proof. destruct (Encode_name h). split_and!; [done..|]. by rewrite length_Encode. Qed.

Lemma hex_name b : dotless (concat (hex_byte <$> b)) ∧ slash ∉ concat (hex_byte <$> b).
Proof.
  pose proof (hex_chars b) as Hc. rewrite Forall_forall in Hc. unfold uuid_char in Hc.
  split; intros Hin; apply Hc in Hin; revert Hin; by apply (bool_decide_unpack _).
Qed.

Lemma proper_dot_suffix n e : slash ∉ n → slash ∉ e → (1 < length e)%nat → proper (n ++ "."%byte :: e).
Proof.
  intros Hn He Hl. assert (1 < length e)%nat as Hl' by done.
  assert (length (n ++ "."%byte :: e) = (length n + S (length e))%nat) as Hlen by (rewrite length_app; done).
  split_and!.
  - intros Heq. rewrite Heq in Hlen. cbn in Hlen. lia.
  - intros Heq. rewrite Heq in Hlen. cbn in Hlen. lia.
  - intros Heq. rewrite Heq in Hlen. cbn in Hlen. lia.
  - rewrite not_elem_of_app, not_elem_of_cons. by split_and!.
Qed.

(** ** Other snaps are left alone *)

Section names.
Variable dir : list gostring.
Hypothesis Hdir : Forall proper dir.
Hypothesis Hne : dir ≠ [].
Let snapsDir := abs_path dir.

Lemma snap_base n : proper n → JoinPath snapsDir n = snapsDir ++ slash :: n.
Proof. intros Hn. unfold snapsDir. by rewrite JoinPath_one, abs_path_snoc. Qed.

Lemma snap_file_name n x : proper n → JoinPath snapsDir n ++ x = snapsDir ++ slash :: n ++ x.
Proof. intros Hn. rewrite snap_base by exact Hn. rewrite <- app_assoc. reflexivity. Qed.

Lemma snap_path_base n : proper (n ++ jsonc) → snap_path snapsDir n = snapsDir ++ slash :: n ++ jsonc.
Proof. apply snap_base. Qed.

(** The file names of a base name: all end with an extension. *)
Definition ext_files (n p : gostring) : Prop := ∃ e, p = snapsDir ++ slash :: n ++ "."%byte :: e.

Lemma snap_files_ext n p : proper n → snap_files (JoinPath snapsDir n) p → ext_files n p.
Proof.
  intros Hn. rewrite snap_base by done. unfold snap_files, ext_files.
  rewrite !elem_of_cons, elem_of_nil.
  intros [->|[->|[->|[->|[->|[->|[]]]]]]]; rewrite <- ?app_assoc; cbn [app]; eexists; reflexivity.
Qed.
Lemma published_files_ext h p : published_files snapsDir (Encode h) p → ext_files (Encode h) p.
Proof.
  destruct (Encode_name h) as [Hd Hp]. intros [Hf|Hf]; [by apply snap_files_ext|]. subst p.
  rewrite snap_path_base; [by eexists|]. apply proper_dot_suffix; [apply Hp|by apply (bool_decide_unpack _)|cbn; lia].
Qed.

Lemma ext_files_inj a b p : dotless a → dotless b → ext_files a p → ext_files b p → a = b.
Proof.
  intros Ha Hb [e1 ->] [e2 Heq]. apply app_inv_head in Heq. injection Heq as Heq. by eapply dotless_app_inj.
Qed.

(** The name a capture goes by: a random name with [.tmp]. *)
Definition capture_path (rand : list byte) : gostring :=
  JoinPath snapsDir (concat (hex_byte <$> rand) ++ bs ".tmp").

Lemma capture_files rand p : snap_files (capture_path rand) p → ext_files (concat (hex_byte <$> rand)) p.
Proof.
  intros Hp. unfold capture_path in Hp. apply snap_files_ext in Hp as [e ->].
  - exists (bs "tmp" ++ "."%byte :: e). by rewrite <- app_assoc.
  - apply (proper_dot_suffix _ (bs "tmp")); [apply hex_name|by apply (bool_decide_unpack _)|cbn; lia].
Qed.

Lemma capture_not_snap rand n p :
  length rand = 16%nat → snap_name n → snap_files (capture_path rand) p → ext_files n p → False.
Proof.
  intros Hl (Hn & _ & Hnl) Hp Hq. apply capture_files in Hp. destruct (hex_name rand) as [Hd _].
  apply Hnl. rewrite <- (ext_files_inj _ _ _ Hd Hn Hp Hq), length_hex, Hl. reflexivity.
Qed.
End names.

(** ** When nothing fails *)

Definition no_faults (now : Z) : index_env :=
  MkIndexEnv no_fault no_fault NoFault NoFault (λ _, false) no_fault now.

Lemma os_Rename_lookup d p q data r :
  d_files d !! p = Some data → q ∉ d_dirs d →
  d_files (os_Rename false d p q).1 !! r =
    if decide (r = q) then Some data else if decide (r = p) then None else d_files d !! r.
Proof.
  intros Hp Hq. unfold os_Rename. rewrite Hp. cbn [orb]. rewrite bool_decide_eq_false_2 by done. cbn.
  destruct (decide (r = q)) as [->|]; [by rewrite lookup_insert_eq|]. rewrite lookup_insert_ne by done.
  destruct (decide (r = p)) as [->|]; [by rewrite lookup_delete_eq|]. by rewrite lookup_delete_ne.
Qed.
Lemma os_Rename_dirs fails d p q : d_dirs (os_Rename fails d p q).1 = d_dirs d.
Proof. unfold os_Rename. destruct (d_files d !! p); [|done]. by destruct (_ || _). Qed.

Lemma writeStampFile_ok d path id :
  path ++ stamp ∉ d_dirs d →
  (writeStampFile no_fault d path id).2 = true ∧
  d_files (writeStampFile no_fault d path id).1 !! (path ++ stamp) = Some (id ++ [Byte.x0a]) ∧
  d_dirs (writeStampFile no_fault d path id).1 = d_dirs d.
Proof.
  intros Hp. unfold writeStampFile. cbn [write_fails no_fault]. set (tmp := (path ++ stamp) ++ _).
  assert (d_files (put_file d tmp (id ++ [Byte.x0a])) !! tmp = Some (id ++ [Byte.x0a])) as Ht
    by (cbn; by rewrite lookup_insert_eq).
  split_and!.
  - unfold os_Rename. rewrite Ht. cbn [orb]. by rewrite bool_decide_eq_false_2.
  - rewrite (os_Rename_lookup _ _ _ _ _ Ht) by done. by rewrite decide_True.
  - by rewrite os_Rename_dirs.
Qed.

Lemma readStampFile_written d path id :
  path ++ stamp ∉ d_dirs d → TrimSpace (id ++ [Byte.x0a]) = id →
  readStampFile no_fault (writeStampFile no_fault d path id).1 path = id.
Proof.
  intros Hp Ht. destruct (writeStampFile_ok d path id Hp) as (_ & Hf & _).
  unfold readStampFile, os_ReadFile. cbn [read_fails no_fault]. by rewrite Hf.
Qed.

Section published.
Context `{Digest} `{Volumes V} {text_ok : gostring → Prop} `{!Json SnapMeta (meta_ok text_ok)}.
Variable dir : list gostring.
Hypothesis Hdir : Forall proper dir.
Hypothesis Hne : dir ≠ [].
Let snapsDir := abs_path dir.

(** No directory among the files of snaps. *)
Definition files_free (d : disk) : Prop := ∀ n p, ext_files dir n p → p ∉ d_dirs d.

Lemma publish_ok now w rand h parent taints v stampData tsmData tscData :
  length rand = 16%nat → files_free (w_disk w) →
  let T := capture_path dir rand in
  let F := JoinPath snapsDir (Encode h) in
  vol_rename (w_vols w) T F = (v, true) →
  d_files (w_disk w) !! (T ++ stamp) = Some stampData →
  d_files (w_disk w) !! (T ++ bs ".tsm") = Some tsmData →
  d_files (w_disk w) !! (T ++ bs ".tsc") = Some tscData →
  text_ok parent → Forall text_ok taints →
  ∃ d, publish snapsDir (no_faults now) w T F (Encode h) parent taints = (MkWorld d v, Ret (Encode h)) ∧
    d_files d !! (F ++ stamp) = Some stampData ∧
    d_files d !! (F ++ bs ".tsm") = Some tsmData ∧
    d_files d !! (F ++ bs ".tsc") = Some tscData ∧
    readSnapMeta no_fault d snapsDir (Encode h) = Ret (Some (MkSnapMeta parent taints None)).
Proof.
  intros Hl Hfree T F Hv Hs Hm Hc Hp Ht. unfold publish. rewrite Hv. eexists. split; [done|].
  cbn [ie_rename no_faults ie_meta].
  destruct (Encode_name h) as [Hdot Hprop].
  assert (proper (Encode h ++ jsonc)) as Hpj
    by (apply (proper_dot_suffix _ (bs "jsonc")); [apply Hprop|by apply (bool_decide_unpack _)|cbn; lia]).
  assert (snap_path snapsDir (Encode h) = F ++ jsonc) as HF.
  { unfold F, snapsDir. rewrite snap_path_base by done. symmetry. by apply snap_file_name. }
  assert (∀ e, F ++ "."%byte :: e ∉ d_dirs (w_disk w)) as Hfe.
  { intros e. apply (Hfree (Encode h)). exists e. by apply snap_file_name. }
  assert (∀ x e, snap_files T x → x ≠ F ++ "."%byte :: e) as HTF.
  { intros x e Hx ->. eapply (capture_not_snap dir Hdir Hne rand (Encode h)); [done|apply Encode_snap_name|exact Hx|].
    exists e. by apply snap_file_name. }
  set (d1 := (os_Rename _ (w_disk w) _ _).1). set (d2 := (os_Rename _ d1 _ _).1). set (d3 := (os_Rename _ d2 _ _).1).
  assert (∀ e1 e2, bool_decide (e1 ≠ e2) = true → ∀ b : gostring, b ++ e1 ≠ b ++ e2) as Hee
    by (intros e1 e2 He%bool_decide_eq_true b Heq; by apply app_inv_head in Heq).
  destruct (own_files T) as (HT1 & HT2 & HT3).
  pose proof (λ r, os_Rename_lookup (w_disk w) _ (F ++ stamp) _ r Hs (Hfe _)) as L1. fold d1 in L1.
  assert (d_dirs d1 = d_dirs (w_disk w)) as D1 by apply os_Rename_dirs.
  assert (d_files d1 !! (T ++ bs ".tsm") = Some tsmData) as Hm1.
  { rewrite L1, decide_False by (by apply HTF). by rewrite decide_False by (by apply Hee). }
  pose proof (λ r, os_Rename_lookup d1 _ (F ++ bs ".tsm") _ r Hm1 (eq_ind_r (λ x, _ ∉ x) (Hfe _) D1)) as L2. fold d2 in L2.
  assert (d_dirs d2 = d_dirs (w_disk w)) as D2 by (rewrite <- D1; apply os_Rename_dirs).
  assert (d_files d2 !! (T ++ bs ".tsc") = Some tscData) as Hc2.
  { rewrite L2, decide_False by (by apply HTF). rewrite decide_False by (by apply Hee).
    rewrite L1, decide_False by (by apply HTF). by rewrite decide_False by (by apply Hee). }
  pose proof (λ r, os_Rename_lookup d2 _ (F ++ bs ".tsc") _ r Hc2 (eq_ind_r (λ x, _ ∉ x) (Hfe _) D2)) as L3. fold d3 in L3.
  assert (meta_ok text_ok (MkSnapMeta parent taints None)) as Hok by done.
  destruct (json_law _ Hok) as (data & std & Hmar & Hstd & Hun).
  unfold writeSnapMeta. rewrite Hmar. cbn [write_fails no_fault fst]. rewrite HF.
  assert (∀ e, F ++ "."%byte :: e ≠ T ++ stamp ∧ F ++ "."%byte :: e ≠ T ++ bs ".tsm" ∧ F ++ "."%byte :: e ≠ T ++ bs ".tsc") as HFT.
  { intros e. split_and!; apply not_eq_sym, HTF; assumption. }
  split_and!; cbn [d_files put_file].
  - rewrite lookup_insert_ne by (by apply Hee). rewrite L3, !decide_False by (first [by apply Hee|apply HFT]).
    rewrite L2, !decide_False by (first [by apply Hee|apply HFT]). by rewrite L1, decide_True.
  - rewrite lookup_insert_ne by (by apply Hee). rewrite L3, !decide_False by (first [by apply Hee|apply HFT]).
    by rewrite L2, decide_True.
  - rewrite lookup_insert_ne by (by apply Hee). by rewrite L3, decide_True.
  - unfold readSnapMeta, load, os_ReadFile. cbn [read_fails no_fault d_files put_file]. rewrite HF, lookup_insert_eq.
    rewrite Hstd. cbn [or_err]. by rewrite ret_bind, Hun.
Qed.
End published.

(** ** Deleting a snap keeps the chains of the others *)

Definition relink_meta (X P k : gostring) (meta : SnapMeta) : SnapMeta :=
  if bool_decide (k = X) then meta
  else if bool_decide (Parent meta = X) then MkSnapMeta P (S_Taints meta) (Source meta) else meta.
Definition relinked (X P : gostring) (m : gmap gostring SnapMeta) : gmap gostring SnapMeta :=
  map_imap (λ k meta, Some (relink_meta X P k meta)) m.

Definition parent_of (m : gmap gostring SnapMeta) (a b : gostring) : Prop :=
  ∃ meta, m !! a = Some meta ∧ Parent meta = b.
(** [b] is above [a] in the chain of parents. *)
Definition ancestor (m : gmap gostring SnapMeta) : gostring → gostring → Prop := tc (parent_of m).

Lemma relinked_parent m X P a b :
  a ≠ X → parent_of (delete X (relinked X P m)) a b ↔ (parent_of m a X ∧ b = P) ∨ (parent_of m a b ∧ b ≠ X).
Proof.
  intros Ha. unfold parent_of, relinked, relink_meta. rewrite lookup_delete_ne by done. rewrite map_lookup_imap.
  destruct (m !! a) as [meta|]; cbn; [|naive_solver].
  rewrite bool_decide_eq_false_2 by done. split.
  - intros (? & [= <-] & <-). case_bool_decide; [by left; eauto|right; eauto].
  - intros [[(? & [= <-] & Hp) ->]|[(? & [= <-] & <-) Hb]]; eexists; (split; [done|]).
    + by rewrite bool_decide_eq_true_2.
    + by rewrite bool_decide_eq_false_2.
Qed.

Lemma relinked_ancestor m X P a b :
  parent_of m X P → P ≠ X → a ≠ X → b ≠ X →
  ancestor (delete X (relinked X P m)) a b ↔ ancestor m a b.
Proof.
  intros HX HP Ha Hb. split.
  - assert (∀ a b, parent_of (delete X (relinked X P m)) a b → tc (parent_of m) a b) as Hstep.
    { intros a' b' Hab. assert (a' ≠ X) as Ha'.
      { intros ->. destruct Hab as (? & Hx & _). by rewrite lookup_delete_eq in Hx. }
      apply relinked_parent in Hab as [[H1 ->]|[H1 _]]; [|by apply tc_once|done].
      eapply tc_l; [exact H1|]. by apply tc_once. }
    induction 1 as [a b Hab|a c b Hac Hcb IH]; [by apply Hstep|].
    destruct (decide (c = X)) as [->|Hc].
    { exfalso. assert (parent_of (delete X (relinked X P m)) X b ∨ ∃ c, parent_of (delete X (relinked X P m)) X c) as Hn
        by (inversion Hcb; eauto).
      assert (∃ c, parent_of (delete X (relinked X P m)) X c) as (c & ? & Hx & _) by naive_solver.
      by rewrite lookup_delete_eq in Hx. }
    etrans; [by apply Hstep|]. by apply IH.
  - intros Hab. assert ((a ≠ X → ancestor (delete X (relinked X P m)) a b) ∧
      (a = X → b = P ∨ ancestor (delete X (relinked X P m)) P b)) as [H1 _]; [|by apply H1].
    clear Ha. revert Hb. unfold ancestor in *. induction Hab as [a b Hab|a c b Hac Hcb IH]; intros Hb.
    + split; [|intros ->; left].
      * intros Ha. apply tc_once, relinked_parent; auto.
      * destruct HX as (m1 & H1 & <-), Hab as (m2 & H2 & <-). congruence.
    + destruct (IH Hb) as [IH1 IH2]. split; [intros Ha|intros ->].
      * destruct (decide (c = X)) as [->|Hc].
        -- assert (parent_of (delete X (relinked X P m)) a P) as HaP by (apply relinked_parent; auto).
           destruct (IH2 eq_refl) as [->|Ht]; [by apply tc_once|by eapply tc_l].
        -- eapply tc_l; [|by apply IH1]. apply relinked_parent; auto.
      * right. assert (c = P) as ->; [|by apply IH1].
        destruct HX as (m1 & H1 & <-), Hac as (m2 & H2 & <-). congruence.
Qed.

Section relink.
Context {text_ok : gostring → Prop} `{!Json SnapMeta (meta_ok text_ok)}.
Variable dir : list gostring.
Hypothesis Hdir : Forall proper dir.
Hypothesis Hne : dir ≠ [].
Let snapsDir := abs_path dir.

(** The metadata of the snaps on a disk: those whose names are file names. *)
Definition file_name (k : gostring) : Prop := slash ∉ k.
Abbreviation metas := (holds (ok := meta_ok text_ok) (snap_path snapsDir) file_name).

Lemma jsonc_proper k : file_name k → proper (k ++ jsonc).
Proof. intros Hk. apply (proper_dot_suffix k (bs "jsonc")); [done|by apply (bool_decide_unpack _)|cbn; lia]. Qed.
Lemma snap_path_name k : file_name k → snap_path snapsDir k = snapsDir ++ slash :: k ++ jsonc.
Proof. intros Hk. apply snap_path_base; [done..|by apply jsonc_proper]. Qed.
Lemma snap_path_inj k1 k2 : file_name k1 → file_name k2 → snap_path snapsDir k1 = snap_path snapsDir k2 → k1 = k2.
Proof.
  intros H1 H2 Heq. rewrite (snap_path_name k1 H1), (snap_path_name k2 H2) in Heq. apply app_inv_head in Heq.
  injection Heq as Heq. by apply app_inv_tail in Heq.
Qed.

(** What one entry of the directory does to the metadata. *)
Definition relink_entry (X P : gostring) (m : gmap gostring SnapMeta) (entry : gostring) : gmap gostring SnapMeta :=
  if HasSuffix entry jsonc then
    let k := TrimSuffix entry jsonc in
    match m !! k with Some meta => <[k := relink_meta X P k meta]> m | None => m end
  else m.

Lemma relink_one_metas d m entry X P :
  metas d m → slash ∉ entry → text_ok P →
  metas (relink_one snapsDir no_fault d entry X P) (relink_entry X P m entry) ∧
  d_dirs (relink_one snapsDir no_fault d entry X P) = d_dirs d.
Proof.
  intros Hm Hs HP. unfold relink_one, relink_entry, relink_meta.
  destruct (HasSuffix entry jsonc) eqn:Hsuf; cbn [negb]; [|done].
  apply HasSuffix_true in Hsuf as [k ->]. rewrite TrimSuffix_app. apply not_elem_of_app in Hs as [Hk _].
  pose proof (holds_load _ _ d m k Hm Hk) as Hload. unfold readSnapMeta. rewrite Hload.
  pose proof Hm as [Hmap _]. specialize (Hmap k Hk) as [Hnd Hv]. clear Hload.
  destruct (m !! k) as [meta|] eqn:Hmk; [|by case_bool_decide].
  case_bool_decide; [by rewrite insert_id|]. case_bool_decide; [|by rewrite insert_id].
  destruct Hv as ((H1 & H2 & H3) & _). set (meta' := MkSnapMeta P _ _).
  assert (meta_ok text_ok meta') as Hok by (by split_and!).
  destruct (json_law _ Hok) as (data & std & Hmar & Hstd & Hun).
  unfold writeSnapMeta. rewrite Hmar. cbn [write_fails no_fault fst]. split; [|done].
  by eapply (holds_insert _ _ snap_path_inj).
Qed.

Lemma relink_fold_metas entries : ∀ d m X P,
  metas d m → Forall (λ e, slash ∉ e) entries → text_ok P →
  metas (foldl (λ d e, relink_one snapsDir no_fault d e X P) d entries)
    (foldl (relink_entry X P) m entries) ∧
  d_dirs (foldl (λ d e, relink_one snapsDir no_fault d e X P) d entries) = d_dirs d.
Proof.
  induction entries as [|e entries IH]; intros d m X P Hm Hs HP; [done|]. cbn [foldl].
  apply Forall_cons in Hs as [He Hs]. destruct (relink_one_metas d m e X P Hm He HP) as [H1 H2].
  rewrite <- H2. by apply IH.
Qed.

Lemma relink_meta_idem X P k meta : relink_meta X P k (relink_meta X P k meta) = relink_meta X P k meta.
Proof.
  unfold relink_meta. case_bool_decide; [done|].
  destruct (decide (Parent meta = X)) as [HX|HX].
  - rewrite (bool_decide_eq_true_2 (Parent meta = X)) by done. by case_bool_decide.
  - rewrite (bool_decide_eq_false_2 (Parent meta = X)) by done. by rewrite bool_decide_eq_false_2.
Qed.

Lemma relink_fold_lookup entries : ∀ m X P k,
  foldl (relink_entry X P) m entries !! k
  = if decide (k ++ jsonc ∈ entries) then relink_meta X P k <$> m !! k else m !! k.
Proof.
  induction entries as [|e entries IH]; intros m X P k; cbn [foldl].
  { rewrite decide_False; [done|]. apply not_elem_of_nil. }
  rewrite IH.
  assert (relink_entry X P m e !! k = if decide (k ++ jsonc = e) then relink_meta X P k <$> m !! k else m !! k) as ->.
  { unfold relink_entry. destruct (decide (k ++ jsonc = e)) as [<-|Hke].
    - rewrite HasSuffix_app, TrimSuffix_app. destruct (m !! k) eqn:Hk; [by rewrite lookup_insert_eq|by rewrite Hk].
    - destruct (HasSuffix e jsonc) eqn:Hsuf; [|done]. apply HasSuffix_true in Hsuf as [k' ->].
      rewrite TrimSuffix_app. destruct (m !! k') eqn:Hk; [|done]. rewrite lookup_insert_ne; [done|]. by intros ->. }
  destruct (decide (k ++ jsonc = e)) as [Hke|Hke], (decide (k ++ jsonc ∈ entries)) as [Hin|Hin];
    destruct (decide (k ++ jsonc ∈ e :: entries)) as [Hc|Hc]; try done;
    try (exfalso; revert Hc; rewrite elem_of_cons; tauto); try (exfalso; apply Hc, elem_of_cons; tauto).
  rewrite <- option_fmap_compose. destruct (m !! k); [|done]. cbn. by rewrite relink_meta_idem.
Qed.

(** The names of a directory's entries. *)
Lemma readdir_names d entries :
  os_ReadDir no_fault d snapsDir = Ret entries →
  Forall (λ e, slash ∉ e) (fst <$> entries) ∧
  ∀ k, file_name k → is_Some (d_files d !! snap_path snapsDir k) → k ++ jsonc ∈ fst <$> entries.
Proof.
  unfold os_ReadDir. cbn [read_fails no_fault]. case_bool_decide; [done|]. intros [= <-].
  split.
  - apply Forall_forall. intros n (x & -> & Hx)%list_elem_of_fmap. rewrite sort_by_key_perm in Hx.
    apply elem_of_app in Hx as [Hx|Hx]; apply list_elem_of_fmap in Hx as (n' & -> & Hn');
      apply list_elem_of_omap in Hn' as (q & _ & Hq); by apply entry_of_spec in Hq as (_ & _ & ?).
  - intros k Hk [data Hd]. apply list_elem_of_fmap. exists (k ++ jsonc, false). split; [done|].
    rewrite sort_by_key_perm. apply elem_of_app. left. apply list_elem_of_fmap. exists (k ++ jsonc). split; [done|].
    apply list_elem_of_omap. exists (snap_path snapsDir k). split; [by apply elem_of_elements, elem_of_dom|].
    rewrite snap_path_name by done. apply entry_of_spec. split; [done|]. destruct (jsonc_proper k Hk) as (H1 & _ & _ & H2). done.
Qed.

(** Relinking, on the disk. *)
Lemma relink_metas d m X P :
  metas d m → snapsDir ∈ d_dirs d → text_ok P →
  (relinkSnapChildren snapsDir no_fault d X P).2 = true ∧
  metas (relinkSnapChildren snapsDir no_fault d X P).1 (relinked X P m) ∧
  d_dirs (relinkSnapChildren snapsDir no_fault d X P).1 = d_dirs d.
Proof.
  intros Hm Hd HP. unfold relinkSnapChildren. pose proof (readdir_names d) as Hr.
  destruct (os_ReadDir no_fault d snapsDir) as [entries|e|] eqn:Hdir'.
  - destruct (Hr entries eq_refl) as [Hs Hall]. cbn [fst snd]. split; [done|].
    assert (∀ d, foldl (λ d entry, relink_one snapsDir no_fault d (fst entry) X P) d entries
      = foldl (λ d e, relink_one snapsDir no_fault d e X P) d (fst <$> entries)) as ->.
    { clear. intros d. revert d. induction entries as [|e l IH]; intros d; [done|]. cbn. apply IH. }
    destruct (relink_fold_metas _ d m X P Hm Hs HP) as [H1 H2]. split; [|exact H2].
    assert (relinked X P m = foldl (relink_entry X P) m (fst <$> entries)) as ->; [|exact H1].
    apply map_eq. intros k. rewrite relink_fold_lookup. unfold relinked. rewrite map_lookup_imap.
    destruct (m !! k) as [meta|] eqn:Hk; cbn; [|by destruct (decide _)].
    rewrite decide_True; [done|]. destruct Hm as [Hm1 Hm2]. assert (file_name k) as Hf by (apply Hm2; eauto).
    apply Hall; [done|]. destruct (Hm1 k Hf) as [_ Hv]. rewrite Hk in Hv. destruct Hv as (_ & ? & ? & -> & _). eauto.
  - exfalso. revert Hdir'. unfold os_ReadDir. cbn [read_fails no_fault]. by rewrite bool_decide_eq_false_2 by tauto.
  - exfalso. revert Hdir'. unfold os_ReadDir. cbn [read_fails no_fault]. by rewrite bool_decide_eq_false_2 by tauto.
Qed.

Lemma not_jsonc (k X : gostring) :
  k ++ jsonc ≠ X ++ stamp ∧ k ++ jsonc ≠ X ++ bs ".tsm" ∧ k ++ jsonc ≠ X ++ bs ".tsc".
Proof. split_and!; intros Heq%(f_equal (@rev byte)); rewrite !rev_app_distr in Heq; discriminate Heq. Qed.

(** Removing a file that is no snap's metadata. *)
Lemma remove_other d m X e :
  metas d m → proper X → file_name X → (∀ k : gostring, k ++ jsonc ≠ X ++ e) →
  metas (os_Remove no_fault d (JoinPath snapsDir X ++ e)).1 m ∧
  d_dirs (os_Remove no_fault d (JoinPath snapsDir X ++ e)).1 = d_dirs d.
Proof.
  intros Hm HX Hf He. unfold os_Remove. cbn [remove_fails no_fault].
  destruct (d_files d !! _); [|done]. cbn [fst]. split; [|done]. apply (holds_same _ _ d); [done|done|].
  intros k Hk. cbn [d_files]. rewrite lookup_delete_ne; [done|]. rewrite snap_path_name by done.
  unfold snapsDir. rewrite snap_file_name by done. intros Heq. apply app_inv_head in Heq. injection Heq as Heq. by apply (He k).
Qed.
End relink.

Section success.
Context `{Digest} `{Volumes V} {text_ok : gostring → Prop} `{!Json SnapMeta (meta_ok text_ok)}.
Variables (Major Minor : Z → Z) (zeroTime : Z) (dir : list gostring) (rand : list byte).
Hypothesis Hdir : Forall proper dir.
Hypothesis Hne : dir ≠ [].
Hypothesis Hrand : length rand = 16%nat.
Let snapsDir := abs_path dir.
Let T := capture_path dir rand.

(** Files of other snaps read the same while a capture is being indexed. *)
Lemma snap_read_same d d' n e :
  only_files (snap_files T) d d' → snap_name n → head e = Some "."%byte →
  os_ReadFile no_fault d' (JoinPath snapsDir n ++ e) = os_ReadFile no_fault d (JoinPath snapsDir n ++ e).
Proof.
  intros [Hds Hf] Hn He. destruct e as [|c e]; [done|]. injection He as ->.
  unfold os_ReadFile. rewrite Hds, Hf; [done|]. intros Hin.
  eapply (capture_not_snap dir Hdir Hne rand n); [done|done|exact Hin|]. exists e. apply snap_file_name; [done..|apply Hn].
Qed.

Lemma readSnapMeta_same d d' n :
  only_files (snap_files T) d d' → snap_name n →
  readSnapMeta no_fault d' snapsDir n = readSnapMeta no_fault d snapsDir n.
Proof.
  intros Hd Hn. unfold readSnapMeta, load.
  replace (snap_path snapsDir n) with (JoinPath snapsDir n ++ jsonc); [by rewrite !(snap_read_same d d' n _ Hd Hn)|].
  unfold snapsDir. rewrite snap_path_base; [by apply snap_file_name; [..|apply Hn]|done..|].
  apply (proper_dot_suffix _ (bs "jsonc")); [apply Hn|by apply (bool_decide_unpack _)|cbn; lia].
Qed.

Lemma parent_same d d' parent :
  only_files (snap_files T) d d' → parent = [] ∨ snap_name parent →
  loadParentManifest snapsDir no_fault d' parent = loadParentManifest snapsDir no_fault d parent ∧
  getSnapTaints no_fault d' snapsDir parent = getSnapTaints no_fault d snapsDir parent.
Proof.
  intros Hd [->|Hn]; [done|]. split.
  - unfold loadParentManifest, ReadTSM, ReadTSC. by rewrite !(snap_read_same d d' parent _ Hd Hn) by done.
  - unfold getSnapTaints. by rewrite (readSnapMeta_same d d').
Qed.

(** An index with the parent the daemon finds, if that is faithful, is a full one. *)
Lemma index_any_parent fs (parent : option (TSMReader * TSCReader)) nodes out now :
  Forall (node_ok Major Minor) nodes →
  (∀ pt pc, parent = Some (pt, pc) → Forall (faithful pt pc) nodes) →
  let inc := Index Major Minor NoFault NoFault fs (NewIndexer (fst <$> parent) (snd <$> parent) now zeroTime) nodes out in
  let full := Index Major Minor NoFault NoFault fs (NewIndexer None None now zeroTime) nodes out in
  fst inc = fst full ∧ ∀ idx sha, snd full = Ret (idx, sha) → ∃ idx', snd inc = Ret (idx', sha).
Proof.
  intros Hn Hf inc full. destruct parent as [[pt pc]|]; [|split; [done|eauto]].
  assert (Forall readable nodes) as Hr by (eapply Forall_impl; [exact Hn|]; by intros ? []).
  destruct (index_incremental Major Minor NoFault NoFault fs pt pc nodes out now zeroTime (Hf _ _ eq_refl) Hr) as [H1 H2].
  split; [exact H1|]. intros idx sha Hs. fold full in H2. rewrite Hs in H2.
  change (Index _ _ _ _ _ _ _ _) with inc in H2. destruct (snd inc) as [[idx' sha']|e|]; [|done..]. subst. eauto.
Qed.

(** A tree the formats can hold and the daemon can read. *)
Definition indexable (nodes : list node) : Prop :=
  Forall (node_ok Major Minor) nodes ∧ Forall accessible nodes ∧ NoDup (n_path <$> nodes) ∧
  Z.of_nat (sum_list (node_chunks <$> nodes)) < 2 ^ 32 ∧ Z.of_nat (length nodes) < 2 ^ 64 ∧ is_i64 zeroTime.

(** A regular file with one link resolves, through both manifests, to its contents. *)
Definition restorable (r : TSMReader) (cr : TSCReader) (n : node) : Prop :=
  ∀ fi contents sched, n_stat n = Ret fi → IsRegular (fi_mode fi) = true → fi_nlink fi ≤ 1 →
    n_open n = Ret (Reader contents sched false StreamEOF) →
    ∃ e, LookupPath r (n_path n) = Some e ∧ Type_ e = EntryTypeFile ∧ ESize e = u64 (fi_size fi) ∧
      (fi_size fi ≠ 0 → ∃ pieces, concat pieces = contents ∧ GetFileChunkSHAs e cr = BlobSHA256 <$> pieces).

(** Indexing up to the choice of the final name. *)
Lemma finalize_indexed now w subdir parent taints :
  let nodes := vol_walk (w_vols w) T in
  indexable nodes → files_free dir (w_disk w) → parent = [] ∨ snap_name parent →
  (subdir = [] → ∀ pt pc, loadParentManifest snapsDir no_fault (w_disk w) parent = Some (pt, pc) →
     Forall (faithful pt pc) nodes) →
  let eff := match taints with None => getSnapTaints no_fault (w_disk w) snapsDir parent | Some ts => ts end in
  ∃ sha d data cdata r cr,
    (∃ fs fs' idx, Index Major Minor NoFault NoFault fs (NewIndexer None None now zeroTime) nodes T = (fs', Ret (idx, sha))) ∧
    only_files (snap_files T) (w_disk w) d ∧
    d_files d !! (T ++ stamp) = Some (parent ++ [Byte.x0a]) ∧
    d_files d !! (T ++ bs ".tsm") = Some data ∧ ParseTSM data = Ret r ∧ rSHA256 r = sha ∧
    d_files d !! (T ++ bs ".tsc") = Some cdata ∧ ParseTSC cdata = Ret cr ∧ TSCSHA r = fileSHA256 cr ∧
    Forall (restorable r cr) nodes ∧
    let w2 := MkWorld d (w_vols w) in
    let F := JoinPath snapsDir (Encode sha) in
    indexAndFinalizeSubvol Major Minor zeroTime snapsDir (no_faults now) w T subdir parent taints =
      match vol_stat (w_vols w) F with
      | StatOk => (cleanupTmp no_fault (set_disk w2 (dedup_taints snapsDir (no_faults now) d (Encode sha) eff)) T,
                   Ret (Encode sha))
      | _ => publish snapsDir (no_faults now) w2 T F (Encode sha) parent eff
      end.
Proof.
  intros nodes (Hn & Ha & Hnd & Hc & Hl & Hz) Hfree Hpar Hf eff.
  assert (T ++ stamp ∉ d_dirs (w_disk w)) as Hs.
  { eapply Hfree, (capture_files dir Hdir Hne rand). apply own_files. }
  destruct (writeStampFile_ok (w_disk w) T parent Hs) as (Hok & Hst & Hds).
  pose proof (writeStampFile_only no_fault (w_disk w) T parent) as Ho1.
  unfold indexAndFinalizeSubvol. cbn [ie_stamp no_faults ie_os ie_tsc ie_tsm ie_now].
  destruct (writeStampFile no_fault (w_disk w) T parent) as [d1 ok]. cbn [fst snd] in Hok, Hst, Hds, Ho1. subst ok. cbn [negb].
  destruct (parent_same (w_disk w) d1 parent Ho1 Hpar) as [-> _].
  set (par := if bool_decide (subdir = []) then _ else _).
  assert (∀ pt pc, par = Some (pt, pc) → Forall (faithful pt pc) nodes) as Hfaith.
  { intros pt pc. unfold par. case_bool_decide; [by apply Hf|done]. }
  destruct (index_restores Major Minor (d_files d1) nodes T now zeroTime Hn Ha Hnd Hc Hl Hz)
    as (fs & idx & sha & cdata & data & cr & r & Hfull & Hcd & Hpc & Hd & Hp & Hsha & Htsc & Hres).
  destruct (index_any_parent (d_files d1) par nodes T now Hn Hfaith) as [Hfs Hinc].
  pose proof (Index_manifests Major Minor NoFault NoFault d1 (NewIndexer None None now zeroTime) nodes T) as Ho2.
  rewrite Hfull in Hfs, Hinc, Ho2. destruct (Hinc idx sha eq_refl) as [idx' Hinc']. cbn [fst] in Hfs, Ho2.
  cbn [w_vols set_disk w_disk]. fold nodes.
  destruct (Index _ _ _ _ _ (NewIndexer (fst <$> par) _ _ _) nodes T) as [fs2 r2] eqn:Hi. cbn [fst snd] in Hfs, Hinc'.
  subst fs2 r2. set (d2 := MkDisk fs (d_dirs d1)) in *.
  assert (only_files (snap_files T) (w_disk w) d2) as Ho.
  { eapply only_files_trans; [exact Ho1|]. eapply only_files_weaken; [apply manifest_snap|exact Ho2]. }
  assert (ReadTSM no_fault d2 (T ++ bs ".tsm") = Ret r) as Hread.
  { unfold ReadTSM, os_ReadFile. cbn [read_fails no_fault]. unfold d2. cbn [d_files]. by rewrite Hd, Hp. }
  rewrite Hread. destruct (parent_same (w_disk w) d2 parent Ho Hpar) as [_ ->].
  exists sha, d2, data, cdata, r, cr. split; [by do 3 eexists|]. rewrite Hsha. split_and!; try done.
  - destruct Ho2 as [_ Ho2]. rewrite Ho2; [done|]. unfold manifest_files. clear. intros Hin.
    repeat (apply elem_of_cons in Hin as [Hin|Hin]; [rewrite <- ?app_assoc in Hin; by apply app_inv_head in Hin|]).
    by apply not_elem_of_nil in Hin.
  - apply Forall_forall. intros n Hin fi contents sched H1 H2 H3 H4.
    destruct (Hres n fi contents sched Hin H1 H2 H3 H4) as (e & E1 & E2 & E3 & _ & E4). eauto 10.
Qed.

(** Writing metadata that reads back. *)
Lemma writeSnapMeta_reads d id m :
  meta_ok text_ok m → readSnapMeta no_fault (writeSnapMeta no_fault d snapsDir id m).1 snapsDir id = Ret (Some m).
Proof.
  intros Hm. destruct (json_law _ Hm) as (data & std & Hmar & Hstd & Hun).
  unfold writeSnapMeta, readSnapMeta, load, os_ReadFile. rewrite Hmar.
  cbn [write_fails no_fault fst read_fails d_files put_file]. rewrite lookup_insert_eq, Hstd. cbn [or_err].
  by rewrite ret_bind, Hun.
Qed.

Lemma taintsEqual_eq a b : taintsEqual a b = true → a = b.
Proof.
  unfold taintsEqual. destruct (length a =? length b)%nat eqn:Hl; [|done]. cbn [negb].
  apply same_taints_eq. by apply Nat.eqb_eq.
Qed.

(** The taints of a snap that is captured again, with taints: the intersection. *)
Definition met_taints (old new after : list gostring) : Prop := ∀ t, t ∈ after ↔ t ∈ old ∧ t ∈ new.

(** A capture without taints leaves those of the snap. *)
Lemma untainted_capture_keeps_taints e d id : dedup_taints snapsDir e d id [] = d.
Proof. unfold dedup_taints. by destruct (readSnapMeta _ _ _ _) as [[m|]|x|]. Qed.

Lemma dedup_ok now d id m taints :
  readSnapMeta no_fault d snapsDir id = Ret (Some m) → meta_ok text_ok m →
  let d' := dedup_taints snapsDir (no_faults now) d id taints in
  only_files (λ p, p = snap_path snapsDir id) d d' ∧
  ∃ m', readSnapMeta no_fault d' snapsDir id = Ret (Some m') ∧ Parent m' = Parent m ∧ Source m' = Source m ∧
    (taints ≠ [] → met_taints (S_Taints m) taints (S_Taints m')).
Proof.
  intros Hm Hok d'. unfold d', dedup_taints, met_taints. cbn [ie_os ie_meta no_faults]. rewrite Hm.
  case_bool_decide; [split; [done|by exists m]|].
  destruct (IntersectTaints_spec (S_Taints m) taints) as [_ Hi].
  destruct (taintsEqual _ _) eqn:Ht.
  - apply taintsEqual_eq in Ht. split; [done|]. exists m. rewrite <- Ht in Hi. split_and!; [done..|]. intros _. exact Hi.
  - split; [apply writeSnapMeta_only|]. exists (MkSnapMeta (Parent m) (IntersectTaints (S_Taints m) taints) (Source m)).
    split; [|split_and!; [done..|]; intros _; exact Hi].
    apply writeSnapMeta_reads. destruct Hok as (Hp & Hts & Hsrc). split_and!; [done| |done].
    rewrite Forall_forall in Hts |- *. cbn [S_Taints]. intros t [Ht' _]%Hi. by apply Hts.
Qed.
End success.

(** ** Concrete volumes, for the examples *)

Abbreviation plain_volumes := (gmap gostring (list node)).

Definition plain_copy (v : plain_volumes) (src dst : gostring) : plain_volumes * bool :=
  match v !! src, v !! dst with
  | Some t, None => (<[dst := t]> v, true)
  | _, _ => (v, false)
  end.
Lemma calm_only l : Forall (λ n, calm n = true) (filter (λ n, calm n = true) l).
Proof. apply Forall_forall. by intros n [? _]%list_elem_of_filter. Qed.
#[local] Instance plain : Volumes plain_volumes := {|
  vol_snapshot v src dst _ := plain_copy v src dst;
  vol_subtree v src _ dst := plain_copy v src dst;
  vol_create v p := (<[p := []]> v, true);
  vol_delete v p := (delete p v, bool_decide (is_Some (v !! p)));
  vol_is v p := bool_decide (is_Some (v !! p));
  vol_stat v p := match v !! p with Some _ => StatOk | None => StatNotExist end;
  vol_is_dir v p := bool_decide (is_Some (v !! p));
  vol_readdir v p := match v !! p with Some t => Some (n_path <$> t) | None => None end;
  vol_rename v src dst := match v !! src with Some t => (<[dst := t]> (delete src v), true) | None => (v, false) end;
  vol_remove_all v p := (delete p v, true);
  vol_chown v _ := (v, true);
  vol_lexists v p := bool_decide (is_Some (v !! p));
  vol_symlink v _ _ := v;
  vol_walk v p := filter (λ n, calm n = true) (default [] (v !! p));
  vol_walk_calm v p := calm_only (default [] (v !! p));
|}.

#[export] Instance source_eq_dec : EqDecision SnapSource.
Proof. solve_decision. Defined.
#[export] Instance source_countable : Countable SnapSource.
Proof. apply (inj_countable' (λ s, (S_Type s, S_Ref s)) (λ '(t, r), MkSource t r)). by intros []. Defined.
#[export] Instance meta_eq_dec : EqDecision SnapMeta.
Proof. solve_decision. Defined.
#[export] Instance meta_countable : Countable SnapMeta.
Proof. apply (inj_countable' (λ m, (Parent m, S_Taints m, Source m)) (λ '(p, t, s), MkSnapMeta p t s)). by intros []. Defined.
#[local] Instance meta_json : Json SnapMeta (meta_ok (λ _, True)) := countable_json _.

Definition example_dir : list gostring := [bs "data"; bs "snaps"].
Definition example_rand : list byte := replicate 16 Byte.x5a.
Definition example_world : world plain_volumes :=
  MkWorld (MkDisk ∅ {[abs_path example_dir]}) {[capture_path example_dir example_rand := example_nodes]}.

Lemma example_dir_proper : Forall proper example_dir.
Proof. apply Forall_cons_2; [by apply proper_name|]. apply Forall_cons_2; [by apply proper_name|apply Forall_nil_2]. Qed.

Lemma example_dir_ne : example_dir ≠ [].
Proof. discriminate. Qed.

Lemma example_free : files_free example_dir (w_disk example_world).
Proof.
  intros n p [e ->]. cbn [w_disk example_world d_dirs]. rewrite elem_of_singleton. intros Heq%(f_equal length).
  revert Heq. rewrite length_app. cbn [length]. lia.
Qed.

Lemma example_indexable : indexable (λ _, 0) (λ _, 0) 0 example_nodes.
Proof.
  split_and!; [apply example_nodes_ok|apply example_accessible|by apply (bool_decide_unpack _)| | |].
  - vm_compute. reflexivity.
  - reflexivity.
  - split; vm_compute; [discriminate|reflexivity].
Qed.

Lemma capture_ne_snap dir rand h :
  Forall proper dir → dir ≠ [] → length rand = 16%nat → capture_path dir rand ≠ JoinPath (abs_path dir) (Encode h).
Proof.
  intros Hd Hne Hl Heq. eapply (capture_not_snap dir Hd Hne rand (Encode h)); [done|apply Encode_snap_name|apply (proj1 (own_files _))|].
  rewrite Heq. exists (bs "stamp"). by apply snap_file_name; [..|apply Encode_name].
Qed.

(** ** Properties *)

(** a capture that is indexed never touches another snap. Whatever the operating
    system refuses on the way, only the capture's own temporary files and, when it
    succeeds, the files of the snap named by the digest of its manifest are written; in
    particular a failed snap leaves every snap's stamp, manifests and metadata as they
    were. *)
Theorem snap_touches_only_itself `{Digest} `{Volumes V} {text_ok} `{!Json SnapMeta (meta_ok text_ok)}
    Major Minor zeroTime (dir : list gostring) (rand : list byte) e (w : world V) subdir parent taints :
  Forall proper dir → dir ≠ [] → length rand = 16%nat →
  let T := capture_path dir rand in
  let '(w', r) := indexAndFinalizeSubvol Major Minor zeroTime (abs_path dir) e w T subdir parent taints in
  d_dirs (w_disk w') = d_dirs (w_disk w) ∧
  (∀ id, r = Ret id → ∃ h, id = Encode h) ∧
  (∀ p, d_files (w_disk w') !! p ≠ d_files (w_disk w) !! p →
     snap_files T p ∨ ∃ h, r = Ret (Encode h) ∧ published_files (abs_path dir) (Encode h) p) ∧
  (∀ h p, published_files (abs_path dir) (Encode h) p → r ≠ Ret (Encode h) →
     d_files (w_disk w') !! p = d_files (w_disk w) !! p).
Proof.
  intros Hd Hne Hl T.
  pose proof (finalize_only Major Minor zeroTime (abs_path dir) e w T subdir parent taints) as Hf.
  destruct (indexAndFinalizeSubvol _ _ _ _ _ _ _ _ _ _) as [w' r].
  assert (d_dirs (w_disk w') = d_dirs (w_disk w) ∧ (∀ id, r = Ret id → ∃ h, id = Encode h) ∧
    ∀ p, ¬ snap_files T p → (∀ h, r = Ret (Encode h) → ¬ published_files (abs_path dir) (Encode h) p) →
    d_files (w_disk w') !! p = d_files (w_disk w) !! p) as (Hdirs & Hid & Hp).
  { destruct r as [id|x|]; [destruct Hf as [[h ->] [H1 H2]]|destruct Hf as [H1 H2]..];
      (split; [done|]; split; [|intros p Hp1 Hp2; apply H2; naive_solver]); [|done..].
    intros id [= <-]. by exists h. }
  split; [done|]. split; [done|]. split.
  - intros p Hne'. destruct (decide (snap_files T p)) as [|Hn]; [by left|]. right.
    destruct r as [id|x|]; [destruct Hf as [[h ->] _]|exfalso; by apply Hne', Hp..].
    exists h. split; [done|]. destruct (decide (published_files (abs_path dir) (Encode h) p)) as [|Hno]; [done|].
    exfalso. apply Hne', Hp; [done|]. intros h' Heq. by assert (Encode h = Encode h') as <- by congruence.
  - intros h p Hpub Hr. apply published_files_ext in Hpub as Hext; [|done..]. apply Hp.
    + intros Ht. by eapply capture_not_snap; [..|apply Encode_snap_name|exact Ht|exact Hext].
    + intros h' Hr' Hpub'. apply published_files_ext in Hpub'; [|done..]. apply Hr.
      by rewrite Hr', (ext_files_inj dir _ _ p (proj1 (Encode_name h')) (proj1 (Encode_name h)) Hpub' Hext).
Qed.

Lemma snap_touches_only_itself_witness :
  let e := MkIndexEnv no_fault no_fault NoFault FailRename (λ _, true) no_fault 42 in
  let T := capture_path example_dir example_rand in
  let '(w', r) := indexAndFinalizeSubvol (H := sha256_digest) (λ _, 0) (λ _, 0) 0 (abs_path example_dir) e example_world T [] [] None in
  ∀ p, d_files (w_disk w') !! p ≠ None →
    snap_files T p ∨ ∃ h, r = Ret (Encode h) ∧ published_files (abs_path example_dir) (Encode h) p.
Proof.
  intros e T. pose proof (snap_touches_only_itself (H := sha256_digest) (λ _, 0) (λ _, 0) 0 example_dir example_rand
    e example_world [] [] None example_dir_proper example_dir_ne eq_refl) as Ht. cbn zeta in Ht. fold T in Ht.
  destruct (indexAndFinalizeSubvol _ _ _ _ _ _ _ _ _ _) as [w' r]. destruct Ht as (_ & _ & Hp & _).
  intros p Hn. apply Hp. exact Hn.
Defined.

(** C3: a capture becomes a snap named by its content. When nothing fails, indexing a
    capture of a tree that the formats can hold gives the ID of a full index of that
    tree, whatever the (faithful) parent. If no snap has that ID, the subvolume takes the
    name, its stamp names the parent, its metadata reads back with the parent and the
    capture's taints (the parent's if it was given none), both manifests parse, the ID is the
    encoded digest of one, it names the other, and every regular file resolves through
    them to its contents. If there is such a snap, its manifests and stamp stay as they
    are, and when the capture has taints the snap's become the intersection. *)
Theorem snap_publishes_content `{Digest} `{Volumes V} {text_ok} `{!Json SnapMeta (meta_ok text_ok)}
    Major Minor zeroTime (dir : list gostring) (rand : list byte) now (w : world V) subdir parent taints :
  Forall proper dir → dir ≠ [] → length rand = 16%nat →
  let snapsDir := abs_path dir in
  let T := capture_path dir rand in
  let nodes := vol_walk (w_vols w) T in
  let eff := match taints with None => getSnapTaints no_fault (w_disk w) snapsDir parent | Some ts => ts end in
  indexable Major Minor zeroTime nodes → files_free dir (w_disk w) → parent = [] ∨ snap_name parent →
  (subdir = [] → ∀ pt pc, loadParentManifest snapsDir no_fault (w_disk w) parent = Some (pt, pc) →
     Forall (faithful pt pc) nodes) →
  text_ok parent → Forall text_ok eff →
  ∃ sha, (∃ fs fs' idx, Index Major Minor NoFault NoFault fs (NewIndexer None None now zeroTime) nodes T = (fs', Ret (idx, sha))) ∧
    let F := JoinPath snapsDir (Encode sha) in
    let finalize := indexAndFinalizeSubvol Major Minor zeroTime snapsDir (no_faults now) w T subdir parent taints in
    (∀ v, vol_stat (w_vols w) F ≠ StatOk → vol_rename (w_vols w) T F = (v, true) →
       ∃ d data cdata r cr, finalize = (MkWorld d v, Ret (Encode sha)) ∧
         d_files d !! (F ++ stamp) = Some (parent ++ [Byte.x0a]) ∧
         readSnapMeta no_fault d snapsDir (Encode sha) = Ret (Some (MkSnapMeta parent eff None)) ∧
         d_files d !! (F ++ bs ".tsm") = Some data ∧ ParseTSM data = Ret r ∧ rSHA256 r = sha ∧
         d_files d !! (F ++ bs ".tsc") = Some cdata ∧ ParseTSC cdata = Ret cr ∧ TSCSHA r = fileSHA256 cr ∧
         Forall (restorable r cr) nodes) ∧
    (∀ m, vol_stat (w_vols w) F = StatOk → readSnapMeta no_fault (w_disk w) snapsDir (Encode sha) = Ret (Some m) →
       meta_ok text_ok m →
       ∃ w' m', finalize = (w', Ret (Encode sha)) ∧
         readSnapMeta no_fault (w_disk w') snapsDir (Encode sha) = Ret (Some m') ∧
         Parent m' = Parent m ∧ Source m' = Source m ∧
         (eff ≠ [] → met_taints (S_Taints m) eff (S_Taints m')) ∧
         ∀ p, ext_files dir (Encode sha) p → p ≠ snap_path snapsDir (Encode sha) →
           d_files (w_disk w') !! p = d_files (w_disk w) !! p).
Proof.
  intros Hd Hne Hl snapsDir T nodes eff Hidx Hfree Hpar Hf Hpt Hts.
  destruct (finalize_indexed Major Minor zeroTime dir rand Hd Hne Hl now w subdir parent taints Hidx Hfree Hpar Hf)
    as (sha & d & data & cdata & r & cr & Hfull & Ho & Hst & H1 & H2 & H3 & H4 & H5 & H6 & H7 & Hfin).
  exists sha. split; [exact Hfull|]. cbn zeta in Hfin |- *. pose proof Ho as [Hds Hfs].
  split.
  - intros v Hv Hr.
    assert (files_free dir (w_disk (MkWorld d (w_vols w)))) as Hfree' by (intros n p; cbn [w_disk]; rewrite Hds; apply Hfree).
    destruct (publish_ok dir Hd Hne now (MkWorld d (w_vols w)) rand sha parent eff v _ _ _ Hl Hfree' Hr Hst H1 H4 Hpt Hts)
      as (d' & Hp & P1 & P2 & P3 & P4).
    exists d', data, cdata, r, cr. split; [|by split_and!]. etrans; [exact Hfin|].
    destruct (vol_stat (w_vols w) _); [by destruct Hv|exact Hp|exact Hp].
  - intros m Hv Hm Hok.
    rewrite <- (readSnapMeta_same dir rand Hd Hne Hl (w_disk w) d) in Hm by (exact Ho || apply Encode_snap_name).
    destruct (dedup_ok dir now d (Encode sha) m eff Hm Hok) as ([_ Hdd] & m' & Hr & Hm1 & Hm2 & Hm3).
    set (w2 := set_disk (MkWorld d (w_vols w)) (dedup_taints snapsDir (no_faults now) d (Encode sha) eff)).
    pose proof (cleanupTmp_only no_fault w2 T) as Hc.
    exists (cleanupTmp no_fault w2 T), m'. split; [etrans; [exact Hfin|]; unfold snapsDir in Hv; rewrite Hv; reflexivity|].
    rewrite (readSnapMeta_same dir rand Hd Hne Hl (w_disk w2) _) by (exact Hc || apply Encode_snap_name).
    split; [exact Hr|]. split_and!; [done..|]. intros p Hp Hps.
    assert (¬ snap_files T p) as Hn.
    { intros Hin. eapply (capture_not_snap dir Hd Hne rand); [exact Hl|apply Encode_snap_name|exact Hin|exact Hp]. }
    destruct Hc as [_ Hc]. rewrite Hc by exact Hn. cbn [w_disk w2 set_disk]. unfold w2. cbn [w_disk set_disk].
    rewrite Hdd by exact Hps. by apply Hfs.
Qed.

Lemma snap_publishes_content_witness :
  let T := capture_path example_dir example_rand in
  ∃ sha d, indexAndFinalizeSubvol (H := sha256_digest) (λ _, 0) (λ _, 0) 0 (abs_path example_dir) (no_faults 42)
      example_world T [] [] (Some [bs "pii"]) = (MkWorld d {[JoinPath (abs_path example_dir) (Encode sha) := example_nodes]}, Ret (Encode sha)) ∧
    readSnapMeta no_fault d (abs_path example_dir) (Encode sha) = Ret (Some (MkSnapMeta [] [bs "pii"] None)).
Proof.
  intros T.
  destruct (snap_publishes_content (H := sha256_digest) (text_ok := λ _, True) (λ _, 0) (λ _, 0) 0 example_dir example_rand 42
    example_world [] [] (Some [bs "pii"])) as (sha & _ & Hnew & _).
  - exact example_dir_proper.
  - discriminate.
  - reflexivity.
  - cbn [w_vols example_world vol_walk plain]. rewrite lookup_singleton_eq. exact example_indexable.
  - exact example_free.
  - left. reflexivity.
  - intros _ pt pc [=].
  - exact I.
  - apply Forall_cons_2; [exact I|apply Forall_nil_2].
  - pose proof (capture_ne_snap example_dir example_rand sha example_dir_proper example_dir_ne eq_refl) as Hn.
    destruct (Hnew {[JoinPath (abs_path example_dir) (Encode sha) := example_nodes]}) as (d & data & cdata & r & cr & Hf & _ & Hm & _).
    + cbn [w_vols example_world vol_stat plain]. rewrite lookup_singleton_ne by exact Hn. discriminate.
    + cbn [w_vols example_world vol_rename plain]. rewrite lookup_singleton_eq, delete_singleton_eq. reflexivity.
    + exists sha, d. split; [exact Hf|exact Hm].
Defined.

(** C11: deleting a snap keeps the chains of parents. When no call fails, the handler
    removes the snap's metadata, and for any two other snaps one is above the other
    exactly when it was before, through the deleted snap or not; no other snap loses its
    taints or its source. *)
Theorem delete_snap_keeps_ancestry `{Volumes V} {text_ok} `{!Json SnapMeta (meta_ok text_ok)}
    (dir : list gostring) (w : world V) (m : gmap gostring SnapMeta) X mx v :
  Forall proper dir → dir ≠ [] → proper X →
  let snapsDir := abs_path dir in
  let metas := holds (ok := meta_ok text_ok) (snap_path snapsDir) file_name in
  metas (w_disk w) m → snapsDir ∈ d_dirs (w_disk w) → m !! X = Some mx → Parent mx ≠ X →
  vol_stat (w_vols w) (JoinPath snapsDir X) = StatOk → vol_delete (w_vols w) (JoinPath snapsDir X) = (v, true) →
  ∃ d m', handleDeleteSnap snapsDir no_fault w X = (MkWorld d v, StatusOK) ∧ metas d m' ∧
    dom m' = dom m ∖ {[X]} ∧
    (∀ a b, a ≠ X → b ≠ X → ancestor m' a b ↔ ancestor m a b) ∧
    (∀ k, k ≠ X → (λ s, (S_Taints s, Source s)) <$> m' !! k = (λ s, (S_Taints s, Source s)) <$> m !! k).
Proof.
  intros Hd Hne HX snapsDir metas Hm Hdir Hmx Hp Hst Hdel.
  assert (file_name X) as HfX by apply HX.
  assert (text_ok (Parent mx)) as HP.
  { destruct Hm as [Hm _]. destruct (Hm X HfX) as [_ Hv]. rewrite Hmx in Hv. apply Hv. }
  destruct (relink_metas dir Hd Hne (w_disk w) m X (Parent mx) Hm Hdir HP) as (_ & Hr & Hrd).
  unfold handleDeleteSnap. rewrite bool_decide_eq_false_2 by apply HX. unfold snapsDir in *. rewrite Hst, Hdel.
  assert (readSnapMeta no_fault (w_disk w) (abs_path dir) X = Ret (Some mx)) as ->.
  { unfold readSnapMeta. by rewrite (holds_load _ _ _ m X Hm HfX), Hmx. }
  set (d1 := (relinkSnapChildren _ _ _ _ _).1) in *. set (m1 := relinked X (Parent mx) m) in *.
  assert (JoinPath (abs_path dir) X ++ jsonc = snap_path (abs_path dir) X) as Hname.
  { rewrite snap_path_name by done. by apply snap_file_name. }
  set (d2 := (os_Remove no_fault d1 (JoinPath (abs_path dir) X ++ jsonc)).1).
  assert (metas d2 (delete X m1)) as H2.
  { unfold d2, os_Remove. cbn [remove_fails no_fault]. rewrite Hname.
    assert (m1 !! X = Some mx) as Hm1.
    { unfold m1, relinked. rewrite map_lookup_imap, Hmx. cbn. unfold relink_meta. by rewrite bool_decide_eq_true_2. }
    pose proof Hr as [Hr1 _]. destruct (Hr1 X HfX) as [_ Hv]. rewrite Hm1 in Hv. destruct Hv as (_ & ? & ? & -> & _).
    apply (holds_delete _ _ (snap_path_inj dir Hd Hne)); [exact Hr|done]. }
  destruct (remove_other dir Hd Hne d2 (delete X m1) X stamp H2 HX HfX) as [H3 _]; [intros k; apply not_jsonc|].
  destruct (remove_other dir Hd Hne _ (delete X m1) X (bs ".tsm") H3 HX HfX) as [H4 _]; [intros k; apply not_jsonc|].
  destruct (remove_other dir Hd Hne _ (delete X m1) X (bs ".tsc") H4 HX HfX) as [H5 _]; [intros k; apply not_jsonc|].
  eexists _, (delete X m1). split; [reflexivity|]. split; [exact H5|]. split; [|split].
  - unfold m1, relinked. rewrite dom_delete_L. f_equal. apply set_eq. intros k. rewrite !elem_of_dom, map_lookup_imap.
    destruct (m !! k); cbn; by split; intros []; eauto.
  - intros a b Ha Hb. apply relinked_ancestor; [by exists mx|done..].
  - intros k Hk. unfold m1, relinked. rewrite lookup_delete_ne, map_lookup_imap by done.
    destruct (m !! k) as [meta|]; [|done]. cbn. unfold relink_meta. by repeat case_bool_decide.
Qed.

Definition example_metas : gmap gostring SnapMeta :=
  <[bs "c" := MkSnapMeta (bs "b") [] None]> (<[bs "b" := MkSnapMeta (bs "a") [bs "pii"] None]>
    (<[bs "a" := MkSnapMeta (bs "1") [] None]> ∅)).
Definition put_meta (d : disk) (k : gostring) (m : SnapMeta) : disk :=
  put_file d (snap_path (abs_path example_dir) k) (pos_bits (encode m)).
Definition example_meta_disk : disk :=
  put_meta (put_meta (put_meta (MkDisk ∅ {[abs_path example_dir]})
    (bs "a") (MkSnapMeta (bs "1") [] None)) (bs "b") (MkSnapMeta (bs "a") [bs "pii"] None)) (bs "c") (MkSnapMeta (bs "b") [] None).

Lemma example_metas_held :
  holds (ok := meta_ok (λ _, True)) (snap_path (abs_path example_dir)) file_name example_meta_disk example_metas.
Proof.
  assert (∀ d m k meta, holds (ok := meta_ok (λ _, True)) (snap_path (abs_path example_dir)) file_name d m →
    file_name k → Forall (λ _, True) (S_Taints meta) → Source meta = None →
    holds (ok := meta_ok (λ _, True)) (snap_path (abs_path example_dir)) file_name (put_meta d k meta) (<[k := meta]> m)) as Hput.
  { intros d m k meta Hm Hk Ht Hs.
    eapply (holds_insert _ _ (snap_path_inj example_dir example_dir_proper example_dir_ne) d _ m k meta
      (pos_bits (encode meta)) (pos_bits (encode meta))); [exact Hm|exact Hk| |reflexivity| |reflexivity|reflexivity].
    - unfold meta_ok. rewrite Hs. by split_and!.
    - cbn. by rewrite bits_pos_bits, countable.decode_encode. }
  unfold example_meta_disk, example_metas.
  do 3 (apply Hput; [|by apply (bool_decide_unpack _)
    |cbn [S_Taints]; repeat first [apply Forall_nil_2|apply Forall_cons_2; [exact I|]]|reflexivity]).
  split; [|intros k [x Hx]; by rewrite lookup_empty in Hx]. intros k Hk. rewrite !lookup_empty. split; [|done].
  cbn [d_dirs]. rewrite snap_path_name, elem_of_singleton; [|exact example_dir_proper|discriminate|exact Hk].
  intros Heq%(f_equal length). revert Heq. rewrite length_app. cbn [length]. lia.
Qed.

Lemma delete_snap_keeps_ancestry_witness :
  ∃ d m', handleDeleteSnap (abs_path example_dir) no_fault
      (MkWorld example_meta_disk ({[JoinPath (abs_path example_dir) (bs "b") := []]} : plain_volumes)) (bs "b") = (MkWorld d ∅, StatusOK) ∧
    holds (ok := meta_ok (λ _, True)) (snap_path (abs_path example_dir)) file_name d m' ∧
    ancestor m' (bs "c") (bs "a").
Proof.
  destruct (delete_snap_keeps_ancestry (text_ok := λ _, True) example_dir
    (MkWorld example_meta_disk ({[JoinPath (abs_path example_dir) (bs "b") := []]} : plain_volumes)) example_metas (bs "b")
    (MkSnapMeta (bs "a") [bs "pii"] None) ∅) as (d & m' & Hh & Hm & _ & Ha & _).
  - exact example_dir_proper.
  - discriminate.
  - by apply proper_name.
  - exact example_metas_held.
  - cbn. by apply elem_of_singleton.
  - reflexivity.
  - discriminate.
  - reflexivity.
  - cbn [w_vols vol_delete plain]. by rewrite delete_singleton_eq, bool_decide_eq_true_2 by (rewrite lookup_singleton_eq; eauto).
  - exists d, m'. split; [exact Hh|]. split; [exact Hm|]. apply Ha; [discriminate..|].
    apply (tc_l _ _ (bs "b")); [|apply tc_once].
    + exists (MkSnapMeta (bs "b") [] None). split; [vm_compute; reflexivity|reflexivity].
    + exists (MkSnapMeta (bs "a") [bs "pii"] None). split; [vm_compute; reflexivity|reflexivity].
Defined.

(** The ID in a request to delete a snap is not checked, unlike those in a request to
    create a frame: with dots it names any subvolume below the data directory. *)
Lemma delete_snap_escapes :
  JoinPath (abs_path example_dir) (bs "../fs/alice/frame") = bs "/data/fs/alice/frame" ∧
  validSnapID (bs "../fs/alice/frame") = false ∧
  handleDeleteSnap (text_ok := λ _, True) (abs_path example_dir) no_fault
    (MkWorld (MkDisk ∅ {[abs_path example_dir]}) {[bs "/data/fs/alice/frame" := example_nodes]}) (bs "../fs/alice/frame")
  = (MkWorld (MkDisk ∅ {[abs_path example_dir]}) ∅, StatusOK).
Proof. split_and!; vm_compute; reflexivity. Qed.
