(* ===== verification/SnapQueue.v ===== *)
(** * The snap queue ([src/cmd/thundersnapd/snapqueue.go])

    Captures are taken at once, under a lock, and queued; one worker indexes them in
    order and then updates the metadata of their frame. Here every thread is a sequence
    of atomic steps (what the code does while it holds a lock, or one call of its own)
    and a run is any interleaving of them: captures, forks and taints arrive in any
    order, and the worker moves at its own pace. *)

From Stdlib Require Import Strings.String.
From S2P Require Import GoSort Prelude GoStrings GoPath GoIO JsonStore FrameId Frames Sha256 SnapHash Tsc Tsm Indexer SnapFiles.

(** ** Jobs *)

Inductive componentKind := compRoot | compHome | compWork | compSubdir.

#[export] Instance kind_eq_dec : EqDecision componentKind.
Proof. solve_decision. Defined.
#[export] Instance kind_countable : Countable componentKind.
Proof.
  apply (inj_countable' (λ k, match k with compRoot => 0%nat | compHome => 1%nat | compWork => 2%nat | compSubdir => 3%nat end)
    (λ n, match n with 0%nat => compRoot | 1%nat => compHome | 2%nat => compWork | _ => compSubdir end)).
  by intros [].
Defined.

(** Jobs are shared by pointers: a job is named by its place in the order of captures. *)
Record pendingComponent := MkComp {
  kind : componentKind;
  tmpPath : gostring;
  c_taints : list gostring;
  parentJob : option nat;
  parentSnap : gostring;
}.

Record snapJob := MkJob {
  frame : gostring;
  subdir : gostring;
  comps : list pendingComponent;
  finalized : gmap componentKind gostring;
  result : gostring;
  j_err : option snap_error;
  done : bool;
}.

Definition isSubdir (j : snapJob) : bool := bool_decide (subdir j ≠ []).
(** The zero value for a component that was not captured. *)
Definition final_id (j : snapJob) (k : componentKind) : gostring := default [] (finalized j !! k).
Definition resultID (j : snapJob) : gostring := if isSubdir j then final_id j compSubdir else result j.
Definition componentTmp (j : snapJob) (k : componentKind) : gostring :=
  match list_find (λ c, kind c = k) (comps j) with Some (_, c) => tmpPath c | None => [] end.

Definition set_result (j : snapJob) (fin : gmap componentKind gostring) (res : gostring) : snapJob :=
  MkJob (frame j) (subdir j) (comps j) fin res (j_err j) (done j).
Definition set_err (j : snapJob) (e : snap_error) : snapJob :=
  MkJob (frame j) (subdir j) (comps j) (finalized j) (result j) (Some e) (done j).
Definition set_done (j : snapJob) : snapJob :=
  MkJob (frame j) (subdir j) (comps j) (finalized j) (result j) (j_err j) true.

(** ** The queue *)

Record snapQueue := MkQueue {
  jobs : list snapJob;                       (* all jobs, in the order of captures *)
  pending : list nat;
  framePendingSnap : gmap gostring nat;
}.
Definition newSnapQueue : snapQueue := MkQueue [] [] ∅.

Definition set_job (q : snapQueue) (i : nat) (j : snapJob) : snapQueue :=
  MkQueue (<[i := j]> (jobs q)) (pending q) (framePendingSnap q).

(** A new job, at the end of the queue. *)
Definition enqueueLocked (q : snapQueue) (j : snapJob) : snapQueue :=
  MkQueue (jobs q ++ [j]) (pending q ++ [length (jobs q)]) (framePendingSnap q).
Definition set_pending_snap (q : snapQueue) (fr : gostring) (i : nat) : snapQueue :=
  MkQueue (jobs q) (pending q) (<[fr := i]> (framePendingSnap q)).

(** The frames other than the job's own that wait for it. *)
Definition forkedFramesForJob (q : snapQueue) (i : nat) (fr : gostring) : list gostring :=
  (filter (λ p, p.2 = i ∧ p.1 ≠ fr) (map_to_list (framePendingSnap q))).*1.

Definition finishJob (q : snapQueue) (i : nat) : snapQueue :=
  MkQueue (alter set_done i (jobs q)) (pending q) (filter (λ p, p.2 ≠ i) (framePendingSnap q)).

(** The base of a component: what its parent job ended as, else what was recorded. *)
Definition resolve_parent (q : snapQueue) (c : pendingComponent) : gostring :=
  match parentJob c with
  | Some p =>
      let pid := match jobs q !! p with Some j => final_id j (kind c) | None => [] end in
      if bool_decide (pid ≠ []) then pid else parentSnap c
  | None => parentSnap c
  end.

(** [snapsubdir.Validate]. *)
Definition Validate (subdir : gostring) : option gostring :=
  let clean := TrimPrefix (Clean (slash :: subdir)) [slash] in
  if bool_decide (clean = []) || bool_decide (clean = dot) then None else Some clean.

Definition empty_frame : Frame := MkFrame [] [] [] [] [] [] 0.

(** What a finished snap puts into the sidecar of its frame. *)
Definition record_subdir (h : HistoryEntry) (m : Frame) : Frame := set_history m (h :: History m).
Definition record_snap (rootID homeID workID : gostring) (h : HistoryEntry) (m : Frame) : Frame :=
  MkFrame rootID (if bool_decide (homeID ≠ []) then homeID else F_Home m)
    (if bool_decide (workID ≠ []) then workID else Work m) (Taints m) (Isolation m) (h :: History m) (CreatedAt m).

(** What [/taint] puts there. *)
Definition taint_frame (stampID taint : gostring) (m : Frame) : Frame :=
  let m := if bool_decide (Rootfs m = [])
           then MkFrame stampID (F_Home m) (Work m) (Taints m) (Isolation m) (History m) (CreatedAt m) else m in
  if bool_decide (taint ∈ Taints m) then m else set_taints m (UnionTaints [Taints m ++ [taint]]).

(** ** The worker, and forks on their way *)

Inductive worker :=
| WIdle
| WIndex (i : nat) (todo : list pendingComponent) (fin : gmap componentKind gostring)
| WStamp (i : nat) (h : HistoryEntry)
| WSidecar (i : nat) (h : HistoryEntry)
| WForks (i : nat) (h : HistoryEntry)
| WForkStamp (i : nat) (h : HistoryEntry) (ff : list gostring)
| WForkSidecar (i : nat) (h : HistoryEntry) (ff : list gostring)
| WFinish (i : nat)
| WCrashed (i : nat).

(** A fork has read its source's metadata, then captured and cloned it, then written the
    new frame's sidecar. A frame made from components of live frames has been cloned. *)
Inductive fork_stage := FRead | FCloned (i : nat) | FSidecar (i : nat) | FLive.
Record fork := MkFork { fk_src : gostring; fk_path : gostring; fk_meta : Frame; fk_stage : fork_stage }.

Record state (V : Type) := MkState {
  s_queue : snapQueue;
  s_worker : worker;
  s_world : world V;
  s_forks : list fork;
}.
Arguments MkState {V}.
Arguments s_queue {V}.
Arguments s_worker {V}.
Arguments s_world {V}.
Arguments s_forks {V}.

Section queue.
Context `{Digest} `{Volumes V} {text_ok : gostring → Prop} {time_ok : Z → Prop}
  `{!Json SnapMeta (meta_ok text_ok)} `{!Json Frame (frame_ok text_ok time_ok)}.
Variables (Major Minor : Z → Z) (zeroTime : Z) (snapsDir : gostring).
(** [setupMinimalRootfs]: the files of an empty root. *)
Variable setupMinimalRootfs : V → gostring → V * bool.

(** *** Metadata under the frame's lock *)

Definition sidecar (env : osenv) (d : disk) (fr : gostring) : option Frame :=
  match readFrameSidecar env d fr with Ret o => o | _ => None end.

(** An unreadable sidecar counts as none. *)
Definition updateFrameMetaLocked (env : osenv) (d : disk) (fr : gostring) (mutator : Frame → Frame)
    : disk * option store_error :=
  writeFrameSidecar env d fr (mutator (default empty_frame (sidecar env d fr))).

(** *** Capturing *)

Definition cleanupCaptured (env : osenv) (w : world V) (cs : list pendingComponent) : world V :=
  foldl (λ w c, MkWorld (os_Remove env (w_disk w) (tmpPath c ++ stamp)).1 (vol_delete (w_vols w) (tmpPath c)).1) w cs.

(** Home or work: a subvolume, captured unless it is empty. *)
Definition capture_part (env : osenv) (rand : option (list byte)) (w : world V) (cs : list pendingComponent)
    (path : gostring) (k : componentKind) (taints : list gostring) (baseJob : option nat) (parent : gostring)
    : world V * outcome snap_error (list pendingComponent) :=
  if negb (isSubvolume (w_vols w) path) then (cleanupCaptured env w cs, Err err_not_subvolume)
  else if isDirEmpty (w_vols w) path then (w, Ret cs)
  else
    match captureSubvol snapsDir rand (w_vols w) path [] with
    | (v, Ret tmp) => (set_vols w v, Ret (cs ++ [MkComp k tmp taints baseJob parent]))
    | (v, Err e) => (cleanupCaptured env (set_vols w v) cs, Err e)
    | (v, Panic) => (set_vols w v, Panic)
    end.

Definition no_result : gmap componentKind gostring := ∅.

(** [captureSnapJobLocked]; the three random names are drawn as they are needed. *)
Definition captureSnapJobLocked (env : osenv) (rands : nat → option (list byte)) (q : snapQueue) (w : world V)
    (rootFS sub : gostring) : snapQueue * world V * outcome snap_error nat :=
  let frameMeta := sidecar env (w_disk w) rootFS in
  let taints := match frameMeta with Some m => Taints m | None => [] end in
  if bool_decide (sub ≠ []) then
    match Validate sub with
    | None => (q, w, Err err_subdir)
    | Some clean =>
        match captureSubvol snapsDir (rands 0%nat) (w_vols w) rootFS clean with
        | (v, Ret tmp) =>
            let job := MkJob rootFS clean [MkComp compSubdir tmp taints None []] no_result [] None false in
            (enqueueLocked q job, set_vols w v, Ret (length (jobs q)))
        | (v, Err e) => (q, set_vols w v, Err e)
        | (v, Panic) => (q, set_vols w v, Panic)
        end
    end
  else
    let homePath := JoinPath rootFS (bs "home") in
    let workPath := JoinPath rootFS (bs "work") in
    let st := readStampFile env (w_disk w) rootFS in
    let baseStampID := if bool_decide (st = []) then bs "1" else st in
    let homeParent := match frameMeta with Some m => F_Home m | None => [] end in
    let workParent := match frameMeta with Some m => Work m | None => [] end in
    let baseJob := framePendingSnap q !! rootFS in
    match captureSubvol snapsDir (rands 0%nat) (w_vols w) rootFS [] with
    | (v, Err e) => (q, set_vols w v, Err e)
    | (v, Panic) => (q, set_vols w v, Panic)
    | (v, Ret rootTmp) =>
        let cs := [MkComp compRoot rootTmp taints baseJob baseStampID] in
        match capture_part env (rands 1%nat) (set_vols w v) cs homePath compHome taints baseJob homeParent with
        | (w, Err e) => (q, w, Err e)
        | (w, Panic) => (q, w, Panic)
        | (w, Ret cs) =>
            match capture_part env (rands 2%nat) w cs workPath compWork taints baseJob workParent with
            | (w, Err e) => (q, w, Err e)
            | (w, Panic) => (q, w, Panic)
            | (w, Ret cs) =>
                let job := MkJob rootFS [] cs no_result [] None false in
                let i := length (jobs q) in
                (enqueueLocked (set_pending_snap q rootFS i) job, w, Ret i)
            end
        end
    end.

(** *** Forking *)

(** A plain directory in the way of a subvolume is removed. *)
Definition clear_dir (v : V) (path : gostring) : V :=
  if vol_is_dir v path && negb (isSubvolume v path) then (vol_remove_all v path).1 else v.

(** The captured home or work goes into the new frame, if there is one. *)
Definition clone_part (v : V) (tmp path : gostring) : V * bool :=
  if bool_decide (tmp = []) then (v, true) else vol_snapshot (clear_dir v path) tmp path false.

(** Under the queue's lock, so that the worker does not rename the captures away. *)
Definition cloneFrameSubvolsLocked (env : osenv) (w : world V) (framePath : gostring) (j : snapJob) : world V * bool :=
  match MkdirAll env (w_disk w) (Dir framePath) with
  | (d, false) => (set_disk w d, false)
  | (d, true) =>
      let w := set_disk w d in
      let rootTmp := componentTmp j compRoot in
      if bool_decide (rootTmp = []) then (w, false)
      else
        match vol_snapshot (w_vols w) rootTmp framePath false with
        | (v, false) => (set_vols w v, false)
        | (v, true) =>
            match clone_part v (componentTmp j compHome) (JoinPath framePath (bs "home")) with
            | (v, false) => (set_vols w v, false)
            | (v, true) =>
                let '(v, ok) := clone_part v (componentTmp j compWork) (JoinPath framePath (bs "work")) in
                (set_vols w v, ok)
            end
        end
  end.

(** An empty subvolume where there is none. *)
Definition ensure_subvol (v : V) (path : gostring) (chown : bool) : V * bool :=
  let v := clear_dir v path in
  if isSubvolume v path then (v, true)
  else
    match vol_create v path with
    | (v, true) => (if chown then (vol_chown v path).1 else v, true)
    | (v, false) => (v, false)
    end.

(** [cloneFrameSetup] up to the files: home, work and their link, and [/id]. *)
Definition setup_subvols (v : V) (framePath : gostring) : V * bool :=
  let homePath := JoinPath framePath (bs "home") in
  match ensure_subvol v homePath true with
  | (v, false) => (v, false)
  | (v, true) =>
      match ensure_subvol v (JoinPath framePath (bs "work")) true with
      | (v, false) => (v, false)
      | (v, true) =>
          let link := JoinPath homePath (bs "work") in
          let v := if vol_lexists v link then v else vol_symlink v (bs "/work") link in
          ensure_subvol v (JoinPath framePath (bs "id")) false
      end
  end.

(** The sidecar of the new frame; a failure is only logged. Its stamp follows. *)
Definition fork_sidecar (env : osenv) (now : Z) (d : disk) (framePath : gostring) (meta : Frame) : disk :=
  (writeFrameSidecar env d framePath (set_created meta now)).1.
Definition fork_stamp (env : osenv) (d : disk) (framePath : gostring) (meta : Frame) : disk :=
  (writeStampFile env d framePath (Rootfs meta)).1.

(** The part of [forkFrame] under the lock: the job, if the frame was cloned. *)
Definition fork_locked (env : osenv) (rands : nat → option (list byte)) (q : snapQueue) (w : world V)
    (rootFS framePath : gostring) : snapQueue * world V * option nat :=
  match captureSnapJobLocked env rands q w rootFS [] with
  | (q, w, Ret i) =>
      match jobs q !! i with
      | Some j =>
          match cloneFrameSubvolsLocked env w framePath j with
          | (w, true) => (set_pending_snap q framePath i, w, Some i)
          | (w, false) => (q, w, None)
          end
      | None => (q, w, None)
      end
  | (q, w, _) => (q, w, None)
  end.

(** *** Frames from components of live frames *)

Definition removeComponent (v : V) (path : gostring) : V * bool :=
  if isSubvolume v path then vol_delete v path else vol_remove_all v path.

(** Each source is captured once. *)
Fixpoint capture_sources (env : osenv) (rands : nat → nat → option (list byte)) (q : snapQueue) (w : world V)
    (n : nat) (sources : list gostring) (taken : gmap gostring nat) : snapQueue * world V * option (gmap gostring nat) :=
  match sources with
  | [] => (q, w, Some taken)
  | s :: sources' =>
      if bool_decide (s = []) || bool_decide (is_Some (taken !! s)) then capture_sources env rands q w (S n) sources' taken
      else
        match captureSnapJobLocked env (rands n) q w s [] with
        | (q, w, Ret i) => capture_sources env rands q w (S n) sources' (<[s := i]> taken)
        | (q, w, _) => (q, w, None)
        end
  end.

Definition source_tmp (q : snapQueue) (taken : gmap gostring nat) (source : gostring) (k : componentKind) : gostring :=
  match taken !! source with
  | Some i => match jobs q !! i with Some j => componentTmp j k | None => [] end
  | None => []
  end.

Definition live_root (q : snapQueue) (taken : gmap gostring nat) (v : V) (dst source snap : gostring) : V * bool :=
  if bool_decide (source ≠ []) then
    let tmp := source_tmp q taken source compRoot in
    if bool_decide (tmp = []) then (v, false) else vol_snapshot v tmp dst false
  else if bool_decide (snap ≠ []) then vol_snapshot v (JoinPath snapsDir snap) dst false
  else
    match vol_create v dst with
    | (v, true) => setupMinimalRootfs v dst
    | (v, false) => (v, false)
    end.
Definition live_part (q : snapQueue) (taken : gmap gostring nat) (v : V) (target source snap : gostring)
    (k : componentKind) : V * bool :=
  match removeComponent v target with
  | (v, false) => (v, false)
  | (v, true) =>
      if bool_decide (source ≠ []) then
        let tmp := source_tmp q taken source k in
        if bool_decide (tmp = []) then vol_create v target else vol_snapshot v tmp target false
      else if bool_decide (snap ≠ []) then vol_snapshot v (JoinPath snapsDir snap) target false
      else
        match vol_create v target with
        | (v, true) => vol_chown v target
        | (v, false) => (v, false)
        end
  end.

(** [cloneLiveFrameComponents] under the lock, and the rest. *)
Definition clone_live_locked (env : osenv) (rands : nat → nat → option (list byte)) (q : snapQueue) (w : world V)
    (dst : gostring) (meta : Frame) (rootSource homeSource workSource : gostring) : snapQueue * world V * bool :=
  let '(d, made) := MkdirAll env (w_disk w) (Dir dst) in
  if negb made then (q, set_disk w d, false)
  else
  match capture_sources env rands q (set_disk w d) 0 [rootSource; homeSource; workSource] ∅ with
  | (q, w, None) => (q, w, false)
  | (q, w, Some taken) =>
      match live_root q taken (w_vols w) dst rootSource (Rootfs meta) with
      | (v, false) => (q, set_vols w v, false)
      | (v, true) =>
          match live_part q taken v (JoinPath dst (bs "home")) homeSource (F_Home meta) compHome with
          | (v, false) => (q, set_vols w v, false)
          | (v, true) =>
              let '(v, ok) := live_part q taken v (JoinPath dst (bs "work")) workSource (Work meta) compWork in
              (q, set_vols w v, ok)
          end
      end
  end.
Definition clone_live_rest (env : osenv) (w : world V) (dst : gostring) (meta : Frame) : world V :=
  match writeFrameSidecar env (w_disk w) dst meta with
  | (d, Some _) => set_disk w d
  | (d, None) =>
      match removeComponent (w_vols w) (JoinPath dst (bs "id")) with
      | (v, false) => MkWorld d v
      | (v, true) => MkWorld d (vol_create v (JoinPath dst (bs "id"))).1
      end
  end.

(** *** The worker *)

(** Components that were not indexed when one failed. *)
Definition discard_rest (env : osenv) (w : world V) (j : snapJob) (fin : gmap componentKind gostring) : world V :=
  cleanupCaptured env w (filter (λ c, fin !! kind c = None) (comps j)).

(** [processJob] once all components are indexed: the history entry. *)
Definition history_entry (now : Z) (j : snapJob) : HistoryEntry := MkHistory (resultID j) now [].
Definition indexed (j : snapJob) (fin : gmap componentKind gostring) : snapJob :=
  set_result j fin (if isSubdir j then []
                    else triplet (default [] (fin !! compRoot)) (default [] (fin !! compHome)) (default [] (fin !! compWork))).

(** What the job puts into a sidecar. *)
Definition record_job (j : snapJob) (h : HistoryEntry) : Frame → Frame :=
  if isSubdir j then record_subdir h
  else record_snap (final_id j compRoot) (final_id j compHome) (final_id j compWork) h.

Definition set_worker (s : state V) (wk : worker) : state V := MkState (s_queue s) wk (s_world s) (s_forks s).
Definition set_world (s : state V) (w : world V) : state V := MkState (s_queue s) (s_worker s) w (s_forks s).
Definition set_queue (s : state V) (q : snapQueue) : state V := MkState q (s_worker s) (s_world s) (s_forks s).
Definition set_forks (s : state V) (fs : list fork) : state V := MkState (s_queue s) (s_worker s) (s_world s) fs.

(** One step of [run] and [processJob], for a job that exists. *)
Definition job_step (e : index_env) (env : osenv) (s : state V) (i : nat) (j : snapJob) : state V :=
  let q := s_queue s in
  let w := s_world s in
  match s_worker s with
  | WIndex _ (c :: todo) fin =>
      match indexAndFinalizeSubvol Major Minor zeroTime snapsDir e w (tmpPath c) (subdir j) (resolve_parent q c) (stored_list (c_taints c)) with
      | (w, Ret id) => set_worker (set_world s w) (WIndex i todo (<[kind c := id]> fin))
      | (w, Err err) =>
          set_worker (set_queue (set_world s (discard_rest env w j fin)) (set_job q i (set_err j err))) (WFinish i)
      | (w, Panic) => set_worker (set_world s w) (WCrashed i)
      end
  | WIndex _ [] fin =>
      let j := indexed j fin in
      let h := history_entry (ie_now e) j in
      set_worker (set_queue s (set_job q i j)) (if isSubdir j then WSidecar i h else WStamp i h)
  | WStamp _ h =>
      let d := (writeStampFile env (w_disk w) (frame j) (final_id j compRoot)).1 in
      set_worker (set_world s (set_disk w d)) (WSidecar i h)
  | WSidecar _ h =>
      let d := (updateFrameMetaLocked env (w_disk w) (frame j) (record_job j h)).1 in
      set_worker (set_world s (set_disk w d)) (if isSubdir j then WFinish i else WForks i h)
  | WForks _ h => set_worker s (WForkStamp i h (forkedFramesForJob q i (frame j)))
  | WForkStamp _ h [] | WForkSidecar _ h [] => set_worker s (WFinish i)
  | WForkStamp _ h (f :: ff) =>
      let d := (writeStampFile env (w_disk w) f (final_id j compRoot)).1 in
      set_worker (set_world s (set_disk w d)) (WForkSidecar i h (f :: ff))
  | WForkSidecar _ h (f :: ff) =>
      let d := (updateFrameMetaLocked env (w_disk w) f (record_job j h)).1 in
      set_worker (set_world s (set_disk w d)) (WForkStamp i h ff)
  | WFinish _ => set_worker (set_queue s (finishJob q i)) WIdle
  | WIdle | WCrashed _ => s
  end.

Definition busy (wk : worker) : option nat :=
  match wk with
  | WIdle => None
  | WIndex i _ _ | WStamp i _ | WSidecar i _ | WForks i _ | WForkStamp i _ _ | WForkSidecar i _ _ | WFinish i | WCrashed i => Some i
  end.

Definition worker_step (e : index_env) (env : osenv) (s : state V) : option (state V) :=
  let q := s_queue s in
  match s_worker s with
  | WIdle =>
      match pending q with
      | [] => None
      | i :: rest =>
          j ← jobs q !! i;
          Some (set_worker (set_queue s (MkQueue (jobs q) rest (framePendingSnap q))) (WIndex i (comps j) ∅))
      end
  | WCrashed _ => None
  | wk => i ← busy wk; j ← jobs q !! i; Some (job_step e env s i j)
  end.

(** *** Runs *)

Inductive label :=
| LWorker (e : index_env) (env : osenv)
| LCapture (env : osenv) (rands : nat → option (list byte)) (rootFS sub : gostring)
| LTaint (env : osenv) (fr taint : gostring)
| LForkRead (env : osenv) (src path : gostring)
| LForkLocked (n : nat) (env : osenv) (rands : nat → option (list byte))
| LForkSidecar (n : nat) (env : osenv) (now : Z)
| LForkStamp (n : nat) (env : osenv)
| LClone (env : osenv) (rands : nat → nat → option (list byte)) (dst : gostring) (meta : Frame)
    (rootSource homeSource workSource : gostring).

(** A fork that is over, because it failed or has written everything. *)
Definition drop_fork (s : state V) (n : nat) : list fork := take n (s_forks s) ++ drop (S n) (s_forks s).

Definition fork_step (f : fork) (n : nat) (lbl : label) (s : state V) : option (state V) :=
  let w := s_world s in
  match fk_stage f, lbl with
  | FRead, LForkLocked _ env rands =>
      match fork_locked env rands (s_queue s) w (fk_src f) (fk_path f) with
      | (q, w, Some i) =>
          Some (MkState q (s_worker s) w (<[n := MkFork (fk_src f) (fk_path f) (fk_meta f) (FCloned i)]> (s_forks s)))
      | (q, w, None) => Some (MkState q (s_worker s) w (drop_fork s n))
      end
  | FCloned i, LForkSidecar _ env now =>
      match setup_subvols (w_vols w) (fk_path f) with
      | (v, true) =>
          Some (MkState (s_queue s) (s_worker s) (MkWorld (fork_sidecar env now (w_disk w) (fk_path f) (fk_meta f)) v)
                  (<[n := MkFork (fk_src f) (fk_path f) (fk_meta f) (FSidecar i)]> (s_forks s)))
      | (v, false) => Some (MkState (s_queue s) (s_worker s) (set_vols w v) (drop_fork s n))
      end
  | FSidecar i, LForkStamp _ env =>
      Some (MkState (s_queue s) (s_worker s) (set_disk w (fork_stamp env (w_disk w) (fk_path f) (fk_meta f))) (drop_fork s n))
  | FLive, LForkSidecar _ env _ =>
      Some (MkState (s_queue s) (s_worker s) (clone_live_rest env w (fk_path f) (fk_meta f)) (drop_fork s n))
  | _, _ => None
  end.

Definition step (lbl : label) (s : state V) : option (state V) :=
  let w := s_world s in
  match lbl with
  | LWorker e env => worker_step e env s
  | LCapture env rands rootFS sub =>
      let '(q, w, _) := captureSnapJobLocked env rands (s_queue s) w rootFS sub in
      Some (MkState q (s_worker s) w (s_forks s))
  | LTaint env fr taint =>
      let d := (updateFrameMetaLocked env (w_disk w) fr (taint_frame (readStampFile env (w_disk w) fr) taint)).1 in
      Some (set_world s (set_disk w d))
  | LForkRead env src path =>
      let meta := default empty_frame (sidecar env (w_disk w) src) in
      Some (set_forks s (s_forks s ++ [MkFork src path meta FRead]))
  | LForkLocked n _ _ | LForkSidecar n _ _ | LForkStamp n _ => f ← s_forks s !! n; fork_step f n lbl s
  | LClone env rands dst meta s1 s2 s3 =>
      match clone_live_locked env rands (s_queue s) w dst meta s1 s2 s3 with
      | (q, w, true) => Some (MkState q (s_worker s) w (s_forks s ++ [MkFork [] dst meta FLive]))
      | (q, w, false) => Some (MkState q (s_worker s) w (s_forks s))
      end
  end.

Fixpoint run (l : list label) (s : state V) : option (state V) :=
  match l with
  | [] => Some s
  | lbl :: l' => s' ← step lbl s; run l' s'
  end.

Definition start (w : world V) : state V := MkState newSnapQueue WIdle w [].
End queue.

(** ** How the queue grows

    Captures and forks add jobs at the end; nothing else of the queue changes. *)

Definition fresh (j : snapJob) : Prop := done j = false ∧ finalized j = ∅ ∧ j_err j = None.

Record grows (q q' : snapQueue) : Prop := {
  gr_jobs : ∃ new, jobs q' = jobs q ++ new ∧ pending q' = pending q ++ seq (length (jobs q)) (length new) ∧ Forall fresh new;
  gr_fps : ∀ fr i, framePendingSnap q' !! fr = Some i →
             framePendingSnap q !! fr = Some i ∨ (length (jobs q) ≤ i < length (jobs q'))%nat;
  gr_parents : ∀ i j c p, (length (jobs q) ≤ i)%nat → jobs q' !! i = Some j → c ∈ comps j → parentJob c = Some p →
             (∃ fr, framePendingSnap q !! fr = Some p) ∨ (length (jobs q) ≤ p < i)%nat;
  gr_kept : ∀ fr, framePendingSnap q' !! fr = framePendingSnap q !! fr ∨
             ∃ i, framePendingSnap q' !! fr = Some i ∧ (length (jobs q) ≤ i)%nat;
  gr_latest : ∀ i j, (length (jobs q) ≤ i)%nat → jobs q' !! i = Some j → isSubdir j = false →
             ∃ i', framePendingSnap q' !! frame j = Some i' ∧ (i ≤ i')%nat;
}.

Lemma grows_refl q : grows q q.
Proof.
  split; [exists []; cbn; by rewrite !app_nil_r|by left| |by left|].
  - intros i j c p Hi Hj. apply lookup_lt_Some in Hj. lia.
  - intros i j Hi Hj. apply lookup_lt_Some in Hj. lia.
Qed.

Lemma grows_trans q1 q2 q3 : grows q1 q2 → grows q2 q3 → grows q1 q3.
Proof.
  intros [(n1 & J1 & P1 & F1) S1 T1 K1 L1'] [(n2 & J2 & P2 & F2) S2 T2 K2 L2'].
  assert (length (jobs q2) = (length (jobs q1) + length n1)%nat) as L2 by (by rewrite J1, length_app).
  assert (length (jobs q3) = (length (jobs q2) + length n2)%nat) as L3 by (by rewrite J2, length_app).
  split.
  - exists (n1 ++ n2). rewrite J2, J1, P2, P1, J1, !length_app, seq_app, <- !app_assoc. split_and!; [done..|].
    by apply Forall_app_2.
  - intros fr i Hi. apply S2 in Hi as [Hi|Hi]; [|right; lia]. apply S1 in Hi as [Hi|Hi]; [by left|right; lia].
  - intros i j c p Hi Hj Hc Hp. destruct (decide (length (jobs q2) ≤ i)%nat) as [Hi2|Hi2].
    + destruct (T2 i j c p Hi2 Hj Hc Hp) as [[fr Hf]|Hf]; [|right; lia].
      apply S1 in Hf as [Hf|Hf]; [left; by exists fr|right; lia].
    + apply (T1 i j c p Hi); [|done..]. rewrite J2 in Hj. rewrite lookup_app_l in Hj by lia. done.
  - intros fr. destruct (K2 fr) as [->|(i & Hi & Hl)]; [apply K1|]. right. exists i. split; [done|lia].
  - intros i j Hi Hj Hs. destruct (decide (length (jobs q2) ≤ i)%nat) as [Hi2|Hi2]; [by eapply L2'|].
    rewrite J2, lookup_app_l in Hj by lia. destruct (L1' i j Hi Hj Hs) as (i1 & Hi1 & Hle).
    destruct (K2 (frame j)) as [->|(i' & Hi' & Hl)]; [by exists i1|]. exists i'. split; [done|lia].
Qed.

(** Old jobs stay, and their entries do not multiply. *)
Lemma grows_lookup q q' i : grows q q' → (i < length (jobs q))%nat → jobs q' !! i = jobs q !! i.
Proof. intros [(new & -> & _) _ _ _ _] Hi. by rewrite lookup_app_l. Qed.
Lemma grows_length q q' : grows q q' → (length (jobs q) ≤ length (jobs q'))%nat.
Proof. intros [(new & -> & _) _ _ _ _]. rewrite length_app. lia. Qed.

Lemma grows_enqueue q j fps :
  fresh j → (∀ c p, c ∈ comps j → parentJob c = Some p → ∃ fr, framePendingSnap q !! fr = Some p) →
  fps = framePendingSnap q ∧ isSubdir j = true ∨ fps = <[frame j := length (jobs q)]> (framePendingSnap q) →
  grows q (MkQueue (jobs q ++ [j]) (pending q ++ [length (jobs q)]) fps).
Proof.
  intros Hj Hp Hf. split; cbn [jobs pending framePendingSnap].
  - exists [j]. split_and!; [done..|]. by apply Forall_cons_2; [|apply Forall_nil_2].
  - intros fr i. destruct Hf as [[-> _]| ->]; [by left|]. destruct (decide (fr = frame j)) as [->|Hne].
    + rewrite lookup_insert_eq. intros [= <-]. right. rewrite length_app. cbn. lia.
    + rewrite lookup_insert_ne by done. by left.
  - intros i j' c p Hi Hj' Hc Hpc. rewrite lookup_app_r in Hj' by lia.
    apply list_lookup_singleton_Some in Hj' as [_ <-]. left. by eapply Hp.
  - intros fr. destruct Hf as [[-> _]| ->]; [by left|]. destruct (decide (fr = frame j)) as [->|Hne].
    + right. exists (length (jobs q)). rewrite lookup_insert_eq. done.
    + rewrite lookup_insert_ne by done. by left.
  - intros i j' Hi Hj' Hs. rewrite lookup_app_r in Hj' by lia.
    apply list_lookup_singleton_Some in Hj' as [Hi0 <-]. destruct Hf as [[_ Hs']| ->]; [congruence|].
    exists (length (jobs q)). rewrite lookup_insert_eq. split; [done|lia].
Qed.

Lemma Validate_ne sub clean : Validate sub = Some clean → clean ≠ [].
Proof.
  intros Hv ->. unfold Validate in Hv. destruct (bool_decide (TrimPrefix _ _ = [])) eqn:Hb; [done|].
  apply bool_decide_eq_false in Hb. destruct (bool_decide _); [done|]. by injection Hv.
Qed.

Section growth.
Context `{Digest} `{Volumes V} {text_ok : gostring → Prop} {time_ok : Z → Prop}
  `{!Json SnapMeta (meta_ok text_ok)} `{!Json Frame (frame_ok text_ok time_ok)}.
Variables (snapsDir : gostring) (setupMinimalRootfs : V → gostring → V * bool).

(** Every component of a part captured has the base job of its frame, if any. *)
Definition based (base : option nat) (cs : list pendingComponent) : Prop :=
  Forall (λ c, parentJob c = base) cs.

Lemma capture_part_based env rand w cs path k taints base parent :
  based base cs →
  match (capture_part snapsDir env rand w cs path k taints base parent).2 with
  | Ret cs' => based base cs' | _ => True
  end.
Proof.
  intros Hc. unfold capture_part. destruct (isSubvolume _ _); cbn [negb]; [|done].
  destruct (isDirEmpty _ _); [done|]. destruct (captureSubvol _ _ _ _ _) as [v [tmp|e|]]; [|done..].
  cbn. apply Forall_app_2; [done|]. by apply Forall_cons_2; [|apply Forall_nil_2].
Qed.

Lemma capture_grows env rands q w rootFS sub :
  let '(q', _, r) := captureSnapJobLocked snapsDir env rands q w rootFS sub in
  grows q q' ∧ match r with
               | Ret i => i = length (jobs q) ∧ length (jobs q') = S i ∧
                          ∃ j, jobs q' !! i = Some j ∧ frame j = rootFS ∧
                            (sub = [] → based (framePendingSnap q !! rootFS) (comps j))
               | _ => q' = q
               end.
Proof.
  unfold captureSnapJobLocked. case_bool_decide as Hsub.
  - destruct (Validate sub) as [clean|] eqn:Hv; [|split; [apply grows_refl|done]].
    destruct (captureSubvol _ _ _ _ _) as [v [tmp|e|]]; [|split; [apply grows_refl|done]..].
    pose proof (Validate_ne _ _ Hv) as Hclean.
    split; [|split; [done|]; unfold enqueueLocked; cbn; split; [rewrite length_app; cbn; lia|]].
    + apply (grows_enqueue q _ (framePendingSnap q)); [done| |left; split; [done|]].
      * intros c p ->%list_elem_of_singleton. done.
      * unfold isSubdir. cbn. by apply bool_decide_eq_true_2.
    + eexists. rewrite lookup_app_r, Nat.sub_diag by lia. split; [done|]. by split.
  - destruct (captureSubvol _ _ _ _ _) as [v [tmp|e|]]; [|split; [apply grows_refl|done]..].
    set (base := framePendingSnap q !! rootFS). set (cs0 := [_]).
    assert (based base cs0) as Hb0 by (apply Forall_cons_2; [done|apply Forall_nil_2]).
    match goal with |- context [capture_part _ _ ?r ?w cs0 ?p compHome ?t base ?pa] =>
      pose proof (capture_part_based env r w cs0 p compHome t base pa Hb0) as Hb1;
      destruct (capture_part snapsDir env r w cs0 p compHome t base pa) as [w1 [cs1|e|]] end;
      [|split; [apply grows_refl|done]..]. cbn [snd] in Hb1.
    match goal with |- context [capture_part _ _ ?r ?w cs1 ?p compWork ?t base ?pa] =>
      pose proof (capture_part_based env r w cs1 p compWork t base pa Hb1) as Hb2;
      destruct (capture_part snapsDir env r w cs1 p compWork t base pa) as [w2 [cs2|e|]] end;
      [|split; [apply grows_refl|done]..]. cbn [snd] in Hb2.
    split; [|split; [done|]; unfold enqueueLocked; cbn; split; [rewrite length_app; cbn; lia|]].
    + apply (grows_enqueue q _ (<[rootFS := length (jobs q)]> (framePendingSnap q))); [done| |by right].
      intros c p Hc Hp. cbn [comps] in Hc. unfold based in Hb2. rewrite Forall_forall in Hb2.
      rewrite (Hb2 c Hc) in Hp. by exists rootFS.
    + eexists. rewrite lookup_app_r, Nat.sub_diag by lia. split; [done|]. by split.
Qed.

Lemma fork_grows env rands q w src path :
  let '(q', _, _) := fork_locked snapsDir env rands q w src path in grows q q'.
Proof.
  unfold fork_locked. pose proof (capture_grows env rands q w src []) as Hc.
  destruct (captureSnapJobLocked _ _ _ _ _ _ _) as [[q1 w1] [i|e|]]; [|by destruct Hc..].
  destruct Hc as [Hg (-> & Hl & _)]. destruct (jobs q1 !! length (jobs q)) as [j|]; [|done].
  destruct (cloneFrameSubvolsLocked _ _ _ _) as [w2 []]; [|done].
  destruct Hg as [Hj Hf Hp Hk Hla]. split; [exact Hj| |exact Hp| |]; cbn [set_pending_snap framePendingSnap jobs].
  - intros fr i. destruct (decide (fr = path)) as [->|Hne].
    + rewrite lookup_insert_eq. intros [= <-]. right. rewrite Hl. lia.
    + rewrite lookup_insert_ne by done. apply Hf.
  - intros fr. destruct (decide (fr = path)) as [->|Hne].
    + right. exists (length (jobs q)). rewrite lookup_insert_eq. done.
    + rewrite lookup_insert_ne by done. apply Hk.
  - intros i j' Hi Hj' Hs. destruct (decide (frame j' = path)) as [->|Hne].
    + exists (length (jobs q)). rewrite lookup_insert_eq. split; [done|]. apply lookup_lt_Some in Hj'. lia.
    + rewrite lookup_insert_ne by done. by eapply Hla.
Qed.

Lemma capture_sources_grows env rands sources : ∀ q w n taken,
  let '(q', _, _) := capture_sources snapsDir env rands q w n sources taken in grows q q'.
Proof.
  induction sources as [|s sources IH]; intros q w n taken; cbn [capture_sources]; [apply grows_refl|].
  destruct (_ || _); [apply IH|]. pose proof (capture_grows env (rands n) q w s []) as Hc.
  destruct (captureSnapJobLocked _ _ _ _ _ _ _) as [[q1 w1] [i|e|]]; [|by destruct Hc..].
  destruct Hc as [Hg _]. specialize (IH q1 w1 (S n) (<[s := i]> taken)).
  destruct (capture_sources _ _ _ _ _ _ _ _) as [[q2 w2] o]. by eapply grows_trans.
Qed.

Lemma clone_grows env rands q w dst meta s1 s2 s3 :
  let '(q', _, _) := clone_live_locked snapsDir setupMinimalRootfs env rands q w dst meta s1 s2 s3 in grows q q'.
Proof.
  unfold clone_live_locked. destruct (MkdirAll _ _ _) as [d []]; cbn [negb]; [|apply grows_refl].
  pose proof (capture_sources_grows env rands [s1; s2; s3] q (set_disk w d) 0 ∅) as Hc.
  destruct (capture_sources _ _ _ _ _ _ _ _) as [[q1 w1] [taken|]]; [|done].
  destruct (live_root _ _ _ _ _ _) as [v []]; [|done]. destruct (live_part _ _ _ _ _ _ _) as [v1 []]; [|done].
  by destruct (live_part _ _ _ _ _ _ _) as [v2 ok].
Qed.
End growth.

(** ** The invariant of the queue *)

(** How a job has ended: with an ID for each of its components, or with an error and
    nothing. *)
Definition is_id (id : gostring) : Prop := ∃ h, id = Encode h.
Definition all_ids (cs : list pendingComponent) (fin : gmap componentKind gostring) : Prop :=
  (∀ c, c ∈ cs → ∃ id, fin !! kind c = Some id) ∧
  (∀ k id, fin !! k = Some id → is_id id ∧ k ∈ kind <$> cs).
Definition ended (j : snapJob) : Prop :=
  match j_err j with None => all_ids (comps j) (finalized j) | Some _ => finalized j = ∅ end.

(** What the worker knows of the job it is busy with. *)
Definition worker_ok (wk : worker) (j : snapJob) : Prop :=
  match wk with
  | WIndex _ todo fin => fresh j ∧ ∃ pre, comps j = pre ++ todo ∧ all_ids pre fin
  | WCrashed _ => fresh j
  | WIdle => True
  | _ => done j = false ∧ ended j
  end.

(** Jobs are done in the order of the captures: those below [k] are, the next may be in
    the worker's hands, and the others wait in a row. Frames wait for unfinished jobs
    only, and jobs build on earlier ones only; a frame with an unfinished capture waits for
    one at least as late. *)
Record queue_ok (q : snapQueue) (wk : worker) (k : nat) : Prop := {
  qo_bound : (k ≤ length (jobs q))%nat;
  qo_done : ∀ i j, jobs q !! i = Some j → (i < k)%nat → done j = true ∧ ended j;
  qo_todo : ∀ i j, jobs q !! i = Some j → (k ≤ i)%nat → busy wk ≠ Some i → fresh j;
  qo_pending : pending q = match busy wk with
                           | None => seq k (length (jobs q) - k)
                           | Some _ => seq (S k) (length (jobs q) - S k)
                           end;
  qo_busy : ∀ i, busy wk = Some i → i = k ∧ ∃ j, jobs q !! i = Some j ∧ worker_ok wk j;
  qo_frames : ∀ fr i, framePendingSnap q !! fr = Some i → (k ≤ i < length (jobs q))%nat;
  qo_parents : ∀ i j c p, jobs q !! i = Some j → c ∈ comps j → parentJob c = Some p → (p < i)%nat;
  qo_latest : ∀ i j, jobs q !! i = Some j → (k ≤ i)%nat → isSubdir j = false →
                ∃ i', framePendingSnap q !! frame j = Some i' ∧ (i ≤ i')%nat;
}.

Lemma start_ok {V} (w : world V) : queue_ok (s_queue (start w)) (s_worker (start w)) 0.
Proof. by split. Qed.

Lemma grows_ok q q' wk k : grows q q' → queue_ok q wk k → queue_ok q' wk k.
Proof.
  intros Hg [Hb Hd Ht Hp Hw Hf Hpa Hla]. pose proof (grows_length _ _ Hg) as Hl.
  assert (∀ i j, jobs q' !! i = Some j → (jobs q !! i = Some j ∧ i < length (jobs q))%nat ∨
    (length (jobs q) ≤ i ∧ fresh j)%nat) as Hold.
  { intros i j Hj. destruct (decide (i < length (jobs q))%nat) as [Hi|Hi].
    - left. by rewrite (grows_lookup _ _ _ Hg Hi) in Hj.
    - right. split; [lia|]. destruct Hg as [(new & Hnew & _ & Hn) _ _ _ _].
      rewrite Hnew, lookup_app_r in Hj by lia. rewrite Forall_forall in Hn. apply Hn. by eapply list_elem_of_lookup_2. }
  assert (∀ i, busy wk = Some i → (i < length (jobs q))%nat) as Hbusy.
  { intros i Hi. destruct (Hw i Hi) as (_ & j & Hj & _). by eapply lookup_lt_Some. }
  split.
  - lia.
  - intros i j Hj Hi. destruct (Hold i j Hj) as [[Hj' _]|[Hi' _]]; [by eapply Hd|lia].
  - intros i j Hj Hi Hne. destruct (Hold i j Hj) as [[Hj' _]|[_ Hfr]]; [by eapply Ht|done].
  - destruct Hg as [(new & Hj & -> & _) _ _ _ _]. rewrite Hp, Hj, length_app. destruct (busy wk) as [b|] eqn:Hbw.
    + destruct (Hw b eq_refl) as [-> _]. specialize (Hbusy k eq_refl).
      replace (length (jobs q) + length new - S k)%nat with (length (jobs q) - S k + length new)%nat by lia.
      rewrite seq_app. f_equal. f_equal. lia.
    + replace (length (jobs q) + length new - k)%nat with (length (jobs q) - k + length new)%nat by lia.
      rewrite seq_app. f_equal. f_equal. lia.
  - intros i Hi. destruct (Hw i Hi) as [-> (j & Hj & Hok)]. split; [done|]. exists j. split; [|done].
    rewrite (grows_lookup _ _ _ Hg); [done|]. by apply Hbusy.
  - intros fr i Hi. apply (gr_fps _ _ Hg) in Hi as [Hi|Hi]; [specialize (Hf fr i Hi)|]; lia.
  - intros i j c p Hj Hc Hpc. destruct (decide (length (jobs q) ≤ i)%nat) as [Hi|Hi].
    + destruct (gr_parents _ _ Hg i j c p Hi Hj Hc Hpc) as [[fr Hfr]|]; [specialize (Hf fr p Hfr)|]; lia.
    + rewrite (grows_lookup _ _ _ Hg) in Hj by lia. by eapply Hpa.
  - intros i j Hj Hi Hs. destruct (decide (length (jobs q) ≤ i)%nat) as [Hi2|Hi2]; [by eapply (gr_latest _ _ Hg)|].
    rewrite (grows_lookup _ _ _ Hg) in Hj by lia. destruct (Hla i j Hj Hi Hs) as (i1 & Hi1 & Hle).
    destruct (gr_kept _ _ Hg (frame j)) as [->|(i' & Hi' & Hl')]; [by exists i1|]. exists i'. split; [done|lia].
Qed.

(** The worker's step keeps the jobs but its own. *)
Lemma queue_ok_worker q wk wk' k i j :
  queue_ok q wk k → busy wk = Some i → busy wk' = Some i → jobs q !! i = Some j → worker_ok wk' j → queue_ok q wk' k.
Proof.
  intros [Hb Hd Ht Hp Hw Hf Hpa Hla] H1 H2 Hj Hok. split; try done.
  - intros i' j' Hj' Hi Hne. apply (Ht i' j'); [done..|]. by rewrite H1, <- H2.
  - by rewrite H2, Hp, H1.
  - intros i' Hi'. rewrite H2 in Hi'. injection Hi' as <-. split; [by eapply Hw|]. eauto.
Qed.

Lemma queue_ok_set_job q wk wk' k i j j' :
  queue_ok q wk k → busy wk = Some i → busy wk' = Some i → jobs q !! i = Some j →
  comps j' = comps j → frame j' = frame j → subdir j' = subdir j → worker_ok wk' j' → queue_ok (set_job q i j') wk' k.
Proof.
  intros [Hb Hd Ht Hp Hw Hf Hpa Hla] H1 H2 Hj Hc Hfr Hsd Hok. destruct (Hw i H1) as [-> _].
  pose proof (lookup_lt_Some _ _ _ Hj) as Hlt. split; cbn [set_job jobs pending framePendingSnap]; rewrite ?length_insert; try done.
  - intros i' ji Hji Hi. rewrite list_lookup_insert_ne in Hji by lia. by eapply Hd.
  - intros i' ji Hji Hi Hne. rewrite list_lookup_insert_ne in Hji by (intros ->; by rewrite H2 in Hne).
    apply (Ht i' ji); [done..|]. by rewrite H1, <- H2.
  - by rewrite H2, Hp, H1.
  - intros i' Hi'. rewrite H2 in Hi'. injection Hi' as <-. split; [done|]. exists j'. split; [|done].
    by apply list_lookup_insert_eq.
  - intros i' ji c p Hji Hci Hpc. destruct (decide (i' = k)) as [->|Hne].
    + rewrite list_lookup_insert_eq in Hji by done. injection Hji as <-. rewrite Hc in Hci. by eapply Hpa.
    + rewrite list_lookup_insert_ne in Hji by done. by eapply Hpa.
  - intros i' ji Hji Hi Hs. destruct (decide (i' = k)) as [->|Hne].
    + rewrite list_lookup_insert_eq in Hji by done. injection Hji as <-. rewrite Hfr. unfold isSubdir in Hs. rewrite Hsd in Hs.
      by eapply Hla.
    + rewrite list_lookup_insert_ne in Hji by done. by eapply Hla.
Qed.

Lemma queue_ok_finish q wk k i j :
  queue_ok q wk k → busy wk = Some i → jobs q !! i = Some j → ended j → queue_ok (finishJob q i) WIdle (S k).
Proof.
  intros [Hb Hd Ht Hp Hw Hf Hpa Hla] H1 Hj He. destruct (Hw i H1) as [-> _].
  pose proof (lookup_lt_Some _ _ _ Hj) as Hlt. split; cbn [finishJob jobs pending framePendingSnap busy]; rewrite ?length_alter; try done.
  - intros i' ji Hji Hi. destruct (decide (i' = k)) as [->|Hne].
    + rewrite list_lookup_alter_eq, Hj in Hji. injection Hji as <-. done.
    + rewrite list_lookup_alter_ne in Hji by done. apply (Hd i'); [done|lia].
  - intros i' ji Hji Hi _. rewrite list_lookup_alter_ne in Hji by lia. apply (Ht i'); [done|lia|].
    rewrite H1. injection 1. lia.
  - rewrite Hp, H1. done.
  - intros fr i' [Hi Hne]%map_lookup_filter_Some. cbn in Hne. specialize (Hf fr i' Hi). lia.
  - intros i' ji c p Hji Hc Hpc. destruct (decide (i' = k)) as [->|Hne].
    + rewrite list_lookup_alter_eq, Hj in Hji. injection Hji as <-. by eapply Hpa.
    + rewrite list_lookup_alter_ne in Hji by done. by eapply Hpa.
  - intros i' ji Hji Hi Hs. rewrite list_lookup_alter_ne in Hji by lia.
    destruct (Hla i' ji Hji ltac:(lia) Hs) as (i1 & Hi1 & Hle). exists i1. split; [|done].
    apply map_lookup_filter_Some. split; [done|]. cbn. lia.
Qed.

Lemma queue_ok_pop q k i rest j :
  queue_ok q WIdle k → pending q = i :: rest → jobs q !! i = Some j →
  queue_ok (MkQueue (jobs q) rest (framePendingSnap q)) (WIndex i (comps j) ∅) k.
Proof.
  intros [Hb Hd Ht Hp Hw Hf Hpa Hla] Hq Hj. cbn [busy] in Hp. rewrite Hp in Hq.
  destruct (length (jobs q) - k)%nat as [|m] eqn:Hm; [done|]. cbn [seq] in Hq. injection Hq as <- Hrest.
  split; cbn [jobs pending framePendingSnap busy]; try done.
  - intros i' ji Hji Hi Hne. by apply (Ht i').
  - rewrite <- Hrest. f_equal. lia.
  - intros i' [= <-]. split; [done|]. exists j. split; [done|]. split; [by apply (Ht k)|]. exists []. split; [done|].
    split; [by intros c ?%not_elem_of_nil|]. intros kd id Hx. by rewrite lookup_empty in Hx.
Qed.

Section runs.
Context `{Digest} `{Volumes V} {text_ok : gostring → Prop} {time_ok : Z → Prop}
  `{!Json SnapMeta (meta_ok text_ok)} `{!Json Frame (frame_ok text_ok time_ok)}.
Variables (Major Minor : Z → Z) (zeroTime : Z) (snapsDir : gostring) (setupMinimalRootfs : V → gostring → V * bool).

Abbreviation worker_step' := (worker_step Major Minor zeroTime snapsDir).
Abbreviation job_step' := (job_step Major Minor zeroTime snapsDir).
Abbreviation step' := (step Major Minor zeroTime snapsDir setupMinimalRootfs).
Abbreviation run' := (run Major Minor zeroTime snapsDir setupMinimalRootfs).

Lemma all_ids_snoc pre c fin id :
  all_ids pre fin → is_id id → all_ids (pre ++ [c]) (<[kind c := id]> fin).
Proof.
  intros [H1 H2] Hid. split.
  - intros c' Hc'. destruct (decide (kind c' = kind c)) as [->|Hne]; [rewrite lookup_insert_eq; eauto|].
    rewrite lookup_insert_ne by done. apply elem_of_app in Hc' as [Hc'|Hc']; [by apply H1|].
    apply list_elem_of_singleton in Hc' as ->. done.
  - intros k id'. destruct (decide (k = kind c)) as [->|Hne].
    + rewrite lookup_insert_eq. intros [= <-]. split; [done|]. rewrite fmap_app. apply elem_of_app. right. by apply list_elem_of_singleton.
    + rewrite lookup_insert_ne by done. intros [? ?]%H2. split; [done|]. rewrite fmap_app. apply elem_of_app. by left.
Qed.

(** One step of the worker on a job it holds keeps the invariant. *)
Lemma job_step_ok e env (s : state V) i j k :
  queue_ok (s_queue s) (s_worker s) k → busy (s_worker s) = Some i → jobs (s_queue s) !! i = Some j →
  let s' := job_step' e env s i j in
  queue_ok (s_queue s') (s_worker s') (if decide (busy (s_worker s') = None) then S k else k) ∧
  s_forks s' = s_forks s.
Proof.
  intros Hq Hb Hj s'. destruct (qo_busy _ _ _ Hq i Hb) as (-> & j' & Hj' & Hw).
  rewrite Hj in Hj'. injection Hj' as <-. unfold s', job_step.
  destruct (s_worker s) as [|i' todo fin|i' h|i' h|i' h|i' h ff|i' h ff|i'|i'] eqn:Hwk; cbn [busy] in Hb;
    [done|injection Hb as ->..]; cbn [worker_ok] in Hw.
  - destruct Hw as (Hf & pre & Hc & Hids). destruct todo as [|c todo].
    + split; [|done]. rewrite app_nil_r in Hc. cbn [s_queue s_worker set_queue set_worker].
      destruct (isSubdir (indexed j fin)); cbn [busy]; rewrite decide_False by done;
        (eapply queue_ok_set_job; [exact Hq|done..|]); cbn [worker_ok]; destruct Hf as (Hd & Hfin & He);
        (split; [exact Hd|]); unfold ended, indexed, set_result; cbn [j_err comps finalized]; rewrite He, Hc; exact Hids.
    + pose proof (finalize_only Major Minor zeroTime snapsDir e (s_world s) (tmpPath c) (subdir j)
        (resolve_parent (s_queue s) c) (stored_list (c_taints c))) as Hfin.
      destruct (indexAndFinalizeSubvol _ _ _ _ _ _ _ _ _ _) as [w [id|err|]]; cbn [s_queue s_worker s_forks set_queue set_worker set_world busy];
        (rewrite decide_False by done); (split; [|done]).
      * eapply queue_ok_worker; [exact Hq|done..|]. cbn [worker_ok]. split; [done|]. exists (pre ++ [c]).
        rewrite <- app_assoc. split; [done|]. by apply all_ids_snoc; [|apply Hfin].
      * eapply queue_ok_set_job; [exact Hq|done..|]. cbn [worker_ok]. destruct Hf as (Hd & Hfe & He).
        split; [exact Hd|]. unfold ended, set_err. cbn [j_err finalized]. exact Hfe.
      * eapply queue_ok_worker; [exact Hq|done..|]. exact Hf.
  - cbn [s_queue s_worker s_forks set_worker set_world busy]. rewrite decide_False by done. split; [|done].
    by eapply queue_ok_worker.
  - cbn [s_queue s_worker s_forks set_worker set_world]. split; [|done].
    destruct (isSubdir j); cbn [busy]; (rewrite decide_False by done); by eapply queue_ok_worker.
  - cbn [s_queue s_worker s_forks set_worker busy]. rewrite decide_False by done. split; [|done]. by eapply queue_ok_worker.
  - destruct ff as [|f ff]; cbn [s_queue s_worker s_forks set_worker set_world busy]; (rewrite decide_False by done);
      (split; [|done]); by eapply queue_ok_worker.
  - destruct ff as [|f ff]; cbn [s_queue s_worker s_forks set_worker set_world busy]; (rewrite decide_False by done);
      (split; [|done]); by eapply queue_ok_worker.
  - cbn [s_queue s_worker s_forks set_worker set_queue busy]. rewrite decide_True by done. split; [|done].
    eapply queue_ok_finish; [exact Hq|done|done|]. by apply Hw.
  - rewrite Hwk. cbn [busy]. rewrite decide_False by done. split; [|done]. exact Hq.
Qed.

(** Whatever thread moves, the invariant holds, and jobs stay done. *)
Lemma step_ok lbl (s s' : state V) k :
  queue_ok (s_queue s) (s_worker s) k → step' lbl s = Some s' → ∃ k', (k ≤ k')%nat ∧ queue_ok (s_queue s') (s_worker s') k'.
Proof.
  intros Hq. assert (∀ q, grows (s_queue s) q → ∃ k', (k ≤ k')%nat ∧ queue_ok q (s_worker s) k') as Hg.
  { intros q Hg. exists k. split; [done|]. by eapply grows_ok. }
  destruct lbl as [e env|env rands fr sub|env fr t|env src path|n env rands|n env now|n env|env rands dst meta s1 s2 s3]; cbn [step].
  - unfold worker_step. destruct (s_worker s) as [|i todo fin|i h|i h|i h|i h ff|i h ff|i|i] eqn:Hwk; [|..|done].
    { destruct (pending (s_queue s)) as [|i rest] eqn:Hp; [done|].
      destruct (jobs (s_queue s) !! i) as [j|] eqn:Hj; [|done]. intros [= <-]. exists k. split; [done|]. by apply queue_ok_pop. }
    all: cbn [busy]; cbn; destruct (jobs (s_queue s) !! i) as [j|] eqn:Hj; [|done]; cbn; intros [= <-];
      rewrite <- Hwk in Hq; destruct (job_step_ok e env s i j k Hq) as [Hok _]; [by rewrite Hwk|done|];
      eexists; (split; [|exact Hok]); destruct (decide _); lia.
  - pose proof (capture_grows snapsDir env rands (s_queue s) (s_world s) fr sub) as Hc.
    destruct (captureSnapJobLocked _ _ _ _ _ _ _) as [[q w] r]. destruct Hc as [Hc _]. intros [= <-]. by apply Hg.
  - intros [= <-]. exists k. by split.
  - intros [= <-]. exists k. by split.
  - destruct (s_forks s !! n) as [f|]; [|done]. cbn. unfold fork_step. destruct (fk_stage f); [|done..].
    pose proof (fork_grows snapsDir env rands (s_queue s) (s_world s) (fk_src f) (fk_path f)) as Hc.
    destruct (fork_locked _ _ _ _ _ _ _) as [[q w] [i|]]; intros [= <-]; by apply Hg.
  - destruct (s_forks s !! n) as [f|]; [|done]. cbn. unfold fork_step. destruct (fk_stage f); try done.
    + destruct (setup_subvols _ _) as [v []]; intros [= <-]; exists k; by split.
    + intros [= <-]. exists k. by split.
  - destruct (s_forks s !! n) as [f|]; [|done]. cbn. unfold fork_step. destruct (fk_stage f); try done.
    intros [= <-]. exists k. by split.
  - pose proof (clone_grows snapsDir setupMinimalRootfs env rands (s_queue s) (s_world s) dst meta s1 s2 s3) as Hc.
    destruct (clone_live_locked _ _ _ _ _ _ _ _ _ _ _) as [[q w] []]; intros [= <-]; by apply Hg.
Qed.

Lemma run_ok l : ∀ (s s' : state V) k,
  queue_ok (s_queue s) (s_worker s) k → run' l s = Some s' → ∃ k', (k ≤ k')%nat ∧ queue_ok (s_queue s') (s_worker s') k'.
Proof.
  induction l as [|lbl l IH]; intros s s' k Hq; cbn [run]; [intros [= <-]; by exists k|].
  destruct (step' lbl s) as [s1|] eqn:Hs; [|done]. cbn. intros Hr.
  destruct (step_ok _ _ _ _ Hq Hs) as (k1 & Hk1 & Hq1). destruct (IH _ _ _ Hq1 Hr) as (k2 & Hk2 & Hq2).
  exists k2. split; [lia|done].
Qed.
End runs.

(** ** How long a job can take

    The worker's steps that are left until a job is done: those of the job at hand, and
    for every job before it in the queue one to take it, one for each component, six for
    the rest and two for each frame that may have been forked from it. *)

Definition waiting (q : snapQueue) (i : nat) : nat := size (filter (λ p, p.2 = i) (framePendingSnap q)).
Definition job_cost (q : snapQueue) (i : nat) : nat :=
  match jobs q !! i with Some j => 7 + length (comps j) + 2 * waiting q i | None => 0 end.
Definition busy_cost (q : snapQueue) (wk : worker) : nat :=
  match wk with
  | WIdle | WCrashed _ => 0
  | WIndex i todo _ => length todo + 6 + 2 * waiting q i
  | WStamp i _ => 5 + 2 * waiting q i
  | WSidecar i _ => 4 + 2 * waiting q i
  | WForks i _ => 3 + 2 * waiting q i
  | WForkStamp _ _ ff => 2 + 2 * length ff
  | WForkSidecar _ _ [] => 2
  | WForkSidecar _ _ ff => 1 + 2 * length ff
  | WFinish _ => 1
  end.
Definition is_done (q : snapQueue) (i : nat) : bool := match jobs q !! i with Some j => done j | None => false end.
Definition steps_left (q : snapQueue) (wk : worker) (i : nat) : nat :=
  if is_done q i then 0
  else busy_cost q wk + sum_list (job_cost q <$> filter (λ p, (p ≤ i)%nat) (pending q)).

Definition is_worker (lbl : label) : bool := match lbl with LWorker _ _ => true | _ => false end.
Definition worker_steps (l : list label) : nat := length (filter (λ lbl, is_worker lbl = true) l).

Lemma waiting_grows q q' i : grows q q' → (i < length (jobs q))%nat → (waiting q' i ≤ waiting q i)%nat.
Proof.
  intros Hg Hi. unfold waiting. apply map_subseteq_size. apply map_subseteq_spec. intros fr i' [Hf Hp]%map_lookup_filter_Some.
  cbn in Hp. subst i'. apply map_lookup_filter_Some. split; [|done].
  apply (gr_fps _ _ Hg) in Hf as [Hf|Hf]; [done|lia].
Qed.

Lemma job_cost_grows q q' i : grows q q' → (i < length (jobs q))%nat → (job_cost q' i ≤ job_cost q i)%nat.
Proof.
  intros Hg Hi. unfold job_cost. rewrite (grows_lookup _ _ _ Hg Hi).
  pose proof (waiting_grows _ _ _ Hg Hi). destruct (jobs q !! i); lia.
Qed.

Lemma sum_list_le {A} (f g : A → nat) l : (∀ x, x ∈ l → f x ≤ g x)%nat → (sum_list (f <$> l) ≤ sum_list (g <$> l))%nat.
Proof.
  induction l as [|x l IH]; intros Hfg; [done|]. rewrite !fmap_cons. cbn.
  assert (f x ≤ g x)%nat by (apply Hfg; by left).
  assert (sum_list (f <$> l) ≤ sum_list (g <$> l))%nat by (apply IH; intros y Hy; apply Hfg; by right). lia.
Qed.

Lemma filter_later i a n : (i < a)%nat → filter (λ p, (p ≤ i)%nat) (seq a n) = [].
Proof.
  revert a. induction n as [|n IH]; intros a Ha; [done|]. cbn [seq].
  rewrite filter_cons_False by lia. apply IH. lia.
Qed.

(** Other threads make no job wait longer. *)
Lemma steps_left_grows q q' wk k i :
  queue_ok q wk k → grows q q' → (i < length (jobs q))%nat → (steps_left q' wk i ≤ steps_left q wk i)%nat.
Proof.
  intros Hq Hg Hi. unfold steps_left, is_done. rewrite (grows_lookup _ _ _ Hg Hi).
  destruct (match jobs q !! i with Some j => done j | None => false end); [lia|].
  assert (busy_cost q' wk ≤ busy_cost q wk)%nat as Hb.
  { assert (∀ b, busy wk = Some b → (waiting q' b ≤ waiting q b)%nat) as Hw.
    { intros b Hb. apply (waiting_grows _ _ _ Hg). destruct (qo_busy _ _ _ Hq b Hb) as (_ & j' & Hj' & _).
      by eapply lookup_lt_Some. }
    destruct wk; cbn [busy_cost busy] in *; try lia; specialize (Hw _ eq_refl); lia. }
  destruct (gr_jobs _ _ Hg) as (new & _ & -> & _). rewrite filter_app, filter_later, app_nil_r by done.
  apply Nat.add_le_mono; [done|]. apply sum_list_le. intros p Hp. apply list_elem_of_filter in Hp as [Hp _].
  apply (job_cost_grows _ _ _ Hg). lia.
Qed.

Lemma forked_frames_waiting q i fr : (length (forkedFramesForJob q i fr) ≤ waiting q i)%nat.
Proof.
  unfold forkedFramesForJob, waiting. rewrite length_fmap, <- length_map_to_list.
  apply submseteq_length, NoDup_submseteq; [apply NoDup_filter, NoDup_map_to_list|].
  intros [f i'] [[Hi _] Hin]%list_elem_of_filter. apply elem_of_map_to_list in Hin. cbn in Hi.
  apply elem_of_map_to_list, map_lookup_filter_Some. by split.
Qed.

Lemma job_cost_set_job q i j j' p : jobs q !! i = Some j → comps j' = comps j → job_cost (set_job q i j') p = job_cost q p.
Proof.
  intros Hj Hc. unfold job_cost, waiting. cbn [set_job jobs framePendingSnap].
  destruct (decide (p = i)) as [->|Hne]; [|by rewrite list_lookup_insert_ne].
  rewrite list_lookup_insert_eq by (by eapply lookup_lt_Some). by rewrite Hj, Hc.
Qed.

Lemma waiting_finish q i p : (waiting (finishJob q i) p ≤ waiting q p)%nat.
Proof.
  unfold waiting. apply map_subseteq_size, map_subseteq_spec. intros fr i' [Hf Hp]%map_lookup_filter_Some.
  cbn [finishJob framePendingSnap] in Hf. apply map_lookup_filter_Some in Hf as [Hf _]. apply map_lookup_filter_Some. by split.
Qed.

Lemma job_cost_finish q i p : (job_cost (finishJob q i) p ≤ job_cost q p)%nat.
Proof.
  unfold job_cost. pose proof (waiting_finish q i p) as Hw. cbn [finishJob jobs].
  destruct (decide (p = i)) as [->|Hne].
  - rewrite list_lookup_alter_eq. destruct (jobs q !! i) as [j|]; cbn; [|done]. lia.
  - rewrite list_lookup_alter_ne by done. destruct (jobs q !! p); lia.
Qed.

Lemma is_done_bound q wk k i : queue_ok q wk k → (i < length (jobs q))%nat → is_done q i = false → (k ≤ i)%nat.
Proof.
  intros Hq Hi Hd. destruct (decide (k ≤ i)%nat) as [|Hn]; [done|]. exfalso.
  destruct (lookup_lt_is_Some_2 _ _ Hi) as [j Hj]. unfold is_done in Hd. rewrite Hj in Hd.
  destruct (qo_done _ _ _ Hq i j Hj) as [Hdone _]; [lia|]. congruence.
Qed.

Lemma worker_ok_undone wk i j : busy wk = Some i → worker_ok wk j → done j = false.
Proof. destruct wk; try done; intros _ Hw; try (by destruct Hw as [? _]). by destruct Hw as [[? _] _]. Qed.

Section liveness.
Context `{Digest} `{Volumes V} {text_ok : gostring → Prop} {time_ok : Z → Prop}
  `{!Json SnapMeta (meta_ok text_ok)} `{!Json Frame (frame_ok text_ok time_ok)}.
Variables (Major Minor : Z → Z) (zeroTime : Z) (snapsDir : gostring) (setupMinimalRootfs : V → gostring → V * bool).

Definition crashed (s : state V) : Prop := ∃ i, s_worker s = WCrashed i.

(** A step that leaves the jobs' costs and the queue alone, and the worker nearer. *)
Lemma steps_left_worker q q' wk wk' i :
  is_done q i = false → is_done q' i = false → pending q' = pending q →
  (∀ p, job_cost q' p ≤ job_cost q p)%nat → (S (busy_cost q' wk') ≤ busy_cost q wk)%nat →
  (S (steps_left q' wk' i) ≤ steps_left q wk i)%nat.
Proof.
  intros H1 H2 Hp Hc Hb. unfold steps_left. rewrite H1, H2, Hp.
  pose proof (sum_list_le (job_cost q') (job_cost q) (filter (λ p, (p ≤ i)%nat) (pending q)) (λ p _, Hc p)). lia.
Qed.

(** A worker's step brings every job nearer that is not done. *)
Lemma worker_step_nearer e env (s s' : state V) k i :
  queue_ok (s_queue s) (s_worker s) k → (i < length (jobs (s_queue s)))%nat → is_done (s_queue s) i = false →
  worker_step Major Minor zeroTime snapsDir e env s = Some s' → ¬ crashed s' →
  is_done (s_queue s') i = true ∨
  (S (steps_left (s_queue s') (s_worker s') i) ≤ steps_left (s_queue s) (s_worker s) i)%nat.
Proof.
  intros Hq Hi Hnd Hs Hnc. pose proof (is_done_bound _ _ _ _ Hq Hi Hnd) as Hk. unfold worker_step in Hs.
  assert (∀ wk w j, busy (s_worker s) = Some j → s' = set_worker (set_world s w) wk →
    (S (busy_cost (s_queue s) wk) ≤ busy_cost (s_queue s) (s_worker s))%nat →
    is_done (s_queue s') i = true ∨
    (S (steps_left (s_queue s') (s_worker s') i) ≤ steps_left (s_queue s) (s_worker s) i)%nat) as Hsame.
  { intros wk w j _ -> Hb. right. by apply steps_left_worker. }
  destruct (s_worker s) as [|b todo fin|b h|b h|b h|b h ff|b h ff|b|b] eqn:Hwk; [|..|done].
  { destruct (pending (s_queue s)) as [|b rest] eqn:Hp; [done|].
    destruct (jobs (s_queue s) !! b) as [j|] eqn:Hj; [|done]. injection Hs as <-. right.
    assert (b = k) as ->.
    { pose proof (qo_pending _ _ _ Hq) as Hpq. cbn [busy] in Hpq. rewrite Hp in Hpq.
      destruct (length (jobs (s_queue s)) - k)%nat; [done|]. cbn in Hpq. by injection Hpq. }
    unfold steps_left. cbn [s_queue s_worker set_worker set_queue].
    change (is_done (MkQueue _ _ _) i) with (is_done (s_queue s) i). rewrite Hnd, Hp.
    cbn [pending]. rewrite filter_cons_True by done. rewrite fmap_cons. cbn [sum_list sum_list_with foldr].
    change (job_cost (MkQueue _ _ _)) with (job_cost (s_queue s)).
    assert (job_cost (s_queue s) k = 7 + length (comps j) + 2 * waiting (s_queue s) k)%nat as Hjc by (unfold job_cost; by rewrite Hj).
    cbn [busy_cost]. unfold waiting in *. cbn [framePendingSnap]. cbn. rewrite Hjc. lia. }
  all: cbn [busy] in Hs; cbn in Hs; destruct (jobs (s_queue s) !! b) as [j|] eqn:Hj; [|done]; cbn in Hs;
    injection Hs as Hs; unfold job_step in Hs; rewrite Hwk in Hs.
  - destruct todo as [|c todo].
    + subst s'. right. cbn [s_queue s_worker set_worker set_queue].
      assert (∀ p, job_cost (set_job (s_queue s) b (indexed j fin)) p = job_cost (s_queue s) p) as Hc
        by (intros p; by eapply job_cost_set_job).
      apply steps_left_worker; [done| |done|by intros p; rewrite Hc|].
      * unfold is_done. cbn [set_job jobs]. destruct (decide (i = b)) as [->|Hne].
        -- rewrite list_lookup_insert_eq by done. unfold is_done in Hnd. rewrite Hj in Hnd. exact Hnd.
        -- rewrite list_lookup_insert_ne by done. exact Hnd.
      * destruct (isSubdir _); cbn [busy_cost length]; unfold waiting; cbn [set_job framePendingSnap]; lia.
    + destruct (indexAndFinalizeSubvol _ _ _ _ _ _ _ _ _ _) as [w [id|err|]].
      * eapply Hsame; [done|by symmetry|]. cbn [busy_cost length]. lia.
      * subst s'. right. cbn [s_queue s_worker set_worker set_queue].
        apply steps_left_worker; [done| |done|intros p; by erewrite job_cost_set_job|].
        -- unfold is_done. cbn [set_job jobs]. destruct (decide (i = b)) as [->|Hne].
           ++ rewrite list_lookup_insert_eq by done. unfold is_done in Hnd. rewrite Hj in Hnd. exact Hnd.
           ++ rewrite list_lookup_insert_ne by done. exact Hnd.
        -- cbn [busy_cost length]. lia.
      * exfalso. apply Hnc. subst s'. by exists b.
  - eapply Hsame; [done|by symmetry|]. cbn [busy_cost]. lia.
  - eapply Hsame; [done|by symmetry|]. destruct (isSubdir j); cbn [busy_cost]; lia.
  - eapply (Hsame _ (s_world s)); [done|by rewrite <- Hs; destruct s|]. cbn [busy_cost].
    pose proof (forked_frames_waiting (s_queue s) b (frame j)). lia.
  - destruct ff as [|f ff]; [eapply (Hsame _ (s_world s)); [done|by rewrite <- Hs; destruct s|]|eapply Hsame; [done|by symmetry|]];
      cbn [busy_cost length]; lia.
  - destruct ff as [|f ff]; [eapply (Hsame _ (s_world s)); [done|by rewrite <- Hs; destruct s|]|eapply Hsame; [done|by symmetry|]];
      cbn [busy_cost length]; lia.
  - subst s'. cbn [s_queue s_worker set_worker set_queue].
    destruct (decide (i = b)) as [->|Hne].
    + left. unfold is_done. cbn [finishJob jobs]. rewrite list_lookup_alter_eq, Hj. done.
    + right. apply steps_left_worker; [done| |done|intros p; apply job_cost_finish|cbn [busy_cost]; lia].
      unfold is_done. cbn [finishJob jobs]. rewrite list_lookup_alter_ne by done. exact Hnd.
Qed.

Lemma step_grows lbl (s s' : state V) :
  is_worker lbl = false → step Major Minor zeroTime snapsDir setupMinimalRootfs lbl s = Some s' →
  grows (s_queue s) (s_queue s') ∧ s_worker s' = s_worker s.
Proof.
  intros Hl Hs. destruct lbl as [e env|env rands fr sub|env fr t|env src path|n env rands|n env now|n env|env rands dst meta s1 s2 s3];
    [done|..]; cbn [step] in Hs.
  - pose proof (capture_grows snapsDir env rands (s_queue s) (s_world s) fr sub) as Hc.
    destruct (captureSnapJobLocked _ _ _ _ _ _ _) as [[q w] r]. destruct Hc as [Hc _]. by injection Hs as <-.
  - injection Hs as <-. split; [apply grows_refl|done].
  - injection Hs as <-. split; [apply grows_refl|done].
  - destruct (s_forks s !! n) as [f|]; [|done]. cbn in Hs. unfold fork_step in Hs. destruct (fk_stage f); [|done..].
    pose proof (fork_grows snapsDir env rands (s_queue s) (s_world s) (fk_src f) (fk_path f)) as Hc.
    destruct (fork_locked _ _ _ _ _ _ _) as [[q w] [i|]]; by injection Hs as <-.
  - destruct (s_forks s !! n) as [f|]; [|done]. cbn in Hs. unfold fork_step in Hs. destruct (fk_stage f); try done.
    + destruct (setup_subvols _ _) as [v []]; injection Hs as <-; (split; [apply grows_refl|done]).
    + injection Hs as <-. split; [apply grows_refl|done].
  - destruct (s_forks s !! n) as [f|]; [|done]. cbn in Hs. unfold fork_step in Hs. destruct (fk_stage f); try done.
    injection Hs as <-. split; [apply grows_refl|done].
  - pose proof (clone_grows snapsDir setupMinimalRootfs env rands (s_queue s) (s_world s) dst meta s1 s2 s3) as Hc.
    destruct (clone_live_locked _ _ _ _ _ _ _ _ _ _ _) as [[q w] []]; by injection Hs as <-.
Qed.

Lemma crashed_stays lbl (s s' : state V) :
  crashed s → step Major Minor zeroTime snapsDir setupMinimalRootfs lbl s = Some s' → crashed s'.
Proof.
  intros [i Hi] Hs. destruct (is_worker lbl) eqn:Hl.
  - destruct lbl; try done. cbn [step] in Hs. unfold worker_step in Hs. by rewrite Hi in Hs.
  - destruct (step_grows _ _ _ Hl Hs) as [_ Hw]. exists i. by rewrite Hw.
Qed.

(** No worker panics: indexing does not, and nothing else it does can. *)
Lemma never_crashes lbl (s s' : state V) :
  ¬ crashed s → step Major Minor zeroTime snapsDir setupMinimalRootfs lbl s = Some s' → ¬ crashed s'.
Proof.
  intros Hn Hs. destruct (is_worker lbl) eqn:Hl.
  2: { destruct (step_grows _ _ _ Hl Hs) as [_ Hw]. unfold crashed in *. by rewrite Hw. }
  destruct lbl; try done. cbn [step] in Hs. unfold worker_step in Hs.
  destruct (s_worker s) as [|b todo fin|b h|b h|b h|b h ff|b h ff|b|b] eqn:Hwk; [|..|done].
  { destruct (pending (s_queue s)) as [|b rest]; [done|]. destruct (jobs (s_queue s) !! b); [|done]. injection Hs as <-. by intros [? ?]. }
  all: cbn [busy] in Hs; cbn in Hs; destruct (jobs (s_queue s) !! b) as [j|]; [|done]; cbn in Hs;
    injection Hs as <-; unfold job_step; rewrite Hwk.
  - destruct todo as [|c todo]; [by destruct (isSubdir _); intros [? ?]|].
    pose proof (finalize_no_panic Major Minor zeroTime snapsDir e (s_world s) (tmpPath c) (subdir j) (resolve_parent (s_queue s) c)
      (stored_list (c_taints c))) as Hp.
    destruct (indexAndFinalizeSubvol _ _ _ _ _ _ _ _ _ _) as [w [id|err|]]; [by intros [? ?]|by intros [? ?]|done].
  - by intros [? ?].
  - by destruct (isSubdir _); intros [? ?].
  - by intros [? ?].
  - by destruct ff; intros [? ?].
  - by destruct ff; intros [? ?].
  - by intros [? ?].
Qed.

Lemma run_never_crashes l : ∀ s s' : state V,
  ¬ crashed s → run Major Minor zeroTime snapsDir setupMinimalRootfs l s = Some s' → ¬ crashed s'.
Proof.
  induction l as [|lbl l IH]; intros s s' Hn; cbn [run]; [by intros [= <-]|].
  destruct (step _ _ _ _ _ lbl s) as [s1|] eqn:Hs; [|done]. cbn [mbind option_bind]. apply IH. by eapply never_crashes.
Qed.

Lemma done_stays lbl (s s' : state V) k i :
  queue_ok (s_queue s) (s_worker s) k → is_done (s_queue s) i = true →
  step Major Minor zeroTime snapsDir setupMinimalRootfs lbl s = Some s' → is_done (s_queue s') i = true.
Proof.
  intros Hq Hd Hs. destruct (step_ok _ _ _ _ _ _ _ _ _ Hq Hs) as (k' & Hk & Hq').
  unfold is_done in Hd. destruct (jobs (s_queue s) !! i) as [j|] eqn:Hj; [|done].
  assert (i < k)%nat as Hi.
  { destruct (decide (i < k)%nat) as [|Hn]; [done|]. exfalso. destruct (decide (busy (s_worker s) = Some i)) as [Hb|Hb].
    - destruct (qo_busy _ _ _ Hq i Hb) as (_ & j' & Hj' & Hw). rewrite Hj in Hj'. injection Hj' as <-.
      pose proof (worker_ok_undone _ _ _ Hb Hw). congruence.
    - destruct (qo_todo _ _ _ Hq i j Hj ltac:(lia) Hb) as [Hf _]. congruence. }
  pose proof (qo_bound _ _ _ Hq'). destruct (lookup_lt_is_Some_2 (jobs (s_queue s')) i) as [j' Hj']; [lia|].
  unfold is_done. rewrite Hj'. apply (qo_done _ _ _ Hq' i j' Hj'). lia.
Qed.

Lemma crashed_dec (s : state V) : crashed s ∨ ¬ crashed s.
Proof. unfold crashed. destruct (s_worker s); try (right; by intros [? ?]). left. eauto. Qed.

Lemma worker_step_length e env (s s' : state V) :
  worker_step Major Minor zeroTime snapsDir e env s = Some s' → length (jobs (s_queue s')) = length (jobs (s_queue s)).
Proof.
  intros Hs. unfold worker_step in Hs.
  destruct (s_worker s) as [|b todo fin|b h|b h|b h|b h ff|b h ff|b|b] eqn:Hwk; [|..|done].
  { destruct (pending (s_queue s)) as [|b rest]; [done|]. destruct (jobs (s_queue s) !! b); [|done]. by injection Hs as <-. }
  all: cbn [busy] in Hs; cbn in Hs; destruct (jobs (s_queue s) !! b) as [j|]; [|done]; cbn in Hs;
    injection Hs as <-; unfold job_step; rewrite Hwk.
  - destruct todo as [|c todo]; [cbn; by rewrite length_insert|].
    destruct (indexAndFinalizeSubvol _ _ _ _ _ _ _ _ _ _) as [w [id|err|]]; cbn; rewrite ?length_insert; done.
  - done.
  - done.
  - done.
  - by destruct ff.
  - by destruct ff.
  - cbn. by rewrite length_alter.
Qed.

(** Enough worker's steps, among any others, finish a job. *)
Lemma run_finishes l : ∀ (s s' : state V) k i,
  queue_ok (s_queue s) (s_worker s) k → (i < length (jobs (s_queue s)))%nat →
  run Major Minor zeroTime snapsDir setupMinimalRootfs l s = Some s' →
  is_done (s_queue s) i = true ∨ crashed s ∨ (steps_left (s_queue s) (s_worker s) i ≤ worker_steps l)%nat →
  is_done (s_queue s') i = true ∨ crashed s'.
Proof.
  induction l as [|lbl l IH]; intros s s' k i Hq Hi; cbn [run].
  - intros [= <-] [Hd|[Hc|Hle]]; [by left|by right|]. unfold worker_steps in Hle. cbn in Hle. unfold steps_left in Hle.
    destruct (is_done (s_queue s) i) eqn:Hd; [by left|].
    pose proof (is_done_bound _ _ _ _ Hq Hi Hd) as Hk.
    destruct (s_worker s) as [|b todo fin|b h|b h|b h|b h ff|b h ff|b|b] eqn:Hwk; cbn [busy_cost] in Hle; try lia.
    + exfalso. assert (k ∈ filter (λ p, (p ≤ i)%nat) (pending (s_queue s))) as Hin.
      { apply list_elem_of_filter. split; [done|]. rewrite (qo_pending _ _ _ Hq). cbn [busy]. apply elem_of_seq. lia. }
      apply list_elem_of_split in Hin as (l1 & l2 & Heq). rewrite Heq, fmap_app, fmap_cons, sum_list_with_app in Hle.
      cbn in Hle. destruct (lookup_lt_is_Some_2 (jobs (s_queue s)) k) as [j Hj]; [lia|].
      unfold job_cost in Hle at 2. rewrite Hj in Hle. lia.
    + destruct ff; cbn in Hle; lia.
    + right. by exists b.
  - destruct (step _ _ _ _ _ lbl s) as [s1|] eqn:Hs; [|done]. cbn [mbind option_bind]. intros Hr Hcase.
    destruct (step_ok _ _ _ _ _ _ _ _ _ Hq Hs) as (k1 & Hk1 & Hq1).
    assert (i < length (jobs (s_queue s1)))%nat as Hi1.
    { destruct (is_worker lbl) eqn:Hl.
      - destruct lbl; try done. by rewrite (worker_step_length _ _ _ _ Hs).
      - destruct (step_grows _ _ _ Hl Hs) as [Hg _]. pose proof (grows_length _ _ Hg). lia. }
    apply (IH _ _ _ _ Hq1 Hi1 Hr). destruct Hcase as [Hd|[Hc|Hle]].
    + left. exact (done_stays lbl s s1 k i Hq Hd Hs).
    + right. left. by eapply crashed_stays.
    + destruct (is_done (s_queue s) i) eqn:Hd; [left; exact (done_stays lbl s s1 k i Hq Hd Hs)|]. unfold worker_steps in Hle |- *.
      destruct (is_worker lbl) eqn:Hl.
      * rewrite filter_cons_True in Hle by done. cbn [length] in Hle. destruct lbl; try done. cbn [step] in Hs.
        destruct (crashed_dec s1) as [Hc|Hc]; [right; by left|].
        destruct (worker_step_nearer _ _ _ _ _ _ Hq Hi Hd Hs Hc) as [?|Hn]; [by left|]. right. right. lia.
      * rewrite filter_cons_False in Hle by (by rewrite Hl). destruct (step_grows _ _ _ Hl Hs) as [Hg Hw].
        right. right. rewrite Hw. pose proof (steps_left_grows _ _ _ _ i Hq Hg Hi). lia.
Qed.
End liveness.


(** ** Order *)

(** What a job that has ended left for the components that build on it. *)
Lemma resolve_parent_ended q c p jp :
  parentJob c = Some p → jobs q !! p = Some jp → ended jp →
  resolve_parent q c =
    if decide (j_err jp = None ∧ kind c ∈ kind <$> comps jp) then final_id jp (kind c) else parentSnap c.
Proof.
  intros Hp Hj He. unfold resolve_parent. rewrite Hp, Hj. unfold ended in He.
  destruct (j_err jp) eqn:Herr.
  { rewrite decide_False by (by intros [? _]). unfold final_id. rewrite He, lookup_empty. done. }
  destruct He as [Hc Hf]. destruct (decide _) as [[_ Hin]|Hn].
  - apply list_elem_of_fmap in Hin as (c' & Hk & Hc'). destruct (Hc c' Hc') as [id Hid]. rewrite <- Hk in Hid.
    unfold final_id. rewrite Hid. cbn [default]. destruct (Hf _ _ Hid) as [[h ->] _]. rewrite bool_decide_eq_true_2; [done|].
    by apply Encode_not_nil.
  - unfold final_id. destruct (finalized jp !! kind c) as [id|] eqn:Hid; [|done]. destruct Hn. split; [done|].
    by apply (Hf _ _ Hid).
Qed.

(** ** A worker on its own *)

Section drain.
Context `{Digest} `{Volumes V} {text_ok : gostring → Prop} {time_ok : Z → Prop}
  `{!Json SnapMeta (meta_ok text_ok)} `{!Json Frame (frame_ok text_ok time_ok)}.
Variables (Major Minor : Z → Z) (zeroTime : Z) (snapsDir : gostring) (setupMinimalRootfs : V → gostring → V * bool).

(** As long as a job waits, the worker can move. *)
Lemma worker_can_move e env (s : state V) k i :
  queue_ok (s_queue s) (s_worker s) k → (i < length (jobs (s_queue s)))%nat → is_done (s_queue s) i = false →
  ¬ crashed s → ∃ s', worker_step Major Minor zeroTime snapsDir e env s = Some s'.
Proof.
  intros Hq Hi Hnd Hnc. pose proof (is_done_bound _ _ _ _ Hq Hi Hnd) as Hk. unfold worker_step.
  assert (∀ b, busy (s_worker s) = Some b → ∃ j, jobs (s_queue s) !! b = Some j) as Hj.
  { intros b Hb. destruct (qo_busy _ _ _ Hq b Hb) as (_ & j & Hj & _). by exists j. }
  destruct (s_worker s) as [|b todo fin|b h|b h|b h|b h ff|b h ff|b|b] eqn:Hwk.
  1: { pose proof (qo_pending _ _ _ Hq) as Hp. cbn [busy] in Hp. rewrite Hp.
       destruct (length (jobs (s_queue s)) - k)%nat eqn:Hl; [lia|]. cbn [seq].
       destruct (lookup_lt_is_Some_2 (jobs (s_queue s)) k) as [j ->]; [lia|]. by eexists. }
  8: { destruct Hnc. by exists b. }
  all: cbn [busy] in Hj |- *; destruct (Hj b eq_refl) as [j Hjb]; cbn; rewrite Hjb; by eexists.
Qed.

Lemma run_app l1 : ∀ l2 (s : state V),
  run Major Minor zeroTime snapsDir setupMinimalRootfs (l1 ++ l2) s =
  run Major Minor zeroTime snapsDir setupMinimalRootfs l1 s ≫= run Major Minor zeroTime snapsDir setupMinimalRootfs l2.
Proof.
  induction l1 as [|lbl l1 IH]; intros l2 s; [done|]. cbn [app run].
  destruct (step _ _ _ _ _ lbl s); [|done]. cbn [mbind option_bind]. apply IH.
Qed.

(** Left alone, the worker gets the job done, whatever fails. *)
Lemma worker_drains (fate : nat → index_env * osenv) i : ∀ n (s : state V) k from,
  queue_ok (s_queue s) (s_worker s) k → (i < length (jobs (s_queue s)))%nat →
  (steps_left (s_queue s) (s_worker s) i ≤ n)%nat →
  ∃ m s', (m ≤ n)%nat ∧
    run Major Minor zeroTime snapsDir setupMinimalRootfs ((λ x, LWorker (fate x).1 (fate x).2) <$> seq from m) s = Some s' ∧
    (is_done (s_queue s') i = true ∨ crashed s').
Proof.
  induction n as [|n IH]; intros s k from Hq Hi Hle;
    (destruct (is_done (s_queue s) i) eqn:Hd; [exists 0%nat, s; split; [lia|]; split; [done|by left]|]);
    (destruct (crashed_dec s) as [Hc|Hc]; [exists 0%nat, s; split; [lia|]; split; [done|by right]|]);
    destruct (worker_can_move (fate from).1 (fate from).2 s k i Hq Hi Hd Hc) as [s1 Hs1].
  - exists 0%nat, s. split; [lia|]. split; [done|].
    refine (run_finishes Major Minor zeroTime snapsDir setupMinimalRootfs [] s s k i Hq Hi eq_refl _). right. right.
    exact Hle.
  - assert (step Major Minor zeroTime snapsDir setupMinimalRootfs (LWorker (fate from).1 (fate from).2) s = Some s1) as Hst by exact Hs1.
    destruct (step_ok _ _ _ _ _ _ _ _ _ Hq Hst) as (k1 & _ & Hq1).
    destruct (crashed_dec s1) as [Hc1|Hc1].
    { exists 1%nat, s1. split; [lia|]. split; [cbn [seq fmap list_fmap run]; by rewrite Hst|by right]. }
    destruct (worker_step_nearer _ _ _ _ _ _ _ _ _ _ Hq Hi Hd Hs1 Hc1) as [Hd1|Hn].
    { exists 1%nat, s1. split; [lia|]. split; [cbn [seq fmap list_fmap run]; by rewrite Hst|by left]. }
    destruct (IH s1 k1 (S from) Hq1) as (m & s' & Hm & Hr & Hend); [by rewrite (worker_step_length _ _ _ _ _ _ _ _ Hs1)|lia|].
    exists (S m), s'. split; [lia|]. split; [|done]. cbn [seq fmap list_fmap run]. by rewrite Hst.
Qed.

Lemma run_length l : ∀ (s s' : state V) k,
  queue_ok (s_queue s) (s_worker s) k → run Major Minor zeroTime snapsDir setupMinimalRootfs l s = Some s' →
  (length (jobs (s_queue s)) ≤ length (jobs (s_queue s')))%nat.
Proof.
  induction l as [|lbl l IH]; intros s s' k Hq; cbn [run]; [by intros [= <-]|].
  destruct (step _ _ _ _ _ lbl s) as [s1|] eqn:Hs; [|done]. cbn [mbind option_bind]. intros Hr.
  destruct (step_ok _ _ _ _ _ _ _ _ _ Hq Hs) as (k1 & _ & Hq1). specialize (IH _ _ _ Hq1 Hr).
  destruct (is_worker lbl) eqn:Hl.
  - destruct lbl; try done. pose proof (worker_step_length _ _ _ _ _ _ _ _ Hs). lia.
  - destruct (step_grows _ _ _ _ _ _ _ _ Hl Hs) as [Hg _]. pose proof (grows_length _ _ Hg). lia.
Qed.
End drain.

(** ** An example: one frame, snapped *)

#[local] Existing Instance plain.
#[local] Existing Instance meta_json.
#[local] Instance frame_json : Json Frame (frame_ok (λ _, True) (λ _, True)) := countable_json _.
#[local] Existing Instance zero_digest.

Definition example_frame : gostring := bs "/data/fs/f".
Definition queue_world : world plain_volumes :=
  MkWorld (MkDisk ∅ ∅) (list_to_map [(example_frame, example_nodes); (bs "/data/fs/f/home", []); (bs "/data/fs/f/work", [])]).
Definition no_setup (v : plain_volumes) (_ : gostring) : plain_volumes * bool := (v, true).
(** Distinct names for captures. *)
Definition names_from (b : byte) (n : nat) : option (list byte) := Some (b :: replicate 15 (nth n [Byte.x00; Byte.x01] Byte.x02)).
Definition stamp_fails (now : Z) : index_env :=
  MkIndexEnv no_fault (MkOs (λ _, false) (λ _, false) (λ _, false) (λ _, false) (Some AtCreate) false) NoFault NoFault (λ _, false) no_fault now.
Definition snap_twice : list label :=
  [LCapture no_fault (names_from Byte.x0a) example_frame []; LCapture no_fault (names_from Byte.x0b) example_frame [];
   LWorker (no_faults 5) no_fault].

Definition snapped_twice : state plain_volumes :=
  default (start queue_world) (run (λ _, 0) (λ _, 0) 0 (abs_path example_dir) no_setup snap_twice (start queue_world)).
Lemma run_snap_twice :
  run (λ _, 0) (λ _, 0) 0 (abs_path example_dir) no_setup snap_twice (start queue_world) = Some snapped_twice.
Proof. apply is_some_default. vm_compute. reflexivity. Qed.

(** C7: every snap is finished. In any interleaving of captures, forks, taints and the
    worker, whatever fails: the worker never panics; as long as a job is not done, the
    worker can take its next step, and it has taken fewer steps since the job was seen than
    the count of steps left then, so nobody waits for ever; and the worker alone gets the
    job done within that count. *)
Theorem snap_queue_progress `{Digest} `{Volumes V} {text_ok time_ok}
    `{!Json SnapMeta (meta_ok text_ok)} `{!Json Frame (frame_ok text_ok time_ok)}
    Major Minor zeroTime snapsDir setup (w : world V) l0 l (s s' : state V) i :
  let run := run Major Minor zeroTime snapsDir setup in
  let n := steps_left (s_queue s) (s_worker s) i in
  run l0 (start w) = Some s → (i < length (jobs (s_queue s)))%nat → run l s = Some s' →
  ¬ crashed s' ∧
  (is_done (s_queue s') i = true ∨
   (worker_steps l < n)%nat ∧ ∀ e env, ∃ s2, worker_step Major Minor zeroTime snapsDir e env s' = Some s2) ∧
  ∀ fate : nat → index_env * osenv, ∃ m s2, (m ≤ n)%nat ∧
    run ((λ x, LWorker (fate x).1 (fate x).2) <$> seq 0 m) s = Some s2 ∧ is_done (s_queue s2) i = true.
Proof.
  intros run' n Hrun0 Hi Hr. destruct (run_ok _ _ _ _ _ _ _ _ _ (start_ok w) Hrun0) as (k & _ & Hq).
  assert (Hs : ¬ crashed s) by (eapply run_never_crashes; [|exact Hrun0]; by intros [? ?]).
  assert (Hs' : ¬ crashed s') by (by eapply run_never_crashes).
  split; [done|]. split.
  - destruct (run_ok _ _ _ _ _ _ _ _ _ Hq Hr) as (k' & _ & Hq').
    destruct (is_done (s_queue s') i) eqn:Hd; [by left|]. right. split.
    + destruct (decide (worker_steps l < n)%nat) as [|Hge]; [done|]. exfalso.
      destruct (run_finishes _ _ _ _ _ _ _ _ _ _ Hq Hi Hr) as [?|?]; [right; right; lia|congruence|done].
    + intros e env. pose proof (run_length _ _ _ _ _ _ _ _ _ Hq Hr). eapply worker_can_move; [exact Hq'| |exact Hd|exact Hs']. lia.
  - intros fate. destruct (worker_drains Major Minor zeroTime snapsDir setup fate i n s k 0 Hq Hi ltac:(done)) as (m & s2 & Hm & Hr2 & [Hd|Hc]).
    + by exists m, s2.
    + by destruct (run_never_crashes _ _ _ _ _ _ _ _ Hs Hr2).
Qed.

Lemma snap_queue_progress_witness :
  (1 < length (jobs (s_queue snapped_twice)))%nat ∧
  ∀ fate : nat → index_env * osenv, ∃ m s2, (m ≤ steps_left (s_queue snapped_twice) (s_worker snapped_twice) 1)%nat ∧
    run (λ _, 0) (λ _, 0) 0 (abs_path example_dir) no_setup ((λ x, LWorker (fate x).1 (fate x).2) <$> seq 0 m) snapped_twice = Some s2 ∧
    is_done (s_queue s2) 1 = true.
Proof.
  assert (1 < length (jobs (s_queue snapped_twice)))%nat as Hl by (apply Nat.ltb_lt; vm_compute; reflexivity).
  split; [exact Hl|].
  apply (snap_queue_progress (λ _, 0) (λ _, 0) 0 (abs_path example_dir) no_setup queue_world snap_twice []
    snapped_twice snapped_twice 1 run_snap_twice Hl eq_refl).
Defined.

(** C5: snaps are made in the order they were taken, each on the one before. In any
    interleaving of captures, forks, taints and the worker, whatever fails: the jobs
    done are the first ones, the worker holds the next, the rest wait in a row, frames
    wait for unfinished jobs only and jobs build on earlier ones ([queue_ok]); a job is
    done with an ID for each of its components or with an error and none; the component the worker
    indexes next gets as parent what its base job made of the component, if that job
    succeeded with it, else the parent recorded at the capture; and a capture of a frame
    that has an unfinished full capture builds on one at least as late. *)
Theorem snap_queue_fifo `{Digest} `{Volumes V} {text_ok time_ok}
    `{!Json SnapMeta (meta_ok text_ok)} `{!Json Frame (frame_ok text_ok time_ok)}
    Major Minor zeroTime snapsDir setup (w : world V) l (s : state V) :
  let q := s_queue s in
  run Major Minor zeroTime snapsDir setup l (start w) = Some s →
  ∃ k, queue_ok q (s_worker s) k ∧
    (∀ i c todo fin p, s_worker s = WIndex i (c :: todo) fin → parentJob c = Some p →
       ∃ jp, jobs q !! p = Some jp ∧ done jp = true ∧ (p < i)%nat ∧
         resolve_parent q c =
           if decide (j_err jp = None ∧ kind c ∈ kind <$> comps jp) then final_id jp (kind c) else parentSnap c) ∧
    (∀ i j, jobs q !! i = Some j → (k ≤ i)%nat → isSubdir j = false →
       ∀ env rands q' w' n, captureSnapJobLocked snapsDir env rands q (s_world s) (frame j) [] = (q', w', Ret n) →
       ∃ j' p, jobs q' !! n = Some j' ∧ (i ≤ p < n)%nat ∧ Forall (λ c, parentJob c = Some p) (comps j')).
Proof.
  intros q Hr. destruct (run_ok _ _ _ _ _ _ _ _ _ (start_ok w) Hr) as (k & _ & Hq). exists k. split; [done|]. split.
  - intros i c todo fin p Hw Hp. destruct (qo_busy _ _ _ Hq i) as (-> & j & Hj & Hok); [by rewrite Hw|].
    rewrite Hw in Hok. destruct Hok as (_ & pre & Hc & _).
    assert (p < k)%nat as Hlt.
    { apply (qo_parents _ _ _ Hq k j c p Hj); [|done]. rewrite Hc. apply elem_of_app. right. by left. }
    pose proof (lookup_lt_Some _ _ _ Hj). destruct (lookup_lt_is_Some_2 (jobs q) p) as [jp Hjp]; [unfold q; lia|].
    destruct (qo_done _ _ _ Hq p jp Hjp Hlt) as [Hd He]. exists jp. split_and!; [done..|].
    by eapply resolve_parent_ended.
  - intros i j Hj Hk Hs env rands q' w' n Hc. destruct (qo_latest _ _ _ Hq i j Hj Hk Hs) as (p & Hp & Hle).
    pose proof (capture_grows snapsDir env rands q (s_world s) (frame j) []) as Hg. rewrite Hc in Hg.
    destruct Hg as (_ & -> & _ & j' & Hj' & _ & Hb). specialize (Hb eq_refl). unfold q in Hb. rewrite Hp in Hb.
    pose proof (qo_frames _ _ _ Hq _ _ Hp). exists j', p. split_and!; try done. unfold q. lia.
Qed.

Lemma snap_queue_fifo_witness :
  (∃ k, queue_ok (s_queue snapped_twice) (s_worker snapped_twice) k) ∧
  match jobs (s_queue snapped_twice) with [_; j] => parentJob <$> comps j = [Some 0%nat] | _ => False end.
Proof.
  destruct (snap_queue_fifo (λ _, 0) (λ _, 0) 0 (abs_path example_dir) no_setup queue_world snap_twice snapped_twice run_snap_twice)
    as (k & Hq & _).
  split; [exists k; exact Hq|]. vm_compute. reflexivity.
Defined.
