(* ===== verification/SnapRecord.v ===== *)
(** * What the snap queue records ([src/cmd/thundersnapd/snapqueue.go])

    The worker's updates of the sidecars and [/taint] lose nothing of each other,
    however they are interleaved with captures; indexing may fail in any way. Forks are
    the exception: a new frame's sidecar is written without the lock. *)

From Stdlib Require Import Strings.String.
From S2P Require Import GoSort Prelude GoStrings GoPath GoIO JsonStore FrameId Frames Sha256 SnapHash Tsc Tsm Indexer SnapFiles SnapQueue.

(** IDs, stamps and snap specs are text. *)
Record text_closed (text_ok : gostring → Prop) : Prop := {
  tc_nil : text_ok [];
  tc_id : ∀ h, text_ok (Encode h);
  tc_stamp : ∀ h, text_ok (TrimSpace (Encode h ++ [Byte.x0a]));
  tc_triplet : ∀ a b c, text_ok a → text_ok b → text_ok c → text_ok (triplet a b c);
}.

Section sidecars.
Context `{Digest} `{Volumes V} {text_ok : gostring → Prop} {time_ok : Z → Prop}
  `{!Json SnapMeta (meta_ok text_ok)} `{!Json Frame (frame_ok text_ok time_ok)}.
Variables (Major Minor : Z → Z) (zeroTime : Z) (setupMinimalRootfs : V → gostring → V * bool).
Variable dir : list gostring.
Hypothesis Hdir : Forall proper dir.
Hypothesis Hne : dir ≠ [].
Hypothesis Htext : text_closed text_ok.
Hypothesis Hzero : time_ok 0.
Let snapsDir := abs_path dir.

(** Frames live elsewhere than snaps. *)
Definition frame_key (f : gostring) : Prop :=
  ∀ n, ¬ ext_files dir n (f ++ jsonc) ∧ ¬ ext_files dir n (f ++ stamp).
Abbreviation sidecars := (holds (ok := frame_ok text_ok time_ok) (λ f : gostring, f ++ jsonc) frame_key).
Definition stamps_ok (d : disk) : Prop := ∀ f, frame_key f → text_ok (readStampFile no_fault d f).

(** Files that are no frame's sidecar or stamp. *)
Definition foreign (p : gostring) : Prop := ∀ f, frame_key f → p ≠ f ++ jsonc ∧ p ≠ f ++ stamp.

Lemma foreign_ext n p : ext_files dir n p → foreign p.
Proof. intros Hp f Hf. destruct (Hf n) as [H1 H2]. split; intros ->; [by apply H1|by apply H2]. Qed.

Lemma foreign_keeps P d d' m :
  only_files P d d' → (∀ p, P p → foreign p) → sidecars d m → stamps_ok d → sidecars d' m ∧ stamps_ok d'.
Proof.
  intros [Hd Hf] HP Hm Hs. split.
  - apply (holds_same _ _ d); [done|done|]. intros f Hk. apply Hf. intros Hp. by destruct (HP _ Hp f Hk).
  - intros f Hk. unfold readStampFile, os_ReadFile. rewrite Hd, Hf; [by apply Hs|]. intros Hp. by destruct (HP _ Hp f Hk).
Qed.

(** Stamps and sidecars have names of their own. *)
Lemma stamp_names (f g : gostring) :
  (f ++ stamp) ++ bs ".tmp" ≠ g ++ jsonc ∧ (f ++ stamp) ++ bs ".tmp" ≠ g ++ stamp ∧ f ++ stamp ≠ g ++ jsonc ∧
  (f ++ jsonc) ++ bs ".tmp" ≠ g ++ jsonc ∧ (f ++ jsonc) ++ bs ".tmp" ≠ g ++ stamp ∧ f ++ jsonc ≠ g ++ stamp.
Proof.
  split_and!; intros Heq%(f_equal (@rev byte)); rewrite !rev_app_distr in Heq; discriminate Heq.
Qed.

(** The worker's stamp of a frame. *)
Lemma stamp_keeps d m f id :
  sidecars d m → stamps_ok d → frame_key f → id = [] ∨ is_id id →
  let d' := (writeStampFile no_fault d f id).1 in sidecars d' m ∧ stamps_ok d'.
Proof.
  intros Hm Hs Hf Hid d'. unfold d', writeStampFile. cbn [write_fails no_fault].
  set (tmp := (f ++ stamp) ++ bs ".tmp"). set (data := id ++ _).
  assert (only_files (λ p, p = tmp ∨ p = f ++ stamp) d (os_Rename false (put_file d tmp data) tmp (f ++ stamp)).1) as Ho.
  { eapply only_files_trans; [apply put_file_only; by left|]. apply os_Rename_only; auto. }
  destruct Ho as [Hd Ho]. split.
  - apply (holds_same _ _ d); [done|done|]. intros g Hg. apply Ho. destruct (stamp_names f g) as (H1 & H2 & H3 & _).
    intros [Heq|Heq]; [by apply H1|by apply H3].
  - intros g Hg. unfold readStampFile, os_ReadFile. cbn [read_fails no_fault]. rewrite Hd.
    destruct (decide (g = f)) as [->|Hgf].
    + unfold os_Rename. cbn [put_file d_files]. rewrite lookup_insert_eq. cbn [orb]. change (d_dirs (put_file d tmp data)) with (d_dirs d).
      destruct (bool_decide (f ++ stamp ∈ d_dirs d)) eqn:Hb; cbn [fst d_files put_file].
      * assert (f ++ stamp ≠ tmp) as Hn by (intros Heq; destruct (stamp_names f f) as (_ & H2 & _); by apply H2).
        rewrite lookup_insert_ne by done. specialize (Hs f Hg). unfold readStampFile, os_ReadFile in Hs. cbn [read_fails no_fault] in Hs.
        rewrite Hb in Hs. exact Hs.
      * rewrite lookup_insert_eq. unfold data. destruct Hid as [->|[h ->]]; [|apply (tc_stamp _ Htext)].
        replace (TrimSpace _) with ([] : gostring) by (vm_compute; reflexivity). apply (tc_nil _ Htext).
    + rewrite Ho; [by apply Hs|]. intros [Heq|Heq].
      * destruct (stamp_names f g) as (_ & H2 & _). by apply H2.
      * apply Hgf. by apply app_inv_tail in Heq.
Qed.

Definition meta_of (m : gmap gostring Frame) (f : gostring) : Frame := default empty_frame (m !! f).

Lemma empty_frame_ok : frame_ok text_ok time_ok empty_frame.
Proof. unfold frame_ok, empty_frame. cbn. pose proof (tc_nil _ Htext). split_and!; by try apply Forall_nil_2. Qed.

Lemma meta_of_ok d m f : sidecars d m → frame_key f → frame_ok text_ok time_ok (meta_of m f).
Proof.
  intros [Hm _] Hf. unfold meta_of. destruct (Hm f Hf) as [_ Hv]. destruct (m !! f); [by apply Hv|apply empty_frame_ok].
Qed.

(** An update under the lock. *)
Lemma update_keeps d m f g :
  sidecars d m → stamps_ok d → frame_key f → frame_ok text_ok time_ok (g (meta_of m f)) →
  let d' := (updateFrameMetaLocked no_fault d f g).1 in sidecars d' (<[f := g (meta_of m f)]> m) ∧ stamps_ok d'.
Proof.
  intros Hm Hs Hf Hok d'. unfold d', updateFrameMetaLocked.
  assert (sidecar no_fault d f = m !! f) as ->.
  { unfold sidecar, readFrameSidecar. rewrite (holds_load _ _ d m f Hm Hf). by destruct (m !! f). }
  fold (meta_of m f). destruct (json_law _ Hok) as (data & std & Hmar & Hstd & Hun).
  unfold writeFrameSidecar. rewrite Hmar. cbn [write_fails no_fault fst]. set (tmp := (f ++ jsonc) ++ bs ".tmp").
  split.
  - eapply (holds_insert _ _ _ (MkDisk (delete tmp (d_files d)) (d_dirs d))); [|done|done|exact Hstd|exact Hun|done|done].
    apply (holds_same _ _ d); [done|done|]. intros f' Hf'. cbn. rewrite lookup_delete_ne; [done|].
    by destruct (stamp_names f f') as (_ & _ & _ & ? & _).
    Unshelve. intros k1 k2 _ _ Heq. by apply app_inv_tail in Heq.
  - intros f' Hf'. unfold readStampFile, os_ReadFile. cbn [read_fails no_fault d_dirs d_files].
    destruct (stamp_names f f') as (_ & _ & _ & _ & H5 & H6). rewrite lookup_insert_ne by done.
    rewrite lookup_delete_ne by done. by apply Hs.
Qed.

(** *** What a run has recorded so far *)

(** The outcome of a job for a frame: the ID reported, and the root of a full snap. *)
Definition outcome_of (f : gostring) (j : snapJob) : option (gostring * option gostring) :=
  if decide (frame j = f ∧ j_err j = None)
  then Some (resultID j, if isSubdir j then None else Some (final_id j compRoot)) else None.
Definition recorded (q : snapQueue) (n : nat) (f : gostring) : list (gostring * option gostring) :=
  omap (outcome_of f) (take n (jobs q)).

Lemma recorded_S q k f j :
  jobs q !! k = Some j → recorded q (S k) f = recorded q k f ++ match outcome_of f j with Some o => [o] | None => [] end.
Proof. intros Hj. unfold recorded. rewrite (take_S_r _ _ _ Hj), omap_app. cbn. by destruct (outcome_of f j). Qed.
Lemma recorded_set_job q k j n f : (n ≤ k)%nat → recorded (set_job q k j) n f = recorded q n f.
Proof. intros Hn. unfold recorded. cbn [set_job jobs]. by rewrite take_insert_ge. Qed.
Lemma recorded_finish q k n f : recorded (finishJob q k) n f = recorded q n f.
Proof.
  unfold recorded. cbn [finishJob jobs]. revert n k. induction (jobs q) as [|j l IH]; intros n k; [done|].
  destruct n as [|n]; [done|]. destruct k as [|k]; [done|]. cbn. by rewrite IH.
Qed.
Lemma recorded_grows q q' n f : grows q q' → (n ≤ length (jobs q))%nat → recorded q' n f = recorded q n f.
Proof. intros [(new & Hn & _) _ _ _ _] Hl. unfold recorded. by rewrite Hn, take_app_le. Qed.

(** The worker has updated the sidecar of its job's frame, if the job has results. *)
Definition past (wk : worker) : bool :=
  match wk with WForks _ _ | WForkStamp _ _ _ | WForkSidecar _ _ _ | WFinish _ => true | _ => false end.
Definition entry_ok (j : snapJob) (h : HistoryEntry) : Prop :=
  j_err j = None ∧ H_Snap h = resultID j ∧ text_ok (H_Snap h) ∧ time_ok (H_Time h) ∧ text_ok (H_Message h).
Definition entry_of_worker (wk : worker) (j : snapJob) : Prop :=
  match wk with
  | WStamp _ h => entry_ok j h ∧ isSubdir j = false
  | WSidecar _ h => entry_ok j h
  | WForks _ h => True
  | WForkStamp _ _ ff => ff = []
  | WForkSidecar _ _ _ => False
  | _ => True
  end.

Definition captured_path (t : gostring) : Prop := ∃ r, t = capture_path dir r.
Definition job_placed (j : snapJob) : Prop :=
  frame_key (frame j) ∧ Forall (λ c, captured_path (tmpPath c)) (comps j) ∧
  (isSubdir j = false → compRoot ∈ kind <$> comps j).

(** What the sidecar of [f] says: the results in [rec] before what it said at first, and
    the taints in [T] besides those it had. *)
Definition says (base m : gmap gostring Frame) (f : gostring) (rec : list (gostring * option gostring))
    (T : list (gostring * gostring)) : Prop :=
  H_Snap <$> History (meta_of m f) = rev (fst <$> rec) ++ (H_Snap <$> History (meta_of base f)) ∧
  (∀ t, t ∈ Taints (meta_of m f) ↔ t ∈ Taints (meta_of base f) ∨ (f, t) ∈ T) ∧
  (∀ r, last (omap snd rec) = Some r → Rootfs (meta_of m f) = r).

Definition progress (q : snapQueue) (wk : worker) (k : nat) (f : gostring) : list (gostring * option gostring) :=
  recorded q (if past wk then S k else k) f.

Record meta_inv (base : gmap gostring Frame) (s : state V) (k : nat) (T : list (gostring * gostring)) : Prop := {
  mi_queue : queue_ok (s_queue s) (s_worker s) k;
  mi_placed : Forall job_placed (jobs (s_queue s));
  mi_own : ∀ fr i, framePendingSnap (s_queue s) !! fr = Some i → ∃ j, jobs (s_queue s) !! i = Some j ∧ frame j = fr;
  mi_entry : ∀ i j, busy (s_worker s) = Some i → jobs (s_queue s) !! i = Some j → entry_of_worker (s_worker s) j;
  mi_stamps : stamps_ok (w_disk (s_world s));
  mi_meta : ∃ m, sidecars (w_disk (s_world s)) m ∧
              ∀ f, frame_key f → says base m f (progress (s_queue s) (s_worker s) k f) T;
}.

(** Captures. *)
Lemma captured_foreign t p : captured_path t → snap_files t p → foreign p.
Proof. intros [r ->] Hp. by eapply foreign_ext, capture_files. Qed.

Lemma capture_captured rand v src sub :
  match (captureSubvol snapsDir rand v src sub).2 with Ret t => captured_path t | _ => True end.
Proof.
  unfold captureSubvol. destruct rand as [r|]; cbn; [|done]. case_bool_decide.
  - destruct (vol_snapshot _ _ _ _) as [v' []]; [|done]. by exists r.
  - destruct (vol_subtree _ _ _ _) as [v' []]; [|done]. by exists r.
Qed.

Lemma cleanup_foreign env cs : ∀ w : world V,
  Forall (λ c, captured_path (tmpPath c)) cs → only_files foreign (w_disk w) (w_disk (cleanupCaptured env w cs)).
Proof.
  induction cs as [|c cs IH]; intros w Hc; [done|]. apply Forall_cons in Hc as [Hc Hcs]. cbn [cleanupCaptured foldl].
  eapply only_files_trans; [|by apply IH]. cbn [w_disk]. apply os_Remove_only.
  eapply captured_foreign; [exact Hc|]. apply own_files.
Qed.

Lemma capture_part_placed env rand (w : world V) cs path k taints base parent :
  Forall (λ c, captured_path (tmpPath c)) cs →
  let '(w', r) := capture_part snapsDir env rand w cs path k taints base parent in
  only_files foreign (w_disk w) (w_disk w') ∧
  match r with Ret cs' => Forall (λ c, captured_path (tmpPath c)) cs' ∧ ∃ l, cs' = cs ++ l | _ => True end.
Proof.
  intros Hc. unfold capture_part. destruct (isSubvolume _ _); cbn [negb]; [|split; [by apply cleanup_foreign|done]].
  destruct (isDirEmpty _ _); [split; [done|]; split; [done|]; exists []; by rewrite app_nil_r|].
  pose proof (capture_captured rand (w_vols w) path []) as Ht.
  destruct (captureSubvol _ _ _ _ _) as [v [tmp|e|]]; cbn [snd] in Ht.
  - split; [done|]. split; [|by eexists]. apply Forall_app_2; [done|]. by apply Forall_cons_2; [|apply Forall_nil_2].
  - split; [|done]. by apply (cleanup_foreign env cs (set_vols w v)).
  - done.
Qed.

Lemma capture_keeps env rands q (w : world V) rootFS sub :
  frame_key rootFS →
  let '(q', w', r) := captureSnapJobLocked snapsDir env rands q w rootFS sub in
  only_files foreign (w_disk w) (w_disk w') ∧
  match r with
  | Ret i => ∃ j, jobs q' = jobs q ++ [j] ∧ job_placed j ∧
      (framePendingSnap q' = framePendingSnap q ∨ framePendingSnap q' = <[frame j := length (jobs q)]> (framePendingSnap q))
  | _ => True
  end.
Proof.
  intros Hk. unfold captureSnapJobLocked. case_bool_decide as Hsub.
  - destruct (Validate sub) as [clean|] eqn:Hv; [|done]. pose proof (capture_captured (rands 0%nat) (w_vols w) rootFS clean) as Ht.
    destruct (captureSubvol _ _ _ _ _) as [v [tmp|e|]]; [|done..]. split; [done|]. eexists. split; [done|].
    split; [|by left]. split_and!; [done|by apply Forall_cons_2; [|apply Forall_nil_2]|]. unfold isSubdir. cbn.
    intros Hb%bool_decide_eq_false. exfalso. apply Hb. by eapply Validate_ne.
  - pose proof (capture_captured (rands 0%nat) (w_vols w) rootFS []) as Ht.
    destruct (captureSubvol _ _ _ _ _) as [v [tmp|e|]]; [|done..]. cbn [snd] in Ht. set (cs0 := [_]).
    assert (Forall (λ c, captured_path (tmpPath c)) cs0) as Hc0 by (by apply Forall_cons_2; [|apply Forall_nil_2]).
    match goal with |- context [capture_part _ _ ?r ?w cs0 ?p compHome ?t ?base ?pa] =>
      pose proof (capture_part_placed env r w cs0 p compHome t base pa Hc0) as Hc1;
      destruct (capture_part snapsDir env r w cs0 p compHome t base pa) as [w1 [cs1|e|]] end; destruct Hc1 as [Ho1 Hc1]; [|done..]. destruct Hc1 as [Hc1 [l1 ->]].
    match goal with |- context [capture_part _ _ ?r ?w (cs0 ++ l1) ?p compWork ?t ?base ?pa] =>
      pose proof (capture_part_placed env r w (cs0 ++ l1) p compWork t base pa Hc1) as Hc2;
      destruct (capture_part snapsDir env r w (cs0 ++ l1) p compWork t base pa) as [w2 [cs2|e|]] end; destruct Hc2 as [Ho2 Hc2];
      (split; [by eapply only_files_trans|]); [|done..].
    destruct Hc2 as [Hc2 [l2 ->]].
    eexists. split; [done|]. split; [|by right]. split_and!; [done..|]. intros _. by left.
Qed.

(** *** Results are text *)

Lemma final_id_cases j kd : all_ids (comps j) (finalized j) → final_id j kd = [] ∨ is_id (final_id j kd).
Proof.
  intros [_ Hf]. unfold final_id. destruct (finalized j !! kd) as [id|] eqn:Hk; [|by left]. right. by apply (Hf kd).
Qed.

Lemma final_id_text j kd : all_ids (comps j) (finalized j) → text_ok (final_id j kd).
Proof. intros Hf. destruct (final_id_cases j kd Hf) as [->|[h ->]]; [apply (tc_nil _ Htext)|apply (tc_id _ Htext)]. Qed.

Lemma final_root_ne j : all_ids (comps j) (finalized j) → compRoot ∈ kind <$> comps j → final_id j compRoot ≠ [].
Proof.
  intros [Hc Hf] (c & Hk & Hin)%list_elem_of_fmap. destruct (Hc c Hin) as [id Hid].
  rewrite <- Hk in Hid. unfold final_id. rewrite Hid. destruct (Hf _ _ Hid) as [[h ->] _]. apply Encode_not_nil.
Qed.

(** The entry made once all components are indexed. *)
Lemma entry_ok_indexed j fin now :
  j_err j = None → all_ids (comps j) fin → time_ok now → entry_ok (indexed j fin) (history_entry now (indexed j fin)).
Proof.
  intros He Hf Ht. unfold entry_ok, history_entry. cbn [H_Snap H_Time H_Message].
  split_and!; [done..| |done|apply (tc_nil _ Htext)].
  pose proof (λ kd, final_id_text (indexed j fin) kd Hf) as Hid. unfold resultID.
  destruct (isSubdir (indexed j fin)) eqn:Hs; [apply Hid|]. change (isSubdir (indexed j fin)) with (isSubdir j) in Hs.
  cbn [indexed set_result result]. rewrite Hs. apply (tc_triplet _ Htext); apply (Hid).
Qed.

Lemma record_job_ok j h mf :
  entry_ok j h → all_ids (comps j) (finalized j) → frame_ok text_ok time_ok mf → frame_ok text_ok time_ok (record_job j h mf).
Proof.
  intros (_ & _ & H1 & H2 & H3) Hf (F1 & F2 & F3 & F4 & F5 & F6 & F7).
  pose proof (λ kd, final_id_text j kd Hf) as Hid.
  assert (∀ old new, text_ok old → text_ok new → text_ok (if bool_decide (new ≠ []) then new else old)) as Hor.
  { intros old new Ho Hn. by case_bool_decide. }
  unfold record_job. destruct (isSubdir j); unfold record_subdir, record_snap, set_history, frame_ok; cbn;
    split_and!; auto using Forall_cons_2.
Qed.

Lemma taint_frame_ok st t mf :
  text_ok st → text_ok t → frame_ok text_ok time_ok mf → frame_ok text_ok time_ok (taint_frame st t mf).
Proof.
  intros Hs Ht Hf. unfold taint_frame.
  set (mf1 := if bool_decide (Rootfs mf = []) then _ else mf).
  assert (frame_ok text_ok time_ok mf1) as Hf1.
  { unfold mf1. case_bool_decide; [|done]. destruct Hf as (F1 & F2 & F3 & F4 & F5 & F6 & F7). by split_and!. }
  clearbody mf1. case_bool_decide; [done|]. destruct Hf1 as (F1 & F2 & F3 & F4 & F5 & F6 & F7). split_and!; try done.
  cbn [set_taints Taints]. apply Forall_forall. intros x Hx. destruct (UnionTaints_spec [Taints mf1 ++ [t]]) as [_ Hu].
  apply Hu in Hx as (l & ->%list_elem_of_singleton & Hx). apply elem_of_app in Hx as [Hx|Hx].
  - rewrite Forall_forall in F4. by apply F4.
  - by apply list_elem_of_singleton in Hx as ->.
Qed.

(** *** The sidecars keep saying what was recorded *)

Lemma meta_of_insert m f g mf : meta_of (<[f := mf]> m) g = if decide (g = f) then mf else meta_of m g.
Proof.
  unfold meta_of. destruct (decide (g = f)) as [->|Hnf]; [by rewrite lookup_insert_eq|by rewrite lookup_insert_ne].
Qed.

Lemma says_record base m j h rec T f :
  entry_ok j h → says base m f rec T →
  says base (<[frame j := record_job j h (meta_of m (frame j))]> m) f
    (rec ++ match outcome_of f j with Some o => [o] | None => [] end) T.
Proof.
  intros (He & Hs & _) (S1 & S2 & S3). unfold says, outcome_of. rewrite meta_of_insert.
  destruct (decide (f = frame j)) as [->|Hnf].
  - rewrite decide_True by done. rewrite fmap_app, rev_app_distr, omap_app. unfold record_job.
    destruct (isSubdir j) eqn:Hsub; cbn; rewrite Hs, S1; (split; [done|]); (split; [exact S2|]).
    + by rewrite app_nil_r.
    + intros r. rewrite last_snoc. by intros [= <-].
  - rewrite decide_False by (intros [? _]; congruence). rewrite app_nil_r. by split_and!.
Qed.

Lemma says_taint base m f fr st t rec T :
  (∀ r, r ∈ omap snd rec → r ≠ []) → says base m f rec T →
  says base (<[fr := taint_frame st t (meta_of m fr)]> m) f rec ((fr, t) :: T).
Proof.
  intros Hids (S1 & S2 & S3). unfold says. rewrite meta_of_insert. destruct (decide (f = fr)) as [->|Hnf].
  - unfold taint_frame. set (mf := meta_of m fr) in *. set (mf1 := if bool_decide (Rootfs mf = []) then _ else mf).
    assert (History mf1 = History mf ∧ Taints mf1 = Taints mf) as [E1 E2] by (unfold mf1; by case_bool_decide).
    assert (∀ r, last (omap snd rec) = Some r → Rootfs mf1 = r) as S3'.
    { intros r Hr. pose proof (S3 r Hr) as Hm. unfold mf1. rewrite bool_decide_eq_false_2; [done|].
      rewrite Hm. apply Hids. apply last_Some in Hr as [l ->]. apply elem_of_app. right. by apply list_elem_of_singleton. }
    clearbody mf1. case_bool_decide as Ht.
    + split_and!; [by rewrite E1| |done]. intros x. rewrite E2, S2, elem_of_cons. split; [tauto|].
      intros [?|[[= <-]|?]]; [by left| |by right]. rewrite E2 in Ht. by apply S2.
    + cbn [set_taints Rootfs History Taints]. split_and!; [by rewrite E1| |done]. intros x.
      destruct (UnionTaints_spec [Taints mf1 ++ [t]]) as [_ Hu]. rewrite Hu, E2. split.
      * intros (l & ->%list_elem_of_singleton & [Hx| ->%list_elem_of_singleton]%elem_of_app).
        -- apply S2 in Hx as [?|?]; [by left|]. right. by right.
        -- right. by left.
      * intros Hx. eexists. split; [by apply list_elem_of_singleton|]. apply elem_of_app.
        rewrite S2, list_elem_of_singleton. destruct Hx as [?|[[= ->]|?]%elem_of_cons]; auto.
  - split_and!; [done| |done]. intros x. rewrite S2, elem_of_cons. split; [tauto|].
    intros [?|[[= <- _]|?]]; auto. done.
Qed.

Lemma recorded_nonempty q wk k f r :
  queue_ok q wk k → Forall job_placed (jobs q) → r ∈ omap snd (progress q wk k f) → r ≠ [].
Proof.
  intros Hq Hp Hr. apply list_elem_of_omap in Hr as ([id o] & Hin & Ho). cbn in Ho. subst o.
  unfold progress, recorded in Hin. apply list_elem_of_omap in Hin as (j & Hj & Ho).
  apply list_elem_of_lookup in Hj as [i Hi]. apply lookup_take_Some in Hi as [Hi Hlt].
  unfold outcome_of in Ho. destruct (decide _) as [[_ He]|]; [|done]. injection Ho as _ Ho.
  destruct (isSubdir j) eqn:Hs; [done|]. injection Ho as <-.
  rewrite Forall_lookup in Hp. destruct (Hp i j Hi) as (_ & _ & Hroot).
  apply final_root_ne; [|by apply Hroot].
  assert (ended j) as Hen; [|unfold ended in Hen; by rewrite He in Hen].
  destruct (decide (i < k)%nat) as [Hk|Hk]; [by apply (qo_done _ _ _ Hq i j Hi)|].
  destruct (past wk) eqn:Hpw; [|lia]. assert (i = k) as -> by lia.
  assert (busy wk = Some k) as Hb.
  { destruct wk; try done; cbn [busy]; destruct (qo_busy _ _ _ Hq _ eq_refl) as [-> _]; done. }
  destruct (qo_busy _ _ _ Hq k Hb) as (_ & j' & Hj' & Hw). rewrite Hi in Hj'. injection Hj' as <-.
  destruct wk; try done; by apply Hw.
Qed.

(** Threads that leave the sidecars and stamps alone. *)
Lemma says_foreign base s k T (w : world V) :
  meta_inv base s k T → only_files foreign (w_disk (s_world s)) (w_disk w) →
  stamps_ok (w_disk w) ∧ ∃ m, sidecars (w_disk w) m ∧
    ∀ f, frame_key f → says base m f (progress (s_queue s) (s_worker s) k f) T.
Proof.
  intros [Hq Hp Ho He Hst (m & Hm & Hs)] Hf.
  destruct (foreign_keeps foreign _ _ m Hf (λ p Hp, Hp) Hm Hst) as [Hm' Hst']. split; [done|]. by exists m.
Qed.

(** The queue after a step of the worker that is no finish. *)
Lemma placed_set_job q i j j' :
  Forall job_placed (jobs q) → jobs q !! i = Some j → frame j' = frame j → comps j' = comps j → subdir j' = subdir j →
  Forall job_placed (jobs (set_job q i j')).
Proof.
  intros Hp Hj Hf Hc Hs. cbn [set_job jobs]. apply Forall_insert; [done|]. rewrite Forall_lookup in Hp.
  destruct (Hp i j Hj) as (P1 & P2 & P3). unfold job_placed, isSubdir in *. rewrite Hf, Hc, Hs. by split_and!.
Qed.

Lemma own_set_job q i j j' :
  (∀ fr n, framePendingSnap q !! fr = Some n → ∃ j, jobs q !! n = Some j ∧ frame j = fr) →
  jobs q !! i = Some j → frame j' = frame j →
  ∀ fr n, framePendingSnap (set_job q i j') !! fr = Some n → ∃ j, jobs (set_job q i j') !! n = Some j ∧ frame j = fr.
Proof.
  intros Ho Hj Hf fr n Hn. destruct (Ho fr n Hn) as (jn & Hjn & Hfr). cbn [set_job jobs].
  destruct (decide (n = i)) as [->|Hni].
  - exists j'. split; [apply list_lookup_insert_eq; by eapply lookup_lt_Some|]. congruence.
  - exists jn. by rewrite list_lookup_insert_ne.
Qed.

Lemma own_finish q i :
  (∀ fr n, framePendingSnap q !! fr = Some n → ∃ j, jobs q !! n = Some j ∧ frame j = fr) →
  ∀ fr n, framePendingSnap (finishJob q i) !! fr = Some n → ∃ j, jobs (finishJob q i) !! n = Some j ∧ frame j = fr.
Proof.
  intros Ho fr n [Hn Hni]%map_lookup_filter_Some. cbn in Hni. destruct (Ho fr n Hn) as (j & Hj & Hf). exists j.
  split; [|done]. cbn [finishJob jobs]. by rewrite list_lookup_alter_ne.
Qed.

(** A frame that was made by no fork is its job's own. *)
Lemma no_forked_frames q i j :
  (∀ fr n, framePendingSnap q !! fr = Some n → ∃ j, jobs q !! n = Some j ∧ frame j = fr) →
  jobs q !! i = Some j → forkedFramesForJob q i (frame j) = [].
Proof.
  intros Ho Hj. destruct (forkedFramesForJob q i (frame j)) as [|f ff] eqn:Hff; [done|]. exfalso.
  assert (f ∈ forkedFramesForJob q i (frame j)) as Hin by (rewrite Hff; by left).
  apply list_elem_of_fmap in Hin as ([f' n] & -> & [[Hn Hne'] Hin]%list_elem_of_filter). cbn in Hn, Hne'. subst n.
  apply elem_of_map_to_list in Hin. destruct (Ho _ _ Hin) as (j' & Hj' & Hf). congruence.
Qed.

Definition worker_fair (e : index_env) : Prop := time_ok (ie_now e).

(** The worker's steps, one by one. *)
Abbreviation own_step e := (job_step Major Minor zeroTime snapsDir e no_fault).

Lemma all_indexed_meta base e (s : state V) k T j fin :
  worker_fair e → meta_inv base s k T → s_worker s = WIndex k [] fin → jobs (s_queue s) !! k = Some j →
  queue_ok (s_queue (own_step e s k j)) (s_worker (own_step e s k j)) k → meta_inv base (own_step e s k j) k T.
Proof.
  intros Hfair [Hq Hp Ho He Hst (m & Hm & Hsay)] Hwk Hj. unfold job_step. rewrite Hwk in *. intros Hok.
  destruct (qo_busy _ _ _ Hq k eq_refl) as (_ & j' & Hj' & Hf & pre & Hc & Hids). rewrite Hj in Hj'. injection Hj' as <-.
  assert (entry_ok (indexed j fin) (history_entry (ie_now e) (indexed j fin))) as Hen.
  { apply entry_ok_indexed; [apply Hf|rewrite Hc, app_nil_r; exact Hids|exact Hfair]. }
  split; cbn [s_queue s_worker s_world set_worker set_queue].
  - exact Hok.
  - by eapply placed_set_job.
  - by eapply own_set_job.
  - intros i j' Hb Hj'. assert (i = k) as -> by (destruct (isSubdir (indexed j fin)); by injection Hb).
    cbn [set_job jobs] in Hj'. rewrite list_lookup_insert_eq in Hj' by (by eapply lookup_lt_Some). injection Hj' as <-.
    destruct (isSubdir (indexed j fin)) eqn:Hsub; [exact Hen|]. by split.
  - done.
  - exists m. split; [done|]. intros f Hf'. specialize (Hsay f Hf'). unfold progress in Hsay |- *.
    destruct (isSubdir (indexed j fin)); cbn [past] in *; by rewrite recorded_set_job.
Qed.

Lemma index_meta base e (s : state V) k T j c todo fin :
  meta_inv base s k T → s_worker s = WIndex k (c :: todo) fin → jobs (s_queue s) !! k = Some j →
  queue_ok (s_queue (own_step e s k j)) (s_worker (own_step e s k j)) k → meta_inv base (own_step e s k j) k T.
Proof.
  intros Hi Hwk Hj. pose proof Hi as [Hq Hp Ho He Hst _]. unfold job_step. rewrite Hwk in *. intros Hok.
  pose proof Hp as Hpl. rewrite Forall_lookup in Hpl. destruct (Hpl k j Hj) as (_ & Hcs & _).
  destruct (qo_busy _ _ _ Hq k eq_refl) as (_ & j' & Hj' & Hf & pre & Hc & Hids). rewrite Hj in Hj'. injection Hj' as <-.
  pose proof (finalize_only Major Minor zeroTime snapsDir e (s_world s) (tmpPath c) (subdir j)
    (resolve_parent (s_queue s) c) (stored_list (c_taints c))) as Hfin.
  assert (captured_path (tmpPath c)) as Hcap.
  { rewrite Forall_forall in Hcs. apply Hcs. rewrite Hc. apply elem_of_app. right. by left. }
  assert (∀ p, snap_files (tmpPath c) p → foreign p) as Htmp by (intros p; by apply captured_foreign).
  destruct (indexAndFinalizeSubvol _ _ _ _ _ _ _ _ _ _) as [w [id|err|]].
  - destruct Hfin as ((h & ->) & Ho2). destruct (says_foreign base s k T w Hi) as (Hst' & m' & Hm' & Hs').
    { eapply only_files_weaken; [|exact Ho2]. intros p [?|Hpub]; [by apply Htmp|].
      eapply foreign_ext, published_files_ext; [done|done|exact Hpub]. }
    split; try done. exists m'. split; [done|]. by rewrite Hwk in Hs'.
  - destruct (says_foreign base s k T (discard_rest no_fault w j fin) Hi) as (Hst' & m' & Hm' & Hs').
    { eapply only_files_trans; [by eapply only_files_weaken|]. apply cleanup_foreign. apply Forall_forall.
      intros c' [_ Hin]%list_elem_of_filter. rewrite Forall_forall in Hcs. by apply Hcs. }
    split; cbn [s_queue s_worker s_world]; try done; [by eapply placed_set_job|by eapply own_set_job|].
    exists m'. split; [done|]. intros f Hf'. specialize (Hs' f Hf'). rewrite Hwk in Hs'. unfold progress in Hs' |- *.
    cbn [past s_queue s_worker set_worker set_queue] in *.
    rewrite (recorded_S _ k f (set_err j err)) by (cbn [set_job jobs]; apply list_lookup_insert_eq; by eapply lookup_lt_Some).
    rewrite recorded_set_job by done. unfold outcome_of. rewrite decide_False by (by intros [_ ?]). by rewrite app_nil_r.
  - destruct (says_foreign base s k T w Hi) as (Hst' & m' & Hm' & Hs'); [by eapply only_files_weaken|].
    split; try done. exists m'. split; [done|]. by rewrite Hwk in Hs'.
Qed.

Lemma stamp_meta base e (s : state V) k T j h :
  meta_inv base s k T → s_worker s = WStamp k h → jobs (s_queue s) !! k = Some j →
  queue_ok (s_queue (own_step e s k j)) (s_worker (own_step e s k j)) k → meta_inv base (own_step e s k j) k T.
Proof.
  intros [Hq Hp Ho He Hst (m & Hm & Hsay)] Hwk Hj. unfold job_step. rewrite Hwk in *. intros Hok.
  rewrite Forall_lookup in Hp. destruct (Hp k j Hj) as (Hkey & _). rewrite <- Forall_lookup in Hp.
  destruct (qo_busy _ _ _ Hq k eq_refl) as (_ & j' & Hj' & _ & Hend). rewrite Hj in Hj'. injection Hj' as <-.
  destruct (He k j eq_refl Hj) as [Hen Hsub]. unfold ended in Hend. destruct Hen as [Hnone Hen']. rewrite Hnone in Hend.
  destruct (stamp_keeps _ m (frame j) (final_id j compRoot) Hm Hst Hkey (final_id_cases j compRoot Hend)) as [Hm' Hst'].
  split; try done; cbn [s_queue s_worker s_world].
  - intros i j' [= <-] Hj'. change (jobs (s_queue s) !! k = Some j') in Hj'. rewrite Hj in Hj'. injection Hj' as <-. by split.
  - by exists m.
Qed.

Lemma sidecar_meta base e (s : state V) k T j h :
  meta_inv base s k T → s_worker s = WSidecar k h → jobs (s_queue s) !! k = Some j →
  queue_ok (s_queue (own_step e s k j)) (s_worker (own_step e s k j)) k → meta_inv base (own_step e s k j) k T.
Proof.
  intros [Hq Hp Ho He Hst (m & Hm & Hsay)] Hwk Hj. unfold job_step. rewrite Hwk in *. intros Hok.
  rewrite Forall_lookup in Hp. destruct (Hp k j Hj) as (Hkey & _). rewrite <- Forall_lookup in Hp.
  destruct (qo_busy _ _ _ Hq k eq_refl) as (_ & j' & Hj' & _ & Hend). rewrite Hj in Hj'. injection Hj' as <-.
  pose proof (He k j eq_refl Hj) as Hent. cbn [entry_of_worker] in Hent. unfold ended in Hend.
  pose proof Hent as [Hnone _]. rewrite Hnone in Hend.
  destruct (update_keeps _ m (frame j) (record_job j h) Hm Hst Hkey) as [Hm' Hst'].
  { apply record_job_ok; [done|done|]. by eapply meta_of_ok. }
  split; cbn [s_queue s_worker s_world set_worker set_world set_disk w_disk]; try done.
  - intros i j' _ _. by destruct (isSubdir j).
  - exists (<[frame j := record_job j h (meta_of m (frame j))]> m). split; [done|]. intros f Hf.
    pose proof (says_record base m j h _ T f Hent (Hsay f Hf)) as Hnew. unfold progress in Hnew |- *. cbn [past] in Hnew.
    rewrite <- (recorded_S _ k f j Hj) in Hnew. by destruct (isSubdir j).
Qed.

(** A worker's step. *)
Lemma worker_meta base e (s s' : state V) k T :
  worker_fair e → meta_inv base s k T → worker_step Major Minor zeroTime snapsDir e no_fault s = Some s' →
  ∃ k', meta_inv base s' k' T.
Proof.
  intros Hfair Hi Hs. pose proof Hi as [Hq Hp Ho He Hst (m & Hm & Hsay)]. unfold worker_step in Hs.
  destruct (busy (s_worker s)) as [b|] eqn:Hb.
  2:{ destruct (s_worker s) eqn:Hwk; try done. destruct (pending (s_queue s)) as [|i rest] eqn:Hpe; [done|].
      destruct (jobs (s_queue s) !! i) as [j|] eqn:Hj; [|done]. injection Hs as <-. exists k.
      split; try done; [by apply queue_ok_pop|]. by exists m. }
  destruct (qo_busy _ _ _ Hq b Hb) as (-> & j & Hj & _). pose proof (He k j eq_refl Hj) as Hent.
  assert (s' = own_step e s k j) as ->.
  { destruct (s_worker s) eqn:Hwk; try done; cbn [busy] in Hb; cbn in Hs; injection Hb as ->; rewrite Hj in Hs; by injection Hs. }
  clear Hs. destruct (job_step_ok Major Minor zeroTime snapsDir e no_fault s k j k Hq Hb Hj) as [Hok _].
  exists (if decide (busy (s_worker (own_step e s k j)) = None) then S k else k).
  destruct (s_worker s) as [|i todo fin|i h|i h|i h|i h ff|i h ff|i|i] eqn:Hwk; cbn [busy] in Hb; [done|injection Hb as ->..].
  1-3: assert (busy (s_worker (own_step e s k j)) ≠ None) as Hbusy by
    (unfold job_step; rewrite Hwk; try destruct todo; try destruct (indexAndFinalizeSubvol _ _ _ _ _ _ _ _ _ _) as [? []];
     cbn [s_worker set_worker]; try destruct (isSubdir _); discriminate);
    rewrite decide_False in Hok |- * by exact Hbusy.
  - destruct todo as [|c todo]; [exact (all_indexed_meta _ _ _ _ _ _ _ Hfair Hi Hwk Hj Hok)|exact (index_meta _ _ _ _ _ _ _ _ _ Hi Hwk Hj Hok)].
  - by eapply stamp_meta.
  - by eapply sidecar_meta.
  - unfold job_step in *. rewrite Hwk in *. cbn [s_queue s_worker s_world set_worker busy] in Hok |- *. rewrite decide_False in * by done.
    split; try done; cbn [s_queue s_worker s_world]; [|by exists m].
    intros i j' _ _. by apply no_forked_frames.
  - unfold job_step in *. rewrite Hwk in *. cbn [entry_of_worker] in Hent. subst ff. cbn [s_queue s_worker s_world set_worker busy] in Hok |- *.
    rewrite decide_False in * by done. split; try done. by exists m.
  - by destruct Hent.
  - unfold job_step in *. rewrite Hwk in *. cbn [s_queue s_worker s_world set_worker set_queue busy] in Hok |- *. rewrite decide_True in * by done.
    split; try done; cbn [s_queue s_worker s_world].
    + cbn [finishJob jobs]. apply Forall_alter; [done|]. by intros x _.
    + by apply own_finish.
    + exists m. split; [done|]. intros f Hf. specialize (Hsay f Hf). unfold progress in Hsay |- *.
      cbn [past s_queue s_worker set_worker set_queue] in *. by rewrite recorded_finish.
  - assert (own_step e s k j = s) as -> by (unfold job_step; by rewrite Hwk). rewrite Hwk. by case_decide.
Qed.

(** A capture. *)
Lemma capture_meta base env rands fr sub (s : state V) k T :
  frame_key fr → meta_inv base s k T →
  let '(q, w, _) := captureSnapJobLocked snapsDir env rands (s_queue s) (s_world s) fr sub in
  meta_inv base (MkState q (s_worker s) w (s_forks s)) k T.
Proof.
  intros Hk Hi. pose proof Hi as [Hq Hp Ho He Hst _].
  pose proof (capture_keeps env rands (s_queue s) (s_world s) fr sub Hk) as Hc.
  pose proof (capture_grows snapsDir env rands (s_queue s) (s_world s) fr sub) as Hg.
  destruct (captureSnapJobLocked _ _ _ _ _ _ _) as [[q w] r]. destruct Hc as [Hf Hc]. destruct Hg as [Hg Hnone].
  destruct (says_foreign base s k T w Hi Hf) as (Hst' & m' & Hm' & Hs').
  assert (∀ f, progress q (s_worker s) k f = progress (s_queue s) (s_worker s) k f) as Hpr.
  { intros f. apply (recorded_grows _ _ _ _ Hg). pose proof (qo_bound _ _ _ Hq). destruct (past (s_worker s)) eqn:Hpw; [|done].
    assert (∃ b, busy (s_worker s) = Some b) as [b Hb] by (destruct (s_worker s); try done; by eexists).
    destruct (qo_busy _ _ _ Hq b Hb) as (-> & j & Hj & _). by apply lookup_lt_Some in Hj. }
  split; cbn [s_queue s_worker s_world].
  - by eapply grows_ok.
  - destruct r as [i|e|]; [|by rewrite Hnone..]. destruct Hc as (j & -> & Hj & _). by apply Forall_app_2; [|apply Forall_cons_2; [|apply Forall_nil_2]].
  - destruct r as [i|e|]; [|rewrite Hnone; exact Ho..]. destruct Hc as (j & Hjs & _ & Hfps). intros f n Hn.
    assert (jobs q !! length (jobs (s_queue s)) = Some j) as Hlast by (rewrite Hjs, lookup_app_r, Nat.sub_diag by lia; done).
    destruct Hfps as [Hfps|Hfps]; rewrite Hfps in Hn.
    + destruct (Ho f n Hn) as (j' & Hj' & Hfr). exists j'. by rewrite Hjs, (lookup_app_l_Some _ _ _ _ Hj').
    + destruct (decide (f = frame j)) as [->|Hnf].
      * rewrite lookup_insert_eq in Hn. injection Hn as <-. by exists j.
      * rewrite lookup_insert_ne in Hn by done. destruct (Ho f n Hn) as (j' & Hj' & Hfr). exists j'.
        by rewrite Hjs, (lookup_app_l_Some _ _ _ _ Hj').
  - intros i j Hb Hj. apply (He i j Hb). destruct (qo_busy _ _ _ Hq i Hb) as (-> & j' & Hj' & _).
    by rewrite (grows_lookup _ _ _ Hg) in Hj by (by eapply lookup_lt_Some).
  - done.
  - exists m'. split; [done|]. intros f Hkf. rewrite Hpr. by apply Hs'.
Qed.

(** A taint. *)
Lemma taint_meta base fr t (s : state V) k T :
  frame_key fr → text_ok t → meta_inv base s k T →
  let d := (updateFrameMetaLocked no_fault (w_disk (s_world s)) fr (taint_frame (readStampFile no_fault (w_disk (s_world s)) fr) t)).1 in
  meta_inv base (set_world s (set_disk (s_world s) d)) k ((fr, t) :: T).
Proof.
  intros Hk Ht [Hq Hp Ho He Hst (m & Hm & Hs)] d.
  destruct (update_keeps _ m fr (taint_frame (readStampFile no_fault (w_disk (s_world s)) fr) t) Hm Hst Hk) as [Hm' Hst'].
  { apply taint_frame_ok; [by apply Hst|done|]. by eapply meta_of_ok. }
  split; try done. eexists. split; [exact Hm'|]. intros f Hf. apply says_taint; [|by apply Hs].
  intros r Hr. by eapply recorded_nonempty.
Qed.

(** Captures, taints and the worker, in any order; indexing may fail in any way. *)
Definition orderly (lbl : label) : Prop :=
  match lbl with
  | LWorker e env => env = no_fault ∧ worker_fair e
  | LCapture _ _ fr _ => frame_key fr
  | LTaint env fr t => env = no_fault ∧ frame_key fr ∧ text_ok t
  | _ => False
  end.
Definition taints_of (l : list label) : list (gostring * gostring) :=
  omap (λ lbl, match lbl with LTaint _ fr t => Some (fr, t) | _ => None end) l.

Lemma run_meta base l : ∀ (s s' : state V) k T,
  Forall orderly l → meta_inv base s k T →
  run Major Minor zeroTime snapsDir setupMinimalRootfs l s = Some s' →
  ∃ k', meta_inv base s' k' (rev (taints_of l) ++ T).
Proof.
  induction l as [|lbl l IH]; intros s s' k T Hl Hi; cbn [run]; [intros [= <-]; by exists k|].
  apply Forall_cons in Hl as [Hlbl Hl]. destruct (step _ _ _ _ _ lbl s) as [s1|] eqn:Hs; [|done]. cbn [mbind option_bind].
  intros Hr. destruct lbl as [e env|env rands fr sub|env fr t| | | | |]; try done; cbn [step] in Hs.
  - destruct Hlbl as [-> Hfair]. destruct (worker_meta base e s s1 k T Hfair Hi Hs) as [k1 Hi1].
    exact (IH _ _ _ _ Hl Hi1 Hr).
  - pose proof (capture_meta base env rands fr sub s k T Hlbl Hi) as Hi1.
    destruct (captureSnapJobLocked _ _ _ _ _ _ _) as [[q w] r]. injection Hs as <-. exact (IH _ _ _ _ Hl Hi1 Hr).
  - destruct Hlbl as (-> & Hk & Ht). injection Hs as <-. pose proof (taint_meta base fr t s k T Hk Ht Hi) as Hi1.
    destruct (IH _ _ _ _ Hl Hi1 Hr) as [k' Hk']. exists k'. cbn [taints_of omap list_omap rev]. by rewrite <- app_assoc.
Qed.

Lemma start_meta base w : sidecars (w_disk w) base → stamps_ok (w_disk w) → meta_inv base (start w) 0 [].
Proof.
  intros Hm Hst. split; [apply start_ok|apply Forall_nil_2|done|done|exact Hst|]. exists base. split; [done|]. intros f _. unfold says, progress, recorded. cbn.
  split_and!; [done| |done]. intros t. rewrite elem_of_nil. tauto.
Qed.
End sidecars.

(** ** An example: one frame, snapped and tainted *)

#[local] Existing Instance plain.
#[local] Existing Instance meta_json.
#[local] Existing Instance frame_json.
#[local] Existing Instance zero_digest.

Abbreviation example_run :=
  (run (λ _, 0) (λ _, 0) 0 (abs_path example_dir) no_setup).
Definition workers (n : nat) : list label := replicate n (LWorker (no_faults 5) no_fault).
Definition snap_and_taint : list label := snap_twice ++ [LTaint no_fault example_frame (bs "pii")] ++ workers 15.
Definition snapped_tainted : state plain_volumes := default (start queue_world) (example_run snap_and_taint (start queue_world)).
Lemma run_snap_and_taint : example_run snap_and_taint (start queue_world) = Some snapped_tainted.
Proof. apply is_some_default. vm_compute. reflexivity. Qed.

Lemma example_text : text_closed (λ _, True).
Proof. by split. Qed.

Lemma example_frame_key : frame_key example_dir example_frame.
Proof. intros n. split; intros [e Heq]; vm_compute in Heq; discriminate Heq. Qed.

Lemma example_no_sidecars :
  holds (ok := frame_ok (λ _, True) (λ _, True)) (λ f : gostring, f ++ jsonc) (frame_key example_dir) (w_disk queue_world) ∅.
Proof.
  split; [|by intros k [x Hx]]. intros k Hk. rewrite lookup_empty. split; [by apply not_elem_of_empty|]. apply lookup_empty.
Qed.

(** C4: no update of a frame's metadata is lost. Captures, taints and the worker are
    interleaved in any way; captures and indexing may fail in any way, reads and writes
    of sidecars and stamps do not. When the queue has drained, the history of every
    frame is the results of its successful jobs, newest first, before what it was; its
    taints are those it had and those it was given since, no more; its root
    is that of the last successful full snap; and all jobs are done. *)
Theorem snap_metadata_not_lost `{Digest} `{Volumes V} {text_ok time_ok}
    `{!Json SnapMeta (meta_ok text_ok)} `{!Json Frame (frame_ok text_ok time_ok)}
    Major Minor zeroTime setup (dir : list gostring) base (w : world V) l (s : state V) :
  let sidecars := holds (ok := frame_ok text_ok time_ok) (λ f : gostring, f ++ jsonc) (frame_key dir) in
  Forall proper dir → dir ≠ [] → text_closed text_ok → time_ok 0 →
  sidecars (w_disk w) base → stamps_ok (text_ok := text_ok) dir (w_disk w) →
  Forall (orderly (text_ok := text_ok) (time_ok := time_ok) dir) l →
  run Major Minor zeroTime (abs_path dir) setup l (start w) = Some s →
  s_worker s = WIdle → pending (s_queue s) = [] →
  Forall (λ j, done j = true ∧ ended j) (jobs (s_queue s)) ∧
  ∃ m, sidecars (w_disk (s_world s)) m ∧ ∀ f, frame_key dir f →
    let results := omap (outcome_of f) (jobs (s_queue s)) in
    H_Snap <$> History (meta_of m f) = rev (fst <$> results) ++ (H_Snap <$> History (meta_of base f)) ∧
    (∀ t, t ∈ Taints (meta_of m f) ↔ t ∈ Taints (meta_of base f) ∨ (f, t) ∈ taints_of l) ∧
    (∀ r, last (omap snd results) = Some r → Rootfs (meta_of m f) = r).
Proof.
  intros sidecars Hd Hne Htc Hz Hb Hst Hl Hr Hw Hp.
  destruct (run_meta Major Minor zeroTime setup dir Hd Hne Htc Hz base l (start w) s 0 [] Hl) as [k Hi];
    [by apply start_meta|done|].
  pose proof (mi_queue _ _ _ _ _ Hi) as Hq. rewrite Hw in Hq.
  assert (k = length (jobs (s_queue s))) as Hk.
  { pose proof (qo_bound _ _ _ Hq). pose proof (qo_pending _ _ _ Hq) as Hpe. rewrite Hp in Hpe. cbn [busy] in Hpe.
    destruct (length (jobs (s_queue s)) - k)%nat eqn:Hlen; [lia|done]. }
  split.
  - apply Forall_lookup. intros i j Hj. apply (qo_done _ _ _ Hq i j Hj). rewrite Hk. by eapply lookup_lt_Some.
  - destruct (mi_meta _ _ _ _ _ Hi) as (m & Hm & Hs). exists m. split; [exact Hm|]. intros f Hf.
    specialize (Hs f Hf). rewrite Hw in Hs. unfold progress, recorded in Hs. cbn [past] in Hs. rewrite Hk, firstn_all in Hs.
    destruct Hs as (H1 & H2 & H3). split_and!; [done| |done]. intros t. rewrite H2, app_nil_r, !list_elem_of_In, <- in_rev. done.
Qed.

Lemma snap_metadata_not_lost_witness :
  let snap := replicate 43 "A"%byte ++ bs ":nil:nil" in
  ∃ m, holds (ok := frame_ok (λ _, True) (λ _, True)) (λ f : gostring, f ++ jsonc) (frame_key example_dir)
         (w_disk (s_world snapped_tainted)) m ∧
    H_Snap <$> History (meta_of m example_frame) = [snap; snap] ∧
    bs "pii" ∈ Taints (meta_of m example_frame) ∧ Rootfs (meta_of m example_frame) = replicate 43 "A"%byte.
Proof.
  intros snap.
  destruct (snap_metadata_not_lost (text_ok := λ _, True) (time_ok := λ _, True) (λ _, 0) (λ _, 0) 0 no_setup example_dir ∅ queue_world
    snap_and_taint snapped_tainted example_dir_proper example_dir_ne example_text I example_no_sidecars) as (_ & m & Hm & Hs).
  - intros f _. exact I.
  - unfold snap_and_taint, snap_twice, workers.
    repeat (apply Forall_app_2 || apply Forall_cons_2 || apply Forall_nil_2 || apply Forall_replicate);
      try exact example_frame_key; split; try reflexivity; try exact I. split; [exact example_frame_key|exact I].
  - exact run_snap_and_taint.
  - vm_compute. reflexivity.
  - vm_compute. reflexivity.
  - destruct (Hs example_frame example_frame_key) as (H1 & H2 & H3). exists m. split; [exact Hm|]. split_and!.
    + rewrite H1. vm_compute. reflexivity.
    + apply H2. right. vm_compute. left.
    + apply H3. vm_compute. reflexivity.
Defined.

(** ** Forks

    A fork reads its source's metadata first and writes the new frame's sidecar and
    stamp last, neither under the lock. If the worker finishes the captured snap in
    between, its update of the new frame is overwritten with the state before the fork. *)

Definition forked_frame : gostring := bs "/data/fs/g".
Definition fork_begins : list label :=
  [LForkRead no_fault example_frame forked_frame; LForkLocked 0 no_fault (names_from Byte.x0a)].
Definition fork_ends : list label := [LForkSidecar 0 no_fault 7; LForkStamp 0 no_fault].
Definition fork_record (l : list label) : option (list gostring * gostring * gostring) :=
  match example_run l (start queue_world) with
  | Some s =>
      let d := w_disk (s_world s) in
      m ← sidecar no_fault d forked_frame;
      Some (H_Snap <$> History m, Rootfs m, readStampFile no_fault d forked_frame)
  | None => None
  end.

Lemma fork_loses_update :
  let root := replicate 43 "A"%byte in
  fork_record (fork_begins ++ fork_ends ++ workers 10) = Some ([root ++ bs ":nil:nil"], root, root) ∧
  fork_record (fork_begins ++ workers 10 ++ fork_ends) = Some ([], [], []).
Proof. vm_compute. split; reflexivity. Qed.
