(* ===== verification/Nbd.v ===== *)
(** * The network block device ([src/infiniblock/])

    The server's negotiation and transmission phases over byte streams, against an
    interface of what a backend promises, the sparse file that implements it, and
    the client. A connection is the bytes the peer sends and a writer; flushing a
    buffered writer is one write. *)

From Stdlib Require Import Strings.String.
From S2P Require Import Prelude GoIO.

(** ** Protocol constants ([nbd.go]) *)

Definition nbdMagic : Z := 0x4e42444d41474943.
Definition ihaveoptMagic : Z := 0x49484156454f5054.
Definition optReplyMagic : Z := 0x3e889045565a9.
Definition requestMagic : Z := 0x25609513.
Definition simpleReplyMagic : Z := 0x67446698.

Definition nbdFlagFixedNewstyle : Z := 1.
Definition nbdFlagNoZeroes : Z := 2.
Definition nbdFlagCFixedNewstyle : Z := 1.
Definition nbdFlagCNoZeroes : Z := 2.
Definition nbdFlagHasFlags : Z := 1.
Definition nbdFlagSendFlush : Z := 4.
Definition nbdFlagSendTrim : Z := 32.

Definition nbdOptExportName : Z := 1.
Definition nbdOptAbort : Z := 2.
Definition nbdOptList : Z := 3.
Definition nbdOptInfo : Z := 6.
Definition nbdOptGo : Z := 7.

Definition nbdRepAck : Z := 1.
Definition nbdRepServer : Z := 2.
Definition nbdRepInfo : Z := 3.
Definition nbdRepErrUnsup : Z := 2 ^ 31 + 1.
Definition nbdRepErrTooBig : Z := 2 ^ 31 + 9.
Definition nbdInfoExport : Z := 0.

Definition nbdCmdRead : Z := 0.
Definition nbdCmdWrite : Z := 1.
Definition nbdCmdDisc : Z := 2.
Definition nbdCmdFlush : Z := 3.
Definition nbdCmdTrim : Z := 4.
Definition nbdCmdFlagFUA : Z := 1.

Definition nbdEOK : Z := 0.
Definition nbdEIO : Z := 5.
Definition nbdEInval : Z := 22.
Definition nbdEOverflow : Z := 75.
Definition nbdENotSup : Z := 95.

Definition DefaultExportSize : Z := Z.shiftl 15 40.

Record Request := MkRequest {
  Magic : Z;
  RFlags : Z;
  RType : Z;
  Handle : Z;
  Offset : Z;
  Length : Z;
}.
Definition RequestSize : nat := 28.

(** [binary.Read] of one big-endian integer of [n] bytes. *)
Definition read_uint (n : nat) (r : list byte) : outcome io_error (Z * list byte) :=
  '(p, r') ← ReadFull n r;
  Ret (be_get p, r').

(** [binary.Write] of a request, and [ReadRequest]. *)
Definition request_bytes (q : Request) : list byte :=
  put32 (Magic q) ++ put16 (RFlags q) ++ put16 (RType q) ++ put64 (Handle q)
    ++ put64 (Offset q) ++ put32 (Length q).

Definition ReadRequest (r : list byte) : outcome io_error (Request * list byte) :=
  '(p, r') ← ReadFull RequestSize r;
  Ret (MkRequest (be_get (take 4 p)) (be_get (take 2 (drop 4 p))) (be_get (take 2 (drop 6 p)))
         (be_get (take 8 (drop 8 p))) (be_get (take 8 (drop 16 p))) (be_get (take 4 (drop 24 p))), r').

Record SimpleReply := MkReply { RpMagic : Z; RpError : Z; RpHandle : Z }.
Definition WriteSimpleReply (handle errCode : Z) : list byte :=
  put32 simpleReplyMagic ++ put32 errCode ++ put64 handle.

(** ** Backends ([backend.go]) *)

Inductive backend_error := BackendEOF | BackendErr.

Class Backend (S : Type) := {
  ReadAt : S → Z → Z → S * list byte * option backend_error;   (* length, offset *)
  WriteAt : S → list byte → Z → S * option backend_error;
  Trim : S → Z → Z → S * option backend_error;             (* offset, length *)
  Sync : S → S * option backend_error;
}.

(** A sparse file: its logical size and the bytes that are not in a hole. *)
Record SparseFile := MkSparse { sf_size : Z; sf_bytes : gmap Z byte }.

Definition byte_at (f : SparseFile) (i : Z) : byte := default Byte.x00 (sf_bytes f !! i).

Definition positions (off n : Z) : list Z := (λ k, off + Z.of_nat k) <$> seq 0 (Z.to_nat n).

Definition sparse_read (f : SparseFile) (n off : Z) : SparseFile * list byte * option backend_error :=
  let avail := Z.min n (Z.max 0 (sf_size f - off)) in
  (f, byte_at f <$> positions off avail, if avail <? n then Some BackendEOF else None).

Fixpoint write_bytes (m : gmap Z byte) (data : list byte) (off : Z) : gmap Z byte :=
  match data with
  | [] => m
  | b :: data' => write_bytes (<[off := b]> m) data' (off + 1)
  end.

Definition sparse_write (f : SparseFile) (data : list byte) (off : Z)
    : SparseFile * option backend_error :=
  match data with
  | [] => (f, None)
  | _ => (MkSparse (Z.max (sf_size f) (off + Z.of_nat (length data)))
            (write_bytes (sf_bytes f) data off), None)
  end.

(** [fallocate] with [PUNCH_HOLE|KEEP_SIZE] refuses a length of zero. *)
Definition sparse_trim (f : SparseFile) (off n : Z) : SparseFile * option backend_error :=
  if n <=? 0 then (f, Some BackendErr)
  else (MkSparse (sf_size f) (filter (λ '(i, _), ¬ (off ≤ i < off + n)) (sf_bytes f)), None).

#[export] Instance SparseFile_backend : Backend SparseFile := {
  ReadAt := sparse_read;
  WriteAt := sparse_write;
  Trim := sparse_trim;
  Sync := λ f, (f, None);
}.

(** ** The server ([server.go]) *)

Definition maxOptionLen : Z := Z.shiftl 1 20.
Definition maxRequestLen : Z := Z.shiftl 32 20.

Record Server := MkServer { exportSize : Z; exportName : list byte }.

Definition NewServer (size : Z) (name : list byte) : Server :=
  MkServer (if size =? 0 then DefaultExportSize else size)
    (if bool_decide (name = []) then ["d"; "e"; "f"; "a"; "u"; "l"; "t"]%byte else name).

Inductive nbd_error :=
| nbd_io (e : io_error) | bad_option_magic (m : Z) | option_too_big (opt len : Z)
| unknown_option (opt : Z) | bad_request_magic (m : Z) | invalid_request (off len : Z).

Definition txFlags : Z := Z.lor nbdFlagHasFlags (Z.lor nbdFlagSendFlush nbdFlagSendTrim).

Definition sendOptReply (opt replyType : Z) (data : list byte) : list byte :=
  put64 optReplyMagic ++ put32 opt ++ put32 replyType ++ put32 (Z.of_nat (length data)) ++ data.

(** What follows one option: the next one, the transmission phase, or the end. *)
Inductive negotiation :=
| Haggle (r : list byte) (w : writer)
| Transmit (r : list byte) (w : writer)
| Hangup (w : writer) (e : nbd_error).

(** Write and flush, then go on. *)
Definition send (w : writer) (p : list byte) (k : writer → negotiation) : negotiation :=
  match Write w p with
  | (w', None) => k w'
  | (w', Some e) => Hangup w' (nbd_io e)
  end.

(** An option's code and length, or what is wrong with it. *)
Definition read_option (r : list byte) : outcome nbd_error (Z * Z * list byte) :=
  '(optMagic, r1) ← wrap_err nbd_io (read_uint 8 r);
  _ ← guard_err (negb (optMagic =? ihaveoptMagic)) (bad_option_magic optMagic);
  '(optCode, r2) ← wrap_err nbd_io (read_uint 4 r1);
  '(optLen, r3) ← wrap_err nbd_io (read_uint 4 r2);
  Ret (optCode, optLen, r3).

(** The answers to an option whose data was read. *)
Definition answer_option (s : Server) (clientFlags optCode : Z) (r : list byte) (w : writer)
    : negotiation :=
  if optCode =? nbdOptExportName then
    send w (put64 (exportSize s) ++ put16 txFlags
              ++ (if Z.land clientFlags nbdFlagCNoZeroes =? 0 then replicate 124 Byte.x00 else []))
      (Transmit r)
  else if optCode =? nbdOptAbort then
    Hangup (Write w (sendOptReply optCode nbdRepAck [])).1 (nbd_io EOF)
  else if (optCode =? nbdOptGo) || (optCode =? nbdOptInfo) then
    let info := put16 nbdInfoExport ++ put64 (exportSize s) ++ put16 txFlags in
    send w (sendOptReply optCode nbdRepInfo info ++ sendOptReply optCode nbdRepAck [])
      (λ w', if optCode =? nbdOptGo then Transmit r w' else Haggle r w')
  else if optCode =? nbdOptList then
    send w (sendOptReply optCode nbdRepServer
              (put32 (u32 (Z.of_nat (length (exportName s)))) ++ exportName s)
            ++ sendOptReply optCode nbdRepAck []) (Haggle r)
  else if Z.land clientFlags nbdFlagCFixedNewstyle =? 0 then Hangup w (unknown_option optCode)
  else send w (sendOptReply optCode nbdRepErrUnsup []) (Haggle r).

(** One round of the option loop. *)
Definition one_option (s : Server) (clientFlags : Z) (r : list byte) (w : writer) : negotiation :=
  match read_option r with
  | Err e => Hangup w e
  | Panic => Hangup w (nbd_io EOF)
  | Ret (optCode, optLen, r1) =>
      if maxOptionLen <? optLen then
        if negb (Z.land clientFlags nbdFlagCFixedNewstyle =? 0)
        then send w (sendOptReply optCode nbdRepErrTooBig []) (Haggle r1)
        else Hangup w (option_too_big optCode optLen)
      else
        match ReadFull (Z.to_nat optLen) r1 with
        | Ret (_, r2) => answer_option s clientFlags optCode r2 w
        | Err e => Hangup w (nbd_io e)
        | Panic => Hangup w (nbd_io EOF)
        end
  end.

(** The option loop; every round that goes on takes 16 bytes, so the number of
    bytes is fuel enough. *)
Fixpoint option_loop (fuel : nat) (s : Server) (clientFlags : Z) (r : list byte) (w : writer)
    : negotiation :=
  match one_option s clientFlags r w with
  | Haggle r' w' =>
      match fuel with S fuel' => option_loop fuel' s clientFlags r' w' | O => Haggle r' w' end
  | res => res
  end.

Definition greeting : list byte :=
  put64 nbdMagic ++ put64 ihaveoptMagic ++ put16 (Z.lor nbdFlagFixedNewstyle nbdFlagNoZeroes).

Definition handshake (s : Server) (r : list byte) (w : writer) : negotiation :=
  send w greeting (λ w1,
    match read_uint 4 r with
    | Ret (clientFlags, r1) => option_loop (length r1) s clientFlags r1 w1
    | Err e => Hangup w1 (nbd_io e)
    | Panic => Hangup w1 (nbd_io EOF)
    end).

(** *** Transmission *)

Definition validateRequest (s : Server) (req : Request) : Z :=
  if maxRequestLen <? Length req then nbdEInval
  else if exportSize s <? Offset req then nbdEInval
  else if u64 (exportSize s - Offset req) <? Length req then nbdEInval
  else
    let end_ := u64 (Offset req + Length req) in
    if (2 ^ 63 - 1 <? Offset req) || (2 ^ 63 - 1 <? end_) then nbdEOverflow else nbdEOK.

Section server.
Context {St : Type} `{Backend St}.

(** A handler: the backend after it and the reply that is flushed. *)
Definition handleRead (b : St) (req : Request) : St * list byte :=
  match ReadAt b (Length req) (i64 (Offset req)) with
  | (b', _, Some BackendErr) => (b', WriteSimpleReply (Handle req) nbdEIO)
  | (b', got, _) =>
      let data := got ++ replicate (Z.to_nat (Length req) - length got) Byte.x00 in
      (b', WriteSimpleReply (Handle req) nbdEOK ++ data)
  end.

Definition handleWrite (b : St) (req : Request) (data : list byte) : St * list byte :=
  match WriteAt b data (i64 (Offset req)) with
  | (b', Some _) => (b', WriteSimpleReply (Handle req) nbdEIO)
  | (b', None) =>
      if negb (Z.land (RFlags req) nbdCmdFlagFUA =? 0) then
        match Sync b' with
        | (b'', Some _) => (b'', WriteSimpleReply (Handle req) nbdEIO)
        | (b'', None) => (b'', WriteSimpleReply (Handle req) nbdEOK)
        end
      else (b', WriteSimpleReply (Handle req) nbdEOK)
  end.

Definition handleFlush (b : St) (req : Request) : St * list byte :=
  match Sync b with
  | (b', Some _) => (b', WriteSimpleReply (Handle req) nbdEIO)
  | (b', None) => (b', WriteSimpleReply (Handle req) nbdEOK)
  end.

Definition handleTrim (b : St) (req : Request) : St * list byte :=
  match Trim b (i64 (Offset req)) (Length req) with
  | (b', Some _) => (b', WriteSimpleReply (Handle req) nbdEIO)
  | (b', None) => (b', WriteSimpleReply (Handle req) nbdEOK)
  end.

(** What follows one request. *)
Inductive served :=
| Next (b : St) (r : list byte) (w : writer)
| Stop (b : St) (w : writer) (e : option nbd_error).

(** The reply of a handler, flushed. *)
Definition reply (res : St * list byte) (r : list byte) (w : writer) : served :=
  match Write w res.2 with
  | (w', None) => Next res.1 r w'
  | (w', Some e) => Stop res.1 w' (Some (nbd_io e))
  end.

(** The answer to an invalid request; the connection is dropped. *)
Definition reject (b : St) (req : Request) (ec : Z) (w : writer) : served :=
  Stop b (Write w (WriteSimpleReply (Handle req) ec)).1
    (Some (invalid_request (Offset req) (Length req))).

Definition one_request (s : Server) (b : St) (r : list byte) (w : writer) : served :=
  match ReadRequest r with
  | Err e => Stop b w (Some (nbd_io e))
  | Panic => Stop b w (Some (nbd_io EOF))
  | Ret (req, r1) =>
      if negb (Magic req =? requestMagic) then Stop b w (Some (bad_request_magic (Magic req)))
      else if RType req =? nbdCmdRead then
        let ec := validateRequest s req in
        if negb (ec =? nbdEOK) then reject b req ec w else reply (handleRead b req) r1 w
      else if RType req =? nbdCmdWrite then
        let ec := validateRequest s req in
        if negb (ec =? nbdEOK) then reject b req ec w
        else
          match ReadFull (Z.to_nat (Length req)) r1 with
          | Ret (data, r2) => reply (handleWrite b req data) r2 w
          | Err e => Stop b w (Some (nbd_io e))
          | Panic => Stop b w (Some (nbd_io EOF))
          end
      else if RType req =? nbdCmdDisc then Stop b w None
      else if RType req =? nbdCmdFlush then reply (handleFlush b req) r1 w
      else if RType req =? nbdCmdTrim then
        let ec := validateRequest s req in
        if negb (ec =? nbdEOK) then reject b req ec w else reply (handleTrim b req) r1 w
      else reply (b, WriteSimpleReply (Handle req) nbdENotSup) r1 w
  end.

(** The request loop; every request takes 28 bytes, so the number of bytes is fuel
    enough. *)
Fixpoint transmission (fuel : nat) (s : Server) (b : St) (r : list byte) (w : writer)
    : St * writer * option nbd_error :=
  match one_request s b r w with
  | Stop b' w' e => (b', w', e)
  | Next b' r' w' =>
      match fuel with
      | S fuel' => transmission fuel' s b' r' w'
      | O => (b', w', Some (nbd_io EOF))
      end
  end.

(** [handleConn]: the two phases. The second reads through a buffer of its own, so
    what the first has buffered behind the last option, [lost] bytes, is gone. *)
Definition handleConn (s : Server) (b : St) (r : list byte) (w : writer) (lost : nat)
    : St * writer * option nbd_error :=
  match handshake s r w with
  | Transmit r' w' => transmission (length (drop lost r')) s b (drop lost r') w'
  | Haggle _ w' => (b, w', Some (nbd_io EOF))
  | Hangup w' e => (b, w', Some e)
  end.
End server.

(** ** The client ([client.go]) *)

Inductive client_error :=
| client_io (e : io_error) | bad_magic (m : Z) | no_newstyle | bad_reply_magic (m : Z)
| unexpected_option (opt : Z) | handle_mismatch | server_error (code : Z).

(** What the connection still delivers, what was sent, and the negotiated export. *)
Record Client := MkClient {
  c_in : list byte;
  c_out : writer;
  c_size : Z;
  c_flags : Z;
  c_handle : Z;
}.

Definition SupportsFlush (c : Client) : bool := negb (Z.land (c_flags c) nbdFlagSendFlush =? 0).
Definition SupportsTrim (c : Client) : bool := negb (Z.land (c_flags c) nbdFlagSendTrim =? 0).

Definition option_bytes (opt : Z) (data : list byte) : list byte :=
  put64 ihaveoptMagic ++ put32 opt ++ put32 (u32 (Z.of_nat (length data))) ++ data.

Definition readOptReply (r : list byte) : outcome client_error (Z * Z * list byte * list byte) :=
  '(magic, r1) ← wrap_err client_io (read_uint 8 r);
  _ ← guard_err (negb (magic =? optReplyMagic)) (bad_reply_magic magic);
  '(opt, r2) ← wrap_err client_io (read_uint 4 r1);
  '(replyType, r3) ← wrap_err client_io (read_uint 4 r2);
  '(len, r4) ← wrap_err client_io (read_uint 4 r3);
  '(data, r5) ← wrap_err client_io (ReadFull (Z.to_nat len) r4);
  Ret (opt, replyType, data, r5).

(** The replies to [NBD_OPT_GO], up to the acknowledgement; each takes 20 bytes, so
    the number of bytes is fuel enough. *)
Fixpoint reply_loop (fuel : nat) (r : list byte) (size flags : Z)
    : outcome client_error (list byte * Z * Z) :=
  '(opt, replyType, data, r') ← readOptReply r;
  _ ← guard_err (negb (opt =? nbdOptGo)) (unexpected_option opt);
  _ ← guard_err (negb (Z.land replyType (2 ^ 31) =? 0)) (server_error replyType);
  if replyType =? nbdRepAck then Ret (r', size, flags)
  else
    let '(size', flags') :=
      if (replyType =? nbdRepInfo) && (12 <=? length data)%nat
         && (be_get (take 2 data) =? nbdInfoExport)
      then (be_get (take 8 (drop 2 data)), be_get (take 2 (drop 10 data))) else (size, flags) in
    match fuel with
    | S fuel' => reply_loop fuel' r' size' flags'
    | O => Err (client_io EOF)
    end.

Definition flush (w : writer) (p : list byte) : outcome client_error writer :=
  match Write w p with
  | (w', None) => Ret w'
  | (_, Some e) => Err (client_io e)
  end.

(** [Dial]'s handshake. *)
Definition client_handshake (r : list byte) (w : writer) : outcome client_error Client :=
  '(magic, r1) ← wrap_err client_io (read_uint 8 r);
  _ ← guard_err (negb (magic =? nbdMagic)) (bad_magic magic);
  '(optMagic, r2) ← wrap_err client_io (read_uint 8 r1);
  _ ← guard_err (negb (optMagic =? ihaveoptMagic)) no_newstyle;
  '(serverFlags, r3) ← wrap_err client_io (read_uint 2 r2);
  _ ← guard_err (Z.land serverFlags nbdFlagFixedNewstyle =? 0) no_newstyle;
  w1 ← flush w (put32 (Z.lor nbdFlagCFixedNewstyle nbdFlagCNoZeroes));
  w2 ← flush w1 (option_bytes nbdOptGo []);
  '(r4, size, flags) ← reply_loop (length r3) r3 0 0;
  Ret (MkClient r4 w2 size flags 0).

Definition readReply (r : list byte) : outcome client_error (SimpleReply * list byte) :=
  '(p, r') ← wrap_err client_io (ReadFull 16 r);
  let rep := MkReply (be_get (take 4 p)) (be_get (take 4 (drop 4 p))) (be_get (take 8 (drop 8 p))) in
  _ ← guard_err (negb (RpMagic rep =? simpleReplyMagic)) (bad_reply_magic (RpMagic rep));
  Ret (rep, r').

(** A request with its payload, its reply, and [n] bytes of data behind it. *)
Definition call (c : Client) (typ off len : Z) (payload : list byte) (n : nat)
    : Client * outcome client_error (list byte) :=
  let h := u64 (c_handle c + 1) in
  let c1 := MkClient (c_in c) (c_out c) (c_size c) (c_flags c) h in
  match flush (c_out c) (request_bytes (MkRequest requestMagic 0 typ h off len) ++ payload) with
  | Ret w =>
      let c2 r := MkClient r w (c_size c) (c_flags c) h in
      match readReply (c_in c) with
      | Ret (rep, r) =>
          if negb (RpHandle rep =? h) then (c2 r, Err handle_mismatch)
          else if negb (RpError rep =? nbdEOK) then (c2 r, Err (server_error (RpError rep)))
          else
            match ReadFull n r with
            | Ret (data, r') => (c2 r', Ret data)
            | Err e => (c2 r, Err (client_io e))
            | Panic => (c2 r, Panic)
            end
      | Err e => (c2 (c_in c), Err e)
      | Panic => (c2 (c_in c), Panic)
      end
  | Err e => (c1, Err e)
  | Panic => (c1, Panic)
  end.

Definition client_Read (c : Client) (n : nat) (off : Z) :=
  call c nbdCmdRead off (u32 (Z.of_nat n)) [] n.
Definition client_Write (c : Client) (p : list byte) (off : Z) :=
  call c nbdCmdWrite off (u32 (Z.of_nat (length p))) p 0.
Definition client_Trim (c : Client) (off len : Z) := call c nbdCmdTrim off (u32 len) [] 0.
Definition client_Flush (c : Client) := call c nbdCmdFlush 0 0 [] 0.

Definition client_Disconnect (c : Client) : outcome client_error Client :=
  let h := u64 (c_handle c + 1) in
  w ← flush (c_out c) (request_bytes (MkRequest requestMagic 0 nbdCmdDisc h 0 0));
  Ret (MkClient (c_in c) w (c_size c) (c_flags c) h).

(** ** Reading what was written *)

Definition request_ok (q : Request) : Prop :=
  is_u32 (Magic q) ∧ is_u16 (RFlags q) ∧ is_u16 (RType q) ∧ is_u64 (Handle q) ∧
  is_u64 (Offset q) ∧ is_u32 (Length q).

Lemma take_app_at {A} (l1 l2 : list A) n : length l1 = n → take n (l1 ++ l2) = l1.
Proof. intros <-. apply take_app_length. Qed.
Lemma drop_app_at {A} (l1 l2 : list A) n m : length l1 = n → drop (n + m) (l1 ++ l2) = drop m l2.
Proof. intros <-. by rewrite <- drop_drop, drop_app_length. Qed.

Lemma read_request q r : request_ok q → ReadRequest (request_bytes q ++ r) = Ret (q, r).
Proof.
  intros (H1 & H2 & H3 & H4 & H5 & H6). unfold ReadRequest.
  assert (length (request_bytes q) = 28%nat) as Hl by (unfold request_bytes; len_lia).
  rewrite (ReadFull_app RequestSize) by done. rewrite ret_bind. unfold request_bytes.
  pose proof (length_put32 (Magic q)). pose proof (length_put16 (RFlags q)).
  pose proof (length_put16 (RType q)). pose proof (length_put64 (Handle q)).
  pose proof (length_put64 (Offset q)). pose proof (length_put32 (Length q)).
  rewrite (drop_app_at _ _ 4 0), (drop_app_at _ _ 4 2), (drop_app_at _ _ 4 4),
    (drop_app_at _ _ 4 12), (drop_app_at _ _ 4 20) by done.
  rewrite (drop_app_at (put16 _) _ 2 0), (drop_app_at (put16 _) _ 2 2),
    (drop_app_at (put16 _) _ 2 10), (drop_app_at (put16 _) _ 2 18) by done.
  rewrite (drop_app_at (put16 _) _ 2 0), (drop_app_at (put16 _) _ 2 8),
    (drop_app_at (put16 _) _ 2 16) by done.
  rewrite (drop_app_at (put64 _) _ 8 0), (drop_app_at (put64 _) _ 8 8) by done.
  rewrite (drop_app_at (put64 _) _ 8 0) by done. rewrite !drop_0.
  rewrite !take_app_at by done. rewrite (take_ge (put32 (Length q))) by lia.
  rewrite !get_put32, !get_put16, !get_put64, !u32_id, !u16_id, !u64_id by done.
  by destruct q.
Qed.

Lemma read_uint_app n p r : length p = n → read_uint n (p ++ r) = Ret (be_get p, r).
Proof. intros Hp. unfold read_uint. by rewrite ReadFull_app. Qed.

Lemma read_put64 z r : is_u64 z → read_uint 8 (put64 z ++ r) = Ret (z, r).
Proof. intros Hz. rewrite read_uint_app by apply length_put64. by rewrite get_put64, u64_id. Qed.
Lemma read_put32 z r : is_u32 z → read_uint 4 (put32 z ++ r) = Ret (z, r).
Proof. intros Hz. rewrite read_uint_app by apply length_put32. by rewrite get_put32, u32_id. Qed.
Lemma read_put16 z r : is_u16 z → read_uint 2 (put16 z ++ r) = Ret (z, r).
Proof. intros Hz. rewrite read_uint_app by apply length_put16. by rewrite get_put16, u16_id. Qed.

Lemma read_simple_reply h e r :
  is_u64 h → is_u32 e →
  readReply (WriteSimpleReply h e ++ r) = Ret (MkReply simpleReplyMagic e h, r).
Proof.
  intros Hh He. unfold readReply. unfold WriteSimpleReply at 1.
  pose proof (length_put32 simpleReplyMagic). pose proof (length_put32 e). pose proof (length_put64 h).
  rewrite ReadFull_app by len_lia. rewrite wrap_ret, ret_bind.
  rewrite (drop_app_at _ _ 4 0), (drop_app_at _ _ 4 4), (drop_app_at (put32 e) _ 4 0) by done.
  rewrite !drop_0, !take_app_at by done. rewrite take_ge by lia.
  rewrite !get_put32, !get_put64, !u64_id by done. rewrite (u32_id e) by done. reflexivity.
Qed.

(** ** What a backend promises *)

(** The bytes of a device after a write and after a trim. *)
Definition dev_write (dev : Z → byte) (data : list byte) (off : Z) : Z → byte :=
  λ i, if (off <=? i) && (i <? off + Z.of_nat (length data)) then data !!! Z.to_nat (i - off) else dev i.
Definition dev_trim (dev : Z → byte) (off n : Z) : Z → byte :=
  λ i, if (off <=? i) && (i <? off + n) then Byte.x00 else dev i.

(** A backend is a device of bytes: reads see it, padded with zeros behind its end;
    writes and trims change the bytes they name and succeed; syncing changes nothing. *)
Class BlockDevice (St : Type) `{Backend St} := {
  good : St → Prop;
  view : St → Z → byte;
  law_read : ∀ b n off, good b → 0 ≤ n → 0 ≤ off →
    let '(b', got, e) := ReadAt b n off in
    e ≠ Some BackendErr ∧ good b' ∧ (∀ i, view b' i = view b i) ∧
    got ++ replicate (Z.to_nat n - length got) Byte.x00 = view b <$> positions off n;
  law_write : ∀ b data off, good b → 0 ≤ off →
    let '(b', e) := WriteAt b data off in
    e = None ∧ good b' ∧ ∀ i, view b' i = dev_write (view b) data off i;
  law_trim : ∀ b off n, good b → 0 ≤ off → 0 < n →
    let '(b', e) := Trim b off n in
    e = None ∧ good b' ∧ ∀ i, view b' i = dev_trim (view b) off n i;
  law_sync : ∀ b, good b → let '(b', e) := Sync b in
    e = None ∧ good b' ∧ ∀ i, view b' i = view b i;
}.

(** *** The sparse file keeps it *)

Definition sparse_ok (f : SparseFile) : Prop :=
  0 ≤ sf_size f ∧ ∀ i b, sf_bytes f !! i = Some b → 0 ≤ i < sf_size f.

Lemma length_positions off n : length (positions off n) = Z.to_nat n.
Proof. unfold positions. by rewrite length_fmap, length_seq. Qed.

Lemma positions_app off n m :
  0 ≤ n → 0 ≤ m → positions off (n + m) = positions off n ++ positions (off + n) m.
Proof.
  intros Hn Hm. unfold positions. rewrite Z2Nat.inj_add by lia. rewrite seq_app, fmap_app. f_equal.
  assert (seq (0 + Z.to_nat n) (Z.to_nat m) = Nat.add (Z.to_nat n) <$> seq 0 (Z.to_nat m)) as ->.
  { rewrite Nat.add_0_l. apply list_eq. intros i. rewrite list_lookup_fmap.
    destruct (decide (i < Z.to_nat m)%nat).
    - by rewrite !lookup_seq_lt by done.
    - by rewrite !lookup_seq_ge by lia. }
  rewrite <- list_fmap_compose. apply list_fmap_ext. intros i x _. cbn. lia.
Qed.

Lemma elem_of_positions i off n : i ∈ positions off n → off ≤ i < off + n.
Proof. unfold positions. intros (k & -> & Hk%elem_of_seq)%list_elem_of_fmap. lia. Qed.

Lemma write_bytes_lookup data : ∀ m off i,
  write_bytes m data off !! i =
  (if (off <=? i) && (i <? off + Z.of_nat (length data)) then data !! Z.to_nat (i - off) else m !! i).
Proof.
  induction data as [|b data IH]; intros m off i; cbn [write_bytes length].
  { replace (_ && _) with false by lia. done. }
  rewrite IH. destruct ((off + 1 <=? i) && (i <? off + 1 + Z.of_nat (length data))) eqn:H1.
  - replace ((off <=? i) && (i <? off + Z.of_nat (S (length data)))) with true by lia.
    replace (Z.to_nat (i - off)) with (S (Z.to_nat (i - (off + 1)))) by lia. done.
  - destruct (decide (i = off)) as [->|Hne].
    + rewrite lookup_insert_eq. replace (_ && _) with true by lia. by rewrite Z.sub_diag.
    + rewrite lookup_insert_ne by done. by replace ((off <=? i) && _) with false by lia.
Qed.

Lemma byte_at_write f data off i :
  byte_at (sparse_write f data off).1 i = dev_write (byte_at f) data off i.
Proof.
  destruct data as [|b data].
  { cbn [sparse_write fst]. unfold dev_write. cbn [length].
    by replace ((off <=? i) && (i <? off + Z.of_nat 0)) with false by lia. }
  unfold sparse_write, byte_at, dev_write. cbn [fst sf_bytes]. rewrite write_bytes_lookup.
  destruct (_ && _) eqn:Hin; [|done].
  destruct (lookup_lt_is_Some_2 (b :: data) (Z.to_nat (i - off))) as [x Hx]; [lia|].
  by rewrite Hx, (list_lookup_total_correct _ _ _ Hx).
Qed.

#[export] Program Instance SparseFile_device : BlockDevice SparseFile := {
  good := sparse_ok;
  view := byte_at;
}.
Next Obligation.
  intros f n off [Hs Hb] Hn Hoff. cbn [ReadAt SparseFile_backend]. unfold sparse_read.
  set (avail := Z.min n (Z.max 0 (sf_size f - off))). split; [by destruct (avail <? n)|].
  split; [done|]. split; [done|]. rewrite length_fmap, length_positions.
  replace n with (avail + (n - avail)) at 2 by lia. rewrite positions_app by lia.
  rewrite fmap_app. f_equal.
  replace (Z.to_nat n - Z.to_nat avail)%nat with (length (positions (off + avail) (n - avail)))
    by (rewrite length_positions; lia).
  apply replicate_as_elem_of. rewrite length_fmap. split; [done|].
  intros x Hx. apply list_elem_of_fmap in Hx as (i & -> & Hi).
  apply elem_of_positions in Hi. unfold byte_at.
  destruct (sf_bytes f !! i) as [b|] eqn:Hl; [|done].
  specialize (Hb i b Hl). lia.
Qed.
Next Obligation.
  intros f data off [Hs Hb] Hoff. cbn [WriteAt SparseFile_backend].
  pose proof (byte_at_write f data off) as Hv.
  destruct (sparse_write f data off) as [f' e] eqn:Hw. cbn [fst] in Hv.
  destruct data as [|b data]; injection Hw as <- <-; [by split_and!|]. split; [done|]. split; [|exact Hv].
  split; cbn [sf_size sf_bytes]; [lia|]. intros i x. rewrite write_bytes_lookup.
  destruct (_ && _) eqn:Hin; [intros _; lia|]. intros [[-> _]|[_ Hx]]%lookup_insert_Some; [lia|].
  specialize (Hb i x Hx). lia.
Qed.
Next Obligation.
  intros f off n [Hs Hb] Hoff Hn. cbn [Trim SparseFile_backend]. unfold sparse_trim.
  replace (n <=? 0) with false by lia. split; [done|]. split.
  - split; cbn [sf_size sf_bytes]; [done|]. intros i x [Hx _]%map_lookup_filter_Some.
    by apply (Hb i x).
  - intros i. unfold byte_at, dev_trim. cbn [sf_bytes].
    destruct (_ && _) eqn:Hin.
    + rewrite map_lookup_filter_None_2; [done|]. right. intros x Hx Hno. apply Hno. lia.
    + destruct (sf_bytes f !! i) as [x|] eqn:Hx.
      * rewrite (map_lookup_filter_Some_2 _ _ _ x); [done|done|]. lia.
      * rewrite map_lookup_filter_None_2; [done|]. by left.
Qed.
Next Obligation. intros f Hf. cbn [Sync SparseFile_backend]. by split_and!. Qed.

(** ** No call leaves the export *)

(** The calls a backend gets, oldest first, kept beside it. *)
Inductive backend_call :=
| CallRead (n off : Z) | CallWrite (n off : Z) | CallTrim (off n : Z) | CallSync.

#[export] Instance Logged_backend {St} `{Backend St} : Backend (St * list backend_call) := {
  ReadAt := λ b n off, let '(b', got, e) := ReadAt b.1 n off in ((b', b.2 ++ [CallRead n off]), got, e);
  WriteAt := λ b data off, let '(b', e) := WriteAt b.1 data off in
    ((b', b.2 ++ [CallWrite (Z.of_nat (length data)) off]), e);
  Trim := λ b off n, let '(b', e) := Trim b.1 off n in ((b', b.2 ++ [CallTrim off n]), e);
  Sync := λ b, let '(b', e) := Sync b.1 in ((b', b.2 ++ [CallSync]), e);
}.

Definition inside (s : Server) (off n : Z) : Prop :=
  0 ≤ off ∧ 0 ≤ n ≤ maxRequestLen ∧ off + n ≤ exportSize s ∧ off + n < 2 ^ 63.
Definition call_inside (s : Server) (c : backend_call) : Prop :=
  match c with
  | CallRead n off | CallWrite n off | CallTrim off n => inside s off n
  | CallSync => True
  end.

Lemma ReadRequest_range r q r' : ReadRequest r = Ret (q, r') → request_ok q.
Proof.
  unfold ReadRequest. intros Hq. apply bind_ret_inv in Hq as ([p r1] & Hf & Hq).
  injection Hq as <- <-. apply ReadFull_ret in Hf as [_ Hl]. unfold RequestSize in Hl.
  assert (∀ l n, length l = n → 0 ≤ be_get l < 256 ^ Z.of_nat n) as Hr by (intros l n <-; apply be_get_range).
  unfold request_ok, is_u32, is_u16, is_u64. cbn [Magic RFlags RType Handle Offset Length].
  pose proof (Hr (take 4 p) 4%nat ltac:(len_lia)). pose proof (Hr (take 2 (drop 4 p)) 2%nat ltac:(len_lia)).
  pose proof (Hr (take 2 (drop 6 p)) 2%nat ltac:(len_lia)).
  pose proof (Hr (take 8 (drop 8 p)) 8%nat ltac:(len_lia)).
  pose proof (Hr (take 8 (drop 16 p)) 8%nat ltac:(len_lia)).
  pose proof (Hr (take 4 (drop 24 p)) 4%nat ltac:(len_lia)).
  split_and!; lia.
Qed.

Lemma validate_inside s q :
  request_ok q → is_u64 (exportSize s) → validateRequest s q = nbdEOK →
  inside s (i64 (Offset q)) (Length q) ∧ i64 (Offset q) = Offset q.
Proof.
  intros (_ & _ & _ & _ & Ho & Hl) Hs. unfold validateRequest.
  destruct (maxRequestLen <? Length q) eqn:H1; [done|].
  destruct (exportSize s <? Offset q) eqn:H2; [done|].
  destruct (u64 (exportSize s - Offset q) <? Length q) eqn:H3; [done|].
  destruct (_ || _) eqn:H4; [done|]. intros _. unfold is_u64, is_u32 in *.
  rewrite u64_id in H3 by (unfold is_u64; lia). rewrite u64_id in H4 by (unfold is_u64; lia).
  rewrite i64_id by (unfold is_i64; lia). unfold inside. lia.
Qed.

Section log.
Context {St : Type} `{Backend St}.
Variable s : Server.
Hypothesis size_u64 : is_u64 (exportSize s).

(** The log of a step, if the request was valid. *)
Definition logged (b b' : St * list backend_call) : Prop :=
  ∃ calls, b'.2 = b.2 ++ calls ∧ Forall (call_inside s) calls.

Lemma logged_refl b : logged b b.
Proof. exists []. by rewrite app_nil_r. Qed.
Lemma logged_one b b' c : b'.2 = b.2 ++ [c] → call_inside s c → logged b b'.
Proof. intros Hl Hc. exists [c]. by repeat constructor. Qed.
Lemma logged_trans b1 b2 b3 : logged b1 b2 → logged b2 b3 → logged b1 b3.
Proof.
  intros (c1 & H1 & F1) (c2 & H2 & F2). exists (c1 ++ c2). rewrite H2, H1, app_assoc.
  split; [done|]. by apply Forall_app.
Qed.

Lemma logged_sync b : logged b (Sync b).1.
Proof. cbn. destruct (Sync b.1) as [b' e]. by apply (logged_one _ _ CallSync). Qed.

Lemma one_request_logged b r w :
  match one_request s b r w with Next b' _ _ | Stop b' _ _ => logged b b' end.
Proof.
  unfold one_request. destruct (ReadRequest r) as [[q r1]|e|] eqn:Hq; try apply logged_refl.
  apply ReadRequest_range in Hq.
  destruct (negb (Magic q =? requestMagic)); [apply logged_refl|].
  assert (∀ res r w, match reply res r w with Next b' _ _ | Stop b' _ _ => logged b b' end = logged b res.1)
    as Hreply by (intros res r0 w0; unfold reply; by destruct (GoIO.Write w0 res.2) as [w' [e|]]).
  destruct (RType q =? nbdCmdRead).
  { destruct (negb (validateRequest s q =? nbdEOK)) eqn:Hv; [apply logged_refl|]. rewrite Hreply.
    apply negb_false_iff, Z.eqb_eq in Hv. destruct (validate_inside s q Hq size_u64 Hv) as [Hin Ho].
    unfold handleRead. cbn [ReadAt Logged_backend].
    destruct (ReadAt b.1 (Length q) (i64 (Offset q))) as [[b' got] [[|]|]];
      by apply (logged_one _ _ (CallRead (Length q) (i64 (Offset q)))). }
  destruct (RType q =? nbdCmdWrite).
  { destruct (negb (validateRequest s q =? nbdEOK)) eqn:Hv; [apply logged_refl|].
    apply negb_false_iff, Z.eqb_eq in Hv. destruct (validate_inside s q Hq size_u64 Hv) as [Hin Ho].
    destruct (ReadFull (Z.to_nat (Length q)) r1) as [[data r2]|e|] eqn:Hd; try apply logged_refl.
    apply ReadFull_ret in Hd as [_ Hd]. rewrite Hreply.
    assert (Z.of_nat (length data) = Length q) as Hlen by (destruct Hin as (_ & ? & _); lia).
    unfold handleWrite. cbn [WriteAt Logged_backend].
    destruct (WriteAt b.1 data (i64 (Offset q))) as [b' e] eqn:Hw.
    set (b1 := (b', b.2 ++ [CallWrite (Z.of_nat (length data)) (i64 (Offset q))])).
    assert (logged b b1) as H1.
    { apply (logged_one _ _ (CallWrite (Z.of_nat (length data)) (i64 (Offset q)))); [done|].
      cbn [call_inside]. by rewrite Hlen. }
    destruct e; [exact H1|]. destruct (negb _); [|exact H1].
    pose proof (logged_sync b1) as H2. destruct (Sync b1) as [b2 [e|]]; cbn [fst] in *;
      by eapply logged_trans. }
  destruct (RType q =? nbdCmdDisc); [apply logged_refl|].
  destruct (RType q =? nbdCmdFlush).
  { rewrite Hreply. unfold handleFlush. pose proof (logged_sync b) as H1. by destruct (Sync b) as [b' [e|]]. }
  destruct (RType q =? nbdCmdTrim); [|rewrite Hreply; apply logged_refl].
  destruct (negb (validateRequest s q =? nbdEOK)) eqn:Hv; [apply logged_refl|]. rewrite Hreply.
  apply negb_false_iff, Z.eqb_eq in Hv. destruct (validate_inside s q Hq size_u64 Hv) as [Hin Ho].
  unfold handleTrim. cbn [Trim Logged_backend].
  destruct (Trim b.1 (i64 (Offset q)) (Length q)) as [b' [e|]];
    by apply (logged_one _ _ (CallTrim (i64 (Offset q)) (Length q))).
Qed.

Lemma transmission_logged fuel : ∀ b r w, logged b (transmission fuel s b r w).1.1.
Proof.
  induction fuel as [|fuel IH]; intros b r w; cbn [transmission];
    pose proof (one_request_logged b r w) as H1; destruct (one_request s b r w) as [b' r' w'|b' w' e];
    try exact H1.
  eapply logged_trans; [exact H1|apply IH].
Qed.
End log.

(** ** A session against the device it promises *)

Inductive cmd :=
| CmdRead (n : nat) (off : Z) | CmdWrite (data : list byte) (off : Z) | CmdTrim (off n : Z) | CmdFlush.

(** What the client does for a command. *)
Definition client_do (c : Client) (k : cmd) : Client * outcome client_error (list byte) :=
  match k with
  | CmdRead n off => client_Read c n off
  | CmdWrite data off => client_Write c data off
  | CmdTrim off n => client_Trim c off n
  | CmdFlush => client_Flush c
  end.
Fixpoint client_session (c : Client) (ks : list cmd)
    : Client * list (outcome client_error (list byte)) :=
  match ks with
  | [] => (c, [])
  | k :: ks' =>
      let '(c1, r) := client_do c k in
      let '(c2, rs) := client_session c1 ks' in (c2, r :: rs)
  end.

(** The device: every read gets what was last written or trimmed. *)
Definition dev_do (dev : Z → byte) (k : cmd) : (Z → byte) * list byte :=
  match k with
  | CmdRead n off => (dev, dev <$> positions off (Z.of_nat n))
  | CmdWrite data off => (dev_write dev data off, [])
  | CmdTrim off n => (dev_trim dev off n, [])
  | CmdFlush => (dev, [])
  end.
Fixpoint dev_session (dev : Z → byte) (ks : list cmd) : (Z → byte) * list (list byte) :=
  match ks with
  | [] => (dev, [])
  | k :: ks' =>
      let '(dev1, r) := dev_do dev k in
      let '(dev2, rs) := dev_session dev1 ks' in (dev2, r :: rs)
  end.

(** Commands inside the export; a trim of nothing is refused by the file system. *)
Definition cmd_ok (s : Server) (k : cmd) : Prop :=
  match k with
  | CmdRead n off => inside s off (Z.of_nat n)
  | CmdWrite data off => inside s off (Z.of_nat (length data))
  | CmdTrim off n => inside s off n ∧ 0 < n
  | CmdFlush => True
  end.

(** What a client sends for a command with handle [h], and the server's reply. *)
Definition cmd_request (k : cmd) (h : Z) : list byte :=
  match k with
  | CmdRead n off => request_bytes (MkRequest requestMagic 0 nbdCmdRead h off (Z.of_nat n))
  | CmdWrite data off =>
      request_bytes (MkRequest requestMagic 0 nbdCmdWrite h off (Z.of_nat (length data))) ++ data
  | CmdTrim off n => request_bytes (MkRequest requestMagic 0 nbdCmdTrim h off n)
  | CmdFlush => request_bytes (MkRequest requestMagic 0 nbdCmdFlush h 0 0)
  end.
Fixpoint session_requests (ks : list cmd) (h : Z) : list byte :=
  match ks with
  | [] => request_bytes (MkRequest requestMagic 0 nbdCmdDisc (h + 1) 0 0)
  | k :: ks' => cmd_request k (h + 1) ++ session_requests ks' (h + 1)
  end.
Fixpoint session_replies (rs : list (list byte)) (h : Z) : list byte :=
  match rs with
  | [] => []
  | r :: rs' => (WriteSimpleReply (h + 1) nbdEOK ++ r) ++ session_replies rs' (h + 1)
  end.

Lemma validate_ok s q :
  inside s (Offset q) (Length q) → is_u64 (exportSize s) → validateRequest s q = nbdEOK.
Proof.
  intros (H1 & [H2 H3] & H4 & H5) Hs. unfold validateRequest. unfold is_u64 in Hs.
  replace (maxRequestLen <? Length q) with false by lia.
  replace (exportSize s <? Offset q) with false by lia. rewrite !u64_id by (unfold is_u64; lia).
  replace (exportSize s - Offset q <? Length q) with false by lia.
  by replace ((2 ^ 63 - 1 <? Offset q) || (2 ^ 63 - 1 <? Offset q + Length q)) with false by lia.
Qed.

Lemma inside_request s off n typ h :
  inside s off n → is_u16 typ → is_u64 h → request_ok (MkRequest requestMagic 0 typ h off n).
Proof.
  intros (H1 & [H2 H3] & H4 & H5) Ht Hh. unfold maxRequestLen in H3.
  change (Z.shiftl 32 20) with 33554432 in H3.
  unfold request_ok, is_u32, is_u64, is_u16 in *. cbn [Magic RFlags RType Handle Offset Length].
  unfold requestMagic. lia.
Qed.

Section session.
Context {St : Type} `{BlockDevice St}.
Variable s : Server.
Hypothesis size_u64 : is_u64 (exportSize s).

(** A connection that accepts everything. *)
Lemma reply_open (res : St * list byte) r out :
  reply res r (Writer out None) = Next res.1 r (Writer (out ++ res.2) None).
Proof. done. Qed.

(** The server's side of one command. *)
Lemma serve_cmd b dev k h r out :
  good b → (∀ i, view b i = dev i) → cmd_ok s k → is_u64 h →
  ∃ b', one_request s b (cmd_request k h ++ r) (Writer out None)
      = Next b' r (Writer (out ++ WriteSimpleReply h nbdEOK ++ (dev_do dev k).2) None) ∧
    good b' ∧ ∀ i, view b' i = (dev_do dev k).1 i.
Proof.
  intros Hg Hv Hk Hh. unfold one_request. destruct k as [n off|data off|off n|]; cbn [cmd_ok cmd_request] in *.
  - rewrite read_request by (by apply (inside_request s)). cbn [Magic RType].
    change (negb (requestMagic =? requestMagic)) with false. change (nbdCmdRead =? nbdCmdRead) with true.
    cbv iota zeta. rewrite validate_ok by done. change (negb (nbdEOK =? nbdEOK)) with false. cbv iota.
    unfold handleRead. cbn [Length Offset Handle].
    assert (i64 off = off) as -> by (destruct Hk as (?&?&?&?); apply i64_id; unfold is_i64; lia).
    pose proof (law_read b (Z.of_nat n) off Hg ltac:(lia) ltac:(apply Hk)) as Hl.
    destruct (ReadAt b (Z.of_nat n) off) as [[b' got] e]. destruct Hl as (He & Hg' & Hv' & Hd).
    exists b'. cbn [dev_do fst snd].
    split; [|split; [done|intros i; by rewrite Hv', Hv]].
    destruct e as [[|]|]; [|done|]; rewrite Hd, reply_open; cbn [fst snd];
      do 4 f_equal; apply list_fmap_ext; intros; apply Hv.
  - rewrite <- app_assoc. rewrite read_request by (by apply (inside_request s)). cbn [Magic RType].
    change (negb (requestMagic =? requestMagic)) with false. change (nbdCmdWrite =? nbdCmdRead) with false.
    change (nbdCmdWrite =? nbdCmdWrite) with true. cbv iota zeta. rewrite validate_ok by done.
    change (negb (nbdEOK =? nbdEOK)) with false. cbv iota. cbn [Length].
    rewrite ReadFull_app by (by rewrite Nat2Z.id). unfold handleWrite. cbn [Length Offset Handle RFlags].
    assert (i64 off = off) as -> by (destruct Hk as (?&?&?&?); apply i64_id; unfold is_i64; lia).
    pose proof (law_write b data off Hg ltac:(apply Hk)) as Hl.
    destruct (WriteAt b data off) as [b' e]. destruct Hl as (-> & Hg' & Hv').
    change (negb (Z.land 0 nbdCmdFlagFUA =? 0)) with false. cbv iota. rewrite reply_open.
    exists b'. cbn [dev_do fst snd]. rewrite app_nil_r. split; [done|]. split; [done|].
    intros i. rewrite Hv'. unfold dev_write. by rewrite Hv.
  - destruct Hk as [Hk Hn]. rewrite read_request by (by apply (inside_request s)). cbn [Magic RType].
    change (negb (requestMagic =? requestMagic)) with false. change (nbdCmdTrim =? nbdCmdRead) with false.
    change (nbdCmdTrim =? nbdCmdWrite) with false. change (nbdCmdTrim =? nbdCmdDisc) with false.
    change (nbdCmdTrim =? nbdCmdFlush) with false. change (nbdCmdTrim =? nbdCmdTrim) with true.
    cbv iota zeta. rewrite validate_ok by done. change (negb (nbdEOK =? nbdEOK)) with false. cbv iota.
    unfold handleTrim. cbn [Length Offset Handle].
    assert (i64 off = off) as -> by (destruct Hk as (?&?&?&?); apply i64_id; unfold is_i64; lia).
    pose proof (law_trim b off n Hg ltac:(apply Hk) Hn) as Hl.
    destruct (Trim b off n) as [b' e]. destruct Hl as (-> & Hg' & Hv'). rewrite reply_open.
    exists b'. cbn [dev_do fst snd]. rewrite app_nil_r. split; [done|]. split; [done|].
    intros i. rewrite Hv'. unfold dev_trim. by rewrite Hv.
  - rewrite read_request.
    2: { unfold request_ok, is_u32, is_u16, is_u64, requestMagic, nbdCmdFlush in *. cbn. lia. }
    cbn [Magic RType].
    change (negb (requestMagic =? requestMagic)) with false. change (nbdCmdFlush =? nbdCmdRead) with false.
    change (nbdCmdFlush =? nbdCmdWrite) with false. change (nbdCmdFlush =? nbdCmdDisc) with false.
    change (nbdCmdFlush =? nbdCmdFlush) with true. cbv iota zeta.
    unfold handleFlush. cbn [Handle]. pose proof (law_sync b Hg) as Hl.
    destruct (Sync b) as [b' e]. destruct Hl as (-> & Hg' & Hv'). rewrite reply_open.
    exists b'. cbn [dev_do fst snd]. rewrite app_nil_r. split; [done|]. split; [done|].
    intros i. by rewrite Hv'.
Qed.

(** The client's side of one command, the reply being there. *)
Lemma call_ok out size flags h typ off len payload n res rest :
  0 ≤ h → h + 1 < 2 ^ 64 → length res = n →
  call (MkClient ((WriteSimpleReply (h + 1) nbdEOK ++ res) ++ rest) (Writer out None) size flags h)
    typ off len payload n
  = (MkClient rest (Writer (out ++ request_bytes (MkRequest requestMagic 0 typ (h + 1) off len) ++ payload) None)
       size flags (h + 1), Ret res).
Proof.
  intros Hh Hlt Hl. unfold call. cbn [c_handle c_out c_in c_size c_flags].
  rewrite u64_id by (unfold is_u64; lia). unfold flush, Write. cbn [w_left w_out].
  rewrite <- app_assoc. rewrite read_simple_reply by (unfold is_u64, is_u32, nbdEOK; lia).
  cbn [RpHandle RpError]. rewrite Z.eqb_refl. change (nbdEOK =? nbdEOK) with true. cbn [negb].
  by rewrite ReadFull_app.
Qed.

Lemma client_cmd out size flags h dev k rest :
  cmd_ok s k → 0 ≤ h → h + 1 < 2 ^ 64 →
  client_do (MkClient ((WriteSimpleReply (h + 1) nbdEOK ++ (dev_do dev k).2) ++ rest)
    (Writer out None) size flags h) k
  = (MkClient rest (Writer (out ++ cmd_request k (h + 1)) None) size flags (h + 1),
     Ret (dev_do dev k).2).
Proof.
  intros Hk Hh Hlt.
  assert (∀ n, 0 ≤ n ≤ maxRequestLen → u32 n = n) as Hu.
  { intros n Hn. unfold maxRequestLen in Hn. change (Z.shiftl 32 20) with 33554432 in Hn.
    apply u32_id. unfold is_u32. lia. }
  destruct k as [n off|data off|off n|]; cbn [client_do dev_do snd cmd_ok cmd_request] in *.
  - unfold client_Read. rewrite call_ok; [|done|done|by rewrite length_fmap, length_positions, Nat2Z.id].
    rewrite app_nil_r, Hu; [done|apply Hk].
  - unfold client_Write. rewrite call_ok by done. by rewrite Hu by apply Hk.
  - unfold client_Trim. rewrite call_ok by done. rewrite app_nil_r, Hu; [done|apply Hk].
  - unfold client_Flush. rewrite call_ok by done. by rewrite app_nil_r.
Qed.

(** The whole session, on both sides. *)
Lemma client_session_ok ks : ∀ dev out size flags h rest,
  Forall (cmd_ok s) ks → 0 ≤ h → h + Z.of_nat (length ks) + 1 < 2 ^ 64 →
  ∃ out', client_session (MkClient (session_replies (dev_session dev ks).2 h ++ rest)
      (Writer out None) size flags h) ks
    = (MkClient rest (Writer out' None) size flags (h + Z.of_nat (length ks)),
       Ret <$> (dev_session dev ks).2) ∧
    out' ++ request_bytes (MkRequest requestMagic 0 nbdCmdDisc (h + Z.of_nat (length ks) + 1) 0 0)
    = out ++ session_requests ks h.
Proof.
  induction ks as [|k ks IH]; intros dev out size flags h rest Hk Hh Hlt; cbn [client_session dev_session].
  { exists out. cbn [length session_replies snd app fmap list_fmap session_requests].
    change (Z.of_nat 0) with 0. by rewrite !Z.add_0_r. }
  apply Forall_cons in Hk as [Hk Hks]. cbn [length] in Hlt.
  pose proof (λ r, client_cmd out size flags h dev k r Hk Hh ltac:(lia)) as Hc.
  destruct (dev_do dev k) as [dev1 r1]. cbn [snd] in Hc.
  destruct (IH dev1 (out ++ cmd_request k (h + 1)) size flags (h + 1) rest Hks) as (out' & Hs & Ho); [lia..|].
  destruct (dev_session dev1 ks) as [dev2 rs]. cbn [snd session_replies] in *.
  rewrite <- app_assoc, Hc, Hs. exists out'. cbn [fmap list_fmap session_requests length].
  replace (h + Z.of_nat (S (length ks))) with (h + 1 + Z.of_nat (length ks)) by lia.
  split; [done|]. by rewrite Ho, <- app_assoc.
Qed.

Lemma cmd_request_nonempty k h : (28 ≤ length (cmd_request k h))%nat.
Proof.
  assert (∀ q, length (request_bytes q) = 28%nat) as Hl by (intros q; unfold request_bytes; len_lia).
  destruct k; cbn [cmd_request]; rewrite ?length_app, Hl; lia.
Qed.

Lemma serve_session ks : ∀ b dev out h fuel,
  good b → (∀ i, view b i = dev i) → Forall (cmd_ok s) ks → 0 ≤ h →
  h + Z.of_nat (length ks) + 1 < 2 ^ 64 → (length ks ≤ fuel)%nat →
  ∃ b', transmission fuel s b (session_requests ks h) (Writer out None)
      = (b', Writer (out ++ session_replies (dev_session dev ks).2 h) None, None) ∧
    good b' ∧ ∀ i, view b' i = (dev_session dev ks).1 i.
Proof.
  induction ks as [|k ks IH]; intros b dev out h fuel Hg Hv Hk Hh Hlt Hf.
  { exists b. cbn [session_requests dev_session fst snd session_replies]. rewrite app_nil_r.
    split; [|done].
    assert (one_request s b (request_bytes (MkRequest requestMagic 0 nbdCmdDisc (h + 1) 0 0)) (Writer out None)
      = Stop b (Writer out None) None) as Hstop.
    { unfold one_request. rewrite <- (app_nil_r (request_bytes _)). rewrite read_request; [done|].
      unfold request_ok, is_u32, is_u16, is_u64, requestMagic, nbdCmdDisc. cbn [length] in Hlt. cbn. lia. }
    destruct fuel; cbn [transmission]; by rewrite Hstop. }
  apply Forall_cons in Hk as [Hk Hks]. cbn [length] in Hlt, Hf. destruct fuel as [|fuel]; [lia|].
  cbn [session_requests transmission dev_session].
  destruct (serve_cmd b dev k (h + 1) (session_requests ks (h + 1)) out Hg Hv Hk) as (b1 & Ho & Hg1 & Hv1);
    [unfold is_u64; lia|]. rewrite Ho.
  destruct (dev_do dev k) as [dev1 r1]. cbn [fst snd] in *.
  destruct (IH b1 dev1 (out ++ WriteSimpleReply (h + 1) nbdEOK ++ r1) (h + 1) fuel) as (b2 & Ht & Hg2 & Hv2);
    try done; try lia.
  destruct (dev_session dev1 ks) as [dev2 rs]. cbn [fst snd session_replies] in *.
  exists b2. by rewrite Ht, <- !app_assoc.
Qed.

Lemma session_requests_length ks h : (length ks ≤ length (session_requests ks h))%nat.
Proof.
  revert h. induction ks as [|k ks IH]; intros h; cbn [session_requests length]; [lia|].
  rewrite length_app. pose proof (cmd_request_nonempty k (h + 1)). specialize (IH (h + 1)). lia.
Qed.

(** *** Negotiation *)

Definition client_hello : list byte :=
  put32 (Z.lor nbdFlagCFixedNewstyle nbdFlagCNoZeroes) ++ option_bytes nbdOptGo [].
Definition export_info : list byte := put16 nbdInfoExport ++ put64 (exportSize s) ++ put16 txFlags.
Definition server_hello : list byte :=
  greeting ++ sendOptReply nbdOptGo nbdRepInfo export_info ++ sendOptReply nbdOptGo nbdRepAck [].

Lemma read_option_bytes opt data r :
  is_u32 opt → Z.of_nat (length data) < 2 ^ 32 →
  read_option (option_bytes opt data ++ r) = Ret (opt, Z.of_nat (length data), data ++ r).
Proof.
  intros Ho Hd. unfold read_option, option_bytes. rewrite <- !app_assoc.
  rewrite read_put64 by (vm_compute; split; congruence). rewrite wrap_ret, ret_bind, Z.eqb_refl. cbn [negb].
  rewrite guard_false_bind, read_put32, wrap_ret, ret_bind by done.
  rewrite u32_id by (unfold is_u32; lia).
  rewrite read_put32, wrap_ret, ret_bind by (unfold is_u32; lia). done.
Qed.

Lemma server_negotiates r out :
  handshake s (client_hello ++ r) (Writer out None) = Transmit r (Writer (out ++ server_hello) None).
Proof.
  unfold handshake, send at 1, Write. cbn [w_left w_out]. unfold client_hello. rewrite <- app_assoc.
  rewrite read_put32 by (vm_compute; split; congruence). 
  assert (∀ fuel w, option_loop fuel s (Z.lor nbdFlagCFixedNewstyle nbdFlagCNoZeroes)
      (option_bytes nbdOptGo [] ++ r) (Writer w None)
    = Transmit r (Writer (w ++ sendOptReply nbdOptGo nbdRepInfo export_info
                            ++ sendOptReply nbdOptGo nbdRepAck []) None)) as Hloop.
  { intros fuel w.
    assert (one_option s (Z.lor nbdFlagCFixedNewstyle nbdFlagCNoZeroes) (option_bytes nbdOptGo [] ++ r)
        (Writer w None) = Transmit r (Writer (w ++ sendOptReply nbdOptGo nbdRepInfo export_info
                            ++ sendOptReply nbdOptGo nbdRepAck []) None)) as Hone.
    { unfold one_option. rewrite read_option_bytes by (vm_compute; done). cbn [length app].
      change (maxOptionLen <? Z.of_nat 0) with false. cbv iota. change (Z.to_nat (Z.of_nat 0)) with 0%nat.
      assert (ReadFull 0 r = Ret ([], r)) as -> by done. reflexivity. }
    destruct fuel; cbn [option_loop]; by rewrite Hone. }
  rewrite Hloop. unfold server_hello. by rewrite <- app_assoc.
Qed.

Lemma read_opt_reply opt typ data r :
  is_u32 opt → is_u32 typ → Z.of_nat (length data) < 2 ^ 32 →
  readOptReply (sendOptReply opt typ data ++ r) = Ret (opt, typ, data, r).
Proof.
  intros Ho Ht Hd. unfold readOptReply, sendOptReply. rewrite <- !app_assoc.
  rewrite read_put64 by (vm_compute; split; congruence). rewrite wrap_ret, ret_bind, Z.eqb_refl. cbn [negb].
  rewrite guard_false_bind, read_put32, wrap_ret, ret_bind by done.
  rewrite read_put32, wrap_ret, ret_bind by done.
  rewrite read_put32, wrap_ret, ret_bind by (unfold is_u32; lia).
  by rewrite ReadFull_app, wrap_ret, ret_bind by (by rewrite Nat2Z.id).
Qed.

Lemma client_negotiates rest out :
  client_handshake (server_hello ++ rest) (Writer out None)
  = Ret (MkClient rest (Writer (out ++ client_hello) None) (exportSize s) txFlags 0).
Proof.
  unfold client_handshake, server_hello, greeting. rewrite <- !app_assoc.
  rewrite read_put64 by (vm_compute; split; congruence). rewrite wrap_ret, ret_bind, Z.eqb_refl. cbn [negb].
  rewrite guard_false_bind, read_put64 by (vm_compute; split; congruence).
  rewrite wrap_ret, ret_bind, Z.eqb_refl. cbn [negb]. rewrite guard_false_bind.
  rewrite read_put16 by (vm_compute; split; congruence). rewrite wrap_ret, ret_bind.
  change (Z.land (Z.lor nbdFlagFixedNewstyle nbdFlagNoZeroes) nbdFlagFixedNewstyle =? 0) with false.
  rewrite guard_false_bind. unfold flush, Write. cbn [w_left w_out]. rewrite !ret_bind.
  assert (length export_info = 12%nat) as Hinfo by (unfold export_info; len_lia).
  assert (∀ fuel, (1 ≤ fuel)%nat →
    reply_loop fuel (sendOptReply nbdOptGo nbdRepInfo export_info
      ++ sendOptReply nbdOptGo nbdRepAck [] ++ rest) 0 0 = Ret (rest, exportSize s, txFlags)) as Hloop.
  { intros [|fuel] Hf; [lia|]. cbn [reply_loop].
    rewrite read_opt_reply by (try (vm_compute; done); lia). rewrite ret_bind.
    change (negb (nbdOptGo =? nbdOptGo)) with false. rewrite guard_false_bind.
    change (negb (Z.land nbdRepInfo (2 ^ 31) =? 0)) with false. rewrite guard_false_bind.
    change (nbdRepInfo =? nbdRepAck) with false. cbv iota. rewrite Hinfo.
    assert (be_get (take 2 export_info) = nbdInfoExport ∧ be_get (take 8 (drop 2 export_info)) = exportSize s ∧
      be_get (take 2 (drop 10 export_info)) = txFlags) as (-> & -> & ->).
    { unfold export_info. pose proof (length_put16 nbdInfoExport). pose proof (length_put64 (exportSize s)).
      rewrite (drop_app_at _ _ 2 0), (drop_app_at _ _ 2 8), (drop_app_at _ _ 8 0) by done.
      rewrite !drop_0, !take_app_at by done. rewrite take_ge by (rewrite length_put16; lia).
      rewrite !get_put16, get_put64, u64_id by done. split_and!; vm_compute; reflexivity. }
    change ((nbdRepInfo =? nbdRepInfo) && (12 <=? 12)%nat && (nbdInfoExport =? nbdInfoExport)) with true.
    cbv iota beta zeta.
    assert (reply_loop fuel (sendOptReply nbdOptGo nbdRepAck [] ++ rest) (exportSize s) txFlags
      = Ret (rest, exportSize s, txFlags)) as ->; [|done].
    destruct fuel; cbn [reply_loop]; by rewrite read_opt_reply by (vm_compute; done).
    all: done. }
  rewrite Hloop.
  - unfold client_hello. rewrite (app_assoc out). reflexivity.
  - rewrite length_app. unfold sendOptReply. len_lia.
  - done.
  - done.
Qed.
End session.

(** ** Connections end *)

Section ends.
Context {St : Type} `{Backend St}.
Variable s : Server.

(** Serving requests, and haggling, without a bound on the number of rounds. *)
Inductive serves : St → list byte → writer → St * writer * option nbd_error → Prop :=
| serves_stop b r w b' w' e : one_request s b r w = Stop b' w' e → serves b r w (b', w', e)
| serves_next b r w b' r' w' res :
    one_request s b r w = Next b' r' w' → serves b' r' w' res → serves b r w res.

Inductive haggles (clientFlags : Z) : list byte → writer → negotiation → Prop :=
| haggles_done r w r' w' : one_option s clientFlags r w = Transmit r' w' →
    haggles clientFlags r w (Transmit r' w')
| haggles_hangup r w w' e : one_option s clientFlags r w = Hangup w' e →
    haggles clientFlags r w (Hangup w' e)
| haggles_again r w r' w' n :
    one_option s clientFlags r w = Haggle r' w' → haggles clientFlags r' w' n →
    haggles clientFlags r w n.

Lemma ReadRequest_takes r q r' : ReadRequest r = Ret (q, r') → (length r' + 28 ≤ length r)%nat.
Proof.
  unfold ReadRequest. intros Hq. apply bind_ret_inv in Hq as ([p r1] & Hf & Hq).
  injection Hq as <- <-. apply ReadFull_ret in Hf as [-> Hl]. unfold RequestSize in Hl. len_lia.
Qed.

Lemma reply_next (res : St * list byte) r w b' r' w' : reply res r w = Next b' r' w' → r' = r.
Proof. unfold reply. destruct (GoIO.Write w res.2) as [w1 [e|]]; [done|]. by intros [= _ <- _]. Qed.

Lemma one_request_takes b r w b' r' w' :
  one_request s b r w = Next b' r' w' → (length r' + 28 ≤ length r)%nat.
Proof.
  unfold one_request. destruct (ReadRequest r) as [[q r1]|e|] eqn:Hq; [|done..].
  apply ReadRequest_takes in Hq. intros Hn.
  repeat match type of Hn with
  | (if ?c then _ else _) = _ => destruct c
  | match ReadFull ?n ?x with _ => _ end = _ => destruct (ReadFull n x) as [[data r2]|e|] eqn:Hd
  | reject _ _ _ _ = _ => discriminate Hn
  | Stop _ _ _ = _ => discriminate Hn
  | reply _ _ _ = _ => apply reply_next in Hn as ->
  end; try exact Hq.
  apply ReadFull_ret in Hd as [-> _]. revert Hq. len_lia.
Qed.

Lemma read_uint_takes n r z r' : read_uint n r = Ret (z, r') → (length r = length r' + n)%nat.
Proof.
  unfold read_uint. intros Hq. apply bind_ret_inv in Hq as ([p r1] & Hf & Hq).
  injection Hq as _ <-. apply ReadFull_ret in Hf as [-> Hl]. len_lia.
Qed.

Lemma read_option_takes r opt len r' :
  read_option r = Ret (opt, len, r') → (length r = length r' + 16)%nat.
Proof.
  unfold read_option. intros Hq.
  apply bind_ret_inv in Hq as ([m r1] & H1%wrap_err_inv%read_uint_takes & Hq).
  apply bind_ret_inv in Hq as (u & _ & Hq).
  apply bind_ret_inv in Hq as ([o r2] & H2%wrap_err_inv%read_uint_takes & Hq).
  apply bind_ret_inv in Hq as ([l r3] & H3%wrap_err_inv%read_uint_takes & Hq).
  injection Hq as _ _ <-. lia.
Qed.

Lemma send_haggle w p r0 r' w' : send w p (Haggle r0) = Haggle r' w' → r' = r0.
Proof. unfold send. destruct (Write w p) as [w1 [e|]]; [done|]. by intros [= <- _]. Qed.

Lemma one_option_takes cf r w r' w' :
  one_option s cf r w = Haggle r' w' → (length r' + 16 ≤ length r)%nat.
Proof.
  unfold one_option. destruct (read_option r) as [[[opt len] r1]|e|] eqn:Hq; [|done..].
  apply read_option_takes in Hq. destruct (maxOptionLen <? len).
  { destruct (negb _); [|done]. intros ->%send_haggle. lia. }
  destruct (ReadFull (Z.to_nat len) r1) as [[data r2]|e|] eqn:Hd; [|done..].
  apply ReadFull_ret in Hd as [-> _]. rewrite length_app in Hq.
  unfold answer_option. intros Hn.
  assert (∀ p (k : writer → negotiation) w, (∀ v, k v = Haggle r' w' → r' = r2) →
    send w p k = Haggle r' w' → r' = r2) as Hsend.
  { intros p k v Hk. unfold send. destruct (Write v p) as [w1 [e|]]; [done|]. apply Hk. }
  assert (r' = r2) as ->; [|lia].
  repeat match type of Hn with
  | (if ?c then _ else _) = _ => destruct c
  | Hangup _ _ = _ => discriminate Hn
  | send _ _ _ = _ => apply Hsend in Hn; [exact Hn|]
  end; intros v; try destruct (_ =? _); congruence.
Qed.

(** C20: every connection comes to an end on its own: with one round for each 28 bytes of
    requests (16 bytes of options) the loops give what the unbounded ones would, whatever
    the client sends and the backend answers. *)
Theorem nbd_connection_ends :
  (∀ fuel b r w, (length r / 28 ≤ fuel)%nat → serves b r w (transmission fuel s b r w)) ∧
  (∀ fuel cf r w, (length r / 16 ≤ fuel)%nat → haggles cf r w (option_loop fuel s cf r w)).
Proof.
  split.
  - induction fuel as [|fuel IH]; intros b r w Hf; cbn [transmission];
      destruct (one_request s b r w) as [b' r' w'|b' w' e] eqn:Hone; try by constructor.
    + apply one_request_takes in Hone. pose proof (Nat.div_le_lower_bound (length r) 28 1). lia.
    + apply (serves_next _ _ _ _ _ _ _ Hone), IH. apply one_request_takes in Hone.
      pose proof (Nat.Div0.div_le_mono (length r' + 1 * 28) (length r) 28 ltac:(lia)) as Hd.
      rewrite Nat.div_add in Hd by lia. lia.
  - induction fuel as [|fuel IH]; intros cf r w Hf; cbn [option_loop];
      destruct (one_option s cf r w) as [r' w'|r' w'|w' e] eqn:Hone; try by constructor.
    + apply one_option_takes in Hone. pose proof (Nat.div_le_lower_bound (length r) 16 1). lia.
    + apply (haggles_again _ _ _ _ _ _ Hone), IH. apply one_option_takes in Hone.
      pose proof (Nat.Div0.div_le_mono (length r' + 1 * 16) (length r) 16 ltac:(lia)) as Hd.
      rewrite Nat.div_add in Hd by lia. lia.
Qed.
End ends.

(** ** What the block device service promises *)

(** C6: the server is the device of bytes it exports. A client that connects, sends any
    sequence of reads, writes, trims and flushes inside the export and disconnects
    learns the export's size and flags and gets, for every command, what an array of
    bytes would answer; the backend ends as that array. The bytes each side receives
    are exactly those the other one sends. *)
Theorem nbd_session_is_device {St} `{BlockDevice St} (s : Server) (b : St) (ks : list cmd) :
  is_u64 (exportSize s) → good b → Forall (cmd_ok s) ks → Z.of_nat (length ks) + 1 < 2 ^ 64 →
  let sent := client_hello ++ session_requests ks 0 in
  let device := dev_session (view b) ks in
  ∃ answer b' c c' c'',
    handleConn s b sent (Writer [] None) 0 = (b', Writer answer None, None) ∧
    client_handshake answer (Writer [] None) = Ret c ∧
    c_size c = exportSize s ∧ SupportsFlush c = true ∧ SupportsTrim c = true ∧
    client_session c ks = (c', Ret <$> device.2) ∧
    client_Disconnect c' = Ret c'' ∧ c_in c'' = [] ∧ w_out (c_out c'') = sent ∧
    good b' ∧ ∀ i, view b' i = device.1 i.
Proof.
  intros Hs Hg Hk Hlen sent device.
  destruct (serve_session s Hs ks b (view b) (server_hello s) 0 (length (session_requests ks 0)) Hg)
    as (b' & Ht & Hg' & Hv'); [done|done|lia|lia|apply session_requests_length|].
  destruct (client_session_ok s ks (view b) client_hello (exportSize s) txFlags 0 [] Hk)
    as (out & Hc & Ho); [lia|lia|].
  rewrite app_nil_r in Hc. rewrite Z.add_0_l in Hc, Ho. fold device in Ht, Hc, Hv'.
  exists (server_hello s ++ session_replies device.2 0), b'. do 3 eexists.
  split; [|split; [by apply client_negotiates|]].
  { unfold handleConn, sent. rewrite server_negotiates by done. by rewrite drop_0, app_nil_l. }
  cbn [c_size app]. unfold SupportsFlush, SupportsTrim. cbn [c_flags].
  split; [done|]. split; [done|]. split; [done|]. split; [exact Hc|].
  unfold client_Disconnect. cbn [c_in c_out c_size c_flags c_handle].
  rewrite u64_id by (unfold is_u64; lia). unfold flush, Write. cbn [w_left w_out]. rewrite ret_bind.
  split; [done|]. cbn [c_in c_out w_out]. by rewrite Ho.
Qed.

Definition example_server : Server := NewServer 64 [].
Definition example_cmds : list cmd :=
  [CmdWrite [Byte.x61; Byte.x62; Byte.x63; Byte.x64] 10; CmdTrim 11 2; CmdRead 6 9; CmdFlush; CmdRead 4 60].

Lemma example_cmds_ok : Forall (cmd_ok example_server) example_cmds.
Proof.
  unfold example_cmds. repeat apply Forall_cons_2; try apply Forall_nil_2;
    repeat split; vm_compute; congruence.
Qed.

Lemma example_device : (dev_session (byte_at (MkSparse 0 ∅)) example_cmds).2
  = [[]; []; [Byte.x00; Byte.x61; Byte.x00; Byte.x00; Byte.x64; Byte.x00]; []; replicate 4 Byte.x00].
Proof. vm_compute. reflexivity. Qed.

Lemma nbd_session_is_device_witness :
  let b := MkSparse 0 ∅ in
  let sent := client_hello ++ session_requests example_cmds 0 in
  let device := dev_session (view b) example_cmds in
  ∃ answer b' c c' c'',
    handleConn example_server b sent (Writer [] None) 0 = (b', Writer answer None, None) ∧
    client_handshake answer (Writer [] None) = Ret c ∧
    c_size c = 64 ∧ SupportsFlush c = true ∧ SupportsTrim c = true ∧
    client_session c example_cmds = (c', Ret <$> device.2) ∧
    client_Disconnect c' = Ret c'' ∧ c_in c'' = [] ∧ w_out (c_out c'') = sent ∧
    good b' ∧ ∀ i, view b' i = device.1 i.
Proof.
  apply (nbd_session_is_device example_server (MkSparse 0 ∅) example_cmds).
  - unfold is_u64. cbn. lia.
  - split; [done|]. intros i b Hb. cbn in Hb. by rewrite lookup_empty in Hb.
  - exact example_cmds_ok.
  - cbn. lia.
Defined.

(** whatever a client sends, over however broken a connection, the backend is only
    ever asked for byte ranges inside the export, of at most 32 MiB, whose end fits an
    int64. *)
Theorem nbd_calls_inside {St} `{Backend St} (s : Server) (b : St) (r : list byte) (w : writer)
    (lost : nat) :
  is_u64 (exportSize s) →
  Forall (call_inside s) (handleConn s (b, []) r w lost).1.1.2.
Proof.
  intros Hs. unfold handleConn. destruct (handshake s r w) as [r' w'|r' w'|w' e]; [by apply Forall_nil_2| |by apply Forall_nil_2].
  destruct (transmission_logged s Hs (length (drop lost r')) (b, []) (drop lost r') w') as (calls & Hc & Hf).
  cbn [snd app] in Hc. by rewrite Hc.
Qed.

(** A request for the last byte of the export, and one that reaches behind it. *)
Definition example_greedy : list byte :=
  client_hello ++ request_bytes (MkRequest requestMagic 0 nbdCmdRead 1 63 1)
    ++ request_bytes (MkRequest requestMagic 0 nbdCmdTrim 2 63 2).

Lemma example_greedy_calls :
  (handleConn example_server (MkSparse 0 ∅, []) example_greedy (Writer [] None) 0).1.1.2 = [CallRead 1 63].
Proof. vm_compute. reflexivity. Qed.

Lemma nbd_calls_inside_witness :
  Forall (call_inside example_server)
    (handleConn example_server (MkSparse 0 ∅, []) example_greedy (Writer [] None) 0).1.1.2.
Proof.
  apply (nbd_calls_inside example_server (MkSparse 0 ∅) example_greedy (Writer [] None) 0).
  unfold is_u64. cbn. lia.
Defined.

(** *** Errors *)

(** The commands that name a range of the export. *)
Definition ranged (typ : Z) : bool :=
  (typ =? nbdCmdRead) || (typ =? nbdCmdWrite) || (typ =? nbdCmdTrim).

(** The backend call a valid request makes fails and leaves [b']. *)
Definition call_fails {St} `{Backend St} (b : St) (q : Request) (data : list byte) (b' : St) : Prop :=
  (RType q = nbdCmdRead ∧ data = [] ∧
     ∃ got, ReadAt b (Length q) (i64 (Offset q)) = (b', got, Some BackendErr)) ∨
  (RType q = nbdCmdWrite ∧ length data = Z.to_nat (Length q) ∧
     ∃ e, WriteAt b data (i64 (Offset q)) = (b', Some e)) ∨
  (RType q = nbdCmdWrite ∧ length data = Z.to_nat (Length q) ∧ Z.land (RFlags q) nbdCmdFlagFUA ≠ 0 ∧
     ∃ b1 e, WriteAt b data (i64 (Offset q)) = (b1, None) ∧ Sync b1 = (b', Some e)) ∨
  (RType q = nbdCmdTrim ∧ data = [] ∧ ∃ e, Trim b (i64 (Offset q)) (Length q) = (b', Some e)).

(** Types of requests, decided. *)
Local Ltac request_types :=
  change (nbdCmdWrite =? nbdCmdRead) with false; change (nbdCmdTrim =? nbdCmdRead) with false;
  change (nbdCmdTrim =? nbdCmdWrite) with false; change (nbdCmdTrim =? nbdCmdDisc) with false;
  change (nbdCmdTrim =? nbdCmdFlush) with false; change (nbdCmdRead =? nbdCmdRead) with true;
  change (nbdCmdWrite =? nbdCmdWrite) with true; change (nbdCmdTrim =? nbdCmdTrim) with true;
  cbv iota zeta.

(** A request with the right magic, up to the choice of its handler. *)
Lemma one_request_at {St} `{Backend St} s (b : St) q data r w :
  request_ok q → Magic q = requestMagic → ranged (RType q) = true →
  one_request s b (request_bytes q ++ data ++ r) w =
    if negb (validateRequest s q =? nbdEOK) then reject b q (validateRequest s q) w
    else if RType q =? nbdCmdRead then reply (handleRead b q) (data ++ r) w
    else if RType q =? nbdCmdTrim then reply (handleTrim b q) (data ++ r) w
    else match ReadFull (Z.to_nat (Length q)) (data ++ r) with
         | Ret (got, r2) => reply (handleWrite b q got) r2 w
         | Err e => Stop b w (Some (nbd_io e))
         | Panic => Stop b w (Some (nbd_io EOF))
         end.
Proof.
  intros Hq Hm Ht. unfold one_request. rewrite read_request, Hm, Z.eqb_refl by done. cbn [negb].
  unfold ranged in Ht. apply orb_true_iff in Ht as [[Ht|Ht]%orb_true_iff|Ht];
    apply Z.eqb_eq in Ht; rewrite Ht; request_types; by destruct (negb _).
Qed.

(** errors are answered. A request whose range is not inside the export gets its
    error code under its own handle, reaches no backend and ends the connection; a
    request whose backend call fails gets an I/O error and the connection goes on with
    the next request, the data of a write being consumed. *)
Theorem nbd_errors_answered {St} `{Backend St} (s : Server) (b : St) (q : Request)
    (data r out : list byte) :
  request_ok q → Magic q = requestMagic → ranged (RType q) = true →
  (validateRequest s q ≠ nbdEOK →
     one_request s b (request_bytes q ++ data ++ r) (Writer out None)
     = Stop b (Writer (out ++ WriteSimpleReply (Handle q) (validateRequest s q)) None)
         (Some (invalid_request (Offset q) (Length q))) ∧
     (validateRequest s q = nbdEInval ∨ validateRequest s q = nbdEOverflow)) ∧
  (validateRequest s q = nbdEOK → ∀ b', call_fails b q data b' →
     one_request s b (request_bytes q ++ data ++ r) (Writer out None)
     = Next b' r (Writer (out ++ WriteSimpleReply (Handle q) nbdEIO) None)).
Proof.
  intros Hq Hm Ht. rewrite one_request_at by done. split.
  - intros Hv. rewrite (proj2 (Z.eqb_neq _ _) Hv). split; [done|].
    revert Hv. unfold validateRequest. repeat case_match; intros Hne; auto; by destruct Hne.
  - intros -> b' Hf. rewrite Z.eqb_refl. cbn [negb].
    destruct Hf as [(-> & -> & got & Hc)|[(-> & Hl & e & Hc)|[(-> & Hl & Hfua & b1 & e & Hc & Hsy)|(-> & -> & e & Hc)]]];
      request_types; rewrite ?ReadFull_app by done;
      unfold handleRead, handleWrite, handleTrim; rewrite Hc; [done|done| |done].
    rewrite (proj2 (Z.eqb_neq _ _) Hfua). cbn [negb]. by rewrite Hsy.
Qed.

(** A trim of nothing: the sparse file refuses it. *)
Definition example_empty_trim : Request := MkRequest requestMagic 0 nbdCmdTrim 9 0 0.

Lemma nbd_errors_answered_witness :
  let b := MkSparse 0 ∅ in
  one_request example_server b (request_bytes example_empty_trim ++ [] ++ []) (Writer [] None)
  = Next b [] (Writer ([] ++ WriteSimpleReply 9 nbdEIO) None).
Proof.
  intros b.
  refine (proj2 (nbd_errors_answered example_server b example_empty_trim [] [] [] _ _ _) _ b _).
  - repeat split; vm_compute; congruence.
  - reflexivity.
  - reflexivity.
  - reflexivity.
  - right. right. right. split; [done|]. split; [done|]. by exists BackendErr.
Defined.

(** The payload of an option that is too big is not skipped: the server haggles on in
    the middle of it. Here the payload starts with an option of its own. *)
Lemma big_option_not_drained s r w :
  let payload := option_bytes nbdOptAbort [] ++ r in
  one_option s 1 (put64 ihaveoptMagic ++ put32 nbdOptList ++ put32 (maxOptionLen + 1) ++ payload) (Writer w None)
  = Haggle payload (Writer (w ++ sendOptReply nbdOptList nbdRepErrTooBig []) None).
Proof.
  intros payload. unfold one_option, read_option.
  rewrite read_put64, wrap_ret, ret_bind, Z.eqb_refl by (vm_compute; split; congruence). cbn [negb].
  rewrite guard_false_bind, read_put32, wrap_ret, ret_bind by (try (vm_compute; split; congruence); done).
  rewrite read_put32, wrap_ret, ret_bind by (vm_compute; split; congruence).
  change (maxOptionLen <? maxOptionLen + 1) with true. reflexivity.
Qed.

(** Trimming 2^32 bytes asks the server to trim none: the length is cut to 32 bits. *)
Lemma client_trim_wraps c off : client_Trim c off (2 ^ 32) = client_Trim c off 0.
Proof. reflexivity. Qed.

(** A request in the same packet as the last option is lost: the buffer it is in goes
    away with the first phase. *)
Lemma pipelined_request_lost :
  let q := request_bytes (MkRequest requestMagic 0 nbdCmdRead 1 0 1) in
  (handleConn example_server (MkSparse 0 ∅, []) (client_hello ++ q) (Writer [] None) (length q)).1.1.2 = [].
Proof. vm_compute. reflexivity. Qed.
