(* ===== verification/Namespaces.v ===== *)
(** * Shared namespaces of a container ([src/containerns/containerns.go])

    All sessions of a root file system share one container-init, which anchors the
    namespaces. The manager's critical sections are the atomic steps of a system of
    threads, one per session: a session gets the namespaces, uses them and releases
    them, and the last one out stops the init without holding the mutex. *)

From Stdlib Require Import Strings.String.
From S2P Require Import GoSort Prelude GoStrings.

(** ** State *)

(** The init process: running, exited but not waited for, or waited for. *)
Inductive init_state := InitRunning | InitZombie | InitReaped.

(** One container-init and what the manager knows of it; [stopped] tells whether the
    channel of that name has been closed. *)
Record entry := MkEntry {
  e_root : gostring;
  init : init_state;
  refCount : Z;
  stopping : bool;
  stopped : bool;
}.

(** Where a session stands: at the head of [GetOrCreate], receiving from [stopped],
    using the namespaces, in [stopEntry] before and after the wait for the process
    ([again] tells whether [GetOrCreate] is retried afterwards), or through. *)
Inductive session :=
| Getting (r : gostring)
| Waiting (r : gostring) (e : nat)
| Holding (r : gostring) (e : nat)
| Stopping (r : gostring) (e : nat) (again : bool)
| Removing (r : gostring) (e : nat) (again : bool)
| Finished
| Failed.

Record manager := MkManager {
  entries : gmap gostring nat;
  heap : list entry;
  sessions : list session;
}.
Definition New : manager := MkManager ∅ [] [].

#[export] Instance init_state_eq_dec : EqDecision init_state.
Proof. solve_decision. Defined.
#[export] Instance session_eq_dec : EqDecision session.
Proof. solve_decision. Defined.

Definition set_count (x : entry) (n : Z) : entry := MkEntry (e_root x) (init x) n (stopping x) (stopped x).
Definition set_stopping (x : entry) : entry := MkEntry (e_root x) (init x) (refCount x) true (stopped x).
Definition set_stopped (x : entry) : entry := MkEntry (e_root x) (init x) (refCount x) (stopping x) true.
Definition set_init (x : entry) (s : init_state) : entry := MkEntry (e_root x) s (refCount x) (stopping x) (stopped x).

(** ** The critical sections *)

(** [kill(pid, 0)] and the start time of [/proc/<pid>/stat], compared with the one
    recorded: both answer for a process that has exited until its parent, which is this
    program, has waited for it. *)
Definition probe (x : entry) : bool := bool_decide (init x ≠ InitReaped).

Definition new_entry (r : gostring) : entry := MkEntry r InitRunning 1 false false.

(** [GetOrCreate] up to its next blocking operation; [starts] tells whether a new init
    would start and report that it is ready. *)
Definition GetOrCreate (m : manager) (r : gostring) (starts : bool) : manager * session :=
  match entries m !! r with
  | Some e =>
      match heap m !! e with
      | Some x =>
          if stopping x then (m, Waiting r e)
          else if probe x then
            (MkManager (entries m) (<[e := set_count x (refCount x + 1)]> (heap m)) (sessions m), Holding r e)
          else (MkManager (entries m) (<[e := set_stopping x]> (heap m)) (sessions m), Stopping r e true)
      | None => (m, Failed)
      end
  | None =>
      if negb starts then (m, Failed)
      else
        let e := length (heap m) in
        (MkManager (<[r := e]> (entries m)) (heap m ++ [new_entry r]) (sessions m),
         Holding r e)
  end.

(** [Release] up to [stopEntry]. *)
Definition Release (m : manager) (r : gostring) : manager * session :=
  match entries m !! r with
  | None => (m, Finished)
  | Some e =>
      match heap m !! e with
      | None => (m, Finished)
      | Some x =>
          if stopping x then (m, Finished)
          else
            let x := set_count x (refCount x - 1) in
            if 0 <? refCount x then (MkManager (entries m) (<[e := x]> (heap m)) (sessions m), Finished)
            else (MkManager (entries m) (<[e := set_stopping x]> (heap m)) (sessions m), Stopping r e false)
      end
  end.

(** [stopEntry] until the process has been waited for. *)
Definition reap (m : manager) (e : nat) : manager :=
  match heap m !! e with
  | Some x => MkManager (entries m) (<[e := set_init x InitReaped]> (heap m)) (sessions m)
  | None => m
  end.

(** Its critical section; closing a closed channel panics. *)
Definition remove_entry (m : manager) (r : gostring) (e : nat) : outcome () manager :=
  x ← or_err (heap m !! e) ();
  if stopped x then Panic
  else
    Ret (MkManager (if bool_decide (entries m !! r = Some e) then delete r (entries m) else entries m)
           (<[e := set_stopped x]> (heap m)) (sessions m)).

(** ** Interleavings *)

Definition goto (m : manager) (i : nat) (t : session) : manager :=
  MkManager (entries m) (heap m) (<[i := t]> (sessions m)).

(** A session arrives, session [i] goes on, or an init exits by itself. *)
Inductive event := Arrive (r : gostring) | Go (i : nat) (starts : bool) | Exit (e : nat).

Definition resume (r : gostring) (again : bool) : session := if again then Getting r else Finished.

(** An event that cannot happen (the session waits or is through) is an [Err]. *)
Definition step (m : manager) (ev : event) : outcome () manager :=
  match ev with
  | Arrive r => Ret (MkManager (entries m) (heap m) (sessions m ++ [Getting r]))
  | Exit e =>
      x ← or_err (heap m !! e) ();
      if bool_decide (init x = InitRunning)
      then Ret (MkManager (entries m) (<[e := set_init x InitZombie]> (heap m)) (sessions m)) else Err ()
  | Go i starts =>
      t ← or_err (sessions m !! i) ();
      match t with
      | Getting r => let '(m', t') := GetOrCreate m r starts in Ret (goto m' i t')
      | Waiting r e => x ← or_err (heap m !! e) (); if stopped x then Ret (goto m i (Getting r)) else Err ()
      | Holding r _ => let '(m', t') := Release m r in Ret (goto m' i t')
      | Stopping r e again => Ret (goto (reap m e) i (Removing r e again))
      | Removing r e again => m' ← remove_entry m r e; Ret (goto m' i (resume r again))
      | Finished | Failed => Err ()
      end
  end.

Fixpoint run (m : manager) (evs : list event) : outcome () manager :=
  match evs with
  | [] => Ret m
  | ev :: evs' => m' ← step m ev; run m' evs'
  end.

Definition reachable (m : manager) : Prop := ∃ evs, run New evs = Ret m.

(** ** Counting sessions *)

Definition count (P : session → bool) (l : list session) : nat := length (filter (λ t, P t = true) l).

Lemma count_app P l1 l2 : count P (l1 ++ l2) = (count P l1 + count P l2)%nat.
Proof. unfold count. by rewrite filter_app, length_app. Qed.

Lemma count_one P t : count P [t] = if P t then 1%nat else 0%nat.
Proof. unfold count. rewrite filter_cons. by destruct (P t). Qed.

Lemma sessions_count_insert P l i t t' :
  l !! i = Some t →
  (count P (<[i := t']> l) + (if P t then 1 else 0) = count P l + (if P t' then 1 else 0))%nat.
Proof.
  intros Hi. pose proof (lookup_lt_Some _ _ _ Hi) as Hlt.
  rewrite <- (take_drop_middle l i t Hi) at 2. rewrite insert_take_drop by done.
  rewrite !count_app. change (t' :: ?x) with ([t'] ++ x). change (t :: ?x) with ([t] ++ x).
  rewrite !count_app, !count_one. destruct (P t), (P t'); lia.
Qed.

Lemma count_elem P l t : t ∈ l → P t = true → (0 < count P l)%nat.
Proof.
  intros Hin HP. unfold count. destruct (filter _ l) as [|x f] eqn:Hf; [|cbn; lia].
  assert (t ∈ filter (λ t, P t = true) l) as H by (by apply list_elem_of_filter).
  rewrite Hf in H. by apply not_elem_of_nil in H.
Qed.

Lemma count_witness P l : (0 < count P l)%nat → ∃ t, t ∈ l ∧ P t = true.
Proof.
  unfold count. destruct (filter (λ t, P t = true) l) as [|x f] eqn:Hf; [cbn; lia|]. intros _. exists x.
  assert (x ∈ filter (λ t, P t = true) l) as H by (rewrite Hf; by left). apply list_elem_of_filter in H. tauto.
Qed.

Definition holds_of (e : nat) (t : session) : bool :=
  match t with Holding _ e' => (e' =? e)%nat | _ => false end.
Definition stops_of (e : nat) (t : session) : bool :=
  match t with Stopping _ e' _ => (e' =? e)%nat | _ => false end.
Definition removes_of (e : nat) (t : session) : bool :=
  match t with Removing _ e' _ => (e' =? e)%nat | _ => false end.
Definition holders (m : manager) (e : nat) : nat := count (holds_of e) (sessions m).

(** ** The invariant *)

(** What is true of an init: it is in use by as many sessions as it has references; or
    one session stops it; or it is gone. *)
Definition entry_inv (m : manager) (e : nat) (x : entry) : Prop :=
  let current := entries m !! e_root x = Some e in
  let h := count (holds_of e) (sessions m) in
  let s := count (stops_of e) (sessions m) in
  let d := count (removes_of e) (sessions m) in
  if stopped x then ¬ current ∧ stopping x = true ∧ init x = InitReaped ∧ h = 0%nat ∧ s = 0%nat ∧ d = 0%nat
  else if stopping x then current ∧ h = 0%nat ∧ refCount x = 0 ∧ (s + d = 1)%nat ∧ (init x = InitReaped ↔ d = 1%nat)
  else current ∧ refCount x = Z.of_nat h ∧ (0 < h)%nat ∧ s = 0%nat ∧ d = 0%nat ∧ init x ≠ InitReaped.

(** What is true of a session: the init it refers to is one of its root. *)
Definition session_inv (m : manager) (t : session) : Prop :=
  match t with
  | Holding r e | Stopping r e _ | Removing r e _ => ∃ x, heap m !! e = Some x ∧ e_root x = r
  | Waiting r e => ∃ x, heap m !! e = Some x ∧ e_root x = r ∧ stopping x = true
  | _ => True
  end.

Record inv (m : manager) : Prop := {
  inv_entries : ∀ r e, entries m !! r = Some e → ∃ x, heap m !! e = Some x ∧ e_root x = r ∧ stopped x = false;
  inv_heap : ∀ e x, heap m !! e = Some x → entry_inv m e x;
  inv_sessions : ∀ t, t ∈ sessions m → session_inv m t;
}.

Lemma inv_new : inv New.
Proof.
  split.
  - intros r e. cbn [entries New]. by rewrite lookup_empty.
  - intros e x. cbn [heap New]. by rewrite lookup_nil.
  - intros t H. cbn [sessions New] in H. by apply not_elem_of_nil in H.
Qed.

(** The init a session counts for. *)
Definition about (t : session) : option nat :=
  match t with Holding _ e | Stopping _ e _ | Removing _ e _ => Some e | _ => None end.

Lemma about_counts t e : about t ≠ Some e → holds_of e t = false ∧ stops_of e t = false ∧ removes_of e t = false.
Proof.
  destruct t; cbn; intros Ha; (split; [|split]); try done;
    apply Nat.eqb_neq; intros ->; by destruct Ha.
Qed.

Lemma counts_other l i t t' e :
  l !! i = Some t → about t ≠ Some e → about t' ≠ Some e →
  count (holds_of e) (<[i := t']> l) = count (holds_of e) l ∧
  count (stops_of e) (<[i := t']> l) = count (stops_of e) l ∧
  count (removes_of e) (<[i := t']> l) = count (removes_of e) l.
Proof.
  intros Hi (H1 & H2 & H3)%about_counts (H1' & H2' & H3')%about_counts.
  pose proof (sessions_count_insert (holds_of e) l i t t' Hi) as C1.
  pose proof (sessions_count_insert (stops_of e) l i t t' Hi) as C2.
  pose proof (sessions_count_insert (removes_of e) l i t t' Hi) as C3.
  rewrite H1, H1' in C1. rewrite H2, H2' in C2. rewrite H3, H3' in C3. lia.
Qed.

(** A session waits or holds on whatever happens to inits, which keep their roots and
    stay on their way down. *)
Definition evolves (h h' : list entry) : Prop :=
  ∀ e x, h !! e = Some x →
    ∃ x', h' !! e = Some x' ∧ e_root x' = e_root x ∧ (stopping x = true → stopping x' = true).

Lemma evolves_insert h e x x' :
  h !! e = Some x → e_root x' = e_root x → (stopping x = true → stopping x' = true) → evolves h (<[e := x']> h).
Proof.
  intros He Hr Hs e' y Hy. destruct (decide (e' = e)) as [->|Hne].
  - rewrite He in Hy. injection Hy as <-. exists x'. split; [|done].
    apply list_lookup_insert_eq. by apply lookup_lt_Some in He.
  - exists y. by rewrite list_lookup_insert_ne by done.
Qed.

Lemma evolves_app h l : evolves h (h ++ l).
Proof. intros e x Hx. exists x. split; [|done]. by apply lookup_app_l_Some. Qed.

Lemma session_inv_evolves m m' t : evolves (heap m) (heap m') → session_inv m t → session_inv m' t.
Proof.
  intros Hev. destruct t as [r|r e|r e|r e b|r e b| |]; cbn [session_inv]; try done.
  2,3,4: intros (x & Hx & Hr); destruct (Hev e x Hx) as (x' & Hx' & Hr' & _); exists x'; split; [done|congruence].
  intros (x & Hx & Hr & Hs). destruct (Hev e x Hx) as (x' & Hx' & Hr' & Hs').
  exists x'. split; [done|]. split; [congruence|auto].
Qed.

Lemma elem_of_insert_sessions (l : list session) i t' u : u ∈ <[i := t']> l → u = t' ∨ u ∈ l.
Proof.
  intros [j Hj]%list_elem_of_lookup. destruct (decide (i = j)) as [<-|Hne].
  - destruct (decide (i < length l)%nat) as [Hlt|Hge].
    + rewrite list_lookup_insert_eq in Hj by done. injection Hj as <-. by left.
    + rewrite list_insert_ge in Hj by lia. right. by apply list_elem_of_lookup_2 in Hj.
  - rewrite list_lookup_insert_ne in Hj by done. right. by apply list_elem_of_lookup_2 in Hj.
Qed.

(** One session moves, and nothing else changes but the init it is about. *)
Lemma inv_move m i t t' e x x' es :
  inv m → sessions m !! i = Some t → heap m !! e = Some x →
  e_root x' = e_root x → (stopping x = true → stopping x' = true) →
  (∀ e', e' ≠ e → about t ≠ Some e' ∧ about t' ≠ Some e') →
  (∀ r e', e' ≠ e → es !! r = Some e' ↔ entries m !! r = Some e') →
  (∀ r, es !! r = Some e → entries m !! r = Some e ∧ stopped x' = false) →
  let m' := MkManager es (<[e := x']> (heap m)) (<[i := t']> (sessions m)) in
  entry_inv m' e x' → session_inv m' t' → inv m'.
Proof.
  intros [He Hh Ht] Hi Hx Hr Hst Hab Hes Hese m' Hentry Hsess.
  pose proof (lookup_lt_Some _ _ _ Hx) as Hlt. split.
  - intros r e' Hr'. cbn [entries m'] in Hr'. cbn [heap m']. destruct (decide (e' = e)) as [->|Hne].
    + exists x'. rewrite list_lookup_insert_eq by done. split; [done|].
      destruct (Hese r Hr') as [Hr0 Hs0]. destruct (He r e Hr0) as (y & Hy & Hy2 & _).
      split; [congruence|done].
    + rewrite list_lookup_insert_ne by done. apply He. by apply Hes.
  - intros e' y Hy. cbn [heap m'] in Hy. destruct (decide (e' = e)) as [->|Hne].
    + rewrite list_lookup_insert_eq in Hy by done. injection Hy as <-. exact Hentry.
    + rewrite list_lookup_insert_ne in Hy by done. specialize (Hh e' y Hy). unfold entry_inv in *.
      destruct (Hab e' Hne) as [Ha1 Ha2].
      destruct (counts_other (sessions m) i t t' e' Hi Ha1 Ha2) as (C1 & C2 & C3).
      cbn [sessions entries m']. rewrite C1, C2, C3.
      pose proof (Hes (e_root y) e' Hne) as Hiff. destruct (stopped y), (stopping y); rewrite ?Hiff; exact Hh.
  - intros u [->|Hu]%elem_of_insert_sessions; [exact Hsess|].
    apply (session_inv_evolves m); [|by apply Ht]. by apply (evolves_insert _ _ x).
Qed.

(** One session moves, and nothing else changes. *)
Lemma inv_quiet m i t t' :
  inv m → sessions m !! i = Some t → about t = None → about t' = None → session_inv m t' → inv (goto m i t').
Proof.
  intros [He Hh Ht] Hi Ha Ha' Hs. split; [exact He| |].
  - intros e x Hx. specialize (Hh e x Hx). unfold entry_inv in *.
    destruct (counts_other (sessions m) i t t' e Hi ltac:(by rewrite Ha) ltac:(by rewrite Ha')) as (C1 & C2 & C3).
    cbn [sessions entries goto]. by rewrite C1, C2, C3.
  - intros u [->|Hu]%elem_of_insert_sessions; [exact Hs|]. exact (Ht u Hu).
Qed.

(** The counts of the sessions of [e] after session [i] moved. *)
Lemma counts_moved l i t t' e :
  l !! i = Some t →
  let b (P : nat → session → bool) u := if P e u then 1%nat else 0%nat in
  (count (holds_of e) (<[i := t']> l) + b holds_of t = count (holds_of e) l + b holds_of t')%nat ∧
  (count (stops_of e) (<[i := t']> l) + b stops_of t = count (stops_of e) l + b stops_of t')%nat ∧
  (count (removes_of e) (<[i := t']> l) + b removes_of t = count (removes_of e) l + b removes_of t')%nat.
Proof. intros Hi b. unfold b. split_and!; by apply sessions_count_insert. Qed.

Lemma about_only e e' t t' :
  about t = None ∨ about t = Some e → about t' = None ∨ about t' = Some e → e' ≠ e →
  about t ≠ Some e' ∧ about t' ≠ Some e'.
Proof. intros [->| ->] [->| ->] Hne; split; congruence. Qed.

Lemma probe_current m r e x :
  inv m → entries m !! r = Some e → heap m !! e = Some x → stopping x = false → probe x = true.
Proof.
  intros Hm Hr Hx Hs. destruct (inv_entries _ Hm r e Hr) as (y & Hy & Hroot & Hst).
  assert (y = x) as -> by congruence. pose proof (inv_heap _ Hm e x Hx) as Hi. unfold entry_inv in Hi.
  rewrite Hst, Hs in Hi. apply bool_decide_eq_true_2. tauto.
Qed.

Lemma get_inv m i r starts :
  inv m → sessions m !! i = Some (Getting r) →
  inv (goto (GetOrCreate m r starts).1 i (GetOrCreate m r starts).2).
Proof.
  intros Hm Hi. unfold GetOrCreate. destruct (entries m !! r) as [e|] eqn:Hr.
  - destruct (inv_entries _ Hm r e Hr) as (x & Hx & Hroot & Hst). rewrite Hx.
    pose proof (inv_heap _ Hm e x Hx) as He. unfold entry_inv in He. rewrite Hst, Hroot in He.
    destruct (stopping x) eqn:Hs; cbn [fst snd].
    { apply (inv_quiet _ _ (Getting r)); try done. exists x. done. }
    rewrite (probe_current m r e x) by done. cbn [fst snd].
    destruct He as (Hcur & Hrc & Hpos & Hs0 & Hd0 & Hin).
    destruct (counts_moved (sessions m) i (Getting r) (Holding r e) e Hi) as (C1 & C2 & C3).
    cbn [holds_of stops_of removes_of] in *. rewrite Nat.eqb_refl in *.
    apply (inv_move m i (Getting r) (Holding r e) e x); try done.
    + intros e'. apply about_only; auto.
    + unfold entry_inv. cbn [stopped stopping set_count e_root refCount init sessions entries].
      rewrite Hst, Hs, Hroot, Hrc. split_and!; try done; lia.
    + cbn [session_inv heap]. eexists. split; [apply list_lookup_insert_eq; by apply lookup_lt_Some in Hx|done].
  - destruct starts; cbn [negb fst snd]; [|by apply (inv_quiet _ _ (Getting r))].
    set (e := length (heap m)). assert (heap m !! e = None) as Hnone by (apply lookup_ge_None; unfold e; lia).
    destruct (counts_moved (sessions m) i (Getting r) (Holding r e) e Hi) as (C1 & C2 & C3).
    cbn [holds_of stops_of removes_of] in *. rewrite Nat.eqb_refl in *.
    assert (∀ P, (∀ t, P t = true → about t = Some e) → count P (sessions m) = 0%nat) as Hzero.
    { intros P HP. destruct (count P (sessions m)) eqn:Hc; [done|].
      destruct (count_witness P (sessions m)) as (t & Hin & Ht); [lia|]. pose proof (inv_sessions _ Hm t Hin) as Hsi.
      specialize (HP t Ht). destruct t; try done; cbn in HP; injection HP as ->; destruct Hsi as (y & Hy & _); congruence. }
    assert (∀ t, (holds_of e t = true ∨ stops_of e t = true ∨ removes_of e t = true) → about t = Some e) as Hab.
    { intros t [H|[H|H]]; destruct t; try done; cbn in *; apply Nat.eqb_eq in H; congruence. }
    rewrite (Hzero (holds_of e)) in C1 by auto. rewrite (Hzero (stops_of e)) in C2 by auto.
    rewrite (Hzero (removes_of e)) in C3 by auto.
    destruct Hm as [He Hh Ht]. split.
    + intros r' e' Hr'. cbn [entries goto heap] in *. destruct (decide (r' = r)) as [->|Hne].
      * rewrite lookup_insert_eq in Hr'. injection Hr' as <-. eexists. split; [by apply list_lookup_middle|done].
      * rewrite lookup_insert_ne in Hr' by done. destruct (He r' e' Hr') as (x & Hx & Hx').
        exists x. split; [by apply lookup_app_l_Some|done].
    + intros e' x Hx. cbn [goto heap] in Hx. destruct (decide (e' = e)) as [->|Hne].
      * rewrite list_lookup_middle in Hx by done. injection Hx as <-.
        unfold entry_inv, new_entry. cbn [goto stopped stopping e_root refCount init sessions entries].
        rewrite lookup_insert_eq. split_and!; try done; lia.
      * assert (heap m !! e' = Some x) as Hx0.
        { apply lookup_app_Some in Hx as [Hx|[Hge Hx]]; [done|]. apply list_lookup_singleton_Some in Hx as [Hx _].
          unfold e in Hne. lia. }
        specialize (Hh e' x Hx0). unfold entry_inv in *.
        destruct (counts_other (sessions m) i (Getting r) (Holding r e) e' Hi) as (D1 & D2 & D3);
          [done|cbn; congruence|]. cbn [goto sessions entries]. rewrite D1, D2, D3.
        assert (<[r := e]> (entries m) !! e_root x = Some e' ↔ entries m !! e_root x = Some e') as Hiff.
        { destruct (decide (e_root x = r)) as [->|Hnr]; [|by rewrite lookup_insert_ne].
          rewrite lookup_insert_eq, Hr. split; congruence. }
        destruct (stopped x), (stopping x); rewrite ?Hiff; exact Hh.
    + intros u [->|Hu]%elem_of_insert_sessions.
      * cbn [session_inv goto heap]. eexists. split; [by apply list_lookup_middle|done].
      * apply (session_inv_evolves m); [apply evolves_app|by apply Ht].
Qed.

(** What a session that uses an init knows. *)
Lemma holding_current m r e :
  inv m → Holding r e ∈ sessions m →
  ∃ x, heap m !! e = Some x ∧ e_root x = r ∧ entries m !! r = Some e ∧ stopped x = false ∧ stopping x = false ∧
    refCount x = Z.of_nat (holders m e) ∧ init x ≠ InitReaped.
Proof.
  intros Hm Hin. destruct (inv_sessions _ Hm _ Hin) as (x & Hx & Hr). exists x. split; [done|]. split; [done|].
  pose proof (inv_heap _ Hm e x Hx) as He. unfold entry_inv in He. rewrite Hr in He.
  assert (0 < count (holds_of e) (sessions m))%nat as Hpos.
  { apply (count_elem _ _ (Holding r e)); [done|]. cbn. apply Nat.eqb_refl. }
  destruct (stopped x), (stopping x); try (exfalso; lia). unfold holders. tauto.
Qed.

Lemma stopping_current m r e b :
  inv m → Stopping r e b ∈ sessions m ∨ Removing r e b ∈ sessions m →
  ∃ x, heap m !! e = Some x ∧ e_root x = r ∧ entries m !! r = Some e ∧ stopped x = false ∧ stopping x = true ∧
    holders m e = 0%nat.
Proof.
  intros Hm Hin. assert (∃ x, heap m !! e = Some x ∧ e_root x = r) as (x & Hx & Hr).
  { destruct Hin as [Hin|Hin]; exact (inv_sessions _ Hm _ Hin). }
  exists x. split; [done|]. split; [done|].
  pose proof (inv_heap _ Hm e x Hx) as He. unfold entry_inv in He. rewrite Hr in He.
  assert (0 < count (stops_of e) (sessions m) + count (removes_of e) (sessions m))%nat as Hpos.
  { destruct Hin as [Hin|Hin].
    - pose proof (count_elem (stops_of e) _ _ Hin) as H1. cbn in H1. rewrite Nat.eqb_refl in H1. specialize (H1 eq_refl). lia.
    - pose proof (count_elem (removes_of e) _ _ Hin) as H1. cbn in H1. rewrite Nat.eqb_refl in H1. specialize (H1 eq_refl). lia. }
  destruct (stopped x), (stopping x); try (exfalso; lia); unfold holders; tauto.
Qed.

(** The counts for [e] when session [i] goes from [t] to [t']. *)
Ltac move_counts i t t' e Hi :=
  destruct (counts_moved _ i t t' e Hi) as (C1 & C2 & C3);
  cbn [holds_of stops_of removes_of] in *; rewrite ?Nat.eqb_refl in *.

Lemma sess_here (m : manager) i t : sessions m !! i = Some t → t ∈ sessions m.
Proof. apply list_elem_of_lookup_2. Qed.

Lemma release_inv m i r e :
  inv m → sessions m !! i = Some (Holding r e) → inv (goto (Release m r).1 i (Release m r).2).
Proof.
  intros Hm Hi. destruct (holding_current m r e Hm (sess_here _ _ _ Hi)) as (x & Hx & Hroot & Hcur & Hst & Hs & Hrc & Hin).
  unfold Release, holders in *. rewrite Hcur, Hx, Hs. cbn [refCount set_count].
  pose proof (inv_heap _ Hm e x Hx) as He. unfold entry_inv in He. rewrite Hst, Hs, Hroot in He.
  destruct He as (_ & _ & Hpos & Hs0 & Hd0 & _).
  assert (∀ r' : gostring, entries m !! r' = Some e → r' = r) as Huniq.
  { intros r' Hr'. destruct (inv_entries _ Hm r' e Hr') as (y & Hy & Hy' & _). congruence. }
  destruct (0 <? refCount x - 1) eqn:Hz; cbn [fst snd].
  - move_counts i (Holding r e) Finished e Hi. apply Z.ltb_lt in Hz.
    apply (inv_move m i (Holding r e) Finished e x); try done; [intros e'; apply about_only; auto|].
    unfold entry_inv. cbn [stopped stopping set_count e_root refCount init sessions entries].
    rewrite Hst, Hs, Hroot. split_and!; try done; lia.
  - move_counts i (Holding r e) (Stopping r e false) e Hi. apply Z.ltb_ge in Hz.
    apply (inv_move m i (Holding r e) (Stopping r e false) e x); try done; [intros e'; apply about_only; auto|..].
    + unfold entry_inv. cbn [stopped stopping set_stopping set_count e_root refCount init sessions entries].
      rewrite Hst, Hroot. split_and!; try done; try lia. split; [intros Hno; by destruct Hin|lia].
    + cbn [session_inv heap]. eexists. split; [apply list_lookup_insert_eq; by apply lookup_lt_Some in Hx|done].
Qed.

Lemma reap_inv m i r e b :
  inv m → sessions m !! i = Some (Stopping r e b) → inv (goto (reap m e) i (Removing r e b)).
Proof.
  intros Hm Hi. destruct (stopping_current m r e b Hm (or_introl (sess_here _ _ _ Hi)))
    as (x & Hx & Hroot & Hcur & Hst & Hs & Hh). unfold holders in Hh.
  pose proof (inv_heap _ Hm e x Hx) as He. unfold entry_inv in He. rewrite Hst, Hs, Hroot in He.
  destruct He as (_ & _ & Hz0 & Hone & _). unfold reap, goto. cbn [entries heap sessions].
  rewrite Hx. cbn [entries heap sessions].
  move_counts i (Stopping r e b) (Removing r e b) e Hi.
  pose proof (count_elem (stops_of e) _ _ (sess_here _ _ _ Hi)) as Hd. cbn in Hd.
  rewrite Nat.eqb_refl in Hd. specialize (Hd eq_refl).
  apply (inv_move m i (Stopping r e b) (Removing r e b) e x); try done; [intros e'; apply about_only; auto|..].
  - unfold entry_inv. cbn [stopped stopping set_init e_root refCount init sessions entries].
    rewrite Hst, Hs, Hroot. split; [done|]. split; [lia|]. split; [done|]. split; [lia|]. split; [intros _|done]. lia.
  - cbn [session_inv heap]. eexists. split; [apply list_lookup_insert_eq; by apply lookup_lt_Some in Hx|done].
Qed.

(** The channel is closed once. *)
Lemma remove_inv m i r e b :
  inv m → sessions m !! i = Some (Removing r e b) →
  ∃ m', remove_entry m r e = Ret m' ∧ inv (goto m' i (resume r b)).
Proof.
  intros Hm Hi. destruct (stopping_current m r e b Hm (or_intror (sess_here _ _ _ Hi)))
    as (x & Hx & Hroot & Hcur & Hst & Hs & Hh). unfold holders in Hh.
  pose proof (inv_heap _ Hm e x Hx) as He. unfold entry_inv in He. rewrite Hst, Hs, Hroot in He.
  destruct He as (_ & _ & Hz0 & Hone & Hreap). unfold remove_entry. rewrite Hx. cbn [or_err]. rewrite ret_bind, Hst.
  rewrite bool_decide_eq_true_2 by done. eexists. split; [done|]. unfold goto. cbn [entries heap sessions].
  move_counts i (Removing r e b) (resume r b) e Hi.
  assert (∀ e', about (resume r b) ≠ Some e') as Hres by (intros e'; by destruct b).
  assert (holds_of e (resume r b) = false ∧ stops_of e (resume r b) = false ∧ removes_of e (resume r b) = false)
    as (R1 & R2 & R3) by (by destruct b). rewrite R1 in C1. rewrite R2 in C2. rewrite R3 in C3.
  pose proof (count_elem (removes_of e) _ _ (sess_here _ _ _ Hi)) as Hd. cbn in Hd.
  rewrite Nat.eqb_refl in Hd. specialize (Hd eq_refl).
  apply (inv_move m i (Removing r e b) (resume r b) e x); try done.
  - intros e' Hne. split; [cbn; congruence|done].
  - intros r' e' Hne. destruct (decide (r' = r)) as [->|Hnr]; [|by rewrite lookup_delete_ne].
    rewrite lookup_delete_eq, Hcur. split; congruence.
  - intros r' Hr'. exfalso. destruct (decide (r' = r)) as [->|Hnr]; [by rewrite lookup_delete_eq in Hr'|].
    rewrite lookup_delete_ne in Hr' by done. destruct (inv_entries _ Hm r' e Hr') as (y & Hy & Hy' & _). congruence.
  - unfold entry_inv. cbn [stopped stopping set_stopped e_root refCount init sessions entries].
    rewrite Hroot, lookup_delete_eq. split_and!; try done; try lia. apply Hreap. lia.
  - by destruct b.
Qed.

Lemma step_inv m ev : inv m → match step m ev with Ret m' => inv m' | Err _ => True | Panic => False end.
Proof.
  intros Hm. destruct ev as [r|i starts|e]; cbn [step].
  - destruct Hm as [He Hh Ht]. split; [exact He| |].
    + intros e x Hx. specialize (Hh e x Hx). unfold entry_inv in *. cbn [sessions entries].
      rewrite !count_app, !count_one. cbn [holds_of stops_of removes_of]. by rewrite !Nat.add_0_r.
    + intros t [Ht'|Ht'%list_elem_of_singleton]%elem_of_app; [exact (Ht t Ht')|by subst].
  - destruct (sessions m !! i) as [t|] eqn:Hi; cbn [or_err]; [rewrite ret_bind|exact I].
    destruct t as [r|r e|r e|r e b|r e b| |]; try exact I.
    + pose proof (get_inv m i r starts Hm Hi) as Hg. by destruct (GetOrCreate m r starts).
    + destruct (heap m !! e) as [x|]; cbn [or_err]; [rewrite ret_bind|exact I].
      destruct (stopped x); [|exact I]. by apply (inv_quiet _ _ (Waiting r e)).
    + pose proof (release_inv m i r e Hm Hi) as Hg. by destruct (Release m r).
    + by apply reap_inv.
    + destruct (remove_inv m i r e b Hm Hi) as (m' & -> & Hm'). by rewrite ret_bind.
  - destruct (heap m !! e) as [x|] eqn:Hx; cbn [or_err]; [rewrite ret_bind|exact I].
    case_bool_decide as Hrun; [|exact I]. destruct Hm as [He Hh Ht].
    pose proof (lookup_lt_Some _ _ _ Hx) as Hlt. split.
    + intros r e' Hr. cbn [entries heap] in *. destruct (He r e' Hr) as (y & Hy & Hy').
      destruct (decide (e' = e)) as [->|Hne]; [|exists y; by rewrite list_lookup_insert_ne].
      eexists. rewrite list_lookup_insert_eq by done. split; [done|]. by assert (y = x) as -> by congruence.
    + intros e' y Hy. cbn [heap] in Hy. destruct (decide (e' = e)) as [->|Hne].
      * rewrite list_lookup_insert_eq in Hy by done. injection Hy as <-. specialize (Hh e x Hx).
        unfold entry_inv in *. cbn [stopped stopping set_init e_root refCount init sessions entries].
        rewrite Hrun in Hh. destruct (stopped x), (stopping x); [naive_solver..| |naive_solver].
        destruct Hh as (? & ? & ? & ? & Hiff). split_and!; try done. split; [done|]. intros Hd. by apply Hiff in Hd.
      * rewrite list_lookup_insert_ne in Hy by done. exact (Hh e' y Hy).
    + intros t Hin. apply (session_inv_evolves m); [by apply (evolves_insert _ _ x)|by apply Ht].
Qed.

Lemma run_inv evs : ∀ m, inv m → match run m evs with Ret m' => inv m' | Err _ => True | Panic => False end.
Proof.
  induction evs as [|ev evs IH]; intros m Hm; cbn [run]; [exact Hm|].
  pose proof (step_inv m ev Hm) as Hs. destruct (step m ev) as [m'|e|]; [|exact I|done].
  rewrite ret_bind. by apply IH.
Qed.

Lemma reachable_inv m : reachable m → inv m.
Proof. intros [evs Hr]. pose proof (run_inv evs New inv_new) as H. by rewrite Hr in H. Qed.

(** ** What the sessions of a root share *)

Lemma unreaped_current m e x :
  inv m → heap m !! e = Some x → init x ≠ InitReaped →
  entries m !! e_root x = Some e ∧ stopped x = false ∧
  ((0 < holders m e)%nat ∨ ∃ r b, Stopping r e b ∈ sessions m).
Proof.
  intros Hm Hx Hin. pose proof (inv_heap _ Hm e x Hx) as He. unfold entry_inv in He.
  destruct (stopped x); [tauto|]. destruct (stopping x); [|unfold holders; tauto].
  destruct He as (Hcur & _ & _ & Hone & Hiff). split; [done|]. split; [done|]. right.
  assert (0 < count (stops_of e) (sessions m))%nat as Hpos.
  { destruct (count (stops_of e) (sessions m)); [|lia]. exfalso. apply Hin, Hiff. lia. }
  apply count_witness in Hpos as (t & Ht & Hb). destruct t as [| | |r e' b| | |]; try done.
  cbn in Hb. apply Nat.eqb_eq in Hb as ->. by exists r, b.
Qed.

(** C22: sessions share one init. Whatever sessions arrive, in whatever order they take
    the mutex and whatever inits exit, no channel is closed twice; the init a session
    uses belongs to its root, has as many references as there are sessions that use it,
    and is not being stopped; sessions of one root use the same init, a root never has
    two that have not been waited for, and an init without users is being stopped. *)
Theorem namespaces_shared (evs : list event) :
  match run New evs with
  | Panic => False
  | Err _ => True
  | Ret m =>
      (∀ r e, Holding r e ∈ sessions m → ∃ x, heap m !! e = Some x ∧ e_root x = r ∧
         refCount x = Z.of_nat (holders m e) ∧ stopping x = false ∧ init x ≠ InitReaped) ∧
      (∀ r e1 e2, Holding r e1 ∈ sessions m → Holding r e2 ∈ sessions m → e1 = e2) ∧
      (∀ e1 e2 x1 x2, heap m !! e1 = Some x1 → heap m !! e2 = Some x2 → e_root x1 = e_root x2 →
         init x1 ≠ InitReaped → init x2 ≠ InitReaped → e1 = e2) ∧
      (∀ e x, heap m !! e = Some x → init x ≠ InitReaped →
         (0 < holders m e)%nat ∨ ∃ r b, Stopping r e b ∈ sessions m)
  end.
Proof.
  pose proof (run_inv evs New inv_new) as Hm. destruct (run New evs) as [m|e|]; [|exact I|done].
  split_and!.
  - intros r e Hin. destruct (holding_current m r e Hm Hin) as (x & Hx & Hr & _ & _ & Hs & Hc & Hi). eauto 10.
  - intros r e1 e2 H1 H2. destruct (holding_current m r e1 Hm H1) as (x1 & _ & _ & Hc1 & _).
    destruct (holding_current m r e2 Hm H2) as (x2 & _ & _ & Hc2 & _). congruence.
  - intros e1 e2 x1 x2 H1 H2 Hr Hi1 Hi2. destruct (unreaped_current m e1 x1 Hm H1 Hi1) as (Hc1 & _).
    destruct (unreaped_current m e2 x2 Hm H2 Hi2) as (Hc2 & _). congruence.
  - intros e x Hx Hi. by apply (unreaped_current m e x Hm Hx Hi).
Qed.

(** ** Every session gets its namespaces *)

(** What a session that waits waits for. *)
Lemma waiting_for m r e :
  inv m → Waiting r e ∈ sessions m →
  ∃ x, heap m !! e = Some x ∧ e_root x = r ∧
    (stopped x = true ∨ ∃ j b, sessions m !! j = Some (Stopping r e b) ∨ sessions m !! j = Some (Removing r e b)).
Proof.
  intros Hm Hin. destruct (inv_sessions _ Hm _ Hin) as (x & Hx & Hr & Hs). exists x. split; [done|]. split; [done|].
  pose proof (inv_heap _ Hm e x Hx) as He. unfold entry_inv in He. rewrite Hs in He.
  destruct (stopped x); [by left|]. right. destruct He as (_ & _ & _ & Hone & _).
  assert (∃ j b r', sessions m !! j = Some (Stopping r' e b) ∨ sessions m !! j = Some (Removing r' e b))
    as (j & b & r' & Hj).
  { destruct (decide (0 < count (stops_of e) (sessions m))%nat) as [Hp|Hp].
    - apply count_witness in Hp as (t & [j Hj]%list_elem_of_lookup & Hb).
      destruct t as [| | |r' e' b| | |]; try done. cbn in Hb. apply Nat.eqb_eq in Hb as ->. eauto.
    - assert (0 < count (removes_of e) (sessions m))%nat as Hp' by lia.
      apply count_witness in Hp' as (t & [j Hj]%list_elem_of_lookup & Hb).
      destruct t as [| | | |r' e' b| |]; try done. cbn in Hb. apply Nat.eqb_eq in Hb as ->. eauto. }
  assert (r' = r) as ->; [|by exists j, b].
  destruct Hj as [Hj|Hj]; apply sess_here, (inv_sessions _ Hm) in Hj as (y & Hy & Hy'); congruence.
Qed.

Lemma run_events_app m evs1 evs2 : run m (evs1 ++ evs2) = (m' ← run m evs1; run m' evs2).
Proof.
  revert m. induction evs1 as [|ev evs1 IH]; intros m; cbn [run app]; [by rewrite ret_bind|].
  destruct (step m ev) as [m'| |]; [|done..]. rewrite !ret_bind. apply IH.
Qed.

(** At the end of [stopEntry] the root is free and waiters can go on. *)
Lemma remove_frees m i r e b :
  inv m → sessions m !! i = Some (Removing r e b) →
  ∃ m', step m (Go i true) = Ret m' ∧ inv m' ∧ entries m' !! r = None ∧
    (∃ x, heap m' !! e = Some x ∧ stopped x = true) ∧ ∀ j, j ≠ i → sessions m' !! j = sessions m !! j.
Proof.
  intros Hm Hi. destruct (remove_inv m i r e b Hm Hi) as (m' & Hm' & Hinv). exists (goto m' i (resume r b)).
  cbn [step]. rewrite Hi. cbn [or_err]. rewrite ret_bind, Hm', ret_bind. split; [done|]. split; [done|].
  destruct (stopping_current m r e b Hm (or_intror (sess_here _ _ _ Hi))) as (x & Hx & Hroot & Hcur & Hst & _).
  unfold remove_entry in Hm'. rewrite Hx in Hm'. cbn [or_err] in Hm'. rewrite ret_bind, Hst in Hm'.
  rewrite bool_decide_eq_true_2 in Hm' by done. injection Hm' as <-. cbn [goto entries heap sessions].
  split; [apply lookup_delete_eq|]. split.
  - eexists. split; [apply list_lookup_insert_eq; by apply lookup_lt_Some in Hx|done].
  - intros j Hj. by rewrite list_lookup_insert_ne.
Qed.

Lemma stop_frees m i r e b :
  inv m → sessions m !! i = Some (Stopping r e b) ∨ sessions m !! i = Some (Removing r e b) →
  ∃ n m', (n ≤ 2)%nat ∧ run m (replicate n (Go i true)) = Ret m' ∧ inv m' ∧ entries m' !! r = None ∧
    (∃ x, heap m' !! e = Some x ∧ stopped x = true) ∧ ∀ j, j ≠ i → sessions m' !! j = sessions m !! j.
Proof.
  intros Hm [Hi|Hi].
  - pose proof (reap_inv m i r e b Hm Hi) as Hm1. set (m1 := goto (reap m e) i (Removing r e b)) in *.
    assert (sessions (reap m e) = sessions m) as Hsame by (unfold reap; by destruct (heap m !! e)).
    assert (sessions m1 !! i = Some (Removing r e b)) as Hi1.
    { unfold m1. cbn [sessions goto]. rewrite Hsame. apply list_lookup_insert_eq. by apply lookup_lt_Some in Hi. }
    destruct (remove_frees m1 i r e b Hm1 Hi1) as (m' & Hs & Hinv & Hr & Hx & Hj).
    exists 2%nat, m'. split; [lia|]. cbn [replicate run]. split.
    { assert (step m (Go i true) = Ret m1) as ->.
      { cbn [step]. rewrite Hi. cbn [or_err]. by rewrite ret_bind. }
      by rewrite ret_bind, Hs, ret_bind. }
    split_and!; try done. intros j Hne. rewrite Hj by done. unfold m1. cbn [sessions goto].
    by rewrite list_lookup_insert_ne, Hsame.
  - destruct (remove_frees m i r e b Hm Hi) as (m' & Hs & Hrest). exists 1%nat, m'. split; [lia|].
    cbn [replicate run]. split; [|done]. by rewrite Hs, ret_bind.
Qed.

Lemma run_one m ev m' : step m ev = Ret m' → run m [ev] = Ret m'.
Proof. intros Hs. cbn [run]. by rewrite Hs, ret_bind. Qed.

Lemma run_then m evs1 m1 evs2 m2 : run m evs1 = Ret m1 → run m1 evs2 = Ret m2 → run m (evs1 ++ evs2) = Ret m2.
Proof. intros H1 H2. by rewrite run_events_app, H1, ret_bind. Qed.

Definition only (i j : nat) (ev : event) : Prop := ev = Go i true ∨ ev = Go j true.

Lemma step_getting m i r : sessions m !! i = Some (Getting r) →
  step m (Go i true) = Ret (goto (GetOrCreate m r true).1 i (GetOrCreate m r true).2).
Proof. intros Hi. cbn [step]. rewrite Hi. cbn [or_err]. rewrite ret_bind. by destruct (GetOrCreate m r true). Qed.

Lemma get_sessions m r b : sessions (GetOrCreate m r b).1 = sessions m.
Proof. unfold GetOrCreate. by repeat case_match. Qed.

Lemma goto_at m i t t' : sessions m !! i = Some t → sessions (goto m i t') !! i = Some t'.
Proof. intros Hi. cbn [goto sessions]. apply list_lookup_insert_eq. by apply lookup_lt_Some in Hi. Qed.

(** A root without an init, or with one in use, is had at once. *)
Lemma get_free m i r :
  inv m → sessions m !! i = Some (Getting r) → entries m !! r = None →
  ∃ m' e, step m (Go i true) = Ret m' ∧ sessions m' !! i = Some (Holding r e).
Proof.
  intros Hm Hi Hr. rewrite (step_getting m i r Hi). eexists _, _. split; [done|].
  rewrite (goto_at _ _ (Getting r)) by (by rewrite get_sessions). unfold GetOrCreate. by rewrite Hr.
Qed.

(** A session that waits for an init that is being stopped. *)
Lemma wait_ends m i r e :
  inv m → sessions m !! i = Some (Waiting r e) → entries m !! r = Some e →
  ∃ evs j m' e', run m evs = Ret m' ∧ sessions m' !! i = Some (Holding r e') ∧ (length evs ≤ 4)%nat ∧
    Forall (only i j) evs.
Proof.
  intros Hm Hi Hcur. destruct (waiting_for m r e Hm (sess_here _ _ _ Hi)) as (x & Hx & Hroot & Hw).
  destruct (inv_entries _ Hm r e Hcur) as (y & Hy & _ & Hst). assert (y = x) as -> by congruence.
  destruct Hw as [Hw|(j & b & Hj)]; [congruence|].
  assert (i ≠ j) as Hne by (intros <-; destruct Hj; congruence).
  destruct (stop_frees m j r e b Hm Hj) as (n & m1 & Hn & Hr1 & Hm1 & Hfree & (z & Hz & Hzs) & Hsame).
  assert (sessions m1 !! i = Some (Waiting r e)) as Hi1 by (by rewrite Hsame).
  assert (step m1 (Go i true) = Ret (goto m1 i (Getting r))) as Hs1.
  { cbn [step]. rewrite Hi1. cbn [or_err]. rewrite ret_bind, Hz. cbn [or_err]. by rewrite ret_bind, Hzs. }
  assert (sessions (goto m1 i (Getting r)) !! i = Some (Getting r)) as Hi2 by (by apply (goto_at _ _ (Waiting r e))).
  assert (inv (goto m1 i (Getting r))) as Hm2 by (by apply (inv_quiet _ _ (Waiting r e))).
  destruct (get_free _ i r Hm2 Hi2 Hfree) as (m' & e' & Hs2 & He').
  exists (replicate n (Go j true) ++ [Go i true] ++ [Go i true]), j, m', e'. split_and!.
  - eapply run_then; [exact Hr1|]. eapply run_then; by apply run_one.
  - done.
  - rewrite !length_app, length_replicate. cbn. lia.
  - apply Forall_app_2; [apply Forall_replicate; by right|]. apply Forall_cons_2; [by left|].
    apply Forall_cons_2; [by left|apply Forall_nil_2].
Qed.

Lemma get_ends m i r :
  inv m → sessions m !! i = Some (Getting r) →
  ∃ evs j m' e', run m evs = Ret m' ∧ sessions m' !! i = Some (Holding r e') ∧ (length evs ≤ 5)%nat ∧
    Forall (only i j) evs.
Proof.
  intros Hm Hi. pose proof (step_getting m i r Hi) as Hs. pose proof (get_inv m i r true Hm Hi) as Hm1.
  assert (sessions (goto (GetOrCreate m r true).1 i (GetOrCreate m r true).2) !! i = Some (GetOrCreate m r true).2)
    as Hi1 by (apply (goto_at _ _ (Getting r)); by rewrite get_sessions).
  assert ((∃ e, (GetOrCreate m r true).2 = Holding r e) ∨
    ∃ e, (GetOrCreate m r true).2 = Waiting r e ∧ entries (GetOrCreate m r true).1 !! r = Some e)
    as [[e He]|(e & He & Hcur)].
  { unfold GetOrCreate. destruct (entries m !! r) as [e|] eqn:Hr; [|left; by eexists].
    destruct (inv_entries _ Hm r e Hr) as (x & Hx & _). rewrite Hx.
    destruct (stopping x) eqn:Hst; [right; by exists e|]. rewrite (probe_current m r e x) by done. left. by exists e. }
  - exists [Go i true], i, (goto (GetOrCreate m r true).1 i (GetOrCreate m r true).2), e.
    split_and!; [by apply run_one|by rewrite Hi1, He|cbn; lia|].
    apply Forall_cons_2; [by left|apply Forall_nil_2].
  - rewrite He in Hi1, Hs, Hm1.
    destruct (wait_ends _ i r e Hm1 Hi1 Hcur) as (evs & j & m' & e' & Hr & Hh & Hl & Ho).
    exists ([Go i true] ++ evs), j, m', e'. split_and!; [|done|cbn; lia|].
    + eapply run_then; [by apply run_one|done].
    + apply Forall_cons_2; [by left|done].
Qed.

(** no session is left waiting. Whatever happened before, a session that wants the
    namespaces of a root can have them within six steps, taken by itself and at most one
    other session, which is stopping the init of before. *)
Theorem namespaces_obtained (m : manager) (i : nat) (r : gostring) :
  reachable m →
  sessions m !! i = Some (Getting r) ∨ (∃ e, sessions m !! i = Some (Waiting r e)) →
  ∃ evs j m' e', run m evs = Ret m' ∧ sessions m' !! i = Some (Holding r e') ∧ (length evs ≤ 6)%nat ∧
    Forall (only i j) evs.
Proof.
  intros Hm%reachable_inv [Hi|[e Hi]].
  { destruct (get_ends m i r Hm Hi) as (evs & j & m' & e' & ? & ? & ? & ?). exists evs, j, m', e'. split_and!; auto; lia. }
  destruct (waiting_for m r e Hm (sess_here _ _ _ Hi)) as (x & Hx & Hroot & [Hst|(j & b & Hj)]).
  - assert (step m (Go i true) = Ret (goto m i (Getting r))) as Hs.
    { cbn [step]. rewrite Hi. cbn [or_err]. rewrite ret_bind, Hx. cbn [or_err]. by rewrite ret_bind, Hst. }
    assert (inv (goto m i (Getting r))) as Hm1 by (by apply (inv_quiet _ _ (Waiting r e))).
    destruct (get_ends _ i r Hm1 (goto_at _ _ _ _ Hi)) as (evs & j & m' & e' & Hr & Hh & Hl & Ho).
    exists ([Go i true] ++ evs), j, m', e'. split_and!; [|done|cbn; lia|].
    + eapply run_then; [by apply run_one|done].
    + apply Forall_cons_2; [by left|done].
  - assert (Stopping r e b ∈ sessions m ∨ Removing r e b ∈ sessions m) as Hin.
    { destruct Hj as [Hj|Hj]; apply sess_here in Hj; auto. }
    destruct (stopping_current m r e b Hm Hin) as (_ & _ & _ & Hcur & _).
    destruct (wait_ends m i r e Hm Hi Hcur) as (evs & j' & m' & e' & ? & ? & ? & ?).
    exists evs, j', m', e'. split_and!; auto; lia.
Qed.

(** ** Sessions end *)

(** The branch of [GetOrCreate] for an init that has died is never taken: an init that
    is not being stopped has not been waited for, and then the probe finds it. *)
Definition no_again (t : session) : Prop :=
  match t with Stopping _ _ b | Removing _ _ b => b = false | _ => True end.

Definition rank (t : session) : nat :=
  match t with
  | Getting _ | Waiting _ _ => 4 | Holding _ _ => 3 | Stopping _ _ _ => 2 | Removing _ _ _ => 1
  | Finished | Failed => 0
  end.

(** How often a session may look before something else happens. *)
Definition looks (h : list entry) (t : session) : nat :=
  match t with
  | Getting _ => 1
  | Waiting _ e => match h !! e with Some x => if stopped x then 2 else 0 | None => 0 end
  | _ => 0
  end.

Lemma looks_le h t : (looks h t ≤ 2)%nat.
Proof. destruct t; cbn; try lia. repeat case_match; lia. Qed.

Lemma sum_looks_le h l : (sum_list_with (looks h) l ≤ 2 * length l)%nat.
Proof. induction l as [|t l IH]; cbn; [lia|]. pose proof (looks_le h t). lia. Qed.

Lemma sum_insert (f : session → nat) l i t t' :
  l !! i = Some t → (sum_list_with f (<[i := t']> l) + f t = sum_list_with f l + f t')%nat.
Proof.
  intros Hi. pose proof (lookup_lt_Some _ _ _ Hi) as Hlt.
  rewrite <- (take_drop_middle l i t Hi) at 2. rewrite insert_take_drop by done.
  rewrite !sum_list_with_app. cbn [sum_list_with]. lia.
Qed.

(** A step brings a session nearer to its end, or uses up one of its looks. *)
Lemma step_goes m i starts m' :
  inv m → Forall no_again (sessions m) → step m (Go i starts) = Ret m' →
  ∃ t t', sessions m !! i = Some t ∧ sessions m' = <[i := t']> (sessions m) ∧ no_again t' ∧
    ((rank t' < rank t)%nat ∨
     (rank t' = rank t ∧ (looks (heap m) t' < looks (heap m) t)%nat ∧ heap m' = heap m)).
Proof.
  intros Hm Ha Hs. cbn [step] in Hs. destruct (sessions m !! i) as [t|] eqn:Hi; [|done].
  cbn [or_err] in Hs. rewrite ret_bind in Hs. pose proof (Forall_lookup_1 _ _ _ _ Ha Hi) as Hat. exists t.
  destruct t as [r|r e|r e|r e b|r e b| |]; try done.
  - unfold GetOrCreate in Hs. destruct (entries m !! r) as [e|] eqn:Hr.
    + destruct (inv_entries _ Hm r e Hr) as (x & Hx & _ & Hst). rewrite Hx in Hs.
      destruct (stopping x) eqn:Hsp; [|rewrite (probe_current m r e x) in Hs by done]; injection Hs as <-; cbn [goto sessions heap].
      * exists (Waiting r e). split_and!; try done. right. cbn. rewrite Hx, Hst. split_and!; try done; lia.
      * exists (Holding r e). split_and!; try done. left. cbn. lia.
    + destruct starts; injection Hs as <-; cbn [goto sessions heap]; eexists; (split; [done|]; split; [done|]);
        (split; [done|]); left; cbn; lia.
  - destruct (heap m !! e) as [x|] eqn:Hx; [|done]. cbn [or_err] in Hs. rewrite ret_bind in Hs.
    destruct (stopped x) eqn:Hst; [|done]. injection Hs as <-. exists (Getting r). split_and!; try done.
    right. cbn. rewrite Hx, Hst. split_and!; try done; lia.
  - assert ((Release m r).2 = Finished ∨ ∃ e', (Release m r).2 = Stopping r e' false) as Hr
      by (unfold Release; repeat case_match; eauto).
    assert (sessions (Release m r).1 = sessions m) as Hse by (unfold Release; by repeat case_match).
    destruct (Release m r) as [m1 t1]. cbn [fst snd] in *. injection Hs as <-. exists t1. cbn [goto sessions].
    rewrite Hse. destruct Hr as [->|[e' ->]]; (split_and!; [done..|left; cbn; lia]).
  - injection Hs as <-. exists (Removing r e b).
    assert (sessions (reap m e) = sessions m) as Hsame by (unfold reap; by destruct (heap m !! e)).
    cbn [goto sessions]. rewrite Hsame. split_and!; try done. left. cbn. lia.
  - cbn in Hat. subst b. unfold remove_entry in Hs. destruct (heap m !! e) as [x|]; [|done].
    cbn [or_err] in Hs. rewrite ret_bind in Hs. destruct (stopped x); [done|]. rewrite ret_bind in Hs.
    injection Hs as <-. exists Finished. split_and!; try done. left. cbn. lia.
Qed.

Lemma no_again_step m ev m' : inv m → Forall no_again (sessions m) → step m ev = Ret m' → Forall no_again (sessions m').
Proof.
  intros Hm Ha Hs. destruct ev as [r|i starts|e].
  - injection Hs as <-. apply Forall_app_2; [done|]. by apply Forall_cons_2; [|apply Forall_nil_2].
  - destruct (step_goes m i starts m' Hm Ha Hs) as (t & t' & Hi & -> & Ht & _). by apply Forall_insert.
  - cbn [step] in Hs. destruct (heap m !! e) as [x|]; [|done]. cbn [or_err] in Hs. rewrite ret_bind in Hs.
    case_bool_decide; [|done]. by injection Hs as <-.
Qed.

Definition potential (K : nat) (m : manager) : nat :=
  (K * sum_list_with rank (sessions m) + sum_list_with (looks (heap m)) (sessions m))%nat.

Fixpoint goes (evs : list event) : nat :=
  match evs with [] => 0 | Go _ _ :: evs' => S (goes evs') | _ :: evs' => goes evs' end.

Lemma step_potential K m ev m' :
  inv m → Forall no_again (sessions m) → step m ev = Ret m' → (2 * length (sessions m') < K)%nat →
  (goes [ev] + potential K m' + (4 * K + 1) * length (sessions m)
   ≤ potential K m + (4 * K + 1) * length (sessions m'))%nat.
Proof.
  intros Hm Ha Hs HK. destruct ev as [r|i starts|e].
  - injection Hs as <-. unfold potential. cbn [goes sessions heap].
    rewrite !sum_list_with_app, length_app. cbn [sum_list_with rank looks length]. nia.
  - destruct (step_goes m i starts m' Hm Ha Hs) as (t & t' & Hi & Hse & _ & Hcase).
    unfold potential. cbn [goes]. rewrite Hse in *.
    rewrite length_insert in *. pose proof (sum_insert rank _ i t t' Hi) as Hrank.
    destruct Hcase as [Hlt|(Heq & Hl & ->)].
    + pose proof (sum_looks_le (heap m') (<[i := t']> (sessions m))) as Hle. rewrite length_insert in Hle.
      assert (sum_list_with rank (<[i:=t']> (sessions m)) + 1 ≤ sum_list_with rank (sessions m))%nat as Hdrop by lia.
      nia.
    + pose proof (sum_insert (looks (heap m)) _ i t t' Hi) as Hlook.
      nia.
  - cbn [goes]. cbn [step] in Hs.
    destruct (heap m !! e) as [x|] eqn:Hx; [|done]. cbn [or_err] in Hs. rewrite ret_bind in Hs.
    case_bool_decide; [|done]. injection Hs as <-. unfold potential. cbn [sessions heap].
    assert (∀ l, sum_list_with (looks (<[e := set_init x InitZombie]> (heap m))) l = sum_list_with (looks (heap m)) l) as Hsame.
    { induction l as [|t l IH]; [done|]. cbn. rewrite IH. f_equal. destruct t as [|r e'|? ?|? ? ?|? ? ?| |]; try done. cbn.
      destruct (decide (e' = e)) as [->|Hne]; [|by rewrite list_lookup_insert_ne].
      rewrite list_lookup_insert_eq by (by apply lookup_lt_Some in Hx). by rewrite Hx. }
    rewrite Hsame. lia.
Qed.

Lemma goes_cons ev evs : goes (ev :: evs) = (goes [ev] + goes evs)%nat.
Proof. by destruct ev. Qed.

Lemma step_sessions_grow m ev m' : step m ev = Ret m' → (length (sessions m) ≤ length (sessions m'))%nat.
Proof.
  intros Hs. destruct ev as [r|i starts|e]; cbn [step] in Hs.
  - injection Hs as <-. cbn. rewrite length_app. lia.
  - destruct (sessions m !! i) as [t|]; [|done]. cbn [or_err] in Hs. rewrite ret_bind in Hs.
    assert (∀ m1 t1, sessions m1 = sessions m → length (sessions (goto m1 i t1)) = length (sessions m)) as Hlen.
    { intros m1 t1 He. cbn [goto sessions]. by rewrite length_insert, He. }
    destruct t as [r|r e|r e|r e b|r e b| |]; try done.
    + pose proof (get_sessions m r starts) as Hg. destruct (GetOrCreate m r starts). injection Hs as <-. by rewrite Hlen.
    + destruct (heap m !! e) as [x|]; [|done]. cbn [or_err] in Hs. rewrite ret_bind in Hs.
      destruct (stopped x); [|done]. injection Hs as <-. by rewrite Hlen.
    + assert (sessions (Release m r).1 = sessions m) as Hse by (unfold Release; by repeat case_match).
      destruct (Release m r). injection Hs as <-. by rewrite Hlen.
    + injection Hs as <-. rewrite Hlen; [done|]. unfold reap. by destruct (heap m !! e).
    + unfold remove_entry in Hs. destruct (heap m !! e) as [x|]; [|done]. cbn [or_err] in Hs. rewrite ret_bind in Hs.
      destruct (stopped x); [done|]. rewrite ret_bind in Hs. injection Hs as <-. by rewrite Hlen.
  - destruct (heap m !! e) as [x|]; [|done]. cbn [or_err] in Hs. rewrite ret_bind in Hs.
    case_bool_decide; [|done]. by injection Hs as <-.
Qed.

Lemma run_potential K evs : ∀ m m',
  inv m → Forall no_again (sessions m) → run m evs = Ret m' → (2 * length (sessions m') < K)%nat →
  (length (sessions m) ≤ length (sessions m'))%nat ∧ Forall no_again (sessions m') ∧
  (goes evs + potential K m' + (4 * K + 1) * length (sessions m)
   ≤ potential K m + (4 * K + 1) * length (sessions m'))%nat.
Proof.
  induction evs as [|ev evs IH]; intros m m' Hm Ha Hr HK; cbn [run] in Hr.
  { injection Hr as <-. split_and!; [lia|done|cbn [goes]; lia]. }
  pose proof (step_inv m ev Hm) as Hi. destruct (step m ev) as [m1| |] eqn:Hs; [|done..]. rewrite ret_bind in Hr.
  pose proof (step_sessions_grow m ev m1 Hs) as Hg.
  destruct (IH m1 m' Hi (no_again_step m ev m1 Hm Ha Hs) Hr HK) as (Hg1 & Ha1 & Hp1).
  pose proof (step_potential K m ev m1 Hm Ha Hs ltac:(lia)) as Hp. rewrite goes_cons.
  split_and!; [lia|done|lia].
Qed.

(** sessions end. However sessions are interleaved, whatever inits exit or fail to
    start, the sessions that have arrived, [n] of them, make at most [n * (8 * n + 5)]
    moves in all: none is woken and put to sleep again for ever. The init of a root is
    never stopped by a session that has yet to use it. *)
Theorem sessions_end (evs : list event) (m : manager) :
  run New evs = Ret m →
  let n := length (sessions m) in
  (goes evs ≤ n * (8 * n + 5))%nat ∧ ∀ r e, Stopping r e true ∉ sessions m ∧ Removing r e true ∉ sessions m.
Proof.
  intros Hr n. destruct (run_potential (2 * n + 1) evs New m inv_new (Forall_nil_2 _) Hr ltac:(lia)) as (_ & Ha & Hp).
  unfold potential in Hp. cbn [sessions New sum_list_with length] in Hp. fold n in Hp. split; [nia|].
  rewrite Forall_forall in Ha. intros r e. split; intros Hin%Ha; done.
Qed.

(** ** Examples *)

(** Two sessions share an init; a third arrives while the last of them stops it. *)
Definition example_root : gostring := bs "a".
Definition example_events : list event :=
  [Arrive example_root; Go 0 true; Arrive example_root; Go 1 true; Go 0 true; Go 1 true;
   Arrive example_root; Go 2 true; Go 1 true; Go 1 true].

Definition after (evs : list event) : manager := match run New evs with Ret m => m | _ => New end.

Lemma example_waits :
  run New (take 8 example_events) = Ret (after (take 8 example_events)) ∧
  sessions (after (take 8 example_events)) = [Finished; Stopping example_root 0 false; Waiting example_root 0].
Proof. split; vm_compute; reflexivity. Qed.

Lemma namespaces_obtained_witness :
  ∃ evs j m' e', run (after (take 8 example_events)) evs = Ret m' ∧ sessions m' !! 2%nat = Some (Holding example_root e') ∧
    (length evs ≤ 6)%nat ∧ Forall (only 2 j) evs.
Proof.
  destruct example_waits as [Hr Hs]. apply (namespaces_obtained (after (take 8 example_events)) 2 example_root).
  - exists (take 8 example_events). exact Hr.
  - right. exists 0%nat. rewrite Hs. reflexivity.
Defined.

Lemma example_ends : run New example_events = Ret (after example_events) ∧ length (sessions (after example_events)) = 3%nat.
Proof. split; vm_compute; reflexivity. Qed.

Lemma sessions_end_witness : (goes example_events ≤ 3 * (8 * 3 + 5))%nat.
Proof.
  destruct example_ends as [Hr Hl]. destruct (sessions_end example_events (after example_events) Hr) as [Hg _].
  rewrite Hl in Hg. exact Hg.
Defined.

(** An init that has exited is handed out like a running one: the probe cannot tell them
    apart until the process has been waited for, which only [stopEntry] does. *)
Definition death_events : list event :=
  [Arrive example_root; Go 0 true; Exit 0; Arrive example_root; Go 1 true].
Lemma dead_init_is_reused :
  sessions (after death_events) = [Holding example_root 0; Holding example_root 0] ∧
  (init <$> heap (after death_events)) = [InitZombie].
Proof. split; vm_compute; reflexivity. Qed.
