(* ===== verification/Servers.v ===== *)
(** * Servers shared by the sessions of a frame ([src/cmd/thundersnapd/main.go])

    Control servers and VMs are kept in tables with reference counts. The table of the
    control servers is compared with that of the namespaces ([Namespaces]): as long as
    the daemon does not crash it makes the same steps. *)

From Stdlib Require Import Strings.String.
From S2P Require Import GoSort Prelude GoStrings Namespaces.

(** ** Control servers *)

Module ControlServers.

(** [cs_open]: the server has not been closed; [cs_stopped]: the channel of that name
    has been closed. *)
Record managedControlServer := MkServer {
  cs_root : gostring;
  cs_open : bool;
  cs_count : Z;
  cs_stopping : bool;
  cs_stopped : bool;
}.

(** [outer]: how many calls of [getOrCreateControlServer] are on the stack above this
    one; each unlocked the mutex, and will unlock it again when it returns. *)
Inductive client :=
| Getting (r : gostring) (outer : nat)
| Waiting (r : gostring) (e : nat) (outer : nat)
| Holding (r : gostring) (e : nat)
| Closing (r : gostring) (e : nat)
| Closed (r : gostring) (e : nat)
| Done
| Failed.

Record controlServerManager := MkServers {
  servers : gmap gostring nat;
  all : list managedControlServer;
  clients : list client;
}.
Definition no_servers : controlServerManager := MkServers ∅ [] [].

Definition with_count (x : managedControlServer) (n : Z) : managedControlServer :=
  MkServer (cs_root x) (cs_open x) n (cs_stopping x) (cs_stopped x).
Definition stop_server (x : managedControlServer) : managedControlServer :=
  MkServer (cs_root x) (cs_open x) (cs_count x) true (cs_stopped x).
Definition close_server (x : managedControlServer) : managedControlServer :=
  MkServer (cs_root x) false (cs_count x) (cs_stopping x) (cs_stopped x).
Definition close_stopped (x : managedControlServer) : managedControlServer :=
  MkServer (cs_root x) (cs_open x) (cs_count x) (cs_stopping x) true.

(** Returning to [outer] calls runs their deferred unlocks, of a mutex that is not
    locked (every critical section is one step here): a fatal error. In the program
    another session may hold the mutex at that moment; the stray unlock then frees the
    other's lock, and it is the other's own unlock that is fatal, a little later. *)
Definition returns (m : controlServerManager) (t : client) (outer : nat) : outcome () (controlServerManager * client) :=
  match outer with O => Ret (m, t) | S _ => Panic end.

Definition new_server (r : gostring) : managedControlServer := MkServer r true 1 false false.

(** [starts]: whether a new server would start. *)
Definition getOrCreateControlServer (m : controlServerManager) (r : gostring) (outer : nat) (starts : bool)
    : outcome () (controlServerManager * client) :=
  match servers m !! r with
  | Some e =>
      match all m !! e with
      | Some ms =>
          if cs_stopping ms then Ret (m, Waiting r e (S outer))
          else
            returns (MkServers (servers m) (<[e := with_count ms (cs_count ms + 1)]> (all m)) (clients m))
              (Holding r e) outer
      | None => Ret (m, Failed)
      end
  | None =>
      if negb starts then returns m Failed outer
      else
        let e := length (all m) in
        returns (MkServers (<[r := e]> (servers m)) (all m ++ [new_server r]) (clients m)) (Holding r e) outer
  end.

(** [releaseControlServer] until it closes the server. *)
Definition releaseControlServer (m : controlServerManager) (r : gostring) : controlServerManager * client :=
  match servers m !! r with
  | None => (m, Done)
  | Some e =>
      match all m !! e with
      | None => (m, Done)
      | Some ms =>
          let ms := with_count ms (cs_count ms - 1) in
          if 0 <? cs_count ms then (MkServers (servers m) (<[e := ms]> (all m)) (clients m), Done)
          else (MkServers (servers m) (<[e := stop_server ms]> (all m)) (clients m), Closing r e)
      end
  end.

Definition close_one (m : controlServerManager) (e : nat) : controlServerManager :=
  match all m !! e with
  | Some ms => MkServers (servers m) (<[e := close_server ms]> (all m)) (clients m)
  | None => m
  end.

(** Its second critical section. *)
Definition forget (m : controlServerManager) (r : gostring) (e : nat) : outcome () controlServerManager :=
  ms ← or_err (all m !! e) ();
  if cs_stopped ms then Panic
  else
    Ret (MkServers (if bool_decide (servers m !! r = Some e) then delete r (servers m) else servers m)
           (<[e := close_stopped ms]> (all m)) (clients m)).

Definition getSessionCount (m : controlServerManager) (r : gostring) : Z :=
  match servers m !! r with
  | Some e => match all m !! e with Some ms => cs_count ms | None => 0 end
  | None => 0
  end.

Definition countAllSessions (m : controlServerManager) : Z :=
  map_fold (λ _ e total, total + match all m !! e with Some ms => cs_count ms | None => 0 end) 0 (servers m).

Definition goto (m : controlServerManager) (i : nat) (t : client) : controlServerManager :=
  MkServers (servers m) (all m) (<[i := t]> (clients m)).

(** The events are those of [Namespaces], without inits that exit. *)
Definition step (m : controlServerManager) (ev : event) : outcome () controlServerManager :=
  match ev with
  | Arrive r => Ret (MkServers (servers m) (all m) (clients m ++ [Getting r 0]))
  | Exit _ => Err ()
  | Go i starts =>
      t ← or_err (clients m !! i) ();
      match t with
      | Getting r outer => '(m', t') ← getOrCreateControlServer m r outer starts; Ret (goto m' i t')
      | Waiting r e outer => ms ← or_err (all m !! e) (); if cs_stopped ms then Ret (goto m i (Getting r outer)) else Err ()
      | Holding r _ => let '(m', t') := releaseControlServer m r in Ret (goto m' i t')
      | Closing r e => Ret (goto (close_one m e) i (Closed r e))
      | Closed r e => m' ← forget m r e; Ret (goto m' i Done)
      | Done | Failed => Err ()
      end
  end.

Fixpoint run (m : controlServerManager) (evs : list event) : outcome () controlServerManager :=
  match evs with
  | [] => Ret m
  | ev :: evs' => m' ← step m ev; run m' evs'
  end.

(** ** The same table as that of the namespaces *)

Definition as_entry (x : managedControlServer) : entry :=
  MkEntry (cs_root x) (if cs_open x then InitRunning else InitReaped) (cs_count x) (cs_stopping x) (cs_stopped x).

Definition as_session (t : client) : session :=
  match t with
  | Getting r _ => Namespaces.Getting r
  | Waiting r e _ => Namespaces.Waiting r e
  | Holding r e => Namespaces.Holding r e
  | Closing r e => Namespaces.Stopping r e false
  | Closed r e => Namespaces.Removing r e false
  | Done => Namespaces.Finished
  | Failed => Namespaces.Failed
  end.

Definition as_manager (m : controlServerManager) : manager :=
  MkManager (servers m) (as_entry <$> all m) (as_session <$> clients m).

Lemma as_goto m i t : as_manager (goto m i t) = Namespaces.goto (as_manager m) i (as_session t).
Proof. unfold as_manager, goto, Namespaces.goto. cbn [entries heap sessions clients servers all]. by rewrite list_fmap_insert. Qed.

Lemma as_all m e ms : all m !! e = Some ms → heap (as_manager m) !! e = Some (as_entry ms).
Proof. intros He. cbn [heap as_manager]. by rewrite list_lookup_fmap, He. Qed.

Lemma as_client m i t : clients m !! i = Some t → sessions (as_manager m) !! i = Some (as_session t).
Proof. intros Hi. cbn [sessions as_manager]. by rewrite list_lookup_fmap, Hi. Qed.

Lemma as_insert m e x : as_manager (MkServers (servers m) (<[e := x]> (all m)) (clients m)) =
  MkManager (servers m) (<[e := as_entry x]> (heap (as_manager m))) (sessions (as_manager m)).
Proof. unfold as_manager. cbn. by rewrite list_fmap_insert. Qed.

Lemma as_none m e : all m !! e = None → heap (as_manager m) !! e = None.
Proof. intros He. cbn [heap as_manager]. by rewrite list_lookup_fmap, He. Qed.

Lemma get_simulates m r outer starts :
  inv (as_manager m) →
  match getOrCreateControlServer m r outer starts with
  | Ret (m', t') => GetOrCreate (as_manager m) r starts = (as_manager m', as_session t')
  | Err _ => False
  | Panic => outer ≠ 0%nat
  end.
Proof.
  intros Hm. unfold getOrCreateControlServer, GetOrCreate. cbn [entries as_manager].
  destruct (servers m !! r) as [e|] eqn:Hr.
  - destruct (inv_entries _ Hm r e Hr) as (x & Hx & _). destruct (all m !! e) as [ms|] eqn:He.
    2: { apply as_none in He. congruence. }
    rewrite (as_all m e ms He) in *. cbn [stopping as_entry]. destruct (cs_stopping ms) eqn:Hs; [done|].
    rewrite (probe_current _ r e (as_entry ms) Hm Hr (as_all m e ms He) Hs).
    destruct outer; cbn [returns]; [|done]. by rewrite as_insert.
  - destruct starts; cbn [negb]; destruct outer; cbn [returns]; try done.
    unfold as_manager. cbn [servers all clients heap sessions]. rewrite fmap_app, length_fmap. done.
Qed.

Lemma release_simulates m i r e :
  inv (as_manager m) → clients m !! i = Some (Holding r e) →
  Release (as_manager m) r =
    (as_manager (releaseControlServer m r).1, as_session (releaseControlServer m r).2).
Proof.
  intros Hm Hi%as_client%sess_here. destruct (holding_current _ r e Hm Hi) as (x & Hx & _ & Hcur & _ & Hs & _).
  unfold Release, releaseControlServer. rewrite Hcur, Hx. cbn [entries as_manager] in Hcur. rewrite Hcur, Hs.
  destruct (all m !! e) as [ms|] eqn:He; [|apply as_none in He; congruence].
  rewrite (as_all m e ms He) in Hx. injection Hx as <-. cbn [refCount set_count as_entry cs_count with_count].
  destruct (0 <? cs_count ms - 1); cbn [fst snd]; by rewrite as_insert.
Qed.

Lemma forget_simulates m i r e :
  inv (as_manager m) → clients m !! i = Some (Closed r e) →
  ∃ m', forget m r e = Ret m' ∧ remove_entry (as_manager m) r e = Ret (as_manager m').
Proof.
  intros Hm Hi%as_client. destruct (remove_inv _ i r e false Hm Hi) as (m' & Hr & _). unfold forget, remove_entry in *.
  destruct (all m !! e) as [ms|] eqn:He; [|by rewrite (as_none _ _ He) in Hr].
  rewrite (as_all m e ms He) in *. cbn [or_err] in *. rewrite !ret_bind in *. cbn [stopped as_entry] in *.
  destruct (cs_stopped ms); [done|]. eexists. split; [done|]. cbn [entries as_manager] in *.
  unfold as_manager. cbn. rewrite list_fmap_insert. by case_bool_decide.
Qed.

(** A session that is about to return to a call that has unlocked the mutex. *)
Definition doomed (m : controlServerManager) : Prop := ∃ i r n, clients m !! i = Some (Getting r (S n)).

Lemma step_simulates m ev :
  inv (as_manager m) →
  match step m ev with
  | Ret m' => Namespaces.step (as_manager m) ev = Ret (as_manager m')
  | Err _ => True
  | Panic => doomed m
  end.
Proof.
  intros Hm. destruct ev as [r|i starts|e]; cbn [step]; [|destruct (clients m !! i) as [t|] eqn:Hi|exact I].
  - unfold as_manager. cbn. by rewrite fmap_app.
  - cbn [or_err]. rewrite ret_bind. pose proof (as_client m i t Hi) as Hi'. cbn [Namespaces.step].
    rewrite Hi'. cbn [or_err]. rewrite ret_bind.
    destruct t as [r outer|r e outer|r e|r e|r e| |]; cbn [as_session]; try exact I.
    + pose proof (get_simulates m r outer starts Hm) as Hg.
      destruct (getOrCreateControlServer m r outer starts) as [[m' t']| |]; [|done|].
      * rewrite ret_bind, Hg. by rewrite as_goto.
      * destruct outer as [|n]; [done|]. by exists i, r, n.
    + destruct (all m !! e) as [ms|] eqn:He; cbn [or_err]; [|exact I]. rewrite (as_all m e ms He). cbn [or_err].
      rewrite !ret_bind. cbn [stopped as_entry]. destruct (cs_stopped ms); [|exact I]. by rewrite as_goto.
    + rewrite (release_simulates m i r e Hm Hi). destruct (releaseControlServer m r). by rewrite as_goto.
    + rewrite as_goto. f_equal. f_equal. unfold reap, close_one. destruct (all m !! e) as [ms|] eqn:He.
      * rewrite (as_all m e ms He). by rewrite as_insert.
      * by rewrite (as_none m e He).
    + destruct (forget_simulates m i r e Hm Hi) as (m' & -> & ->). rewrite !ret_bind. by rewrite as_goto.
  - exact I.
Qed.

Lemma run_simulates evs : ∀ m,
  inv (as_manager m) →
  match run m evs with
  | Ret m' => Namespaces.run (as_manager m) evs = Ret (as_manager m') ∧ inv (as_manager m')
  | Err _ => True
  | Panic => ∃ evs1 evs2 m1, evs = evs1 ++ evs2 ∧ run m evs1 = Ret m1 ∧ doomed m1
  end.
Proof.
  induction evs as [|ev evs IH]; intros m Hm; cbn [run]; [done|].
  pose proof (step_simulates m ev Hm) as Hs. destruct (step m ev) as [m1| |] eqn:Hst; [|exact I|].
  - rewrite ret_bind. cbn [Namespaces.run]. rewrite Hs, ret_bind.
    pose proof (step_inv (as_manager m) ev Hm) as Hi. rewrite Hs in Hi. specialize (IH m1 Hi).
    destruct (run m1 evs); [exact IH|exact I|]. destruct IH as (evs1 & evs2 & m2 & -> & Hr & Hd).
    exists (ev :: evs1), evs2, m2. split; [done|]. split; [|done]. cbn [run]. by rewrite Hst, ret_bind.
  - by exists [], (ev :: evs), m.
Qed.

(** ** Counting *)

Definition at_root (r : gostring) (t : client) : bool := match t with Holding r' _ => bool_decide (r' = r) | _ => false end.
Definition in_use (t : client) : bool := match t with Holding _ _ => true | _ => false end.
Definition users (P : client → bool) (m : controlServerManager) : nat := length (filter (λ t, P t = true) (clients m)).

Lemma users_sum P m : users P m = sum_list_with (λ t, if P t then 1%nat else 0%nat) (clients m).
Proof.
  unfold users. induction (clients m) as [|t l IH]; [done|]. rewrite filter_cons. cbn [sum_list_with].
  destruct (P t) eqn:Ht; [rewrite decide_True by done; cbn [length]; by rewrite IH|].
  rewrite decide_False by congruence. by rewrite IH.
Qed.

Lemma holders_sum m e :
  holders (as_manager m) e = sum_list_with (λ t, if holds_of e (as_session t) then 1%nat else 0%nat) (clients m).
Proof.
  unfold holders, count. cbn [sessions as_manager]. induction (clients m) as [|t l IH]; [done|].
  rewrite fmap_cons, filter_cons. cbn [sum_list_with].
  destruct (holds_of e (as_session t)) eqn:Ht; [rewrite decide_True by done; cbn [length]; by rewrite IH|].
  rewrite decide_False by congruence. by rewrite IH.
Qed.

Lemma sum_list_ext {A} (f g : A → nat) l : (∀ t, t ∈ l → f t = g t) → sum_list_with f l = sum_list_with g l.
Proof.
  induction l as [|t l IH]; intros Hfg; [done|]. cbn. rewrite Hfg by (by left). by rewrite IH by (intros; apply Hfg; by right).
Qed.

Lemma client_current m r e :
  inv (as_manager m) → Holding r e ∈ clients m →
  ∃ ms, all m !! e = Some ms ∧ cs_root ms = r ∧ servers m !! r = Some e ∧ cs_open ms = true ∧ cs_stopping ms = false ∧
    cs_count ms = Z.of_nat (holders (as_manager m) e).
Proof.
  intros Hm [i Hi]%list_elem_of_lookup. pose proof (as_client m i _ Hi) as Hin%sess_here.
  destruct (holding_current _ r e Hm Hin) as (x & Hx & Hr & Hcur & _ & Hs & Hc & Hi').
  cbn [heap as_manager] in Hx. rewrite list_lookup_fmap in Hx. destruct (all m !! e) as [ms|] eqn:He; [|done].
  injection Hx as <-. exists ms. split_and!; try done. by destruct (cs_open ms) eqn:Ho; [|cbn in Hi'; rewrite Ho in Hi'].
Qed.

Lemma server_count m r e :
  inv (as_manager m) → servers m !! r = Some e →
  ∃ ms, all m !! e = Some ms ∧ cs_count ms = Z.of_nat (holders (as_manager m) e) ∧ users (at_root r) m = holders (as_manager m) e.
Proof.
  intros Hm Hr. destruct (inv_entries _ Hm r e Hr) as (x & Hx & Hroot & Hst).
  pose proof (inv_heap _ Hm e x Hx) as He. unfold entry_inv in He. rewrite Hst in He.
  cbn [heap as_manager] in Hx. rewrite list_lookup_fmap in Hx. destruct (all m !! e) as [ms|] eqn:Hms; [|done].
  injection Hx as <-. exists ms. split; [done|]. split.
  - unfold holders. destruct (stopping (as_entry ms)); [destruct He as (_ & -> & H0 & _)|destruct He as (_ & H0 & _)]; exact H0.
  - rewrite users_sum, holders_sum. apply sum_list_ext. intros t Ht.
    destruct t as [? ?|? ? ?|r' e'|? ?|? ?| |]; try done. cbn [at_root as_session holds_of].
    destruct (client_current m r' e' Hm Ht) as (ms' & Hms' & Hr' & Hcur & _).
    case_bool_decide as Heq.
    + subst r'. assert (e' = e) as -> by congruence. by rewrite Nat.eqb_refl.
    + destruct (e' =? e)%nat eqn:Hee; [|done]. apply Nat.eqb_eq in Hee as ->. cbn [e_root as_entry] in Hroot. congruence.
Qed.

Lemma sum_list_add {A} (f g : A → nat) l : (sum_list_with (λ t, f t + g t) l = sum_list_with f l + sum_list_with g l)%nat.
Proof. induction l as [|t l IH]; cbn; [done|]. rewrite IH. lia. Qed.

Lemma sum_list_zero {A} (f : A → nat) l : (∀ t, t ∈ l → f t = 0%nat) → sum_list_with f l = 0%nat.
Proof. induction l as [|t l IH]; intros Hf; [done|]. cbn. rewrite Hf by (by left). by rewrite IH by (intros; apply Hf; by right). Qed.

(** Summing over servers and then over clients is summing over clients. *)
Lemma sum_servers m (l : list (gostring * nat)) :
  sum_list_with (λ p, holders (as_manager m) p.2) l =
  sum_list_with (λ t, sum_list_with (λ p, if holds_of p.2 (as_session t) then 1%nat else 0%nat) l) (clients m).
Proof.
  induction l as [|p l IH]; cbn [sum_list_with].
  - symmetry. by apply sum_list_zero.
  - by rewrite IH, holders_sum, <- sum_list_add.
Qed.

Lemma one_server (l : list (gostring * nat)) r e :
  NoDup l.*2 → (r, e) ∈ l → sum_list_with (λ p, if (e =? p.2)%nat then 1%nat else 0%nat) l = 1%nat.
Proof.
  induction l as [|[r' e'] l IH]; [by intros _ ?%not_elem_of_nil|]. rewrite fmap_cons, NoDup_cons. cbn [snd sum_list_with].
  intros [Hni Hnd] [[= <- <-]|Hin]%elem_of_cons.
  - rewrite Nat.eqb_refl, sum_list_zero; [done|]. intros [r'' e''] Hin. cbn. destruct (e =? e'')%nat eqn:He; [|done].
    apply Nat.eqb_eq in He as ->. destruct Hni. apply list_elem_of_fmap. by exists (r'', e'').
  - rewrite (IH Hnd Hin). destruct (e =? e')%nat eqn:He; [|done]. apply Nat.eqb_eq in He as ->.
    destruct Hni. apply list_elem_of_fmap. by exists (r, e').
Qed.

Lemma servers_distinct m : inv (as_manager m) → NoDup (map_to_list (servers m)).*2.
Proof.
  intros Hm. apply NoDup_fmap_2_strong; [|apply NoDup_map_to_list].
  intros [r1 e1] [r2 e2] H1%elem_of_map_to_list H2%elem_of_map_to_list Heq. cbn in Heq. subst e2.
  destruct (inv_entries _ Hm r1 e1 H1) as (x & Hx & <- & _). destruct (inv_entries _ Hm r2 e1 H2) as (y & Hy & <- & _). congruence.
Qed.

Lemma count_all m : inv (as_manager m) → countAllSessions m = Z.of_nat (users in_use m).
Proof.
  intros Hm. unfold countAllSessions. rewrite map_fold_foldr.
  assert (∀ l, l ⊆ map_to_list (servers m) →
    foldr (uncurry (λ (_ : gostring) e total, total + match all m !! e with Some ms => cs_count ms | None => 0 end)) 0 l
    = Z.of_nat (sum_list_with (λ p, holders (as_manager m) p.2) l)) as ->; [| |done].
  { induction l as [|[r e] l IH]; intros Hl; [done|]. cbn [foldr uncurry sum_list_with snd]. rewrite IH by set_solver.
    assert (servers m !! r = Some e) as Hr by (apply elem_of_map_to_list, Hl; by left).
    destruct (server_count m r e Hm Hr) as (ms & -> & -> & _). lia. }
  f_equal. rewrite sum_servers, users_sum. apply sum_list_ext. intros t Ht.
  destruct t as [? ?|? ? ?|r e|? ?|? ?| |]; try (rewrite sum_list_zero; [done|by intros [? ?]]).
  cbn [in_use as_session holds_of]. destruct (client_current m r e Hm Ht) as (ms & _ & _ & Hcur & _).
  apply (one_server _ r e); [by apply servers_distinct|]. by apply elem_of_map_to_list.
Qed.

(** ** The theorem *)

Lemma inv_none : inv (as_manager no_servers).
Proof. exact inv_new. Qed.

(** C23: control servers are counted. Whatever sessions arrive and leave and in whatever
    order, the table makes the steps of the table of namespaces; the number of sessions
    of a frame, and of all frames, is what is reported; the server of a frame in use is
    open, in the table, not being stopped, and the same for all its sessions. The only
    crash is that of a session that had to wait for a server to stop. *)
Theorem control_servers_counted (evs : list event) :
  match run no_servers evs with
  | Err _ => True
  | Panic => ∃ evs1 evs2 m1, evs = evs1 ++ evs2 ∧ run no_servers evs1 = Ret m1 ∧ doomed m1
  | Ret m =>
      Namespaces.run New evs = Ret (as_manager m) ∧
      (∀ r, getSessionCount m r = Z.of_nat (users (at_root r) m)) ∧
      countAllSessions m = Z.of_nat (users in_use m) ∧
      (∀ r e, Holding r e ∈ clients m → ∃ ms, all m !! e = Some ms ∧ cs_root ms = r ∧ servers m !! r = Some e ∧
         cs_open ms = true ∧ cs_stopping ms = false)
  end.
Proof.
  pose proof (run_simulates evs no_servers inv_none) as Hr. destruct (run no_servers evs) as [m| |]; [|exact I|exact Hr].
  destruct Hr as [Hr Hm]. split_and!; [exact Hr| |by apply count_all|].
  - intros r. unfold getSessionCount. destruct (servers m !! r) as [e|] eqn:He.
    + destruct (server_count m r e Hm He) as (ms & -> & -> & ->). done.
    + rewrite users_sum, sum_list_zero; [done|]. intros t Ht.
      destruct t as [? ?|? ? ?|r' e'|? ?|? ?| |]; try done. cbn. case_bool_decide; [|done]. subst r'.
      destruct (client_current m r e' Hm Ht) as (ms & _ & _ & Hcur & _). congruence.
  - intros r e Hin. destruct (client_current m r e Hm Hin) as (ms & ? & ? & ? & ? & ? & _). by exists ms.
Qed.

(** A session that arrives while the server of its frame is closed crashes the daemon
    when it goes on: the call made after the wait returns to one whose deferred unlock
    finds the mutex unlocked. *)
Lemma waiting_client_crashes :
  let r := bs "a" in
  run no_servers [Arrive r; Go 0 true; Go 0 true; Arrive r; Go 1 true; Go 0 true; Go 0 true; Go 1 true; Go 1 true] = Panic.
Proof. vm_compute. reflexivity. Qed.

End ControlServers.

(** ** VMs *)

Module VMSessions.

(** [v_running]: the VM runs; [v_done]: its channel [done] has been closed. *)
Record managedVMXSession := MkVM { v_key : gostring; v_running : bool; refCount : Z; v_done : bool }.

Inductive client :=
| Getting (k : gostring) | Holding (k : gostring) (e : nat) | Done | Failed.

(** The goroutine that watches a VM: before and after closing [done], and ended. *)
Inductive monitor := Watching | Notified | Ended.

Record vmxSessionManager := MkVMs {
  vms : gmap gostring nat;
  all_vms : list managedVMXSession;
  monitors : list monitor;
  clients : list client;
}.
Definition no_vms : vmxSessionManager := MkVMs ∅ [] [] [].

(** The key of the table. *)
Definition vm_key (user isolation : gostring) : gostring := user ++ bs "/" ++ isolation.

Definition start_vm (m : vmxSessionManager) (k : gostring) (starts : bool) : vmxSessionManager * client :=
  if negb starts then (m, Failed)
  else
    let e := length (all_vms m) in
    (MkVMs (<[k := e]> (vms m)) (all_vms m ++ [MkVM k true 1 false]) (monitors m ++ [Watching]) (clients m), Holding k e).

Definition getOrCreateVMX (m : vmxSessionManager) (k : gostring) (starts : bool) : vmxSessionManager * client :=
  match vms m !! k with
  | Some e =>
      match all_vms m !! e with
      | Some ms =>
          if v_done ms then start_vm (MkVMs (delete k (vms m)) (all_vms m) (monitors m) (clients m)) k starts
          else
            (MkVMs (vms m) (<[e := MkVM (v_key ms) (v_running ms) (refCount ms + 1) (v_done ms)]> (all_vms m))
               (monitors m) (clients m), Holding k e)
      | None => (m, Failed)
      end
  | None => start_vm m k starts
  end.

(** Closing a session shuts its VM down. *)
Definition releaseVMX (m : vmxSessionManager) (k : gostring) : vmxSessionManager :=
  match vms m !! k with
  | None => m
  | Some e =>
      match all_vms m !! e with
      | None => m
      | Some ms =>
          let n := refCount ms - 1 in
          if 0 <? n
          then MkVMs (vms m) (<[e := MkVM (v_key ms) (v_running ms) n (v_done ms)]> (all_vms m)) (monitors m) (clients m)
          else MkVMs (delete k (vms m)) (<[e := MkVM (v_key ms) false n (v_done ms)]> (all_vms m)) (monitors m) (clients m)
      end
  end.

(** The goroutine: once the VM has exited it closes [done], then takes the mutex and
    deletes whatever the table has under the key. *)
Definition watch (m : vmxSessionManager) (e : nat) : option vmxSessionManager :=
  ms ← all_vms m !! e;
  mon ← monitors m !! e;
  match mon with
  | Watching =>
      if v_running ms then None
      else Some (MkVMs (vms m) (<[e := MkVM (v_key ms) (v_running ms) (refCount ms) true]> (all_vms m))
                   (<[e := Notified]> (monitors m)) (clients m))
  | Notified => Some (MkVMs (delete (v_key ms) (vms m)) (all_vms m) (<[e := Ended]> (monitors m)) (clients m))
  | Ended => None
  end.

Inductive event := Arrive (k : gostring) | Go (i : nat) (starts : bool) | Exit (e : nat) | Watch (e : nat).

Definition set_client (m : vmxSessionManager) (i : nat) (t : client) : vmxSessionManager :=
  MkVMs (vms m) (all_vms m) (monitors m) (<[i := t]> (clients m)).

Definition step (m : vmxSessionManager) (ev : event) : option vmxSessionManager :=
  match ev with
  | Arrive k => Some (MkVMs (vms m) (all_vms m) (monitors m) (clients m ++ [Getting k]))
  | Go i starts =>
      t ← clients m !! i;
      match t with
      | Getting k => let '(m', t') := getOrCreateVMX m k starts in Some (set_client m' i t')
      | Holding k _ => Some (set_client (releaseVMX m k) i Done)
      | Done | Failed => None
      end
  | Exit e =>
      ms ← all_vms m !! e;
      if v_running ms
      then Some (MkVMs (vms m) (<[e := MkVM (v_key ms) false (refCount ms) (v_done ms)]> (all_vms m)) (monitors m) (clients m))
      else None
  | Watch e => watch m e
  end.

Fixpoint run (m : vmxSessionManager) (evs : list event) : option vmxSessionManager :=
  match evs with
  | [] => Some m
  | ev :: evs' => m' ← step m ev; run m' evs'
  end.

(** *** What holds of the table *)

Definition table_ok (m : vmxSessionManager) : Prop :=
  length (monitors m) = length (all_vms m) ∧
  ∀ k e, vms m !! k = Some e → ∃ ms, all_vms m !! e = Some ms ∧ v_key ms = k ∧ 1 ≤ refCount ms ∧ monitors m !! e ≠ Some Ended.

Lemma table_ok_update m e ms ms' vs cs :
  table_ok m → all_vms m !! e = Some ms → v_key ms' = v_key ms →
  (∀ k e', vs !! k = Some e' → vms m !! k = Some e' ∧ (e' = e → 1 ≤ refCount ms')) →
  table_ok (MkVMs vs (<[e := ms']> (all_vms m)) (monitors m) cs).
Proof.
  intros [Hl Ht] He Hk Hvs. split; cbn [monitors all_vms vms]; [by rewrite length_insert|].
  intros k e' [Hk' H1]%Hvs. destruct (Ht k e' Hk') as (x & Hx & Hxk & Hxr & Hxm).
  destruct (decide (e' = e)) as [->|Hne].
  - exists ms'. rewrite list_lookup_insert_eq by (by apply lookup_lt_Some in He). split_and!; auto; congruence.
  - exists x. by rewrite list_lookup_insert_ne.
Qed.

Lemma start_vm_ok m k starts : table_ok m → table_ok (start_vm m k starts).1.
Proof.
  intros [Hl Ht]. unfold start_vm. destruct starts; cbn [negb fst]; [|done].
  split; cbn [monitors all_vms vms]; [rewrite !length_app; cbn; lia|]. intros k' e'.
  destruct (decide (k' = k)) as [->|Hne].
  - rewrite lookup_insert_eq. intros [= <-]. eexists. split; [by apply list_lookup_middle|]. cbn. split_and!; [done|lia|].
    by rewrite <- Hl, list_lookup_middle.
  - rewrite lookup_insert_ne by done. intros (x & Hx & Hxk & Hxr & Hxm)%Ht. exists x.
    split; [by apply lookup_app_l_Some|]. split_and!; [done..|].
    rewrite lookup_app_l; [done|]. rewrite Hl. by apply lookup_lt_Some in Hx.
Qed.

Lemma table_ok_delete m k cs : table_ok m → table_ok (MkVMs (delete k (vms m)) (all_vms m) (monitors m) cs).
Proof.
  intros [Hl Ht]. split; [done|]. cbn [vms all_vms monitors]. intros k' e'. rewrite lookup_delete_Some. intros [_ H]. by apply Ht.
Qed.

Lemma step_table_ok m ev m' : table_ok m → step m ev = Some m' → table_ok m'.
Proof.
  intros Hm. destruct ev as [k|i starts|e|e]; cbn [step].
  - by intros [= <-].
  - destruct (clients m !! i) as [[k|k e| |]|]; try done; cbn [mbind option_bind].
    + assert (table_ok (getOrCreateVMX m k starts).1) as Hg.
      { unfold getOrCreateVMX. destruct (vms m !! k) as [e|] eqn:Hk; [|by apply start_vm_ok].
        destruct (proj2 Hm k e Hk) as (ms & He & Hmk & Hr & _). rewrite He. destruct (v_done ms).
        - by apply start_vm_ok, table_ok_delete.
        - cbn [fst]. apply (table_ok_update m e ms); try done. intros k' e' Hk'. split; [done|]. cbn. lia. }
      destruct (getOrCreateVMX m k starts) as [m1 t]. intros [= <-]. exact Hg.
    + intros [= <-]. assert (table_ok (releaseVMX m k)) as Hr; [|exact Hr].
      unfold releaseVMX. destruct (vms m !! k) as [e'|] eqn:Hk; [|done].
      destruct (proj2 Hm k e' Hk) as (ms & He & Hmk & Hr & _). rewrite He. destruct (0 <? refCount ms - 1) eqn:Hz.
      * apply Z.ltb_lt in Hz. apply (table_ok_update m e' ms); try done. intros k' e2 Hk'. split; [done|]. cbn. lia.
      * apply (table_ok_update m e' ms); try done. intros k' e2. rewrite lookup_delete_Some. intros [Hne Hk'].
        split; [done|]. intros ->. destruct (proj2 Hm k' e' Hk') as (ms2 & He2 & Hmk2 & _). congruence.
  - destruct (all_vms m !! e) as [ms|] eqn:He; [|done]. cbn [mbind option_bind]. destruct (v_running ms); [|done].
    intros [= <-]. apply (table_ok_update m e ms); try done. intros k' e' Hk'. split; [done|]. intros ->.
    destruct (proj2 Hm k' e Hk') as (x & Hx & _ & Hr & _). cbn. by assert (x = ms) as <- by congruence.
  - unfold watch. destruct (all_vms m !! e) as [ms|] eqn:He; [|done]. cbn [mbind option_bind].
    destruct (monitors m !! e) as [[| |]|] eqn:Hmon; try done; cbn [mbind option_bind].
    + destruct (v_running ms); [done|]. intros [= <-].
      assert (table_ok (MkVMs (vms m) (<[e := MkVM (v_key ms) false (refCount ms) true]> (all_vms m))
        (monitors m) (clients m))) as [Hl Ht].
      { apply (table_ok_update m e ms); try done. intros k' e' Hk'. split; [done|]. intros ->.
        destruct (proj2 Hm k' e Hk') as (x & Hx & _ & Hr & _). cbn. by assert (x = ms) as <- by congruence. }
      split; cbn [monitors all_vms vms] in *; [rewrite length_insert; exact Hl|].
      intros k' e' (x & Hx & Hxk & Hxr & Hxm)%Ht.
      exists x. split_and!; [done..|]. destruct (decide (e' = e)) as [->|Hne]; [|by rewrite list_lookup_insert_ne].
      rewrite list_lookup_insert_eq by (by apply lookup_lt_Some in Hmon). done.
    + intros [= <-]. destruct Hm as [Hl Ht]. split; cbn [monitors all_vms vms]; [by rewrite length_insert|].
      intros k' e'. rewrite lookup_delete_Some. intros [Hne (x & Hx & Hxk & Hxr & Hxm)%Ht]. exists x. split_and!; [done..|].
      destruct (decide (e' = e)) as [->|Hne']; [|by rewrite list_lookup_insert_ne]. exfalso. congruence.
Qed.

(** A VM in the table has the key it is found under, has not been closed and is still
    watched. *)
Lemma vm_table (evs : list event) m : run no_vms evs = Some m → table_ok m.
Proof.
  assert (∀ m0, table_ok m0 → run m0 evs = Some m → table_ok m) as Hrun.
  { induction evs as [|ev evs IH]; intros m0 Hm0; cbn [run]; [by intros [= <-]|].
    destruct (step m0 ev) as [m1|] eqn:Hs; [|done]. cbn [mbind option_bind]. apply IH. by apply (step_table_ok m0 ev). }
  apply Hrun. split; [done|]. intros k e. cbn [vms no_vms]. by rewrite lookup_empty.
Qed.

(** *** What does not *)

Definition after (evs : list event) : vmxSessionManager := default no_vms (run no_vms evs).

(** The first session leaves and its VM is shut down; the second starts another; then
    the goroutine of the first VM takes the second out of the table: the third session
    starts a VM over the same files while the second runs, and when the second session
    leaves it shuts down the VM of the third. *)
Definition lost_vm : list event :=
  [Arrive (bs "k"); Go 0 true; Go 0 true; Arrive (bs "k"); Go 1 true; Watch 0; Watch 0; Arrive (bs "k"); Go 2 true].

Lemma second_vm_is_lost :
  (v_running <$> all_vms (after lost_vm)) = [false; true; true] ∧
  clients (after lost_vm) = [Done; Holding (bs "k") 1; Holding (bs "k") 2] ∧
  (v_running <$> all_vms (after (lost_vm ++ [Go 1 true]))) = [false; true; false] ∧
  clients (after (lost_vm ++ [Go 1 true])) = [Done; Done; Holding (bs "k") 2].
Proof. split_and!; vm_compute; reflexivity. Qed.

End VMSessions.
