(* ===== verification/Sessions.v ===== *)
(** * Sessions in frames ([session.go], [src/cmd/vshd/main.go], [src/vshdsession/], [src/cmd/ts/])

    What a session is asked to run travels from the client to the daemon, from the
    daemon to vshd, through the helper programs inside the container and through a login
    shell. Every hop is modelled as it writes or reads the request; then come the loops
    that carry input, output and the exit code. *)

From Stdlib Require Import Strings.String.
From S2P Require Import GoSort Prelude GoUtf8 GoStrings GoIO GoPath Passwd VshdProto McpExec McpText.

(** ** Requests *)

Definition NUL : byte := Byte.x00.
Definition nul_field (s : gostring) : list byte := s ++ [NUL].
Definition fields (l : list gostring) : list byte := concat (nul_field <$> l).
Definition flag (b : bool) : gostring := if b then bs "1" else bs "0".

(** [sessionCommand]: a command line goes through a shell, none is a login. *)
Definition sessionCommand (raw : gostring) : list gostring :=
  if bool_decide (raw = []) then [] else [bs "sh"; bs "-c"; raw].

(** [writeVshdRequest]: the bytes it writes. *)
Definition writeVshdRequest (framePath targetUser : gostring) (pty : bool) (cmdArgs env : list gostring) : list byte :=
  (if bool_decide (framePath ≠ []) then fields [bs "VMX"; framePath] else [])
  ++ fields [targetUser; flag pty; fmt_int (Z.of_nat (length cmdArgs))] ++ fields cmdArgs
  ++ fields [fmt_int (Z.of_nat (length env))] ++ fields env.

Inductive request_error := ReadError (e : io_error) | InvalidCount (s : gostring) | NegativeCount (n : Z).

Definition readField (r : list byte) : outcome request_error (gostring * list byte) :=
  '(s, rest) ← wrap_err ReadError (ReadString NUL r);
  Ret (take (length s - 1) s, rest).

Definition readBool (r : list byte) : outcome request_error (bool * list byte) :=
  '(s, rest) ← readField r; Ret (bool_decide (s = bs "1"), rest).

Fixpoint read_fields (n : nat) (r : list byte) : outcome request_error (list gostring * list byte) :=
  match n with
  | O => Ret ([], r)
  | S n' => '(s, r1) ← readField r; '(l, r2) ← read_fields n' r1; Ret (s :: l, r2)
  end.

(** The largest capacity [make] takes for strings of sixteen bytes; beyond it panics. *)
Definition max_strings : Z := Z.shiftl 1 44.

(** [readArgs] and [readEnv] are the same code. The number of fields is bounded by the
    bytes that are there, so a count that [make] takes ends in a result or an error. *)
Definition readArgs (r : list byte) : outcome request_error (list gostring * list byte) :=
  '(countStr, r1) ← readField r;
  n ← or_err (Atoi countStr) (InvalidCount countStr);
  guard_err (n <? 0) (NegativeCount n);;
  if max_strings <? n then Panic
  else read_fields (Z.to_nat (Z.min n (Z.of_nat (length r1) + 1))) r1.
Definition readEnv : list byte → outcome request_error (list gostring * list byte) := readArgs.

Record session_request := MkRequest {
  rootPrefix : gostring;
  targetUser : gostring;
  wantPTY : bool;
  cmdArgs : list gostring;
  sessionEnvs : list gostring;
}.

(** [handleConnection] up to the validation of the user: the request, and what is left
    for the session. *)
Definition read_request (r : list byte) : outcome request_error (session_request * list byte) :=
  '(firstField, r1) ← readField r;
  '(prefix, user, r2) ←
    (if bool_decide (firstField = bs "VMX") then
       '(framePath, r2) ← readField r1;
       '(user, r3) ← readField r2;
       Ret (Clean (slash :: framePath), user, r3)
     else Ret ([], firstField, r1));
  '(pty, r3) ← readBool r2;
  '(args, r4) ← readArgs r3;
  '(env, r5) ← readEnv r4;
  Ret (MkRequest prefix user pty args env, r5).

(** ** The entry point for frames ([handleEnter], [runVsockSession]) *)

(** What the client sends. *)
Definition enter_request (frameUUID user : gostring) (isPTY : bool) (args : list gostring) : list byte :=
  fields [frameUUID; user; flag isPTY; fmt_int (Z.of_nat (length args))] ++ fields args.

Fixpoint readNullTerminatedField (r : list byte) : outcome io_error (gostring * list byte) :=
  match r with
  | [] => Err EOF
  | b :: r' => if bool_decide (b = NUL) then Ret ([], r')
               else '(s, rest) ← readNullTerminatedField r'; Ret (b :: s, rest)
  end.

Fixpoint read_enter_args (n : nat) (r : list byte) : outcome io_error (list gostring * list byte) :=
  match n with
  | O => Ret ([], r)
  | S n' => '(s, r1) ← readNullTerminatedField r; '(l, r2) ← read_enter_args n' r1; Ret (s :: l, r2)
  end.

Record enter := MkEnter { en_uuid : gostring; en_user : gostring; en_pty : bool; en_args : list gostring }.

(** A count that is no number counts as zero. *)
Definition read_enter (r : list byte) : outcome io_error (enter * list byte) :=
  '(uuid, r1) ← readNullTerminatedField r;
  '(user, r2) ← readNullTerminatedField r1;
  '(ptyStr, r3) ← readNullTerminatedField r2;
  '(argcStr, r4) ← readNullTerminatedField r3;
  let argc := default 0 (Atoi argcStr) in
  '(args, r5) ← read_enter_args (Z.to_nat (Z.min argc (Z.of_nat (length r4) + 1))) r4;
  Ret (MkEnter uuid user (bool_decide (ptyStr = bs "1")) args, r5).

(** The root file system a request names. *)
Definition enter_path (rootFS uuid : gostring) : gostring :=
  if negb (IsAbs uuid) && bool_decide (rootFS ≠ []) then JoinPath (Dir rootFS) uuid else uuid.

(** [filepath.Abs]. *)
Definition Abs (cwd p : gostring) : gostring := if IsAbs p then Clean p else JoinPath cwd p.

(** The request [handleEnter] passes on to vshd. *)
Definition forward_enter (cwd rootFS : gostring) (e : enter) (env : list gostring) : list byte :=
  writeVshdRequest (TrimPrefix (Abs cwd (enter_path rootFS (en_uuid e))) [slash]) (en_user e) (en_pty e) (en_args e) env.

(** ** Users *)

Definition user_char (c : byte) : bool :=
  let z := Z_of_byte c in
  ((97 <=? z) && (z <=? 122)) || ((65 <=? z) && (z <=? 90)) || ((48 <=? z) && (z <=? 57))
  || (z =? 95) || (z =? 45) || (z =? 46).

Definition validateTargetUser (name : gostring) : bool :=
  match name with
  | [] => false
  | c :: _ =>
      if (256 <? length name)%nat then false
      else if bool_decide (c = "-"%byte) then false
      else forallb user_char name
  end.

(** The lines a [bufio.Scanner] with the usual buffer gives: up to the first that is
    too long for it. *)
Definition maxScanToken : Z := 64 * 1024.
Fixpoint short_lines (raw : list gostring) : list gostring :=
  match raw with
  | [] => []
  | line :: raw' => if maxScanToken <=? Z.of_nat (length line) then [] else drop_cr line :: short_lines raw'
  end.

Definition passwd_home (username line : gostring) : option gostring :=
  if is_comment line then None
  else
    let fs := Split line ":"%byte in
    if (6 <=? length fs)%nat && bool_decide (fs !! 0%nat = Some username) then fs !! 5%nat else None.
Definition parsePasswdHome (passwd username : gostring) : gostring :=
  default [] (head (omap (passwd_home username) (short_lines (raw_lines passwd)))).

(** The file system of a session: its directories and its account file, if it can be read. *)
Record session_fs := MkSessionFs { fs_dirs : gset gostring; fs_passwd : gostring → option gostring }.

Definition lookupUserHome (fs : session_fs) (root username : gostring) : gostring :=
  match fs_passwd fs (JoinPath root (bs "etc/passwd")) with
  | Some data => parsePasswdHome data username
  | None => []
  end.

Definition selectUser (fs : session_fs) (root user : gostring) : gostring :=
  if bool_decide (user ≠ []) then user
  else if bool_decide (JoinPath root (bs "home/ubuntu") ∈ fs_dirs fs) then bs "ubuntu"
  else
    let home := lookupUserHome fs root (bs "user") in
    if bool_decide (home ≠ []) && bool_decide (JoinPath root home ∈ fs_dirs fs) then bs "user"
    else bs "root".

(** ** The command *)

(** The words, joined by spaces. *)
Fixpoint join_words (l : list gostring) : gostring :=
  match l with
  | [] => []
  | [w] => w
  | w :: l' => w ++ bs " " ++ join_words l'
  end.
Definition quoteArgsForSh (args : list gostring) : gostring := join_words (shellQuote <$> args).

(** [buildSessionCmd]: what is run in the end. *)
Definition session_argv (runAsUser : gostring) (args : list gostring) : list gostring :=
  if bool_decide (args = []) then
    (if bool_decide (runAsUser = bs "root") then [bs "/bin/sh"; bs "-il"]
     else [bs "/bin/ts"; bs "su"; bs "-"; runAsUser])
  else if bool_decide (runAsUser = bs "root") then args
  else [bs "/bin/ts"; bs "su"; bs "-"; runAsUser; bs "-c"; quoteArgsForSh args].

(** The arguments of the outer [ts] of a container session. *)
Definition serve_args (pty : bool) (runAsUser : gostring) (argv : list gostring) : list gostring :=
  [bs "session-serve"; flag pty; runAsUser; fmt_int (Z.of_nat (length argv))] ++ argv.
Definition container_args (root : gostring) (initPid : Z) (serveArgs : list gostring) : list gostring :=
  [bs "nsenter"; bs "-t"; fmt_int initPid; bs "-p"; bs "-m"; bs "-u"; bs "-C"; bs "--"; JoinPaths [root; bs "bin"; bs "ts"];
   bs "join-and-run"; bs "--chroot=" ++ root; bs "--keep-dev-caps"; bs "--"; bs "/bin/ts"] ++ serveArgs.
Definition buildSessionCmd (root runAsUser : gostring) (args : list gostring) (pty : bool) (initPid : Z) : list gostring :=
  let argv := session_argv runAsUser args in
  if bool_decide (root = []) then argv else container_args root initPid (serve_args pty runAsUser argv).

(** [cmdSessionServe]: the pty flag, its owner and the command. *)
Definition cmdSessionServe (args : list gostring) : option (bool * gostring * list gostring) :=
  match args with
  | pty :: owner :: argcStr :: rest =>
      argc ← Atoi argcStr;
      if argc <? 0 then None
      else if Z.of_nat (length rest) <? argc then None
      else
        let argv := take (Z.to_nat argc) rest in
        if bool_decide (argv = []) then None else Some (bool_decide (pty = bs "1"), owner, argv)
  | _ => None
  end.

(** [runAsSu]: its options. *)
Record su_options := MkSu { su_login : bool; su_user : gostring; su_cmd : gostring; su_shell : gostring }.

Fixpoint su_rest (args : list gostring) (o : su_options) : option su_options :=
  match args with
  | [] => Some o
  | a :: rest =>
      if bool_decide (a = bs "-c") || bool_decide (a = bs "--command") then
        match rest with
        | c :: rest' => su_rest rest' (MkSu (su_login o) (su_user o) c (su_shell o))
        | [] => None
        end
      else if bool_decide (a = bs "-s") || bool_decide (a = bs "--shell") then
        match rest with
        | s :: rest' => su_rest rest' (MkSu (su_login o) (su_user o) (su_cmd o) s)
        | [] => Some o
        end
      else su_rest rest o
  end.

Definition su_args (args : list gostring) : option su_options :=
  let '(login, args) :=
    match args with
    | a :: rest =>
        if bool_decide (a = bs "-") || bool_decide (a = bs "-l") || bool_decide (a = bs "--login")
        then (true, rest) else (false, args)
    | [] => (false, [])
    end in
  let '(user, args) :=
    match args with
    | a :: rest => if HasPrefix a (bs "-") then (bs "root", args) else (a, rest)
    | [] => (bs "root", [])
    end in
  su_rest args (MkSu login user [] []).

(** The account [su] switches to; only root may be missing from the account file. *)
Definition su_account (found : option UserInfo) (user : gostring) : option UserInfo :=
  match found with
  | Some u =>
      Some (MkUserInfo (ui_Username u) (ui_UID u) (ui_GID u)
              (if bool_decide (ui_Home u = []) then bs "/root" else ui_Home u)
              (if bool_decide (ui_Shell u = []) then bs "/bin/sh" else ui_Shell u))
  | None => if bool_decide (user = bs "root") then Some (MkUserInfo user 0 0 (bs "/root") (bs "/bin/sh")) else None
  end.

(** The shell [su] runs. *)
Definition su_shell_path (shell_exists : gostring → bool) (a : UserInfo) (o : su_options) : gostring :=
  let shell := if bool_decide (su_shell o = []) then ui_Shell a else su_shell o in
  if shell_exists shell then shell else bs "/bin/sh".

(** What [su] executes: the shell and its arguments after its own name. *)
Definition su_exec (shell_exists : gostring → bool) (a : UserInfo) (o : su_options) : gostring * list gostring :=
  (su_shell_path shell_exists a o,
   (if su_login o then [bs "-l"] else []) ++ (if bool_decide (su_cmd o = []) then [] else [bs "-c"; su_cmd o])).

(** ** The environment *)

Definition env_key (e : gostring) : option gostring :=
  if ContainsByte e "="%byte then head (Split e "="%byte) else None.

(** [mergeEnv]: what is new overrides what was there. *)
Definition mergeEnv (base extra : list gostring) : list gostring :=
  let extraKeys := list_to_set (omap env_key extra) : gset gostring in
  filter (λ e, match env_key e with Some k => bool_decide (k ∉ extraKeys) | None => true end = true) base ++ extra.

Definition sessionPath : gostring := bs "/usr/local/sbin:/usr/local/bin:/usr/sbin:/usr/bin:/sbin:/bin".
Definition sessionEnv (environ : list gostring) (pty : bool) (env : list gostring) : list gostring :=
  let out := mergeEnv environ env in
  let out := if pty then mergeEnv out [bs "TERM=xterm-256color"] else out in
  mergeEnv out [bs "PATH=" ++ sessionPath].

(** The value of a variable: the first entry with its name. *)
Definition getenv (env : list gostring) (k : gostring) : option gostring :=
  head (omap (λ e, if HasPrefix e (k ++ bs "=") then Some (drop (length k + 1) e) else None) env).

(** [identityEnv]: the environment of a user [su] switches to. *)
Definition identityEnv (environ : list gostring) (user home shell : gostring) : list gostring :=
  let path := match getenv environ (bs "PATH") with
              | Some p => if bool_decide (p = []) then sessionPath else p
              | None => sessionPath
              end in
  [bs "HOME=" ++ home; bs "USER=" ++ user; bs "LOGNAME=" ++ user; bs "SHELL=" ++ shell; bs "PATH=" ++ path]
  ++ (match getenv environ (bs "TERM") with Some t => if bool_decide (t = []) then [] else [bs "TERM=" ++ t] | None => [] end)
  ++ filter (λ e, HasPrefix e (bs "THUNDERSNAP_") = true) environ.

(** ** The streams of a session *)

(** What the loops of a session do to the process and its terminal. *)
Inductive input_action :=
| ToStdin (p : gostring) | CloseStdin | SignalGroup (n : Z) | HangUp | Resize (ws : Winsize).

Definition signal_action (payload : gostring) : list input_action :=
  match DecodeSignal payload with Ret n => if n <=? 0 then [] else [SignalGroup n] | _ => [] end.

(** The input loop of [servePipe] on the client's stream, when writing to the process
    works: an empty input frame is the end of the input, and of the loop; the end of the
    stream hangs the process up. The length of the stream is enough fuel. *)
Fixpoint pipe_input (fuel : nat) (r : list byte) : option (list input_action) :=
  match fuel with
  | O => None
  | S fuel' =>
      match ReadFrame r with
      | Ret (typ, payload, r') =>
          if bool_decide (typ = FrameStdin) then
            match payload with
            | [] => Some [CloseStdin]
            | _ => l ← pipe_input fuel' r'; Some (ToStdin payload :: l)
            end
          else if bool_decide (typ = FrameSignal) then l ← pipe_input fuel' r'; Some (signal_action payload ++ l)
          else pipe_input fuel' r'
      | _ => Some [HangUp; CloseStdin]
      end
  end.

(** What is left of the stream after a frame that could not be read: a frame that is
    too long has only lost its header. *)
Definition after_bad_frame (r : list byte) : list byte :=
  match ReadFrame r with Err (FrameTooLong _) => drop headerLen r | _ => [] end.

(** The size of a new terminal and the input that came instead of one. *)
Definition default_size : Winsize := {| Rows := 24; Cols := 80; X := 0; Y := 0 |}.
Definition first_frame (r : list byte) : Winsize * gostring * list byte :=
  match ReadFrame r with
  | Ret (typ, payload, r') =>
      if bool_decide (typ = FrameWinsize) then
        (match DecodeWinsize payload with Ret ws => ws | _ => default_size end, [], r')
      else if bool_decide (typ = FrameStdin) then (default_size, payload, r')
      else (default_size, [], r')
  | _ => (default_size, [], after_bad_frame r)
  end.

(** The input loop of [servePTY]. *)
Fixpoint pty_input (fuel : nat) (r : list byte) : option (list input_action) :=
  match fuel with
  | O => None
  | S fuel' =>
      match ReadFrame r with
      | Ret (typ, payload, r') =>
          l ← pty_input fuel' r';
          Some ((if bool_decide (typ = FrameStdin) then [ToStdin payload]
                 else if bool_decide (typ = FrameWinsize) then
                   match DecodeWinsize payload with Ret ws => [Resize ws] | _ => [] end
                 else if bool_decide (typ = FrameSignal) then signal_action payload else []) ++ l)
      | _ => Some []
      end
  end.

(** [waitExitCode]. *)
Inductive wait_result := ExitedWith (n : Z) | KilledBy (sig : Z) | WaitFailed.
Definition waitExitCode (w : wait_result) : Z :=
  match w with ExitedWith n => n | KilledBy sig => i32 (128 + sig) | WaitFailed => 1 end.

(** The loop of the client ([proxyVshdSessionGeneric], [runVsockSession]): output, error
    output and the exit code. *)
Fixpoint proxy_output (fuel : nat) (r out err : list byte) (exitCode : Z) : option (list byte * list byte * Z) :=
  match fuel with
  | O => None
  | S fuel' =>
      match ReadFrame r with
      | Ret (typ, payload, r') =>
          if bool_decide (typ = FrameStdout) then proxy_output fuel' r' (out ++ payload) err exitCode
          else if bool_decide (typ = FrameStderr) then proxy_output fuel' r' out (err ++ payload) exitCode
          else if bool_decide (typ = FrameExit) then
            proxy_output fuel' r' out err (match DecodeExit payload with Ret c => c | _ => exitCode end)
          else proxy_output fuel' r' out err exitCode
      | _ => Some (out, err, exitCode)
      end
  end.
Definition proxyVshdSession (r : list byte) : option (list byte * list byte * Z) :=
  proxy_output (S (length r)) r [] [] 0.

(** What the client's input loop sends ([proxyVshdSessionGeneric]): the size of the
    terminal, what it reads, and the empty frame that ends the input. *)
Definition client_frames (ws : option Winsize) (chunks : list gostring) : list (byte * gostring) :=
  (match ws with Some ws => [(FrameWinsize, EncodeWinsize ws)] | None => [] end)
  ++ (pair FrameStdin <$> chunks) ++ [(FrameStdin, [])].

(** What [servePipe] sends: a frame for every write of the process, on its output
    ([false]) or its error output ([true]), and the exit code. *)
Definition exit_frame (w : wait_result) : byte * gostring := (FrameExit, EncodeExit (waitExitCode w)).
Definition pipe_frames (writes : list (bool * gostring)) (w : wait_result) : list (byte * gostring) :=
  ((λ '(err, p), (if err : bool then FrameStderr else FrameStdout, p)) <$> writes) ++ [exit_frame w].

(** ** Lemmas: requests *)

Lemma digit_byte_not_nul d : 0 ≤ d < 10 → digit_byte d ≠ NUL.
Proof.
  intros Hd Heq. pose proof (byte_digit_digit_byte d Hd) as H. rewrite Heq in H. by vm_compute in H.
Qed.
Lemma fmt_digits_not_nul fuel n : 0 ≤ n → NUL ∉ fmt_digits fuel n.
Proof.
  revert n. induction fuel as [|fuel IH]; intros n Hn; cbn [fmt_digits]; [apply not_elem_of_nil|].
  destruct (Z.ltb_spec n 10).
  - rewrite list_elem_of_singleton. intros Heq. by eapply digit_byte_not_nul; [|symmetry].
  - rewrite elem_of_app, list_elem_of_singleton. intros [H'|H'].
    + apply IH in H'; [done|]. by apply Z.div_pos.
    + eapply digit_byte_not_nul; [|symmetry; exact H']. by apply Z.mod_pos_bound.
Qed.
Lemma fmt_int_not_nul n : 0 ≤ n → NUL ∉ fmt_int n.
Proof. intros. rewrite fmt_int_nonneg by done. by apply fmt_digits_not_nul. Qed.
Lemma flag_not_nul b : NUL ∉ flag b.
Proof. destruct b; intros H; cbn in H; apply list_elem_of_singleton in H; discriminate. Qed.

Lemma readField_app s r : NUL ∉ s → readField (nul_field s ++ r) = Ret (s, r).
Proof.
  intros. unfold readField, nul_field. rewrite <- app_assoc. cbn [app]. rewrite ReadString_app by done.
  cbn. rewrite length_app. cbn [length]. replace (length s + 1 - 1)%nat with (length s) by lia.
  by rewrite take_app_length.
Qed.
Lemma readNullTerminatedField_app s r : NUL ∉ s → readNullTerminatedField (nul_field s ++ r) = Ret (s, r).
Proof.
  unfold nul_field. induction s as [|c s IH]; intros Hs; [done|].
  apply not_elem_of_cons in Hs as [Hc Hs]. cbn. rewrite bool_decide_eq_false_2 by congruence. by rewrite IH.
Qed.

Lemma fields_cons s l r : fields (s :: l) ++ r = nul_field s ++ fields l ++ r.
Proof. unfold fields. rewrite fmap_cons, concat_cons. by rewrite <- app_assoc. Qed.
Lemma fields_nil r : fields [] ++ r = r.
Proof. done. Qed.
Lemma fields_length l : (length l ≤ length (fields l))%nat.
Proof.
  induction l as [|s l IH]; [done|]. unfold fields, nul_field in *. rewrite fmap_cons, concat_cons, !length_app.
  cbn [length]. lia.
Qed.

Lemma read_fields_app l r : Forall (λ s, NUL ∉ s) l → read_fields (length l) (fields l ++ r) = Ret (l, r).
Proof.
  induction 1 as [|s l Hs Hl IH]; [done|]. rewrite fields_cons. cbn [length read_fields].
  rewrite readField_app, ret_bind by done. by rewrite IH.
Qed.
Lemma read_enter_args_app l r : Forall (λ s, NUL ∉ s) l → read_enter_args (length l) (fields l ++ r) = Ret (l, r).
Proof.
  induction 1 as [|s l Hs Hl IH]; [done|]. rewrite fields_cons. cbn [length read_enter_args].
  rewrite readNullTerminatedField_app, ret_bind by done. by rewrite IH.
Qed.

(** The bound on the number of fields does not matter to a request that has them all. *)
Lemma all_fields_counted l r : Z.to_nat (Z.min (Z.of_nat (length l)) (Z.of_nat (length (fields l ++ r)) + 1)) = length l.
Proof. pose proof (fields_length l). rewrite length_app. lia. Qed.
Lemma Atoi_length l : Z.of_nat (length l) < 2 ^ 63 → Atoi (fmt_int (Z.of_nat (length (A:=gostring) l))) = Some (Z.of_nat (length l)).
Proof. intros. rewrite fmt_int_nonneg by lia. apply Atoi_fmt. lia. Qed.

Lemma readArgs_app l r :
  Z.of_nat (length l) ≤ max_strings → Forall (λ s, NUL ∉ s) l →
  readArgs (nul_field (fmt_int (Z.of_nat (length l))) ++ fields l ++ r) = Ret (l, r).
Proof.
  intros Hlen Hl. unfold readArgs. change max_strings with (2 ^ 44) in *.
  rewrite readField_app, ret_bind by (apply fmt_int_not_nul; lia).
  rewrite Atoi_length by lia. cbn [or_err]. rewrite ret_bind.
  rewrite guard_false_bind by (apply Z.ltb_ge; lia).
  destruct (Z.ltb_spec (2 ^ 44) (Z.of_nat (length l))); [lia|].
  rewrite all_fields_counted. by apply read_fields_app.
Qed.

(** The part of a request after the user. *)
Lemma read_tail pty args env r :
  Z.of_nat (length args) ≤ max_strings → Z.of_nat (length env) ≤ max_strings →
  Forall (λ s, NUL ∉ s) args → Forall (λ s, NUL ∉ s) env →
  ∀ (A : Type) (k : bool → list gostring → list gostring → list byte → outcome request_error A),
  ('(p, r3) ← readBool (fields [flag pty; fmt_int (Z.of_nat (length args))] ++ fields args
                        ++ fields [fmt_int (Z.of_nat (length env))] ++ fields env ++ r);
   '(a, r4) ← readArgs r3; '(e, r5) ← readEnv r4; k p a e r5) = k pty args env r.
Proof.
  intros Ha He Hargs Henv A k. rewrite !fields_cons, !fields_nil. unfold readBool.
  rewrite readField_app, !ret_bind by apply flag_not_nul.
  rewrite readArgs_app, ret_bind by done. unfold readEnv. rewrite readArgs_app, ret_bind by done.
  by destruct pty.
Qed.

Lemma read_request_write framePath user pty args env rest :
  Forall (λ s, NUL ∉ s) (framePath :: user :: args ++ env) →
  framePath ≠ [] ∨ user ≠ bs "VMX" →
  Z.of_nat (length args) ≤ max_strings → Z.of_nat (length env) ≤ max_strings →
  read_request (writeVshdRequest framePath user pty args env ++ rest)
  = Ret (MkRequest (if bool_decide (framePath = []) then [] else Clean (slash :: framePath)) user pty args env, rest).
Proof.
  rewrite !Forall_cons, Forall_app. intros (Hp & Hu & Hargs & Henv) Hvmx Ha He. unfold writeVshdRequest, read_request.
  rewrite <- !app_assoc. change (fields [user; ?a; ?b]) with (nul_field user ++ fields [a; b]).
  destruct framePath as [|c p].
  - rewrite bool_decide_eq_false_2 by (intros H; by apply H). cbn [app]. rewrite <- app_assoc, readField_app, ret_bind by done.
    rewrite bool_decide_eq_false_2 by (by destruct Hvmx). rewrite ret_bind.
    by rewrite (read_tail pty args env rest).
  - rewrite bool_decide_eq_true_2 by done. rewrite fields_cons, readField_app, ret_bind by (vm_compute; set_solver).
    rewrite bool_decide_eq_true_2 by done. rewrite fields_cons, fields_nil, readField_app, ret_bind by done.
    rewrite <- app_assoc, readField_app, !ret_bind by done.
    by rewrite (read_tail pty args env rest).
Qed.

Lemma read_enter_write uuid user pty args :
  Forall (λ s, NUL ∉ s) (uuid :: user :: args) → Z.of_nat (length args) ≤ max_strings →
  read_enter (enter_request uuid user pty args) = Ret (MkEnter uuid user pty args, []).
Proof.
  rewrite !Forall_cons. intros (H0 & Hu & Hargs) Ha. change max_strings with (2 ^ 44) in Ha.
  unfold read_enter, enter_request. rewrite <- (app_nil_r (fields args)), !fields_cons, fields_nil.
  rewrite readNullTerminatedField_app, ret_bind by done. rewrite readNullTerminatedField_app, ret_bind by done.
  rewrite readNullTerminatedField_app, ret_bind by apply flag_not_nul.
  rewrite readNullTerminatedField_app, ret_bind by (apply fmt_int_not_nul; lia).
  rewrite Atoi_length by lia. change (default 0 (Some ?x)) with x. cbn zeta. rewrite all_fields_counted, read_enter_args_app by done. by destruct pty.
Qed.

Lemma proper_not_abs e : proper e → IsAbs e = false.
Proof.
  intros (Hn & _ & _ & Hs). unfold IsAbs, HasPrefix. apply bool_decide_eq_false_2.
  destruct e as [|c u]; [done|]. cbn. rewrite take_0. intros [= ->]. apply Hs. by left.
Qed.
Lemma Join_not_elem (c sep : byte) l : c ≠ sep → Forall (λ s, c ∉ s) l → c ∉ Join l sep.
Proof.
  intros Hsep. induction 1 as [|s l Hs Hl IH]; [apply not_elem_of_nil|]. destruct l as [|s' l]; [done|].
  change (Join (s :: s' :: l) sep) with (s ++ sep :: Join (s' :: l) sep).
  rewrite elem_of_app, elem_of_cons. intros [?|[?|?]]; done.
Qed.
Lemma Join_snoc_not_nil dir e (sep : byte) : e ≠ [] → Join (dir ++ [e]) sep ≠ [].
Proof.
  intros He. destruct dir as [|d [|d' dir]]; cbn; [done| |]; intros H; by apply app_eq_nil in H as [_ ?].
Qed.

(** ** Lemmas: users and words *)

Fixpoint skip_blanks (s : gostring) : gostring :=
  match s with
  | c :: s' => if bool_decide (c = " "%byte) then skip_blanks s' else s
  | [] => []
  end.

(** The words of a line of shell text. *)
Fixpoint sh_words (fuel : nat) (s : gostring) : option (list gostring) :=
  match fuel with
  | O => None
  | S fuel' =>
      match skip_blanks s with
      | [] => Some []
      | s' => '(w, r) ← sh_word false s'; l ← sh_words fuel' r; Some (w :: l)
      end
  end.

Lemma sh_word_shellQuote s rest : ends_word rest → sh_word false (shellQuote s ++ rest) = Some (s, rest).
Proof.
  intros. unfold shellQuote. rewrite <- !app_assoc. cbn [app sh_word]. by apply sh_word_quoted.
Qed.

Lemma sh_words_quoted args fuel :
  (length args < fuel)%nat → sh_words fuel (quoteArgsForSh args) = Some args.
Proof.
  revert args. unfold quoteArgsForSh. induction fuel as [|fuel IH]; intros args Hlen; [lia|].
  destruct args as [|a args]; [done|]. rewrite fmap_cons.
  assert (H : ∃ rest, join_words (shellQuote a :: (shellQuote <$> args)) = shellQuote a ++ rest ∧ ends_word rest
                      ∧ skip_blanks rest = skip_blanks (join_words (shellQuote <$> args))).
  { destruct args as [|b args]; [exists []; by rewrite app_nil_r|].
    exists (bs " " ++ join_words (shellQuote <$> b :: args)). split_and!; [done|by left|done]. }
  destruct H as (rest & -> & Hrest & Hskip). cbn [sh_words].
  assert (Hq : skip_blanks (shellQuote a ++ rest) = shellQuote a ++ rest) by done.
  rewrite Hq. pose proof (sh_word_shellQuote a rest Hrest) as Hw.
  destruct (shellQuote a ++ rest) eqn:E; [done|]. rewrite Hw. cbn [mbind option_bind].
  assert (Hs : sh_words fuel rest = sh_words fuel (join_words (shellQuote <$> args))).
  { destruct fuel as [|fuel']; [done|]. cbn [sh_words]. by rewrite Hskip. }
  rewrite Hs, IH by (cbn [length] in Hlen; lia). done.
Qed.

Lemma quoteArgsForSh_not_nil args : args ≠ [] → quoteArgsForSh args ≠ [].
Proof. unfold quoteArgsForSh. by destruct args as [|a [|b args]]. Qed.

Lemma user_no_option u : validateTargetUser u = true → HasPrefix u (bs "-") = false.
Proof.
  unfold validateTargetUser. destruct u as [|c u]; [done|]. destruct (256 <? _)%nat; [done|].
  case_bool_decide as Hc; [done|]. intros _. unfold HasPrefix. apply bool_decide_eq_false_2.
  cbn. rewrite take_0. congruence.
Qed.

Lemma su_args_login user rest :
  HasPrefix user (bs "-") = false → su_args (bs "-" :: user :: rest) = su_rest rest (MkSu true user [] []).
Proof. intros Hopt. unfold su_args. rewrite (bool_decide_eq_true_2 (bs "-" = bs "-")) by done. cbn [orb]. by rewrite Hopt. Qed.

Lemma cmdSessionServe_args pty user argv :
  argv ≠ [] → Z.of_nat (length argv) < 2 ^ 63 →
  cmdSessionServe (drop 1 (serve_args pty user argv)) = Some (pty, user, argv).
Proof.
  intros Hne Hlen. unfold serve_args. cbn [drop app cmdSessionServe].
  rewrite Atoi_length by done. cbn [mbind option_bind].
  destruct (Z.ltb_spec (Z.of_nat (length argv)) 0); [lia|].
  rewrite Z.ltb_irrefl, Nat2Z.id, firstn_all, bool_decide_eq_false_2 by done.
  by destruct pty.
Qed.

(** ** Lemmas: streams *)

Definition frame_fits (f : byte * gostring) : Prop := Z.of_nat (length f.2) ≤ maxFrameLen.

(** The most a loop reads at a time. *)
Definition read_buffer : nat := 32 * 1024.
Lemma chunk_fits n : (n ≤ read_buffer)%nat → Z.of_nat n ≤ maxFrameLen.
Proof. unfold read_buffer. change maxFrameLen with (16 * 2 ^ 20). lia. Qed.

Lemma pipe_input_stream chunks more fuel :
  Forall (λ c, c ≠ [] ∧ (length c ≤ read_buffer)%nat) chunks → (length chunks < fuel)%nat →
  pipe_input fuel (stream (client_frames None chunks ++ more)) = Some ((ToStdin <$> chunks) ++ [CloseStdin]).
Proof.
  intros Hc. revert fuel. unfold client_frames. cbn [app].
  induction Hc as [|c chunks [Hne Hlen] Hc IH]; intros [|fuel] Hfuel; cbn [length] in *; try lia.
  - rewrite fmap_nil. cbn [app pipe_input]. by rewrite ReadFrame_stream by done.
  - rewrite !fmap_cons. cbn [app pipe_input]. rewrite ReadFrame_stream by (by apply chunk_fits). cbn [fst snd].
    rewrite bool_decide_eq_true_2 by done. destruct c as [|b c]; [done|].
    by rewrite IH by lia.
Qed.

Definition writes_to (err : bool) (writes : list (bool * gostring)) : list byte :=
  concat ((λ w, if bool_decide (w.1 = err) then w.2 else []) <$> writes).

Lemma wait_code_i32 w : match w with ExitedWith n => is_i32 n | _ => True end → is_i32 (waitExitCode w).
Proof. destruct w; cbn [waitExitCode]; [done|intros _; apply i32_range|done]. Qed.

Lemma proxy_output_stream writes w fuel out err :
  Forall (λ p, (length p.2 ≤ read_buffer)%nat) writes → is_i32 (waitExitCode w) → (length writes + 1 < fuel)%nat →
  proxy_output fuel (stream (pipe_frames writes w)) out err 0
  = Some (out ++ writes_to false writes, err ++ writes_to true writes, waitExitCode w).
Proof.
  intros Hw Hcode. revert fuel out err. unfold pipe_frames.
  induction Hw as [|[e p] writes Hlen Hw IH]; intros [|fuel] out err Hfuel; cbn [length] in *; try lia.
  - rewrite fmap_nil. cbn [app proxy_output]. unfold exit_frame. rewrite ReadFrame_stream by done. cbn [fst snd].
    rewrite !bool_decide_eq_false_2 by done. rewrite bool_decide_eq_true_2 by done.
    rewrite DecodeExit_Encode by done. destruct fuel as [|fuel]; [lia|]. cbn.
    unfold writes_to. cbn. by rewrite !app_nil_r.
  - rewrite fmap_cons. cbn [app proxy_output]. rewrite ReadFrame_stream by (destruct e; by apply chunk_fits).
    unfold writes_to in *. rewrite !fmap_cons, !concat_cons. cbn [fst snd] in *.
    destruct e; rewrite ?(bool_decide_eq_false_2 (FrameStderr = FrameStdout)) by done;
      rewrite bool_decide_eq_true_2 by done; rewrite IH by lia; by rewrite <- !app_assoc.
Qed.

(** ** Properties *)

(** C24: The request that the daemon writes is the request that vshd reads: the root of
    the container, the user, the terminal flag, the command and the environment, with
    nothing taken from the session's own bytes. The strings have no NUL byte (each ends at
    one), the lists are no longer than [make] takes, and without a root the user is not
    the word that announces a machine; the root arrives as a cleaned absolute path. *)
Theorem vshd_request_roundtrip framePath user pty args env rest :
  Forall (λ s, NUL ∉ s) (framePath :: user :: args ++ env) →
  framePath ≠ [] ∨ user ≠ bs "VMX" →
  Z.of_nat (length args) ≤ max_strings → Z.of_nat (length env) ≤ max_strings →
  read_request (writeVshdRequest framePath user pty args env ++ rest)
  = Ret (MkRequest (if bool_decide (framePath = []) then [] else Clean (slash :: framePath)) user pty args env, rest).
Proof. apply read_request_write. Qed.

Lemma vshd_request_roundtrip_witness :
  read_request (writeVshdRequest (bs "fs/a/1") (bs "ann") true [bs "ls"; []] [bs "A=b"] ++ bs "xy")
  = Ret (MkRequest (bs "/fs/a/1") (bs "ann") true [bs "ls"; []] [bs "A=b"], bs "xy").
Proof.
  rewrite (vshd_request_roundtrip (bs "fs/a/1") (bs "ann") true [bs "ls"; []] [bs "A=b"] (bs "xy"));
    [reflexivity|apply (bool_decide_unpack _); vm_compute; exact I|left; discriminate
    |apply Z.leb_le; vm_compute; reflexivity|apply Z.leb_le; vm_compute; reflexivity].
Defined.

(** C25: What a session asked for is what is run in its container, whatever bytes the
    command holds. The program inside the container takes the command from its arguments;
    root's command is run as it is, and for another user [su] is a login of that very user
    with one shell text whose words are the command. *)
Theorem session_runs_command pty user args :
  validateTargetUser user = true → Z.of_nat (length args) < 2 ^ 63 - 8 →
  let argv := session_argv user args in
  cmdSessionServe (drop 1 (serve_args pty user argv)) = Some (pty, user, argv) ∧
  (user = bs "root" → argv = if bool_decide (args = []) then [bs "/bin/sh"; bs "-il"] else args) ∧
  (user ≠ bs "root" → ∃ text,
     argv = [bs "/bin/ts"; bs "su"] ++ drop 2 argv ∧ su_args (drop 2 argv) = Some (MkSu true user text []) ∧
     (∀ shell_exists a, snd (su_exec shell_exists a (MkSu true user text [])) =
        if bool_decide (args = []) then [bs "-l"] else [bs "-l"; bs "-c"; text]) ∧
     sh_words (S (length args)) text = Some args).
Proof.
  intros Hu Hlen argv. pose proof (user_no_option user Hu) as Hopt. split_and!.
  - apply cmdSessionServe_args; unfold argv, session_argv.
    + repeat case_bool_decide; done.
    + repeat case_bool_decide; cbn [length]; lia.
  - intros ->. unfold argv, session_argv. by case_bool_decide.
  - intros Hr. unfold argv, session_argv. rewrite !(bool_decide_eq_false_2 (user = bs "root")) by done.
    destruct (decide (args = [])) as [->|Hne].
    + exists []. split_and!; [done| |done|done]. exact (eq_trans (su_args_login user _ Hopt) eq_refl).
    + rewrite !(bool_decide_eq_false_2 (args = [])) by done.
      exists (quoteArgsForSh args). split_and!; [done| | |by apply sh_words_quoted; lia].
      * exact (eq_trans (su_args_login user _ Hopt) eq_refl).
      * intros. unfold su_exec. cbn [su_login su_cmd snd].
        by rewrite bool_decide_eq_false_2 by (by apply quoteArgsForSh_not_nil).
Qed.

Lemma session_runs_command_witness :
  su_args (drop 2 (session_argv (bs "ann") [bs "echo"; bs "it's; rm -rf /"]))
  = Some (MkSu true (bs "ann") (quoteArgsForSh [bs "echo"; bs "it's; rm -rf /"]) []).
Proof.
  destruct (session_runs_command true (bs "ann") [bs "echo"; bs "it's; rm -rf /"]) as (_ & _ & H);
    [reflexivity|reflexivity|]. destruct H as (text & _ & H & _ & Hw); [discriminate|]. reflexivity.
Defined.

(** C26: A session without a terminal is a transparent pipe: the process gets exactly the
    bytes of the client and then the end of its input, and the client gets exactly what
    the process wrote to its output and to its error output, and its exit code.
    Signals, and a client that goes away after the end of its input, are not part of it. *)
Theorem pipe_session_transparent chunks writes w :
  Forall (λ c, c ≠ [] ∧ (length c ≤ read_buffer)%nat) chunks →
  Forall (λ p, (length p.2 ≤ read_buffer)%nat) writes →
  match w with ExitedWith n => is_i32 n | _ => True end →
  let input := stream (client_frames None chunks) in
  pipe_input (S (length input)) input = Some ((ToStdin <$> chunks) ++ [CloseStdin]) ∧
  proxyVshdSession (stream (pipe_frames writes w))
  = Some (writes_to false writes, writes_to true writes, waitExitCode w).
Proof.
  intros Hc Hw Hcode. split.
  - unfold client_frames. rewrite <- (app_nil_r (_ ++ _)). apply pipe_input_stream; [done|].
    pose proof (stream_length (client_frames None chunks ++ [])) as H. unfold client_frames in *.
    rewrite !length_app, length_fmap in H. cbn [length app] in *. lia.
  - unfold proxyVshdSession. rewrite proxy_output_stream; [done|done|by apply wait_code_i32|].
    pose proof (stream_length (pipe_frames writes w)) as H. unfold pipe_frames in H at 1.
    rewrite length_app, length_fmap in H. cbn [length] in H. lia.
Qed.

Lemma pipe_session_transparent_witness :
  proxyVshdSession (stream (pipe_frames [(false, bs "ok"); (true, bs "warn"); (false, bs "!")] (KilledBy 9)))
  = Some (bs "ok!", bs "warn", 137).
Proof.
  destruct (pipe_session_transparent [bs "in"] [(false, bs "ok"); (true, bs "warn"); (false, bs "!")] (KilledBy 9)) as [_ H];
    [apply (bool_decide_unpack _); vm_compute; exact I|apply (bool_decide_unpack _); vm_compute; exact I|exact I|].
  rewrite H. reflexivity.
Defined.


(** A request to enter a frame of the same namespace reaches vshd through both hops. *)
Lemma enter_reaches_vshd cwd dir base uuid user pty args env :
  Forall proper (dir ++ [base]) → dir ≠ [] → proper uuid →
  Forall (λ s, NUL ∉ s) (dir ++ uuid :: user :: args ++ env) →
  Z.of_nat (length args) ≤ max_strings → Z.of_nat (length env) ≤ max_strings →
  let rootFS := abs_path (dir ++ [base]) in
  ∃ e, read_enter (enter_request uuid user pty args) = Ret (e, []) ∧
       read_request (forward_enter cwd rootFS e env) = Ret (MkRequest (abs_path (dir ++ [uuid])) user pty args env, []).
Proof.
  rewrite !Forall_app, !Forall_cons, Forall_app. intros [Hdir [Hbase _]] Hne Huuid (Hd0 & H0 & Hu & Hargs & Henv) Ha He rootFS.
  exists (MkEnter uuid user pty args). split; [apply read_enter_write; [by rewrite !Forall_cons|done]|].
  assert (Hall : Forall proper (dir ++ [uuid])) by (apply Forall_app; by split; [|constructor]).
  unfold forward_enter. cbn [en_uuid en_user en_pty en_args].
  replace (Abs _ _) with (slash :: Join (dir ++ [uuid]) slash).
  - change (slash :: ?l) with ([slash] ++ l). rewrite TrimPrefix_app.
    assert (Hn : Join (dir ++ [uuid]) slash ≠ []) by (apply Join_snoc_not_nil; apply Huuid).
    rewrite <- (app_nil_r (writeVshdRequest _ _ _ _ _)), read_request_write; [|..|done|done].
    + rewrite bool_decide_eq_false_2 by done. by setoid_rewrite Clean_abs.
    + rewrite !Forall_cons, Forall_app. split_and!; try done. apply Join_not_elem; [done|].
      apply Forall_app; by split; [|constructor].
    + by left.
  - unfold enter_path. rewrite (proper_not_abs uuid), bool_decide_eq_true_2 by done.
    cbn [negb andb]. unfold rootFS. rewrite Dir_abs, JoinPath_one by done.
    unfold Abs. replace (IsAbs (abs_path (dir ++ [uuid]))) with true by done. by rewrite Clean_abs.
Qed.

(** The identifier of a request is not checked: it may climb out of the namespace, or be
    the root of the host, and then the request is the one without a container. *)
Lemma enter_other_namespace :
  let root := bs "/srv/fs/ann/1" in
  let e uuid := MkEnter uuid [] false [bs "id"] in
  read_request (forward_enter (bs "/") root (e (bs "../bob/2")) []) =
    Ret (MkRequest (bs "/srv/fs/bob/2") [] false [bs "id"] [], []) ∧
  read_request (forward_enter (bs "/") root (e (bs "/")) []) = Ret (MkRequest [] [] false [bs "id"] [], []).
Proof. by split; vm_compute. Qed.

(** A number of arguments that [make] refuses ends the program. *)
Lemma huge_count_panics : read_request (fields [bs "root"; bs "0"; bs "17592186044417"]) = Panic.
Proof. by vm_compute. Qed.

(** Without a container, a user of this name is taken for the header of one. *)
Lemma user_taken_for_header :
  read_request (writeVshdRequest [] (bs "VMX") false [bs "id"] []) = Err (ReadError EOF).
Proof. by vm_compute. Qed.

(** A connection that is lost before the exit code counts as success. *)
Lemma lost_session_succeeds : proxyVshdSession (frame_bytes FrameStdout (bs "par")) = Some (bs "par", [], 0).
Proof. by vm_compute. Qed.

(** After the end of the input nothing more is read: neither a signal nor the end of the
    connection reaches the process. *)
Lemma input_end_hides_disconnect chunks more :
  Forall (λ c, c ≠ [] ∧ (length c ≤ read_buffer)%nat) chunks →
  let input := stream (client_frames None chunks ++ more) in
  pipe_input (S (length input)) input = Some ((ToStdin <$> chunks) ++ [CloseStdin]).
Proof.
  intros Hc input. apply pipe_input_stream; [done|].
  pose proof (stream_length (client_frames None chunks ++ more)) as H. unfold client_frames in H at 1.
  rewrite !length_app, length_fmap in H. cbn [length app] in H. unfold input. lia.
Qed.

(** ** Lemmas: the environment *)

Lemma elem_of_mergeEnv base extra e :
  e ∈ mergeEnv base extra ↔ e ∈ extra ∨ e ∈ base ∧ ∀ k, env_key e = Some k → ∀ e', e' ∈ extra → env_key e' ≠ Some k.
Proof.
  unfold mergeEnv. cbn zeta. rewrite elem_of_app, list_elem_of_filter.
  assert (Hk : ∀ k, k ∉ (list_to_set (omap env_key extra) : gset gostring) ↔ ∀ e', e' ∈ extra → env_key e' ≠ Some k).
  { intros k. rewrite elem_of_list_to_set, list_elem_of_omap. naive_solver. }
  destruct (env_key e) as [k|].
  - rewrite bool_decide_eq_true, Hk. naive_solver.
  - naive_solver.
Qed.

(** The path of a session is fixed: no entry of its environment can change it. *)
Lemma session_path_fixed environ pty env e :
  e ∈ sessionEnv environ pty env → env_key e = Some (bs "PATH") → e = bs "PATH=" ++ sessionPath.
Proof.
  unfold sessionEnv. cbn zeta. rewrite elem_of_mergeEnv, list_elem_of_singleton. intros [->|[_ H]] Hk; [done|].
  exfalso. apply (H _ Hk (bs "PATH=" ++ sessionPath)); [by left|by vm_compute].
Qed.

Lemma mergeEnv_other k l x e :
  env_key x ≠ Some k → env_key e = Some k → e ∈ mergeEnv l [x] ↔ e ∈ l.
Proof.
  intros Hx Hk. rewrite elem_of_mergeEnv. split.
  - intros [->%list_elem_of_singleton|[? _]]; [congruence|done].
  - intros Hl. right. split; [done|]. intros k' Hk' e' ->%list_elem_of_singleton. congruence.
Qed.

(** What the daemon says of a session is in its environment and replaces what vshd had
    inherited, and [su] keeps it. *)
Lemma session_env_reaches_shell environ pty env e k user home shell :
  e ∈ env → env_key e = Some k → k ≠ bs "PATH" → k ≠ bs "TERM" →
  e ∈ sessionEnv environ pty env ∧
  (∀ e', e' ∈ sessionEnv environ pty env → env_key e' = Some k → e' ∈ env) ∧
  (HasPrefix e (bs "THUNDERSNAP_") = true → e ∈ identityEnv (sessionEnv environ pty env) user home shell).
Proof.
  intros He Hk Hpath Hterm.
  assert (Hin : ∀ e', env_key e' = Some k → e' ∈ sessionEnv environ pty env ↔ e' ∈ mergeEnv environ env).
  { intros e' Hk'. unfold sessionEnv. cbn zeta.
    rewrite (mergeEnv_other k) by (done || (intros H; apply Hpath; vm_compute in H |- *; congruence)).
    destruct pty; [|done].
    rewrite (mergeEnv_other k) by (done || (intros H; apply Hterm; vm_compute in H |- *; congruence)). done. }
  assert (Hse : e ∈ sessionEnv environ pty env) by (apply Hin, elem_of_mergeEnv; [done|by left]).
  split_and!; [done| |].
  - intros e' He' Hk'. apply Hin in He'; [|done]. apply elem_of_mergeEnv in He' as [?|[_ H]]; [done|].
    by destruct (H k Hk' e He).
  - intros Hp. unfold identityEnv. rewrite !elem_of_app, list_elem_of_filter. auto.
Qed.
