(* ===== verification/Policy.v ===== *)
(** * Principals and policy ([src/cmd/thundersnapd/policy.go], [main.go], [mcp.go])

    Who a connection belongs to, what it may do, and the namespace its frames, refs and
    identities live in. *)

From Stdlib Require Import Strings.String.
From S2P Require Import GoSort Prelude GoStrings GoPath JsonStore FrameId.
From S2P Require Refs Frames.

(** ** Capabilities *)

Record ThundersnapCap := MkCap { Role : gostring; Isolation : gostring; MaxFrames : Z; Ephemeral : bool }.
Definition DefaultCap : ThundersnapCap := MkCap (bs "developer") (bs "container") 5 false.
Definition ThundersnapCapName : gostring := bs "tailscale.com/cap/thundersnap".

Definition fillDefaults (c : ThundersnapCap) : ThundersnapCap :=
  MkCap (if bool_decide (Role c = []) then Role DefaultCap else Role c)
        (if bool_decide (Isolation c = []) then Isolation DefaultCap else Isolation c)
        (if MaxFrames c =? 0 then MaxFrames DefaultCap else MaxFrames c)
        (Ephemeral c).

(** ** The policy file *)

Record PolicyGrant := MkGrant { Src : list gostring; Dst : list gostring; App : gmap gostring (list ThundersnapCap) }.
Record PolicyFile := MkPolicy { Grants : list PolicyGrant; Namespaces : gmap gostring gostring }.

Inductive namespace_error := NamespaceEmpty | NotADirectoryName (namespace : gostring).

(** [strings.ContainsAny]. *)
Definition ContainsAny (s chars : gostring) : bool := existsb (ContainsByte s) chars.

Definition validateNamespace (namespace : gostring) : option namespace_error :=
  if bool_decide (namespace = []) then Some NamespaceEmpty
  else if bool_decide (namespace = dot) || bool_decide (namespace = dotdot)
          || ContainsAny namespace [slash; "\"%byte; Byte.x00] then Some (NotADirectoryName namespace)
  else None.

Inductive policy_error :=
| PolicyRead | PolicyHujson | PolicyJson | EmptyPrincipal | BadNamespace (principal : gostring) (e : namespace_error).

(** One entry of the table of namespaces. *)
Definition check_mapping (e : gostring * gostring) : outcome policy_error unit :=
  let '(principal, namespace) := e in
  guard_err (bool_decide (principal = [])) EmptyPrincipal;;
  match validateNamespace namespace with Some e => Err (BadNamespace principal e) | None => Ret tt end.
Fixpoint check_mappings (l : list (gostring * gostring)) : outcome policy_error unit :=
  match l with [] => Ret tt | e :: l' => check_mapping e;; check_mappings l' end.

(** The namespace of whoever is not in the table. *)
Definition defaultNamespace : gostring := bs "shared".

Definition NamespaceForPrincipal (p : option PolicyFile) (principal : gostring) : gostring :=
  match p with
  | Some p => let namespace := default [] (Namespaces p !! principal) in
              if bool_decide (namespace ≠ []) then namespace else defaultNamespace
  | None => defaultNamespace
  end.

(** The pattern for every user. *)
Definition matches_pattern (loginName : gostring) (tags : list gostring) (pattern : gostring) : bool :=
  bool_decide (pattern = loginName)
  || (bool_decide (pattern = bs "autogroup:member") && bool_decide (loginName ≠ []) && negb (HasPrefix loginName (bs "tag:")))
  || existsb (λ tag, bool_decide (pattern = tag)) tags.
Definition matchesSrc (patterns : list gostring) (loginName : gostring) (tags : list gostring) : bool :=
  existsb (matches_pattern loginName tags) patterns.

Fixpoint match_grants (grants : list PolicyGrant) (loginName : gostring) (tags : list gostring) : option ThundersnapCap :=
  match grants with
  | [] => None
  | grant :: grants' =>
      if matchesSrc (Src grant) loginName tags then
        match App grant !! ThundersnapCapName with
        | Some (c :: _) => Some c
        | _ => match_grants grants' loginName tags
        end
      else match_grants grants' loginName tags
  end.
Definition MatchGrant (p : PolicyFile) : gostring → list gostring → option ThundersnapCap := match_grants (Grants p).

(** ** Connections *)

Section who.
(** The capabilities a tailnet hands out, and the library function that reads those of
    one name. *)
Context {CapMap : Type} (UnmarshalCapJSON : CapMap → gostring → option (list ThundersnapCap)).

(** What is known of a peer: its user's login name, its node's tags, its capabilities. *)
Record WhoIsResponse := MkWhoIs {
  who_login : option gostring;
  who_tags : option (list gostring);
  who_caps : option CapMap;
}.

(** [None] is an error; the inner [None] is no capability. *)
Definition GetCapFromWhoIs (who : option WhoIsResponse) : option (option ThundersnapCap) :=
  match who ≫= who_caps with
  | None => Some None
  | Some m => caps ← UnmarshalCapJSON m ThundersnapCapName; Some (head caps)
  end.

Definition ResolveCap (who : option WhoIsResponse) (policy : option PolicyFile) : ThundersnapCap :=
  let granted := match who with Some _ => default None (GetCapFromWhoIs who) | None => None end in
  match granted with
  | Some c => fillDefaults c
  | None =>
      match policy, who with
      | Some p, Some w =>
          match MatchGrant p (default [] (who_login w)) (default [] (who_tags w)) with
          | Some c => fillDefaults c
          | None => DefaultCap
          end
      | _, _ => DefaultCap
      end
  end.

(** [strings.Join(tags, ", ")]. *)
Fixpoint join_tags (l : list gostring) : gostring :=
  match l with [] => [] | [t] => t | t :: l' => t ++ bs ", " ++ join_tags l' end.

(** [getTailscaleUser] and the beginning of the SSH handler: who a connection is. *)
Definition getTailscaleUser (testModeUser : gostring) (who : option WhoIsResponse) : gostring :=
  if bool_decide (testModeUser ≠ []) then testModeUser
  else match who with
  | None => bs "unknown"
  | Some w =>
      match who_tags w with
      | Some (t :: tags) => bs "tags: " ++ join_tags (t :: tags)
      | _ => match who_login w with
             | Some (c :: name) => c :: name
             | _ => bs "unknown"
             end
      end
  end.

(** [resolveMCPUser], with the two functions it calls that are stubs in the source. *)
Definition peerIsTrustedAperture : bool := false.
Definition peerWhoIsLogin : gostring := bs "unknown".
Definition resolveMCPUser (testModeUser mcpTrustedAperture header : gostring) (policy : option PolicyFile) : gostring :=
  let principal :=
    if bool_decide (testModeUser = []) then
      if bool_decide (header ≠ []) && bool_decide (mcpTrustedAperture ≠ []) && peerIsTrustedAperture then header
      else peerWhoIsLogin
    else testModeUser in
  NamespaceForPrincipal policy principal.
End who.
Arguments WhoIsResponse : clear implicits.

(** ** Loading *)

Section load.
Context {policy_ok : PolicyFile → Prop} `{Json PolicyFile policy_ok}.
(** Go goes through a map in no particular order. *)
Context (range : gmap gostring gostring → list (gostring * gostring)).

Definition LoadPolicyFile (env : osenv) (d : disk) (path : gostring) : outcome policy_error PolicyFile :=
  match os_ReadFile env d path with
  | ReadOk data =>
      standardized ← or_err (standardize (A:=PolicyFile) data) PolicyHujson;
      policy ← or_err (unmarshal standardized) PolicyJson;
      check_mappings (range (Namespaces policy));;
      Ret policy
  | _ => Err PolicyRead
  end.
End load.

(** ** Directories *)

Definition framePathForNamespaceUUID `{UUIDs} (fsDir namespace : gostring) (uuid : ID) : gostring :=
  if bool_decide (fsDir = []) then [] else JoinPaths [fsDir; namespace; String_ uuid].

Definition path_elems (p : gostring) : list gostring :=
  if bool_decide (Clean p = dot) then [] else filter (λ e, bool_decide (e ≠ []) = true) (Split (Clean p) slash).
Fixpoint strip_common (a b : list gostring) : list gostring * list gostring :=
  match a, b with
  | x :: a', y :: b' => if bool_decide (x = y) then strip_common a' b' else (a, b)
  | _, _ => (a, b)
  end.
(** [filepath.Rel]; the empty path stands for an error, too. The target is not the current
    directory. *)
Definition Rel (basepath targpath : gostring) : gostring :=
  if bool_decide (Clean basepath = Clean targpath) then dot
  else if negb (Bool.eqb (IsAbs (Clean basepath)) (IsAbs (Clean targpath))) then []
  else
    let '(up, down) := strip_common (path_elems basepath) (path_elems targpath) in
    if bool_decide (head up = Some dotdot) then []
    else Join (((λ _, dotdot) <$> up) ++ down) slash.

Definition namespaceFromRootFS (fsDir rootFS : gostring) : option gostring :=
  match Split (Rel fsDir rootFS) slash with
  | ns :: _ :: _ => Some ns
  | _ => None
  end.
Definition frameUUIDFromRootFS `{UUIDs} (fsDir rootFS : gostring) : option ID :=
  match Split (Rel fsDir rootFS) slash with
  | _ :: uuid :: _ => Parse uuid
  | _ => None
  end.

(** ** Lemmas *)

Lemma ContainsAny_false s chars : ContainsAny s chars = false → ∀ c, c ∈ chars → c ∉ s.
Proof.
  unfold ContainsAny. intros Hs c Hc Hin.
  assert (Ht : existsb (ContainsByte s) chars = true) by
    (apply existsb_exists; exists c; split; [by apply list_elem_of_In|by apply bool_decide_eq_true_2]).
  congruence.
Qed.

Lemma validateNamespace_proper ns : validateNamespace ns = None → proper ns ∧ Byte.x00 ∉ ns.
Proof.
  unfold validateNamespace. case_bool_decide as Hne; [done|].
  destruct (bool_decide (ns = dot)) eqn:Hd; [done|]. destruct (bool_decide (ns = dotdot)) eqn:Hdd; [done|].
  destruct (ContainsAny ns _) eqn:Hc; [done|]. intros _.
  apply bool_decide_eq_false in Hd, Hdd. split; [|eapply ContainsAny_false; [done|]; set_solver].
  split_and!; [done|done|done|]. eapply ContainsAny_false; [done|]; set_solver.
Qed.

Lemma check_mappings_ok l : check_mappings l = Ret tt → Forall (λ e, validateNamespace e.2 = None) l.
Proof.
  induction l as [|[p ns] l IH]; [by constructor|]. cbn [check_mappings]. intros Hl.
  apply bind_ret_inv in Hl as (u & H1 & H2). constructor; [|by apply IH].
  unfold check_mapping in H1. apply bind_ret_inv in H1 as (u' & _ & H1). cbn. by destruct (validateNamespace ns).
Qed.

Lemma default_namespace_valid : validateNamespace defaultNamespace = None.
Proof. by vm_compute. Qed.

Lemma path_elems_abs es : Forall proper es → path_elems (abs_path es) = es.
Proof.
  intros Hes. unfold path_elems. rewrite Clean_abs, bool_decide_eq_false_2 by done.
  unfold abs_path. rewrite Split_slash. rewrite filter_cons_False by done.
  destruct es as [|e es]; [done|]. rewrite Split_join_proper by done.
  induction Hes as [|x l Hx Hl IH]; [done|]. rewrite filter_cons_True; [by f_equal|].
  apply bool_decide_eq_true_2. by destruct Hx.
Qed.

Lemma strip_common_app b t : strip_common b (b ++ t) = ([], t).
Proof. induction b as [|x b IH]; cbn; [by destruct t|]. by rewrite bool_decide_eq_true_2 by done. Qed.

Lemma Rel_below base rest : Forall proper (base ++ rest) → base ≠ [] → rest ≠ [] → Rel (abs_path base) (abs_path (base ++ rest)) = Join rest slash.
Proof.
  intros Hall Hb0 Hne. pose proof Hall as [Hb _]%Forall_app. unfold Rel.
  rewrite !Clean_abs, !path_elems_abs by done. rewrite bool_decide_eq_false_2.
  - rewrite strip_common_app. done.
  - intros Heq. apply abs_path_inj in Heq; [|done|done|done|by destruct base].
    rewrite <- (app_nil_r base) in Heq at 1. by apply app_inv_head in Heq.
Qed.

Lemma uuid_element `{UUIDs} uuid : length uuid = 16%nat → proper (String_ uuid).
Proof.
  intros Hu. destruct (Frames.String_plain uuid Hu) as (Hs & H0 & Hh).
  split_and!; [done| | |done]; intros Heq; by rewrite Heq in Hh.
Qed.

Lemma element_below `{UUIDs} dir ns uuid :
  Forall proper dir → dir ≠ [] → proper ns → length uuid = 16%nat →
  framePathForNamespaceUUID (abs_path dir) ns uuid = abs_path (dir ++ [ns; String_ uuid]) ∧
  namespaceFromRootFS (abs_path dir) (abs_path (dir ++ [ns; String_ uuid])) = Some ns ∧
  frameUUIDFromRootFS (abs_path dir) (abs_path (dir ++ [ns; String_ uuid])) = Some uuid.
Proof.
  intros Hd Hne Hns Hu.
  pose proof (uuid_element uuid Hu) as Huuid.
  assert (Hrest : Forall proper [ns; String_ uuid]) by (apply Forall_cons_2; [done|]; by apply Forall_cons_2; [|apply Forall_nil_2]).
  assert (Hall : Forall proper (dir ++ [ns; String_ uuid])) by (by apply Forall_app_2).
  unfold namespaceFromRootFS, frameUUIDFromRootFS. rewrite Rel_below by done.
  rewrite Split_join_proper by done. split_and!; [|done|by rewrite Parse_String].
  unfold framePathForNamespaceUUID. rewrite bool_decide_eq_false_2 by done. by apply JoinPath_proper.
Qed.

(** The first grant that matches and has a capability counts. *)
Lemma match_grants_first grants loginName tags :
  match_grants grants loginName tags
  = head (omap (λ g, if matchesSrc (Src g) loginName tags then default [] (App g !! ThundersnapCapName) !! 0%nat else None) grants).
Proof.
  induction grants as [|g grants IH]; [done|]. cbn [match_grants omap list_omap].
  destruct (matchesSrc _ _ _); [|done].
  destruct (App g !! ThundersnapCapName) as [[|c caps]|]; done.
Qed.

(** What the tailnet grants comes before what the file grants, and that before the
    default; nothing is left unset. *)
Lemma resolve_cap_spec {CapMap} (U : CapMap → gostring → option (list ThundersnapCap)) who policy :
  let c := ResolveCap U who policy in
  Role c ≠ [] ∧ Isolation c ≠ [] ∧ MaxFrames c ≠ 0 ∧
  (∀ w g, who = Some w → GetCapFromWhoIs U who = Some (Some g) → c = fillDefaults g) ∧
  (∀ w p g, who = Some w → policy = Some p → default None (GetCapFromWhoIs U who) = None →
     MatchGrant p (default [] (who_login w)) (default [] (who_tags w)) = Some g → c = fillDefaults g) ∧
  (who = None → c = DefaultCap).
Proof.
  assert (Hfill : ∀ c, Role (fillDefaults c) ≠ [] ∧ Isolation (fillDefaults c) ≠ [] ∧ MaxFrames (fillDefaults c) ≠ 0).
  { intros [r i n e]. cbn. split_and!; [by case_bool_decide|by case_bool_decide|]. destruct (Z.eqb_spec n 0); lia. }
  assert (Hset : let c := ResolveCap U who policy in Role c ≠ [] ∧ Isolation c ≠ [] ∧ MaxFrames c ≠ 0).
  { cbn zeta. unfold ResolveCap. repeat case_match; first [apply Hfill|by split_and!]. }
  cbn zeta in *. destruct Hset as (H1 & H2 & H3). split_and!; [done|done|done| | |].
  - intros w g -> Hg. unfold ResolveCap. by rewrite Hg.
  - intros w p g -> -> Hg Hm. unfold ResolveCap. by rewrite Hg, Hm.
  - intros ->. unfold ResolveCap. by destruct policy.
Qed.

Lemma loaded_namespace_proper {policy_ok} `{Json PolicyFile policy_ok} range env d path policy :
  (∀ m, range m ≡ₚ map_to_list m) → LoadPolicyFile range env d path = Ret policy →
  ∀ principal, proper (NamespaceForPrincipal (Some policy) principal).
Proof.
  intros Hrange Hload principal. apply validateNamespace_proper.
  unfold LoadPolicyFile in Hload. destruct (os_ReadFile env d path); [|done|done].
  apply bind_ret_inv in Hload as (std & _ & Hload). apply bind_ret_inv in Hload as (p & _ & Hload).
  apply bind_ret_inv in Hload as ([] & Hcheck & [= ->]). apply check_mappings_ok in Hcheck.
  unfold NamespaceForPrincipal. cbn zeta. case_bool_decide; [|apply default_namespace_valid].
  destruct (Namespaces policy !! principal) as [ns|] eqn:Hl; [|done]. cbn.
  rewrite Hrange in Hcheck. rewrite Forall_forall in Hcheck.
  apply (Hcheck (principal, ns)). by apply elem_of_map_to_list.
Qed.

(** The directories of a frame and of its namespace. *)
Lemma frame_directory `{UUIDs} base ns uuid :
  Forall proper base → base ≠ [] → proper ns → length uuid = 16%nat →
  let fsDir := abs_path (base ++ [bs "fs"]) in
  let frame := framePathForNamespaceUUID fsDir ns uuid in
  frame = abs_path (base ++ [bs "fs"; ns; String_ uuid]) ∧
  Frames.framePath (Frames.NewNamespaceStore (abs_path base) ns) uuid = frame ∧
  Refs.refsDir (Refs.NewNamespaceStore (abs_path base) ns) = abs_path (base ++ [bs "refs"; ns]) ∧
  Forall proper [ns; String_ uuid] ∧
  namespaceFromRootFS fsDir frame = Some ns ∧ frameUUIDFromRootFS fsDir frame = Some uuid.
Proof.
  intros Hbase Hne Hns Hu fsDir frame.
  assert (Hfs : Forall proper (base ++ [bs "fs"])).
  { apply Forall_app_2; [done|]. apply Forall_cons_2; [by apply proper_name|apply Forall_nil_2]. }
  destruct (element_below (base ++ [bs "fs"]) ns uuid Hfs) as (Hf & Hn & Hi); [by destruct base|done|done|].
  pose proof (uuid_element uuid Hu) as Huuid.
  assert (Hns0 : bool_decide (ns = []) = false) by (apply bool_decide_eq_false_2, Hns).
  unfold frame, fsDir. rewrite Hf. rewrite <- app_assoc in *. cbn [app] in *. split_and!; [done| | | |done|done].
  - destruct (Frames.fs_placed base ns) as (Hd & Hp & Hd0); [done|done|by right|].
    unfold Frames.framePath, Frames.NewNamespaceStore. rewrite Hd. rewrite Hns0 in *.
    rewrite JoinPath_one by done. by rewrite <- app_assoc.
  - destruct (Refs.store_placed base ns) as [Hd _ _]; [done|done|by right|].
    unfold Refs.NewNamespaceStore. rewrite Hd. by rewrite Hns0.
  - by apply Forall_cons_2; [|apply Forall_cons_2; [|apply Forall_nil_2]].
Qed.

(** ** Properties *)

(** C27: A policy that was loaded confines every principal to a directory of its
    namespace. The frames of the namespace are directories [fs/<namespace>/<uuid>] and
    its refs are in [refs/<namespace>], below the data directory and nowhere else; from
    the directory of a frame the daemon gets back its namespace and its UUID; and two
    principals meet in a frame only when they have the same namespace. *)
Theorem policy_confines_principals `{UUIDs} {policy_ok} `{Json PolicyFile policy_ok} range env d path policy base
    principal principal' uuid uuid' :
  (∀ m, range m ≡ₚ map_to_list m) →
  LoadPolicyFile range env d path = Ret policy →
  Forall proper base → base ≠ [] → length uuid = 16%nat → length uuid' = 16%nat →
  let ns := NamespaceForPrincipal (Some policy) principal in
  let ns' := NamespaceForPrincipal (Some policy) principal' in
  let fsDir := abs_path (base ++ [bs "fs"]) in
  let frame := framePathForNamespaceUUID fsDir ns uuid in
  frame = abs_path (base ++ [bs "fs"; ns; String_ uuid]) ∧
  Frames.framePath (Frames.NewNamespaceStore (abs_path base) ns) uuid = frame ∧
  Refs.refsDir (Refs.NewNamespaceStore (abs_path base) ns) = abs_path (base ++ [bs "refs"; ns]) ∧
  Forall proper [ns; String_ uuid] ∧
  namespaceFromRootFS fsDir frame = Some ns ∧ frameUUIDFromRootFS fsDir frame = Some uuid ∧
  (frame = framePathForNamespaceUUID fsDir ns' uuid' → ns = ns' ∧ uuid = uuid').
Proof.
  intros Hrange Hload Hbase Hne Hu Hu' ns ns' fsDir frame.
  pose proof (loaded_namespace_proper range env d path policy Hrange Hload) as Hproper.
  assert (Hns : proper ns) by apply Hproper. assert (Hns' : proper ns') by apply Hproper.
  destruct (frame_directory base ns uuid Hbase Hne Hns Hu) as (Hf & Hs & Hr & Hp & Hn & Hi).
  destruct (frame_directory base ns' uuid' Hbase Hne Hns' Hu') as (Hf' & _ & _ & _ & Hn' & Hi').
  split_and!; [done|done|done|done|done|done|].
  intros Heq. cbn zeta in *. unfold frame, fsDir in *. rewrite Heq in Hn, Hi. split; congruence.
Qed.

Definition example_policy : PolicyFile :=
  MkPolicy [] {[bs "a" := bs "team"; bs "b" := bs "team"]}.
#[refine] Definition example_json : Json PolicyFile (λ p, p = example_policy) :=
  {| marshal := λ _, Some []; standardize := Some; unmarshal := λ _, Some example_policy |}.
Proof. intros p ->. by exists [], []. Defined.

Lemma policy_confines_principals_witness :
  let ids := text_uuids in
  framePathForNamespaceUUID (abs_path [bs "data"; bs "fs"]) (NamespaceForPrincipal (Some example_policy) (bs "a")) Nil
  = abs_path [bs "data"; bs "fs"; bs "team"; String_ Nil].
Proof.
  intros ids.
  destruct (policy_confines_principals (H := ids) (policy_ok := λ p, p = example_policy) (H0 := example_json) map_to_list no_fault
    (MkDisk {[bs "p" := []]} ∅) (bs "p") example_policy [bs "data"] (bs "a") (bs "zoe") Nil Nil) as (Hf & _).
  - done.
  - reflexivity.
  - by apply Forall_cons_2; [apply proper_name|apply Forall_nil_2].
  - discriminate.
  - reflexivity.
  - reflexivity.
  - exact Hf.
Defined.
