(* ===== verification/Login.v ===== *)
(** * Logging in ([src/cmd/thundersnapd/main.go])

    What an SSH user name asks for, the kind of session it gets, the names of the
    directories of virtual machines, the user a session runs as, and the specs of frames. *)

From Stdlib Require Import Strings.String.
From S2P Require Import GoSort Prelude GoStrings GoPath Passwd Policy.
From S2P Require FrameId Frames.

(** ** User names *)

(** The text before and after the first [c]. *)
Fixpoint cut (c : byte) (s : gostring) : option (gostring * gostring) :=
  match s with
  | [] => None
  | b :: s' => if bool_decide (b = c) then Some ([], s')
               else '(x, y) ← cut c s'; Some (b :: x, y)
  end.

Definition at_sign : byte := "@"%byte.

Record ssh_user := MkSshUser { su_isolation : gostring; su_vmx : gostring; su_target : gostring; su_frame : gostring }.

(** A user in front of a mode prefix. *)
Definition user_before_mode (sshUser : gostring) : gostring * gostring :=
  match cut at_sign sshUser with
  | Some (user, afterAt) =>
      if HasPrefix afterAt (bs "vmx/") || HasPrefix afterAt (bs "vm/") then (user, afterAt) else ([], sshUser)
  | None => ([], sshUser)
  end.

(** The isolation, the name of the VM, and what follows. *)
Definition mode_prefix (sshUser : gostring) : gostring * gostring * gostring :=
  if HasPrefix sshUser (bs "vmx/") then
    let rest := TrimPrefix sshUser (bs "vmx/") in
    match cut slash rest with
    | Some (vmx, frame) => (bs "vmx", vmx, frame)
    | None => (bs "vmx", rest, [])
    end
  else if HasPrefix sshUser (bs "vm/") then (bs "vmx", bs "default", TrimPrefix sshUser (bs "vm/"))
  else (bs "container", [], sshUser).

Definition parseSSHUser (sshUser : gostring) : ssh_user :=
  let '(targetUser, sshUser) := user_before_mode sshUser in
  let '(isolation, vmx, modePrefix) := mode_prefix sshUser in
  if bool_decide (targetUser = []) then
    match cut at_sign modePrefix with
    | Some (user, frame) => MkSshUser isolation vmx user frame
    | None => MkSshUser isolation vmx [] modePrefix
    end
  else MkSshUser isolation vmx targetUser modePrefix.

(** What the SFTP subsystem makes of a user name: the user and the frame. *)
Definition sftp_user (sshUser : gostring) : gostring * gostring :=
  match cut at_sign sshUser with Some (user, frame) => (user, frame) | None => ([], sshUser) end.

Definition stripDomain (s : gostring) : gostring := match cut at_sign s with Some (user, _) => user | None => s end.

Definition isInteractiveSession (rawCommand : gostring) : bool := bool_decide (rawCommand = []).

(** ** Sessions *)

Inductive session :=
| OuterShell (vm user : gostring)
| VMXSession (vm frame user : gostring)
| ContainerSession (frame user : gostring).

(** The SSH handler from the user name to the session: a bare login comes with the name
    of the principal and means the default frame. *)
Definition ssh_session (principal namespace : gostring) (cap : ThundersnapCap) (sshUser : gostring) : session :=
  let u := parseSSHUser sshUser in
  let frameName := if bool_decide (su_frame u = principal) then namespace else su_frame u in
  let isolation := if bool_decide (su_isolation u ≠ bs "container") then su_isolation u else Isolation cap in
  if bool_decide (isolation = bs "vmx") then
    if bool_decide (frameName = []) then OuterShell (su_vmx u) (su_target u)
    else VMXSession (su_vmx u) frameName (su_target u)
  else ContainerSession frameName (su_target u).

(** The SFTP subsystem: the user and the frame. *)
Definition sftp_session (principal namespace sshUser : gostring) : gostring * gostring :=
  let '(user, containerName) := sftp_user sshUser in
  (user, if bool_decide (containerName = principal) then namespace else containerName).

(** ** Directories of virtual machines *)

(** [strings.NewReplacer] for a slash, a NUL and two dots, from left to right. *)
Fixpoint replace_unsafe (s : gostring) : gostring :=
  match s with
  | [] => []
  | c :: s' =>
      if bool_decide (c = slash) || bool_decide (c = Byte.x00) then "_"%byte :: replace_unsafe s'
      else if bool_decide (c = "."%byte) then
        match s' with
        | d :: s'' => if bool_decide (d = "."%byte) then "_"%byte :: replace_unsafe s'' else c :: replace_unsafe s'
        | [] => [c]
        end
      else c :: replace_unsafe s'
  end.

(** [strings.TrimLeft(s, ".")]. *)
Fixpoint trim_dots (s : gostring) : gostring :=
  match s with c :: s' => if bool_decide (c = "."%byte) then trim_dots s' else s | [] => [] end.

Definition sanitizeForPath (s : gostring) : gostring :=
  let result := trim_dots (replace_unsafe s) in
  if bool_decide (result = []) then bs "_" else result.

(** The root of an outer VM ([runVMXSession], [runVMXOuterShell]). *)
Definition vmx_root (fsDir namespace isolationName : gostring) : gostring :=
  JoinPath (JoinPath fsDir namespace) (bs ".vmx-" ++ sanitizeForPath isolationName).

(** ** The user of a session *)

Section user.
Variable ft : faults.

Definition is_dir (fs : rootfs) (path : gostring) : bool :=
  negb (stat_fault ft path) && bool_decide (path ∈ r_dirs fs).

Definition selectTargetUser (fs : rootfs) (root targetUser : gostring) : rootfs * gostring :=
  if bool_decide (targetUser ≠ []) then (fs, targetUser)
  else if is_dir fs (JoinPaths [root; bs "home"; bs "ubuntu"]) then (fs, bs "ubuntu")
  else
    let '(fs', res) := EnsureUserInPasswd ft fs root in
    let userHome := match res with Ret home => home | _ => [] end in
    if bool_decide (userHome ≠ []) && is_dir fs' (JoinPath root userHome) then (fs', bs "user") else (fs', bs "root").

Definition resolveSFTPStartDir (fs : rootfs) (root : gostring) (userInfo : option UserInfo) : gostring :=
  match userInfo with
  | Some u =>
      if bool_decide (ui_Home u ≠ []) && bool_decide (ui_Home u ≠ bs "/root") && is_dir fs (JoinPath root (ui_Home u))
      then ui_Home u else bs "/home"
  | None => bs "/home"
  end.
End user.

(** ** Specs of frames *)

Definition spec_part (parts : list gostring) (i : nat) : gostring :=
  let p := default [] (parts !! i) in if bool_decide (p = bs "nil") then [] else p.
Definition parseFrameSpec (spec : gostring) : gostring * gostring * gostring :=
  let parts := Split spec ":"%byte in (spec_part parts 0, spec_part parts 1, spec_part parts 2).
Definition isFrameSpec (spec : gostring) : bool := ContainsByte spec ":"%byte.

(** Whether the root is blank, and whether it says so. *)
Definition hasBlankRootfs (spec : gostring) : bool * bool :=
  if negb (isFrameSpec spec) then (false, false)
  else
    match Split spec ":"%byte with
    | rootfs :: _ =>
        if bool_decide (rootfs = bs "nil") then (true, true)
        else if bool_decide (rootfs = []) then (true, false) else (false, false)
    | [] => (false, false)
    end.

(** ** Lemmas *)

Lemma cut_at c a b : c ∉ a → cut c (a ++ c :: b) = Some (a, b).
Proof.
  induction a as [|x a IH]; intros Ha; cbn; [by rewrite bool_decide_eq_true_2|].
  apply not_elem_of_cons in Ha as [Hx Ha]. rewrite bool_decide_eq_false_2 by congruence. by rewrite IH.
Qed.
Lemma cut_none c s : c ∉ s → cut c s = None.
Proof.
  induction s as [|x s IH]; intros Hs; [done|]. apply not_elem_of_cons in Hs as [Hx Hs].
  cbn. rewrite bool_decide_eq_false_2 by congruence. by rewrite IH.
Qed.
Lemma no_prefix s p c : c ∈ p → c ∉ s → HasPrefix s p = false.
Proof.
  intros Hp Hs. destruct (HasPrefix s p) eqn:Heq; [|done]. apply HasPrefix_true in Heq as [s' ->]. set_solver.
Qed.
Lemma slash_in_vmx : slash ∈ bs "vmx/" ∧ slash ∈ bs "vm/".
Proof. by split; apply (bool_decide_unpack _). Qed.

(** A part of a user name, and names that can be spelled. *)
Definition plain (s : gostring) : Prop := at_sign ∉ s ∧ slash ∉ s.

Lemma mode_none s : slash ∉ s → mode_prefix s = (bs "container", [], s).
Proof. intros Hs. unfold mode_prefix. by rewrite !(no_prefix s _ slash) by (done || apply slash_in_vmx). Qed.
Lemma mode_vmx iso frame : slash ∉ iso → mode_prefix (bs "vmx/" ++ iso ++ slash :: frame) = (bs "vmx", iso, frame).
Proof. intros Hs. unfold mode_prefix. by rewrite HasPrefix_app, TrimPrefix_app, cut_at. Qed.
Lemma mode_outer iso : slash ∉ iso → mode_prefix (bs "vmx/" ++ iso) = (bs "vmx", iso, []).
Proof. intros Hs. unfold mode_prefix. by rewrite HasPrefix_app, TrimPrefix_app, cut_none. Qed.
Lemma mode_vm frame : mode_prefix (bs "vm/" ++ frame) = (bs "vmx", bs "default", frame).
Proof.
  unfold mode_prefix. rewrite HasPrefix_app, TrimPrefix_app.
  assert (HasPrefix (bs "vm/" ++ frame) (bs "vmx/") = false) as -> by (by apply bool_decide_eq_false_2).
  done.
Qed.

Lemma user_first user rest :
  at_sign ∉ user → HasPrefix rest (bs "vmx/") || HasPrefix rest (bs "vm/") = true →
  user_before_mode (user ++ at_sign :: rest) = (user, rest).
Proof. intros Hu Hr. unfold user_before_mode. by rewrite cut_at, Hr. Qed.
Lemma user_later pre rest : at_sign ∉ pre → slash ∉ rest → user_before_mode (pre ++ at_sign :: rest) = ([], pre ++ at_sign :: rest).
Proof.
  intros Hp Hr. unfold user_before_mode. rewrite cut_at by done.
  by rewrite !(no_prefix rest _ slash) by (done || apply slash_in_vmx).
Qed.
Lemma user_nowhere s : at_sign ∉ s → user_before_mode s = ([], s).
Proof. intros Hs. unfold user_before_mode. by rewrite cut_none. Qed.

Lemma plain_prefix s : plain s → at_sign ∉ bs "vmx/" ++ s ∧ at_sign ∉ bs "vm/" ++ s.
Proof. intros [Hs _]. split; rewrite elem_of_app; intros [H|H]; try done; revert H; by apply (bool_decide_unpack _). Qed.

Lemma parse_first user rest iso vmx f :
  at_sign ∉ user → user ≠ [] → HasPrefix rest (bs "vmx/") || HasPrefix rest (bs "vm/") = true →
  mode_prefix rest = (iso, vmx, f) → parseSSHUser (user ++ at_sign :: rest) = MkSshUser iso vmx user f.
Proof. intros Hu Hne Hr Hm. unfold parseSSHUser. by rewrite user_first, Hm, bool_decide_eq_false_2. Qed.
Lemma parse_later s pre iso vmx user f :
  s = pre ++ at_sign :: f → at_sign ∉ pre → slash ∉ f →
  mode_prefix s = (iso, vmx, user ++ at_sign :: f) → at_sign ∉ user → parseSSHUser s = MkSshUser iso vmx user f.
Proof. intros -> Hp Hf Hm Hu. unfold parseSSHUser. by rewrite user_later, Hm, bool_decide_eq_true_2, cut_at. Qed.
Lemma parse_nowhere s iso vmx f :
  at_sign ∉ s → mode_prefix s = (iso, vmx, f) → at_sign ∉ f → parseSSHUser s = MkSshUser iso vmx [] f.
Proof. intros Hs Hm Hf. unfold parseSSHUser. by rewrite user_nowhere, Hm, bool_decide_eq_true_2, cut_none. Qed.

(** *** Directories of virtual machines *)

Lemma replace_unsafe_chars s c : c = slash ∨ c = Byte.x00 → c ∉ replace_unsafe s.
Proof.
  intros Hc. induction s as [s IH] using (induction_ltof1 _ (@length byte)). unfold ltof in IH.
  destruct s as [|b s]; [apply not_elem_of_nil|]. cbn [replace_unsafe].
  destruct (bool_decide (b = slash) || bool_decide (b = Byte.x00)) eqn:Hb.
  { rewrite elem_of_cons. intros [->|H]; [by destruct Hc|]. revert H. apply IH. cbn. lia. }
  apply orb_false_iff in Hb as [Hb1%bool_decide_eq_false Hb2%bool_decide_eq_false].
  assert (Hcb : c ≠ b) by (destruct Hc; congruence).
  assert (Htail : c ∉ b :: replace_unsafe s).
  { rewrite elem_of_cons. intros [?|H]; [done|]. revert H. apply IH. cbn. lia. }
  case_bool_decide; [|done]. destruct s as [|d s]; [by rewrite list_elem_of_singleton|].
  case_bool_decide; [|done]. rewrite elem_of_cons. intros [->|H']; [by destruct Hc|].
  revert H'. apply IH. cbn. lia.
Qed.
Lemma trim_dots_spec s : (∀ c, c ∈ trim_dots s → c ∈ s) ∧ head (trim_dots s) ≠ Some "."%byte.
Proof.
  induction s as [|b s [IH1 IH2]]; [by split|]. cbn. case_bool_decide as Hb; [|by split; [|intros [= ->]]].
  split; [|done]. intros c Hc. right. auto.
Qed.

(** The name of a VM is one path element that shows. *)
Lemma sanitize_element s :
  proper (sanitizeForPath s) ∧ Byte.x00 ∉ sanitizeForPath s ∧ head (sanitizeForPath s) ≠ Some "."%byte.
Proof.
  unfold sanitizeForPath. cbn zeta. destruct (trim_dots_spec (replace_unsafe s)) as [Hin Hhd].
  case_bool_decide as Hne.
  { split; [by apply proper_name|]. split; [|done]. by apply (bool_decide_unpack _). }
  split; [|split; [|done]].
  - split_and!; [done| | |].
    + intros Heq. by rewrite Heq in Hhd.
    + intros Heq. by rewrite Heq in Hhd.
    + intros H%Hin. revert H. apply replace_unsafe_chars. by left.
  - intros H%Hin. revert H. apply replace_unsafe_chars. by right.
Qed.

(** ** Properties *)

(** The documented forms of an SSH user name. *)
Inductive login_form :=
| UserVmx (user iso frame : gostring)  (** [<user>@vmx/<isolation>/<frame>] *)
| VmxUser (iso user frame : gostring)  (** [vmx/<isolation>/<user>@<frame>] *)
| Vmx (iso frame : gostring)           (** [vmx/<isolation>/<frame>] *)
| UserOuter (user iso : gostring)      (** [<user>@vmx/<isolation>] *)
| Outer (iso : gostring)               (** [vmx/<isolation>] *)
| UserVm (user frame : gostring)       (** [<user>@vm/<frame>] *)
| VmUser (user frame : gostring)       (** [vm/<user>@<frame>] *)
| Vm (frame : gostring)                (** [vm/<frame>] *)
| UserFrame (user frame : gostring)    (** [<user>@<frame>] *)
| JustFrame (frame : gostring).        (** [<frame>] *)

Definition spell (f : login_form) : gostring :=
  match f with
  | UserVmx u i f => u ++ at_sign :: bs "vmx/" ++ i ++ slash :: f
  | VmxUser i u f => bs "vmx/" ++ i ++ slash :: u ++ at_sign :: f
  | Vmx i f => bs "vmx/" ++ i ++ slash :: f
  | UserOuter u i => u ++ at_sign :: bs "vmx/" ++ i
  | Outer i => bs "vmx/" ++ i
  | UserVm u f => u ++ at_sign :: bs "vm/" ++ f
  | VmUser u f => bs "vm/" ++ u ++ at_sign :: f
  | Vm f => bs "vm/" ++ f
  | UserFrame u f => u ++ at_sign :: f
  | JustFrame f => f
  end.
Definition means (f : login_form) : ssh_user :=
  match f with
  | UserVmx u i f | VmxUser i u f => MkSshUser (bs "vmx") i u f
  | Vmx i f => MkSshUser (bs "vmx") i [] f
  | UserOuter u i => MkSshUser (bs "vmx") i u []
  | Outer i => MkSshUser (bs "vmx") i [] []
  | UserVm u f | VmUser u f => MkSshUser (bs "vmx") (bs "default") u f
  | Vm f => MkSshUser (bs "vmx") (bs "default") [] f
  | UserFrame u f => MkSshUser (bs "container") [] u f
  | JustFrame f => MkSshUser (bs "container") [] [] f
  end.
Definition form_ok (f : login_form) : Prop :=
  match f with
  | UserVmx u i f | VmxUser i u f => plain u ∧ u ≠ [] ∧ plain i ∧ plain f
  | Vmx i f => plain i ∧ plain f
  | UserOuter u i => plain u ∧ u ≠ [] ∧ plain i
  | Outer i => plain i
  | UserVm u f | VmUser u f | UserFrame u f => plain u ∧ u ≠ [] ∧ plain f
  | Vm f | JustFrame f => plain f
  end.

(** Every documented form of an SSH user name is understood as documented: the VM,
    the user and the frame are the ones that were spelled, for any names without an at
    sign or a slash. *)
Theorem ssh_login_forms f : form_ok f → parseSSHUser (spell f) = means f.
Proof.
  destruct f as [u i f|i u f|i f|u i|i|u f|u f|f|u f|f]; cbn [form_ok spell means].
  - intros ([Hu _] & Hne & [_ Hi] & _). apply parse_first; [done|done|by rewrite HasPrefix_app|by apply mode_vmx].
  - intros ([Hu _] & _ & Hi & [_ Hf]). apply parse_later with (bs "vmx/" ++ i ++ slash :: u); [by rewrite <- !app_assoc| |done| |done].
    + rewrite app_assoc, elem_of_app, elem_of_cons. intros [H|[H|H]]; [by destruct (plain_prefix i Hi)|done|done].
    + apply mode_vmx; apply Hi.
  - intros (Hi & [Hf _]). apply parse_nowhere; [|apply mode_vmx; apply Hi|done].
    rewrite app_assoc, elem_of_app, elem_of_cons. intros [H|[H|H]]; [by destruct (plain_prefix i Hi)|done|done].
  - intros ([Hu _] & Hne & [_ Hi]). apply parse_first; [done|done|by rewrite HasPrefix_app|by apply mode_outer].
  - intros Hi. apply parse_nowhere; [by apply plain_prefix|apply mode_outer; apply Hi|apply not_elem_of_nil].
  - intros ([Hu _] & Hne & _). apply parse_first; [done|done|by rewrite HasPrefix_app, orb_true_r|apply mode_vm].
  - intros (Hu & _ & [_ Hf]). apply parse_later with (bs "vm/" ++ u); [by rewrite <- app_assoc|by apply plain_prefix|done|apply mode_vm|apply Hu].
  - intros Hf. apply parse_nowhere; [by apply plain_prefix|apply mode_vm|apply Hf].
  - intros ([Hu Hu'] & _ & [_ Hf]). apply parse_later with u; [done|done|done| |done].
    apply mode_none. rewrite elem_of_app, elem_of_cons. by intros [?|[?|?]].
  - intros [Hf Hf']. apply parse_nowhere; [done|by apply mode_none|done].
Qed.

Lemma ssh_login_forms_witness :
  parseSSHUser (bs "root@vmx/dev/web") = MkSshUser (bs "vmx") (bs "dev") (bs "root") (bs "web").
Proof.
  apply (ssh_login_forms (UserVmx (bs "root") (bs "dev") (bs "web"))).
  apply (bool_decide_unpack _). vm_compute. exact I.
Defined.

(** The root of a VM is a directory of the namespace, and is no frame. *)
Lemma vmx_root_confined `{FrameId.UUIDs} dir ns isolationName uuid :
  Forall proper dir → dir ≠ [] → proper ns → length uuid = 16%nat →
  ∃ e, proper e ∧ vmx_root (abs_path dir) ns isolationName = abs_path (dir ++ [ns; e]) ∧
       vmx_root (abs_path dir) ns isolationName ≠ framePathForNamespaceUUID (abs_path dir) ns uuid.
Proof.
  intros Hd Hne Hns Hu. destruct (sanitize_element isolationName) as ((Hs0 & _ & _ & Hs) & _ & _).
  assert (He : proper (bs ".vmx-" ++ sanitizeForPath isolationName)).
  { split_and!; [done|done|done|]. rewrite elem_of_app. intros [H'|H']; [|done].
    revert H'. by apply (bool_decide_unpack _). }
  exists (bs ".vmx-" ++ sanitizeForPath isolationName).
  assert (Hdir : Forall proper (dir ++ [ns])) by (apply Forall_app_2; [done|]; by apply Forall_cons_2; [|apply Forall_nil_2]).
  unfold vmx_root. rewrite JoinPath_one by done. rewrite JoinPath_one by (done || by destruct dir).
  rewrite <- app_assoc. split_and!; [done|done|].
  destruct (element_below dir ns uuid Hd Hne Hns Hu) as (-> & _). pose proof (uuid_element uuid Hu) as Huuid.
  change (dir ++ [ns; ?x]) with (dir ++ [ns] ++ [x]). rewrite !(app_assoc dir [ns]).
  intros Heq%abs_path_app_inj; [|done|done|done].
  destruct (Frames.String_plain uuid Hu) as (_ & _ & Hh). rewrite <- Heq in Hh. done.
Qed.

(** A bare login comes with the name of the principal, but a name with a domain is split
    at its at sign before the two are compared. *)
Lemma bare_login_split : 
  ssh_session (bs "ann@example.com") (bs "team") DefaultCap (bs "ann@example.com") = ContainerSession (bs "example.com") (bs "ann").
Proof. by vm_compute. Qed.

(** The isolation a policy may name according to its documentation is not one the handler
    knows. *)
Lemma policy_vm_is_container :
  ssh_session (bs "ann") (bs "team") (fillDefaults (MkCap [] (bs "vm") 0 false)) (bs "web") = ContainerSession (bs "web") [].
Proof. by vm_compute. Qed.

(** A spec of three parts, each of them a snap or nothing. *)
Lemma frame_spec_roundtrip r h w :
  Forall (λ p, ":"%byte ∉ p ∧ p ≠ bs "nil") [r; h; w] →
  let show p := if bool_decide (p = []) then bs "nil" else p in
  parseFrameSpec (Join [show r; show h; show w] ":"%byte) = (r, h, w) ∧ isFrameSpec (Join [show r; show h; show w] ":"%byte) = true ∧
  hasBlankRootfs (Join [show r; show h; show w] ":"%byte) = (bool_decide (r = []), bool_decide (r = [])).
Proof.
  rewrite !Forall_cons. intros ((Hr & Hr') & (Hh & Hh') & (Hw & Hw') & _) show.
  assert (Hshow : ∀ p, ":"%byte ∉ p → ":"%byte ∉ show p).
  { intros p Hp. unfold show. case_bool_decide; [|done]. by apply (bool_decide_unpack _). }
  assert (Hpart : ∀ p, p ≠ bs "nil" → (if bool_decide (show p = bs "nil") then [] else show p) = p).
  { intros p Hp. unfold show. destruct (decide (p = [])) as [->|He]; [done|].
    rewrite (bool_decide_eq_false_2 (p = [])) by done. by rewrite bool_decide_eq_false_2. }
  assert (Hspec : isFrameSpec (Join [show r; show h; show w] ":"%byte) = true).
  { unfold isFrameSpec, ContainsByte. apply bool_decide_eq_true_2. cbn [Join]. rewrite elem_of_app, elem_of_cons. auto. }
  unfold parseFrameSpec, hasBlankRootfs. rewrite Hspec. cbn [negb].
  rewrite Split_Join; [|done|repeat apply Forall_cons_2; [by apply Hshow..|apply Forall_nil_2]].
  unfold spec_part. cbn -[bs]. fold (show r) (show h) (show w). rewrite !Hpart by done. split_and!; [done|done|].
  unfold show. destruct (decide (r = [])) as [->|He]; [done|].
  rewrite !(bool_decide_eq_false_2 (r = [])) by done. by rewrite !bool_decide_eq_false_2.
Qed.
