(* ===== verification/RefsHandlers.v ===== *)
(** * Requests on refs and frames ([src/cmd/thundersnapd/refs_handlers.go],
    [frames_handlers.go], [handleDeleteFrame] in [main.go])

    The handlers over the stores of refs and frame metadata, the identity subvolumes and
    the supervisor of autorun commands. *)

From Stdlib Require Import Strings.String.
From S2P Require Import GoSort Prelude GoStrings GoPath JsonStore FrameId Policy.
From S2P Require Refs Frames RefId.

(** ** The daemon's state *)

(** What the supervisor of autorun commands is told. *)
Inductive autorun_call :=
| StartProcess (user name : gostring) (uuid : ID) (argv : list gostring)
| StopProcess (user name : gostring)
| RestartProcess (user name : gostring) (uuid : ID) (argv : list gostring).

Record world := MkWorld { w_disk : disk; w_tree : RefId.tree; w_autorun : list autorun_call }.
Record environment := MkEnvironment { e_os : osenv; e_tree : RefId.tree_env }.

(** The directories of the daemon, whether it supervises autorun commands, and the root
    of the frame whose control socket was used. *)
Record server := MkServer { s_data : gostring; s_fs : gostring; s_supervises : bool; s_root : gostring }.

(** ** Answers *)

Definition StatusOK : Z := 200.
Definition StatusBadRequest : Z := 400.
Definition StatusNotFound : Z := 404.
Definition StatusMethodNotAllowed : Z := 405.
Definition StatusConflict : Z := 409.
Definition StatusInternalServerError : Z := 500.

Record RefListEntry := MkRefListEntry { rl_name : gostring; rl_uuid : gostring; rl_autorun : list gostring }.
Inductive reply :=
| Plain                                                             (** nothing but the status *)
| Failure (e : option store_error)                                  (** a message *)
| RefList (entries : list RefListEntry)
| ReflogOf (name : gostring) (entries : list (gostring * Z))        (** times are not formatted *)
| SeveralRefs (names : list gostring)
| LogOf (uuid : gostring) (entries : list Frames.HistoryEntry)
| FrameInfo (uuid : gostring) (f : option Frames.Frame)
| Resolved (uuid : gostring) (is_there is_ref : bool) (f : option Frames.Frame)
| Pruned (n : nat).
Definition response : Type := Z * reply.

(** [jsonError], [jsonResponse]. *)
Definition jsonError (e : option store_error) (code : Z) : response := (code, Failure e).
Definition jsonResponse (r : reply) : response := (StatusOK, r).

Definition requireMethod (method want : gostring) : bool := bool_decide (method = want).
Definition POST : gostring := bs "POST".
Definition GET : gostring := bs "GET".
Definition not_allowed : response := (StatusMethodNotAllowed, Plain).

Record RefRequest := MkRefRequest { rq_name : gostring; rq_uuid : gostring; rq_force : bool }.

Section handlers.
Context `{UUIDs} `{TempNames} {text_ok : gostring → Prop} {time_ok : Z → Prop}
  `{Json Refs.Ref (Refs.ref_ok text_ok time_ok)} `{Json Frames.Frame (Frames.frame_ok text_ok time_ok)}.
Context (sv : server).

Definition namespaceRefStore (ns : gostring) : Refs.Store := Refs.NewNamespaceStore (s_data sv) ns.
Definition namespaceFrameStore (ns : gostring) : Frames.Store := Frames.NewNamespaceStore (s_data sv) ns.
Definition frame_path (ns : gostring) (uuid : ID) : gostring := framePathForNamespaceUUID (s_fs sv) ns uuid.
Definition own_namespace : option gostring := namespaceFromRootFS (s_fs sv) (s_root sv).

Definition set_disk (w : world) (d : disk) : world := MkWorld d (w_tree w) (w_autorun w).
Definition set_tree (w : world) (t : RefId.tree) : world := MkWorld (w_disk w) t (w_autorun w).
Definition tell (w : world) (c : autorun_call) : world :=
  if s_supervises sv then MkWorld (w_disk w) (w_tree w) (w_autorun w ++ [c]) else w.

(** ** Refs *)

Definition handleRefCreate (env : environment) (now : Z) (w : world) (method : gostring) (body : option RefRequest)
    : world * response :=
  if negb (requireMethod method POST) then (w, not_allowed)
  else
    match own_namespace, body with
    | None, _ => (w, jsonError None StatusInternalServerError)
    | _, None => (w, jsonError None StatusBadRequest)
    | Some user, Some req =>
        if bool_decide (rq_name req = []) || bool_decide (rq_uuid req = []) then (w, jsonError None StatusBadRequest)
        else
          match Refs.ValidateName (rq_name req), Parse (rq_uuid req) with
          | Some e, _ => (w, jsonError (Some e) StatusBadRequest)
          | _, None => (w, jsonError None StatusBadRequest)
          | None, Some uuid =>
              match Refs.Create (e_os env) now (namespaceRefStore user) (w_disk w) (rq_name req) uuid with
              | (_, d, Some e) =>
                  (set_disk w d, if bool_decide (e = err_exists) then jsonError (Some e) StatusConflict
                                 else jsonError (Some e) StatusInternalServerError)
              | (_, d, None) =>
                  let w := set_disk w d in
                  let framePath := frame_path user uuid in
                  (if bool_decide (framePath ≠ [])
                   then set_tree w (RefId.Ensure (e_tree env) (w_tree w) framePath (rq_name req)).1 else w,
                   jsonResponse Plain)
              end
          end
    end.

Definition handleRefMove (env : environment) (now : Z) (w : world) (method : gostring) (body : option RefRequest)
    : world * response :=
  if negb (requireMethod method POST) then (w, not_allowed)
  else
    match own_namespace, body with
    | None, _ => (w, jsonError None StatusInternalServerError)
    | _, None => (w, jsonError None StatusBadRequest)
    | Some user, Some req =>
        if bool_decide (rq_name req = []) || bool_decide (rq_uuid req = []) then (w, jsonError None StatusBadRequest)
        else
          match Parse (rq_uuid req) with
          | None => (w, jsonError None StatusBadRequest)
          | Some uuid =>
              let st := namespaceRefStore user in
              match Refs.Get (e_os env) st (w_disk w) (rq_name req) with
              | Err e => (w, if bool_decide (e = err_not_found) then jsonError (Some e) StatusNotFound
                             else jsonError (Some e) StatusInternalServerError)
              | Panic => (w, jsonError None StatusInternalServerError)
              | Ret currentRef =>
                  let oldUUID := Refs.R_UUID currentRef in
                  match Refs.Move (e_os env) now st (w_disk w) (rq_name req) uuid with
                  | (_, d, Some e) => (set_disk w d, jsonError (Some e) StatusInternalServerError)
                  | (_, d, None) =>
                      let w := set_disk w d in
                      let srcFrame := frame_path user oldUUID in
                      let dstFrame := frame_path user uuid in
                      let w := if bool_decide (oldUUID ≠ uuid) && bool_decide (srcFrame ≠ []) && bool_decide (dstFrame ≠ [])
                               then set_tree w (RefId.Move (e_tree env) (w_tree w) srcFrame dstFrame (rq_name req)).1 else w in
                      let w := if bool_decide (Refs.Autorun currentRef ≠ []) && bool_decide (oldUUID ≠ uuid)
                               then tell w (RestartProcess user (rq_name req) uuid (Refs.Autorun currentRef)) else w in
                      (w, jsonResponse Plain)
                  end
              end
          end
    end.

Definition handleRefDelete (env : environment) (w : world) (method : gostring) (body : option RefRequest)
    : world * response :=
  if negb (requireMethod method POST) then (w, not_allowed)
  else
    match own_namespace, body with
    | None, _ => (w, jsonError None StatusInternalServerError)
    | _, None => (w, jsonError None StatusBadRequest)
    | Some user, Some req =>
        if bool_decide (rq_name req = []) then (w, jsonError None StatusBadRequest)
        else
          let st := namespaceRefStore user in
          let identity := if rq_force req then Ret false else Refs.IDDirExists (e_os env) st (w_disk w) (rq_name req) in
          match identity with
          | Err e => (w, jsonError (Some e) StatusInternalServerError)
          | Panic => (w, jsonError None StatusInternalServerError)
          | Ret true => (w, jsonError None StatusConflict)
          | Ret false =>
              let ref := Refs.Get (e_os env) st (w_disk w) (rq_name req) in
              match Refs.Delete (e_os env) st (w_disk w) (rq_name req) with
              | (_, d, Some e) =>
                  (set_disk w d, if bool_decide (e = err_not_found) then jsonError (Some e) StatusNotFound
                                 else jsonError (Some e) StatusInternalServerError)
              | (_, d, None) =>
                  let w := tell (set_disk w d) (StopProcess user (rq_name req)) in
                  if rq_force req then
                    let w := set_disk w (Refs.RemoveIDDir (e_os env) st (w_disk w) (rq_name req)).1 in
                    (match ref with
                     | Ret r => let framePath := frame_path user (Refs.R_UUID r) in
                                if bool_decide (framePath ≠ [])
                                then set_tree w (RefId.Remove (e_tree env) (w_tree w) framePath (rq_name req)).1 else w
                     | _ => w
                     end, jsonResponse Plain)
                  else (w, jsonResponse Plain)
              end
          end
    end.

(** The refs that can be read, of those that are listed. *)
Definition readable_refs (env : environment) (st : Refs.Store) (d : disk) (names : list gostring) : list (gostring * Refs.Ref) :=
  omap (λ name, match Refs.Get (e_os env) st d name with Ret r => Some (name, r) | _ => None end) names.
(** Those that point at a frame. *)
Definition refs_of_frame (env : environment) (st : Refs.Store) (d : disk) (names : list gostring) (uuid : ID) : list gostring :=
  (filter (λ x, Refs.R_UUID x.2 = uuid) (readable_refs env st d names)).*1.

Definition handleListRefs (env : environment) (w : world) (method : gostring) : response :=
  if negb (requireMethod method GET) then not_allowed
  else
    match own_namespace with
    | None => jsonError None StatusInternalServerError
    | Some user =>
        let st := namespaceRefStore user in
        match Refs.List_ (e_os env) st (w_disk w) with
        | Ret names =>
            jsonResponse (RefList ((λ '(n, r), MkRefListEntry n (String_ (Refs.R_UUID r)) (Refs.Autorun r))
                                     <$> readable_refs env st (w_disk w) names))
        | Err e => jsonError (Some e) StatusInternalServerError
        | Panic => jsonError None StatusInternalServerError
        end
    end.

(** The log of one ref. *)
Definition reflog_of (env : environment) (st : Refs.Store) (d : disk) (name : gostring) : response :=
  match Refs.Get (e_os env) st d name with
  | Ret r => jsonResponse (ReflogOf name ((λ e, (String_ (Refs.E_UUID e), Refs.E_Time e)) <$> Refs.Reflog r))
  | Err e => if bool_decide (e = err_not_found) then jsonError (Some e) StatusNotFound else jsonError (Some e) StatusInternalServerError
  | Panic => jsonError None StatusInternalServerError
  end.

Definition handleReflog (env : environment) (w : world) (method name : gostring) : response :=
  if negb (requireMethod method GET) then not_allowed
  else
    match own_namespace with
    | None => jsonError None StatusInternalServerError
    | Some user =>
        let st := namespaceRefStore user in
        if bool_decide (name ≠ []) then reflog_of env st (w_disk w) name
        else
          match frameUUIDFromRootFS (s_fs sv) (s_root sv), Refs.List_ (e_os env) st (w_disk w) with
          | Some uuid, Ret names =>
              match refs_of_frame env st (w_disk w) names uuid with
              | [] => jsonError None StatusBadRequest
              | [n] => reflog_of env st (w_disk w) n
              | ns => (StatusBadRequest, SeveralRefs ns)
              end
          | Some _, Err e => jsonError (Some e) StatusInternalServerError
          | _, _ => jsonError None StatusInternalServerError
          end
    end.

Definition handleAutorun (env : environment) (w : world) (method : gostring) (body : option (gostring * list gostring))
    : world * response :=
  if negb (requireMethod method POST) then (w, not_allowed)
  else
    match own_namespace, body with
    | None, _ => (w, jsonError None StatusInternalServerError)
    | _, None => (w, jsonError None StatusBadRequest)
    | Some user, Some (name, argv) =>
        if bool_decide (name = []) then (w, jsonError None StatusBadRequest)
        else
          let st := namespaceRefStore user in
          match Refs.Get (e_os env) st (w_disk w) name with
          | Err e => (w, if bool_decide (e = err_not_found) then jsonError (Some e) StatusNotFound
                         else jsonError (Some e) StatusInternalServerError)
          | Panic => (w, jsonError None StatusInternalServerError)
          | Ret ref =>
              match Refs.SetAutorun (e_os env) st (w_disk w) name argv with
              | (_, d, Some e) => (set_disk w d, jsonError (Some e) StatusInternalServerError)
              | (_, d, None) =>
                  (tell (set_disk w d) (if bool_decide (argv ≠ []) then StartProcess user name (Refs.R_UUID ref) argv
                                        else StopProcess user name), jsonResponse Plain)
              end
          end
    end.

(** ** Names of frames *)

Definition defaultRefName : gostring := bs "default".

Inductive resolve_error := NoSuchFrame (name : gostring) | StoreFailed (e : option store_error).

(** The UUID, the directory and whether a ref is bound to it; [fresh] is a new UUID. *)
Definition resolveFrameForNamespace (env : environment) (w : world) (ns name : gostring) (fresh : ID)
    : outcome resolve_error (ID * gostring * bool) :=
  let there := match Parse name with
               | Some uuid => if Frames.Exists (e_os env) (namespaceFrameStore ns) (w_disk w) uuid then Some uuid else None
               | None => None
               end in
  match there with
  | Some uuid => Ret (uuid, frame_path ns uuid, false)
  | None =>
      let isDefault := bool_decide (name = []) || bool_decide (name = ns) in
      match Refs.Get (e_os env) (namespaceRefStore ns) (w_disk w) (if isDefault then defaultRefName else name) with
      | Ret ref => Ret (Refs.R_UUID ref, frame_path ns (Refs.R_UUID ref), true)
      | Panic => Panic
      | Err err_not_found =>
          if isDefault then
            match Frames.List_ (e_os env) (namespaceFrameStore ns) (w_disk w) with
            | Ret [uuid] => Ret (uuid, frame_path ns uuid, false)
            | Ret _ => Ret (fresh, frame_path ns fresh, false)
            | Err e => Err (StoreFailed (Some e))
            | Panic => Panic
            end
          else Err (NoSuchFrame name)
      | Err e => Err (StoreFailed (Some e))
      end
  end.

Fixpoint join_names (l : list gostring) : gostring :=
  match l with [] => [] | [n] => n | n :: l' => n ++ bs "," ++ join_names l' end.
Definition frameDescriptor (env : environment) (w : world) (ns : gostring) (uuid : ID) : gostring :=
  let st := namespaceRefStore ns in
  match Refs.List_ (e_os env) st (w_disk w) with
  | Ret names =>
      match refs_of_frame env st (w_disk w) names uuid with
      | [] => String_ uuid
      | matching => join_names matching
      end
  | _ => String_ uuid
  end.

(** [thundersnapSessionEnv], given the name of the host. *)
Definition thundersnapSessionEnv (env : environment) (w : world) (host ns : gostring) (uuid : ID) : list gostring :=
  (if bool_decide (host ≠ []) then [bs "THUNDERSNAP_HOST=" ++ host] else [])
  ++ [bs "THUNDERSNAP_FRAME=" ++ frameDescriptor env w ns uuid].

(** ** Deleting a frame *)

(** The frame a request names and the refs that are known to point at it. *)
Definition delete_target (env : environment) (w : world) (user frameName uuidStr : gostring)
    : outcome response (ID * list gostring) :=
  let st := namespaceRefStore user in
  if bool_decide (uuidStr ≠ []) then
    match Parse uuidStr with
    | None => Err (jsonError None StatusBadRequest)
    | Some uuid =>
        match Refs.List_ (e_os env) st (w_disk w) with
        | Ret names => Ret (uuid, refs_of_frame env st (w_disk w) names uuid)
        | _ => Ret (uuid, [])
        end
    end
  else
    match Refs.Get (e_os env) st (w_disk w) frameName with
    | Ret ref => Ret (Refs.R_UUID ref, [frameName])
    | Err e => Err (if bool_decide (e = err_not_found) then jsonError (Some e) StatusNotFound
                    else jsonError (Some e) StatusInternalServerError)
    | Panic => Err (jsonError None StatusInternalServerError)
    end.

(** A subvolume inside the frame is deleted, if there is one; a failure is logged. *)
Definition delete_part (env : environment) (t : RefId.tree) (framePath part : gostring) : RefId.tree :=
  let p := JoinPath framePath part in
  if RefId.IsSubvolume (e_tree env) t p then (RefId.DeleteSubvol (e_tree env) t p).1 else t.

(** What is inside first, then the frame. *)
Definition delete_frame_tree (env : environment) (t : RefId.tree) (framePath : gostring) : RefId.tree * option RefId.refid_error :=
  let t := delete_part env t framePath (bs "home") in
  let t := delete_part env t framePath (bs "work") in
  let t := delete_part env t framePath (bs "id") in
  RefId.DeleteSubvol (e_tree env) t framePath.

Definition handleDeleteFrame (env : environment) (w : world) (method : gostring) (body : option (gostring * gostring))
    : world * response :=
  if negb (requireMethod method POST) then (w, not_allowed)
  else
    match body with
    | None => (w, (StatusBadRequest, Plain))
    | Some (frameName, uuidStr) =>
        if bool_decide (uuidStr = []) && bool_decide (frameName = []) then (w, jsonError None StatusBadRequest)
        else
          match own_namespace with
          | None => (w, jsonError None StatusInternalServerError)
          | Some user =>
              match delete_target env w user frameName uuidStr with
              | Err resp => (w, resp)
              | Panic => (w, jsonError None StatusInternalServerError)
              | Ret (frameID, refNames) =>
                  let framePath := frame_path user frameID in
                  if bool_decide (framePath = s_root sv) then (w, jsonError None StatusBadRequest)
                  else if bool_decide (refNames ≠ []) then (w, (StatusConflict, SeveralRefs refNames))
                  else
                    match delete_frame_tree env (w_tree w) framePath with
                    | (t, Some _) => (set_tree w t, jsonError None StatusInternalServerError)
                    | (t, None) =>
                        let '(_, d, _) := Frames.Delete (e_os env) (namespaceFrameStore user) (w_disk w) frameID in
                        (set_disk (set_tree w t) d, jsonResponse Plain)
                    end
              end
          end
    end.

(** ** Frames *)

(** What a failed lookup of a frame answers. *)
Definition frame_failure (e : store_error) : response :=
  if bool_decide (e = err_not_found) then jsonError (Some e) StatusNotFound else jsonError (Some e) StatusInternalServerError.

Definition handleLog (env : environment) (w : world) (method uuidStr : gostring) : response :=
  if negb (requireMethod method GET) then not_allowed
  else
    match own_namespace with
    | None => jsonError None StatusInternalServerError
    | Some user =>
        let target :=
          if bool_decide (uuidStr = []) then
            match frameUUIDFromRootFS (s_fs sv) (s_root sv) with
            | Some uuid => Ret (uuid, String_ uuid)
            | None => Err (jsonError None StatusInternalServerError)
            end
          else match Parse uuidStr with
               | Some uuid => Ret (uuid, uuidStr)
               | None => Err (jsonError None StatusBadRequest)
               end in
        match target with
        | Ret (uuid, text) =>
            match Frames.Get (e_os env) (namespaceFrameStore user) (w_disk w) uuid with
            | Ret f => jsonResponse (LogOf text (Frames.History f))
            | Err e => frame_failure e
            | Panic => jsonError None StatusInternalServerError
            end
        | Err resp => resp
        | Panic => jsonError None StatusInternalServerError
        end
    end.

Definition handleFrame (env : environment) (w : world) (method : gostring) : response :=
  if negb (requireMethod method GET) then not_allowed
  else
    match own_namespace, frameUUIDFromRootFS (s_fs sv) (s_root sv) with
    | Some user, Some uuid =>
        match Frames.Get (e_os env) (namespaceFrameStore user) (w_disk w) uuid with
        | Ret f => jsonResponse (FrameInfo (String_ uuid) (Some f))
        | Err e => if bool_decide (e = err_not_found) then jsonResponse (FrameInfo (String_ uuid) None)
                   else jsonError (Some e) StatusInternalServerError
        | Panic => jsonError None StatusInternalServerError
        end
    | _, _ => jsonError None StatusInternalServerError
    end.

(** A frame whose metadata cannot be read is shown without them. *)
Definition metadata (o : outcome store_error Frames.Frame) : option Frames.Frame :=
  match o with Ret f => Some f | _ => None end.

Definition handleResolveFrame (env : environment) (w : world) (method : gostring) (body : option gostring) : response :=
  if negb (requireMethod method POST) then not_allowed
  else
    match body with
    | None => jsonError None StatusBadRequest
    | Some spec =>
        if bool_decide (spec = []) then jsonError None StatusBadRequest
        else
          match own_namespace with
          | None => jsonError None StatusInternalServerError
          | Some user =>
              let frameStore := namespaceFrameStore user in
              match Parse spec with
              | Some uuid =>
                  if Frames.Exists (e_os env) frameStore (w_disk w) uuid
                  then jsonResponse (Resolved (String_ uuid) true false (metadata (Frames.Get (e_os env) frameStore (w_disk w) uuid)))
                  else jsonResponse (Resolved (String_ uuid) false false None)
              | None =>
                  match Refs.Get (e_os env) (namespaceRefStore user) (w_disk w) spec with
                  | Ret ref =>
                      jsonResponse (Resolved (String_ (Refs.R_UUID ref)) (Frames.Exists (e_os env) frameStore (w_disk w) (Refs.R_UUID ref))
                        true (metadata (Frames.Get (e_os env) frameStore (w_disk w) (Refs.R_UUID ref))))
                  | Err err_not_found => jsonResponse (Resolved [] false false None)
                  | Err e => jsonError (Some e) StatusInternalServerError
                  | Panic => jsonError None StatusInternalServerError
                  end
              end
          end
    end.

Definition handleCloneHistory (env : environment) (w : world) (method : gostring) (body : option (gostring * gostring))
    : world * response :=
  if negb (requireMethod method POST) then (w, not_allowed)
  else
    match body with
    | None => (w, jsonError None StatusBadRequest)
    | Some (source, target) =>
        if bool_decide (source = []) || bool_decide (target = []) then (w, jsonError None StatusBadRequest)
        else
          match Parse source, Parse target with
          | Some sourceUUID, Some targetUUID =>
              match own_namespace with
              | None => (w, jsonError None StatusInternalServerError)
              | Some user =>
                  let st := namespaceFrameStore user in
                  match Frames.Get (e_os env) st (w_disk w) sourceUUID, Frames.Get (e_os env) st (w_disk w) targetUUID with
                  | Ret sourceFrame, Ret targetFrame =>
                      let '(_, d, e) := Frames.Update (e_os env) st (w_disk w) targetUUID
                                          (Frames.set_history targetFrame (Frames.History sourceFrame)) in
                      (set_disk w d, match e with Some e => jsonError (Some e) StatusInternalServerError
                                             | None => jsonResponse Plain end)
                  | Err e, _ | Ret _, Err e => (w, frame_failure e)
                  | _, _ => (w, jsonError None StatusInternalServerError)
                  end
              end
          | _, _ => (w, jsonError None StatusBadRequest)
          end
    end.

Definition handlePruneHistory (env : environment) (w : world) (method : gostring) (body : option (gostring * list gostring))
    : world * response :=
  if negb (requireMethod method POST) then (w, not_allowed)
  else
    match body with
    | None => (w, jsonError None StatusBadRequest)
    | Some (uuidStr, snaps) =>
        if bool_decide (uuidStr = []) then (w, jsonError None StatusBadRequest)
        else
          match Parse uuidStr with
          | None => (w, jsonError None StatusBadRequest)
          | Some uuid =>
              match own_namespace with
              | None => (w, jsonError None StatusInternalServerError)
              | Some user =>
                  let st := namespaceFrameStore user in
                  match Frames.Get (e_os env) st (w_disk w) uuid with
                  | Ret f =>
                      let pruneSet := list_to_set snaps : gset gostring in
                      let newHistory := filter (λ h, Frames.H_Snap h ∉ pruneSet) (Frames.History f) in
                      let '(_, d, e) := Frames.Update (e_os env) st (w_disk w) uuid (Frames.set_history f newHistory) in
                      (set_disk w d, match e with
                                     | Some e => jsonError (Some e) StatusInternalServerError
                                     | None => jsonResponse (Pruned (length (Frames.History f) - length newHistory))
                                     end)
                  | Err e => (w, frame_failure e)
                  | Panic => (w, jsonError None StatusInternalServerError)
                  end
              end
          end
    end.
End handlers.

(** ** Lemmas: what the requests touch *)

Lemma beneath_trans p q r : RefId.beneath p q → RefId.beneath q r → RefId.beneath p r.
Proof.
  unfold RefId.beneath. rewrite !HasPrefix_true. intros [s ->] [s' ->]. exists (s ++ slash :: s'). by rewrite <- !app_assoc.
Qed.
Lemma outside_beneath p q r : RefId.outside p r → RefId.beneath p q → RefId.outside q r.
Proof.
  intros [Hne Hb] Hpq. split; [by intros ->|]. intros H. apply Hb. by eapply beneath_trans.
Qed.

Section footprints.
Context (env : RefId.tree_env).

Lemma own_outside t p o m : RefId.kept_outside p t (RefId.own env t p o m).1.
Proof.
  apply RefId.kept_but_outside. pose proof (RefId.own_spec env t p o m) as Ho. by destruct (RefId.own env t p o m), Ho.
Qed.
Lemma create_outside t p : RefId.kept_outside p t (RefId.CreateSubvol env t p).1.
Proof.
  apply RefId.kept_but_outside. pose proof (RefId.CreateSubvol_spec env t p) as Hc. by destruct (RefId.CreateSubvol env t p), Hc.
Qed.
Lemma delete_outside t p : RefId.kept_outside p t (RefId.DeleteSubvol env t p).1.
Proof. unfold RefId.DeleteSubvol. destruct (_ || _); [done|apply RefId.prune_kept]. Qed.
Lemma remove_outside t p : RefId.kept_outside p t (RefId.RemoveAll env t p).1.
Proof. unfold RefId.RemoveAll. destruct (RefId.rm_fails env p); [done|apply RefId.prune_kept]. Qed.
Lemma plain_outside t p : RefId.kept_outside p t (RefId.removeIfPlainDir env t p).1.
Proof. unfold RefId.removeIfPlainDir. repeat case_match; first [done|apply remove_outside]. Qed.
Lemma clear_outside t p : RefId.kept_outside p t (RefId.clear env t p).1.
Proof. unfold RefId.clear. case_match; [apply delete_outside|apply plain_outside]. Qed.

(** One step after the other, inside the same directory. *)
Lemma then_outside p t r f :
  RefId.kept_outside p t r.1 → (∀ t', RefId.kept_outside p t' (f t').1) → RefId.kept_outside p t (RefId.and_then r f).1.
Proof. intros Hr Hf. destruct r as [t1 [e|]]; [done|]. by eapply RefId.kept_outside_trans. Qed.
Lemma smaller_outside p p' t t' : p' = p ∨ RefId.beneath p p' → RefId.kept_outside p' t t' → RefId.kept_outside p t t'.
Proof. intros [->|Hb] Hk q Hq; [by apply Hk|]. apply Hk. by eapply outside_beneath. Qed.

Lemma make_outside t p : RefId.kept_outside p t (RefId.make_subvol env t p).1.
Proof.
  unfold RefId.make_subvol. case_match; [done|]. apply then_outside; [apply plain_outside|intros; apply create_outside].
Qed.
Lemma ensure_id_outside t f : RefId.kept_outside (RefId.IDDir f) t (RefId.ensureIDSubvol env t f).1.
Proof. unfold RefId.ensureIDSubvol. apply then_outside; [apply make_outside|intros; apply own_outside]. Qed.

Section frame.
Context (f n : gostring) (Hin : RefId.validateRefName n = true → RefId.beneath (RefId.IDDir f) (RefId.Path f n)).

Lemma Ensure_outside t : RefId.kept_outside (RefId.IDDir f) t (RefId.Ensure env t f n).1.
Proof.
  unfold RefId.Ensure. destruct (RefId.validateRefName n) eqn:Hv; [|done]. cbn [negb].
  apply then_outside; [apply ensure_id_outside|]. intros t1. cbn zeta.
  apply smaller_outside with (RefId.Path f n); [by right; apply Hin|].
  apply then_outside; [apply make_outside|intros; apply own_outside].
Qed.
Lemma Remove_outside t : RefId.kept_outside (RefId.IDDir f) t (RefId.Remove env t f n).1.
Proof.
  unfold RefId.Remove. destruct (RefId.validateRefName n) eqn:Hv; [|done]. cbn [negb].
  apply smaller_outside with (RefId.Path f n); [by right; apply Hin|].
  case_match; [apply delete_outside|apply remove_outside].
Qed.
End frame.

Lemma Move_outside t f g n q :
  (RefId.validateRefName n = true → RefId.beneath (RefId.IDDir f) (RefId.Path f n)) →
  (RefId.validateRefName n = true → RefId.beneath (RefId.IDDir g) (RefId.Path g n)) →
  RefId.outside (RefId.IDDir f) q → RefId.outside (RefId.IDDir g) q → (RefId.Move env t f g n).1 !! q = t !! q.
Proof.
  intros Hf Hg Hqf Hqg. unfold RefId.Move. destruct (RefId.validateRefName n) eqn:Hv; [|done]. cbn [negb].
  pose proof (ensure_id_outside t g q Hqg) as H1. destruct (RefId.ensureIDSubvol env t g) as [t1 [e1|]]; [done|].
  cbn [RefId.and_then fst] in *. cbn zeta. rewrite <- H1. clear H1.
  case_match; [by apply Ensure_outside; [intros _; auto|]|].
  assert (Hqs : RefId.outside (RefId.Path f n) q) by (eapply outside_beneath; [exact Hqf|auto]).
  assert (Hqd : RefId.outside (RefId.Path g n) q) by (eapply outside_beneath; [exact Hqg|auto]).
  pose proof (clear_outside t1 (RefId.Path g n) q Hqd) as H2.
  destruct (RefId.clear env t1 (RefId.Path g n)) as [t2 [e2|]]; [done|]. cbn [RefId.and_then fst] in *. rewrite <- H2.
  assert (H3 : (RefId.Rename env t2 (RefId.Path f n) (RefId.Path g n)).1 !! q = t2 !! q).
  { unfold RefId.Rename. destruct (t2 !! RefId.Path f n); [|done]. case_match; [done|]. cbn [fst].
    destruct Hqs, Hqd. by rewrite lookup_insert_ne, lookup_delete_ne. }
  destruct (RefId.Rename env t2 _ _) as [t3 [e3|]]; [done|]. cbn [RefId.and_then fst] in *. rewrite <- H3.
  by apply own_outside.
Qed.
End footprints.

(** ** Lemmas: a namespace and its frames *)

Section home.
Context `{UUIDs} `{TempNames} {text_ok : gostring → Prop} {time_ok : Z → Prop}
  `{Json Refs.Ref (Refs.ref_ok text_ok time_ok)} `{Json Frames.Frame (Frames.frame_ok text_ok time_ok)}.
Context (sv : server) (base : list gostring) (ns : gostring).

(** The server's directories, and the namespace of the frame it serves. *)
Record at_home : Prop := {
  h_data : s_data sv = abs_path base;
  h_fs : s_fs sv = abs_path (base ++ [bs "fs"]);
  h_base : Forall proper base;
  h_ne : base ≠ [];
  h_ns : proper ns;
  h_own : own_namespace sv = Some ns;
}.
Hypothesis Hhome : at_home.

Definition frames_dir : list gostring := base ++ [bs "fs"; ns].
Lemma frames_dir_proper : Forall proper frames_dir ∧ frames_dir ≠ [].
Proof.
  destruct Hhome. split; [|by unfold frames_dir; destruct base]. apply Forall_app_2; [done|].
  apply Forall_cons_2; [by apply proper_name|]. by apply Forall_cons_2; [|apply Forall_nil_2].
Qed.

Lemma frame_path_eq u : length u = 16%nat → frame_path sv ns u = RefId.frame frames_dir (String_ u).
Proof.
  intros Hu. destruct Hhome as [_ Hfs Hb Hne Hns _]. unfold frame_path, RefId.frame, frames_dir. rewrite Hfs.
  destruct (frame_directory base ns u Hb Hne Hns Hu) as (Hf & _). rewrite <- !app_assoc in *. exact Hf.
Qed.
Lemma frame_path_not_nil u : length u = 16%nat → frame_path sv ns u ≠ [].
Proof. intros Hu. by rewrite frame_path_eq. Qed.
Lemma frame_path_inj u v : length u = 16%nat → length v = 16%nat → frame_path sv ns u = frame_path sv ns v → u = v.
Proof.
  intros Hu Hv. rewrite !frame_path_eq by done. destruct frames_dir_proper as [Hp Hne]. unfold RefId.frame.
  intros Heq%abs_path_app_inj; [|done|by apply uuid_element|by apply uuid_element]. by apply Frames.String_inj.
Qed.

Lemma identity_beneath u n :
  length u = 16%nat → RefId.validateRefName n = true →
  RefId.beneath (RefId.IDDir (frame_path sv ns u)) (RefId.Path (frame_path sv ns u) n).
Proof.
  intros Hu Hv%RefId.valid_name_proper. destruct frames_dir_proper as [Hp Hne]. pose proof (uuid_element u Hu) as Hue.
  rewrite frame_path_eq, RefId.IDDir_eq, RefId.Path_eq by done.
  rewrite RefId.beneath_abs; [| |by apply RefId.elements2|by apply RefId.elements3|]; [|by destruct frames_dir|by destruct frames_dir].
  exists n, []. by rewrite <- app_assoc.
Qed.

(** The directory of a frame is outside of what is below another frame, and outside of
    the identities and parts of its own. *)
Lemma frame_outside_part u v part :
  length u = 16%nat → length v = 16%nat → proper part →
  RefId.outside (JoinPath (frame_path sv ns u) part) (frame_path sv ns v).
Proof.
  intros Hu Hv Hpart. destruct frames_dir_proper as [Hp Hne].
  pose proof (uuid_element u Hu) as Hue. pose proof (uuid_element v Hv) as Hve.
  assert (Hl1 : Forall proper (frames_dir ++ [String_ u])) by (apply Forall_app_2; [done|]; by apply Forall_cons_2; [|apply Forall_nil_2]).
  assert (Hl2 : Forall proper (frames_dir ++ [String_ v])) by (apply Forall_app_2; [done|]; by apply Forall_cons_2; [|apply Forall_nil_2]).
  assert (Hl3 : Forall proper (frames_dir ++ [String_ u; part])).
  { apply Forall_app_2; [done|]. apply Forall_cons_2; [done|]. by apply Forall_cons_2; [|apply Forall_nil_2]. }
  rewrite !frame_path_eq by done. unfold RefId.frame. rewrite JoinPath_one by (done || by destruct frames_dir).
  rewrite <- app_assoc. cbn [app]. split.
  - intros Heq%abs_path_inj; [|done|done|by destruct frames_dir|by destruct frames_dir]. by apply app_inv_head in Heq.
  - rewrite RefId.beneath_abs by (done || by destruct frames_dir). intros (e & rest & Heq).
    rewrite <- app_assoc in Heq. by apply app_inv_head in Heq.
Qed.
Lemma frame_outside_id u v : length u = 16%nat → length v = 16%nat → RefId.outside (RefId.IDDir (frame_path sv ns u)) (frame_path sv ns v).
Proof. intros Hu Hv. apply frame_outside_part; [done|done|by apply proper_name]. Qed.
Lemma frame_outside_frame u v : length u = 16%nat → length v = 16%nat → u ≠ v → RefId.outside (frame_path sv ns u) (frame_path sv ns v).
Proof.
  intros Hu Hv Huv. destruct frames_dir_proper as [Hp Hne].
  pose proof (uuid_element u Hu) as Hue. pose proof (uuid_element v Hv) as Hve.
  split; [intros Heq; symmetry in Heq; by apply frame_path_inj in Heq|].
  rewrite !frame_path_eq by done. unfold RefId.frame.
  rewrite RefId.beneath_abs; [| by destruct frames_dir| | |by destruct frames_dir].
  - intros (e & rest & Heq). rewrite <- app_assoc in Heq. by apply app_inv_head in Heq.
  - apply Forall_app_2; [done|]; by apply Forall_cons_2; [|apply Forall_nil_2].
  - apply Forall_app_2; [done|]; by apply Forall_cons_2; [|apply Forall_nil_2].
Qed.

(** *** The stores on the disk *)

Definition refs_held (d : disk) (m : gmap gostring Refs.Ref) : Prop :=
  Refs.store_inv (text_ok := text_ok) (time_ok := time_ok) (namespaceRefStore sv ns) d m.

Lemma refs_base : Refs.placed (namespaceRefStore sv ns) (base ++ [bs "refs"; ns]).
Proof.
  destruct Hhome as [Hd _ Hb Hne Hns _]. unfold namespaceRefStore, Refs.NewNamespaceStore. rewrite Hd.
  pose proof (Refs.store_placed base ns Hb Hne (or_intror Hns)) as Hp.
  rewrite bool_decide_eq_false_2 in Hp; [exact Hp|]. apply Hns.
Qed.

(** A disk on which nothing of the refs has changed. *)
Lemma refs_held_same d d' m :
  refs_held d m →
  (∀ n, Refs.name_ok n → d_files d' !! Refs.refPath (namespaceRefStore sv ns) n = d_files d !! Refs.refPath (namespaceRefStore sv ns) n) →
  (∀ q, is_Some (d_files d' !! q) → is_Some (d_files d !! q)) →
  d_dirs d' ⊆ d_dirs d → (Refs.refsDir (namespaceRefStore sv ns) ∈ d_dirs d → Refs.refsDir (namespaceRefStore sv ns) ∈ d_dirs d') →
  refs_held d' m.
Proof.
  intros [[Hm Hk] Ht Hd] Hf Hs Hdirs Hdir. split.
  - split; [|done]. intros n Hn. destruct (Hm n Hn) as [H1' H2']. rewrite Hf by done. split; [set_solver|done].
  - intros n Hn Hsome. apply Ht; auto.
  - auto.
Qed.

Lemma removed_elsewhere d p m :
  refs_held d m → (∀ n, Refs.name_ok n → ¬ Refs.below p (Refs.refPath (namespaceRefStore sv ns) n)) →
  ¬ Refs.below p (Refs.refsDir (namespaceRefStore sv ns)) → refs_held (Refs.RemoveAll d p) m.
Proof.
  intros Hm Hf Hd. apply (refs_held_same d); [done| | | |]; unfold Refs.RemoveAll; cbn [d_files d_dirs].
  - intros n Hn. apply option_eq. intros x. rewrite map_lookup_filter_Some. split; [by intros []|].
    intros Hx. split; [done|]. by apply Hf.
  - intros q [x Hx]. apply map_lookup_filter_Some in Hx as [Hx _]. by eexists.
  - set_solver.
  - intros Hin. apply elem_of_filter. by split.
Qed.

(** *** Requests and the refs of the namespace *)

Definition frames_kept (t t' : RefId.tree) : Prop :=
  ∀ v, length v = 16%nat → t' !! frame_path sv ns v = t !! frame_path sv ns v.

(** The frame is there, or the ref was asked for without it. *)
Definition there_or_asked (asked : list (gostring * ID)) (t : RefId.tree) (n : gostring) (u : ID) : Prop :=
  is_Some (t !! frame_path sv ns u) ∨ (n, u) ∈ asked.

(** The refs of the namespace are [m], and their frames are there, but for those that
    were asked for without their frames. *)
Definition refs_ok (asked : list (gostring * ID)) (w : world) (m : gmap gostring Refs.Ref) : Prop :=
  refs_held (w_disk w) m ∧
  ∀ n r, m !! n = Some r → length (Refs.R_UUID r) = 16%nat ∧ there_or_asked asked (w_tree w) n (Refs.R_UUID r).

Lemma refs_ok_mono asked asked' w m : asked ⊆ asked' → refs_ok asked w m → refs_ok asked' w m.
Proof.
  intros Hsub [Hm Hr]. split; [done|]. intros n r Hn. destruct (Hr n r Hn) as [Hl [Ht|Ha]]; (split; [done|]).
  - by left.
  - right. by apply Hsub.
Qed.

Definition op_target (op : Refs.ref_op) : option ID :=
  match op with Refs.OpCreate _ u | Refs.OpMove _ u => Some u | _ => None end.

Lemma spec_points now m op n r :
  (Refs.spec_op now m op).1 !! n = Some r →
  (∃ r0, m !! n = Some r0 ∧ Refs.R_UUID r = Refs.R_UUID r0) ∨
  (op_target op = Some (Refs.R_UUID r) ∧ n = Refs.op_name op).
Proof.
  unfold Refs.spec_op. destruct (negb _); [by eauto|].
  destruct op as [name u|name|name u|name|name argv|name]; cbn [Refs.op_name op_target];
    destruct (m !! name) as [r0|] eqn:Hr; cbn [fst]; try by eauto.
  - rewrite lookup_insert_Some. intros [[<- <-]|[_ Hn]]; [by right|by eauto].
  - rewrite lookup_insert_Some. intros [[<- <-]|[_ Hn]]; [by right|by eauto].
  - rewrite lookup_delete_Some. intros [_ Hn]. by eauto.
  - rewrite lookup_insert_Some. intros [[<- <-]|[_ Hn]]; by eauto.
Qed.

Lemma refs_ok_step asked now w d' t' a m op :
  refs_ok asked w m → refs_held d' (Refs.spec_op now m op).1 → frames_kept (w_tree w) t' →
  (∀ u, op_target op = Some u → length u = 16%nat ∧ there_or_asked asked (w_tree w) (Refs.op_name op) u) →
  refs_ok asked (MkWorld d' t' a) (Refs.spec_op now m op).1.
Proof.
  intros [_ Hm] Hd Ht Hop. split; [done|]. cbn [w_tree]. intros n r Hr.
  assert (Hu : length (Refs.R_UUID r) = 16%nat ∧ there_or_asked asked (w_tree w) n (Refs.R_UUID r)).
  { destruct (spec_points now m op n r Hr) as [(r0 & Hr0 & ->)|[Ht' ->]]; [by eapply Hm|by apply Hop]. }
  destruct Hu as [Hu Hsome]. split; [done|]. unfold there_or_asked. by rewrite Ht.
Qed.

Lemma ensure_frames env t u n : length u = 16%nat → frames_kept t (RefId.Ensure env t (frame_path sv ns u) n).1.
Proof.
  intros Hu v Hv. apply Ensure_outside; [intros; by apply identity_beneath|by apply frame_outside_id].
Qed.
Lemma remove_frames env t u n : length u = 16%nat → frames_kept t (RefId.Remove env t (frame_path sv ns u) n).1.
Proof.
  intros Hu v Hv. apply Remove_outside; [intros; by apply identity_beneath|by apply frame_outside_id].
Qed.
Lemma move_frames env t u u' n :
  length u = 16%nat → length u' = 16%nat → frames_kept t (RefId.Move env t (frame_path sv ns u) (frame_path sv ns u') n).1.
Proof.
  intros Hu Hu' v Hv. apply Move_outside; [intros; by apply identity_beneath|intros; by apply identity_beneath
    |by apply frame_outside_id|by apply frame_outside_id].
Qed.

Context (te : RefId.tree_env) (asked : list (gostring * ID)) (now : Z) (Hnow : time_ok now).
Definition steady : environment := MkEnvironment no_fault te.

Lemma create_ok w m method body :
  refs_ok asked w m →
  (∀ req u, body = Some req → Parse (rq_uuid req) = Some u → there_or_asked asked (w_tree w) (rq_name req) u) →
  ∃ m', refs_ok asked (handleRefCreate sv steady now w method body).1 m'.
Proof.
  intros Hm Hbody. unfold handleRefCreate. destruct (requireMethod _ _); [|by exists m]. cbn [negb].
  rewrite (h_own Hhome). destruct body as [req|]; [|by exists m]. destruct (_ || _); [by exists m|].
  destruct (Refs.ValidateName _) eqn:Hv; [by exists m|]. destruct (Parse (rq_uuid req)) as [u|] eqn:Hp; [|by exists m].
  pose proof (Parse_length _ _ Hp) as Hu. specialize (Hbody req u eq_refl Hp).
  pose proof (Refs.run_op_inv _ _ refs_base now (w_disk w) m (Refs.OpCreate (rq_name req) u) (proj1 Hm) I Hnow) as Hrun.
  cbn [Refs.run_op e_os steady] in *.
  destruct (Refs.Create no_fault now (namespaceRefStore sv ns) (w_disk w) (rq_name req) u) as [[steps d] e].
  destruct Hrun as [_ Hinv]. exists (Refs.spec_op now m (Refs.OpCreate (rq_name req) u)).1.
  assert (Hop : ∀ u', op_target (Refs.OpCreate (rq_name req) u) = Some u' → length u' = 16%nat ∧ there_or_asked asked (w_tree w) (rq_name req) u')
    by (by intros u' [= <-]).
  destruct e as [e|]; cbn [fst].
  - apply refs_ok_step with w; done.
  - case_bool_decide; apply refs_ok_step with w; try done. cbn [w_tree set_disk]. by apply ensure_frames.
Qed.

Lemma move_ok w m method body :
  refs_ok asked w m →
  (∀ req u, body = Some req → Parse (rq_uuid req) = Some u → there_or_asked asked (w_tree w) (rq_name req) u) →
  ∃ m', refs_ok asked (handleRefMove sv steady now w method body).1 m'.
Proof.
  intros Hm Hbody. unfold handleRefMove. destruct (requireMethod _ _); [|by exists m]. cbn [negb].
  rewrite (h_own Hhome). destruct body as [req|]; [|by exists m]. destruct (_ || _); [by exists m|].
  destruct (Parse (rq_uuid req)) as [u|] eqn:Hp; [|by exists m]. cbn zeta.
  pose proof (Parse_length _ _ Hp) as Hu. specialize (Hbody req u eq_refl Hp).
  pose proof (Refs.run_op_inv _ _ refs_base now (w_disk w) m (Refs.OpGet (rq_name req)) (proj1 Hm) I Hnow) as [Hget _].
  pose proof (Refs.run_op_inv _ _ refs_base now (w_disk w) m (Refs.OpMove (rq_name req) u) (proj1 Hm) I Hnow) as Hrun.
  cbn [Refs.run_op e_os steady] in *.
  destruct (Refs.Get _ _ _ _) as [r|e|] eqn:Hg; [|by exists m|by exists m].
  assert (Hr : m !! rq_name req = Some r).
  { unfold Refs.spec_op in Hget. cbn [Refs.op_name] in Hget.
    destruct (negb _); [done|]. destruct (m !! rq_name req) as [r'|]; cbn in Hget; congruence. }
  destruct (proj2 Hm _ _ Hr) as [Hold _].
  destruct (Refs.Move no_fault now (namespaceRefStore sv ns) (w_disk w) (rq_name req) u) as [[steps d] e].
  destruct Hrun as [_ Hinv]. exists (Refs.spec_op now m (Refs.OpMove (rq_name req) u)).1.
  assert (Hop : ∀ u', op_target (Refs.OpMove (rq_name req) u) = Some u' → length u' = 16%nat ∧ there_or_asked asked (w_tree w) (rq_name req) u')
    by (by intros u' [= <-]).
  destruct e as [e|]; cbn [fst]; [apply refs_ok_step with w; done|].
  unfold tell. repeat case_match; apply refs_ok_step with w; try done; cbn [w_tree set_disk set_tree]; by apply move_frames.
Qed.

Lemma id_dir_elsewhere d name m :
  refs_held d m → refs_held (Refs.RemoveIDDir no_fault (namespaceRefStore sv ns) d name).1 m.
Proof.
  intros Hm. unfold Refs.RemoveIDDir. destruct (Refs.ValidateName name) eqn:Hv; [done|]. cbn [remove_fails no_fault fst].
  pose proof refs_base as Hb. destruct Hhome as [Hdata _ Hbase Hne Hns _].
  pose proof (Refs.valid_name_plain name Hv) as (Hs & Hdots & Hn0).
  assert (Hname : proper name) by (split_and!; [done| | |done]; intros ->; by apply Hdots; left).
  assert (Hid : Refs.idDir (namespaceRefStore sv ns) name = abs_path (base ++ [bs "id"; ns; name])).
  { unfold Refs.idDir, namespaceRefStore, Refs.NewNamespaceStore. cbn [Refs.namespace Refs.stateDir].
    rewrite bool_decide_eq_true_2 by apply Hns. rewrite Hdata.
    rewrite <- (JoinPath_proper base [bs "id"; ns; name]); [done|done| |done].
    apply Forall_cons_2; [by apply proper_name|]. apply Forall_cons_2; [done|]. by apply Forall_cons_2; [|apply Forall_nil_2]. }
  assert (Hel : Forall proper (base ++ [bs "id"; ns; name])).
  { apply Forall_app_2; [done|]. apply Forall_cons_2; [by apply proper_name|]. apply Forall_cons_2; [done|].
    by apply Forall_cons_2; [|apply Forall_nil_2]. }
  assert (Hnot : ∀ es, Forall proper (base ++ bs "refs" :: es) →
            ¬ Refs.below (abs_path (base ++ [bs "id"; ns; name])) (abs_path (base ++ bs "refs" :: es))).
  { intros es Hes [Heq|Hbe].
    - apply abs_path_inj in Heq; [|done|done|by destruct base|by destruct base]. by apply app_inv_head in Heq.
    - apply RefId.beneath_abs in Hbe; [|by destruct base|done|done|by destruct base].
      destruct Hbe as (e & rest & Heq). rewrite <- app_assoc in Heq. by apply app_inv_head in Heq. }
  rewrite Hid. apply removed_elsewhere; [done| |].
  - intros n Hn. rewrite (Refs.refPath_eq _ _ Hb n Hn), <- app_assoc. apply Hnot.
    apply Forall_app_2; [done|]. apply Forall_cons_2; [by apply proper_name|]. apply Forall_cons_2; [done|].
    apply Forall_cons_2; [|apply Forall_nil_2]. apply Refs.file_name_proper; by apply Refs.valid_name_plain.
  - rewrite (Refs.pl_dir _ _ Hb). apply Hnot. apply Forall_app_2; [done|]. apply Forall_cons_2; [by apply proper_name|].
    by apply Forall_cons_2; [|apply Forall_nil_2].
Qed.

Lemma delete_ok w m method body :
  refs_ok asked w m → ∃ m', refs_ok asked (handleRefDelete sv steady w method body).1 m'.
Proof.
  intros Hm. unfold handleRefDelete. destruct (requireMethod _ _); [|by exists m]. cbn [negb].
  rewrite (h_own Hhome). destruct body as [req|]; [|by exists m]. case_bool_decide; [by exists m|]. cbn zeta.
  destruct (if rq_force req then _ else _) as [[]|e|]; [by exists m| |by exists m|by exists m].
  pose proof (Refs.run_op_inv _ _ refs_base now (w_disk w) m (Refs.OpGet (rq_name req)) (proj1 Hm) I Hnow) as [Hget _].
  pose proof (Refs.run_op_inv _ _ refs_base now (w_disk w) m (Refs.OpDelete (rq_name req)) (proj1 Hm) I Hnow) as Hrun.
  cbn [Refs.run_op e_os steady] in *.
  destruct (Refs.Delete no_fault (namespaceRefStore sv ns) (w_disk w) (rq_name req)) as [[steps d] e].
  destruct Hrun as [_ Hinv]. exists (Refs.spec_op now m (Refs.OpDelete (rq_name req))).1.
  destruct e as [e|]; [apply refs_ok_step with w; done|].
  assert (Ht : w_tree (tell sv (set_disk w d) (StopProcess ns (rq_name req))) = w_tree w ∧
               w_disk (tell sv (set_disk w d) (StopProcess ns (rq_name req))) = d) by (unfold tell; by case_match).
  destruct (tell sv _ _) as [d1 t1 a1]. cbn [w_tree w_disk] in Ht. destruct Ht as [-> ->].
  destruct (rq_force req); cbn [fst]; [|by apply refs_ok_step with w].
  pose proof (id_dir_elsewhere d (rq_name req) _ Hinv) as Hinv'.
  destruct (Refs.Get _ _ _ _) as [r|e|] eqn:Hg; [|by apply refs_ok_step with w|by apply refs_ok_step with w].
  assert (Hr : m !! rq_name req = Some r).
  { unfold Refs.spec_op in Hget. cbn [Refs.op_name] in Hget.
    destruct (negb _); [done|]. destruct (m !! rq_name req) as [r'|]; cbn in Hget; congruence. }
  destruct (proj2 Hm _ _ Hr) as [Hold _].
  case_bool_decide; apply refs_ok_step with w; try done. by apply remove_frames.
Qed.

Lemma autorun_ok w m method body :
  refs_ok asked w m → (∀ name argv, body = Some (name, argv) → Forall text_ok argv) →
  ∃ m', refs_ok asked (handleAutorun sv steady w method body).1 m'.
Proof.
  intros Hm Hbody. unfold handleAutorun. destruct (requireMethod _ _); [|by exists m]. cbn [negb].
  rewrite (h_own Hhome). destruct body as [[name argv]|]; [|by exists m]. case_bool_decide; [by exists m|]. cbn zeta.
  specialize (Hbody name argv eq_refl).
  pose proof (Refs.run_op_inv _ _ refs_base now (w_disk w) m (Refs.OpSetAutorun name argv) (proj1 Hm) Hbody Hnow) as Hrun.
  cbn [Refs.run_op e_os steady] in *. destruct (Refs.Get _ _ _ _); [|by exists m|by exists m].
  destruct (Refs.SetAutorun no_fault (namespaceRefStore sv ns) (w_disk w) name argv) as [[steps d] e].
  destruct Hrun as [_ Hinv]. exists (Refs.spec_op now m (Refs.OpSetAutorun name argv)).1.
  unfold tell. repeat case_match; by apply refs_ok_step with w.
Qed.

(** *** Deleting a frame *)

(** No calls fail: the refs of a frame are those of the map. *)
Lemma refs_of_frame_spec d m names u :
  refs_held d m → (∀ n, n ∈ names ↔ is_Some (m !! n)) →
  ∀ n, n ∈ refs_of_frame steady (namespaceRefStore sv ns) d names u ↔ ∃ r, m !! n = Some r ∧ Refs.R_UUID r = u.
Proof.
  intros [Hm _ _] Hnames n. unfold refs_of_frame, readable_refs. cbn [e_os steady].
  assert (Hget : ∀ k r, m !! k = Some r → Refs.Get no_fault (namespaceRefStore sv ns) d k = Ret r).
  { intros k r Hr. assert (Hk : Refs.name_ok k) by (apply Hm; by eexists).
    destruct (Refs.Get_any (namespaceRefStore sv ns) no_fault d m k Hm Hk) as [->|[_ ?]]; [by rewrite Hr|done]. }
  rewrite list_elem_of_fmap. split.
  - intros ([k r] & -> & Hin). apply list_elem_of_filter in Hin as [Hu Hin]. cbn in *.
    apply list_elem_of_omap in Hin as (k' & Hk' & Heq). apply Hnames in Hk' as [r' Hr']. rewrite (Hget k' r' Hr') in Heq.
    injection Heq as -> ->. eauto.
  - intros (r & Hr & Hu). exists (n, r). split; [done|]. apply list_elem_of_filter. split; [done|].
    apply list_elem_of_omap. exists n. split; [apply Hnames; by eexists|]. by rewrite (Hget n r Hr).
Qed.

Lemma delete_part_outside t u part v :
  length u = 16%nat → length v = 16%nat → proper part →
  delete_part steady t (frame_path sv ns u) part !! frame_path sv ns v = t !! frame_path sv ns v.
Proof.
  intros Hu Hv Hpart. unfold delete_part. case_match; [|done]. apply delete_outside. by apply frame_outside_part.
Qed.

Lemma frame_metadata_elsewhere d m u :
  refs_held d m → length u = 16%nat →
  let '(_, d', _) := Frames.Delete no_fault (namespaceFrameStore sv ns) d u in refs_held d' m.
Proof.
  intros Hm Hu. unfold Frames.Delete, os_Remove. cbn [remove_fails no_fault].
  destruct (d_files d !! Frames.metaPath (namespaceFrameStore sv ns) u) as [x|] eqn:Hx; [|by case_bool_decide].
  pose proof refs_base as Hb. destruct Hhome as [Hdata _ Hbase Hne Hns _].
  apply (refs_held_same d); [done| | |done|done]; cbn [d_files].
  - intros n Hn. rewrite lookup_delete_ne; [done|]. intros Heq.
    destruct (Frames.fs_placed base ns Hbase Hne (or_intror Hns)) as (Hfs & Hp & Hp0).
    rewrite bool_decide_eq_false_2 in Hfs, Hp, Hp0 by apply Hns.
    unfold Frames.metaPath, namespaceFrameStore, Frames.NewNamespaceStore in Heq. rewrite Hdata, Hfs in Heq.
    pose proof (Frames.meta_name_proper u Hu) as Hmp. rewrite JoinPath_one in Heq by done.
    rewrite (Refs.refPath_eq _ _ Hb n Hn), <- !app_assoc in Heq. apply abs_path_inj in Heq.
    + by apply app_inv_head in Heq.
    + rewrite app_assoc. apply Forall_app_2; [done|]. by apply Forall_cons_2; [|apply Forall_nil_2].
    + apply Forall_app_2; [done|]. apply Forall_cons_2; [by apply proper_name|]. apply Forall_cons_2; [done|].
      apply Forall_cons_2; [|apply Forall_nil_2]. apply Refs.file_name_proper; by apply Refs.valid_name_plain.
    + by destruct base.
    + by destruct base.
  - intros q [y Hy]. apply lookup_delete_Some in Hy as [_ Hy]. by eexists.
Qed.

Lemma target_code w name s code rep : delete_target sv steady w ns name s = Err (code, rep) → code ≠ StatusOK.
Proof.
  unfold delete_target. cbn zeta. repeat case_match; unfold jsonError; intros Heq; simplify_eq; try done; by injection Heq as <- _.
Qed.

(** The target of a deletion, and that no ref points at it if the list says so. *)
Lemma target_found w m name s u names :
  refs_ok asked w m → delete_target sv steady w ns name s = Ret (u, names) →
  length u = 16%nat ∧ (names = [] → Parse s = Some u ∧ ∀ n r, m !! n = Some r → Refs.R_UUID r ≠ u).
Proof.
  intros [Hm Hframes]. unfold delete_target. cbn zeta. cbn [e_os steady]. case_bool_decide.
  - destruct (Parse s) as [u'|] eqn:Hp; [|done]. pose proof Hm as [Hd Ht Hdir].
    destruct (Refs.List_names _ _ refs_base (w_disk w) m Hd Ht Hdir) as (l & -> & _ & Hl).
    intros [= <- <-]. split; [by apply Parse_length in Hp|]. intros Hnil. split; [done|]. intros n r Hr Heq.
    assert (Hin : n ∈ refs_of_frame steady (namespaceRefStore sv ns) (w_disk w) l u') by (apply (refs_of_frame_spec (w_disk w) m); eauto).
    rewrite Hnil in Hin. by apply not_elem_of_nil in Hin.
  - destruct (Refs.Get no_fault (namespaceRefStore sv ns) (w_disk w) name) as [r|e|] eqn:Hg; [|done|done].
    intros [= <- <-]. split; [|done].
    assert (Hk : Refs.name_ok name).
    { unfold Refs.Get in Hg. unfold Refs.name_ok. by destruct (Refs.ValidateName name). }
    destruct (Refs.Get_any (namespaceRefStore sv ns) no_fault (w_disk w) m name (Refs.inv_map _ _ _ Hm) Hk) as [Hget|[_ ?]]; [|done].
    rewrite Hg in Hget. destruct (m !! name) as [r'|] eqn:Hr; [|done]. injection Hget as <-. by apply (Hframes name r).
Qed.

Lemma delete_frame_spec w m method body :
  refs_ok asked w m →
  let '(w', (code, rep)) := handleDeleteFrame sv steady w method body in
  refs_ok asked w' m ∧
  ((code ≠ StatusOK ∧ frames_kept (w_tree w) (w_tree w') ∧ w_disk w' = w_disk w) ∨
   (code = StatusOK ∧ ∃ name s u, body = Some (name, s) ∧ Parse s = Some u ∧ frame_path sv ns u ≠ s_root sv ∧
      (∀ n r, m !! n = Some r → Refs.R_UUID r ≠ u) ∧ w_tree w' !! frame_path sv ns u = None ∧
      ∀ v, length v = 16%nat → v ≠ u → w_tree w' !! frame_path sv ns v = w_tree w !! frame_path sv ns v)).
Proof.
  intros Hm. unfold handleDeleteFrame. assert (Hsame : frames_kept (w_tree w) (w_tree w)) by done.
  destruct (requireMethod _ _); [|by split; [|left]]. cbn [negb]. destruct body as [[name s]|]; [|by split; [|left]].
  destruct (_ && _); [by split; [|left]|]. rewrite (h_own Hhome).
  destruct (delete_target sv steady w ns name s) as [[u names]|[code rep]|] eqn:Htarget; [|by split; [|left; split; [eapply target_code|]]|by split; [|left]].
  destruct (target_found w m name s u names Hm Htarget) as (Hu & Hnames).
  cbn zeta. case_bool_decide as Hroot; [by split; [|left]|]. case_bool_decide as Hn0; [by split; [|left]|].
  assert (Hn1 : names = []) by (destruct names; [done|by destruct Hn0]). subst names. destruct (Hnames eq_refl) as (Hp & Hrefs).
  unfold delete_frame_tree. cbn zeta. set (t := delete_part _ (delete_part _ (delete_part _ _ _ _) _ _) _ _).
  assert (Ht : frames_kept (w_tree w) t).
  { intros v Hv. unfold t. rewrite !delete_part_outside; [done| | | | | | | | |]; by (done || apply proper_name). }
  pose proof (delete_outside te t (frame_path sv ns u)) as Hdel.
  pose proof (frame_metadata_elsewhere (w_disk w) m u (proj1 Hm) Hu) as Hmeta. cbn [e_os e_tree steady].
  destruct (RefId.DeleteSubvol te t (frame_path sv ns u)) as [t' [e|]] eqn:Hdels; cbn [fst] in Hdel.
  - assert (t' = t) as -> by (unfold RefId.DeleteSubvol in Hdels; destruct (_ || _ || _); by simplify_eq).
    split; [|by left]. split; [apply Hm|]. intros n r Hr. destruct (proj2 Hm n r Hr) as [Hlen Hsome].
    split; [done|]. unfold there_or_asked. cbn [w_tree set_tree]. by rewrite Ht.
  - assert (t' = RefId.prune t (frame_path sv ns u)) as -> by (unfold RefId.DeleteSubvol in Hdels; destruct (_ || _ || _); by simplify_eq).
    destruct (Frames.Delete no_fault _ _ u) as [[steps d] e].
    assert (Hothers : ∀ v, length v = 16%nat → v ≠ u → RefId.prune t (frame_path sv ns u) !! frame_path sv ns v = w_tree w !! frame_path sv ns v).
    { intros v Hv Hvu. rewrite Hdel by (by apply frame_outside_frame). by apply Ht. }
    split.
    + split; [exact Hmeta|]. intros n r Hr. destruct (proj2 Hm n r Hr) as [Hlen Hsome]. split; [done|].
      unfold there_or_asked. cbn [w_tree set_tree set_disk]. rewrite Hothers; [done|done|by eapply Hrefs].
    + right. split; [done|]. exists name, s, u. split_and!; try done. cbn [w_tree set_tree set_disk].
      rewrite RefId.prune_lookup, bool_decide_eq_false_2; [done|]. by intros [].
Qed.
End home.

(** ** Sequences of requests *)

Inductive request :=
| RefCreate (body : option RefRequest) | RefMove (body : option RefRequest) | RefDelete (body : option RefRequest)
| Autorun (body : option (gostring * list gostring)) | DeleteFrame (body : option (gostring * gostring)).

Definition with_root (sv : server) (root : gostring) : server := MkServer (s_data sv) (s_fs sv) (s_supervises sv) root.

Section requests.
Context `{UUIDs} `{TempNames} {text_ok : gostring → Prop} {time_ok : Z → Prop}
  `{Json Refs.Ref (Refs.ref_ok text_ok time_ok)} `{Json Frames.Frame (Frames.frame_ok text_ok time_ok)}.
Context (sv : server) (base : list gostring) (ns : gostring).

Definition serve (sv : server) (env : environment) (now : Z) (w : world) (method : gostring) (req : request) : world * response :=
  match req with
  | RefCreate body => handleRefCreate sv env now w method body
  | RefMove body => handleRefMove sv env now w method body
  | RefDelete body => handleRefDelete sv env w method body
  | Autorun body => handleAutorun sv env w method body
  | DeleteFrame body => handleDeleteFrame sv env w method body
  end.

(** The ref and the frame that a request binds it to, when that frame is not there. *)
Definition asks_without_frame (w : world) (req : request) : list (gostring * ID) :=
  match req with
  | RefCreate (Some b) | RefMove (Some b) =>
      match Parse (rq_uuid b) with
      | Some u => if bool_decide (w_tree w !! frame_path sv ns u = None) then [(rq_name b, u)] else []
      | None => []
      end
  | _ => []
  end.

(** The command of an autorun is text that JSON can carry. *)
Definition is_text (req : request) : Prop :=
  match req with Autorun (Some (_, argv)) => Forall text_ok argv | _ => True end.

(** Any requests from the frames of the namespace, one after the other, calls on
    subvolumes failing at any point, with frames made in between by others. [asked] keeps
    account of the refs that were asked for without their frames, as long as these frames
    are not made. *)
Inductive reaches (w0 : world) : list (gostring * ID) → world → Prop :=
| reaches_here : reaches w0 [] w0
| reaches_next asked w root te now method req :
    reaches w0 asked w → namespaceFromRootFS (s_fs sv) root = Some ns → time_ok now → is_text req →
    reaches w0 (asks_without_frame w req ++ asked) (serve (with_root sv root) (steady te) now w method req).1
| reaches_made asked w t' :
    reaches w0 asked w → (∀ p, is_Some (w_tree w !! p) → t' !! p = w_tree w !! p) →
    reaches w0 (filter (λ x, t' !! frame_path sv ns x.2 = None) asked) (set_tree w t').

Hypothesis Hplace : s_data sv = abs_path base ∧ s_fs sv = abs_path (base ++ [bs "fs"]) ∧ Forall proper base ∧ base ≠ [] ∧ proper ns.

Lemma root_at_home root : namespaceFromRootFS (s_fs sv) root = Some ns → at_home (with_root sv root) base ns.
Proof. intros Hroot. destruct Hplace as (? & ? & ? & ? & ?). by split. Qed.

Lemma asked_now asked w req b u :
  req = RefCreate (Some b) ∨ req = RefMove (Some b) → Parse (rq_uuid b) = Some u →
  there_or_asked sv ns (asks_without_frame w req ++ asked) (w_tree w) (rq_name b) u.
Proof.
  intros Hreq Hp. unfold there_or_asked. destruct (w_tree w !! frame_path sv ns u) as [x|] eqn:Hx; [by left|right].
  apply elem_of_app. left. destruct Hreq as [-> | ->]; cbn [asks_without_frame]; rewrite Hp, bool_decide_eq_true_2 by done;
    by apply list_elem_of_singleton.
Qed.

Abbreviation refs_ok' sv := (refs_ok (text_ok := text_ok) (time_ok := time_ok) sv ns).

Lemma made_refs_ok asked w m t' :
  (∀ p, is_Some (w_tree w !! p) → t' !! p = w_tree w !! p) → refs_ok' sv asked w m →
  refs_ok' sv (filter (λ x, t' !! frame_path sv ns x.2 = None) asked) (set_tree w t') m.
Proof.
  intros Ht [Hm Hr]. split; [done|]. intros n r Hn. destruct (Hr n r Hn) as [Hl Hta]. split; [done|].
  unfold there_or_asked in *. cbn [w_tree set_tree]. destruct (t' !! frame_path sv ns (Refs.R_UUID r)) as [x|] eqn:Hx; [by left|right].
  destruct Hta as [Hs|Ha]; [rewrite Ht in Hx by done; rewrite Hx in Hs; by destruct Hs|].
  by apply list_elem_of_filter.
Qed.

Lemma reaches_refs_ok w0 m asked w :
  refs_ok' sv [] w0 m → reaches w0 asked w → ∃ m', refs_ok' sv asked w m'.
Proof.
  intros Hm. induction 1 as [|asked w root te now method req Hr [m1 IH] Hroot Hnow Hreq|asked w t' Hr [m1 IH] Ht];
    [by exists m| |exists m1; by apply made_refs_ok].
  pose proof (root_at_home root Hroot) as Hhome.
  apply (refs_ok_mono sv ns asked (asks_without_frame w req ++ asked)) in IH; [|set_solver].
  pose proof (asked_now asked w req) as Hnew. set (asked' := asks_without_frame w req ++ asked) in *.
  change (refs_ok sv ns) with (refs_ok (text_ok := text_ok) (time_ok := time_ok) (with_root sv root) ns) in *.
  change (there_or_asked sv ns) with (there_or_asked (with_root sv root) ns) in Hnew.
  destruct req as [body|body|body|body|body]; cbn [serve is_text] in *.
  - eapply (create_ok _ base ns Hhome te asked' now Hnow); [exact IH|]. intros r u -> Hu. apply Hnew; auto.
  - eapply (move_ok _ base ns Hhome te asked' now Hnow); [exact IH|]. intros r u -> Hu. apply Hnew; auto.
  - by eapply (delete_ok _ base ns Hhome te asked' now Hnow).
  - eapply (autorun_ok _ base ns Hhome te asked' now Hnow); [exact IH|]. intros name argv ->. done.
  - pose proof (delete_frame_spec _ base ns Hhome te asked' w m1 method body IH) as Hd.
    destruct (handleDeleteFrame _ _ w method body) as [w' [code rep]]. exists m1. apply Hd.
Qed.
End requests.

(** ** Properties *)

(** C29: No deletion leaves a ref without its frame. From a namespace whose refs point at
    frames that are there, after any sequence of requests to make, move, delete and autorun
    refs and to delete frames, with calls on subvolumes failing at any point and others
    making frames in between, the refs on the disk still are a map, and a ref points at a
    frame that is there unless a request asked for this ref with this frame when the frame
    was not there, and it was not made since; and a request that deletes a frame then
    succeeds only for a frame that is named by its UUID, has no refs and is not the
    caller's own, and takes no other frame away. *)
Theorem refs_never_dangle `{UUIDs} `{TempNames} {text_ok : gostring → Prop} {time_ok : Z → Prop}
    `{Json Refs.Ref (Refs.ref_ok text_ok time_ok)} `{Json Frames.Frame (Frames.frame_ok text_ok time_ok)}
    sv base ns w0 m0 asked w :
  s_data sv = abs_path base ∧ s_fs sv = abs_path (base ++ [bs "fs"]) ∧ Forall proper base ∧ base ≠ [] ∧ proper ns →
  refs_ok (text_ok := text_ok) (time_ok := time_ok) sv ns [] w0 m0 →
  reaches (text_ok := text_ok) (time_ok := time_ok) sv ns w0 asked w →
  ∃ m, refs_ok (text_ok := text_ok) (time_ok := time_ok) sv ns asked w m ∧
  ∀ root te method body,
    namespaceFromRootFS (s_fs sv) root = Some ns →
    let '(w', (code, _)) := handleDeleteFrame (with_root sv root) (steady te) w method body in
    (code ≠ StatusOK → ∀ v, length v = 16%nat → w_tree w' !! frame_path sv ns v = w_tree w !! frame_path sv ns v) ∧
    (code = StatusOK → ∃ name s u, body = Some (name, s) ∧ Parse s = Some u ∧ frame_path sv ns u ≠ root ∧
       (∀ n r, m !! n = Some r → Refs.R_UUID r ≠ u) ∧ w_tree w' !! frame_path sv ns u = None ∧
       ∀ v, length v = 16%nat → v ≠ u → w_tree w' !! frame_path sv ns v = w_tree w !! frame_path sv ns v).
Proof.
  intros Hplace Hm0 Hr. destruct (reaches_refs_ok sv base ns Hplace w0 m0 asked w Hm0 Hr) as [m Hm].
  exists m. split; [done|]. intros root te method body Hroot.
  pose proof (root_at_home sv base ns Hplace root Hroot) as Hhome.
  pose proof (delete_frame_spec (text_ok := text_ok) (time_ok := time_ok) (with_root sv root) base ns Hhome te asked w m method body Hm) as Hd.
  destruct (handleDeleteFrame _ _ w method body) as [w' [code rep]].
  destruct Hd as [_ [(Hne & Hk & _)|(Heq & Hx)]]; split; try done.
Qed.

#[local] Existing Instances Refs.ref_eq_dec Refs.ref_countable Frames.frame_eq_dec Frames.frame_countable.

Definition example_uuid : ID := replicate 16 Byte.x01.
Definition example_server : server := MkServer (bs "/d") (bs "/d/fs") true [].
Definition frame_of (u : ID) : gostring := JoinPath (bs "/d/fs/a") (uuid_text u).
Definition example_world : world :=
  MkWorld (MkDisk ∅ ∅) {[ frame_of example_uuid := RefId.MkNode true 0 493 [] ]} [].

(** A ref is made for a frame that is not there, and then the frame without refs is
    deleted. *)
Definition no_uuid : ID := replicate 16 Byte.x02.
Definition example_request : request := RefCreate (Some (MkRefRequest (bs "r") (uuid_text no_uuid) false)).

Lemma refs_never_dangle_witness :
  let uuids := text_uuids in let temp := zero_names in
  let refs := countable_json (Refs.ref_ok (λ _, True) (λ _, True)) in
  let frames := countable_json (Frames.frame_ok (λ _, True) (λ _, True)) in
  let w := (serve (with_root example_server (frame_of [])) (steady RefId.calm) 0 example_world POST example_request).1 in
  ∃ m, refs_ok (text_ok := λ _, True) (time_ok := λ _, True) example_server (bs "a") [(bs "r", no_uuid)] w m ∧
    let '(w', (code, _)) := handleDeleteFrame (with_root example_server (frame_of [])) (steady RefId.calm) w POST
                              (Some ([], uuid_text example_uuid)) in
    code = StatusOK ∧ ∃ u, Parse (uuid_text example_uuid) = Some u ∧ (∀ n r, m !! n = Some r → Refs.R_UUID r ≠ u) ∧
      w_tree w' !! frame_path example_server (bs "a") u = None.
Proof.
  intros uuids temp refs frames w.
  destruct (refs_never_dangle (text_ok := λ _, True) (time_ok := λ _, True) example_server [bs "d"] (bs "a") example_world ∅
              (asks_without_frame example_server (bs "a") example_world example_request ++ []) w)
    as (m & Hm & Hd).
  - split_and!; [reflexivity|reflexivity|by apply Forall_cons_2; [apply proper_name|apply Forall_nil_2]|discriminate|by apply proper_name].
  - split.
    + split; [split| |done].
      * intros k _. rewrite !lookup_empty. split; [apply not_elem_of_empty|done].
      * intros k [x Hx]. discriminate Hx.
      * intros n _ [x Hx]. discriminate Hx.
    + intros n r Hr. discriminate Hr.
  - apply reaches_next; [apply reaches_here|vm_compute; reflexivity|exact I|exact I].
  - exists m. split; [exact Hm|].
    specialize (Hd (frame_of []) RefId.calm POST (Some ([], uuid_text example_uuid)) eq_refl).
    set (run := handleDeleteFrame _ _ _ _ _) in *.
    assert (Hc : run.2.1 = StatusOK) by (vm_compute; reflexivity). destruct run as [w' [code rep]]. split; [exact Hc|].
    destruct Hd as [_ Hd]. destruct (Hd Hc) as (name & s & u & Hb & Hp & _ & Hrefs & Hg & _). injection Hb as _ <-. by exists u.
Defined.

(** ** What the requests miss *)

(** A frame that still has the identity of a ref is not deleted, but its home is: parts
    are deleted before the frame is known to be deletable. *)
Lemma failed_deletion_loses_home :
  let subvol := RefId.MkNode true 0 493 [] in
  let t := {[ bs "/f" := subvol; bs "/f/home" := subvol; bs "/f/id" := subvol; bs "/f/id/x" := subvol ]} : RefId.tree in
  let '(t', e) := delete_frame_tree (steady RefId.calm) t (bs "/f") in
  e = Some RefId.ErrBtrfs ∧ is_Some (t' !! bs "/f") ∧ is_Some (t' !! bs "/f/id/x") ∧ t' !! bs "/f/home" = None.
Proof. vm_compute. split_and!; by try eexists. Qed.

Section misses.
Context `{UUIDs} `{TempNames} {text_ok : gostring → Prop} {time_ok : Z → Prop}
  `{Json Refs.Ref (Refs.ref_ok text_ok time_ok)} `{Json Frames.Frame (Frames.frame_ok text_ok time_ok)}.
Context (sv : server).

(** When the refs cannot be listed, the frame counts as one without refs. *)
Lemma unlisted_refs_do_not_count env w ns name s u e :
  s ≠ [] → Parse s = Some u → Refs.List_ (e_os env) (namespaceRefStore sv ns) (w_disk w) = Err e →
  delete_target sv env w ns name s = Ret (u, []).
Proof. intros Hs Hp Hl. unfold delete_target. by rewrite bool_decide_eq_true_2, Hp, Hl. Qed.

(** Without force the identity stays in the frame, where a ref that is given the name
    later finds it. *)
Lemma identity_outlives_ref env w method body r :
  body = Some r → rq_force r = false → w_tree (handleRefDelete sv env w method body).1 = w_tree w.
Proof.
  intros -> Hf. unfold handleRefDelete, tell. rewrite Hf. cbn zeta. repeat case_match; try done; by simplify_eq.
Qed.

(** A snap triplet is not a ref name, so the request fails. *)
Lemma triplet_is_not_resolved env w body ns :
  body ≠ [] → own_namespace sv = Some ns → Parse body = None → Refs.ValidateName body = Some err_invalid →
  (handleResolveFrame sv env w POST (Some body)).1 = StatusInternalServerError.
Proof.
  intros Hb Hns Hp Hv. unfold handleResolveFrame, requireMethod. rewrite bool_decide_eq_true_2 by done. cbn [negb].
  rewrite bool_decide_eq_false_2, Hns by done. cbn zeta. unfold Refs.Get. by rewrite Hp, Hv.
Qed.
End misses.
Lemma triplet_is_invalid : Refs.ValidateName (bs "base:home:work") = Some err_invalid.
Proof. reflexivity. Qed.
