(* ===== verification/HostFs.v ===== *)
(** * Files of the host

    What the program uses of a file system: names with inodes behind them, so that hard
    links share contents and owners; symbolic links, which the kernel follows in every
    element of a path; subvolumes; and the calls of package [os] that make, change and
    remove files. Times are nanoseconds. *)

From Stdlib Require Import Strings.String.
From S2P Require Import GoSort Prelude GoStrings GoPath.

Abbreviation path := (list gostring).

Inductive kind := KDir (subvol : bool) | KFile (content : gostring) | KSymlink (target : gostring).
Record node := MkNode { n_kind : kind; n_mode : Z; n_uid : Z; n_gid : Z; n_mtime : Z }.

(** Names lead to inodes; [fs_next] is above every inode in use. *)
Record fs := MkFs { fs_names : gmap path N; fs_nodes : gmap N node; fs_next : N }.

#[export] Instance kind_eq_dec : EqDecision kind.
Proof. solve_decision. Defined.
#[export] Instance node_eq_dec : EqDecision node.
Proof. solve_decision. Defined.

(** What a path without symbolic links in it leads to. *)
Definition view (s : fs) (p : path) : option node := fs_names s !! p ≫= λ i, fs_nodes s !! i.

Definition is_dir (n : node) : bool := match n_kind n with KDir _ => true | _ => false end.
Definition dir_at (s : fs) (p : path) : bool := match view s p with Some n => is_dir n | None => false end.

Definition set_kind (k : kind) (n : node) : node := MkNode k (n_mode n) (n_uid n) (n_gid n) (n_mtime n).
Definition set_mode (m : Z) (n : node) : node := MkNode (n_kind n) m (n_uid n) (n_gid n) (n_mtime n).
Definition set_owner (u g : Z) (n : node) : node := MkNode (n_kind n) (n_mode n) u g (n_mtime n).
Definition set_mtime (t : Z) (n : node) : node := MkNode (n_kind n) (n_mode n) (n_uid n) (n_gid n) t.

(** ** Paths *)

Definition path_elems (s : gostring) : list gostring := filter (λ e, e ≠ [] ∧ e ≠ dot) (Split s slash).

(** The kernel's walk: every element but the last must be a directory, and at most
    [links] symbolic links are followed, the last one only if [follow] says so. The last
    element need not exist. *)
Fixpoint walk (s : fs) (follow : bool) (links : nat) : path → list gostring → option path :=
  fix go (cur : path) (rest : list gostring) : option path :=
    match rest with
    | [] => Some cur
    | e :: rest' =>
        if negb (dir_at s cur) then None
        else if bool_decide (e = dotdot) then go (take (length cur - 1) cur) rest'
        else
          match view s (cur ++ [e]) with
          | None => if bool_decide (rest' = []) then Some (cur ++ [e]) else None
          | Some n =>
              match n_kind n with
              | KSymlink t =>
                  if bool_decide (rest' = []) && negb follow then Some (cur ++ [e])
                  else match links with
                       | O => None
                       | S links' => walk s follow links' (if IsAbs t then [] else cur) (path_elems t ++ rest')
                       end
              | _ => go (cur ++ [e]) rest'
              end
          end
    end.

Definition max_links : nat := 40.
Definition resolve (s : fs) (follow : bool) (p : gostring) : option path := walk s follow max_links [] (path_elems p).

(** ** Calls *)

(** The umask and the time of the calls. *)
Record fs_env := MkFsEnv { umask : Z; clock : Z }.

Definition parent (p : path) : path := take (length p - 1) p.

Definition change (s : fs) (p : path) (f : node → node) : fs :=
  match fs_names s !! p with
  | Some i => MkFs (fs_names s) (alter f i (fs_nodes s)) (fs_next s)
  | None => s
  end.
(** An entry of a directory comes or goes. *)
Definition touch (env : fs_env) (s : fs) (p : path) : fs := change s (parent p) (set_mtime (clock env)).
Definition new_node (env : fs_env) (s : fs) (p : path) (k : kind) (mode : Z) : fs :=
  touch env (MkFs (<[p := fs_next s]> (fs_names s)) (<[fs_next s := MkNode k mode 0 0 (clock env)]> (fs_nodes s)) (fs_next s + 1)) p.

Definition children (s : fs) (p : path) : list gostring :=
  omap (λ q, match last q with Some e => if bool_decide (q = p ++ [e]) then Some e else None | None => None end)
    (map_to_list (fs_names s)).*1.

Section calls.
Context (env : fs_env).

(** [os.Stat], [os.Lstat]. *)
Definition Lstat (s : fs) (p : gostring) : option node := resolve s false p ≫= view s.
Definition Stat (s : fs) (p : gostring) : option node := resolve s true p ≫= view s.

Definition ReadFile (s : fs) (p : gostring) : option gostring :=
  Stat s p ≫= λ n, match n_kind n with KFile c => Some c | _ => None end.

(** [os.ReadDir], sorted by name. *)
Definition ReadDir (s : fs) (p : gostring) : option (list gostring) :=
  resolve s true p ≫= λ q, if dir_at s q then Some (sort_by_key id (children s q)) else None.

Definition Mkdir (s : fs) (p : gostring) (perm : Z) : fs * bool :=
  match resolve s false p with
  | Some q => match view s q with
              | Some _ => (s, false)
              | None => (new_node env s q (KDir false) (Z.land (Z.land perm 1023) (Z.lnot (umask env))), true)
              end
  | None => (s, false)
  end.

Definition stat_is_dir (s : fs) (p : gostring) : option bool := is_dir <$> Stat s p.

(** [os.MkdirAll] on a clean absolute path, given by its elements. *)
Fixpoint mkdir_all (s : fs) (done rest : list gostring) (perm : Z) : fs * bool :=
  match rest with
  | [] => (s, true)
  | e :: rest' =>
      let p := abs_path (done ++ [e]) in
      match stat_is_dir s p with
      | Some true => mkdir_all s (done ++ [e]) rest' perm
      | Some false => (s, false)
      | None =>
          let '(s1, ok) := Mkdir s p perm in
          if ok || match Lstat s1 p with Some n => is_dir n | None => false end
          then mkdir_all s1 (done ++ [e]) rest' perm else (s1, false)
      end
  end.
Definition MkdirAll (s : fs) (p : gostring) (perm : Z) : fs * bool :=
  match stat_is_dir s p with
  | Some b => (s, b)
  | None => mkdir_all s [] (path_elems p) perm
  end.

(** [os.Remove]: a file, a link or an empty directory. *)
Definition Remove (s : fs) (p : gostring) : fs * bool :=
  match resolve s false p with
  | Some q =>
      match view s q with
      | Some n =>
          if is_dir n && bool_decide (children s q ≠ []) then (s, false)
          else (touch env (MkFs (delete q (fs_names s)) (fs_nodes s) (fs_next s)) q, true)
      | None => (s, false)
      end
  | None => (s, false)
  end.

(** [os.RemoveAll]: everything at the path and below; nothing there is no error. *)
Definition RemoveAll (s : fs) (p : gostring) : fs * bool :=
  match resolve s false p with
  | Some q =>
      match view s q with
      | Some _ => (touch env (MkFs (filter (λ '(r, _), ¬ q `prefix_of` r) (fs_names s)) (fs_nodes s) (fs_next s)) q, true)
      | None => (s, true)
      end
  | None => (s, false)
  end.

(** Opened for writing, made if missing, truncated and written. *)
Definition CreateFile (s : fs) (p : gostring) (perm : Z) (content : gostring) : fs * bool :=
  match resolve s true p with
  | Some q =>
      match view s q with
      | Some n =>
          match n_kind n with
          | KFile _ => (change s q (λ n, set_mtime (clock env) (set_kind (KFile content) n)), true)
          | _ => (s, false)
          end
      | None => (new_node env s q (KFile content) (Z.land perm (Z.lnot (umask env))), true)
      end
  | None => (s, false)
  end.

Definition Symlink (s : fs) (target p : gostring) : fs * bool :=
  match resolve s false p with
  | Some q => match view s q with
              | Some _ => (s, false)
              | None => (new_node env s q (KSymlink target) 511, true)
              end
  | None => (s, false)
  end.

(** [os.Link] follows no link. *)
Definition Link (s : fs) (old new : gostring) : fs * bool :=
  match resolve s false old, resolve s false new with
  | Some o, Some q =>
      match fs_names s !! o, view s o, view s q with
      | Some i, Some n, None =>
          if is_dir n then (s, false)
          else (touch env (MkFs (<[q := i]> (fs_names s)) (fs_nodes s) (fs_next s)) q, true)
      | _, _, _ => (s, false)
      end
  | _, _ => (s, false)
  end.

Definition on_node (s : fs) (follow : bool) (p : gostring) (f : node → node) : fs * bool :=
  match resolve s follow p with
  | Some q => match view s q with Some _ => (change s q f, true) | None => (s, false) end
  | None => (s, false)
  end.
Definition Chmod (s : fs) (p : gostring) (mode : Z) : fs * bool := on_node s true p (set_mode mode).
Definition Chown (s : fs) (p : gostring) (uid gid : Z) : fs * bool := on_node s true p (set_owner uid gid).
Definition Lchown (s : fs) (p : gostring) (uid gid : Z) : fs * bool := on_node s false p (set_owner uid gid).
Definition Chtimes (s : fs) (p : gostring) (mtime : Z) : fs * bool := on_node s true p (set_mtime mtime).
Definition Lutimes (s : fs) (p : gostring) (mtime : Z) : fs * bool := on_node s false p (set_mtime mtime).
End calls.

(** ** Well-formed file systems *)

(** The root is a directory, what is below something is below a directory, and a
    directory has one name. *)
Record wf (s : fs) : Prop := {
  wf_root : dir_at s [] = true;
  wf_parent : ∀ p i, fs_names s !! p = Some i → p ≠ [] → dir_at s (parent p) = true;
  wf_node : ∀ p i, fs_names s !! p = Some i → is_Some (fs_nodes s !! i);
  wf_next : ∀ p i, fs_names s !! p = Some i → (i < fs_next s)%N;
  wf_one_name : ∀ p q i n, fs_names s !! p = Some i → fs_names s !! q = Some i →
    fs_nodes s !! i = Some n → is_dir n = true → p = q;
}.

Lemma view_names s p : wf s → view s p = None → fs_names s !! p = None.
Proof.
  intros Hwf. unfold view. destruct (fs_names s !! p) as [i|] eqn:Hi; [|done]. cbn.
  destruct (wf_node s Hwf p i Hi) as [n ->]. done.
Qed.
Lemma view_some s p n : view s p = Some n → ∃ i, fs_names s !! p = Some i ∧ fs_nodes s !! i = Some n.
Proof. unfold view. intros (i & ? & ?)%bind_Some. eauto. Qed.

Lemma dir_at_view s p : dir_at s p = true → ∃ n, view s p = Some n ∧ is_dir n = true.
Proof. unfold dir_at. destruct (view s p) as [n|]; [eauto|done]. Qed.

Lemma parent_snoc p e : parent (p ++ [e]) = p.
Proof.
  unfold parent. rewrite length_app. cbn [length]. replace (length p + 1 - 1)%nat with (length p) by lia.
  by rewrite take_app_length.
Qed.
Lemma parent_app p q : q ≠ [] → parent (p ++ q) = p ++ parent q.
Proof.
  intros Hq. destruct q as [|e q _] using rev_ind; [done|]. by rewrite app_assoc, !parent_snoc.
Qed.

(** What is above a directory is a directory. *)
Lemma dirs_above s p q : wf s → dir_at s (p ++ q) = true → dir_at s p = true.
Proof.
  intros Hwf. induction q as [|e q IH] using rev_ind; [by rewrite app_nil_r|]. rewrite app_assoc. intros Hd.
  apply IH. destruct (dir_at_view s _ Hd) as (n & Hn & _). destruct (view_some s _ n Hn) as (i & Hi & _).
  pose proof (wf_parent s Hwf _ i Hi) as Hp. rewrite parent_snoc in Hp. apply Hp. by destruct (p ++ q).
Qed.

(** ** Walking along directories *)

Lemma elems_of_abs es : Forall proper es → path_elems (abs_path es) = es.
Proof.
  intros Hes. unfold path_elems, abs_path. destruct (decide (es = [])) as [->|Hne]; [done|].
  rewrite Split_slash, Split_join_proper by done. rewrite filter_cons_False by (by intros []).
  induction Hes as [|e es [H1 [H2 _]] Hes IH]; [done|]. rewrite filter_cons_True by done.
  destruct es; [done|]. by rewrite IH.
Qed.

Lemma walk_along s follow links cur rest :
  Forall proper rest → (∀ k, (k < length rest)%nat → dir_at s (cur ++ take k rest) = true) →
  (follow = true → match view s (cur ++ rest) with Some n => ∀ t, n_kind n ≠ KSymlink t | None => True end) →
  walk s follow links cur rest = Some (cur ++ rest).
Proof.
  intros Hr. revert cur. induction Hr as [|e rest He Hr IH]; intros cur Hd Hf.
  { destruct links; cbn; by rewrite app_nil_r. }
  assert (Hcur : dir_at s cur = true) by (specialize (Hd 0%nat); rewrite app_nil_r in Hd; apply Hd; cbn; lia).
  assert (Hstep : walk s follow links cur (e :: rest) =
    match view s (cur ++ [e]) with
    | None => if bool_decide (rest = []) then Some (cur ++ [e]) else None
    | Some n => match n_kind n with
                | KSymlink t => if bool_decide (rest = []) && negb follow then Some (cur ++ [e])
                                else match links with
                                     | O => None
                                     | S links' => walk s follow links' (if IsAbs t then [] else cur) (path_elems t ++ rest)
                                     end
                | _ => walk s follow links (cur ++ [e]) rest
                end
    end).
  { destruct links; cbn [walk]; rewrite Hcur, bool_decide_eq_false_2 by apply He; done. }
  rewrite Hstep. clear Hstep. destruct rest as [|e' rest].
  - destruct (view s (cur ++ [e])) as [n|] eqn:Hn; [|done]. destruct (n_kind n) eqn:Hk; try (destruct links; done).
    rewrite bool_decide_eq_true_2 by done. destruct follow; [|done]. cbn. specialize (Hf eq_refl). by edestruct Hf.
  - assert (Hnext : dir_at s (cur ++ [e]) = true) by (apply (Hd 1%nat); cbn; lia).
    destruct (dir_at_view s _ Hnext) as (n & -> & Hdir). unfold is_dir in Hdir.
    destruct (n_kind n); try done.
    replace (cur ++ e :: e' :: rest) with ((cur ++ [e]) ++ e' :: rest) by (by rewrite <- app_assoc).
    apply IH.
    + intros k Hk. rewrite <- app_assoc. apply (Hd (S k)). cbn [length] in *. lia.
    + by rewrite <- app_assoc.
Qed.

Lemma resolve_below s follow p :
  wf s → Forall proper p → (p ≠ [] → dir_at s (parent p) = true) →
  (follow = true → match view s p with Some n => ∀ t, n_kind n ≠ KSymlink t | None => True end) →
  resolve s follow (abs_path p) = Some p.
Proof.
  intros Hwf Hp Hd Hf. unfold resolve. rewrite elems_of_abs by done.
  apply (walk_along s follow max_links []); [done| |done]. cbn [app]. intros k Hk.
  assert (Hne : p ≠ []) by (intros ->; cbn in Hk; lia).
  apply (dirs_above s _ (drop k (parent p)) Hwf). rewrite <- (Hd Hne). f_equal.
  transitivity (take k (parent p) ++ drop k (parent p)); [|apply take_drop]. f_equal.
  unfold parent. rewrite take_take. f_equal. lia.
Qed.
Lemma resolve_child s p :
  wf s → Forall proper p → p ≠ [] → dir_at s (parent p) = true → resolve s false (abs_path p) = Some p.
Proof. intros. by apply resolve_below. Qed.
Lemma dir_parent s p : wf s → dir_at s p = true → p ≠ [] → dir_at s (parent p) = true.
Proof.
  intros Hwf Hd Hne. destruct p as [|e p _] using rev_ind; [done|]. rewrite parent_snoc. by apply (dirs_above s p [e]).
Qed.
Lemma resolve_dir s follow p : wf s → Forall proper p → dir_at s p = true → resolve s follow (abs_path p) = Some p.
Proof.
  intros Hwf Hp Hd. apply resolve_below; [done|done|by apply dir_parent|]. intros _.
  destruct (dir_at_view s p Hd) as (n & -> & Hn). unfold is_dir in Hn. by destruct (n_kind n).
Qed.

(** ** What the calls change *)

Lemma above_exists s p q : wf s → is_Some (fs_names s !! (p ++ q)) → is_Some (fs_names s !! p).
Proof.
  intros Hwf [i Hi]. destruct (decide (q = [])) as [->|Hq]; [rewrite app_nil_r in Hi; by eexists|].
  assert (Hd : dir_at s (p ++ parent q) = true).
  { rewrite <- (parent_app p q Hq). apply (wf_parent s Hwf _ i Hi). by destruct p, q. }
  apply (dirs_above s p _ Hwf), dir_at_view in Hd as (n & Hn & _). destruct (view_some s p n Hn) as (j & Hj & _). by exists j.
Qed.

Lemma children_spec s p e : e ∈ children s p ↔ is_Some (fs_names s !! (p ++ [e])).
Proof.
  unfold children. rewrite list_elem_of_omap. split.
  - intros (q & Hq & He). destruct (last q) as [e'|]; [|done]. case_bool_decide as Heq; [|done]. injection He as ->. subst q.
    apply list_elem_of_fmap in Hq as ([q' i] & Heq & Hin). cbn in Heq. subst q'. apply elem_of_map_to_list in Hin. by exists i.
  - intros [i Hi]. exists (p ++ [e]). split.
    + apply list_elem_of_fmap. exists (p ++ [e], i). split; [done|]. by apply elem_of_map_to_list.
    + rewrite last_snoc. by rewrite bool_decide_eq_true_2.
Qed.

Lemma nothing_below s q r :
  wf s → (∀ e, fs_names s !! (q ++ [e]) = None) → q `prefix_of` r → is_Some (fs_names s !! r) → r = q.
Proof.
  intros Hwf Hq [x ->] Hr. destruct x as [|e x]; [by rewrite app_nil_r|]. exfalso.
  replace (q ++ e :: x) with ((q ++ [e]) ++ x) in Hr by (by rewrite <- app_assoc).
  apply (above_exists s _ _ Hwf) in Hr as [i Hi]. by rewrite Hq in Hi.
Qed.
Lemma no_children s q e : wf s → dir_at s q = false → fs_names s !! (q ++ [e]) = None.
Proof.
  intros Hwf Hd. destruct (fs_names s !! (q ++ [e])) as [i|] eqn:Hi; [|done].
  pose proof (wf_parent s Hwf _ i Hi) as Hp. rewrite parent_snoc in Hp. rewrite Hp in Hd; [done|]. by destruct q.
Qed.

Lemma change_names s p f : fs_names (change s p f) = fs_names s.
Proof. unfold change. by destruct (fs_names s !! p). Qed.

Lemma view_change s p f q :
  view (change s p f) q =
  if bool_decide (is_Some (fs_names s !! p) ∧ fs_names s !! q = fs_names s !! p) then f <$> view s q else view s q.
Proof.
  unfold view, change. destruct (fs_names s !! p) as [i|] eqn:Hi; cbn [fs_names fs_nodes].
  - destruct (fs_names s !! q) as [j|]; cbn; [|by case_bool_decide].
    destruct (decide (j = i)) as [->|Hne]; [rewrite lookup_alter_eq|rewrite lookup_alter_ne by done].
    + rewrite bool_decide_eq_true_2; [done|]. split; [by eexists|done].
    + rewrite bool_decide_eq_false_2; [done|]. intros [_ Heq]. congruence.
  - rewrite bool_decide_eq_false_2; [done|]. by intros [[] _].
Qed.

Definition keeps_kind (f : node → node) : Prop := ∀ n, is_dir (f n) = is_dir n.

Lemma dir_at_change s p f q : keeps_kind f → dir_at (change s p f) q = dir_at s q.
Proof. intros Hf. unfold dir_at. rewrite view_change. case_bool_decide; [|done]. destruct (view s q); [apply Hf|done]. Qed.

Lemma wf_change s p f : keeps_kind f → wf s → wf (change s p f).
Proof.
  intros Hf Hwf. split.
  - rewrite dir_at_change by done. apply Hwf.
  - intros q i. rewrite change_names, dir_at_change by done. apply Hwf.
  - intros q i. rewrite change_names. intros Hi. destruct (wf_node s Hwf q i Hi) as [n Hn].
    unfold change. destruct (fs_names s !! p) as [j|]; [|by exists n]. cbn [fs_nodes].
    destruct (decide (j = i)) as [->|]; [rewrite lookup_alter_eq, Hn|rewrite lookup_alter_ne by done]; by eexists.
  - intros q i. rewrite change_names. intros Hi. unfold change. destruct (fs_names s !! p); apply (wf_next s Hwf q i Hi).
  - intros q q' i n. rewrite change_names. intros Hq Hq' Hn Hd.
    destruct (wf_node s Hwf q i Hq) as [n0 Hn0]. apply (wf_one_name s Hwf q q' i n0 Hq Hq' Hn0).
    unfold change in Hn. destruct (fs_names s !! p) as [j|]; [|congruence]. cbn [fs_nodes] in Hn.
    destruct (decide (j = i)) as [->|Hne]; [rewrite lookup_alter_eq, Hn0 in Hn|rewrite (lookup_alter_ne _ _ _ _ Hne) in Hn; congruence].
    cbn in Hn. injection Hn as <-. by rewrite Hf in Hd.
Qed.

Lemma dir_same_name s p q :
  wf s → dir_at s p = true → fs_names s !! q = fs_names s !! p → q = p.
Proof.
  intros Hwf Hd Heq. destruct (dir_at_view s p Hd) as (n & Hn & Hdir). destruct (view_some s p n Hn) as (i & Hi & Hni).
  rewrite Hi in Heq. by apply (wf_one_name s Hwf q p i n).
Qed.

(** A directory has one name. *)
Lemma view_change_dir s p f q :
  wf s → dir_at s p = true → view (change s p f) q = if bool_decide (q = p) then f <$> view s q else view s q.
Proof.
  intros Hwf Hd. rewrite view_change. destruct (decide (q = p)) as [->|Hne].
  - rewrite !bool_decide_eq_true_2; [done|done|]. split; [|done].
    destruct (dir_at_view s p Hd) as (n & Hn & _). destruct (view_some s p n Hn) as (i & Hi & _). by exists i.
  - rewrite !bool_decide_eq_false_2; [done|done|]. intros [_ Heq]. by apply Hne, (dir_same_name s p q Hwf Hd).
Qed.
Lemma keeps_kind_mtime t : keeps_kind (set_mtime t). Proof. done. Qed.
Lemma keeps_kind_owner u g : keeps_kind (set_owner u g). Proof. done. Qed.
Lemma keeps_kind_mode m : keeps_kind (set_mode m). Proof. done. Qed.

Lemma view_touch env s p q :
  wf s → dir_at s (parent p) = true →
  view (touch env s p) q = if bool_decide (q = parent p) then set_mtime (clock env) <$> view s q else view s q.
Proof. intros. by apply view_change_dir. Qed.
Lemma wf_touch env s p : wf s → wf (touch env s p).
Proof. by apply wf_change. Qed.

(** A name that leads nowhere. *)
Lemma view_fresh s p i n q :
  view (MkFs (<[p := i]> (fs_names s)) (<[i := n]> (fs_nodes s)) (i + 1)) q =
  if bool_decide (q = p) then Some n
  else fs_names s !! q ≫= λ j, if bool_decide (j = i) then Some n else fs_nodes s !! j.
Proof.
  unfold view. cbn [fs_names fs_nodes]. case_bool_decide as Hq; [subst q|].
  - rewrite lookup_insert_eq. cbn. by rewrite lookup_insert_eq.
  - rewrite lookup_insert_ne by done. destruct (fs_names s !! q) as [j|]; [|done]. cbn.
    case_bool_decide as Hj; [subst j; by rewrite lookup_insert_eq|by rewrite lookup_insert_ne].
Qed.

Lemma parent_ne p : p ≠ [] → parent p ≠ p.
Proof. destruct p as [|e p _] using rev_ind; [done|]. rewrite parent_snoc. intros _ Heq%(f_equal length). rewrite length_app in Heq. cbn in Heq. lia. Qed.

Lemma view_names_only s names p : view (MkFs names (fs_nodes s) (fs_next s)) p = names !! p ≫= λ i, fs_nodes s !! i.
Proof. done. Qed.

(** One more name, for a new inode or one that is not a directory. *)
Lemma wf_insert s p i n nodes' next' :
  wf s → p ≠ [] → dir_at s (parent p) = true → view s p = None →
  nodes' !! i = Some n → (∀ q j, fs_names s !! q = Some j → nodes' !! j = fs_nodes s !! j) →
  (i < next')%N → (fs_next s ≤ next')%N → (is_dir n = false ∨ ∀ q, fs_names s !! q ≠ Some i) →
  wf (MkFs (<[p := i]> (fs_names s)) nodes' next').
Proof.
  intros Hwf Hp Hpar Hnone Hi Hold Hlt Hle Hdir.
  pose proof (view_names s p Hwf Hnone) as Hnn.
  assert (Hv : ∀ q, q ≠ p → view (MkFs (<[p := i]> (fs_names s)) nodes' next') q = view s q).
  { intros q Hq. unfold view. cbn. rewrite lookup_insert_ne by done. destruct (fs_names s !! q) as [j|] eqn:Hj; [|done]. by apply (Hold q). }
  assert (Hd : ∀ q, dir_at s q = true → dir_at (MkFs (<[p := i]> (fs_names s)) nodes' next') q = true).
  { intros q Hq. unfold dir_at in *. rewrite Hv; [done|]. intros ->. by rewrite Hnone in Hq. }
  split; cbn [fs_names fs_nodes fs_next].
  - apply Hd, Hwf.
  - intros q j Hj Hq. apply Hd. destruct (decide (q = p)) as [->|Hne]; [done|].
    rewrite lookup_insert_ne in Hj by done. by apply (wf_parent s Hwf q j).
  - intros q j Hj. apply lookup_insert_Some in Hj as [[_ <-]|[_ Hj]]; [by exists n|].
    rewrite (Hold q j Hj). by apply (wf_node s Hwf q).
  - intros q j Hj. apply lookup_insert_Some in Hj as [[_ <-]|[_ Hj]]; [done|]. pose proof (wf_next s Hwf q j Hj). lia.
  - intros q q' j m Hq Hq' Hm Hdm. apply lookup_insert_Some in Hq as [[<- <-]|[Hqp Hq]], Hq' as [[Hqp' Hq']|[Hqp' Hq']]; [done| | |].
    + destruct Hdir as [Hdir|Hdir]; [congruence|by apply Hdir in Hq'].
    + subst. destruct Hdir as [Hdir|Hdir]; [congruence|by apply Hdir in Hq].
    + rewrite (Hold q j Hq) in Hm. by apply (wf_one_name s Hwf q q' j m).
Qed.

Section effects.
Context (env : fs_env).

(** The names below a path go. *)
Definition without (s : fs) (q : path) : fs := MkFs (filter (λ '(r, _), ¬ q `prefix_of` r) (fs_names s)) (fs_nodes s) (fs_next s).

Lemma view_without s q r : view (without s q) r = if bool_decide (q `prefix_of` r) then None else view s r.
Proof.
  unfold view, without. cbn [fs_names fs_nodes]. rewrite map_lookup_filter. destruct (fs_names s !! r) as [i|]; cbn; [|by case_bool_decide].
  case_guard; case_bool_decide; done.
Qed.
Lemma without_names s q r i : fs_names (without s q) !! r = Some i → fs_names s !! r = Some i ∧ ¬ q `prefix_of` r.
Proof. unfold without. cbn [fs_names]. by intros [? ?]%map_lookup_filter_Some. Qed.

Lemma wf_without s q : wf s → q ≠ [] → wf (without s q).
Proof.
  intros Hwf Hq.
  assert (Hd : ∀ r, dir_at s r = true → ¬ q `prefix_of` r → dir_at (without s q) r = true).
  { intros r Hr Hn. unfold dir_at. by rewrite view_without, bool_decide_eq_false_2. }
  split.
  - apply Hd; [apply Hwf|]. intros [x Hx]. by destruct q.
  - intros p i [Hi Hn]%without_names Hp. apply Hd; [by apply (wf_parent s Hwf p i)|].
    intros Hpre. apply Hn. etransitivity; [exact Hpre|]. destruct p as [|e p _] using rev_ind; [done|].
    rewrite parent_snoc. by apply prefix_app_r.
  - intros p i [Hi _]%without_names. by apply (wf_node s Hwf p).
  - intros p i [Hi _]%without_names. by apply (wf_next s Hwf p).
  - intros p p' i n [Hi _]%without_names [Hi' _]%without_names. by apply (wf_one_name s Hwf).
Qed.

(** Whatever is at a path below [p] or at [p] is untouched by what happens elsewhere. *)
Definition with_parent (f : node → node) (p q : path) (o : option node) : option node :=
  if bool_decide (q = parent p) then f <$> o else o.
Definition stamped : path → path → option node → option node := with_parent (set_mtime (clock env)).

Lemma new_node_spec s p k mode :
  wf s → p ≠ [] → dir_at s (parent p) = true → view s p = None →
  let s' := new_node env s p k mode in
  wf s' ∧ (∀ q, view s' q = if bool_decide (q = p) then Some (MkNode k mode 0 0 (clock env)) else stamped p q (view s q)) ∧
  (∀ q, fs_names s' !! q = fs_names s' !! p → q = p).
Proof.
  intros Hwf Hp Hd Hn. cbn zeta. unfold new_node.
  set (nd := MkNode k mode 0 0 (clock env)).
  set (s1 := MkFs (<[p := fs_next s]> (fs_names s)) (<[fs_next s := nd]> (fs_nodes s)) (fs_next s + 1)).
  assert (Hold : ∀ q j, fs_names s !! q = Some j → <[fs_next s := nd]> (fs_nodes s) !! j = fs_nodes s !! j).
  { intros q j Hj. rewrite lookup_insert_ne; [done|]. pose proof (wf_next s Hwf q j Hj). lia. }
  assert (Hnew : ∀ q, fs_names s !! q ≠ Some (fs_next s)).
  { intros q Hj. pose proof (wf_next s Hwf q _ Hj). lia. }
  assert (Hwf1 : wf s1).
  { apply (wf_insert s p (fs_next s) nd); try done; [apply lookup_insert_eq|lia|lia|by right]. }
  assert (Hv1 : ∀ q, view s1 q = if bool_decide (q = p) then Some nd else view s q).
  { intros q. unfold s1. rewrite view_fresh. case_bool_decide; [done|]. unfold view.
    destruct (fs_names s !! q) as [j|] eqn:Hj; [|done]. cbn. rewrite bool_decide_eq_false_2; [done|]. intros ->. by apply (Hnew q). }
  assert (Hd1 : dir_at s1 (parent p) = true).
  { unfold dir_at. rewrite Hv1, bool_decide_eq_false_2 by (by apply parent_ne). exact Hd. }
  split_and!.
  - by apply wf_touch.
  - intros q. rewrite (view_touch env s1 p q Hwf1 Hd1), !Hv1. unfold stamped, with_parent.
    destruct (decide (q = p)) as [->|Hne]; [|by rewrite !(bool_decide_eq_false_2 (q = p))].
    rewrite (bool_decide_eq_true_2 (p = p)) by done. rewrite bool_decide_eq_false_2; [done|]. intros Heq. by apply (parent_ne p).
  - intros q. unfold touch. rewrite change_names. unfold s1. cbn [fs_names]. rewrite lookup_insert_eq.
    destruct (decide (q = p)) as [->|Hne]; [done|]. rewrite lookup_insert_ne by done. intros Hj. by apply Hnew in Hj.
Qed.

Lemma without_spec s p :
  wf s → p ≠ [] → dir_at s (parent p) = true →
  let s' := touch env (without s p) p in
  wf s' ∧ ∀ q, view s' q = if bool_decide (p `prefix_of` q) then None else stamped p q (view s q).
Proof.
  intros Hwf Hp Hd. cbn zeta. pose proof (wf_without s p Hwf Hp) as Hwf1.
  assert (Hnp : ¬ p `prefix_of` parent p).
  { intros [x Hx]. apply (f_equal length) in Hx. rewrite length_app in Hx. unfold parent in Hx. rewrite length_take in Hx.
    destruct p; [done|]. cbn in Hx. lia. }
  assert (Hd1 : dir_at (without s p) (parent p) = true) by (unfold dir_at; by rewrite view_without, bool_decide_eq_false_2).
  split; [by apply wf_touch|]. intros q. rewrite (view_touch env _ p q Hwf1 Hd1), view_without. unfold stamped, with_parent.
  case_bool_decide as Hpre; [|done]. by case_bool_decide.
Qed.

(** A file or link is removed like everything below it. *)
Lemma delete_without s p n :
  wf s → view s p = Some n → is_dir n = false →
  MkFs (delete p (fs_names s)) (fs_nodes s) (fs_next s) = without s p.
Proof.
  intros Hwf Hn Hd. unfold without. f_equal. apply map_eq. intros r. destruct (decide (r = p)) as [->|Hne].
  - rewrite lookup_delete_eq. symmetry. apply map_lookup_filter_None. right. intros i _ Hi. by apply Hi.
  - rewrite lookup_delete_ne by done. destruct (fs_names s !! r) as [i|] eqn:Hi.
    + symmetry. apply map_lookup_filter_Some. split; [done|]. intros Hpre. apply Hne.
      apply (nothing_below s p r Hwf); [|done|by exists i]. intros e. apply no_children; [done|]. unfold dir_at. by rewrite Hn.
    + symmetry. apply map_lookup_filter_None. by left.
Qed.
End effects.

(** ** Calls on plain paths *)

Section plain.
Context (env : fs_env) (s : fs) (p : path).
Hypothesis Hwf : wf s.
Hypothesis Hp : Forall proper p.
Hypothesis Hne : p ≠ [].
Hypothesis Hpar : dir_at s (parent p) = true.

Lemma resolve_new : view s p = None → ∀ follow, resolve s follow (abs_path p) = Some p.
Proof. intros Hn follow. apply resolve_below; try done. by rewrite Hn. Qed.
Lemma resolve_file n c : view s p = Some n → n_kind n = KFile c → ∀ follow, resolve s follow (abs_path p) = Some p.
Proof. intros Hn Hk follow. apply resolve_below; try done. by rewrite Hn, Hk. Qed.

Lemma RemoveAll_plain :
  RemoveAll env s (abs_path p) = (match view s p with Some _ => touch env (without s p) p | None => s end, true).
Proof. unfold RemoveAll. rewrite (resolve_child s p) by done. by destruct (view s p). Qed.
Lemma Remove_plain :
  match view s p with
  | Some n => is_dir n = false → Remove env s (abs_path p) = (touch env (without s p) p, true)
  | None => Remove env s (abs_path p) = (s, false)
  end.
Proof.
  unfold Remove. rewrite (resolve_child s p) by done. destruct (view s p) as [n|] eqn:Hn; [|done].
  intros Hd. rewrite Hd. cbn [andb]. by rewrite (delete_without s p n).
Qed.
Lemma CreateFile_new perm content :
  view s p = None → CreateFile env s (abs_path p) perm content = (new_node env s p (KFile content) (Z.land perm (Z.lnot (umask env))), true).
Proof. intros Hn. unfold CreateFile. by rewrite resolve_new, Hn. Qed.
Lemma Symlink_new target :
  view s p = None → Symlink env s target (abs_path p) = (new_node env s p (KSymlink target) 511, true).
Proof. intros Hn. unfold Symlink. by rewrite resolve_new, Hn. Qed.
Lemma Mkdir_new perm :
  view s p = None →
  Mkdir env s (abs_path p) perm = (new_node env s p (KDir false) (Z.land (Z.land perm 1023) (Z.lnot (umask env))), true).
Proof. intros Hn. unfold Mkdir. by rewrite resolve_new, Hn. Qed.

Lemma stat_dir q : Forall proper q → dir_at s q = true → stat_is_dir s (abs_path q) = Some true.
Proof.
  intros Hq Hd. unfold stat_is_dir, Stat. rewrite (resolve_dir s true q) by done. cbn.
  destruct (dir_at_view s q Hd) as (n & -> & Hn). cbn. by rewrite Hn.
Qed.
Lemma MkdirAll_there q perm : Forall proper q → dir_at s q = true → MkdirAll env s (abs_path q) perm = (s, true).
Proof. intros Hq Hd. unfold MkdirAll. by rewrite stat_dir. Qed.

Lemma mkdir_all_along done rest more perm :
  Forall proper (done ++ rest) → dir_at s (done ++ rest) = true →
  mkdir_all env s done (rest ++ more) perm = mkdir_all env s (done ++ rest) more perm.
Proof.
  revert done. induction rest as [|e rest IH]; intros done Hd Hdir; [by rewrite app_nil_r|]. cbn [app mkdir_all].
  assert (Heq : done ++ e :: rest = (done ++ [e]) ++ rest) by (by rewrite <- app_assoc).
  rewrite Heq in *. rewrite stat_dir; [by apply IH|by apply Forall_app in Hd as [? _]|by apply (dirs_above s _ rest)].
Qed.
Lemma stat_none : view s p = None → stat_is_dir s (abs_path p) = None.
Proof. intros Hn. unfold stat_is_dir, Stat. rewrite (resolve_new Hn). exact (eq_trans (f_equal _ Hn) eq_refl). Qed.
Lemma MkdirAll_new perm :
  view s p = None →
  MkdirAll env s (abs_path p) perm = (new_node env s p (KDir false) (Z.land (Z.land perm 1023) (Z.lnot (umask env))), true).
Proof.
  intros Hn. unfold MkdirAll. rewrite (stat_none Hn), elems_of_abs by done. pose proof (Mkdir_new perm Hn) as Hmk.
  pose proof (stat_none Hn) as Hst. clear Hn. destruct p as [|e q _] using rev_ind; [done|]. rewrite parent_snoc in Hpar.
  pose proof Hp as Hpq. apply Forall_app in Hpq as [Hq _].
  rewrite (mkdir_all_along [] q [e]) by done. cbn [app mkdir_all]. by rewrite Hst, Hmk.
Qed.

(** Changing what a path leads to. *)
Lemma on_node_plain follow f n :
  view s p = Some n → (follow = true → ∀ t, n_kind n ≠ KSymlink t) →
  on_node s follow (abs_path p) f = (change s p f, true).
Proof.
  intros Hn Hk. unfold on_node. rewrite resolve_below; [by rewrite Hn|done|done|done|]. intros Hf. rewrite Hn. by apply Hk.
Qed.
End plain.

(** A change that changes nothing, of an inode with any number of names. *)
Lemma change_same s p f n q : view s p = Some n → f n = n → view (change s p f) q = view s q.
Proof.
  intros Hn Hf. rewrite view_change. case_bool_decide as Heq; [|done]. destruct Heq as [_ Heq].
  unfold view in *. rewrite Heq. destruct (fs_names s !! p) as [i|]; [|done]. cbn in *. rewrite Hn. cbn. by rewrite Hf.
Qed.
Lemma view_change_alone s p f q :
  (∀ r, fs_names s !! r = fs_names s !! p → r = p) →
  view (change s p f) q = if bool_decide (q = p) then f <$> view s q else view s q.
Proof.
  intros Ha. rewrite view_change. destruct (decide (q = p)) as [->|Hne].
  - rewrite (bool_decide_eq_true_2 (p = p)) by done. case_bool_decide as Hb; [done|]. unfold view.
    destruct (fs_names s !! p) as [i|]; [|done]. destruct Hb. split; [by eexists|done].
  - rewrite !bool_decide_eq_false_2; [done|done|]. intros [_ Heq]. by apply Hne, Ha.
Qed.
