(* ===== verification/Footprint.v ===== *)
(** * What calls leave alone

    A call on a path changes what is at the path, perhaps what is below it, and the times
    of the directory above. [leaves A] says that two file systems differ only at the paths
    in [A], the times of directories aside; the lemmas below give it for the calls of [HostFs] whose path leads
    through no symbolic link. *)

From Stdlib Require Import Strings.String.
From S2P Require Import GoSort Prelude GoStrings GoPath HostFs.

(** A node without its time. *)
Definition undated (o : option node) : option node := set_mtime 0 <$> o.

Lemma undated_dir s s' q : undated (view s' q) = undated (view s q) → dir_at s' q = dir_at s q.
Proof. unfold dir_at, undated. destruct (view s' q) as [n'|], (view s q) as [n|]; cbn; try done. by intros [= Hk _ _ _]; unfold is_dir; rewrite Hk. Qed.
Lemma undated_none o : undated o = None ↔ o = None.
Proof. by destruct o. Qed.
Lemma undated_mtime t o : undated (set_mtime t <$> o) = undated o.
Proof. by destruct o. Qed.
Lemma undated_stamped env p q o : undated (stamped env p q o) = undated o.
Proof. unfold stamped, with_parent. case_bool_decide; [apply undated_mtime|done]. Qed.
(** Directories alone are stamped. *)
Lemma stamped_file env s p q n :
  dir_at s (parent p) = true → view s q = Some n → is_dir n = false → stamped env p q (view s q) = Some n.
Proof.
  intros Hd Hn Hf. unfold stamped, with_parent. rewrite bool_decide_eq_false_2; [done|]. intros ->. unfold dir_at in Hd. rewrite Hn, Hf in Hd. done.
Qed.
Lemma undated_kind o o' n : undated o = undated o' → o = Some n → ∃ n', o' = Some n' ∧ n_kind n' = n_kind n.
Proof. intros Ho ->. destruct o' as [n'|]; [|done]. exists n'. split; [done|]. by injection Ho. Qed.

(** ** Differences within a set of paths *)

Record leaves (A : path → Prop) (s s' : fs) : Prop := {
  lv_wf : wf s';
  lv_next : (fs_next s ≤ fs_next s')%N;
  lv_names : ∀ q, ¬ A q → fs_names s' !! q = fs_names s !! q;
  lv_new : ∀ q i, fs_names s' !! q = Some i → fs_names s !! q = Some i ∨ (fs_next s ≤ i)%N;
  lv_view : ∀ q, ¬ A q → undated (view s' q) = undated (view s q);
  lv_files : ∀ q n, ¬ A q → view s q = Some n → is_dir n = false → view s' q = Some n;
}.

(** No other name leads to the inode. *)
Definition alone (s : fs) (p : path) : Prop := ∀ r, is_Some (fs_names s !! p) → fs_names s !! r = fs_names s !! p → r = p.

Section leaves.
Implicit Types (A B : path → Prop) (s : fs).

Lemma leaves_refl A s : wf s → leaves A s s.
Proof. intros Hwf. split; try done. by left. Qed.
Lemma leaves_trans A s1 s2 s3 : leaves A s1 s2 → leaves A s2 s3 → leaves A s1 s3.
Proof.
  intros [H1 H2 H3 H4 H5 H6] [G1 G2 G3 G4 G5 G6]. split; [done|lia| | | |].
  - intros q Hq. by rewrite G3, H3.
  - intros q i [Hi|Hi]%G4; [by apply H4|right; lia].
  - intros q Hq. by rewrite G5, H5.
  - intros q n Hq Hn Hd. apply G6; [done|by apply H6|done].
Qed.
Lemma leaves_weaken A B s s' : (∀ q, A q → B q) → leaves A s s' → leaves B s s'.
Proof. intros HAB [H1 H2 H3 H4 H5 H6]. split; auto. Qed.

Lemma leaves_dir A s s' q : leaves A s s' → ¬ A q → dir_at s' q = dir_at s q.
Proof. intros Hl Hq. by apply undated_dir, (lv_view A s s'). Qed.
Lemma leaves_none A s s' q : leaves A s s' → ¬ A q → view s q = None → view s' q = None.
Proof. intros Hl Hq Hn. apply undated_none. rewrite (lv_view A s s' Hl q Hq). by apply undated_none. Qed.
Lemma leaves_alone A s s' q : wf s → leaves A s s' → ¬ A q → alone s q → alone s' q.
Proof.
  intros Hwf Hl Hq Ha r [i Hi] Hr. rewrite Hi in Hr. rewrite (lv_names A s s' Hl q Hq) in Hi.
  destruct (lv_new A s s' Hl r i Hr) as [Hr'|Hge]; [apply Ha; [by exists i|by rewrite Hi]|].
  pose proof (wf_next s Hwf q i Hi). lia.
Qed.

(** What the operations on inodes leave alone. *)
Lemma leaves_change A s p f :
  wf s → keeps_kind f →
  (∀ q n, fs_names s !! q = fs_names s !! p → view s q = Some n → A q ∨ set_mtime 0 (f n) = set_mtime 0 n ∧ (is_dir n = false → f n = n)) →
  leaves A s (change s p f).
Proof.
  intros Hwf Hf HA. split.
  - by apply wf_change.
  - unfold change. by destruct (fs_names s !! p).
  - intros q _. by rewrite change_names.
  - intros q i. rewrite change_names. by left.
  - intros q Hq. rewrite view_change. case_bool_decide as Heq; [|done]. destruct (view s q) as [n|] eqn:Hn; [|done].
    destruct (HA q n) as [?|[Ht _]]; [apply Heq|done|done|]. cbn. by rewrite Ht.
  - intros q n Hq Hn Hd. rewrite view_change. case_bool_decide as Heq; [|done].
    destruct (HA q n) as [?|[_ Ht]]; [apply Heq|done|done|]. rewrite Hn. cbn. by rewrite Ht.
Qed.
Lemma leaves_alone_change A s p f : wf s → keeps_kind f → alone s p → A p → leaves A s (change s p f).
Proof.
  intros Hwf Hf Ha Hp. apply leaves_change; [done|done|]. intros q n Hq Hn. left. destruct (view_some s q n Hn) as (i & Hi & _).
  rewrite (Ha q); [done|by rewrite <- Hq, Hi|done].
Qed.
Lemma alone_change s p f q : alone s q → alone (change s p f) q.
Proof. unfold alone. by rewrite change_names. Qed.
Lemma leaves_new_node A env s p k mode :
  wf s → p ≠ [] → dir_at s (parent p) = true → view s p = None → A p →
  let s' := new_node env s p k mode in
  leaves A s s' ∧ alone s' p ∧ view s' p = Some (MkNode k mode 0 0 (clock env)).
Proof.
  intros Hwf Hp Hd Hn HA. destruct (new_node_spec env s p k mode Hwf Hp Hd Hn) as (Hwf' & Hv & Ha). cbn zeta.
  split; [split|split].
  - done.
  - unfold new_node, touch, change. cbn [fs_names fs_next]. destruct (_ !! parent p); cbn [fs_next]; lia.
  - intros q Hq. unfold new_node, touch. rewrite change_names. cbn [fs_names]. rewrite lookup_insert_ne; [done|]. by intros ->.
  - intros q i. unfold new_node, touch. rewrite change_names. cbn [fs_names].
    intros [[_ <-]|[_ Hi]]%lookup_insert_Some; [right; lia|by left].
  - intros q Hq. rewrite Hv, bool_decide_eq_false_2 by (by intros ->). apply undated_stamped.
  - intros q n Hq Hnq Hdq. rewrite Hv, bool_decide_eq_false_2 by (by intros ->). by apply stamped_file.
  - intros r _. apply Ha.
  - rewrite Hv. by rewrite bool_decide_eq_true_2.
Qed.

Lemma leaves_without A env s p :
  wf s → p ≠ [] → dir_at s (parent p) = true → (∀ q, p `prefix_of` q → A q) →
  let s' := touch env (without s p) p in leaves A s s' ∧ ∀ x, view s' (p ++ x) = None.
Proof.
  intros Hwf Hp Hd HA. destruct (without_spec env s p Hwf Hp Hd) as [Hwf' Hv]. cbn zeta. split; [split|].
  - done.
  - unfold touch, change, without. cbn [fs_names fs_next]. by destruct (_ !! parent p).
  - intros q Hq. unfold touch. rewrite change_names. unfold without. cbn [fs_names]. rewrite map_lookup_filter.
    destruct (fs_names s !! q); cbn; [|done]. case_guard as Hg; [done|]. exfalso. by apply Hq, HA.
  - intros q i. unfold touch. rewrite change_names. intros [Hi _]%without_names. by left.
  - intros q Hq. rewrite Hv, bool_decide_eq_false_2 by (intros Hpre; by apply Hq, HA). apply undated_stamped.
  - intros q n Hq Hnq Hdq. rewrite Hv, bool_decide_eq_false_2 by (intros Hpre; by apply Hq, HA). by apply stamped_file.
  - intros x. rewrite Hv. rewrite bool_decide_eq_true_2; [done|]. by apply prefix_app_r.
Qed.
End leaves.

(** ** Calls on paths without symbolic links *)

Definition plain_node (o : option node) : Prop := match o with Some n => ∀ t, n_kind n ≠ KSymlink t | None => True end.
Lemma plain_undated o o' : undated o = undated o' → plain_node o → plain_node o'.
Proof. intros Ho Hp. destruct o' as [n'|]; [|done]. destruct o as [n|]; [|done]. injection Ho as Hk _ _ _. cbn in *. by rewrite <- Hk. Qed.

Lemma walk_plain s follow rest : ∀ links cur q,
  Forall proper rest → (∀ k, (0 < k ≤ length rest)%nat → plain_node (view s (cur ++ take k rest))) →
  walk s follow links cur rest = Some q → q = cur ++ rest ∧ (rest ≠ [] → dir_at s (parent q) = true).
Proof.
  induction rest as [|e rest IH]; intros links cur q Hr Hp Hw.
  { destruct links; cbn in Hw; injection Hw as <-; by rewrite app_nil_r. }
  apply Forall_cons_1 in Hr as [He Hr]. pose proof (Hp 1%nat ltac:(cbn; lia)) as H1. cbn [take] in H1. rewrite take_0 in H1.
  assert (Hstep : walk s follow links cur (e :: rest) =
    if negb (dir_at s cur) then None else
    match view s (cur ++ [e]) with
    | None => if bool_decide (rest = []) then Some (cur ++ [e]) else None
    | Some n => walk s follow links (cur ++ [e]) rest
    end).
  { assert (He' : bool_decide (e = dotdot) = false) by (apply bool_decide_eq_false_2; apply He).
    destruct links; cbn [walk]; rewrite He'; destruct (negb (dir_at s cur)); try done;
      destruct (view s (cur ++ [e])) as [n|]; try done; cbn in H1; destruct (n_kind n) as [| |t]; try done; by destruct (H1 t). }
  rewrite Hstep in Hw. destruct (dir_at s cur) eqn:Hcur; [|done]. cbn [negb] in Hw.
  destruct (view s (cur ++ [e])) as [n|].
  - apply IH in Hw as [-> Hd]; [|done|].
    + rewrite <- app_assoc in *. split; [done|]. intros _. destruct (decide (rest = [])) as [->|Hne]; [|by apply Hd]. cbn [app]. by rewrite parent_snoc.
    + intros k Hk. rewrite <- app_assoc. apply (Hp (S k)). cbn [length]. lia.
  - case_bool_decide; [|done]. subst. injection Hw as <-. split; [done|]. by rewrite parent_snoc.
Qed.

(** The paths a component works on: those of [X] below [base]. *)
Record sealed (base : path) (X : list path) (s : fs) : Prop := {
  sl_wf : wf s;
  sl_base : dir_at s base = true;
  sl_plain : ∀ x, x ∈ X → plain_node (view s (base ++ x));
  sl_alone : ∀ x, x ∈ X → alone s (base ++ x);
}.
Definition works_on (X : list path) : Prop :=
  Forall (λ x, x ≠ [] ∧ Forall proper x ∧ ∀ k, (0 < k ≤ length x)%nat → take k x ∈ X) X.
Definition among (base : path) (X : list path) (q : path) : Prop := ∃ x, x ∈ X ∧ q = base ++ x.

(** A call that stays among the paths keeps them sealed. *)
Definition stays (base : path) (X : list path) (s s' : fs) : Prop := leaves (among base X) s s' ∧ sealed base X s'.

Section calls.
Context (env : fs_env) (base : path) (X : list path).
Hypothesis Hbase : Forall proper base.
Hypothesis HX : works_on X.

Lemma stays_refl s : sealed base X s → stays base X s s.
Proof. intros Hs. split; [|done]. apply leaves_refl, Hs. Qed.
Lemma stays_trans s1 s2 s3 : stays base X s1 s2 → stays base X s2 s3 → stays base X s1 s3.
Proof. intros [H1 _] [H2 H3]. split; [by eapply leaves_trans|done]. Qed.

Lemma base_not_among : ¬ among base X base.
Proof.
  intros (x & Hx & Heq). rewrite <- (app_nil_r base) in Heq at 1. apply app_inv_head in Heq as <-.
  unfold works_on in HX. rewrite Forall_forall in HX. by apply HX in Hx as [? _].
Qed.

Section one.
Context (s : fs) (x : path).
Hypothesis Hs : sealed base X s.
Hypothesis Hx : x ∈ X.

Lemma works : x ≠ [] ∧ Forall proper x ∧ ∀ k, (0 < k ≤ length x)%nat → take k x ∈ X.
Proof. unfold works_on in HX. rewrite Forall_forall in HX. by apply HX. Qed.
Lemma works_proper : Forall proper (base ++ x).
Proof. apply Forall_app. split; [done|]. apply works. Qed.
Lemma works_ne : base ++ x ≠ [].
Proof. destruct works as [Hne _]. by destruct base, x. Qed.

Lemma resolve_among follow q : resolve s follow (abs_path (base ++ x)) = Some q → q = base ++ x ∧ dir_at s (parent (base ++ x)) = true.
Proof.
  unfold resolve. rewrite elems_of_abs by apply works_proper. intros Hw.
  apply walk_plain in Hw as [-> Hd]; [split; [done|by apply Hd, works_ne]|apply works_proper|]. intros k Hk. cbn [app] in *. destruct (decide (k ≤ length base)%nat) as [Hle|Hgt].
  - rewrite take_app_le by done. pose proof (dirs_above s (take k base) (drop k base) (sl_wf _ _ _ Hs)) as Hd.
    rewrite take_drop in Hd. destruct (dir_at_view s _ (Hd (sl_base _ _ _ Hs))) as (n & Hn & Hdir). rewrite Hn. cbn.
    unfold is_dir in Hdir. by destruct (n_kind n).
  - rewrite take_app_ge by lia. apply (sl_plain _ _ _ Hs). apply works. rewrite length_app in Hk. lia.
Qed.

Lemma new_stays k mode :
  (∀ t, k ≠ KSymlink t) → dir_at s (parent (base ++ x)) = true → view s (base ++ x) = None →
  stays base X s (new_node env s (base ++ x) k mode).
Proof.
  intros Hk Hd Hn. destruct (leaves_new_node (among base X) env s (base ++ x) k mode (sl_wf _ _ _ Hs) works_ne Hd Hn) as (Hl & Ha & Hv); [by exists x|].
  split; [done|]. split.
  - apply Hl.
  - rewrite (leaves_dir _ _ _ _ Hl base_not_among). apply Hs.
  - intros y Hy. destruct (new_node_spec env s (base ++ x) k mode (sl_wf _ _ _ Hs) works_ne Hd Hn) as (_ & Hv' & _).
    rewrite Hv'. case_bool_decide; [done|]. apply (plain_undated (view s (base ++ y))); [by rewrite undated_stamped|]. by apply (sl_plain _ _ _ Hs).
  - intros y Hy. destruct (decide (base ++ y = base ++ x)) as [->|Hne]; [done|].
    destruct (leaves_new_node (eq (base ++ x)) env s (base ++ x) k mode (sl_wf _ _ _ Hs) works_ne Hd Hn) as (Hl' & _ & _); [done|].
    apply (leaves_alone _ _ _ _ (sl_wf _ _ _ Hs) Hl'); [by intros Heq|]. by apply (sl_alone _ _ _ Hs).
Qed.

Lemma change_stays f :
  keeps_kind f → (∀ n, (∀ t, n_kind n ≠ KSymlink t) → ∀ t, n_kind (f n) ≠ KSymlink t) → stays base X s (change s (base ++ x) f).
Proof.
  intros Hf Hpl. pose proof (leaves_alone_change (among base X) s (base ++ x) f (sl_wf _ _ _ Hs) Hf (sl_alone _ _ _ Hs x Hx) ltac:(by exists x)) as Hl.
  split; [done|]. split.
  - apply Hl.
  - rewrite (leaves_dir _ _ _ _ Hl base_not_among). apply Hs.
  - intros y Hy. rewrite view_change. pose proof (sl_plain _ _ _ Hs y Hy) as Hp. case_bool_decide; [|done].
    destruct (view s (base ++ y)) as [n|]; [|done]. cbn in *. by apply Hpl.
  - intros y Hy. apply alone_change. by apply (sl_alone _ _ _ Hs).
Qed.

Lemma on_node_stays follow f :
  keeps_kind f → (∀ n, n_kind (f n) = n_kind n) → stays base X s (on_node s follow (abs_path (base ++ x)) f).1.
Proof.
  intros Hf Hk. unfold on_node. destruct (resolve _ _ _) as [q|] eqn:Hr; [|by apply stays_refl]. apply resolve_among in Hr as [-> _].
  destruct (view s (base ++ x)); [|by apply stays_refl]. cbn [fst]. apply change_stays; [done|]. intros n0 Hn t. by rewrite Hk.
Qed.

Lemma CreateFile_stays perm c : stays base X s (CreateFile env s (abs_path (base ++ x)) perm c).1.
Proof.
  unfold CreateFile. destruct (resolve _ _ _) as [q|] eqn:Hr; [|by apply stays_refl]. apply resolve_among in Hr as [-> Hd].
  destruct (view s (base ++ x)) as [n|] eqn:Hn.
  - destruct (n_kind n) as [|c0|t] eqn:Hk; try (by apply stays_refl). cbn [fst].
    (* the contents of a file that is there *)
    assert (Hf : change s (base ++ x) (λ n, set_mtime (clock env) (set_kind (KFile c) n)) =
                 change s (base ++ x) (λ n, if is_dir n then n else set_mtime (clock env) (set_kind (KFile c) n))).
    { unfold change, view in *. destruct (fs_names s !! (base ++ x)) as [i|]; [|done]. cbn in Hn. f_equal. apply map_eq. intros j.
      destruct (decide (i = j)) as [<-|Hne]; [|by rewrite !lookup_alter_ne]. rewrite !lookup_alter_eq, Hn. cbn. unfold is_dir. by rewrite Hk. }
    rewrite Hf. apply change_stays.
    + intros n0. destruct (is_dir n0) eqn:Hd0; [done|]. done.
    + intros n0 Hn0 t. by destruct (is_dir n0).
  - cbn [fst]. by apply new_stays.
Qed.
Lemma Mkdir_stays perm : stays base X s (Mkdir env s (abs_path (base ++ x)) perm).1.
Proof.
  unfold Mkdir. destruct (resolve _ _ _) as [q|] eqn:Hr; [|by apply stays_refl]. apply resolve_among in Hr as [-> Hd].
  destruct (view s (base ++ x)) as [n|] eqn:Hn; [by apply stays_refl|]. by apply new_stays.
Qed.
End one.

Lemma mkdir_all_stays rest : ∀ done s perm,
  sealed base X s → done ++ rest ∈ X → stays base X s (mkdir_all env s (base ++ done) rest perm).1.
Proof.
  induction rest as [|e rest IH]; intros done s perm Hs Hx; [by apply stays_refl|]. cbn [mkdir_all].
  assert (Hy : done ++ [e] ∈ X).
  { destruct (works _ Hx) as (_ & _ & Ht). specialize (Ht (length done + 1)%nat). rewrite length_app in Ht. cbn [length] in Ht.
    replace (take _ _) with (done ++ [e]) in Ht; [apply Ht; lia|]. rewrite take_app_add'  by done. cbn. by rewrite take_0. }
  rewrite <- app_assoc. destruct (stat_is_dir s _) as [[]|].
  - apply IH; [done|]. by rewrite <- app_assoc.
  - by apply stays_refl.
  - pose proof (Mkdir_stays s _ Hs Hy perm) as Hm. destruct (Mkdir env s (abs_path (base ++ done ++ [e])) perm) as [s1 ok]. cbn [fst] in Hm.
    case_match; [|done]. eapply stays_trans; [exact Hm|]. apply IH; [apply Hm|]. by rewrite <- app_assoc.
Qed.
Lemma MkdirAll_stays s x perm : sealed base X s → x ∈ X → stays base X s (MkdirAll env s (abs_path (base ++ x)) perm).1.
Proof.
  intros Hs Hx. unfold MkdirAll. destruct (stat_is_dir s _) as [b|]; [by apply stays_refl|]. rewrite elems_of_abs by (by apply works_proper).
  rewrite (mkdir_all_along env s (sl_wf _ _ _ Hs) [] base x); [|done|apply Hs]. cbn [app].
  rewrite <- (app_nil_r base) at 2. by apply mkdir_all_stays.
Qed.

(** A file goes, before another takes its place. *)
Lemma delete_stays s x :
  sealed base X s → x ∈ X → dir_at s (base ++ x) = false →
  let s' := MkFs (delete (base ++ x) (fs_names s)) (fs_nodes s) (fs_next s) in
  stays base X s s' ∧ view s' (base ++ x) = None ∧ (dir_at s (parent (base ++ x)) = true → dir_at s' (parent (base ++ x)) = true).
Proof.
  intros Hs Hx Hd. cbn zeta. set (q := base ++ x) in *. set (s' := MkFs _ _ _).
  assert (Hne : q ≠ []) by (exact (works_ne s x Hs Hx)).
  assert (Hs' : s' = without s q ∨ s' = s).
  { destruct (view s q) as [n|] eqn:Hn.
    - left. apply (delete_without s q n); [apply Hs|done|]. unfold dir_at in Hd. by rewrite Hn in Hd.
    - right. unfold s'. rewrite delete_id by (apply view_names; [apply Hs|done]). by destruct s. }
  assert (Hv : ∀ r, view s' r = if decide (r = q) then None else view s r).
  { intros r. unfold s', view. cbn [fs_names fs_nodes]. case_decide as Hr; [subst; by rewrite lookup_delete_eq|]. by rewrite lookup_delete_ne. }
  assert (Hwf : wf s') by (destruct Hs' as [->| ->]; [apply wf_without; [apply Hs|done]|apply Hs]).
  assert (Hin : ∀ r, ¬ among base X r → r ≠ q) by (intros r Hr ->; apply Hr; by exists x).
  split; [|split].
  - split; split.
    + done.
    + done.
    + intros r Hr. unfold s'. cbn [fs_names]. apply lookup_delete_ne. intros ->. by apply (Hin r).
    + intros r i. unfold s'. cbn [fs_names]. intros [_ Hi]%lookup_delete_Some. by left.
    + intros r Hr. rewrite Hv. rewrite decide_False by (by apply Hin). done.
    + intros r n Hr Hn Hdr. rewrite Hv. rewrite decide_False by (by apply Hin). done.
    + done.
    + unfold dir_at. rewrite Hv, decide_False by (apply Hin, base_not_among; done). apply Hs.
    + intros y Hy. rewrite Hv. case_decide; [done|]. by apply (sl_plain _ _ _ Hs).
    + intros y Hy r [i Hi] Hr. unfold s' in *. cbn [fs_names] in *. rewrite Hi in Hr. apply lookup_delete_Some in Hi as [Hne1 Hi], Hr as [_ Hr].
      apply (sl_alone _ _ _ Hs y Hy); [by exists i|by rewrite Hi].
  - rewrite Hv. by rewrite decide_True.
  - intros Hpd. unfold dir_at. rewrite Hv, decide_False by (by apply parent_ne). exact Hpd.
Qed.
End calls.

(** ** Deciding it on small file systems *)

Definition wf_check (s : fs) : bool :=
  dir_at s [] &&
  bool_decide (map_Forall (λ (p : path) i,
    (p = [] ∨ dir_at s (parent p) = true) ∧ is_Some (fs_nodes s !! i) ∧ (i < fs_next s)%N ∧
    map_Forall (λ (q : path) j, j = i → is_dir <$> fs_nodes s !! i = Some true → p = q) (fs_names s)) (fs_names s)).
Lemma wf_checked s : wf_check s = true → wf s.
Proof.
  unfold wf_check. intros [Hr Hm%bool_decide_eq_true_1]%andb_true_iff. split; [done|..].
  - intros p i Hi Hp. destruct (Hm p i Hi) as [[?|?] _]; done.
  - intros p i Hi. apply (Hm p i Hi).
  - intros p i Hi. apply (Hm p i Hi).
  - intros p q i n Hi Hj Hn Hd. destruct (Hm p i Hi) as (_ & _ & _ & Ha). specialize (Ha q i Hj eq_refl). apply Ha. by rewrite Hn; cbn; rewrite Hd.
Qed.
Definition alone_check (s : fs) (p : path) : bool :=
  bool_decide (map_Forall (λ (r : path) i, fs_names s !! p = Some i → r = p) (fs_names s)).
Lemma alone_checked s p : alone_check s p = true → alone s p.
Proof. intros Hc%bool_decide_eq_true_1 r [i Hi] Hr. apply (Hc r i); congruence. Qed.

(** Every path with an inode of its own. *)
Definition fs_of (l : list (path * node)) : fs :=
  let names := imap (λ i x, (x.1, N.of_nat i)) l in
  MkFs (list_to_map names) (list_to_map (imap (λ i x, (N.of_nat i, x.2)) l)) (N.of_nat (length l)).
