(* ===== verification/Subvols.v ===== *)
(** * Subvolumes on the files of the host ([src/btrfsutil/btrfsutil.go])

    The package runs the [btrfs] command; what the command does to the files is a
    parameter, whose documented behaviour is stated for plain paths. Below is a model of
    the command that behaves so: a snapshot has new inodes for all that is in the original,
    shared as there, and empty directories for the subvolumes inside it. *)

From Stdlib Require Import Strings.String.
From S2P Require Import GoSort Prelude GoStrings GoPath HostFs Footprint.

(** ** The package *)

(** The [btrfs] command: its arguments, what becomes of the files, and whether it
    succeeded. *)
Class Btrfs := exec_btrfs : fs → list gostring → fs * bool.

Section package.
Context `{Btrfs}.
Definition Run (s : fs) (args : list gostring) : fs * bool := exec_btrfs s args.
(** An error counts as no. *)
Definition IsSubvolume (s : fs) (p : gostring) : bool := (exec_btrfs s [bs "subvolume"; bs "show"; p]).2.
Definition CreateSubvol (s : fs) (p : gostring) : fs * bool := Run s [bs "subvolume"; bs "create"; p].
Definition DeleteSubvol (s : fs) (p : gostring) : fs * bool := Run s [bs "subvolume"; bs "delete"; p].
Definition Snapshot (s : fs) (src dst : gostring) (readonly : bool) : fs * bool :=
  Run s ([bs "subvolume"; bs "snapshot"] ++ (if readonly then [bs "-r"] else []) ++ [src; dst]).
End package.

(** ** What is in a snapshot *)

Definition is_subvol (n : node) : bool := match n_kind n with KDir b => b | _ => false end.

Definition strip (p q : path) : option path :=
  if bool_decide (p `prefix_of` q) then Some (drop (length p) q) else None.

(** The names below a directory, relative to it. *)
Definition subtree (s : fs) (src : path) : gmap path N :=
  list_to_map (omap (λ x, (λ r, (r, x.2)) <$> strip src x.1) (map_to_list (fs_names s))).

(** A path that leads through another subvolume. *)
Definition nested (s : fs) (src x : path) : bool :=
  existsb (λ k, match view s (src ++ take k x) with Some n => is_subvol n | None => false end) (seq 1 (length x - 1)).

(** The copy of a node: another subvolume becomes an empty directory. *)
Definition placeholder (clock : Z) : node := MkNode (KDir false) 493 0 0 clock.
Definition copy_node (clock : Z) (root : bool) (n : node) : node :=
  if is_subvol n && negb root then placeholder clock else n.

(** What the copy of the subvolume [src] has at a path below it. *)
Definition copied (env : fs_env) (s : fs) (src x : path) : option node :=
  if nested s src x then None else copy_node (clock env) (bool_decide (x = [])) <$> view s (src ++ x).
Definition new_subvol (env : fs_env) : node := MkNode (KDir true) (Z.land 511 (Z.lnot (umask env))) 0 0 (clock env).

Definition below (p q : path) : Prop := p `prefix_of` q.
(** A path under which something can be made. *)
Record free (s : fs) (p : path) : Prop := {
  fr_proper : Forall proper p; fr_ne : p ≠ []; fr_parent : dir_at s (parent p) = true; fr_none : view s p = None;
}.

(** The commands on plain paths, times aside. *)
Class BtrfsSpec (env : fs_env) `{Btrfs} : Prop := {
  show_there s p n : wf s → Forall proper p → view s p = Some n → is_dir n = true → IsSubvolume s (abs_path p) = is_subvol n;
  show_free s p : wf s → free s p → IsSubvolume s (abs_path p) = false;
  create_free s p : wf s → free s p →
    ∃ s', CreateSubvol s (abs_path p) = (s', true) ∧ leaves (below p) s s' ∧
      ∀ y, undated (view s' (p ++ y)) = if bool_decide (y = []) then undated (Some (new_subvol env)) else None;
  snapshot_free s src dst n : wf s → Forall proper src → view s src = Some n → is_subvol n = true → free s dst →
    ∃ s', Snapshot s (abs_path src) (abs_path dst) false = (s', true) ∧ leaves (below dst) s s' ∧
      (∀ x, undated (view s' (dst ++ x)) = undated (copied env s src x)) ∧
      ∀ x, alone s (src ++ x) → alone s' (dst ++ x);
}.

(** ** A model of the command *)

Section model.
Context (env : fs_env).
Definition run_show (s : fs) (p : gostring) : bool := match Stat s p with Some n => is_subvol n | None => false end.
Definition run_create (s : fs) (p : gostring) : fs * bool :=
  match resolve s false p with
  | Some q => if bool_decide (is_Some (view s q)) then (s, false) else (new_node env s q (KDir true) (Z.land 511 (Z.lnot (umask env))), true)
  | None => (s, false)
  end.
Definition run_delete (s : fs) (p : gostring) : fs * bool :=
  match resolve s true p with
  | Some q =>
      if negb (match view s q with Some n => is_subvol n | None => false end)
         || existsb (λ x, bool_decide (q `prefix_of` x.1 ∧ x.1 ≠ q) && match view s x.1 with Some n => is_subvol n | None => false end)
              (map_to_list (fs_names s))
      then (s, false) else (touch env (without s q) q, true)
  | None => (s, false)
  end.

(** The subvolume at [src] is copied to the free path [dst]. *)
Definition copy_subvol (s : fs) (src dst : path) : fs :=
  let names := (N.add (fs_next s)) <$> filter (λ '(x, _), nested s src x = false) (subtree s src) in
  let root := fs_names s !! src in
  let nodes := map_imap (λ i n, Some (copy_node (clock env) (bool_decide (root = Some i)) n)) (fs_nodes s) in
  touch env (MkFs (kmap (app dst) names ∪ fs_names s) (kmap (N.add (fs_next s)) nodes ∪ fs_nodes s) (2 * fs_next s)) dst.
(** Into a directory that is there, under the name of the source, or to a new name. *)
Definition run_snapshot (s : fs) (src dst : gostring) : fs * bool :=
  match resolve s true src, resolve s true dst with
  | Some from, Some to =>
      let to := if dir_at s to then match last from with Some e => to ++ [e] | None => to end else to in
      if negb (match view s from with Some n => is_subvol n | None => false end) || bool_decide (is_Some (view s to))
      then (s, false) else (copy_subvol s from to, true)
  | _, _ => (s, false)
  end.

Definition model_btrfs : Btrfs := λ s args,
  match args with
  | [_; cmd; p] =>
      if bool_decide (cmd = bs "show") then (s, run_show s p)
      else if bool_decide (cmd = bs "create") then run_create s p
      else if bool_decide (cmd = bs "delete") then run_delete s p
      else (s, false)
  | [_; _; src; dst] => run_snapshot s src dst
  | [_; _; p; _; _] => (s, run_show s p)       (* a property is set *)
  | _ => (s, false)
  end.
End model.

(** ** Lemmas *)

Lemma strip_app p x : strip p (p ++ x) = Some x.
Proof. unfold strip. rewrite bool_decide_eq_true_2 by (by apply prefix_app_r). by rewrite drop_app_length. Qed.
Lemma strip_some p q x : strip p q = Some x ↔ q = p ++ x.
Proof.
  split; [|intros ->; apply strip_app]. unfold strip. case_bool_decide as Hp; [|done]. destruct Hp as [y ->].
  rewrite drop_app_length. by intros [= ->].
Qed.
Lemma strip_none p q : strip p q = None ↔ ¬ p `prefix_of` q.
Proof. unfold strip. case_bool_decide; done. Qed.

Lemma lookup_subtree s src x : subtree s src !! x = fs_names s !! (src ++ x).
Proof.
  unfold subtree. set (l := omap _ _).
  assert (Hin : ∀ y i, (y, i) ∈ l ↔ fs_names s !! (src ++ y) = Some i).
  { intros y i. unfold l. rewrite list_elem_of_omap. split.
    - intros ([q j] & Hq & Heq). cbn in Heq. destruct (strip src q) as [r|] eqn:Hr; [|done]. cbn in Heq. injection Heq as -> ->.
      apply strip_some in Hr as ->. by apply elem_of_map_to_list in Hq.
    - intros Hi. exists (src ++ y, i). split; [by apply elem_of_map_to_list|]. cbn. by rewrite strip_app. }
  assert (Hnd : NoDup l.*1).
  { unfold l. clear. pose proof (NoDup_fst_map_to_list (fs_names s)) as Hn. induction (map_to_list (fs_names s)) as [|[q i] m IH]; cbn; [by apply NoDup_nil|].
    apply NoDup_cons in Hn as [Hq Hn]. destruct (strip src q) as [r|] eqn:Hr; cbn; [|by apply IH].
    apply NoDup_cons. split; [|by apply IH]. intros Hin. apply Hq. apply list_elem_of_fmap in Hin as ([r' j] & -> & Hin).
    apply list_elem_of_omap in Hin as ([q' j'] & Hq' & Heq). cbn in *. destruct (strip src q') as [r''|] eqn:Hr'; [|done]. cbn in Heq.
    injection Heq as -> ->. apply strip_some in Hr as ->, Hr' as ->. apply list_elem_of_fmap. by exists (src ++ r', j). }
  destruct (fs_names s !! (src ++ x)) as [i|] eqn:Hi.
  - apply elem_of_list_to_map_1; [done|]. by apply Hin.
  - apply not_elem_of_list_to_map_1. intros Hx. apply list_elem_of_fmap in Hx as ([y i] & -> & Hy). apply Hin in Hy. cbn in Hi. by rewrite Hi in Hy.
Qed.

Section copy.
Context (env : fs_env) (s : fs) (src dst : path).
Hypothesis Hwf : wf s.
Hypothesis Hsrc : ∃ n, view s src = Some n ∧ is_subvol n = true.
Hypothesis Hdst : dst ≠ [].
Hypothesis Hpar : dir_at s (parent dst) = true.
Hypothesis Hfree : view s dst = None.

#[local] Abbreviation copied := (copied env s src).

Let names : gmap path N := (N.add (fs_next s)) <$> filter (λ '(x, _), nested s src x = false) (subtree s src).
Let nodes : gmap N node :=
  kmap (N.add (fs_next s)) (map_imap (λ i n, Some (copy_node (clock env) (bool_decide (fs_names s !! src = Some i)) n)) (fs_nodes s)) ∪ fs_nodes s.
Let s1 : fs := MkFs (kmap (app dst) names ∪ fs_names s) nodes (2 * fs_next s).

#[local] Instance inj_app (d : path) : Inj (=) (=) (app d).
Proof. intros x y. apply app_inv_head. Qed.
#[local] Instance inj_add (k : N) : Inj (=) (=) (N.add k).
Proof. intros x y. lia. Qed.

Lemma dst_nothing x : fs_names s !! (dst ++ x) = None.
Proof.
  destruct (fs_names s !! (dst ++ x)) as [i|] eqn:Hi; [|done]. exfalso.
  destruct (above_exists s dst x Hwf) as [j Hj]; [by exists i|]. apply view_names in Hfree; [|done]. congruence.
Qed.
Lemma names_copied x : (kmap (app dst) names : gmap path N) !! (dst ++ x) = names !! x.
Proof. apply lookup_kmap. apply _. Qed.
Lemma names_elsewhere q : ¬ dst `prefix_of` q → (kmap (app dst) names : gmap path N) !! q = None.
Proof.
  intros Hq. apply lookup_kmap_None; [apply _|]. intros x ->. exfalso. apply Hq. by apply prefix_app_r.
Qed.
Lemma names_lookup x : names !! x = if nested s src x then None else N.add (fs_next s) <$> fs_names s !! (src ++ x).
Proof.
  unfold names. rewrite lookup_fmap, map_lookup_filter, lookup_subtree. destruct (fs_names s !! (src ++ x)) as [i|]; cbn; [|by destruct (nested _ _ _)].
  case_guard as Hn; cbn; [by rewrite Hn|]. by destruct (nested s src x).
Qed.

Lemma old_nodes i : (i < fs_next s)%N → nodes !! i = fs_nodes s !! i.
Proof.
  intros Hi. unfold nodes. apply lookup_union_r. apply lookup_kmap_None; [apply _|]. intros j Hj. lia.
Qed.
Lemma new_nodes i : is_Some (fs_nodes s !! i) →
  nodes !! (fs_next s + i)%N = copy_node (clock env) (bool_decide (fs_names s !! src = Some i)) <$> fs_nodes s !! i.
Proof.
  intros [n Hn]. unfold nodes. erewrite lookup_union_Some_l; [|rewrite lookup_kmap by apply _; rewrite map_lookup_imap, Hn; done]. by rewrite Hn.
Qed.

Lemma view_s1 q : view s1 q = match strip dst q with Some x => copied x | None => view s q end.
Proof.
  unfold view, s1. cbn [fs_names fs_nodes]. destruct (strip dst q) as [x|] eqn:Hs.
  - apply strip_some in Hs as ->. 
    assert (Hl : (kmap (app dst) names ∪ fs_names s : gmap path N) !! (dst ++ x) = names !! x).
    { destruct (names !! x) as [j|] eqn:Hj; [by apply lookup_union_Some_l; rewrite names_copied|].
      rewrite lookup_union_r; [apply dst_nothing|by rewrite names_copied]. }
    rewrite Hl, names_lookup. unfold copied. destruct (nested s src x); [done|]. unfold view.
    destruct (fs_names s !! (src ++ x)) as [i|] eqn:Hi; [|done]. cbn [mbind option_bind fmap option_fmap option_map].
    destruct (wf_node s Hwf _ i Hi) as [n Hn]. rewrite new_nodes by (by exists n). rewrite Hn. cbn. do 2 f_equal.
    destruct Hsrc as (m & Hm & Hsub). destruct (view_some s src m Hm) as (k & Hk & Hkn). rewrite Hk. apply bool_decide_ext. split.
    + intros [= ->]. rewrite Hn in Hkn. injection Hkn as ->. symmetry. apply (app_inv_head src). rewrite app_nil_r.
      apply (wf_one_name s Hwf _ _ i m); [done|done|done|]. unfold is_subvol in Hsub. unfold is_dir. by destruct (n_kind m).
    + intros ->. rewrite app_nil_r in Hi. congruence.
  - apply strip_none in Hs. rewrite lookup_union_r by (by apply names_elsewhere).
    destruct (fs_names s !! q) as [i|] eqn:Hi; [|done]. cbn. apply old_nodes. by apply (wf_next s Hwf q).
Qed.

Lemma copy_is_dir r n : is_dir (copy_node (clock env) r n) = is_dir n.
Proof. unfold copy_node, is_subvol, is_dir. destruct (n_kind n) as [[]| |] eqn:Hk, r; cbn; by rewrite ?Hk. Qed.

Lemma nested_parent x : nested s src x = false → nested s src (parent x) = false.
Proof.
  unfold nested. intros Hn. apply not_true_is_false. intros (k & Hk & Hv)%existsb_exists. apply in_seq in Hk.
  assert (Hlen : length (parent x) = (length x - 1)%nat) by (unfold parent; rewrite length_take; lia). rewrite Hlen in Hk.
  apply not_true_iff_false in Hn. apply Hn. apply existsb_exists. exists k. split; [apply in_seq; lia|].
  assert (Ht : take k (parent x) = take k x) by (unfold parent; rewrite take_take; f_equal; lia). by rewrite Ht in Hv.
Qed.

(** The names of the copy and those that were there. *)
Lemma s1_names p j :
  fs_names s1 !! p = Some j →
  (∃ x i, p = dst ++ x ∧ j = (fs_next s + i)%N ∧ fs_names s !! (src ++ x) = Some i ∧ nested s src x = false) ∨
  (¬ dst `prefix_of` p ∧ fs_names s !! p = Some j).
Proof.
  unfold s1. cbn [fs_names]. destruct (strip dst p) as [x|] eqn:Hs.
  - apply strip_some in Hs as ->. intros [Hk|[_ Ho]]%lookup_union_Some_raw; [|by rewrite dst_nothing in Ho].
    rewrite names_copied, names_lookup in Hk. destruct (nested s src x) eqn:Hn; [done|].
    apply fmap_Some in Hk as (i & Hi & ->). left. by exists x, i.
  - apply strip_none in Hs. rewrite lookup_union_r by (by apply names_elsewhere). by right.
Qed.

Lemma wf_s1 : wf s1.
Proof.
  assert (Hd : ∀ q, ¬ dst `prefix_of` q → dir_at s q = true → dir_at s1 q = true).
  { intros q Hq Hd. unfold dir_at. rewrite view_s1. apply strip_none in Hq. by rewrite Hq. }
  split.
  - apply Hd; [|apply Hwf]. intros [x Hx]. by destruct dst.
  - intros p j [(x & i & -> & _ & Hi & Hn)|[Hp Hi]]%s1_names Hne.
    + destruct (decide (x = [])) as [->|Hx].
      * rewrite app_nil_r. apply Hd; [|done]. intros [y Hy]. apply (f_equal length) in Hy. rewrite length_app in Hy.
        unfold parent in Hy. rewrite length_take in Hy. destruct dst; [done|]. cbn in Hy. lia.
      * rewrite parent_app by done. unfold dir_at. rewrite view_s1, strip_app. unfold copied. rewrite nested_parent by done.
        pose proof (wf_parent s Hwf _ i Hi) as Hpd. rewrite parent_app in Hpd by done. specialize (Hpd ltac:(by destruct src, x)).
        destruct (dir_at_view s _ Hpd) as (n & -> & Hdir). cbn. by rewrite copy_is_dir.
    + apply Hd; [|by apply (wf_parent s Hwf p j)]. intros Hpre. apply Hp. etransitivity; [exact Hpre|].
      destruct p as [|e p _] using rev_ind; [done|]. rewrite parent_snoc. by apply prefix_app_r.
  - intros p j [(x & i & -> & -> & Hi & Hn)|[Hp Hi]]%s1_names; unfold s1; cbn [fs_nodes].
    + destruct (wf_node s Hwf _ i Hi) as [n Hin]. rewrite new_nodes by (by exists n). rewrite Hin. by eexists.
    + rewrite old_nodes by (by apply (wf_next s Hwf p)). by apply (wf_node s Hwf p).
  - intros p j [(x & i & -> & -> & Hi & Hn)|[Hp Hi]]%s1_names; unfold s1; cbn [fs_next]; pose proof (wf_next s Hwf _ _ Hi); lia.
  - intros p q j m Hp Hq Hm Hdir. apply s1_names in Hp, Hq. unfold s1 in Hm. cbn [fs_nodes] in Hm.
    destruct Hp as [(x & i & -> & -> & Hi & Hn)|[Hp Hi]], Hq as [(y & i' & -> & Heq & Hi' & Hn')|[Hq Hi']].
    + f_equal. apply (app_inv_head src). assert (i' = i) as -> by lia. destruct (wf_node s Hwf _ i Hi) as [n Hin].
      rewrite new_nodes in Hm by (by exists n). rewrite Hin in Hm. cbn in Hm. injection Hm as <-. rewrite copy_is_dir in Hdir.
      by apply (wf_one_name s Hwf _ _ i n).
    + pose proof (wf_next s Hwf _ _ Hi'). lia.
    + subst. pose proof (wf_next s Hwf _ _ Hi). lia.
    + rewrite old_nodes in Hm by (by apply (wf_next s Hwf p)). by apply (wf_one_name s Hwf p q j m).
Qed.

Lemma copy_subvol_spec :
  let s' := copy_subvol env s src dst in
  wf s' ∧ ∀ q, view s' q = match strip dst q with Some x => copied x | None => stamped env dst q (view s q) end.
Proof.
  cbn zeta. change (copy_subvol env s src dst) with (touch env s1 dst).
  assert (Hnb : ¬ dst `prefix_of` parent dst).
  { intros [y Hy]. apply (f_equal length) in Hy. rewrite length_app in Hy. unfold parent in Hy. rewrite length_take in Hy.
    destruct dst; [done|]. cbn in Hy. lia. }
  assert (Hd1 : dir_at s1 (parent dst) = true) by (unfold dir_at; rewrite view_s1, (proj2 (strip_none _ _) Hnb); exact Hpar).
  split; [apply wf_touch, wf_s1|]. intros q. rewrite (view_touch env s1 dst q wf_s1 Hd1), view_s1. unfold stamped, with_parent.
  destruct (strip dst q) as [x|] eqn:Hs; [|done]. rewrite bool_decide_eq_false_2; [done|]. intros ->.
  apply strip_some in Hs. apply Hnb. rewrite Hs. by apply prefix_app_r.
Qed.

Lemma view_copy x : view (copy_subvol env s src dst) (dst ++ x) = copied x.
Proof. rewrite (proj2 copy_subvol_spec), strip_app. done. Qed.

(** The copy is all that is new. *)
Lemma leaves_copy : leaves (below dst) s (copy_subvol env s src dst).
Proof.
  destruct copy_subvol_spec as [Hwf' Hv]. change (copy_subvol env s src dst) with (touch env s1 dst) in *. split; [done|..].
  - unfold touch, change, s1. cbn [fs_names fs_next]. destruct (_ !! parent dst); cbn [fs_next]; lia.
  - intros q Hq. unfold touch. rewrite change_names. unfold s1. cbn [fs_names]. apply lookup_union_r. by apply names_elsewhere.
  - intros q i. unfold touch. rewrite change_names. intros [(x & j & -> & -> & _)|[_ Hi]]%s1_names; [right; lia|by left].
  - intros q Hq. rewrite Hv, (proj2 (strip_none _ _) Hq). apply undated_stamped.
  - intros q n Hq Hn Hd. rewrite Hv, (proj2 (strip_none _ _) Hq). by apply (stamped_file env s dst q).
Qed.
(** Names of the copy share an inode when those of the original do. *)
Lemma alone_copy x : alone s (src ++ x) → alone (copy_subvol env s src dst) (dst ++ x).
Proof.
  change (copy_subvol env s src dst) with (touch env s1 dst). intros Ha. apply alone_change. intros r [j Hj] Hr. rewrite Hj in Hr.
  apply s1_names in Hj as [(y & i & Hy & -> & Hi & _)|[Hn _]]; [|by destruct Hn; apply prefix_app_r]. apply app_inv_head in Hy as <-.
  apply s1_names in Hr as [(z & k & -> & Hk & Hi' & _)|[_ Hi']].
  - f_equal. apply (app_inv_head src), Ha; [by exists i|]. rewrite Hi, Hi'. f_equal. lia.
  - pose proof (wf_next s Hwf _ _ Hi'). lia.
Qed.
End copy.

(** A copy of what is the same but for times. *)
Lemma copied_undated env s s' src x :
  (∀ q, src `prefix_of` q → undated (view s' q) = undated (view s q)) → undated (copied env s' src x) = undated (copied env s src x).
Proof.
  intros Hv. assert (Hsub : ∀ q, src `prefix_of` q → match view s' q with Some n => is_subvol n | None => false end = match view s q with Some n => is_subvol n | None => false end).
  { intros q Hq. specialize (Hv q Hq). unfold undated in Hv. destruct (view s' q), (view s q); try done. injection Hv as Hk _ _ _. unfold is_subvol. by rewrite Hk. }
  unfold copied. assert (Hn : nested s' src x = nested s src x).
  { unfold nested. induction (seq _ _) as [|k l IH]; [done|]. cbn [existsb]. by rewrite Hsub, IH by (by apply prefix_app_r). }
  rewrite Hn. destruct (nested s src x); [done|]. pose proof (Hsub (src ++ x) (prefix_app_r _ _ _ ltac:(done))) as Hs1.
  specialize (Hv (src ++ x) (prefix_app_r _ _ _ ltac:(done))). unfold undated in Hv. destruct (view s' (src ++ x)) as [n'|], (view s (src ++ x)) as [n|]; try done.
  cbn. unfold copy_node. rewrite Hs1. by destruct (is_subvol n && _).
Qed.

(** ** The model behaves as documented *)

Lemma copied_root env s src n : view s src = Some n → is_subvol n = true → copied env s src [] = Some n.
Proof. intros Hn Hs. unfold copied. cbn [nested seq length Nat.sub existsb]. rewrite app_nil_r, Hn. cbn. unfold copy_node. by rewrite Hs. Qed.

Lemma new_below env s q k mode :
  wf s → free s q →
  let s' := new_node env s q k mode in
  leaves (below q) s s' ∧ ∀ y, view s' (q ++ y) = if bool_decide (y = []) then Some (MkNode k mode 0 0 (clock env)) else None.
Proof.
  intros Hwf [_ Hq Hd Hn]. cbn zeta. destruct (leaves_new_node (eq q) env s q k mode Hwf Hq Hd Hn) as (Hl & _ & Hv); [done|].
  split; [eapply leaves_weaken; [|exact Hl]; intros r <-; by exists []; rewrite app_nil_r|]. intros y. case_bool_decide as Hy; [subst; by rewrite app_nil_r|].
  apply (leaves_none _ _ _ _ Hl); [intros Heq; apply Hy; by apply (app_inv_head q); rewrite app_nil_r|].
  destruct (view s (q ++ y)) as [n|] eqn:Hqy; [|done]. exfalso. destruct (view_some s _ n Hqy) as (i & Hi & _).
  destruct (above_exists s q y Hwf) as [j Hj]; [by exists i|]. apply view_names in Hn; [congruence|done].
Qed.

Lemma model_spec env : @BtrfsSpec env (model_btrfs env).
Proof.
  split.
  - intros s p n Hwf Hp Hn Hd. change (run_show s (abs_path p) = is_subvol n). unfold run_show, Stat.
    rewrite (resolve_dir s true p); [|done|done|unfold dir_at; by rewrite Hn]. cbn [mbind option_bind]. by rewrite Hn.
  - intros s p Hwf [Hp _ Hpar Hn]. change (run_show s (abs_path p) = false). unfold run_show, Stat.
    rewrite (resolve_new s p) by done. cbn [mbind option_bind]. by rewrite Hn.
  - intros s p Hwf Hf. change (CreateSubvol s (abs_path p)) with (run_create env s (abs_path p)). unfold run_create.
    rewrite (resolve_child s p) by (done || apply Hf). rewrite (fr_none _ _ Hf), bool_decide_eq_false_2 by (by intros []).
    eexists. split; [reflexivity|]. destruct (new_below env s p (KDir true) (Z.land 511 (Z.lnot (umask env))) Hwf Hf) as [Hl Hv]. split; [done|].
    intros y. rewrite Hv. by case_bool_decide.
  - intros s src dst n Hwf Hsrc Hn Hsub [Hdp Hdn Hdd Hdf]. change (Snapshot s (abs_path src) (abs_path dst) false) with (run_snapshot env s (abs_path src) (abs_path dst)).
    unfold run_snapshot. assert (Hd : dir_at s src = true).
    { unfold dir_at. rewrite Hn. unfold is_subvol in Hsub. unfold is_dir. by destruct (n_kind n). }
    rewrite (resolve_dir s true src) by done. rewrite (resolve_new s dst) by done.
    assert (Hnd : dir_at s dst = false) by (unfold dir_at; by rewrite Hdf). rewrite Hnd, Hn, Hsub, Hdf. cbn [orb negb].
    rewrite bool_decide_eq_false_2 by (by intros []). eexists. split; [reflexivity|]. split_and!.
    + apply leaves_copy; first [done|by exists n].
    + intros x. by rewrite view_copy by first [done|by exists n].
    + intros x. apply alone_copy; first [done|by exists n].
Qed.
