(* ===== verification/SubdirSnap.v ===== *)
(** * A directory as a snap ([src/snapsubdir/snapsubdir.go])

    A snapshot of a whole subvolume is pruned to one of its directories, whose contents
    move to the root of the snapshot: here on the files of the host ([HostFs], [Subvols]),
    with [os.Rename] and the recursive removal that also deletes subvolumes. *)

From Stdlib Require Import Strings.String.
From S2P Require Import GoSort Prelude GoStrings GoPath HostFs Footprint Subvols.
From S2P Require SnapQueue.

(** ** Renaming *)

(** The subvolume a path is in: the nearest one at the path or above. *)
Definition volume_of (s : fs) (p : path) : path :=
  default [] (last (filter (λ q, match view s q with Some n => is_subvol n | None => false end = true)
    ((λ k, take k p) <$> seq 0 (S (length p))))).

(** What is at [old] and below is then at [new]. *)
Definition moved (s : fs) (old new : path) : fs :=
  MkFs (kmap (app new) (subtree s old) ∪ filter (λ '(r, _), ¬ old `prefix_of` r ∧ ¬ new `prefix_of` r) (fs_names s)) (fs_nodes s) (fs_next s).

(** [os.Rename]. The package refuses to replace a directory; the kernel refuses to replace
    a file by a directory, to move a directory below itself, and to move anything but a
    subvolume to another one. Two names of one file stay as they are. *)
Definition Rename (env : fs_env) (s : fs) (old new : gostring) : fs * bool :=
  match resolve s false old, resolve s false new with
  | Some o, Some q =>
      match view s o with
      | None => (s, false)
      | Some n =>
          if match view s q with Some d => is_dir d | None => false end && (bool_decide (old = new) || bool_decide (o ≠ q)) then (s, false)
          else if bool_decide (fs_names s !! o = fs_names s !! q) then (s, true)
          else if is_dir n && bool_decide (is_Some (view s q)) then (s, false)
          else if bool_decide (o `prefix_of` q) then (s, false)
          else if negb (is_subvol n) && bool_decide (volume_of s (parent o) ≠ volume_of s (parent q)) then (s, false)
          else (touch env (touch env (moved s o q) o) q, true)
      end
  | _, _ => (s, false)
  end.

(** ** The package *)

Definition promoteDirName : gostring := bs ".ts-subdir-promote".

(** One entry after the other, up to the first that fails. *)
Fixpoint each_entry (f : fs → gostring → fs * bool) (s : fs) (entries : list gostring) : fs * bool :=
  match entries with
  | [] => (s, true)
  | e :: entries => match f s e with (s, true) => each_entry f s entries | (s, false) => (s, false) end
  end.

Section package.
Context (env : fs_env) `{Btrfs}.

(** [removePathRecursive] and [removeChildren]. A path that is asked for is in a directory
    that was just read, so when [Lstat] finds nothing the file does not exist. *)
Fixpoint remove_path (depth : nat) (s : fs) (p : gostring) : fs * bool :=
  match depth with
  | O => (s, false)
  | S depth =>
      match Lstat s p with
      | None => (s, true)
      | Some info =>
          if is_dir info then
            match ReadDir s p with
            | None => (s, false)
            | Some entries =>
                match each_entry (λ s e, remove_path depth s (JoinPath p e)) s entries with
                | (s, false) => (s, false)
                | (s, true) => if IsSubvolume s p then DeleteSubvol s p else Remove env s p
                end
            end
          else Remove env s p
      end
  end.
(** No path is longer than there are names. *)
Definition removePathRecursive (s : fs) (p : gostring) : fs * bool := remove_path (S (size (fs_names s))) s p.

Definition prune_entry (promote_name dst : gostring) (s : fs) (e : gostring) : fs * bool :=
  if bool_decide (e = promote_name) then (s, true) else removePathRecursive s (JoinPath dst e).

Definition Snapshot (s : fs) (source subdir dstPath : gostring) : fs * bool :=
  match SnapQueue.Validate subdir with
  | None => (s, false)
  | Some clean =>
      match Subvols.Snapshot s source dstPath false with
      | (s, false) => (s, false)
      | (s, true) =>
          let srcSub := JoinPath dstPath clean in
          match Lstat s srcSub with
          | None => (s, false)
          | Some info =>
              if negb (is_dir info) then (s, false)
              else
                let promote := JoinPath dstPath promoteDirName in
                match RemoveAll env s promote with
                | (s, false) => (s, false)
                | (s, true) =>
                    match Rename env s srcSub promote with
                    | (s, false) => (s, false)
                    | (s, true) =>
                        match ReadDir s dstPath with
                        | None => (s, false)
                        | Some entries =>
                            match each_entry (prune_entry promoteDirName dstPath) s entries with
                            | (s, false) => (s, false)
                            | (s, true) =>
                                match ReadDir s promote with
                                | None => (s, false)
                                | Some promoted =>
                                    match each_entry (λ s e, Rename env s (JoinPath promote e) (JoinPath dstPath e)) s promoted with
                                    | (s, false) => (s, false)
                                    | (s, true) =>
                                        match Remove env s promote with
                                        | (s, false) => (s, false)
                                        | (s, true) => Run s [bs "property"; bs "set"; dstPath; bs "ro"; bs "true"]
                                        end
                                    end
                                end
                            end
                        end
                    end
                end
          end
      end
  end.
End package.

(** The command that makes a subvolume read-only; whether files can be written is not
    part of [fs]. *)
Class ReadOnlySpec `{Btrfs} : Prop :=
  set_read_only s p n : wf s → Forall proper p → view s p = Some n → is_subvol n = true →
    Run s [bs "property"; bs "set"; abs_path p; bs "ro"; bs "true"] = (s, true).

(** ** What renaming does *)

Section rename.
Context (env : fs_env) (s : fs) (o q : path) (n : node).
Hypothesis Hwf : wf s.
Hypothesis Hn : view s o = Some n.
Hypothesis Hfree : view s q = None.
Hypothesis Hpar : dir_at s (parent q) = true.
Hypothesis Ho : o ≠ [].
Hypothesis Hq : q ≠ [].
Hypothesis Hoq : ¬ o `prefix_of` q.

#[local] Instance inj_app_path (d : path) : Inj (=) (=) (app d).
Proof. intros x y. apply app_inv_head. Qed.

Lemma nothing_at_new x : fs_names s !! (q ++ x) = None.
Proof.
  destruct (fs_names s !! (q ++ x)) as [i|] eqn:Hi; [|done]. exfalso.
  destruct (above_exists s q x Hwf) as [j Hj]; [by exists i|]. apply view_names in Hfree; [congruence|done].
Qed.

Lemma moved_names r : fs_names (moved s o q) !! r =
  match strip q r with Some x => fs_names s !! (o ++ x) | None => if bool_decide (o `prefix_of` r) then None else fs_names s !! r end.
Proof.
  unfold moved. cbn [fs_names]. destruct (strip q r) as [x|] eqn:Hs.
  - apply strip_some in Hs as ->. assert (Hf : filter (λ '(r, _), ¬ o `prefix_of` r ∧ ¬ q `prefix_of` r) (fs_names s) !! (q ++ x) = None).
    { apply map_lookup_filter_None. right. intros i _ [_ Hx]. apply Hx, prefix_app_r. done. }
    rewrite lookup_union, Hf, lookup_kmap, lookup_subtree by apply _. by destruct (fs_names s !! (o ++ x)).
  - apply strip_none in Hs. rewrite lookup_union_r.
    + rewrite map_lookup_filter. destruct (fs_names s !! r) as [i|]; cbn; [|by case_bool_decide].
      case_bool_decide as Hb; case_guard as Hg; try done; [by destruct Hg|by destruct Hg].
    + apply lookup_kmap_None; [apply _|]. intros x ->. exfalso. by apply Hs, prefix_app_r.
Qed.
Lemma view_moved r : view (moved s o q) r =
  match strip q r with Some x => view s (o ++ x) | None => if bool_decide (o `prefix_of` r) then None else view s r end.
Proof. unfold view. rewrite moved_names. destruct (strip q r); [done|]. by case_bool_decide. Qed.

Lemma parent_outside r p : r ≠ [] → p `prefix_of` parent r → p `prefix_of` r.
Proof. intros Hr Hp. etransitivity; [exact Hp|]. destruct r as [|e r _] using rev_ind; [done|]. rewrite parent_snoc. by apply prefix_app_r. Qed.
Lemma not_below_parent r : r ≠ [] → ¬ r `prefix_of` parent r.
Proof.
  intros Hr [x Hx]. apply (f_equal length) in Hx. rewrite length_app in Hx. unfold parent in Hx. rewrite length_take in Hx.
  destruct r; [done|]. cbn in Hx. lia.
Qed.

Lemma dir_moved r : dir_at s r = true → ¬ o `prefix_of` r → dir_at (moved s o q) r = true.
Proof.
  intros Hd Hr. unfold dir_at. rewrite view_moved. destruct (strip q r) as [x|] eqn:Hs; [|by rewrite bool_decide_eq_false_2].
  apply strip_some in Hs as ->. unfold dir_at, view in Hd. by rewrite nothing_at_new in Hd.
Qed.

Lemma wf_moved : wf (moved s o q).
Proof.
  split.
  - apply dir_moved; [apply Hwf|]. intros [x Hx]. by destruct o.
  - intros r i Hi Hr. rewrite moved_names in Hi. destruct (strip q r) as [x|] eqn:Hs.
    + apply strip_some in Hs as ->. destruct (decide (x = [])) as [->|Hx].
      * rewrite app_nil_r. apply dir_moved; [done|]. intros Hp. by apply Hoq, parent_outside.
      * rewrite parent_app by done. unfold dir_at. rewrite view_moved, strip_app. pose proof (wf_parent s Hwf _ i Hi) as Hpd.
        rewrite parent_app in Hpd by done. apply Hpd. by destruct o.
    + case_bool_decide as Hor; [done|]. apply dir_moved; [by apply (wf_parent s Hwf r i)|]. intros Hp. by apply Hor, parent_outside.
  - intros r i. rewrite moved_names. destruct (strip q r); [apply (wf_node s Hwf)|]. case_bool_decide; [done|apply (wf_node s Hwf)].
  - intros r i. rewrite moved_names. destruct (strip q r); [apply (wf_next s Hwf)|]. case_bool_decide; [done|apply (wf_next s Hwf)].
  - intros r r' i m. rewrite !moved_names. intros Hi Hi' Hm Hd.
    assert (Hone : ∀ a b, fs_names s !! a = Some i → fs_names s !! b = Some i → a = b) by (intros a b Ha Hb; by apply (wf_one_name s Hwf a b i m)).
    destruct (strip q r) as [x|] eqn:Hs, (strip q r') as [x'|] eqn:Hs'; repeat case_bool_decide; try done.
    + apply strip_some in Hs as ->, Hs' as ->. f_equal. by apply (app_inv_head o), Hone.
    + exfalso. assert (Heq : o ++ x = r') by by apply Hone. subst r'. by match goal with H : ¬ o `prefix_of` _ |- _ => apply H, prefix_app_r end.
    + exfalso. assert (Heq : o ++ x' = r) by by apply Hone. subst r. by match goal with H : ¬ o `prefix_of` _ |- _ => apply H, prefix_app_r end.
    + by apply Hone.
Qed.

(** The files have moved; all else is as before. *)
Definition renamed : fs := touch env (touch env (moved s o q) o) q.
Lemma view_renamed r : undated (view renamed r) =
  undated (match strip q r with Some x => view s (o ++ x) | None => if bool_decide (o `prefix_of` r) then None else view s r end).
Proof.
  assert (Ht : ∀ s p, undated (view (touch env s p) r) = undated (view s r)).
  { intros s0 p0. unfold touch. rewrite view_change. case_bool_decide; [apply undated_mtime|done]. }
  unfold renamed. rewrite !Ht. by rewrite view_moved.
Qed.
Lemma wf_renamed : wf renamed.
Proof. by apply wf_touch, wf_touch, wf_moved. Qed.
End rename.

(** A subvolume with no other one on the way. *)
Lemma volume_of_in s d x : (∃ n, view s d = Some n ∧ is_subvol n = true) →
  (∀ y, y ≠ [] → y `prefix_of` x → match view s (d ++ y) with Some n => is_subvol n | None => false end = false) →
  volume_of s (d ++ x) = d.
Proof.
  intros (n & Hn & Hs) Hx. unfold volume_of. rewrite length_app. replace (S (length d + length x)) with (S (length d) + length x)%nat by lia.
  rewrite seq_app, fmap_app, filter_app.
  assert (Hnone : ∀ l, (∀ k, k ∈ l → (length d < k ≤ length d + length x)%nat) →
    filter (λ q, match view s q with Some n => is_subvol n | None => false end = true) ((λ k, take k (d ++ x)) <$> l) = []).
  { induction l as [|k l IH]; intros Hl; [done|]. rewrite fmap_cons, filter_cons_False.
    - apply IH. intros k' Hk'. apply Hl. by right.
    - specialize (Hl k ltac:(by left)). rewrite take_app_ge by lia. rewrite Hx; [done| |exists (drop (k - length d) x); by rewrite take_drop].
      intros Ht%(f_equal length). rewrite length_take in Ht. cbn in Ht. lia. }
  rewrite (Hnone (seq (0 + S (length d)) (length x))), app_nil_r.
  2:{ intros k Hk. apply elem_of_seq in Hk. lia. }
  rewrite seq_S, fmap_app, filter_app. cbn [fmap list_fmap Nat.add]. rewrite take_app_length.
  rewrite (filter_cons_True _ d []), filter_nil by by rewrite Hn. by rewrite last_snoc.
Qed.

(** ** What changes below a path only *)

Record keeps (A : path → Prop) (s s' : fs) : Prop := {
  kp_wf : wf s';
  kp_view : ∀ q, ¬ A q → undated (view s' q) = undated (view s q);
}.

Section keeps.
Implicit Types (A B : path → Prop) (s : fs).
Lemma keeps_refl A s : wf s → keeps A s s.
Proof. by split. Qed.
Lemma keeps_trans A s1 s2 s3 : keeps A s1 s2 → keeps A s2 s3 → keeps A s1 s3.
Proof. intros [_ H1] [W H2]. split; [done|]. intros q Hq. by rewrite H2, H1. Qed.
Lemma keeps_weaken A B s s' : (∀ q, A q → B q) → keeps A s s' → keeps B s s'.
Proof. intros HAB [W H1]. split; auto. Qed.
Lemma keeps_leaves A s s' : leaves A s s' → keeps A s s'.
Proof. intros [W _ _ _ H1 _]. by split. Qed.
Lemma keeps_dir A s s' q : keeps A s s' → ¬ A q → dir_at s' q = dir_at s q.
Proof. intros [_ H1] Hq. by apply undated_dir, H1. Qed.
Lemma keeps_none A s s' q : keeps A s s' → ¬ A q → view s' q = None ↔ view s q = None.
Proof. intros [_ H1] Hq. rewrite <-(undated_none (view s' q)), (H1 q Hq). apply undated_none. Qed.
End keeps.

(** Is there a subvolume at a path? *)
Definition subvol_at (s : fs) (q : path) : bool := match view s q with Some n => is_subvol n | None => false end.

Lemma subvol_undated s s' q r : undated (view s' q) = undated (view s r) → subvol_at s' q = subvol_at s r.
Proof. unfold subvol_at, undated, is_subvol. destruct (view s' q), (view s r); try done. by intros [= -> _ _ _]. Qed.

Section calls.
Context (env : fs_env).

Lemma Rename_plain s o q n :
  wf s → view s o = Some n → free s q → o ≠ [] → Forall proper o → dir_at s (parent o) = true → ¬ o `prefix_of` q →
  is_subvol n = true ∨ volume_of s (parent o) = volume_of s (parent q) →
  Rename env s (abs_path o) (abs_path q) = (renamed env s o q, true).
Proof.
  intros Hwf Hn [Hpq Hq Hdq Hfree] Ho Hpo Hdo Hoq Hvol. unfold Rename.
  rewrite (resolve_child s o), (resolve_child s q), Hn, Hfree by done. cbn [andb].
  destruct (view_some s o n Hn) as (i & Hi & _). rewrite (view_names s q Hwf Hfree).
  rewrite bool_decide_eq_false_2 by by rewrite Hi. rewrite andb_comm. cbn [andb].
  rewrite (bool_decide_eq_false_2 (is_Some None)) by by intros []. cbn [andb].
  rewrite (bool_decide_eq_false_2 (o `prefix_of` q)) by done. destruct Hvol as [->|Hvol]; [done|].
  rewrite (bool_decide_eq_false_2 (volume_of s (parent o) ≠ volume_of s (parent q))) by tauto. by rewrite andb_false_r.
Qed.

(** An empty directory is removed. *)
Lemma Remove_dir s p :
  wf s → Forall proper p → p ≠ [] → dir_at s p = true → (∀ e, view s (p ++ [e]) = None) →
  Remove env s (abs_path p) = (touch env (without s p) p, true).
Proof.
  intros Hwf Hp Hne Hd He. assert (Hpar : dir_at s (parent p) = true) by by apply dir_parent.
  unfold Remove. rewrite (resolve_child s p) by done. destruct (dir_at_view s p Hd) as (n & Hn & Hdir). rewrite Hn, Hdir.
  assert (Hch : children s p = []).
  { destruct (children s p) as [|e l] eqn:Hc; [done|]. exfalso. assert (Hin : e ∈ children s p) by (rewrite Hc; by left).
    apply children_spec in Hin as [i Hi]. pose proof (view_names s _ Hwf (He e)). congruence. }
  rewrite Hch. cbn [andb]. rewrite bool_decide_eq_false_2 by (intros Hx; by apply Hx). do 2 f_equal. unfold without. f_equal. apply map_eq. intros r.
  destruct (decide (r = p)) as [->|Hr].
  - rewrite lookup_delete_eq. symmetry. apply map_lookup_filter_None. right. intros i _ Hx. by apply Hx.
  - rewrite lookup_delete_ne by done. destruct (fs_names s !! r) as [i|] eqn:Hi.
    + symmetry. apply map_lookup_filter_Some. split; [done|]. intros Hpre. apply Hr.
      apply (nothing_below s p r Hwf); [|done|by exists i]. intros e. by apply view_names.
    + symmetry. apply map_lookup_filter_None. by left.
Qed.
End calls.

(** ** Removing a tree *)

Lemma below_snoc p e e' x : below (p ++ [e]) (p ++ e' :: x) ↔ e = e'.
Proof.
  unfold below. split.
  - intros [y Hy]. rewrite <-app_assoc in Hy. apply app_inv_head in Hy. by injection Hy.
  - intros ->. exists x. by rewrite <-app_assoc.
Qed.

Lemma each_entry_removes (f : fs → gostring → fs * bool) (I : fs → Prop) (ok : gostring → Prop) p :
  (∀ s e, I s → ok e → ∃ s', f s e = (s', true) ∧ keeps (below (p ++ [e])) s s' ∧ (∀ x, view s' ((p ++ [e]) ++ x) = None) ∧ I s') →
  ∀ l s, Forall ok l → wf s → I s →
  ∃ s', each_entry f s l = (s', true) ∧ keeps (λ q, ∃ e, e ∈ l ∧ below (p ++ [e]) q) s s' ∧ I s'
    ∧ ∀ e x, e ∈ l → view s' ((p ++ [e]) ++ x) = None.
Proof.
  intros Hstep. induction l as [|e l IH]; intros s Hl Hwf HI; cbn [each_entry].
  - exists s. split_and!; [done|by apply keeps_refl|done|]. by intros e x Hx%elem_of_nil.
  - apply Forall_cons in Hl as [He Hl]. destruct (Hstep s e HI He) as (s1 & -> & Hk1 & Hg1 & HI1).
    destruct (IH s1 Hl (kp_wf _ _ _ Hk1) HI1) as (s2 & -> & Hk2 & HI2 & Hg2). exists s2. split_and!; [done| |done|].
    + eapply keeps_trans; [eapply keeps_weaken, Hk1|eapply keeps_weaken, Hk2].
      * intros q Hq. exists e. split; [by left|done].
      * intros q (e' & He' & Hq). exists e'. split; [by right|done].
    + intros e' x He'. destruct (decide (e' ∈ l)) as [Hin|Hout]; [by apply Hg2|]. apply elem_of_cons in He' as [-> |?]; [|done].
      eapply keeps_none; [exact Hk2| |apply Hg1]. intros (e' & He' & Hq). rewrite <-app_assoc in Hq. apply below_snoc in Hq as ->. by apply Hout.
Qed.

Lemma children_nodup s p : NoDup (children s p).
Proof.
  unfold children. pose proof (NoDup_fst_map_to_list (fs_names s)) as Hnd. induction Hnd as [|q l Hq _ IH]; cbn [omap list_omap]; [apply NoDup_nil_2|].
  destruct (last q) as [e|] eqn:He; [|done]. case_bool_decide as Heq; [|done]. apply NoDup_cons_2; [|done]. intros Hin.
  apply list_elem_of_omap in Hin as (q' & Hq' & Hx). destruct (last q') as [e'|]; [|done]. case_bool_decide as Heq'; [|done]. injection Hx as ->. congruence.
Qed.

Lemma ReadDir_plain s p : wf s → Forall proper p → dir_at s p = true →
  ∃ l, ReadDir s (abs_path p) = Some l ∧ NoDup l ∧ ∀ e, e ∈ l ↔ is_Some (view s (p ++ [e])).
Proof.
  intros Hwf Hp Hd. unfold ReadDir. rewrite (resolve_dir s true p) by done. cbn [mbind option_bind]. rewrite Hd.
  eexists. split; [reflexivity|]. split; [rewrite sort_by_key_perm; apply children_nodup|].
  intros e. rewrite sort_by_key_perm, children_spec. unfold view. split.
  - intros [i Hi]. rewrite Hi. by apply (wf_node s Hwf _ i Hi).
  - intros [n (i & Hi & _)%bind_Some]. by eexists.
Qed.

(** What can be removed: plain names, no subvolumes, no deeper than so many levels. *)
Definition removable (depth : nat) (s : fs) (p : path) : Prop :=
  ∀ x n, view s (p ++ x) = Some n → Forall proper x ∧ is_subvol n = false ∧ (length x ≤ depth)%nat.

Lemma removable_keeps A depth s s' p : keeps A s s' → (∀ x, A (p ++ x) → view s' (p ++ x) = None) → removable depth s p → removable depth s' p.
Proof.
  intros Hk Hg Hr x n Hn. assert (HA : ¬ A (p ++ x)) by (intros HA; rewrite Hg in Hn; done).
  destruct (undated_kind _ _ n (kp_view _ _ _ Hk _ HA) Hn) as (n' & Hn' & Hkind).
  destruct (Hr x n' Hn') as (Hp & Hs & Hl). split_and!; [done| |done]. unfold is_subvol in *. by rewrite Hkind in Hs.
Qed.
Lemma nothing_below_view s p x : wf s → view s p = None → view s (p ++ x) = None.
Proof.
  intros Hwf Hn. destruct (view s (p ++ x)) as [n|] eqn:Hv; [|done]. exfalso. destruct (view_some s _ n Hv) as (i & Hi & _).
  destruct (above_exists s p x Hwf) as [j Hj]; [by exists i|]. apply view_names in Hn; [congruence|done].
Qed.

Section remove.
Context (env : fs_env) `{BtrfsSpec env}.

Lemma without_keeps s p : wf s → p ≠ [] → dir_at s (parent p) = true →
  keeps (below p) s (touch env (without s p) p) ∧ ∀ x, view (touch env (without s p) p) (p ++ x) = None.
Proof.
  intros Hwf Hne Hd. destruct (leaves_without (below p) env s p Hwf Hne Hd) as [Hl Hn]; [done|]. split; [by apply keeps_leaves|done].
Qed.

Lemma remove_path_spec depth : ∀ s p,
  wf s → Forall proper p → p ≠ [] → dir_at s (parent p) = true → removable depth s p →
  ∃ s', remove_path env (S depth) s (abs_path p) = (s', true) ∧ keeps (below p) s s' ∧ ∀ x, view s' (p ++ x) = None.
Proof.
  induction depth as [depth IH] using lt_wf_ind. intros s p Hwf Hp Hne Hpar Hr. cbn [remove_path]. unfold Lstat.
  rewrite (resolve_child s p) by done. cbn [mbind option_bind]. destruct (view s p) as [n|] eqn:Hn.
  2:{ exists s. split_and!; [done|by apply keeps_refl|]. intros x. by apply nothing_below_view. }
  destruct (is_dir n) eqn:Hdir.
  2:{ pose proof (Remove_plain env s p Hwf Hp Hne Hpar) as Hrm. rewrite Hn in Hrm. rewrite (Hrm Hdir).
      eexists. split; [reflexivity|]. by apply without_keeps. }
  assert (Hd : dir_at s p = true) by (unfold dir_at; by rewrite Hn).
  destruct (ReadDir_plain s p Hwf Hp Hd) as (l & -> & _ & Hl).
  assert (Hdepth : ∀ e, e ∈ l → ∃ k, depth = S k).
  { intros e [m He]%Hl. destruct (Hr [e] m He) as (_ & _ & Hlen). cbn in Hlen. destruct depth; [lia|by eexists]. }
  destruct (each_entry_removes (λ s e, remove_path env depth s (JoinPath (abs_path p) e))
    (λ s, wf s ∧ dir_at s p = true ∧ removable depth s p) (λ e, e ∈ l ∧ proper e) p) with (l := l) (s := s) as (s1 & -> & Hk & (Hwf1 & Hd1 & Hr1) & Hg).
  - intros s0 e (Hw0 & Hd0 & Hr0) [He Hpe]. destruct (Hdepth e He) as [k ->]. rewrite JoinPath_one by done.
    destruct (IH k ltac:(lia) s0 (p ++ [e])) as (s' & -> & Hk & Hg); [done| |by destruct p|by rewrite parent_snoc| |].
    + apply Forall_app_2; [done|]. by apply Forall_cons_2; [|apply Forall_nil_2].
    + intros x m Hm. rewrite <-app_assoc in Hm. destruct (Hr0 ([e] ++ x) m Hm) as (Hpx & Hs & Hlx). split_and!; [|done|cbn in Hlx; lia].
      by apply Forall_app in Hpx as [_ ?].
    + exists s'. split_and!; [done|done|done|apply Hk| |].
      * rewrite (keeps_dir _ _ _ p Hk); [done|]. intros [y Hy]. apply (f_equal length) in Hy. rewrite !length_app in Hy. cbn in Hy. lia.
      * eapply removable_keeps; [exact Hk| |exact Hr0]. intros x [y Hy]. rewrite Hy. apply Hg.
  - apply Forall_forall. intros e He. split; [done|]. apply Hl in He as [m He]. destruct (Hr [e] m He) as (Hpe & _ & _). by apply Forall_cons in Hpe as [? _].
  - done.
  - by split_and!.
  - assert (Hempty : ∀ e, view s1 (p ++ [e]) = None).
    { intros e. destruct (decide (e ∈ l)) as [He|He]; [rewrite <-(app_nil_r (p ++ [e])); by apply Hg|].
      apply (keeps_none _ _ _ _ Hk).
      - intros (e' & He' & Hb). apply below_snoc in Hb as ->. done.
      - destruct (view s (p ++ [e])) as [m|] eqn:Hm; [|done]. destruct He. apply Hl. by eexists. }
    destruct (dir_at_view s1 p Hd1) as (n1 & Hn1 & Hdir1). rewrite (show_there s1 p n1) by done.
    pose proof (Hr1 [] n1) as Hs. rewrite app_nil_r in Hs. destruct (Hs Hn1) as (_ & -> & _). rewrite (Remove_dir env s1 p) by done.
    eexists. split; [reflexivity|]. assert (Hpar1 : dir_at s1 (parent p) = true) by by apply dir_parent.
    destruct (without_keeps s1 p Hwf1 Hne Hpar1) as [Hk1 Hg1]. split; [|done]. eapply keeps_trans; [|exact Hk1].
    eapply keeps_weaken, Hk. intros q (e & _ & Hb). unfold below in *. etransitivity; [|exact Hb]. by apply prefix_app_r.
Qed.
End remove.

(** ** Moving the entries of a directory up *)

Section moves.
Context (env : fs_env) (d : path) (pn : gostring).
Hypothesis Hd : Forall proper d.
Hypothesis Hdne : d ≠ [].
Hypothesis Hpn : proper pn.

(** [d] is a subvolume with none inside and a directory [pn]. *)
Record movable (s : fs) : Prop := {
  mv_wf : wf s;
  mv_root : ∃ n, view s d = Some n ∧ is_subvol n = true;
  mv_none : ∀ x, x ≠ [] → subvol_at s (d ++ x) = false;
  mv_dir : dir_at s (d ++ [pn]) = true;
}.
Definition touched (l : list gostring) (q : path) : Prop := ∃ e, e ∈ l ∧ (below (d ++ [e]) q ∨ below (d ++ [pn; e]) q).

Lemma move_up s e n : movable s → proper e → e ≠ pn → view s (d ++ [pn; e]) = Some n → view s (d ++ [e]) = None →
  Rename env s (JoinPath (JoinPath (abs_path d) pn) e) (JoinPath (abs_path d) e) = (renamed env s (d ++ [pn; e]) (d ++ [e]), true)
  ∧ ∀ q, undated (view (renamed env s (d ++ [pn; e]) (d ++ [e])) q)
      = undated (match strip (d ++ [e]) q with Some x => view s (d ++ pn :: e :: x) | None => if bool_decide (below (d ++ [pn; e]) q) then None else view s q end).
Proof.
  intros [Hwf Hroot Hnone Hdir] He Hne Hn Hfree.
  assert (Hq : Forall proper (d ++ [e])) by (apply Forall_app_2; [done|]; by apply Forall_cons_2; [|apply Forall_nil_2]).
  assert (Hpp : Forall proper (d ++ [pn])) by (apply Forall_app_2; [done|]; by apply Forall_cons_2; [|apply Forall_nil_2]).
  assert (Ho : Forall proper (d ++ [pn; e])) by (apply Forall_app_2; [done|]; apply Forall_cons_2; [done|]; by apply Forall_cons_2; [|apply Forall_nil_2]).
  assert (Hdd : dir_at s d = true) by by apply (dirs_above s d [pn]).
  assert (Hpo : parent (d ++ [pn; e]) = d ++ [pn]) by (change [pn; e] with ([pn] ++ [e]); by rewrite app_assoc, parent_snoc).
  assert (Hoq : ¬ (d ++ [pn; e]) `prefix_of` (d ++ [e])) by (intros [y Hy]; apply (f_equal length) in Hy; rewrite !length_app in Hy; cbn in Hy; lia).
  rewrite (JoinPath_one d pn), (JoinPath_one (d ++ [pn]) e), (JoinPath_one d e), <-app_assoc by (done || by destruct d). cbn [app].
  split.
  - apply (Rename_plain env s _ _ n); try done; [|by destruct d|by rewrite Hpo|].
    + split; [done|by destruct d|by rewrite parent_snoc|done].
    + right. rewrite Hpo, parent_snoc. rewrite (volume_of_in s d [pn] Hroot).
      * symmetry. rewrite <-(app_nil_r d) at 1. apply (volume_of_in s d [] Hroot). intros y Hy [z Hz]. by destruct y.
      * intros y Hy _. by apply Hnone.
  - intros q. rewrite view_renamed. destruct (strip (d ++ [e]) q); [|done]. by rewrite <-app_assoc.
Qed.

(** After one move the rest can still be moved. *)
Lemma up_strip (e : gostring) q : e ≠ pn → ∀ x, strip (d ++ [e]) (d ++ pn :: q) = Some x → False.
Proof. intros Hne x Hs%strip_some. rewrite <-app_assoc in Hs. apply app_inv_head in Hs. injection Hs as <- _. done. Qed.

Lemma move_up_movable s e n : movable s → proper e → e ≠ pn → view s (d ++ [pn; e]) = Some n → view s (d ++ [e]) = None →
  movable (renamed env s (d ++ [pn; e]) (d ++ [e])).
Proof.
  intros Hm He Hne Hn Hfree. destruct (move_up s e n Hm He Hne Hn Hfree) as [_ Hv]. destruct Hm as [Hwf (m & Hroot & Hrs) Hnone Hdir].
  assert (Hnp : ∀ x : path, (length x ≤ 1)%nat → ¬ below (d ++ [pn; e]) (d ++ x)).
  { intros x Hx [y Hy]. apply (f_equal length) in Hy. rewrite !length_app in Hy. cbn in Hy. lia. }
  assert (Hkeep : ∀ x : path, (length x ≤ 1)%nat → (∀ y, strip (d ++ [e]) (d ++ x) ≠ Some y) →
    undated (view (renamed env s (d ++ [pn; e]) (d ++ [e])) (d ++ x)) = undated (view s (d ++ x))).
  { intros x Hx Hs. rewrite Hv. destruct (strip _ _) as [y|]; [by destruct (Hs y)|]. by rewrite bool_decide_eq_false_2 by by apply Hnp. }
  assert (Hdd : dir_at s d = true) by by apply (dirs_above s d [pn]). split.
  - apply (wf_renamed env s (d ++ [pn; e]) (d ++ [e]) n); [done|done|done|by rewrite parent_snoc|by destruct d|by destruct d|].
    intros [y Hy]. apply (f_equal length) in Hy. rewrite !length_app in Hy. cbn in Hy. lia.
  - pose proof (Hkeep [] ltac:(cbn; lia)) as Hk. rewrite app_nil_r in Hk.
    destruct (undated_kind _ _ m (eq_sym (Hk ltac:(intros y Hy%strip_some; apply (f_equal length) in Hy; rewrite !length_app in Hy; cbn in Hy; lia))) Hroot) as (m' & Hm' & Hk').
    exists m'. split; [done|]. unfold is_subvol in *. by rewrite Hk'.
  - intros x Hx. specialize (Hv (d ++ x)).
    destruct (strip (d ++ [e]) (d ++ x)) as [y|] eqn:Hs.
    + rewrite (subvol_undated _ _ _ _ Hv). by apply (Hnone (pn :: e :: y)).
    + case_bool_decide; [|rewrite (subvol_undated _ _ _ _ Hv); by apply Hnone]. apply (proj1 (undated_none _)) in Hv. unfold subvol_at. by rewrite Hv.
  - rewrite (undated_dir s); [done|]. apply Hkeep; [done|]. intros y Hy. by apply (up_strip e [] Hne y).
Qed.

Lemma strip_other e e' x : e ≠ e' → strip (d ++ [e]) (d ++ e' :: x) = None.
Proof. intros Hne. apply strip_none. intros [y Hy]. rewrite <-app_assoc in Hy. apply app_inv_head in Hy. injection Hy as Hy _. by apply Hne. Qed.
Lemma strip_same e x : strip (d ++ [e]) (d ++ e :: x) = Some x.
Proof. change (e :: x) with ([e] ++ x). rewrite app_assoc. apply strip_app. Qed.
Lemma below_up e e' x : below (d ++ [pn; e]) (d ++ pn :: e' :: x) ↔ e = e'.
Proof.
  change [pn; e] with ([pn] ++ [e]). change (pn :: e' :: x) with ([pn] ++ e' :: x). rewrite !app_assoc. apply below_snoc.
Qed.
Lemma not_below_up e e' x : e' ≠ pn → ¬ below (d ++ [pn; e]) (d ++ e' :: x).
Proof. intros Hne [y Hy]. rewrite <-app_assoc in Hy. apply app_inv_head in Hy. injection Hy as Hy _. by apply Hne. Qed.

Definition can_move (s : fs) (e : gostring) : Prop :=
  proper e ∧ e ≠ pn ∧ is_Some (view s (d ++ [pn; e])) ∧ view s (d ++ [e]) = None.

Lemma moves_spec l : ∀ s, NoDup l → Forall (can_move s) l → movable s →
  ∃ s', each_entry (λ s e, Rename env s (JoinPath (JoinPath (abs_path d) pn) e) (JoinPath (abs_path d) e)) s l = (s', true)
    ∧ movable s' ∧ keeps (touched l) s s'
    ∧ ∀ e x, e ∈ l → undated (view s' (d ++ e :: x)) = undated (view s (d ++ pn :: e :: x)) ∧ view s' (d ++ pn :: e :: x) = None.
Proof.
  induction l as [|e l IH]; intros s Hnd Hl Hm; cbn [each_entry].
  { exists s. split_and!; [done|done|apply keeps_refl, Hm|]. by intros e x Hx%elem_of_nil. }
  apply NoDup_cons in Hnd as [Hel Hnd]. apply Forall_cons in Hl as [(He & Hne & [n Hn] & Hfree) Hl].
  destruct (move_up s e n Hm He Hne Hn Hfree) as [-> Hv]. pose proof (move_up_movable s e n Hm He Hne Hn Hfree) as Hm1.
  set (s1 := renamed _ _ _ _) in *.
  assert (Hoth : ∀ e' x, e' ∈ l → undated (view s1 (d ++ pn :: e' :: x)) = undated (view s (d ++ pn :: e' :: x))).
  { intros e' x He'. rewrite Hv, strip_other by done. rewrite bool_decide_eq_false_2; [done|]. intros ->%below_up. done. }
  assert (Hfr : ∀ e' x, e' ≠ e → e' ≠ pn → undated (view s1 (d ++ e' :: x)) = undated (view s (d ++ e' :: x))).
  { intros e' x He' Hp'. rewrite Hv, strip_other by congruence. rewrite bool_decide_eq_false_2; [done|]. by apply not_below_up. }
  assert (Hl1 : Forall (can_move s1) l).
  { apply Forall_forall. intros e' He'. pose proof He' as Hin. apply (proj1 (Forall_forall _ _) Hl) in He' as (Hp' & Hne' & [n' Hn'] & Hf').
    assert (e' ≠ e) by congruence. split_and!; [done|done| |].
    - destruct (undated_kind _ _ n' (eq_sym (Hoth e' [] Hin)) Hn') as (n'' & Hn'' & _). by exists n''.
    - apply undated_none. rewrite Hfr by done. by apply undated_none. }
  destruct (IH s1 Hnd Hl1 Hm1) as (s2 & -> & Hm2 & Hk & Hgo). exists s2. split_and!; [done|done| |].
  - eapply (keeps_trans _ s s1).
    + split; [apply Hm1|]. intros q Hq. rewrite Hv. destruct (strip (d ++ [e]) q) as [x|] eqn:Hs.
      * exfalso. apply Hq. exists e. split; [by left|]. left. apply strip_some in Hs as ->. by exists x.
      * rewrite bool_decide_eq_false_2; [done|]. intros Hb. apply Hq. exists e. split; [by left|by right].
    + eapply keeps_weaken, Hk. intros q (e' & He' & Hq). exists e'. split; [by right|done].
  - intros e' x He'. destruct (decide (e' ∈ l)) as [Hin|Hout]; [destruct (Hgo e' x Hin) as [H1' H2']; split; [by rewrite H1', Hoth|done]|].
    apply elem_of_cons in He' as [-> |?]; [|done]. pose proof (kp_view _ _ _ Hk) as Hk'. split.
    + rewrite Hk'; [by rewrite Hv, strip_same|]. intros (e' & He' & [Hb|Hb]); [apply below_snoc in Hb as ->; done|by apply not_below_up in Hb].
    + apply undated_none. rewrite Hk'; [rewrite Hv, strip_other by done; by rewrite bool_decide_eq_true_2 by by apply below_up|].
      intros (e' & He' & [Hb|Hb]); [apply below_snoc in Hb as ->; by apply (proj1 (Forall_forall _ _) Hl) in He' as (_ & ? & _)|].
      apply below_up in Hb as ->. done.
Qed.
End moves.

(** ** The whole *)

(** No path is longer than there are names. *)
Lemma path_bound s p n : wf s → view s p = Some n → (length p < size (fs_names s))%nat.
Proof.
  intros Hwf Hn. destruct (view_some s p n Hn) as (i & Hi & _). rewrite <-(size_dom (fs_names s)).
  assert (Hsub : list_to_set ((λ k, take k p) <$> seq 0 (S (length p))) ⊆ dom (fs_names s)).
  { intros r Hr%elem_of_list_to_set. apply list_elem_of_fmap in Hr as (k & -> & _). apply elem_of_dom.
    apply (above_exists s _ (drop k p) Hwf). rewrite take_drop. by eexists. }
  apply subseteq_size in Hsub. rewrite size_list_to_set in Hsub; [rewrite length_fmap, length_seq in Hsub; lia|].
  apply NoDup_fmap_2_strong; [|apply NoDup_seq]. intros k k' Hk%elem_of_seq Hk'%elem_of_seq Heq%(f_equal length). rewrite !length_take in Heq. lia.
Qed.

Lemma each_entry_prune env `{Btrfs} pn dst l : ∀ s,
  each_entry (prune_entry env pn dst) s l = each_entry (λ s e, removePathRecursive env s (JoinPath dst e)) s (filter (λ e, e ≠ pn) l).
Proof.
  induction l as [|e l IH]; intros s; [done|]. cbn [each_entry]. unfold prune_entry at 1. destruct (decide (e = pn)) as [->|Hne].
  - rewrite bool_decide_eq_true_2 by done. by rewrite IH, filter_cons_False by (intros Hx; by apply Hx).
  - rewrite bool_decide_eq_false_2, filter_cons_True by done. cbn [each_entry]. destruct (removePathRecursive _ _ _) as [s1 []]; [apply IH|done].
Qed.

Lemma copied_inside env s src x n : x ≠ [] → copied env s src x = Some n → is_subvol n = false.
Proof.
  intros Hx. unfold copied. destruct (nested s src x); [done|]. intros (m & Hm & ->)%fmap_Some. rewrite bool_decide_eq_false_2 by done.
  unfold copy_node. by destruct (is_subvol m) eqn:Hs.
Qed.
Lemma copied_view env s src x n : copied env s src x = Some n → is_Some (view s (src ++ x)).
Proof. unfold copied. destruct (nested s src x); [done|]. intros (m & Hm & _)%fmap_Some. by exists m. Qed.

Lemma RemoveAll_keeps env s p : wf s → Forall proper p → p ≠ [] → dir_at s (parent p) = true →
  ∃ s', RemoveAll env s (abs_path p) = (s', true) ∧ keeps (below p) s s' ∧ ∀ x, view s' (p ++ x) = None.
Proof.
  intros Hwf Hp Hne Hd. rewrite RemoveAll_plain by done. eexists. split; [reflexivity|]. destruct (view s p) eqn:Hv.
  - by apply without_keeps.
  - split; [by apply keeps_refl|]. intros x. by apply nothing_below_view.
Qed.

Lemma validated subdir : url_elems subdir ≠ [] → SnapQueue.Validate subdir = Some (Join (url_elems subdir) slash).
Proof.
  intros Hne. unfold SnapQueue.Validate. rewrite Clean_slash. fold (url_elems subdir). change (slash :: ?x) with ([slash] ++ x). rewrite TrimPrefix_app.
  pose proof (url_elems_proper subdir) as Hp. destruct (url_elems subdir) as [|e l]; [done|]. apply Forall_cons in Hp as [(H1' & H2' & H3' & H4') Hl].
  rewrite !bool_decide_eq_false_2; [done| |].
  - destruct l; [done|]. cbn [Join]. destruct e as [|b [|]]; [done| |]; intros [=].
  - destruct l; [done|]. cbn [Join]. by destruct e.
Qed.

Section snapshot.
Context (env : fs_env) `{BtrfsSpec env}.
Context (src dst sub : path) (s0 : fs) (root : node).
Hypothesis Hdp : Forall proper dst.
Hypothesis Hdne : dst ≠ [].
Hypothesis Hsp : Forall proper sub.
Hypothesis Hsne : sub ≠ [].
Hypothesis Hhead : ∀ x, sub ≠ promoteDirName :: x.
Hypothesis Hroot : view s0 src = Some root ∧ is_subvol root = true.
Hypothesis Hnames : ∀ x, is_Some (view s0 (src ++ x)) → Forall proper x.

#[local] Abbreviation pn := promoteDirName.
#[local] Abbreviation T := (copied env s0 src).

Lemma pn_proper : proper pn.
Proof. by apply proper_name. Qed.
Lemma T_root : T [] = Some root.
Proof. destruct Hroot. by apply copied_root. Qed.

(** Directories of the copy, after any stage that has them as the copy does. *)
Lemma stage_dir s x y : wf s → undated (view s (dst ++ y)) = undated (T x) → (∃ n, T x = Some n ∧ is_dir n = true) → dir_at s (dst ++ y) = true.
Proof.
  intros Hwf Hv (n & Hn & Hdir). destruct (undated_kind _ _ n (eq_sym Hv) Hn) as (n' & Hn' & Hk). unfold dir_at. rewrite Hn'.
  unfold is_dir in *. by rewrite Hk.
Qed.
Lemma stage_root s : undated (view s dst) = undated (T []) → ∃ n, view s dst = Some n ∧ is_subvol n = true ∧ is_dir n = true.
Proof.
  rewrite T_root. intros Hv. destruct (undated_kind _ _ root (eq_sym Hv) eq_refl) as (n & Hn & Hk). exists n.
  destruct Hroot as [_ Hs]. unfold is_subvol, is_dir in *. rewrite Hk. by destruct (n_kind root).
Qed.
Lemma stage_subvol s x y : x ≠ [] → undated (view s (dst ++ y)) = undated (T x) → subvol_at s (dst ++ y) = false.
Proof.
  intros Hx Hv. unfold subvol_at. destruct (view s (dst ++ y)) as [n|]; [|done].
  destruct (undated_kind _ _ n Hv eq_refl) as (m & Hm & Hk). apply copied_inside in Hm; [|done]. unfold is_subvol in *. by rewrite <-Hk.
Qed.
Lemma stage_proper s x y n : undated (view s (dst ++ y)) = undated (T x) → view s (dst ++ y) = Some n → Forall proper x.
Proof. intros Hv Hn. destruct (undated_kind _ _ n Hv Hn) as (m & Hm & _). by apply copied_view, Hnames in Hm. Qed.
Lemma dst_snoc (e : gostring) : proper e → Forall proper (dst ++ [e]).
Proof. intros He. apply Forall_app_2; [done|]. by apply Forall_cons_2; [|apply Forall_nil_2]. Qed.

(** The directory is promoted: first nothing is left where it goes, then it goes there. *)
Lemma promoted s1 : wf s1 → (∀ x, undated (view s1 (dst ++ x)) = undated (T x)) → (∃ n, T sub = Some n ∧ is_dir n = true) →
  ∃ s2 s3, RemoveAll env s1 (JoinPath (abs_path dst) pn) = (s2, true)
    ∧ Rename env s2 (abs_path (dst ++ sub)) (JoinPath (abs_path dst) pn) = (s3, true)
    ∧ keeps (below dst) s1 s3
    ∧ undated (view s3 dst) = undated (T [])
    ∧ (∀ y, undated (view s3 (dst ++ pn :: y)) = undated (T (sub ++ y)))
    ∧ ∀ e y, e ≠ pn → view s3 (dst ++ e :: y) = None ∨ undated (view s3 (dst ++ e :: y)) = undated (T (e :: y)).
Proof.
  intros Hwf Hv Hdir. pose proof pn_proper as Hpn. pose proof (dst_snoc pn Hpn) as Hpp.
  pose proof (stage_root s1) as Hr1. rewrite <-(app_nil_r dst) in Hr1 at 1. destruct (Hr1 (Hv [])) as (r1 & Hr1v & _ & Hr1d).
  rewrite JoinPath_one by done. destruct (RemoveAll_keeps env s1 (dst ++ [pn])) as (s2 & Hrm & Hk2 & Hg2); [done|done|by destruct dst|by rewrite parent_snoc; unfold dir_at; rewrite Hr1v|].
  assert (Hv2 : ∀ x, (∀ y, x ≠ pn :: y) → undated (view s2 (dst ++ x)) = undated (T x)).
  { intros x Hx. rewrite (kp_view _ _ _ Hk2); [done|]. intros [y Hy]. rewrite <-app_assoc in Hy. apply app_inv_head in Hy. by apply (Hx y). }
  pose proof (kp_wf _ _ _ Hk2) as Hwf2. destruct Hdir as (n & Hn & Hdn).
  assert (Hsubv : ∃ n2, view s2 (dst ++ sub) = Some n2) by (destruct (undated_kind _ _ n (eq_sym (Hv2 sub Hhead)) Hn) as (n2 & ? & _); by exists n2).
  destruct Hsubv as [n2 Hn2]. destruct (view_some s2 _ n2 Hn2) as (i & Hi & _).
  assert (Hroot2 : ∃ m, view s2 dst = Some m ∧ is_subvol m = true ∧ is_dir m = true).
  { apply stage_root. rewrite <-(app_nil_r dst) at 1. by apply Hv2. }
  destruct Hroot2 as (m & Hm & Hms & Hmd). assert (Hvol : ∃ m, view s2 dst = Some m ∧ is_subvol m = true) by by exists m.
  assert (Hpar : dir_at s2 (parent (dst ++ sub)) = true) by (apply (wf_parent s2 Hwf2 _ i Hi); by destruct dst).
  assert (Hout : ¬ (dst ++ sub) `prefix_of` (dst ++ [pn])).
  { intros [y Hy]. rewrite <-app_assoc in Hy. apply app_inv_head in Hy. destruct sub as [|e l]; [done|]. injection Hy as Hy _. by apply (Hhead l); rewrite Hy. }
  exists s2, (renamed env s2 (dst ++ sub) (dst ++ [pn])).
  assert (Hfree : view s2 (dst ++ [pn]) = None) by (rewrite <-(app_nil_r (dst ++ [pn])); apply Hg2).
  split; [exact Hrm|split; [apply (Rename_plain env s2 _ _ n2); try done|]].
  - split; [done|by destruct dst|rewrite parent_snoc; unfold dir_at; by rewrite Hm|done].
  - by destruct dst.
  - by apply Forall_app_2.
  - right. rewrite parent_snoc, parent_app by done. rewrite (volume_of_in s2 dst (parent sub) Hvol).
    + symmetry. rewrite <-(app_nil_r dst) at 1. apply (volume_of_in s2 dst [] Hvol). intros y Hy [z Hz]. by destruct y.
    + intros y Hy Hys. apply (stage_subvol s2 y y Hy), Hv2. intros z ->. apply (parent_outside sub) in Hys as [w Hw]; [|done]. by apply (Hhead (z ++ w)).
  - assert (Hwf3 : wf (renamed env s2 (dst ++ sub) (dst ++ [pn]))).
    { apply (wf_renamed env s2 (dst ++ sub) (dst ++ [pn]) n2); try done; [rewrite parent_snoc; unfold dir_at; by rewrite Hm|by destruct dst|by destruct dst]. }
    assert (Hstrip : ∀ e y, e ≠ pn → strip (dst ++ [pn]) (dst ++ e :: y) = None) by (intros e y He; apply strip_other; congruence).
    split; [|split; [|split]].
    + split; [done|]. intros q Hq. rewrite view_renamed. destruct (strip (dst ++ [pn]) q) as [x|] eqn:Hx.
      * exfalso. apply Hq. apply strip_some in Hx as ->. rewrite <-app_assoc. by apply prefix_app_r.
      * rewrite bool_decide_eq_false_2 by (intros Hb; apply Hq; etransitivity; [|exact Hb]; by apply prefix_app_r).
        apply (kp_view _ _ _ Hk2). intros Hb. apply Hq. etransitivity; [|exact Hb]. by apply prefix_app_r.
    + rewrite view_renamed. replace (strip (dst ++ [pn]) dst) with (@None path).
      * rewrite bool_decide_eq_false_2; [rewrite <-(app_nil_r dst) at 1; by apply Hv2|]. intros [y Hy]. apply (f_equal length) in Hy. rewrite !length_app in Hy. destruct sub; [done|]. cbn in Hy. lia.
      * symmetry. apply strip_none. intros [y Hy]. apply (f_equal length) in Hy. rewrite !length_app in Hy. cbn in Hy. lia.
    + intros y. rewrite view_renamed, strip_same. rewrite <-app_assoc. apply Hv2. intros z Hz. destruct sub as [|e l]; [done|]. injection Hz as Hz _. by apply (Hhead l); rewrite Hz.
    + intros e y He. rewrite <-(undated_none (view _ _)), view_renamed, Hstrip by done. case_bool_decide; [by left|]. right. apply Hv2. intros z [= Hz _]. done.
Qed.

(** All but the promoted directory goes. *)
Lemma pruned s3 : wf s3 → undated (view s3 dst) = undated (T []) →
  (∀ y, undated (view s3 (dst ++ pn :: y)) = undated (T (sub ++ y))) →
  (∀ e y, e ≠ pn → view s3 (dst ++ e :: y) = None ∨ undated (view s3 (dst ++ e :: y)) = undated (T (e :: y))) →
  ∃ l s4, ReadDir s3 (abs_path dst) = Some l ∧ each_entry (prune_entry env pn (abs_path dst)) s3 l = (s4, true)
    ∧ keeps (below dst) s3 s4 ∧ undated (view s4 dst) = undated (T [])
    ∧ (∀ y, undated (view s4 (dst ++ pn :: y)) = undated (T (sub ++ y)))
    ∧ ∀ e y, e ≠ pn → view s4 (dst ++ e :: y) = None.
Proof.
  intros Hwf Hr Hup Hrest. destruct (stage_root s3 Hr) as (m & Hm & _ & Hmd). assert (Hdd : dir_at s3 dst = true) by (unfold dir_at; by rewrite Hm).
  destruct (ReadDir_plain s3 dst Hwf Hdp Hdd) as (l & Hl & _ & Hin). exists l.
  assert (Hok : ∀ e x n, e ≠ pn → view s3 (dst ++ e :: x) = Some n → Forall proper (e :: x) ∧ is_subvol n = false).
  { intros e x n He Hn. destruct (Hrest e x He) as [Hv|Hv]; [congruence|]. split; [by eapply stage_proper|].
    pose proof (stage_subvol s3 (e :: x) _ ltac:(done) Hv) as Hs. unfold subvol_at in Hs. by rewrite Hn in Hs. }
  set (I := λ s, wf s ∧ dir_at s dst = true ∧ ∀ e x n, e ≠ pn → view s (dst ++ e :: x) = Some n → Forall proper (e :: x) ∧ is_subvol n = false).
  destruct (each_entry_removes (λ s e, removePathRecursive env s (JoinPath (abs_path dst) e)) I (λ e, e ≠ pn ∧ proper e) dst)
    with (l := filter (λ e, e ≠ pn) l) (s := s3) as (s4 & He & Hk & (Hwf4 & _ & _) & Hg).
  - intros s e (Hw & Hd & Hi) [Hne He]. rewrite JoinPath_one by done. unfold removePathRecursive.
    destruct (remove_path_spec env (size (fs_names s)) s (dst ++ [e])) as (s' & -> & Hk & Hg); [done|by apply dst_snoc|by destruct dst|by rewrite parent_snoc| |].
    { intros x n Hn. pose proof (path_bound s _ n Hw Hn) as Hb. rewrite !length_app in Hb. rewrite <-app_assoc in Hn.
      destruct (Hi e x n Hne Hn) as [Hp Hs]. apply Forall_cons in Hp as [_ Hp]. split_and!; [done|done|lia]. }
    exists s'. split_and!; [done|done|done|]. split; [apply Hk|]. split.
    + rewrite (keeps_dir _ _ _ dst Hk); [done|]. intros [y Hy]. apply (f_equal length) in Hy. rewrite !length_app in Hy. cbn in Hy. lia.
    + intros e' x n He' Hn. destruct (decide (e = e')) as [<-|Hee].
      * pose proof (Hg x) as Hx. rewrite <-app_assoc in Hx. cbn [app] in Hx. congruence.
      * pose proof (kp_view _ _ _ Hk (dst ++ e' :: x) ltac:(by intros Hb%below_snoc)) as Hv. destruct (undated_kind _ _ n Hv Hn) as (n' & Hn' & Hkd).
        destruct (Hi e' x n' He' Hn') as [Hp Hs]. split; [done|]. unfold is_subvol in *. by rewrite <-Hkd.
  - apply Forall_forall. intros e [Hne He]%list_elem_of_filter. split; [done|]. apply Hin in He as [n Hn]. destruct (Hok e [] n Hne Hn) as [Hp _]. by apply Forall_cons in Hp as [? _].
  - done.
  - by split_and!.
  - exists s4. rewrite each_entry_prune. split; [done|split; [exact He|]].
    assert (Hkeep : ∀ q, (∀ e x, e ≠ pn → q ≠ dst ++ e :: x) → undated (view s4 q) = undated (view s3 q)).
    { intros q Hq. apply (kp_view _ _ _ Hk). intros (e & [Hne _]%list_elem_of_filter & [x Hb]). apply (Hq e x Hne). by rewrite Hb, <-app_assoc. }
    split; [|split; [|split]].
    + eapply keeps_weaken, Hk. intros q (e & _ & [x Hb]). exists (e :: x). by rewrite Hb, <-app_assoc.
    + rewrite Hkeep; [done|]. intros e x _ Hx. apply (f_equal length) in Hx. rewrite length_app in Hx. cbn in Hx. lia.
    + intros y. rewrite Hkeep; [apply Hup|]. intros e x Hne Hx. apply app_inv_head in Hx. injection Hx as Hx _. by apply Hne.
    + intros e y Hne. destruct (decide (e ∈ l)) as [Hel|Hel].
      * pose proof (Hg e y ltac:(by apply list_elem_of_filter)) as Hx. by rewrite <-app_assoc in Hx.
      * change (e :: y) with ([e] ++ y). rewrite app_assoc. apply nothing_below_view; [done|]. apply (keeps_none _ _ _ _ Hk).
        -- intros (e' & [_ He']%list_elem_of_filter & Hb). apply below_snoc in Hb as ->. by apply Hel.
        -- destruct (view s3 (dst ++ [e])) as [n|] eqn:Hn; [|done]. destruct Hel. apply Hin. by eexists.
Qed.

Hypothesis Hfits : T (sub ++ [promoteDirName]) = None.

(** The contents of the promoted directory move up. *)
Lemma raised s4 : wf s4 → undated (view s4 dst) = undated (T []) → (∃ n, T sub = Some n ∧ is_dir n = true) →
  (∀ y, undated (view s4 (dst ++ pn :: y)) = undated (T (sub ++ y))) → (∀ e y, e ≠ pn → view s4 (dst ++ e :: y) = None) →
  ∃ l s5 s6, ReadDir s4 (JoinPath (abs_path dst) pn) = Some l
    ∧ each_entry (λ s e, Rename env s (JoinPath (JoinPath (abs_path dst) pn) e) (JoinPath (abs_path dst) e)) s4 l = (s5, true)
    ∧ Remove env s5 (JoinPath (abs_path dst) pn) = (s6, true)
    ∧ keeps (below dst) s4 s6 ∧ undated (view s6 dst) = undated (T [])
    ∧ ∀ e y, undated (view s6 (dst ++ e :: y)) = undated (T (sub ++ e :: y)).
Proof.
  intros Hwf Hr Hdir Hup Hnone. pose proof pn_proper as Hpn. pose proof (dst_snoc pn Hpn) as Hpp. rewrite JoinPath_one by done.
  assert (Hpd : dir_at s4 (dst ++ [pn]) = true).
  { eapply stage_dir; [done| |exact Hdir]. rewrite Hup. by rewrite app_nil_r. }
  destruct (stage_root s4 Hr) as (m & Hm & Hms & _). destruct (ReadDir_plain s4 (dst ++ [pn]) Hwf Hpp Hpd) as (l & Hl & Hnd & Hin). exists l.
  assert (Hfit : ∀ y, view s4 (dst ++ pn :: pn :: y) = None).
  { intros y. change (pn :: pn :: y) with ([pn; pn] ++ y). rewrite app_assoc. apply nothing_below_view; [done|]. apply undated_none. rewrite Hup. by apply undated_none. }
  assert (Hmov : movable dst pn s4).
  { split; [done|by exists m| |done]. intros [|e x] Hx; [done|]. destruct (decide (e = pn)) as [->|He].
    - apply (stage_subvol s4 (sub ++ x)); [by destruct sub|apply Hup].
    - unfold subvol_at. by rewrite Hnone. }
  assert (Hcan : Forall (can_move dst pn s4) l).
  { apply Forall_forall. intros e He. apply Hin in He as [n Hn]. rewrite <-app_assoc in Hn. cbn [app] in Hn.
    assert (Hne : e ≠ pn) by (intros ->; by rewrite Hfit in Hn). split_and!; [|done|by exists n|by apply Hnone].
    pose proof (stage_proper s4 _ _ n (Hup [e]) Hn) as Hp. apply Forall_app in Hp as [_ Hp]. by apply Forall_cons in Hp as [? _]. }
  destruct (moves_spec env dst pn Hdp Hdne Hpn l s4 Hnd Hcan Hmov) as (s5 & Hmv & Hm5 & Hk & Hgo).
  rewrite JoinPath_one in Hmv by done. destruct Hm5 as [Hwf5 _ _ Hpd5].
  assert (Hlist : ∀ e, view s4 (dst ++ [pn; e]) = None ∨ e ∈ l).
  { intros e. destruct (view s4 (dst ++ [pn; e])) as [n|] eqn:Hn; [|by left]. right. apply Hin. rewrite <-app_assoc. by eexists. }
  assert (Hno5 : ∀ e x, view s5 (dst ++ pn :: e :: x) = None).
  { intros e x. destruct (Hlist e) as [Hn|He]; [|by apply Hgo]. change (pn :: e :: x) with ([pn; e] ++ x). rewrite app_assoc. apply nothing_below_view; [done|].
    destruct (decide (e ∈ l)) as [He|He]; [by apply Hgo|]. apply (keeps_none _ _ _ _ Hk); [|done]. intros (e' & He' & [Hb|Hb]).
    - apply below_snoc in Hb as ->. apply (proj1 (Forall_forall _ _) Hcan) in He' as (_ & ? & _). done.
    - apply below_up in Hb as ->. done. }
  assert (Hne : dst ++ [pn] ≠ []) by by destruct dst.
  assert (Hpar5 : dir_at s5 (parent (dst ++ [pn])) = true) by by apply dir_parent.
  destruct (without_keeps env s5 (dst ++ [pn]) Hwf5 Hne Hpar5) as [Hk6 Hg6].
  exists s5, (touch env (without s5 (dst ++ [pn])) (dst ++ [pn])).
  split; [done|split; [exact Hmv|split; [apply Remove_dir; try done; intros e; rewrite <-app_assoc; apply Hno5|]]].
  assert (Hbelow : ∀ q, touched dst pn l q → below dst q) by (intros q (e & _ & [[x ->]|[x ->]]); rewrite <-app_assoc; by apply prefix_app_r).
  split; [|split].
  - eapply keeps_trans; [eapply keeps_weaken, Hk; exact Hbelow|eapply keeps_weaken, Hk6]. intros q [x ->]. rewrite <-app_assoc. by apply prefix_app_r.
  - rewrite (kp_view _ _ _ Hk6), (kp_view _ _ _ Hk); [done| |].
    + intros (e & _ & [[x Hx]|[x Hx]]); apply (f_equal length) in Hx; rewrite !length_app in Hx; cbn in Hx; lia.
    + intros [x Hx]; apply (f_equal length) in Hx; rewrite !length_app in Hx; cbn in Hx; lia.
  - intros e y. rewrite <-Hup. destruct (decide (e = pn)) as [->|He].
    + rewrite Hfit. apply undated_none. specialize (Hg6 y). by rewrite <-app_assoc in Hg6.
    + rewrite (kp_view _ _ _ Hk6) by (intros Hb%below_snoc; by apply He). destruct (decide (e ∈ l)) as [Hel|Hel]; [by apply Hgo|].
      destruct (Hlist e) as [Hn|?]; [|done]. rewrite (kp_view _ _ _ Hk).
      * rewrite Hnone by done. change (pn :: e :: y) with ([pn; e] ++ y). rewrite app_assoc. by rewrite (nothing_below_view s4 _ y Hwf Hn).
      * intros (e' & He' & [Hb|Hb]); [apply below_snoc in Hb as ->; done|by apply not_below_up in Hb].
Qed.
End snapshot.

(** ** Properties *)

(** C38: a snap of a directory is that directory. Of any path a request names, cleaned, that
    leads to a directory of the subvolume: what is in the snapshot at the end is what a
    snapshot of the whole has there, content for content, with its names, owners, modes
    and links; nothing of the rest of the subvolume is left in it, and its root is
    that of the subvolume. Nothing outside the snapshot has changed. Excepted are a
    directory with the name that the promotion uses, and one that contains it. *)
Theorem subdir_snapshot_is_subtree env `{BtrfsSpec env} `{!ReadOnlySpec} s src dst subdir root :
  wf s → Forall proper src → view s src = Some root → is_subvol root = true → free s dst →
  (∀ x, is_Some (view s (src ++ x)) → Forall proper x) →
  let sub := url_elems subdir in
  sub ≠ [] → (∀ x, sub ≠ promoteDirName :: x) → (∃ n, copied env s src sub = Some n ∧ is_dir n = true) →
  view s (src ++ sub ++ [promoteDirName]) = None →
  ∃ s', Snapshot env s (abs_path src) subdir (abs_path dst) = (s', true) ∧ keeps (below dst) s s'
    ∧ undated (view s' dst) = undated (Some root)
    ∧ ∀ e x, undated (view s' (dst ++ e :: x)) = undated (copied env s src (sub ++ e :: x)).
Proof.
  intros Hwf Hsrc Hroot Hsub Hdst Hnames sub Hne Hhead Hdir Hfits. pose proof (url_elems_proper subdir) as Hsp. fold sub in Hsp.
  destruct (snapshot_free s src dst root Hwf Hsrc Hroot Hsub Hdst) as (s1 & Hs1 & Hl1 & Hv1 & _).
  pose proof (keeps_leaves _ _ _ Hl1) as Hk1. pose proof (kp_wf _ _ _ Hk1) as Hwf1. destruct Hdst as [Hdp Hdne _ _].
  unfold Snapshot. rewrite validated, Hs1 by done. cbn zeta. fold sub. rewrite JoinPath_proper by done.
  assert (Hd1 : dir_at s1 (dst ++ sub) = true) by (destruct Hdir as (n & Hn & Hd); apply (stage_dir env src dst s s1 sub); try done; by exists n).
  unfold Lstat. rewrite (resolve_dir s1 false (dst ++ sub)) by (done || by apply Forall_app_2). cbn [mbind option_bind].
  destruct (dir_at_view s1 _ Hd1) as (n1 & -> & ->). cbn [negb].
  pose proof (conj Hroot Hsub) as Hr. assert (Hfits' : copied env s src (sub ++ [promoteDirName]) = None).
  { unfold copied. destruct (nested _ _ _); [done|]. by rewrite Hfits. }
  destruct (promoted env src dst sub s root Hdp Hdne Hsp Hne Hhead Hr s1 Hwf1 Hv1 Hdir) as (s2 & s3 & -> & -> & Hk3 & Hr3 & Hup3 & Hrest3).
  destruct (pruned env src dst sub s root Hdp Hdne Hr Hnames s3 (kp_wf _ _ _ Hk3) Hr3 Hup3 Hrest3) as (l & s4 & -> & -> & Hk4 & Hr4 & Hup4 & Hno4).
  destruct (raised env src dst sub s root Hdp Hdne Hsp Hne Hhead Hr Hnames Hfits' s4 (kp_wf _ _ _ Hk4) Hr4 Hdir Hup4 Hno4)
    as (l' & s5 & s6 & -> & -> & -> & Hk6 & Hr6 & Hv6).
  destruct (stage_root env src dst s root Hr s6 Hr6) as (m & Hm & Hms & _).
  rewrite (set_read_only s6 dst m (kp_wf _ _ _ Hk6) Hdp Hm Hms). exists s6. split; [done|split; [|split; [|done]]].
  - eapply keeps_trans; [exact Hk1|]. eapply keeps_trans; [exact Hk3|]. by eapply keeps_trans.
  - rewrite Hr6. by rewrite (T_root env src s root Hr).
Qed.

(** ** An example *)

Definition example_env : fs_env := MkFsEnv 18 7.
#[local] Instance example_btrfs : Btrfs := model_btrfs example_env.
#[local] Instance example_spec : BtrfsSpec example_env := model_spec example_env.
#[local] Instance example_read_only : ReadOnlySpec.
Proof.
  intros s p n Hwf Hp Hn Hs. change ((s, run_show s (abs_path p)) = (s, true)). unfold run_show, Stat.
  rewrite (resolve_dir s true p) by first [done|unfold dir_at, is_dir, is_subvol in *; rewrite Hn; by destruct (n_kind n)].
  cbn [mbind option_bind]. by rewrite Hn, Hs.
Qed.

Definition at_path (l : list string) : path := bs <$> l.
Definition folder : node := MkNode (KDir false) 493 0 0 1.
Definition subvol : node := MkNode (KDir true) 493 0 0 1.
Definition text (c : string) : node := MkNode (KFile (bs c)) 420 0 0 1.

(** A frame [f] with a home of its own and a link to the frames of another user. *)
Definition in_frame (x : list string) : path := at_path ("data" :: "u" :: "f" :: x)%string.
Definition example_fs : fs := fs_of
  [([], folder); (at_path ["data"], folder); (at_path ["data"; "snaps"], folder); (at_path ["data"; "u"], folder); (in_frame [], subvol);
   (in_frame ["etc"], folder); (in_frame ["etc"; "app"], folder); (in_frame ["etc"; "app"; "conf"], text "x=1"); (in_frame ["etc"; "app"; "d"], folder);
   (in_frame ["etc"; "app"; "d"; "more"], text "y=2"); (in_frame ["etc"; "passwd"], text "root"); (in_frame ["bin"], folder); (in_frame ["bin"; "sh"], text "#!");
   (in_frame ["home"], subvol); (in_frame ["home"; "work"], folder); (in_frame ["home"; "work"; "notes"], text "mine");
   (in_frame [".ts-subdir-promote"], folder); (in_frame [".ts-subdir-promote"; "old"], text "stale");
   (in_frame ["a"], MkNode (KSymlink (bs "/data/v")) 511 0 0 1);
   (at_path ["data"; "v"], folder); (at_path ["data"; "v"; "g"], subvol); (at_path ["data"; "v"; "g"; "key"], text "secret")]%string.
Definition example_src : path := in_frame [].
Definition example_dst : path := at_path ["data"; "snaps"; "t"]%string.
Definition example_snapshot (subdir : string) : fs * bool := Snapshot example_env example_fs (abs_path example_src) (bs subdir) (abs_path example_dst).


Lemma example_paths p : is_Some (fs_names example_fs !! p) → Forall proper p.
Proof.
  intros [i Hi]. assert (Hc : bool_decide (map_Forall (λ (q : path) (_ : N), Forall (λ e, e ≠ [] ∧ e ≠ dot ∧ e ≠ dotdot ∧ slash ∉ e) q) (fs_names example_fs)) = true)
    by (vm_compute; reflexivity).
  apply bool_decide_eq_true_1 in Hc. exact (Hc p i Hi).
Qed.

(** The directory [/etc/app], asked for in a roundabout way. *)
Lemma subdir_snapshot_is_subtree_witness :
  ∃ s', example_snapshot "x/../etc/./app/"%string = (s', true)
    ∧ undated (view s' (example_dst ++ [bs "conf"])) = undated (Some (text "x=1"))
    ∧ undated (view s' (example_dst ++ [bs "d"; bs "more"])) = undated (Some (text "y=2"))
    ∧ view s' (example_dst ++ [bs "etc"]) = None
    ∧ undated (view s' (in_frame ["etc"; "app"; "conf"]%string)) = undated (Some (text "x=1")).
Proof.
  destruct (subdir_snapshot_is_subtree example_env example_fs example_src example_dst (bs "x/../etc/./app/") subvol) as (s' & Hs & Hk & _ & Hv).
  - apply wf_checked. vm_compute. reflexivity.
  - apply example_paths. vm_compute. by eexists.
  - vm_compute. reflexivity.
  - reflexivity.
  - split; [|discriminate|vm_compute; reflexivity|vm_compute; reflexivity].
    repeat (apply Forall_cons_2; [by apply proper_name|]). apply Forall_nil_2.
  - intros x [n Hn]. destruct (view_some _ _ n Hn) as (i & Hi & _). assert (Hp : Forall proper (example_src ++ x)) by (apply example_paths; by exists i).
    by apply Forall_app in Hp as [_ ?].
  - vm_compute. discriminate.
  - intros x. vm_compute. discriminate.
  - eexists. split; [vm_compute; reflexivity|reflexivity].
  - vm_compute. reflexivity.
  - exists s'. split; [exact Hs|]. split_and!.
    + rewrite (Hv (bs "conf") []). vm_compute. reflexivity.
    + rewrite (Hv (bs "d") [bs "more"]). vm_compute. reflexivity.
    + apply undated_none. rewrite (Hv (bs "etc") []). vm_compute. reflexivity.
    + rewrite (kp_view _ _ _ Hk); [vm_compute; reflexivity|]. intros [x Hx]. discriminate Hx.
Defined.

(** ** What it does not promise *)

(** Symbolic links on the way are followed on the host: the frame of another user, reached
    through a link in this one, is moved into the snapshot, from where it cannot be moved
    on, so that the request fails and the frame is gone. *)
Lemma link_takes_other_frame :
  let '(s', ok) := example_snapshot "a/g"%string in
  ok = false ∧ view s' (at_path ["data"; "v"; "g"]%string) = None
  ∧ undated (view s' (example_dst ++ [promoteDirName; bs "key"])) = undated (Some (text "secret")).
Proof. vm_compute. split_and!; reflexivity. Qed.

(** The home of a frame is a subvolume of its own and empty in the snapshot: as a directory
    to snap it is empty, and what is below it is not found. *)
Lemma home_cannot_be_snapped :
  (let '(s', ok) := example_snapshot "home"%string in ok = true ∧ children s' example_dst = []) ∧ (example_snapshot "home/work"%string).2 = false.
Proof. vm_compute. split_and!; reflexivity. Qed.

(** A directory with the name of the promotion is deleted before it is promoted. *)
Lemma promotion_name_is_taken : (example_snapshot ".ts-subdir-promote"%string).2 = false.
Proof. vm_compute. reflexivity. Qed.

