(* ===== verification/Docker.v ===== *)
(** * Docker images as snaps ([src/cmd/thundersnapd/docker.go])

    An image is saved as a tar archive with a manifest and one archive per layer; the
    layers are extracted one over the other into a directory, whiteouts taking away what
    lower layers left. Reading tar and gzip and decoding the manifest belong to Go's
    library and are parameters. *)

From Stdlib Require Import Strings.String.
From S2P Require Import GoSort Prelude GoStrings GoPath HostFs.

(** ** Archives *)

Record tar_header := MkHeader {
  h_name : gostring; h_type : byte; h_link : gostring; h_mode : Z; h_uid : Z; h_gid : Z;
  h_mtime : Z; h_data : gostring; h_short : bool (** the archive ends within the data *)
}.
Definition TypeReg : byte := "0"%byte.
Definition TypeLink : byte := "1"%byte.
Definition TypeSymlink : byte := "2"%byte.
Definition TypeChar : byte := "3"%byte.
Definition TypeBlock : byte := "4"%byte.
Definition TypeDir : byte := "5"%byte.
Definition TypeFifo : byte := "6"%byte.

(** The entries that can be read, and whether an error comes after them. *)
Definition archive : Type := list tar_header * bool.

Inductive docker_error :=
| ErrTar | ErrManifest | ErrNoLayers | ErrTempFile | ErrLayerNotFound (name : gostring) | ErrOpen | ErrMagic | ErrGzip | ErrExtract.

(** [filepath.Base]: the last element that is not empty. *)
Definition Base (p : gostring) : gostring :=
  if bool_decide (p = []) then dot
  else match last (filter (λ e, e ≠ []) (Split p slash)) with Some e => e | None => [slash] end.

(** The permission bits the kernel gets for [os.FileMode(mode)]: setuid, setgid and
    sticky have other bits in Go. *)
Definition syscall_mode (mode : Z) : Z :=
  let i := u32 mode in
  Z.lor (Z.land i 511)
    (Z.lor (if Z.testbit i 23 then 2048 else 0) (Z.lor (if Z.testbit i 22 then 1024 else 0) (if Z.testbit i 20 then 512 else 0))).

Definition wh : gostring := bs ".wh.".
Definition opaque_whiteout : gostring := bs ".wh..wh..opq".

Section extract.
Context (env : fs_env) (destDir : gostring).

(** Every entry of a directory is removed; what cannot be read or removed stays. *)
Definition clear_opaque (s : fs) (target : gostring) : fs :=
  match ReadDir s target with
  | Some names => foldl (λ s name, (RemoveAll env s (JoinPath target name)).1) s names
  | None => s
  end.

Definition apply_whiteout (s : fs) (name : gostring) : fs :=
  let base := Base name in
  let dir := Dir name in
  if bool_decide (base = opaque_whiteout) then clear_opaque s (JoinPath destDir dir)
  else (RemoveAll env s (JoinPaths [destDir; dir; TrimPrefix base wh])).1.

(** Both times of a symbolic link, in microseconds. *)
Definition setSymlinkTimes (s : fs) (p : gostring) (mtime : Z) : fs := (Lutimes s p (mtime - mtime mod 1000)).1.

(** A hard link, or a copy when that fails; [None] when there is nothing to copy. *)
Definition extract_link (s : fs) (linkTarget target : gostring) : option (fs * bool) :=
  let s := (Remove env s target).1 in
  match Link env s linkTarget target with
  | (s, true) => Some (s, true)
  | (s, false) =>
      match Stat s linkTarget with
      | None => None
      | Some n =>
          match n_kind n with
          | KFile c => Some (CreateFile env s target (syscall_mode 438) c)
          | _ => Some ((CreateFile env s target (syscall_mode 438) []).1, false)
          end
      end
  end.

(** One entry, with the directories whose times are set later; [false] is an error. *)
Definition extract_entry (s : fs) (dirs : list (gostring * Z)) (hdr : tar_header) : fs * list (gostring * Z) * bool :=
  let name := h_name hdr in
  if HasPrefix (Base name) wh then (apply_whiteout s name, dirs, true)
  else
    let target := JoinPath destDir name in
    let mode := syscall_mode (h_mode hdr) in
    let owned s := (Lchown s target (h_uid hdr) (h_gid hdr)).1 in
    if bool_decide (h_type hdr = TypeDir) then
      match MkdirAll env s target mode with
      | (s, false) => (s, dirs, false)
      | (s, true) =>
          match Chmod s target mode with
          | (s, false) => (s, dirs, false)
          | (s, true) => (owned s, dirs ++ [(target, h_mtime hdr)], true)
          end
      end
    else if bool_decide (h_type hdr = TypeReg) then
      match MkdirAll env s (Dir target) 493 with
      | (s, false) => (s, dirs, false)
      | (s, true) =>
          let s := (Remove env s target).1 in
          match CreateFile env s target mode (h_data hdr) with
          | (s, false) => (s, dirs, false)
          | (s, true) => if h_short hdr then (s, dirs, false) else (owned (Chtimes s target (h_mtime hdr)).1, dirs, true)
          end
      end
    else if bool_decide (h_type hdr = TypeSymlink) then
      let s := (Remove env s target).1 in
      match Symlink env s (h_link hdr) target with
      | (s, false) => (s, dirs, false)
      | (s, true) => (owned (setSymlinkTimes s target (h_mtime hdr)), dirs, true)
      end
    else if bool_decide (h_type hdr = TypeLink) then
      match extract_link s (JoinPath destDir (h_link hdr)) target with
      | None => ((Remove env s target).1, dirs, true)
      | Some (s, false) => (s, dirs, false)
      | Some (s, true) => (owned s, dirs, true)
      end
    else if bool_decide (h_type hdr ∈ [TypeChar; TypeBlock; TypeFifo]) then (s, dirs, true)
    else (owned s, dirs, true).

Fixpoint extract_entries (s : fs) (dirs : list (gostring * Z)) (entries : list tar_header) : fs * list (gostring * Z) * bool :=
  match entries with
  | [] => (s, dirs, true)
  | hdr :: entries' =>
      match extract_entry s dirs hdr with
      | (s, dirs, true) => extract_entries s dirs entries'
      | failed => failed
      end
  end.

(** The deepest directories first; [sort.Slice] leaves open how equals are ordered. *)
Definition longer_first (x y : gostring * Z) : Prop := (length y.1 ≤ length x.1)%nat.
#[export] Instance longer_first_dec x y : Decision (longer_first x y).
Proof. unfold longer_first. apply _. Defined.
Definition set_dir_times (s : fs) (dirs : list (gostring * Z)) : fs :=
  foldl (λ s d, (Chtimes s d.1 d.2).1) s (merge_sort longer_first dirs).

Definition extract_archive (s : fs) (a : archive) : fs * option docker_error :=
  match extract_entries s [] a.1 with
  | (s, _, false) => (s, Some ErrExtract)
  | (s, dirs, true) => if a.2 then (s, Some ErrTar) else (set_dir_times s dirs, None)
  end.

(** ** Layers and images *)

Context (untar : gostring → archive) (gunzip : gostring → option gostring).
Context (parse_manifest : gostring → option (list (list gostring))).

Definition gzip_magic : gostring := [Byte.x1f; Byte.x8b].

(** [extractLayer], given what the file holds, if it is there. *)
Definition extractLayer (s : fs) (file : option gostring) : fs * option docker_error :=
  match file with
  | None => (s, Some ErrOpen)
  | Some data =>
      if (length data <? 2)%nat then (s, Some ErrMagic)
      else if bool_decide (take 2 data = gzip_magic) then
        match gunzip data with
        | None => (s, Some ErrGzip)
        | Some r => extract_archive s (untar r)
        end
      else extract_archive s (untar data)
  end.

(** The layers of the first manifest in the archive. *)
Fixpoint find_manifest (entries : list tar_header) (bad : bool) : outcome docker_error (list (list gostring)) :=
  match entries with
  | [] => if bad then Err ErrTar else Ret []
  | hdr :: entries' =>
      if bool_decide (h_name hdr = bs "manifest.json") then
        match parse_manifest (h_data hdr) with Some m => Ret m | None => Err ErrManifest end
      else find_manifest entries' bad
  end.

(** The temporary files by name, and the name of the file of each layer. *)
Record saved := MkSaved { sv_files : gmap gostring gostring; sv_layers : gmap gostring gostring }.

(** An entry is copied for every layer of its name; only the first copy gets the data. *)
Fixpoint save_entry (sv : saved) (layers : list gostring) (hdr : tar_header) (data : gostring) : outcome docker_error saved :=
  match layers with
  | [] => Ret sv
  | layerPath :: layers' =>
      if bool_decide (h_name hdr = layerPath) then
        let tmp := Base layerPath in
        if bool_decide (tmp ∈ [dot; dotdot; [slash]]) then Err ErrTempFile
        else
          let sv := MkSaved (<[tmp := data]> (sv_files sv)) (sv_layers sv) in
          if h_short hdr then Err ErrTempFile
          else save_entry (MkSaved (sv_files sv) (<[layerPath := tmp]> (sv_layers sv))) layers' hdr []
      else save_entry sv layers' hdr data
  end.
Fixpoint save_layers (sv : saved) (layers : list gostring) (entries : list tar_header) (bad : bool) : outcome docker_error saved :=
  match entries with
  | [] => if bad then Err ErrTar else Ret sv
  | hdr :: entries' => sv ← save_entry sv layers hdr (h_data hdr); save_layers sv layers entries' bad
  end.

Fixpoint extract_layers (s : fs) (sv : saved) (layers : list gostring) : fs * option docker_error :=
  match layers with
  | [] => (s, None)
  | layerPath :: layers' =>
      match sv_layers sv !! layerPath with
      | None => (s, Some (ErrLayerNotFound layerPath))
      | Some tmp =>
          match extractLayer s (sv_files sv !! tmp) with
          | (s, Some e) => (s, Some e)
          | (s, None) => extract_layers s (MkSaved (delete tmp (sv_files sv)) (sv_layers sv)) layers'
          end
      end
  end.

Definition flattenDockerTarball (s : fs) (tarball : gostring) : fs * option docker_error :=
  let a := untar tarball in
  match find_manifest a.1 a.2 with
  | Err e => (s, Some e)
  | Panic => (s, Some ErrTar)
  | Ret [] => (s, Some ErrNoLayers)
  | Ret ([] :: _) => (s, Some ErrNoLayers)
  | Ret (layers :: _) =>
      match save_layers (MkSaved ∅ ∅) layers a.1 a.2 with
      | Ret sv => extract_layers s sv layers
      | Err e => (s, Some e)
      | Panic => (s, Some ErrTar)
      end
  end.
End extract.

(** ** Layers as the specification of images sees them *)

(** What an entry of a layer says, by the path below the root of the image. *)
Inductive item :=
| PutDir (p : path) (mode uid gid mtime : Z)
| PutFile (p : path) (mode uid gid mtime : Z) (content : gostring)
| PutSymlink (p : path) (uid gid mtime : Z) (target : gostring)
| PutLink (p q : path) (uid gid : Z)      (** a hard link to [q] *)
| Hide (d : path) (e : gostring)          (** whatever is below [d] with this name goes *)
| HideAll (d : path).                     (** all that is in [d] goes *)

(** The entries of an archive that say it. *)
Definition tar_path (p : path) : gostring := Join p slash.
Definition entry_of (i : item) : tar_header :=
  match i with
  | PutDir p mode uid gid mtime => MkHeader (tar_path p ++ [slash]) TypeDir [] mode uid gid mtime [] false
  | PutFile p mode uid gid mtime content => MkHeader (tar_path p) TypeReg [] mode uid gid mtime content false
  | PutSymlink p uid gid mtime target => MkHeader (tar_path p) TypeSymlink target 511 uid gid mtime [] false
  | PutLink p q uid gid => MkHeader (tar_path p) TypeLink (tar_path q) 420 uid gid 0 [] false
  | Hide d e => MkHeader (tar_path (d ++ [wh ++ e])) TypeReg [] 0 0 0 0 [] false
  | HideAll d => MkHeader (tar_path (d ++ [opaque_whiteout])) TypeReg [] 0 0 0 0 [] false
  end.

Section images.
Context (env : fs_env).

(** An image is a map from paths to what is there. A directory has the permissions its
    entry says, a file those that the umask leaves of them. *)
Abbreviation image := (gmap path node).

Definition dir_node (mode uid gid mtime : Z) : node := MkNode (KDir false) mode uid gid mtime.
Definition file_node (mode uid gid mtime : Z) (content : gostring) : node :=
  MkNode (KFile content) (Z.land mode (Z.lnot (umask env))) uid gid mtime.
Definition symlink_node (uid gid mtime : Z) (target : gostring) : node :=
  MkNode (KSymlink target) 511 uid gid (mtime - mtime mod 1000).

Definition put (t : image) (i : item) : image :=
  match i with
  | PutDir p mode uid gid mtime => <[p := dir_node mode uid gid mtime]> t
  | PutFile p mode uid gid mtime content => <[p := file_node mode uid gid mtime content]> t
  | PutSymlink p uid gid mtime target => <[p := symlink_node uid gid mtime target]> t
  | PutLink p q _ _ => match t !! q with Some n => <[p := n]> t | None => t end
  | _ => t
  end.

Definition hides (i : item) (p : path) : Prop :=
  match i with
  | Hide d e => d ++ [e] `prefix_of` p
  | HideAll d => d `prefix_of` p ∧ p ≠ d
  | _ => False
  end.
#[export] Instance hides_dec i p : Decision (hides i p).
Proof. destruct i; cbn [hides]; apply _. Defined.
Definition hide (t : image) (i : item) : image := filter (λ '(p, _), ¬ hides i p) t.

(** A layer over the image of the layers below it: its whiteouts hide what is there, and
    then its files are put. *)
Definition apply_layer (t : image) (layer : list item) : image :=
  foldl put (filter (λ '(p, _), ¬ Exists (λ i, hides i p) layer) t) layer.
Definition image_of (layers : list (list item)) : image := foldl apply_layer ∅ layers.

(** Entry by entry, as an archive is read. *)
Definition one_by_one (t : image) (i : item) : image := put (hide t i) i.

(** No whiteout comes after something it would hide, and no path comes twice. *)
Definition item_paths (i : item) : list path :=
  match i with PutDir p _ _ _ _ | PutFile p _ _ _ _ _ | PutSymlink p _ _ _ _ => [p] | PutLink p q _ _ => [p; q] | _ => [] end.
Definition puts_at (i : item) (p : path) : Prop :=
  match i with PutDir q _ _ _ _ | PutFile q _ _ _ _ _ | PutSymlink q _ _ _ _ | PutLink q _ _ _ => q = p | _ => False end.
Fixpoint well_ordered (layer : list item) : Prop :=
  match layer with
  | [] => True
  | i :: layer' =>
      (∀ p, p ∈ item_paths i → Forall (λ j, ¬ hides j p) layer') ∧
      (∀ p, puts_at i p → Forall (λ j, ¬ puts_at j p) layer') ∧
      well_ordered layer'
  end.

Lemma hide_put_nothing (t : image) i : (∀ p, ¬ hides i p) → hide t i = t.
Proof. intros Hi. unfold hide. apply map_filter_id. intros p n _. apply Hi. Qed.

Lemma filter_put (P : path → Prop) `{∀ p, Decision (P p)} (t : image) i :
  (∀ p, p ∈ item_paths i → P p) → filter (λ '(p, _), P p) (put t i) = put (filter (λ '(p, _), P p) t) i.
Proof.
  intros Hi. destruct i as [p m u g mt|p m u g mt c|p u g mt tg|p q u g|d e|d]; cbn [put item_paths] in *; try done.
  - rewrite map_filter_insert_True; [done|]. apply Hi. by left.
  - rewrite map_filter_insert_True; [done|]. apply Hi. by left.
  - rewrite map_filter_insert_True; [done|]. apply Hi. by left.
  - assert (Hq : (filter (λ '(p, _), P p) t : image) !! q = t !! q).
    { rewrite map_lookup_filter. destruct (t !! q) as [n|]; [|done]. cbn. case_guard as HP; [done|]. destruct HP. apply Hi. by right; left. }
    rewrite Hq. destruct (t !! q) as [n|]; [|done]. rewrite map_filter_insert_True; [done|]. apply Hi. by left.
Qed.

Lemma one_by_one_layer t layer : well_ordered layer → foldl one_by_one t layer = apply_layer t layer.
Proof.
  unfold apply_layer. revert t. induction layer as [|i layer IH]; intros t; cbn [foldl well_ordered].
  { intros _. rewrite map_filter_id; [done|]. intros p n _ He. by apply Exists_nil in He. }
  intros (Hh & _ & Hl). rewrite (IH _ Hl). f_equal. unfold one_by_one.
  rewrite (filter_put (λ p, ¬ Exists (λ j, hides j p) layer)).
  - f_equal. unfold hide. rewrite map_filter_filter. apply map_filter_ext. intros p n _. rewrite Exists_cons. tauto.
  - intros p Hp. apply Forall_Exists_neg. by apply Hh.
Qed.

(** What a layer puts at a path stays there. *)
Lemma put_stays t i p : ¬ puts_at i p → put t i !! p = t !! p.
Proof.
  destruct i; cbn [put puts_at]; intros Hp; try (by rewrite lookup_insert_ne); try done.
  destruct (t !! q); [by rewrite lookup_insert_ne|done].
Qed.
Lemma hide_stays t i p : ¬ hides i p → hide t i !! p = t !! p.
Proof. intros Hp. unfold hide. rewrite map_lookup_filter. destruct (t !! p); [|done]. cbn. by case_guard. Qed.
Lemma layer_stays t layer p :
  Forall (λ j, ¬ hides j p) layer → Forall (λ j, ¬ puts_at j p) layer → foldl one_by_one t layer !! p = t !! p.
Proof.
  revert t. induction layer as [|i layer IH]; intros t; [done|]. cbn [foldl].
  intros [Hh Hhs]%Forall_cons [Hp Hps]%Forall_cons. rewrite IH by done. unfold one_by_one. by rewrite put_stays, hide_stays.
Qed.
Lemma layer_dirs t layer p mode uid gid mtime :
  well_ordered layer → PutDir p mode uid gid mtime ∈ layer →
  foldl one_by_one t layer !! p = Some (dir_node mode uid gid mtime).
Proof.
  revert t. induction layer as [|i layer IH]; intros t; [by intros _ ?%not_elem_of_nil|]. cbn [foldl well_ordered].
  intros (Hh & Hp & Hl) [<-|Hin]%elem_of_cons; [|by apply IH].
  rewrite layer_stays; [unfold one_by_one; cbn [put]; apply lookup_insert_eq|apply Hh; by left|by apply Hp].
Qed.
End images.

(** ** Lemmas: names in archives *)

Lemma no_slash_proper es : Forall proper es → Forall (λ e, slash ∉ e) es.
Proof. intros Hes. eapply Forall_impl; [exact Hes|]. by intros e (_ & _ & _ & ?). Qed.

Lemma Clean_fields fs :
  fs ≠ [] → Forall (λ e, slash ∉ e) fs → Clean (slash :: Join fs slash) = slash :: Join (clean_elems true [] fs) slash.
Proof. intros Hne Hfs. by rewrite Clean_slash, Split_Join. Qed.

Lemma filter_proper es : Forall proper es → filter (λ e, e ≠ []) es = es.
Proof. induction 1 as [|e es [He _] _ IH]; [done|]. by rewrite filter_cons_True, IH. Qed.

Lemma Base_path d e : Forall proper d → slash ∉ e → e ≠ [] → Base (tar_path (d ++ [e])) = e.
Proof.
  intros Hd He Hne. unfold Base, tar_path. rewrite bool_decide_eq_false_2.
  - rewrite Split_Join; [|by destruct d|apply Forall_app_2; [by apply no_slash_proper|]; by apply Forall_cons_2; [|apply Forall_nil_2]].
    rewrite filter_app, filter_proper, filter_cons_True by done. rewrite filter_nil. by rewrite last_snoc.
  - destruct d as [|x d]; [done|]. rewrite Join_app by done. by destruct (Join (x :: d) slash).
Qed.
Lemma Base_dir d e : Forall proper d → proper e → Base (tar_path (d ++ [e]) ++ [slash]) = e.
Proof.
  intros Hd He. pose proof He as (Hne & _ & _ & Hs). unfold Base, tar_path.
  assert (Heq : Join (d ++ [e]) slash ++ [slash] = Join ((d ++ [e]) ++ [[]]) slash) by (rewrite (Join_app (d ++ [e])); [done|by destruct d|done]).
  rewrite Heq. rewrite bool_decide_eq_false_2.
  - rewrite Split_Join; [|by destruct d|].
    + rewrite filter_app, filter_app, filter_proper, filter_cons_True by done. rewrite filter_nil, filter_cons_False by (by intros []).
      by rewrite filter_nil, app_nil_r, last_snoc.
    + apply Forall_app_2; [apply Forall_app_2; [by apply no_slash_proper|by apply Forall_cons_2; [|apply Forall_nil_2]]|].
      apply Forall_cons_2; [apply not_elem_of_nil|apply Forall_nil_2].
  - rewrite <- Heq. by destruct (Join (d ++ [e]) slash).
Qed.

Lemma IsAbs_relative e x : slash ∉ e → e ≠ [] → IsAbs (e ++ x) = false.
Proof.
  intros Hs Hne. unfold IsAbs, HasPrefix. destruct e as [|c e]; [done|]. cbn. apply bool_decide_eq_false. intros [= ->].
  apply Hs. by left.
Qed.

(** The directory of a relative path. *)
Definition rel_dir (d : path) : gostring := match d with [] => dot | _ => tar_path d end.

Lemma Dir_path d e : Forall proper d → slash ∉ e → e ≠ [] → Dir (tar_path (d ++ [e])) = rel_dir d.
Proof.
  intros Hd He Hne. unfold Dir, dir_part, tar_path.
  rewrite Split_Join; [|by destruct d|apply Forall_app_2; [by apply no_slash_proper|]; by apply Forall_cons_2; [|apply Forall_nil_2]].
  rewrite rev_app_distr. cbn [rev app]. destruct d as [|x d]; [done|].
  destruct (rev (x :: d)) as [|y l] eqn:Hrev; [by apply (f_equal length) in Hrev; rewrite length_rev in Hrev|]. rewrite <- Hrev, rev_involutive.
  pose proof Hd as Hd'. apply Forall_cons in Hd' as [(Hx1 & _ & _ & Hx2) _].
  assert (Habs : IsAbs (Join (x :: d) slash ++ [slash]) = false).
  { destruct d as [|x2 d]; [by apply IsAbs_relative|]. change (Join (x :: x2 :: d) slash) with (x ++ slash :: Join (x2 :: d) slash).
    rewrite <- (app_assoc x). by apply IsAbs_relative. }
  unfold Clean. rewrite Habs.
  assert (Heq : Join (x :: d) slash ++ [slash] = Join ((x :: d) ++ [[]]) slash) by (by rewrite (Join_app (x :: d))).
  rewrite Heq, Split_Join; [|done|].
  - rewrite clean_elems_trailing, clean_elems_proper by done. done.
  - apply Forall_app_2; [by apply no_slash_proper|]. apply Forall_cons_2; [apply not_elem_of_nil|apply Forall_nil_2].
Qed.

Lemma clean_dot stack es rest :
  Forall proper es → clean_elems true stack (es ++ dot :: rest) = clean_elems true (rev es ++ stack) rest.
Proof.
  intros Hes. revert stack. induction Hes as [|e es (H1 & H2 & H3 & _) _ IH]; intros stack; cbn [app clean_elems rev].
  - by rewrite orb_true_r.
  - rewrite !bool_decide_eq_false_2 by done. cbn [orb]. rewrite IH. by rewrite <- app_assoc.
Qed.

Section names.
Context (dest : path) (Hdest : Forall proper dest) (Hdne : dest ≠ []).

Lemma join_path p : Forall proper p → JoinPath (abs_path dest) (tar_path p) = abs_path (dest ++ p).
Proof. intros Hp. by apply JoinPath_proper. Qed.

Lemma join_dir_path p : Forall proper p → p ≠ [] → JoinPath (abs_path dest) (tar_path p ++ [slash]) = abs_path (dest ++ p).
Proof.
  intros Hp Hne. rewrite <- (Clean_trailing (dest ++ p)); [|by apply Forall_app_2|by destruct dest].
  assert (Heq : abs_path (dest ++ p) ++ [slash] = abs_path dest ++ slash :: tar_path p ++ [slash]).
  { unfold abs_path, tar_path. rewrite (Join_app dest p) by done. cbn [app]. by rewrite <- (app_assoc (Join dest slash)). }
  exact (f_equal Clean (eq_sym Heq)).
Qed.

Lemma join_rel_dir d : Forall proper d → JoinPath (abs_path dest) (rel_dir d) = abs_path (dest ++ d).
Proof.
  intros Hd. destruct d as [|x d]; [|by apply join_path]. cbn [rel_dir]. rewrite app_nil_r.
  unfold JoinPath, JoinPaths. cbn [abs_path]. fold (abs_path dest). cbn [Join]. unfold abs_path. cbn [app].
  rewrite <- (Join_app dest [dot]) by done. rewrite Clean_fields.
  - rewrite clean_dot by done. cbn [clean_elems]. by rewrite app_nil_r, rev_involutive.
  - by destruct dest.
  - apply Forall_app_2; [by apply no_slash_proper|]. apply Forall_cons_2; [|apply Forall_nil_2]. by apply (bool_decide_unpack _).
Qed.

Lemma join_below d e : Forall proper d → proper e → JoinPaths [abs_path dest; rel_dir d; e] = abs_path (dest ++ d ++ [e]).
Proof.
  intros Hd He. assert (He1 : Forall proper [e]) by (by apply Forall_cons_2; [|apply Forall_nil_2]).
  destruct d as [|x d].
  - cbn [rel_dir JoinPaths abs_path]. fold (abs_path dest). cbn [Join]. unfold abs_path. cbn [app].
    assert (Heq : Join dest slash ++ slash :: dot ++ slash :: e = Join (dest ++ [dot; e]) slash) by (by rewrite (Join_app dest)).
    rewrite Heq, Clean_fields.
    + rewrite clean_dot, clean_elems_proper by done. by rewrite app_nil_r, rev_involutive.
    + by destruct dest.
    + apply Forall_app_2; [by apply no_slash_proper|]. apply Forall_cons_2; [by apply (bool_decide_unpack _)|]. apply Forall_cons_2; [apply He|apply Forall_nil_2].
  - rewrite <- (join_path ((x :: d) ++ [e])) by (by apply Forall_app_2). cbn [rel_dir JoinPaths JoinPath abs_path]. fold (abs_path dest).
    f_equal. unfold tar_path. rewrite (Join_app (x :: d) [e]) by done. done.
Qed.
End names.

(** ** Lemmas: the extracted directory and the image *)

Section simulation.
Context (env : fs_env) (dest : path) (Hdest : Forall proper dest) (Hdne : dest ≠ []).
(** The directories of the layer, whose times are set in the end. *)
Context (D : list path).
Abbreviation image := (gmap path node).

Definition normal (p : path) (n : node) : node := if bool_decide (p ∈ D) && is_dir n then set_mtime 0 n else n.

Record extracted (s0 s : fs) (t : image) : Prop := {
  ex_wf : wf s;
  ex_dest : dir_at s dest = true;
  ex_tree : ∀ p, p ≠ [] → normal p <$> view s (dest ++ p) = normal p <$> t !! p;
  ex_host : ∀ q, ¬ dest `prefix_of` q → view s q = view s0 q;
}.

Lemma normal_is_dir p n : is_dir (normal p n) = is_dir n.
Proof. unfold normal. by destruct (_ && _). Qed.
Lemma normal_file p n n' : normal p n = normal p n' → is_dir n = false → n = n'.
Proof.
  intros Heq Hd. assert (Hd' : is_dir n' = false) by (by rewrite <- (normal_is_dir p n'), <- Heq, normal_is_dir).
  unfold normal in Heq. by rewrite Hd, Hd', andb_false_r in Heq.
Qed.
Lemma normal_outside p n : p ∉ D → normal p n = n.
Proof. intros Hp. unfold normal. by rewrite bool_decide_eq_false_2. Qed.
Lemma normal_kind p n : n_kind (normal p n) = n_kind n.
Proof. unfold normal. by destruct (_ && _). Qed.
Lemma normal_mtime p n t : p ∈ D → is_dir n = true → normal p (set_mtime t n) = normal p n.
Proof. intros Hp Hd. unfold normal. rewrite bool_decide_eq_true_2 by done. cbn. change (is_dir (set_mtime t n)) with (is_dir n). by rewrite Hd. Qed.

Section one.
Context (s0 s : fs) (t : image) (Hex : extracted s0 s t).

Lemma ex_none p : p ≠ [] → t !! p = None → view s (dest ++ p) = None.
Proof. intros Hp Ht. pose proof (ex_tree _ _ _ Hex p Hp) as H. rewrite Ht in H. by destruct (view s (dest ++ p)). Qed.
Lemma ex_some p n : p ≠ [] → t !! p = Some n → ∃ n', view s (dest ++ p) = Some n' ∧ normal p n' = normal p n.
Proof.
  intros Hp Ht. pose proof (ex_tree _ _ _ Hex p Hp) as H. rewrite Ht in H. destruct (view s (dest ++ p)) as [n'|]; [|done].
  exists n'. split; [done|]. by injection H.
Qed.
Lemma ex_file p n : p ≠ [] → t !! p = Some n → is_dir n = false → view s (dest ++ p) = Some n.
Proof.
  intros Hp Ht Hd. destruct (ex_some p n Hp Ht) as (n' & Hv & Hn). rewrite Hv. f_equal. symmetry. by apply (normal_file p n n').
Qed.

Definition tdir (p : path) : Prop := p = [] ∨ ∃ n, t !! p = Some n ∧ is_dir n = true.
Lemma tdir_at p : tdir p → dir_at s (dest ++ p) = true.
Proof.
  destruct (decide (p = [])) as [->|Hp]; [rewrite app_nil_r; intros _; apply Hex|]. intros [|(n & Ht & Hd)]; [done|].
  destruct (ex_some p n Hp Ht) as (n' & Hv & Hn). unfold dir_at. rewrite Hv. by rewrite <- (normal_is_dir p), Hn, normal_is_dir.
Qed.
Lemma below_parent p : p ≠ [] → tdir (parent p) → dir_at s (parent (dest ++ p)) = true.
Proof. intros Hp Hd. rewrite parent_app by done. by apply tdir_at. Qed.

Definition parent_ok (p : path) : Prop := p ≠ [] ∧ tdir (parent p) ∧ (parent p = [] ∨ parent p ∈ D).

(** The time of the parent does not count. *)
Lemma stamped_normal p q :
  parent_ok p → q ≠ [] → normal q <$> stamped env (dest ++ p) (dest ++ q) (view s (dest ++ q)) = normal q <$> t !! q.
Proof.
  intros (Hp & Hd & Hl) Hq. rewrite <- (ex_tree _ _ _ Hex q Hq). unfold stamped, with_parent. rewrite parent_app by done.
  case_bool_decide as Heq; [|done]. apply app_inv_head in Heq. subst q. destruct Hl as [Hl|Hl]; [done|].
  pose proof (tdir_at _ Hd) as Hdir. unfold dir_at in Hdir. destruct (view s (dest ++ parent p)) as [n|]; [|done]. cbn. f_equal.
  by apply normal_mtime.
Qed.
Lemma stamped_host p q : p ≠ [] → ¬ dest `prefix_of` q → stamped env (dest ++ p) q (view s q) = view s0 q.
Proof.
  intros Hp Hq. rewrite <- (ex_host _ _ _ Hex q Hq). unfold stamped, with_parent. rewrite parent_app by done.
  rewrite bool_decide_eq_false_2; [done|]. intros ->. apply Hq. by apply prefix_app_r.
Qed.
Lemma stamped_dir p q : dir_at s q = true → is_Some (stamped env p q (view s q)) ∧ (∀ n, stamped env p q (view s q) = Some n → is_dir n = true).
Proof.
  intros Hd. destruct (dir_at_view s q Hd) as (n & -> & Hn). unfold stamped, with_parent. case_bool_decide; cbn; split; [by eexists| |by eexists|]; by intros m [= <-].
Qed.

Lemma app_ne_nil p : p ≠ [] → dest ++ p ≠ [].
Proof. by destruct dest. Qed.
Lemma not_below p q : p ≠ [] → ¬ dest `prefix_of` q → ¬ (dest ++ p) `prefix_of` q.
Proof. intros Hp Hq Hpre. apply Hq. etransitivity; [|exact Hpre]. by apply prefix_app_r. Qed.

(** Something new, with its attributes set one after the other. *)
Lemma extracted_new p k mode f g :
  parent_ok p → t !! p = None → keeps_kind f → keeps_kind g →
  let s1 := new_node env s (dest ++ p) k mode in
  extracted s0 (change (change s1 (dest ++ p) f) (dest ++ p) g) (<[p := g (f (MkNode k mode 0 0 (clock env)))]> t).
Proof.
  intros Hok Ht Hf Hg. pose proof Hok as (Hp & Hd & Hl). cbn zeta.
  pose proof (new_node_spec env s (dest ++ p) k mode (ex_wf _ _ _ Hex) (app_ne_nil p Hp) (below_parent p Hp Hd) (ex_none p Hp Ht)) as Hnew.
  cbn zeta in Hnew. destruct Hnew as (Hwf1 & Hv1 & Ha1). set (s1 := new_node env s (dest ++ p) k mode) in *.
  assert (Ha2 : ∀ r, fs_names (change s1 (dest ++ p) f) !! r = fs_names (change s1 (dest ++ p) f) !! (dest ++ p) → r = dest ++ p)
    by (intros r; rewrite change_names; apply Ha1).
  assert (Hv : ∀ q, view (change (change s1 (dest ++ p) f) (dest ++ p) g) q =
                    if bool_decide (q = dest ++ p) then Some (g (f (MkNode k mode 0 0 (clock env)))) else stamped env (dest ++ p) q (view s q)).
  { intros q. rewrite view_change_alone, view_change_alone, Hv1 by done. by case_bool_decide. }
  split.
  - by apply wf_change, wf_change.
  - unfold dir_at. rewrite Hv, bool_decide_eq_false_2.
    + destruct (stamped_dir (dest ++ p) dest (ex_dest _ _ _ Hex)) as [[n Hn] Hdir]. rewrite Hn. by apply Hdir.
    + intros Heq. rewrite <- (app_nil_r dest) in Heq at 1. by apply app_inv_head in Heq.
  - intros q Hq. rewrite Hv. destruct (decide (q = p)) as [->|Hne].
    + rewrite bool_decide_eq_true_2 by done. by rewrite lookup_insert_eq.
    + rewrite bool_decide_eq_false_2 by (by intros ?%app_inv_head). rewrite lookup_insert_ne by done. by apply stamped_normal.
  - intros q Hq. rewrite Hv, bool_decide_eq_false_2; [by apply stamped_host|]. intros ->. apply Hq. by apply prefix_app_r.
Qed.

(** What is at a path goes, with all that is below it. *)
Lemma extracted_without p :
  parent_ok p → extracted s0 (touch env (without s (dest ++ p)) (dest ++ p)) (filter (λ '(q, _), ¬ p `prefix_of` q) t).
Proof.
  intros Hok. pose proof Hok as (Hp & Hd & Hl).
  destruct (without_spec env s (dest ++ p) (ex_wf _ _ _ Hex) (app_ne_nil p Hp) (below_parent p Hp Hd)) as [Hwf Hv]. split; [done| | |].
  - unfold dir_at. rewrite Hv, bool_decide_eq_false_2.
    + destruct (stamped_dir (dest ++ p) dest (ex_dest _ _ _ Hex)) as [[n Hn] Hdir]. rewrite Hn. by apply Hdir.
    + intros [x Hx]. apply (f_equal length) in Hx. rewrite !length_app in Hx. destruct p; [done|]. cbn in Hx. lia.
  - intros q Hq. rewrite Hv, map_lookup_filter. pose proof (stamped_normal p q Hok Hq) as Hn.
    case_bool_decide as Hpre.
    + apply prefix_app_inv in Hpre. destruct (t !! q); [|done]. cbn. by case_guard.
    + assert (Hpre' : ¬ p `prefix_of` q) by (intros ?; apply Hpre; by apply prefix_app). rewrite Hn.
      destruct (t !! q); [|done]. cbn. by case_guard.
  - intros q Hq. rewrite Hv, bool_decide_eq_false_2 by (by apply not_below). by apply stamped_host.
Qed.
Lemma nothing_hidden p : p ≠ [] → view s (dest ++ p) = None → ∀ q, p `prefix_of` q → t !! q = None.
Proof.
  intros Hp Hn q [x ->]. assert (Hq : view s (dest ++ p ++ x) = None).
  { apply view_names in Hn; [|apply Hex]. unfold view. destruct (fs_names s !! (dest ++ p ++ x)) as [i|] eqn:Hi; [|done]. exfalso.
    rewrite app_assoc in Hi. destruct (above_exists s (dest ++ p) x (ex_wf _ _ _ Hex)) as [j Hj]; [by exists i|]. by rewrite Hn in Hj. }
  pose proof (ex_tree _ _ _ Hex (p ++ x)) as Ht. rewrite Hq in Ht. destruct (t !! (p ++ x)); [|done].
  exfalso. by assert (p ++ x ≠ []) as ?%Ht by (by destruct p).
Qed.

Lemma extracted_RemoveAll p :
  Forall proper p → parent_ok p → extracted s0 (RemoveAll env s (abs_path (dest ++ p))).1 (filter (λ '(q, _), ¬ p `prefix_of` q) t).
Proof.
  intros Hpp Hok. pose proof Hok as (Hp & Hd & Hl).
  rewrite RemoveAll_plain; [|apply Hex|by apply Forall_app_2|by apply app_ne_nil|by apply below_parent]. cbn [fst].
  destruct (view s (dest ++ p)) as [n|] eqn:Hv; [by apply extracted_without|].
  rewrite map_filter_id; [done|]. intros q n Hq Hpre. by rewrite (nothing_hidden p Hp Hv q Hpre) in Hq.
Qed.

(** A file that is replaced goes alone. *)
Lemma extracted_Remove p :
  Forall proper p → parent_ok p → (∀ n, t !! p = Some n → is_dir n = false) →
  extracted s0 (Remove env s (abs_path (dest ++ p))).1 (delete p t).
Proof.
  intros Hpp Hok Hdir. pose proof Hok as (Hp & Hd & Hl). pose proof (ex_wf _ _ _ Hex) as Hwf.
  pose proof (Remove_plain env s (dest ++ p) (ex_wf _ _ _ Hex) ltac:(by apply Forall_app_2) (app_ne_nil p Hp) (below_parent p Hp Hd)) as Hr.
  destruct (t !! p) as [n|] eqn:Ht.
  - specialize (Hdir n eq_refl). pose proof (ex_file p n Hp Ht Hdir) as Hv. rewrite Hv in Hr. rewrite (Hr Hdir). cbn [fst].
    pose proof (extracted_without p Hok) as He. destruct He as [H1 H2 H3 H4]. split; [done|done| |done].
    intros q Hq. rewrite (H3 q Hq). f_equal. destruct (decide (q = p)) as [->|Hne].
    + rewrite lookup_delete_eq. apply map_lookup_filter_None. right. intros ? _ Hn. by apply Hn.
    + rewrite lookup_delete_ne by done. destruct (t !! q) as [m|] eqn:Hm; [|apply map_lookup_filter_None; by left].
      apply map_lookup_filter_Some. split; [done|]. intros Hpre. apply Hne. destruct (ex_some q m Hq Hm) as (m' & Hvm & _).
      apply (app_inv_head dest). apply (nothing_below s); [done| |by apply prefix_app|].
      * intros e. apply no_children; [done|]. unfold dir_at. by rewrite Hv.
      * destruct (view_some s _ _ Hvm) as (i & Hi & _). by exists i.
  - rewrite (ex_none p Hp Ht) in Hr. rewrite Hr. cbn [fst]. by rewrite delete_id.
Qed.
End one.
End simulation.

(** ** Lemmas: one entry *)

Lemma on_new env s p k mode follow f g :
  wf s → Forall proper p → p ≠ [] → dir_at s (parent p) = true → view s p = None → keeps_kind f →
  (follow = true → ∀ t, k ≠ KSymlink t) →
  let s1 := new_node env s p k mode in
  on_node s1 follow (abs_path p) f = (change s1 p f, true) ∧
  on_node (change s1 p f) false (abs_path p) g = (change (change s1 p f) p g, true).
Proof.
  intros Hwf Hpp Hp Hd Hn Hf Hk. cbn zeta. destruct (new_node_spec env s p k mode Hwf Hp Hd Hn) as (Hwf1 & Hv1 & Ha1).
  set (s1 := new_node env s p k mode) in *. set (nd := MkNode k mode 0 0 (clock env)) in *.
  assert (Hvp : view s1 p = Some nd) by (by rewrite Hv1, bool_decide_eq_true_2).
  assert (Hd1 : dir_at s1 (parent p) = true).
  { unfold dir_at. rewrite Hv1, bool_decide_eq_false_2 by (by apply parent_ne).
    destruct (stamped_dir env s p (parent p) Hd) as [[n Hsn] Hdir]. rewrite Hsn. by apply Hdir. }
  split; [by apply (on_node_plain s1 p Hwf1 Hpp Hd1 follow f nd)|].
  apply (on_node_plain (change s1 p f) p (wf_change s1 p f Hf Hwf1) Hpp) with (f nd); [by rewrite dir_at_change| |done].
  by rewrite view_change_alone, bool_decide_eq_true_2, Hvp.
Qed.

(** The nine usual bits: what the extraction does with setuid, setgid and sticky bits is
    not what it is meant to do ([sticky_bit_lost]). *)
Definition mode_ok (mode : Z) : Prop := 0 ≤ mode < 512.
Lemma syscall_mode_small mode : mode_ok mode → syscall_mode mode = mode.
Proof.
  unfold mode_ok. intros Hm. unfold syscall_mode. rewrite u32_id by (unfold is_u32; lia).
  assert (Hb : ∀ k, 9 ≤ k → Z.testbit mode k = false).
  { intros k Hk. destruct (decide (mode = 0)) as [->|]; [apply Z.bits_0|]. apply Z.bits_above_log2; [lia|].
    assert (Z.log2 mode < 9) by (apply Z.log2_lt_pow2; lia). lia. }
  rewrite !Hb by lia. cbn zeta. rewrite !Z.lor_0_r.
  change 511 with (Z.ones 9). rewrite Z.land_ones by lia. apply Z.mod_small. lia.
Qed.

Section entries.
Context (env : fs_env) (dest : path) (Hdest : Forall proper dest) (Hdne : dest ≠ []) (D : list path).
Abbreviation image := (gmap path node).

(** The last element is not taken for a whiteout. *)
Definition plain_path (p : path) : Prop :=
  Forall proper p ∧ match last p with Some e => HasPrefix e wh = false | None => False end.
Definition no_dir_at (t : image) (p : path) : Prop := match t !! p with Some n => is_dir n = false | None => True end.

(** An entry fits on the image of what is below: it has a directory to go to, which is in
    the layer too, does not put a file for a directory or the other way round, and a hard
    link goes to a file that is there and has its owner. *)
Definition fits (t : image) (i : item) : Prop :=
  match i with
  | PutDir p mode _ _ _ =>
      plain_path p ∧ parent_ok D t p ∧ mode_ok mode ∧ p ∈ D ∧
      match t !! p with Some n => n_kind n = KDir false | None => True end
  | PutFile p mode _ _ _ _ => plain_path p ∧ parent_ok D t p ∧ mode_ok mode ∧ p ∉ D ∧ no_dir_at t p
  | PutSymlink p _ _ _ _ => plain_path p ∧ parent_ok D t p ∧ p ∉ D ∧ no_dir_at t p
  | PutLink p q u g =>
      plain_path p ∧ parent_ok D t p ∧ p ∉ D ∧ no_dir_at t p ∧ Forall proper q ∧ q ≠ [] ∧ q ≠ p ∧ tdir t (parent q) ∧
      ∃ n, t !! q = Some n ∧ is_dir n = false ∧ n_uid n = u ∧ n_gid n = g
  | Hide d e => Forall proper d ∧ proper e ∧ wh ++ e ≠ opaque_whiteout ∧ tdir t d ∧ (d = [] ∨ d ∈ D)
  | HideAll d => Forall proper d ∧ tdir t d ∧ (d = [] ∨ d ∈ D)
  end.

Lemma plain_snoc p : plain_path p → ∃ d e, p = d ++ [e] ∧ Forall proper d ∧ proper e ∧ HasPrefix e wh = false.
Proof.
  intros [Hp Hl]. destruct p as [|e d _] using rev_ind; [done|]. rewrite last_snoc in Hl.
  apply Forall_app in Hp as [Hd He]. apply Forall_cons in He as [He _]. eauto 10.
Qed.
Lemma plain_base p : plain_path p → HasPrefix (Base (tar_path p)) wh = false ∧ HasPrefix (Base (tar_path p ++ [slash])) wh = false.
Proof.
  intros (d & e & -> & Hd & He & Hw)%plain_snoc. split; [rewrite Base_path; [done|done|by apply He|by apply He]|by rewrite Base_dir].
Qed.

Section one.
Context (s0 s : fs) (t : image) (Hex : extracted dest D s0 s t).

Lemma retimed s' t' p n n' :
  normal D p n = normal D p n' → extracted dest D s0 s' (<[p := n]> t') → extracted dest D s0 s' (<[p := n']> t').
Proof.
  intros Hn [H1 H2 H3 H4]. split; [done|done| |done]. intros q Hq. rewrite (H3 q Hq).
  destruct (decide (q = p)) as [->|Hne]; [rewrite !lookup_insert_eq; cbn; by f_equal|by rewrite !lookup_insert_ne].
Qed.

(** A directory that is there already gets its mode and owner. *)
Lemma extracted_dir p n mode uid gid mtime :
  parent_ok D t p → p ∈ D → t !! p = Some n → n_kind n = KDir false →
  extracted dest D s0 (change (change s (dest ++ p) (set_mode mode)) (dest ++ p) (set_owner uid gid))
    (<[p := MkNode (KDir false) mode uid gid mtime]> t).
Proof.
  intros Hok HpD Ht Hk. pose proof Hok as (Hp & Hd & Hl).
  destruct (ex_some dest D s0 s t Hex p n Hp Ht) as (n' & Hv & Hn).
  assert (Hk' : n_kind n' = KDir false) by (by rewrite <- (normal_kind D p), Hn, normal_kind).
  assert (Hdir : dir_at s (dest ++ p) = true) by (unfold dir_at, is_dir; by rewrite Hv, Hk').
  destruct Hex as [Hwf Hde Htr Hho].
  assert (Hview : ∀ q, view (change (change s (dest ++ p) (set_mode mode)) (dest ++ p) (set_owner uid gid)) q =
            if bool_decide (q = dest ++ p) then Some (MkNode (KDir false) mode uid gid (n_mtime n')) else view s q).
  { intros q. rewrite view_change_dir, view_change_dir; [|done|done|by apply wf_change|by rewrite dir_at_change].
    case_bool_decide as Hq; [|done]. rewrite Hq, Hv. cbn. unfold set_owner, set_mode. cbn. by rewrite Hk'. }
  split.
  - by apply wf_change, wf_change.
  - by rewrite !dir_at_change.
  - intros q Hq. rewrite Hview. destruct (decide (q = p)) as [->|Hne].
    + rewrite bool_decide_eq_true_2 by done. rewrite lookup_insert_eq. cbn. f_equal. unfold normal. by rewrite bool_decide_eq_true_2.
    + rewrite bool_decide_eq_false_2 by (by intros ?%app_inv_head). rewrite lookup_insert_ne by done. by apply Htr.
  - intros q Hq. rewrite Hview, bool_decide_eq_false_2; [by apply Hho|]. intros ->. apply Hq. by apply prefix_app_r.
Qed.

(** One more name for a file. *)
Lemma extracted_link p q n :
  Forall proper p → parent_ok D t p → Forall proper q → q ≠ [] → tdir t (parent q) → t !! p = None → t !! q = Some n → is_dir n = false →
  ∃ s1, Link env s (abs_path (dest ++ q)) (abs_path (dest ++ p)) = (s1, true) ∧ view s1 (dest ++ p) = Some n ∧
        extracted dest D s0 s1 (<[p := n]> t).
Proof.
  intros Hpp Hok Hqq Hq Hqd Ht Htq Hdir. pose proof Hok as (Hp & Hd & Hl). pose proof (ex_wf _ _ _ _ _ Hex) as Hwf.
  pose proof (ex_none dest D s0 s t Hex p Hp Ht) as Hvp. pose proof (ex_file dest D s0 s t Hex q n Hq Htq Hdir) as Hvq.
  pose proof (below_parent dest D s0 s t Hex p Hp Hd) as Hpar. destruct (view_some s _ n Hvq) as (i & Hi & Hni).
  assert (Hpne : dest ++ p ≠ []) by (by destruct dest).
  unfold Link. rewrite (resolve_child s (dest ++ q)); [|done|by apply Forall_app_2|by destruct dest|by eapply below_parent].
  rewrite (resolve_child s (dest ++ p)); [|done|by apply Forall_app_2|done|done]. rewrite Hi, Hvq, Hvp, Hdir.
  set (s1 := MkFs (<[dest ++ p := i]> (fs_names s)) (fs_nodes s) (fs_next s)). eexists. split; [done|].
  assert (Hwf1 : wf s1).
  { apply (wf_insert s (dest ++ p) i n); try done; [by apply (wf_next s Hwf _ i Hi)|by left]. }
  assert (Hv1 : ∀ r, view s1 r = if bool_decide (r = dest ++ p) then Some n else view s r).
  { intros r. unfold view, s1. cbn. case_bool_decide as Hr; [subst r; rewrite lookup_insert_eq; exact Hni|by rewrite lookup_insert_ne]. }
  assert (Hd1 : dir_at s1 (parent (dest ++ p)) = true).
  { unfold dir_at. rewrite Hv1, bool_decide_eq_false_2 by (by apply parent_ne). exact Hpar. }
  assert (Hv : ∀ r, view (touch env s1 (dest ++ p)) r = if bool_decide (r = dest ++ p) then Some n else stamped env (dest ++ p) r (view s r)).
  { intros r. rewrite (view_touch env s1 _ r Hwf1 Hd1), !Hv1. unfold stamped, with_parent.
    destruct (decide (r = dest ++ p)) as [->|Hne]; [|by rewrite !(bool_decide_eq_false_2 (r = dest ++ p))].
    rewrite (bool_decide_eq_true_2 (dest ++ p = dest ++ p)) by done. rewrite bool_decide_eq_false_2; [done|]. intros Heq. by apply (parent_ne (dest ++ p)). }
  split; [by rewrite Hv, bool_decide_eq_true_2|]. split.
  - by apply wf_touch.
  - unfold dir_at. rewrite Hv, bool_decide_eq_false_2.
    + destruct (stamped_dir env s (dest ++ p) dest (ex_dest _ _ _ _ _ Hex)) as [[m Hm] Hdm]. rewrite Hm. by apply Hdm.
    + intros Heq. rewrite <- (app_nil_r dest) in Heq at 1. by apply app_inv_head in Heq.
  - intros r Hr. rewrite Hv. destruct (decide (r = p)) as [->|Hne].
    + rewrite bool_decide_eq_true_2 by done. by rewrite lookup_insert_eq.
    + rewrite bool_decide_eq_false_2 by (by intros ?%app_inv_head). rewrite lookup_insert_ne by done. by eapply stamped_normal.
  - intros r Hr. rewrite Hv, bool_decide_eq_false_2; [by eapply stamped_host|]. intros ->. apply Hr. by apply prefix_app_r.
Qed.
End one.
End entries.

Section steps.
Context (env : fs_env) (dest : path) (Hdest : Forall proper dest) (Hdne : dest ≠ []) (D : list path).
Abbreviation image := (gmap path node).
Abbreviation extracted := (extracted dest D).

(** The directories whose times are to be set. *)
Definition times_of (i : item) : list (gostring * Z) :=
  match i with PutDir p _ _ _ mtime => [(abs_path (dest ++ p), mtime)] | _ => [] end.

Section one.
Context (s0 s : fs) (t : image) (Hex : extracted s0 s t) (dirs : list (gostring * Z)).
Let step (i : item) := extract_entry env (abs_path dest) s dirs (entry_of i).
Let goes_well (i : item) : Prop :=
  ∃ s', step i = (s', dirs ++ times_of i, true) ∧ extracted s0 s' (one_by_one env t i).

Lemma put_dir_step p mode uid gid mtime : fits D t (PutDir p mode uid gid mtime) → goes_well (PutDir p mode uid gid mtime).
Proof.
  intros (Hpl & Hok & Hm & HpD & Hold). pose proof Hok as (Hp & Hd & Hl). pose proof (proj1 Hpl) as Hpp.
  assert (Hne : dest ++ p ≠ []) by (by destruct dest). assert (Hall : Forall proper (dest ++ p)) by (by apply Forall_app_2).
  pose proof (below_parent dest D s0 s t Hex p Hp Hd) as Hpar. pose proof (ex_wf _ _ _ _ _ Hex) as Hwf.
  unfold goes_well, step, extract_entry, one_by_one. rewrite hide_put_nothing by (by intros ? []).
  cbn [entry_of h_name h_type h_mode h_uid h_gid h_mtime put times_of]. rewrite (proj2 (plain_base p Hpl)), (join_dir_path dest) by done.
  rewrite bool_decide_eq_true_2 by done. rewrite syscall_mode_small by done.
  destruct (t !! p) as [n|] eqn:Ht.
  - destruct (ex_some dest D s0 s t Hex p n Hp Ht) as (n' & Hv & Hn).
    assert (Hk' : n_kind n' = KDir false) by (by rewrite <- (normal_kind D p), Hn, normal_kind).
    assert (Hdir : dir_at s (dest ++ p) = true) by (unfold dir_at, is_dir; by rewrite Hv, Hk').
    rewrite MkdirAll_there by done. unfold Chmod. rewrite (on_node_plain s (dest ++ p) Hwf Hall Hpar true _ n' Hv) by (by rewrite Hk').
    unfold Lchown. erewrite (on_node_plain (change s (dest ++ p) _) (dest ++ p)) with (follow := false);
      [|by apply wf_change|done|by rewrite dir_at_change|by rewrite view_change_dir, bool_decide_eq_true_2, Hv|done].
    eexists. split; [done|]. cbn [fst]. by apply (extracted_dir dest D s0 s t Hex) with n.
  - pose proof (ex_none dest D s0 s t Hex p Hp Ht) as Hv. rewrite MkdirAll_new by done. unfold Chmod.
    destruct (on_new env s (dest ++ p) (KDir false) (Z.land (Z.land mode 1023) (Z.lnot (umask env))) true
                (set_mode mode) (set_owner uid gid) Hwf Hall Hne Hpar Hv (keeps_kind_mode _) ltac:(done)) as [-> Hch].
    unfold Lchown. rewrite Hch. eexists. split; [done|]. cbn [fst].
    eapply (retimed dest D s0); [|by apply (extracted_new env dest Hdest Hdne D s0 s t Hex)]. unfold normal. by rewrite bool_decide_eq_true_2.
Qed.

(** A file or link comes to a free place. *)
Lemma after_removal p :
  plain_path p → parent_ok D t p → no_dir_at t p →
  let s1 := (Remove env s (abs_path (dest ++ p))).1 in
  extracted s0 s1 (delete p t) ∧ parent_ok D (delete p t) p ∧ wf s1 ∧ dir_at s1 (parent (dest ++ p)) = true ∧ view s1 (dest ++ p) = None ∧
  (∀ q, tdir t q → tdir (delete p t) q).
Proof.
  intros Hpl Hok Hno. pose proof Hok as (Hp & Hd & Hl). pose proof (proj1 Hpl) as Hpp. cbn zeta.
  assert (Hkeep : ∀ q, tdir t q → tdir (delete p t) q).
  { intros q [->|(n & Hn & Hdir)]; [by left|]. right. exists n. split; [|done]. rewrite lookup_delete_ne; [done|].
    intros ->. unfold no_dir_at in Hno. rewrite Hn in Hno. congruence. }
  pose proof (extracted_Remove env dest Hdest Hdne D s0 s t Hex p Hpp Hok) as He.
  specialize (He ltac:(intros n Hn; unfold no_dir_at in Hno; by rewrite Hn in Hno)).
  assert (Hok' : parent_ok D (delete p t) p) by (split_and!; [done|by apply Hkeep|done]).
  split_and!; [done|done|by eapply ex_wf| | |done].
  - eapply (below_parent dest D); [exact He|done|apply Hok'].
  - eapply (ex_none dest D); [exact He|done|apply lookup_delete_eq].
Qed.

Lemma put_file_step p mode uid gid mtime content :
  fits D t (PutFile p mode uid gid mtime content) → goes_well (PutFile p mode uid gid mtime content).
Proof.
  intros (Hpl & Hok & Hm & HpD & Hno). pose proof Hok as (Hp & Hd & Hl). pose proof (proj1 Hpl) as Hpp.
  assert (Hne : dest ++ p ≠ []) by (by destruct dest). assert (Hall : Forall proper (dest ++ p)) by (by apply Forall_app_2).
  pose proof (below_parent dest D s0 s t Hex p Hp Hd) as Hpar. pose proof (ex_wf _ _ _ _ _ Hex) as Hwf.
  unfold goes_well, step, extract_entry, one_by_one. rewrite hide_put_nothing by (by intros ? []).
  cbn [entry_of h_name h_type h_mode h_uid h_gid h_mtime h_data h_short put times_of].
  rewrite (proj1 (plain_base p Hpl)), (join_path dest) by done.
  rewrite bool_decide_eq_false_2, bool_decide_eq_true_2 by done. rewrite syscall_mode_small by done.
  assert (Hdirname : Dir (abs_path (dest ++ p)) = abs_path (parent (dest ++ p))).
  { destruct (plain_snoc p Hpl) as (d & e & -> & Hdp & He & _). rewrite app_assoc, parent_snoc.
    apply Dir_abs; [by apply Forall_app_2|by destruct dest|done]. }
  rewrite Hdirname, MkdirAll_there; [|done|unfold parent; by apply Forall_take|done].
  destruct (after_removal p Hpl Hok Hno) as (He & Hok' & Hwf1 & Hpar1 & Hv1 & _). cbn zeta in *.
  set (s1 := (Remove env s (abs_path (dest ++ p))).1) in *. rewrite CreateFile_new by done. unfold Chtimes, Lchown.
  destruct (on_new env s1 (dest ++ p) (KFile content) (Z.land mode (Z.lnot (umask env))) true
              (set_mtime mtime) (set_owner uid gid) Hwf1 Hall Hne Hpar1 Hv1 (keeps_kind_mtime _) ltac:(done)) as [-> Hch].
  cbn [fst]. rewrite Hch. eexists. split; [by rewrite app_nil_r|]. cbn [fst].
  pose proof (extracted_new env dest Hdest Hdne D s0 s1 _ He p (KFile content) (Z.land mode (Z.lnot (umask env)))
                (set_mtime mtime) (set_owner uid gid) Hok' (lookup_delete_eq _ _) (keeps_kind_mtime _) (keeps_kind_owner _ _)) as Hnew.
  by rewrite insert_delete_eq in Hnew.
Qed.

Lemma put_symlink_step p uid gid mtime target :
  fits D t (PutSymlink p uid gid mtime target) → goes_well (PutSymlink p uid gid mtime target).
Proof.
  intros (Hpl & Hok & HpD & Hno). pose proof Hok as (Hp & Hd & Hl). pose proof (proj1 Hpl) as Hpp.
  assert (Hne : dest ++ p ≠ []) by (by destruct dest). assert (Hall : Forall proper (dest ++ p)) by (by apply Forall_app_2).
  unfold goes_well, step, extract_entry, one_by_one. rewrite hide_put_nothing by (by intros ? []).
  cbn [entry_of h_name h_type h_mode h_uid h_gid h_mtime h_link put times_of].
  rewrite (proj1 (plain_base p Hpl)), (join_path dest) by done.
  rewrite !bool_decide_eq_false_2, bool_decide_eq_true_2 by done.
  destruct (after_removal p Hpl Hok Hno) as (He & Hok' & Hwf1 & Hpar1 & Hv1 & _). cbn zeta in *.
  set (s1 := (Remove env s (abs_path (dest ++ p))).1) in *. rewrite Symlink_new by done. unfold setSymlinkTimes, Lutimes, Lchown.
  destruct (on_new env s1 (dest ++ p) (KSymlink target) 511 false
              (set_mtime (mtime - mtime mod 1000)) (set_owner uid gid) Hwf1 Hall Hne Hpar1 Hv1 (keeps_kind_mtime _) ltac:(done)) as [-> Hch].
  cbn [fst]. rewrite Hch. eexists. split; [by rewrite app_nil_r|]. cbn [fst].
  pose proof (extracted_new env dest Hdest Hdne D s0 s1 _ He p (KSymlink target) 511
                (set_mtime (mtime - mtime mod 1000)) (set_owner uid gid) Hok' (lookup_delete_eq _ _) (keeps_kind_mtime _) (keeps_kind_owner _ _)) as Hnew.
  by rewrite insert_delete_eq in Hnew.
Qed.

Lemma put_link_step p q uid gid : fits D t (PutLink p q uid gid) → goes_well (PutLink p q uid gid).
Proof.
  intros (Hpl & Hok & HpD & Hno & Hqq & Hq & Hqp & Hqd & n & Hn & Hdir & Hu & Hg). pose proof Hok as (Hp & Hd & Hl). pose proof (proj1 Hpl) as Hpp.
  assert (Hne : dest ++ p ≠ []) by (by destruct dest). assert (Hall : Forall proper (dest ++ p)) by (by apply Forall_app_2).
  unfold goes_well, step, extract_entry, one_by_one. rewrite hide_put_nothing by (by intros ? []).
  cbn [entry_of h_name h_type h_mode h_uid h_gid h_mtime h_link put times_of].
  rewrite (proj1 (plain_base p Hpl)), !(join_path dest) by done.
  rewrite !bool_decide_eq_false_2, bool_decide_eq_true_2 by done.
  destruct (after_removal p Hpl Hok Hno) as (He & Hok' & Hwf1 & Hpar1 & Hv1 & Hkeep). cbn zeta in *. unfold extract_link.
  set (s1 := (Remove env s (abs_path (dest ++ p))).1) in *.
  assert (Htq : delete p t !! q = Some n) by (by rewrite lookup_delete_ne).
  destruct (extracted_link env dest Hdest Hdne D s0 s1 _ He p q n Hpp Hok' Hqq Hq (Hkeep _ Hqd) (lookup_delete_eq _ _) Htq Hdir)
    as (s2 & -> & Hv2 & He2).
  assert (Hpar2 : dir_at s2 (parent (dest ++ p)) = true).
  { eapply (below_parent dest D); [exact He2|done|]. destruct (proj1 (proj2 Hok')) as [->|(m & Hm & Hmd)]; [by left|].
    right. exists m. split; [|done]. rewrite lookup_insert_ne; [done|]. intros Heq. by apply (parent_ne p). }
  unfold Lchown. rewrite (on_node_plain s2 (dest ++ p) (ex_wf _ _ _ _ _ He2) Hall Hpar2 false _ n Hv2) by done. cbn [fst].
  eexists. split; [by rewrite app_nil_r|].
  assert (Hsame : ∀ r, view (change s2 (dest ++ p) (set_owner uid gid)) r = view s2 r).
  { intros r. apply change_same with n; [done|]. unfold set_owner. rewrite <- Hu, <- Hg. by destruct n. }
  rewrite Hn. rewrite insert_delete_eq in He2. destruct He2 as [W1 W2 W3 W4]. split.
  - by apply wf_change.
  - by rewrite dir_at_change.
  - intros r Hr. rewrite Hsame. by apply W3.
  - intros r Hr. rewrite Hsame. by apply W4.
Qed.

Lemma hide_step d e : fits D t (Hide d e) → goes_well (Hide d e).
Proof.
  intros (Hd & He & Hop & Htd & Hl). unfold goes_well, step, extract_entry, apply_whiteout. cbn [entry_of h_name put times_of].
  assert (Hs : slash ∉ wh ++ e).
  { apply not_elem_of_app. split; [by apply (bool_decide_unpack _)|apply He]. }
  rewrite Base_path, Dir_path by done. unfold wh at 1. rewrite HasPrefix_app. rewrite bool_decide_eq_false_2 by done.
  rewrite TrimPrefix_app, (join_below dest Hdest Hdne) by done. eexists. split; [by rewrite app_nil_r|].
  unfold one_by_one. cbn [put]. unfold hide. cbn [hides].
  apply (extracted_RemoveAll env dest Hdest Hdne D s0 s t Hex); [apply Forall_app_2; [done|]; by apply Forall_cons_2; [|apply Forall_nil_2]|].
  split_and!; [by destruct d|by rewrite parent_snoc|by rewrite parent_snoc].
Qed.
End one.

Lemma extracted_eq s0 s t t' : extracted s0 s t → t = t' → extracted s0 s t'.
Proof. by intros ? <-. Qed.

Definition proper_image (t : image) : Prop := ∀ p n, t !! p = Some n → Forall proper p.

(** All that is in a directory goes, one after the other. *)
Lemma clear_loop s0 s t d es :
  extracted s0 s t → Forall proper d → Forall proper es → tdir t d → (d = [] ∨ d ∈ D) →
  extracted s0 (foldl (λ s name, (RemoveAll env s (JoinPath (abs_path (dest ++ d)) name)).1) s es)
    (filter (λ '(q, _), ¬ Exists (λ e, d ++ [e] `prefix_of` q) es) t).
Proof.
  intros Hex Hd Hes Htd Hl. revert s t Hex Htd. induction Hes as [|e es He _ IH]; intros s t Hex Htd; cbn [foldl].
  { rewrite map_filter_id; [done|]. intros q n _ Hq. by apply Exists_nil in Hq. }
  rewrite JoinPath_one; [|by apply Forall_app_2|done|by destruct dest]. rewrite <- app_assoc.
  assert (Hpe : Forall proper (d ++ [e])) by (apply Forall_app_2; [done|]; by apply Forall_cons_2; [|apply Forall_nil_2]).
  assert (Hok : parent_ok D t (d ++ [e])) by (split_and!; [by destruct d|by rewrite parent_snoc|by rewrite parent_snoc]).
  pose proof (extracted_RemoveAll env dest Hdest Hdne D s0 s t Hex (d ++ [e]) Hpe Hok) as Hex'.
  eapply extracted_eq; [apply (IH _ _ Hex')|].
  - destruct Htd as [->|(n & Hn & Hdir)]; [by left|]. right. exists n. split; [|done]. apply map_lookup_filter_Some. split; [done|].
    intros [x Hx]. apply (f_equal length) in Hx. rewrite !length_app in Hx. cbn in Hx. lia.
  - rewrite map_filter_filter. apply map_filter_ext. intros q n _. cbn. rewrite Exists_cons. tauto.
Qed.

Lemma hide_all_step s0 s t dirs d :
  extracted s0 s t → proper_image t → fits D t (HideAll d) →
  ∃ s', extract_entry env (abs_path dest) s dirs (entry_of (HideAll d)) = (s', dirs ++ [], true) ∧ extracted s0 s' (one_by_one env t (HideAll d)).
Proof.
  intros Hex Hprop (Hd & Htd & Hl). unfold extract_entry, apply_whiteout. cbn [entry_of h_name].
  assert (Hw : HasPrefix opaque_whiteout wh = true) by (vm_compute; reflexivity).
  assert (Hs : slash ∉ opaque_whiteout) by (by apply (bool_decide_unpack _)).
  rewrite Base_path, Dir_path, Hw by done. rewrite bool_decide_eq_true_2 by done.
  rewrite (join_rel_dir dest Hdest Hdne d Hd). eexists. split; [by rewrite app_nil_r|].
  pose proof (ex_wf _ _ _ _ _ Hex) as Hwf. pose proof (tdir_at dest D s0 s t Hex d Htd) as Hdir.
  unfold clear_opaque, ReadDir. rewrite (resolve_dir s true (dest ++ d)) by (done || by apply Forall_app_2).
  cbn [mbind option_bind]. rewrite Hdir. set (es := sort_by_key id (children s (dest ++ d))).
  assert (Hin : ∀ e, e ∈ es ↔ is_Some (t !! (d ++ [e]))).
  { intros e. unfold es. rewrite sort_by_key_perm, children_spec, <- app_assoc.
    assert (Hne : d ++ [e] ≠ []) by (by destruct d). pose proof (ex_tree _ _ _ _ _ Hex (d ++ [e]) Hne) as Htr. split.
    - intros [i Hi]. destruct (wf_node s Hwf _ i Hi) as [n Hn]. unfold view in Htr. rewrite Hi in Htr. cbn in Htr. rewrite Hn in Htr.
      destruct (t !! (d ++ [e])); [by eexists|done].
    - intros [n Hn]. destruct (ex_some dest D s0 s t Hex _ n Hne Hn) as (n' & Hv & _). destruct (view_some s _ n' Hv) as (i & Hi & _). by exists i. }
  assert (Hes : Forall proper es).
  { apply Forall_forall. intros e [n Hn]%Hin. apply Hprop in Hn. apply Forall_app in Hn as [_ Hn]. by apply Forall_cons in Hn as [? _]. }
  pose proof (clear_loop s0 s t d es Hex Hd Hes Htd Hl) as Hc.
  unfold one_by_one. cbn [put]. unfold hide. cbn [hides]. eapply extracted_eq; [exact Hc|]. apply map_filter_ext.
  intros q n Hq. cbn. apply not_iff_compat. symmetry. rewrite Exists_exists. split.
  - intros [[x ->] Hne]. destruct x as [|e x]; [by rewrite app_nil_r in Hne|]. exists e. split; [|exists x; by rewrite <- app_assoc].
    apply Hin. assert (Hne' : d ++ e :: x ≠ []) by (by destruct d).
    destruct (ex_some dest D s0 s t Hex _ n Hne' Hq) as (n' & Hv & _). destruct (view_some s _ n' Hv) as (i & Hi & _).
    destruct (above_exists s (dest ++ d ++ [e]) x Hwf) as [j Hj]; [exists i; by rewrite <- !app_assoc|].
    destruct (wf_node s Hwf _ j Hj) as [m Hm]. pose proof (ex_tree _ _ _ _ _ Hex (d ++ [e]) ltac:(by destruct d)) as Htr.
    unfold view in Htr. rewrite Hj in Htr. cbn in Htr. rewrite Hm in Htr. destruct (t !! (d ++ [e])); [by eexists|done].
  - intros (e & _ & x & ->). split; [exists (e :: x); by rewrite <- app_assoc|]. intros Heq.
    apply (f_equal length) in Heq. rewrite !length_app in Heq. cbn in Heq. lia.
Qed.
End steps.

(** ** Lemmas: layers *)

Section layers.
Context (env : fs_env) (dest : path) (Hdest : Forall proper dest) (Hdne : dest ≠ []).
Abbreviation image := (gmap path node).

Definition dirs_of (layer : list item) : list path :=
  omap (λ i, match i with PutDir p _ _ _ _ => Some p | _ => None end) layer.
Fixpoint layer_fits (D : list path) (t : image) (layer : list item) : Prop :=
  match layer with [] => True | i :: layer' => fits D t i ∧ layer_fits D (one_by_one env t i) layer' end.

Lemma proper_hide t i : proper_image t → proper_image (hide t i).
Proof. intros Ht p n Hp. unfold hide in Hp. apply map_lookup_filter_Some in Hp as [Hp _]. by eapply Ht. Qed.
Lemma proper_put D t i : proper_image t → fits D t i → proper_image (put env t i).
Proof.
  intros Ht Hf p n. destruct i; cbn [put fits] in *; try (by apply Ht).
  1-3: destruct Hf as [[Hp _] _]; intros [[<- _]|[_ H]]%lookup_insert_Some; [done|by eapply Ht].
  destruct Hf as [[Hp _] _]. destruct (t !! q); [|by apply Ht]. intros [[<- _]|[_ H]]%lookup_insert_Some; [done|by eapply Ht].
Qed.
Lemma proper_one D t i : proper_image t → fits D t i → proper_image (one_by_one env t i).
Proof.
  intros Ht Hf. unfold one_by_one. destruct i; try (rewrite hide_put_nothing by (by intros ? []); by eapply proper_put); by apply proper_hide.
Qed.

Lemma extract_step D s0 s t dirs i :
  extracted dest D s0 s t → proper_image t → fits D t i →
  ∃ s', extract_entry env (abs_path dest) s dirs (entry_of i) = (s', dirs ++ times_of dest i, true) ∧ extracted dest D s0 s' (one_by_one env t i).
Proof.
  intros Hex Ht Hf. destruct i.
  - by apply put_dir_step.
  - by apply put_file_step.
  - by apply put_symlink_step.
  - by apply put_link_step.
  - by apply hide_step.
  - by apply hide_all_step.
Qed.

Lemma extract_entries_layer D s0 s t dirs layer :
  extracted dest D s0 s t → proper_image t → layer_fits D t layer →
  ∃ s', extract_entries env (abs_path dest) s dirs (entry_of <$> layer) = (s', dirs ++ concat (times_of dest <$> layer), true) ∧
        extracted dest D s0 s' (foldl (one_by_one env) t layer) ∧ proper_image (foldl (one_by_one env) t layer).
Proof.
  revert s t dirs. induction layer as [|i layer IH]; intros s t dirs Hex Ht; cbn [layer_fits].
  { intros _. exists s. cbn. by rewrite app_nil_r. }
  intros [Hf Hl]. destruct (extract_step D s0 s t dirs i Hex Ht Hf) as (s1 & Hs1 & Hex1).
  destruct (IH s1 _ (dirs ++ times_of dest i) Hex1 (proper_one D t i Ht Hf) Hl) as (s2 & Hs2 & Hex2 & Hp2).
  exists s2. rewrite fmap_cons. cbn [extract_entries]. rewrite Hs1, Hs2. cbn [foldl]. split; [|done].
  rewrite fmap_cons. cbn [concat]. by rewrite app_assoc.
Qed.

(** Fewer directories whose times are still to be set. *)
Lemma extracted_fewer D D' s0 s t :
  extracted dest D s0 s t → (∀ p, p ∈ D' → p ∈ D) →
  (∀ p, p ∈ D → p ∉ D' → p ≠ [] → view s (dest ++ p) = t !! p) → extracted dest D' s0 s t.
Proof.
  intros [H1 H2 H3 H4] Hsub Hv. split; [done|done| |done]. intros p Hp. specialize (H3 p Hp).
  destruct (decide (p ∈ D)) as [HD|HD]; [destruct (decide (p ∈ D')) as [HD'|HD']; [|by rewrite Hv]|].
  - unfold normal in *. by rewrite !bool_decide_eq_true_2 in * by done.
  - unfold normal in *. rewrite !(bool_decide_eq_false_2 (p ∈ D)) in H3 by done.
    rewrite !(bool_decide_eq_false_2 (p ∈ D')) by (by intros ?%Hsub). exact H3.
Qed.

Lemma normal_same D p n n' : normal D p n' = normal D p n → set_mtime (n_mtime n) n' = n.
Proof.
  unfold normal, set_mtime. destruct n as [k m u g mt], n' as [k' m' u' g' mt']. cbn. unfold is_dir. cbn.
  destruct (bool_decide (p ∈ D)), k, k'; cbn; by intros [= -> -> -> ->] || by intros [= -> -> ->] || by intros [= -> -> -> -> ->].
Qed.

Lemma time_set D s0 s t p n :
  extracted dest D s0 s t → p ≠ [] → Forall proper p → t !! p = Some n → is_dir n = true →
  extracted dest (filter (.≠ p) D) s0 (Chtimes s (abs_path (dest ++ p)) (n_mtime n)).1 t.
Proof.
  intros Hex Hp Hpp Ht Hd. destruct (ex_some dest D s0 s t Hex p n Hp Ht) as (n' & Hv & Hn).
  pose proof (ex_wf _ _ _ _ _ Hex) as Hwf.
  assert (Hdir : dir_at s (dest ++ p) = true) by (unfold dir_at; by rewrite Hv, <- (normal_is_dir D p), Hn, normal_is_dir).
  assert (Hch : Chtimes s (abs_path (dest ++ p)) (n_mtime n) = (change s (dest ++ p) (set_mtime (n_mtime n)), true)).
  { unfold Chtimes, on_node. rewrite (resolve_dir s true (dest ++ p)) by (done || by apply Forall_app_2). by rewrite Hv. }
  rewrite Hch. cbn [fst]. set (s' := change s (dest ++ p) (set_mtime (n_mtime n))).
  assert (Hview : ∀ q, view s' q = if bool_decide (q = dest ++ p) then Some n else view s q).
  { intros q. unfold s'. rewrite view_change_dir by done. case_bool_decide as Hq; [|done]. rewrite Hq, Hv. cbn. f_equal. by apply (normal_same D p). }
  apply (extracted_fewer D).
  - destruct Hex as [H1 H2 H3 H4]. split.
    + by apply wf_change.
    + unfold s'. by rewrite dir_at_change.
    + intros q Hq. rewrite Hview. case_bool_decide as Heq; [|by apply H3]. apply app_inv_head in Heq. subst q. by rewrite Ht.
    + intros q Hq. rewrite Hview, bool_decide_eq_false_2; [by apply H4|]. intros ->. apply Hq. by apply prefix_app_r.
  - intros q [_ Hq]%list_elem_of_filter. done.
  - intros q HqD HqD' _. destruct (decide (q = p)) as [->|Hne]; [by rewrite Hview, bool_decide_eq_true_2|].
    destruct HqD'. by apply list_elem_of_filter.
Qed.

Lemma times_set s0 t dirs : ∀ D s,
  extracted dest D s0 s t →
  Forall (λ d, ∃ p n, p ≠ [] ∧ Forall proper p ∧ t !! p = Some n ∧ is_dir n = true ∧ d = (abs_path (dest ++ p), n_mtime n)) dirs →
  (∀ p, p ∈ D → ∃ m, (abs_path (dest ++ p), m) ∈ dirs) → (∀ p, p ∈ D → p ≠ [] ∧ Forall proper p) →
  extracted dest [] s0 (foldl (λ s d, (Chtimes s d.1 d.2).1) s dirs) t.
Proof.
  induction dirs as [|d dirs IH]; intros D s Hex Hdirs Hall Hprop; cbn [foldl].
  { apply (extracted_fewer D); [done|by intros ? ?%not_elem_of_nil|]. intros p Hp. apply Hall in Hp as [m Hm]. by apply not_elem_of_nil in Hm. }
  apply Forall_cons in Hdirs as [(p & n & Hp & Hpp & Ht & Hd & ->) Hdirs]. cbn [fst snd].
  apply (IH (filter (.≠ p) D)); [by apply time_set|done| |].
  - intros q [Hne Hq]%list_elem_of_filter. destruct (Hall q Hq) as [m [Heq|Hm]%elem_of_cons]; [|by exists m].
    pose proof (f_equal fst Heq : abs_path (dest ++ q) = abs_path (dest ++ p)) as Hpq. destruct (Hprop q Hq) as [Hq0 Hqp]. apply abs_path_inj in Hpq; [|by apply Forall_app_2|by apply Forall_app_2|by destruct dest|by destruct dest].
    by apply app_inv_head in Hpq.
  - intros q [_ Hq]%list_elem_of_filter. by apply Hprop.
Qed.

Lemma fits_in_layer D t layer i :
  layer_fits D t layer → i ∈ layer → ∃ t', fits D t' i.
Proof.
  revert t. induction layer as [|j layer IH]; intros t; cbn [layer_fits]; [by intros _ ?%not_elem_of_nil|].
  intros [Hf Hl] [->|Hi]%elem_of_cons; [by eexists|by eapply IH].
Qed.

Context (untar : gostring → archive) (gunzip : gostring → option gostring).

(** The file holds the entries of the layer, compressed or not. *)
Definition layer_file (data : gostring) (layer : list item) : Prop :=
  (2 ≤ length data)%nat ∧
  ∃ r, (if bool_decide (take 2 data = gzip_magic) then gunzip data = Some r else data = r) ∧ untar r = (entry_of <$> layer, false).

(** A layer over the image so far. *)
Definition layer_over (t : image) (layer : list item) : Prop := layer_fits (dirs_of layer) t layer ∧ well_ordered layer.

Lemma extractLayer_spec s0 s t data layer :
  extracted dest [] s0 s t → proper_image t → layer_file data layer → layer_over t layer →
  ∃ s', extractLayer env (abs_path dest) untar gunzip s (Some data) = (s', None) ∧
        extracted dest [] s0 s' (apply_layer env t layer) ∧ proper_image (apply_layer env t layer).
Proof.
  intros Hex Ht [Hlen (r & Hr & Hun)] [Hf Hord]. set (D := dirs_of layer) in *.
  assert (Hex' : extracted dest D s0 s t).
  { destruct Hex as [H1 H2 H3 H4]. split; [done|done| |done]. intros p Hp. specialize (H3 p Hp).
    assert (Hid : ∀ o : option node, normal [] p <$> o = o) by (by intros [n|]). rewrite !Hid in H3. by rewrite H3. }
  destruct (extract_entries_layer D s0 s t [] layer Hex' Ht Hf) as (s1 & Hs1 & Hex1 & Hp1). cbn [app] in Hs1.
  assert (Harch : extract_archive env (abs_path dest) s (entry_of <$> layer, false) = (set_dir_times s1 (concat (times_of dest <$> layer)), None)).
  { unfold extract_archive. cbn [fst snd]. by rewrite Hs1. }
  assert (Hlay : extractLayer env (abs_path dest) untar gunzip s (Some data) = (set_dir_times s1 (concat (times_of dest <$> layer)), None)).
  { unfold extractLayer. rewrite (proj2 (Nat.ltb_ge _ _)) by done. case_bool_decide; [by rewrite Hr, Hun|]. by rewrite Hr, Hun. }
  exists (set_dir_times s1 (concat (times_of dest <$> layer))). split; [done|].
  rewrite <- one_by_one_layer by done. split; [|done]. unfold set_dir_times.
  assert (Hin : ∀ d, d ∈ merge_sort longer_first (concat (times_of dest <$> layer)) ↔
                     ∃ p mode uid gid mtime, PutDir p mode uid gid mtime ∈ layer ∧ d = (abs_path (dest ++ p), mtime)).
  { intros d. rewrite (merge_sort_Permutation longer_first), list_elem_of_In, in_concat. setoid_rewrite <- list_elem_of_In. split.
    - intros (l & Hl & Hd). apply list_elem_of_fmap in Hl as (i & -> & Hi). destruct i; cbn in Hd; try (by apply not_elem_of_nil in Hd).
      apply list_elem_of_singleton in Hd as ->. eauto 10.
    - intros (p & mode & uid & gid & mtime & Hi & ->). exists [(abs_path (dest ++ p), mtime)]. split; [|by apply list_elem_of_singleton].
      apply list_elem_of_fmap. by eexists (PutDir _ _ _ _ _). }
  assert (HD : ∀ p, p ∈ D → ∃ mode uid gid mtime, PutDir p mode uid gid mtime ∈ layer).
  { intros p (i & Hi & Heq)%list_elem_of_omap. destruct i; try done. injection Heq as ->. eauto. }
  assert (Hplain : ∀ p mode uid gid mtime, PutDir p mode uid gid mtime ∈ layer → p ≠ [] ∧ Forall proper p).
  { intros p mode uid gid mtime Hi. destruct (fits_in_layer D t layer _ Hf Hi) as [t' ((Hp & _) & (Hne & _) & _)]. done. }
  apply (times_set s0 _ _ D s1 Hex1).
  - apply Forall_forall. intros d (p & mode & uid & gid & mtime & Hi & ->)%Hin. destruct (Hplain _ _ _ _ _ Hi) as [Hp Hpp].
    exists p, (dir_node mode uid gid mtime). split_and!; [done|done| |done|done]. by apply layer_dirs.
  - intros p (mode & uid & gid & mtime & Hi)%HD. exists mtime. apply Hin. eauto 10.
  - intros p (mode & uid & gid & mtime & Hi)%HD. by eapply Hplain.
Qed.
End layers.

(** ** Lemmas: images *)

Definition saveable (name : gostring) : Prop := Base name ∉ [dot; dotdot; [slash]].

Lemma save_entry_other sv names hdr data : h_name hdr ∉ names → save_entry sv names hdr data = Ret sv.
Proof.
  revert sv data. induction names as [|n names IH]; intros sv data; [done|]. intros [Hn Hns]%not_elem_of_cons. cbn [save_entry].
  rewrite bool_decide_eq_false_2 by done. by apply IH.
Qed.
Lemma save_entry_match sv names hdr data :
  h_name hdr ∈ names → NoDup names → saveable (h_name hdr) → h_short hdr = false →
  save_entry sv names hdr data =
  Ret (MkSaved (<[Base (h_name hdr) := data]> (sv_files sv)) (<[h_name hdr := Base (h_name hdr)]> (sv_layers sv))).
Proof.
  intros Hin Hnd Hs Hsh. revert sv. induction Hnd as [|n names Hn Hnd IH]; intros sv; [by apply not_elem_of_nil in Hin|].
  cbn [save_entry]. case_bool_decide as Heq.
  - subst n. rewrite bool_decide_eq_false_2, Hsh by done. by rewrite save_entry_other.
  - apply elem_of_cons in Hin as [?|Hin]; [done|]. by apply IH.
Qed.

Section flatten.
Context (names : list gostring) (Hbases : NoDup (Base <$> names)) (Hsave : Forall saveable names).

Lemma names_nodup : NoDup names.
Proof. by eapply NoDup_fmap_1. Qed.

Lemma save_layers_spec entries : ∀ sv,
  NoDup (h_name <$> entries) → (∀ hdr, hdr ∈ entries → h_short hdr = false) →
  ∃ sv', save_layers sv names entries false = Ret sv' ∧ ∀ n, n ∈ names →
    (∀ hdr, hdr ∈ entries → h_name hdr = n → sv_layers sv' !! n = Some (Base n) ∧ sv_files sv' !! Base n = Some (h_data hdr)) ∧
    (n ∉ h_name <$> entries → sv_layers sv' !! n = sv_layers sv !! n ∧ sv_files sv' !! Base n = sv_files sv !! Base n).
Proof.
  induction entries as [|hdr entries IH]; intros sv Hnd Hsh; cbn [save_layers].
  { exists sv. split; [done|]. intros n _. split; [by intros ? ?%not_elem_of_nil|done]. }
  rewrite fmap_cons in Hnd. apply NoDup_cons in Hnd as [Hn Hnd].
  assert (Hsh' : ∀ hdr', hdr' ∈ entries → h_short hdr' = false) by (intros hdr' H'; apply Hsh; by right).
  destruct (decide (h_name hdr ∈ names)) as [Hin|Hout].
  - rewrite save_entry_match; [|done|apply names_nodup|by eapply Forall_forall in Hsave|by apply Hsh; left]. rewrite ret_bind.
    destruct (IH (MkSaved (<[Base (h_name hdr) := h_data hdr]> (sv_files sv)) (<[h_name hdr := Base (h_name hdr)]> (sv_layers sv))) Hnd Hsh')
      as (sv' & -> & Hsv). exists sv'. split; [done|]. intros n Hnn. destruct (Hsv n Hnn) as [H1 H2]. split.
    + intros hdr' [->|Hin']%elem_of_cons Heq; [|by apply H1]. subst n. destruct (H2 Hn) as [-> ->]. cbn [sv_layers sv_files].
      by rewrite !lookup_insert_eq.
    + rewrite fmap_cons. intros [Hne Hnin]%not_elem_of_cons. destruct (H2 Hnin) as [-> ->]. cbn [sv_layers sv_files].
      rewrite !lookup_insert_ne; [done|intros Heq|done]. apply Hne.
      destruct (list_elem_of_lookup_1 _ _ Hin) as [i Hi]. destruct (list_elem_of_lookup_1 _ _ Hnn) as [j Hj].
      assert (i = j) as ->.
      { eapply (NoDup_lookup (Base <$> names)); [done| |]; rewrite list_lookup_fmap; [by rewrite Hi|by rewrite Hj, Heq]. }
      congruence.
  - rewrite save_entry_other, ret_bind by done. destruct (IH sv Hnd Hsh') as (sv' & -> & Hsv). exists sv'. split; [done|].
    intros n Hnn. destruct (Hsv n Hnn) as [H1 H2]. split.
    + intros hdr' [->|Hin']%elem_of_cons Heq; [by subst n|by apply H1].
    + rewrite fmap_cons. intros [_ Hnin]%not_elem_of_cons. by apply H2.
Qed.
End flatten.

Section image.
Context (env : fs_env) (dest : path) (Hdest : Forall proper dest) (Hdne : dest ≠ []).
Context (untar : gostring → archive) (gunzip : gostring → option gostring) (parse_manifest : gostring → option (list (list gostring))).
Abbreviation image := (gmap path node).

Fixpoint image_fits (t : image) (layers : list (list item)) : Prop :=
  match layers with [] => True | l :: layers' => layer_over env t l ∧ image_fits (apply_layer env t l) layers' end.

Lemma extract_layers_spec s0 layers : ∀ names s t sv,
  NoDup (Base <$> names) →
  Forall2 (λ n l, sv_layers sv !! n = Some (Base n) ∧ ∃ data, sv_files sv !! Base n = Some data ∧ layer_file untar gunzip data l) names layers →
  extracted dest [] s0 s t → proper_image t → image_fits t layers →
  ∃ s', extract_layers env (abs_path dest) untar gunzip s sv names = (s', None) ∧ extracted dest [] s0 s' (foldl (apply_layer env) t layers).
Proof.
  induction layers as [|l layers IH]; intros names s t sv Hnd Hall Hex Ht; cbn [image_fits].
  { intros _. apply Forall2_nil_inv_r in Hall as ->. by exists s. }
  intros [Hl Hls]. apply Forall2_cons_inv_r in Hall as (n & names' & (Hn & data & Hdata & Hfile) & Hall & ->).
  rewrite fmap_cons in Hnd. apply NoDup_cons in Hnd as [Hnb Hnd]. cbn [extract_layers]. rewrite Hn, Hdata.
  destruct (extractLayer_spec env dest Hdest Hdne untar gunzip s0 s t data l Hex Ht Hfile Hl) as (s1 & -> & Hex1 & Ht1).
  apply (IH names' s1 _ (MkSaved (delete (Base n) (sv_files sv)) (sv_layers sv)) Hnd); [|done|done|done].
  apply Forall2_same_length_lookup. pose proof (Forall2_length _ _ _ Hall) as Hlen. split; [done|].
  intros i n' l' Hi Hi'. destruct (Forall2_lookup_lr _ _ _ _ _ _ Hall Hi Hi') as (Hn' & data' & Hd' & Hf'). cbn [sv_layers sv_files].
  split; [done|]. exists data'. split; [|done]. rewrite lookup_delete_ne; [done|]. intros Heq. apply Hnb. rewrite Heq.
  apply list_elem_of_fmap. exists n'. split; [done|]. by eapply list_elem_of_lookup_2.
Qed.

(** The archive of an image: its manifest names the layers, and under each name is a file
    with the layer in it. *)
Definition image_file (tarball : gostring) (layers : list (list item)) : Prop :=
  ∃ before manifest after names more,
    let entries := before ++ manifest :: after in
    untar tarball = (entries, false) ∧
    Forall (λ hdr, h_name hdr ≠ bs "manifest.json") before ∧ h_name manifest = bs "manifest.json" ∧
    parse_manifest (h_data manifest) = Some (names :: more) ∧ names ≠ [] ∧
    NoDup (Base <$> names) ∧ Forall saveable names ∧
    NoDup (h_name <$> entries) ∧ (∀ hdr, hdr ∈ entries → h_short hdr = false) ∧
    Forall2 (λ n l, ∃ hdr, hdr ∈ entries ∧ h_name hdr = n ∧ layer_file untar gunzip (h_data hdr) l) names layers.

Lemma find_manifest_spec before manifest after bad names :
  Forall (λ hdr, h_name hdr ≠ bs "manifest.json") before → h_name manifest = bs "manifest.json" →
  parse_manifest (h_data manifest) = Some names → find_manifest parse_manifest (before ++ manifest :: after) bad = Ret names.
Proof.
  intros Hb Hm Hp. induction Hb as [|hdr before Hh _ IH]; cbn [app find_manifest].
  - by rewrite bool_decide_eq_true_2, Hp.
  - by rewrite bool_decide_eq_false_2.
Qed.
End image.

(** ** Properties *)

(** C30: Flattening an image gives the overlay of its layers. For an image whose layers fit
    on each other, have their whiteouts before what they would hide and no setuid, setgid
    or sticky bits, extracting the
    layers entry by entry through the file system succeeds, and below the target directory
    is, path for path, exactly the image in which every layer first hides what its
    whiteouts name and then puts its directories, files and links, with the permissions
    (those of files less the umask), owners and times of the archive; nothing outside the
    target directory is changed. *)
Theorem docker_image_is_overlay env dest untar gunzip parse_manifest s tarball layers :
  Forall proper dest → dest ≠ [] → wf s → dir_at s dest = true → (∀ p, p ≠ [] → view s (dest ++ p) = None) →
  image_file untar gunzip parse_manifest tarball layers → image_fits env ∅ layers →
  ∃ s', flattenDockerTarball env (abs_path dest) untar gunzip parse_manifest s tarball = (s', None) ∧
    (∀ p, p ≠ [] → view s' (dest ++ p) = image_of env layers !! p) ∧
    (∀ q, ¬ dest `prefix_of` q → view s' q = view s q).
Proof.
  intros Hdest Hdne Hwf Hdir Hempty (before & manifest & after & names & more & Hun & Hbefore & Hman & Hparse & Hne & Hb & Hsv & Hnd & Hsh & Hall) Hfits.
  set (entries := before ++ manifest :: after) in *. unfold flattenDockerTarball. rewrite Hun. cbn [fst snd].
  assert (Hfm : find_manifest parse_manifest entries false = Ret (names :: more)) by (by apply find_manifest_spec). rewrite Hfm.
  destruct (save_layers_spec names Hb Hsv entries (MkSaved ∅ ∅) Hnd Hsh) as (sv & Hsave & Hsaved).
  assert (Hex : extracted dest [] s s ∅).
  { split; [done|done| |done]. intros p Hp. by rewrite Hempty, lookup_empty. }
  destruct (extract_layers_spec env dest Hdest Hdne untar gunzip s layers names s ∅ sv Hb) as (s' & Hs' & Hex'); [|done|by intros p n Hp; rewrite lookup_empty in Hp|done|].
  { apply Forall2_same_length_lookup. split; [by apply Forall2_length in Hall|]. intros i n l Hi Hi'.
    destruct (Forall2_lookup_lr _ _ _ _ _ _ Hall Hi Hi') as (hdr & Hin & Hname & Hfile).
    destruct (proj1 (Hsaved n (list_elem_of_lookup_2 _ _ _ Hi)) hdr Hin Hname) as [H1 H2]. split; [done|]. by exists (h_data hdr). }
  exists s'. split; [|split].
  - rewrite Hsave. destruct names; [done|]. exact Hs'.
  - intros p Hp. pose proof (ex_tree _ _ _ _ _ Hex' p Hp) as Hv.
    assert (Hid : ∀ o : option node, normal [] p <$> o = o) by (by intros [n|]). rewrite !Hid in Hv. exact Hv.
  - apply Hex'.
Qed.

Definition example_env : fs_env := MkFsEnv 18 7.
Definition dir_inode : node := MkNode (KDir false) 493 0 0 1.
(** A file system with some directories. *)
Definition directories (ps : list path) : fs :=
  let l := imap (λ i p, (p, N.of_nat i)) ([] :: ps) in
  MkFs (list_to_map l) (list_to_map ((λ x, (x.2, dir_inode)) <$> l)) (N.of_nat (length l)).
Definition example_fs : fs := directories [[bs "t"]].

Definition example_layers : list (list item) :=
  [ [PutDir [bs "a"] 493 0 0 5; PutFile [bs "a"; bs "x"] 420 1 2 5 (bs "hi"); PutLink [bs "a"; bs "y"] [bs "a"; bs "x"] 1 2];
    [PutDir [bs "a"] 493 0 0 6; Hide [bs "a"] (bs "x"); PutSymlink [bs "b"] 0 0 6123 (bs "a/y")] ].
Definition plain_file (name data : gostring) : tar_header := MkHeader name TypeReg [] 420 0 0 0 data false.
Definition example_untar (layers : list (list item)) (data : gostring) : archive :=
  if bool_decide (data = bs "image") then
    ([plain_file (bs "1.tar") (bs "L1"); plain_file (bs "manifest.json") (bs "m"); plain_file (bs "2.tar") (bs "L2")], false)
  else if bool_decide (data = bs "L1") then (entry_of <$> default [] (layers !! 0%nat), false)
  else if bool_decide (data = bs "L2") then (entry_of <$> default [] (layers !! 1%nat), false)
  else ([], true).
Definition example_manifest (data : gostring) : option (list (list gostring)) := Some [[bs "1.tar"; bs "2.tar"]].
Definition no_gzip (data : gostring) : option gostring := None.

Lemma plain_names p : bool_decide (Forall (λ s, s ≠ [] ∧ s ≠ dot ∧ s ≠ dotdot ∧ slash ∉ s) p) = true → Forall proper p.
Proof. by intros ?%bool_decide_eq_true_1. Qed.

Lemma example_names p i : fs_names example_fs !! p = Some i → (p = [] ∧ i = 0%N) ∨ (p = [bs "t"] ∧ i = 1%N).
Proof.
  intros Hp. apply elem_of_list_to_map_2 in Hp. apply elem_of_cons in Hp as [[= -> ->]|Hp]; [by left|].
  apply list_elem_of_singleton in Hp as [= -> ->]. by right.
Qed.
Lemma example_wf : wf example_fs.
Proof.
  split.
  - reflexivity.
  - intros p i [[-> _]|[-> _]]%example_names; [done|]. intros _. reflexivity.
  - intros p i [[-> ->]|[-> ->]]%example_names; by eexists.
  - intros p i [[-> ->]|[-> ->]]%example_names; reflexivity.
  - intros p q i n [[-> ->]|[-> ->]]%example_names [[-> Hi]|[-> Hi]]%example_names; done.
Qed.

#[export] Instance puts_at_dec i p : Decision (puts_at i p).
Proof. destruct i; cbn [puts_at]; apply _. Defined.
Fixpoint ordered (layer : list item) : bool :=
  match layer with
  | [] => true
  | i :: layer' =>
      bool_decide (Forall (λ p, Forall (λ j, ¬ hides j p) layer' ∧ (puts_at i p → Forall (λ j, ¬ puts_at j p) layer')) (item_paths i))
      && ordered layer'
  end.
Lemma ordered_check layer : ordered layer = true → well_ordered layer.
Proof.
  induction layer as [|i layer IH]; [done|]. cbn [ordered well_ordered]. intros [Hi%bool_decide_eq_true_1 Hl]%andb_true_iff.
  rewrite Forall_forall in Hi. split_and!; [intros p Hp; by apply Hi| |by apply IH].
  intros p Hp. apply Hi; [|done]. destruct i; cbn [puts_at item_paths] in *; subst; by left || done.
Qed.

Lemma example_fits : image_fits example_env ∅ example_layers.
Proof.
  assert (Hplain : ∀ p, bool_decide (Forall (λ s, s ≠ [] ∧ s ≠ dot ∧ s ≠ dotdot ∧ slash ∉ s) p) = true →
            match last p with Some e => HasPrefix e wh = false | None => False end → plain_path p)
    by (intros p Hp Hl; split; [by apply plain_names|done]).
  assert (Hin : ∀ (p : path) (D : list path), bool_decide (p ∈ D) = true → p ∈ D) by (by intros p D ?%bool_decide_eq_true_1).
  assert (Hout : ∀ (p : path) (D : list path), bool_decide (p ∈ D) = false → p ∉ D) by (by intros p D ?%bool_decide_eq_false_1).
  assert (Hroot : ∀ D t e, parent_ok D t [e]) by (intros D t e; by split_and!; [|left|left]).
  assert (Hbelow : ∀ D t n d e, t !! [d] = Some n → is_dir n = true → [d] ∈ D → parent_ok D t [d; e])
    by (intros D t n d e H1 H2 H3; split_and!; [done|right; by exists n|by right]).
  assert (Hnone : ∀ t p, t !! p = None → no_dir_at t p) by (by intros t p Hn; unfold no_dir_at; rewrite Hn).
  unfold example_layers. cbn [image_fits]. split; [split|split; [split|done]].
  - cbn [layer_fits]. split_and!; [..|done].
    + split_and!; [by apply Hplain|apply Hroot|done|by apply Hin|done].
    + split_and!; [by apply Hplain|by eapply Hbelow; [reflexivity|reflexivity|apply Hin]|done|by apply Hout|by apply Hnone].
    + split_and!; [by apply Hplain|by eapply Hbelow; [reflexivity|reflexivity|apply Hin]|by apply Hout|by apply Hnone
        |by apply plain_names|done|done|right; eexists; by split|]. eexists. split; [reflexivity|]. by split_and!.
  - by apply ordered_check.
  - cbn [layer_fits]. split_and!; [..|done].
    + split_and!; [by apply Hplain|apply Hroot|done|by apply Hin|by vm_compute].
    + split_and!; [by apply plain_names|by apply proper_name|discriminate|right; eexists; by split|right; by apply Hin].
    + split_and!; [by apply Hplain|apply Hroot|by apply Hout|apply Hnone; by vm_compute].
  - by apply ordered_check.
Qed.

Lemma docker_image_is_overlay_witness :
  ∃ s', flattenDockerTarball example_env (abs_path [bs "t"]) (example_untar example_layers) no_gzip example_manifest example_fs (bs "image") = (s', None) ∧
    view s' [bs "t"; bs "a"; bs "x"] = None ∧
    view s' [bs "t"; bs "a"; bs "y"] = Some (MkNode (KFile (bs "hi")) 420 1 2 5) ∧
    view s' [bs "t"; bs "a"] = Some (MkNode (KDir false) 493 0 0 6).
Proof.
  destruct (docker_image_is_overlay example_env [bs "t"] (example_untar example_layers) no_gzip example_manifest example_fs (bs "image") example_layers)
    as (s' & Hs' & Hv & _).
  - by apply plain_names.
  - discriminate.
  - apply example_wf.
  - reflexivity.
  - intros p Hp. unfold view. destruct (fs_names example_fs !! ([bs "t"] ++ p)) as [i|] eqn:Hi; [|done].
    apply example_names in Hi as [[? _]|[Hq _]]; [done|]. by injection Hq.
  - exists [plain_file (bs "1.tar") (bs "L1")], (plain_file (bs "manifest.json") (bs "m")), [plain_file (bs "2.tar") (bs "L2")],
      [bs "1.tar"; bs "2.tar"], []. cbn zeta.
    split_and!; [reflexivity|by apply (bool_decide_unpack _)|reflexivity|reflexivity|discriminate|by apply (bool_decide_unpack _)
      |by repeat apply Forall_cons_2; [apply (bool_decide_unpack _)|apply (bool_decide_unpack _)|apply Forall_nil_2]|by apply (bool_decide_unpack _)| |].
    + intros hdr Hh. repeat (apply elem_of_cons in Hh as [->|Hh]; [done|]). by apply not_elem_of_nil in Hh.
    + apply Forall2_cons. split; [|apply Forall2_cons; split; [|by apply Forall2_nil]].
      * exists (plain_file (bs "1.tar") (bs "L1")). split; [by left|]. split; [done|]. split; [cbn; lia|]. exists (bs "L1"). split; reflexivity.
      * exists (plain_file (bs "2.tar") (bs "L2")). split; [by right; right; left|]. split; [done|]. split; [cbn; lia|]. exists (bs "L2"). split; reflexivity.
  - exact example_fits.
  - exists s'. split; [exact Hs'|]. split_and!.
    + exact (Hv [bs "a"; bs "x"] ltac:(discriminate)).
    + exact (Hv [bs "a"; bs "y"] ltac:(discriminate)).
    + exact (Hv [bs "a"] ltac:(discriminate)).
Defined.

(** ** What the extraction misses *)

Definition example_snaps : fs := directories [[bs "s"]; [bs "s"; bs "t"]; [bs "s"; bs "k"]].
Definition symlink_entry (name target : gostring) : tar_header := MkHeader name TypeSymlink target 511 0 0 0 [] false.
Definition extract_into_t (entries : list tar_header) : fs * bool :=
  let r := extract_entries example_env (bs "/s/t") example_snaps [] entries in (r.1.1, r.2).

(** A whiteout of [..] removes the directory above the target, with all other snaps. *)
Lemma whiteout_escapes :
  let '(s', ok) := extract_into_t [plain_file (bs ".wh...") []] in
  ok = true ∧ is_Some (view example_snaps [bs "s"; bs "k"]) ∧ view s' [bs "s"; bs "k"] = None.
Proof. vm_compute. split_and!; by try eexists. Qed.
(** A name with [..] is written outside the target. *)
Lemma name_escapes :
  let '(s', ok) := extract_into_t [plain_file (bs "../k/x") (bs "evil")] in
  ok = true ∧ n_kind <$> view s' [bs "s"; bs "k"; bs "x"] = Some (KFile (bs "evil")).
Proof. vm_compute. by split. Qed.
(** A symbolic link of the image leads the files below it out of the target. *)
Lemma link_escapes :
  let '(s', ok) := extract_into_t [symlink_entry (bs "l") (bs "/s/k"); plain_file (bs "l/x") (bs "evil")] in
  ok = true ∧ n_kind <$> view s' [bs "s"; bs "k"; bs "x"] = Some (KFile (bs "evil")).
Proof. vm_compute. by split. Qed.
(** A link in the place of a directory with something in it is an error. *)
Lemma replaced_directory_fails :
  (extract_into_t [entry_of (PutDir [bs "a"] 493 0 0 0); plain_file (bs "a/x") []; symlink_entry (bs "a") (bs "b")]).2 = false.
Proof. reflexivity. Qed.
(** The sticky bit of [/tmp] is lost, as are setuid and setgid. *)
Lemma sticky_bit_lost : syscall_mode 1023 = 511 ∧ syscall_mode 2541 = 493.
Proof. by vm_compute. Qed.
(** A layer that the manifest names twice is emptied before it is extracted. *)
Lemma repeated_layer_fails :
  (flattenDockerTarball example_env (abs_path [bs "t"]) (example_untar example_layers) no_gzip
     (λ _, Some [[bs "1.tar"; bs "1.tar"]]) example_fs (bs "image")).2 = Some ErrMagic.
Proof. reflexivity. Qed.
(** An opaque whiteout that comes after files of its own layer takes them away. *)
Lemma late_whiteout_hides :
  let layer := [PutDir [bs "a"] 493 0 0 0; PutFile [bs "a"; bs "x"] 420 0 0 0 []; HideAll [bs "a"]] in
  foldl (one_by_one example_env) ∅ layer !! [bs "a"; bs "x"] = None ∧
  is_Some (apply_layer example_env ∅ layer !! [bs "a"; bs "x"]).
Proof. vm_compute. split; by try eexists. Qed.
