(* ===== verification/RootFs.v ===== *)
(** * Root file systems of frames ([src/cmd/thundersnapd/rootfs.go], [createFrame] and
    [handleCreateWithUUID] in [main.go])

    A frame is assembled from up to three snaps: the copy of the first is its root, those
    of the others its [/home] and [/work]; [/id] is always new and empty. Files are those
    of [HostFs], subvolumes those of [Subvols], sidecars and stamps are on the disk of
    [JsonStore], and the account files are edited by [Passwd]. *)

From Stdlib Require Import Strings.String.
From S2P Require Import GoSort Prelude GoStrings GoPath JsonStore FrameId Frames HostFs Footprint Subvols.
From S2P Require Passwd SnapFiles SnapQueue SnapRecord.

#[local] Existing Instances SnapFiles.meta_json SnapQueue.frame_json.

(** ** State *)

(** The frames and snaps, and the files beside them. *)
Record world := MkWorld { w_fs : fs; w_disk : disk }.
Definition set_fs (w : world) (s : fs) : world := MkWorld s (w_disk w).

Inductive frame_error := BadSnapID (id : gostring) | ErrParentDir | NoSnap (id : gostring) | ErrBtrfs | ErrMinimal.

(** [os.FileMode] constants reach the kernel with their nine permission bits. *)
Definition file_mode (m : Z) : Z := Z.land m 511.

(** What a call did, its failure being logged only. *)
Abbreviation logged := fst.

Section rootfs.
Context (env : fs_env) `{Btrfs}.

(** ** Files of a container *)

Definition WriteFile (s : fs) (p : gostring) (data : gostring) (mode : Z) : fs * bool := CreateFile env s p (file_mode mode) data.

Definition write_resolv (rootFS hostData : gostring) (s : fs) : fs * bool :=
  match MkdirAll env s (JoinPath rootFS (bs "etc")) (file_mode 493) with
  | (s, false) => (s, false)
  | (s, true) => WriteFile s (JoinPaths [rootFS; bs "etc"; bs "resolv.conf"]) hostData 420
  end.
Definition ensureResolvConf (s : fs) (rootFS : gostring) : fs * bool :=
  let frameResolvConf := JoinPaths [rootFS; bs "etc"; bs "resolv.conf"] in
  let frameResolvConfOrig := frameResolvConf ++ bs ".orig" in
  match ReadFile s (bs "/etc/resolv.conf") with
  | None => (s, false)
  | Some hostData =>
      match ReadFile s frameResolvConf with
      | Some frameData =>
          if bool_decide (frameData = hostData) then (s, true)
          else write_resolv rootFS hostData (match Stat s frameResolvConfOrig with
                      | None => logged (WriteFile s frameResolvConfOrig frameData 420)
                      | Some _ => s
                      end)
      | None => write_resolv rootFS hostData s
      end
  end.

Definition ensureTmpDir (s : fs) (rootFS : gostring) : fs * bool :=
  let tmpDir := JoinPath rootFS (bs "tmp") in
  match MkdirAll env s tmpDir (file_mode 511) with
  | (s, false) => (s, false)
  | (s, true) => Chmod s tmpDir (file_mode 1023)
  end.

(** The account files as [Passwd] sees them: what can be read, and what is a directory. *)
Definition etc (rootFS name : gostring) : gostring := JoinPaths [rootFS; bs "etc"; name].
Definition account_files (rootFS : gostring) : list gostring := [etc rootFS (bs "passwd"); etc rootFS (bs "shadow"); etc rootFS (bs "group")].
Definition sudoers_dir (rootFS : gostring) : gostring := etc rootFS (bs "sudoers.d").
Definition sudoers_file (rootFS : gostring) : gostring := JoinPaths [sudoers_dir rootFS; bs "thundersnap-user"].
Definition seen (s : fs) (p : gostring) : option (Z * list byte) :=
  n ← Stat s p; match n_kind n with KFile c => Some (n_mode n, c) | _ => None end.
Definition container (s : fs) (rootFS : gostring) : Passwd.rootfs :=
  let ps := account_files rootFS ++ [JoinPaths [rootFS; bs "bin"; bs "bash"]; sudoers_file rootFS; sudoers_dir rootFS] in
  Passwd.MkRoot (list_to_map (omap (λ p, pair p <$> seen s p) ps))
    (list_to_set (filter (λ p, stat_is_dir s p = Some true) ps)).
Definition no_pw_faults : Passwd.faults := Passwd.MkFaults (λ _, false) (λ _, false) (λ _, false).

(** A new file takes the place of what was at the path ([atomicWriteFile]). *)
Definition replace_file (s : fs) (p data : gostring) (mode : Z) : fs :=
  match resolve s false p with
  | Some q => if dir_at s q then s
              else new_node env (MkFs (delete q (fs_names s)) (fs_nodes s) (fs_next s)) q (KFile data) (file_mode mode)
  | None => s
  end.
(** The account files that were changed are replaced. *)
Definition write_back (before after : Passwd.rootfs) (s : fs) (p : gostring) : fs :=
  match Passwd.r_files after !! p with
  | Some (mode, data) => if bool_decide (Passwd.r_files before !! p = Some (mode, data)) then s else replace_file s p data mode
  | None => s
  end.
Definition ensure_user (s : fs) (rootFS : gostring) : fs :=
  let before := container s rootFS in
  let after := (Passwd.EnsureUserInPasswd no_pw_faults before rootFS).1 in
  foldl (write_back before after) s (account_files rootFS).
(** The sudo rule is written in place. *)
Definition ensure_sudoers (s : fs) (rootFS : gostring) : fs :=
  match Passwd.r_files (Passwd.EnsureSudoers no_pw_faults (container s rootFS) rootFS).1 !! sudoers_file rootFS with
  | Some (_, data) => logged (WriteFile s (sudoers_file rootFS) data 288)
  | None => s
  end.

Definition finalizeFrameRootfs (s : fs) (rootFS : gostring) : fs :=
  let s := ensure_user s rootFS in
  let s := ensure_sudoers s rootFS in
  let s := logged (ensureResolvConf s rootFS) in
  logged (ensureTmpDir s rootFS).

(** ** A frame without a root snap *)

Definition minimal_dirs : list (gostring * Z) :=
  [(bs "bin", 493); (bs "sbin", 493); (bs "etc", 493); (bs "tmp", 1023); (bs "proc", 365); (bs "sys", 365); (bs "dev", 493);
   (bs "root", 448); (bs "var", 493); (bs "var/log", 493); (bs "var/tmp", 1023); (bs "run", 493); (bs "usr", 493);
   (bs "usr/bin", 493); (bs "usr/sbin", 493); (bs "usr/lib", 493)].
Definition lines (l : list gostring) : gostring := concat ((λ x, x ++ [Byte.x0a]) <$> l).
Definition user_number : gostring := bs "7575".
Definition minimal_files : list (gostring * gostring) :=
  [(bs "etc/passwd", lines [bs "root:x:0:0:root:/root:/bin/sh"; bs "user:x:" ++ user_number ++ bs ":" ++ user_number ++ bs ":user:/home:/bin/sh";
                            bs "nobody:x:65534:65534:nobody:/nonexistent:/usr/sbin/nologin"]);
   (bs "etc/group", lines [bs "root:x:0:"; bs "user:x:" ++ user_number ++ bs ":"; bs "nogroup:x:65534:"]);
   (bs "etc/hostname", lines [bs "thundersnap"]);
   (bs "etc/hosts", lines [bs "127.0.0.1" ++ [Byte.x09] ++ bs "localhost"; bs "::1" ++ [Byte.x09] ++ bs "localhost"]);
   (bs "etc/resolv.conf", lines [bs "nameserver 8.8.8.8"]);
   (bs "etc/nsswitch.conf", lines [bs "passwd: files"; bs "group: files"; bs "hosts: files dns"])].

(** One step after the other, until one fails. *)
Definition and_then (r : fs * bool) (f : fs → fs * bool) : fs * bool := match r with (s, true) => f s | failed => failed end.

Definition make_dir (rootFS : gostring) (r : fs * bool) (d : gostring * Z) : fs * bool :=
  let path := JoinPath rootFS d.1 in
  and_then r (λ s, and_then (MkdirAll env s path (file_mode d.2)) (λ s, Chmod s path (file_mode d.2))).
Definition make_file (rootFS : gostring) (r : fs * bool) (f : gostring * gostring) : fs * bool :=
  and_then r (λ s, WriteFile s (JoinPath rootFS f.1) f.2 420).
Definition setupMinimalRootfs (s : fs) (rootFS : gostring) : fs * bool :=
  foldl (make_file rootFS) (foldl (make_dir rootFS) (s, true) minimal_dirs) minimal_files.

(** ** Assembling a frame *)

Context (snapsDir : gostring).

(** The root: a copy of the snap, or the minimal one. *)
Definition root_component (s : fs) (rootFS snap : gostring) : fs * option frame_error :=
  if bool_decide (snap ≠ []) then
    let snapPath := JoinPath snapsDir snap in
    match Stat s snapPath with
    | None => (s, Some (NoSnap snap))
    | Some _ => match Snapshot s snapPath rootFS false with (s, true) => (s, None) | (s, false) => (s, Some ErrBtrfs) end
    end
  else
    match CreateSubvol s rootFS with
    | (s, false) => (s, Some ErrBtrfs)
    | (s, true) => match setupMinimalRootfs s rootFS with (s, true) => (s, None) | (s, false) => (s, Some ErrMinimal) end
    end.

(** A plain directory in the way is removed. *)
Definition clear_plain (s : fs) (p : gostring) : fs :=
  match stat_is_dir s p with
  | Some true => if IsSubvolume s p then s else logged (RemoveAll env s p)
  | _ => s
  end.

(** Home or work: a copy of the snap, or an empty subvolume of the user. *)
Definition component (s : fs) (p snap : gostring) : fs * option frame_error :=
  let s := clear_plain s p in
  if bool_decide (snap ≠ []) then
    let snapPath := JoinPath snapsDir snap in
    match Stat s snapPath with
    | None => (s, Some (NoSnap snap))
    | Some _ => match Snapshot s snapPath p false with (s, true) => (s, None) | (s, false) => (s, Some ErrBtrfs) end
    end
  else
    match CreateSubvol s p with
    | (s, false) => (s, Some ErrBtrfs)
    | (s, true) => (logged (Chown s p Passwd.ThundersnapUID Passwd.ThundersnapGID), None)
    end.

Definition link_work (s : fs) (homePath : gostring) : fs :=
  let homeWorkPath := JoinPath homePath (bs "work") in
  match Lstat s homeWorkPath with
  | None => logged (Symlink env s (bs "/work") homeWorkPath)
  | Some _ => s
  end.

(** [/id] is new and empty, and belongs to root. *)
Definition configureIDDir (s : fs) (idPath : gostring) : fs :=
  logged (Chmod (logged (Chown s idPath 0 0)) idPath (file_mode 493)).
Definition id_component (s : fs) (idPath : gostring) : fs * option frame_error :=
  let s := clear_plain s idPath in
  if IsSubvolume s idPath then (configureIDDir s idPath, None)
  else match CreateSubvol s idPath with
       | (s, true) => (configureIDDir s idPath, None)
       | (s, false) => (s, Some ErrBtrfs)
       end.

(** The next step, unless there was an error. *)
Definition next (r : fs * option frame_error) (f : fs → fs * option frame_error) : fs * option frame_error :=
  match r with (s, None) => f s | failed => failed end.

Definition bad_snap_id (ids : list gostring) : option gostring := head (filter (λ id, SnapFiles.validSnapID id = false) ids).

(** The subvolumes of [ensureFrameFS], its steps 1 to 3b. *)
Definition assemble (s : fs) (rootFS root home work : gostring) : fs * option frame_error :=
  let homePath := JoinPath rootFS (bs "home") in
  next (root_component s rootFS root) (λ s,
  next (component s homePath home) (λ s,
  next (component s (JoinPath rootFS (bs "work")) work) (λ s,
  (link_work s homePath, None)))).

Context {text_ok : gostring → Prop} {time_ok : Z → Prop}
  `{!Json SnapMeta (meta_ok text_ok)} `{!Json Frame (frame_ok text_ok time_ok)} (os : osenv).

(** The metadata of the frame, with the taints of its snaps. *)
Definition tainted (d : disk) (meta : Frame) : Frame :=
  set_taints meta (UnionTaints [getSnapTaints os d snapsDir (Rootfs meta); getSnapTaints os d snapsDir (F_Home meta);
                                getSnapTaints os d snapsDir (Work meta)]).

Definition ensureFrameFS (w : world) (rootFS : gostring) (meta : Frame) : world * option frame_error :=
  match bad_snap_id [Rootfs meta; F_Home meta; Work meta] with
  | Some id => (w, Some (BadSnapID id))
  | None =>
      match MkdirAll env (w_fs w) (Dir rootFS) 493 with
      | (s, false) => (set_fs w s, Some ErrParentDir)
      | (s, true) =>
          match assemble s rootFS (Rootfs meta) (F_Home meta) (Work meta) with
          | (s, Some e) => (set_fs w s, Some e)
          | (s, None) =>
              let meta := tainted (w_disk w) meta in
              let d := logged (writeFrameSidecar os (w_disk w) rootFS meta) in
              let d := logged (SnapFiles.writeStampFile os d rootFS (Rootfs meta)) in
              let s := finalizeFrameRootfs s rootFS in
              let '(s, e) := id_component s (JoinPath rootFS (bs "id")) in
              (MkWorld s d, e)
          end
      end
  end.

(** A frame that is not there is made from its sidecar, or empty. *)
Definition ensureRootFS (w : world) (rootFS : gostring) : world * option (option frame_error) :=
  match Stat (w_fs w) rootFS with
  | Some _ => (w, None)
  | None =>
      match readFrameSidecar os (w_disk w) rootFS with
      | Ret (Some meta) => let '(w, e) := ensureFrameFS w rootFS meta in (w, Some <$> e)
      | Ret None => let '(w, e) := ensureFrameFS w rootFS (MkFrame [] [] [] [] (bs "container") [] 0) in (w, Some <$> e)
      | _ => (w, Some None)
      end
  end.
End rootfs.

(** ** The programs in a frame *)

(** The [cp] command. *)
Class Cp := exec_cp : fs → list gostring → fs * bool.

Section binaries.
Context (env : fs_env) `{Cp} (flagFsDir flagLibexecDir : gostring).
(** The sizes of directories, which the kernel chooses. *)
Context (dir_size : node → Z).
Definition n_size (n : node) : Z :=
  match n_kind n with KFile c => Z.of_nat (length c) | KSymlink t => Z.of_nat (length t) | KDir _ => dir_size n end.
(** Of the same size, and not older. *)
Definition up_to_date (src dst : node) : bool := (n_size dst =? n_size src) && negb (n_mtime dst <? n_mtime src).
Definition reflink : gostring := bs "--reflink=always".

Definition fsDirLibexec : gostring := JoinPath flagFsDir (bs "libexec").

Definition copyBinaryToRootFS (s : fs) (rootFS binaryName destPath : gostring) : fs * bool :=
  let src := JoinPath fsDirLibexec binaryName in
  let dst := JoinPath rootFS destPath in
  match Stat s src with
  | None => (s, false)
  | Some srcInfo =>
      match MkdirAll env s (Dir dst) (file_mode 493) with
      | (s, false) => (s, false)
      | (s, true) =>
          if match Stat s dst with Some dstInfo => up_to_date srcInfo dstInfo | None => false end then (s, true)
          else
            let s := logged (Remove env s dst) in
            match exec_cp s [reflink; src; dst] with
            | (s, false) => (s, false)
            | (s, true) => Chmod s dst (file_mode 493)
            end
      end
  end.

(** The tool stands in for a program that is missing. *)
Definition link_tool (s : fs) (p : gostring) : fs :=
  match Lstat s p with None => logged (Symlink env s (bs "ts") p) | Some _ => s end.
Definition copyTsBinary (s : fs) (rootFS : gostring) : fs * bool :=
  let s := logged (Remove env s (JoinPaths [rootFS; bs "sbin"; bs "ts"])) in
  match copyBinaryToRootFS s rootFS (bs "ts") (bs "bin/ts") with
  | (s, false) => (s, false)
  | (s, true) =>
      let s := link_tool s (JoinPaths [rootFS; bs "bin"; bs "sh"]) in
      (link_tool s (JoinPaths [rootFS; bs "bin"; bs "su"]), true)
  end.
Definition copyVshdBinary (s : fs) (rootFS : gostring) : fs * bool := copyBinaryToRootFS s rootFS (bs "vshd") (bs "sbin/vshd").

(** A binary of the installation goes where frames can share its blocks. *)
Definition install_binary (r : fs * bool) (name : gostring) : fs * bool :=
  and_then r (λ s,
    let src := JoinPath flagLibexecDir name in
    let dst := JoinPath fsDirLibexec name in
    match Stat s src with
    | None => (s, false)
    | Some srcInfo =>
        if match Stat s dst with Some dstInfo => up_to_date srcInfo dstInfo | None => false end then (s, true)
        else
          let s := logged (Remove env s dst) in
          let '(s, ok) := match exec_cp s [reflink; src; dst] with (s, true) => (s, true) | (s, false) => exec_cp s [src; dst] end in
          if ok then Chmod s dst (file_mode 493) else (s, false)
    end).
Definition setupFsDirLibexec (s : fs) : fs * bool :=
  match MkdirAll env s fsDirLibexec (file_mode 493) with
  | (s, false) => (s, false)
  | (s, true) => foldl install_binary (s, true) [bs "ts"; bs "vshd"]
  end.
End binaries.

(** ** The files of a container, where they are plain *)

Lemma JoinPaths_proper dir es : Forall proper dir → Forall proper es → dir ≠ [] → es ≠ [] → JoinPaths (abs_path dir :: es) = abs_path (dir ++ es).
Proof. intros Hd He Hdn Hen. rewrite <- JoinPath_proper by done. destruct es; [done|]. reflexivity. Qed.

(** What [finalizeFrameRootfs] may touch. *)
Definition container_paths : list path :=
  [[bs "etc"]; [bs "etc"; bs "passwd"]; [bs "etc"; bs "shadow"]; [bs "etc"; bs "group"]; [bs "etc"; bs "resolv.conf"];
   [bs "etc"; bs "resolv.conf.orig"]; [bs "etc"; bs "sudoers.d"]; [bs "etc"; bs "sudoers.d"; bs "thundersnap-user"]; [bs "tmp"]].

Lemma proper_names (x : path) : bool_decide (Forall (λ s, s ≠ [] ∧ s ≠ dot ∧ s ≠ dotdot ∧ slash ∉ s) x) = true → Forall proper x.
Proof. by intros ?%bool_decide_eq_true_1. Qed.
Lemma works_on_check (X : list path) :
  forallb (λ x, bool_decide (x ≠ []) && bool_decide (Forall (λ s, s ≠ [] ∧ s ≠ dot ∧ s ≠ dotdot ∧ slash ∉ s) x)
                && forallb (λ k, bool_decide (take k x ∈ X)) (seq 1 (length x))) X = true → works_on X.
Proof.
  intros Hc. apply Forall_forall. intros x Hx. rewrite forallb_forall in Hc. apply list_elem_of_In, Hc in Hx.
  apply andb_true_iff in Hx as [[H1%bool_decide_eq_true_1 H2%proper_names]%andb_true_iff H3]. split_and!; [done|done|].
  intros k Hk. rewrite forallb_forall in H3. apply (bool_decide_eq_true_1 _), H3, in_seq. lia.
Qed.
Lemma container_works : works_on container_paths.
Proof. apply works_on_check. by vm_compute. Qed.

Section container.
Context (env : fs_env) (p : path).
Hypothesis Hp : Forall proper p.
Hypothesis Hpne : p ≠ [].
Abbreviation sealed := (sealed p container_paths).
Abbreviation stays := (stays p container_paths).

Lemma container_path x : x ∈ container_paths → JoinPaths (abs_path p :: x) = abs_path (p ++ x).
Proof.
  intros Hx. pose proof container_works as Hw. unfold works_on in Hw. rewrite Forall_forall in Hw. destruct (Hw x Hx) as (? & ? & _). by apply JoinPaths_proper.
Qed.
Lemma is_container_path x : bool_decide (x ∈ container_paths) = true → x ∈ container_paths.
Proof. apply bool_decide_eq_true_1. Qed.

Lemma WriteFile_stays s x data mode : sealed s → x ∈ container_paths → stays s (WriteFile env s (abs_path (p ++ x)) data mode).1.
Proof. intros Hs Hx. by apply CreateFile_stays; [|apply container_works|..]. Qed.

Lemma replace_file_stays s x data mode : sealed s → x ∈ container_paths → stays s (replace_file env s (abs_path (p ++ x)) data mode).
Proof.
  intros Hs Hx. unfold replace_file. destruct (resolve _ _ _) as [q|] eqn:Hr; [|by apply stays_refl].
  apply (resolve_among p container_paths Hp container_works s x Hs Hx) in Hr as [-> Hd].
  destruct (dir_at s (p ++ x)) eqn:Hdir; [by apply stays_refl|].
  destruct (delete_stays p container_paths Hp container_works s x Hs Hx Hdir) as (Hst & Hn & Hpar).
  eapply stays_trans; [exact Hst|]. apply new_stays; [done|apply container_works|apply Hst|done|done|by apply Hpar|done].
Qed.

Lemma write_back_stays before after s x : sealed s → x ∈ container_paths → stays s (write_back env before after s (abs_path (p ++ x))).
Proof.
  intros Hs Hx. unfold write_back. destruct (Passwd.r_files after !! abs_path (p ++ x)) as [[mode data]|]; [|by apply stays_refl].
  case_bool_decide; [by apply stays_refl|by apply replace_file_stays].
Qed.
Lemma account_paths : account_files (abs_path p) = (λ x, abs_path (p ++ x)) <$> [[bs "etc"; bs "passwd"]; [bs "etc"; bs "shadow"]; [bs "etc"; bs "group"]].
Proof. unfold account_files, etc. by rewrite !container_path by (by apply is_container_path). Qed.
Lemma foldl_stays {B} (f : fs → B → fs) l s :
  (∀ s b, b ∈ l → sealed s → stays s (f s b)) → sealed s → stays s (foldl f s l).
Proof.
  revert s. induction l as [|b l IH]; intros s Hf Hs; cbn; [by apply stays_refl|].
  pose proof (Hf s b (list_elem_of_here _ _) Hs) as H1. eapply stays_trans; [exact H1|]. apply IH; [|apply H1].
  intros s' b' Hb. apply Hf. by apply list_elem_of_further.
Qed.
Lemma ensure_user_stays s : sealed s → stays s (ensure_user env s (abs_path p)).
Proof.
  intros Hs. unfold ensure_user. rewrite account_paths. apply foldl_stays; [|done].
  intros s' b (x & -> & Hx)%list_elem_of_fmap Hs'. apply write_back_stays; [done|].
  apply is_container_path. by repeat (apply elem_of_cons in Hx as [->|Hx]; [vm_compute; reflexivity|]); apply elem_of_nil in Hx.
Qed.
Lemma sudoers_path : sudoers_file (abs_path p) = abs_path (p ++ [bs "etc"; bs "sudoers.d"; bs "thundersnap-user"]).
Proof.
  unfold sudoers_file, sudoers_dir, etc. rewrite (container_path [bs "etc"; bs "sudoers.d"]) by (by apply is_container_path).
  rewrite JoinPaths_proper; [by rewrite <- app_assoc| |by apply proper_names|by destruct p|done].
  apply Forall_app. split; [done|by apply proper_names].
Qed.
Lemma ensure_sudoers_stays s : sealed s → stays s (ensure_sudoers env s (abs_path p)).
Proof.
  intros Hs. unfold ensure_sudoers. destruct (Passwd.r_files _ !! _) as [[mode data]|]; [|by apply stays_refl].
  rewrite sudoers_path. apply WriteFile_stays; [done|by apply is_container_path].
Qed.
Lemma ensureResolvConf_stays s : sealed s → stays s (ensureResolvConf env s (abs_path p)).1.
Proof.
  intros Hs. unfold ensureResolvConf. destruct (ReadFile s (bs "/etc/resolv.conf")) as [host|]; [|by apply stays_refl].
  rewrite (container_path [bs "etc"; bs "resolv.conf"]) by (by apply is_container_path).
  assert (Horig : abs_path (p ++ [bs "etc"; bs "resolv.conf"]) ++ bs ".orig" = abs_path (p ++ [bs "etc"; bs "resolv.conf.orig"])).
  { rewrite !(app_assoc p [bs "etc"] [_] : p ++ [bs "etc"; _] = _). rewrite !abs_path_snoc by (by destruct p). by rewrite <- app_assoc. }
  rewrite Horig.
  assert (Hw : ∀ s, sealed s → stays s (write_resolv env (abs_path p) host s).1).
  { intros s0 Hs0. unfold write_resolv. rewrite (JoinPath_one p (bs "etc")) by first [done|by apply proper_name].
    rewrite (container_path [bs "etc"; bs "resolv.conf"]) by (by apply is_container_path). pose proof (MkdirAll_stays env p container_paths Hp container_works s0 [bs "etc"] (file_mode 493) Hs0 ltac:(by apply is_container_path)) as Hm.
    destruct (MkdirAll _ _ _ _) as [s1 []]; [|done]. eapply stays_trans; [exact Hm|]. apply WriteFile_stays; [apply Hm|by apply is_container_path]. }
  destruct (ReadFile s _) as [data|]; [|by apply Hw]. case_bool_decide; [by apply stays_refl|].
  destruct (Stat s _); [by apply Hw|].
  pose proof (WriteFile_stays s [bs "etc"; bs "resolv.conf.orig"] data 420 Hs ltac:(by apply is_container_path)) as Hb.
  eapply stays_trans; [exact Hb|]. apply Hw, Hb.
Qed.
Lemma ensureTmpDir_stays s : sealed s → stays s (ensureTmpDir env s (abs_path p)).1.
Proof.
  intros Hs. unfold ensureTmpDir. rewrite (JoinPath_one p (bs "tmp")) by first [done|by apply proper_name].
  assert (Hx : [bs "tmp"] ∈ container_paths) by (by apply is_container_path).
  pose proof (MkdirAll_stays env p container_paths Hp container_works s [bs "tmp"] (file_mode 511) Hs Hx) as Hm.
  destruct (MkdirAll _ _ _ _) as [s1 []]; [|done]. eapply stays_trans; [exact Hm|].
  apply on_node_stays; [done|apply container_works|apply Hm|done|done|done].
Qed.

Lemma finalize_stays s : sealed s → stays s (finalizeFrameRootfs env s (abs_path p)).
Proof.
  intros Hs. unfold finalizeFrameRootfs. pose proof (ensure_user_stays s Hs) as H1. set (s1 := ensure_user env s (abs_path p)) in *.
  pose proof (ensure_sudoers_stays s1 (proj2 H1)) as H2. set (s2 := ensure_sudoers env s1 (abs_path p)) in *.
  pose proof (ensureResolvConf_stays s2 (proj2 H2)) as H3. set (s3 := (ensureResolvConf env s2 (abs_path p)).1) in *.
  pose proof (ensureTmpDir_stays s3 (proj2 H3)) as H4. eapply stays_trans; [|exact H4]. eapply stays_trans; [|exact H3]. by eapply stays_trans; [exact H1|].
Qed.
End container.

(** ** Assembling a frame from plain snaps *)

Lemma valid_proper id : SnapFiles.validSnapID id = true → id ≠ [] → proper id.
Proof.
  unfold SnapFiles.validSnapID. intros Hv Hne. rewrite (bool_decide_eq_false_2 (id = [])) in Hv by done.
  destruct (ContainsByte id slash) eqn:Hs; [done|]. destruct (ContainsByte id SnapFiles.backslash); [done|]. cbn [orb] in Hv.
  destruct (bool_decide (id = dot)) eqn:H1; [done|]. destruct (bool_decide (id = dotdot)) eqn:H2; [done|].
  apply bool_decide_eq_false in H1, H2. split_and!; [done..|]. unfold ContainsByte in Hs. by apply bool_decide_eq_false in Hs.
Qed.

Definition home_name : gostring := bs "home".
Definition work_name : gostring := bs "work".
Definition id_name : gostring := bs "id".

Section assembled.
Context (env : fs_env) `{Hspec : BtrfsSpec env}.
Context (dir p : path).
Hypothesis Hdir : Forall proper dir.
Hypothesis Hp : Forall proper p.
Hypothesis Hdne : dir ≠ [].
Hypothesis Hpne : p ≠ [].
(** The frame is not among the snaps, nor they in it. *)
Hypothesis Hapart : ¬ p `prefix_of` dir ∧ ¬ dir `prefix_of` p.

Lemma snaps_apart x y : p ++ x ≠ dir ++ y.
Proof.
  intros Heq. destruct Hapart as [H1 H2]. destruct (prefix_weak_total p dir (p ++ x)) as [Hx|Hx]; [by apply prefix_app_r|rewrite Heq; by apply prefix_app_r|done|done].
Qed.

Definition snap_there (s : fs) (snap : gostring) : Prop :=
  snap = [] ∨ SnapFiles.validSnapID snap = true ∧ ∃ n, view s (dir ++ [snap]) = Some n ∧ is_subvol n = true.

(** What a snap, or the lack of one, gives a component. *)
Definition fresh_component : node := MkNode (KDir true) (Z.land 511 (Z.lnot (umask env))) Passwd.ThundersnapUID Passwd.ThundersnapGID 0.
Definition component_view (s : fs) (snap : gostring) (y : path) : option node :=
  if bool_decide (snap = []) then (if bool_decide (y = []) then Some fresh_component else None) else undated (copied env s (dir ++ [snap]) y).

Lemma subvol_dir n : is_subvol n = true → is_dir n = true.
Proof. unfold is_subvol, is_dir. by destruct (n_kind n). Qed.

Lemma component_view_same s s' snap y :
  leaves (below p) s s' → component_view s' snap y = component_view s snap y.
Proof.
  intros Hl. unfold component_view. case_bool_decide; [done|]. apply copied_undated. intros q [z ->]. apply (lv_view _ _ _ Hl).
  intros [x Hx]. apply (snaps_apart x ([snap] ++ z)). by rewrite <- Hx, <- app_assoc.
Qed.
Lemma snap_there_same s s' snap : leaves (below p) s s' → snap_there s snap → snap_there s' snap.
Proof.
  intros Hl [->|(Hv & n & Hn & Hsub)]; [by left|right]. split; [done|].
  destruct (undated_kind (view s (dir ++ [snap])) (view s' (dir ++ [snap])) n) as (n' & Hn' & Hk); [|done|].
  - symmetry. apply (lv_view _ _ _ Hl). intros [x Hx]. by apply (snaps_apart x [snap]).
  - exists n'. split; [done|]. unfold is_subvol in *. by rewrite Hk.
Qed.

(** *** One component *)

Definition sub (e : gostring) : path := p ++ [e].
Lemma sub_proper e : proper e → Forall proper (sub e).
Proof. intros He. apply Forall_app. split; [done|]. by apply Forall_singleton. Qed.
Lemma sub_ne e : sub e ≠ [].
Proof. unfold sub. by destruct p. Qed.
Lemma below_sub e q : below (sub e) q → below p q.
Proof. intros [x ->]. unfold below, sub. rewrite <- app_assoc. by apply prefix_app_r. Qed.
Lemma join_sub e : proper e → JoinPath (abs_path p) e = abs_path (sub e).
Proof. intros He. by apply JoinPath_one. Qed.
Lemma join_snap snap : SnapFiles.validSnapID snap = true → snap ≠ [] → JoinPath (abs_path dir) snap = abs_path (dir ++ [snap]).
Proof. intros Hv Hne. apply JoinPath_one; [done| |done]. by apply valid_proper. Qed.

(** Nothing, or a plain directory. *)
Definition clearable (o : option node) : Prop := match o with Some n => is_dir n = true ∧ is_subvol n = false | None => True end.
Lemma clearable_undated o o' : undated o = undated o' → clearable o → clearable o'.
Proof.
  intros Ho Hc. destruct o' as [n'|]; [|done]. destruct o as [n|]; [|done]. injection Ho as Hk _ _ _.
  unfold clearable, is_dir, is_subvol in *. by rewrite <- Hk.
Qed.

Section one.
Context (s : fs) (e : gostring).
Hypothesis Hwf : wf s.
Hypothesis He : proper e.
Hypothesis Hpd : dir_at s p = true.
Lemma sub_parent : dir_at s (parent (sub e)) = true.
Proof. unfold sub. by rewrite parent_snoc. Qed.

Lemma clear_plain_spec :
  clearable (view s (sub e)) →
  let s' := clear_plain env s (abs_path (sub e)) in leaves (below (sub e)) s s' ∧ view s' (sub e) = None.
Proof.
  intros Hc. cbn zeta. unfold clear_plain. destruct (view s (sub e)) as [n|] eqn:Hn.
  - destruct Hc as [Hd Hs]. assert (Hdir' : dir_at s (sub e) = true) by (unfold dir_at; by rewrite Hn).
    rewrite (stat_dir s Hwf); [|by apply sub_proper|done]. rewrite (show_there s (sub e) n Hwf (sub_proper e He) Hn Hd), Hs.
    rewrite (RemoveAll_plain env s (sub e) Hwf); [|by apply sub_proper|by apply sub_ne|apply sub_parent]. rewrite Hn. cbn [fst].
    destruct (leaves_without (below (sub e)) env s (sub e) Hwf (sub_ne e) sub_parent) as [Hl Hnone]; [done|]. split; [exact Hl|].
    specialize (Hnone []). by rewrite app_nil_r in Hnone.
  - rewrite (stat_none s (sub e) Hwf); [|by apply sub_proper|apply sub_parent|done]. split; [by apply leaves_refl|done].
Qed.
End one.

(** The owner or mode of a directory. *)
Lemma alone_dir s q : wf s → dir_at s q = true → alone s q.
Proof. intros Hwf Hd r _ Hr. by apply (dir_same_name s q r). Qed.
Lemma on_dir_spec s q f :
  wf s → Forall proper q → q ≠ [] → dir_at s q = true → keeps_kind f →
  let s' := (on_node s true (abs_path q) f).1 in leaves (eq q) s s' ∧ view s' q = f <$> view s q.
Proof.
  intros Hwf Hq Hne Hd Hf. cbn zeta. destruct (dir_at_view s q Hd) as (n & Hn & Hdn).
  rewrite (on_node_plain s q Hwf Hq (dir_parent s q Hwf Hd Hne) true f n Hn); [|intros _ t Ht; unfold is_dir in Hdn; by rewrite Ht in Hdn].
  cbn [fst]. split.
  - apply leaves_alone_change; [done|done|by apply alone_dir|done].
  - rewrite view_change_dir by done. by rewrite bool_decide_eq_true_2.
Qed.

Lemma dir_not_parent (q y : path) : q ++ y = q → y = [].
Proof. intros Heq. apply (app_inv_head q). by rewrite app_nil_r. Qed.

Lemma head_differs (e e' : gostring) x : e' ≠ e → ¬ below (sub e) (p ++ e' :: x).
Proof.
  intros Hne [y Hy]. unfold sub in Hy. rewrite <- app_assoc in Hy. apply app_inv_head in Hy. cbn in Hy. by injection Hy.
Qed.
Lemma base_above e : ¬ below (sub e) p.
Proof. intros [x Hx]. unfold sub in Hx. rewrite <- app_assoc in Hx. symmetry in Hx. by apply dir_not_parent in Hx. Qed.
Lemma sub_cons e y : sub e ++ y = p ++ e :: y.
Proof. unfold sub. by rewrite <- app_assoc. Qed.

(** A new subvolume, then its owner and mode. *)
Definition commutes (f : node → node) : Prop := ∀ n, set_mtime 0 (f n) = f (set_mtime 0 n).
Lemma owned_subvol s q f :
  wf s → free s q → keeps_kind f → commutes f →
  ∃ s1, CreateSubvol s (abs_path q) = (s1, true) ∧ let s' := (on_node s1 true (abs_path q) f).1 in
    leaves (below q) s s' ∧ dir_at s' q = true ∧
    ∀ y, undated (view s' (q ++ y)) = if bool_decide (y = []) then undated (Some (f (new_subvol env))) else None.
Proof.
  intros Hwf Hf Hk Hc. destruct (create_free s q Hwf Hf) as (s1 & Hs1 & Hl1 & Hv1). exists s1. split; [done|].
  pose proof (Hv1 []) as Hroot. rewrite app_nil_r, bool_decide_eq_true_2 in Hroot by done.
  destruct (undated_kind _ _ _ (eq_sym Hroot) eq_refl) as (n1 & Hn1 & Hk1).
  assert (Hd1 : dir_at s1 q = true) by (unfold dir_at, is_dir; by rewrite Hn1, Hk1).
  destruct (on_dir_spec s1 q f (lv_wf _ _ _ Hl1) (fr_proper _ _ Hf) (fr_ne _ _ Hf) Hd1 Hk) as [Hl2 Hv2]. cbn zeta. split_and!.
  - eapply leaves_trans; [exact Hl1|]. eapply leaves_weaken; [|exact Hl2]. intros r <-. exists []. by rewrite app_nil_r.
  - unfold dir_at. rewrite Hv2, Hn1. cbn. rewrite Hk. unfold is_dir. by rewrite Hk1.
  - intros y. case_bool_decide as Hy.
    + subst y. rewrite app_nil_r, Hv2. rewrite Hn1 in *. unfold undated in *. cbn in *. injection Hroot as Hk0 Hm0 Hu0 Hg0.
      rewrite !Hc. f_equal. f_equal. unfold set_mtime. by rewrite Hk0, Hm0, Hu0, Hg0.
    + rewrite (lv_view _ _ _ Hl2) by (intros Heq; by apply Hy, (dir_not_parent q)). rewrite Hv1. by rewrite bool_decide_eq_false_2.
Qed.
Lemma sub_free s e : proper e → dir_at s p = true → view s (sub e) = None → free s (sub e).
Proof. intros He Hd Hn. split; [by apply sub_proper|apply sub_ne|unfold sub; by rewrite parent_snoc|done]. Qed.

Lemma component_spec s e snap :
  wf s → proper e → dir_at s p = true → snap_there s snap → clearable (view s (sub e)) →
  ∃ s', component env (abs_path dir) s (abs_path (sub e)) snap = (s', None) ∧ leaves (below (sub e)) s s' ∧
    (∀ y, undated (view s' (sub e ++ y)) = component_view s snap y) ∧ dir_at s' (sub e) = true.
Proof.
  intros Hwf He Hpd Hsnap Hc. unfold component. destruct (clear_plain_spec s e Hwf He Hpd Hc) as [Hl Hn].
  set (s1 := clear_plain env s (abs_path (sub e))) in *. pose proof (lv_wf _ _ _ Hl) as Hwf1.
  assert (Hlp : leaves (below p) s s1) by (eapply leaves_weaken; [|exact Hl]; apply below_sub).
  assert (Hfree : free s1 (sub e)).
  { apply sub_free; [done| |done]. rewrite (leaves_dir _ _ _ _ Hl); [done|apply base_above]. }
  unfold component_view. destruct (decide (snap = [])) as [Hsn|Hsn];
    [rewrite (bool_decide_eq_true_2 (snap = [])), (bool_decide_eq_false_2 (snap ≠ [])) by naive_solver
    |rewrite (bool_decide_eq_false_2 (snap = [])), (bool_decide_eq_true_2 (snap ≠ [])) by done].
  - destruct (owned_subvol s1 (sub e) (set_owner Passwd.ThundersnapUID Passwd.ThundersnapGID) Hwf1 Hfree) as (s2 & Hs2 & Hl2 & Hd2 & Hv2); [done|done|].
    rewrite Hs2. eexists. split; [reflexivity|]. split; [by eapply leaves_trans|]. split; [|done].
    intros y. unfold Chown. rewrite Hv2. by case_bool_decide.
  - destruct (snap_there_same s s1 snap Hlp Hsnap) as [?|(Hval & n & Hsn1 & Hsub)]; [done|].
    rewrite join_snap by done. assert (Hsd : dir_at s1 (dir ++ [snap]) = true) by (unfold dir_at; rewrite Hsn1; by apply subvol_dir).
    assert (Hsp : Forall proper (dir ++ [snap])) by (apply Forall_app; split; [done|]; apply Forall_singleton; by apply valid_proper).
    unfold Stat. rewrite (resolve_dir s1 true _ Hwf1 Hsp Hsd). cbn [mbind option_bind]. rewrite Hsn1.
    destruct (snapshot_free s1 (dir ++ [snap]) (sub e) n Hwf1 Hsp Hsn1 Hsub Hfree) as (s2 & Hs2 & Hl2 & Hv2 & _). rewrite Hs2.
    exists s2. split; [done|]. split; [by eapply leaves_trans|]. split.
    + intros y. rewrite Hv2. apply copied_undated. intros q [z ->].
      apply (lv_view _ _ _ Hlp). intros [x Hx]. apply (snaps_apart x ([snap] ++ z)). by rewrite <- Hx, <- app_assoc.
    + pose proof (Hv2 []) as Hr. rewrite app_nil_r, (copied_root env s1 (dir ++ [snap]) n Hsn1 Hsub) in Hr.
      destruct (undated_kind _ _ _ (eq_sym Hr) eq_refl) as (n2 & Hn2 & Hk2). unfold dir_at, is_dir. rewrite Hn2, Hk2. by apply subvol_dir.
Qed.

Lemma link_work_spec s :
  wf s → dir_at s (sub home_name) = true →
  let s' := link_work env s (abs_path (sub home_name)) in
  leaves (eq (sub home_name ++ [work_name])) s s' ∧
  undated (view s' (sub home_name ++ [work_name])) =
    undated (Some (default (MkNode (KSymlink (bs "/work")) 511 0 0 0) (view s (sub home_name ++ [work_name])))).
Proof.
  intros Hwf Hd. cbn zeta. set (home := sub home_name) in *. set (q := home ++ [work_name]).
  assert (Hhp : Forall proper home) by (apply sub_proper; by apply proper_name).
  assert (Hw : proper work_name) by (by apply proper_name).
  assert (Hqp : Forall proper q) by (apply Forall_app; split; [done|]; by apply Forall_singleton).
  assert (Hqd : dir_at s (parent q) = true) by (unfold q; by rewrite parent_snoc).
  assert (Hqn : q ≠ []) by (unfold q; by destruct home).
  unfold link_work. change (bs "work") with work_name. rewrite JoinPath_one by first [done|apply sub_ne]. fold q. unfold Lstat. rewrite (resolve_child s q) by done. cbn [mbind option_bind].
  destruct (view s q) as [n|] eqn:Hn; [split; [by apply leaves_refl|by rewrite Hn]|].
  rewrite (Symlink_new env s q Hwf Hqp Hqd (bs "/work") Hn). cbn [fst].
  destruct (leaves_new_node (eq q) env s q (KSymlink (bs "/work")) 511 Hwf Hqn Hqd Hn) as (Hl & _ & Hv); [done|]. split; [done|]. by rewrite Hv.
Qed.

Definition id_dir : node := MkNode (KDir true) 493 0 0 0.
Lemma id_component_spec s :
  wf s → dir_at s p = true → clearable (view s (sub id_name)) →
  ∃ s', id_component env s (abs_path (sub id_name)) = (s', None) ∧ leaves (below (sub id_name)) s s' ∧
    ∀ y, undated (view s' (sub id_name ++ y)) = if bool_decide (y = []) then Some id_dir else None.
Proof.
  intros Hwf Hpd Hc. assert (Hi : proper id_name) by (by apply proper_name). unfold id_component.
  destruct (clear_plain_spec s id_name Hwf Hi Hpd Hc) as [Hl Hn]. set (id := sub id_name) in *.
  assert (Hip : Forall proper id) by (by apply sub_proper). assert (Hin : id ≠ []) by apply sub_ne.
  set (s1 := clear_plain env s (abs_path id)) in *. pose proof (lv_wf _ _ _ Hl) as Hwf1.
  assert (Hfree : free s1 id).
  { apply sub_free; [done| |done]. rewrite (leaves_dir _ _ _ _ Hl); [done|apply base_above]. }
  rewrite (show_free s1 id Hwf1 Hfree). destruct (owned_subvol s1 id (set_owner 0 0) Hwf1 Hfree) as (s2 & Hs2 & Hl2 & Hd2 & Hv2); [done|done|].
  rewrite Hs2. eexists. split; [reflexivity|]. unfold configureIDDir, Chown, Chmod. set (s3 := (on_node s2 true (abs_path id) (set_owner 0 0)).1) in *.
  destruct (on_dir_spec s3 id (set_mode (file_mode 493)) (lv_wf _ _ _ Hl2) Hip Hin Hd2) as [Hl3 Hv3]; [done|]. split.
  - eapply leaves_trans; [exact Hl|]. eapply leaves_trans; [exact Hl2|]. eapply leaves_weaken; [|exact Hl3]. intros q <-. exists []. by rewrite app_nil_r.
  - intros y. specialize (Hv2 y). case_bool_decide as Hy; [subst y; rewrite app_nil_r in *|].
    + rewrite Hv3. destruct (view s3 id) as [n|]; [|done]. unfold undated in *. cbn in *. injection Hv2 as Hk Hm Hu Hg. f_equal.
      unfold id_dir, set_mtime. cbn. by rewrite Hk, Hu, Hg.
    + rewrite (lv_view _ _ _ Hl3), Hv2 by (intros Heq; by apply Hy, (dir_not_parent id)). done.
Qed.

(** *** The root of a frame *)

(** The tree below an empty root: the directories, then the files. *)
Definition add_dir (t : gmap path node) (d : gostring * Z) : gmap path node :=
  <[path_elems d.1 := MkNode (KDir false) (file_mode d.2) 0 0 0]> t.
Definition add_file (t : gmap path node) (f : gostring * gostring) : gmap path node :=
  <[path_elems f.1 := MkNode (KFile f.2) (Z.land 420 (Z.lnot (umask env))) 0 0 0]> t.
Definition minimal_tree : gmap path node :=
  foldl add_file (foldl add_dir {[ [] := new_subvol env ]} minimal_dirs) minimal_files.

Record has_tree (s0 s : fs) (t : gmap path node) : Prop := {
  ht_leaves : leaves (below p) s0 s;
  ht_view : ∀ x, undated (view s (p ++ x)) = undated (t !! x);
  ht_alone : ∀ x, alone s (p ++ x);
}.
(** The path is new, and in a directory. *)
Definition fits (t : gmap path node) (name : gostring) : bool :=
  let x := path_elems name in
  bool_decide (Join x slash = name) && bool_decide (Forall (λ s, s ≠ [] ∧ s ≠ dot ∧ s ≠ dotdot ∧ slash ∉ s) x) && bool_decide (x ≠ []) &&
  bool_decide (t !! x = None) && match t !! parent x with Some n => is_dir n | None => false end.

Section step.
Context (s0 s : fs) (t : gmap path node) (name : gostring).
Hypothesis Ht : has_tree s0 s t.
Hypothesis Hfits : fits t name = true.
Let x := path_elems name.
Let q := p ++ x.

Lemma fits_free : free s q ∧ JoinPath (abs_path p) name = abs_path q ∧ x ≠ [].
Proof.
  unfold fits in Hfits. fold x in Hfits. apply andb_true_iff in Hfits as [[[[Hj%bool_decide_eq_true_1 Hx%proper_names]%andb_true_iff
    Hne%bool_decide_eq_true_1]%andb_true_iff Hn%bool_decide_eq_true_1]%andb_true_iff Hd]. split; [split|split; [|done]].
  - by apply Forall_app_2.
  - unfold q. by destruct p.
  - unfold q. rewrite parent_app by done. pose proof (ht_view _ _ _ Ht (parent x)) as Hv. destruct (t !! parent x) as [n|]; [|done].
    destruct (undated_kind _ _ _ (eq_sym Hv) eq_refl) as (n' & Hn' & Hk). unfold dir_at. rewrite Hn'. unfold is_dir. rewrite Hk. exact Hd.
  - apply undated_none. unfold q. rewrite (ht_view _ _ _ Ht). by rewrite Hn.
  - rewrite <- Hj. by apply JoinPath_proper.
Qed.

(** A node at the path, its mode set afterwards. *)
Lemma has_tree_insert s' n :
  leaves (eq q) s s' → undated (view s' q) = undated (Some n) → alone s' q → has_tree s0 s' (<[x := n]> t).
Proof.
  intros Hl Hv Ha. split.
  - eapply leaves_trans; [apply Ht|]. eapply leaves_weaken; [|exact Hl]. intros r <-. unfold q, below. by apply prefix_app_r.
  - intros y. destruct (decide (y = x)) as [->|Hne]; [by rewrite lookup_insert_eq|]. rewrite lookup_insert_ne by done.
    rewrite (lv_view _ _ _ Hl); [apply Ht|]. intros Heq. by apply app_inv_head in Heq.
  - intros y. destruct (decide (y = x)) as [->|Hne]; [done|]. apply (leaves_alone _ _ _ _ (lv_wf _ _ _ (ht_leaves _ _ _ Ht)) Hl); [|apply Ht].
    intros Heq. by apply app_inv_head in Heq.
Qed.

Lemma make_dir_step mode :
  ∃ s', make_dir env (abs_path p) (s, true) (name, mode) = (s', true) ∧ has_tree s0 s' (add_dir t (name, mode)).
Proof.
  destruct fits_free as (Hf & Hj & Hx). pose proof (lv_wf _ _ _ (ht_leaves _ _ _ Ht)) as Hwf. destruct Hf as [Hqp Hqn Hqd Hqf].
  unfold make_dir, and_then. cbn [fst snd]. rewrite Hj. rewrite (MkdirAll_new env s q Hwf Hqp Hqn Hqd (file_mode mode) Hqf).
  destruct (leaves_new_node (eq q) env s q (KDir false) (Z.land (Z.land (file_mode mode) 1023) (Z.lnot (umask env))) Hwf Hqn Hqd Hqf) as (Hl & Ha & Hv); [done|].
  set (s1 := new_node _ _ _ _ _) in *. assert (Hd1 : dir_at s1 q = true) by (unfold dir_at; by rewrite Hv).
  destruct (on_dir_spec s1 q (set_mode (file_mode mode)) (lv_wf _ _ _ Hl) Hqp Hqn Hd1) as [Hl2 Hv2]; [done|].
  assert (Hok : Chmod s1 (abs_path q) (file_mode mode) = ((Chmod s1 (abs_path q) (file_mode mode)).1, true)).
  { unfold Chmod, on_node. rewrite (resolve_dir s1 true q); [|apply Hl|done|done]. by rewrite Hv. }
  rewrite Hok. eexists. split; [reflexivity|]. apply has_tree_insert.
  - by eapply leaves_trans.
  - unfold Chmod. rewrite Hv2, Hv. reflexivity.
  - apply alone_dir; [apply Hl2|]. unfold Chmod, dir_at. by rewrite Hv2, Hv.
Qed.
Lemma make_file_step data :
  ∃ s', make_file env (abs_path p) (s, true) (name, data) = (s', true) ∧ has_tree s0 s' (add_file t (name, data)).
Proof.
  destruct fits_free as (Hf & Hj & Hx). pose proof (lv_wf _ _ _ (ht_leaves _ _ _ Ht)) as Hwf. destruct Hf as [Hqp Hqn Hqd Hqf].
  unfold make_file, and_then, WriteFile. cbn [fst snd]. rewrite Hj. rewrite (CreateFile_new env s q Hwf Hqp Hqd (file_mode 420) data Hqf).
  eexists. split; [reflexivity|].
  destruct (leaves_new_node (eq q) env s q (KFile data) (Z.land (file_mode 420) (Z.lnot (umask env))) Hwf Hqn Hqd Hqf) as (Hl & Ha & Hv); [done|].
  apply has_tree_insert; [done| |done]. by rewrite Hv.
Qed.
End step.

Fixpoint all_fit {A} (add : gmap path node → gostring * A → gmap path node) (t : gmap path node) (l : list (gostring * A)) : bool :=
  match l with [] => true | b :: l => fits t b.1 && all_fit add (add t b) l end.
Lemma made_all {A} (add : gmap path node → gostring * A → gmap path node) (make : fs * bool → gostring * A → fs * bool) s0 l :
  (∀ s t b, has_tree s0 s t → fits t b.1 = true → ∃ s', make (s, true) b = (s', true) ∧ has_tree s0 s' (add t b)) →
  ∀ s t, has_tree s0 s t → all_fit add t l = true → ∃ s', foldl make (s, true) l = (s', true) ∧ has_tree s0 s' (foldl add t l).
Proof.
  intros Hstep. induction l as [|b l IH]; intros s t Ht Hfit; cbn; [by exists s|]. apply andb_true_iff in Hfit as [Hb Hl].
  destruct (Hstep s t b Ht Hb) as (s1 & -> & Ht1). by apply IH.
Qed.

Lemma minimal_fits : all_fit add_dir {[ [] := new_subvol env ]} minimal_dirs = true ∧
  all_fit add_file (foldl add_dir {[ [] := new_subvol env ]} minimal_dirs) minimal_files = true.
Proof. split; vm_compute; reflexivity. Qed.

(** [setupMinimalRootfs] in a new subvolume. *)
Lemma minimal_root s0 s :
  has_tree s0 s {[ [] := new_subvol env ]} → ∃ s', setupMinimalRootfs env s (abs_path p) = (s', true) ∧ has_tree s0 s' minimal_tree.
Proof.
  intros Ht. destruct minimal_fits as [Hd Hf]. unfold setupMinimalRootfs, minimal_tree.
  destruct (made_all add_dir (make_dir env (abs_path p)) s0 minimal_dirs) with (s := s) (t := {[ [] := new_subvol env ]} : gmap path node) as (s1 & -> & Ht1);
    [intros s' t' [name mode] Ht' Hfit; exact (make_dir_step s0 s' t' name Ht' Hfit mode)|done|done|].
  apply (made_all add_file (make_file env (abs_path p))); [|done|done].
  intros s' t' [name data] Ht' Hfit. exact (make_file_step s0 s' t' name Ht' Hfit data).
Qed.

(** What the root of a frame without a root snap is meant to have. *)
Definition blank_dir (mode : Z) : node := MkNode (KDir false) mode 0 0 0.
Definition blank_file (content : gostring) : node := MkNode (KFile content) (Z.land 420 (Z.lnot (umask env))) 0 0 0.
Definition newline : gostring := [Byte.x0a].
Definition blank_root : gmap path node :=
  list_to_map
    [ ([], MkNode (KDir true) (Z.land 511 (Z.lnot (umask env))) 0 0 0);
      ([bs "bin"], blank_dir 493); ([bs "sbin"], blank_dir 493); ([bs "etc"], blank_dir 493);
      ([bs "tmp"], blank_dir 1023); ([bs "proc"], blank_dir 365); ([bs "sys"], blank_dir 365);
      ([bs "dev"], blank_dir 493); ([bs "root"], blank_dir 448); ([bs "run"], blank_dir 493);
      ([bs "var"], blank_dir 493); ([bs "var"; bs "log"], blank_dir 493); ([bs "var"; bs "tmp"], blank_dir 1023);
      ([bs "usr"], blank_dir 493); ([bs "usr"; bs "bin"], blank_dir 493); ([bs "usr"; bs "sbin"], blank_dir 493);
      ([bs "usr"; bs "lib"], blank_dir 493);
      ([bs "etc"; bs "passwd"],
       blank_file (bs "root:x:0:0:root:/root:/bin/sh" ++ newline ++ bs "user:x:7575:7575:user:/home:/bin/sh" ++ newline ++
                   bs "nobody:x:65534:65534:nobody:/nonexistent:/usr/sbin/nologin" ++ newline));
      ([bs "etc"; bs "group"],
       blank_file (bs "root:x:0:" ++ newline ++ bs "user:x:7575:" ++ newline ++ bs "nogroup:x:65534:" ++ newline));
      ([bs "etc"; bs "hostname"], blank_file (bs "thundersnap" ++ newline));
      ([bs "etc"; bs "hosts"],
       blank_file (bs "127.0.0.1" ++ [Byte.x09] ++ bs "localhost" ++ newline ++ bs "::1" ++ [Byte.x09] ++ bs "localhost" ++ newline));
      ([bs "etc"; bs "resolv.conf"], blank_file (bs "nameserver 8.8.8.8" ++ newline));
      ([bs "etc"; bs "nsswitch.conf"],
       blank_file (bs "passwd: files" ++ newline ++ bs "group: files" ++ newline ++ bs "hosts: files dns" ++ newline)) ].

(** The directories that are meant to have the sticky bit. *)
Definition tmp_dirs : list path := [[bs "tmp"]; [bs "var"; bs "tmp"]].
Definition sticky_aside (o : option node) : option node := (λ n, set_mode (Z.land (n_mode n) 511) n) <$> o.

(** With the modes that the code gives to these. *)
Definition open_root : gmap path node := <[[bs "tmp"] := blank_dir 511]> (<[[bs "var"; bs "tmp"] := blank_dir 511]> blank_root).
Lemma minimal_blank : set_mtime 0 <$> minimal_tree = set_mtime 0 <$> open_root.
Proof.
  apply map_to_list_inj. assert (map_to_list (set_mtime 0 <$> minimal_tree) = map_to_list (set_mtime 0 <$> open_root)) as ->
    by (vm_compute; reflexivity). done.
Qed.
Lemma minimal_view x : undated (minimal_tree !! x) = undated (open_root !! x).
Proof. unfold undated. rewrite <- !lookup_fmap. exact (f_equal (lookup x) minimal_blank). Qed.

Lemma minimal_is_blank x : x ∉ tmp_dirs → undated (minimal_tree !! x) = undated (blank_root !! x).
Proof.
  intros Hx. rewrite minimal_view. unfold open_root. generalize blank_root. intros t. apply not_elem_of_cons in Hx as [H1 [H2 _]%not_elem_of_cons].
  by rewrite !lookup_insert_ne by congruence.
Qed.
Lemma minimal_tmp x : x ∈ tmp_dirs → sticky_aside (undated (minimal_tree !! x)) = sticky_aside (undated (blank_root !! x)).
Proof.
  intros Hx. rewrite minimal_view. apply elem_of_cons in Hx as [->|Hx%list_elem_of_singleton]; [vm_compute; reflexivity|].
  rewrite Hx. vm_compute. reflexivity.
Qed.

(** A root snap whose files of a container are no links, nor its mount points files. *)
Record tidy (s : fs) (snap : path) : Prop := {
  td_files : ∀ x, x ∈ container_paths → plain_node (view s (snap ++ x)) ∧ alone s (snap ++ x);
  td_points : ∀ e, e ∈ [home_name; work_name; id_name] → match view s (snap ++ [e]) with Some n => is_dir n = true | None => True end;
}.

Lemma copied_point s snap n e :
  view s (dir ++ [snap]) = Some n → tidy s (dir ++ [snap]) → e ∈ [home_name; work_name; id_name] → clearable (copied env s (dir ++ [snap]) [e]).
Proof.
  intros Hn Ht He. unfold copied. cbn [nested seq length Nat.sub existsb]. pose proof (td_points _ _ Ht e He) as Hd.
  destruct (view s ((dir ++ [snap]) ++ [e])) as [m|]; [|done]. unfold clearable. cbn. split; [by rewrite copy_is_dir|].
  unfold copy_node. by destruct (is_subvol m) eqn:Hsv.
Qed.
Lemma copied_plain s snap x : plain_node (view s (snap ++ x)) → plain_node (copied env s snap x).
Proof.
  unfold copied. destruct (nested s snap x); [done|]. destruct (view s (snap ++ x)) as [n|]; [|done]. cbn. unfold copy_node.
  by destruct (is_subvol n && _).
Qed.

Definition root_there (s : fs) (snap : gostring) : Prop :=
  snap = [] ∨ SnapFiles.validSnapID snap = true ∧ tidy s (dir ++ [snap]) ∧ ∃ n, view s (dir ++ [snap]) = Some n ∧ is_subvol n = true.
Definition root_view (s : fs) (snap : gostring) (x : path) : option node :=
  if bool_decide (snap = []) then undated (blank_root !! x) else undated (copied env s (dir ++ [snap]) x).

(** The root, which the rest of the assembly starts from. *)
Record root_made (s s1 : fs) (snap : gostring) : Prop := {
  rm_leaves : leaves (below p) s s1;
  rm_dir : dir_at s1 p = true;
  rm_view : ∀ x, ¬ (snap = [] ∧ x ∈ tmp_dirs) → undated (view s1 (p ++ x)) = root_view s snap x;
  rm_tmp : snap = [] → ∀ x, x ∈ tmp_dirs → sticky_aside (undated (view s1 (p ++ x))) = sticky_aside (root_view s snap x);
  rm_plain : ∀ x, x ∈ container_paths → plain_node (view s1 (p ++ x));
  rm_alone : ∀ x, x ∈ container_paths → alone s1 (p ++ x);
  rm_points : ∀ e, e ∈ [home_name; work_name; id_name] → clearable (view s1 (sub e));
}.

Lemma new_tree s s1 :
  wf s → leaves (below p) s s1 → (∀ y, undated (view s1 (p ++ y)) = if bool_decide (y = []) then undated (Some (new_subvol env)) else None) →
  has_tree s s1 {[ [] := new_subvol env ]}.
Proof.
  intros Hwf Hl Hv. split; [done| |].
  - intros x. rewrite Hv. case_bool_decide as Hx; [subst; by rewrite lookup_singleton_eq|by rewrite lookup_singleton_ne].
  - intros x. specialize (Hv x). case_bool_decide as Hx; [subst; rewrite app_nil_r in *|].
    + apply alone_dir; [apply Hl|]. destruct (undated_kind _ _ _ (eq_sym Hv) eq_refl) as (n & Hn & Hk). unfold dir_at, is_dir. by rewrite Hn, Hk.
    + intros r [i Hi]. apply (proj1 (undated_none _)), (view_names s1) in Hv; [congruence|apply Hl].
Qed.

Lemma minimal_made s s1 : has_tree s s1 minimal_tree → root_made s s1 [].
Proof.
  intros [Hl Hv Ha].
  assert (Hk : ∀ x n, minimal_tree !! x = Some n → ∃ n', view s1 (p ++ x) = Some n' ∧ n_kind n' = n_kind n).
  { intros x n Hn. apply (undated_kind (minimal_tree !! x)); [by rewrite Hv|done]. }
  assert (Hnone : ∀ x, minimal_tree !! x = None → view s1 (p ++ x) = None).
  { intros x Hn. apply undated_none. by rewrite Hv, Hn. }
  split; [done| | | | |by intros|].
  3: { intros _ x Hx. rewrite Hv. unfold root_view. rewrite bool_decide_eq_true_2 by done. by apply minimal_tmp. }
  2: { intros x Hx. rewrite Hv. unfold root_view. rewrite bool_decide_eq_true_2 by done. apply minimal_is_blank. intros Hin. exact (Hx (conj eq_refl Hin)). }
  - destruct (Hk [] (new_subvol env)) as (n & Hn & Hkn); [vm_compute; reflexivity|]. rewrite app_nil_r in Hn. unfold dir_at, is_dir. by rewrite Hn, Hkn.
  - intros x Hx. assert (Hc : forallb (λ x, match minimal_tree !! x with Some n => match n_kind n with KSymlink _ => false | _ => true end | None => true end) container_paths = true)
      by (vm_compute; reflexivity).
    rewrite forallb_forall in Hc. apply list_elem_of_In, Hc in Hx. destruct (minimal_tree !! x) as [n|] eqn:Hn.
    + destruct (Hk x n Hn) as (n' & -> & Hkn). cbn. rewrite Hkn. intros l Hl'. by rewrite Hl' in Hx.
    + by rewrite (Hnone x Hn).
  - intros e He. unfold sub. rewrite Hnone; [done|].
    repeat (apply elem_of_cons in He as [->|He]; [vm_compute; reflexivity|]). by apply elem_of_nil in He.
Qed.

Lemma root_component_spec s snap :
  wf s → root_there s snap → dir_at s (parent p) = true → view s p = None →
  ∃ s1, root_component env (abs_path dir) s (abs_path p) snap = (s1, None) ∧ root_made s s1 snap.
Proof.
  intros Hwf Hroot Hpar Hfree. unfold root_component. destruct (decide (snap = [])) as [->|Hne].
  - rewrite bool_decide_eq_false_2 by naive_solver. destruct (create_free s p Hwf) as (s1 & -> & Hl & Hv); [by split|].
    destruct (minimal_root s s1) as (s2 & -> & Ht); [by apply new_tree|]. exists s2. split; [done|]. by apply minimal_made.
  - rewrite bool_decide_eq_true_2 by done. destruct Hroot as [?|(Hval & Htidy & n & Hn & Hsub)]; [done|]. rewrite join_snap by done.
    assert (Hsp : Forall proper (dir ++ [snap])) by (apply Forall_app; split; [done|]; apply Forall_singleton; by apply valid_proper).
    assert (Hsd : dir_at s (dir ++ [snap]) = true) by (unfold dir_at; rewrite Hn; by apply subvol_dir).
    unfold Stat. rewrite (resolve_dir s true _ Hwf Hsp Hsd). cbn [mbind option_bind]. rewrite Hn.
    destruct (snapshot_free s (dir ++ [snap]) p n Hwf Hsp Hn Hsub) as (s1 & -> & Hl & Hv & Ha); [by split|]. exists s1. split; [done|].
    split; [done| | | | | |].
    + pose proof (Hv []) as Hr. rewrite app_nil_r, (copied_root env s _ n Hn Hsub) in Hr.
      destruct (undated_kind _ _ _ (eq_sym Hr) eq_refl) as (n1 & Hn1 & Hk1). unfold dir_at, is_dir. rewrite Hn1, Hk1. by apply subvol_dir.
    + intros x _. unfold root_view. by rewrite bool_decide_eq_false_2.
    + by intros ?.
    + intros x Hx. apply (plain_undated (copied env s (dir ++ [snap]) x)); [done|]. by apply copied_plain, (td_files _ _ Htidy).
    + intros x Hx. by apply Ha, (td_files _ _ Htidy).
    + intros e He. unfold sub. apply (clearable_undated (copied env s (dir ++ [snap]) [e])); [done|by apply (copied_point s snap n)].
Qed.

(** *** The whole frame *)

Definition work_link : node := MkNode (KSymlink (bs "/work")) 511 0 0 0.

(** What a frame of the snaps has, times aside. *)
Definition in_home (s : fs) (snap : gostring) (y : path) : option node :=
  match component_view s snap y with Some n => Some n | None => if bool_decide (y = [work_name]) then Some work_link else None end.
Definition in_frame (s : fs) (meta : Frame) (x : path) : option node :=
  match x with
  | e :: y =>
      if bool_decide (e = home_name) then in_home s (F_Home meta) y
      else if bool_decide (e = work_name) then component_view s (Work meta) y
      else if bool_decide (e = id_name) then (if bool_decide (y = []) then Some id_dir else None)
      else root_view s (Rootfs meta) x
  | [] => root_view s (Rootfs meta) []
  end.
Definition frame_view (s : fs) (meta : Frame) (q : path) : option node :=
  match strip p q with Some x => in_frame s meta x | None => undated (view s q) end.

(** Steps 1 to 3b. *)
Lemma assemble_steps s meta :
  wf s → root_there s (Rootfs meta) → snap_there s (F_Home meta) → snap_there s (Work meta) → dir_at s (parent p) = true → view s p = None →
  ∃ s1 s', assemble env (abs_path dir) s (abs_path p) (Rootfs meta) (F_Home meta) (Work meta) = (s', None) ∧
    root_made s s1 (Rootfs meta) ∧ leaves (λ q, below (sub home_name) q ∨ below (sub work_name) q) s1 s' ∧
    (∀ y, undated (view s' (p ++ home_name :: y)) = in_home s (F_Home meta) y) ∧
    (∀ y, undated (view s' (p ++ work_name :: y)) = component_view s (Work meta) y).
Proof.
  intros Hwf Hroot Hh Hw Hpar Hfree. unfold assemble.
  destruct (root_component_spec s (Rootfs meta) Hwf Hroot Hpar Hfree) as (s1 & -> & Hm). cbn [next].
  destruct Hm as [Hl1 Hd1 Hv1 Ht1 Hp1 Ha1 Hpoint] eqn:HeqHm. clear HeqHm. pose proof (lv_wf _ _ _ Hl1) as Hwf1.
  assert (JoinPath (abs_path p) (bs "home") = abs_path (sub home_name)) as -> by (apply join_sub; by apply proper_name).
  assert (JoinPath (abs_path p) (bs "work") = abs_path (sub work_name)) as -> by (apply join_sub; by apply proper_name).
  destruct (component_spec s1 home_name (F_Home meta) Hwf1) as (s2 & Hc2 & Hl2 & Hv2 & Hd2);
    [by apply proper_name|done|by apply (snap_there_same s)|apply Hpoint; by left|]. rewrite Hc2. cbn [next].
  assert (Hl2' : leaves (below p) s s2) by (eapply leaves_trans; [exact Hl1|]; eapply leaves_weaken; [|exact Hl2]; apply below_sub).
  assert (Hwork2 : clearable (view s2 (sub work_name))).
  { apply (clearable_undated (view s1 (sub work_name))); [|apply Hpoint; right; by left]. symmetry. apply (lv_view _ _ _ Hl2).
    unfold sub at 2. by apply head_differs. }
  destruct (component_spec s2 work_name (Work meta) (lv_wf _ _ _ Hl2)) as (s3 & Hc3 & Hl3 & Hv3 & _);
    [by apply proper_name|rewrite (leaves_dir _ _ _ _ Hl2); [done|apply base_above]|by apply (snap_there_same s)|done|]. rewrite Hc3. cbn [next].
  assert (Hd3 : dir_at s3 (sub home_name) = true).
  { rewrite (leaves_dir _ _ _ _ Hl3); [done|]. unfold sub at 2. by apply head_differs. }
  destruct (link_work_spec s3 (lv_wf _ _ _ Hl3) Hd3) as [Hl4 Hv4]. set (s4 := link_work env s3 (abs_path (sub home_name))) in *.
  exists s1, s4. split_and!; [done|done| | |].
  - eapply leaves_trans; [eapply leaves_weaken; [|exact Hl2]; by left|]. eapply leaves_trans; [eapply leaves_weaken; [|exact Hl3]; by right|].
    eapply leaves_weaken; [|exact Hl4]. intros q <-. left. by exists [work_name].
  - intros y. unfold in_home. rewrite <- (component_view_same s s1) by done. rewrite <- Hv2, <- sub_cons.
    assert (H23 : undated (view s3 (sub home_name ++ y)) = undated (view s2 (sub home_name ++ y))).
    { apply (lv_view _ _ _ Hl3). rewrite sub_cons. by apply head_differs. }
    rewrite <- H23. destruct (decide (y = [work_name])) as [->|Hy].
    + rewrite Hv4. by destruct (view s3 (sub home_name ++ [work_name])).
    + rewrite (lv_view _ _ _ Hl4) by (intros Heq; by apply app_inv_head in Heq). rewrite (bool_decide_eq_false_2 (y = _)) by done.
      by destruct (undated (view s3 (sub home_name ++ y))).
  - intros y. rewrite <- (component_view_same s s2) by done. rewrite <- Hv3, <- sub_cons. apply (lv_view _ _ _ Hl4).
    intros Heq. rewrite (sub_cons work_name), (sub_cons home_name) in Heq. by apply app_inv_head in Heq.
Qed.

Lemma away_from_parts x : head x ≠ Some home_name → head x ≠ Some work_name → ¬ (below (sub home_name) (p ++ x) ∨ below (sub work_name) (p ++ x)).
Proof.
  intros Hx1 Hx2 [Hb|Hb]; destruct x as [|e x]; [by apply (base_above home_name); rewrite app_nil_r in Hb|revert Hb; apply head_differs; naive_solver
    |by apply (base_above work_name); rewrite app_nil_r in Hb|revert Hb; apply head_differs; naive_solver].
Qed.
Lemma container_away x : x ∈ container_paths → head x ≠ Some home_name ∧ head x ≠ Some work_name.
Proof. intros Hx. repeat (apply elem_of_cons in Hx as [->|Hx]; [vm_compute; split; congruence|]). by apply elem_of_nil in Hx. Qed.
Lemma tmp_away x : x ∈ tmp_dirs → head x ≠ Some home_name ∧ head x ≠ Some work_name ∧ head x ≠ Some id_name.
Proof. intros Hx. repeat (apply elem_of_cons in Hx as [->|Hx]; [vm_compute; split_and!; congruence|]). by apply elem_of_nil in Hx. Qed.
Lemma not_below_id x : head x ≠ Some id_name → ¬ below (sub id_name) (p ++ x).
Proof.
  intros Hi. destruct x as [|e y]; [rewrite app_nil_r; by apply base_above|]. apply head_differs. intros Heq. apply Hi. by rewrite Heq.
Qed.

Lemma assemble_spec s meta :
  wf s → root_there s (Rootfs meta) → snap_there s (F_Home meta) → snap_there s (Work meta) → dir_at s (parent p) = true → view s p = None →
  ∃ s', assemble env (abs_path dir) s (abs_path p) (Rootfs meta) (F_Home meta) (Work meta) = (s', None) ∧
    leaves (below p) s s' ∧ sealed p container_paths s' ∧ clearable (view s' (sub id_name)) ∧
    (∀ x, head x ≠ Some id_name → ¬ (Rootfs meta = [] ∧ x ∈ tmp_dirs) → undated (view s' (p ++ x)) = in_frame s meta x) ∧
    (Rootfs meta = [] → ∀ x, x ∈ tmp_dirs → sticky_aside (undated (view s' (p ++ x))) = sticky_aside (in_frame s meta x)).
Proof.
  intros Hwf Hroot Hh Hw Hpar Hfree.
  destruct (assemble_steps s meta) as (s1 & s' & Hs' & [Hl1 Hd1 Hv1 Ht1 Hp1 Ha1 Hpoint] & Hrest & Hhome & Hwork); try done.
  assert (Haway : ∀ x, head x ≠ Some home_name → head x ≠ Some work_name → undated (view s' (p ++ x)) = undated (view s1 (p ++ x))).
  { intros x H1 H2. apply (lv_view _ _ _ Hrest). by apply away_from_parts. }
  exists s'. split; [done|]. split; [|split; [split|split; [|split]]].
  - eapply leaves_trans; [exact Hl1|]. eapply leaves_weaken; [|exact Hrest]. intros q [Hb|Hb]; by apply below_sub in Hb.
  - apply Hrest.
  - rewrite (leaves_dir _ _ _ _ Hrest); [done|]. rewrite <- (app_nil_r p). by apply away_from_parts.
  - intros x Hx. apply (plain_undated (view s1 (p ++ x))); [|by apply Hp1]. symmetry. by apply Haway; apply container_away.
  - intros x Hx. apply (leaves_alone _ s1 s' (p ++ x) (lv_wf _ _ _ Hl1) Hrest); [by apply away_from_parts; apply container_away|by apply Ha1].
  - apply (clearable_undated (view s1 (sub id_name))); [|apply Hpoint; by do 2 right; left]. symmetry. by apply (Haway [id_name]).
  - intros x Hid Hopen. assert (Hr : head x ≠ Some home_name → head x ≠ Some work_name → undated (view s' (p ++ x)) = root_view s (Rootfs meta) x).
    { intros H1 H2. by rewrite Haway, Hv1. }
    destruct x as [|e y]; [by apply Hr|]. cbn [in_frame]. case_bool_decide as Heh; [subst e; apply Hhome|].
    case_bool_decide as Hew; [subst e; apply Hwork|]. rewrite bool_decide_eq_false_2 by naive_solver. apply Hr; naive_solver.
  - intros Hnil x Hx. destruct (tmp_away x Hx) as (H1 & H2 & H3). rewrite Haway, (Ht1 Hnil x Hx) by done.
    destruct x as [|e y]; [done|]. cbn [in_frame head] in *. rewrite (bool_decide_eq_false_2 (e = home_name)) by (intros ->; by apply H1).
    rewrite (bool_decide_eq_false_2 (e = work_name)) by (intros ->; by apply H2).
    by rewrite (bool_decide_eq_false_2 (e = id_name)) by (intros ->; by apply H3).
Qed.
End assembled.

(** ** Programs, where the paths are plain *)

(** [cp] to a new name. *)
Class CpSpec (env : fs_env) `{Cp} : Prop := {
  cp_free s src dst n c : wf s → Forall proper src → view s src = Some n → n_kind n = KFile c → free s dst →
    ∃ s' n', exec_cp s [reflink; abs_path src; abs_path dst] = (s', true) ∧ leaves (eq dst) s s' ∧ alone s' dst ∧
      view s' dst = Some n' ∧ n_kind n' = KFile c ∧ n_mtime n' = clock env;
}.

(** The file at a path that is no link. *)
Lemma stat_file s q n c : wf s → Forall proper q → q ≠ [] → view s q = Some n → n_kind n = KFile c → Stat s (abs_path q) = Some n.
Proof.
  intros Hwf Hq Hne Hn Hk. unfold Stat. destruct (view_some s q n Hn) as (i & Hi & _).
  rewrite (resolve_file s q Hwf Hq (wf_parent s Hwf q i Hi Hne) n c Hn Hk). exact Hn.
Qed.

Section installed.
Context (env : fs_env) `{CpSpec env} (dir_size : node → Z) (fsd p : path) (name bin : gostring).
Hypothesis Hfsd : Forall proper fsd.
Hypothesis Hfne : fsd ≠ [].
Hypothesis Hp : Forall proper p.
Hypothesis Hpne : p ≠ [].
Hypothesis Hname : proper name.
Hypothesis Hbin : proper bin.
Let src := fsd ++ [bs "libexec"; name].
Let dst := p ++ [bin; name].

Lemma src_path : JoinPath (fsDirLibexec (abs_path fsd)) name = abs_path src ∧ Forall proper src ∧ src ≠ [].
Proof.
  assert (Hl : proper (bs "libexec")) by (by apply proper_name). unfold fsDirLibexec, src.
  assert (Hlp : Forall proper (fsd ++ [bs "libexec"])) by (apply Forall_app_2; [done|by apply Forall_cons_2; [|apply Forall_nil_2]]).
  rewrite (JoinPath_one fsd), (JoinPath_one (fsd ++ [bs "libexec"])) by first [done|by destruct fsd]. rewrite <- app_assoc. split; [done|]. split; [|by destruct fsd].
  apply Forall_app_2; [done|]. by repeat apply Forall_cons_2; [..|apply Forall_nil_2].
Qed.
Lemma dst_path : JoinPath (abs_path p) (bin ++ slash :: name) = abs_path dst ∧ Forall proper dst ∧ dst ≠ [] ∧ parent dst = p ++ [bin] ∧ Dir (abs_path dst) = abs_path (p ++ [bin]).
Proof.
  assert (Hd : dst = (p ++ [bin]) ++ [name]) by (unfold dst; by rewrite <- app_assoc).
  assert (Hpb : Forall proper (p ++ [bin])) by (apply Forall_app_2; [done|by apply Forall_cons_2; [|apply Forall_nil_2]]).
  split_and!.
  - change (bin ++ slash :: name) with (Join [bin; name] slash). apply JoinPath_proper; [done| |done]. by repeat apply Forall_cons_2; [..|apply Forall_nil_2].
  - rewrite Hd. apply Forall_app_2; [done|by apply Forall_cons_2; [|apply Forall_nil_2]].
  - unfold dst. by destruct p.
  - by rewrite Hd, parent_snoc.
  - rewrite Hd. apply Dir_abs; [done|by destruct p|done].
Qed.

(** A program that is missing is copied; a second call leaves everything as it is. *)
Lemma copy_installs s n c :
  wf s → view s src = Some n → n_kind n = KFile c → n_mtime n ≤ clock env → dir_at s (p ++ [bin]) = true → view s dst = None →
  let copy s := copyBinaryToRootFS env (abs_path fsd) dir_size s (abs_path p) name (bin ++ slash :: name) in
  ∃ s' n', copy s = (s', true) ∧ leaves (eq dst) s s' ∧ view s' dst = Some n' ∧ n_kind n' = KFile c ∧ n_mode n' = 493 ∧ copy s' = (s', true).
Proof.
  intros Hwf Hn Hk Ht Hd Hfree. destruct src_path as (Hsj & Hsp & Hsn), dst_path as (Hdj & Hdp & Hdn & Hpar & Hdir).
  assert (Hpb : Forall proper (p ++ [bin])) by (rewrite <- Hpar; by apply Forall_take).
  assert (Hf : free s dst) by (split; [done|done|by rewrite Hpar|done]).
  unfold copyBinaryToRootFS. rewrite Hsj, Hdj, Hdir. cbn zeta. rewrite (stat_file s src n c) by done.
  rewrite (MkdirAll_there env s Hwf (p ++ [bin])) by done.
  assert (Hst : Stat s (abs_path dst) = None) by (unfold Stat; rewrite (resolve_new s dst) by (done || apply Hf); exact Hfree). rewrite Hst.
  assert (Hrm : (Remove env s (abs_path dst)).1 = s).
  { pose proof (Remove_plain env s dst Hwf Hdp Hdn (fr_parent _ _ Hf)) as Hr. rewrite Hfree in Hr. by rewrite Hr. }
  rewrite Hrm. destruct (cp_free s src dst n c Hwf Hsp Hn Hk Hf) as (s1 & n1 & -> & Hl1 & Ha1 & Hn1 & Hk1 & Ht1).
  pose proof (lv_wf _ _ _ Hl1) as Hwf1. assert (Hpd1 : dir_at s1 (parent dst) = true).
  { rewrite (leaves_dir _ _ _ _ Hl1); [by rewrite Hpar|]. intros Heq. by apply (parent_ne dst). }
  assert (Hch : Chmod s1 (abs_path dst) (file_mode 493) = (change s1 dst (set_mode (file_mode 493)), true)).
  { unfold Chmod. apply (on_node_plain s1 dst Hwf1 Hdp Hpd1 true _ n1 Hn1). intros _ t Hlt. congruence. }
  rewrite Hch. set (s2 := change s1 dst (set_mode (file_mode 493))).
  assert (Hl2 : leaves (eq dst) s1 s2) by (by apply leaves_alone_change).
  assert (Hn2 : view s2 dst = Some (set_mode (file_mode 493) n1)).
  { unfold s2. rewrite view_change_alone by (intros r Hr; apply Ha1; [|done]; destruct (view_some s1 dst n1 Hn1) as (i & ? & _); by exists i).
    by rewrite bool_decide_eq_true_2, Hn1. }
  exists s2, (set_mode (file_mode 493) n1). split_and!; [done|by eapply leaves_trans|done|done|done|].
  assert (Hns : src ≠ dst) by (intros Heq; rewrite Heq in Hn; congruence).
  assert (Hns2 : view s2 src = Some n).
  { assert (Hdn' : is_dir n = false) by (unfold is_dir; by rewrite Hk). apply (lv_files _ _ _ Hl2); [congruence| |done]. by apply (lv_files _ _ _ Hl1); [congruence|..]. }
  rewrite (stat_file s2 src n c) by first [done|apply Hl2].
  rewrite (MkdirAll_there env s2 (lv_wf _ _ _ Hl2) (p ++ [bin])); [|done|].
  - rewrite (stat_file s2 dst (set_mode (file_mode 493) n1) c) by first [done|apply Hl2]. unfold up_to_date, n_size. cbn [n_kind set_mode n_mtime]. rewrite Hk, Hk1, Ht1, Z.eqb_refl.
    assert (Hlt : (clock env <? n_mtime n) = false) by (apply Z.ltb_ge; lia). by rewrite Hlt.
  - rewrite <- Hpar. rewrite (leaves_dir _ _ _ _ Hl2); [done|]. intros Heq. by apply (parent_ne dst).
Qed.
End installed.

(** ** Sidecars of new frames *)

Lemma good_snap_ids ids : Forall (λ i, SnapFiles.validSnapID i = true) ids → bad_snap_id ids = None.
Proof.
  unfold bad_snap_id. induction 1 as [|i ids Hi _ IH]; [done|]. rewrite filter_cons_False; [done|]. by rewrite Hi.
Qed.

Section taints.
Context {text_ok : gostring → Prop} {time_ok : Z → Prop}
  `{!Json SnapMeta (meta_ok text_ok)} `{!Json Frame (frame_ok text_ok time_ok)}.

Lemma sidecar_written d (frame : gostring) (f : Frame) id :
  frame_ok text_ok time_ok f → frame ++ jsonc ∉ d_dirs d →
  readFrameSidecar no_fault (SnapFiles.writeStampFile no_fault (writeFrameSidecar no_fault d frame f).1 frame id).1 frame = Ret (Some f).
Proof.
  intros Hok Hd. destruct (json_law f Hok) as (data & std & Hm & Hs & Hu).
  unfold writeFrameSidecar. rewrite Hm. cbn [write_fails no_fault fst]. set (d1 := MkDisk _ _).
  assert (Ho : SnapFiles.only_files (λ q, q = (frame ++ SnapFiles.stamp) ++ bs ".tmp" ∨ q = frame ++ SnapFiles.stamp) d1 (SnapFiles.writeStampFile no_fault d1 frame id).1).
  { unfold SnapFiles.writeStampFile. cbn [write_fails no_fault].
    eapply SnapFiles.only_files_trans; [apply SnapFiles.put_file_only; by left|]. apply SnapFiles.os_Rename_only; auto. }
  destruct Ho as [Hdirs Hfiles]. unfold readFrameSidecar, load, os_ReadFile. cbn [read_fails no_fault]. rewrite Hdirs.
  rewrite Hfiles.
  - unfold d1. cbn [d_files d_dirs]. rewrite bool_decide_eq_false_2 by done. rewrite lookup_insert_eq. cbn. rewrite Hs. cbn. by rewrite Hu.
  - destruct (SnapRecord.stamp_names frame frame) as (H1 & _ & H3 & _). intros [Heq|Heq]; [by apply H1|by apply H3].
Qed.

(** Every taint of a snap is one of the frame. *)
Lemma tainted_covers os (snapsDir : gostring) d meta snap t :
  snap ∈ [Rootfs meta; F_Home meta; Work meta] → t ∈ getSnapTaints os d snapsDir snap → t ∈ Taints (tainted snapsDir os d meta).
Proof.
  intros Hs Ht. unfold tainted. cbn [set_taints Taints]. apply UnionTaints_spec. exists (getSnapTaints os d snapsDir snap). split; [|done].
  repeat (apply elem_of_cons in Hs as [->|Hs]; [repeat ((by left) || right)|]). by apply elem_of_nil in Hs.
Qed.
End taints.

(** ** Properties *)

(** C31: the frame made of three snaps is what they are: its root is a copy of the first or
    the blank root, [/home] and [/work] copies of the others or empty and the user's,
    [/home/work] leads to [/work] unless the snap has something there, and [/id] is an empty
    subvolume of root, whatever files and directories the snap has under that name. Nothing
    outside the frame changes, the snaps least of all, and in the frame nothing else but nine
    paths below [/etc] and [/tmp]. The sidecar has all the taints of the snaps. The root snap
    is assumed to be [tidy]: it has directories or nothing at [/home], [/work] and [/id], and
    no links at the nine paths; links there lead out of the frame ([id_link_escapes],
    [home_link_escapes], [resolv_conf_escapes]). The sticky bit of [/var/tmp] in a blank root
    is left open ([tmp_not_sticky]). *)
Theorem frame_is_its_snaps {text_ok time_ok} `{!Json SnapMeta (meta_ok text_ok)} `{!Json Frame (frame_ok text_ok time_ok)}
    env `{BtrfsSpec env} (dir p : path) w meta :
  Forall proper dir → Forall proper p → dir ≠ [] → parent p ≠ [] →
  ¬ p `prefix_of` dir → ¬ dir `prefix_of` p → wf (w_fs w) →
  root_there dir (w_fs w) (Rootfs meta) → snap_there dir (w_fs w) (F_Home meta) → snap_there dir (w_fs w) (Work meta) →
  dir_at (w_fs w) (parent p) = true → view (w_fs w) p = None → abs_path p ++ jsonc ∉ d_dirs (w_disk w) →
  frame_ok text_ok time_ok (tainted (abs_path dir) no_fault (w_disk w) meta) →
  ∃ w', ensureFrameFS env (abs_path dir) no_fault w (abs_path p) meta = (w', None) ∧ wf (w_fs w') ∧
    (∀ q, ¬ among p container_paths q → ¬ (Rootfs meta = [] ∧ among p tmp_dirs q) →
       undated (view (w_fs w') q) = frame_view env dir p (w_fs w) meta q) ∧
    (Rootfs meta = [] → ∀ q, ¬ among p container_paths q → among p tmp_dirs q →
       sticky_aside (undated (view (w_fs w') q)) = sticky_aside (frame_view env dir p (w_fs w) meta q)) ∧
    ∃ frame, readFrameSidecar no_fault (w_disk w') (abs_path p) = Ret (Some frame) ∧
      ∀ snap t, snap ∈ [Rootfs meta; F_Home meta; Work meta] → t ∈ getSnapTaints no_fault (w_disk w) (abs_path dir) snap → t ∈ Taints frame.
Proof.
  intros Hdir Hp Hdne Hpar Hpd Hdp Hwf Hr Hh Hw Hd Hfree Hside Hok.
  assert (Hpne : p ≠ []) by (by intros ->). pose proof (conj Hpd Hdp) as Hapart. unfold ensureFrameFS.
  assert (Hids : bad_snap_id [Rootfs meta; F_Home meta; Work meta] = None).
  { assert (Hv : ∀ i, snap_there dir (w_fs w) i → SnapFiles.validSnapID i = true) by (intros i [->|[? _]]; [by vm_compute|done]).
    apply good_snap_ids. repeat constructor; auto. destruct Hr as [->|[? _]]; [by vm_compute|done]. }
  rewrite Hids. assert (Hparent : Dir (abs_path p) = abs_path (parent p)).
  { destruct p as [|e q _] using rev_ind; [done|]. rewrite parent_snoc in *. apply Forall_app in Hp as [Hq He]. apply Forall_cons_1 in He as [He _]. exact (Dir_abs q e Hq Hpar He). }
  rewrite Hparent, (MkdirAll_there env (w_fs w) Hwf (parent p)); [|by apply Forall_take|done].
  destruct (assemble_spec env dir p Hdir Hp Hdne Hpne Hapart (w_fs w) meta) as (s1 & Hs1 & Hl1 & Hse1 & Hid1 & Hv1 & Ht1); try done.
  rewrite Hs1. cbn zeta. pose proof (finalize_stays env p Hp Hpne s1 Hse1) as [Hl2 Hse2].
  set (s2 := finalizeFrameRootfs env s1 (abs_path p)) in *.
  assert (Hidp : ¬ among p container_paths (sub p id_name)).
  { intros (x & Hx & Heq). unfold sub in Heq. apply app_inv_head in Heq as <-. assert (Hno : [id_name] ∉ container_paths) by (apply (bool_decide_unpack _); by vm_compute). done. }
  destruct (id_component_spec env dir p Hp Hpne Hapart s2) as (s3 & Hs3 & Hl3 & Hv3);
    [apply Hl2|apply Hse2|apply (clearable_undated (view s1 (sub p id_name))); [symmetry; by apply (lv_view _ _ _ Hl2)|done]|].
  change (JoinPath (abs_path p) (bs "id")) with (JoinPath (abs_path p) id_name).
  rewrite join_sub by first [done|by apply proper_name]. rewrite Hs3.
  eexists. split; [reflexivity|]. cbn [w_fs w_disk]. split; [apply Hl3|]. split; [|split].
  - intros q Hq Hopen. unfold frame_view. destruct (strip p q) as [x|] eqn:Hx.
    + apply strip_some in Hx as ->. destruct (decide (head x = Some id_name)) as [Hi|Hi].
      * destruct x as [|e y]; [done|]. injection Hi as ->. rewrite <- sub_cons, Hv3. reflexivity.
      * rewrite <- Hv1; [|done|intros [Hn Hin]; apply Hopen; split; [done|by exists x]].
        rewrite (lv_view _ _ _ Hl3), (lv_view _ _ _ Hl2); [done|done|by apply not_below_id].
    + apply strip_none in Hx. rewrite (lv_view _ _ _ Hl3), (lv_view _ _ _ Hl2), (lv_view _ _ _ Hl1); try done.
      by intros Hb%below_sub.
  - intros Hnil q Hq (x & Hin & ->). unfold frame_view. rewrite strip_app. rewrite <- (Ht1 Hnil x Hin).
    destruct (tmp_away x Hin) as (_ & _ & Hi).
    rewrite (lv_view _ _ _ Hl3), (lv_view _ _ _ Hl2); [done|done|by apply not_below_id].
  - exists (tainted (abs_path dir) no_fault (w_disk w) meta). split; [|intros; by eapply tainted_covers].
    by apply sidecar_written.
Qed.

Definition example_env : fs_env := MkFsEnv 18 7.
#[local] Instance example_btrfs : Btrfs := model_btrfs example_env.
#[local] Instance example_spec : BtrfsSpec example_env := model_spec example_env.
Definition folder : node := MkNode (KDir false) 493 0 0 1.
Definition subvol : node := MkNode (KDir true) 493 0 0 1.
Definition text (c : string) : node := MkNode (KFile (bs c)) 420 0 0 1.
Definition link (c : string) : node := MkNode (KSymlink (bs c)) 511 0 0 1.
Definition at_path (l : list string) : path := bs <$> l.

(** A data directory with two snaps: [r] has a plain [/home] and a secret under [/id]. *)
Definition data_dirs : list (path * node) :=
  [([], folder); (at_path ["etc"], folder); (at_path ["etc"; "resolv.conf"], text "host"); (at_path ["data"], folder);
   (at_path ["data"; "fs"], folder); (at_path ["data"; "fs"; "u"], folder); (at_path ["data"; "snaps"], folder);
   (at_path ["data"; "snaps"; "r"], subvol); (at_path ["data"; "snaps"; "h"], subvol)]%string.
Definition in_snap (x : list string) : path := at_path ("data" :: "snaps" :: "r" :: x)%string.
Definition example_fs (more : list (path * node)) : fs := fs_of (data_dirs ++ more).
Definition example_snap : list (path * node) :=
  [(in_snap ["etc"], folder); (in_snap ["etc"; "passwd"], text "root:x:0:0:root:/root:/bin/sh"); (in_snap ["home"], folder);
   (in_snap ["home"; "old"], text "old"); (in_snap ["id"], folder); (in_snap ["id"; "key"], text "secret");
   (at_path ["data"; "snaps"; "h"; "notes"], text "mine")]%string.
Definition example_world (more : list (path * node)) : world := MkWorld (example_fs more) (MkDisk ∅ ∅).
Definition example_dir : path := at_path ["data"; "snaps"]%string.
Definition example_frame : path := at_path ["data"; "fs"; "u"; "f"]%string.
Definition example_meta : Frame := MkFrame (bs "r") (bs "h") [] [] (bs "container") [] 0.
Definition example_result (more : list (path * node)) : world * option frame_error :=
  ensureFrameFS example_env (abs_path example_dir) no_fault (example_world more) (abs_path example_frame) example_meta.
Definition in_result (more : list (path * node)) (x : list string) : option node := undated (view (w_fs (example_result more).1) (example_frame ++ at_path x)).


Lemma example_tidy : tidy (example_fs example_snap) (example_dir ++ [Rootfs example_meta]).
Proof.
  split.
  - intros x Hx. assert (Hc : forallb (λ x, match view (example_fs example_snap) (example_dir ++ [Rootfs example_meta] ++ x) with
        Some n => match n_kind n with KSymlink _ => false | _ => true end | None => true end &&
        alone_check (example_fs example_snap) ((example_dir ++ [Rootfs example_meta]) ++ x)) container_paths = true) by (vm_compute; reflexivity).
    rewrite forallb_forall in Hc. apply list_elem_of_In, Hc, andb_true_iff in Hx as [Hp Ha]. split; [|by apply alone_checked].
    rewrite <- app_assoc. destruct (view _ _) as [n|]; [|exact I]. intros t Ht. rewrite Ht in Hp. discriminate Hp.
  - intros e He. assert (Hc : forallb (λ e, match view (example_fs example_snap) ((example_dir ++ [Rootfs example_meta]) ++ [e]) with
        Some n => is_dir n | None => true end) [home_name; work_name; id_name] = true) by (vm_compute; reflexivity).
    rewrite forallb_forall in Hc. apply list_elem_of_In, Hc in He. destruct (view _ _) as [n|]; [exact He|exact I].
Qed.

Lemma frame_is_its_snaps_witness :
  ∃ w', ensureFrameFS example_env (abs_path example_dir) no_fault (example_world example_snap) (abs_path example_frame) example_meta = (w', None) ∧
    undated (view (w_fs w') (example_frame ++ at_path ["home"; "notes"]%string)) = undated (Some (text "mine")) ∧
    undated (view (w_fs w') (example_frame ++ at_path ["home"; "old"]%string)) = None ∧
    undated (view (w_fs w') (example_frame ++ at_path ["home"; "work"]%string)) = Some work_link ∧
    undated (view (w_fs w') (example_frame ++ at_path ["id"]%string)) = Some id_dir ∧
    undated (view (w_fs w') (example_frame ++ at_path ["id"; "key"]%string)) = None.
Proof.
  destruct (frame_is_its_snaps example_env example_dir example_frame (example_world example_snap) example_meta) as (w' & Hw & _ & Hv & _).
  - apply proper_names. vm_compute. reflexivity.
  - apply proper_names. vm_compute. reflexivity.
  - discriminate.
  - discriminate.
  - apply (bool_decide_unpack _). vm_compute. exact I.
  - apply (bool_decide_unpack _). vm_compute. exact I.
  - apply wf_checked. vm_compute. reflexivity.
  - right. split; [vm_compute; reflexivity|]. split; [exact example_tidy|]. exists subvol. split; vm_compute; reflexivity.
  - right. split; [vm_compute; reflexivity|]. exists subvol. split; vm_compute; reflexivity.
  - left. reflexivity.
  - vm_compute. reflexivity.
  - vm_compute. reflexivity.
  - apply not_elem_of_empty.
  - apply (bool_decide_unpack _). vm_compute. exact I.
  - exists w'. split; [exact Hw|]. 
    assert (Hno : ∀ x : path, bool_decide (x ∈ container_paths) = false → ¬ among example_frame container_paths (example_frame ++ x)).
    { intros x Hx (y & Hy & Heq). apply app_inv_head in Heq as <-. exact (bool_decide_eq_false_1 _ Hx Hy). }
    split_and!; (rewrite Hv; [|apply Hno; vm_compute; reflexivity|intros [Hr _]; discriminate Hr]); vm_compute; reflexivity.
Defined.

(** ** Snaps that are not plain

    [/id] may be a link to a subvolume, another frame's, say: the test for a subvolume
    follows it, so the frame has no [/id] of its own, and the owner and mode of the other
    frame's root are changed. *)
Definition other_frame : list (path * node) :=
  [(at_path ["data"; "fs"; "u"; "g"]%string, MkNode (KDir true) 448 7575 7575 1)].
Definition other : path := at_path ["data"; "fs"; "u"; "g"]%string.
Lemma id_link_escapes :
  let snap := other_frame ++ [(in_snap ["id"]%string, link "/data/fs/u/g")] in
  (example_result snap).2 = None ∧ in_result snap ["id"]%string = undated (Some (link "/data/fs/u/g")) ∧
  undated (view (w_fs (example_result snap).1) other) = Some (MkNode (KDir true) 493 0 0 0).
Proof. by vm_compute. Qed.

(** So may [/home]: the home snap is copied into the other frame. *)
Lemma home_link_escapes :
  let snap := other_frame ++ [(in_snap ["home"]%string, link "/data/fs/u/g"); (at_path ["data"; "snaps"; "h"; "notes"]%string, text "mine")] in
  (example_result snap).2 = None ∧ in_result snap ["home"]%string = undated (Some (link "/data/fs/u/g")) ∧
  undated (view (w_fs (example_result snap).1) (other ++ at_path ["h"; "notes"]%string)) = undated (Some (text "mine")).
Proof. by vm_compute. Qed.

(** A link in place of [/etc/resolv.conf] lets the frame read a file of the host, which is
    then overwritten. *)
Lemma resolv_conf_escapes :
  let snap := [(at_path ["data"; "key"]%string, text "secret"); (in_snap ["etc"]%string, folder);
               (in_snap ["etc"; "resolv.conf"]%string, link "/data/key")] in
  (example_result snap).2 = None ∧ in_result snap ["etc"; "resolv.conf.orig"]%string = undated (Some (text "secret")) ∧
  undated (view (w_fs (example_result snap).1) (at_path ["data"; "key"]%string)) = undated (Some (text "host")).
Proof. by vm_compute. Qed.

(** [/tmp] is made without the sticky bit: [os.Chmod] takes it from [os.ModeSticky] only. *)
Lemma tmp_not_sticky : n_mode <$> in_result example_snap ["tmp"]%string = Some 511.
Proof. by vm_compute. Qed.

(** A home snap that is missing is noticed when the root is there: the frame is left half
    made, and the next use takes it for complete. *)
Lemma missing_home_leaves_frame :
  let w := MkWorld (example_fs example_snap) (MkDisk ∅ ∅) in
  let meta := MkFrame (bs "r") (bs "gone") [] [] (bs "container") [] 0 in
  let '(w', e) := ensureFrameFS example_env (abs_path example_dir) no_fault w (abs_path example_frame) meta in
  e = Some (NoSnap (bs "gone")) ∧ view (w_fs w') (example_frame ++ [home_name]) = None ∧
  (ensureRootFS example_env (abs_path example_dir) no_fault w' (abs_path example_frame)).2 = None.
Proof. by vm_compute. Qed.
