(* ===== verification/Autorun.v ===== *)
(** * Commands that refs run by themselves ([src/cmd/thundersnapd/autorun.go])

    A ref may name a command that the daemon keeps running in the ref's frame. The
    manager's table and the goroutines that supervise the commands are a system of
    atomic steps: operations on the table, which stop what they replace, and the moves
    of the supervisors. *)

From Stdlib Require Import Strings.String.
From S2P Require Import GoSort Prelude GoStrings FrameId.

(** ** State *)

(** User and name of the ref. *)
Abbreviation autorunKey := (gostring * gostring)%type.

(** Where a supervisor stands: at the head of its loop, in [runOnce] before and after
    dialing and while the session lasts, after [runOnce] (without an error?), or gone.
    The number is the pause after the next failure in milliseconds. *)
Inductive place :=
| AtLoop (backoff : Z) | Opening (backoff : Z) | Dialed (backoff : Z) | Running (backoff : Z)
| After (backoff : Z) (ok : bool) | Gone.

(** [conn_open]: whether [conn] holds a connection; [cancelled]: the context is done. *)
Record autorunProcess := MkProcess {
  key : autorunKey;
  frameUUID : ID;
  argv : list gostring;
  cancelled : bool;
  conn_open : bool;
  place_of : place;
}.

(** [closing]: the processes whose [stop] has cancelled the context and will close the
    connection next. *)
Record autorunManager := MkAutorun {
  processes : gmap autorunKey nat;
  started : list autorunProcess;
  closing : list nat;
}.
Definition no_processes : autorunManager := MkAutorun ∅ [] [].

#[export] Instance place_eq_dec : EqDecision place.
Proof. solve_decision. Defined.

(** ** The table *)

Definition argsEqual (a b : list gostring) : bool :=
  (length a =? length b)%nat && forallb (λ p, bool_decide (p.1 = p.2)) (zip a b).

Definition cancel (p : autorunProcess) : autorunProcess :=
  MkProcess (key p) (frameUUID p) (argv p) true (conn_open p) (place_of p).
Definition close_conn (p : autorunProcess) : autorunProcess :=
  MkProcess (key p) (frameUUID p) (argv p) (cancelled p) false (place_of p).
Definition move (p : autorunProcess) (pl : place) : autorunProcess :=
  MkProcess (key p) (frameUUID p) (argv p) (cancelled p) (conn_open p) pl.
Definition record_conn (p : autorunProcess) : autorunProcess :=
  MkProcess (key p) (frameUUID p) (argv p) (cancelled p) true (place_of p).

(** Milliseconds. *)
Definition first_backoff : Z := 100.
Definition maxBackoff : Z := 30000.
Definition next_backoff (b : Z) : Z := if maxBackoff <? b * 2 then maxBackoff else b * 2.

(** The first half of [stop]. *)
Definition stop_process (m : autorunManager) (i : nat) : autorunManager :=
  MkAutorun (processes m) (alter cancel i (started m)) (i :: closing m).

Definition new_process (m : autorunManager) (k : autorunKey) (frame : ID) (args : list gostring) : autorunManager :=
  MkAutorun (<[k := length (started m)]> (processes m))
    (started m ++ [MkProcess k frame args false false (AtLoop first_backoff)]) (closing m).

Definition startProcess (m : autorunManager) (k : autorunKey) (frame : ID) (args : list gostring) : autorunManager :=
  if bool_decide (args = []) then m
  else
    match processes m !! k with
    | Some i =>
        match started m !! i with
        | Some p =>
            if bool_decide (frameUUID p = frame) && argsEqual (argv p) args then m
            else
              let m := stop_process m i in
              new_process (MkAutorun (delete k (processes m)) (started m) (closing m)) k frame args
        | None => m
        end
    | None => new_process m k frame args
    end.

(** [stopProcess], and [restartProcess] before it starts the new one: both then wait
    until the supervisor is gone. *)
Definition take_process (m : autorunManager) (k : autorunKey) : autorunManager :=
  match processes m !! k with
  | Some i => stop_process (MkAutorun (delete k (processes m)) (started m) (closing m)) i
  | None => m
  end.

(** ** Supervisors *)

(** One move of [supervise]; [o] says whether what it tries works: opening the session,
    the command's exit status, and whether a done context is seen before the timer. *)
Definition supervise (p : autorunProcess) (o : bool) : option autorunProcess :=
  match place_of p with
  | AtLoop b => Some (if cancelled p then move (close_conn p) Gone else move p (Opening b))
  | Opening b => Some (move p (if o then Dialed b else After b false))
  | Dialed b => Some (move (record_conn p) (Running b))
  | Running b => if conn_open p then None else Some (move p (After b o))
  | After b false => Some (move p (if cancelled p then Gone else AtLoop (next_backoff b)))
  | After b true => Some (move p (if cancelled p && o then Gone else AtLoop (next_backoff b)))
  | Gone => None
  end.

(** The command exits by itself. *)
Definition command_exits (p : autorunProcess) (ok : bool) : option autorunProcess :=
  match place_of p with
  | Running b => if conn_open p then Some (move (close_conn p) (After b ok)) else None
  | _ => None
  end.

(** ** Interleavings *)

Inductive event :=
| Start (k : autorunKey) (frame : ID) (args : list gostring)
| Take (k : autorunKey)
| Close (i : nat)
| Move (i : nat) (o : bool)
| Exits (i : nat) (ok : bool).

Definition set_process (m : autorunManager) (i : nat) (p : autorunProcess) : autorunManager :=
  MkAutorun (processes m) (<[i := p]> (started m)) (closing m).

Definition step (m : autorunManager) (ev : event) : option autorunManager :=
  match ev with
  | Start k frame args => Some (startProcess m k frame args)
  | Take k => Some (take_process m k)
  | Close i =>
      if bool_decide (i ∈ closing m)
      then Some (MkAutorun (processes m) (alter close_conn i (started m)) (filter (λ j, j ≠ i) (closing m))) else None
  | Move i o => p ← started m !! i; p' ← supervise p o; Some (set_process m i p')
  | Exits i ok => p ← started m !! i; p' ← command_exits p ok; Some (set_process m i p')
  end.

Fixpoint run (m : autorunManager) (evs : list event) : option autorunManager :=
  match evs with
  | [] => Some m
  | ev :: evs' => m' ← step m ev; run m' evs'
  end.

(** ** What the table promises *)

(** The command asked for last, per ref. *)
Definition wanted_op (w : gmap autorunKey (ID * list gostring)) (ev : event) : gmap autorunKey (ID * list gostring) :=
  match ev with
  | Start k frame args => if bool_decide (args = []) then w else <[k := (frame, args)]> w
  | Take k => delete k w
  | _ => w
  end.
Definition wanted (evs : list event) : gmap autorunKey (ID * list gostring) := foldl wanted_op ∅ evs.

Lemma argsEqual_spec a b : argsEqual a b = true ↔ a = b.
Proof.
  unfold argsEqual. revert b. induction a as [|x a IH]; intros [|y b]; cbn; try done.
  specialize (IH b). rewrite !andb_true_iff in *. rewrite bool_decide_eq_true. cbn. naive_solver.
Qed.

Definition place_ok (pl : place) : Prop :=
  match pl with
  | AtLoop b | Opening b | Dialed b | Running b | After b _ => 100 ≤ b ≤ 30000
  | Gone => True
  end.

(** Of a process alone. *)
Record process_ok (p : autorunProcess) : Prop := {
  po_argv : argv p ≠ [];
  po_place : place_ok (place_of p);
  po_conn : conn_open p = true → ∃ b, place_of p = Running b;
  po_gone : place_of p = Gone → cancelled p = true;
}.

Record autorun_inv (m : autorunManager) (w : gmap autorunKey (ID * list gostring)) : Prop := {
  ai_table : ∀ k i, processes m !! k = Some i → ∃ p, started m !! i = Some p ∧ key p = k ∧ cancelled p = false;
  ai_live : ∀ i p, started m !! i = Some p → cancelled p = false → processes m !! key p = Some i;
  ai_ok : ∀ i p, started m !! i = Some p → process_ok p;
  ai_closing : ∀ i, i ∈ closing m → ∃ p, started m !! i = Some p ∧ cancelled p = true;
  ai_wanted : ∀ k, (i ← processes m !! k; p ← started m !! i; Some (frameUUID p, argv p)) = w !! k;
}.

Lemma autorun_inv_empty : autorun_inv no_processes ∅.
Proof. split; cbn; try done. intros i H. by apply not_elem_of_nil in H. Qed.

(** A supervisor moves: it stays the same process, cancelled or not. *)
Lemma inv_process m w i p p' :
  autorun_inv m w → started m !! i = Some p → process_ok p' →
  key p' = key p → frameUUID p' = frameUUID p → argv p' = argv p → cancelled p' = cancelled p →
  autorun_inv (set_process m i p') w.
Proof.
  intros [H1 H2 H3 H4 H5] Hi Hok Hk Hf Ha Hc. pose proof (lookup_lt_Some _ _ _ Hi) as Hlt.
  assert (∀ j q, started m !! j = Some q → ∃ q', <[i := p']> (started m) !! j = Some q' ∧ key q' = key q ∧
    frameUUID q' = frameUUID q ∧ argv q' = argv q ∧ cancelled q' = cancelled q) as Hfw.
  { intros j q Hq. destruct (decide (j = i)) as [->|Hne].
    - exists p'. rewrite list_lookup_insert_eq by done. assert (q = p) as -> by congruence. done.
    - exists q. by rewrite list_lookup_insert_ne. }
  assert (∀ j q', <[i := p']> (started m) !! j = Some q' → (j = i ∧ q' = p') ∨ started m !! j = Some q') as Hbw.
  { intros j q'. destruct (decide (j = i)) as [->|Hne].
    - rewrite list_lookup_insert_eq by done. intros [= <-]. by left.
    - rewrite list_lookup_insert_ne by done. by right. }
  split; cbn [set_process processes started closing].
  - intros k j (q & Hq & <- & Hqc)%H1. destruct (Hfw j q Hq) as (q' & ? & ? & _ & _ & Hcc). exists q'. by rewrite Hcc.
  - intros j q' [[-> ->]|Hq']%Hbw Hc'; [|by apply H2]. rewrite Hk. apply H2; congruence.
  - intros j q' [[-> ->]|Hq']%Hbw; [done|by apply (H3 j)].
  - intros j (q & Hq & Hqc)%H4. destruct (Hfw j q Hq) as (q' & ? & _ & _ & _ & Hcc). exists q'. by rewrite Hcc.
  - intros k. rewrite <- H5. destruct (processes m !! k) as [j|]; [|done]. cbn [mbind option_bind].
    destruct (started m !! j) as [q|] eqn:Hq; cbn [mbind option_bind].
    + destruct (Hfw j q Hq) as (q' & -> & _ & Hf' & Ha' & _). cbn [mbind option_bind]. by rewrite Hf', Ha'.
    + destruct (<[i := p']> (started m) !! j) as [q'|] eqn:Hq'; [|done].
      apply Hbw in Hq' as [[-> _]|Hq']; congruence.
Qed.

Lemma next_backoff_ok b : 100 ≤ b ≤ 30000 → 100 ≤ next_backoff b ≤ 30000.
Proof. unfold next_backoff, maxBackoff. destruct (30000 <? b * 2) eqn:Hb; [lia|]. apply Z.ltb_ge in Hb. lia. Qed.

Definition same_process (p p' : autorunProcess) : Prop :=
  key p' = key p ∧ frameUUID p' = frameUUID p ∧ argv p' = argv p ∧ cancelled p' = cancelled p.

Lemma supervise_ok p o p' : process_ok p → supervise p o = Some p' → process_ok p' ∧ same_process p p'.
Proof.
  intros [Ha Hp Hc Hg] Hs. unfold supervise, same_process in *. destruct p as [k f a c cn pl]. cbn in *.
  assert ((∀ b, pl ≠ Running b) → cn = false) as Hno.
  { intros Hne. destruct cn; [|done]. destruct (Hc eq_refl) as [b' ->]. exfalso. by apply (Hne b'). }
  pose proof next_backoff_ok as Hnb.
  destruct pl as [b|b|b|b|b ok|]; try (assert (cn = false) as -> by (by apply Hno)); [| | | | |done].
  - destruct c; injection Hs as <-; (split; [split|]); cbn; try done.
  - destruct o; injection Hs as <-; (split; [split|]); cbn; try done.
  - injection Hs as <-; (split; [split|]); cbn; try done. by exists b.
  - destruct cn; [done|]. injection Hs as <-; (split; [split|]); cbn; try done.
  - destruct ok, c, o; cbn in *; injection Hs as <-; (split; [split|]); cbn; auto; try done.
Qed.

Lemma command_exits_ok p ok p' : process_ok p → command_exits p ok = Some p' → process_ok p' ∧ same_process p p'.
Proof.
  intros [Ha Hp Hc Hg] Hs. unfold command_exits, same_process in *. destruct p as [k f a c cn pl]. cbn in *.
  destruct pl as [b|b|b|b|b ok'|]; try done. destruct cn; [|done]. injection Hs as <-. (split; [split|]); cbn; try done.
Qed.

(** Stopping a process that has just been taken out of the table. *)
Lemma stop_inv m w k i :
  autorun_inv m w → processes m !! k = Some i →
  autorun_inv (stop_process (MkAutorun (delete k (processes m)) (started m) (closing m)) i) (delete k w).
Proof.
  intros [H1 H2 H3 H4 H5] Hk. destruct (H1 k i Hk) as (p & Hp & Hpk & Hpc).
  assert (∀ j, j ≠ i → alter cancel i (started m) !! j = started m !! j) as Hne by (intros; by apply list_lookup_alter_ne).
  assert (alter cancel i (started m) !! i = Some (cancel p)) as Hi by (by rewrite list_lookup_alter_eq, Hp).
  split; cbn [stop_process processes started closing].
  - intros k' j [Hkk Hj]%lookup_delete_Some. destruct (H1 k' j Hj) as (q & Hq & Hqk & Hqc). exists q.
    split; [|done]. rewrite Hne; [done|]. intros ->. congruence.
  - intros j q Hq Hqc. destruct (decide (j = i)) as [->|Hj].
    { rewrite Hi in Hq. injection Hq as <-. done. }
    rewrite Hne in Hq by done. pose proof (H2 j q Hq Hqc) as Ht. rewrite lookup_delete_ne; [done|]. intros Heq. congruence.
  - intros j q Hq. destruct (decide (j = i)) as [->|Hj]; [|rewrite Hne in Hq by done; by apply (H3 j)].
    rewrite Hi in Hq. injection Hq as <-. destruct (H3 i p Hp) as [? ? ? ?]. split; cbn; auto.
  - intros j [->|Hj]%elem_of_cons; [by exists (cancel p)|]. destruct (H4 j Hj) as (q & Hq & Hqc).
    exists q. split; [|done]. rewrite Hne; [done|]. intros ->. congruence.
  - intros k'. destruct (decide (k' = k)) as [->|Hkk]; [by rewrite !lookup_delete_eq|].
    rewrite !lookup_delete_ne by done. rewrite <- H5. destruct (processes m !! k') as [j|] eqn:Hj; [|done].
    cbn [mbind option_bind]. destruct (decide (j = i)) as [->|Hji]; [|by rewrite Hne].
    destruct (H1 k' i Hj) as (q & Hq & Hqk & _). congruence.
Qed.

Lemma take_inv m w k : autorun_inv m w → autorun_inv (take_process m k) (delete k w).
Proof.
  intros Hm. unfold take_process. destruct (processes m !! k) as [i|] eqn:Hk; [by apply stop_inv|].
  rewrite delete_id; [done|]. rewrite <- (ai_wanted m w Hm k), Hk. done.
Qed.

Lemma new_inv m w k frame args :
  autorun_inv m w → processes m !! k = None → args ≠ [] →
  autorun_inv (new_process m k frame args) (<[k := (frame, args)]> w).
Proof.
  intros [H1 H2 H3 H4 H5] Hk Ha. split; cbn [new_process processes started closing].
  - intros k' i. destruct (decide (k' = k)) as [->|Hne].
    + rewrite lookup_insert_eq. intros [= <-]. eexists. by rewrite list_lookup_middle.
    + rewrite lookup_insert_ne by done. intros (p & Hp & ?)%H1. exists p. split; [by apply lookup_app_l_Some|done].
  - intros i p [Hp|[Hi Hp]]%lookup_app_Some Hc.
    + pose proof (H2 i p Hp Hc) as Ht. rewrite lookup_insert_ne; [done|]. intros Heq. congruence.
    + apply list_lookup_singleton_Some in Hp as [Hz <-]. cbn [key]. rewrite lookup_insert_eq. f_equal. lia.
  - intros i p [Hp|[Hi Hp]]%lookup_app_Some; [by apply (H3 i)|]. apply list_lookup_singleton_Some in Hp as [_ <-].
    by split.
  - intros i (p & Hp & ?)%H4. exists p. split; [by apply lookup_app_l_Some|done].
  - intros k'. destruct (decide (k' = k)) as [->|Hne].
    + rewrite !lookup_insert_eq. cbn [mbind option_bind]. by rewrite list_lookup_middle.
    + rewrite !lookup_insert_ne by done. rewrite <- H5. destruct (processes m !! k') as [j|] eqn:Hj; [|done].
      cbn [mbind option_bind]. destruct (H1 k' j Hj) as (p & Hp & _). rewrite Hp.
      rewrite (lookup_app_l_Some _ _ _ _ Hp). done.
Qed.

Lemma start_inv m w k frame args :
  autorun_inv m w → autorun_inv (startProcess m k frame args) (wanted_op w (Start k frame args)).
Proof.
  intros Hm. unfold startProcess, wanted_op. case_bool_decide as Ha; [done|].
  destruct (processes m !! k) as [i|] eqn:Hk; [|by apply new_inv].
  destruct (ai_table m w Hm k i Hk) as (p & Hp & Hpk & Hpc). rewrite Hp.
  destruct (bool_decide (frameUUID p = frame) && argsEqual (argv p) args) eqn:Hsame.
  - apply andb_true_iff in Hsame as [Hf%bool_decide_eq_true Hargs%argsEqual_spec].
    rewrite insert_id; [done|]. rewrite <- (ai_wanted m w Hm k), Hk. cbn [mbind option_bind]. rewrite Hp. cbn. congruence.
  - rewrite <- insert_delete_eq. apply new_inv; [|cbn; by rewrite lookup_delete_eq|done].
    by apply (stop_inv m w k i).
Qed.

Lemma close_inv m w i :
  autorun_inv m w → autorun_inv (MkAutorun (processes m) (alter close_conn i (started m)) (filter (λ j, j ≠ i) (closing m))) w.
Proof.
  intros Hm. destruct (started m !! i) as [p|] eqn:Hi.
  - assert (alter close_conn i (started m) = <[i := close_conn p]> (started m)) as ->.
    { apply list_eq. intros j. destruct (decide (j = i)) as [->|Hj].
      - rewrite list_lookup_alter_eq, Hi, list_lookup_insert_eq by (by apply lookup_lt_Some in Hi). done.
      - by rewrite list_lookup_alter_ne, list_lookup_insert_ne. }
    pose proof (ai_ok m w Hm i p Hi) as [? ? ? ?].
    assert (autorun_inv (set_process m i (close_conn p)) w) as [H1 H2 H3 H4 H5].
    { apply (inv_process m w i p); [done|done|by split|done..]. }
    split; [exact H1|exact H2|exact H3| |exact H5]. intros j [_ Hj]%list_elem_of_filter. by apply H4.
  - assert (alter close_conn i (started m) = started m) as ->.
    { apply list_eq. intros j. destruct (decide (j = i)) as [->|Hj]; [by rewrite list_lookup_alter_eq, Hi|by rewrite list_lookup_alter_ne]. }
    destruct Hm as [H1 H2 H3 H4 H5]. split; [exact H1|exact H2|exact H3| |exact H5].
    intros j [_ Hj]%list_elem_of_filter. by apply H4.
Qed.

Lemma step_autorun m w ev m' : autorun_inv m w → step m ev = Some m' → autorun_inv m' (wanted_op w ev).
Proof.
  intros Hm. destruct ev as [k frame args|k|i|i o|i ok]; cbn [step].
  - intros [= <-]. by apply start_inv.
  - intros [= <-]. by apply take_inv.
  - case_bool_decide; [|done]. intros [= <-]. by apply close_inv.
  - destruct (started m !! i) as [p|] eqn:Hi; [|done]. cbn [mbind option_bind].
    destruct (supervise p o) as [p'|] eqn:Hs; [|done]. cbn [mbind option_bind]. intros [= <-].
    destruct (supervise_ok p o p' (ai_ok m w Hm i p Hi) Hs) as (Hok & ? & ? & ? & ?). by apply (inv_process m w i p).
  - destruct (started m !! i) as [p|] eqn:Hi; [|done]. cbn [mbind option_bind].
    destruct (command_exits p ok) as [p'|] eqn:Hs; [|done]. cbn [mbind option_bind]. intros [= <-].
    destruct (command_exits_ok p ok p' (ai_ok m w Hm i p Hi) Hs) as (Hok & ? & ? & ? & ?). by apply (inv_process m w i p).
Qed.

Lemma run_autorun evs : ∀ m w m', autorun_inv m w → run m evs = Some m' → autorun_inv m' (foldl wanted_op w evs).
Proof.
  induction evs as [|ev evs IH]; intros m w m' Hm; cbn [run foldl]; [by intros [= <-]|].
  destruct (step m ev) as [m1|] eqn:Hs; [|done]. cbn [mbind option_bind]. apply IH. by apply (step_autorun m).
Qed.

(** what runs is what was asked for last. After any interleaving of requests with
    the moves of the supervisors, the table has for every ref the frame and command of
    the last request that started one, unless a later one stopped it; every process that
    is not in the table has been told to stop, so a ref has at most one supervisor that
    starts its command again; only a supervisor that serves a session holds a
    connection, and pauses stay between 100 milliseconds and 30 seconds. *)
Theorem autorun_runs_what_was_asked (evs : list event) (m : autorunManager) :
  run no_processes evs = Some m →
  (∀ k, (i ← processes m !! k; p ← started m !! i; Some (frameUUID p, argv p)) = wanted evs !! k) ∧
  (∀ i j p q, started m !! i = Some p → started m !! j = Some q → key p = key q →
     cancelled p = false → cancelled q = false → i = j) ∧
  (∀ i p, started m !! i = Some p → (cancelled p = false ↔ processes m !! key p = Some i) ∧ process_ok p).
Proof.
  intros Hr. pose proof (run_autorun evs _ _ _ autorun_inv_empty Hr) as Hm. fold (wanted evs) in Hm. split_and!.
  - apply (ai_wanted m _ Hm).
  - intros i j p q Hi Hj Hk Hp Hq. pose proof (ai_live m _ Hm i p Hi Hp). pose proof (ai_live m _ Hm j q Hj Hq). congruence.
  - intros i p Hi. split; [|by apply (ai_ok m _ Hm i)]. split; [by apply (ai_live m _ Hm)|].
    intros Hk. destruct (ai_table m _ Hm _ _ Hk) as (q & Hq & _ & Hc). congruence.
Qed.

(** ** Stopping *)

(** A session is being opened, or its connection is open. *)
Definition opening (p : autorunProcess) : Prop :=
  match place_of p with Opening _ | Dialed _ => True | Running _ => conn_open p = true | _ => False end.

(** Moves of one supervisor, as long as it can move. *)
Fixpoint moves (p : autorunProcess) (os : list bool) : autorunProcess :=
  match os with
  | [] => p
  | o :: os' => match supervise p o with Some p' => moves p' os' | None => p end
  end.

(** stopping works unless it comes while a session is being opened. A supervisor
    that has been stopped and is not about to enter a session is gone after at most
    three moves of its own, whatever its timers and sessions answer, and opens no
    session on the way. *)
Theorem stopped_supervisor_ends (evs : list event) (m : autorunManager) (i : nat) (p : autorunProcess) (o1 o2 o3 : bool) :
  run no_processes evs = Some m → started m !! i = Some p → cancelled p = true → ¬ opening p →
  place_of (moves p [o1; o2; o3]) = Gone ∧
  Forall (λ os, ¬ opening (moves p os)) [[]; [o1]; [o1; o2]; [o1; o2; o3]].
Proof.
  intros Hr Hi Hc Hno. pose proof (run_autorun evs _ _ _ autorun_inv_empty Hr) as Hm.
  destruct (ai_ok m _ Hm i p Hi) as [_ _ Hconn _]. destruct p as [k f a c cn pl]. cbn in Hc. subst c.
  destruct pl as [b|b|b|b|b ok|]; cbn in Hno; try (by destruct Hno).
  - split; [done|]. repeat (apply Forall_cons_2 || apply Forall_nil_2); cbn; try tauto; done.
  - destruct cn; [by destruct Hno|]. destruct o1, o2; (split; [done|]); repeat (apply Forall_cons_2 || apply Forall_nil_2); cbn; try tauto; done.
  - destruct ok, o1, o2; (split; [done|]); repeat (apply Forall_cons_2 || apply Forall_nil_2); cbn; try tauto; done.
  - split; [done|]. repeat (apply Forall_cons_2 || apply Forall_nil_2); cbn; try tauto; done.
Qed.

Definition example_key : autorunKey := (bs "u", bs "web").
Definition example_start : event := Start example_key (replicate 16 Byte.x01) [bs "serve"].
Definition after (evs : list event) : autorunManager := default no_processes (run no_processes evs).

(** The session runs and is stopped. *)
Definition stop_events : list event :=
  [example_start; Move 0 true; Move 0 true; Move 0 true; Take example_key; Close 0].

Lemma example_stop : run no_processes stop_events = Some (after stop_events) ∧
  (place_of <$> started (after stop_events)) = [Running 100].
Proof. split; vm_compute; reflexivity. Qed.

Lemma autorun_runs_what_was_asked_witness :
  (∀ k, (i ← processes (after stop_events) !! k; p ← started (after stop_events) !! i; Some (frameUUID p, argv p))
     = wanted stop_events !! k) ∧ wanted stop_events !! example_key = None.
Proof.
  split; [|vm_compute; reflexivity].
  apply (autorun_runs_what_was_asked stop_events (after stop_events)). vm_compute. reflexivity.
Defined.

Lemma stopped_supervisor_ends_witness :
  ∃ p, started (after stop_events) !! 0%nat = Some p ∧ place_of (moves p [true; true; true]) = Gone.
Proof.
  eexists. split; [vm_compute; reflexivity|].
  refine (proj1 (stopped_supervisor_ends stop_events (after stop_events) 0 _ true true true _ _ _ _));
    [vm_compute; reflexivity..|]. intros Hno. vm_compute in Hno. discriminate Hno.
Defined.

(** Stopped while it opens a session, a supervisor opens it all the same: nobody will
    close the connection, and whoever waits for the supervisor waits for the command. *)
Definition missed_stop : list event :=
  [example_start; Move 0 true; Take example_key; Close 0; Move 0 true; Move 0 true].

Lemma stop_is_missed :
  let m := after missed_stop in
  (λ p, (place_of p, cancelled p, conn_open p)) <$> started m = [(Running 100, true, true)] ∧
  step m (Move 0 true) = None ∧ step m (Move 0 false) = None ∧ step m (Close 0) = None.
Proof. split_and!; vm_compute; reflexivity. Qed.
