(* ===== verification/Syscalls.v ===== *)
(** * Programs that act on the kernel

    The container commands of [ts] are straight sequences of system calls whose order is
    the point. Here a command is a program over typed calls: the kernel answers each call
    as it likes, and what a command may do is a rule on every event of its history. *)

From Stdlib Require Import Strings.String.
From S2P Require Import GoSort Prelude GoStrings GoPath.

(** ** Calls and their answers *)

(** An error number of the kernel. *)
Abbreviation errno := Z.

Definition EINTR : errno := 4.
Definition EBUSY : errno := 16.

(** What [stat] tells of a file, as far as the commands look at it. *)
Record file_stat := MkStat { st_ino : Z; st_mode : Z; st_rdev : Z }.

(** How a child ended. *)
Inductive child_status := WExited (code : Z) | WSignaled (sig : Z) | WOther.

(** A device number: a pair, or one that was read from a device. *)
Inductive device := Mkdev (major minor : Z) | Rdev (n : Z).

Inductive syscall :=
| Getpid
| Mount (source target fstype : gostring) (flags : Z) (data : gostring)
| Unmount (target : gostring) (flags : Z)
| PivotRoot (newroot putold : gostring)
| Chdir (path : gostring)
| Fchdir (fd : Z)
| MkdirAll (path : gostring) (perm : Z)
| Remove (path : gostring)
| Mknod (path : gostring) (mode : Z) (dev : device)
| Chmod (path : gostring) (mode : Z)
| Symlink (target path : gostring)
| Sethostname (name : gostring)
| Setdomainname (name : gostring)
| CapBsetDrop (cap : Z)
| CapBsetRead (cap : Z)
| Setns (fd nstype : Z)
| Unshare (flags : Z)
| Open (path : gostring) (flags perm : Z)
| Close (fd : Z)
| Readlink (path : gostring)
| Stat (path : gostring)
| Lstat (path : gostring)
| ReadFile (path : gostring)
| ReadDir (path : gostring)
| Getenv (key : gostring)
| Setenv (key value : gostring)
| Environ
| Executable
| Hostname
| Domainname
| PtyNumber (fd : Z)
| PtyUnlock (fd : Z)
| PtyWinsize (fd : Z) (row col : Z)
| ForkExec (path : gostring) (argv env : list gostring) (dir : gostring) (files : list Z)
| Wait4 (pid options : Z)
| Println (line : gostring)
| AwaitShutdown.

(** What a call answers. *)
Definition answer (c : syscall) : Set :=
  match c with
  | Getpid => Z
  | Mount _ _ _ _ _ | Unmount _ _ | PivotRoot _ _ | Chdir _ | Fchdir _ | MkdirAll _ _ | Remove _
  | Mknod _ _ _ | Chmod _ _ | Symlink _ _ | Sethostname _ | Setdomainname _ | CapBsetDrop _
  | Setns _ _ | Unshare _ | Close _ | PtyUnlock _ | Setenv _ _ => option errno
  | Open _ _ _ | PtyNumber _ | ForkExec _ _ _ _ _ => errno + Z
  | CapBsetRead _ => Z
  | Readlink _ | ReadFile _ | Executable | Hostname | Domainname => errno + gostring
  | Stat _ | Lstat _ => errno + file_stat
  | ReadDir _ => errno + list gostring
  | Getenv _ => gostring
  | Environ => list gostring
  | Wait4 _ _ => errno + Z * child_status
  | PtyWinsize _ _ _ | Println _ | AwaitShutdown => unit
  end.

(** ** Programs *)

(** A command returns, exits, replaces itself by another program (the call comes back
    only with an error), or runs out of the rounds a loop was given. *)
Inductive prog (A : Type) :=
| Done (a : A)
| Exit (code : Z)
| Exec (path : gostring) (argv env : list gostring) (k : errno → prog A)
| Call (c : syscall) (k : answer c → prog A)
| Spin.
Arguments Done {A} a.
Arguments Exit {A} code.
Arguments Exec {A} path argv env k.
Arguments Call {A} c k.
Arguments Spin {A}.

Fixpoint prog_bind_def {A B} (f : A → prog B) (p : prog A) : prog B :=
  match p with
  | Done a => f a
  | Exit code => Exit code
  | Exec path argv env k => Exec path argv env (λ e, prog_bind_def f (k e))
  | Call c k => Call c (λ r, prog_bind_def f (k r))
  | Spin => Spin
  end.
#[export] Instance prog_ret : MRet prog := @Done.
#[export] Instance prog_bind : MBind prog := @prog_bind_def.

Definition sys (c : syscall) : prog (answer c) := Call c Done.

(** [if err := ...; err != nil { ...; os.Exit(1) }]. *)
Definition must (p : prog (option errno)) : prog unit :=
  r ← p; match r with None => Done tt | Some _ => Exit 1 end.
(** The same, with one error that does not matter. *)
Definition must_unless (ok : errno) (p : prog (option errno)) : prog unit :=
  r ← p;
  match r with
  | None => Done tt
  | Some e => if bool_decide (e = ok) then Done tt else Exit 1
  end.
Definition must_get {A} (p : prog (errno + A)) : prog A :=
  r ← p; match r with inr a => Done a | inl _ => Exit 1 end.
(** A call whose error is dropped. *)
Definition try {A} (p : prog A) : prog unit := p;; Done tt.
Definition when (b : bool) (p : prog unit) : prog unit := if b then p else Done tt.

Fixpoint for_each {A} (f : A → prog unit) (l : list A) : prog unit :=
  match l with
  | [] => Done tt
  | a :: l' => f a;; for_each f l'
  end.

(** ** Histories *)

Inductive event :=
| Did (c : syscall) (r : answer c)
| Execed (path : gostring) (argv env : list gostring)
| Exited (code : Z).

(** The kernel answers by all that has happened, the latest first; [None] for an [exec]
    means that it succeeds. *)
Record kernel := MkKernel {
  k_answer : list event → ∀ c, answer c;
  k_exec : list event → gostring → option errno;
}.

Inductive ending (A : Type) := Returned (a : A) | Gone | Stuck.
Arguments Returned {A} a.
Arguments Gone {A}.
Arguments Stuck {A}.

(** The whole history, and how the program ended. *)
Fixpoint run_prog {A} (K : kernel) (h : list event) (p : prog A) : list event * ending A :=
  match p with
  | Done a => (h, Returned a)
  | Exit code => (Exited code :: h, Gone)
  | Exec path argv env k =>
      match k_exec K h path with
      | None => (Execed path argv env :: h, Gone)
      | Some e => run_prog K h (k e)
      end
  | Call c k => let r := k_answer K h c in run_prog K (Did c r :: h) (k r)
  | Spin => (h, Stuck)
  end.
Definition history {A} (K : kernel) (p : prog A) : list event := (run_prog K [] p).1.

(** ** Rules: what holds of an event and the history before it *)

Definition rule := list event → event → Prop.

(** Every event of the program keeps the rule, whatever the kernel answers, and [Q] holds
    when it returns. *)
Fixpoint keeps {A} (ok : rule) (h : list event) (p : prog A) (Q : A → list event → Prop) : Prop :=
  match p with
  | Done a => Q a h
  | Exit code => ok h (Exited code)
  | Exec path argv env k => ok h (Execed path argv env) ∧ ∀ e, keeps ok h (k e) Q
  | Call c k => ∀ r, ok h (Did c r) ∧ keeps ok (Did c r :: h) (k r) Q
  | Spin => True
  end.

(** The history is one along which the rule was kept. *)
Definition kept (ok : rule) (h : list event) : Prop :=
  ∀ later e before, h = later ++ e :: before → ok before e.

Lemma kept_nil ok : kept ok [].
Proof. intros [|e0 later] e before H; discriminate H. Qed.

Lemma kept_cons (ok : rule) e h : ok h e → kept ok h → kept ok (e :: h).
Proof.
  intros He Hh [|e' later] e0 before Heq; cbn in Heq; injection Heq as -> Heq; subst; [done|].
  by apply (Hh later).
Qed.

Lemma keeps_bind {A B} ok (p : prog A) (f : A → prog B) : ∀ h Q,
  keeps ok h p (λ a h', keeps ok h' (f a) Q) → keeps ok h (p ≫= f) Q.
Proof.
  unfold mbind, prog_bind.
  induction p as [a|code|path argv env k IH|c k IH|]; cbn; intros h Q Hp; [done|done| | |done].
  - destruct Hp as [He Hk]. split; [done|]. intros e. apply IH, Hk.
  - intros r. destruct (Hp r) as [He Hk]. split; [done|]. by apply IH.
Qed.

Lemma keeps_mono {A} ok (p : prog A) : ∀ h (Q Q' : A → list event → Prop),
  keeps ok h p Q → (∀ a h', Q a h' → Q' a h') → keeps ok h p Q'.
Proof.
  induction p as [a|code|path argv env k IH|c k IH|]; cbn; intros h Q Q' Hp HQ; [by apply HQ|done| | |done].
  - destruct Hp as [He Hk]. split; [done|]. intros e. by apply IH with Q.
  - intros r. destruct (Hp r) as [He Hk]. split; [done|]. by apply IH with Q.
Qed.

Lemma keeps_run {A} ok K (p : prog A) : ∀ h Q,
  keeps ok h p Q → kept ok h →
  kept ok (run_prog K h p).1 ∧
  match (run_prog K h p).2 with Returned a => Q a (run_prog K h p).1 | _ => True end.
Proof.
  induction p as [a|code|path argv env k IH|c k IH|]; cbn; intros h Q Hp Hh; [done| | | |done].
  - split; [|done]. by apply kept_cons.
  - destruct Hp as [He Hk]. destruct (k_exec K h path) as [e|].
    + by apply IH.
    + split; [|done]. by apply kept_cons.
  - destruct (Hp (k_answer K h c)) as [He Hk]. apply IH; [done|]. by apply kept_cons.
Qed.

(** What a rule says of the whole run of a command. *)
Lemma keeps_history {A} ok K (p : prog A) Q : keeps ok [] p Q → kept ok (history K p).
Proof. intros Hp. by apply (keeps_run ok K p [] Q Hp), kept_nil. Qed.

Lemma keeps_for_each {A} ok (f : A → prog unit) l (Q : unit → list event → Prop) : ∀ h,
  (∀ h, Q tt h → ∀ a, a ∈ l → keeps ok h (f a) Q) → Q tt h → keeps ok h (for_each f l) Q.
Proof.
  induction l as [|a l IH]; cbn; intros h Hf HQ; [done|].
  apply keeps_bind. eapply keeps_mono; [apply Hf; [done|apply list_elem_of_here]|].
  intros [] h' HQ'. apply IH; [|done]. intros h0 HQ0 b Hb. apply Hf; [done|]. by apply list_elem_of_further.
Qed.
