(* ===== verification/ContainerSetup.v ===== *)
(** * Setting up a container ([src/cmd/ts/container_setup.go])

    [ts container-init] and [ts drop-caps-and-run] turn a fresh mount namespace into a
    container, [ts join-and-run] starts a command in one that stands. The operations are
    programs over the kernel's calls; messages on standard error and the proxying of a
    terminal's bytes are left out, calls that only look keep their place. *)

From Stdlib Require Import Strings.String.
From S2P Require Import GoSort Prelude GoStrings GoPath Syscalls.

(** ** The kernel's constants *)

Definition MS_NOSUID : Z := 2.
Definition MS_NODEV : Z := 4.
Definition MS_NOEXEC : Z := 8.
Definition MS_BIND : Z := 4096.
Definition MS_REC : Z := 16384.
Definition MS_PRIVATE : Z := Z.shiftl 1 18.
Definition MS_STRICTATIME : Z := Z.shiftl 1 24.
Definition MNT_DETACH : Z := 2.
Definition S_IFMT : Z := 0xf000.
Definition S_IFDIR : Z := 0x4000.
Definition S_IFCHR : Z := 0x2000.
Definition O_RDWR : Z := 2.
Definition O_WRONLY : Z := 1.
Definition O_CREATE : Z := 0x40.
Definition WNOHANG : Z := 1.

(** Permission bits, in octal. *)
Definition perm (u g o : Z) : Z := 64 * u + 8 * g + o.

Definition CAP_NET_ADMIN : Z := 12.
Definition CAP_SYS_MODULE : Z := 16.
Definition CAP_SYS_BOOT : Z := 22.
Definition CAP_SYS_TIME : Z := 25.
Definition CAP_MKNOD : Z := 27.
Definition CAP_AUDIT_WRITE : Z := 29.
Definition CAP_SETFCAP : Z := 31.

(** ** [strings.Fields] *)

Definition space_at (s : gostring) : option gostring := head (filter (λ r, HasPrefix s r = true) space_runes).
Definition emit (word : gostring) (l : list gostring) : list gostring := if bool_decide (word = []) then l else word :: l.
Fixpoint fields_from (fuel : nat) (word s : gostring) : list gostring :=
  match fuel, s with
  | S fuel', c :: s' =>
      match space_at s with
      | Some r => emit word (fields_from fuel' [] (drop (length r) s))
      | None => fields_from fuel' (word ++ [c]) s'
      end
  | _, _ => emit word []
  end.
Definition Fields (s : gostring) : list gostring := fields_from (length s) [] s.

(** ** Command lines *)

Record run_flags := MkRunFlags {
  fl_hostname : gostring;
  fl_domainname : gostring;
  fl_chrootPath : gostring;
  fl_chrootFd : Z;
  fl_usePty : bool;
  fl_mountVsock : bool;
  fl_keepDevCaps : bool;
  fl_cmdArgs : list gostring;
}.
Definition no_flags : run_flags := MkRunFlags [] [] [] (-1) false false false [].

Definition set_hostname (v : gostring) (f : run_flags) : run_flags :=
  MkRunFlags v (fl_domainname f) (fl_chrootPath f) (fl_chrootFd f) (fl_usePty f) (fl_mountVsock f) (fl_keepDevCaps f) (fl_cmdArgs f).
Definition set_domainname (v : gostring) (f : run_flags) : run_flags :=
  MkRunFlags (fl_hostname f) v (fl_chrootPath f) (fl_chrootFd f) (fl_usePty f) (fl_mountVsock f) (fl_keepDevCaps f) (fl_cmdArgs f).
Definition set_chroot (v : gostring) (f : run_flags) : run_flags :=
  MkRunFlags (fl_hostname f) (fl_domainname f) v (fl_chrootFd f) (fl_usePty f) (fl_mountVsock f) (fl_keepDevCaps f) (fl_cmdArgs f).
Definition set_chroot_fd (fd : Z) (f : run_flags) : run_flags :=
  MkRunFlags (fl_hostname f) (fl_domainname f) (fl_chrootPath f) fd (fl_usePty f) (fl_mountVsock f) (fl_keepDevCaps f) (fl_cmdArgs f).
Definition set_pty (f : run_flags) : run_flags :=
  MkRunFlags (fl_hostname f) (fl_domainname f) (fl_chrootPath f) (fl_chrootFd f) true (fl_mountVsock f) (fl_keepDevCaps f) (fl_cmdArgs f).
Definition set_vsock (f : run_flags) : run_flags :=
  MkRunFlags (fl_hostname f) (fl_domainname f) (fl_chrootPath f) (fl_chrootFd f) (fl_usePty f) true (fl_keepDevCaps f) (fl_cmdArgs f).
Definition set_dev_caps (f : run_flags) : run_flags :=
  MkRunFlags (fl_hostname f) (fl_domainname f) (fl_chrootPath f) (fl_chrootFd f) (fl_usePty f) (fl_mountVsock f) true (fl_cmdArgs f).
Definition set_cmd (l : list gostring) (f : run_flags) : run_flags :=
  MkRunFlags (fl_hostname f) (fl_domainname f) (fl_chrootPath f) (fl_chrootFd f) (fl_usePty f) (fl_mountVsock f) (fl_keepDevCaps f) l.

Definition named (a : gostring) (name : gostring) : bool := bool_decide (a = name).

(** The options of [drop-caps-and-run]; [None] is a bad [--chroot-fd], which exits. *)
Fixpoint drop_args (args : list gostring) (f : run_flags) : option run_flags :=
  match args with
  | [] => Some f
  | a :: rest =>
      let single :=
        if HasPrefix a (bs "--hostname=") then drop_args rest (set_hostname (TrimPrefix a (bs "--hostname=")) f)
        else if HasPrefix a (bs "--domainname=") then drop_args rest (set_domainname (TrimPrefix a (bs "--domainname=")) f)
        else if HasPrefix a (bs "--chroot=") then drop_args rest (set_chroot (TrimPrefix a (bs "--chroot=")) f)
        else if HasPrefix a (bs "--chroot-fd=") then
          match Atoi (TrimPrefix a (bs "--chroot-fd=")) with
          | Some fd => drop_args rest (set_chroot_fd fd f)
          | None => None
          end
        else if named a (bs "--pty") then drop_args rest (set_pty f)
        else if named a (bs "--vsock") then drop_args rest (set_vsock f)
        else if named a (bs "--keep-dev-caps") then drop_args rest (set_dev_caps f)
        else if named a (bs "--") then Some (set_cmd rest f)
        else Some (set_cmd args f) in
      match rest with
      | v :: rest' =>
          if named a (bs "--hostname") then drop_args rest' (set_hostname v f)
          else if named a (bs "--domainname") then drop_args rest' (set_domainname v f)
          else if named a (bs "--chroot") then drop_args rest' (set_chroot v f)
          else single
      | [] => single
      end
  end.

(** The options of [join-and-run]. *)
Fixpoint join_args (args : list gostring) (f : run_flags) : option run_flags :=
  match args with
  | [] => Some f
  | a :: rest =>
      let single :=
        if HasPrefix a (bs "--chroot=") then join_args rest (set_chroot (TrimPrefix a (bs "--chroot=")) f)
        else if HasPrefix a (bs "--chroot-fd=") then
          match Atoi (TrimPrefix a (bs "--chroot-fd=")) with
          | Some fd => join_args rest (set_chroot_fd fd f)
          | None => None
          end
        else if named a (bs "--keep-dev-caps") then join_args rest (set_dev_caps f)
        else if named a (bs "--pty") then join_args rest (set_pty f)
        else if named a (bs "--") then Some (set_cmd rest f)
        else Some (set_cmd args f) in
      match rest with
      | v :: rest' =>
          if named a (bs "--chroot") then join_args rest' (set_chroot v f)
          else if HasPrefix a (bs "--chroot=") then single
          else if named a (bs "--chroot-fd") then
            match Atoi v with
            | Some fd => join_args rest' (set_chroot_fd fd f)
            | None => None
            end
          else single
      | [] => single
      end
  end.

(** The options of [container-init]; what it does not know it skips. *)
Fixpoint init_args (args : list gostring) (f : run_flags) : run_flags :=
  match args with
  | [] => f
  | a :: rest =>
      let single :=
        if HasPrefix a (bs "--hostname=") then init_args rest (set_hostname (TrimPrefix a (bs "--hostname=")) f)
        else if HasPrefix a (bs "--domainname=") then init_args rest (set_domainname (TrimPrefix a (bs "--domainname=")) f)
        else if HasPrefix a (bs "--chroot=") then init_args rest (set_chroot (TrimPrefix a (bs "--chroot=")) f)
        else init_args rest f in
      match rest with
      | v :: rest' =>
          if named a (bs "--hostname") then init_args rest' (set_hostname v f)
          else if named a (bs "--domainname") then init_args rest' (set_domainname v f)
          else if named a (bs "--chroot") then init_args rest' (set_chroot v f)
          else single
      | [] => single
      end
  end.

(** ** Looking up the program *)

(** [findExecutable]. *)
Fixpoint search_path (dirs : list gostring) (name : gostring) : prog (option gostring) :=
  match dirs with
  | [] => Done None
  | dir :: dirs' =>
      let path := JoinPath dir name in
      info ← sys (Stat path);
      match info : errno + file_stat with
      | inr st => if bool_decide (Z.land (st_mode st) (perm 1 1 1) ≠ 0) then Done (Some path) else search_path dirs' name
      | inl _ => search_path dirs' name
      end
  end.
Definition default_path : gostring := bs "/usr/local/sbin:/usr/local/bin:/usr/sbin:/usr/bin:/sbin:/bin".
Definition findExecutable (name : gostring) : prog (option gostring) :=
  if ContainsByte name slash then
    info ← sys (Stat name);
    match info : errno + file_stat with inr _ => Done (Some name) | inl _ => Done None end
  else
    pathEnv ← sys (Getenv (bs "PATH"));
    search_path (Split (if bool_decide ((pathEnv : gostring) = []) then default_path else pathEnv) ":"%byte) name.

(** ** Terminals *)

(** [applyWinsize] and [setWinsize]: the size is cut to sixteen bits. *)
Definition setWinsize (ptmx w h : Z) : prog unit := sys (PtyWinsize ptmx (u16 h) (u16 w)).
Definition applyWinsize (ptmx : Z) : prog unit :=
  data ← sys (ReadFile (bs "/tmp/.pty-winsize"));
  match data : errno + gostring with
  | inl _ => Done tt
  | inr data =>
      match Fields (TrimSpace data) with
      | [p0; p1] =>
          match Atoi p0, Atoi p1 with
          | Some width, Some height =>
              if (width <=? 0) || (height <=? 0) then Done tt else setWinsize ptmx width height
          | _, _ => Done tt
          end
      | _ => Done tt
      end
  end.

(** Waiting for one child; the rounds are those in which the kernel reports another. *)
Fixpoint wait_child (rounds : nat) (pid : Z) : prog child_status :=
  match rounds with
  | O => Spin
  | S rounds' =>
      r ← sys (Wait4 pid 0);
      match r : errno + Z * child_status with
      | inl _ => Exit 1
      | inr (wpid, status) => if bool_decide (wpid = pid) then Done status else wait_child rounds' pid
      end
  end.

(** [ptsname]. *)
Definition ptsname (f : Z) : prog (errno + gostring) :=
  r ← sys (PtyNumber f);
  match r : errno + Z with
  | inl e => Done (inl e)
  | inr n => Done (inr (bs "/dev/pts/" ++ fmt_uint n))
  end.

Definition runWithPty (rounds : nat) (executable : gostring) (cmdArgs : list gostring) : prog unit :=
  ptmx ← must_get (sys (Open (bs "/dev/ptmx") O_RDWR 0));
  ptsName ← must_get (ptsname ptmx);
  must (sys (PtyUnlock ptmx));;
  pts ← must_get (sys (Open ptsName O_RDWR 0));
  applyWinsize ptmx;;
  env ← sys Environ;
  pid ← must_get (sys (ForkExec executable cmdArgs env (bs "/") [pts; pts; pts]));
  try (sys (Close pts));;
  status ← wait_child rounds pid;
  match status with
  | WExited code => Exit code
  | WSignaled sig => Exit (128 + sig)
  | WOther => Exit 1
  end.

(** ** Capabilities *)

Definition capsToDrop (keepDevCaps : bool) : list Z :=
  [CAP_NET_ADMIN; CAP_SYS_MODULE; CAP_SYS_BOOT; CAP_SYS_TIME; CAP_AUDIT_WRITE; CAP_SETFCAP]
  ++ (if keepDevCaps then [] else [CAP_MKNOD]).

(** An empty command indexes out of range and panics; both callers have ruled it out. *)
Definition dropCapsAndExec (rounds : nat) (cmdArgs : list gostring) (keepDevCaps usePty : bool) : prog unit :=
  for_each (λ cap, must (sys (CapBsetDrop cap))) (capsToDrop keepDevCaps);;
  path ← sys (Getenv (bs "PATH"));
  when (bool_decide ((path : gostring) = [])) (try (sys (Setenv (bs "PATH") default_path)));;
  match cmdArgs with
  | [] => Exit 2
  | name :: _ =>
      found ← findExecutable name;
      match found with
      | None => Exit 1
      | Some executable =>
          if usePty then runWithPty rounds executable cmdArgs
          else env ← sys Environ; Exec executable cmdArgs env (λ _, Exit 1)
      end
  end.

(** ** The mounts of a container *)

Definition mount (source target fstype : gostring) (flags : Z) (data : gostring) : prog (option errno) :=
  sys (Mount source target fstype flags data).

(** [ensureCgroup2Mount]: whether it succeeds. *)
Definition required_controllers : list gostring := [bs "memory"; bs "pids"; bs "cpu"].
Definition ensureCgroup2Mount : prog bool :=
  r ← sys (MkdirAll (bs "/sys/fs/cgroup") (perm 7 5 5));
  if (r : option errno) is Some _ then Done false
  else
    r ← mount (bs "cgroup2") (bs "/sys/fs/cgroup") (bs "cgroup2") 0 (bs "nsdelegate");
    if bool_decide (r ≠ None ∧ r ≠ Some EBUSY) then Done false
    else
      controllers ← sys (ReadFile (bs "/sys/fs/cgroup/cgroup.controllers"));
      match controllers : errno + gostring with
      | inl _ => Done false
      | inr data => Done (forallb (λ c, bool_decide (c ∈ Fields data)) required_controllers)
      end.
Definition must_be (p : prog bool) : prog unit := ok ← p; if ok : bool then Done tt else Exit 1.

(** [setupDev]: the nodes of a container's [/dev]. *)
Definition devices : list (gostring * Z * Z) :=
  [(bs "null", 1, 3); (bs "zero", 1, 5); (bs "full", 1, 7); (bs "random", 1, 8); (bs "urandom", 1, 9); (bs "tty", 5, 0)].
Definition make_device (d : gostring * Z * Z) : prog unit :=
  let '(name, major, minor) := d in
  let path := bs "/dev/" ++ name in
  r ← sys (Mknod path (Z.lor S_IFCHR (perm 6 6 6)) (Mkdev major minor));
  if (r : option errno) is None then try (sys (Chmod path (Z.land (Z.lor S_IFCHR (perm 6 6 6)) (perm 7 7 7)))) else Done tt.

Definition mount_vsock : prog unit :=
  let scratch := bs "/dev/.devtmpfs" in
  try (sys (MkdirAll scratch (perm 7 5 5)));;
  r ← mount (bs "devtmpfs") scratch (bs "devtmpfs") 0 [];
  (if (r : option errno) is None then
     f ← sys (Open (bs "/dev/vsock") (Z.lor O_CREATE O_WRONLY) (perm 6 6 6));
     (match f : errno + Z with
      | inr f => try (sys (Close f));; try (mount (scratch ++ bs "/vsock") (bs "/dev/vsock") [] MS_BIND [])
      | inl _ => Done tt
      end);;
     try (sys (Unmount scratch 0))
   else Done tt);;
  try (sys (Remove scratch)).

Definition setupDev (mountVsock : bool) (kvmDeviceNumber : Z) : prog unit :=
  try (sys (MkdirAll (bs "/dev") (perm 7 5 5)));;
  r ← mount (bs "tmpfs") (bs "/dev") (bs "tmpfs") (Z.lor MS_NOSUID MS_STRICTATIME) (bs "mode=755,size=65536k");
  if (r : option errno) is Some _ then Done tt
  else
    for_each make_device devices;;
    try (sys (Symlink (bs "/proc/self/fd/0") (bs "/dev/stdin")));;
    try (sys (Symlink (bs "/proc/self/fd/1") (bs "/dev/stdout")));;
    try (sys (Symlink (bs "/proc/self/fd/2") (bs "/dev/stderr")));;
    try (sys (Symlink (bs "/proc/self/fd") (bs "/dev/fd")));;
    try (sys (MkdirAll (bs "/dev/pts") (perm 7 5 5)));;
    try (mount (bs "devpts") (bs "/dev/pts") (bs "devpts") (Z.lor MS_NOSUID MS_NOEXEC) (bs "newinstance,ptmxmode=0666,mode=620"));;
    try (sys (Symlink (bs "pts/ptmx") (bs "/dev/ptmx")));;
    try (sys (MkdirAll (bs "/dev/shm") (512 + perm 7 7 7)));;
    try (mount (bs "tmpfs") (bs "/dev/shm") (bs "tmpfs") (Z.lor MS_NOSUID MS_NODEV) (bs "mode=1777,size=65536k"));;
    try (sys (MkdirAll (bs "/dev/mqueue") (perm 7 5 5)));;
    try (mount (bs "mqueue") (bs "/dev/mqueue") (bs "mqueue") (Z.lor (Z.lor MS_NOSUID MS_NODEV) MS_NOEXEC) []);;
    when mountVsock mount_vsock;;
    when (bool_decide (kvmDeviceNumber ≠ 0)) (try (sys (Mknod (bs "/dev/kvm") (Z.lor S_IFCHR (perm 6 6 6)) (Rdev kvmDeviceNumber)))).

(** [bindMountSubvolumeAncestors]: the directories above the target that look like
    subvolumes are bound onto themselves. *)
Definition btrfsFirstFreeObjectID : Z := 256.
Definition is_subvolume (st : file_stat) : bool :=
  bool_decide (st_ino st = btrfsFirstFreeObjectID) && bool_decide (Z.land (st_mode st) S_IFMT = S_IFDIR).
Fixpoint bind_ancestors (target path : gostring) (components : list gostring) : prog unit :=
  match components with
  | [] => Done tt
  | c :: components' =>
      let path := path ++ slash :: c in
      if bool_decide (path = target) then Done tt
      else
        st ← sys (Stat path);
        (match st : errno + file_stat with
         | inr st => when (is_subvolume st) (try (mount path path [] MS_BIND []))
         | inl _ => Done tt
         end);;
        bind_ancestors target path components'
  end.
Definition bindMountSubvolumeAncestors (target : gostring) : prog unit :=
  let target := Clean target in
  if HasPrefix target (bs "/") then bind_ancestors target [] (Split (TrimPrefix target (bs "/")) slash) else Done tt.

(** ** The commands *)

Definition make_private : prog unit := must (mount [] (bs "/") [] (Z.lor MS_REC MS_PRIVATE) []).
Definition set_names (fl : run_flags) : prog unit :=
  when (bool_decide (fl_hostname fl ≠ [])) (must (sys (Sethostname (fl_hostname fl))));;
  when (bool_decide (fl_domainname fl ≠ [])) (must (sys (Setdomainname (fl_domainname fl)))).

(** The new root: the directory it was given by its descriptor or by its path. *)
Definition fd_link (fd : Z) : gostring := bs "/proc/self/fd/" ++ fmt_int fd.
Definition old_root : gostring := bs ".old_root".
Definition target_path (fl : run_flags) : prog gostring :=
  if 0 <=? fl_chrootFd fl then must_get (sys (Readlink (fd_link (fl_chrootFd fl)))) else Done (fl_chrootPath fl).
Definition pivot : prog unit :=
  must (sys (MkdirAll old_root (perm 7 0 0)));;
  must (sys (PivotRoot (bs ".") old_root));;
  must (sys (Chdir (bs "/")));;
  try (sys (Unmount (bs "/.old_root") MNT_DETACH));;
  try (sys (Remove (bs "/.old_root"))).
Definition enter_root (fl : run_flags) : prog unit :=
  target ← target_path fl;
  must (mount target target [] (Z.lor MS_BIND MS_REC) []);;
  (if 0 <=? fl_chrootFd fl then must (sys (Fchdir (fl_chrootFd fl))) else must (sys (Chdir (fl_chrootPath fl))));;
  pivot.
Definition has_root (fl : run_flags) : bool := (0 <=? fl_chrootFd fl) || bool_decide (fl_chrootPath fl ≠ []).

(** Only the first process of a fresh PID namespace goes on. *)
Definition as_init (p : prog unit) : prog unit :=
  pid ← sys Getpid;
  if bool_decide ((pid : Z) ≠ 1) then Exit 1 else p.

Definition drop_caps_and_run (rounds : nat) (fl : run_flags) : prog unit :=
  if bool_decide (fl_cmdArgs fl = []) then Exit 1
  else as_init (
    make_private;;
    when (has_root fl) (enter_root fl);;
    when (0 <=? fl_chrootFd fl) (try (sys (Close (fl_chrootFd fl))));;
    try (sys (MkdirAll (bs "/proc") (perm 5 5 5)));;
    try (sys (MkdirAll (bs "/sys") (perm 5 5 5)));;
    must_unless EBUSY (mount (bs "proc") (bs "/proc") (bs "proc") 0 []);;
    must_unless EBUSY (mount (bs "sysfs") (bs "/sys") (bs "sysfs") 0 []);;
    must_be ensureCgroup2Mount;;
    setupDev (fl_mountVsock fl) 0;;
    set_names fl;;
    dropCapsAndExec rounds (fl_cmdArgs fl) (fl_keepDevCaps fl) (fl_usePty fl)).
Definition cmdDropCapsAndRun (rounds : nat) (args : list gostring) : prog unit :=
  match drop_args args no_flags with
  | None => Exit 1
  | Some fl => drop_caps_and_run rounds fl
  end.

Definition join_and_run (rounds : nat) (fl : run_flags) : prog unit :=
  if bool_decide (fl_cmdArgs fl = []) then Exit 1
  else
    (if 0 <=? fl_chrootFd fl then must (sys (Fchdir (fl_chrootFd fl)))
     else when (bool_decide (fl_chrootPath fl ≠ [])) (must (sys (Chdir (fl_chrootPath fl)))));;
    must (sys (Chdir (bs "/")));;
    when (0 <=? fl_chrootFd fl) (try (sys (Close (fl_chrootFd fl))));;
    dropCapsAndExec rounds (fl_cmdArgs fl) (fl_keepDevCaps fl) (fl_usePty fl).
Definition cmdJoinAndRun (rounds : nat) (args : list gostring) : prog unit :=
  match join_args args no_flags with
  | None => Exit 1
  | Some fl => join_and_run rounds fl
  end.

(** The device number of the host's KVM device, 0 for none. *)
Definition kvm_device : prog Z :=
  st ← sys (Stat (bs "/dev/kvm"));
  match st : errno + file_stat with
  | inr st => Done (if bool_decide (Z.land (st_mode st) S_IFCHR ≠ 0) then st_rdev st else 0)
  | inl _ => Done 0
  end.
Definition READY : gostring := bs "READY".

(** [cmdContainerInit]; the reaper it starts runs beside it, see [reapAll]. *)
Definition container_init (fl : run_flags) : prog unit :=
  if bool_decide (fl_chrootPath fl = []) then Exit 1
  else as_init (
    make_private;;
    bindMountSubvolumeAncestors (fl_chrootPath fl);;
    must (mount (fl_chrootPath fl) (fl_chrootPath fl) [] (Z.lor MS_BIND MS_REC) []);;
    kvmDeviceNumber ← kvm_device;
    must (sys (Chdir (fl_chrootPath fl)));;
    pivot;;
    try (sys (MkdirAll (bs "/proc") (perm 5 5 5)));;
    try (sys (MkdirAll (bs "/sys/fs/cgroup") (perm 7 5 5)));;
    must (mount (bs "proc") (bs "/proc") (bs "proc") 0 []);;
    must (mount (bs "sysfs") (bs "/sys") (bs "sysfs") 0 []);;
    must_be ensureCgroup2Mount;;
    setupDev false kvmDeviceNumber;;
    set_names fl;;
    sys (Println READY);;
    sys AwaitShutdown;;
    Exit 0).
Definition cmdContainerInit (args : list gostring) : prog unit := container_init (init_args args no_flags).

(** One sweep of the reaper; a round reaps one child or is interrupted. *)
Fixpoint reapAll (rounds : nat) : prog unit :=
  match rounds with
  | O => Spin
  | S rounds' =>
      r ← sys (Wait4 (-1) WNOHANG);
      match r : errno + Z * child_status with
      | inr (pid, _) => if 0 <? pid then reapAll rounds' else Done tt
      | inl e => if bool_decide (e = EINTR) then reapAll rounds' else Done tt
      end
  end.

(** ** A kernel on which everything works, for examples *)

Definition calm_answer (links files : gostring → option gostring) (c : syscall) : answer c :=
  match c return answer c with
  | Getpid => 1
  | Mount _ _ _ _ _ | Unmount _ _ | PivotRoot _ _ | Chdir _ | Fchdir _ | MkdirAll _ _ | Remove _
  | Mknod _ _ _ | Chmod _ _ | Symlink _ _ | Sethostname _ | Setdomainname _ | CapBsetDrop _
  | Setns _ _ | Unshare _ | Close _ | PtyUnlock _ | Setenv _ _ => None
  | Open _ _ _ => inr 5
  | PtyNumber _ => inr 0
  | ForkExec _ _ _ _ _ => inr 42
  | CapBsetRead _ => 0
  | Readlink p => match links p with Some t => inr t | None => inl 2 end
  | ReadFile p => match files p with Some d => inr d | None => inl 2 end
  | Executable | Hostname | Domainname => inr (bs "/bin/ts")
  | Stat _ | Lstat _ => inr (MkStat 256 (Z.lor S_IFDIR (perm 7 5 5)) 0)
  | ReadDir _ => inr []
  | Getenv _ => []
  | Environ => []
  | Wait4 pid _ => inr (if pid <? 0 then 0 else pid, WExited 0)
  | PtyWinsize _ _ _ | Println _ | AwaitShutdown => tt
  end.
Definition calm_files (p : gostring) : option gostring :=
  if bool_decide (p = bs "/sys/fs/cgroup/cgroup.controllers") then Some (bs "cpuset cpu io memory pids") else None.
Definition calm_links (p : gostring) : option gostring :=
  if bool_decide (p = bs "/proc/self/fd/5") then Some (bs "/work/f/rootfs") else None.
Definition calm : kernel := MkKernel (λ _, calm_answer calm_links calm_files) (λ _ _, None).

