(* ===== verification/ContainerRules.v ===== *)
(** * What the container commands may do, and when

    Rules on the histories of the programs of [ContainerSetup]: nothing is changed outside
    a private mount namespace, nothing but the root's own bind mounts before the root is
    pivoted, READY only after the container is complete, and nothing is executed with a
    capability that was to be dropped. *)

From Stdlib Require Import Strings.String.
From S2P Require Import GoSort Prelude GoStrings GoPath Syscalls ContainerSetup.

(** ** The vocabulary *)

(** The calls that change the mount table, the file tree or the names of the host. *)
Definition changes (c : syscall) : bool :=
  match c with
  | Mount _ _ _ _ _ | Unmount _ _ | PivotRoot _ _ | MkdirAll _ _ | Remove _ | Mknod _ _ _
  | Chmod _ _ | Symlink _ _ | Sethostname _ | Setdomainname _ => true
  | Open _ flags _ => bool_decide (Z.land flags O_CREATE ≠ 0)
  | _ => false
  end.

Definition private_call : syscall := Mount [] (bs "/") [] (Z.lor MS_REC MS_PRIVATE) [].
Definition bind_call (root : gostring) : syscall := Mount root root [] (Z.lor MS_BIND MS_REC) [].

Definition init_process (h : list event) : Prop := Did Getpid 1 ∈ h.
Definition private (h : list event) : Prop := Did private_call None ∈ h.
Definition bound (root : gostring) (h : list event) : Prop := Did (bind_call root) None ∈ h.

(** Where the process stands: the path or the descriptor it last moved to. *)
Definition moved (c : syscall) : answer c → option (gostring + Z) :=
  match c return answer c → option (gostring + Z) with
  | Chdir p => λ r, match r with None => Some (inl p) | Some _ => None end
  | Fchdir fd => λ r, match r with None => Some (inr fd) | Some _ => None end
  | _ => λ _, None
  end.
Fixpoint cwd (h : list event) : option (gostring + Z) :=
  match h with
  | [] => None
  | Did c r :: h' => match moved c r with Some d => Some d | None => cwd h' end
  | _ :: h' => cwd h'
  end.

(** The root a command was told to enter. *)
Definition is_target (fl : run_flags) (root : gostring) (h : list event) : Prop :=
  if 0 <=? fl_chrootFd fl then Did (Readlink (fd_link (fl_chrootFd fl))) (inr root) ∈ h
  else root = fl_chrootPath fl.
Definition stands_at (fl : run_flags) : gostring + Z :=
  if 0 <=? fl_chrootFd fl then inr (fl_chrootFd fl) else inl (fl_chrootPath fl).
Definition entered (fl : run_flags) (root : gostring) (h : list event) : Prop :=
  private h ∧ is_target fl root h ∧ bound root h ∧ cwd h = Some (stands_at fl).

(** A root to enter was named, by an open directory or by a path. The init of a machine
    is given none: it has the machine's own root. *)
Definition root_asked (fl : run_flags) : Prop := 0 ≤ fl_chrootFd fl ∨ fl_chrootPath fl ≠ [].

(** Inside: in a private mount namespace, and when a root was named, that root was entered,
    then made the root of the namespace, and then the process moved to it. *)
Definition at_new_root (fl : run_flags) (h : list event) : Prop := ∃ before after root,
  h = after ++ Did (PivotRoot (bs ".") old_root) None :: before
  ∧ Did (Chdir (bs "/")) None ∈ after ∧ entered fl root before.
Definition inside (fl : run_flags) (h : list event) : Prop :=
  private h ∧ (root_asked fl → at_new_root fl h).

(** A directory above the target. *)
Definition path_of (elems : list gostring) : gostring := concat ((λ e, slash :: e) <$> elems).
Definition above (p target : gostring) : Prop :=
  p ≠ Clean target ∧ ∃ n, p = path_of (take n (Split (TrimPrefix (Clean target) (bs "/")) slash)).

(** The changes that may be made before the command is inside. *)
Definition self_bind (fl : run_flags) (h : list event) (c : syscall) : Prop :=
  (∃ root, is_target fl root h ∧ c = bind_call root)
  ∨ (∃ p, above p (fl_chrootPath fl) ∧ c = Mount p p [] MS_BIND []).
Definition pivoting (fl : run_flags) (h : list event) (c : syscall) : Prop :=
  (∃ root, entered fl root h) ∧ (c = MkdirAll old_root (perm 7 0 0) ∨ c = PivotRoot (bs ".") old_root).

Definition may_change (fl : run_flags) (h : list event) (c : syscall) : Prop :=
  init_process h ∧
  (c = private_call ∨ (private h ∧ (self_bind fl h c ∨ pivoting fl h c ∨ inside fl h))).

(** A complete container. *)
Definition cgroup_ready (h : list event) : Prop :=
  (∃ r, (r = None ∨ r = Some EBUSY) ∧ Did (Mount (bs "cgroup2") (bs "/sys/fs/cgroup") (bs "cgroup2") 0 (bs "nsdelegate")) r ∈ h)
  ∧ ∃ data, Did (ReadFile (bs "/sys/fs/cgroup/cgroup.controllers")) (inr data) ∈ h
            ∧ ∀ c, c ∈ [bs "memory"; bs "pids"; bs "cpu"] → c ∈ Fields data.
Definition named_as_asked (fl : run_flags) (h : list event) : Prop :=
  (fl_hostname fl ≠ [] → Did (Sethostname (fl_hostname fl)) None ∈ h)
  ∧ (fl_domainname fl ≠ [] → Did (Setdomainname (fl_domainname fl)) None ∈ h).
Definition complete (fl : run_flags) (h : list event) : Prop :=
  inside fl h ∧ cgroup_ready h ∧ named_as_asked fl h
  ∧ ∃ rp rs, (rp = None ∨ rp = Some EBUSY) ∧ (rs = None ∨ rs = Some EBUSY)
    ∧ Did (Mount (bs "proc") (bs "/proc") (bs "proc") 0 []) rp ∈ h
    ∧ Did (Mount (bs "sysfs") (bs "/sys") (bs "sysfs") 0 []) rs ∈ h.

(** The capabilities a container must not have, by their numbers in [linux/capability.h]:
    [CAP_NET_ADMIN], [CAP_SYS_MODULE], [CAP_SYS_BOOT], [CAP_SYS_TIME], [CAP_AUDIT_WRITE],
    [CAP_SETFCAP]; and [CAP_MKNOD], unless it is to be kept. *)
Definition dropped (keep : bool) (h : list event) : Prop :=
  (∀ cap, cap ∈ [12; 16; 22; 25; 29; 31] → Did (CapBsetDrop cap) None ∈ h)
  ∧ (keep = false → Did (CapBsetDrop 27) None ∈ h).

Lemma all_dropped keep h : (∀ cap, cap ∈ capsToDrop keep → Did (CapBsetDrop cap) None ∈ h) → dropped keep h.
Proof.
  intros Hd. split; [intros cap Hc|intros ->]; apply Hd, (bool_decide_eq_true_1 _); [|reflexivity].
  repeat (apply elem_of_cons in Hc as [->|Hc]; [by destruct keep|]). by apply elem_of_nil in Hc.
Qed.

(** What an event changes, announces and starts. *)
Definition changed (e : event) : option syscall :=
  match e with Did c _ => if changes c then Some c else None | _ => None end.
Definition announces (e : event) : bool := match e with Did (Println _) _ => true | _ => false end.
Definition starts (e : event) : option (list gostring) :=
  match e with
  | Execed _ argv _ => Some argv
  | Did (ForkExec _ argv _ _ _) _ => Some argv
  | _ => None
  end.

(** The rule of the commands that make a container. *)
Definition container_rule (fl : run_flags) : rule := λ h e,
  (∀ c, changed e = Some c → may_change fl h c)
  ∧ (announces e = true → complete fl h)
  ∧ (∀ argv, starts e = Some argv →
       complete fl h ∧ dropped (fl_keepDevCaps fl) h ∧ argv = fl_cmdArgs fl).

(** The rule of the command that joins one. *)
Definition join_rule (fl : run_flags) : rule := λ h e,
  changed e = None ∧ announces e = false
  ∧ (∀ argv, starts e = Some argv → dropped (fl_keepDevCaps fl) h ∧ argv = fl_cmdArgs fl).

(** ** Steps *)

Definition grows (h h' : list event) : Prop := ∃ later, h' = later ++ h.

Lemma grown_refl h : grows h h.
Proof. by exists []. Qed.
Lemma grows_cons e h h' : grows (e :: h) h' → grows h h'.
Proof. intros [a ->]. exists (a ++ [e]). by rewrite <-app_assoc. Qed.
Lemma grows_one e h : grows h (e :: h).
Proof. by exists [e]. Qed.
Lemma grown_trans h1 h2 h3 : grows h1 h2 → grows h2 h3 → grows h1 h3.
Proof. intros [a ->] [b ->]. exists (b ++ a). by rewrite app_assoc. Qed.
Lemma grows_elem h h' (e : event) : grows h h' → e ∈ h → e ∈ h'.
Proof. intros [a ->] H. apply elem_of_app. by right. Qed.

Lemma keeps_must ok h p Q :
  (∀ h, ok h (Exited 1)) → keeps ok h p (λ r h', r = None → Q tt h') → keeps ok h (must p) Q.
Proof.
  intros Hx Hp. apply keeps_bind. eapply keeps_mono; [apply Hp|]. intros [e|] h' HQ; cbn; [apply Hx|by apply HQ].
Qed.
Lemma keeps_must_unless ok h e p Q :
  (∀ h, ok h (Exited 1)) → keeps ok h p (λ r h', r = None ∨ r = Some e → Q tt h') → keeps ok h (must_unless e p) Q.
Proof.
  intros Hx Hp. apply keeps_bind. eapply keeps_mono; [apply Hp|]. intros [e'|] h' HQ; cbn; [|by apply HQ; left].
  destruct (bool_decide _) eqn:E; cbn; [|apply Hx]. apply bool_decide_eq_true in E as ->. by apply HQ; right.
Qed.
Lemma keeps_must_be ok h p Q :
  (∀ h, ok h (Exited 1)) → keeps ok h p (λ b h', b = true → Q tt h') → keeps ok h (must_be p) Q.
Proof.
  intros Hx Hp. apply keeps_bind. eapply keeps_mono; [apply Hp|]. intros [] h' HQ; cbn; [by apply HQ|apply Hx].
Qed.
Lemma keeps_must_get {A} ok h (p : prog (errno + A)) Q :
  (∀ h, ok h (Exited 1)) → keeps ok h p (λ r h', ∀ a, r = inr a → Q a h') → keeps ok h (must_get p) Q.
Proof.
  intros Hx Hp. apply keeps_bind. eapply keeps_mono; [apply Hp|]. intros [e|a] h' HQ; cbn; [apply Hx|by apply HQ].
Qed.
Lemma keeps_try {A} ok h (p : prog A) Q : keeps ok h p (λ _ h', Q tt h') → keeps ok h (try p) Q.
Proof. intros Hp. by apply keeps_bind. Qed.
Lemma keeps_when ok h b p Q : (b = true → keeps ok h p Q) → (b = false → Q tt h) → keeps ok h (when b p) Q.
Proof. destruct b; cbn; auto. Qed.
Lemma keeps_sys (ok : rule) h c Q : (∀ r, ok h (Did c r) ∧ Q r (Did c r :: h)) → keeps ok h (sys c) Q.
Proof. done. Qed.

(** Programs that make calls of one kind only, and execute nothing. *)
Fixpoint only {A} (kind : syscall → bool) (p : prog A) : Prop :=
  match p with
  | Done _ | Spin | Exit _ => True
  | Exec _ _ _ _ => False
  | Call c k => kind c = true ∧ ∀ r, only kind (k r)
  end.

(** Calls that announce and start nothing; those that only look. *)
Definition plain_call (c : syscall) : bool :=
  match c with Println _ | ForkExec _ _ _ _ _ => false | _ => true end.
Definition looks (c : syscall) : bool := plain_call c && negb (changes c).

Lemma only_keeps {A} (ok : rule) (S : list event → Prop) kind (p : prog A) :
  (∀ h e, S h → S (e :: h)) → (∀ h code, S h → ok h (Exited code)) →
  (∀ h c r, S h → kind c = true → ok h (Did c r)) →
  ∀ h, only kind p → S h → keeps ok h p (λ _ h', S h' ∧ grows h h').
Proof.
  intros Hgrow Hexit Hcall.
  induction p as [a|code|path argv env k IH|c k IH|]; cbn; intros h Hp HS; [by split; [|apply grown_refl]|auto|done| |done].
  destruct Hp as [Hc Hk]. intros r. split; [auto|].
  eapply keeps_mono; [apply IH; auto|]. cbn. intros _ h' [HS' Hg]. split; [done|]. by apply grows_cons in Hg.
Qed.

Lemma only_bind {A B} kind (p : prog A) (f : A → prog B) : only kind p → (∀ a, only kind (f a)) → only kind (p ≫= f).
Proof.
  unfold mbind, prog_bind. intros Hp Hf.
  induction p as [a|code|path argv env k IH|c k IH|]; cbn in *; [done|done|done| |done].
  destruct Hp as [Hc Hk]. split; [done|]. intros r. by apply IH.
Qed.
Lemma only_for_each {A} kind (f : A → prog unit) l : (∀ a, only kind (f a)) → only kind (for_each f l).
Proof. intros Hf. induction l as [|a l IH]; cbn; [done|]. by apply only_bind. Qed.

(** The calls of such a program are found by running through it. *)
Ltac only_tac :=
  repeat first
    [ exact I
    | apply only_bind
    | progress intros
    | match goal with
      | |- only _ (sys _) => split; [reflexivity | intros; exact I]
      | |- only _ (mount _ _ _ _ _) => split; [reflexivity | intros; exact I]
      | |- only _ (match ?x with _ => _ end) => destruct x
      | |- only _ (try _) => unfold try
      | |- only _ (when ?b _) => unfold when
      | |- only _ (must_get _) => unfold must_get
      | |- only _ (must _) => unfold must
      | |- only _ (for_each _ _) => apply only_for_each
      end ].

Lemma only_setupDev b kvm : only plain_call (setupDev b kvm).
Proof. unfold setupDev, mount_vsock, make_device. only_tac. Qed.
Lemma only_search dirs name : only looks (search_path dirs name).
Proof. induction dirs; cbn -[mbind]; only_tac; assumption. Qed.
Lemma only_find name : only looks (findExecutable name).
Proof. unfold findExecutable. only_tac. apply only_search. Qed.
Lemma only_winsize ptmx : only looks (applyWinsize ptmx).
Proof. unfold applyWinsize, setWinsize. only_tac. Qed.
Lemma only_wait rounds pid : only looks (wait_child rounds pid).
Proof. induction rounds; cbn -[mbind]; only_tac; assumption. Qed.

Section restrained.
Context (ok : rule) (S : list event → Prop) (keep : bool) (cmd : list gostring).
Context (S_grow : ∀ h e, S h → S (e :: h)).
Context (ok_exit : ∀ h code, ok h (Exited code)).
Context (ok_looks : ∀ h c r, S h → looks c = true → ok h (Did c r)).
Context (ok_drop : ∀ h cap r, S h → ok h (Did (CapBsetDrop cap) r)).
Context (ok_exec : ∀ h path env, S h → dropped keep h → ok h (Execed path cmd env)).
Context (ok_fork : ∀ h path env dir files r, S h → dropped keep h → ok h (Did (ForkExec path cmd env dir files) r)).

Local Definition held (h : list event) : Prop := S h ∧ dropped keep h.

Lemma held_grow h e : held h → held (e :: h).
Proof. intros [HS [Hd Hk]]. split; [auto|]. split; intros; apply list_elem_of_further; auto. Qed.

Lemma looks_keeps {A} (p : prog A) h : only looks p → held h → keeps ok h p (λ _ h', held h').
Proof.
  intros Hp Hh. eapply keeps_mono; [apply (only_keeps ok held looks); eauto using held_grow|].
  - intros h0 c r [HS _] Hc. auto.
  - cbn. by intros _ h' [? _].
Qed.

Lemma drops_keep l : ∀ h, S h →
  keeps ok h (for_each (λ cap, must (sys (CapBsetDrop cap))) l)
    (λ _ h', S h' ∧ grows h h' ∧ ∀ cap, cap ∈ l → Did (CapBsetDrop cap) None ∈ h').
Proof.
  induction l as [|cap l IH]; cbn [for_each]; intros h HS.
  - split; [done|split; [apply grown_refl|]]. intros cap Hc. by apply elem_of_nil in Hc.
  - apply keeps_bind, keeps_must; [auto|]. apply keeps_sys. intros r. split; [auto|]. intros Hr. cbn in r.
    eapply keeps_mono; [apply IH; auto|]. intros [] h' (HS' & Hg & Hl).
    split; [done|split; [by apply grows_cons in Hg|]]. intros cap' Hc.
    apply elem_of_cons in Hc as [-> | Hc]; [|auto]. apply (grows_elem _ _ _ Hg).
    rewrite Hr. apply list_elem_of_here.
Qed.

Lemma pty_keeps rounds exe h : held h → keeps ok h (runWithPty rounds exe cmd) (λ _ _, True).
Proof.
  intros Hh. unfold runWithPty.
  assert (Hlook : ∀ A B (p : prog A) (f : A → prog B) h, only looks p → held h →
    (∀ a h, held h → keeps ok h (f a) (λ _ _, True)) → keeps ok h (p ≫= f) (λ _ _, True)).
  { intros A B p f h0 Hp Hh0 Hf. apply keeps_bind. eapply keeps_mono; [by apply looks_keeps|]. cbn. auto. }
  apply Hlook; [only_tac|done|]. intros ptmx h1 Hh1.
  apply Hlook; [unfold ptsname; only_tac|done|]. intros name h2 Hh2.
  apply Hlook; [only_tac|done|]. intros _ h3 Hh3.
  apply Hlook; [only_tac|done|]. intros pts h4 Hh4.
  apply Hlook; [apply only_winsize|done|]. intros _ h5 Hh5.
  apply Hlook; [only_tac|done|]. intros env h6 Hh6.
  apply keeps_bind, keeps_must_get; [auto|]. apply keeps_sys. intros r. split; [by destruct Hh6; auto|]. intros pid _.
  apply Hlook; [only_tac|by apply held_grow|]. intros _ h7 Hh7.
  apply Hlook; [apply only_wait|done|]. intros [code|sig|] h8 Hh8; cbn; auto.
Qed.

(** What is started is the command, and only with the capabilities gone. *)
Lemma drop_exec_keeps rounds pty h : S h → keeps ok h (dropCapsAndExec rounds cmd keep pty) (λ _ _, True).
Proof.
  intros HS. unfold dropCapsAndExec. apply keeps_bind.
  eapply keeps_mono; [by apply drops_keep|]. intros [] h1 (HS1 & _ & Hd).
  assert (Hh1 : held h1) by (split; [done|by apply all_dropped]).
  apply keeps_bind. eapply keeps_mono; [apply looks_keeps; [only_tac|done]|]. intros path h2 Hh2.
  apply keeps_bind. eapply keeps_mono; [apply looks_keeps; [only_tac|done]|]. intros u3 h3 Hh3.
  case_eq cmd; [intros _; apply ok_exit|]. intros name cmd' Ecmd. rewrite <-Ecmd.
  apply keeps_bind. eapply keeps_mono; [apply looks_keeps; [apply only_find|done]|].
  intros [exe|] h4 Hh4; [|apply ok_exit].
  destruct pty; [by apply pty_keeps|].
  apply keeps_bind. eapply keeps_mono; [apply looks_keeps; [only_tac|done]|]. intros env h5 Hh5.
  cbn. split; [|auto]. destruct Hh5. auto.
Qed.
End restrained.

(** ** Making a container *)

Definition settled (fl : run_flags) (h : list event) : Prop := init_process h ∧ inside fl h.
Definition secluded (h : list event) : Prop := init_process h ∧ private h.

Lemma entered_cons fl root c r h : moved c r = None → entered fl root h → entered fl root (Did c r :: h).
Proof.
  intros Hm (Hp & Ht & Hb & Hc). repeat split; [by apply list_elem_of_further| |by apply list_elem_of_further|].
  - unfold is_target in *. destruct (0 <=? _); [by apply list_elem_of_further|done].
  - cbn. by rewrite Hm.
Qed.

Lemma inside_grow fl h e : inside fl h → inside fl (e :: h).
Proof.
  intros [Hp Hr]. split; [by apply list_elem_of_further|]. intros (before & after & root & -> & Hc & He)%Hr.
  exists before, (e :: after), root. split; [done|split; [by apply list_elem_of_further|done]].
Qed.
Lemma settled_grow fl h e : settled fl h → settled fl (e :: h).
Proof. intros [Hi Hs]. split; [by apply list_elem_of_further|by apply inside_grow]. Qed.
Lemma secluded_grow h e : secluded h → secluded (e :: h).
Proof. intros [Hi Hs]. split; by apply list_elem_of_further. Qed.
Lemma inside_private fl h : inside fl h → private h.
Proof. by intros [? _]. Qed.
Lemma has_root_asked fl : has_root fl = true ↔ root_asked fl.
Proof. unfold has_root, root_asked. by rewrite orb_true_iff, Z.leb_le, bool_decide_eq_true. Qed.
Lemma settled_secluded fl h : settled fl h → secluded h.
Proof. intros [Hi Hs]. split; [done|by eapply inside_private]. Qed.

(** An event that announces and starts nothing keeps the rule if its change is allowed. *)
Lemma rule_call fl h c r : plain_call c = true → (changes c = true → may_change fl h c) → container_rule fl h (Did c r).
Proof.
  intros Hp Hc. split; [|split].
  - cbn. intros c'. destruct (changes c); [intros [= <-]; auto|done].
  - destruct c; cbn; done.
  - intros argv. destruct c; cbn; try done.
Qed.
Lemma rule_exit fl h code : container_rule fl h (Exited code).
Proof. split; [|split]; done. Qed.
Lemma rule_looks fl h c r : looks c = true → container_rule fl h (Did c r).
Proof. intros [Hp Hc]%andb_true_iff. apply rule_call; [done|]. intros Hch. rewrite Hch in Hc. done. Qed.
Lemma rule_settled fl h c r : settled fl h → plain_call c = true → container_rule fl h (Did c r).
Proof. intros Hs Hp. apply rule_call; [done|]. intros _. split; [apply Hs|]. right. split; [by eapply settled_secluded|]. right. right. apply Hs. Qed.
Lemma rule_drop fl h cap r : container_rule fl h (Did (CapBsetDrop cap) r).
Proof. by apply rule_looks. Qed.
#[local] Hint Resolve rule_exit settled_grow secluded_grow rule_settled rule_looks rule_drop : core.

Lemma settled_keeps {A} fl (p : prog A) h : only plain_call p → settled fl h →
  keeps (container_rule fl) h p (λ _ h', settled fl h' ∧ grows h h').
Proof. intros Hp Hs. eapply (only_keeps (container_rule fl) (settled fl) plain_call); eauto. Qed.

Lemma secluded_keeps {A} fl (p : prog A) h : only looks p → secluded h →
  keeps (container_rule fl) h p (λ _ h', secluded h' ∧ grows h h').
Proof. intros Hp Hs. eapply (only_keeps (container_rule fl) secluded looks); eauto. Qed.

Lemma make_private_keeps fl h : init_process h → keeps (container_rule fl) h make_private (λ _ h', secluded h').
Proof.
  intros Hi. apply keeps_must; [auto|]. apply keeps_sys. intros r. split.
  - apply rule_call; [done|]. intros _. split; [done|by left].
  - intros ->. split; [by apply list_elem_of_further|apply list_elem_of_here].
Qed.

Lemma init_keeps fl (p : prog unit) Q :
  (∀ h, init_process h → keeps (container_rule fl) h p Q) → keeps (container_rule fl) [] (as_init p) Q.
Proof.
  intros Hp. apply keeps_bind, keeps_sys. intros r. split; [auto|].
  destruct (bool_decide ((r : Z) ≠ 1)) eqn:E; [apply rule_exit|]. apply bool_decide_eq_false in E. apply dec_stable in E.
  apply Hp. cbn in E. rewrite E. apply list_elem_of_here.
Qed.

(** The binds above the target. *)
Lemma path_of_snoc l e : path_of (l ++ [e]) = path_of l ++ slash :: e.
Proof. unfold path_of. rewrite fmap_app, concat_app. cbn. by rewrite app_nil_r. Qed.

Lemma bind_ancestors_keeps fl : ∀ rest done h,
  Split (TrimPrefix (Clean (fl_chrootPath fl)) (bs "/")) slash = done ++ rest → secluded h →
  keeps (container_rule fl) h (bind_ancestors (Clean (fl_chrootPath fl)) (path_of done) rest) (λ _ h', secluded h').
Proof.
  induction rest as [|c rest IH]; intros pre h Hsplit Hs; [done|]. cbn [bind_ancestors].
  rewrite <-path_of_snoc. destruct (bool_decide _) eqn:E; [done|]. apply bool_decide_eq_false in E.
  apply keeps_bind, keeps_sys. intros st. split; [by apply rule_looks|].
  assert (Hnext : ∀ h', secluded h' →
    keeps (container_rule fl) h' (bind_ancestors (Clean (fl_chrootPath fl)) (path_of (pre ++ [c])) rest) (λ _ h', secluded h')).
  { intros h' Hs'. apply IH; [|done]. by rewrite <-app_assoc. }
  destruct (st : errno + file_stat) as [e|st']; [apply Hnext; auto|].
  apply keeps_bind, keeps_when; [|auto]. intros _. apply keeps_try, keeps_sys. intros r. split; [|auto].
  apply rule_call; [done|]. intros _. split; [apply (secluded_grow _ _ Hs)|]. right.
  split; [apply (secluded_grow _ _ Hs)|]. left. right. exists (path_of (pre ++ [c])). split; [|done]. split; [done|].
  exists (length (pre ++ [c])). rewrite Hsplit. change (c :: rest) with ([c] ++ rest). by rewrite app_assoc, take_app_length.
Qed.

Lemma ancestors_keep fl h : secluded h →
  keeps (container_rule fl) h (bindMountSubvolumeAncestors (fl_chrootPath fl)) (λ _ h', secluded h').
Proof. intros Hs. unfold bindMountSubvolumeAncestors. destruct (HasPrefix _ _); [|done]. by apply (bind_ancestors_keeps fl _ []). Qed.

(** Entering the root. *)
Lemma pivot_keeps fl root h : init_process h → entered fl root h →
  keeps (container_rule fl) h pivot (λ _ h', settled fl h').
Proof.
  intros Hi He. unfold pivot.
  assert (Hmay : ∀ c h, init_process h → entered fl root h → plain_call c = true →
    c = MkdirAll old_root (perm 7 0 0) ∨ c = PivotRoot (bs ".") old_root → ∀ r, container_rule fl h (Did c r)).
  { intros c h0 Hi0 He0 Hp Hc r. apply rule_call; [done|]. intros _. split; [done|]. right.
    split; [apply He0|]. right. left. split; [by exists root|done]. }
  apply keeps_bind, keeps_must; [auto|]. apply keeps_sys. intros r1. split; [apply Hmay; auto|]. intros _.
  assert (Hi1 : init_process (Did (MkdirAll old_root (perm 7 0 0)) r1 :: h)) by by apply list_elem_of_further.
  assert (He1 : entered fl root (Did (MkdirAll old_root (perm 7 0 0)) r1 :: h)) by by apply entered_cons.
  apply keeps_bind, keeps_must; [auto|]. apply keeps_sys. intros r2. split; [apply Hmay; auto|]. intros Hr2. rewrite Hr2.
  apply keeps_bind, keeps_must; [auto|]. apply keeps_sys. intros r3. split; [by apply rule_looks|]. intros Hr3. rewrite Hr3.
  eapply keeps_mono; [apply (settled_keeps fl); [only_tac|]|].
  - split; [by do 2 apply list_elem_of_further|]. split; [do 2 apply list_elem_of_further; apply He1|]. intros _.
    eexists _, [Did (Chdir (bs "/")) None], root. split; [reflexivity|split; [apply list_elem_of_here|exact He1]].
  - cbn. by intros _ h' [? _].
Qed.

Lemma bound_keeps fl root h Q : secluded h → is_target fl root h →
  (∀ h', secluded h' → is_target fl root h' → bound root h' → Q tt h') →
  keeps (container_rule fl) h (must (mount root root [] (Z.lor MS_BIND MS_REC) [])) Q.
Proof.
  intros Hs Ht HQ. apply keeps_must; [auto|]. apply keeps_sys. intros r. split.
  - apply rule_call; [done|]. intros _. split; [apply Hs|]. right. split; [apply Hs|]. left. left. by exists root.
  - intros Hr. rewrite Hr. apply HQ; [auto| |apply list_elem_of_here].
    unfold is_target in *. destruct (0 <=? _); [by apply list_elem_of_further|done].
Qed.

(** Moving to the root, by descriptor or by path. *)
Definition move_to (fl : run_flags) : syscall :=
  if 0 <=? fl_chrootFd fl then Fchdir (fl_chrootFd fl) else Chdir (fl_chrootPath fl).

Lemma arrive fl root h e : secluded h → is_target fl root h → bound root h →
  (e = Did (Fchdir (fl_chrootFd fl)) None ∧ (0 <=? fl_chrootFd fl) = true
   ∨ e = Did (Chdir (fl_chrootPath fl)) None ∧ (0 <=? fl_chrootFd fl) = false) →
  init_process (e :: h) ∧ entered fl root (e :: h).
Proof.
  intros [Hi Hp] Ht Hb He. split; [by apply list_elem_of_further|].
  split; [by apply list_elem_of_further|split; [|split; [by apply list_elem_of_further|]]].
  - unfold is_target in *. destruct (0 <=? _); [by apply list_elem_of_further|done].
  - unfold stands_at. by destruct He as [[-> ->] | [-> ->]].
Qed.

Lemma enter_root_keeps fl h : secluded h →
  keeps (container_rule fl) h (enter_root fl) (λ _ h', settled fl h').
Proof.
  intros Hs. unfold enter_root.
  apply keeps_bind. eapply keeps_mono
    with (Q := λ root h', secluded h' ∧ is_target fl root h').
  - unfold target_path, is_target. destruct (0 <=? _) eqn:E; [|done].
    apply keeps_must_get; [auto|]. apply keeps_sys. intros r. split; [by apply rule_looks|].
    intros root ->. split; [auto|apply list_elem_of_here].
  - intros root h1 [Hs1 Ht1]. apply keeps_bind, bound_keeps; [done|done|]. intros h2 Hs2 Ht2 Hb2.
    apply keeps_bind. eapply keeps_mono with (Q := λ _ h', init_process h' ∧ entered fl root h').
    + destruct (0 <=? fl_chrootFd fl) eqn:E;
        (apply keeps_must; [auto|]; apply keeps_sys; intros r; split; [by apply rule_looks|];
         intros Hr'; rewrite Hr'; eapply arrive; eauto).
    + intros _ h3 [Hi He]. by apply (pivot_keeps fl root).
Qed.

(** The cgroup mount and the names. *)
Lemma cgroup_ready_grow h h' : grows h h' → cgroup_ready h → cgroup_ready h'.
Proof.
  intros Hg [(r & Hr & Hm) (data & Hd & Hc)]. split.
  - exists r. split; [done|]. by eapply grows_elem.
  - exists data. split; [by eapply grows_elem|done].
Qed.

Lemma cgroup_keeps fl h : settled fl h →
  keeps (container_rule fl) h ensureCgroup2Mount
    (λ b h', settled fl h' ∧ grows h h' ∧ (b = true → cgroup_ready h')).
Proof.
  intros Hs. unfold ensureCgroup2Mount.
  apply keeps_bind, keeps_sys. intros r. split; [auto|].
  assert (Hs1 : settled fl (Did (MkdirAll (bs "/sys/fs/cgroup") (perm 7 5 5)) r :: h)) by auto.
  destruct (r : option errno); [split; [done|split; [apply grows_one|done]]|].
  apply keeps_bind, keeps_sys. intros r2. split; [auto|].
  destruct (bool_decide _) eqn:E; [split; [auto|split; [eexists [_; _]; reflexivity|done]]|].
  apply bool_decide_eq_false in E.
  apply keeps_bind, keeps_sys. intros r3. split; [auto|].
  destruct r3 as [e|data]; (split; [auto|split; [eexists [_; _; _]; reflexivity|]]); [done|].
  intros Hall. split.
  - exists r2. split; [|apply list_elem_of_further, list_elem_of_here].
    destruct r2 as [e|]; [|by left]. right. f_equal. destruct (decide (e = EBUSY)) as [He|He]; [exact He|].
    exfalso. apply E. split; [discriminate|congruence].
  - exists data. split; [apply list_elem_of_here|]. intros c Hc.
    eapply forallb_forall in Hall; [|by apply list_elem_of_In]. by apply bool_decide_eq_true in Hall.
Qed.

Lemma set_names_keeps fl h : settled fl h →
  keeps (container_rule fl) h (set_names fl) (λ _ h', settled fl h' ∧ grows h h' ∧ named_as_asked fl h').
Proof.
  intros Hs. unfold set_names. apply keeps_bind.
  eapply keeps_mono with
    (Q := λ _ h', settled fl h' ∧ grows h h' ∧ (fl_hostname fl ≠ [] → Did (Sethostname (fl_hostname fl)) None ∈ h')).
  - apply keeps_when; intros E.
    + apply keeps_must; [auto|]. apply keeps_sys. intros r. split; [auto|]. intros Hr. rewrite Hr.
      split; [auto|split; [apply grows_one|]]. intros _. apply list_elem_of_here.
    + split; [done|split; [apply grown_refl|]]. by apply bool_decide_eq_false in E.
  - intros [] h1 (Hs1 & Hg1 & Hn1). apply keeps_when; intros E.
    + apply keeps_must; [auto|]. apply keeps_sys. intros r. split; [auto|]. intros Hr. rewrite Hr.
      split; [auto|split; [by eapply grown_trans; [|apply grows_one]|]]. split; intros H; [|apply list_elem_of_here].
      apply list_elem_of_further. auto.
    + split; [done|split; [done|]]. split; [done|]. by apply bool_decide_eq_false in E.
Qed.

(** The part both makers share: mounts, devices and names. *)
Lemma complete_grow fl h e : complete fl h → complete fl (e :: h).
Proof.
  intros (Hi & Hc & [Hn1 Hn2] & rp & rs & Hp & Hs & Hmp & Hms). split; [by apply inside_grow|split; [|split]].
  - eapply cgroup_ready_grow; [apply grows_one|done].
  - split; intros H; apply list_elem_of_further; auto.
  - exists rp, rs. split_and!; [done|done|by apply list_elem_of_further..].
Qed.
#[local] Hint Resolve complete_grow : core.

Lemma furnish_keeps fl vsock kvm h rp rs (k : prog unit) Q : settled fl h →
  (rp = None ∨ rp = Some EBUSY) → (rs = None ∨ rs = Some EBUSY) →
  Did (Mount (bs "proc") (bs "/proc") (bs "proc") 0 []) rp ∈ h → Did (Mount (bs "sysfs") (bs "/sys") (bs "sysfs") 0 []) rs ∈ h →
  (∀ h', settled fl h' → complete fl h' → keeps (container_rule fl) h' k Q) →
  keeps (container_rule fl) h (must_be ensureCgroup2Mount;; setupDev vsock kvm;; set_names fl;; k) Q.
Proof.
  intros Hs Hrp Hrs Hp Hsys Hk. apply keeps_bind, keeps_must_be; [auto|].
  eapply keeps_mono; [by apply cgroup_keeps|]. intros b h1 (Hs1 & Hg1 & Hc1) Hb. specialize (Hc1 Hb).
  apply keeps_bind. eapply keeps_mono; [apply settled_keeps; [apply only_setupDev|done]|]. intros [] h2 (Hs2 & Hg2).
  apply keeps_bind. eapply keeps_mono; [by apply set_names_keeps|]. intros [] h3 (Hs3 & Hg3 & Hn3). apply Hk; [done|].
  split; [apply Hs3|split; [|split; [done|]]].
  - eapply cgroup_ready_grow, Hc1. by eapply grown_trans.
  - exists rp, rs. split_and!; [done|done|eapply grows_elem, Hp|eapply grows_elem, Hsys];
      (eapply grown_trans; [exact Hg1|eapply grown_trans; [exact Hg2|exact Hg3]]).
Qed.

(** Mounts that may find themselves made already. *)
Lemma mounts_keep fl h (k : prog unit) Q : settled fl h →
  (∀ h' rp rs, settled fl h' → (rp = None ∨ rp = Some EBUSY) → (rs = None ∨ rs = Some EBUSY) →
     Did (Mount (bs "proc") (bs "/proc") (bs "proc") 0 []) rp ∈ h' →
     Did (Mount (bs "sysfs") (bs "/sys") (bs "sysfs") 0 []) rs ∈ h' → keeps (container_rule fl) h' k Q) →
  keeps (container_rule fl) h
    (must_unless EBUSY (mount (bs "proc") (bs "/proc") (bs "proc") 0 []);;
     must_unless EBUSY (mount (bs "sysfs") (bs "/sys") (bs "sysfs") 0 []);; k) Q
  ∧ keeps (container_rule fl) h
    (must (mount (bs "proc") (bs "/proc") (bs "proc") 0 []);; must (mount (bs "sysfs") (bs "/sys") (bs "sysfs") 0 []);; k) Q.
Proof.
  intros Hs Hk. split.
  - apply keeps_bind, keeps_must_unless; [auto|]. apply keeps_sys. intros rp. split; [auto|]. intros Hrp.
    apply keeps_bind, keeps_must_unless; [auto|]. apply keeps_sys. intros rs. split; [auto|]. intros Hrs.
    eapply Hk; [auto|exact Hrp|exact Hrs|apply list_elem_of_further, list_elem_of_here|apply list_elem_of_here].
  - apply keeps_bind, keeps_must; [auto|]. apply keeps_sys. intros rp. split; [auto|]. intros Hrp.
    apply keeps_bind, keeps_must; [auto|]. apply keeps_sys. intros rs. split; [auto|]. intros Hrs.
    eapply Hk; [auto|left; exact Hrp|left; exact Hrs|apply list_elem_of_further, list_elem_of_here|apply list_elem_of_here].
Qed.

(** A plain step on the way. *)
Lemma settled_step {A} fl (p : prog A) (k : A → prog unit) h Q : only plain_call p → settled fl h →
  (∀ a h', settled fl h' → keeps (container_rule fl) h' (k a) Q) → keeps (container_rule fl) h (p ≫= k) Q.
Proof. intros Hp Hs Hk. apply keeps_bind. eapply keeps_mono; [by apply settled_keeps|]. intros a h' [Hs' _]. by apply Hk. Qed.

Lemma exec_complete fl h rounds : settled fl h → complete fl h →
  keeps (container_rule fl) h (dropCapsAndExec rounds (fl_cmdArgs fl) (fl_keepDevCaps fl) (fl_usePty fl)) (λ _ _, True).
Proof.
  intros _ Hc. apply drop_exec_keeps with (S := complete fl); auto.
  - intros h0 path env Hc0 Hd. split; [done|split; [done|]]. by intros argv [= <-].
  - intros h0 path env dir files r Hc0 Hd. split; [done|split; [done|]]. by intros argv [= <-].
Qed.

Lemma drop_caps_keeps rounds fl : keeps (container_rule fl) [] (drop_caps_and_run rounds fl) (λ _ _, True).
Proof.
  unfold drop_caps_and_run. destruct (bool_decide _); [apply rule_exit|]. apply init_keeps. intros h Hi.
  apply keeps_bind. eapply keeps_mono; [by apply make_private_keeps|]. intros [] h1 Hs1.
  apply keeps_bind. eapply keeps_mono with (Q := λ _ h', settled fl h').
  { apply keeps_when; intros Hr; [by apply enter_root_keeps|]. split; [apply Hs1|]. split; [apply Hs1|].
    intros Ha%has_root_asked. congruence. }
  intros [] h2 Hs2.
  apply settled_step; [only_tac|done|]. intros _ h3 Hs3.
  apply settled_step; [only_tac|done|]. intros _ h4 Hs4.
  apply settled_step; [only_tac|done|]. intros _ h5 Hs5.
  apply mounts_keep; [done|]. intros h6 rp rs Hs6 Hrp Hrs Hp Hsys.
  apply (furnish_keeps fl _ _ h6 rp rs _ _ Hs6 Hrp Hrs Hp Hsys). intros h7 Hs7 Hc7. by apply exec_complete.
Qed.

Lemma container_init_keeps fl : fl_chrootFd fl = -1 → keeps (container_rule fl) [] (container_init fl) (λ _ _, True).
Proof.
  intros Hfd. unfold container_init. destruct (bool_decide _) eqn:Er; [apply rule_exit|]. apply init_keeps. intros h Hi.
  assert (Hneg : (0 <=? fl_chrootFd fl) = false) by (rewrite Hfd; done).
  apply keeps_bind. eapply keeps_mono; [by apply make_private_keeps|]. intros [] h1 Hs1.
  apply keeps_bind. eapply keeps_mono; [by apply ancestors_keep|]. intros [] h2 Hs2.
  apply keeps_bind, bound_keeps; [done|unfold is_target; by rewrite Hneg|]. intros h3 Hs3 Ht3 Hb3.
  apply keeps_bind. eapply keeps_mono with (Q := λ _ h', secluded h' ∧ grows h3 h').
  { apply secluded_keeps; [unfold kvm_device; only_tac|done]. }
  intros kvm h4 [Hs4 Hg4].
  apply keeps_bind, keeps_must; [auto|]. apply keeps_sys. intros r. split; [by apply rule_looks|]. intros Hr5. rewrite Hr5.
  destruct (arrive fl (fl_chrootPath fl) h4 (Did (Chdir (fl_chrootPath fl)) None)) as [Hi5 He5];
    [done|unfold is_target; by rewrite Hneg|by eapply grows_elem|by right|].
  apply keeps_bind. eapply keeps_mono; [by eapply pivot_keeps|]. intros [] h6 Hs6.
  apply settled_step; [only_tac|done|]. intros _ h7 Hs7.
  apply settled_step; [only_tac|done|]. intros _ h8 Hs8.
  apply mounts_keep; [done|]. intros h9 rp rs Hs9 Hrp Hrs Hp Hsys.
  apply (furnish_keeps fl _ _ h9 rp rs _ _ Hs9 Hrp Hrs Hp Hsys). intros h10 Hs10 Hc10.
  apply keeps_bind, keeps_sys. intros r11. split; [split; [done|split; [done|done]]|].
  apply keeps_bind, keeps_sys. intros r12. split; [auto|]. apply rule_exit.
Qed.

(** ** Joining a container *)

Lemma join_keeps rounds fl : keeps (join_rule fl) [] (join_and_run rounds fl) (λ _ _, True).
Proof.
  assert (Hexit : ∀ h code, join_rule fl h (Exited code)) by (intros h code; split; [|split]; done).
  assert (Hlook : ∀ h c r, looks c = true → join_rule fl h (Did c r)).
  { intros h c r [Hp Hc]%andb_true_iff. split; [|split].
    - cbn. by destruct (changes c).
    - by destruct c.
    - intros argv. by destruct c. }
  assert (Hstep : ∀ (p : prog unit) (k : unit → prog unit) h, only looks p →
    (∀ h', keeps (join_rule fl) h' (k tt) (λ _ _, True)) → keeps (join_rule fl) h (p ≫= k) (λ _ _, True)).
  { intros p k h Hp Hk. apply keeps_bind. eapply keeps_mono.
    - apply (only_keeps (join_rule fl) (λ _, True) looks); auto.
    - by intros [] h' _. }
  unfold join_and_run. destruct (bool_decide _); [apply Hexit|].
  apply Hstep; [only_tac|]. intros h1.
  apply Hstep; [only_tac|]. intros h2.
  apply Hstep; [only_tac|]. intros h3.
  apply drop_exec_keeps with (S := λ _, True); auto.
  - intros h path env _ Hd. split; [done|split; [done|]]. by intros argv [= <-].
  - intros h path env dir files r _ Hd. split; [done|split; [done|]]. by intros argv [= <-].
Qed.

(** ** The options *)

Lemma init_args_fd : ∀ args f, fl_chrootFd (init_args args f) = fl_chrootFd f.
Proof.
  assert (H : ∀ n args f, (length args ≤ n)%nat → fl_chrootFd (init_args args f) = fl_chrootFd f).
  { induction n as [|n IH]; intros [|a rest] f Hn; [done|cbn in Hn; lia|done|]. cbn [length] in Hn.
    assert (Hs : fl_chrootFd (
        if HasPrefix a (bs "--hostname=") then init_args rest (set_hostname (TrimPrefix a (bs "--hostname=")) f)
        else if HasPrefix a (bs "--domainname=") then init_args rest (set_domainname (TrimPrefix a (bs "--domainname=")) f)
        else if HasPrefix a (bs "--chroot=") then init_args rest (set_chroot (TrimPrefix a (bs "--chroot=")) f)
        else init_args rest f) = fl_chrootFd f).
    { repeat case_match; rewrite IH; try reflexivity; lia. }
    cbn [init_args]. destruct rest as [|v rest']; [exact Hs|]. cbn [length] in Hn.
    destruct (named a (bs "--hostname")); [rewrite IH; [reflexivity|lia]|].
    destruct (named a (bs "--domainname")); [rewrite IH; [reflexivity|lia]|].
    destruct (named a (bs "--chroot")); [rewrite IH; [reflexivity|lia]|]. exact Hs. }
  intros args f. by apply (H (length args)).
Qed.

(** ** The commands *)

(** A run of one of the two commands that make a container, with what it was told. *)
Inductive makes_container (K : kernel) : run_flags → list event → Prop :=
| by_container_init args : makes_container K (init_args args no_flags) (history K (cmdContainerInit args))
| by_drop_caps rounds args fl : drop_args args no_flags = Some fl →
    makes_container K fl (history K (cmdDropCapsAndRun rounds args)).

Lemma makes_kept K fl h : makes_container K fl h → kept (container_rule fl) h.
Proof.
  intros [args|rounds args fl' Hargs].
  - eapply keeps_history, container_init_keeps, init_args_fd.
  - unfold cmdDropCapsAndRun. rewrite Hargs. eapply keeps_history, drop_caps_keeps.
Qed.

(** C32: A command that makes a container changes a mount, a file or a name only as the
    first process of its PID namespace. Its first change makes every mount private; after
    that, when it was given a root, by a path or as an open directory, it may only bind that
    root, and the subvolumes above it, onto themselves, and, once it stands in that root,
    make the place for the old root and pivot; every other change comes after it has pivoted
    from there and moved to the new root. Without a root to enter (the init of a machine) its
    changes are confined to the private namespace. *)
Theorem container_changes_stay_inside K fl later e before c :
  makes_container K fl (later ++ e :: before) → changed e = Some c → may_change fl before c.
Proof. intros Hm Hc. by apply (makes_kept K fl _ Hm later e before eq_refl). Qed.

(** C33: READY is announced, and a command started, only when the container is complete:
    when a root was given it was entered, pivoted to and moved to (without one, in the init of
    a machine, the mounts are private), proc and sysfs are mounted, the cgroup tree is mounted
    with the memory, pids and cpu controllers, and the names are set as asked. *)
Theorem container_ready_is_complete K fl later e before :
  makes_container K fl (later ++ e :: before) → announces e = true ∨ is_Some (starts e) → complete fl before.
Proof.
  intros Hm He. destruct (makes_kept K fl _ Hm later e before eq_refl) as (_ & Ha & Hs).
  destruct He as [He | [argv He]]; [by apply Ha|]. by destruct (Hs argv He).
Qed.

(** A run of a command that ends by starting another. *)
Inductive runs_command (K : kernel) : run_flags → list event → Prop :=
| making_one rounds args fl : drop_args args no_flags = Some fl →
    runs_command K fl (history K (cmdDropCapsAndRun rounds args))
| joining_one rounds args fl : join_args args no_flags = Some fl →
    runs_command K fl (history K (cmdJoinAndRun rounds args)).

Definition start_rule (fl : run_flags) : rule := λ h e,
  ∀ argv, starts e = Some argv → argv = fl_cmdArgs fl ∧ dropped (fl_keepDevCaps fl) h.

Lemma runs_kept K fl h : runs_command K fl h → kept (start_rule fl) h.
Proof.
  intros [rounds args fl' Hargs|rounds args fl' Hargs] later e before Hh argv He.
  - destruct (makes_kept K fl' _ (by_drop_caps K rounds args fl' Hargs) later e before Hh) as (_ & _ & Hs).
    by destruct (Hs argv He) as (_ & ? & ?).
  - unfold cmdJoinAndRun in Hh. rewrite Hargs in Hh.
    destruct (keeps_history (join_rule fl') K _ _ (join_keeps rounds fl') later e before Hh) as (_ & _ & Hs).
    by destruct (Hs argv He).
Qed.

(** C34: Whatever is executed in a container, in this process or under a terminal in a
    child, is the command after the options, and by then [CAP_NET_ADMIN], [CAP_SYS_MODULE],
    [CAP_SYS_BOOT], [CAP_SYS_TIME], [CAP_AUDIT_WRITE] and [CAP_SETFCAP] have been dropped from
    the bounding set, and [CAP_MKNOD] too, unless it is to be kept. *)
Theorem container_command_is_restrained K fl later e before argv :
  runs_command K fl (later ++ e :: before) → starts e = Some argv →
  argv = fl_cmdArgs fl ∧ dropped (fl_keepDevCaps fl) before.
Proof.
  intros Hr He. by apply (runs_kept K fl _ Hr later e before eq_refl).
Qed.

(** Joining a container changes nothing: no mount, no file, no name. *)
Theorem join_changes_nothing K rounds args e : e ∈ history K (cmdJoinAndRun rounds args) → changed e = None.
Proof.
  unfold cmdJoinAndRun. destruct (join_args args no_flags) as [fl|] eqn:E.
  - intros (later & before & He)%list_elem_of_split.
    by apply (keeps_history (join_rule fl) K _ _ (join_keeps rounds fl) later e before He).
  - cbn. rewrite elem_of_cons. intros [-> | H]; [done|]. by apply elem_of_nil in H.
Qed.

(** ** The reaper *)

(** A sweep goes on as long as it reaps or is interrupted. *)
Definition busy (r : errno + Z * child_status) : bool :=
  match r with inr (pid, _) => 0 <? pid | inl e => bool_decide (e = EINTR) end.
Definition sweep : syscall := Wait4 (-1) WNOHANG.

Definition swept (rs : list (errno + Z * child_status)) : list event := (λ r, Did sweep r) <$> rs.

Lemma reap_step K h rounds :
  run_prog K h (reapAll (S rounds)) =
    if busy (k_answer K h sweep) then run_prog K (Did sweep (k_answer K h sweep) :: h) (reapAll rounds)
    else (Did sweep (k_answer K h sweep) :: h, Returned tt).
Proof.
  cbn [reapAll run_prog mbind prog_bind prog_bind_def sys]. change (Wait4 (-1) WNOHANG) with sweep.
  destruct (k_answer K h sweep) as [e|[pid st]]; cbn; by destruct (_ : bool).
Qed.

(** A sweep of the reaper ends: when at most [n] answers in a row reap a child or are
    interrupted, it makes at most [n + 1] calls and returns, whatever the bound on its
    rounds beyond that; every call but the last was such an answer, so nothing that was
    ready is left behind. *)
Theorem reap_sweep_ends K n : ∀ rounds h,
  (∀ rs, length rs = n → forallb busy rs = true → busy (k_answer K (swept rs ++ h) sweep) = false) →
  (n < rounds)%nat →
  ∃ rs r, run_prog K h (reapAll rounds) = (Did sweep r :: swept rs ++ h, Returned tt)
    ∧ (length rs ≤ n)%nat ∧ forallb busy rs = true ∧ busy r = false.
Proof.
  induction n as [|n IH]; intros [|rounds] h Hn Hlt; [lia| |lia|].
  - exists [], (k_answer K h sweep). rewrite reap_step. assert (Hb := Hn [] eq_refl eq_refl). cbn in Hb. by rewrite Hb.
  - rewrite reap_step. destruct (busy (k_answer K h sweep)) eqn:Hb.
    + destruct (IH rounds (Did sweep (k_answer K h sweep) :: h)) as (rs & r & Hrun & Hlen & Hbusy & Hr); [|lia|].
      * intros rs Hlen Hbusy. specialize (Hn (rs ++ [k_answer K h sweep])). unfold swept in *.
        rewrite fmap_app, <-app_assoc in Hn. apply Hn; [rewrite length_app; cbn; lia|].
        rewrite forallb_app, Hbusy. cbn. by rewrite Hb.
      * exists (rs ++ [k_answer K h sweep]), r. rewrite Hrun. unfold swept. rewrite fmap_app, <-app_assoc.
        split; [done|split; [rewrite length_app; cbn; lia|split; [|done]]]. rewrite forallb_app, Hbusy. cbn. by rewrite Hb.
    + exists [], (k_answer K h sweep). split; [done|split; [cbn; lia|done]].
Qed.

(** ** Examples *)

Definition demo_init : list event := history calm (cmdContainerInit [bs "--chroot=/work/f/rootfs"; bs "--hostname=f"]).
Definition demo_drop : list event := history calm (cmdDropCapsAndRun 1 [bs "--chroot-fd=5"; bs "--pty"; bs "--"; bs "/bin/sh"]).
Definition demo_join : list event := history calm (cmdJoinAndRun 1 [bs "--chroot=/work/f/rootfs"; bs "--keep-dev-caps"; bs "--"; bs "/bin/ts"]).

(** The first event of a history, in order of time, that satisfies a test: what comes
    later, the event, what came before. *)
Fixpoint cut (test : event → bool) (later h : list event) : option (list event * event * list event) :=
  match h with
  | [] => None
  | e :: h' => if test e then Some (rev later, e, h') else cut test (e :: later) h'
  end.
Lemma cut_split test : ∀ h acc later e before,
  cut test acc h = Some (later, e, before) → rev acc ++ h = later ++ e :: before.
Proof.
  induction h as [|e0 h IH]; cbn; intros acc later e before Hc; [done|].
  destruct (test e0); [by injection Hc as <- <- <-|]. apply IH in Hc. rewrite <-Hc. cbn. by rewrite <-app_assoc.
Qed.

Lemma cut_here test h later e before : cut test [] h = Some (later, e, before) → h = later ++ e :: before.
Proof. apply (cut_split test h []). Qed.

Definition is_pivot (e : event) : bool := match e with Did (PivotRoot _ _) _ => true | _ => false end.
Definition is_fork (e : event) : bool := match e with Did (ForkExec _ _ _ _ _) _ => true | _ => false end.

Lemma container_changes_stay_inside_witness : ∃ later e before c,
  cut is_pivot [] demo_init = Some (later, e, before) ∧ changed e = Some c ∧ may_change (init_args [bs "--chroot=/work/f/rootfs"; bs "--hostname=f"] no_flags) before c.
Proof.
  destruct (cut is_pivot [] demo_init) as [[[later e] before]|] eqn:E; [|exfalso; vm_compute in E; discriminate E].
  assert (Hh : demo_init = later ++ e :: before) by exact (cut_here _ _ _ _ _ E).
  destruct (changed e) as [c|] eqn:Ec; [|exfalso; vm_compute in E; injection E as <- <- <-; discriminate Ec].
  exists later, e, before, c. split; [reflexivity|split; [exact Ec|]].
  apply (container_changes_stay_inside calm _ later e before c); [rewrite <-Hh; apply by_container_init|exact Ec].
Defined.

Lemma container_ready_is_complete_witness : ∃ later e before,
  cut announces [] demo_init = Some (later, e, before) ∧ complete (init_args [bs "--chroot=/work/f/rootfs"; bs "--hostname=f"] no_flags) before.
Proof.
  destruct (cut announces [] demo_init) as [[[later e] before]|] eqn:E; [|exfalso; vm_compute in E; discriminate E].
  assert (Hh : demo_init = later ++ e :: before) by exact (cut_here _ _ _ _ _ E).
  exists later, e, before. split; [reflexivity|].
  apply (container_ready_is_complete calm _ later e before); [rewrite <-Hh; apply by_container_init|].
  left. vm_compute in E. injection E as <- <- <-. reflexivity.
Defined.

Lemma container_command_is_restrained_witness : ∃ later e before,
  cut is_fork [] demo_drop = Some (later, e, before) ∧ starts e = Some [bs "/bin/sh"] ∧ dropped false before.
Proof.
  destruct (cut is_fork [] demo_drop) as [[[later e] before]|] eqn:E; [|exfalso; vm_compute in E; discriminate E].
  assert (Hh : demo_drop = later ++ e :: before) by exact (cut_here _ _ _ _ _ E).
  assert (He : starts e = Some [bs "/bin/sh"]) by (vm_compute in E; injection E as <- <- <-; reflexivity).
  exists later, e, before. split; [reflexivity|split; [exact He|]].
  destruct (drop_args [bs "--chroot-fd=5"; bs "--pty"; bs "--"; bs "/bin/sh"] no_flags) as [fl|] eqn:Ef; [|vm_compute in Ef; discriminate Ef].
  assert (Hk : fl_keepDevCaps fl = false) by (vm_compute in Ef; injection Ef as <-; reflexivity).
  rewrite <-Hk. apply (container_command_is_restrained calm fl later e before [bs "/bin/sh"]); [|exact He].
  rewrite <-Hh. exact (making_one calm 1 _ fl Ef).
Defined.

Lemma join_changes_nothing_witness : ∀ e, head demo_join = Some e → changed e = None.
Proof.
  intros e He. apply (join_changes_nothing calm 1 [bs "--chroot=/work/f/rootfs"; bs "--keep-dev-caps"; bs "--"; bs "/bin/ts"]).
  change (e ∈ demo_join). destruct demo_join as [|e0 h] eqn:E; [discriminate He|]. injection He as <-. apply list_elem_of_here.
Defined.

(** A kernel with two zombies. *)
Definition two_zombies : kernel :=
  MkKernel (λ h c, match c return answer c with
                   | Wait4 _ _ => if (length h <? 2)%nat then inr (7 + Z.of_nat (length h), WExited 0) else inl 10
                   | c => calm_answer calm_links calm_files c
                   end) (λ _ _, None).
Lemma reap_sweep_ends_witness : ∃ rs r, run_prog two_zombies [] (reapAll 9) = (Did sweep r :: swept rs ++ [], Returned tt)
  ∧ (length rs ≤ 2)%nat ∧ forallb busy rs = true ∧ busy r = false.
Proof.
  apply (reap_sweep_ends two_zombies 2 9 []); [|lia].
  intros [|r1 [|r2 [|]]] Hlen _; try discriminate Hlen. reflexivity.
Defined.
