(* ===== verification/Nsenter.v ===== *)
(** * Entering a container ([src/cmd/ts/nsenter.go], the dispatch of [src/cmd/ts/main.go])

    A session reaches the container through three programs in a row: [ts nsenter] joins
    the namespaces that a multi-threaded process may join and forks its second stage, the
    second stage joins the mount namespace and executes [ts join-and-run], which executes
    the command. Each reads its arguments from the one before. *)

From Stdlib Require Import Strings.String.
From S2P Require Import GoSort Prelude GoStrings GoPath Sessions Syscalls ContainerSetup ContainerRules.

Definition CLONE_FS : Z := 0x200.
Definition CLONE_NEWNS : Z := 0x20000.
Definition CLONE_NEWCGROUP : Z := 0x2000000.
Definition CLONE_NEWUTS : Z := 0x4000000.
Definition CLONE_NEWPID : Z := 0x20000000.
Definition O_RDONLY : Z := 0.
Definition O_PATH : Z := 0x200000.
Definition O_DIRECTORY : Z := 0x10000.
Definition O_CLOEXEC : Z := 0x80000.

(** ** The first stage *)

Record ns_flags := MkNsFlags {
  ns_targetPid : Z;
  ns_wantPID : bool;
  ns_wantMnt : bool;
  ns_wantUTS : bool;
  ns_wantCgroup : bool;
  ns_cmdArgs : list gostring;
}.
Definition no_ns_flags : ns_flags := MkNsFlags (-1) false false false false [].

(** The options; [None] is a bad pid, which exits. *)
Fixpoint ns_args (args : list gostring) (f : ns_flags) : option ns_flags :=
  match args with
  | [] => Some f
  | a :: rest =>
      let '(MkNsFlags t p m u c cmd) := f in
      let single :=
        if named a (bs "-p") then ns_args rest (MkNsFlags t true m u c cmd)
        else if named a (bs "-m") then ns_args rest (MkNsFlags t p true u c cmd)
        else if named a (bs "-u") then ns_args rest (MkNsFlags t p m true c cmd)
        else if named a (bs "-C") then ns_args rest (MkNsFlags t p m u true cmd)
        else if named a (bs "--") then Some (MkNsFlags t p m u c rest)
        else Some (MkNsFlags t p m u c args) in
      match rest with
      | v :: rest' =>
          if named a (bs "-t") then
            match Atoi v with
            | Some pid => ns_args rest' (MkNsFlags pid p m u c cmd)
            | None => None
            end
          else single
      | [] => single
      end
  end.

Definition proc_file (pid : Z) (name : gostring) : gostring := bs "/proc/" ++ fmt_int pid ++ bs "/" ++ name.

(** [setnsPath]. *)
Definition setnsPath (path : gostring) (nsType : Z) : prog (option errno) :=
  fd ← sys (Open path O_RDONLY 0);
  match fd : errno + Z with
  | inl e => Done (Some e)
  | inr fd =>
      r ← sys (Setns fd nsType);
      try (sys (Close fd));;
      Done r
  end.

(** The arguments of the second stage, after the program's own name. *)
Definition stage2_args (fl : ns_flags) : list gostring :=
  [bs "nsenter"; bs "--stage2"]
  ++ (if ns_wantMnt fl then [bs "--mnt-fd=3"; bs "--target-pid=" ++ fmt_int (ns_targetPid fl)] else [])
  ++ [bs "--"] ++ ns_cmdArgs fl.

(** The exit status of a child, -1 when it has not exited. *)
Definition ExitStatus (ws : child_status) : Z := match ws with WExited code => code | _ => -1 end.

Definition nsenter (fl : ns_flags) : prog unit :=
  let pid := ns_targetPid fl in
  if pid <? 0 then Exit 1
  else if bool_decide (ns_cmdArgs fl = []) then Exit 1
  else
    when (ns_wantUTS fl) (must (setnsPath (proc_file pid (bs "ns/uts")) CLONE_NEWUTS));;
    when (ns_wantCgroup fl) (must (setnsPath (proc_file pid (bs "ns/cgroup")) CLONE_NEWCGROUP));;
    when (ns_wantPID fl) (must (setnsPath (proc_file pid (bs "ns/pid")) CLONE_NEWPID));;
    exe ← sys Executable;
    let self := match exe : errno + gostring with inr p => p | inl _ => bs "/proc/self/exe" end in
    env ← sys Environ;
    files ← (if ns_wantMnt fl then
               mntFd ← must_get (sys (Open (proc_file pid (bs "ns/mnt")) O_RDONLY 0));
               Done [0; 1; 2; mntFd]
             else Done [0; 1; 2]);
    child ← must_get (sys (ForkExec self (self :: stage2_args fl) env [] files));
    '(_, ws) ← must_get (sys (Wait4 child 0));
    match ws with
    | WSignaled sig => Exit (128 + sig)
    | ws => Exit (ExitStatus ws)
    end.
Definition cmdNsenter (args : list gostring) : prog unit :=
  match ns_args args no_ns_flags with
  | None => Exit 1
  | Some fl => nsenter fl
  end.

(** ** The second stage *)

Record stage2_flags := MkStage2 { s2_mntFd : Z; s2_targetPid : Z; s2_cmdArgs : list gostring }.
Definition no_stage2 : stage2_flags := MkStage2 (-1) (-1) [].

(** An option with a value that is not empty. *)
Definition option_value (name a : gostring) : option gostring :=
  if (length name <? length a)%nat && HasPrefix a name then Some (drop (length name) a) else None.

Fixpoint stage2_opts (args : list gostring) (f : stage2_flags) : option stage2_flags :=
  match args with
  | [] => Some f
  | a :: rest =>
      let '(MkStage2 mnt pid cmd) := f in
      if named a (bs "--stage2") then stage2_opts rest f
      else match option_value (bs "--mnt-fd=") a with
      | Some v => match Atoi v with Some fd => stage2_opts rest (MkStage2 fd pid cmd) | None => None end
      | None =>
          match option_value (bs "--target-pid=") a with
          | Some v => match Atoi v with Some t => stage2_opts rest (MkStage2 mnt t cmd) | None => None end
          | None =>
              if named a (bs "--") then Some (MkStage2 mnt pid rest) else Some (MkStage2 mnt pid args)
          end
      end
  end.

(** [openExecutableForExec]: the descriptor, or -1, and the path. *)
Definition openExecutableForExec (path : gostring) : prog (Z * gostring) :=
  found ← findExecutable path;
  match found with
  | None => Exit 1
  | Some resolved =>
      f ← sys (Open resolved (Z.lor O_PATH O_CLOEXEC) 0);
      match f : errno + Z with
      | inl _ => Done (-1, resolved)
      | inr fd => Done (fd, resolved)
      end
  end.

(** [openChrootFd]. *)
Definition openChrootFd (targetPid : Z) : prog Z :=
  if targetPid <? 0 then Done (-1)
  else
    fd ← sys (Open (proc_file targetPid (bs "root")) (Z.lor O_PATH O_DIRECTORY) 0);
    Done (match fd : errno + Z with inl _ => -1 | inr fd => fd end).

(** [injectChrootFd]: after the first [--chroot=], or in front of everything. *)
Fixpoint after_chroot (cmdArgs : list gostring) (fdArg : gostring) : option (list gostring) :=
  match cmdArgs with
  | [] => None
  | a :: rest =>
      if HasPrefix a (bs "--chroot=") then Some (a :: fdArg :: rest)
      else l ← after_chroot rest fdArg; Some (a :: l)
  end.
Definition injectChrootFd (cmdArgs : list gostring) (fd : Z) : list gostring :=
  let fdArg := bs "--chroot-fd=" ++ fmt_int fd in
  default (fdArg :: cmdArgs) (after_chroot cmdArgs fdArg).

Definition nsenter_stage2 (fl : stage2_flags) : prog unit :=
  match s2_cmdArgs fl with
  | [] => Exit 1
  | name :: _ =>
      '(execFd, execPath) ← openExecutableForExec name;
      chrootFd ← openChrootFd (s2_targetPid fl);
      when (0 <=? s2_mntFd fl)
        (must (sys (Unshare CLONE_FS));; must (sys (Setns (s2_mntFd fl) CLONE_NEWNS)));;
      let cmdArgs := if 0 <=? chrootFd then injectChrootFd (s2_cmdArgs fl) chrootFd else s2_cmdArgs fl in
      env ← sys Environ;
      Exec (if 0 <=? execFd then fd_link execFd else execPath) cmdArgs env (λ _, Exit 1)
  end.
Definition cmdNsenterStage2 (args : list gostring) : prog unit :=
  match stage2_opts args no_stage2 with
  | None => Exit 1
  | Some fl => nsenter_stage2 fl
  end.

(** ** The commands of [ts] *)

Section dispatch.
(** What the other commands do. *)
Context (rounds : nat) (other : list gostring → prog unit).

Definition ts_command (args : list gostring) : prog unit :=
  match args with
  | [] => other []
  | cmd :: cmdArgs =>
      if named cmd (bs "drop-caps-and-run") then cmdDropCapsAndRun rounds cmdArgs
      else if named cmd (bs "join-and-run") then cmdJoinAndRun rounds cmdArgs
      else if named cmd (bs "container-init") then cmdContainerInit cmdArgs
      else if named cmd (bs "nsenter") then
        match cmdArgs with
        | a :: _ => if named a (bs "--stage2") then cmdNsenterStage2 cmdArgs else cmdNsenter cmdArgs
        | [] => cmdNsenter cmdArgs
        end
      else other (cmd :: cmdArgs)
  end.
End dispatch.

(** ** What the stages may start, and when *)

Definition joined_ns (pid : Z) (name : gostring) (nstype : Z) (h : list event) : Prop := ∃ fd,
  Did (Open (proc_file pid name) O_RDONLY 0) (inr fd) ∈ h ∧ Did (Setns fd nstype) None ∈ h.

(** The first stage forks the second, in the namespaces that were asked for and with the
    mount namespace of the target as its fourth file. *)
Definition joined (fl : ns_flags) (h : list event) : Prop :=
  (ns_wantUTS fl = true → joined_ns (ns_targetPid fl) (bs "ns/uts") CLONE_NEWUTS h)
  ∧ (ns_wantCgroup fl = true → joined_ns (ns_targetPid fl) (bs "ns/cgroup") CLONE_NEWCGROUP h)
  ∧ (ns_wantPID fl = true → joined_ns (ns_targetPid fl) (bs "ns/pid") CLONE_NEWPID h).
Definition files_of (fl : ns_flags) (h : list event) (files : list Z) : Prop :=
  if ns_wantMnt fl then ∃ fd, files = [0; 1; 2; fd] ∧ Did (Open (proc_file (ns_targetPid fl) (bs "ns/mnt")) O_RDONLY 0) (inr fd) ∈ h
  else files = [0; 1; 2].
Definition stage1_rule (fl : ns_flags) : rule := λ h e,
  changed e = None ∧
  match e with
  | Execed _ _ _ => False
  | Did (ForkExec path argv env dir files) _ => argv = path :: stage2_args fl ∧ joined fl h ∧ files_of fl h files
  | _ => True
  end.

(** The second stage executes the command in the mount namespace. *)
Definition handed_on (fl : stage2_flags) (h : list event) (argv : list gostring) : Prop :=
  argv = s2_cmdArgs fl ∨ ∃ fd, 0 ≤ fd ∧ argv = injectChrootFd (s2_cmdArgs fl) fd
    ∧ Did (Open (proc_file (s2_targetPid fl) (bs "root")) (Z.lor O_PATH O_DIRECTORY) 0) (inr fd) ∈ h.
Definition stage2_rule (fl : stage2_flags) : rule := λ h e,
  changed e = None ∧
  (∀ argv, starts e = Some argv →
     handed_on fl h argv ∧ (0 ≤ s2_mntFd fl → Did (Setns (s2_mntFd fl) CLONE_NEWNS) None ∈ h)).

(** Calls that only look keep both rules. *)
Lemma stage1_looks fl h c r : looks c = true → stage1_rule fl h (Did c r).
Proof. intros [Hp Hc]%andb_true_iff. split; [cbn; by destruct (changes c)|by destruct c]. Qed.
Lemma stage1_exit fl h code : stage1_rule fl h (Exited code).
Proof. done. Qed.
Lemma stage2_looks fl h c r : looks c = true → stage2_rule fl h (Did c r).
Proof. intros [Hp Hc]%andb_true_iff. split; [cbn; by destruct (changes c)|by destruct c]. Qed.
Lemma stage2_exit fl h code : stage2_rule fl h (Exited code).
Proof. done. Qed.
#[local] Hint Resolve stage1_looks stage1_exit stage2_looks stage2_exit : core.

(** A looking part of a program lets the history grow. *)
Lemma looking {A B} (ok : rule) (p : prog A) (k : A → prog B) h Q :
  (∀ h c r, looks c = true → ok h (Did c r)) → (∀ h code, ok h (Exited code)) → only looks p →
  (∀ a h', grows h h' → keeps ok h' (k a) Q) → keeps ok h (p ≫= k) Q.
Proof.
  intros Hl Hx Hp Hk. apply keeps_bind. eapply keeps_mono.
  - apply (only_keeps ok (λ _, True) looks); auto.
  - cbn. intros a h' [_ Hg]. by apply Hk.
Qed.

Lemma setns_keeps fl b pid name nstype h :
  keeps (stage1_rule fl) h (when b (must (setnsPath (proc_file pid name) nstype)))
    (λ _ h', grows h h' ∧ (b = true → joined_ns pid name nstype h')).
Proof.
  apply keeps_when; intros ->; [|by split; [apply grown_refl|]].
  apply keeps_must; [auto|]. unfold setnsPath.
  apply keeps_bind, keeps_sys. intros [e|fd]; (split; [by apply stage1_looks|]); [done|].
  apply keeps_bind, keeps_sys. intros r. split; [by apply stage1_looks|].
  apply keeps_bind, keeps_try, keeps_sys. intros r2. split; [by apply stage1_looks|].
  intros ->. split; [by eexists [_; _; _]|]. intros _. exists fd. split.
  - do 2 apply list_elem_of_further. apply list_elem_of_here.
  - apply list_elem_of_further, list_elem_of_here.
Qed.

Lemma joined_ns_grow pid name ty h h' : grows h h' → joined_ns pid name ty h → joined_ns pid name ty h'.
Proof. intros Hg (fd & Ho & Hs). exists fd. split; by eapply grows_elem. Qed.

Lemma nsenter_keeps fl : keeps (stage1_rule fl) [] (nsenter fl) (λ _ _, True).
Proof.
  unfold nsenter. destruct (_ <? 0); [apply stage1_exit|]. destruct (bool_decide _); [apply stage1_exit|].
  apply keeps_bind. eapply keeps_mono; [apply setns_keeps|]. intros [] h1 [_ H1].
  apply keeps_bind. eapply keeps_mono; [apply setns_keeps|]. intros [] h2 [Hg2 H2].
  apply keeps_bind. eapply keeps_mono; [apply setns_keeps|]. intros [] h3 [Hg3 H3].
  assert (Hj : ∀ h, grows h3 h → joined fl h).
  { intros h Hg. split_and!; intros Hw.
    - eapply joined_ns_grow; [|by apply H1]. eapply grown_trans; [exact Hg2|]. by eapply grown_trans.
    - eapply joined_ns_grow; [|by apply H2]. by eapply grown_trans.
    - eapply joined_ns_grow; [exact Hg|by apply H3]. }
  apply looking; [auto|auto|only_tac|]. intros exe h4 Hg4.
  apply looking; [auto|auto|only_tac|]. intros env h5 Hg5.
  apply keeps_bind. eapply keeps_mono with (Q := λ files h', grows h3 h' ∧ files_of fl h' files).
  { assert (Hg : grows h3 h5) by by eapply grown_trans. unfold files_of. destruct (ns_wantMnt fl); [|done].
    apply keeps_bind, keeps_must_get; [auto|]. apply keeps_sys. intros r. split; [by apply stage1_looks|].
    intros fd ->. split; [eapply grown_trans; [exact Hg|apply grows_one]|]. exists fd. split; [done|apply list_elem_of_here]. }
  intros files h6 [Hg6 Hf6].
  apply keeps_bind, keeps_must_get; [auto|]. apply keeps_sys. intros r. split; [split; [done|split; [done|split; [by apply Hj|done]]]|].
  intros child _. apply looking; [auto|auto|only_tac|]. intros [wpid ws] h7 _. destruct ws; apply stage1_exit.
Qed.

Lemma stage2_keeps fl : keeps (stage2_rule fl) [] (nsenter_stage2 fl) (λ _ _, True).
Proof.
  unfold nsenter_stage2. case_eq (s2_cmdArgs fl); [intros _; apply stage2_exit|]. intros name cmd' Hcmd. rewrite <-Hcmd.
  apply looking; [auto|auto|unfold openExecutableForExec; apply only_bind; [apply only_find|intros []; only_tac]|].
  intros [execFd execPath] h1 _.
  apply keeps_bind. eapply keeps_mono with (Q := λ fd h', 0 ≤ fd →
    Did (Open (proc_file (s2_targetPid fl) (bs "root")) (Z.lor O_PATH O_DIRECTORY) 0) (inr fd) ∈ h').
  { unfold openChrootFd. destruct (_ <? 0); [cbn; lia|].
    apply keeps_bind, keeps_sys. intros [e|fd]; (split; [by apply stage2_looks|]); cbn; [lia|]. intros _. apply list_elem_of_here. }
  intros chrootFd h2 Hfd.
  apply keeps_bind. eapply keeps_mono with (Q := λ _ h', grows h2 h' ∧ (0 ≤ s2_mntFd fl → Did (Setns (s2_mntFd fl) CLONE_NEWNS) None ∈ h')).
  { apply keeps_when; intros E; [|split; [apply grown_refl|lia]].
    apply keeps_bind, keeps_must; [auto|]. apply keeps_sys. intros r. split; [by apply stage2_looks|]. intros _.
    apply keeps_must; [auto|]. apply keeps_sys. intros r2. split; [by apply stage2_looks|]. intros Hr2. rewrite Hr2.
    split; [by eexists [_; _]|]. intros _. apply list_elem_of_here. }
  intros [] h3 [Hg3 Hs3]. apply looking; [auto|auto|only_tac|]. intros env h4 Hg4. cbn. split; [|intros _; apply stage2_exit].
  split; [done|]. intros argv [= <-]. split; [|intros Hm; eapply grows_elem; eauto].
  unfold handed_on. destruct (Z.leb_spec 0 chrootFd); [right|by left]. exists chrootFd. split; [done|split; [done|]].
  eapply grows_elem, Hfd; [|done]. by eapply grown_trans.
Qed.

(** ** The hand-over of the arguments *)

Lemma named_refl a : named a a = true.
Proof. by apply bool_decide_eq_true. Qed.

Lemma ns_args_t v rest t p m u c cmd : ns_args (bs "-t" :: v :: rest) (MkNsFlags t p m u c cmd) =
  match Atoi v with Some pid => ns_args rest (MkNsFlags pid p m u c cmd) | None => None end.
Proof. reflexivity. Qed.
Lemma ns_args_p rest t p m u c cmd : ns_args (bs "-p" :: rest) (MkNsFlags t p m u c cmd) = ns_args rest (MkNsFlags t true m u c cmd).
Proof. by destruct rest. Qed.
Lemma ns_args_m rest t p m u c cmd : ns_args (bs "-m" :: rest) (MkNsFlags t p m u c cmd) = ns_args rest (MkNsFlags t p true u c cmd).
Proof. by destruct rest. Qed.
Lemma ns_args_u rest t p m u c cmd : ns_args (bs "-u" :: rest) (MkNsFlags t p m u c cmd) = ns_args rest (MkNsFlags t p m true c cmd).
Proof. by destruct rest. Qed.
Lemma ns_args_C rest t p m u c cmd : ns_args (bs "-C" :: rest) (MkNsFlags t p m u c cmd) = ns_args rest (MkNsFlags t p m u true cmd).
Proof. by destruct rest. Qed.
Lemma ns_args_end rest t p m u c cmd : ns_args (bs "--" :: rest) (MkNsFlags t p m u c cmd) = Some (MkNsFlags t p m u c rest).
Proof. by destruct rest. Qed.

Lemma ns_args_session pid cmd : Atoi (fmt_int pid) = Some pid →
  ns_args (bs "-t" :: fmt_int pid :: bs "-p" :: bs "-m" :: bs "-u" :: bs "-C" :: bs "--" :: cmd) no_ns_flags
    = Some (MkNsFlags pid true true true true cmd).
Proof. intros Hp. unfold no_ns_flags. by rewrite ns_args_t, Hp, ns_args_p, ns_args_m, ns_args_u, ns_args_C, ns_args_end. Qed.

Lemma stage2_opts_args fl : ns_wantMnt fl = true → Atoi (fmt_int (ns_targetPid fl)) = Some (ns_targetPid fl) →
  stage2_opts (drop 1 (stage2_args fl)) no_stage2 = Some (MkStage2 3 (ns_targetPid fl) (ns_cmdArgs fl)).
Proof.
  intros Hm Hp. unfold stage2_args. rewrite Hm. cbn [app drop].
  assert (Hv : option_value (bs "--target-pid=") (bs "--target-pid=" ++ fmt_int (ns_targetPid fl)) = Some (fmt_int (ns_targetPid fl))).
  { unfold option_value. rewrite HasPrefix_app, drop_app_length, length_app.
    destruct (fmt_int (ns_targetPid fl)); [discriminate Hp|]. replace (_ <? _)%nat with true; [done|]. symmetry. apply Nat.ltb_lt. cbn [length]. lia. }
  remember (fmt_int (ns_targetPid fl)) as v eqn:Ev.
  assert (Hn : option_value (bs "--mnt-fd=") (bs "--target-pid=" ++ v) = None).
  { unfold option_value. replace (HasPrefix _ _) with false; [by rewrite andb_false_r|]. symmetry. by apply bool_decide_eq_false_2. }
  change (stage2_opts (bs "--stage2" :: bs "--mnt-fd=3" :: (bs "--target-pid=" ++ v) :: bs "--" :: ns_cmdArgs fl) no_stage2)
    with (stage2_opts ((bs "--target-pid=" ++ v) :: bs "--" :: ns_cmdArgs fl) (MkStage2 3 (-1) [])).
  cbn [stage2_opts]. rewrite Hn, Hv, Hp.
  replace (named (bs "--target-pid=" ++ v) (bs "--stage2")) with false by by symmetry; apply bool_decide_eq_false_2.
  reflexivity.
Qed.

(** The second stage finds the option of [join-and-run], whatever the command holds. *)
Lemma inject_session root ts rest fd : HasPrefix ts (bs "--chroot=") = false →
  injectChrootFd (ts :: bs "join-and-run" :: (bs "--chroot=" ++ root) :: rest) fd
    = ts :: bs "join-and-run" :: (bs "--chroot=" ++ root) :: (bs "--chroot-fd=" ++ fmt_int fd) :: rest.
Proof.
  intros Hts. unfold injectChrootFd. cbn [after_chroot]. rewrite Hts, HasPrefix_app.
  replace (HasPrefix (bs "join-and-run") (bs "--chroot=")) with false by by symmetry; apply bool_decide_eq_false_2.
  reflexivity.
Qed.

Definition joining (root : gostring) (fd : Z) (cmd : list gostring) : run_flags :=
  MkRunFlags [] [] root fd false false true cmd.

(** The options of [join-and-run], one at a time. *)
Lemma join_chroot root rest f : join_args ((bs "--chroot=" ++ root) :: rest) f = join_args rest (set_chroot root f).
Proof.
  cbn [join_args]. rewrite HasPrefix_app, TrimPrefix_app.
  replace (named (bs "--chroot=" ++ root) (bs "--chroot")) with false by by symmetry; apply bool_decide_eq_false_2.
  by destruct rest.
Qed.
Lemma join_chroot_fd v rest f : join_args ((bs "--chroot-fd=" ++ v) :: rest) f =
  match Atoi v with Some fd => join_args rest (set_chroot_fd fd f) | None => None end.
Proof.
  cbn [join_args]. rewrite HasPrefix_app, TrimPrefix_app.
  replace (named (bs "--chroot-fd=" ++ v) (bs "--chroot")) with false by by symmetry; apply bool_decide_eq_false_2.
  replace (HasPrefix (bs "--chroot-fd=" ++ v) (bs "--chroot=")) with false by by symmetry; apply bool_decide_eq_false_2.
  replace (named (bs "--chroot-fd=" ++ v) (bs "--chroot-fd")) with false by by symmetry; apply bool_decide_eq_false_2.
  by destruct rest.
Qed.
Lemma join_keep rest f : join_args (bs "--keep-dev-caps" :: rest) f = join_args rest (set_dev_caps f).
Proof. by destruct rest. Qed.
Lemma join_end rest f : join_args (bs "--" :: rest) f = Some (set_cmd rest f).
Proof. by destruct rest. Qed.

Lemma join_args_session root cmd :
  join_args ((bs "--chroot=" ++ root) :: bs "--keep-dev-caps" :: bs "--" :: cmd) no_flags = Some (joining root (-1) cmd).
Proof. by rewrite join_chroot, join_keep, join_end. Qed.
Lemma join_args_session_fd root v cmd fl :
  join_args ((bs "--chroot=" ++ root) :: (bs "--chroot-fd=" ++ v) :: bs "--keep-dev-caps" :: bs "--" :: cmd) no_flags = Some fl →
  ∃ fd, Atoi v = Some fd ∧ fl = joining root fd cmd.
Proof.
  rewrite join_chroot, join_chroot_fd. destruct (Atoi v) as [fd|]; [|done]. rewrite join_keep, join_end.
  intros [= <-]. by exists fd.
Qed.

(** ** The whole way *)

(** A run that starts a program: its arguments and what came before. *)
Inductive hop (K : kernel) (p : prog unit) : list gostring → list event → Prop :=
| hop_intro later e before argv : history K p = later ++ e :: before → starts e = Some argv → hop K p argv before.

Lemma hop_kept K p ok argv before : kept ok (history K p) → hop K p argv before →
  ∃ e, starts e = Some argv ∧ ok before e.
Proof. intros Hk [later e before' argv' Hh He]. exists e. split; [done|]. by eapply Hk. Qed.

Lemma hop_exit K code argv before : ¬ hop K (Exit code) argv before.
Proof.
  intros [later e before' argv' Hh He]. destruct later as [|e0 [|e1 later]]; cbn in Hh; [|discriminate Hh..].
  injection Hh as <-. discriminate He.
Qed.

(** What one hop of each kind hands to the next. *)
Lemma nsenter_hop K args fl argv h : ns_args args no_ns_flags = Some fl → hop K (cmdNsenter args) argv h →
  drop 1 argv = stage2_args fl ∧ joined fl h.
Proof.
  unfold cmdNsenter. intros -> Hhop.
  destruct (hop_kept K _ _ _ _ (keeps_history (stage1_rule fl) K _ _ (nsenter_keeps fl)) Hhop) as (e & He & _ & Hr).
  destruct e as [[] r|path' argv' env|code]; try discriminate He; [|done].
  destruct Hr as (Hargv & Hj & _). injection He as <-. by rewrite Hargv.
Qed.

Lemma stage2_hop K args fl argv h : stage2_opts args no_stage2 = Some fl → hop K (cmdNsenterStage2 args) argv h →
  handed_on fl h argv ∧ (0 ≤ s2_mntFd fl → Did (Setns (s2_mntFd fl) CLONE_NEWNS) None ∈ h).
Proof.
  unfold cmdNsenterStage2. intros -> Hhop.
  destruct (hop_kept K _ _ _ _ (keeps_history (stage2_rule fl) K _ _ (stage2_keeps fl)) Hhop) as (e & He & _ & Hr). by apply Hr.
Qed.

Lemma join_hop K rounds args argv h : hop K (cmdJoinAndRun rounds args) argv h →
  ∃ fl, join_args args no_flags = Some fl ∧ argv = fl_cmdArgs fl ∧ dropped (fl_keepDevCaps fl) h.
Proof.
  intros Hhop. destruct (join_args args no_flags) as [fl|] eqn:E.
  - exists fl. split; [done|].
    destruct (hop_kept K _ _ _ _ (runs_kept K fl _ (joining_one K rounds args fl E)) Hhop) as (e & He & Hr). by apply Hr.
  - unfold cmdJoinAndRun in Hhop. rewrite E in Hhop. by apply hop_exit in Hhop.
Qed.

Lemma inner_ts_no_option root : IsAbs root = true → HasPrefix (JoinPaths [root; bs "bin"; bs "ts"]) (bs "--chroot=") = false.
Proof.
  intros Habs. apply HasPrefix_true in Habs as [r ->].
  assert (Hc : ∀ p, HasPrefix (Clean (slash :: p)) (bs "--chroot=") = false) by (intros p; by apply bool_decide_eq_false_2).
  apply Hc.
Qed.

(** The dispatch of the three programs. *)
Lemma ts_nsenter rounds other rest : ts_command rounds other (bs "nsenter" :: bs "-t" :: rest) = cmdNsenter (bs "-t" :: rest).
Proof. reflexivity. Qed.
Lemma ts_stage2 rounds other fl : ts_command rounds other (stage2_args fl) = cmdNsenterStage2 (drop 1 (stage2_args fl)).
Proof. reflexivity. Qed.
Lemma ts_join rounds other rest : ts_command rounds other (bs "join-and-run" :: rest) = cmdJoinAndRun rounds rest.
Proof. reflexivity. Qed.

Lemma container_args_split root pid serve : ∃ inner,
  container_args root pid serve = bs "nsenter" :: bs "-t" :: fmt_int pid :: bs "-p" :: bs "-m" :: bs "-u" :: bs "-C" :: bs "--" :: inner
  ∧ inner = JoinPaths [root; bs "bin"; bs "ts"] :: bs "join-and-run" :: (bs "--chroot=" ++ root) :: bs "--keep-dev-caps"
            :: bs "--" :: bs "/bin/ts" :: serve.
Proof. by eexists. Qed.

(** The last hop, with or without the descriptor that the second stage adds. *)
Lemma last_hop K rounds other root ts serve fl argv2 argv3 h2 h3 :
  HasPrefix ts (bs "--chroot=") = false →
  s2_cmdArgs fl = ts :: bs "join-and-run" :: (bs "--chroot=" ++ root) :: bs "--keep-dev-caps" :: bs "--" :: bs "/bin/ts" :: serve →
  handed_on fl h2 argv2 → hop K (ts_command rounds other (drop 1 argv2)) argv3 h3 →
  argv3 = bs "/bin/ts" :: serve ∧ dropped true h3.
Proof.
  intros Hts Hcmd Hd Hop. unfold handed_on in Hd. rewrite Hcmd in Hd. destruct Hd as [-> | (fd & Hfd & -> & _)].
  - cbn [drop] in Hop. rewrite ts_join in Hop. destruct (join_hop K rounds _ _ _ Hop) as (fl' & Hfl & -> & Hdrop).
    rewrite join_args_session in Hfl. injection Hfl as <-. split; [reflexivity|exact Hdrop].
  - rewrite inject_session in Hop by done. cbn [drop] in Hop. rewrite ts_join in Hop.
    destruct (join_hop K rounds _ _ _ Hop) as (fl' & Hfl & -> & Hdrop).
    apply join_args_session_fd in Hfl as (fd' & _ & ->). split; [reflexivity|exact Hdrop].
Qed.

(** C35: The command of a session arrives. vshd starts [ts nsenter] with the arguments it
    built for the container; whatever the kernel answers, the program that is started in
    the end, if any, is the container's own [ts] with exactly the arguments
    [session-serve] was meant to have, and it reads from them the terminal flag, the user
    and the command, even when words of the command look like options of the programs in
    between. By then the UTS, cgroup and PID namespaces of the target and its mount
    namespace have been joined and the capabilities dropped. Which directory the passed
    descriptor is, and which capabilities are on the list, is not stated here. *)
Theorem session_command_arrives K1 K2 K3 rounds other root initPid pty user argv argv1 argv2 argv3 h1 h2 h3 :
  IsAbs root = true → 0 ≤ initPid < 2 ^ 63 → argv ≠ [] → Z.of_nat (length argv) < 2 ^ 63 →
  hop K1 (ts_command rounds other (container_args root initPid (serve_args pty user argv))) argv1 h1 →
  hop K2 (ts_command rounds other (drop 1 argv1)) argv2 h2 →
  hop K3 (ts_command rounds other (drop 1 argv2)) argv3 h3 →
  argv3 = bs "/bin/ts" :: serve_args pty user argv
  ∧ cmdSessionServe (drop 2 argv3) = Some (pty, user, argv)
  ∧ joined_ns initPid (bs "ns/uts") CLONE_NEWUTS h1 ∧ joined_ns initPid (bs "ns/cgroup") CLONE_NEWCGROUP h1
  ∧ joined_ns initPid (bs "ns/pid") CLONE_NEWPID h1
  ∧ Did (Setns 3 CLONE_NEWNS) None ∈ h2 ∧ dropped true h3.
Proof.
  intros Habs Hpid Hne Hlen Hop1 Hop2 Hop3.
  assert (Hatoi : Atoi (fmt_int initPid) = Some initPid) by (rewrite fmt_int_nonneg by lia; by apply Atoi_fmt).
  destruct (container_args_split root initPid (serve_args pty user argv)) as (inner & Hsplit & Hinner).
  rewrite Hsplit, ts_nsenter in Hop1.
  destruct (nsenter_hop K1 _ _ _ _ (ns_args_session initPid inner Hatoi) Hop1) as [Hd1 (Hju & Hjc & Hjp)].
  rewrite Hd1, ts_stage2 in Hop2.
  destruct (stage2_hop K2 _ _ _ _ (stage2_opts_args (MkNsFlags initPid true true true true inner) eq_refl Hatoi) Hop2) as [Hd2 Hmnt].
  cbn [ns_targetPid ns_cmdArgs] in Hd2, Hmnt.
  destruct (last_hop K3 rounds other root _ _ (MkStage2 3 initPid inner) _ _ _ _ (inner_ts_no_option root Habs) Hinner Hd2 Hop3) as [-> Hdrop].
  split; [reflexivity|]. split; [by apply cmdSessionServe_args|].
  split_and!; [exact (Hju eq_refl)|exact (Hjc eq_refl)|exact (Hjp eq_refl)|apply Hmnt; discriminate|exact Hdrop].
Qed.

(** ** Examples *)

Lemma hop_cut K p test h argv :
  history K p = h → (∃ later e before, cut test [] h = Some (later, e, before) ∧ starts e = Some argv) →
  ∃ before, hop K p argv before.
Proof.
  intros Hh (later & e & before & Hc & He). exists before. apply (hop_intro K p later e before argv); [|done].
  rewrite Hh. by apply (cut_here test).
Qed.

Definition any_start (e : event) : bool := match starts e with Some _ => true | None => false end.
(** What a command starts first. *)
Definition first_start (K : kernel) (p : prog unit) : option (list gostring) :=
  match cut any_start [] (history K p) with Some (_, e, _) => starts e | None => None end.
Lemma first_start_hop K p argv : first_start K p = Some argv → ∃ before, hop K p argv before.
Proof.
  unfold first_start. destruct (cut any_start [] (history K p)) as [[[later e] before]|] eqn:Hc; [|done].
  intros He. apply (hop_cut K p any_start (history K p)); [reflexivity|]. by exists later, e, before.
Qed.

Definition demo_ts : list gostring → prog unit := ts_command 1 (λ _, Exit 1).
Definition demo_words : list gostring := [bs "sh"; bs "-c"; bs "--chroot=/ -- it's"].
Definition demo_args : list gostring := container_args (bs "/work/f/rootfs") 77 (serve_args true (bs "ann") demo_words).
Definition demo_argv1 : list gostring := Eval vm_compute in default [] (first_start calm (demo_ts demo_args)).
Definition demo_argv2 : list gostring := Eval vm_compute in default [] (first_start calm (demo_ts (drop 1 demo_argv1))).
Definition demo_argv3 : list gostring := Eval vm_compute in default [] (first_start calm (demo_ts (drop 1 demo_argv2))).

Lemma session_command_arrives_witness : ∃ h1 h2 h3 : list event,
  demo_argv3 = bs "/bin/ts" :: serve_args true (bs "ann") demo_words
  ∧ cmdSessionServe (drop 2 demo_argv3) = Some (true, bs "ann", demo_words)
  ∧ joined_ns 77 (bs "ns/uts") CLONE_NEWUTS h1 ∧ joined_ns 77 (bs "ns/cgroup") CLONE_NEWCGROUP h1
  ∧ joined_ns 77 (bs "ns/pid") CLONE_NEWPID h1
  ∧ Did (Setns 3 CLONE_NEWNS) None ∈ h2 ∧ dropped true h3.
Proof.
  destruct (first_start_hop calm (demo_ts demo_args) demo_argv1) as [h1 H1]; [vm_compute; reflexivity|].
  destruct (first_start_hop calm (demo_ts (drop 1 demo_argv1)) demo_argv2) as [h2 H2]; [vm_compute; reflexivity|].
  destruct (first_start_hop calm (demo_ts (drop 1 demo_argv2)) demo_argv3) as [h3 H3]; [vm_compute; reflexivity|].
  exists h1, h2, h3.
  apply (session_command_arrives calm calm calm 1 (λ _, Exit 1) (bs "/work/f/rootfs") 77 true (bs "ann") demo_words
           demo_argv1 demo_argv2 demo_argv3 h1 h2 h3); [reflexivity|lia|discriminate|vm_compute; reflexivity|exact H1|exact H2|exact H3].
Defined.

(** Entering the mount namespace changes nothing in either stage. *)
Theorem nsenter_changes_nothing K args e :
  e ∈ history K (cmdNsenter args) ∨ e ∈ history K (cmdNsenterStage2 args) → changed e = None.
Proof.
  assert (Hexit : ∀ e code, e ∈ history K (Exit (A:=unit) code) → changed e = None).
  { intros e0 code. cbn. rewrite elem_of_cons. intros [-> | H]; [done|]. by apply elem_of_nil in H. }
  intros [He|He].
  - unfold cmdNsenter in He. destruct (ns_args args no_ns_flags) as [fl|]; [|by eapply Hexit].
    apply list_elem_of_split in He as (later & before & He).
    by apply (keeps_history (stage1_rule fl) K _ _ (nsenter_keeps fl) later e before He).
  - unfold cmdNsenterStage2 in He. destruct (stage2_opts args no_stage2) as [fl|]; [|by eapply Hexit].
    apply list_elem_of_split in He as (later & before & He).
    by apply (keeps_history (stage2_rule fl) K _ _ (stage2_keeps fl) later e before He).
Qed.

(** A command without [--chroot=] is executed with the descriptor's option in front of its
    own name: [ts nsenter -t 77 -m -- /bin/ls -l] runs [/bin/ls] with [--chroot-fd=5] for a
    name and its own path for a first argument. *)
Lemma nsenter_shifts_plain_commands :
  let args := [bs "nsenter"; bs "-t"; bs "77"; bs "-m"; bs "--"; bs "/bin/ls"; bs "-l"] in
  first_start calm (demo_ts (drop 1 (default [] (first_start calm (demo_ts args)))))
    = Some [bs "--chroot-fd=5"; bs "/bin/ls"; bs "-l"].
Proof. vm_compute. reflexivity. Qed.
