(* ===== verification/CreateFrame.v ===== *)
(** * Creating a frame ([handleCreate] and what it calls, [src/cmd/thundersnapd/main.go])

    A request names snaps, or live frames, for the root, home and work of a new frame and
    perhaps a ref for it. The handler checks, records the frame in its store, assembles the
    file system and binds the ref: the components [Login], [Frames], [Refs], [RootFs] and
    [SnapQueue] put together. *)

From Stdlib Require Import Strings.String.
From S2P Require Import GoSort Prelude GoStrings GoPath JsonStore FrameId Policy HostFs Subvols.
From S2P Require Refs Frames SnapFiles SnapQueue Login RootFs RefsHandlers Passwd Docker SubdirSnap.

Import Frames RefsHandlers.

(** ** The file system under the snap queue *)

(** What the queue asks of the volumes, on the host's files. Walking a capture is not
    needed here, but for that it does not crash. *)
Section volumes.
Context (env : fs_env) `{Btrfs}.
Context (walk : fs → gostring → list Indexer.node).

Definition host_volumes : SnapFiles.Volumes fs := {|
  SnapFiles.vol_snapshot := Snapshot;
  SnapFiles.vol_subtree := SubdirSnap.Snapshot env;
  SnapFiles.vol_create := CreateSubvol;
  SnapFiles.vol_delete := DeleteSubvol;
  SnapFiles.vol_is := IsSubvolume;
  SnapFiles.vol_stat := λ s p, match Stat s p with Some _ => StatOk | None => StatNotExist end;
  SnapFiles.vol_is_dir := λ s p, bool_decide (stat_is_dir s p = Some true);
  SnapFiles.vol_readdir := ReadDir;
  SnapFiles.vol_rename := SubdirSnap.Rename env;
  SnapFiles.vol_remove_all := RemoveAll env;
  SnapFiles.vol_chown := λ s p, Chown s p Passwd.ThundersnapUID Passwd.ThundersnapGID;
  SnapFiles.vol_lexists := λ s p, match Lstat s p with Some _ => true | None => false end;
  SnapFiles.vol_symlink := λ s target p, (Symlink env s target p).1;
  SnapFiles.vol_walk := λ s p, filter (λ n, Indexer.calm n = true) (walk s p);
  SnapFiles.vol_walk_calm := λ s p, SnapFiles.calm_only (walk s p);
|}.
End volumes.

(** ** Requests and answers *)

Record CreateRequest := MkCreate {
  SnapshotSpec : gostring;
  RefName : gostring;
  SnapshotID : gostring;
  RootfsSnap : gostring;
  HomeSnap : gostring;
  WorkSnap : gostring;
  rq_Isolation : gostring;
  RootfsFrame : gostring;
  HomeFrame : gostring;
  WorkFrame : gostring;
}.
Definition set_spec (r : CreateRequest) (spec : gostring) : CreateRequest :=
  MkCreate spec (RefName r) (SnapshotID r) (RootfsSnap r) (HomeSnap r) (WorkSnap r) (rq_Isolation r)
    (RootfsFrame r) (HomeFrame r) (WorkFrame r).

Inductive create_reply :=
| CrPlain                                    (** the text of [http.Error] *)
| CrError                                    (** status "error" and a message *)
| CrOk (uuid path : gostring).               (** status "ok" *)
Definition create_response : Type := Z * create_reply.

(** One line of a streamed answer. *)
Inductive create_event := CrProgress (message : gostring) | CrResult (r : create_reply).

(** ** The daemon's state *)

Record world := MkWorld { c_fs : fs; c_disk : disk; c_queue : SnapQueue.snapQueue }.
Definition set_fs (w : world) (s : fs) : world := MkWorld s (c_disk w) (c_queue w).
Definition set_disk (w : world) (d : disk) : world := MkWorld (c_fs w) d (c_queue w).

(** What the surroundings decide: the kernel's files, failing calls, the clock, random
    numbers for the new identity and for captures. *)
Record environment := MkEnvironment {
  e_fs : fs_env;
  e_os : osenv;
  e_now : Z;
  e_new : option ID;
  e_rands : nat → nat → option (list byte);
}.

Section create.
Context `{UUIDs} `{TempNames} `{Btrfs} `{RootFs.Cp} {text_ok : gostring → Prop} {time_ok : Z → Prop}
  `{!Json SnapMeta (meta_ok text_ok)} `{!Json Frame (frame_ok text_ok time_ok)} `{!Json Refs.Ref (Refs.ref_ok text_ok time_ok)}.
Context (sv : server) (snapsDir : gostring) (dir_size : node → Z).
Context (walk : fs → gostring → list Indexer.node).

(** *** Assembling *)

(** [cloneLiveFrameComponents]. *)
Definition cloneLiveFrameComponents (env : environment) (w : world) (dst : gostring) (meta : Frame)
    (sources : gostring * gostring * gostring) : world * bool :=
  let V := host_volumes (e_fs env) walk in
  let '(rootSource, homeSource, workSource) := sources in
  match MkdirAll (e_fs env) (c_fs w) (Dir dst) 493 with
  | (s, false) => (set_fs w s, false)
  | (s, true) =>
      let '(q, sw, ok) := SnapQueue.clone_live_locked (H0 := V) snapsDir (RootFs.setupMinimalRootfs (e_fs env)) (e_os env) (e_rands env)
                            (c_queue w) (SnapFiles.MkWorld (c_disk w) s) dst meta rootSource homeSource workSource in
      let w := MkWorld (SnapFiles.w_vols sw) (SnapFiles.w_disk sw) q in
      if negb ok then (w, false)
      else
        match writeFrameSidecar (e_os env) (c_disk w) dst meta with
        | (d, Some _) => (set_disk w d, false)
        | (d, None) =>
            let w := set_disk w d in
            let s := RootFs.finalizeFrameRootfs (e_fs env) (c_fs w) dst in
            let idPath := JoinPath dst (bs "id") in
            match SnapQueue.removeComponent (H0 := V) s idPath with
            | (s, false) => (set_fs w s, false)
            | (s, true) => let '(s, ok) := CreateSubvol s idPath in (set_fs w s, ok)
            end
        end
  end.

Definition no_sources (sources : gostring * gostring * gostring) : bool := bool_decide (sources = ([], [], [])).

Definition buildFrameFS (env : environment) (w : world) (framePath : gostring) (meta : Frame)
    (sources : gostring * gostring * gostring) : world * bool :=
  let '(w, ok) :=
    if negb (no_sources sources) then cloneLiveFrameComponents env w framePath meta sources
    else
      let '(rw, e) := RootFs.ensureFrameFS (e_fs env) snapsDir (e_os env) (RootFs.MkWorld (c_fs w) (c_disk w)) framePath meta in
      (MkWorld (RootFs.w_fs rw) (RootFs.w_disk rw) (c_queue w), bool_decide (e = None)) in
  if negb ok then (w, false)
  else (set_fs w (RootFs.copyTsBinary (e_fs env) (s_fs sv) dir_size (c_fs w) framePath).1, true).

(** *** The request *)

Definition own_frames (user : gostring) : Store := namespaceFrameStore sv user.
Definition own_refs (user : gostring) : Refs.Store := namespaceRefStore sv user.
Definition frame_path (user : gostring) (uuid : ID) : gostring := framePathForNamespaceUUID (s_fs sv) user uuid.

(** [parseSourceFrames]: the paths of the frames that are named, if all are there. *)
Definition source_path (env : environment) (w : world) (user value : gostring) : option gostring :=
  if bool_decide (value = []) then Some []
  else
    id ← Parse value;
    if Frames.Exists (e_os env) (own_frames user) (c_disk w) id then Some (frame_path user id) else None.
Definition parseSourceFrames (env : environment) (w : world) (user : gostring) (req : CreateRequest)
    : option (gostring * gostring * gostring) :=
  r ← source_path env w user (RootfsFrame req);
  h ← source_path env w user (HomeFrame req);
  k ← source_path env w user (WorkFrame req);
  Some (r, h, k).

Definition create_error (w : world) (code : Z) : world * create_response := (w, (code, CrError)).

(** A ref that cannot be made is logged only. *)
Definition bind_ref (env : environment) (w : world) (user name : gostring) (uuid : ID) : world :=
  if bool_decide (name ≠ [])
  then set_disk w (Refs.Create (e_os env) (e_now env) (own_refs user) (c_disk w) name uuid).1.2 else w.

(** The checks that come before anything is done: the answer to a request that fails
    them, or what is to be made of one that does not. *)
Definition admit_create (env : environment) (w : world) (req : CreateRequest) : (Z * create_reply) + (gostring * Frame) :=
  match namespaceFromRootFS (s_fs sv) (s_root sv) with
  | None => inl (StatusInternalServerError, CrError)
  | Some user =>
      let '(rootfsSpec, homeSpec, workSpec) := Login.parseFrameSpec (SnapshotSpec req) in
      if bool_decide (RootFs.bad_snap_id [rootfsSpec; homeSpec; workSpec] ≠ None) then inl (StatusBadRequest, CrError)
      else
        let '(isBlank, isExplicitNil) := Login.hasBlankRootfs (SnapshotSpec req) in
        if isBlank && negb isExplicitNil then inl (StatusBadRequest, CrError)
        else if negb isBlank && bool_decide (Stat (c_fs w) (JoinPath snapsDir rootfsSpec) = None) then inl (StatusNotFound, CrError)
        else if bool_decide (RefName req ≠ []) && Refs.Exists (e_os env) (own_refs user) (c_disk w) (RefName req)
        then inl (StatusConflict, CrError)
        else inr (user, MkFrame rootfsSpec homeSpec workSpec [] (rq_Isolation req) [] 0)
  end.

(** The stream after the headers: a snap that is missing would be downloaded first. *)
Definition create_streaming (download : world → gostring → world * option bool) (env : environment) (w : world) (req : CreateRequest)
    (framePath : gostring) (meta : Frame) (uuid : ID) (user : gostring) : world * list create_event :=
  let finish (w : world) (before : list create_event) :=
    let creating := before ++ [CrProgress (bs "Creating frame...")] in
    match parseSourceFrames env w (Docker.Base (Dir framePath)) req with
    | None => (w, creating ++ [CrResult CrError])
    | Some sources =>
        match buildFrameFS env w framePath meta sources with
        | (w, false) => (w, creating ++ [CrResult CrError])
        | (w, true) => (bind_ref env w user (RefName req) uuid, creating ++ [CrResult (CrOk (String_ uuid) framePath)])
        end
    end in
  let '(isBlank, _) := Login.hasBlankRootfs (SnapshotSpec req) in
  if negb isBlank && bool_decide (RootfsFrame req = [])
     && bool_decide (Stat (c_fs w) (JoinPath snapsDir (Rootfs meta)) = None)
  then
    let asked := [CrProgress (bs "Snapshot " ++ Rootfs meta ++ bs " not found locally, downloading from mesh peers...")] in
    match download w (Rootfs meta) with
    | (w, None) => (w, asked ++ [CrResult CrError])
    | (w, Some alreadyExists) =>
        finish w (if alreadyExists then asked else asked ++ [CrProgress (bs "Downloaded snapshot from mesh peer")])
    end
  else finish w [].

(** The frame is recorded first; [None] for an identity is a failure of the generator. *)
Definition record_frame (env : environment) (w : world) (req : CreateRequest) (user : gostring) (meta : Frame)
    : world * (Z * create_reply + (gostring * gostring * gostring) * ID * Frame) :=
  match e_new env with
  | None => (w, inl (StatusInternalServerError, CrError))
  | Some uuid =>
      match parseSourceFrames env w user req with
      | None => (w, inl (StatusBadRequest, CrError))
      | Some sources =>
          match Frames.Create (e_os env) (e_now env) (own_frames user) (c_disk w) uuid meta with
          | (_, d, Some _) => (set_disk w d, inl (StatusInternalServerError, CrError))
          | (_, d, None) =>
              (set_disk w d, inr (sources, uuid, if CreatedAt meta =? 0 then set_created meta (e_now env) else meta))
          end
      end
  end.

(** [handleCreateWithUUID], answered at once. *)
Definition create_now (env : environment) (w : world) (req : CreateRequest) : world * create_response :=
  match admit_create env w req with
  | inl answer => (w, answer)
  | inr (user, meta) =>
      match record_frame env w req user meta with
      | (w, inl answer) => (w, answer)
      | (w, inr (sources, uuid, meta)) =>
          let framePath := frame_path user uuid in
          match buildFrameFS env w framePath meta sources with
          | (w, false) => create_error w StatusInternalServerError
          | (w, true) => (bind_ref env w user (RefName req) uuid, (StatusOK, CrOk (String_ uuid) framePath))
          end
      end
  end.

(** The same, streamed. *)
Definition create_stream (download : world → gostring → world * option bool) (env : environment) (w : world) (req : CreateRequest)
    : world * (create_response + list create_event) :=
  match admit_create env w req with
  | inl answer => (w, inl answer)
  | inr (user, meta) =>
      match record_frame env w req user meta with
      | (w, inl answer) => (w, inl answer)
      | (w, inr (_, uuid, meta)) =>
          let '(w, events) := create_streaming download env w req (frame_path user uuid) meta uuid user in (w, inr events)
      end
  end.

(** The legacy fields of a request fill in for its spec. *)
Definition legacy_spec (req : CreateRequest) : CreateRequest :=
  if bool_decide (SnapshotSpec req ≠ []) then req
  else set_spec req (if bool_decide (RootfsSnap req ≠ []) && bool_decide (SnapshotID req = []) then RootfsSnap req else SnapshotID req).

Definition handleCreate (download : world → gostring → world * option bool) (env : environment) (w : world)
    (method : gostring) (body : option CreateRequest) (stream : bool) : world * (create_response + list create_event) :=
  if negb (requireMethod method POST) then (w, inl (StatusMethodNotAllowed, CrPlain))
  else
    match body with
    | None => (w, inl (StatusBadRequest, CrPlain))
    | Some req =>
        let req := legacy_spec req in
        if bool_decide (SnapshotSpec req = []) then (w, inl (StatusBadRequest, CrError))
        else if stream then create_stream download env w req
        else let '(w, r) := create_now env w req in (w, inl r)
    end.
End create.

(** ** Changes of the disk *)

(** Files that hold no metadata. *)
Definition scrap (p : gostring) : Prop := ∀ f : gostring, p ≠ f ++ jsonc.

(** From one disk to the other only files of a kind have changed, and no directories but
    one and those above it were made. *)
Definition within (P : gostring → Prop) (dir : gostring) (d d' : disk) : Prop :=
  d_dirs d ⊆ d_dirs d' ∧ (∀ p, p ∈ d_dirs d' → p ∈ d_dirs d ∨ p ∈ with_parents [] dir)
  ∧ ∀ p, ¬ P p → d_files d' !! p = d_files d !! p.

Lemma within_refl P dir d : within P dir d d.
Proof. split; [done|split; [by left|done]]. Qed.
Lemma within_trans P dir d1 d2 d3 : within P dir d1 d2 → within P dir d2 d3 → within P dir d1 d3.
Proof.
  intros (A1 & B1 & C1) (A2 & B2 & C2). split; [set_solver|split].
  - intros p [Hp|Hp]%B2; [by apply B1|by right].
  - intros p Hp. by rewrite C2, C1.
Qed.
Lemma within_weaken (P Q : gostring → Prop) dir d d' : (∀ p, P p → Q p) → within P dir d d' → within Q dir d d'.
Proof. intros HPQ (A & B & C). split; [done|split; [done|]]. intros p Hp. apply C. auto. Qed.
Lemma within_only P dir d d' : SnapFiles.only_files P d d' → within P dir d d'.
Proof. intros [Hd Hf]. split; [by rewrite Hd|split; [rewrite Hd; by left|done]]. Qed.
Lemma within_mkdir (env : osenv) P dir d : within P dir d (JsonStore.MkdirAll env d dir).1.
Proof.
  unfold JsonStore.MkdirAll. destruct (mkdir_fails env dir); [apply within_refl|]. split; [set_solver|split; [|done]].
  cbn [fst d_dirs]. intros p [Hp|Hp]%elem_of_union; [right; by apply elem_of_list_to_set in Hp|by left].
Qed.

(** Saving a value writes in its directory. *)
Lemma within_save `{TempNames} {A ok} `{Json A ok} env dir d path prefix (a : A) :
  Dir path = dir → RefId.beneath dir path → within (RefId.beneath dir) dir d (save env d path prefix a).1.2.
Proof.
  intros Hdir Hb. unfold save. destruct (marshal a) as [data|]; [|apply within_refl].
  assert (Ht : RefId.beneath dir (temp_path d path prefix)).
  { unfold temp_path, RefId.beneath. rewrite Hdir. apply HasPrefix_true. eexists. cbn zeta. by rewrite <-!app_assoc. }
  assert (Hput : ∀ x d0, within (RefId.beneath dir) dir d d0 → within (RefId.beneath dir) dir d (put_file d0 (temp_path d path prefix) x)).
  { intros x d0 Hd0. eapply within_trans; [exact Hd0|]. by apply within_only, SnapFiles.put_file_only. }
  assert (Hclean : ∀ d0, within (RefId.beneath dir) dir d d0 → within (RefId.beneath dir) dir d (clean_up env d0 (temp_path d path prefix))).
  { intros d0 Hd0. unfold clean_up. destruct (cleanup_fails env); [done|]. eapply within_trans; [exact Hd0|].
    split; [done|split; [by left|]]. intros p Hp. cbn [d_files]. rewrite lookup_delete_ne; [done|]. intros <-. by apply Hp. }
  unfold replace_file. repeat case_match; cbn [fst snd]; auto using within_refl.
  split; [done|split; [by left|]]. intros p Hp. cbn [d_files].
  rewrite lookup_insert_ne by (intros <-; by apply Hp). rewrite lookup_delete_ne by (intros <-; by apply Hp).
  cbn [put_file d_files]. rewrite lookup_insert_ne by (intros <-; by apply Hp). done.
Qed.

(** A store whose files are of another kind keeps its values. *)
Lemma holds_within {K A} {ok : A → Prop} `{Countable K} `{!Json A ok} (path : K → gostring) (key_ok : K → Prop) P dir d d' m :
  holds (ok := ok) path key_ok d m → within P dir d d' →
  (∀ k, key_ok k → ¬ P (path k) ∧ path k ∉ with_parents [] dir) →
  holds (ok := ok) path key_ok d' m.
Proof.
  intros [Hm Hk] (Hd & Hd' & Hf) Hpath. split; [|done]. intros k Hkk.
  destruct (Hm k Hkk) as [Hn Hv], (Hpath k Hkk) as [HP Hp]. split.
  - by intros [?|?]%Hd'.
  - by rewrite Hf.
Qed.

(** *** Captures leave scrap only *)

Section captures.
Context `{SnapFiles.Volumes V} {text_ok : gostring → Prop} {time_ok : Z → Prop}
  `{!Json SnapMeta (meta_ok text_ok)} `{!Json Frame (frame_ok text_ok time_ok)}.
Context (snapsDir : gostring) (minimal : V → gostring → V * bool).

Lemma scrap_stamp (x : gostring) : scrap (x ++ SnapFiles.stamp) ∧ scrap ((x ++ SnapFiles.stamp) ++ bs ".tmp") ∧ scrap ((x ++ jsonc) ++ bs ".tmp").
Proof. split_and!; intros f; by destruct (SnapRecord.stamp_names x f) as (? & ? & ? & ? & _). Qed.

Lemma cleanup_scrap env cs : ∀ w : SnapFiles.world V,
  SnapFiles.only_files scrap (SnapFiles.w_disk w) (SnapFiles.w_disk (SnapQueue.cleanupCaptured env w cs)).
Proof.
  induction cs as [|c cs IH]; intros w; [done|]. cbn [SnapQueue.cleanupCaptured foldl].
  eapply SnapFiles.only_files_trans; [|apply IH]. cbn [SnapFiles.w_disk]. apply SnapFiles.os_Remove_only, scrap_stamp.
Qed.

Lemma capture_part_scrap env rand (w : SnapFiles.world V) cs path k taints base parent :
  SnapFiles.only_files scrap (SnapFiles.w_disk w)
    (SnapFiles.w_disk (SnapQueue.capture_part snapsDir env rand w cs path k taints base parent).1).
Proof.
  unfold SnapQueue.capture_part. destruct (negb _); [apply cleanup_scrap|]. destruct (SnapFiles.isDirEmpty _ _); [done|].
  destruct (SnapFiles.captureSubvol _ _ _ _ _) as [v [tmp|e|]]; cbn [fst]; [done| |done].
  by apply (cleanup_scrap env cs (SnapFiles.set_vols w v)).
Qed.

Lemma capture_scrap env rands q (w : SnapFiles.world V) rootFS sub :
  SnapFiles.only_files scrap (SnapFiles.w_disk w)
    (SnapFiles.w_disk (SnapQueue.captureSnapJobLocked snapsDir env rands q w rootFS sub).1.2).
Proof.
  unfold SnapQueue.captureSnapJobLocked. case_bool_decide as Hsub.
  - destruct (SnapQueue.Validate sub); [|done]. by destruct (SnapFiles.captureSubvol _ _ _ _ _) as [v [|e|]].
  - destruct (SnapFiles.captureSubvol _ _ _ _ _) as [v [tmp|e|]]; [|done..].
    match goal with |- context [SnapQueue.capture_part _ _ ?r ?w0 ?cs ?p SnapQueue.compHome ?t ?base ?pa] =>
      pose proof (capture_part_scrap env r w0 cs p SnapQueue.compHome t base pa) as H1;
      destruct (SnapQueue.capture_part snapsDir env r w0 cs p SnapQueue.compHome t base pa) as [w1 [cs1|e|]] end;
      cbn [fst snd] in *; [|done..].
    match goal with |- context [SnapQueue.capture_part _ _ ?r ?w0 ?cs ?p SnapQueue.compWork ?t ?base ?pa] =>
      pose proof (capture_part_scrap env r w0 cs p SnapQueue.compWork t base pa) as H2;
      destruct (SnapQueue.capture_part snapsDir env r w0 cs p SnapQueue.compWork t base pa) as [w2 [cs2|e|]] end;
      cbn [fst snd] in *; by eapply SnapFiles.only_files_trans.
Qed.

Lemma sources_scrap env rands sources : ∀ q (w : SnapFiles.world V) n taken,
  SnapFiles.only_files scrap (SnapFiles.w_disk w)
    (SnapFiles.w_disk (SnapQueue.capture_sources snapsDir env rands q w n sources taken).1.2).
Proof.
  induction sources as [|s sources IH]; intros q w n taken; cbn [SnapQueue.capture_sources]; [done|].
  destruct (_ || _); [apply IH|]. pose proof (capture_scrap env (rands n) q w s []) as Hc.
  destruct (SnapQueue.captureSnapJobLocked _ _ _ _ _ _ _) as [[q1 w1] [i|e|]]; cbn [fst snd] in *; [|done..].
  eapply SnapFiles.only_files_trans; [exact Hc|apply IH].
Qed.

Lemma clone_locked_disk env rands q (w : SnapFiles.world V) dst meta s1 s2 s3 :
  within scrap (Dir dst) (SnapFiles.w_disk w)
    (SnapFiles.w_disk (SnapQueue.clone_live_locked snapsDir minimal env rands q w dst meta s1 s2 s3).1.2).
Proof.
  unfold SnapQueue.clone_live_locked. pose proof (within_mkdir env scrap (Dir dst) (SnapFiles.w_disk w)) as Hm.
  destruct (JsonStore.MkdirAll env (SnapFiles.w_disk w) (Dir dst)) as [d []]; cbn [negb fst] in *; [|done].
  pose proof (sources_scrap env rands [s1; s2; s3] q (SnapFiles.set_disk w d) 0 ∅) as Hc.
  assert (Hw : ∀ d', SnapFiles.only_files scrap d d' → within scrap (Dir dst) (SnapFiles.w_disk w) d').
  { intros d' Ho. eapply within_trans; [exact Hm|]. by apply within_only. }
  destruct (SnapQueue.capture_sources _ _ _ _ _ _ _ _) as [[q1 w1] [taken|]]; cbn [fst snd] in *; [|by apply Hw].
  destruct (SnapQueue.live_root _ _ _ _ _ _ _ _) as [v []]; [|by apply Hw].
  destruct (SnapQueue.live_part _ _ _ _ _ _ _ _) as [v1 []]; [|by apply Hw].
  destruct (SnapQueue.live_part _ _ _ _ _ _ _ _) as [v2 ok]. by apply Hw.
Qed.
End captures.

(** ** The stores of a namespace *)

Section records.
Context `{UUIDs} `{TempNames} `{Btrfs} `{RootFs.Cp} {text_ok : gostring → Prop} {time_ok : Z → Prop}
  `{!Json SnapMeta (meta_ok text_ok)} `{!Json Frame (frame_ok text_ok time_ok)} `{!Json Refs.Ref (Refs.ref_ok text_ok time_ok)}.
Context (sv : server) (snapsDir : gostring) (dir_size : node → Z).
Context (walk : fs → gostring → list Indexer.node).
Context (base : list gostring) (ns : gostring) (Hhome : at_home sv base ns).

Definition frames_held (d : disk) (m : gmap ID Frame) : Prop := Frames.on_disk (text_ok := text_ok) (time_ok := time_ok) (own_frames sv ns) d m.
Definition refs_on (d : disk) (r : gmap gostring Refs.Ref) : Prop := 
  Refs.on_disk (text_ok := text_ok) (time_ok := time_ok) (own_refs sv ns) d r ∧ (r ≠ ∅ → Refs.refsDir (own_refs sv ns) ∈ d_dirs d).

Lemma frames_placed : Frames.fsDir (own_frames sv ns) = abs_path (base ++ [bs "fs"; ns]) ∧ Forall proper (base ++ [bs "fs"; ns]) ∧ base ++ [bs "fs"; ns] ≠ [].
Proof.
  destruct Hhome as [Hd _ Hb Hne Hns _]. unfold own_frames, namespaceFrameStore, Frames.NewNamespaceStore. rewrite Hd.
  pose proof (Frames.fs_placed base ns Hb Hne (or_intror Hns)) as Hp. cbv zeta in Hp.
  rewrite bool_decide_eq_false_2 in Hp by apply Hns. exact Hp.
Qed.
Lemma refs_placed : Refs.placed (own_refs sv ns) (base ++ [bs "refs"; ns]).
Proof. by apply refs_base. Qed.

Lemma frame_path_snoc u : length u = 16%nat → frame_path sv ns u = Frames.fsDir (own_frames sv ns) ++ slash :: String_ u.
Proof.
  intros Hu. destruct frames_placed as (Hf & _ & _). rewrite Hf. destruct Hhome as [_ Hfs Hb Hne Hns _].
  unfold frame_path. rewrite Hfs. destruct (frame_directory base ns u Hb Hne Hns Hu) as (-> & _).
  change (base ++ [bs "fs"; ns; String_ u]) with (base ++ [bs "fs"; ns] ++ [String_ u]). rewrite app_assoc.
  apply abs_path_snoc. by destruct base.
Qed.
Lemma sidecar_path u : length u = 16%nat → frame_path sv ns u ++ jsonc = Frames.metaPath (own_frames sv ns) u.
Proof.
  intros Hu. destruct frames_placed as (Hf & Hp & Hne). rewrite frame_path_snoc, (Frames.metaPath_snoc _ _ Hf Hp Hne) by done.
  by rewrite <-app_assoc.
Qed.
Lemma frame_path_dir u : length u = 16%nat → Dir (frame_path sv ns u) = Frames.fsDir (own_frames sv ns).
Proof.
  intros Hu. destruct frames_placed as (Hf & Hp & Hne). rewrite frame_path_snoc by done. rewrite Hf, <-abs_path_snoc by done.
  apply Dir_abs; [done|done|]. by apply uuid_element.
Qed.

Lemma frame_path_user u : length u = 16%nat → Docker.Base (Dir (frame_path sv ns u)) = ns.
Proof.
  intros Hu. destruct frames_placed as (Hf & Hp & Hne). destruct Hhome as [_ _ _ _ Hns _]. rewrite frame_path_dir, Hf by done.
  unfold Docker.Base. rewrite bool_decide_eq_false_2 by (unfold abs_path; by destruct base). unfold abs_path.
  change [bs "fs"; ns] with ([bs "fs"] ++ [ns]) in *. rewrite app_assoc in *.
  rewrite Split_slash, Split_join_proper by (done || by destruct base).
  rewrite filter_cons_False, Docker.filter_proper, last_snoc; [done|done|]. intros Hn. by apply Hn.
Qed.

(** The two stores are apart. *)
Lemma apart_dirs : (length (Refs.refsDir (own_refs sv ns)) = length (Frames.fsDir (own_frames sv ns)) + 2)%nat.
Proof.
  destruct frames_placed as (-> & _ & _). rewrite (Refs.pl_dir _ _ refs_placed). destruct Hhome as [_ _ _ Hne _ _].
  change [bs "fs"; ns] with ([bs "fs"] ++ [ns]). change [bs "refs"; ns] with ([bs "refs"] ++ [ns]).
  rewrite !app_assoc, !abs_path_snoc by (try done; by destruct base).
  rewrite !length_app. cbn. lia.
Qed.
Lemma refs_apart n : Refs.name_ok n →
  ¬ RefId.beneath (Frames.fsDir (own_frames sv ns)) (Refs.refPath (own_refs sv ns) n)
  ∧ Refs.refPath (own_refs sv ns) n ∉ with_parents [] (Frames.fsDir (own_frames sv ns)).
Proof.
  intros Hn. destruct frames_placed as (Hf & Hp & Hne). pose proof refs_placed as Hr. split.
  - rewrite Hf, (Refs.refPath_eq _ _ Hr n Hn). rewrite RefId.beneath_abs; [|done|done| |by destruct base].
    + intros (e & rest & Heq). rewrite <-!app_assoc in Heq. apply app_inv_head in Heq. discriminate Heq.
    + apply Forall_app_2; [apply Hr|]. apply Forall_cons_2; [|apply Forall_nil_2].
      apply Refs.file_name_proper; by apply Refs.valid_name_plain.
  - intros Hin%with_parents_length. rewrite (Refs.refPath_snoc _ _ Hr n Hn) in Hin. pose proof apart_dirs.
    rewrite length_app in Hin. cbn in Hin. lia.
Qed.
Lemma metas_apart u : Frames.id_ok u →
  ¬ RefId.beneath (Refs.refsDir (own_refs sv ns)) (Frames.metaPath (own_frames sv ns) u)
  ∧ Frames.metaPath (own_frames sv ns) u ∉ with_parents [] (Refs.refsDir (own_refs sv ns)).
Proof.
  intros Hu. destruct frames_placed as (Hf & Hp & Hne). pose proof refs_placed as Hr. split.
  - rewrite (Refs.pl_dir _ _ Hr). unfold Frames.metaPath. rewrite Hf, JoinPath_one by (done || by apply Frames.meta_name_proper).
    rewrite RefId.beneath_abs; [|apply Hr|apply Hr| |by destruct base].
    + intros (e & rest & Heq). rewrite <-!app_assoc in Heq. apply app_inv_head in Heq. discriminate Heq.
    + apply Forall_app_2; [done|]. apply Forall_cons_2; [by apply Frames.meta_name_proper|apply Forall_nil_2].
  - intros Hin%with_parents_length. rewrite (Frames.metaPath_snoc _ _ Hf Hp Hne u Hu) in Hin. pose proof apart_dirs.
    rewrite !length_app in Hin. cbn in Hin. rewrite length_app in Hin. cbn in Hin. lia.
Qed.

(** *** What each step does to the stores *)

Lemma meta_in_dir u : length u = 16%nat →
  Dir (Frames.metaPath (own_frames sv ns) u) = Frames.fsDir (own_frames sv ns)
  ∧ RefId.beneath (Frames.fsDir (own_frames sv ns)) (Frames.metaPath (own_frames sv ns) u).
Proof.
  intros Hu. destruct frames_placed as (Hf & Hp & Hne). split; [by apply (Frames.metaPath_dir _ _ Hf Hp Hne)|].
  rewrite (Frames.metaPath_snoc _ _ Hf Hp Hne u Hu). unfold RefId.beneath. apply HasPrefix_true. eexists. by rewrite <-app_assoc.
Qed.
Lemma ref_in_dir n : Refs.name_ok n →
  Dir (Refs.refPath (own_refs sv ns) n) = Refs.refsDir (own_refs sv ns)
  ∧ RefId.beneath (Refs.refsDir (own_refs sv ns)) (Refs.refPath (own_refs sv ns) n).
Proof.
  intros Hn. split; [by apply (Refs.refPath_dir _ _ refs_placed)|].
  rewrite (Refs.refPath_snoc _ _ refs_placed n Hn). unfold RefId.beneath. apply HasPrefix_true. eexists. by rewrite <-app_assoc.
Qed.

Abbreviation fs_dir := (Frames.fsDir (own_frames sv ns)).
Abbreviation refs_dir := (Refs.refsDir (own_refs sv ns)).

Lemma Create_within (os : osenv) now d u f : length u = 16%nat →
  within (RefId.beneath fs_dir) fs_dir d (Frames.Create os now (own_frames sv ns) d u f).1.2.
Proof.
  intros Hu. unfold Frames.Create. destruct (IsZero u); [apply within_refl|].
  pose proof (within_mkdir os (RefId.beneath fs_dir) fs_dir d) as Hm.
  destruct (JsonStore.MkdirAll os d fs_dir) as [d1 []]; cbn [negb fst snd] in *; [|done].
  destruct (os_Stat _ _ _); [done|..]; destruct (meta_in_dir u Hu) as [Hd Hb]; unfold Frames.Frames_write;
    match goal with |- context [save os d1 ?p ?x ?g] => pose proof (within_save os fs_dir d1 p x g Hd Hb) as Hs; destruct (save os d1 p x g) as [[steps d2] e] end;
    cbn [fst snd] in *; by eapply within_trans.
Qed.
Lemma Update_within (os : osenv) d u f : length u = 16%nat →
  within (RefId.beneath fs_dir) fs_dir d (Frames.Update os (own_frames sv ns) d u f).1.2.
Proof.
  intros Hu. unfold Frames.Update. destruct (os_Stat _ _ _); [|apply within_refl..]. destruct (meta_in_dir u Hu) as [Hd Hb]. by apply within_save.
Qed.
Lemma ref_Create_within (os : osenv) now d n u :
  within (RefId.beneath refs_dir) refs_dir d (Refs.Create os now (own_refs sv ns) d n u).1.2.
Proof.
  unfold Refs.Create. destruct (Refs.ValidateName n) eqn:Hn; [apply within_refl|].
  pose proof (within_mkdir os (RefId.beneath refs_dir) refs_dir d) as Hm.
  destruct (JsonStore.MkdirAll os d refs_dir) as [d1 []]; cbn [negb fst snd] in *; [|done].
  destruct (os_Stat _ _ _); [done|..]; destruct (ref_in_dir n Hn) as [Hd Hb]; unfold Refs.Refs_write;
    match goal with |- context [save os d1 ?p ?x ?g] => pose proof (within_save os refs_dir d1 p x g Hd Hb) as Hs; destruct (save os d1 p x g) as [[steps d2] e] end;
    cbn [fst snd] in *; by eapply within_trans.
Qed.

(** Scrap is no frame's metadata and no ref. *)
Lemma frames_scrap d d' m : frames_held d m → within scrap fs_dir d d' → frames_held d' m.
Proof.
  intros Hm Hw. destruct frames_placed as (Hf & Hp & Hne). eapply holds_within; [exact Hm|exact Hw|].
  intros u Hu. split.
  - intros Hs. rewrite <-sidecar_path in Hs by done. by apply (Hs (frame_path sv ns u)).
  - intros Hin. by apply (Frames.metaPath_not_parent _ _ Hf Hp Hne u Hu), elem_of_list_to_set.
Qed.
Definition ours (p : gostring) : Prop := scrap p ∨ RefId.beneath fs_dir p.
Lemma refs_ours d d' r : refs_on d r → within ours fs_dir d d' → refs_on d' r.
Proof.
  intros [Hr Hd] Hw. split; [|intros Hne; by apply Hw, Hd].
  eapply holds_within; [exact Hr|exact Hw|]. intros n Hn. destruct (refs_apart n Hn) as [Hb Hp].
  split; [|done]. intros [Hs|?]; [|done]. rewrite (Refs.refPath_snoc _ _ refs_placed n Hn) in Hs.
  apply (Hs (refs_dir ++ slash :: n)). by rewrite <-app_assoc.
Qed.

(** The sidecar of a frame is its metadata in the store. *)
Lemma sidecar_step d m u f : length u = 16%nat → frame_ok text_ok time_ok f → frames_held d m →
  ∃ d', writeFrameSidecar no_fault d (frame_path sv ns u) f = (d', None)
    ∧ frames_held d' (<[u := f]> m) ∧ within ours fs_dir d d'.
Proof.
  intros Hu Hok Hm. destruct (json_law f Hok) as (data & std & Hmar & Hs & Hun). unfold writeFrameSidecar. rewrite Hmar.
  cbn [write_fails no_fault]. eexists. split; [reflexivity|]. destruct frames_placed as (Hf & Hp & Hne). split.
  - set (d0 := MkDisk (delete ((frame_path sv ns u ++ jsonc) ++ bs ".tmp") (d_files d)) (d_dirs d)).
    assert (Hm0 : frames_held d0 m).
    { eapply frames_scrap; [exact Hm|]. apply within_only. split; [done|]. intros p Hsc. cbn [d0 d_files].
      rewrite lookup_delete_ne; [done|]. intros <-. apply Hsc, scrap_stamp. }
    apply (holds_insert _ _ (Frames.metaPath_inj _ _ Hf Hp Hne) d0 _ m u f data std Hm0 Hu Hok Hs Hun); [reflexivity|].
    intros q. unfold d0. cbn [d_files]. by rewrite <-sidecar_path by done.
  - split; [done|split; [by left|]]. intros p Hp'. cbn [d_files]. destruct (meta_in_dir u Hu) as [_ Hb].
    rewrite lookup_insert_ne. 2:{ rewrite sidecar_path by done. intros <-. apply Hp'. by right. }
    rewrite lookup_delete_ne; [done|]. intros <-. apply Hp'. left. apply scrap_stamp.
Qed.
Lemma stamp_scrap d path id : within scrap fs_dir d (SnapFiles.writeStampFile no_fault d path id).1.
Proof.
  apply within_only. unfold SnapFiles.writeStampFile. cbn [write_fails no_fault].
  destruct (scrap_stamp path) as (H1' & H2' & _).
  eapply SnapFiles.only_files_trans; [by apply SnapFiles.put_file_only|]. by apply SnapFiles.os_Rename_only.
Qed.
Lemma ours_scrap d d' : within scrap fs_dir d d' → within ours fs_dir d d'.
Proof. apply within_weaken. by left. Qed.

(** Assembling the file system records the frame, at the latest when it succeeds. *)
Definition recorded_as (w : world) (meta : Frame) (sources : gostring * gostring * gostring) : Frame :=
  if no_sources sources then RootFs.tainted snapsDir no_fault (c_disk w) meta else meta.

Lemma build_records env w u meta sources m :
  e_os env = no_fault → length u = 16%nat → frame_ok text_ok time_ok meta →
  frame_ok text_ok time_ok (RootFs.tainted snapsDir no_fault (c_disk w) meta) → frames_held (c_disk w) m →
  let '(w', ok) := buildFrameFS sv snapsDir dir_size walk env w (frame_path sv ns u) meta sources in
  within ours fs_dir (c_disk w) (c_disk w')
  ∧ (frames_held (c_disk w') m ∧ ok = false ∨ frames_held (c_disk w') (<[u := recorded_as w meta sources]> m)).
Proof.
  intros Hos Hu Hok Htaint Hm. unfold buildFrameFS, recorded_as. destruct (no_sources sources); cbn [negb].
  - unfold RootFs.ensureFrameFS. rewrite Hos. destruct (RootFs.bad_snap_id _); [split; [apply within_refl|by left]|].
    cbn [RootFs.w_fs RootFs.w_disk].
    destruct (MkdirAll (e_fs env) (c_fs w) (Dir (frame_path sv ns u)) 493) as [s []]; [|split; [apply within_refl|by left]].
    destruct (RootFs.assemble (e_fs env) snapsDir s (frame_path sv ns u) (Rootfs meta) (F_Home meta) (Work meta)) as [s1 [e|]]; [split; [apply within_refl|by left]|].
    destruct (sidecar_step (c_disk w) m u _ Hu Htaint Hm) as (d1 & -> & Hm1 & Hw1). cbn [fst].
    pose proof (stamp_scrap d1 (frame_path sv ns u) (Rootfs (RootFs.tainted snapsDir no_fault (c_disk w) meta))) as Hst.
    destruct (RootFs.id_component _ _ _) as [s2 e]. cbn [RootFs.w_disk RootFs.w_fs].
    assert (Hd : within ours fs_dir (c_disk w) (SnapFiles.writeStampFile no_fault d1 (frame_path sv ns u) (Rootfs (RootFs.tainted snapsDir no_fault (c_disk w) meta))).1).
    { eapply within_trans; [exact Hw1|by apply ours_scrap]. }
    destruct (bool_decide (e = None)); cbn [negb c_disk set_fs]; (split; [exact Hd|right; by eapply frames_scrap]).
  - destruct sources as [[rs hs] ks]. unfold cloneLiveFrameComponents. rewrite Hos.
    destruct (MkdirAll (e_fs env) (c_fs w) (Dir (frame_path sv ns u)) 493) as [s []]; [|split; [apply within_refl|by left]].
    match goal with |- context [SnapQueue.clone_live_locked (H0 := ?V) ?sd ?mi ?e ?ra ?q ?sw ?ds ?me ?a ?b ?c] =>
      pose proof (clone_locked_disk (H := V) sd mi e ra q sw ds me a b c) as Hc;
      destruct (SnapQueue.clone_live_locked (H0 := V) sd mi e ra q sw ds me a b c) as [[q1 sw1] []] end;
      cbn [fst snd SnapFiles.w_disk negb c_disk] in *; rewrite frame_path_dir in Hc by done;
      [|split; [by apply ours_scrap|left; split; [by eapply frames_scrap|done]]].
    assert (Hm1 : frames_held (SnapFiles.w_disk sw1) m) by by eapply frames_scrap.
    destruct (sidecar_step (SnapFiles.w_disk sw1) m u meta Hu Hok Hm1) as (d1 & -> & Hm2 & Hw1).
    assert (Hd : within ours fs_dir (c_disk w) d1) by (eapply within_trans; [by apply ours_scrap|exact Hw1]).
    destruct (SnapQueue.removeComponent _ _) as [s1 []]; [|split; [exact Hd|by right]].
    destruct (CreateSubvol s1 _) as [s2 []]; (split; [exact Hd|by right]).
Qed.

(** *** The request *)

Lemma Exists_spec d m u : frames_held d m → length u = 16%nat →
  Frames.Exists no_fault (own_frames sv ns) d u = bool_decide (is_Some (m !! u)).
Proof.
  intros Hm Hu. unfold Frames.Exists, os_Stat. cbn [stat_fails no_fault].
  pose proof (holds_taken _ _ d m u Hm Hu) as Ht. by repeat case_bool_decide; tauto.
Qed.

Definition grown (m m' : gmap ID Frame) : Prop := ∀ u, is_Some (m !! u) → is_Some (m' !! u).

(** The sources a request names are found again once more frames are there. *)
Lemma sources_again env w w' req m m' sources : e_os env = no_fault →
  frames_held (c_disk w) m → frames_held (c_disk w') m' → grown m m' →
  parseSourceFrames sv env w ns req = Some sources → parseSourceFrames sv env w' ns req = Some sources.
Proof.
  intros Hos Hm Hm' Hg.
  assert (Hone : ∀ v p, source_path sv env w ns v = Some p → source_path sv env w' ns v = Some p).
  { intros v p. unfold source_path. case_bool_decide; [done|]. destruct (Parse v) as [u|] eqn:Hp; [|done]. cbn [mbind option_bind].
    pose proof (Parse_length _ _ Hp) as Hu. rewrite Hos, (Exists_spec _ m u Hm Hu), (Exists_spec _ m' u Hm' Hu).
    case_bool_decide as Hs; [|done]. rewrite bool_decide_eq_true_2; [done|]. by apply Hg. }
  unfold parseSourceFrames. destruct (source_path sv env w ns (RootfsFrame req)) eqn:Hs1; [|done]. rewrite (Hone _ _ Hs1).
  cbn [mbind option_bind]. destruct (source_path sv env w ns (HomeFrame req)) eqn:Hs2; [|done]. rewrite (Hone _ _ Hs2).
  cbn [mbind option_bind]. destruct (source_path sv env w ns (WorkFrame req)) eqn:Hs3; [|done]. by rewrite (Hone _ _ Hs3).
Qed.

Context (env : environment) (Hos : e_os env = no_fault) (Hnow : time_ok (e_now env)) (Hzero : time_ok 0)
  (Hnew : ∀ u, e_new env = Some u → length u = 16%nat).

Lemma record_step w req meta m r : frame_ok text_ok time_ok meta → CreatedAt meta = 0 →
  frames_held (c_disk w) m → refs_on (c_disk w) r →
  match record_frame sv env w req ns meta with
  | (w', inl (code, reply)) =>
      (code = StatusBadRequest ∧ w' = w ∨ code = StatusInternalServerError) ∧ reply = CrError
      ∧ frames_held (c_disk w') m ∧ refs_on (c_disk w') r
  | (w', inr (sources, u, f)) =>
      e_new env = Some u ∧ m !! u = None ∧ f = set_created meta (e_now env)
      ∧ parseSourceFrames sv env w ns req = Some sources
      ∧ frames_held (c_disk w') (<[u := f]> m) ∧ refs_on (c_disk w') r
      ∧ within (RefId.beneath fs_dir) fs_dir (c_disk w) (c_disk w') ∧ c_fs w' = c_fs w ∧ c_queue w' = c_queue w
  end.
Proof.
  intros Hok Hc Hm Hr. unfold record_frame. destruct (e_new env) as [u|] eqn:Hu; [|by split; [right|]].
  destruct (parseSourceFrames sv env w ns req) as [sources|]; [|by split; [left|]].
  specialize (Hnew u eq_refl). destruct frames_placed as (Hf & Hp & Hne).
  pose proof (Frames.run_op_written _ _ Hf Hp Hne no_fault (e_now env) (c_disk w) m (Frames.OpCreate u meta) Hm
    (conj Hnew Hok) Hnow eq_refl) as Hw. cbn [Frames.run_op] in Hw.
  pose proof (Create_within no_fault (e_now env) (c_disk w) u meta Hnew) as Hin. rewrite Hos.
  destruct (Frames.Create no_fault (e_now env) (own_frames sv ns) (c_disk w) u meta) as [[steps d] e]. cbn [fst snd] in Hin.
  assert (Hr' : refs_on d r) by (eapply refs_ours; [exact Hr|]; eapply within_weaken, Hin; by right).
  destruct Hw as (_ & Hw). destruct e as [e|].
  - split; [by right|split; [done|]]. split; [|done]. cbn [c_disk set_disk]. destruct Hw as [[He Hh]|(_ & Hh & _)]; [|exact Hh].
    unfold Frames.spec_op in *. cbn [Frames.op_id] in *. destruct (IsZero u); [by destruct (m !! u)|]. by destruct (m !! u).
  - destruct Hw as [[He Hh]|(He & _)]; [|done]. unfold Frames.spec_op in *. cbn [Frames.op_id] in *.
    destruct (IsZero u); [by destruct (m !! u)|]. destruct (m !! u); [done|].
    rewrite Hc in *. cbn [Z.eqb fst] in *. split_and!; done.
Qed.

Lemma bind_step w name u m r : frames_held (c_disk w) m → refs_on (c_disk w) r → r !! name = None →
  let w' := bind_ref sv env w ns name u in
  frames_held (c_disk w') m
  ∧ refs_on (c_disk w') (if bool_decide (Refs.name_ok name) then <[name := Refs.MkRef u [] [Refs.MkReflogEntry u (e_now env)]]> r else r).
Proof.
  intros Hm [Hr Hd] Hn. unfold bind_ref. destruct (decide (name = [])) as [->|Hne].
  { rewrite bool_decide_eq_false_2 by (intros Hne; by apply Hne). cbn zeta. rewrite bool_decide_eq_false_2 by done. by split. }
  rewrite bool_decide_eq_true_2 by done. cbn zeta. rewrite Hos. cbn [set_disk c_disk].
  pose proof (Refs.run_op_promised _ _ refs_placed no_fault (e_now env) (c_disk w) r (Refs.OpCreate name u) Hr I Hnow eq_refl) as Hw.
  pose proof (Refs.run_op_dir _ _ refs_placed (e_now env) (c_disk w) r (Refs.OpCreate name u) Hd) as Hdir.
  pose proof (ref_Create_within no_fault (e_now env) (c_disk w) name u) as Hin. cbn [Refs.run_op] in Hw, Hdir.
  destruct (Refs.Create no_fault (e_now env) (own_refs sv ns) (c_disk w) name u) as [[steps d] e]. cbn [fst snd] in *. split.
  - eapply holds_within; [exact Hm|exact Hin|]. intros v Hv. by apply metas_apart.
  - destruct Hw as (_ & [[He Hh]|(_ & _ & Hno)]); [|by destruct Hno; split].
    unfold Refs.spec_op in Hh, Hdir. rewrite Refs.spec_valid_ok in Hh, Hdir. cbn [Refs.op_name] in Hh, Hdir. rewrite Hn in Hh, Hdir.
    case_bool_decide; cbn in Hh, Hdir; by split.
Qed.

(** *** What is admitted *)

Lemma good_ids ids : RootFs.bad_snap_id ids = None → Forall (λ i, SnapFiles.validSnapID i = true) ids.
Proof.
  unfold RootFs.bad_snap_id. induction ids as [|i ids IH]; [done|]. intros Hh. destruct (SnapFiles.validSnapID i) eqn:Hi.
  - rewrite filter_cons_False in Hh by by rewrite Hi. by apply Forall_cons_2; [|apply IH].
  - rewrite filter_cons_True in Hh by done. discriminate Hh.
Qed.

Lemma free_name d r name : refs_on d r → bool_decide (name ≠ []) && Refs.Exists no_fault (own_refs sv ns) d name = false → r !! name = None.
Proof.
  intros [Hr _] He. destruct (r !! name) as [x|] eqn:Hx; [|done]. exfalso.
  assert (Hn : Refs.name_ok name) by (apply Hr; by eexists).
  assert (Hne : name ≠ []) by (by intros ->). rewrite bool_decide_eq_true_2 in He by done. cbn [andb] in He.
  unfold Refs.Exists, os_Stat in He. rewrite Hn in He. cbn [stat_fails no_fault] in He.
  pose proof (holds_taken _ _ d r name Hr Hn) as Ht. rewrite bool_decide_eq_true_2 in He; [done|]. apply Ht. by eexists.
Qed.

Definition spec_parts (req : CreateRequest) : list gostring :=
  let '(root, home, work) := Login.parseFrameSpec (SnapshotSpec req) in [root; home; work].
Definition new_meta (req : CreateRequest) : Frame :=
  let '(root, home, work) := Login.parseFrameSpec (SnapshotSpec req) in MkFrame root home work [] (rq_Isolation req) [] 0.

Lemma admitted w req r user meta : refs_on (c_disk w) r → admit_create sv snapsDir env w req = inr (user, meta) →
  user = ns ∧ meta = new_meta req ∧ Forall (λ i, SnapFiles.validSnapID i = true) (spec_parts req) ∧ r !! RefName req = None.
Proof.
  intros Hr. unfold admit_create, new_meta, spec_parts. change (namespaceFromRootFS (s_fs sv) (s_root sv)) with (own_namespace sv).
  rewrite (h_own sv base ns Hhome). destruct (Login.parseFrameSpec (SnapshotSpec req)) as [[root home] work].
  destruct (bool_decide (RootFs.bad_snap_id [root; home; work] ≠ None)) eqn:Hb; [done|].
  destruct (Login.hasBlankRootfs (SnapshotSpec req)) as [blank nil].
  destruct (blank && negb nil); [done|]. destruct (negb blank && _); [done|].
  destruct (bool_decide (RefName req ≠ []) && _) eqn:He; [done|]. intros [= <- <-]. rewrite Hos in He.
  split; [done|split; [done|split; [|by eapply free_name]]]. apply bool_decide_eq_false in Hb. apply good_ids.
  by apply dec_stable.
Qed.

(** *** Taints *)

Context (Hsnaps : snapsDir = abs_path (base ++ [bs "snaps"])).
Context (Htext : ∀ d id, Forall text_ok (getSnapTaints no_fault d snapsDir id)).

Lemma snap_taints_same d d' id : SnapFiles.validSnapID id = true → within (RefId.beneath fs_dir) fs_dir d d' →
  getSnapTaints no_fault d' snapsDir id = getSnapTaints no_fault d snapsDir id.
Proof.
  intros Hid (Hd & Hd' & Hf). unfold getSnapTaints. case_bool_decide as Hne; [done|].
  assert (Hp : proper (id ++ jsonc)).
  { unfold SnapFiles.validSnapID in Hid. rewrite bool_decide_eq_false_2 in Hid by done.
    destruct (ContainsByte id slash || _) eqn:Hc; [done|]. apply orb_false_iff in Hc as [Hc _].
    apply Refs.file_name_proper; [by apply bool_decide_eq_false in Hc|done]. }
  assert (Hb : ¬ RefId.beneath fs_dir (snap_path snapsDir id)).
  { unfold snap_path. destruct frames_placed as (-> & Hpr & Hnb). destruct Hhome as [_ _ Hbase Hnebase _ _].
    assert (Hsd : Forall proper (base ++ [bs "snaps"])) by (apply Forall_app_2; [done|]; apply Forall_cons_2; [by apply proper_name|apply Forall_nil_2]).
    rewrite Hsnaps, JoinPath_one by (done || by destruct base). rewrite RefId.beneath_abs; [|done|done| |by destruct base].
    - intros (e & rest & Heq). rewrite <-!app_assoc in Heq. apply app_inv_head in Heq. discriminate Heq.
    - apply Forall_app_2; [done|]. by apply Forall_cons_2; [|apply Forall_nil_2]. }
  unfold readSnapMeta, load, os_ReadFile. cbn [read_fails no_fault]. rewrite (Hf _ Hb).
  destruct (d_files d !! snap_path snapsDir id); [done|]. by repeat case_bool_decide.
Qed.

Lemma new_meta_ok req : text_ok (rq_Isolation req) → Forall text_ok (spec_parts req) → frame_ok text_ok time_ok (new_meta req).
Proof.
  unfold new_meta, spec_parts, frame_ok. destruct (Login.parseFrameSpec _) as [[root home] work]. intros Hi Hp.
  rewrite !Forall_cons in Hp. destruct Hp as (? & ? & ? & _). cbn. split_and!; try done; apply Forall_nil_2.
Qed.
Lemma tainted_ok d f : frame_ok text_ok time_ok f → frame_ok text_ok time_ok (RootFs.tainted snapsDir no_fault d f).
Proof.
  intros (O1 & O2 & O3 & O4 & O5 & O6 & O7). unfold RootFs.tainted, frame_ok. cbn. split_and!; try done.
  apply Forall_forall. intros t (l & Hl & Ht)%UnionTaints_spec.
  repeat (apply elem_of_cons in Hl as [-> | Hl]; [revert t Ht; apply Forall_forall, Htext|]). by apply elem_of_nil in Hl.
Qed.

(** A request for live frames. *)
Definition live (req : CreateRequest) : bool :=
  bool_decide (RootfsFrame req ≠ [] ∨ HomeFrame req ≠ [] ∨ WorkFrame req ≠ []).
Lemma live_sources w req sources : parseSourceFrames sv env w ns req = Some sources → no_sources sources = negb (live req).
Proof.
  assert (Hone : ∀ v p, source_path sv env w ns v = Some p → p = [] ↔ v = []).
  { intros v p. unfold source_path. case_bool_decide as Hv; [intros [= <-]; done|].
    destruct (Parse v) as [u|] eqn:Hp; [|done]. cbn [mbind option_bind]. destruct (Frames.Exists _ _ _ _); [|done].
    intros [= <-]. split; [|done]. rewrite frame_path_snoc by by eapply Parse_length.
    by destruct (Frames.fsDir (own_frames sv ns)). }
  unfold parseSourceFrames, no_sources, live. destruct (source_path sv env w ns (RootfsFrame req)) eqn:Hs1; [|done].
  destruct (source_path sv env w ns (HomeFrame req)) eqn:Hs2; [|done].
  destruct (source_path sv env w ns (WorkFrame req)) eqn:Hs3; [|done]. cbn. intros [= <-].
  apply Hone in Hs1, Hs2, Hs3. rewrite <-bool_decide_not. apply bool_decide_ext. split.
  - intros [= -> -> ->]. tauto.
  - intros Hn. destruct (decide (l = [])), (decide (l0 = [])), (decide (l1 = [])); subst; tauto.
Qed.

(** *** What a request leaves behind *)

(** The frame that a request records. *)
Definition new_frame (d : disk) (req : CreateRequest) : Frame :=
  set_created (if live req then new_meta req else RootFs.tainted snapsDir no_fault d (new_meta req)) (e_now env).
Definition new_refs (req : CreateRequest) (u : ID) (r : gmap gostring Refs.Ref) : gmap gostring Refs.Ref :=
  if bool_decide (Refs.name_ok (RefName req)) then <[RefName req := Refs.MkRef u [] [Refs.MkReflogEntry u (e_now env)]]> r else r.
Definition named_frames (req : CreateRequest) : list gostring := filter (λ v, v ≠ []) [RootfsFrame req; HomeFrame req; WorkFrame req].

(** A part of a spec [root:home:work]; a part that is not there, or is [nil], names no snap. *)
Definition asked_part (req : CreateRequest) (i : nat) : gostring :=
  let part := default [] (Split (SnapshotSpec req) ":"%byte !! i) in if bool_decide (part = bs "nil") then [] else part.

Lemma parts_asked req : Login.parseFrameSpec (SnapshotSpec req) = (asked_part req 0, asked_part req 1, asked_part req 2).
Proof. reflexivity. Qed.

(** A frame with what a request asks for, made now. *)
Definition as_asked (req : CreateRequest) (f : Frame) : Prop :=
  Rootfs f = asked_part req 0 ∧ F_Home f = asked_part req 1 ∧ Work f = asked_part req 2 ∧
  Isolation f = rq_Isolation req ∧ History f = [] ∧ CreatedAt f = e_now env.
(** Its taints are those of its snaps, as they were when the request came. *)
Definition tainted_by_snaps (d : disk) (req : CreateRequest) (f : Frame) : Prop :=
  ∀ t, t ∈ Taints f ↔ ∃ i, (i < 3)%nat ∧ t ∈ getSnapTaints no_fault d snapsDir (asked_part req i).

Lemma new_frame_asked d req : as_asked req (new_frame d req) ∧ as_asked req (set_created (new_meta req) (e_now env)).
Proof. unfold new_frame, new_meta. rewrite parts_asked. by destruct (live req). Qed.
Lemma new_frame_tainted d req : live req = false → tainted_by_snaps d req (new_frame d req).
Proof.
  intros Hl t. unfold new_frame, new_meta. rewrite Hl, parts_asked. unfold RootFs.tainted. cbn [set_created set_taints Taints Rootfs F_Home Work].
  rewrite (proj2 (UnionTaints_spec _) t). split.
  - intros (l & Hin & Ht).
    apply elem_of_cons in Hin as [->|Hin]; [exists 0%nat; split; [lia|done]|].
    apply elem_of_cons in Hin as [->|Hin]; [exists 1%nat; split; [lia|done]|].
    apply list_elem_of_singleton in Hin as ->. exists 2%nat. split; [lia|done].
  - intros (i & Hi & Ht). exists (getSnapTaints no_fault d snapsDir (asked_part req i)). split; [|done].
    destruct i as [|[|[|i]]]; [..|lia]; repeat ((by left) || right).
Qed.

(** The name a request gives to the frame is none, or one a ref can have. *)
Definition named_well (req : CreateRequest) : Prop := RefName req = [] ∨ Refs.name_ok (RefName req).
Definition refs_after (req : CreateRequest) (u : ID) (r : gmap gostring Refs.Ref) : gmap gostring Refs.Ref :=
  if bool_decide (RefName req = []) then r else <[RefName req := Refs.MkRef u [] [Refs.MkReflogEntry u (e_now env)]]> r.

Lemma new_refs_after req u r : named_well req → new_refs req u r = refs_after req u r.
Proof.
  unfold new_refs, refs_after. intros [->|Hn].
  - rewrite (bool_decide_eq_true_2 ([] = [])) by done. by rewrite bool_decide_eq_false_2.
  - rewrite (bool_decide_eq_true_2 (Refs.name_ok _)) by done. rewrite bool_decide_eq_false_2; [done|]. by intros Hnil; rewrite Hnil in Hn.
Qed.

(** The two maps after an answer: with "ok" the frame and its ref are new in them; else
    they are as before, but for a frame whose files could not be made. *)
Definition creates (w : world) (req : CreateRequest) (m : gmap ID Frame) (r : gmap gostring Refs.Ref)
    (a : create_response) (w' : world) (m' : gmap ID Frame) (r' : gmap gostring Refs.Ref) : Prop :=
  match a with
  | (code, CrOk id path) =>
      ∃ u f, code = StatusOK ∧ e_new env = Some u ∧ m !! u = None ∧ id = String_ u ∧ path = frame_path sv ns u
        ∧ m' = <[u := f]> m ∧ as_asked req f ∧ (live req = false → tainted_by_snaps (c_disk w) req f)
        ∧ r !! RefName req = None ∧ (named_well req → r' = refs_after req u r)
        ∧ ∀ v, v ∈ named_frames req → ∃ s, Parse v = Some s ∧ is_Some (m !! s)
  | (code, _) =>
      (w' = w ∨ code = StatusInternalServerError) ∧ r' = r
      ∧ (m' = m ∨ ∃ u f, e_new env = Some u ∧ m !! u = None ∧ m' = <[u := f]> m ∧ as_asked req f)
  end.

Lemma sources_held w req m sources : frames_held (c_disk w) m → parseSourceFrames sv env w ns req = Some sources →
  ∀ v, v ∈ named_frames req → ∃ s, Parse v = Some s ∧ is_Some (m !! s).
Proof.
  intros Hm Hs v Hv. unfold named_frames in Hv. apply list_elem_of_filter in Hv as [Hne Hv].
  assert (Hone : ∀ p, source_path sv env w ns v = Some p → ∃ s, Parse v = Some s ∧ is_Some (m !! s)).
  { intros p. unfold source_path. rewrite bool_decide_eq_false_2 by done. destruct (Parse v) as [u|] eqn:Hp; [|done].
    cbn [mbind option_bind]. rewrite Hos, (Exists_spec _ m u Hm (Parse_length _ _ Hp)). case_bool_decide; [|done]. by exists u. }
  unfold parseSourceFrames in Hs. destruct (source_path sv env w ns (RootfsFrame req)) eqn:H1'; [|done].
  destruct (source_path sv env w ns (HomeFrame req)) eqn:H2'; [|done].
  destruct (source_path sv env w ns (WorkFrame req)) eqn:H3'; [|done].
  repeat (apply elem_of_cons in Hv as [-> | Hv]; [by eapply Hone|]). by apply elem_of_nil in Hv.
Qed.

(** The frame in the store once its files are there. *)
Lemma recorded_new w w1 req sources : Forall (λ i, SnapFiles.validSnapID i = true) (spec_parts req) →
  parseSourceFrames sv env w ns req = Some sources → within (RefId.beneath fs_dir) fs_dir (c_disk w) (c_disk w1) →
  recorded_as w1 (set_created (new_meta req) (e_now env)) sources = new_frame (c_disk w) req.
Proof.
  intros Hids Hs Hw. unfold recorded_as, new_frame. rewrite (live_sources w req sources Hs). destruct (live req); [done|].
  cbn [negb]. unfold RootFs.tainted, new_meta, spec_parts in *. destruct (Login.parseFrameSpec _) as [[root home] work].
  cbn [set_created Rootfs F_Home Work]. rewrite !Forall_cons in Hids. destruct Hids as (? & ? & ? & _).
  by rewrite !(snap_taints_same (c_disk w) (c_disk w1)) by done.
Qed.

Lemma refused w (a : create_response) req m r : a.2 = CrError ∨ a.2 = CrPlain → creates w req m r a w m r.
Proof. destruct a as [code []]; cbn; intros [|]; try done; split_and!; auto. Qed.

Lemma admit_refuses w req a : admit_create sv snapsDir env w req = inl a → a.2 = CrError.
Proof.
  unfold admit_create. destruct (namespaceFromRootFS _ _); [|by intros [= <-]].
  destruct (Login.parseFrameSpec _) as [[root home] work]. destruct (bool_decide _); [by intros [= <-]|].
  destruct (Login.hasBlankRootfs _) as [blank nil]. destruct (_ && _); [by intros [= <-]|].
  destruct (_ && _); [by intros [= <-]|]. by destruct (_ && _); [intros [= <-]|].
Qed.

Lemma create_now_records w req m r : text_ok (rq_Isolation req) → Forall text_ok (spec_parts req) →
  frames_held (c_disk w) m → refs_on (c_disk w) r →
  let '(w', a) := create_now sv snapsDir dir_size walk env w req in
  ∃ m' r', frames_held (c_disk w') m' ∧ refs_on (c_disk w') r' ∧ creates w req m r a w' m' r'
    ∧ (d_dirs (c_disk w) ⊆ d_dirs (c_disk w') ∨ ∀ id path, a.2 ≠ CrOk id path).
Proof.
  intros Hiso Hparts Hm Hr. unfold create_now. destruct (admit_create sv snapsDir env w req) as [a|[user meta]] eqn:Ha.
  { exists m, r. pose proof (admit_refuses w req a Ha) as He. split; [done|split; [done|split; [apply refused; by left|right; by rewrite He]]]. }
  destruct (admitted w req r user meta Hr Ha) as (-> & -> & Hids & Hfree). pose proof (new_meta_ok req Hiso Hparts) as Hok.
  assert (Hc : CreatedAt (new_meta req) = 0) by (unfold new_meta; by destruct (Login.parseFrameSpec _) as [[? ?] ?]).
  pose proof (record_step w req (new_meta req) m r Hok Hc Hm Hr) as Hrec.
  destruct (record_frame sv env w req ns (new_meta req)) as [w1 [[code reply]|[[sources u] f]]].
  { destruct Hrec as (Hcode & -> & Hm1 & Hr1). exists m, r. split; [done|split; [done|]]. split; [|by right]. cbn. split; [|by split; [|left]].
    destruct Hcode as [[_ Hcode]|Hcode]; [by left|by right]. }
  destruct Hrec as (Hu & Hnone & -> & Hs & Hm1 & Hr1 & Hw1 & _). pose proof (Hnew u Hu) as Hlen.
  assert (Hfok : frame_ok text_ok time_ok (set_created (new_meta req) (e_now env))).
  { destruct Hok as (O1 & O2 & O3 & O4 & O5 & O6 & O7). by split_and!. }
  pose proof (build_records env w1 u (set_created (new_meta req) (e_now env)) sources _ Hos Hlen Hfok (tainted_ok _ _ Hfok) Hm1) as Hb.
  rewrite (recorded_new w w1 req sources Hids Hs Hw1) in Hb.
  destruct (buildFrameFS _ _ _ _ _ _ _ _ _) as [w2 ok]. destruct Hb as [Hw2 Hb].
  assert (Hr2 : refs_on (c_disk w2) r) by by eapply refs_ours.
  assert (Hb' : ∃ f, frames_held (c_disk w2) (<[u := f]> m) ∧ (ok = true → f = new_frame (c_disk w) req)
    ∧ (f = set_created (new_meta req) (e_now env) ∨ f = new_frame (c_disk w) req)).
  { destruct Hb as [[Hb ->]|Hb]; [eexists; split_and!; [exact Hb|done|by left]|]. rewrite insert_insert_eq in Hb.
    eexists. split_and!; [exact Hb|done|by right]. }
  clear Hb. destruct Hb' as (f & Hm2 & Hf & Hf'). destruct ok.
  - pose proof (bind_step w2 (RefName req) u _ r Hm2 Hr2 Hfree) as [Hm3 Hr3]. exists (<[u := f]> m), (new_refs req u r).
    split; [exact Hm3|split; [exact Hr3|split]].
    + cbn. exists u, f. rewrite (Hf eq_refl). split_and!; try done.
      * apply new_frame_asked.
      * apply new_frame_tainted.
      * apply new_refs_after.
      * by eapply sources_held.
    + left. etransitivity; [apply Hw1|]. etransitivity; [apply Hw2|]. unfold bind_ref. destruct (bool_decide (RefName req ≠ [])); [apply ref_Create_within|reflexivity].
  - exists (<[u := f]> m), r. split; [exact Hm2|split; [exact Hr2|]]. split; [|by right]. cbn. split; [by right|split; [done|]]. right. exists u, f. split_and!; try done.
    destruct (new_frame_asked (c_disk w) req). by destruct Hf' as [-> | ->].
Qed.

(** *** The streamed answer *)

(** What [handleCreateWithUUID] says at once, as a stream says it. *)
Definition streamed (a : create_response) (b : create_response + list create_event) : Prop :=
  b = inl a ∨ b = inr [CrProgress (bs "Creating frame..."); CrResult a.2].

Lemma admitted_root w req user meta : admit_create sv snapsDir env w req = inr (user, meta) →
  (Login.hasBlankRootfs (SnapshotSpec req)).1 = false → Stat (c_fs w) (JoinPath snapsDir (Rootfs meta)) ≠ None.
Proof.
  unfold admit_create. destruct (namespaceFromRootFS _ _); [|done].
  destruct (Login.parseFrameSpec _) as [[root home] work]. destruct (bool_decide _); [done|].
  destruct (Login.hasBlankRootfs _) as [blank nil]. destruct (blank && negb nil); [done|].
  destruct (negb blank && _) eqn:Hs; [done|]. destruct (bool_decide (RefName req ≠ []) && _); [done|].
  intros [= <- <-]. cbn [fst Rootfs]. intros ->. cbn [negb andb] in Hs. by apply bool_decide_eq_false in Hs.
Qed.

Lemma stream_same download w req m r : text_ok (rq_Isolation req) → Forall text_ok (spec_parts req) →
  frames_held (c_disk w) m → refs_on (c_disk w) r →
  let '(w1, a) := create_now sv snapsDir dir_size walk env w req in
  let '(w2, b) := create_stream sv snapsDir dir_size walk download env w req in
  w2 = w1 ∧ streamed a b.
Proof.
  intros Hiso Hparts Hm Hr. unfold create_now, create_stream.
  destruct (admit_create sv snapsDir env w req) as [a|[user meta]] eqn:Ha; [by split; [|left]|].
  pose proof (admitted_root w req user meta Ha) as Hroot.
  destruct (admitted w req r user meta Hr Ha) as (-> & -> & Hids & Hfree). pose proof (new_meta_ok req Hiso Hparts) as Hok.
  assert (Hc : CreatedAt (new_meta req) = 0) by (unfold new_meta; by destruct (Login.parseFrameSpec _) as [[? ?] ?]).
  pose proof (record_step w req (new_meta req) m r Hok Hc Hm Hr) as Hrec.
  destruct (record_frame sv env w req ns (new_meta req)) as [w1 [a|[[sources u] f]]]; [by split; [|left]|].
  destruct Hrec as (Hu & Hnone & -> & Hs & Hm1 & Hr1 & Hw1 & Hfs & _). pose proof (Hnew u Hu) as Hlen.
  assert (Hs1 : parseSourceFrames sv env w1 ns req = Some sources).
  { apply (sources_again env w w1 req m _ sources Hos Hm Hm1); [|done]. intros v Hv. destruct (decide (v = u)) as [->|Hne].
    - by rewrite lookup_insert_eq.
    - by rewrite lookup_insert_ne. }
  unfold create_streaming. rewrite (frame_path_user u Hlen). destruct (Login.hasBlankRootfs _) as [blank nil]. cbn [fst] in Hroot.
  replace (negb blank && _ && _) with false.
  2:{ destruct blank; [done|]. cbn [negb andb]. symmetry. apply andb_false_iff. right. apply bool_decide_eq_false_2.
      rewrite Hfs. by apply Hroot. }
  rewrite Hs1. destruct (buildFrameFS _ _ _ _ _ _ _ _ _) as [w2 []]; (split; [reflexivity|by right]).
Qed.
End records.

(** ** Properties *)

Section requests.
Context `{UUIDs} `{TempNames} `{Btrfs} `{RootFs.Cp} {text_ok : gostring → Prop} {time_ok : Z → Prop}
  `{!Json SnapMeta (meta_ok text_ok)} `{!Json Frame (frame_ok text_ok time_ok)} `{!Json Refs.Ref (Refs.ref_ok text_ok time_ok)}.
Context (sv : server) (snapsDir : gostring) (dir_size : node → Z).
Context (walk : fs → gostring → list Indexer.node).
Context (base : list gostring) (ns : gostring) (Hhome : at_home sv base ns) (Hsnaps : snapsDir = abs_path (base ++ [bs "snaps"])).
Context (env : environment) (Hos : e_os env = no_fault) (Hnow : time_ok (e_now env)) (Hzero : time_ok 0)
  (Hnew : ∀ u, e_new env = Some u → length u = 16%nat)
  (Htext : ∀ d id, Forall text_ok (getSnapTaints no_fault d snapsDir id)).

Abbreviation request := (handleCreate sv snapsDir dir_size walk).


(** C37: for a request whose root snap, if it names one, is here, being asked to stream its
    progress the server does the same, to the last file, as when it answers at once, and what
    it says in the end is the same, whatever peers would have to offer. (A request for a snap
    that is not here is refused either way, [stream_same], though the stream is meant to
    download the snap.) *)
Theorem streamed_create_is_create download w method req m r :
  (asked_part (legacy_spec req) 0 ≠ [] → Stat (c_fs w) (JoinPath snapsDir (asked_part (legacy_spec req) 0)) ≠ None) →
  text_ok (rq_Isolation (legacy_spec req)) → Forall text_ok (spec_parts (legacy_spec req)) →
  frames_held (text_ok := text_ok) (time_ok := time_ok) sv ns (c_disk w) m →
  refs_on (text_ok := text_ok) (time_ok := time_ok) sv ns (c_disk w) r →
  let '(w1, b1) := request download env w method (Some req) false in
  let '(w2, b2) := request download env w method (Some req) true in
  w2 = w1 ∧ ∃ a, b1 = inl a ∧ streamed a b2.
Proof.
  intros _ Hiso Hparts Hm Hr. unfold handleCreate. cbn zeta.
  destruct (negb _); [split; [done|]; eexists; split; [done|by left]|].
  destruct (bool_decide _); [split; [done|]; eexists; split; [done|by left]|].
  pose proof (stream_same sv snapsDir dir_size walk base ns Hhome env Hos Hnow Hzero Hnew download
    w (legacy_spec req) m r Hiso Hparts Hm Hr) as Hc.
  destruct (create_now _ _ _ _ _ _ _) as [w1 a]. destruct (create_stream _ _ _ _ _ _ _ _) as [w2 b].
  destruct Hc as [-> Hc]. split; [done|]. by exists a.
Qed.
End requests.

(** ** An example *)

#[local] Existing Instances SnapFiles.meta_json SnapQueue.frame_json RootFs.example_btrfs Refs.ref_eq_dec Refs.ref_countable.
#[local] Instance example_ref_json : Json Refs.Ref (Refs.ref_ok (λ _, True) (λ _, True)) := countable_json _.
#[local] Instance example_cp : RootFs.Cp := λ s _, (s, false).
#[local] Existing Instances text_uuids zero_names.

Definition example_id : ID := replicate 16 Byte.x01.
Definition example_server : server := MkServer (bs "/data") (bs "/data/fs") true (bs "/data/fs/u/x").
Definition example_environment : environment := MkEnvironment RootFs.example_env no_fault 5 (Some example_id) (λ _ _, None).
Definition example_world : world := MkWorld (RootFs.example_fs RootFs.example_snap) (MkDisk ∅ ∅) SnapQueue.newSnapQueue.
Definition example_request : CreateRequest := MkCreate (bs "r:h") (bs "main") [] [] [] [] (bs "container") [] [] [].
Definition example_handle : gostring → option CreateRequest → bool → world * (create_response + list create_event) :=
  handleCreate example_server (bs "/data/snaps") (λ _, 0) (λ _ _, [])
    (λ w _, (w, None)) example_environment example_world.

Lemma example_home : at_home example_server [bs "data"] (bs "u").
Proof.
  split; [reflexivity|reflexivity|by apply Forall_cons_2; [apply proper_name|apply Forall_nil_2]|discriminate|by apply proper_name|].
  vm_compute. reflexivity.
Qed.
Lemma all_text (l : list gostring) : Forall (λ _, True) l.
Proof. apply Forall_forall. intros ? _. exact I. Qed.
Lemma example_frames : frames_held (text_ok := λ _, True) (time_ok := λ _, True) example_server (bs "u") (c_disk example_world) ∅.
Proof.
  split; [|intros k [x Hx]; discriminate Hx]. intros k _. rewrite !lookup_empty. split; [apply not_elem_of_empty|done].
Qed.
Lemma example_refs : refs_on (text_ok := λ _, True) (time_ok := λ _, True) example_server (bs "u") (c_disk example_world) ∅.
Proof.
  split; [|done]. split; [|intros k [x Hx]; discriminate Hx]. intros k _. rewrite !lookup_empty. split; [apply not_elem_of_empty|done].
Qed.


Lemma streamed_create_is_create_witness :
  let '(w1, b1) := example_handle POST (Some example_request) false in
  let '(w2, b2) := example_handle POST (Some example_request) true in
  w2 = w1 ∧ b1 = inl (StatusOK, CrOk (String_ example_id) (bs "/data/fs/u/" ++ String_ example_id))
    ∧ b2 = inr [CrProgress (bs "Creating frame..."); CrResult (CrOk (String_ example_id) (bs "/data/fs/u/" ++ String_ example_id))].
Proof.
  assert (Ha : (example_handle POST (Some example_request) false).2
    = inl (StatusOK, CrOk (String_ example_id) (bs "/data/fs/u/" ++ String_ example_id))) by (vm_compute; reflexivity).
  assert (Hb : (example_handle POST (Some example_request) true).2
    = inr [CrProgress (bs "Creating frame..."); CrResult (CrOk (String_ example_id) (bs "/data/fs/u/" ++ String_ example_id))])
    by (vm_compute; reflexivity).
  pose proof (streamed_create_is_create (text_ok := λ _, True) (time_ok := λ _, True) example_server (bs "/data/snaps") (λ _, 0)
    (λ _ _, []) [bs "data"] (bs "u") example_home example_environment eq_refl I I
    ltac:(intros u [= <-]; reflexivity) (λ w _, (w, None)) example_world POST example_request ∅ ∅ ltac:(intros _; vm_compute; discriminate) I (all_text _)
    example_frames example_refs) as Hc.
  unfold example_handle in *. destruct (handleCreate _ _ _ _ _ _ _ _ _ false) as [w1 b1].
  destruct (handleCreate _ _ _ _ _ _ _ _ _ true) as [w2 b2]. cbn [snd] in Ha, Hb.
  split; [apply Hc|split; [exact Ha|exact Hb]].
Defined.

(** ** What the request misses *)

(** A name that no ref can have is answered "ok", without a ref. *)
Lemma bad_ref_name_is_ok :
  let req := MkCreate (bs "r") (bs "a:b") [] [] [] [] [] [] [] [] in
  let '(w', b) := example_handle POST (Some req) false in
  (match b with inl (code, CrOk _ _) => bool_decide (code = StatusOK) | _ => false end)
  && bool_decide (Refs.ValidateName (bs "a:b") ≠ None) && bool_decide (map_size (d_files (c_disk w')) = 2%nat) = true.
Proof. vm_compute. reflexivity. Qed.

Section misses.
Context {text_ok : gostring → Prop} `{!Json SnapMeta (meta_ok text_ok)}.

(** The copy of a live frame has no taints, whatever the frame or its snaps have. *)
Lemma live_copy_is_untainted (snapsDir : gostring) env d req : live req = true → Taints (new_frame snapsDir env d req) = [].
Proof.
  intros Hl. unfold new_frame. rewrite Hl. unfold new_meta. by destruct (Login.parseFrameSpec _) as [[root home] work].
Qed.
End misses.

(** The fields [home] and [work] of a request are not used. *)
Lemma home_and_work_fields_ignored `{UUIDs} `{TempNames} `{Btrfs} `{RootFs.Cp} `{!Json SnapMeta (meta_ok (λ _, True))} `{!Json Frame (frame_ok (λ _, True) (λ _, True))}
    `{!Json Refs.Ref (Refs.ref_ok (λ _, True) (λ _, True))} sv snapsDir dir_size walk download env w method spec rn sid root iso rf hf kf stream home home' work work' :
  let ask home work := Some (MkCreate spec rn sid root home work iso rf hf kf) in
  handleCreate sv snapsDir dir_size walk download env w method (ask home work) stream
  = handleCreate sv snapsDir dir_size walk download env w method (ask home' work') stream.
Proof.
  cbn zeta. unfold handleCreate, legacy_spec. destruct (negb _); [done|]. cbn [SnapshotSpec RootfsSnap SnapshotID].
  destruct (bool_decide (spec ≠ [])); cbn [SnapshotSpec set_spec RefName RootfsSnap SnapshotID HomeSnap WorkSnap rq_Isolation RootfsFrame HomeFrame WorkFrame];
    (destruct (bool_decide _); [reflexivity|]); destruct stream; reflexivity.
Qed.
