(* ===== verification/Travel.v ===== *)
(** * Going to another frame and back ([ts go], [ts frame], [ts undo]: [src/cmd/ts/main.go])

    The commands ask the daemon of the frame they run in, make a frame or find one, and
    start a session in it. They are written against what the daemon offers, a class of
    requests; the handlers of [RefsHandlers] and [CreateFrame] implement it. *)

From Stdlib Require Import Strings.String.
From S2P Require Import GoSort Prelude GoStrings GoPath JsonStore FrameId Policy.
From S2P Require Refs Frames SnapFiles SnapQueue Login HostFs RefsHandlers CreateFrame.

(** ** Requests *)

Record GetFrameResponse := MkGetFrame { fr_UUID : gostring; fr_Rootfs : gostring; fr_Home : gostring; fr_Work : gostring }.
Record ResolveFrameResponse := MkResolve {
  rs_UUID : gostring; rs_Exists : bool; rs_Rootfs : gostring; rs_Home : gostring; rs_Work : gostring;
}.

(** What the daemon answers; [None] and [false] stand for a request that failed, and for an
    answer whose status is not "ok". *)
Class Daemon (D : Type) := {
  get_frame : D → option GetFrameResponse;
  get_log : D → gostring → option (list gostring);            (* the snaps, newest first *)
  resolve_frame : D → gostring → option ResolveFrameResponse;
  post_fork : D → gostring → D * option gostring;
  post_create : D → CreateFrame.CreateRequest → D * option (CreateFrame.create_response + list CreateFrame.create_event);
  post_snap : D → gostring → bool → D * option gostring;
  clone_history : D → gostring → gostring → D * bool;
  prune_history : D → gostring → list gostring → D * bool;
  delete_frame : D → gostring → D * bool;
}.

(** The options of the commands, as the library getopt reads them: it is given what it has
    read so far and the arguments, the first of which is the name of the program. *)
Record options := MkOptions { o_isolation : gostring; o_command : gostring; o_ref : gostring; o_delete : bool; o_help : bool }.
Definition no_options : options := MkOptions [] [] [] false false.
Class Getopt := getopt : gostring → options → list gostring → option (options * list gostring).

(** How a command ends: with the code of the session it started, or by itself. *)
Inductive outcome :=
| Fails                                                        (** exit code 1 *)
| Prints (line : gostring)                                     (** exit code 0 *)
| Enters (uuid user : gostring) (args : list gostring).

Section client.
Context `{Daemon D} `{Getopt} `{UUIDs}.

Definition doGetCurrentFrame (d : D) : option gostring := fr_UUID <$> get_frame d.
Definition doGetCurrentFrameInfo (d : D) : option GetFrameResponse := get_frame d.
Definition doResolveFrame (d : D) (spec : gostring) : option gostring :=
  resolved ← resolve_frame d spec; if rs_Exists resolved then Some (rs_UUID resolved) else None.

(** The last result of a stream counts, or the answer that came instead of one. *)
Definition last_result (events : list CreateFrame.create_event) : option CreateFrame.create_reply :=
  last (omap (λ e, match e with CreateFrame.CrResult r => Some r | CreateFrame.CrProgress _ => None end) events).
Definition doCreate (d : D) (snapshotSpec isolation refName : gostring) (sources : option (gostring * gostring * gostring))
    : D * option gostring :=
  let '(r, h, w) := default ([], [], []) sources in
  let '(d, answer) := post_create d (CreateFrame.MkCreate snapshotSpec refName [] [] [] [] isolation r h w) in
  let result := a ← answer; match a with inl (_, reply) => Some reply | inr events => last_result events end in
  (d, match result with Some (CreateFrame.CrOk uuid _) => Some uuid | _ => None end).

(** *** Specs *)

Definition nil_word : gostring := bs "nil".
Definition part_of (i : nat) (root home work : gostring) : gostring :=
  match i with O => root | S O => home | _ => work end.

(** The components of a spec from the [i]-th on, and where each comes from. *)
Fixpoint resolve_parts (d : D) (i : nat) (current : option GetFrameResponse) (parts : list gostring)
    : option (list (gostring * gostring)) :=
  match parts with
  | [] => Some []
  | part :: rest =>
      if bool_decide (part = nil_word) then others ← resolve_parts d (S i) current rest; Some ((part, []) :: others)
      else if bool_decide (part = []) then
        frame ← match current with Some f => Some f | None => doGetCurrentFrameInfo d end;
        others ← resolve_parts d (S i) (Some frame) rest;
        Some ((SnapFiles.or_nil (part_of i (fr_Rootfs frame) (fr_Home frame) (fr_Work frame)), fr_UUID frame) :: others)
      else
        resolved ← resolve_frame d part;
        others ← resolve_parts d (S i) current rest;
        Some ((if rs_Exists resolved
               then (SnapFiles.or_nil (part_of i (rs_Rootfs resolved) (rs_Home resolved) (rs_Work resolved)), rs_UUID resolved)
               else (part, [])) :: others)
  end.

Definition resolveFrameTriplet (d : D) (spec : gostring) : option (gostring * (gostring * gostring * gostring)) :=
  let parts := Split spec ":"%byte in
  if bool_decide (length parts = 3%nat) then
    resolved ← resolve_parts d 0 None parts;
    let source i := default [] (resolved.*2 !! i) in
    Some (Join resolved.*1 ":"%byte, (source 0%nat, source 1%nat, source 2%nat))
  else None.

Definition colons (spec : gostring) : nat := length (filter (λ c, c = ":"%byte) spec).

(** *** [ts go] *)

Record goArgs := MkGoArgs { g_spec : gostring; g_user : gostring; g_options : options }.

(** The user in front of the first "@"; none is no user. *)
Definition split_user (spec : gostring) : option (gostring * gostring) :=
  match Split spec "@"%byte with
  | user :: (_ :: _) as rest => if bool_decide (user = []) then None else Some (user, Join (tail rest) "@"%byte)
  | _ => Some ([], spec)
  end.

Definition parseGoArgs (args : list gostring) : option goArgs :=
  '(o, rest) ← getopt (bs "go") no_options (bs "ts go" :: args);
  match rest with
  | [] => Some (MkGoArgs [] [] o)
  | spec :: _ =>
      '(o, rest) ← getopt (bs "go") o rest;
      if bool_decide (rest = []) then '(user, spec) ← split_user spec; Some (MkGoArgs spec user o) else None
  end.

(** The frame to go to, and whether its history is still to be cloned. *)
Definition go_target (d : D) (spec currentUUID isolation : gostring) : D * option (gostring * bool) :=
  if bool_decide (spec = []) then (d, Some (currentUUID, false))
  else
    match colons spec with
    | O => (d, (λ uuid, (uuid, false)) <$> doResolveFrame d spec)
    | S (S O) =>
        if bool_decide (spec = bs "::") then
          let '(d, forked) := post_fork d [] in (d, (λ uuid, (uuid, false)) <$> forked)
        else
          match resolveFrameTriplet d spec with
          | None => (d, None)
          | Some (snapshotSpec, sources) =>
              let '(d, created) := doCreate d snapshotSpec isolation [] (Some sources) in (d, (λ uuid, (uuid, true)) <$> created)
          end
    | _ => (d, None)
    end.

Definition shell_args (command : gostring) : list gostring :=
  if bool_decide (command = []) then [] else [bs "sh"; bs "-c"; command].

Definition cmdGo (d : D) (args : list gostring) : D * outcome :=
  match parseGoArgs args with
  | None => (d, Fails)
  | Some parsed =>
      if o_help (g_options parsed) then (d, Prints [])
      else
        match doGetCurrentFrame d with
        | None => (d, Fails)
        | Some currentUUID =>
            match go_target d (g_spec parsed) currentUUID (o_isolation (g_options parsed)) with
            | (d, None) => (d, Fails)
            | (d, Some (targetUUID, cloning)) =>
                let d := if cloning && bool_decide (currentUUID ≠ []) then (clone_history d currentUUID targetUUID).1 else d in
                (d, Enters targetUUID (g_user parsed) (shell_args (o_command (g_options parsed))))
            end
        end
  end.

(** *** [ts frame] *)

Definition cmdFrame (d : D) (args : list gostring) : D * outcome :=
  match getopt (bs "frame") no_options (bs "ts frame" :: args) with
  | None => (d, Fails)
  | Some (o, rest) =>
      let answer (r : D * option gostring) : D * outcome := (r.1, match r.2 with Some uuid => Prints uuid | None => Fails end) in
      if o_help o then (d, Prints [])
      else if o_delete o then
        match rest with
        | [uuid] =>
            match Parse uuid with
            | None => (d, Fails)
            | Some _ => let '(d, ok) := delete_frame d uuid in (d, if ok then Prints (bs "Deleted frame " ++ uuid) else Fails)
            end
        | _ => (d, Fails)
        end
      else
        match rest with
        | [] => answer (d, doGetCurrentFrame d)
        | [spec] =>
            match colons spec with
            | O =>
                if bool_decide (is_Some (Parse spec)) || bool_decide (Refs.ValidateName spec = None)
                then answer (d, doResolveFrame d spec) else (d, Fails)
            | S (S O) =>
                if bool_decide (o_ref o ≠ []) && bool_decide (Refs.ValidateName (o_ref o) ≠ None) then (d, Fails)
                else if bool_decide (spec = bs "::") then answer (post_fork d (o_ref o))
                else
                  match resolveFrameTriplet d spec with
                  | None => (d, Fails)
                  | Some (snapshotSpec, sources) => answer (doCreate d snapshotSpec (o_isolation o) (o_ref o) (Some sources))
                  end
            | _ => (d, Fails)
            end
        | _ => (d, Fails)
        end
  end.

(** *** [ts undo] *)

Definition parseUndoArgs (args : list gostring) : option options :=
  '(o, rest) ← getopt (bs "undo") no_options (bs "ts undo" :: args); if bool_decide (rest = []) then Some o else None.

Definition undo_spec (prevSnap home work : gostring) : gostring := Join [prevSnap; SnapFiles.or_nil home; SnapFiles.or_nil work] ":"%byte.

Definition cmdUndo (d : D) (args : list gostring) : D * outcome :=
  match parseUndoArgs args with
  | None => (d, Fails)
  | Some o =>
      if o_help o then (d, Prints [])
      else
        match doGetCurrentFrame d with
        | None => (d, Fails)
        | Some currentUUID =>
            match get_log d currentUUID with
            | None | Some [] => (d, Fails)
            | Some (prevSnap :: _) =>
                match post_snap d [] true with
                | (d, None) => (d, Fails)
                | (d, Some currentSnap) =>
                    match doGetCurrentFrameInfo d with
                    | None => (d, Fails)
                    | Some currentFrame =>
                        match doCreate d (undo_spec prevSnap (fr_Home currentFrame) (fr_Work currentFrame)) [] [] None with
                        | (d, None) => (d, Fails)
                        | (d, Some newUUID) =>
                            let d := (clone_history d currentUUID newUUID).1 in
                            let d := (prune_history d newUUID [currentSnap; prevSnap]).1 in
                            (d, Enters newUUID [] (shell_args (o_command o)))
                        end
                    end
                end
            end
        end
  end.
End client.

(** A component that may be empty, as a spec has it. *)
Lemma or_nil_plain p : ":"%byte ∉ p → ":"%byte ∉ SnapFiles.or_nil p.
Proof. intros Hp. unfold SnapFiles.or_nil. case_bool_decide; [|done]. by apply (bool_decide_unpack _). Qed.
Lemma or_nil_spoken p : p ≠ nil_word → (if bool_decide (SnapFiles.or_nil p = nil_word) then [] else SnapFiles.or_nil p) = p.
Proof.
  intros Hp. unfold SnapFiles.or_nil. destruct (decide (p = [])) as [->|He]; [done|].
  rewrite (bool_decide_eq_false_2 (p = [])) by done. by rewrite bool_decide_eq_false_2.
Qed.

(** [ts frame] prints the frame that [ts go] would enter. *)
Lemma frame_prints_go_target `{Daemon D} `{Getopt} `{UUIDs} (d : D) args o spec current :
  getopt (bs "frame") no_options (bs "ts frame" :: args) = Some (o, [spec]) →
  o_help o = false → o_delete o = false → o_ref o = [] → spec ≠ [] →
  (colons spec = O → is_Some (Parse spec) ∨ Refs.ValidateName spec = None) →
  cmdFrame d args =
    let '(d', target) := go_target d spec current (o_isolation o) in (d', match target with Some (uuid, _) => Prints uuid | None => Fails end).
Proof.
  intros Hg Hh Hd Hr Hne Hname. unfold cmdFrame, go_target. rewrite Hg, Hh, Hd, Hr. rewrite (bool_decide_eq_false_2 (spec = [])) by done.
  destruct (colons spec) as [|[|[|n]]]; [|done| |done].
  - destruct (Hname eq_refl) as [Hp|Hv].
    + rewrite bool_decide_eq_true_2 by done. cbn [orb]. by destruct (doResolveFrame d spec).
    + rewrite (bool_decide_eq_true_2 (Refs.ValidateName spec = None)), orb_true_r by done. by destruct (doResolveFrame d spec).
  - rewrite (bool_decide_eq_false_2 ([] ≠ [])) by (intros Hx; by apply Hx). cbn [andb]. case_bool_decide.
    + by destruct (post_fork d []) as [d1 [u|]].
    + destruct (resolveFrameTriplet d spec) as [[shown sources]|]; [|done]. by destruct (doCreate d shown (o_isolation o) [] (Some sources)) as [d1 [u|]].
Qed.

(** ** The daemon that answers *)

Import CreateFrame.

Section daemon.
Context `{UUIDs} `{TempNames} `{Subvols.Btrfs} `{RootFs.Cp} {text_ok : gostring → Prop} {time_ok : Z → Prop}
  `{!Json Frames.SnapMeta (Frames.meta_ok text_ok)} `{!Json Frames.Frame (Frames.frame_ok text_ok time_ok)} `{!Json Refs.Ref (Refs.ref_ok text_ok time_ok)}.
Context (sv : RefsHandlers.server) (snapsDir : gostring) (dir_size : HostFs.node → Z) (walk : HostFs.fs → gostring → list Indexer.node).
Context (env : environment) (download : world → gostring → world * option bool).
(** Snaps and forks are the snap queue's, which other processes share; what a client waits
    for is stated below. *)
Context (snap : world → gostring → bool → world * option gostring) (fork : world → gostring → world * option gostring)
  (deletion : world → gostring → world * bool).

Definition handler_env : RefsHandlers.environment := RefsHandlers.MkEnvironment (e_os env) RefId.calm.
Definition handler_world (w : world) : RefsHandlers.world := RefsHandlers.MkWorld (c_disk w) ∅ [].
Definition is_ok (r : RefsHandlers.response) : bool := bool_decide (r.1 = RefsHandlers.StatusOK).

Definition frame_daemon : Daemon world := {|
  get_frame w :=
    match RefsHandlers.handleFrame sv handler_env (handler_world w) RefsHandlers.GET with
    | (_, RefsHandlers.FrameInfo uuid f) =>
        let f := default SnapQueue.empty_frame f in Some (MkGetFrame uuid (Frames.Rootfs f) (Frames.F_Home f) (Frames.Work f))
    | _ => None
    end;
  get_log w uuid :=
    match RefsHandlers.handleLog sv handler_env (handler_world w) RefsHandlers.GET uuid with
    | (_, RefsHandlers.LogOf _ entries) => Some (Frames.H_Snap <$> entries)
    | _ => None
    end;
  resolve_frame w spec :=
    match RefsHandlers.handleResolveFrame sv handler_env (handler_world w) RefsHandlers.POST (Some spec) with
    | (_, RefsHandlers.Resolved uuid is_there _ f) =>
        let f := default SnapQueue.empty_frame f in Some (MkResolve uuid is_there (Frames.Rootfs f) (Frames.F_Home f) (Frames.Work f))
    | _ => None
    end;
  post_fork := fork;
  post_create w req :=
    let '(w, answer) := handleCreate sv snapsDir dir_size walk download env w RefsHandlers.POST (Some req) true in (w, Some answer);
  post_snap := snap;
  clone_history w source target :=
    let '(hw, r) := RefsHandlers.handleCloneHistory sv handler_env (handler_world w) RefsHandlers.POST (Some (source, target)) in
    (set_disk w (RefsHandlers.w_disk hw), is_ok r);
  prune_history w uuid snaps :=
    let '(hw, r) := RefsHandlers.handlePruneHistory sv handler_env (handler_world w) RefsHandlers.POST (Some (uuid, snaps)) in
    (set_disk w (RefsHandlers.w_disk hw), is_ok r);
  delete_frame := deletion;
|}.
#[local] Existing Instance frame_daemon.

Context (base : list gostring) (ns : gostring) (Hhome : RefsHandlers.at_home sv base ns)
  (cur : ID) (Hcur : frameUUIDFromRootFS (RefsHandlers.s_fs sv) (RefsHandlers.s_root sv) = Some cur).
Context (Hos : e_os env = no_fault) (Hnow : time_ok (e_now env)) (Hzero : time_ok 0)
  (Hnew : ∀ u, e_new env = Some u → length u = 16%nat).

#[local] Abbreviation frames w m := (frames_held (text_ok := text_ok) (time_ok := time_ok) sv ns (c_disk w) m).
#[local] Abbreviation refs w r := (refs_on (text_ok := text_ok) (time_ok := time_ok) sv ns (c_disk w) r).
(** The stores of the namespace, and the directory of the frames once there is one. *)
Definition frames_at (w : world) (m : gmap ID Frames.Frame) (r : gmap gostring Refs.Ref) : Prop :=
  frames w m ∧ refs w r ∧ (m ≠ ∅ → Frames.fsDir (RefsHandlers.namespaceFrameStore sv ns) ∈ d_dirs (c_disk w)).

Lemma cur_length : length cur = 16%nat.
Proof.
  unfold frameUUIDFromRootFS in Hcur. destruct (Split _ _) as [|a [|b l]]; [done..|]. by apply Parse_length in Hcur.
Qed.

(** *** Reading *)

Lemma Get_held w m u : frames w m → length u = 16%nat →
  Frames.Get no_fault (RefsHandlers.namespaceFrameStore sv ns) (c_disk w) u = match m !! u with Some f => Ret f | None => Err err_not_found end.
Proof. intros Hm Hu. by apply (holds_load (Frames.metaPath (own_frames sv ns)) Frames.id_ok). Qed.

Lemma get_frame_held w m f : frames w m → m !! cur = Some f →
  get_frame w = Some (MkGetFrame (String_ cur) (Frames.Rootfs f) (Frames.F_Home f) (Frames.Work f)).
Proof.
  intros Hm Hf. cbn [get_frame frame_daemon]. unfold RefsHandlers.handleFrame. rewrite (RefsHandlers.h_own sv base ns Hhome), Hcur.
  cbn [handler_env RefsHandlers.e_os handler_world RefsHandlers.w_disk]. rewrite Hos, (Get_held w m cur Hm cur_length), Hf. done.
Qed.
Lemma get_log_held w m u f : frames w m → length u = 16%nat → m !! u = Some f →
  get_log w (String_ u) = Some (Frames.H_Snap <$> Frames.History f).
Proof.
  intros Hm Hu Hf. cbn [get_log frame_daemon]. unfold RefsHandlers.handleLog. rewrite (RefsHandlers.h_own sv base ns Hhome).
  assert (Hne : String_ u ≠ []) by (intros Hn; pose proof (uuid_element u Hu) as (Hx & _); by apply Hx).
  rewrite bool_decide_eq_false_2, Parse_String by done. cbn [handler_env RefsHandlers.e_os handler_world RefsHandlers.w_disk].
  rewrite Hos, (Get_held w m u Hm Hu), Hf. done.
Qed.

(** *** Writing *)

Lemma Update_held w m r u f : frames_at w m r → length u = 16%nat → Frames.frame_ok text_ok time_ok f → is_Some (m !! u) →
  ∃ d, (Frames.Update no_fault (RefsHandlers.namespaceFrameStore sv ns) (c_disk w) u f).1.2 = d
    ∧ (Frames.Update no_fault (RefsHandlers.namespaceFrameStore sv ns) (c_disk w) u f).2 = None
    ∧ frames_at (set_disk w d) (<[u := f]> m) r.
Proof.
  intros (Hm & Hr & Hdir) Hu Hf [g Hg]. destruct (frames_placed sv base ns Hhome) as (Hfd & Hp & Hne). eexists. split; [reflexivity|].
  pose proof (Frames.run_op_written _ _ Hfd Hp Hne no_fault 0 (c_disk w) m (Frames.OpUpdate u f) Hm (conj Hu Hf) Hzero eq_refl) as Hw.
  cbn [Frames.run_op] in Hw. unfold Frames.spec_op in Hw. cbn [Frames.op_id] in Hw. rewrite Hg in Hw.
  pose proof (Update_within sv base ns Hhome no_fault (c_disk w) u f Hu) as Hin. unfold own_frames in *.
  destruct (Frames.Update no_fault (RefsHandlers.namespaceFrameStore sv ns) (c_disk w) u f) as [[steps d] e]. cbn [fst snd] in *.
  destruct Hw as (_ & [[-> Hd]|(_ & _ & Hno)]); [|by destruct Hno; split].
  split; [done|]. split; [exact Hd|]. split; [|intros _; apply Hin, Hdir; intros ->; by rewrite lookup_empty in Hg].
  eapply refs_ours; [exact Hhome|exact Hr|]. eapply within_weaken, Hin. by right.
Qed.

Lemma held_ok w m u f : frames w m → m !! u = Some f → Frames.frame_ok text_ok time_ok f.
Proof.
  intros [Hm Hk] Hf. destruct (Hm u) as [_ Hv]; [apply Hk; by eexists|]. rewrite Hf in Hv. apply Hv.
Qed.
Lemma held_length w m u f : frames w m → m !! u = Some f → length u = 16%nat.
Proof. intros [Hm Hk] Hf. apply Hk. by eexists. Qed.

Lemma clone_held w m r u v f g : frames_at w m r → m !! u = Some f → m !! v = Some g →
  frames_at (clone_history w (String_ u) (String_ v)).1 (<[v := Frames.set_history g (Frames.History f)]> m) r.
Proof.
  intros Hm Hf Hg. cbn [clone_history frame_daemon]. unfold RefsHandlers.handleCloneHistory. rewrite (RefsHandlers.h_own sv base ns Hhome).
  pose proof (held_length w m u f (proj1 Hm) Hf) as Hu. pose proof (held_length w m v g (proj1 Hm) Hg) as Hv.
  assert (Hne : ∀ x, length x = 16%nat → String_ x ≠ []) by (intros x Hx Hn; pose proof (uuid_element x Hx) as (Hy & _); by apply Hy).
  rewrite !bool_decide_eq_false_2 by auto. rewrite !Parse_String by done. cbn [negb orb handler_env RefsHandlers.e_os handler_world RefsHandlers.w_disk].
  rewrite Hos, (Get_held w m u (proj1 Hm) Hu), (Get_held w m v (proj1 Hm) Hv), Hf, Hg.
  assert (Hok : Frames.frame_ok text_ok time_ok (Frames.set_history g (Frames.History f))).
  { destruct (held_ok w m u f (proj1 Hm) Hf) as (_ & _ & _ & _ & _ & _ & Hh). destruct (held_ok w m v g (proj1 Hm) Hg) as (O1 & O2 & O3 & O4 & O5 & O6 & _). by split_and!. }
  destruct (Update_held w m r v _ Hm Hv Hok (ltac:(by eexists))) as (d & Hd & _ & Hw).
  destruct (Frames.Update no_fault (RefsHandlers.namespaceFrameStore sv ns) (c_disk w) v _) as [[steps d'] e]. cbn [fst snd] in Hd. subst d'. exact Hw.
Qed.

Lemma prune_held w m r u snaps f : frames_at w m r → m !! u = Some f →
  frames_at (prune_history w (String_ u) snaps).1
    (<[u := Frames.set_history f (filter (λ h, Frames.H_Snap h ∉ snaps) (Frames.History f))]> m) r.
Proof.
  intros Hm Hf. cbn [prune_history frame_daemon]. unfold RefsHandlers.handlePruneHistory. rewrite (RefsHandlers.h_own sv base ns Hhome).
  pose proof (held_length w m u f (proj1 Hm) Hf) as Hu.
  assert (Hne : String_ u ≠ []) by (intros Hn; pose proof (uuid_element u Hu) as (Hy & _); by apply Hy).
  rewrite bool_decide_eq_false_2, Parse_String by done. cbn [negb handler_env RefsHandlers.e_os handler_world RefsHandlers.w_disk].
  rewrite Hos, (Get_held w m u (proj1 Hm) Hu), Hf. cbn zeta.
  assert (Heq : filter (λ h, Frames.H_Snap h ∉ (list_to_set snaps : gset gostring)) (Frames.History f) = filter (λ h, Frames.H_Snap h ∉ snaps) (Frames.History f)).
  { apply list_filter_iff. intros h. by rewrite elem_of_list_to_set. }
  rewrite Heq. assert (Hok : Frames.frame_ok text_ok time_ok (Frames.set_history f (filter (λ h, Frames.H_Snap h ∉ snaps) (Frames.History f)))).
  { destruct (held_ok w m u f (proj1 Hm) Hf) as (O1 & O2 & O3 & O4 & O5 & O6 & Hh). split_and!; try done.
    apply Forall_forall. intros h [_ Hin]%list_elem_of_filter. by apply (proj1 (Forall_forall _ _) Hh). }
  destruct (Update_held w m r u _ Hm Hu Hok (ltac:(by eexists))) as (d & Hd & _ & Hw).
  destruct (Frames.Update no_fault (RefsHandlers.namespaceFrameStore sv ns) (c_disk w) u _) as [[steps d'] e]. cbn [fst snd] in Hd. subst d'. exact Hw.
Qed.

(** *** Creating *)

Context (Hsnaps : snapsDir = abs_path (base ++ [bs "snaps"]))
  (Htext : ∀ d id, Forall text_ok (Frames.getSnapTaints no_fault d snapsDir id)).

Lemma doCreate_held w m r spec isolation sources w' u : frames_at w m r → m ≠ ∅ → spec ≠ [] → text_ok isolation →
  Forall text_ok (let '(root, home, work) := Login.parseFrameSpec spec in [root; home; work]) →
  doCreate w spec isolation [] sources = (w', Some u) →
  let '(rf, hf, kf) := default ([], [], []) sources in
  let req := MkCreate spec [] [] [] [] [] isolation rf hf kf in
  (post_create w req).1 = w' ∧
  ∃ v new, u = String_ v ∧ length v = 16%nat ∧ m !! v = None
    ∧ frames_at w' (<[v := new]> m) r ∧ as_asked env req new
    ∧ ∀ x, x ∈ named_frames req → ∃ s, Parse x = Some s ∧ is_Some (m !! s).
Proof.
  intros (Hm & Hr & Hdir) Hme Hne Hiso Hparts. unfold doCreate. destruct (default ([], [], []) sources) as [[rf hf] kf]. cbn zeta.
  set (req := MkCreate spec [] [] [] [] [] isolation rf hf kf). cbn [post_create frame_daemon]. unfold handleCreate. cbn zeta. cbn [negb].
  assert (Hleg : legacy_spec req = req) by (unfold legacy_spec; by rewrite bool_decide_eq_true_2). rewrite Hleg.
  change (negb (RefsHandlers.requireMethod RefsHandlers.POST RefsHandlers.POST)) with false. cbn iota.
  rewrite bool_decide_eq_false_2 by done.
  pose proof (create_now_records sv snapsDir dir_size walk base ns Hhome env Hos Hnow Hzero Hnew Hsnaps Htext w req m r Hiso Hparts Hm Hr) as Hc.
  pose proof (stream_same sv snapsDir dir_size walk base ns Hhome env Hos Hnow Hzero Hnew download w req m r Hiso Hparts Hm Hr) as Hs.
  destruct (create_now sv snapsDir dir_size walk env w req) as [w1 a]. destruct (create_stream sv snapsDir dir_size walk download env w req) as [w2 b].
  destruct Hs as [-> Hs]. destruct Hc as (m' & r' & Hm' & Hr' & Hc & Hdirs). intros [= <- Hres]. split; [done|].
  assert (Ha : ∃ path, a.2 = CrOk u path).
  { destruct Hs as [-> | ->]; destruct a as [code [| |id path]]; cbn in Hres; try done; injection Hres as ->; by exists path. }
  destruct Ha as [path Ha]. destruct a as [code reply]. cbn [snd] in Ha. subst reply. cbn in Hc.
  destruct Hc as (v & new & _ & Hv & Hnone & -> & _ & -> & Has & _ & _ & Href & Hsrc).
  rewrite Href in Hr' by (by left).
  exists v, new. split_and!; [done|by apply Hnew|done|split; [exact Hm'|split; [exact Hr'|]]|done|done].
  intros _. destruct Hdirs as [Hdirs|Hno]; [by apply Hdirs, Hdir|by destruct (Hno (String_ v) path)].
Qed.

(** The snaps of a frame that was asked for. *)
Lemma asked_snaps req f : as_asked env req f → (Frames.Rootfs f, Frames.F_Home f, Frames.Work f) = Login.parseFrameSpec (SnapshotSpec req).
Proof. intros (-> & -> & -> & _). symmetry. apply parts_asked. Qed.

(** *** Undoing *)

(** Texts can be taken apart and put together at colons. *)
Context (Htext_none : text_ok []) (Htext_nil : text_ok nil_word) (Hsplit : ∀ s, text_ok s → Forall text_ok (Split s ":"%byte))
  (Hjoin : ∀ l, Forall text_ok l → text_ok (Join l ":"%byte)).
(** What the snap queue does to the stores for a client that waits: the snap is recorded in
    the frame ([SnapQueue.record_job], [SnapRecord]). *)
Context (Hsnap : ∀ w m r f w' id, frames_at w m r → m !! cur = Some f → snap w [] true = (w', Some id) →
  ∃ root home work t, id = SnapFiles.triplet root home work
    ∧ frames_at w' (<[cur := SnapQueue.record_snap root home work (Frames.MkHistory id t []) f]> m) r).

Lemma parts_text spec : text_ok spec → Forall text_ok (let '(root, home, work) := Login.parseFrameSpec spec in [root; home; work]).
Proof.
  intros Hs. apply Hsplit in Hs. unfold Login.parseFrameSpec. cbn zeta.
  assert (Hp : ∀ i, text_ok (Login.spec_part (Split spec ":"%byte) i)).
  { intros i. unfold Login.spec_part. cbn zeta. case_bool_decide; [done|]. destruct (Split spec ":"%byte !! i) as [p|] eqn:Hi; [|done].
    by apply (proj1 (Forall_lookup _ _) Hs i). }
  by repeat (apply Forall_cons_2; [apply Hp|]).
Qed.
Lemma or_nil_text s : text_ok s → text_ok (SnapFiles.or_nil s).
Proof. intros Hs. unfold SnapFiles.or_nil. by case_bool_decide. Qed.

(** A snap of three parts is all that is taken from the spec of an undo. *)
Lemma undo_spec_triplet root home work h w : Forall (λ p, ":"%byte ∉ p ∧ p ≠ nil_word) [root; home; work] →
  Login.parseFrameSpec (undo_spec (SnapFiles.triplet root home work) h w) = (root, home, work).
Proof.
  rewrite !Forall_cons. intros ((Hr & Hr') & (Hh & Hh') & (Hk & Hk') & _).
  unfold undo_spec, SnapFiles.triplet, Login.parseFrameSpec. cbn [Join]. change (bs ":") with [":"%byte].
  rewrite <-!app_assoc. cbn [app]. rewrite !Split_app_sep by auto using or_nil_plain. unfold Login.spec_part. cbn -[bs]. rewrite !or_nil_spoken by done.
  by rewrite bool_decide_eq_false_2.
Qed.

(** The snap of a directory is taken for a root, with the home and work of now. *)
Lemma undo_spec_subdir id h w : Forall (λ p, ":"%byte ∉ p ∧ p ≠ nil_word) [id; h; w] → Login.parseFrameSpec (undo_spec id h w) = (id, h, w).
Proof.
  rewrite !Forall_cons. intros ((Hi & Hi') & (Hh & Hh') & (Hk & Hk') & _).
  unfold undo_spec, Login.parseFrameSpec. rewrite Split_Join by (done || by repeat (apply Forall_cons_2; [by auto using or_nil_plain|])).
  unfold Login.spec_part. cbn -[bs]. rewrite !or_nil_spoken by done. by rewrite bool_decide_eq_false_2.
Qed.

Lemma spec_ne a b c : undo_spec a b c ≠ [].
Proof. unfold undo_spec. cbn [Join]. by destruct a. Qed.

Lemma undo_session `{Getopt} w args m r f h rest w' u user cmd :
  frames_at w m r → m !! cur = Some f → Frames.History f = h :: rest →
  cmdUndo w args = (w', Enters u user cmd) →
  ∃ v root home work t new,
    let e := Frames.MkHistory (SnapFiles.triplet root home work) t [] in
    let f' := SnapQueue.record_snap root home work e f in
    u = String_ v ∧ user = [] ∧ m !! v = None ∧ (snap w [] true).2 = Some (SnapFiles.triplet root home work)
    ∧ frames_at w' (<[v := new]> (<[cur := f']> m)) r
    ∧ (Frames.Rootfs new, Frames.F_Home new, Frames.Work new) = Login.parseFrameSpec (undo_spec (Frames.H_Snap h) (Frames.F_Home f') (Frames.Work f'))
    ∧ Frames.History new = filter (λ x, Frames.H_Snap x ∉ [Frames.H_Snap e; Frames.H_Snap h]) (e :: h :: rest).
Proof.
  intros Hw Hf Hh. unfold cmdUndo. destruct (parseUndoArgs args) as [o|]; [|done]. destruct (o_help o); [done|].
  unfold doGetCurrentFrame, doGetCurrentFrameInfo. rewrite (get_frame_held w m f (proj1 Hw) Hf). cbn [fmap option_fmap option_map fr_UUID].
  rewrite (get_log_held w m cur f (proj1 Hw) cur_length Hf), Hh. cbn [fmap list_fmap].
  destruct (snap w [] true) as [w1 [id|]] eqn:Hs; cbn [post_snap frame_daemon]; rewrite Hs; [|done].
  destruct (Hsnap w m r f w1 id Hw Hf Hs) as (root & home & work & t & -> & Hw1).
  set (e := Frames.MkHistory _ t []) in *. set (f' := SnapQueue.record_snap root home work e f) in *.
  assert (Hf' : <[cur := f']> m !! cur = Some f') by apply lookup_insert_eq.
  rewrite (get_frame_held w1 _ f' (proj1 Hw1) Hf'). cbn [fr_Home fr_Work].
  destruct (doCreate w1 _ [] [] None) as [w2 [u2|]] eqn:Hc; [|done].
  assert (Hok : Frames.frame_ok text_ok time_ok f') by by apply (held_ok w1 _ cur f' (proj1 Hw1)).
  destruct Hok as (_ & Oh & Ow & _ & _ & _ & Ohist).
  assert (Hsp : text_ok (undo_spec (Frames.H_Snap h) (Frames.F_Home f') (Frames.Work f'))).
  { apply Hjoin. rewrite !Forall_cons. split_and!; [|by apply or_nil_text|by apply or_nil_text|done].
    assert (Hin : h ∈ Frames.History f') by (cbn; rewrite Hh; right; by left). by apply (proj1 (Forall_forall _ _) Ohist) in Hin as [? _]. }
  destruct (doCreate_held w1 _ r _ _ None w2 u2 Hw1 ltac:(intros Hm; by rewrite Hm, lookup_empty in Hf')
    (spec_ne _ _ _) Htext_none (parts_text _ Hsp) Hc) as (_ & v & nf & -> & Hlv & Hv & Hw2 & Has & _).
  intros [= <- <- <- <-].
  assert (Hne : v ≠ cur) by (intros ->; congruence).
  rewrite lookup_insert_ne in Hv by done.
  assert (Hcur2 : <[v := nf]> (<[cur := f']> m) !! cur = Some f') by by rewrite lookup_insert_ne.
  pose proof (clone_held w2 _ r cur v f' nf Hw2 Hcur2 (lookup_insert_eq _ _ _)) as Hw3.
  rewrite insert_insert_eq in Hw3.
  pose proof (prune_held _ _ r v [Frames.H_Snap e; Frames.H_Snap h] _ Hw3 (lookup_insert_eq _ _ _)) as Hw4.
  rewrite insert_insert_eq in Hw4.
  exists v, root, home, work, t. eexists. cbn zeta. fold e f'. split; [done|split; [done|split; [done|split; [reflexivity|split; [exact Hw4|split]]]]].
  - cbn [Frames.set_history Frames.Rootfs Frames.F_Home Frames.Work]. exact (asked_snaps _ _ Has).
  - cbn. by rewrite Hh.
Qed.

(** *** Going *)

(** The frame a word names, as an identity or as a ref. *)
Definition named (m : gmap ID Frames.Frame) (r : gmap gostring Refs.Ref) (word : gostring) : option ID :=
  v ← match Parse word with Some v => Some v | None => Refs.R_UUID <$> r !! word end;
  if bool_decide (is_Some (m !! v)) then Some v else None.

(** The snap a frame was made of, by component: root, home, work. *)
Definition snap_of (i : nat) (f : Frames.Frame) : gostring :=
  match i with 0%nat => Frames.Rootfs f | 1%nat => Frames.F_Home f | _ => Frames.Work f end.
(** What a component of a spec stands for: nothing, the same component of the current frame
    or of a frame that is named, or a snap. *)
Definition meaning (m : gmap ID Frames.Frame) (r : gmap gostring Refs.Ref) (f : Frames.Frame) (i : nat) (part : gostring) : gostring :=
  if bool_decide (part = nil_word) then []
  else if bool_decide (part = []) then snap_of i f
  else match named m r part with Some v => default [] (snap_of i <$> m !! v) | None => part end.
(** The frame whose live files a component is copied from: the current one for an empty
    part, the one that is named, and none for [nil] and for a snap. *)
Definition copied_from (m : gmap ID Frames.Frame) (r : gmap gostring Refs.Ref) (part : gostring) : gostring :=
  if bool_decide (part = nil_word) then []
  else if bool_decide (part = []) then String_ cur
  else match named m r part with Some v => String_ v | None => [] end.

Lemma part_snap i f : part_of i (Frames.Rootfs f) (Frames.F_Home f) (Frames.Work f) = snap_of i f.
Proof. by destruct i as [|[|i]]. Qed.

Lemma resolve_held w m r word rs : frames_at w m r → (∀ n x, r !! n = Some x → length (Refs.R_UUID x) = 16%nat) → word ≠ [] →
  resolve_frame w word = Some rs →
  match named m r word with
  | Some v => ∃ g, m !! v = Some g ∧ rs = MkResolve (String_ v) true (Frames.Rootfs g) (Frames.F_Home g) (Frames.Work g)
  | None => rs_Exists rs = false
  end.
Proof.
  intros (Hm & [Hr _] & _) Hids Hne. cbn [resolve_frame frame_daemon]. unfold RefsHandlers.handleResolveFrame, named.
  change (negb (RefsHandlers.requireMethod RefsHandlers.POST RefsHandlers.POST)) with false. cbn iota.
  rewrite bool_decide_eq_false_2, (RefsHandlers.h_own sv base ns Hhome) by done. cbn zeta.
  cbn [handler_env RefsHandlers.e_os handler_world RefsHandlers.w_disk]. rewrite Hos.
  assert (Hex : ∀ v, length v = 16%nat → Frames.Exists no_fault (RefsHandlers.namespaceFrameStore sv ns) (c_disk w) v = bool_decide (is_Some (m !! v)))
    by (intros v Hv; by apply (Exists_spec sv ns)).
  destruct (Parse word) as [v|] eqn:Hp; cbn [mbind option_bind].
  - pose proof (Parse_length _ _ Hp) as Hv. rewrite (Hex v Hv), (Get_held w m v Hm Hv). case_bool_decide as Hs.
    + destruct Hs as [g Hg]. rewrite Hg. intros [= <-]. by exists g.
    + by intros [= <-].
  - unfold Refs.Get. destruct (Refs.ValidateName word) eqn:Hn.
    + destruct (r !! word) as [x|] eqn:Hx; [|cbn; destruct s; intros Hrs; try discriminate Hrs; by injection Hrs as <-]. exfalso. pose proof (proj2 Hr word (ltac:(by eexists))) as Hok. unfold Refs.name_ok in Hok. congruence.
    + pose proof (holds_load (Refs.refPath (own_refs sv ns)) Refs.name_ok (c_disk w) r word Hr Hn) as Hload. unfold own_refs in Hload. rewrite Hload. destruct (r !! word) as [x|] eqn:Hx; cbn [fmap option_fmap option_map mbind option_bind].
      * pose proof (Hids word x Hx) as Hv. rewrite (Hex _ Hv), (Get_held w m _ Hm Hv). case_bool_decide as Hs.
        -- destruct Hs as [g Hg]. rewrite Hg. intros [= <-]. by exists g.
        -- by intros [= <-].
      * by intros [= <-].
Qed.

(** The components of a frame are snaps, not specs. *)
Definition plain_frames (m : gmap ID Frames.Frame) : Prop :=
  ∀ v g i, m !! v = Some g → ":"%byte ∉ snap_of i g ∧ snap_of i g ≠ nil_word.
Definition spoken (x : gostring) : gostring := if bool_decide (x = nil_word) then [] else x.
(** A resolved component [x] stands for [s]. *)
Definition says (x s : gostring) : Prop := ":"%byte ∉ x ∧ text_ok x ∧ spoken x = s.

Lemma says_frame w m v g i : frames w m → plain_frames m → m !! v = Some g → says (SnapFiles.or_nil (snap_of i g)) (snap_of i g).
Proof.
  intros Hm Hp Hg. destruct (Hp v g i Hg) as [Hc Hn]. destruct (held_ok w m v g Hm Hg) as (O1 & O2 & O3 & _).
  assert (Ht : text_ok (snap_of i g)) by by destruct i as [|[|i]].
  unfold says, spoken, SnapFiles.or_nil. destruct (decide (snap_of i g = [])) as [->|He].
  - rewrite bool_decide_eq_true_2 by done. split_and!; [by apply (bool_decide_unpack _)|done|done].
  - rewrite (bool_decide_eq_false_2 (snap_of i g = [])) by done. split_and!; [done|done|]. by rewrite bool_decide_eq_false_2.
Qed.

Section resolving.
Context (w : world) (m : gmap ID Frames.Frame) (r : gmap gostring Refs.Ref) (f : Frames.Frame).
Hypothesis Hw : frames_at w m r.
Hypothesis Hf : m !! cur = Some f.
Hypothesis Hplain : plain_frames m.
Hypothesis Hids : ∀ n x, r !! n = Some x → length (Refs.R_UUID x) = 16%nat.

Lemma parts_held parts : ∀ i current found, current = None ∨ current = get_frame w →
  Forall (λ p, ":"%byte ∉ p ∧ text_ok p) parts → resolve_parts w i current parts = Some found →
  length found = length parts
  ∧ ∀ k part, parts !! k = Some part → ∃ x source, found !! k = Some (x, source) ∧ says x (meaning m r f (i + k) part)
      ∧ source = copied_from m r part.
Proof.
  pose proof (get_frame_held w m f (proj1 Hw) Hf) as Hget.
  induction parts as [|part parts IH]; intros i current found Hcur' Hparts; cbn [resolve_parts]; [by intros [= <-]|].
  apply Forall_cons in Hparts as [[Hc Ht] Hparts].
  assert (Hcons : ∀ current' x source others, current' = None ∨ current' = get_frame w → resolve_parts w (S i) current' parts = Some others →
    says x (meaning m r f i part) ∧ source = copied_from m r part → length ((x, source) :: others) = length (part :: parts)
    ∧ ∀ k p, (part :: parts) !! k = Some p → ∃ x' source', ((x, source) :: others) !! k = Some (x', source') ∧ says x' (meaning m r f (i + k) p)
      ∧ source' = copied_from m r p).
  { intros current' x source others Hc' Ho Hs. destruct (IH (S i) current' others Hc' Hparts Ho) as [Hlen Hk]. split; [cbn; by rewrite Hlen|].
    intros [|k] p Hp; cbn in Hp; [injection Hp as <-; exists x, source; by rewrite Nat.add_0_r|].
    destruct (Hk k p Hp) as (x' & source' & Hx & Hs'). exists x', source'. split; [exact Hx|]. by rewrite Nat.add_succ_r. }
  case_bool_decide as Hnil.
  - destruct (resolve_parts w (S i) current parts) as [others|] eqn:Ho; [|done]. intros [= <-]. apply (Hcons current); [done|done|].
    subst part. unfold meaning, copied_from. rewrite (bool_decide_eq_true_2 (nil_word = nil_word)) by done. unfold says. split_and!; [by apply (bool_decide_unpack _)|done|done|done].
  - case_bool_decide as Hempty.
    + unfold doGetCurrentFrameInfo. destruct (match current with Some f0 => Some f0 | None => get_frame w end) as [fr|] eqn:Hfr; [|done].
      assert (Hfr' : Some fr = get_frame w) by (destruct Hcur' as [-> | ->]; [done|by rewrite Hget in *]). cbn [mbind option_bind].
      destruct (resolve_parts w (S i) (Some fr) parts) as [others|] eqn:Ho; [|done]. intros [= <-]. apply (Hcons (Some fr)); [by right|done|].
      rewrite Hget in Hfr'. injection Hfr' as ->. cbn [fr_Rootfs fr_Home fr_Work fr_UUID]. rewrite part_snap.
      unfold meaning, copied_from. rewrite !(bool_decide_eq_false_2 (part = nil_word)), !(bool_decide_eq_true_2 (part = [])) by done.
      split; [|done]. by apply (says_frame w m cur f i (proj1 Hw) Hplain).
    + destruct (resolve_frame w part) as [rs|] eqn:Hr; [|done]. cbn [mbind option_bind].
      destruct (resolve_parts w (S i) current parts) as [others|] eqn:Ho; [|done]. intros [= <-].
      pose proof (resolve_held w m r part rs Hw Hids Hempty Hr) as Hres.
      assert (Hmean : meaning m r f i part = match named m r part with Some v => default [] (snap_of i <$> m !! v) | None => part end)
        by (unfold meaning; by rewrite !bool_decide_eq_false_2).
      assert (Hfrom : copied_from m r part = match named m r part with Some v => String_ v | None => [] end)
        by (unfold copied_from; by rewrite !bool_decide_eq_false_2).
      destruct (named m r part) as [v|].
      * destruct Hres as (g & Hg & ->). cbn [rs_Exists rs_UUID rs_Rootfs rs_Home rs_Work]. apply (Hcons current); [done|done|].
        rewrite Hmean, Hfrom, Hg, part_snap. split; [|done]. by apply (says_frame w m v g i (proj1 Hw) Hplain).
      * rewrite Hres. apply (Hcons current); [done|done|]. rewrite Hmean, Hfrom. split; [|done]. split; [done|split; [done|]]. unfold spoken. by rewrite bool_decide_eq_false_2.
Qed.

Lemma triplet_held spec shown sources : text_ok spec → resolveFrameTriplet w spec = Some (shown, sources) →
  ∃ a b c, Split spec ":"%byte = [a; b; c] ∧ text_ok shown ∧ shown ≠ []
    ∧ Login.parseFrameSpec shown = (meaning m r f 0 a, meaning m r f 1 b, meaning m r f 2 c)
    ∧ sources = (copied_from m r a, copied_from m r b, copied_from m r c).
Proof.
  intros Ht. unfold resolveFrameTriplet. cbn zeta. case_bool_decide as Hlen; [|done].
  assert (Hparts : Forall (λ p, ":"%byte ∉ p ∧ text_ok p) (Split spec ":"%byte)).
  { apply Forall_and. split; [apply Split_fields_no_sep|by apply Hsplit]. }
  destruct (resolve_parts w 0 None _) as [found|] eqn:Hf'; [|done]. cbn [mbind option_bind]. intros [= <- <-].
  destruct (parts_held _ 0 None found (or_introl eq_refl) Hparts Hf') as [Hlf Hk].
  destruct (Split spec ":"%byte) as [|a [|b [|c [|]]]]; try done. exists a, b, c. split; [done|].
  destruct (Hk 0%nat a eq_refl) as (x & s1 & Hx & (Hx1 & Hx2 & Hx3) & Hx4), (Hk 1%nat b eq_refl) as (y & s2 & Hy & (Hy1 & Hy2 & Hy3) & Hy4), (Hk 2%nat c eq_refl) as (z & s3 & Hz & (Hz1 & Hz2 & Hz3) & Hz4).
  destruct found as [|[x' ?] [|[y' ?] [|[z' ?] [|]]]]; try done. cbn in Hx, Hy, Hz. injection Hx as -> ->. injection Hy as -> ->. injection Hz as -> ->.
  cbn [fmap list_fmap fst]. split; [apply Hjoin; by repeat (apply Forall_cons_2; [done|])|]. split; [cbn [Join]; by destruct x|]. split; [|cbn; by rewrite <-Hx4, <-Hy4, <-Hz4].
  unfold Login.parseFrameSpec. rewrite Split_Join by (done || by repeat (apply Forall_cons_2; [done|])). cbn [Nat.add] in *. by rewrite <-Hx3, <-Hy3, <-Hz3.
Qed.
End resolving.

(** ** Properties *)

(** [ts undo] goes one snap back and can be repeated. The frame it was called in has
    one more snap, as [ts snap] would have left it, and is as before otherwise; so are all
    other frames and the refs. The session is in one new frame that has the root, home and
    work of the snap undone to, and whose history is the old one before that snap: neither
    the snap undone to nor the one just taken is in it, wherever they were, so the next undo
    goes to the next older snap that differs. *)
Theorem undo_goes_back `{Getopt} w args m r f h rest w' u user cmd :
  frames_at w m r → m !! cur = Some f → Frames.History f = h :: rest →
  cmdUndo w args = (w', Enters u user cmd) →
  ∃ v root home work t new,
    let taken := SnapFiles.triplet root home work in
    let f' := SnapQueue.record_snap root home work (Frames.MkHistory taken t []) f in
    u = String_ v ∧ user = [] ∧ m !! v = None ∧ (snap w [] true).2 = Some taken
    ∧ frames_at w' (<[v := new]> (<[cur := f']> m)) r
    ∧ (∀ a b c, Forall (λ p, ":"%byte ∉ p ∧ p ≠ nil_word) [a; b; c] → Frames.H_Snap h = SnapFiles.triplet a b c →
         Frames.Rootfs new = a ∧ Frames.F_Home new = b ∧ Frames.Work new = c)
    ∧ Frames.History new = filter (λ x, Frames.H_Snap x ≠ taken ∧ Frames.H_Snap x ≠ Frames.H_Snap h) rest.
Proof.
  intros Hw Hf Hh Hu. destruct (undo_session w args m r f h rest w' u user cmd Hw Hf Hh Hu)
    as (v & root & home & work & t & new & -> & -> & Hv & Htaken & Hw' & Hsnaps' & Hhist).
  exists v, root, home, work, t, new. cbn zeta. split; [done|split; [done|split; [done|split; [done|split; [exact Hw'|split]]]]].
  - intros a b c Hp Ht. rewrite Ht, undo_spec_triplet in Hsnaps' by done. by injection Hsnaps'.
  - rewrite Hhist. cbn [Frames.H_Snap]. rewrite !filter_cons_False by (intros Hn; apply Hn; rewrite !elem_of_cons; auto).
    apply list_filter_iff. intros x. rewrite !not_elem_of_cons. split; [tauto|]. intros [??]. split_and!; [done|done|apply not_elem_of_nil].
Qed.

(** C40: [ts go] enters the frame that its argument names: the current one without an
    argument, one that exists with an identity or a ref, and nothing has changed; and with a
    triplet one new frame, that no one had. The daemon is asked for it once, with the frames
    its components are to be copied from: root, home and work each from the current frame
    where the spec is empty, from the frame that a component names by identity or ref, and
    from none for [nil] and for a snap; it is recorded with the snaps of these frames, no
    snap for [nil], and else the snap that is named, with the isolation that was asked for;
    its history is that of the current frame, and the stores are as before otherwise. (The
    argument [::] is not covered: the design has it name the current frame, the command
    forks.) *)
Theorem go_enters_what_is_named `{Getopt} w args m r f p w' u user cmd :
  frames_at w m r → m !! cur = Some f → plain_frames m → (∀ n x, r !! n = Some x → length (Refs.R_UUID x) = 16%nat) →
  parseGoArgs args = Some p → text_ok (g_spec p) → text_ok (o_isolation (g_options p)) → g_spec p ≠ bs "::" →
  cmdGo w args = (w', Enters u user cmd) →
  user = g_user p ∧ cmd = shell_args (o_command (g_options p)) ∧
  ((g_spec p = [] ∧ u = String_ cur ∧ w' = w)
   ∨ (∃ v, named m r (g_spec p) = Some v ∧ u = String_ v ∧ w' = w)
   ∨ ∃ v a b c new shown, Split (g_spec p) ":"%byte = [a; b; c] ∧ u = String_ v ∧ m !! v = None
       ∧ (let asked := MkCreate shown [] [] [] [] [] (o_isolation (g_options p)) (copied_from m r a) (copied_from m r b) (copied_from m r c) in
          w' = (clone_history (post_create w asked).1 (String_ cur) (String_ v)).1)
       ∧ frames_at w' (<[v := new]> m) r
       ∧ Frames.Rootfs new = meaning m r f 0 a ∧ Frames.F_Home new = meaning m r f 1 b ∧ Frames.Work new = meaning m r f 2 c
       ∧ Frames.Isolation new = o_isolation (g_options p) ∧ Frames.History new = Frames.History f).
Proof.
  intros Hw Hf Hplain Hids Hp Hts Hti Hnf. unfold cmdGo. rewrite Hp. destruct (o_help (g_options p)); [done|].
  unfold doGetCurrentFrame. rewrite (get_frame_held w m f (proj1 Hw) Hf). cbn [fmap option_fmap option_map fr_UUID].
  unfold go_target. destruct (decide (g_spec p = [])) as [He|He].
  { rewrite bool_decide_eq_true_2 by done. cbn [andb]. intros [= <- <- <- <-]. split; [done|split; [done|left]]. by split_and!. }
  rewrite bool_decide_eq_false_2 by done. destruct (colons (g_spec p)) as [|[|[|n]]]; [|done| |done].
  - unfold doResolveFrame. destruct (resolve_frame w (g_spec p)) as [rs|] eqn:Hr; [|done]. cbn [mbind option_bind].
    pose proof (resolve_held w m r _ rs Hw Hids He Hr) as Hres. destruct (rs_Exists rs) eqn:Hx; [|done]. cbn [fmap option_fmap option_map andb].
    intros [= <- <- <- <-]. split; [done|split; [done|right; left]]. destruct (named m r (g_spec p)) as [v|]; [|congruence].
    destruct Hres as (g & _ & ->). by exists v.
  - rewrite (bool_decide_eq_false_2 (g_spec p = bs "::")) by done.
    destruct (resolveFrameTriplet w (g_spec p)) as [[shown [[rf hf] kf]]|] eqn:Htr; [|done].
    destruct (triplet_held w m r f Hw Hf Hplain Hids _ _ _ Hts Htr) as (a & b & c & Hsp & Htx & Hshown & Hparse & [= -> -> ->]).
    destruct (doCreate w shown _ [] _) as [w1 [x|]] eqn:Hc; [|done]. cbn [fmap option_fmap option_map andb].
    assert (Hme : m ≠ ∅) by (intros Hm; by rewrite Hm, lookup_empty in Hf).
    destruct (doCreate_held w m r _ _ _ w1 x Hw Hme Hshown Hti (parts_text _ Htx) Hc) as (Hpost & v & nf & -> & Hlv & Hv & Hw1 & Has & _).
    assert (Hne : String_ cur ≠ []) by (intros Hn; pose proof (uuid_element cur cur_length) as (Hy & _); by apply Hy).
    rewrite bool_decide_eq_true_2 by done. intros [= <- <- <- <-]. split; [done|split; [done|right; right]].
    assert (Hcur2 : <[v := nf]> m !! cur = Some f) by (rewrite lookup_insert_ne; [done|]; intros ->; congruence).
    pose proof (clone_held w1 _ _ cur v f nf Hw1 Hcur2 (lookup_insert_eq _ _ _)) as Hw2. rewrite insert_insert_eq in Hw2.
    exists v, a, b, c. eexists. exists shown. split; [done|split; [done|split; [done|split; [by rewrite Hpost|split; [exact Hw2|]]]]].
    pose proof (asked_snaps _ _ Has) as Hsn. cbn [SnapshotSpec] in Hsn. rewrite Hparse in Hsn. injection Hsn as H1' H2' H3'.
    destruct Has as (_ & _ & _ & Hi & _). by split_and!.
Qed.
End daemon.

(** ** An example *)

#[local] Existing Instances text_uuids zero_names RootFs.example_btrfs SnapFiles.meta_json SnapQueue.frame_json CreateFrame.example_ref_json CreateFrame.example_cp.
(** A command line without options. *)
#[local] Instance plain_getopt : Getopt := λ _ o args, Some (o, tail args).

Definition here : ID := replicate 16 Byte.x02.
Definition example_server : RefsHandlers.server := RefsHandlers.MkServer (bs "/data") (bs "/data/fs") true (bs "/data/fs/u/" ++ uuid_text here).
Definition example_frame : Frames.Frame :=
  Frames.MkFrame (bs "r") (bs "h") [] [] (bs "container") [Frames.MkHistory (bs "r:h:nil") 2 []; Frames.MkHistory (bs "r:nil:nil") 1 []] 0.
#[local] Abbreviation example_store := (RefsHandlers.namespaceFrameStore example_server (bs "u")).
Definition example_world : CreateFrame.world :=
  CreateFrame.MkWorld (RootFs.example_fs RootFs.example_snap) (Frames.Create no_fault 3 example_store (MkDisk ∅ ∅) here example_frame).1.2
    SnapQueue.newSnapQueue.

(** A snap that is always the same. *)
Definition example_snap (w : CreateFrame.world) (subdir : gostring) (wait : bool) : CreateFrame.world * option gostring :=
  match Frames.Get no_fault example_store (CreateFrame.c_disk w) here with
  | Ret f =>
      let f := SnapQueue.record_snap (bs "r2") [] [] (Frames.MkHistory (SnapFiles.triplet (bs "r2") [] []) 4 []) f in
      (CreateFrame.set_disk w (Frames.Update no_fault example_store (CreateFrame.c_disk w) here f).1.2, Some (SnapFiles.triplet (bs "r2") [] []))
  | _ => (w, None)
  end.
#[local] Abbreviation example_at := (frames_at (text_ok := λ _, True) (time_ok := λ _, True) example_server (bs "u")).

Lemma travel_home : RefsHandlers.at_home example_server [bs "data"] (bs "u").
Proof.
  split; [reflexivity|reflexivity|by apply Forall_cons_2; [apply proper_name|apply Forall_nil_2]|discriminate|by apply proper_name|].
  vm_compute. reflexivity.
Qed.
Lemma example_here : frameUUIDFromRootFS (RefsHandlers.s_fs example_server) (RefsHandlers.s_root example_server) = Some here.
Proof. vm_compute. reflexivity. Qed.
Lemma example_held : example_at example_world {[here := Frames.set_created example_frame 3]} ∅.
Proof.
  destruct (CreateFrame.frames_placed example_server _ _ travel_home) as (Hf & Hp & Hne).
  assert (Hm : CreateFrame.frames_held (text_ok := λ _, True) (time_ok := λ _, True) example_server (bs "u") (MkDisk ∅ ∅) ∅).
  { split; [|intros k [x Hx]; discriminate Hx]. intros k _. rewrite !lookup_empty. split; [apply not_elem_of_empty|done]. }
  assert (Hok : Frames.op_ok (text_ok := λ _, True) (time_ok := λ _, True) (Frames.OpCreate here example_frame)).
  { split; [reflexivity|]. split_and!; try exact I; try apply Forall_nil_2. by repeat (apply Forall_cons_2; [done|]). }
  pose proof (Frames.run_op_written _ _ Hf Hp Hne no_fault 3 (MkDisk ∅ ∅) ∅ _ Hm Hok I eq_refl) as Hw.
  assert (He : (Frames.Create no_fault 3 example_store (MkDisk ∅ ∅) here example_frame).2 = None) by (vm_compute; reflexivity).
  assert (Hd : bool_decide (Frames.fsDir example_store ∈ d_dirs (CreateFrame.c_disk example_world)) = true) by (vm_compute; reflexivity).
  assert (Hin : CreateFrame.within (RefId.beneath (Frames.fsDir example_store)) (Frames.fsDir example_store) (MkDisk ∅ ∅) (CreateFrame.c_disk example_world))
    by by apply (CreateFrame.Create_within example_server _ _ travel_home).
  change (Frames.run_op no_fault 3 (CreateFrame.own_frames example_server (bs "u")) (MkDisk ∅ ∅) (Frames.OpCreate here example_frame))
    with (Frames.Create no_fault 3 example_store (MkDisk ∅ ∅) here example_frame) in Hw.
  unfold example_world in *. destruct (Frames.Create no_fault 3 example_store (MkDisk ∅ ∅) here example_frame) as [[steps d] e]. cbn [fst snd] in *. subst e.
  split; [|split; [|intros _; by apply bool_decide_eq_true in Hd]].
  - destruct Hw as (_ & [[_ Hh]|(Hno & _)]); [exact Hh|done].
  - eapply (CreateFrame.refs_ours example_server _ _ travel_home); [|eapply CreateFrame.within_weaken, Hin; by right].
    split; [|done]. split; [|intros k [x Hx]; discriminate Hx]. intros k _. rewrite !lookup_empty. split; [apply not_elem_of_empty|done].
Qed.
Lemma example_snap_records w m r f w' id : example_at w m r → m !! here = Some f → example_snap w [] true = (w', Some id) →
  ∃ root home work t, id = SnapFiles.triplet root home work
    ∧ example_at w' (<[here := SnapQueue.record_snap root home work (Frames.MkHistory id t []) f]> m) r.
Proof.
  intros Hw Hf. unfold example_snap. rewrite (Get_held example_server _ w m here (proj1 Hw) eq_refl), Hf. intros [= <- <-].
  exists (bs "r2"), [], [], 4. split; [done|].
  assert (Hok : Frames.frame_ok (λ _, True) (λ _, True) (SnapQueue.record_snap (bs "r2") [] [] (Frames.MkHistory (SnapFiles.triplet (bs "r2") [] []) 4 []) f)).
  { split_and!; try exact I; apply Forall_forall; intros; repeat split. }
  destruct (Update_held example_server [bs "data"] (bs "u") travel_home I w m r here _ Hw eq_refl Hok ltac:(by eexists)) as (d & Hd & _ & Hw').
  rewrite <-Hd in Hw'. exact Hw'.
Qed.

Definition example_fork (w : CreateFrame.world) (refName : gostring) : CreateFrame.world * option gostring := (w, None).
Definition example_delete (w : CreateFrame.world) (uuid : gostring) : CreateFrame.world * bool := (w, false).
#[local] Instance example_daemon : Daemon CreateFrame.world :=
  frame_daemon example_server (bs "/data/snaps") (λ _, 0) (λ _ _, []) CreateFrame.example_environment (λ w _, (w, None))
    example_snap example_fork example_delete.

Lemma example_new u : CreateFrame.e_new CreateFrame.example_environment = Some u → length u = 16%nat.
Proof. intros [= <-]. reflexivity. Qed.
Lemma any_text (l : list gostring) : Forall (λ _, True) l.
Proof. apply Forall_forall. intros ? _. exact I. Qed.

(** The snap of now is the third; the one before it, [r:h:nil], is undone to. *)
Lemma undo_goes_back_witness :
  (cmdUndo example_world []).2 = Enters (String_ CreateFrame.example_id) [] []
  ∧ ∃ w' v new m, cmdUndo example_world [] = (w', Enters (String_ v) [] []) ∧ example_at w' m ∅ ∧ m !! v = Some new
    ∧ Frames.Rootfs new = bs "r" ∧ Frames.F_Home new = bs "h" ∧ Frames.Work new = []
    ∧ Frames.History new = [Frames.MkHistory (bs "r:nil:nil") 1 []].
Proof.
  assert (Hrun : (cmdUndo example_world []).2 = Enters (String_ CreateFrame.example_id) [] []) by (vm_compute; reflexivity).
  assert (Htaken : (example_snap example_world [] true).2 = Some (bs "r2:nil:nil")) by (vm_compute; reflexivity).
  split; [exact Hrun|]. destruct (cmdUndo example_world []) as [w' o] eqn:Hu. cbn [snd] in Hrun. subst o.
  assert (Hlook : {[here := Frames.set_created example_frame 3]} !! here = Some (Frames.set_created example_frame 3)) by apply lookup_singleton_eq.
  destruct (undo_goes_back (text_ok := λ _, True) (time_ok := λ _, True) example_server (bs "/data/snaps") (λ _, 0) (λ _ _, [])
    CreateFrame.example_environment (λ w _, (w, None)) example_snap example_fork example_delete [bs "data"] (bs "u") travel_home here example_here
    eq_refl I I example_new eq_refl (λ _ _, any_text _) I I (λ _ _, any_text _) (λ _ _, I) example_snap_records
    example_world [] _ ∅ _ _ _ w' _ _ _ example_held Hlook eq_refl Hu)
    as (v & root & home & work & t & new & Hv & _ & _ & Hsnapped & Hw' & Hparts & Hhist).
  destruct (Hparts (bs "r") (bs "h") []) as (Hr & Hh & Hk); [|reflexivity|].
  { repeat (apply Forall_cons_2; [split; [by apply (bool_decide_unpack _)|done]|]). apply Forall_nil_2. }
  rewrite Htaken in Hsnapped. injection Hsnapped as Hsnapped.
  exists w', v, new. eexists. split; [rewrite <-Hv; reflexivity|split; [exact Hw'|split; [apply lookup_insert_eq|split; [exact Hr|split; [exact Hh|split; [exact Hk|]]]]]].
  rewrite Hhist, <-Hsnapped. vm_compute. reflexivity.
Defined.

(** A new frame with the root of [r], the home of [h] and no work. *)
Lemma go_enters_what_is_named_witness :
  (cmdGo example_world [bs "r:h:nil"]).2 = Enters (String_ CreateFrame.example_id) [] []
  ∧ ∃ w' v new, cmdGo example_world [bs "r:h:nil"] = (w', Enters (String_ v) [] [])
    ∧ example_at w' (<[v := new]> {[here := Frames.set_created example_frame 3]}) ∅
    ∧ Frames.Rootfs new = bs "r" ∧ Frames.F_Home new = bs "h" ∧ Frames.Work new = [] ∧ Frames.History new = Frames.History example_frame.
Proof.
  assert (Hrun : (cmdGo example_world [bs "r:h:nil"]).2 = Enters (String_ CreateFrame.example_id) [] []) by (vm_compute; reflexivity).
  split; [exact Hrun|]. destruct (cmdGo example_world [bs "r:h:nil"]) as [w' o] eqn:Hu. cbn [snd] in Hrun. subst o.
  assert (Hlook : {[here := Frames.set_created example_frame 3]} !! here = Some (Frames.set_created example_frame 3)) by apply lookup_singleton_eq.
  assert (Hplain : plain_frames {[here := Frames.set_created example_frame 3]}).
  { intros v g i [<- <-]%lookup_singleton_Some. by destruct i as [|[|i]]; split; apply (bool_decide_unpack _). }
  destruct (go_enters_what_is_named (text_ok := λ _, True) (time_ok := λ _, True) example_server (bs "/data/snaps") (λ _, 0) (λ _ _, [])
    CreateFrame.example_environment (λ w _, (w, None)) example_snap example_fork example_delete [bs "data"] (bs "u") travel_home here example_here
    eq_refl I I example_new eq_refl (λ _ _, any_text _) I I (λ _ _, any_text _) (λ _ _, I)
    example_world [bs "r:h:nil"] _ ∅ _ (MkGoArgs (bs "r:h:nil") [] no_options) w' _ _ _ example_held Hlook Hplain
    ltac:(intros n x Hx; discriminate Hx) eq_refl I I ltac:(discriminate) Hu)
    as (_ & _ & [(Hs & _)|[(v & Hn & _)|(v & a & b & c & new & shown & Hsp & Hv & _ & _ & Hw' & Hr & Hh & Hk & _ & Hhist)]]).
  - discriminate Hs.
  - discriminate Hn.
  - exists w', v, new. vm_compute in Hsp. injection Hsp as <- <- <-. split; [rewrite <-Hv; reflexivity|split; [exact Hw'|]].
    split; [rewrite Hr; reflexivity|split; [rewrite Hh; reflexivity|split; [rewrite Hk; reflexivity|exact Hhist]]].
Defined.
